(* ===== verification/_CoqProject ===== *)
-Q . S2P
Prelude.v
B64Url.v
StatusBits.v
Cbor.v
CborKeys.v
CborSpec.v
CborWalk.v
CborItem.v
CborLimits.v
IndexStore.v
Allocator.v
AllocatorSafe.v
AllocatorCalls.v
AllocatorUse.v
Apdu.v
Ndef.v
Type4.v
Holder.v
Reader.v
DataExchange.v
HandoverExchange.v
Json.v
DcqlPath.v
DcqlQuery.v
DcqlValid.v
DcqlValues.v
DcqlMatch.v
DcqlAnswered.v
Prog.v
Text.v
WebOrigin.v
ListFetch.v
JwtDate.v
Jws.v
X509.v
CertRevocation.v
CertChain.v
TrustedAuthorities.v
Hkdf.v
Cose.v
Mdoc.v
MdocVerified.v
MdocIssue.v
MdocIssued.v
Oid4vpMdoc.v
IssuerKeys.v
Jwk.v
SdJwt.v
SdTree.v
SdSeal.v
SdSelect.v
SdPresent.v
SdVerify.v
SdVerified.v
SdIssue.v
Reasons.v
CredentialStatus.v
StatusToken.v
StatusCheck.v
Attestation.v
VerifyResponse.v
VerifiedResponse.v
BoundResponse.v
TxStore.v
CredentialOffer.v
IssuerStores.v
IssuerConfig.v
Issuer.v
IssuerSafe.v
IssuerProofs.v
IssuerEncryption.v
CredentialEndpoint.v
IssuerCalls.v
IssuerNonce.v
IssuerTogether.v
MdocRequest.v
Transactions.v
TransactionsSafe.v
TransactionsTogether.v
TransactionsUse.v
