(* ===== verification/Prelude.v ===== *)
(** * OID4VCgo verification library

    OID4VCgo is a Go library for issuing, holding and verifying digital
    credentials: OpenID4VCI, OpenID4VP, SD-JWT VC, mdoc (ISO/IEC 18013-5),
    token status lists and device engagement over NFC.  This library models
    the parts of it that decide things, over parameters for the cryptography,
    the encoders and the networks they call, and proves what makes them correct.

    ** The parts and how they interact

    A credential is issued with an index of a status list in it
    ([statuslist]): the Allocator reserves the index behind an IndexStore,
    and the list is published as packed bytes.  An SD-JWT VC
    ([credential/sdjwtvc]) is sealed, its claims put behind disclosures; a
    Wallet asked for claims by a DCQL query ([dcql]) matches the query
    against its credentials, selects the disclosures a path needs, and
    presents them, followed by a JWT of its own over them; a Verifier checks
    the Issuer's signature and the Holder's, resolves what it is given, matches
    the claims against the query again, and checks that the answer is complete.
    An mdoc's issuer signs digests of its elements, and a Holder signs the
    session it is presented in; both Issuers' keys come from certificates,
    whose paths must be trusted, not revoked, and of the authorities asked for.
    [VerifyResponse] puts all of this together, one answer at a time.
    Around that, its Transactions ([verifier]) keep each request, from the
    browser that asks for it to the one that gets its result, in a store
    ([storage]) that any number of calls share.  A Credential Issuer
    ([issuer]) keeps nonces, pre-authorized codes and deferred credentials in
    such stores too, and issues a credential for each key a Wallet proves.  An
    mdoc is CBOR, which [internal/strictcbor] walks before any decoder sees it.  In
    proximity an mdoc and its reader may hand over by NFC and exchange their
    session's messages over it ([proximity], [proximity/nfcapdu]).

    ** Files

    - This file: results, lists, options and integers, and the tactics all
      share.
    - [B64Url]: [internal/b64url], and Go's own base64.RawURLEncoding, which
      reads more spellings.
    - [StatusBits]: [Pack], [Unpack] and the two readers of a Status List.
    - [Cbor] is the walk of [internal/strictcbor]; [CborSpec] the rules of what
      it should accept; [CborKeys], [CborWalk], [CborItem] the walk against the
      rules; [CborLimits] the exported calls.
    - [IndexStore]: the interface an Allocator keeps its reservations behind,
      a class with its laws, and MemoryIndexStore as its instance.
      [Allocator]: an Allocator's calls as trees of operations on what calls
      share.  [AllocatorSafe], [AllocatorCalls]: any interleaving of any
      number of calls.  [AllocatorUse]: one call at a time.
    - [Apdu], [Ndef] (with TNEP), [Type4], [Holder], [Reader]: one file of
      [proximity/nfcapdu] each (and [proximity/ndef.go]); [DataExchange] and
      [HandoverExchange] run the reader against the holder.
    - [Json]: claims as values.  [DcqlPath], [DcqlQuery], [DcqlValues],
      [DcqlMatch], [DcqlAnswered]: one file of [dcql] each; [DcqlValid] is what
      a valid query is.
    - [Text]: Go's strings, split and joined.  [JwtDate]: [internal/jwtdate].
      [Jws]: [internal/jose] with [internal/ecdsafixed]; the signatures and JSON
      it calls are the classes [Signatures] and [JsonText].
    - [SdJwt]: sealing and resolving of [credential/sdjwtvc].  [SdTree]: a
      tree of claims and what a choice of its disclosures reveals, which
      resolving refines.  [SdSeal]: the round trip.  [SdSelect], [SdPresent]:
      choosing disclosures for paths, and presenting them.  [SdVerify]:
      presentations as text, Key Binding JWTs and [Verify]; [SdVerified]: what
      it accepts.
    - [X509]: certificates and revocation lists as the code reads them, with
      the class of what it calls of crypto/x509.  [CertRevocation]:
      [certrevocation].  [CertChain]: [internal/certchain].
      [TrustedAuthorities]: the AKI checker of [dcql].
    - [Hkdf], [Cose], [Jwk], [WebOrigin]: [internal/hkdf], [internal/cose],
      [internal/jwk], [internal/weborigin].
    - [Mdoc], [MdocIssue]: [credential/mdoc]; [MdocVerified]: what it accepts;
      [MdocIssued]: what is issued verifies.  [Oid4vpMdoc]: [oid4vpmdoc], presentations and the session
      transcripts they sign.
    - [IssuerKeys]: the certificate resolvers of [verifier].  [Reasons]: its
      errors.  [CredentialStatus]: whether a credential's status must be known.
      [ListFetch]: one list fetched, and the addresses a fetch may reach.
      [StatusToken]: Status List Tokens, issued and checked, and what a cache
      keeps of one.  [StatusCheck]: [identifierlist], the signers
      [credential/mdoc] and [verifier] trust a credential's list to, and the
      check of a credential's references.
      [VerifyResponse]: verifying an answer; [VerifiedResponse]: what it comes
      to; [BoundResponse]: what each credential of it was checked for, and one
      answer verified.
    - [Prog]: calls as trees of atomic operations, any number interleaved,
      what each may rely on of the others, and a run's trace: what each
      call did, in order.  [TxStore]: a Verifier's
      transactions and the TransactionStore they are kept behind, a class with
      its laws, with [storage]'s in-memory store as its instance.
      [MdocRequest]: an org-iso-mdoc request as a DCQL query.
      [Transactions]: every call of [verifier]'s Transactions, and the
      direct_post endpoint.  [TransactionsSafe]: each call among others,
      and an example to run; [TransactionsTogether]: all of them;
      [TransactionsUse]: a store that works and an answer that is right.
    - [SdIssue]: issuing SD-JWT VCs and their types' metadata.  [Attestation]:
      [attestation].  [CredentialOffer]: offers.  [IssuerStores]: what an
      issuer keeps, each store a class with its laws, and [storage]'s
      in-memory stores.  [IssuerConfig]: [issuer]'s New.  [Issuer]: its nonces,
      codes, offers and notifications; [IssuerProofs]: proofs of possession;
      [IssuerEncryption]: requests and responses; [CredentialEndpoint]:
      credentials requested, deferred and collected.  [IssuerSafe]: what an
      Issuer's stores hold, with any number of calls interleaved;
      [IssuerCalls]: each call among others, and an Issuer to run;
      [IssuerTogether]: all of them; [IssuerNonce]: c_nonces kept nowhere.

    ** How code corresponds to definitions

    A Go function is a definition of its name, its guards in their order and
    each error a constructor of the component's error type.  [(T, error)] is
    [res E T].  A method that changes its receiver is a function to the
    receiver it leaves, also where it fails.  A struct is a Record, a tagged
    value an Inductive type.  Bytes, int and uint64 are [Z]; where a width can be passed,
    the wrap-around or the guard against it is written out.  A map is a [gmap] where its
    order cannot be seen, a list where it can.  Concurrency is explicit: an
    Allocator's call is a tree of operations, each atomic by the mutex or the
    store that guards it, and the theorems quantify over the interleaving; a
    Holder's call is one step, its mutex being held throughout; a call of
    Transactions, or of an Issuer, is a tree of what it does of the stores, the
    clock, the random source and the world, which changes between any two; the reader's
    goroutine and channels are a tree of commands and responses.

    ** What the theorems show

    - The CBOR walk accepts exactly the items its rules derive, within the
      limits; keys of an accepted map are distinct; its work is bounded by
      its item limit, and calls that share a budget share that bound.
    - Status lists: unpacking inverts packing; the streamed reader is the
      whole one; no index is allocated twice under any interleaving; fill
      limits are passed by no more than the calls in flight; a call reports
      the lists full only when they are; draws are uniform; a batch ends.
    - NFC: parsers accept exactly the format's encodings and read back what
      the encoders write; two NDEF parsers agree; a session message reaches
      the holder, and its answer the reader, whatever the limits of the two
      sides; a handover is read as it is served; a message is reported read
      once, and after all of it was read.
    - DCQL: [Select], [Validate], [valueEquals], [selectedClaimPaths] and
      [CheckAnswered] each equal what OpenID4VP says of them without its loops; and
      what a Wallet selects from a credential is accepted by the Verifier's check.
    - SD-JWT: sealing, presenting any choice of the disclosures and resolving
      gives the claims that choice reveals; selecting ends, and what it
      selects always resolves.
    - A compact JWS has one spelling and is signed as spelled; a verified SD-JWT
      VC has the registered claims its Issuer signed, whatever was disclosed,
      and its Key Binding JWT is over the very text presented, for the request
      it answers.
    - Certificates: the paths trusted are those the roots, the policy and
      revocation leave; a revocation list spares or not whatever was kept of it
      before; an authority is met by its key, or by what an anchor of the
      Verifier's own declares.  Resolving an issuer once agrees with twice.
    - COSE and mdoc: a message verifies exactly when it is the encoding of one
      signed; what is signed verifies; an mdoc verifies exactly when it is
      dated and digested as its issuer signed, and so does any selection of
      it; a session transcript is of one request.
    - An accepted answer: each credential was presented for it, signed by an
      issuer, bound to its holder and to the request, with nothing that was
      not asked for; none counts twice; what was discarded is reported; and
      what is left answers the query.  A presentation serves one request.
    - The status of a credential: VALID exactly when a fresh list of the URI it
      names, signed by one its issuer allows, says so, read from the token or
      from what a cache kept of another's check; an mdoc passes its identifier
      list exactly when the list leaves it out.  A policy passes only such
      credentials.  What is fetched is bounded; and of the addresses without a zone a
      Fetcher reaches those its options permit.
    - Transactions: in every reachable state a stored request is as its call
      began it and holds a result only where one was verified for it; one
      answer completes it; a result goes to the browser that began it, and
      once where it is forgotten once read; and a right answer comes to a
      result, whatever wrong ones came before.
    - Issuers, any number sharing stores, in every reachable state: records are
      as the calls that made them say; a code is redeemed once, within the
      lifetime of the offer that drew it and for what that offer granted (of
      any trace of the run), and guessed at no more often than allowed; a c_nonce
      serves one answered request; a deferred credential is decided once and
      handed over once, to the client that asked for it.
      IssuePreAuthorizedCode, whose code is the application's own and which
      production refuses, is none of these calls, and c_nonces kept nowhere
      are told of apart.
    - Some theorems record where the code departs from what it says: reading
      a handover of nothing, an incomplete selection, a stateless c_nonce
      spent twice, an address with a zone ([ListFetch.zoned_addresses_allowed]),
      and a Checker of one issuer ([StatusCheck.mdoc_named_issuer]).

    ** Fuel and bounds

    Recursion that is not structural takes fuel, proved enough:
    [CborLimits.walk_terminates] for the CBOR walk (its bytes and its levels);
    the walk of [SdSelect] over disclosures takes one more than there are,
    each step marking a new one; resolving takes as many levels as the
    source's maxDepth allows and reports the error the source does when they
    run out, so it is no model's bound; the readers' and writers' loops take
    what is left to read.  maxOptionCombinations (10,000) and the other limits
    are the source's own constants, and theorems say what holds within them.

    ** Parameters

    What is no code of the repository is an argument of the definitions: the
    zlib inflater, url.Parse, the decoder behind the CBOR walk, big.Rat's
    SetString, the decoding of a query's meta, the hash functions and the
    JSON encoding of a disclosure (class [Codec], with the laws the theorems
    use), the supply of salts, decoys and tokens, and the callbacks an
    application gives.  Signatures are the classes [Signatures] and
    [CoseKeys], the CBOR library's encoding and decoding [CborLib] and
    [MdocCbor], elliptic curves [Curves], crypto/x509 [X509], JSON [JsonText]
    and [JwkText].  To [Transactions], JWE, the building of requests and the
    verification of an answer are the class [Deps].  Each law is a named
    hypothesis, with a concrete instance that
    has it where a theorem's example is computed.

    ** Not modelled

    [internal/jwe] is a cryptographic library with checks around it.
    [wallet], [walletflow], [walletprovider], [mdocdcapi] and [haip] are
    protocol flows over HTTP that call the modelled parts and those libraries.
    Of [issuer], the HTTP around its calls, its metadata, and the resolvers of
    keys and status lists are left out.  Of [verifier], NewTransactions'
    checks of a configuration and the building of requests are left out, of
    [certrevocation] the refreshing of lists over HTTP;
    [sqlstore] is SQL; [mobile], [cmd], [conformance] and [examples] are
    glue.  Of [statuslist] and [identifierlist] the publishing of lists, and
    when a cache keeps, evicts and fetches again (what it keeps, and the check
    made of that, are modelled), and of [proximity] the encrypted session, BLE and the engagement's
    CBOR are left out. *)
From stdpp Require Export base tactics list strings gmap.
From Stdlib Require Export ZArith Lia.

#[global] Open Scope Z_scope.

(** ** Results

    Go functions that return [(T, error)] are functions into [res E T];
    each component has its own inductive type of errors, one constructor per
    error value or message of the source. *)

Inductive res (E A : Type) : Type :=
| Ok (a : A)
| Err (e : E).
Arguments Ok {E A} a.
Arguments Err {E A} e.

Definition res_bind {E A B : Type} (m : res E A) (k : A -> res E B) : res E B :=
  match m with
  | Ok a => k a
  | Err e => Err e
  end.

Definition res_map_err {E F A : Type} (f : E -> F) (m : res E A) : res F A :=
  match m with
  | Ok a => Ok a
  | Err e => Err (f e)
  end.

Definition is_ok {E A : Type} (m : res E A) : bool :=
  match m with Ok _ => true | Err _ => false end.

Declare Scope go_scope.
Delimit Scope go_scope with go.
Notation "'let?' x ':=' m 'in' k" := (res_bind m (fun x => k))
  (at level 10, x pattern, m at level 100, k at level 200) : go_scope.
#[global] Open Scope go_scope.

(** ** Machine integers and bytes

    A Go integer of width w is a [Z]; arithmetic that can wrap says so.  A
    byte is a [Z] with [byte_ok], a byte slice a list of them. *)

Abbreviation bytes := (list Z) (only parsing).

Definition wrap8 (z : Z) : Z := z mod 2 ^ 8.
Definition wrap16 (z : Z) : Z := z mod 2 ^ 16.
Definition wrap64 (z : Z) : Z := z mod 2 ^ 64.

Definition byte_ok (b : Z) : Prop := 0 <= b < 256.
Definition bytes_ok (l : bytes) : Prop := Forall byte_ok l.

(** [blen l] is Go's [len(l)]. *)
Definition blen {A : Type} (l : list A) : Z := Z.of_nat (length l).

(** [at_ l i] is [l[i]] where the index is known to be in range. *)
Definition at_ (l : bytes) (i : Z) : Z := default 0 (l !! Z.to_nat i).

(** [slice l i j] is [l[i:j]] where [i <= j <= len(l)]. *)
Definition slice {A : Type} (l : list A) (i j : Z) : list A :=
  take (Z.to_nat (j - i)) (drop (Z.to_nat i) l).

(** The big-endian value of a byte slice, as
    [for _, c := range b { n = n<<8 | c }] computes it. *)
Definition be_step (n c : Z) : Z := Z.lor (Z.shiftl n 8) c.
Definition be_value (l : bytes) : Z := fold_left be_step l 0.

(** The big-endian encoding of [z] in [n] bytes
    (binary.BigEndian.PutUint16/32/64). *)
Fixpoint be_bytes (n : nat) (z : Z) : bytes :=
  match n with
  | O => []
  | S n => Z.land (Z.shiftr z (8 * Z.of_nat n)) 255 :: be_bytes n z
  end.

(** ** Automation *)

Create HintDb go discriminated.


Ltac destruct_res :=
  repeat match goal with
  | H : res_bind ?m _ = Ok _ |- _ =>
      let E := fresh "E" in destruct m eqn:E; cbn [res_bind] in H; [|discriminate]
  | H : Ok _ = Ok _ |- _ => injection H as H
  | H : Err _ = Ok _ |- _ => discriminate H
  | H : Ok _ = Err _ |- _ => discriminate H
  end.

(** Case analysis on the tests a definition makes, turning each boolean
    comparison into an arithmetic hypothesis. *)
Ltac go_case :=
  match goal with
  | |- context [if (?a <? ?b) then _ else _] => destruct (Z.ltb_spec a b)
  | |- context [if (?a <=? ?b) then _ else _] => destruct (Z.leb_spec a b)
  | |- context [if (?a =? ?b) then _ else _] => destruct (Z.eqb_spec a b)
  | |- context [if ?c then _ else _] => let E := fresh "E" in destruct c eqn:E
  end.

Ltac go_case_in H :=
  match type of H with
  | context [if (?a <? ?b) then _ else _] => destruct (Z.ltb_spec a b)
  | context [if (?a <=? ?b) then _ else _] => destruct (Z.leb_spec a b)
  | context [if (?a =? ?b) then _ else _] => destruct (Z.eqb_spec a b)
  | context [if ?c then _ else _] => let E := fresh "E" in destruct c eqn:E
  end.

(** The same for the outermost test alone. *)
Ltac go_test c :=
  lazymatch c with
  | ?a <? ?b => destruct (Z.ltb_spec a b)
  | ?a <=? ?b => destruct (Z.leb_spec a b)
  | ?a =? ?b => destruct (Z.eqb_spec a b)
  | _ => let E := fresh "E" in destruct c eqn:E
  end.
Ltac go_if :=
  lazymatch goal with
  | |- (if ?c then _ else _) = _ => go_test c
  | |- (if ?c then _ else _) <> _ => go_test c
  | |- (if ?c then _ else _) = _ -> _ => go_test c
  end.
Ltac go_if_in H :=
  lazymatch type of H with (if ?c then _ else _) = _ => go_test c end.

(** Boolean hypotheses made of [&&], [||] and comparisons, as propositions. *)
Ltac bool_prop :=
  repeat match goal with
  | H : (_ && _)%bool = true |- _ => apply andb_true_iff in H as [? ?]
  | H : (_ || _)%bool = false |- _ => apply orb_false_iff in H as [? ?]
  | H : (_ && _)%bool = false |- _ => apply andb_false_iff in H
  | H : (_ || _)%bool = true |- _ => apply orb_true_iff in H
  | H : negb _ = true |- _ => apply negb_true_iff in H
  | H : negb _ = false |- _ => apply negb_false_iff in H
  | H : (_ <? _) = true |- _ => apply Z.ltb_lt in H
  | H : (_ <? _) = false |- _ => apply Z.ltb_ge in H
  | H : (_ <=? _) = true |- _ => apply Z.leb_le in H
  | H : (_ <=? _) = false |- _ => apply Z.leb_gt in H
  | H : (_ =? _) = true |- _ => apply Z.eqb_eq in H
  | H : (_ =? _) = false |- _ => apply Z.eqb_neq in H
  | H : bool_decide _ = true |- _ => apply bool_decide_eq_true_1 in H
  | H : bool_decide _ = false |- _ => apply bool_decide_eq_false_1 in H
  end.

Lemma wrap8_ok z : byte_ok (wrap8 z).
Proof. unfold wrap8, byte_ok; apply Z.mod_pos_bound; lia. Qed.

(** Goals [bytes_ok [b1; ...; bn]], up to arithmetic. *)
Ltac solve_bytes :=
  unfold bytes_ok in *;
  repeat first [assumption | apply wrap8_ok | apply Forall_nil_2 | apply Forall_cons_2];
  unfold byte_ok in *; Z.div_mod_to_equations; lia.

(** ** Lemmas on results *)

Lemma res_bind_ok {E A B} (m : res E A) (k : A -> res E B) b :
  res_bind m k = Ok b <-> exists a, m = Ok a /\ k a = Ok b.
Proof. destruct m; cbn; naive_solver. Qed.

(** Results of two routines that fail on the same inputs, each with errors of
    its own, and succeed with related values. *)
Definition agrees {E F A B : Type} (R : A -> B -> Prop) (x : res E A) (y : res F B) : Prop :=
  match x, y with
  | Ok a, Ok b => R a b
  | Err _, Err _ => True
  | _, _ => False
  end.

Lemma agrees_bind {E F A B A' B'} (R : A -> B -> Prop) (R' : A' -> B' -> Prop)
    (x : res E A) (y : res F B) (f : A -> res E A') (g : B -> res F B') :
  agrees R x y -> (forall a b, R a b -> agrees R' (f a) (g b)) -> agrees R' (res_bind x f) (res_bind y g).
Proof. destruct x, y; cbn; auto; done. Qed.

(** A test made before a call can be made after it: the call changes nothing. *)
Lemma agrees_test_l {E F A A' B} (R : A' -> B -> Prop) (c : bool) (e : E) (m : res E A) f (y : res F B) :
  agrees R (let? a := m in if c then Err e else f a) y -> agrees R (if c then Err e else let? a := m in f a) y.
Proof. destruct c, m, y; done. Qed.

Lemma agrees_test_r {E F A B B'} (R : A -> B' -> Prop) (c : bool) (e : F) (m : res F B) f (x : res E A) :
  agrees R x (let? a := m in if c then Err e else f a) -> agrees R x (if c then Err e else let? a := m in f a).
Proof. destruct c, m, x; done. Qed.

Definition is_Some_b {A : Type} (o : option A) : bool := match o with Some _ => true | None => false end.

Lemma is_ok_true {E A} (m : res E A) : is_ok m = true <-> exists a, m = Ok a.
Proof. destruct m; cbn; naive_solver. Qed.

Lemma res_map_err_ok {E F A} (f : E -> F) (m : res E A) a :
  res_map_err f m = Ok a <-> m = Ok a.
Proof. destruct m; cbn; naive_solver. Qed.

(** ** Lemmas on tests *)

Lemma eqb_or a b c : ((a =? b) || (a =? c))%bool = true <-> a = b \/ a = c.
Proof. rewrite orb_true_iff, !Z.eqb_eq; done. Qed.

Lemma eqb_or_false a b c : ((a =? b) || (a =? c))%bool = false <-> a <> b /\ a <> c.
Proof. rewrite orb_false_iff, !Z.eqb_neq; done. Qed.

Lemma bind_cons_eq {A B} (f : A -> list B) x l : (x :: l) ≫= f = f x ++ (l ≫= f).
Proof. done. Qed.

(** A string and its prefixes. *)
Lemma prefix_split p s : String.prefix p s = true -> exists t, s = (p ++ t)%string.
Proof.
  revert s; induction p as [|a p IH]; intros s; [by exists s|]; destruct s as [|b s]; cbn [String.prefix]; [done|].
  destruct (Ascii.ascii_dec a b) as [->|]; [|done]; intros [t ->]%IH; by exists t.
Qed.

Lemma prefix_app p t : String.prefix p (p ++ t) = true.
Proof. induction p as [|a p IH]; [by destruct t|]; change (String.String a p ++ t)%string with (String.String a (p ++ t)); cbn; by destruct (Ascii.ascii_dec a a). Qed.

Lemma substring_app p t : String.substring (String.length p) (String.length (p ++ t) - String.length p) (p ++ t) = t.
Proof.
  assert (Hall : forall t, String.substring 0 (String.length t) t = t) by (clear; induction t as [|c t IH]; cbn; [done|by rewrite IH]).
  induction p as [|a p IH]; [change ("" ++ t)%string with t; by rewrite Nat.sub_0_r|].
  change (String.String a p ++ t)%string with (String.String a (p ++ t)); cbn [String.length String.substring Nat.sub]; apply IH.
Qed.

(** Strings in byte order, as Go's sort.Strings puts them. *)
Definition string_le (s t : string) : Prop := String.leb s t = true.

#[export] Instance string_le_dec : RelDecision string_le.
Proof. intros s t; unfold string_le; apply _. Defined.

(** ** Lemmas on lengths and slices *)

Lemma blen_nonneg {A} (l : list A) : 0 <= blen l.
Proof. unfold blen; lia. Qed.

Lemma blen_nil {A} : blen (@nil A) = 0.
Proof. reflexivity. Qed.

Lemma blen_cons {A} (x : A) l : blen (x :: l) = 1 + blen l.
Proof. unfold blen; cbn [length]; lia. Qed.

Lemma blen_app {A} (l k : list A) : blen (l ++ k) = blen l + blen k.
Proof. unfold blen; rewrite length_app; lia. Qed.

Lemma blen_zero {A} (l : list A) : blen l = 0 -> l = [].
Proof. destruct l; [done|rewrite blen_cons; pose proof (blen_nonneg l); lia]. Qed.

Hint Rewrite @blen_nil @blen_cons @blen_app : blen.

Lemma slice_length {A} (l : list A) i j :
  0 <= i -> i <= j -> j <= blen l -> blen (slice l i j) = j - i.
Proof. unfold blen, slice; intros; rewrite length_take, length_drop; lia. Qed.

Lemma slice_nil {A} (l : list A) i j : j <= i -> slice l i j = [].
Proof. unfold slice; intros; replace (Z.to_nat (j - i)) with 0%nat by lia; done. Qed.

Lemma slice_full {A} (l : list A) : slice l 0 (blen l) = l.
Proof. unfold slice, blen; cbn [Z.to_nat drop]; apply take_ge; lia. Qed.

Lemma slice_suffix {A} (l : list A) i : 0 <= i -> slice l i (blen l) = drop (Z.to_nat i) l.
Proof. unfold slice, blen; intros; apply take_ge; rewrite length_drop; lia. Qed.

Lemma slice_0 {A} (l : list A) k : slice l 0 k = take (Z.to_nat k) l.
Proof. unfold slice; cbn; by rewrite Z.sub_0_r. Qed.

Lemma slice_cons {A} (x : A) l i j : 1 <= i -> slice (x :: l) i j = slice l (i - 1) (j - 1).
Proof.
  intros Hi; unfold slice; replace (Z.to_nat i) with (S (Z.to_nat (i - 1))) by lia; cbn [drop].
  by replace (j - 1 - (i - 1)) with (j - i) by lia.
Qed.

Lemma slice_app_l {A} (l k : list A) : slice (l ++ k) 0 (blen l) = l.
Proof. rewrite slice_0; unfold blen; rewrite Nat2Z.id; apply take_app_length. Qed.

Lemma slice_app {A} (l : list A) i j k :
  0 <= i -> i <= j -> j <= k -> slice l i j ++ slice l j k = slice l i k.
Proof.
  intros; unfold slice.
  replace (Z.to_nat j) with (Z.to_nat i + Z.to_nat (j - i))%nat by lia.
  rewrite <- drop_drop.
  replace (Z.to_nat (k - i)) with (Z.to_nat (j - i) + Z.to_nat (k - j))%nat by lia.
  generalize (drop (Z.to_nat i) l) (Z.to_nat (j - i)) (Z.to_nat (k - j)); intros m a b.
  revert m; induction a as [|a IH]; intros [|x m]; cbn; [done..| |].
  - by rewrite !take_nil.
  - f_equal; apply IH.
Qed.

Lemma at_app_l (l k : bytes) i : 0 <= i < blen l -> at_ (l ++ k) i = at_ l i.
Proof. unfold at_, blen; intros; by rewrite lookup_app_l by lia. Qed.

Lemma at_app_r (l k : bytes) i : blen l <= i -> at_ (l ++ k) i = at_ k (i - blen l).
Proof.
  unfold at_, blen; intros; rewrite lookup_app_r by lia.
  by replace (Z.to_nat (i - Z.of_nat (length l))) with (Z.to_nat i - length l)%nat by lia.
Qed.

Lemma at_ok (l : bytes) i : bytes_ok l -> byte_ok (at_ l i).
Proof.
  unfold at_; intros Hl; destruct (l !! Z.to_nat i) eqn:E; cbn.
  - by eapply Forall_lookup_1 in E.
  - unfold byte_ok; lia.
Qed.

Lemma elem_of_insert_cases {A} (x y : A) (l : list A) i : x ∈ <[i := y]> l -> x = y \/ x ∈ l.
Proof.
  intros [j Hj]%list_elem_of_lookup; apply list_lookup_insert_Some in Hj as [(_ & -> & _)|(_ & Hj)]; [by left|].
  right; by eapply list_elem_of_lookup_2.
Qed.

Lemma NoDup_submseteq_l {A} (l k : list A) : l ⊆+ k -> NoDup k -> NoDup l.
Proof. intros [k' ->]%submseteq_Permutation Hnd; by apply NoDup_app in Hnd as [? _]. Qed.

(** ** Lemmas on big-endian numbers *)

Lemma land_255 z : Z.land z 255 = z mod 256.
Proof. change 255 with (Z.ones 8); rewrite Z.land_ones by lia; reflexivity. Qed.

Lemma lor_shiftl_add k n c : 0 <= k -> 0 <= c < 2 ^ k -> Z.lor (Z.shiftl n k) c = n * 2 ^ k + c.
Proof.
  intros Hk Hc; rewrite Z.shiftl_mul_pow2 by done.
  assert (Hlow : c = c mod 2 ^ k) by (rewrite Z.mod_small; lia).
  apply Z.bits_inj'; intros i Hi; rewrite Z.lor_spec.
  destruct (Z.lt_ge_cases i k) as [Hik|Hik].
  - rewrite Z.mul_pow2_bits_low, <- (Z.mod_pow2_bits_low (n * 2 ^ k + c) k) by done.
    by rewrite Z.add_comm, Z_mod_plus_full, <- Hlow.
  - rewrite Hlow at 1; rewrite Z.mod_pow2_bits_high, orb_false_r, Z.mul_pow2_bits by lia.
    replace i with (i - k + k) at 2 by lia.
    rewrite <- Z.div_pow2_bits by lia.
    by rewrite Z.add_comm, Z.div_add, Z.div_small by lia.
Qed.

Lemma lor_byte n c : byte_ok c -> Z.lor (Z.shiftl n 8) c = n * 256 + c.
Proof. intros Hc; by apply lor_shiftl_add. Qed.

Lemma wrap8_small z : byte_ok z -> wrap8 z = z.
Proof. unfold wrap8, byte_ok; intros; apply Z.mod_small; lia. Qed.

Lemma be_step_byte n c : byte_ok c -> be_step n c = n * 256 + c.
Proof. apply lor_byte. Qed.

Lemma be_fold_app n l k : fold_left be_step (l ++ k) n = fold_left be_step k (fold_left be_step l n).
Proof. apply fold_left_app. Qed.

Lemma be_fold_value n l :
  bytes_ok l -> fold_left be_step l n = n * 256 ^ blen l + be_value l.
Proof.
  unfold be_value; revert n.
  assert (H : forall n m, bytes_ok l ->
    fold_left be_step l (n + m) = n * 256 ^ blen l + fold_left be_step l m).
  { induction l as [|c l IH]; intros n m Hl; cbn [fold_left].
    - rewrite blen_nil, Z.pow_0_r; lia.
    - inversion_clear Hl as [|? ? Hc Hl'].
      rewrite !be_step_byte by done.
      replace ((n + m) * 256 + c) with (n * 256 + (m * 256 + c)) by lia.
      rewrite IH by done; rewrite blen_cons, Z.pow_add_r by (pose proof (blen_nonneg l); lia).
      lia. }
  intros n Hl; rewrite <- H by done; f_equal; lia.
Qed.

Lemma be_value_cons c l :
  byte_ok c -> bytes_ok l -> be_value (c :: l) = c * 256 ^ blen l + be_value l.
Proof.
  intros Hc Hl; unfold be_value at 1; cbn [fold_left].
  rewrite be_fold_value, be_step_byte by done.
  unfold blen; lia.
Qed.

Lemma be_value_bound l : bytes_ok l -> 0 <= be_value l < 256 ^ blen l.
Proof.
  induction l as [|c l IH]; intros Hl; [done|].
  inversion_clear Hl as [|? ? Hc Hl']; rewrite be_value_cons by done.
  specialize (IH Hl'); rewrite blen_cons, Z.pow_add_r by (pose proof (blen_nonneg l); lia).
  unfold byte_ok in Hc; rewrite Z.pow_1_r.
  revert IH; generalize (256 ^ blen l) (be_value l); intros P v Hv; nia.
Qed.

Lemma be_bytes_length n z : length (be_bytes n z) = n.
Proof. induction n; cbn; congruence. Qed.

Lemma be_bytes_blen n z : blen (be_bytes n z) = Z.of_nat n.
Proof. unfold blen; by rewrite be_bytes_length. Qed.

Lemma be_bytes_ok n z : bytes_ok (be_bytes n z).
Proof.
  induction n; cbn; constructor; [|done].
  rewrite land_255; unfold byte_ok; apply Z.mod_pos_bound; lia.
Qed.

Lemma be_value_bytes n z : be_value (be_bytes n z) = z mod 256 ^ Z.of_nat n.
Proof.
  induction n as [|n IH].
  - cbn; by rewrite Z.mod_1_r.
  - cbn [be_bytes]; rewrite be_value_cons.
    + rewrite IH, be_bytes_blen, land_255, Z.shiftr_div_pow2 by lia.
      replace (2 ^ (8 * Z.of_nat n)) with (256 ^ Z.of_nat n)
        by (rewrite Z.pow_mul_r by lia; reflexivity).
      rewrite Nat2Z.inj_succ, Z.pow_succ_r by lia.
      rewrite (Z.mul_comm 256), Z.rem_mul_r by lia; lia.
    + rewrite land_255; unfold byte_ok; apply Z.mod_pos_bound; lia.
    + apply be_bytes_ok.
Qed.

#[export] Hint Resolve be_bytes_ok at_ok wrap8_ok : go.
