(* ===== verification/B64Url.v ===== *)
(** * Base64url without padding: [internal/b64url]

    [EncodeToString] and [DecodeString], with encoding/base64's strict raw URL
    codec (the part of the standard library they use) written out; strings
    are byte slices.  The theorems: decoding inverts encoding, and a string
    that decodes is the one encoding of its value.  Where the sources call
    base64.RawURLEncoding itself (an mdoc presentation's text), its lenient
    decoder is [RawURLEncoding_DecodeString]: it reads past line breaks and
    ignores the bits a last character has over, so what it accepts has many
    spellings; it agrees with [DecodeString] on what that accepts. *)
From S2P Require Import Prelude.

(** ** The codec *)

Inductive b64_error : Type :=
| ErrIllegalByte (c : Z) (offset : Z)
| ErrCorruptInput.

Definition isAlphabet (c : Z) : bool :=
  (65 <=? c) && (c <=? 90) || (97 <=? c) && (c <=? 122) || (48 <=? c) && (c <=? 57) ||
  (c =? 45) || (c =? 95).

(** The alphabet of RFC 4648 §5 and its inverse. *)
Definition char_of (d : Z) : Z :=
  if d <? 26 then 65 + d else if d <? 52 then 97 + (d - 26)
  else if d <? 62 then 48 + (d - 52) else if d =? 62 then 45 else 95.

Definition digit_of (c : Z) : Z :=
  if (65 <=? c) && (c <=? 90) then c - 65 else if (97 <=? c) && (c <=? 122) then c - 97 + 26
  else if (48 <=? c) && (c <=? 57) then c - 48 + 52 else if c =? 45 then 62 else 63.

(** encoding/base64's quanta. *)
Definition enc_digit (val shift : Z) : Z := char_of (Z.land (Z.shiftr val shift) 63).

Fixpoint encode_quanta (src : bytes) : bytes :=
  match src with
  | x :: y :: z :: rest =>
      let val := Z.lor (Z.lor (Z.shiftl x 16) (Z.shiftl y 8)) z in
      enc_digit val 18 :: enc_digit val 12 :: enc_digit val 6 :: enc_digit val 0 ::
      encode_quanta rest
  | [x; y] =>
      let val := Z.lor (Z.shiftl x 16) (Z.shiftl y 8) in
      [enc_digit val 18; enc_digit val 12; enc_digit val 6]
  | [x] => let val := Z.shiftl x 16 in [enc_digit val 18; enc_digit val 12]
  | [] => []
  end.

Definition quantum (a b c d : Z) : Z :=
  Z.lor (Z.lor (Z.lor (Z.shiftl (digit_of a) 18) (Z.shiftl (digit_of b) 12))
    (Z.shiftl (digit_of c) 6)) (digit_of d).

Fixpoint decode_quanta (s : bytes) : res b64_error bytes :=
  match s with
  | a :: b :: c :: d :: rest =>
      let val := quantum a b c d in
      let? out := decode_quanta rest in
      Ok (wrap8 (Z.shiftr val 16) :: wrap8 (Z.shiftr val 8) :: wrap8 val :: out)
  | [a; b; c] =>
      let val := Z.lor (Z.lor (Z.shiftl (digit_of a) 18) (Z.shiftl (digit_of b) 12))
        (Z.shiftl (digit_of c) 6) in
      if negb (wrap8 val =? 0) then Err ErrCorruptInput
      else Ok [wrap8 (Z.shiftr val 16); wrap8 (Z.shiftr val 8)]
  | [a; b] =>
      let val := Z.lor (Z.shiftl (digit_of a) 18) (Z.shiftl (digit_of b) 12) in
      if negb (wrap8 (Z.shiftr val 8) =? 0) || negb (wrap8 val =? 0) then Err ErrCorruptInput
      else Ok [wrap8 (Z.shiftr val 16)]
  | [a] => Err ErrCorruptInput
  | [] => Ok []
  end.

Definition EncodeToString (src : bytes) : bytes := encode_quanta src.

Fixpoint check_alphabet (i : Z) (s : bytes) : option b64_error :=
  match s with
  | [] => None
  | c :: rest => if negb (isAlphabet c) then Some (ErrIllegalByte c i) else check_alphabet (i + 1) rest
  end.

Definition DecodeString (s : bytes) : res b64_error bytes :=
  match check_alphabet 0 s with
  | Some e => Err e
  | None => decode_quanta s
  end.

(** base64.RawURLEncoding, which is not strict: a quantum's spare bits are
    dropped unread, and CR and LF are skipped wherever they stand. *)
Definition isLineBreak (c : Z) : bool := (c =? 10) || (c =? 13).

Fixpoint decode_quanta_lenient (s : bytes) : res b64_error bytes :=
  match s with
  | a :: b :: c :: d :: rest =>
      let val := quantum a b c d in
      let? out := decode_quanta_lenient rest in
      Ok (wrap8 (Z.shiftr val 16) :: wrap8 (Z.shiftr val 8) :: wrap8 val :: out)
  | [a; b; c] =>
      let val := Z.lor (Z.lor (Z.shiftl (digit_of a) 18) (Z.shiftl (digit_of b) 12))
        (Z.shiftl (digit_of c) 6) in
      Ok [wrap8 (Z.shiftr val 16); wrap8 (Z.shiftr val 8)]
  | [a; b] =>
      let val := Z.lor (Z.shiftl (digit_of a) 18) (Z.shiftl (digit_of b) 12) in
      Ok [wrap8 (Z.shiftr val 16)]
  | [a] => Err ErrCorruptInput
  | [] => Ok []
  end.

Definition RawURLEncoding_DecodeString (s : bytes) : res b64_error bytes :=
  let digits := List.filter (fun c => negb (isLineBreak c)) s in
  if forallb isAlphabet digits then decode_quanta_lenient digits else Err ErrCorruptInput.

(** ** Digits *)

Lemma digit_char d : 0 <= d < 64 -> digit_of (char_of d) = d /\ isAlphabet (char_of d) = true.
Proof.
  intros; unfold char_of, digit_of, isAlphabet.
  repeat (go_case; try lia); split; lia.
Qed.

Lemma char_digit c : isAlphabet c = true -> char_of (digit_of c) = c /\ 0 <= digit_of c < 64.
Proof.
  unfold char_of, digit_of, isAlphabet; intros H.
  repeat (go_case; try lia); lia.
Qed.

Lemma land_63 z : Z.land z 63 = z mod 64.
Proof. change 63 with (Z.ones 6); by rewrite Z.land_ones. Qed.

Lemma enc_digit_eq val shift : 0 <= shift -> enc_digit val shift = char_of ((val / 2 ^ shift) mod 64).
Proof. intros; unfold enc_digit; by rewrite Z.shiftr_div_pow2, land_63. Qed.

Lemma digit_enc val shift :
  0 <= shift -> digit_of (enc_digit val shift) = (val / 2 ^ shift) mod 64.
Proof. intros; rewrite enc_digit_eq by done; apply digit_char, Z.mod_pos_bound; lia. Qed.

Lemma alphabet_enc val shift : 0 <= shift -> isAlphabet (enc_digit val shift) = true.
Proof. intros; rewrite enc_digit_eq by done; apply digit_char, Z.mod_pos_bound; lia. Qed.

(** The 24-bit words of a quantum as arithmetic. *)
Lemma word3_eq x y z :
  byte_ok x -> byte_ok y -> byte_ok z ->
  Z.lor (Z.lor (Z.shiftl x 16) (Z.shiftl y 8)) z = x * 65536 + y * 256 + z.
Proof.
  unfold byte_ok; intros.
  rewrite (lor_shiftl_add 16 x) by (rewrite ?Z.shiftl_mul_pow2; lia).
  rewrite Z.shiftl_mul_pow2 by lia.
  replace (x * 2 ^ 16 + y * 2 ^ 8) with (Z.shiftl (x * 256 + y) 8)
    by (rewrite Z.shiftl_mul_pow2; lia).
  rewrite lor_shiftl_add; rewrite ?Z.shiftl_mul_pow2; lia.
Qed.

Lemma word2_eq x y :
  byte_ok x -> byte_ok y -> Z.lor (Z.shiftl x 16) (Z.shiftl y 8) = x * 65536 + y * 256.
Proof.
  unfold byte_ok; intros.
  rewrite (lor_shiftl_add 16 x) by (rewrite ?Z.shiftl_mul_pow2; lia).
  rewrite Z.shiftl_mul_pow2; lia.
Qed.

Lemma digits2_eq a b :
  0 <= a < 64 -> 0 <= b < 64 -> Z.lor (Z.shiftl a 18) (Z.shiftl b 12) = a * 262144 + b * 4096.
Proof.
  intros; rewrite (lor_shiftl_add 18 a) by (rewrite ?Z.shiftl_mul_pow2; lia).
  rewrite Z.shiftl_mul_pow2; lia.
Qed.

Lemma digits3_eq a b c :
  0 <= a < 64 -> 0 <= b < 64 -> 0 <= c < 64 ->
  Z.lor (Z.lor (Z.shiftl a 18) (Z.shiftl b 12)) (Z.shiftl c 6) = a * 262144 + b * 4096 + c * 64.
Proof.
  intros; rewrite digits2_eq by done.
  replace (a * 262144 + b * 4096) with (Z.shiftl (a * 64 + b) 12)
    by (rewrite Z.shiftl_mul_pow2; lia).
  rewrite lor_shiftl_add; rewrite ?Z.shiftl_mul_pow2; lia.
Qed.

Lemma digits4_eq a b c d :
  0 <= a < 64 -> 0 <= b < 64 -> 0 <= c < 64 -> 0 <= d < 64 ->
  Z.lor (Z.lor (Z.lor (Z.shiftl a 18) (Z.shiftl b 12)) (Z.shiftl c 6)) d =
  a * 262144 + b * 4096 + c * 64 + d.
Proof.
  intros; rewrite digits3_eq by done.
  replace (a * 262144 + b * 4096 + c * 64) with (Z.shiftl (a * 4096 + b * 64 + c) 6)
    by (rewrite Z.shiftl_mul_pow2; lia).
  rewrite lor_shiftl_add; rewrite ?Z.shiftl_mul_pow2; lia.
Qed.

(** Induction three bytes, or four characters, at a time. *)
Lemma list_ind3 {A} (P : list A -> Prop) :
  P [] -> (forall x, P [x]) -> (forall x y, P [x; y]) ->
  (forall x y z l, P l -> P (x :: y :: z :: l)) -> forall l, P l.
Proof.
  intros H0 H1 H2 H3; fix IH 1; intros [|x [|y [|z l]]]; [auto..|].
  apply H3, IH.
Qed.

Lemma list_ind4 {A} (P : list A -> Prop) :
  P [] -> (forall x, P [x]) -> (forall x y, P [x; y]) -> (forall x y z, P [x; y; z]) ->
  (forall x y z w l, P l -> P (x :: y :: z :: w :: l)) -> forall l, P l.
Proof.
  intros H0 H1 H2 H3 H4; fix IH 1; intros [|x [|y [|z [|w l]]]]; [auto..|].
  apply H4, IH.
Qed.

Ltac forall_cons :=
  repeat match goal with H : Forall _ (_ :: _) |- _ => apply Forall_cons in H as [? ?] end.

Ltac b64_arith :=
  unfold wrap8, byte_ok in *; rewrite ?Z.shiftr_div_pow2 in * by lia;
  change (2 ^ 16) with 65536 in *; change (2 ^ 8) with 256 in *;
  change (2 ^ 18) with 262144 in *; change (2 ^ 12) with 4096 in *;
  change (2 ^ 6) with 64 in *; change (2 ^ 0) with 1 in *; rewrite ?Z.div_1_r in *.

(** A list of characters, each [char_of] of its own digit. *)
Ltac b64_chars :=
  match goal with
  | |- _ :: _ = _ :: _ => apply (f_equal2 cons)
  | H : char_of (digit_of ?a) = ?a |- char_of _ = ?a =>
      etransitivity; [|exact H]; f_equal; Z.div_mod_to_equations; lia
  | |- ?l = ?l => reflexivity
  end.

(** The digits of a word recompose it. *)
Lemma recompose v :
  0 <= v < 16777216 ->
  (v / 262144) mod 64 * 262144 + (v / 4096) mod 64 * 4096 + (v / 64) mod 64 * 64 + v mod 64 = v.
Proof. intros; Z.div_mod_to_equations; lia. Qed.

Lemma check_alphabet_none i s :
  check_alphabet i s = None <-> Forall (fun c => isAlphabet c = true) s.
Proof.
  revert i; induction s as [|c s IH]; intros i; cbn; [done|].
  rewrite Forall_cons, <- (IH (i + 1)).
  destruct (isAlphabet c); cbn; naive_solver.
Qed.

Lemma encode_quanta_alphabet src : Forall (fun c => isAlphabet c = true) (encode_quanta src).
Proof.
  induction src using list_ind3; cbn; repeat constructor; try done; by apply alphabet_enc.
Qed.

Lemma decode_encode_quanta src : bytes_ok src -> decode_quanta (encode_quanta src) = Ok src.
Proof.
  induction src as [|x|x y|x y z src IH] using list_ind3; intros Hs; unfold bytes_ok in Hs;
    forall_cons; cbn [encode_quanta decode_quanta].
  - done.
  - rewrite !digit_enc, digits2_eq by (try apply Z.mod_pos_bound; lia).
    rewrite Z.shiftl_mul_pow2 by lia; b64_arith.
    pose proof (recompose (x * 65536)) as Hr.
    replace (x * 65536 / 64 mod 64) with 0 in Hr by (Z.div_mod_to_equations; lia).
    replace (x * 65536 mod 64) with 0 in Hr by (Z.div_mod_to_equations; lia).
    rewrite !Z.mul_0_l, !Z.add_0_r in Hr; rewrite Hr by lia.
    replace (x * 65536 / 256) with (x * 256) by (Z.div_mod_to_equations; lia).
    replace (x * 65536 mod 256) with 0 by (Z.div_mod_to_equations; lia).
    by rewrite Z.div_mul, Z.mod_mul, Z.mod_small by lia.
  - rewrite word2_eq by done.
    rewrite !digit_enc, digits3_eq by (try apply Z.mod_pos_bound; lia); b64_arith.
    pose proof (recompose (x * 65536 + y * 256)) as Hr.
    replace ((x * 65536 + y * 256) mod 64) with 0 in Hr by (Z.div_mod_to_equations; lia).
    rewrite !Z.add_0_r in Hr; rewrite Hr by lia.
    replace ((x * 65536 + y * 256) mod 256) with 0 by (Z.div_mod_to_equations; lia); cbn.
    do 2 f_equal; [|f_equal]; Z.div_mod_to_equations; lia.
  - unfold quantum; rewrite word3_eq by done.
    rewrite !digit_enc, digits4_eq by (try apply Z.mod_pos_bound; lia).
    rewrite IH by done; cbn [res_bind]; b64_arith; rewrite recompose by lia.
    do 2 f_equal; [|f_equal; [|f_equal]]; Z.div_mod_to_equations; lia.
Qed.

Lemma encode_decode_quanta s b :
  Forall (fun c => isAlphabet c = true) s -> decode_quanta s = Ok b ->
  encode_quanta b = s /\ bytes_ok b.
Proof.
  revert b; induction s as [|a|a b|a b c|a b c d s IH] using list_ind4; intros out Hs H;
    forall_cons; cbn [decode_quanta] in H; destruct_res; subst; cbn [encode_quanta].
  - by split; [|constructor].
  - destruct (char_digit a) as [Ha ?], (char_digit b) as [Hb ?]; try done.
    rewrite digits2_eq in * by done; go_case_in H; [done|]; destruct_res; subst; cbn [encode_quanta].
    rewrite !enc_digit_eq, Z.shiftl_mul_pow2 by lia; b64_arith.
    split; [|solve_bytes].
    bool_prop; repeat b64_chars.
  - destruct (char_digit a) as [Ha ?], (char_digit b) as [Hb ?], (char_digit c) as [Hc ?]; try done.
    rewrite digits3_eq in * by done; go_case_in H; [done|]; destruct_res; subst; cbn [encode_quanta].
    split; [|solve_bytes].
    rewrite word2_eq, !enc_digit_eq by (apply wrap8_ok || lia); b64_arith.
    bool_prop; repeat b64_chars.
  - destruct (IH a0) as [<- Hok]; [done|done|].
    destruct (char_digit a) as [Ha ?], (char_digit b) as [Hb ?], (char_digit c) as [Hc ?],
      (char_digit d) as [Hd ?]; try done.
    unfold quantum; rewrite digits4_eq by done.
    split; [|solve_bytes].
    rewrite word3_eq, !enc_digit_eq by (apply wrap8_ok || lia); b64_arith.
    repeat b64_chars.
Qed.

(** [DecodeString] inverts [EncodeToString] on every byte string, so a
    value survives being encoded and decoded. *)
Theorem b64url_decode_encode src : bytes_ok src -> DecodeString (EncodeToString src) = Ok src.
Proof.
  intros Hs; unfold DecodeString, EncodeToString.
  rewrite (proj2 (check_alphabet_none 0 _)) by apply encode_quanta_alphabet.
  by apply decode_encode_quanta.
Qed.

(** a string [DecodeString] accepts is the encoding of its value: no value
    has a second spelling (no line break, foreign byte or non-zero trailing
    bit gets past it), so two accepted strings with the same value are equal. *)
Theorem b64url_canonical s b :
  DecodeString s = Ok b -> EncodeToString b = s /\ bytes_ok b.
Proof.
  unfold DecodeString; intros H; destruct (check_alphabet 0 s) eqn:E; [done|].
  apply check_alphabet_none in E; by apply encode_decode_quanta.
Qed.

Lemma b64url_decode_encode_witness :
  bytes_ok [0; 255; 16; 131] /\ DecodeString (EncodeToString [0; 255; 16; 131]) = Ok [0; 255; 16; 131].
Proof.
  split; [|apply b64url_decode_encode]; solve_bytes.
Defined.

Lemma b64url_canonical_witness :
  DecodeString [65; 80; 56] = Ok [0; 255] /\ EncodeToString [0; 255] = [65; 80; 56] /\ bytes_ok [0; 255].
Proof. split; [reflexivity|apply (b64url_canonical [65; 80; 56]); reflexivity]. Defined.

(** What the strict decoder accepts the lenient one reads alike. *)
Lemma decode_quanta_read s b : decode_quanta s = Ok b -> decode_quanta_lenient s = Ok b.
Proof.
  revert b; induction s as [|a|a b|a b c|a b c d s IH] using list_ind4; intros out H; cbn [decode_quanta decode_quanta_lenient] in *; try done.
  - by go_case_in H.
  - by go_case_in H.
  - apply res_bind_ok in H as (rest & H & [= <-]); by rewrite (IH _ H).
Qed.

Lemma RawURLEncoding_reads s b : DecodeString s = Ok b -> RawURLEncoding_DecodeString s = Ok b.
Proof.
  unfold DecodeString, RawURLEncoding_DecodeString; intros H; destruct (check_alphabet 0 s) eqn:E; [done|]; apply check_alphabet_none in E.
  assert (Hf : List.filter (fun c => negb (isLineBreak c)) s = s).
  { clear H; induction E as [|c s Hc _ IH]; cbn; [done|]; replace (isLineBreak c) with false; [by cbn; rewrite IH|].
    unfold isAlphabet, isLineBreak in *; symmetry; lia. }
  rewrite Hf; replace (forallb isAlphabet s) with true; [by apply decode_quanta_read|].
  symmetry; apply forallb_forall; intros c Hc; rewrite Forall_forall in E; by apply E, list_elem_of_In.
Qed.

(** And it reads past line breaks and spare bits: four texts of one byte. *)
Example RawURLEncoding_spellings :
  map RawURLEncoding_DecodeString [[65; 81]; [65; 82]; [65; 10; 81]; [65; 81; 13; 10]; [65; 61; 61]; [65]] =
  [Ok [1]; Ok [1]; Ok [1]; Ok [1]; Err ErrCorruptInput; Err ErrCorruptInput].
Proof. reflexivity. Qed.
