(* ===== verification/StatusBits.v ===== *)
(** * The Status List byte array: [statuslist/bits.go], [statuslist/statuslist.go]

    [Pack] and [Unpack] over 1, 2, 4 or 8 bits per status, and a StatusList's
    two readers: [Decode], which inflates the whole list, and [Status], which
    inflates it only as a stream, in constant memory.  The zlib inflater is a
    parameter: what its reader yields for a compressed string, and whether the
    stream then ends cleanly.  The theorems: [Unpack] inverts [Pack] at every
    index and reads zero in the padding; [Pack] fails exactly on a status that
    does not fit; the streamed reader agrees with the whole one. *)
From S2P Require Import Prelude.
From S2P Require B64Url.

(** ** Bits, Pack and Unpack *)

Abbreviation Bits := Z (only parsing).

Inductive status_error : Type :=
| ErrBitsValue (b : Bits)
| ErrStatusTooLarge (status : Z) (idx : Z) (b : Bits)
| ErrNegativeIndex (idx : Z)
| ErrOutOfBounds (idx : Z)
| ErrDecodeLst (e : B64Url.b64_error)
| ErrZlibReader
| ErrDecompress
| ErrTooLarge.

Definition bits_valid (b : Bits) : bool := (b =? 1) || (b =? 2) || (b =? 4) || (b =? 8).

Definition perByte (b : Bits) : Z := 8 / b.

(** uint8 arithmetic: at 8 bits, [1<<8] is 0 and [0-1] is 255. *)
Definition bits_mask (b : Bits) : Z := wrap8 (wrap8 (Z.shiftl 1 b) - 1).

(** Pack's loop from index [idx], over what is left of [statuses]. *)
Fixpoint pack_loop (bits : Bits) (idx : Z) (statuses : list Z) (packed : bytes)
    : res status_error bytes :=
  match statuses with
  | [] => Ok packed
  | status :: rest =>
      if bits_mask bits <? status then Err (ErrStatusTooLarge status idx bits)
      else
        let byteIdx := idx / perByte bits in
        let bitOffset := idx mod perByte bits * bits in
        let b := Z.lor (at_ packed byteIdx) (wrap8 (Z.shiftl (Z.land status (bits_mask bits)) bitOffset)) in
        pack_loop bits (idx + 1) rest (<[Z.to_nat byteIdx := b]> packed)
  end.

Definition Pack (bits : Bits) (statuses : list Z) : res status_error bytes :=
  if negb (bits_valid bits) then Err (ErrBitsValue bits)
  else
    let byteLen := (blen statuses + perByte bits - 1) / perByte bits in
    pack_loop bits 0 statuses (replicate (Z.to_nat byteLen) 0).

Definition Unpack (bits : Bits) (packed : bytes) (idx : Z) : res status_error Z :=
  if negb (bits_valid bits) then Err (ErrBitsValue bits)
  else if idx <? 0 then Err (ErrNegativeIndex idx)
  else
    let byteIdx := idx / perByte bits in
    if blen packed <=? byteIdx then Err (ErrOutOfBounds idx)
    else
      let bitOffset := idx mod perByte bits * bits in
      Ok (Z.land (Z.shiftr (at_ packed byteIdx) bitOffset) (bits_mask bits)).

(** ** Compressed lists *)

(** What a zlib reader yields: the bytes, then a clean end (io.EOF, the
    checksum verified) or an error. *)
Record zstream : Type := { zs_data : bytes; zs_clean : bool }.

(** io.LimitReader over a zlib reader: the stream and the bytes it may still
    yield. *)
Record limited : Type := { lr_stream : zstream; lr_left : Z }.

Inductive read_end : Type := ReadFull | ReadEOF | ReadFail.

(** Reading [n] bytes from a limited reader: the bytes, what is left of the
    reader, and how the read ended.  At its limit the reader reports io.EOF
    whatever its stream would do next. *)
Definition lr_read (n : Z) (r : limited) : bytes * limited * read_end :=
  let data := zs_data (lr_stream r) in
  let avail := Z.min (blen data) (lr_left r) in
  let k := Z.to_nat (Z.min n avail) in
  let r' := {| lr_stream := {| zs_data := drop k data; zs_clean := zs_clean (lr_stream r) |};
               lr_left := lr_left r - Z.of_nat k |} in
  let how :=
    if n <=? avail then ReadFull
    else if lr_left r <=? blen data then ReadEOF
    else if zs_clean (lr_stream r) then ReadEOF else ReadFail in
  (take k data, r', how).

(** Reading to the reader's end (io.ReadAll, io.Copy). *)
Definition lr_read_all (r : limited) : bytes * read_end :=
  let data := zs_data (lr_stream r) in
  (take (Z.to_nat (lr_left r)) data,
   if lr_left r <=? blen data then ReadEOF
   else if zs_clean (lr_stream r) then ReadEOF else ReadFail).

Definition maxDecompressedSize : Z := 16777216.

Record StatusList : Type := { sl_Bits : Bits; sl_Lst : bytes; sl_AggregationURI : bytes }.
Record Decoded : Type := { d_Bits : Bits; d_Packed : bytes }.

Section Zlib.
(** zlib.NewReader over a compressed string: [None] when it refuses the
    header. *)
Context (inflate : bytes -> option zstream).

Definition decompress (b : bytes) : res status_error bytes :=
  match inflate b with
  | None => Err ErrZlibReader
  | Some z =>
      let '(out, how) := lr_read_all {| lr_stream := z; lr_left := maxDecompressedSize + 1 |} in
      match how with
      | ReadFail => Err ErrDecompress
      | _ => if maxDecompressedSize <? blen out then Err ErrTooLarge else Ok out
      end
  end.

(** The byte at [idx], [None] past the stream's end. *)
Definition decompressedByte (b : bytes) (idx : Z) : res status_error (option Z) :=
  match inflate b with
  | None => Err ErrZlibReader
  | Some z =>
      let bounded := {| lr_stream := z; lr_left := maxDecompressedSize + 1 |} in
      match lr_read idx bounded with
      | (_, _, ReadEOF) => Ok None
      | (_, _, ReadFail) => Err ErrDecompress
      | (_, bounded, ReadFull) =>
          match lr_read 1 bounded with
          | (_, _, ReadEOF) => Ok None
          | (_, _, ReadFail) => Err ErrDecompress
          | (one, bounded, ReadFull) =>
              match lr_read_all bounded with
              | (_, ReadFail) => Err ErrDecompress
              | (rest, _) =>
                  if maxDecompressedSize <? idx + 1 + blen rest then Err ErrTooLarge
                  else Ok (Some (at_ one 0))
              end
          end
      end
  end.

Definition Decode (sl : StatusList) : res status_error Decoded :=
  if negb (bits_valid (sl_Bits sl)) then Err (ErrBitsValue (sl_Bits sl))
  else
    let? raw := res_map_err ErrDecodeLst (B64Url.DecodeString (sl_Lst sl)) in
    let? packed := decompress raw in
    Ok {| d_Bits := sl_Bits sl; d_Packed := packed |}.

Definition Decoded_Status (d : Decoded) (idx : Z) : res status_error Z :=
  Unpack (d_Bits d) (d_Packed d) idx.

Definition StatusList_Status (sl : StatusList) (idx : Z) : res status_error Z :=
  if negb (bits_valid (sl_Bits sl)) then Err (ErrBitsValue (sl_Bits sl))
  else if idx <? 0 then Err (ErrNegativeIndex idx)
  else
    let byteIdx := idx / perByte (sl_Bits sl) in
    if maxDecompressedSize <=? byteIdx then Err (ErrOutOfBounds idx)
    else
      let? raw := res_map_err ErrDecodeLst (B64Url.DecodeString (sl_Lst sl)) in
      let? b := decompressedByte raw byteIdx in
      match b with
      | None => Err (ErrOutOfBounds idx)
      | Some b =>
          Ok (Z.land (Z.shiftr b (idx mod perByte (sl_Bits sl) * sl_Bits sl)) (bits_mask (sl_Bits sl)))
      end.
End Zlib.

(** [New]: the compressor is a parameter too. *)
Definition New (deflate : bytes -> bytes) (bits : Bits) (statuses : list Z) (uri : bytes)
    : res status_error StatusList :=
  let? packed := Pack bits statuses in
  Ok {| sl_Bits := bits; sl_Lst := B64Url.EncodeToString (deflate packed); sl_AggregationURI := uri |}.

(** ** Lemmas *)

Lemma bits_cases b : bits_valid b = true -> b = 1 \/ b = 2 \/ b = 4 \/ b = 8.
Proof. unfold bits_valid; lia. Qed.

Lemma mask_ones b : bits_valid b = true -> bits_mask b = Z.ones b.
Proof. intros H; destruct (bits_cases b H) as [->|[->|[->| ->]]]; reflexivity. Qed.

Lemma perByte_mul b : bits_valid b = true -> 0 < b /\ 0 < perByte b /\ perByte b * b = 8.
Proof. intros H; destruct (bits_cases b H) as [->|[->|[->| ->]]]; done. Qed.

(** The status at slot [idx] of a byte array, whatever its length. *)
Definition slot (b : Bits) (packed : bytes) (idx : Z) : Z :=
  Z.land (Z.shiftr (at_ packed (idx / perByte b)) (idx mod perByte b * b)) (Z.ones b).

Lemma at_insert packed i j x :
  0 <= i < blen packed -> 0 <= j ->
  at_ (<[Z.to_nat i := x]> packed) j = if i =? j then x else at_ packed j.
Proof.
  unfold at_, blen; intros Hi Hj; destruct (Z.eqb_spec i j) as [->|Hne].
  - rewrite list_lookup_insert_eq; [done|lia].
  - rewrite list_lookup_insert_ne; [done|lia].
Qed.

(** Or-ing a value into bits [[k, k+b)] reads back there, and nowhere else. *)
Lemma slot_bits_same x s b k :
  0 < b -> 0 <= k -> Z.land (Z.shiftr x k) (Z.ones b) = 0 -> 0 <= s < 2 ^ b ->
  Z.land (Z.shiftr (Z.lor x (Z.shiftl s k)) k) (Z.ones b) = s.
Proof.
  intros Hb Hk Hx Hs; rewrite Z.shiftr_lor, Z.land_lor_distr_l, Hx, Z.lor_0_l.
  rewrite Z.shiftr_shiftl_l, Z.sub_diag, Z.shiftl_0_r, Z.land_ones by lia.
  by apply Z.mod_small.
Qed.

Lemma slot_bits_other x s b j k :
  0 < b -> 0 <= s < 2 ^ b -> 0 <= j -> 0 <= k -> j <> k ->
  Z.land (Z.shiftr (Z.lor x (Z.shiftl s (k * b))) (j * b)) (Z.ones b) =
  Z.land (Z.shiftr x (j * b)) (Z.ones b).
Proof.
  intros Hb Hs Hj Hk Hne; apply Z.bits_inj'; intros i Hi.
  rewrite !Z.land_spec, !Z.shiftr_spec, Z.lor_spec by done.
  destruct (Z.lt_ge_cases i b) as [Hib|Hib];
    [|rewrite Z.ones_spec_high by lia; by rewrite !andb_false_r].
  rewrite Z.ones_spec_low, !andb_true_r by lia.
  rewrite Z.shiftl_spec by nia.
  destruct (Z.lt_ge_cases (i + j * b) (k * b)).
  - rewrite (Z.testbit_neg_r s) by lia; by rewrite orb_false_r.
  - rewrite <- (Z.mod_small s (2 ^ b)) by done.
    rewrite Z.mod_pow2_bits_high by nia; by rewrite orb_false_r.
Qed.

Lemma shiftl_fits s b k : 0 < b -> 0 <= k -> (k + 1) * b <= 8 -> 0 <= s < 2 ^ b -> byte_ok (Z.shiftl s (k * b)).
Proof.
  intros Hb Hk Hfit Hs; unfold byte_ok; rewrite Z.shiftl_mul_pow2 by nia.
  assert (2 ^ b * 2 ^ (k * b) <= 2 ^ 8)
    by (rewrite <- Z.pow_add_r by nia; apply Z.pow_le_mono_r; nia).
  assert (0 < 2 ^ (k * b)) by (apply Z.pow_pos_nonneg; nia).
  change 256 with (2 ^ 8); nia.
Qed.

(** One step of the packing loop: it sets an empty slot, and no other. *)
Lemma slot_set b packed idx s :
  bits_valid b = true -> 0 <= s <= bits_mask b -> 0 <= idx -> idx / perByte b < blen packed ->
  slot b packed idx = 0 ->
  let byteIdx := idx / perByte b in
  let packed' := <[Z.to_nat byteIdx :=
      Z.lor (at_ packed byteIdx) (wrap8 (Z.shiftl (Z.land s (bits_mask b)) (idx mod perByte b * b)))]> packed in
  forall j, 0 <= j -> slot b packed' j = if j =? idx then s else slot b packed j.
Proof.
  intros Hb Hs Hidx Hlen H0 byteIdx packed' j Hj.
  destruct (perByte_mul b Hb) as (Hb0 & Hp & Hpb).
  assert (Hs' : 0 <= s < 2 ^ b) by (rewrite mask_ones, Z.ones_equiv in Hs by done; lia).
  assert (Hk := Z.mod_pos_bound idx _ Hp); assert (Hjk := Z.mod_pos_bound j _ Hp).
  unfold slot, packed', byteIdx in *.
  rewrite mask_ones, (Z.land_ones s), (Z.mod_small s) by (done || lia).
  rewrite wrap8_small by (apply shiftl_fits; nia).
  assert (0 <= idx / perByte b) by (apply Z.div_pos; lia).
  assert (0 <= j / perByte b) by (apply Z.div_pos; lia).
  rewrite at_insert by lia.
  destruct (Z.eqb_spec (idx / perByte b) (j / perByte b)) as [Hq|Hq];
    destruct (Z.eqb_spec j idx) as [->|Hne].
  - apply slot_bits_same; try done; nia.
  - rewrite Hq; apply slot_bits_other; try done; [lia..|].
    intros Hr; apply Hne; rewrite (Z.div_mod j (perByte b)), (Z.div_mod idx (perByte b)) by lia; congruence.
  - done.
  - done.
Qed.

Lemma pack_loop_spec b statuses : forall idx packed,
  bits_valid b = true -> Forall (fun s => 0 <= s <= bits_mask b) statuses -> 0 <= idx ->
  idx + blen statuses <= blen packed * perByte b ->
  (forall j, idx <= j -> slot b packed j = 0) ->
  exists out, pack_loop b idx statuses packed = Ok out /\ blen out = blen packed /\
    forall j, 0 <= j -> slot b out j =
      if j <? idx then slot b packed j else default 0 (statuses !! Z.to_nat (j - idx)).
Proof.
  induction statuses as [|s rest IH]; intros idx packed Hb Hfit Hidx Hlen H0; cbn [pack_loop].
  - exists packed; repeat split; [done..|]; intros j Hj.
    go_case; [done|]; rewrite lookup_nil; apply H0; lia.
  - apply Forall_cons in Hfit as [Hs Hfit]; destruct (perByte_mul b Hb) as (Hb0 & Hp & Hpb).
    rewrite blen_cons in Hlen; pose proof (blen_nonneg rest).
    assert (Hdiv : idx / perByte b < blen packed) by (apply Z.div_lt_upper_bound; nia).
    destruct (Z.ltb_spec (bits_mask b) s); [lia|].
    pose proof (slot_set b packed idx s Hb Hs Hidx Hdiv (H0 idx (Z.le_refl _))) as Hset.
    cbn zeta in Hset.
    set (packed' := <[_ := _]> packed) in *.
    assert (Hlen' : blen packed' = blen packed) by (unfold packed', blen; by rewrite length_insert).
    destruct (IH (idx + 1) packed') as (out & -> & Hout & Hget); [done..|lia|rewrite Hlen'; lia| |].
    { intros j Hj; rewrite Hset by lia; go_case; [lia|apply H0; lia]. }
    exists out; repeat split; [congruence|]; intros j Hj.
    rewrite Hget, Hset by done; destruct (Z.ltb_spec j (idx + 1)), (Z.ltb_spec j idx), (Z.eqb_spec j idx);
      try lia; subst; try done.
    + by rewrite Z.sub_diag.
    + by replace (Z.to_nat (j - idx)) with (S (Z.to_nat (j - (idx + 1)))) by lia.
Qed.

Lemma pack_loop_fails b statuses : forall idx packed,
  Exists (fun s => bits_mask b < s) statuses -> is_ok (pack_loop b idx statuses packed) = false.
Proof.
  induction statuses as [|s rest IH]; intros idx packed H; inversion_clear H; cbn [pack_loop].
  - by destruct (Z.ltb_spec (bits_mask b) s); [|lia].
  - go_case; [done|by apply IH].
Qed.

Lemma slot_zeros b n j : bits_valid b = true -> slot b (replicate n 0) j = 0.
Proof.
  intros Hb; unfold slot, at_.
  destruct (replicate n 0 !! Z.to_nat (j / perByte b)) eqn:E; cbn.
  - by apply lookup_replicate in E as [-> _]; rewrite Z.shiftr_0_l.
  - by rewrite Z.shiftr_0_l.
Qed.

(** Pack's success in full. *)
Lemma Pack_spec b statuses :
  bits_valid b = true -> Forall (fun s => 0 <= s <= bits_mask b) statuses ->
  exists packed, Pack b statuses = Ok packed /\
    blen packed = (blen statuses + perByte b - 1) / perByte b /\
    forall j, 0 <= j -> slot b packed j = default 0 (statuses !! Z.to_nat j).
Proof.
  intros Hb Hfit; unfold Pack; rewrite Hb; cbn [negb].
  destruct (perByte_mul b Hb) as (Hb0 & Hp & Hpb); pose proof (blen_nonneg statuses).
  set (n := (blen statuses + perByte b - 1) / perByte b).
  assert (Hn : 0 <= n) by (apply Z.div_pos; lia).
  assert (Hr : blen (replicate (Z.to_nat n) 0) = n) by (unfold blen; rewrite length_replicate; lia).
  destruct (pack_loop_spec b statuses 0 (replicate (Z.to_nat n) 0)) as (out & -> & Hlen & Hget).
  - done.
  - done.
  - lia.
  - rewrite Hr; unfold n.
    pose proof (Z.div_mod (blen statuses + perByte b - 1) (perByte b)).
    pose proof (Z.mod_pos_bound (blen statuses + perByte b - 1) (perByte b)); nia.
  - intros; by apply slot_zeros.
  - exists out; repeat split; [congruence|]; intros j Hj; rewrite Hget by done.
    destruct (Z.ltb_spec j 0); [lia|by rewrite Z.sub_0_r].
Qed.

Lemma Unpack_slot b packed idx :
  bits_valid b = true -> 0 <= idx ->
  Unpack b packed idx =
    if blen packed <=? idx / perByte b then Err (ErrOutOfBounds idx) else Ok (slot b packed idx).
Proof.
  intros Hb Hidx; unfold Unpack; rewrite Hb; cbn [negb].
  destruct (Z.ltb_spec idx 0); [lia|]; unfold slot; by rewrite mask_ones.
Qed.

(** Both readers of a compressed list, in terms of what its stream yields. *)
Section Streams.
Context (inflate : bytes -> option zstream) (b : bytes) (z : zstream) (Hz : inflate b = Some z).

Lemma max_size_pos : 0 < maxDecompressedSize.
Proof using. done. Qed.

Lemma decompress_ok out :
  decompress inflate b = Ok out <->
  blen (zs_data z) <= maxDecompressedSize /\ zs_clean z = true /\ out = zs_data z.
Proof using Hz.
  pose proof max_size_pos as Hmax; unfold decompress; rewrite Hz; cbn.
  destruct (Z.leb_spec (maxDecompressedSize + 1) (blen (zs_data z))) as [H|H].
  - assert (blen (take (Z.to_nat (maxDecompressedSize + 1)) (zs_data z)) = maxDecompressedSize + 1)
      as -> by (unfold blen in *; rewrite length_take; lia).
    destruct (Z.ltb_spec maxDecompressedSize (maxDecompressedSize + 1)); [|lia].
    split; [done|lia].
  - rewrite take_ge by (unfold blen in *; lia).
    destruct (zs_clean z); [|split; [done|naive_solver]].
    destruct (Z.ltb_spec maxDecompressedSize (blen (zs_data z))); [lia|]; naive_solver lia.
Qed.

Lemma at_take_drop idx : 0 <= idx -> at_ (take 1 (drop (Z.to_nat idx) (zs_data z))) 0 = at_ (zs_data z) idx.
Proof using.
  intros; unfold at_; cbn [Z.to_nat].
  rewrite lookup_take_lt, lookup_drop by lia; by rewrite Nat.add_0_r.
Qed.

Lemma decompressedByte_ok idx v :
  0 <= idx < maxDecompressedSize ->
  (decompressedByte inflate b idx = Ok (Some v) <->
   blen (zs_data z) <= maxDecompressedSize /\ zs_clean z = true /\ idx < blen (zs_data z) /\
   v = at_ (zs_data z) idx).
Proof using Hz.
  pose proof max_size_pos as Hmax; intros Hidx; unfold decompressedByte; rewrite Hz; unfold lr_read; cbn [lr_stream lr_left zs_data zs_clean].
  set (data := zs_data z) in *; pose proof (blen_nonneg data).
  destruct (Z.leb_spec idx (Z.min (blen data) (maxDecompressedSize + 1))) as [H1|H1].
  2: { destruct (Z.leb_spec (maxDecompressedSize + 1) (blen data)); [lia|].
       destruct (zs_clean z); naive_solver lia. }
  replace (Z.min idx (Z.min (blen data) (maxDecompressedSize + 1))) with idx by lia.
  rewrite Z2Nat.id by lia.
  assert (Hd : blen (drop (Z.to_nat idx) data) = blen data - idx)
    by (unfold blen in *; rewrite length_drop; lia).
  rewrite Hd.
  destruct (Z.leb_spec 1 (Z.min (blen data - idx) (maxDecompressedSize + 1 - idx))) as [H2|H2].
  2: { destruct (Z.leb_spec (maxDecompressedSize + 1 - idx) (blen data - idx)); [lia|].
       destruct (zs_clean z); naive_solver lia. }
  replace (Z.min 1 (Z.min (blen data - idx) (maxDecompressedSize + 1 - idx))) with 1 by lia.
  unfold lr_read_all; cbn [lr_stream lr_left zs_data zs_clean].
  change (Z.to_nat 1) with 1%nat; change (Z.of_nat 1) with 1.
  rewrite drop_drop.
  assert (Hd2 : blen (drop (Z.to_nat idx + 1) data) = blen data - idx - 1)
    by (unfold blen in *; rewrite length_drop; lia).
  rewrite Hd2, at_take_drop by lia.
  destruct (Z.leb_spec (maxDecompressedSize + 1 - idx - 1) (blen data - idx - 1)) as [H3|H3].
  - assert (blen (take (Z.to_nat (maxDecompressedSize + 1 - idx - 1)) (drop (Z.to_nat idx + 1) data)) =
      maxDecompressedSize - idx) as -> by (unfold blen in *; rewrite length_take; lia).
    go_case; [|lia]; split; [done|lia].
  - rewrite take_ge by (unfold blen in *; lia); rewrite Hd2.
    destruct (zs_clean z); [|split; [done|naive_solver]].
    go_case; [lia|]; naive_solver lia.
Qed.
End Streams.

(** ** Properties *)

(** [Unpack] inverts [Pack]: a list of statuses that each fit in the
    list's bits packs, into the fewest whole bytes, and every index then
    unpacks to its own status; the padding indices of the last byte unpack to
    0 (StatusValid), and every index past it is refused. *)
Theorem Unpack_Pack b statuses :
  bits_valid b = true -> Forall (fun s => 0 <= s <= bits_mask b) statuses ->
  exists packed, Pack b statuses = Ok packed /\
    blen packed = (blen statuses + perByte b - 1) / perByte b /\
    forall idx, 0 <= idx ->
      Unpack b packed idx =
        if idx <? blen packed * perByte b then Ok (default 0 (statuses !! Z.to_nat idx))
        else Err (ErrOutOfBounds idx).
Proof.
  intros Hb Hfit; destruct (Pack_spec b statuses Hb Hfit) as (packed & HP & Hlen & Hget).
  destruct (perByte_mul b Hb) as (Hb0 & Hp & Hpb).
  exists packed; repeat split; [done..|]; intros idx Hidx.
  rewrite Unpack_slot, Hget by done.
  destruct (Z.leb_spec (blen packed) (idx / perByte b)) as [Hle|Hlt];
    destruct (Z.ltb_spec idx (blen packed * perByte b)) as [Hin|Hout]; [|done|done|].
  - assert (idx / perByte b < blen packed) by (apply Z.div_lt_upper_bound; lia); lia.
  - assert (blen packed <= idx / perByte b) by (apply Z.div_le_lower_bound; lia); lia.
Qed.

Lemma Unpack_Pack_witness :
  (bits_valid 2 = true /\ Forall (fun s => 0 <= s <= bits_mask 2) [1; 0; 3; 2; 1]) /\
  exists packed, Pack 2 [1; 0; 3; 2; 1] = Ok packed /\
    blen packed = (blen [1; 0; 3; 2; 1] + perByte 2 - 1) / perByte 2 /\
    forall idx, 0 <= idx ->
      Unpack 2 packed idx =
        if idx <? blen packed * perByte 2 then Ok (default 0 ([1; 0; 3; 2; 1] !! Z.to_nat idx))
        else Err (ErrOutOfBounds idx).
Proof.
  assert (H : Forall (fun s => 0 <= s <= bits_mask 2) [1; 0; 3; 2; 1])
    by (repeat constructor; vm_compute; congruence).
  split; [done|]; by apply Unpack_Pack.
Defined.

(** [Pack] refuses exactly the inputs it must: a bits value other than
    1, 2, 4 or 8, or a status too large for its bits. *)
Theorem Pack_refuses b statuses :
  Forall (fun s => 0 <= s) statuses ->
  (is_ok (Pack b statuses) = false <->
   bits_valid b = false \/ Exists (fun s => bits_mask b < s) statuses).
Proof.
  intros Hpos; destruct (bits_valid b) eqn:Hb; [|by unfold Pack; rewrite Hb; naive_solver].
  split; [|intros [?|H]; [done|]; by unfold Pack; rewrite Hb; apply pack_loop_fails].
  intros H; right.
  destruct (decide (Forall (fun s => 0 <= s <= bits_mask b) statuses)) as [Hf|Hf].
  - destruct (Pack_spec b statuses Hb Hf) as (packed & HP & _); by rewrite HP in H.
  - apply not_Forall_Exists in Hf; [|intros ?; apply _].
    clear H; induction Hf as [s l Hs|s l Hl IH]; apply Forall_cons in Hpos as [? Hpos].
    + apply Exists_cons_hd; cbn in Hs; lia.
    + apply Exists_cons_tl; auto.
Qed.

Lemma Pack_refuses_witness :
  Forall (fun s => 0 <= s) [1; 2] /\
  (is_ok (Pack 1 [1; 2]) = false <-> bits_valid 1 = false \/ Exists (fun s => bits_mask 1 < s) [1; 2]).
Proof.
  assert (H : Forall (fun s => 0 <= s) [1; 2]) by (repeat constructor; lia).
  split; [done|]; by apply Pack_refuses.
Defined.

(** the streamed reader agrees with the whole one: for any inflater and
    any list, [StatusList.Status] answers an index in constant memory exactly
    when [Decode] accepts the list and [Decoded.Status] answers it, with the
    same status. *)
Theorem Status_streamed_whole inflate sl idx s :
  StatusList_Status inflate sl idx = Ok s <->
  exists d, Decode inflate sl = Ok d /\ Decoded_Status d idx = Ok s.
Proof.
  unfold StatusList_Status, Decode, Decoded_Status.
  destruct (bits_valid (sl_Bits sl)) eqn:Hb; cbn [negb]; [|naive_solver].
  destruct (perByte_mul _ Hb) as (Hb0 & Hp & Hpb).
  destruct (res_map_err ErrDecodeLst (B64Url.DecodeString (sl_Lst sl))) as [raw|e]; cbn [res_bind];
    [|repeat go_case; naive_solver].
  destruct (inflate raw) as [z|] eqn:Hz.
  2: { unfold decompressedByte, decompress; rewrite Hz; cbn; repeat go_case; naive_solver. }
  set (byteIdx := idx / perByte (sl_Bits sl)).
  assert (Hwhole : (exists d, (let? packed := decompress inflate raw in
                    Ok {| d_Bits := sl_Bits sl; d_Packed := packed |}) = Ok d /\
                    Unpack (d_Bits d) (d_Packed d) idx = Ok s) <->
    blen (zs_data z) <= maxDecompressedSize /\ zs_clean z = true /\
    Unpack (sl_Bits sl) (zs_data z) idx = Ok s).
  { split.
    - intros (d & (packed & HD & [= <-])%res_bind_ok & HU).
      apply (decompress_ok inflate raw z Hz) in HD as (? & ? & ->); done.
    - intros (? & ? & HU); exists {| d_Bits := sl_Bits sl; d_Packed := zs_data z |}.
      split; [|done]; apply res_bind_ok; exists (zs_data z); split; [|done].
      by apply (decompress_ok inflate raw z Hz). }
  rewrite Hwhole; clear Hwhole.
  destruct (Z.ltb_spec idx 0) as [Hneg|Hidx].
  { unfold Unpack; rewrite Hb; cbn [negb]; destruct (Z.ltb_spec idx 0); [naive_solver|lia]. }
  rewrite Unpack_slot by done; fold byteIdx.
  assert (0 <= byteIdx) by (apply Z.div_pos; lia).
  destruct (Z.leb_spec maxDecompressedSize byteIdx).
  { destruct (Z.leb_spec (blen (zs_data z)) byteIdx); [naive_solver|].
    split; [done|naive_solver lia]. }
  pose proof (decompressedByte_ok inflate raw z Hz byteIdx) as Hbyte.
  unfold slot; rewrite mask_ones by done; fold byteIdx.
  rewrite res_bind_ok; split.
  - intros (o & Ho & Hs); destruct o as [v|]; [|done].
    apply Hbyte in Ho as (? & ? & ? & ->); [|lia].
    destruct (Z.leb_spec (blen (zs_data z)) byteIdx); [lia|done].
  - intros (Hlen & Hc & Hs); destruct (Z.leb_spec (blen (zs_data z)) byteIdx); [done|].
    exists (Some (at_ (zs_data z) byteIdx)); split; [|done].
    apply Hbyte; [lia|]; done.
Qed.
