(* ===== verification/Cbor.v ===== *)
(** * The CBOR walk: [internal/strictcbor]

    The walker that checks an encoded data item in place before the wrapped
    decoder sees it: heads, strings, arrays, maps with their duplicate-key
    search, tags, the item count and its shared budget; and [Entries],
    [Bytes] and [IsMap], which read a checked item.  The wrapped decoder
    (fxamacker/cbor) is a parameter: its options, how it decodes a tagged map
    key and a time, and its own decoding.  A call that changes the walker is a
    function from the walker to a result and the walker it leaves, also when
    it fails, since a failed walk is charged to the budget too.  Loops and
    recursion take fuel; [CborLimits] proves that the fuel given never runs
    out. *)
From S2P Require Import Prelude.

Inductive cbor_error : Type :=
| ErrEOF
| ErrUnexpectedEOF
| ErrMalformed
| ErrTooManyItems
| ErrMoreThan (n : Z)              (* cbor: more than n data items *)
| ErrMoreThanInMessage (n : Z)     (* ... in the message *)
| ErrExtraneous (n off : Z)
| ErrNested (max : Z)
| ErrInvalidUTF8
| ErrTooManyElements (max : Z)
| ErrTooManyPairs (max : Z)
| ErrUnexpectedBreak
| ErrTagContent (num : Z)
| ErrDupMapKey (index : Z)
| ErrMapKeyType
| ErrNotMap
| ErrMode                          (* an error of the wrapped mode *)
| ErrFn                            (* an error of Entries's callback *)
| ErrFuel.                         (* of the model alone: unreachable *)

(** ** Heads *)

Definition majorUint : Z := 0.
Definition majorNint : Z := 1.
Definition majorBytes : Z := 2.
Definition majorText : Z := 3.
Definition majorArray : Z := 4.
Definition majorMap : Z := 5.
Definition majorTag : Z := 6.
Definition majorSimple : Z := 7.
Definition aiIndefinite : Z := 31.
Definition breakCode : Z := 255.
Definition MaxInt32 : Z := 2147483647.
Definition MaxInt64 : Z := 9223372036854775807.

(** The head at [data[off]]: major type, additional information, argument,
    and the offset after it. *)
Definition readHead (data : bytes) (off : Z) : res cbor_error (Z * Z * Z * Z) :=
  if blen data <=? off then Err ErrUnexpectedEOF
  else
    let b := at_ data off in
    let major := Z.shiftr b 5 in
    let ai := Z.land b 31 in
    let off := off + 1 in
    if ai <? 24 then Ok (major, ai, ai, off)
    else if ai <=? 27 then
      let n := Z.shiftl 1 (ai - 24) in
      if blen data - off <? n then Err ErrUnexpectedEOF
      else
        let arg := be_value (slice data off (off + n)) in
        if (major =? majorSimple) && (ai =? 24) && (arg <? 32) then Err ErrMalformed
        else Ok (major, ai, arg, off + n)
    else if ai =? aiIndefinite then
      if negb (major =? majorBytes) && negb (major =? majorText) &&
         negb (major =? majorArray) && negb (major =? majorMap)
      then Err ErrMalformed
      else Ok (major, ai, 0, off)
    else Err ErrMalformed.

(** [span]: [n] as an int, if that many bytes could follow [off]. *)
Definition span (data : bytes) (off n : Z) : Z * bool :=
  if MaxInt32 <? n then (0, false) else (n, n <=? blen data - off).

(** utf8.Valid: RFC 3629's well-formed byte sequences. *)
Definition in_range (lo hi b : Z) : bool := (lo <=? b) && (b <=? hi).
Fixpoint utf8_valid (s : bytes) : bool :=
  match s with
  | [] => true
  | b0 :: s1 =>
      if b0 <? 128 then utf8_valid s1
      else
        match s1 with
        | [] => false
        | b1 :: s2 =>
            if in_range 194 223 b0 then in_range 128 191 b1 && utf8_valid s2
            else
              match s2 with
              | [] => false
              | b2 :: s3 =>
                  if in_range 224 239 b0 then
                    in_range (if b0 =? 224 then 160 else 128) (if b0 =? 237 then 159 else 191) b1 &&
                    in_range 128 191 b2 && utf8_valid s3
                  else
                    match s3 with
                    | [] => false
                    | b3 :: s4 =>
                        in_range 240 244 b0 &&
                        in_range (if b0 =? 240 then 144 else 128) (if b0 =? 244 then 143 else 191) b1 &&
                        in_range 128 191 b2 && in_range 128 191 b3 && utf8_valid s4
                    end
              end
        end
  end.

(** ** Skipping a checked item *)

Fixpoint skip_n (skip : Z -> res cbor_error Z) (n : nat) (off : Z) : res cbor_error Z :=
  match n with
  | O => Ok off
  | S n => let? off := skip off in skip_n skip n off
  end.

Fixpoint skip_to_break (data : bytes) (skip : Z -> res cbor_error Z) (fuel : nat) (off : Z)
    : res cbor_error Z :=
  match fuel with
  | O => Err ErrFuel
  | S fuel =>
      if blen data <=? off then Err ErrUnexpectedEOF
      else if at_ data off =? breakCode then Ok (off + 1)
      else let? off := skip off in skip_to_break data skip fuel off
  end.

Fixpoint skip (data : bytes) (fuel : nat) (off : Z) : res cbor_error Z :=
  match fuel with
  | O => Err ErrFuel
  | S fuel =>
      let? (major, ai, arg, off) := readHead data off in
      if major =? majorTag then skip data fuel off
      else if negb ((major =? majorBytes) || (major =? majorText) ||
                    (major =? majorArray) || (major =? majorMap)) then Ok off
      else if ai =? aiIndefinite then skip_to_break data (skip data fuel) (S (length data)) off
      else
        let '(n, ok) := span data off arg in
        if negb ok then Err ErrUnexpectedEOF
        else if (major =? majorBytes) || (major =? majorText) then Ok (off + n)
        else skip_n (skip data fuel) (Z.to_nat (if major =? majorMap then n * 2 else n)) off
  end.

(** ** Map keys *)

Definition kindUint : Z := 0.
Definition kindNint : Z := 1.
Definition kindBytes : Z := 2.
Definition kindText : Z := 3.
Definition kindSimple : Z := 4.
Definition kindFloat : Z := 5.
Definition kindNaN : Z := 6.
Definition kindOther : Z := 7.
Definition simpleNil : Z := 22.

Record mapKey (O : Type) : Type := {
  k_kind : Z;
  k_n : Z;
  k_s : bytes;
  k_other : option O;
  k_index : Z
}.
Arguments k_kind {O}. Arguments k_n {O}. Arguments k_s {O}.
Arguments k_other {O}. Arguments k_index {O}.

Definition mk_key {O} (kind n : Z) (s : bytes) : mapKey O :=
  {| k_kind := kind; k_n := n; k_s := s; k_other := None; k_index := 0 |}.
Definition other_key {O} (o : O) : mapKey O :=
  {| k_kind := kindOther; k_n := 0; k_s := []; k_other := Some o; k_index := 0 |}.
Definition with_index {O} (k : mapKey O) (i : Z) : mapKey O :=
  {| k_kind := k_kind k; k_n := k_n k; k_s := k_s k; k_other := k_other k; k_index := i |}.

(** A float64 as its IEEE 754 bits: sign, biased exponent, fraction. *)
Definition f64_bits (sign exp frac : Z) : Z :=
  Z.lor (Z.lor (Z.shiftl sign 63) (Z.shiftl exp 52)) frac.
Definition f64_inf (sign : Z) : Z := f64_bits sign 2047 0.
Definition f64_nan : Z := f64_bits 0 2047 (2 ^ 51).

(** math.Ldexp of a natural number below 2^53 with an exponent that keeps
    the result in float64's normal range: exact. *)
Definition ldexp (sign mant e : Z) : Z :=
  if mant =? 0 then f64_bits sign 0 0
  else
    let l := Z.log2 mant in
    f64_bits sign (e + l + 1023) (Z.shiftl mant (52 - l) - 2 ^ 52).

Definition halfToFloat64 (h : Z) : Z :=
  let sign := Z.shiftr h 15 in
  let exp := Z.land (Z.shiftr h 10) 31 in
  let mant := Z.land h 1023 in
  if exp =? 0 then ldexp sign mant (-24)
  else if exp =? 31 then (if mant =? 0 then f64_inf sign else f64_nan)
  else ldexp sign (mant + 1024) (exp - 25).

(** float64(math.Float32frombits(u)). *)
Definition singleToFloat64 (u : Z) : Z :=
  let sign := Z.shiftr u 31 in
  let exp := Z.land (Z.shiftr u 23) 255 in
  let mant := Z.land u 8388607 in
  if exp =? 0 then ldexp sign mant (-149)
  else if exp =? 255 then (if mant =? 0 then f64_inf sign else f64_nan)
  else ldexp sign (mant + 8388608) (exp - 150).

Definition f64_is_nan (f : Z) : bool :=
  (Z.land (Z.shiftr f 52) 2047 =? 2047) && negb (Z.land f (2 ^ 52 - 1) =? 0).
Definition f64_is_zero (f : Z) : bool := Z.land f (2 ^ 63 - 1) =? 0.

Definition simpleKey {O} (ai arg : Z) (b : bytes) : mapKey O :=
  let of_float f :=
    if f64_is_nan f then mk_key kindNaN 0 []
    else mk_key kindFloat (if f64_is_zero f then 0 else f) [] in
  if ai =? 23 then mk_key kindSimple simpleNil []
  else if ai =? 25 then of_float (halfToFloat64 (be_value b))
  else if ai =? 26 then of_float (singleToFloat64 (be_value b))
  else if ai =? 27 then of_float arg
  else mk_key kindSimple arg [].

(** cmp.Compare and bytes.Compare, as -1, 0 or 1; cmp.Or keeps the first
    that isn't 0. *)
Definition cmp_Z (a b : Z) : Z := if a <? b then -1 else if b <? a then 1 else 0.
Fixpoint bytes_compare (a b : bytes) : Z :=
  match a, b with
  | [], [] => 0
  | [], _ :: _ => -1
  | _ :: _, [] => 1
  | x :: a, y :: b => if x <? y then -1 else if y <? x then 1 else bytes_compare a b
  end.
Definition cmp_or (a b : Z) : Z := if a =? 0 then b else a.

Definition compareKeys {O} (a b : mapKey O) : Z :=
  cmp_or (cmp_Z (k_kind a) (k_kind b))
    (cmp_or (cmp_Z (k_n a) (k_n b))
      (cmp_or (cmp_Z (blen (k_s a)) (blen (k_s b))) (bytes_compare (k_s a) (k_s b)))).

(** slices.SortFunc(keys, compareKeys), as an insertion sort: stable, where
    Go's order of equal keys, and so the index its error reports among
    three or more equal keys, isn't fixed. *)
Fixpoint insert_key {O} (k : mapKey O) (l : list (mapKey O)) : list (mapKey O) :=
  match l with
  | [] => [k]
  | k' :: l' => if compareKeys k k' <=? 0 then k :: l else k' :: insert_key k l'
  end.
Definition sort_keys {O} (l : list (mapKey O)) : list (mapKey O) := foldr insert_key [] l.

Fixpoint adjacent_duplicate {O} (prev : mapKey O) (l : list (mapKey O)) : res cbor_error unit :=
  match l with
  | [] => Ok tt
  | k :: l =>
      if negb (k_kind k =? kindNaN) && (compareKeys prev k =? 0)
      then Err (ErrDupMapKey (Z.max (k_index prev) (k_index k)))
      else adjacent_duplicate k l
  end.

Definition duplicateKey {O} (keys : list (mapKey O)) : res cbor_error unit :=
  if blen keys <? 2 then Ok tt
  else
    match sort_keys keys with
    | [] => Ok tt
    | k :: l => adjacent_duplicate k l
    end.

(** ** The wrapped mode and the walker *)

(** The wrapped cbor.DecMode's options, and its decoding where the walk asks
    for it: whether it decodes a time, and the key it decodes a one-entry map
    to ([Some None]: the map came out empty). *)
Record Mode (O : Type) : Type := {
  MaxNestedLevels : Z;
  MaxArrayElements : Z;
  MaxMapPairs : Z;
  UTF8RejectInvalid : bool;
  MapKeyByteStringAllowed : bool;
  other_eqb : O -> O -> bool;
  unmarshal_time : bytes -> bool;
  unmarshal_map_key : bytes -> option (option O)
}.
Arguments MaxNestedLevels {O}. Arguments MaxArrayElements {O}. Arguments MaxMapPairs {O}.
Arguments UTF8RejectInvalid {O}. Arguments MapKeyByteStringAllowed {O}.
Arguments other_eqb {O}. Arguments unmarshal_time {O}. Arguments unmarshal_map_key {O}.

Definition defaultMaxNestedLevels : Z := 32.
Definition defaultMaxContainer : Z := 131072.
Definition or_default (n d : Z) : Z := if n =? 0 then d else n.

(** The walker's fixed fields, and those its methods change. *)
Record config (O : Type) : Type := {
  mode : Mode O;
  data : bytes;
  maxItems : Z
}.
Arguments mode {O}. Arguments data {O}. Arguments maxItems {O}.
Definition maxNested {O} (c : config O) : Z := or_default (MaxNestedLevels (mode c)) defaultMaxNestedLevels.
Definition maxArray {O} (c : config O) : Z := or_default (MaxArrayElements (mode c)) defaultMaxContainer.
Definition maxPairs {O} (c : config O) : Z := or_default (MaxMapPairs (mode c)) defaultMaxContainer.
Definition checkUTF8 {O} (c : config O) : bool := UTF8RejectInvalid (mode c).
Definition bstrKeys {O} (c : config O) : bool := MapKeyByteStringAllowed (mode c).

Record walker (O : Type) : Type := {
  w_off : Z;
  w_items : Z;
  w_keys : list (mapKey O)
}.
Arguments w_off {O}. Arguments w_items {O}. Arguments w_keys {O}.

Definition W (O A : Type) : Type := walker O -> res cbor_error A * walker O.

Definition ret {O A} (a : A) : W O A := fun w => (Ok a, w).
Definition fail {O A} (e : cbor_error) : W O A := fun w => (Err e, w).
Definition lift {O A} (m : res cbor_error A) : W O A := fun w => (m, w).
Definition bind {O A B} (m : W O A) (k : A -> W O B) : W O B := fun w =>
  match m w with
  | (Ok a, w) => k a w
  | (Err e, w) => (Err e, w)
  end.
Notation "'do' x <- m ; k" := (bind m (fun x => k))
  (at level 10, x pattern, m at level 100, k at level 200) : go_scope.

Definition get_off {O} : W O Z := fun w => (Ok (w_off w), w).
Definition set_off {O} (off : Z) : W O unit := fun w =>
  (Ok tt, {| w_off := off; w_items := w_items w; w_keys := w_keys w |}).
Definition get_keys {O} : W O (list (mapKey O)) := fun w => (Ok (w_keys w), w).
Definition set_keys {O} (ks : list (mapKey O)) : W O unit := fun w =>
  (Ok tt, {| w_off := w_off w; w_items := w_items w; w_keys := ks |}).

Section Walk.
Context {O : Type} (c : config O).

(** [w.head()]: a failed read leaves the offset 0, as the multiple
    assignment does. *)
Definition head : W O (Z * Z * Z) := fun w =>
  match readHead (data c) (w_off w) with
  | Err e => (Err e, {| w_off := 0; w_items := w_items w; w_keys := w_keys w |})
  | Ok (major, ai, arg, next) =>
      let w := {| w_off := next; w_items := w_items w + 1; w_keys := w_keys w |} in
      if maxItems c <? w_items w then (Err ErrTooManyItems, w) else (Ok (major, ai, arg), w)
  end.

Definition atBreak : W O bool :=
  do off <- get_off;
  if blen (data c) <=? off then fail ErrUnexpectedEOF
  else if at_ (data c) off =? breakCode then do _ <- set_off (off + 1); ret true
  else ret false.

Definition chunk (major n : Z) : W O unit :=
  do off <- get_off;
  let '(l, ok) := span (data c) off n in
  if negb ok then fail ErrUnexpectedEOF
  else
    let s := slice (data c) off (off + l) in
    do _ <- set_off (off + l);
    if (major =? majorText) && checkUTF8 c && negb (utf8_valid s) then fail ErrInvalidUTF8
    else ret tt.

Fixpoint chunks (fuel : nat) (major : Z) : W O unit :=
  match fuel with
  | 0%nat => fail ErrFuel
  | S fuel =>
      do done <- atBreak;
      if done then ret tt
      else
        do (cm, cai, carg) <- head;
        if negb (cm =? major) || (cai =? aiIndefinite) then fail ErrMalformed
        else do _ <- chunk major carg; chunks fuel major
  end.

Definition length_ (n per limit : Z) (tooMany : Z -> cbor_error) : W O Z :=
  do off <- get_off;
  let '(l, ok) := span (data c) off n in
  if negb ok || (blen (data c) - off <? per * l) then fail ErrUnexpectedEOF
  else if limit <? l then fail (tooMany limit)
  else ret l.

Definition another (indefinite : bool) (i count limit : Z) (tooMany : Z -> cbor_error) : W O bool :=
  if negb indefinite then ret (i <? count)
  else
    do done <- atBreak;
    if done then ret false
    else if limit <=? i then fail (tooMany limit)
    else ret true.

(** The walk of an item's parts calls [item], so each takes it as an
    argument. *)
Section Parts.
Context (item : Z -> W O unit).

Fixpoint array_loop (fuel : nat) (depth : Z) (indefinite : bool) (i count : Z) : W O unit :=
  match fuel with
  | 0%nat => fail ErrFuel
  | S fuel =>
      do more <- another indefinite i count (maxArray c) ErrTooManyElements;
      if negb more then ret tt
      else do _ <- item depth; array_loop fuel depth indefinite (i + 1) count
  end.

Definition arrayItems (depth : Z) (indefinite : bool) (n : Z) : W O unit :=
  do count <- (if indefinite then ret 0 else length_ n 1 (maxArray c) ErrTooManyElements);
  array_loop (S (length (data c))) depth indefinite 0 count.

Record mapWalk : Type := {
  m_base : nat;
  m_first : Z;
  m_ascending : bool;
  m_last : option (mapKey O);
  m_other : list O
}.

(** A string key's content: the definite string's bytes, or its chunks
    joined. *)
Fixpoint join_chunks (fuel : nat) (off : Z) : res cbor_error bytes :=
  match fuel with
  | 0%nat => Err ErrFuel
  | S fuel =>
      if at_ (data c) off =? breakCode then Ok []
      else
        let? (_, _, n, chunk) := readHead (data c) off in
        let '(l, _) := span (data c) chunk n in
        let? s := join_chunks fuel (chunk + l) in
        Ok (slice (data c) chunk (chunk + l) ++ s)
  end.

Definition stringKey (major ai arg next : Z) : res cbor_error (mapKey O) :=
  if (major =? majorBytes) && negb (bstrKeys c) then Err ErrMapKeyType
  else
    let kind := if major =? majorBytes then kindBytes else kindText in
    if negb (ai =? aiIndefinite) then
      let '(l, _) := span (data c) next arg in
      Ok (mk_key kind 0 (slice (data c) next (next + l)))
    else
      let? s := join_chunks (S (length (data c))) next in
      Ok (mk_key kind 0 s).

(** Past a key's self-described CBOR tags: the first head that isn't one. *)
Fixpoint drop_self_described (fuel : nat) (off : Z) : res cbor_error (Z * (Z * Z * Z * Z)) :=
  match fuel with
  | 0%nat => Err ErrFuel
  | S fuel =>
      let? (major, ai, arg, next) := readHead (data c) off in
      if (major =? majorTag) && (arg =? 55799) then drop_self_described fuel next
      else Ok (off, (major, ai, arg, next))
  end.

Definition key (start end_ : Z) : res cbor_error (mapKey O) :=
  let? (off, (major, ai, arg, next)) := drop_self_described (S (length (data c))) start in
  if major =? majorUint then Ok (mk_key kindUint arg [])
  else if major =? majorNint then
    if MaxInt64 <? arg then Err ErrMapKeyType else Ok (mk_key kindNint arg [])
  else if (major =? majorBytes) || (major =? majorText) then stringKey major ai arg next
  else if (major =? majorArray) || (major =? majorMap) then Err ErrMapKeyType
  else if major =? majorSimple then Ok (simpleKey ai arg (slice (data c) (off + 1) next))
  else
    match unmarshal_map_key (mode c) (161 :: slice (data c) start end_ ++ [246]) with
    | None => Err ErrMode
    | Some None => Err ErrMalformed
    | Some (Some o) => Ok (other_key o)
    end.

(** The keys of the entries from [off] to [keyStart]. *)
Fixpoint keys_before (fuel : nat) (i off keyStart : Z) : res cbor_error (list (mapKey O)) :=
  match fuel with
  | 0%nat => Err ErrFuel
  | S fuel =>
      if keyStart <=? off then Ok []
      else
        let? end_ := skip (data c) (S (length (data c))) off in
        let? k := key off end_ in
        let? off := skip (data c) (S (length (data c))) end_ in
        let? ks := keys_before fuel (i + 1) off keyStart in
        Ok (if k_kind k =? kindOther then ks else with_index k i :: ks)
  end.

(** [w.keysBefore]: an error leaves the keys kept so far, which the map's
    walk drops again. *)
Definition keysBefore (m : mapWalk) (keyStart : Z) : W O unit :=
  do before <- lift (keys_before (S (length (data c))) 0 (m_first m) keyStart);
  do keys <- get_keys;
  set_keys (keys ++ before).

Definition record (k : mapKey O) (i keyStart : Z) (m : mapWalk) : W O mapWalk :=
  if k_kind k =? kindOther then
    match k_other k with
    | None => ret m
    | Some o =>
        if existsb (fun o' => other_eqb (mode c) o' o) (m_other m) then fail (ErrDupMapKey i)
        else ret {| m_base := m_base m; m_first := m_first m; m_ascending := m_ascending m;
                    m_last := m_last m; m_other := o :: m_other m |}
    end
  else
    let k := with_index k i in
    if m_ascending m && match m_last m with None => true | Some l => compareKeys l k <? 0 end then
      ret {| m_base := m_base m; m_first := m_first m; m_ascending := true;
             m_last := Some k; m_other := m_other m |}
    else
      do _ <- (if m_ascending m then keysBefore m keyStart else ret tt);
      do keys <- get_keys;
      do _ <- set_keys (keys ++ [k]);
      ret {| m_base := m_base m; m_first := m_first m; m_ascending := false;
             m_last := m_last m; m_other := m_other m |}.

Definition pair (depth : Z) (indefinite : bool) (i : Z) (m : mapWalk) : W O mapWalk :=
  do keyStart <- get_off;
  do _ <- item depth;
  do end_ <- get_off;
  do k <- lift (key keyStart end_);
  do m <- record k i keyStart m;
  do done <- (if indefinite then atBreak else ret false);
  if done then fail ErrUnexpectedBreak
  else do _ <- item depth; ret m.

Fixpoint map_loop (fuel : nat) (depth : Z) (indefinite : bool) (i count : Z) (m : mapWalk) : W O mapWalk :=
  match fuel with
  | 0%nat => fail ErrFuel
  | S fuel =>
      do more <- another indefinite i count (maxPairs c) ErrTooManyPairs;
      if negb more then ret m
      else
        do m <- pair depth indefinite i m;
        map_loop fuel depth indefinite (i + 1) count m
  end.

(** [defer func() { w.keys = w.keys[:m.base] }()]: on every path out. *)
Definition with_keys_restored {A} (base : nat) (f : W O A) : W O A := fun w =>
  let '(r, w) := f w in
  (r, {| w_off := w_off w; w_items := w_items w; w_keys := take base (w_keys w) |}).

Definition mapItems (depth : Z) (indefinite : bool) (n : Z) : W O unit :=
  do count <- (if indefinite then ret 0 else length_ n 2 (maxPairs c) ErrTooManyPairs);
  do keys <- get_keys;
  do first <- get_off;
  let m := {| m_base := length keys; m_first := first; m_ascending := true; m_last := None; m_other := [] |} in
  with_keys_restored (m_base m)
    (do _ <- map_loop (S (length (data c))) depth indefinite 0 count m;
     do keys <- get_keys;
     lift (duplicateKey (drop (m_base m) keys))).

Definition validTagContent (num content : Z) : res cbor_error unit :=
  let major := Z.shiftr content 5 in
  let ok :=
    if num =? 0 then major =? majorText
    else if num =? 1 then (major =? majorUint) || (major =? majorNint) || ((249 <=? content) && (content <=? 251))
    else if (num =? 2) || (num =? 3) then major =? majorBytes
    else true in
  if negb ok then Err (ErrTagContent num) else Ok tt.

(** The chain of tags: the depth of its content, and the start of the
    innermost time tag, -1 if none. *)
Fixpoint tag_chain (fuel : nat) (depth start num timeTag : Z) : W O (Z * Z) :=
  match fuel with
  | 0%nat => fail ErrFuel
  | S fuel =>
      do off <- get_off;
      if blen (data c) <=? off then fail ErrUnexpectedEOF
      else
        do _ <- lift (validTagContent num (at_ (data c) off));
        let timeTag := if (num =? 0) || (num =? 1) then start else timeTag in
        if negb (Z.shiftr (at_ (data c) off) 5 =? majorTag) then ret (depth, timeTag)
        else
          do (_, _, n) <- head;
          if maxNested c <? depth + 1 then fail (ErrNested (maxNested c))
          else tag_chain fuel (depth + 1) off n timeTag
  end.

Definition tag (depth start num : Z) : W O unit :=
  do (depth, timeTag) <- tag_chain (S (length (data c))) depth start num (-1);
  do _ <- item depth;
  if 0 <=? timeTag then
    do off <- get_off;
    if unmarshal_time (mode c) (slice (data c) timeTag off) then ret tt else fail ErrMode
  else ret tt.
End Parts.

Fixpoint item (fuel : nat) (depth : Z) : W O unit :=
  match fuel with
  | 0%nat => fail ErrFuel
  | S fuel =>
      do start <- get_off;
      do (major, ai, arg) <- head;
      if (major =? majorBytes) || (major =? majorText) then
        if negb (ai =? aiIndefinite) then chunk major arg else chunks (S (length (data c))) major
      else if (major =? majorArray) || (major =? majorMap) then
        let depth := depth + 1 in
        if maxNested c <? depth then fail (ErrNested (maxNested c))
        else if major =? majorMap then mapItems (item fuel) depth (ai =? aiIndefinite) arg
        else arrayItems (item fuel) depth (ai =? aiIndefinite) arg
      else if major =? majorTag then tag (item fuel) depth start arg
      else ret tt
  end.
End Walk.

(** ** DecMode: walking, with the item count and its budget *)

Definition DefaultMaxItems : Z := 65536.

Record budget : Type := { b_total : Z; b_left : Z }.

(** A DecMode: the wrapped mode, its own limit, and the budget, if any, as
    it stands; a call returns the budget as it leaves it. *)
Record DecMode (O : Type) : Type := {
  dm_mode : Mode O;
  dm_maxItems : Z;
  dm_budget : option budget
}.
Arguments dm_mode {O}. Arguments dm_maxItems {O}. Arguments dm_budget {O}.

Definition Wrap {O} (mode : Mode O) : DecMode O :=
  {| dm_mode := mode; dm_maxItems := DefaultMaxItems; dm_budget := None |}.
Definition WithMaxItems {O} (m : DecMode O) (n : Z) : DecMode O :=
  {| dm_mode := dm_mode m; dm_maxItems := n; dm_budget := dm_budget m |}.
Definition WithBudget {O} (m : DecMode O) (n : Z) : DecMode O :=
  {| dm_mode := dm_mode m; dm_maxItems := dm_maxItems m; dm_budget := Some {| b_total := n; b_left := n |} |}.
Definition MaxItems {O} (m : DecMode O) : Z :=
  if dm_maxItems m <=? 0 then DefaultMaxItems else dm_maxItems m.

Definition walk_limit {O} (m : DecMode O) : Z :=
  match dm_budget m with
  | None => MaxItems m
  | Some b => Z.min (MaxItems m) (b_left b)
  end.

(** [walk]'s run of the walker: [None] for empty data, which it refuses
    before walking. *)
Definition run_walker {O} (m : DecMode O) (d : bytes) : option (res cbor_error unit * walker O) :=
  if blen d =? 0 then None
  else
    let c := {| mode := dm_mode m; data := d; maxItems := walk_limit m |} in
    Some (item c (S (length d)) 0 {| w_off := 0; w_items := 0; w_keys := [] |}).

Definition charge (b : option budget) (items : Z) : option budget :=
  match b with
  | None => None
  | Some b => Some {| b_total := b_total b; b_left := b_left b - items |}
  end.

Definition walk {O} (m : DecMode O) (d : bytes) (whole : bool) : res cbor_error unit * option budget :=
  match run_walker m d with
  | None => (Err ErrEOF, dm_budget m)
  | Some (r, w) =>
      (match r with
       | Err ErrTooManyItems =>
           match dm_budget m with
           | Some b => if walk_limit m <? MaxItems m then Err (ErrMoreThanInMessage (b_total b))
                       else Err (ErrMoreThan (walk_limit m))
           | None => Err (ErrMoreThan (walk_limit m))
           end
       | Err e => Err e
       | Ok _ =>
           if whole && negb (w_off w =? blen d)
           then Err (ErrExtraneous (blen d - w_off w) (w_off w)) else Ok tt
       end, charge (dm_budget m) (w_items w))
  end.

(** The exported calls: the walk, then the wrapped mode's own. *)
Definition Unmarshal {O V} (unmarshal : bytes -> res cbor_error V) (m : DecMode O) (d : bytes)
    : res cbor_error V * option budget :=
  let '(r, b) := walk m d true in
  (let? _ := r in unmarshal d, b).
Definition UnmarshalFirst {O V} (unmarshalFirst : bytes -> res cbor_error (V * bytes)) (m : DecMode O) (d : bytes)
    : res cbor_error (V * bytes) * option budget :=
  let '(r, b) := walk m d false in
  (let? _ := r in unmarshalFirst d, b).
Definition Wellformed {O} (wellformed : bytes -> res cbor_error unit) (m : DecMode O) (d : bytes)
    : res cbor_error unit * option budget :=
  let '(r, b) := walk m d true in
  (let? _ := r in wellformed d, b).

(** ** Reading a checked item *)

Section Entries.
Context {St : Type} (fn : St -> bytes -> bytes -> res cbor_error St) (d : bytes).

Fixpoint entries_loop (fuel : nat) (ai arg i off : Z) (s : St) : res cbor_error St :=
  match fuel with
  | O => Err ErrFuel
  | S fuel =>
      if negb ((ai =? aiIndefinite) || (i <? arg)) then Ok s
      else if (ai =? aiIndefinite) && (blen d <=? off) then Err ErrUnexpectedEOF
      else if (ai =? aiIndefinite) && (at_ d off =? breakCode) then Ok s
      else
        let? keyEnd := skip d (S (length d)) off in
        let? end_ := skip d (S (length d)) keyEnd in
        let? s := fn s (slice d off keyEnd) (slice d keyEnd end_) in
        entries_loop fuel ai arg (i + 1) end_ s
  end.

Definition Entries (s : St) : res cbor_error St :=
  let? (major, ai, arg, off) := readHead d 0 in
  if negb (major =? majorMap) then Err ErrNotMap
  else entries_loop (S (length d)) ai arg 0 off s.
End Entries.

Fixpoint bytes_chunks (fuel : nat) (item : bytes) (off : Z) (s : bytes) : option bytes :=
  match fuel with
  | O => None
  | S fuel =>
      if blen item <=? off then None
      else if at_ item off =? breakCode then Some s
      else
        match readHead item off with
        | Err _ => None
        | Ok (cm, cai, n, chunk) =>
            if negb (cm =? majorBytes) || (cai =? aiIndefinite) then None
            else
              let '(l, ok) := span item chunk n in
              if negb ok then None
              else bytes_chunks fuel item (chunk + l) (s ++ slice item chunk (chunk + l))
        end
  end.

Definition Bytes (item : bytes) : option bytes :=
  match readHead item 0 with
  | Err _ => None
  | Ok (major, ai, arg, off) =>
      if negb (major =? majorBytes) then None
      else if negb (ai =? aiIndefinite) then
        let '(l, ok) := span item off arg in
        if negb ok then None else Some (slice item off (off + l))
      else bytes_chunks (S (length item)) item off []
  end.

Definition IsMap (item : bytes) : bool :=
  match readHead item 0 with
  | Err _ => false
  | Ok (major, _, _, _) => major =? majorMap
  end.
