(* ===== verification/CborKeys.v ===== *)
(** * Duplicate map keys: the order behind [internal/strictcbor]'s search

    [compareKeys] is a total preorder whose classes are the decoded keys;
    sorting by it and looking at neighbours finds a duplicate exactly when
    there is one; a strictly ascending run of keys has none. *)
From S2P Require Import Prelude Cbor.
From Stdlib Require Import Sorted.

(** ** Comparisons *)

(** What a three-way comparison promises. *)
Class CmpLaws {A : Type} (f : A -> A -> Z) : Prop := {
  cmp_opp : forall a b, f a b = - f b a;
  cmp_trans : forall a b c, f a b <= 0 -> f b c <= 0 -> f a c <= 0
}.

Section Laws.
Context {A : Type} (f : A -> A -> Z) `{!CmpLaws f}.

Lemma cmp_refl a : f a a = 0.
Proof using CmpLaws0. pose proof (cmp_opp a a); lia. Qed.

Lemma cmp_zero_trans a b c : f a b = 0 -> f b c = 0 -> f a c = 0.
Proof using CmpLaws0.
  intros; pose proof (cmp_trans a b c); pose proof (cmp_trans c b a).
  pose proof (cmp_opp a b); pose proof (cmp_opp b c); pose proof (cmp_opp a c); lia.
Qed.

(** Between two equal ends everything is equal. *)
Lemma cmp_squeeze a b c : f a b <= 0 -> f b c <= 0 -> f a c = 0 -> f a b = 0.
Proof using CmpLaws0.
  intros; pose proof (cmp_trans b c a); pose proof (cmp_opp a b); pose proof (cmp_opp a c); lia.
Qed.

Lemma cmp_lt_trans a b c : f a b < 0 -> f b c <= 0 -> f a c < 0.
Proof using CmpLaws0.
  intros Hab Hbc; pose proof (cmp_trans (f := f) a b c ltac:(lia) Hbc).
  destruct (Z.eq_dec (f a c) 0) as [E|]; [|lia].
  pose proof (cmp_squeeze a b c ltac:(lia) Hbc E); lia.
Qed.
End Laws.

#[export] Instance cmp_Z_laws {A} (g : A -> Z) : CmpLaws (fun a b => cmp_Z (g a) (g b)).
Proof. split; intros; unfold cmp_Z in *; repeat go_case; repeat go_case_in H; repeat go_case_in H0; lia. Qed.

#[export] Instance cmp_or_laws {A} (f g : A -> A -> Z) `{!CmpLaws f, !CmpLaws g} :
  CmpLaws (fun a b => cmp_or (f a b) (g a b)).
Proof.
  split; unfold cmp_or.
  - intros a b; rewrite (cmp_opp (f := f) a b), (cmp_opp (f := g) a b).
    destruct (Z.eqb_spec (- f b a) 0), (Z.eqb_spec (f b a) 0); lia.
  - intros a b c.
    pose proof (cmp_trans (f := f) a b c); pose proof (cmp_trans (f := g) a b c).
    pose proof (cmp_zero_trans f a b c).
    pose proof (cmp_squeeze f a b c).
    pose proof (cmp_trans (f := f) b c a); pose proof (cmp_opp (f := f) a c); pose proof (cmp_opp (f := f) a b).
    pose proof (cmp_opp (f := f) b c); pose proof (cmp_trans (f := f) c a b).
    destruct (Z.eqb_spec (f a b) 0), (Z.eqb_spec (f b c) 0), (Z.eqb_spec (f a c) 0); lia.
Qed.

Lemma cmp_or_zero a b : cmp_or a b = 0 <-> a = 0 /\ b = 0.
Proof. unfold cmp_or; destruct (Z.eqb_spec a 0); lia. Qed.

Lemma cmp_Z_zero a b : cmp_Z a b = 0 <-> a = b.
Proof. unfold cmp_Z; repeat go_case; lia. Qed.

Lemma bytes_compare_zero a b : bytes_compare a b = 0 <-> a = b.
Proof.
  revert b; induction a as [|x a IH]; intros [|y b]; cbn; [done..|].
  repeat go_case; [naive_solver lia..|].
  rewrite IH; assert (x = y) by lia; naive_solver.
Qed.

#[export] Instance bytes_compare_laws : CmpLaws bytes_compare.
Proof.
  split.
  - intros a; induction a as [|x a IH]; intros [|y b]; cbn; [done..|].
    destruct (Z.ltb_spec x y), (Z.ltb_spec y x); [lia..|apply IH].
  - intros a; induction a as [|x a IH]; intros [|y b] [|z c]; cbn; try lia.
    intros H1 H2; repeat go_case; repeat go_case_in H1; repeat go_case_in H2; try lia.
    by apply (IH b c).
Qed.

#[export] Instance bytes_field_laws {A} (g : A -> bytes) : CmpLaws (fun a b => bytes_compare (g a) (g b)).
Proof. split; intros; [apply cmp_opp|by eapply cmp_trans]. Qed.

#[export] Instance compareKeys_laws {O} : CmpLaws (@compareKeys O).
Proof. unfold compareKeys; apply _. Qed.

(** ** Identities *)

(** What [compareKeys] compares, and a key's identity as a decoded Go value:
    [None] for one it never equals another by, a NaN, and for one compared
    as decoded. *)
Definition key_class {O} (k : mapKey O) : Z * Z * bytes := (k_kind k, k_n k, k_s k).
Definition identity {O} (k : mapKey O) : option (Z * Z * bytes) :=
  if (k_kind k =? kindNaN) || (k_kind k =? kindOther) then None else Some (key_class k).

Lemma compareKeys_zero {O} (a b : mapKey O) : compareKeys a b = 0 <-> key_class a = key_class b.
Proof.
  unfold compareKeys, key_class; rewrite !cmp_or_zero, !cmp_Z_zero, bytes_compare_zero.
  split; [intros (-> & -> & _ & ->); done|intros [= H1 H2 H3]; by rewrite H1, H2, H3].
Qed.

Definition key_le {O} (a b : mapKey O) : Prop := compareKeys a b <= 0.
Definition key_lt {O} (a b : mapKey O) : Prop := compareKeys a b < 0.

(** ** Sorting *)

Lemma insert_key_perm {O} (k : mapKey O) l : insert_key k l ≡ₚ k :: l.
Proof.
  induction l as [|k' l IH]; cbn; [done|]; go_case; [done|].
  by rewrite IH, Permutation_swap.
Qed.

Lemma sort_keys_perm {O} (l : list (mapKey O)) : sort_keys l ≡ₚ l.
Proof. unfold sort_keys; induction l as [|k l IH]; cbn; [done|]; by rewrite insert_key_perm, IH. Qed.

Lemma insert_key_sorted {O} (k : mapKey O) l :
  StronglySorted key_le l -> StronglySorted key_le (insert_key k l).
Proof.
  induction 1 as [|k' l Hl IH Hk']; cbn; [by repeat constructor|].
  destruct (Z.leb_spec (compareKeys k k') 0) as [H|H].
  - constructor; [by constructor|]; constructor; [done|].
    eapply Forall_impl; [exact Hk'|]; intros x Hx; by eapply cmp_trans.
  - constructor; [done|]; rewrite insert_key_perm; constructor; [|done].
    unfold key_le; rewrite cmp_opp; lia.
Qed.

Lemma sort_keys_sorted {O} (l : list (mapKey O)) : StronglySorted key_le (sort_keys l).
Proof. unfold sort_keys; induction l; cbn; [constructor|by apply insert_key_sorted]. Qed.

Lemma identity_class {O} (k : mapKey O) x : identity k = Some x -> key_class k = x.
Proof. unfold identity; go_case; naive_solver. Qed.

Lemma identity_eq {O} (a b : mapKey O) : key_class a = key_class b -> identity a = identity b.
Proof. unfold identity, key_class; intros [= H1 H2 H3]; by rewrite H1, H2, H3. Qed.

Lemma elem_of_identities {O} x (l : list (mapKey O)) :
  x ∈ omap identity l <-> exists k, k ∈ l /\ identity k = Some x.
Proof. apply list_elem_of_omap. Qed.

(** The neighbours of a sorted list show its duplicates. *)
Lemma adjacent_duplicate_ok {O} (l : list (mapKey O)) : forall prev,
  Forall (fun k => k_kind k <> kindOther) (prev :: l) -> StronglySorted key_le (prev :: l) ->
  (adjacent_duplicate prev l = Ok tt <-> NoDup (omap identity (prev :: l))).
Proof.
  induction l as [|k l IH]; intros prev Hk Hs.
  - cbn; destruct (identity prev); split; intros _; repeat constructor; set_solver.
  - apply Forall_cons in Hk as [Hp Hk]; apply StronglySorted_inv in Hs as [Hs Hle].
    specialize (IH k Hk Hs); cbn [adjacent_duplicate].
    apply Forall_cons in Hle as [Hpk Hle].
    destruct (negb (k_kind k =? kindNaN) && (compareKeys prev k =? 0))%bool eqn:E.
    + split; [done|]; bool_prop.
      match goal with H : compareKeys prev k = 0 |- _ => apply compareKeys_zero in H; rename H into Hc end.
      apply Forall_cons in Hk as [Hk _].
      assert (Hi : exists x, identity k = Some x).
      { unfold identity; destruct (Z.eqb_spec (k_kind k) kindNaN), (Z.eqb_spec (k_kind k) kindOther);
          cbn; naive_solver. }
      destruct Hi as [x Hi]; cbn [omap list_omap]; rewrite (identity_eq prev k Hc), Hi.
      intros [Hn _]%NoDup_cons; set_solver.
    + rewrite IH; cbn [omap list_omap]; destruct (identity prev) as [x|] eqn:Hx; [|done].
      rewrite NoDup_cons; split; [|naive_solver]; intros Hn; split; [|done].
      change (match identity k with Some y => y :: omap identity l | None => omap identity l end)
        with (omap identity (k :: l)); intros (k' & Hin & Hk')%elem_of_identities.
      assert (Hpk' : compareKeys prev k' = 0)
        by (apply compareKeys_zero; by rewrite (identity_class _ _ Hx), (identity_class _ _ Hk')).
      assert (Hkk' : compareKeys k k' <= 0).
      { apply elem_of_cons in Hin as [->|Hin]; [by rewrite cmp_refl by apply _|].
        apply StronglySorted_inv in Hs as [_ Hs]; rewrite Forall_forall in Hs.
        by apply Hs. }
      pose proof (cmp_squeeze compareKeys prev k k' Hpk Hkk' Hpk') as Hz.
      apply andb_false_iff in E as [E|E]; [|lia]; apply negb_false_iff, Z.eqb_eq in E.
      apply compareKeys_zero in Hz; apply identity_eq in Hz; rewrite Hx in Hz.
      unfold identity in Hz; rewrite E in Hz; done.
Qed.

Lemma duplicateKey_ok {O} (keys : list (mapKey O)) :
  Forall (fun k => k_kind k <> kindOther) keys ->
  (duplicateKey keys = Ok tt <-> NoDup (omap identity keys)).
Proof.
  intros Hk; unfold duplicateKey; destruct (Z.ltb_spec (blen keys) 2) as [Hlen|_].
  - destruct keys as [|k [|k' keys]]; [split; [constructor|done]| |];
      [|rewrite !blen_cons in Hlen; pose proof (blen_nonneg keys); lia].
    cbn; destruct (identity k); split; repeat constructor; set_solver.
  - pose proof (sort_keys_perm keys) as HP; pose proof (sort_keys_sorted keys) as Hs.
    destruct (sort_keys keys) as [|k l]; [apply Permutation_nil_l in HP; subst keys; by split; [constructor|]|].
    rewrite adjacent_duplicate_ok; [|by rewrite HP|done].
    by rewrite <- HP.
Qed.

(** A strictly ascending list has no duplicate. *)
Lemma ascending_nodup {O} (keys : list (mapKey O)) :
  StronglySorted key_lt keys -> NoDup (omap identity keys).
Proof.
  induction 1 as [|k keys _ IH Hk]; cbn [omap list_omap]; [constructor|].
  destruct (identity k) as [x|] eqn:Hx; [|done]; constructor; [|done].
  intros (k' & Hin & Hx')%elem_of_identities; rewrite Forall_forall in Hk.
  specialize (Hk k' Hin); unfold key_lt in Hk.
  assert (compareKeys k k' = 0); [|lia].
  apply compareKeys_zero; by rewrite (identity_class _ _ Hx), (identity_class _ _ Hx').
Qed.

(** Appending a greater key keeps a list strictly ascending. *)
Lemma ascending_snoc {O} (keys : list (mapKey O)) k :
  StronglySorted key_lt keys ->
  match last keys with None => True | Some l => key_lt l k end ->
  StronglySorted key_lt (keys ++ [k]).
Proof.
  induction 1 as [|k' keys Hs IH Hk']; cbn [app]; [repeat constructor|].
  intros Hlast; destruct keys as [|a keys]; [by repeat constructor|].
  change (last (k' :: a :: keys)) with (last (a :: keys)) in Hlast.
  constructor; [by apply IH|]; apply Forall_app; split; [done|]; constructor; [|done].
  destruct (last (a :: keys)) as [l|] eqn:E; [|by apply last_None in E].
  apply last_Some_elem_of in E; rewrite Forall_forall in Hk'; specialize (Hk' l E).
  unfold key_lt in *; eapply cmp_lt_trans; [apply _|exact Hk'|lia].
Qed.

Lemma NoDup_omap_lookup {A B} (f : A -> option B) (l : list A) :
  NoDup (omap f l) <->
  (forall i j a b x, l !! i = Some a -> l !! j = Some b -> f a = Some x -> f b = Some x -> i = j).
Proof.
  induction l as [|a l IH]; cbn [omap list_omap].
  - split; [intros _ []; done|constructor].
  - assert (Htail : (forall i j a' b x, (a :: l) !! i = Some a' -> (a :: l) !! j = Some b ->
        f a' = Some x -> f b = Some x -> i = j) ->
      forall i j a' b x, l !! i = Some a' -> l !! j = Some b -> f a' = Some x -> f b = Some x -> i = j).
    { intros H i j a' b x Hi Hj Ha Hb; apply Nat.succ_inj; by eapply (H (S i) (S j)). }
    destruct (f a) as [y|] eqn:Ha; [rewrite NoDup_cons|]; rewrite IH; split.
    + intros [Hn Hd] [|i] [|j] a' b x Hi Hj Ha' Hb; cbn in Hi, Hj; [done|..]; simplify_eq.
      * destruct Hn; apply list_elem_of_omap; exists b; split; [by eapply list_elem_of_lookup_2|done].
      * destruct Hn; apply list_elem_of_omap; exists a'; split; [by eapply list_elem_of_lookup_2|done].
      * f_equal; by eapply Hd.
    + intros H; split; [|by apply Htail].
      intros (b & (j & Hj)%list_elem_of_lookup & Hb)%list_elem_of_omap.
      by specialize (H 0%nat (S j) a b y eq_refl Hj Ha Hb).
    + intros Hd [|i] [|j] a' b x Hi Hj Ha' Hb; cbn in Hi, Hj; [done|..]; simplify_eq.
      f_equal; by eapply Hd.
    + exact Htail.
Qed.

(** ** Properties *)

(** the duplicate search of a map whose keys came out of order is exact:
    sorting the keys and comparing neighbours passes a list of keys if and
    only if no two of them are the same decoded value, by kind, number and
    string (a NaN equals no key). *)
Theorem duplicateKey_exact {O} (keys : list (mapKey O)) :
  Forall (fun k => k_kind k <> kindOther) keys ->
  (duplicateKey keys = Ok tt <->
   forall i j a b, keys !! i = Some a -> keys !! j = Some b -> i <> j ->
     k_kind a <> kindNaN -> (k_kind a, k_n a, k_s a) <> (k_kind b, k_n b, k_s b)).
Proof.
  intros Hk; rewrite duplicateKey_ok, NoDup_omap_lookup by done.
  rewrite Forall_lookup in Hk; split.
  - intros H i j a b Hi Hj Hij Ha Heq; apply Hij.
    assert (Hid : identity a = Some (key_class a)).
    { unfold identity; specialize (Hk i a Hi).
      destruct (Z.eqb_spec (k_kind a) kindNaN), (Z.eqb_spec (k_kind a) kindOther); done. }
    eapply (H i j a b); [done..|by rewrite <- (identity_eq a b)].
  - intros H i j a b x Hi Hj Ha Hb; destruct (decide (i = j)) as [|Hij]; [done|exfalso].
    eapply (H i j a b); [done..| |].
    + intros E; unfold identity in Ha; by rewrite E in Ha.
    + change (key_class a = key_class b); by rewrite (identity_class _ _ Ha), (identity_class _ _ Hb).
Qed.

Lemma duplicateKey_exact_witness :
  let keys : list (mapKey unit) := [mk_key kindText 0 [97]; mk_key kindUint 5 []; mk_key kindNaN 0 []; mk_key kindNaN 0 []] in
  Forall (fun k => k_kind k <> kindOther) keys /\
  (duplicateKey keys = Ok tt <->
   forall i j a b, keys !! i = Some a -> keys !! j = Some b -> i <> j ->
     k_kind a <> kindNaN -> (k_kind a, k_n a, k_s a) <> (k_kind b, k_n b, k_s b)).
Proof.
  intros keys; assert (H : Forall (fun k => k_kind k <> kindOther) keys) by (repeat constructor; done).
  split; [exact H|exact (duplicateKey_exact keys H)].
Defined.
