(* ===== verification/CborSpec.v ===== *)
(** * What the CBOR walk accepts

    A declarative account of a well-formed data item within a walk's limits,
    by rules over the encoded bytes: its extent, how many data items it
    counts, and for each map its keys, all distinct.  [skip] finds the end of what they derive. *)
From S2P Require Import Prelude Cbor CborKeys.
From Stdlib Require Import Sorted.

Section Spec.
Context {O : Type} (c : config O).

Local Abbreviation d := (data c).
Local Abbreviation L := (blen (data c)).

(** ** The rules *)

(** A definite-length string's content. *)
Definition Content (major s n : Z) : Prop :=
  n <= MaxInt32 /\ s + n <= L /\
  (major = majorText -> checkUTF8 c = true -> utf8_valid (slice d s (s + n)) = true).

(** An indefinite-length string's chunks, up to and with its break. *)
Inductive Chunks (major : Z) : Z -> Z -> Z -> Prop :=
| Chunks_break off :
    off < L -> at_ d off = breakCode -> Chunks major off (off + 1) 0
| Chunks_cons off ai n s off' k :
    readHead d off = Ok (major, ai, n, s) -> ai <> aiIndefinite -> Content major s n ->
    Chunks major (s + n) off' k -> Chunks major off off' (1 + k).

(** A container of [k] items whose last ends at [off1] ends at [off']. *)
Definition Closes (ai arg k limit off1 off' : Z) : Prop :=
  k <= limit /\
  if ai =? aiIndefinite then off1 < L /\ at_ d off1 = breakCode /\ off' = off1 + 1
  else k = arg /\ arg <= MaxInt32 /\ off' = off1.

Definition others (ks : list (mapKey O)) : list O := omap k_other ks.

(** No two keys of a map decode to the same value. *)
Definition Distinct (ks : list (mapKey O)) : Prop :=
  NoDup (omap identity ks) /\
  ForallOrdPairs (fun a b => other_eqb (mode c) a b = false) (others ks).

(** [Item depth off off' n]: the data item at [off], [depth] levels deep,
    ends at [off'] and counts [n] data items. *)
Inductive Item : Z -> Z -> Z -> Z -> Prop :=
| Item_simple depth off major ai arg next :
    readHead d off = Ok (major, ai, arg, next) ->
    major = majorUint \/ major = majorNint \/ major = majorSimple ->
    Item depth off next 1
| Item_string depth off major ai arg next :
    readHead d off = Ok (major, ai, arg, next) ->
    major = majorBytes \/ major = majorText -> ai <> aiIndefinite ->
    Content major next arg -> Item depth off (next + arg) 1
| Item_chunks depth off major arg next off' n :
    readHead d off = Ok (major, aiIndefinite, arg, next) ->
    major = majorBytes \/ major = majorText ->
    Chunks major next off' n -> Item depth off off' (1 + n)
| Item_array depth off ai arg next k off1 off' n :
    readHead d off = Ok (majorArray, ai, arg, next) -> depth + 1 <= maxNested c ->
    Items (depth + 1) k next off1 n ->
    Closes ai arg (Z.of_nat k) (maxArray c) off1 off' ->
    Item depth off off' (1 + n)
| Item_map depth off ai arg next k off1 off' n ks :
    readHead d off = Ok (majorMap, ai, arg, next) -> depth + 1 <= maxNested c ->
    Pairs (depth + 1) k next off1 n ks -> Distinct ks ->
    Closes ai arg (Z.of_nat k) (maxPairs c) off1 off' ->
    Item depth off off' (1 + n)
| Item_tag depth depth' off ai num next off' n :
    readHead d off = Ok (majorTag, ai, num, next) -> next < L ->
    validTagContent num (at_ d next) = Ok tt ->
    depth' = (if Z.shiftr (at_ d next) 5 =? majorTag then depth + 1 else depth) ->
    (Z.shiftr (at_ d next) 5 = majorTag -> depth' <= maxNested c) ->
    Item depth' next off' n ->
    (num = 0 \/ num = 1 -> unmarshal_time (mode c) (slice d off off') = true) ->
    Item depth off off' (1 + n)
with Items : Z -> nat -> Z -> Z -> Z -> Prop :=
| Items_nil depth off : Items depth 0 off off 0
| Items_cons depth k off off1 off' n m :
    Item depth off off1 n -> Items depth k off1 off' m -> Items depth (S k) off off' (n + m)
with Pairs : Z -> nat -> Z -> Z -> Z -> list (mapKey O) -> Prop :=
| Pairs_nil depth off : Pairs depth 0 off off 0 []
| Pairs_cons depth k off off1 off2 off' n1 n2 m key_ ks :
    Item depth off off1 n1 -> key c off off1 = Ok key_ -> Item depth off1 off2 n2 ->
    Pairs depth k off2 off' m ks -> Pairs depth (S k) off off' (n1 + n2 + m) (key_ :: ks).

Scheme Item_mut := Induction for Item Sort Prop
with Items_mut := Induction for Items Sort Prop
with Pairs_mut := Induction for Pairs Sort Prop.
Combined Scheme Item_Items_Pairs_ind from Item_mut, Items_mut, Pairs_mut.

(** ** Heads and extents *)

Context (Hd : bytes_ok (data c)).

Lemma readHead_bounds off major ai arg next :
  0 <= off -> readHead d off = Ok (major, ai, arg, next) -> off < next <= L /\ 0 <= arg.
Proof using Hd.
  intros Hoff; unfold readHead; destruct (Z.leb_spec L off); [done|].
  set (b := at_ d off).
  assert (Hb : 0 <= Z.land b 31) by (apply Z.land_nonneg; lia).
  go_case; [intros; simplify_eq; lia|].
  destruct (Z.leb_spec (Z.land b 31) 27).
  - assert (Hn : 1 <= Z.shiftl 1 (Z.land b 31 - 24) ).
    { rewrite Z.shiftl_mul_pow2 by lia; pose proof (Z.pow_pos_nonneg 2 (Z.land b 31 - 24)); lia. }
    go_case; [done|]; go_case; [done|]; intros; simplify_eq; split; [lia|].
    apply be_value_bound; unfold slice; by apply Forall_take, Forall_drop.
  - destruct (_ =? aiIndefinite); [|done]; go_case; [done|]; intros; simplify_eq; lia.
Qed.

Lemma readHead_not_break off h : readHead d off = Ok h -> off < L /\ at_ d off <> breakCode.
Proof using.
  unfold readHead; destruct (Z.leb_spec L off); [done|]; intros H0; split; [lia|].
  intros E; rewrite E in H0; done.
Qed.

Lemma readHead_major off major ai arg next :
  readHead d off = Ok (major, ai, arg, next) -> major = Z.shiftr (at_ d off) 5.
Proof using. unfold readHead; intros H; go_if_in H; [done|]; repeat go_if_in H; try done; by injection H. Qed.

Lemma readHead_major_range off major ai arg next :
  readHead d off = Ok (major, ai, arg, next) -> 0 <= major <= 7.
Proof using Hd.
  intros ->%readHead_major; pose proof (at_ok _ off Hd) as Hb; unfold byte_ok in Hb.
  rewrite Z.shiftr_div_pow2 by lia; change (2 ^ 5) with 32; Z.div_mod_to_equations; lia.
Qed.

Lemma Item_readHead dp off off' n :
  Item dp off off' n -> exists ai arg next, readHead d off = Ok (Z.shiftr (at_ d off) 5, ai, arg, next).
Proof using. inversion 1; subst; by erewrite <- readHead_major by eassumption; eauto. Qed.

Lemma Item_tag_inv dp off off' m ai num next :
  Item dp off off' m -> readHead d off = Ok (majorTag, ai, num, next) ->
  exists dp' n, m = 1 + n /\ next < L /\ validTagContent num (at_ d next) = Ok tt /\
    dp' = (if Z.shiftr (at_ d next) 5 =? majorTag then dp + 1 else dp) /\
    (Z.shiftr (at_ d next) 5 = majorTag -> dp' <= maxNested c) /\ Item dp' next off' n /\
    (num = 0 \/ num = 1 -> unmarshal_time (mode c) (slice d off off') = true).
Proof using.
  inversion 1; subst; intros E;
    match goal with H : readHead d off = _ |- _ => rewrite E in H; injection H as; subst end;
    repeat match goal with H : _ \/ _ |- _ => destruct H end; try discriminate.
  all: eexists _, _; repeat split; eauto.
Qed.

Lemma Item_map_inv dp off off' m ai arg next :
  Item dp off off' m -> readHead d off = Ok (majorMap, ai, arg, next) ->
  exists k off1 n ks, Pairs (dp + 1) k next off1 n ks /\ Distinct ks /\
    Closes ai arg (Z.of_nat k) (maxPairs c) off1 off'.
Proof using.
  inversion 1; subst; intros E;
    match goal with H : readHead d off = _ |- _ => rewrite E in H; injection H as; subst end;
    repeat match goal with H : _ \/ _ |- _ => destruct H end; try discriminate.
  all: eexists _, _, _, _; eauto.
Qed.

Lemma Chunks_bounds major off off' n :
  Chunks major off off' n -> 0 <= off -> off < off' <= L /\ 0 <= n.
Proof using Hd.
  induction 1 as [off Hoff Hb|off ai n s off' k Hh _ [_ [Hs _]] _ IH]; intros H0; [lia|].
  pose proof (readHead_bounds _ _ _ _ _ H0 Hh); lia.
Qed.

Lemma Closes_bounds ai arg k limit off1 off' :
  Closes ai arg k limit off1 off' -> off1 <= L -> off1 <= off' <= L.
Proof using. unfold Closes; destruct (ai =? aiIndefinite); lia. Qed.

Lemma Item_bounds_mut :
  (forall dp off off' n, Item dp off off' n -> 0 <= off -> off < off' <= L /\ 1 <= n) /\
  (forall dp k off off' n, Items dp k off off' n -> 0 <= off <= L ->
     off + Z.of_nat k <= off' <= L /\ 0 <= n) /\
  (forall dp k off off' n ks, Pairs dp k off off' n ks -> 0 <= off <= L ->
     off + 2 * Z.of_nat k <= off' <= L /\ 0 <= n /\ length ks = k).
Proof using Hd.
  apply Item_Items_Pairs_ind; intros;
    try match goal with H : readHead d ?o = Ok _, H0 : 0 <= ?o |- _ =>
      pose proof (readHead_bounds _ _ _ _ _ H0 H) end;
    try match goal with H : Chunks _ _ _ _ |- _ => apply Chunks_bounds in H; [|lia] end;
    try match goal with H : Content _ _ _ |- _ => destruct H as (? & ? & ?) end;
    try match goal with H : Closes _ _ _ _ _ _ |- _ => pose proof (Closes_bounds _ _ _ _ _ _ H) end;
    try lia.
  all: cbn [length]; lia.
Qed.

Lemma Item_bounds dp off off' n : Item dp off off' n -> 0 <= off -> off < off' <= L /\ 1 <= n.
Proof using Hd. apply Item_bounds_mut. Qed.
Lemma Items_bounds dp k off off' n :
  Items dp k off off' n -> 0 <= off <= L -> off + Z.of_nat k <= off' <= L /\ 0 <= n.
Proof using Hd. apply Item_bounds_mut. Qed.
Lemma Pairs_bounds dp k off off' n ks :
  Pairs dp k off off' n ks -> 0 <= off <= L ->
  off + 2 * Z.of_nat k <= off' <= L /\ 0 <= n /\ length ks = k.
Proof using Hd. apply Item_bounds_mut. Qed.

Lemma Item_head dp off off' n : Item dp off off' n -> off < L /\ at_ d off <> breakCode.
Proof using. inversion 1; eauto using readHead_not_break. Qed.

Lemma Pairs_app dp k1 k2 a b e n1 n2 ks1 ks2 :
  Pairs dp k1 a b n1 ks1 -> Pairs dp k2 b e n2 ks2 ->
  Pairs dp (k1 + k2) a e (n1 + n2) (ks1 ++ ks2).
Proof using.
  induction 1 as [|dp k a off1 off2 b m1 m2 m key_ ks H1 Hk H2 _ IH]; intros H; [done|].
  cbn [app Nat.add]; replace (m1 + m2 + m + n2) with (m1 + m2 + (m + n2)) by lia.
  eapply Pairs_cons; eauto.
Qed.

(** ** [skip] finds a walked item's end *)

Lemma skip_chunks major off off' n f g :
  Chunks major off off' n -> 0 <= off -> major = majorBytes \/ major = majorText ->
  L - off < Z.of_nat g ->
  skip_to_break d (skip d (S f)) g off = Ok off'.
Proof using Hd.
  intros Hc; revert g; induction Hc as [off Hoff Hb|off ai n s off' k Hh Hai [Hm [Hs _]] Hc IH];
    intros g H0 Hmaj Hg.
  - destruct g; [lia|]; cbn [skip_to_break].
    destruct (Z.leb_spec L off); [lia|]; by rewrite Hb.
  - pose proof (readHead_bounds _ _ _ _ _ H0 Hh) as Hb.
    destruct (readHead_not_break _ _ Hh) as [Hlt Hnb].
    destruct g as [|g]; [lia|]; cbn [skip_to_break].
    destruct (Z.leb_spec L off); [lia|]; destruct (Z.eqb_spec (at_ d off) breakCode); [done|].
    replace (skip d (S f) off) with (@Ok cbor_error Z (s + n)); [cbn [res_bind]; apply IH; lia|].
    cbn [skip]; rewrite Hh; cbn [res_bind].
    destruct (Z.eqb_spec ai aiIndefinite); [done|].
    unfold span; destruct (Z.ltb_spec MaxInt32 n); [lia|].
    destruct (Z.leb_spec n (L - s)); [|lia].
    by destruct Hmaj as [-> | ->].
Qed.

Lemma skip_n_app sk a b off x :
  skip_n sk a off = Ok x -> skip_n sk (a + b) off = skip_n sk b x.
Proof using.
  revert off; induction a as [|a IH]; intros off; cbn [skip_n Nat.add]; [by intros [= ->]|].
  destruct (sk off); cbn [res_bind]; [apply IH|done].
Qed.

(** Stepping over [k] items with [skip], then the break. *)
Definition skips (sk : Z -> res cbor_error Z) (k : nat) (off off' : Z) : Prop :=
  skip_n sk k off = Ok off' /\
  forall g, off' < L -> at_ d off' = breakCode -> L - off < Z.of_nat g ->
    skip_to_break d sk g off = Ok (off' + 1).

Lemma skips_nil sk off : off <= L -> skips sk 0 off off.
Proof using.
  split; [done|]; intros [|g] Hlt Hb Hg; [lia|]; cbn [skip_to_break].
  destruct (Z.leb_spec L off); [lia|]; by rewrite Hb.
Qed.

Lemma skips_cons sk k dp off off1 off' n :
  Item dp off off1 n -> 0 <= off -> sk off = Ok off1 -> skips sk k off1 off' -> skips sk (S k) off off'.
Proof using Hd.
  intros Hi H0 Hs [Hn Hb]; split; [by cbn [skip_n]; rewrite Hs|].
  intros [|g] Hlt Hbr Hg; cbn [skip_to_break];
    destruct (Item_head _ _ _ _ Hi); destruct (Item_bounds _ _ _ _ Hi H0); [lia|].
  destruct (Z.leb_spec L off); [lia|]; destruct (Z.eqb_spec (at_ d off) breakCode); [done|].
  rewrite Hs; cbn [res_bind]; apply Hb; [done..|lia].
Qed.

Lemma skip_container f major ai arg next k off off1 off' limit :
  readHead d off = Ok (major, ai, arg, next) -> major = majorArray \/ major = majorMap ->
  0 <= off -> next <= off1 <= L ->
  (if major =? majorMap then 2 * Z.of_nat k else Z.of_nat k) <= L - next ->
  skips (skip d f) (if major =? majorMap then 2 * k else k) next off1 ->
  Closes ai arg (Z.of_nat k) limit off1 off' -> skip d (S f) off = Ok off'.
Proof using Hd.
  intros Hh Hmaj H0 Hoff Hroom [Hn Hb] [_ Hc]; cbn [skip]; rewrite Hh; cbn [res_bind].
  destruct (readHead_bounds _ _ _ _ _ H0 Hh) as [Hnext Harg].
  destruct Hmaj as [-> | ->]; cbn -[Z.mul Nat.mul skip_to_break skip_n] in *;
    destruct (Z.eqb_spec ai aiIndefinite).
  1, 3: destruct Hc as (? & ? & ->); apply Hb; [done..|unfold blen in *; lia].
  all: destruct Hc as (<- & ? & ->); unfold span; destruct (Z.ltb_spec MaxInt32 (Z.of_nat k)); [lia|].
  all: destruct (Z.leb_spec (Z.of_nat k) (L - next)); [cbn|lia].
  - by rewrite Nat2Z.id.
  - by replace (Z.to_nat (Z.of_nat k * 2)) with (2 * k)%nat by lia.
Qed.

Lemma skip_spec_mut :
  (forall dp off off' n, Item dp off off' n -> 0 <= off ->
     forall f, L - off < Z.of_nat f -> skip d f off = Ok off') /\
  (forall dp k off off' n, Items dp k off off' n -> 0 <= off <= L ->
     forall f, L - off < Z.of_nat f -> skips (skip d f) k off off') /\
  (forall dp k off off' n ks, Pairs dp k off off' n ks -> 0 <= off <= L ->
     forall f, L - off < Z.of_nat f -> skips (skip d f) (2 * k) off off').
Proof using Hd.
  apply Item_Items_Pairs_ind.
  - intros dp off major ai arg next Hh Hmaj H0 [|f] Hf; [pose proof (readHead_bounds _ _ _ _ _ H0 Hh); lia|].
    cbn [skip]; rewrite Hh; cbn [res_bind]; by destruct Hmaj as [->|[-> | ->]].
  - intros dp off major ai arg next Hh Hmaj Hai (Hm & Hs & _) H0 [|f] Hf;
      [pose proof (readHead_bounds _ _ _ _ _ H0 Hh); lia|].
    cbn [skip]; rewrite Hh; cbn [res_bind].
    destruct (Z.eqb_spec ai aiIndefinite); [done|]; unfold span.
    destruct (Z.ltb_spec MaxInt32 arg); [lia|]; destruct (Z.leb_spec arg (L - next)); [|lia].
    by destruct Hmaj as [-> | ->].
  - intros dp off major arg next off' n Hh Hmaj Hc H0 [|[|f]] Hf;
      try (pose proof (readHead_bounds _ _ _ _ _ H0 Hh); pose proof (Chunks_bounds _ _ _ _ Hc); lia).
    pose proof (readHead_bounds _ _ _ _ _ H0 Hh).
    change (skip d (S (S f)) off) with
      (let? (major, ai, arg, off) := readHead d off in
       if major =? majorTag then skip d (S f) off
       else if negb ((major =? majorBytes) || (major =? majorText) ||
                    (major =? majorArray) || (major =? majorMap)) then Ok off
       else if ai =? aiIndefinite then skip_to_break d (skip d (S f)) (S (length d)) off
       else
        let '(n, ok) := span d off arg in
        if negb ok then Err ErrUnexpectedEOF
        else if (major =? majorBytes) || (major =? majorText) then Ok (off + n)
        else skip_n (skip d (S f)) (Z.to_nat (if major =? majorMap then n * 2 else n)) off).
    rewrite Hh; cbn [res_bind].
    replace (skip_to_break d (skip d (S f)) (S (length d)) next) with (@Ok cbor_error Z off');
      [by destruct Hmaj as [-> | ->]|].
    symmetry; eapply skip_chunks; [done|lia|done|unfold blen in *; lia].
  - intros dp off ai arg next k off1 off' n Hh Hdp Hi IH Hc H0 [|f] Hf;
      pose proof (readHead_bounds _ _ _ _ _ H0 Hh); [lia|].
    destruct (Items_bounds _ _ _ _ _ Hi ltac:(lia)).
    eapply (skip_container f majorArray _ _ _ k); [exact Hh|by left|done| | | |exact Hc];
      change (majorArray =? majorMap) with false; cbv iota; [lia..|apply IH; lia].
  - intros dp off ai arg next k off1 off' n ks Hh Hdp Hi IH Hks Hc H0 [|f] Hf;
      pose proof (readHead_bounds _ _ _ _ _ H0 Hh); [lia|].
    destruct (Pairs_bounds _ _ _ _ _ _ Hi ltac:(lia)).
    eapply (skip_container f majorMap _ _ _ k); [exact Hh|by right|done| | | |exact Hc];
      change (majorMap =? majorMap) with true; cbv iota; [lia..|apply IH; lia].
  - intros dp dp' off ai num next off' n Hh Hlt Hv -> Hdp Hi IH Ht H0 [|f] Hf;
      pose proof (readHead_bounds _ _ _ _ _ H0 Hh); [lia|].
    cbn [skip]; rewrite Hh; cbn [res_bind]; apply IH; lia.
  - intros; apply skips_nil; lia.
  - intros dp k off off1 off' n m Hi IHi His IHis H0 f Hf.
    destruct (Item_bounds _ _ _ _ Hi ltac:(lia)).
    eapply skips_cons; [exact Hi|lia|apply IHi; lia|apply IHis; lia].
  - intros; apply skips_nil; lia.
  - intros dp k off off1 off2 off' n1 n2 m key_ ks Hi IHi Hk Hv IHv His IHis H0 f Hf.
    destruct (Item_bounds _ _ _ _ Hi ltac:(lia)); destruct (Item_bounds _ _ _ _ Hv ltac:(lia)).
    replace (2 * S k)%nat with (S (S (2 * k))) by lia.
    eapply skips_cons; [exact Hi|lia|apply IHi; lia|].
    eapply skips_cons; [exact Hv|lia|apply IHv; lia|apply IHis; lia].
Qed.

Lemma skip_Item dp off off' n f :
  Item dp off off' n -> 0 <= off -> L - off < Z.of_nat f -> skip d f off = Ok off'.
Proof using Hd. intros; by eapply skip_spec_mut. Qed.
End Spec.
