(* ===== verification/CborWalk.v ===== *)
(** * The CBOR walk accepts exactly what the rules derive

    Each part of the walker against the rules of [CborSpec]: what it accepts
    they derive, with the item count it charged; what they derive it accepts,
    within its item limit; and it never runs out of the model's fuel.  Then
    [walk] itself, and the budget its calls share. *)
From S2P Require Import Prelude Cbor CborKeys CborSpec.
From Stdlib Require Import Sorted.

(** ** Reasoning about the walker *)

(** A call either fails, not for want of fuel, or ends as [Q] says. *)
Definition sound {O A} (m : W O A) (w : walker O) (Q : A -> walker O -> Prop) : Prop :=
  match m w with
  | (Ok a, w') => Q a w'
  | (Err e, _) => e <> ErrFuel
  end.

Definition at_walker {O} (off items : Z) (keys : list (mapKey O)) : walker O :=
  {| w_off := off; w_items := items; w_keys := keys |}.

Section Monad.
Context {O : Type}.

Lemma sound_bind {A B} (m : W O A) (k : A -> W O B) w Q :
  sound m w (fun a w' => sound (k a) w' Q) -> sound (bind m k) w Q.
Proof using. unfold sound, bind; by destruct (m w) as [[a|e] w']. Qed.

Lemma sound_mono {A} (m : W O A) w (P Q : A -> walker O -> Prop) :
  sound m w P -> (forall a w', P a w' -> Q a w') -> sound m w Q.
Proof using. unfold sound; destruct (m w) as [[a|e] w']; auto. Qed.

Lemma sound_ret {A} (a : A) w (Q : A -> walker O -> Prop) : Q a w -> sound (ret a) w Q.
Proof using. done. Qed.

Lemma sound_fail {A} e w (Q : A -> walker O -> Prop) : e <> ErrFuel -> sound (fail e) w Q.
Proof using. done. Qed.

Lemma sound_lift {A} (r : res cbor_error A) w (Q : A -> walker O -> Prop) :
  match r with Ok a => Q a w | Err e => e <> ErrFuel end -> sound (lift r) w Q.
Proof using. by destruct r. Qed.

Lemma bind_ok {A B} (m : W O A) (k : A -> W O B) w a w1 :
  m w = (Ok a, w1) -> bind m k w = k a w1.
Proof using. unfold bind; by intros ->. Qed.

Lemma bind_err {A B} (m : W O A) (k : A -> W O B) w e w1 :
  m w = (Err e, w1) -> bind m k w = (Err e, w1).
Proof using. unfold bind; by intros ->. Qed.

Lemma walker_eta (w : walker O) : w = at_walker (w_off w) (w_items w) (w_keys w).
Proof using. by destruct w. Qed.
End Monad.

(** Two readings of one head agree. *)
Ltac same_head :=
  repeat match goal with
  | H : readHead ?d ?o = Ok _, H' : readHead ?d ?o = Ok _ |- _ =>
      rewrite H in H'; injection H' as; subst
  | H : _ \/ _ |- _ => destruct H
  end; subst; try discriminate.

Section Keys.
Context {O : Type} (c : config O) (Hd : bytes_ok (data c)).
Local Abbreviation d := (data c).
Local Abbreviation L := (blen (data c)).

(** ** Keys *)

Lemma readHead_nofuel off : readHead d off <> Err ErrFuel.
Proof using. unfold readHead; cbv zeta; repeat go_case; done. Qed.

Lemma key_kinds (k : mapKey O) start end_ :
  key c start end_ = Ok k ->
  (k_kind k = kindOther /\ exists o, k_other k = Some o) \/ (k_kind k <> kindOther /\ k_other k = None).
Proof using.
  unfold key; intros ((off & (((major & ai) & arg) & next)) & _ & H)%res_bind_ok.
  repeat go_if_in H; try done; try (injection H as <-; by right).
  - unfold stringKey in H; destruct ((major =? majorBytes) && negb (bstrKeys c))%bool; [done|].
    assert (Hk : (if major =? majorBytes then kindBytes else kindText) <> kindOther) by (by go_case).
    destruct (negb (ai =? aiIndefinite)); [by destruct (span d next arg); injection H as <-; right|].
    apply res_bind_ok in H as (s & _ & [= <-]); by right.
  - injection H as <-; right; unfold simpleKey; by repeat go_case.
  - destruct (unmarshal_map_key _ _) as [[o|]|]; try done; injection H as <-; left; eauto.
Qed.

Lemma self_described_Item f : forall off off0 h dp off1 n,
  drop_self_described c f off = Ok (off0, h) -> Item c dp off off1 n -> 0 <= off ->
  readHead d off0 = Ok h /\ off <= off0 /\ exists dp0 n0, Item c dp0 off0 off1 n0.
Proof using Hd.
  induction f as [|f IH]; intros off off0 h dp off1 n H Hi H0; [done|]; cbn [drop_self_described] in H.
  apply res_bind_ok in H as ((((major & ai) & arg) & next) & Hh & H).
  destruct (readHead_bounds c Hd _ _ _ _ _ H0 Hh).
  destruct ((major =? majorTag) && (arg =? 55799))%bool eqn:E.
  - bool_prop; subst; inversion Hi; subst; same_head; try done.
    edestruct IH as (? & ? & ?); [done|done|lia|]; repeat split; [done|lia|done].
  - injection H as <- <-; repeat split; [done|lia|eauto].
Qed.

Lemma self_described_nofuel f : forall off,
  0 <= off <= L -> L - off < Z.of_nat f -> drop_self_described c f off <> Err ErrFuel.
Proof using Hd.
  induction f as [|f IH]; intros off H0 Hf; [lia|]; cbn [drop_self_described].
  destruct (readHead d off) as [[[[major ai] arg] next]|e] eqn:E; cbn [res_bind].
  - apply (readHead_bounds c Hd) in E; [|lia]; go_case; [apply IH; lia|done].
  - pose proof (readHead_nofuel off); congruence.
Qed.

Lemma join_chunks_ok major f : forall off off' n,
  Chunks c major off off' n -> 0 <= off -> L - off < Z.of_nat f ->
  exists s, join_chunks c f off = Ok s.
Proof using Hd.
  induction f as [|f IH]; intros off off' n Hc H0 Hf; pose proof (Chunks_bounds c Hd _ _ _ _ Hc H0); [lia|];
    cbn [join_chunks]; destruct Hc as [off Hlt Hb|off ai m s off' k Hh Hai [Hm [Hs _]] Hc'].
  - rewrite Hb; eauto.
  - destruct (readHead_not_break c _ _ Hh) as [_ Hnb]; destruct (Z.eqb_spec (at_ d off) breakCode); [done|].
    rewrite Hh; cbn [res_bind]; pose proof (readHead_bounds c Hd _ _ _ _ _ H0 Hh).
    unfold span; destruct (Z.ltb_spec MaxInt32 m); [lia|].
    destruct (IH (s + m) off' k) as [t Ht]; [done|lia..|]; rewrite Ht; cbn [res_bind]; eauto.
Qed.

Lemma key_nofuel dp off off1 n : Item c dp off off1 n -> 0 <= off -> key c off off1 <> Err ErrFuel.
Proof using Hd.
  intros Hi H0; unfold key; destruct (Item_bounds c Hd _ _ _ _ Hi H0).
  destruct (drop_self_described c _ off) as [[off0 [[[major ai] arg] next]]|e] eqn:E; cbn [res_bind].
  2: { pose proof (self_described_nofuel (S (length d)) off) as Hn; rewrite E in Hn.
       intros [= ->]; apply Hn; unfold blen in *; lia || done. }
  destruct (self_described_Item _ _ _ _ _ _ _ E Hi H0) as (Hh & Hoff & dp0 & n0 & Hi0).
  assert (Hs : major = majorBytes \/ major = majorText -> stringKey c major ai arg next <> Err ErrFuel).
  { intros Hmaj; unfold stringKey; go_if; [done|].
    destruct (Z.eqb_spec ai aiIndefinite) as [->|]; cbn [negb]; [|by destruct (span d next arg)].
    pose proof (readHead_bounds c Hd off0 _ _ _ _ ltac:(lia) Hh).
    inversion Hi0; subst; same_head; try done.
    all: match goal with H : Chunks _ _ _ _ _ |- _ => edestruct (join_chunks_ok _ (S (length d)) _ _ _ H) as [s ->] end;
      [lia|unfold blen in *; lia|done]. }
  repeat go_if; try done.
  - by apply Hs, eqb_or.
  - by destruct (unmarshal_map_key _ _) as [[o|]|].
Qed.

(** ** The keys a map's walk keeps *)

Fixpoint plain (i : Z) (ks : list (mapKey O)) : list (mapKey O) :=
  match ks with
  | [] => []
  | k :: ks => if k_kind k =? kindOther then plain (i + 1) ks else with_index k i :: plain (i + 1) ks
  end.

Lemma plain_snoc i ks k :
  plain i (ks ++ [k]) =
  plain i ks ++ (if k_kind k =? kindOther then [] else [with_index k (i + blen ks)]).
Proof using.
  revert i; induction ks as [|k' ks IH]; intros i; cbn [app plain].
  - rewrite blen_nil, Z.add_0_r; done.
  - rewrite IH, blen_cons; replace (i + 1 + blen ks) with (i + (1 + blen ks)) by lia.
    by go_case.
Qed.

Lemma plain_identities i ks : omap identity (plain i ks) = omap identity ks.
Proof using.
  revert i; induction ks as [|k ks IH]; intros i; [done|]; cbn [plain].
  destruct (Z.eqb_spec (k_kind k) kindOther) as [E|E].
  - rewrite IH; cbn [omap list_omap]; unfold identity at 2; by rewrite E.
  - cbn [omap list_omap]; change (identity (with_index k i)) with (identity k).
    change (list_omap (mapKey O) _ identity) with (@omap list _ (mapKey O) (Z * Z * bytes) identity).
    by rewrite IH.
Qed.

Lemma plain_kinds i ks : Forall (fun k => k_kind k <> kindOther) (plain i ks).
Proof using.
  revert i; induction ks as [|k ks IH]; intros i; cbn [plain]; [constructor|].
  destruct (Z.eqb_spec (k_kind k) kindOther); [apply IH|by constructor].
Qed.

Lemma keys_before_ok dp k first keyStart n ks :
  Pairs c dp k first keyStart n ks -> 0 <= first <= L ->
  forall f i, L - first < Z.of_nat f -> keys_before c f i first keyStart = Ok (plain i ks).
Proof using Hd.
  induction 1 as [dp off|dp k off off1 off2 off' n1 n2 m key_ ks Hi Hk Hv Hp IH]; intros H0 f i Hf;
    (destruct f as [|f]; [lia|]); cbn [keys_before plain].
  - by destruct (Z.leb_spec off off); [|lia].
  - destruct (Item_bounds c Hd _ _ _ _ Hi ltac:(lia)); destruct (Item_bounds c Hd _ _ _ _ Hv ltac:(lia)).
    destruct (Pairs_bounds c Hd _ _ _ _ _ _ Hp ltac:(lia)).
    destruct (Z.leb_spec off' off); [lia|].
    rewrite (skip_Item c Hd _ _ _ _ _ Hi) by (unfold blen in *; lia); cbn [res_bind].
    rewrite Hk; cbn [res_bind].
    rewrite (skip_Item c Hd _ _ _ _ _ Hv) by (unfold blen in *; lia); cbn [res_bind].
    rewrite IH by lia; cbn [res_bind]; by go_case.
Qed.

(** The state of a map's walk after the keys [ks], with [base] the keys of
    the maps around it. *)
Definition Kept (m : mapWalk) (base : list (mapKey O)) (first : Z) (ks keys : list (mapKey O)) : Prop :=
  m_base m = length base /\ m_first m = first /\ m_other m = rev (others ks) /\
  ForallOrdPairs (fun a b => other_eqb (mode c) a b = false) (others ks) /\
  if m_ascending m then
    keys = base /\ m_last m = last (plain 0 ks) /\ StronglySorted key_lt (plain 0 ks)
  else keys = base ++ plain 0 ks.

Lemma others_snoc (ks : list (mapKey O)) k : others (ks ++ [k]) = others ks ++ (match k_other k with Some o => [o] | None => [] end).
Proof using. unfold others; rewrite omap_app; cbn; by destruct (k_other k). Qed.

Lemma ordpairs_snoc {A} (R : A -> A -> Prop) l x :
  ForallOrdPairs R (l ++ [x]) <-> ForallOrdPairs R l /\ Forall (fun y => R y x) l.
Proof using.
  induction l as [|y l IH]; cbn [app].
  - split; [by repeat constructor|intros _; repeat constructor].
  - split.
    + inversion 1 as [|? ? Hy Hl]; subst; apply Forall_app in Hy as [Hy Hx].
      apply IH in Hl as [? ?]; inversion Hx; subst; split; by constructor.
    + intros [Hl Hx]; inversion Hl; inversion Hx; subst; constructor; [|by apply IH].
      apply Forall_app; split; [done|by constructor].
Qed.

(** [record] keeps a map's next key, or finds it among the decoded ones. *)
Lemma record_spec m base dp first ks k n w :
  Kept m base first ks (w_keys w) -> 0 <= first <= L ->
  forall keyStart, Pairs c dp (length ks) first keyStart n ks ->
  (k_kind k = kindOther /\ exists o, k_other k = Some o) \/ (k_kind k <> kindOther /\ k_other k = None) ->
  (exists m' keys', record c k (blen ks) keyStart m w = (Ok m', at_walker (w_off w) (w_items w) keys') /\
     Kept m' base first (ks ++ [k]) keys') \/
  (exists e, record c k (blen ks) keyStart m w = (Err e, w) /\ e <> ErrFuel /\
     ~ ForallOrdPairs (fun a b => other_eqb (mode c) a b = false) (others (ks ++ [k]))).
Proof using Hd.
  intros (Hb & Hfirst & Ho & Hd1 & Hasc) H0 keyStart Hp [[Hk [o Hok]]|[Hk Hok]];
    unfold record; rewrite others_snoc, Hok.
  - rewrite Hk, Z.eqb_refl.
    destruct (existsb _ (m_other m)) eqn:E.
    + right; exists (ErrDupMapKey (blen ks)); repeat split; [done|].
      rewrite ordpairs_snoc; intros [_ Hf]; rewrite Ho, existsb_exists in E.
      destruct E as (o' & Hin & He); apply in_rev in Hin; rewrite Forall_forall in Hf.
      specialize (Hf o'); rewrite list_elem_of_In in Hf; rewrite Hf in He; done.
    + left; eexists _, (w_keys w); split; [rewrite (walker_eta w) at 1; reflexivity|].
      assert (Hnew : Forall (fun y => other_eqb (mode c) y o = false) (others ks)).
      { rewrite Forall_forall; intros o' Hin; destruct (other_eqb (mode c) o' o) eqn:Eo; [|done].
        assert (existsb (fun o'0 => other_eqb (mode c) o'0 o) (m_other m) = true); [|congruence].
        apply existsb_exists; exists o'; split; [rewrite Ho; apply -> in_rev; by apply list_elem_of_In|done]. }
      unfold Kept; cbn [m_base m_first m_ascending m_last m_other]; repeat split.
      * done.
      * done.
      * by rewrite others_snoc, Hok, rev_unit, Ho.
      * rewrite others_snoc, Hok; by apply ordpairs_snoc.
      * assert (plain 0 (ks ++ [k]) = plain 0 ks) as ->; [|done].
        rewrite plain_snoc, Hk, Z.eqb_refl; apply app_nil_r.
  - left; destruct (Z.eqb_spec (k_kind k) kindOther); [done|].
    set (k' := with_index k (blen ks)).
    assert (Hplain : plain 0 (ks ++ [k]) = plain 0 ks ++ [k']).
    { rewrite plain_snoc; by destruct (Z.eqb_spec (k_kind k) kindOther). }
    assert (Hothers : others (ks ++ [k]) = others ks) by (by rewrite others_snoc, Hok, app_nil_r).
    unfold Kept; rewrite Hothers, Hplain.
    destruct (m_ascending m) eqn:Ea; cbn [andb]; [destruct Hasc as (Hkeys & Hlast & Hsorted)|].
    + assert (Hnext : match m_last m with Some l => compareKeys l k' <? 0 | None => true end = true ->
        match last (plain 0 ks) with None => True | Some l => key_lt l k' end).
      { rewrite Hlast; destruct (last (plain 0 ks)); [unfold key_lt; lia|done]. }
      destruct (match m_last m with Some l => _ | None => _ end).
      * eexists _, (w_keys w); split; [rewrite (walker_eta w) at 1; reflexivity|].
        cbn; repeat split; [done..| |]; [by rewrite last_snoc|].
        apply ascending_snoc; [done|by apply Hnext].
      * eexists _, _; split.
        { erewrite bind_ok; [|unfold keysBefore; erewrite bind_ok; [|unfold lift; rewrite Hfirst;
            rewrite (keys_before_ok _ _ _ _ _ _ Hp) by (unfold blen in *; lia); reflexivity]; reflexivity].
          reflexivity. }
        cbn; repeat split; [done..|]; by rewrite Hkeys, <- app_assoc.
    + eexists _, _; split; [reflexivity|].
      cbn; repeat split; [done..|]; by rewrite Hasc, <- app_assoc.
Qed.

(** The duplicate check at a map's end. *)
Lemma Kept_duplicateKey m base first ks keys :
  Kept m base first ks keys ->
  (duplicateKey (drop (m_base m) keys) = Ok tt <-> Distinct c ks).
Proof using.
  intros (Hb & _ & _ & Ho & Hk); rewrite Hb; unfold Distinct.
  destruct (m_ascending m); [destruct Hk as (-> & _ & Hs)|subst keys].
  - rewrite drop_all; split; [|done]; intros _; split; [|done].
    rewrite <- (plain_identities 0); by apply ascending_nodup.
  - rewrite drop_app_length, duplicateKey_ok, plain_identities by apply plain_kinds; naive_solver.
Qed.

Lemma duplicateKey_nofuel (keys : list (mapKey O)) : duplicateKey keys <> Err ErrFuel.
Proof using.
  unfold duplicateKey; go_case; [done|]; destruct (sort_keys keys) as [|k l]; [done|].
  revert k; induction l as [|k' l IH]; intros k; cbn [adjacent_duplicate]; [done|go_case; done].
Qed.
End Keys.

(** ** The walker's steps *)

Section Steps.
Context {O : Type} (c : config O) (Hd : bytes_ok (data c)).
Local Abbreviation d := (data c).
Local Abbreviation L := (blen (data c)).

(** A call that leaves the walker's keys and counts [n] more items, within
    the limit. *)
Definition counted (w w' : walker O) (n : Z) : Prop :=
  w_items w' = w_items w + n /\ w_items w' <= maxItems c /\ w_keys w' = w_keys w.

Definition same_count (w w' : walker O) : Prop :=
  w_items w' = w_items w /\ w_keys w' = w_keys w.

Lemma head_sound w : 0 <= w_off w ->
  sound (head c) w (fun h w' =>
    readHead d (w_off w) = Ok (h, w_off w') /\ w_off w < w_off w' <= L /\ counted w w' 1).
Proof using Hd.
  intros H0; unfold sound, head; destruct (readHead d (w_off w)) as [[[[major ai] arg] next]|e] eqn:E.
  - pose proof (readHead_bounds c Hd _ _ _ _ _ H0 E); cbn [w_items w_off w_keys].
    destruct (Z.ltb_spec (maxItems c) (w_items w + 1)); [done|].
    unfold counted; cbn [w_items w_off w_keys]; repeat split; lia.
  - intros ->; by apply (readHead_nofuel c (w_off w)).
Qed.

Lemma head_complete off items keys major ai arg next :
  readHead d off = Ok (major, ai, arg, next) -> items + 1 <= maxItems c ->
  head c (at_walker off items keys) = (Ok (major, ai, arg), at_walker next (items + 1) keys).
Proof using.
  intros E Hi; unfold head; cbn [w_off w_items w_keys at_walker]; rewrite E.
  by destruct (Z.ltb_spec (maxItems c) (items + 1)); [lia|].
Qed.

Lemma atBreak_sound w :
  sound (atBreak c) w (fun done w' =>
    w_off w < L /\ same_count w w' /\
    if done then at_ d (w_off w) = breakCode /\ w_off w' = w_off w + 1
    else at_ d (w_off w) <> breakCode /\ w' = w).
Proof using.
  unfold sound, atBreak, bind, get_off; cbn [w_off].
  destruct (Z.leb_spec L (w_off w)); [done|].
  destruct (Z.eqb_spec (at_ d (w_off w)) breakCode); by cbn.
Qed.

Lemma atBreak_true off items keys :
  off < L -> at_ d off = breakCode ->
  atBreak c (at_walker off items keys) = (Ok true, at_walker (off + 1) items keys).
Proof using.
  intros Hlt Hb; unfold atBreak, bind, get_off; cbn [w_off at_walker].
  destruct (Z.leb_spec L off); [lia|]; by rewrite Hb.
Qed.

Lemma atBreak_false off items keys :
  off < L -> at_ d off <> breakCode ->
  atBreak c (at_walker off items keys) = (Ok false, at_walker off items keys).
Proof using.
  intros Hlt Hb; unfold atBreak, bind, get_off; cbn [w_off at_walker].
  destruct (Z.leb_spec L off); [lia|]; by destruct (Z.eqb_spec (at_ d off) breakCode).
Qed.

Lemma chunk_sound major n w : 0 <= n ->
  sound (chunk c major n) w (fun _ w' =>
    Content c major (w_off w) n /\ w_off w' = w_off w + n /\ same_count w w').
Proof using.
  intros Hn; unfold sound, chunk, bind, get_off, span, Content.
  destruct (Z.ltb_spec MaxInt32 n); [done|]; cbn [negb].
  destruct (Z.leb_spec n (L - w_off w)); [cbn [negb set_off]|done].
  destruct ((_ && _) && _)%bool eqn:E; [done|]; cbn; repeat split; [lia..|].
  intros -> Hu; rewrite Hu, Z.eqb_refl in E; cbn in E; by destruct (utf8_valid _).
Qed.

Lemma chunk_complete major off n items keys :
  Content c major off n ->
  chunk c major n (at_walker off items keys) = (Ok tt, at_walker (off + n) items keys).
Proof using.
  intros (Hm & Hs & Hu); unfold chunk, bind, get_off, span; cbn [w_off at_walker].
  destruct (Z.ltb_spec MaxInt32 n); [lia|]; destruct (Z.leb_spec n (L - off)); [|lia]; cbn [negb set_off].
  destruct ((_ && _) && _)%bool eqn:E; [|done]; bool_prop; by rewrite Hu in *.
Qed.

Lemma chunks_sound major f : forall w,
  0 <= w_off w <= L -> L - w_off w < Z.of_nat f -> w_items w <= maxItems c ->
  sound (chunks c f major) w (fun _ w' => exists n,
    Chunks c major (w_off w) (w_off w') n /\ counted w w' n).
Proof using Hd.
  unfold counted, same_count; induction f as [|f IH]; intros w H0 Hf Hi; [lia|]; cbn [chunks].
  apply sound_bind; eapply sound_mono; [apply atBreak_sound|].
  intros [] w1 (Hlt & Hsame & Hb); [destruct Hb as [Hb Ho]|destruct Hb as [Hb ->]].
  - apply sound_ret; exists 0; rewrite Ho; unfold same_count in Hsame; repeat split; [by constructor|lia..|apply Hsame].
  - apply sound_bind; eapply sound_mono; [apply head_sound; lia|].
    intros [[cm cai] carg] w1 (Hh & Ho & Hc1); cbn [fst snd].
    destruct (readHead_bounds c Hd _ _ _ _ _ (proj1 H0) Hh) as [_ Harg].
    go_case; [by apply sound_fail|]; bool_prop; subst.
    apply sound_bind; eapply sound_mono; [by apply chunk_sound|].
    intros _ w2 (Hcont & Ho2 & Hs2); destruct Hcont as (Hm & Hr & Hu).
    unfold counted, same_count in *; eapply sound_mono; [apply IH; lia|].
    intros _ w3 (n & Hn & Hc3 & Hm3 & Hk3); exists (1 + n); repeat split; [|lia|lia|intuition congruence].
    eapply Chunks_cons; [exact Hh|done|by repeat split|by rewrite <- Ho2].
Qed.

Lemma chunks_complete major off off' n :
  Chunks c major off off' n -> forall f items keys,
  0 <= off -> L - off < Z.of_nat f -> items + n <= maxItems c ->
  chunks c f major (at_walker off items keys) = (Ok tt, at_walker off' (items + n) keys).
Proof using Hd.
  induction 1 as [off Hlt Hb|off ai n s off' k Hh Hai Hc Hk IH]; intros [|f] items keys H0 Hf Hi; try lia; cbn [chunks].
  - erewrite bind_ok by (by apply atBreak_true); cbn; by replace (items + 0) with items by lia.
  - pose proof (readHead_bounds c Hd _ _ _ _ _ H0 Hh); lia.
  - destruct (readHead_not_break c _ _ Hh) as [Hlt Hnb]; pose proof (readHead_bounds c Hd _ _ _ _ _ H0 Hh).
    erewrite bind_ok by (by apply atBreak_false); cbv iota beta.
    pose proof (Chunks_bounds c Hd _ _ _ _ Hk ltac:(lia)).
    erewrite bind_ok; [|apply head_complete; [done|lia]]; cbn.
    rewrite Z.eqb_refl; destruct (Z.eqb_spec ai aiIndefinite); [done|cbn].
    erewrite bind_ok; [|by apply chunk_complete].
    destruct Hc as (_ & ? & _); rewrite IH by lia; do 2 f_equal; lia.
Qed.
End Steps.
