(* ===== verification/CborItem.v ===== *)
(** * The CBOR walk accepts exactly what the rules derive

    Arrays, maps and tags over a walk of their parts, then the walk itself:
    what it accepts the rules of [CborSpec] derive, and conversely, within
    the item limit; the fuel never runs out; no key of an accepted map is
    given twice; and the budget that calls share bounds what they accept. *)
From S2P Require Import Prelude Cbor CborKeys CborSpec CborWalk.
From Stdlib Require Import Sorted.

Section Parts.
Context {O : Type} (c : config O) (Hd : bytes_ok (data c)).
Local Abbreviation d := (data c).
Local Abbreviation L := (blen (data c)).

(** What is asked of the walk of a part: soundness and completeness over
    items of at most [room] bytes. *)
Definition item_sound (room : Z) (item : Z -> W O unit) : Prop := forall dp w,
  0 <= w_off w <= L -> L - w_off w < room ->
  sound (item dp) w (fun _ w' => exists n, Item c dp (w_off w) (w_off w') n /\ counted c w w' n).

Definition item_complete (room : Z) (item : Z -> W O unit) : Prop := forall dp off off' n items keys,
  Item c dp off off' n -> 0 <= off -> L - off < room -> items + n <= maxItems c ->
  item dp (at_walker off items keys) = (Ok tt, at_walker off' (items + n) keys).

Context (room : Z) (item : Z -> W O unit).
Context (Hsound : item_sound room item) (Hcomplete : item_complete room item).

(** ** Lengths and ends of containers *)

(** [Closes] with [i] parts already walked and [k] to go. *)
Definition Ends (indefinite : bool) (i k count limit off1 off' : Z) : Prop :=
  i + k <= limit /\
  if indefinite then off1 < L /\ at_ d off1 = breakCode /\ off' = off1 + 1
  else i + k = count /\ off' = off1.

Lemma length_sound n per limit e w : (forall z, e z <> ErrFuel) ->
  sound (length_ c n per limit e) w (fun l w' => l = n /\ w' = w /\ n <= MaxInt32 /\ n <= limit).
Proof using.
  intros He; unfold sound, length_, bind, get_off, span.
  destruct (Z.ltb_spec MaxInt32 n); [done|].
  destruct (Z.leb_spec n (L - w_off w)); cbn [negb orb]; [|done].
  destruct (Z.ltb_spec (L - w_off w) (per * n)); [done|].
  destruct (Z.ltb_spec limit n); [apply He|done].
Qed.

Lemma length_complete n per limit e off items keys :
  n <= MaxInt32 -> n <= limit -> n <= L - off -> per * n <= L - off ->
  length_ c n per limit e (at_walker off items keys) = (Ok n, at_walker off items keys).
Proof using.
  intros ? ? ? ?; unfold length_, bind, get_off, span; cbn [w_off at_walker].
  destruct (Z.ltb_spec MaxInt32 n); [lia|].
  destruct (Z.leb_spec n (L - off)); [|lia]; cbn [negb orb].
  destruct (Z.ltb_spec (L - off) (per * n)); [lia|].
  by destruct (Z.ltb_spec limit n); [lia|].
Qed.

Lemma another_sound indefinite i count limit e w : (forall z, e z <> ErrFuel) ->
  (indefinite = false -> i <= count <= limit) -> i <= limit ->
  sound (another c indefinite i count limit e) w (fun more w' => same_count w w' /\
    if more then w_off w' = w_off w /\ i + 1 <= limit /\ (indefinite = false -> i + 1 <= count)
    else Ends indefinite i 0 count limit (w_off w) (w_off w')).
Proof using.
  intros He Hc Hl; unfold another, Ends; destruct indefinite; cbn [negb].
  - apply sound_bind; eapply sound_mono; [apply atBreak_sound|].
    intros [] w1 (Hlt & Hs & Hb).
    + apply sound_ret; split; [done|]; split; [lia|]; naive_solver.
    + destruct Hb as [_ ->]; go_case; [by apply sound_fail|].
      apply sound_ret; split; [done|]; split; [done|split; [lia|done]].
  - apply sound_ret; split; [done|]; specialize (Hc eq_refl).
    destruct (Z.ltb_spec i count); repeat split; try lia.
Qed.

Lemma another_end indefinite i count limit e off off' items keys :
  Ends indefinite i 0 count limit off off' ->
  another c indefinite i count limit e (at_walker off items keys) = (Ok false, at_walker off' items keys).
Proof using.
  unfold another, Ends; destruct indefinite; cbn [negb].
  - intros (Hl & Hlt & Hb & ->); by erewrite bind_ok by (by apply atBreak_true).
  - intros (Hl & Hc & ->); unfold ret; by destruct (Z.ltb_spec i count); [lia|].
Qed.

Lemma another_more indefinite i k count limit e off off1 off' items keys :
  Ends indefinite i k count limit off1 off' -> 1 <= k -> off < L -> at_ d off <> breakCode ->
  another c indefinite i count limit e (at_walker off items keys) = (Ok true, at_walker off items keys).
Proof using.
  unfold another, Ends; destruct indefinite; cbn [negb]; intros [Hl Hc] Hk Hlt Hb.
  - erewrite bind_ok by (by apply atBreak_false); cbv iota beta.
    by destruct (Z.leb_spec limit i); [lia|].
  - unfold ret; by destruct (Z.ltb_spec i count); [|lia].
Qed.

Lemma Ends_step indefinite i k count limit off1 off' :
  Ends indefinite (i + 1) k count limit off1 off' <-> Ends indefinite i (1 + k) count limit off1 off'.
Proof using. unfold Ends; by replace (i + 1 + k) with (i + (1 + k)) by lia. Qed.

Lemma Ends_Closes ai arg k limit off1 off' :
  0 <= k -> 0 <= arg ->
  Closes c ai arg k limit off1 off' <->
  Ends (ai =? aiIndefinite) 0 k (if ai =? aiIndefinite then 0 else arg) limit off1 off' /\
  (ai <> aiIndefinite -> arg <= MaxInt32).
Proof using.
  intros; unfold Closes, Ends; destruct (Z.eqb_spec ai aiIndefinite); intuition lia.
Qed.

(** ** Arrays *)

Lemma array_loop_sound depth indefinite count g : forall i w,
  0 <= w_off w <= L -> L - w_off w < Z.of_nat g -> L - w_off w < room -> w_items w <= maxItems c ->
  (indefinite = false -> i <= count <= maxArray c) -> i <= maxArray c ->
  sound (array_loop c item g depth indefinite i count) w (fun _ w' => exists k off1 n,
    Items c depth k (w_off w) off1 n /\
    Ends indefinite i (Z.of_nat k) count (maxArray c) off1 (w_off w') /\ counted c w w' n).
Proof using Hd Hsound.
  unfold counted; induction g as [|g IH]; intros i w H0 Hg Hr Hi Hc Hl; [lia|]; cbn [array_loop].
  apply sound_bind; eapply sound_mono; [by apply another_sound|].
  intros [] w1 ([Hs Hs'] & Hm); cbn [negb].
  - destruct Hm as (Ho & Hl1 & Hc1); apply sound_bind; eapply sound_mono; [apply Hsound; lia|].
    intros _ w2 (n & Hit & Hn & Hn' & Hk); rewrite Ho in Hit.
    destruct (Item_bounds c Hd _ _ _ _ Hit ltac:(lia)).
    eapply sound_mono; [apply IH; naive_solver lia|].
    intros _ w3 (k & off1 & m & His & He & Hm1 & Hm2 & Hk2); exists (S k), off1, (n + m).
    rewrite Nat2Z.inj_succ, <- Z.add_1_l, <- Ends_step.
    repeat split; [by eapply Items_cons|by apply He|by apply He|lia|lia|congruence].
  - apply sound_ret; exists 0%nat, (w_off w), 0; repeat split; [constructor|by apply Hm|by apply Hm|lia|lia|done].
Qed.

Lemma array_loop_complete depth k off off1 n :
  Items c depth k off off1 n -> forall indefinite count g i off' items keys,
  0 <= off <= L -> L - off < Z.of_nat g -> L - off < room -> items + n <= maxItems c ->
  Ends indefinite i (Z.of_nat k) count (maxArray c) off1 off' ->
  array_loop c item g depth indefinite i count (at_walker off items keys) =
  (Ok tt, at_walker off' (items + n) keys).
Proof using Hd Hcomplete.
  induction 1 as [dp off|dp k off off1 off2 n m Hit His IH]; intros ind count [|g] i off' items keys H0 Hg Hr Hi He;
    try lia; cbn [array_loop].
  - erewrite bind_ok by (by apply another_end); cbn; by rewrite Z.add_0_r.
  - destruct (Item_head c _ _ _ _ Hit); destruct (Item_bounds c Hd _ _ _ _ Hit ltac:(lia)).
    destruct (Items_bounds c Hd _ _ _ _ _ His ltac:(lia)).
    erewrite bind_ok by (eapply another_more; [exact He|lia..|done]); cbn [negb].
    erewrite bind_ok by (apply Hcomplete; [exact Hit|lia..]).
    rewrite Nat2Z.inj_succ, <- Z.add_1_l, <- Ends_step in He.
    rewrite (IH ind count) with (off' := off') by (done || lia); by rewrite Z.add_assoc.
Qed.

Lemma arrayItems_sound depth ai arg w :
  0 <= w_off w <= L -> L - w_off w < room -> w_items w <= maxItems c -> 0 <= arg -> 0 <= maxArray c ->
  sound (arrayItems c item depth (ai =? aiIndefinite) arg) w (fun _ w' => exists k off1 n,
    Items c depth k (w_off w) off1 n /\
    Closes c ai arg (Z.of_nat k) (maxArray c) off1 (w_off w') /\ counted c w w' n).
Proof using Hd Hsound.
  intros H0 Hr Hi Ha Hm; unfold arrayItems; apply sound_bind; eapply sound_mono.
  { instantiate (1 := fun l w' => w' = w /\ l = (if ai =? aiIndefinite then 0 else arg) /\
      (ai <> aiIndefinite -> arg <= MaxInt32 /\ arg <= maxArray c)).
    destruct (Z.eqb_spec ai aiIndefinite); [by apply sound_ret|].
    eapply sound_mono; [by apply length_sound|]; naive_solver. }
  intros l w1 (-> & -> & Hc).
  eapply sound_mono; [apply array_loop_sound; unfold blen in *; try lia; destruct (Z.eqb_spec ai aiIndefinite); naive_solver|].
  intros _ w2 (k & off1 & n & ? & ? & ?); exists k, off1, n; rewrite Ends_Closes by lia; naive_solver.
Qed.

Lemma arrayItems_complete depth ai arg k off off1 off' n items keys :
  Items c depth k off off1 n -> Closes c ai arg (Z.of_nat k) (maxArray c) off1 off' ->
  0 <= off <= L -> L - off < room -> items + n <= maxItems c -> 0 <= arg ->
  arrayItems c item depth (ai =? aiIndefinite) arg (at_walker off items keys) =
  (Ok tt, at_walker off' (items + n) keys).
Proof using Hd Hcomplete.
  intros His Hcl H0 Hr Hi Ha; unfold arrayItems.
  destruct (Items_bounds c Hd _ _ _ _ _ His ltac:(lia)).
  assert (He := Hcl); rewrite Ends_Closes in He by lia; destruct He as [He Hmax].
  erewrite bind_ok with (a := if ai =? aiIndefinite then 0 else arg) (w1 := at_walker off items keys).
  - eapply array_loop_complete; [exact His|lia|unfold blen in *; lia|done..].
  - unfold Closes in Hcl; destruct (Z.eqb_spec ai aiIndefinite); [done|].
    apply length_complete; lia.
Qed.
(** ** Maps *)

Lemma Kept_prefix m base first ks keys :
  Kept c m base first ks keys -> take (m_base m) keys = base.
Proof using.
  intros (-> & _ & _ & _ & Hk); destruct (m_ascending m); [destruct Hk as [-> _]|subst keys].
  - by apply take_ge.
  - by rewrite take_app_length.
Qed.

(** A map's walk after the entries [ks]: where they end, what it keeps. *)
Definition At (depth first n : Z) (ks : list (mapKey O)) (m : mapWalk) (base : list (mapKey O)) (w : walker O) : Prop :=
  Pairs c depth (length ks) first (w_off w) n ks /\ Kept c m base first ks (w_keys w).

Lemma pair_sound depth indefinite i first n ks m base w :
  At depth first n ks m base w -> i = blen ks -> 0 <= first <= w_off w -> w_off w <= L ->
  L - w_off w < room ->
  sound (pair c item depth indefinite i m) w (fun m' w' => exists k n',
    At depth first (n + n') (ks ++ [k]) m' base w' /\ w_off w < w_off w' <= L /\
    w_items w' = w_items w + n' /\ w_items w' <= maxItems c).
Proof using Hd Hsound.
  intros [Hp Hk] -> H0 Hl Hr; unfold pair.
  apply sound_bind, sound_bind; eapply sound_mono; [apply Hsound; lia|].
  intros _ w1 (n1 & Hi1 & Hn1 & Hm1 & Hk1); destruct (Item_bounds c Hd _ _ _ _ Hi1 ltac:(lia)).
  apply sound_bind; change (sound get_off w1 ?Q) with (Q (w_off w1) w1).
  apply sound_bind, sound_lift; destruct (key c (w_off w) (w_off w1)) as [k|e] eqn:Hkey;
    [|intros ->; by apply (key_nofuel c Hd _ _ _ _ Hi1 ltac:(lia))].
  apply sound_bind; rewrite <- Hk1 in Hk.
  destruct (record_spec c Hd m base depth first ks k n w1 Hk ltac:(lia) (w_off w) Hp (key_kinds c k _ _ Hkey))
    as [(m' & keys' & Hrec & Hk')|(e & Hrec & He & _)]; unfold sound at 1; rewrite Hrec; [|done].
  apply sound_bind; eapply sound_mono.
  { instantiate (1 := fun done w' => done = false -> w' = at_walker (w_off w1) (w_items w1) keys').
    destruct indefinite; [eapply sound_mono; [apply atBreak_sound|]; by intros [] w' (_ & _ & ?); intuition|by apply sound_ret]. }
  intros [] w2 Hw2; [by apply sound_fail|rewrite (Hw2 eq_refl)].
  apply sound_bind; eapply sound_mono; [apply Hsound; cbn; lia|].
  intros _ w3 (n2 & Hi2 & Hn2 & Hm2 & Hk2); cbn [w_off w_items w_keys at_walker] in *.
  destruct (Item_bounds c Hd _ _ _ _ Hi2 ltac:(lia)).
  apply sound_ret; exists k, (n1 + n2); split; [split|lia].
  - rewrite length_app; eapply Pairs_app; [exact Hp|].
    replace (n1 + n2) with (n1 + n2 + 0) by lia; by repeat econstructor.
  - by rewrite Hk2.
Qed.

Lemma map_loop_sound depth indefinite count first base g : forall i n ks m w,
  At depth first n ks m base w -> i = blen ks -> 0 <= first <= w_off w -> w_off w <= L ->
  L - w_off w < Z.of_nat g -> L - w_off w < room -> w_items w <= maxItems c ->
  (indefinite = false -> i <= count <= maxPairs c) -> i <= maxPairs c ->
  sound (map_loop c item g depth indefinite i count m) w (fun m' w' => exists off1 n' ks',
    Pairs c depth (length ks') first off1 (n + n') ks' /\
    Ends indefinite 0 (blen ks') count (maxPairs c) off1 (w_off w') /\
    Kept c m' base first ks' (w_keys w') /\ w_items w' = w_items w + n' /\ w_items w' <= maxItems c).
Proof using Hd Hsound.
  induction g as [|g IH]; intros i n ks m w Hat Hik H0 Hw Hg Hr Hi Hc Hl; [lia|]; cbn [map_loop].
  apply sound_bind; eapply sound_mono; [by apply another_sound|].
  intros [] w1 ([Hs Hs'] & Hm); cbn [negb].
  - destruct Hm as (Ho & Hl1 & Hc1); assert (w1 = w) as -> by (destruct w, w1; cbn in *; congruence).
    apply sound_bind; eapply sound_mono; [by eapply pair_sound|].
    intros m' w2 (k & n' & Hat' & Hoff & Hn1 & Hn2).
    eapply sound_mono; [eapply IH; [exact Hat'|rewrite blen_app, blen_cons, blen_nil; lia|naive_solver lia..]|].
    intros m'' w3 (off1 & n'' & ks' & Hp & He & Hk & Hi1 & Hi2); exists off1, (n' + n''), ks'.
    rewrite Z.add_assoc; refine (conj Hp (conj He (conj Hk (conj _ Hi2)))); lia.
  - destruct Hat as [Hp Hk]; apply sound_ret; exists (w_off w), 0, ks; rewrite Z.add_0_r, Hs'.
    subst i; unfold Ends in *; rewrite Z.add_0_r in Hm.
    refine (conj Hp (conj Hm (conj Hk (conj _ _)))); lia.
Qed.

Lemma pair_complete depth indefinite first n ks m base off off1 off2 n1 n2 k items keys :
  At depth first n ks m base (at_walker off items keys) -> 0 <= first <= off -> L - off < room ->
  Item c depth off off1 n1 -> key c off off1 = Ok k -> Item c depth off1 off2 n2 ->
  ForallOrdPairs (fun a b => other_eqb (mode c) a b = false) (others (ks ++ [k])) ->
  items + n1 + n2 <= maxItems c ->
  exists m' keys', pair c item depth indefinite (blen ks) m (at_walker off items keys) =
      (Ok m', at_walker off2 (items + n1 + n2) keys') /\
    At depth first (n + (n1 + n2)) (ks ++ [k]) m' base (at_walker off2 (items + n1 + n2) keys').
Proof using Hd Hcomplete.
  intros [Hp Hk] H0 Hr Hi1 Hkey Hi2 Ho Hi; cbn [w_off w_keys at_walker] in *.
  destruct (Item_bounds c Hd _ _ _ _ Hi1 ltac:(lia)); destruct (Item_bounds c Hd _ _ _ _ Hi2 ltac:(lia)).
  destruct (record_spec c Hd m base depth first ks k n (at_walker off1 (items + n1) keys) Hk ltac:(lia)
    off Hp (key_kinds c k _ _ Hkey)) as [(m' & keys' & Hrec & Hk')|(e & _ & _ & Hno)]; [|done].
  exists m', keys'; split.
  - unfold pair; erewrite bind_ok by reflexivity; erewrite bind_ok by (apply Hcomplete; [exact Hi1|lia..]).
    erewrite bind_ok by reflexivity; cbn [w_off at_walker]; rewrite Hkey; erewrite bind_ok by reflexivity.
    erewrite bind_ok by exact Hrec; cbn [w_off w_items at_walker].
    erewrite bind_ok with (a := false).
    2: { destruct indefinite; [|done]; destruct (Item_head c _ _ _ _ Hi2); by apply atBreak_false. }
    cbv iota beta; by erewrite bind_ok by (apply Hcomplete; [exact Hi2|lia..]).
  - split; [|done]; rewrite length_app; eapply Pairs_app; [exact Hp|].
    replace (n1 + n2) with (n1 + n2 + 0) by lia; by repeat econstructor.
Qed.

Lemma map_loop_complete depth first base indefinite count k off off1 n ks' :
  Pairs c depth k off off1 n ks' -> forall g n0 ks m off' items keys,
  At depth first n0 ks m base (at_walker off items keys) -> 0 <= first <= off -> off <= L ->
  ForallOrdPairs (fun a b => other_eqb (mode c) a b = false) (others (ks ++ ks')) ->
  L - off < Z.of_nat g -> L - off < room -> items + n <= maxItems c ->
  Ends indefinite (blen ks) (Z.of_nat k) count (maxPairs c) off1 off' ->
  exists m' keys', map_loop c item g depth indefinite (blen ks) count m (at_walker off items keys) =
    (Ok m', at_walker off' (items + n) keys') /\ Kept c m' base first (ks ++ ks') keys'.
Proof using Hd Hcomplete.
  induction 1 as [dp off|dp k off off1 off2 off3 n1 n2 n3 k_ ks' Hi1 Hk Hi2 Hp IH];
    intros [|g] n0 ks m off' items keys Hat H0 HL Ho Hg Hr Hi He; try lia; cbn [map_loop].
  - exists m, keys; rewrite app_nil_r, Z.add_0_r; split; [|apply Hat].
    by erewrite bind_ok by (by apply another_end).
  - destruct (Item_head c _ _ _ _ Hi1); destruct (Item_bounds c Hd _ _ _ _ Hi1 ltac:(lia)).
    destruct (Item_bounds c Hd _ _ _ _ Hi2 ltac:(lia)); destruct (Pairs_bounds c Hd _ _ _ _ _ _ Hp ltac:(lia)).
    erewrite bind_ok by (eapply another_more; [exact He|lia..|done]); cbn [negb].
    rewrite (cons_middle k_ ks ks'), app_assoc in Ho |- *.
    destruct (pair_complete dp indefinite first n0 ks m base off off1 off2 n1 n2 k_ items keys)
      as (m' & keys' & Hpair & Hat'); try done; try lia.
    { unfold others in *; rewrite omap_app in Ho; revert Ho; generalize (omap k_other ks'); intros l.
      induction l as [|x l IHl] using rev_ind; [by rewrite app_nil_r|].
      rewrite app_assoc; intros [? _]%ordpairs_snoc; by apply IHl. }
    erewrite bind_ok by exact Hpair.
    rewrite Nat2Z.inj_succ, <- Z.add_1_l, <- Ends_step in He.
    replace (blen ks + 1) with (blen (ks ++ [k_])) in * by (rewrite blen_app, blen_cons, blen_nil; lia).
    replace (items + (n1 + n2 + n3)) with (items + n1 + n2 + n3) by lia.
    eapply IH; try done; lia.
Qed.

Lemma At_start depth (w : walker O) :
  At depth (w_off w) 0 [] {| m_base := length (w_keys w); m_first := w_off w; m_ascending := true;
    m_last := None; m_other := [] |} (w_keys w) w.
Proof using. split; [constructor|repeat split; constructor]. Qed.

Lemma mapItems_sound depth ai arg w :
  0 <= w_off w <= L -> L - w_off w < room -> w_items w <= maxItems c -> 0 <= arg -> 0 <= maxPairs c ->
  sound (mapItems c item depth (ai =? aiIndefinite) arg) w (fun _ w' => exists k off1 n ks,
    Pairs c depth k (w_off w) off1 n ks /\ Distinct c ks /\
    Closes c ai arg (Z.of_nat k) (maxPairs c) off1 (w_off w') /\ counted c w w' n).
Proof using Hd Hsound.
  intros H0 Hr Hi Ha Hm; unfold mapItems; apply sound_bind; eapply sound_mono.
  { instantiate (1 := fun l w' => w' = w /\ l = (if ai =? aiIndefinite then 0 else arg) /\
      (ai <> aiIndefinite -> arg <= MaxInt32 /\ arg <= maxPairs c)).
    destruct (Z.eqb_spec ai aiIndefinite); [by apply sound_ret|].
    eapply sound_mono; [by apply length_sound|]; naive_solver. }
  intros l w1 (-> & -> & Hc).
  apply sound_bind; change (sound get_keys w ?Q) with (Q (w_keys w) w).
  apply sound_bind; change (sound get_off w ?Q) with (Q (w_off w) w); cbn [m_base].
  set (m := {| m_base := _; m_first := _; m_ascending := _; m_last := _; m_other := _ |}).
  pose proof (map_loop_sound depth (ai =? aiIndefinite) (if ai =? aiIndefinite then 0 else arg) (w_off w)
    (w_keys w) (S (length d)) 0 0 [] m w (At_start _ _) eq_refl) as Hloop.
  assert (Hrange : (ai =? aiIndefinite) = false -> 0 <= (if ai =? aiIndefinite then 0 else arg) <= maxPairs c)
    by (destruct (Z.eqb_spec ai aiIndefinite); naive_solver).
  specialize (Hloop ltac:(lia) ltac:(lia) ltac:(unfold blen in *; lia) Hr Hi Hrange Hm).
  unfold sound, with_keys_restored, bind, get_keys in *.
  destruct (map_loop _ _ _ _ _ _ _ _ w) as [[m'|e] w']; [|done].
  destruct Hloop as (off1 & n & ks & Hp & He & Hk & Hi1 & Hi2).
  assert (Hb : m_base m' = length (w_keys w)) by apply Hk.
  unfold lift; cbn [m_base]; rewrite <- Hb.
  destruct (duplicateKey _) as [[]|e] eqn:E; [|intros ->; by apply duplicateKey_nofuel in E].
  exists (length ks), off1, n, ks; rewrite Z.add_0_l in Hp; cbn [w_off].
  apply (Kept_duplicateKey c) with (1 := Hk) in E.
  split; [done|split; [done|split]].
  - rewrite Ends_Closes by lia; split; [done|naive_solver].
  - repeat split; cbn [w_items w_keys]; [done..|]; by apply (Kept_prefix _ _ _ _ _ Hk).
Qed.

Lemma mapItems_complete depth ai arg k off off1 off' n ks items keys :
  Pairs c depth k off off1 n ks -> Distinct c ks -> Closes c ai arg (Z.of_nat k) (maxPairs c) off1 off' ->
  0 <= off <= L -> L - off < room -> items + n <= maxItems c -> 0 <= arg ->
  mapItems c item depth (ai =? aiIndefinite) arg (at_walker off items keys) =
  (Ok tt, at_walker off' (items + n) keys).
Proof using Hd Hcomplete.
  intros Hp Hks Hcl H0 Hr Hi Ha; unfold mapItems.
  destruct (Pairs_bounds c Hd _ _ _ _ _ _ Hp ltac:(lia)) as (? & ? & Hlen).
  assert (He := Hcl); rewrite Ends_Closes in He by lia; destruct He as [He Hmax].
  erewrite bind_ok with (a := if ai =? aiIndefinite then 0 else arg) (w1 := at_walker off items keys).
  2: { unfold Closes in Hcl; destruct (Z.eqb_spec ai aiIndefinite); [done|].
       apply length_complete; lia. }
  erewrite bind_ok by reflexivity; erewrite bind_ok by reflexivity; cbn [w_off w_keys at_walker m_base].
  destruct (map_loop_complete depth off keys (ai =? aiIndefinite) (if ai =? aiIndefinite then 0 else arg)
    k off off1 n ks Hp (S (length d)) 0 [] _ off' items keys (At_start depth (at_walker off items keys)))
    as (m' & keys' & Hloop & Hk); [lia|lia|apply Hks|unfold blen in *; lia|done|done|done|].
  unfold with_keys_restored; cbn [app w_off w_keys at_walker] in *.
  change (blen []) with 0 in Hloop; erewrite bind_ok by exact Hloop; erewrite bind_ok by reflexivity.
  assert (Hb : m_base m' = length keys) by apply Hk; cbn [w_off w_items w_keys at_walker]; rewrite <- Hb.
  unfold lift; rewrite (proj2 (Kept_duplicateKey c _ _ _ _ _ Hk) Hks).
  cbn [w_off w_items w_keys at_walker]; by rewrite (Kept_prefix _ _ _ _ _ Hk).
Qed.

(** ** Tags *)

Lemma validTagContent_time num content :
  validTagContent num content = Ok tt -> num = 0 \/ num = 1 -> Z.shiftr content 5 <> majorTag.
Proof using.
  unfold validTagContent; intros H Hn E; rewrite E in H; destruct Hn as [-> | ->]; [done|].
  cbn -[Z.leb] in H; destruct (Z.leb_spec 249 content); [|done].
  destruct (Z.leb_spec content 251); [|done].
  assert (content = 249 \/ content = 250 \/ content = 251) as [-> | [-> | ->]] by lia; done.
Qed.

Lemma validTagContent_nofuel num content : validTagContent num content <> Err ErrFuel.
Proof using. unfold validTagContent; by destruct (negb _). Qed.

(** The time tag among the tags walked so far, and the item it tags. *)
Definition timed (timeTag : Z) (off' : Z) : Prop :=
  0 <= timeTag -> unmarshal_time (mode c) (slice d timeTag off') = true.

Lemma tag_chain_sound g : forall depth start ai num w,
  0 <= start -> readHead d start = Ok (majorTag, ai, num, w_off w) ->
  L - w_off w < Z.of_nat g -> L - w_off w < room -> w_items w <= maxItems c ->
  sound (tag_chain c g depth start num (-1)) w (fun r w' => w_off w <= w_off w' <= L /\ exists k,
    counted c w w' k /\ forall off' n, Item c r.1 (w_off w') off' n -> timed r.2 off' ->
      Item c depth start off' (1 + k + n)).
Proof using Hd.
  unfold counted; induction g as [|g IH]; intros depth start ai num w H0 Hh Hg Hr Hi;
    destruct (readHead_bounds c Hd _ _ _ _ _ H0 Hh); [lia|]; cbn [tag_chain].
  apply sound_bind; change (sound get_off w ?Q) with (Q (w_off w) w); cbv beta.
  destruct (Z.leb_spec L (w_off w)); [by apply sound_fail|].
  apply sound_bind, sound_lift.
  destruct (validTagContent num (at_ d (w_off w))) as [[]|e] eqn:Hv;
    [|intros ->; by apply validTagContent_nofuel in Hv].
  pose proof (validTagContent_time _ _ Hv) as Ht.
  destruct (Z.eqb_spec (Z.shiftr (at_ d (w_off w)) 5) majorTag) as [Etag|Etag]; cbn [negb].
  - assert (Hn : (num =? 0) || (num =? 1) = false).
    { rewrite eqb_or_false; split; intros ->; apply Ht; auto. }
    rewrite Hn; apply sound_bind; eapply sound_mono; [apply head_sound; [done|lia]|].
    intros [[major' ai'] n'] w1 (Hh1 & Ho1 & Hn1 & Hm1 & Hk1).
    destruct (Z.ltb_spec (maxNested c) (depth + 1)); [by apply sound_fail|].
    assert (major' = majorTag) as ->.
    { apply readHead_major in Hh1; congruence. }
    eapply sound_mono; [eapply IH; [|exact Hh1|..]; lia|].
    intros [dp tt'] w2 (Hle & k & (Hk2 & Hm2 & Hks2) & Hitem); split; [lia|].
    exists (1 + k); split; [repeat split; [lia|done|congruence]|]; intros off' n Hit Htime.
    replace (1 + (1 + k) + n) with (1 + (1 + k + n)) by lia.
    eapply Item_tag; [exact Hh|done|done|by rewrite Etag, Z.eqb_refl| |by apply Hitem|].
    + intros _; lia.
    + apply eqb_or_false in Hn; naive_solver.
  - apply sound_ret; split; [lia|]; exists 0; split; [repeat split; lia|]; cbn [fst snd]; intros off' n Hit Htime.
    rewrite Z.add_0_r; eapply Item_tag; [exact Hh|done|done| | |exact Hit|].
    + by destruct (Z.eqb_spec (Z.shiftr (at_ d (w_off w)) 5) majorTag).
    + done.
    + intros Hn%eqb_or; rewrite Hn in Htime; by apply Htime.
Qed.

Lemma tag_sound depth start ai num w :
  0 <= start -> readHead d start = Ok (majorTag, ai, num, w_off w) ->
  L - w_off w < room -> w_items w <= maxItems c ->
  sound (tag c item depth start num) w (fun _ w' => exists n,
    Item c depth start (w_off w') (1 + n) /\ counted c w w' n).
Proof using Hd Hsound.
  intros H0 Hh Hr Hi; unfold tag; destruct (readHead_bounds c Hd _ _ _ _ _ H0 Hh).
  apply sound_bind; eapply sound_mono; [eapply tag_chain_sound; [done|exact Hh|unfold blen in *; lia|done|done]|].
  intros [dp tt'] w1 (Hle & k & (Hk & Hm & Hks) & Hitem).
  apply sound_bind; eapply sound_mono; [apply Hsound; lia|].
  intros _ w2 (n & Hit & Hn2 & Hm2 & Hks2).
  assert (Hdone : timed tt' (w_off w2) -> exists n,
    Item c depth start (w_off w2) (1 + n) /\ counted c w w2 n).
  { intros Ht; exists (k + n); rewrite Z.add_assoc; split; [by apply Hitem|].
    repeat split; [lia|done|congruence]. }
  unfold timed in Hdone; destruct (Z.leb_spec 0 tt').
  - apply sound_bind; change (sound get_off w2 ?Q) with (Q (w_off w2) w2); cbv beta.
    destruct (unmarshal_time _ _); [by apply sound_ret, Hdone|by apply sound_fail].
  - apply sound_ret, Hdone; lia.
Qed.

(** The tags of a chain walk to the chain's content, whose item the caller
    walks, at the depth the chain ends at. *)
Lemma tag_chain_complete g : forall depth start ai num next off' n items keys,
  0 <= start -> readHead d start = Ok (majorTag, ai, num, next) -> Item c depth start off' (1 + n) ->
  L - next < Z.of_nat g -> items + n <= maxItems c ->
  exists dp tt' off1 k, tag_chain c g depth start num (-1) (at_walker next items keys) =
      (Ok (dp, tt'), at_walker off1 (items + k) keys) /\
    Item c dp off1 off' (n - k) /\ timed tt' off' /\ 0 <= k /\ next <= off1.
Proof using Hd.
  induction g as [|g IH]; intros depth start ai num next off' n items keys H0 Hh Hit Hg Hi;
    destruct (readHead_bounds c Hd _ _ _ _ _ H0 Hh); [lia|].
  destruct (Item_tag_inv c _ _ _ _ _ _ _ Hit Hh) as (dp' & n' & Hn' & Hlt & Hv & Hdp' & Hdp & Hin & Ht).
  assert (n' = n) as -> by lia; pose proof (validTagContent_time _ _ Hv) as Hnt; cbn [tag_chain].
  erewrite bind_ok by reflexivity; cbn [w_off at_walker]; destruct (Z.leb_spec L next); [lia|].
  rewrite Hv; erewrite bind_ok by reflexivity.
  destruct (Z.eqb_spec (Z.shiftr (at_ d next) 5) majorTag) as [Etag|Etag]; cbn [negb].
  - assert (Hn : (num =? 0) || (num =? 1) = false).
    { rewrite eqb_or_false; split; intros ->; apply Hnt; auto. }
    rewrite Hn, Hdp' in *; specialize (Hdp Etag).
    destruct (Item_readHead c _ _ _ _ Hin) as (ai' & num' & next' & Hh'); rewrite Etag in Hh'.
    pose proof (readHead_bounds c Hd next _ _ _ _ ltac:(lia) Hh').
    destruct (Item_bounds c Hd _ _ _ _ Hin ltac:(lia)).
    erewrite bind_ok by (apply head_complete; [exact Hh'|lia]); cbv iota beta.
    destruct (Z.ltb_spec (maxNested c) (depth + 1)); [lia|].
    destruct (IH (depth + 1) next ai' num' next' off' (n - 1) (items + 1) keys)
      as (dp & tt' & off1 & k & Hc & Hi1 & Htt & Hk & Hoff); [lia|done| |lia|lia|].
    { by replace (1 + (n - 1)) with n by lia. }
    exists dp, tt', off1, (1 + k); rewrite Z.add_assoc; split; [done|].
    replace (n - (1 + k)) with (n - 1 - k) by lia; repeat split; [done..|lia|lia].
  - exists depth, (if (num =? 0) || (num =? 1) then start else -1), next, 0.
    rewrite Z.add_0_r, Z.sub_0_r; split; [done|]; subst dp'; split; [done|].
    split; [|lia]; unfold timed; destruct ((num =? 0) || (num =? 1)) eqn:E; [|lia].
    by apply eqb_or in E; auto.
Qed.

Lemma tag_complete depth start ai num next off' n items keys :
  0 <= start -> readHead d start = Ok (majorTag, ai, num, next) -> Item c depth start off' (1 + n) ->
  L - next < room -> items + n <= maxItems c ->
  tag c item depth start num (at_walker next items keys) = (Ok tt, at_walker off' (items + n) keys).
Proof using Hd Hcomplete.
  intros H0 Hh Hit Hr Hi; unfold tag; destruct (readHead_bounds c Hd _ _ _ _ _ H0 Hh).
  destruct (tag_chain_complete (S (length d)) depth start ai num next off' n items keys)
    as (dp & tt' & off1 & k & Hc & Hi1 & Htt & Hk & Hoff); [done..|unfold blen in *; lia|done|].
  erewrite bind_ok by exact Hc; cbv iota beta.
  erewrite bind_ok by (apply Hcomplete; [exact Hi1|lia..]).
  replace (items + k + (n - k)) with (items + n) by lia.
  unfold timed in Htt; destruct (Z.leb_spec 0 tt'); [|done].
  erewrite bind_ok by reflexivity; cbn [w_off at_walker]; by rewrite Htt.
Qed.
End Parts.

(** ** An item *)

Section Item.
Context {O : Type} (c : config O) (Hd : bytes_ok (data c)).
Context (Harray : 0 <= maxArray c) (Hpairs : 0 <= maxPairs c).
Local Abbreviation d := (data c).
Local Abbreviation L := (blen (data c)).

Lemma counted_step w w1 w2 n :
  counted c w w1 1 -> counted c w1 w2 n -> counted c w w2 (1 + n).
Proof using. unfold counted; intuition (lia || congruence). Qed.

Lemma item_is_sound f : item_sound c (Z.of_nat f) (item c f).
Proof using Hd Harray Hpairs.
  induction f as [|f IH]; intros dp w H0 Hf; [lia|]; cbn [item].
  apply sound_bind; change (sound get_off w ?Q) with (Q (w_off w) w); cbv beta.
  apply sound_bind; eapply sound_mono; [apply (head_sound c Hd); lia|].
  intros [[major ai] arg] w1 (Hh & Ho & Hc1).
  destruct (readHead_bounds c Hd _ _ _ _ _ (proj1 H0) Hh) as [_ Harg].
  assert (Hi1 : w_items w1 <= maxItems c) by apply Hc1.
  destruct (_ || _)%bool eqn:E1; [apply eqb_or in E1|apply eqb_or_false in E1].
  { destruct (Z.eqb_spec ai aiIndefinite) as [->|Hai]; cbn [negb].
    - eapply sound_mono; [apply (chunks_sound c Hd); unfold blen in *; lia|].
      intros _ w2 (n & Hch & Hc2); exists (1 + n); split; [by eapply Item_chunks|by eapply counted_step].
    - eapply sound_mono; [by apply chunk_sound|]; intros _ w2 (Hct & Ho2 & Hs2 & Hk2).
      exists 1; rewrite Ho2; split; [by eapply Item_string|].
      destruct Hc1 as (? & ? & ?); repeat split; [lia|lia|congruence]. }
  destruct (_ || _)%bool eqn:E2; [apply eqb_or in E2|apply eqb_or_false in E2].
  { destruct (Z.ltb_spec (maxNested c) (dp + 1)); [by apply sound_fail|].
    destruct (Z.eqb_spec major majorMap) as [->|Hmap].
    - eapply sound_mono; [by apply (mapItems_sound c Hd _ _ IH); try lia|].
      intros _ w2 (k & off1 & n & ks & Hp & Hks & Hcl & Hc2); exists (1 + n).
      split; [by eapply Item_map|by eapply counted_step].
    - destruct E2 as [->|]; [|done].
      eapply sound_mono; [by apply (arrayItems_sound c Hd _ _ IH); try lia|].
      intros _ w2 (k & off1 & n & Hp & Hcl & Hc2); exists (1 + n).
      split; [by eapply Item_array|by eapply counted_step]. }
  destruct (Z.eqb_spec major majorTag) as [->|Htag].
  - eapply sound_mono; [eapply (tag_sound c Hd _ _ IH); [lia|exact Hh|lia|done]|].
    intros _ w2 (n & Hit & Hc2); exists (1 + n); split; [done|by eapply counted_step].
  - apply sound_ret; exists 1; split; [|done]; eapply Item_simple; [exact Hh|].
    pose proof (readHead_major_range c Hd _ _ _ _ _ Hh).
    unfold majorBytes, majorText, majorArray, majorMap, majorTag, majorUint, majorNint, majorSimple in *; lia.
Qed.

Lemma item_is_complete f : item_complete c (Z.of_nat f) (item c f).
Proof using Hd.
  induction f as [|f IH]; intros dp off off' n items keys Hit H0 Hf Hi;
    destruct (Item_bounds c Hd _ _ _ _ Hit H0); [lia|]; cbn [item].
  erewrite bind_ok by reflexivity; cbn [w_off at_walker].
  destruct (Item_readHead c _ _ _ _ Hit) as (ai0 & arg0 & next0 & Hh0).
  destruct (readHead_bounds c Hd _ _ _ _ _ H0 Hh0); clear Hh0.
  destruct Hit as [dp off major ai arg next Hh Hm|dp off major ai arg next Hh Hm Hai Hct
    |dp off major arg next off' n Hh Hm Hch|dp off ai arg next k off1 off' n Hh Hdp His Hcl
    |dp off ai arg next k off1 off' n ks Hh Hdp Hp Hks Hcl|dp dp' off ai num next off' n Hh Hlt Hv Hdp' Hdp Hin Ht];
    (erewrite bind_ok by (apply head_complete; [exact Hh|lia]); cbv iota beta;
     destruct (readHead_bounds c Hd _ _ _ _ _ H0 Hh)); rewrite ?Z.add_assoc.
  - by destruct Hm as [->|[-> | ->]].
  - assert (((major =? majorBytes) || (major =? majorText))%bool = true) as -> by (by apply eqb_or).
    destruct (Z.eqb_spec ai aiIndefinite); [done|]; by apply chunk_complete.
  - assert (((major =? majorBytes) || (major =? majorText))%bool = true) as -> by (by apply eqb_or).
    eapply (chunks_complete c Hd); [done|lia|unfold blen in *; lia|lia].
  - cbn [orb Z.eqb]; destruct (Z.ltb_spec (maxNested c) (dp + 1)); [lia|].
    eapply (arrayItems_complete c Hd _ _ IH); [exact His|done|lia..].
  - cbn [orb Z.eqb]; destruct (Z.ltb_spec (maxNested c) (dp + 1)); [lia|].
    eapply (mapItems_complete c Hd _ _ IH); [exact Hp|done..|lia|lia|lia|lia].
  - eapply (tag_complete c Hd _ _ IH); [done|exact Hh| |lia|lia].
    by eapply Item_tag.
Qed.
End Item.
