(* ===== verification/CborLimits.v ===== *)
(** * What the CBOR walk promises its callers

    The theorems about the exported calls of [internal/strictcbor]: what
    [walk] accepts, that it never reads more than one head past its item
    limit, what a shared budget bounds, and what [Entries] hands out of a map
    the walk has accepted. *)
From S2P Require Import Prelude Cbor CborKeys CborSpec CborWalk CborItem.

(** ** The item count on every path *)

Section Grows.
Context {O : Type} (c : config O).

(** The walker's item count never falls, and passes the limit by one head at
    most, which is then an error. *)
Definition grows {A} (m : W O A) : Prop := forall w,
  w_items w <= maxItems c ->
  w_items w <= w_items (m w).2 <= maxItems c + 1 /\
  (is_ok (m w).1 = true -> w_items (m w).2 <= maxItems c).

Lemma grows_bind {A B} (m : W O A) (k : A -> W O B) :
  grows m -> (forall a, grows (k a)) -> grows (bind m k).
Proof using.
  intros Hm Hk w Hw; specialize (Hm w Hw); unfold bind; destruct (m w) as [[a|e] w1]; cbn in *.
  - destruct Hm as [Hm1 Hm2]; specialize (Hk a w1 (Hm2 eq_refl)); split; [lia|apply Hk].
  - naive_solver.
Qed.

(** A call that leaves the count as it is. *)
Definition keeps {A} (m : W O A) : Prop := forall w, w_items (m w).2 = w_items w.

Lemma keeps_grows {A} (m : W O A) : keeps m -> grows m.
Proof using. intros Hm w Hw; rewrite Hm; lia. Qed.

Lemma keeps_bind {A B} (m : W O A) (k : A -> W O B) :
  keeps m -> (forall a, keeps (k a)) -> keeps (bind m k).
Proof using.
  intros Hm Hk w; specialize (Hm w); unfold bind; destruct (m w) as [[a|e] w1]; [|done].
  by rewrite Hk.
Qed.

Lemma grows_head : grows (head c).
Proof using.
  intros w Hw; unfold head; destruct (readHead _ _) as [[[[major ai] arg] next]|]; cbn; [|lia].
  destruct (Z.ltb_spec (maxItems c) (w_items w + 1)); cbn; lia.
Qed.

Local Ltac keeps :=
  repeat first [progress intros | progress cbv zeta | apply keeps_bind
    | match goal with |- keeps (if ?b then _ else _) => destruct b end
    | match goal with |- keeps (match ?x with _ => _ end) => destruct x end
    | by intros ?].

Lemma keeps_atBreak : keeps (atBreak c).
Proof using. unfold atBreak; keeps. Qed.
Lemma keeps_chunk major n : keeps (chunk c major n).
Proof using. unfold chunk; keeps. Qed.
Lemma keeps_length n per limit e : keeps (length_ c n per limit e).
Proof using. unfold length_; keeps. Qed.
Lemma keeps_another ind i count limit e : keeps (another c ind i count limit e).
Proof using. unfold another; destruct (negb ind); [by intros ?|]; apply keeps_bind; [apply keeps_atBreak|keeps]. Qed.
Lemma keeps_record k i s m : keeps (record c k i s m).
Proof using. unfold record, keysBefore; keeps. Qed.

Local Ltac grows :=
  repeat first [progress intros | progress cbv zeta | apply grows_head
    | apply keeps_grows; first [apply keeps_atBreak | apply keeps_chunk | apply keeps_length
        | apply keeps_another | apply keeps_record | by intros ?]
    | match goal with |- grows (if ?b then _ else _) => destruct b end
    | match goal with |- grows (match ?x with _ => _ end) => destruct x end
    | done | apply grows_bind].

Lemma grows_chunks f major : grows (chunks c f major).
Proof using. induction f; cbn [chunks]; grows. Qed.

Lemma grows_tag_chain f : forall depth start num t, grows (tag_chain c f depth start num t).
Proof using. induction f as [|f IH]; intros; cbn [tag_chain]; grows. Qed.

Section Parts.
Context (item : Z -> W O unit) (Hitem : forall dp, grows (item dp)).

Lemma grows_array_loop g dp ind count : forall i, grows (array_loop c item g dp ind i count).
Proof using Hitem. induction g as [|g IH]; intros i; cbn [array_loop]; grows. Qed.

Lemma grows_map_loop g dp ind count : forall i m, grows (map_loop c item g dp ind i count m).
Proof using Hitem. induction g as [|g IH]; intros i m; cbn [map_loop]; unfold pair; grows. Qed.

Lemma grows_restored {A} n (m : W O A) : grows m -> grows (with_keys_restored n m).
Proof using.
  intros Hm w Hw; specialize (Hm w Hw); unfold with_keys_restored; by destruct (m w) as [r w1].
Qed.

Lemma grows_mapItems dp ind n : grows (mapItems c item dp ind n).
Proof using Hitem.
  pose proof (grows_map_loop (S (length (data c))) dp ind) as Hl.
  unfold mapItems; apply grows_bind; [grows|intros count].
  apply grows_bind; [grows|intros keys]; apply grows_bind; [grows|intros first].
  apply grows_restored, grows_bind; [apply Hl|grows].
Qed.

Lemma grows_arrayItems dp ind n : grows (arrayItems c item dp ind n).
Proof using Hitem. unfold arrayItems; apply grows_bind; [grows|intros; apply grows_array_loop]. Qed.

Lemma grows_tag dp start num : grows (tag c item dp start num).
Proof using Hitem.
  unfold tag; apply grows_bind; [apply grows_tag_chain|grows].
Qed.
End Parts.

Lemma grows_item f : forall dp, grows (item c f dp).
Proof using.
  induction f as [|f IH]; intros dp; cbn [item]; [by apply keeps_grows; intros ?|].
  apply grows_bind; [by apply keeps_grows; intros ?|intros start].
  apply grows_bind; [apply grows_head|intros [[major ai] arg]].
  repeat match goal with |- grows (if ?b then _ else _) => destruct b end;
    eauto using grows_chunks, grows_mapItems, grows_arrayItems, grows_tag, keeps_grows, keeps_chunk;
    by apply keeps_grows; intros ?.
Qed.
End Grows.

(** ** The exported calls *)

(** The options the wrapped mode must have: fxamacker/cbor refuses to build a
    mode whose container limits are negative. *)
Definition mode_ok {O} (m : Mode O) : Prop := 0 <= MaxArrayElements m /\ 0 <= MaxMapPairs m.

Definition walk_config {O} (m : DecMode O) (d : bytes) : config O :=
  {| mode := dm_mode m; data := d; maxItems := walk_limit m |}.

Lemma mode_ok_limits {O} (m : DecMode O) d :
  mode_ok (dm_mode m) -> 0 <= maxArray (walk_config m d) /\ 0 <= maxPairs (walk_config m d).
Proof.
  intros [? ?]; unfold maxArray, maxPairs, or_default, walk_config, defaultMaxContainer; cbn.
  repeat go_case; lia.
Qed.

Lemma run_walker_sound {O} (m : DecMode O) d :
  bytes_ok d -> mode_ok (dm_mode m) -> d <> [] -> exists r w, run_walker m d = Some (r, w) /\
  match r with
  | Ok _ => exists n, Item (walk_config m d) 0 0 (w_off w) n /\ w_items w = n /\ n <= walk_limit m
  | Err e => e <> ErrFuel
  end.
Proof.
  intros Hd Hm Hne; destruct (mode_ok_limits m d Hm) as [Ha Hp]; unfold run_walker.
  destruct (Z.eqb_spec (blen d) 0) as [E|E]; [by apply blen_zero in E|].
  pose proof (item_is_sound (walk_config m d) Hd Ha Hp (S (length d)) 0 {| w_off := 0; w_items := 0; w_keys := [] |}) as Hs.
  unfold sound in Hs; cbn [w_off data walk_config] in Hs; unfold walk_config in *.
  destruct (item _ _ _ _) as [r w]; exists r, w; split; [done|].
  unfold blen in Hs; specialize (Hs ltac:(lia) ltac:(lia)); destruct r as [[]|e]; [|done].
  destruct Hs as (n & Hi & Hn & Hl & _); exists n; cbn in *; repeat split; [done|lia|lia].
Qed.

Lemma run_walker_complete {O} (m : DecMode O) d off n :
  bytes_ok d -> Item (walk_config m d) 0 0 off n -> n <= walk_limit m ->
  run_walker m d = Some (Ok tt, at_walker off n []).
Proof.
  intros Hd Hi Hn; unfold run_walker; destruct (Item_bounds (walk_config m d) Hd _ _ _ _ Hi ltac:(lia)).
  cbn [data walk_config] in *; destruct (Z.eqb_spec (blen d) 0); [lia|].
  pose proof (item_is_complete (walk_config m d) Hd (S (length d)) 0 0 off n 0 [] Hi) as Hc.
  cbn [data walk_config maxItems] in Hc; unfold blen in Hc; rewrite Z.add_0_l in Hc.
  unfold walk_config, at_walker in *; by rewrite Hc by lia.
Qed.

Lemma walk_ok {O} (m : DecMode O) d whole :
  (walk m d whole).1 = Ok tt <->
  exists w, run_walker m d = Some (Ok tt, w) /\ (whole = true -> w_off w = blen d).
Proof.
  unfold walk; destruct (run_walker m d) as [[[[]|e] w]|]; cbn [fst].
  - destruct whole; cbn [andb]; destruct (Z.eqb_spec (w_off w) (blen d)); cbn [negb];
      split; try done; try (by intros _; exists w; naive_solver);
      intros (w' & [= <-] & Hw); naive_solver.
  - split; [|naive_solver]; destruct e; try done.
    destruct (dm_budget m) as [b|]; [destruct (_ <? _)|]; done.
  - naive_solver.
Qed.

(** A message one limit lets through, any larger one does. *)
Lemma Chunks_maxItems {O} (m : Mode O) d a b major off off' n :
  Chunks {| mode := m; data := d; maxItems := a |} major off off' n -> Chunks {| mode := m; data := d; maxItems := b |} major off off' n.
Proof.
  induction 1 as [off Hl Hb|off ai n s off' k Hr Hi Hc _ IH]; [by constructor|]; by apply (Chunks_cons _ _ _ ai n s).
Qed.

Lemma Item_maxItems {O} (m : Mode O) d a b depth off off' n :
  Item {| mode := m; data := d; maxItems := a |} depth off off' n -> Item {| mode := m; data := d; maxItems := b |} depth off off' n.
Proof.
  enough (Hall : (forall dp o o' k, Item {| mode := m; data := d; maxItems := a |} dp o o' k -> Item {| mode := m; data := d; maxItems := b |} dp o o' k) /\
    (forall dp k o o' n, Items {| mode := m; data := d; maxItems := a |} dp k o o' n -> Items {| mode := m; data := d; maxItems := b |} dp k o o' n) /\
    (forall dp k o o' n ks, Pairs {| mode := m; data := d; maxItems := a |} dp k o o' n ks ->
       Pairs {| mode := m; data := d; maxItems := b |} dp k o o' n ks)) by apply Hall.
  apply Item_Items_Pairs_ind; intros;
    [apply (Item_simple _ _ _ major ai arg)|apply (Item_string _ _ _ major ai)|apply (Item_chunks _ _ _ major arg next)
    |apply (Item_array _ _ _ ai arg next k off1)|apply (Item_map _ _ _ ai arg next k off1 _ _ ks)|apply (Item_tag _ _ depth' _ ai num next)
    |apply Items_nil|apply (Items_cons _ _ _ _ off1)|apply Pairs_nil|apply (Pairs_cons _ _ _ _ off1 off2)];
    try assumption; by eapply Chunks_maxItems.
Qed.

Lemma walk_mono {O} (m m' : DecMode O) d : bytes_ok d -> mode_ok (dm_mode m) -> dm_mode m' = dm_mode m -> walk_limit m <= walk_limit m' ->
  (walk m d true).1 = Ok tt -> (walk m' d true).1 = Ok tt.
Proof.
  intros Hd Hm Em Hl (w & Hr & Hw)%walk_ok; apply walk_ok.
  assert (Hne : d <> []) by (intros ->; done); destruct (run_walker_sound m d Hd Hm Hne) as (r & w' & Hr' & Hs).
  rewrite Hr in Hr'; injection Hr' as <- <-; destruct Hs as (n & Hi & Hn & Hle).
  exists (at_walker (w_off w) n []); split; [|done]; apply run_walker_complete; [done| |lia].
  unfold walk_config in *; rewrite Em; eapply Item_maxItems; exact Hi.
Qed.

(** C32: the walk accepts a message exactly when the rules derive one
    well-formed item from its first byte - and, for Unmarshal and Wellformed,
    nothing after it -
    that counts no more data items than the limit in force, the smaller of
    the mode's own and what its budget has left. *)
Theorem walk_exact {O} (m : DecMode O) (d : bytes) (whole : bool) :
  bytes_ok d -> mode_ok (dm_mode m) ->
  (walk m d whole).1 = Ok tt <->
  exists off n, Item (walk_config m d) 0 0 off n /\ n <= walk_limit m /\ (whole = true -> off = blen d).
Proof.
  intros Hd Hm; rewrite walk_ok; split.
  - intros (w & Hrun & Hw).
    destruct (decide (d = [])) as [->|Hne]; [done|].
    destruct (run_walker_sound m d Hd Hm Hne) as (r & w' & Hrun' & Hr); rewrite Hrun in Hrun'.
    injection Hrun' as <- <-; destruct Hr as (n & Hi & _ & Hn); naive_solver.
  - intros (off & n & Hi & Hn & Hw); exists (at_walker off n []); split; [|done].
    by apply run_walker_complete.
Qed.

(** every call ends within the model's fuel, on any bytes: the recursion
    is no deeper, and no loop longer, than the message. *)
Theorem walk_terminates {O} (m : DecMode O) (d : bytes) (whole : bool) :
  bytes_ok d -> mode_ok (dm_mode m) -> (walk m d whole).1 <> Err ErrFuel.
Proof.
  intros Hd Hm; unfold walk; destruct (decide (d = [])) as [->|Hne]; [done|].
  destruct (run_walker_sound m d Hd Hm Hne) as (r & w & -> & Hr); cbn [fst].
  destruct r as [[]|e]; [by destruct (whole && _)%bool|].
  destruct e; try done; destruct (dm_budget m) as [b|]; [destruct (_ <? _)|]; done.
Qed.

(** a call, accepted or refused, reads at most one head past its item
    limit, and charges the budget what it read. *)
Theorem walk_work_bounded {O} (m : DecMode O) (d : bytes) (whole : bool) b :
  dm_budget m = Some b -> 0 <= b_left b ->
  exists items, 0 <= items <= Z.min (MaxItems m) (b_left b) + 1 /\
    (walk m d whole).2 = Some {| b_total := b_total b; b_left := b_left b - items |} /\
    (is_ok (walk m d whole).1 = true -> items <= b_left b).
Proof.
  intros Hb Hl.
  assert (Hmax : 0 < MaxItems m) by (unfold MaxItems; destruct (Z.leb_spec (dm_maxItems m) 0); [done|lia]).
  unfold walk, run_walker, walk_limit; rewrite Hb; destruct (blen d =? 0).
  - exists 0; rewrite Z.sub_0_r; destruct b; cbn in *; split; [lia|done].
  - set (c := {| mode := _; data := _; maxItems := _ |}).
    pose proof (grows_item c (S (length d)) 0 {| w_off := 0; w_items := 0; w_keys := [] |}) as Hg.
    destruct (item c _ _ _) as [r w]; cbn [fst snd w_items c maxItems] in *.
    exists (w_items w); split; [lia|split; [done|]]; intros Hok; destruct r as [[]|e].
    + specialize (proj2 (Hg ltac:(lia)) eq_refl); lia.
    + by destruct e; try done; destruct (_ <? _).
Qed.

(** One message after another over a shared budget: what the accepted ones
    took from it. *)
Fixpoint accepted_cost {O} (m : DecMode O) (calls : list (bytes * bool)) : Z :=
  match calls with
  | [] => 0
  | (d, whole) :: calls =>
      let '(r, b) := walk m d whole in
      let m' := {| dm_mode := dm_mode m; dm_maxItems := dm_maxItems m; dm_budget := b |} in
      let left := fun o : option budget => from_option b_left 0 o in
      (if is_ok r then left (dm_budget m) - left b else 0) + accepted_cost m' calls
  end.

Lemma run_exhausted {O} (c : config O) f :
  maxItems c < 0 ->
  let '(r, w) := item c (S f) 0 {| w_off := 0; w_items := 0; w_keys := [] |} in
  is_ok r = false /\ 0 <= w_items w.
Proof.
  intros Hm; cbn [item]; unfold bind, get_off, head; cbn [w_off w_items w_keys].
  destruct (readHead _ _) as [[[[major ai] arg] next]|e]; [|done].
  cbn [w_items]; by destruct (Z.ltb_spec (maxItems c) (0 + 1)); [|lia].
Qed.

Lemma accepted_cost_le {O} (calls : list (bytes * bool)) : forall (m : DecMode O) b,
  dm_budget m = Some b -> accepted_cost m calls <= Z.max 0 (b_left b).
Proof.
  induction calls as [|[d whole] calls IH]; intros m b Hb; cbn [accepted_cost]; [lia|].
  assert (Hmax : 0 < MaxItems m) by (unfold MaxItems; destruct (Z.leb_spec (dm_maxItems m) 0); [done|lia]).
  assert (Hcall : exists items, 0 <= items /\
    (walk m d whole).2 = Some {| b_total := b_total b; b_left := b_left b - items |} /\
    (is_ok (walk m d whole).1 = true -> items <= b_left b)).
  { unfold walk, run_walker, walk_limit; rewrite Hb; destruct (blen d =? 0).
    { exists 0; rewrite Z.sub_0_r; destruct b; by cbn. }
    set (c := {| mode := _; data := _; maxItems := _ |}).
    pose proof (grows_item c (S (length d)) 0 {| w_off := 0; w_items := 0; w_keys := [] |}) as Hg.
    pose proof (run_exhausted c (length d)) as He.
    destruct (item c _ _ _) as [r w]; cbn [fst snd w_items c maxItems] in *.
    exists (w_items w); split; [|split; [done|]].
    - destruct (Z.lt_ge_cases (Z.min (MaxItems m) (b_left b)) 0); [by apply He|by apply Hg].
    - intros Hok; assert (Hr : is_ok r = true).
      { destruct r as [|e]; [done|]; by destruct e; try done; destruct (_ <? _). }
      destruct (Z.lt_ge_cases (Z.min (MaxItems m) (b_left b)) 0) as [Hneg|Hneg].
      + by rewrite (proj1 (He Hneg)) in Hr.
      + specialize (proj2 (Hg Hneg) Hr); lia. }
  destruct Hcall as (items & H0 & Hbud & Hok); destruct (walk m d whole) as [r b'].
  cbn [fst snd] in *; subst b'; rewrite Hb; cbn [from_option b_left].
  match goal with |- context [accepted_cost ?m' calls] => specialize (IH m' _ eq_refl) end.
  cbn [b_left] in IH; destruct (is_ok r); [specialize (Hok eq_refl)|]; lia.
Qed.

(** over any sequence of calls sharing one budget of [n] data items,
    refused calls among them, the accepted messages count [n] items in
    all at most. *)
Theorem budget_shared {O} (m : DecMode O) (n : Z) (calls : list (bytes * bool)) :
  accepted_cost (WithBudget m n) calls <= Z.max 0 n.
Proof. by apply (accepted_cost_le calls (WithBudget m n) {| b_total := n; b_left := n |}). Qed.

(** ** [Entries] on an accepted map *)

Section EntriesOf.
Context {O St : Type} (c : config O) (Hd : bytes_ok (data c)).
Context (fn : St -> bytes -> bytes -> res cbor_error St).
Local Abbreviation d := (data c).
Local Abbreviation L := (blen (data c)).

(** The entries of a map as the offsets of each key, its end and its
    value's end, one after the other from [off] to [off1]. *)
Fixpoint Chain (depth off off1 : Z) (es : list (Z * Z * Z)) (ks : list (mapKey O)) : Prop :=
  match es, ks with
  | [], [] => off = off1
  | (a, b, e) :: es, k :: ks =>
      a = off /\ (exists n, Item c depth a b n) /\ key c a b = Ok k /\
      (exists n, Item c depth b e n) /\ Chain depth e off1 es ks
  | _, _ => False
  end.

Fixpoint each (es : list (Z * Z * Z)) (s : St) : res cbor_error St :=
  match es with
  | [] => Ok s
  | (a, b, e) :: es => let? s := fn s (slice d a b) (slice d b e) in each es s
  end.

Lemma entries_loop_each dp k off off1 n ks :
  Pairs c dp k off off1 n ks -> exists es, Chain dp off off1 es ks /\
  forall indefinite count i off' limit f s ai,
    0 <= off <= L -> Ends c indefinite i (Z.of_nat k) count limit off1 off' ->
    indefinite = (ai =? aiIndefinite) -> L - off < Z.of_nat f ->
    entries_loop fn d f ai count i off s = each es s.
Proof using Hd.
  induction 1 as [dp off|dp k off off1 off2 off3 n1 n2 n3 k_ ks Hi1 Hk Hi2 Hp (es & Hes & IH)].
  - exists []; split; [done|]; intros ind count i off' limit [|f] s ai H0 He -> Hf; [lia|]; cbn [entries_loop each].
    unfold Ends in He; destruct (ai =? aiIndefinite); cbn [orb andb negb].
    + destruct (Z.leb_spec L off); [lia|]; destruct He as (_ & _ & -> & _); done.
    + by destruct (Z.ltb_spec i count); [lia|].
  - exists ((off, off1, off2) :: es); split; [cbn; eauto 10|].
    intros ind count i off' limit [|f] s ai H0 He Hind Hf; [lia|]; cbn [entries_loop each].
    destruct (Item_bounds c Hd _ _ _ _ Hi1 ltac:(lia)); destruct (Item_bounds c Hd _ _ _ _ Hi2 ltac:(lia)).
    destruct (Item_head c _ _ _ _ Hi1) as [_ Hb].
    rewrite Nat2Z.inj_succ, <- Z.add_1_l, <- Ends_step in He.
    rewrite (skip_Item c Hd _ _ _ _ _ Hi1) by (unfold blen in *; lia).
    cbn [res_bind]; rewrite (skip_Item c Hd _ _ _ _ _ Hi2) by (unfold blen in *; lia); cbn [res_bind].
    assert ((ai =? aiIndefinite) && (L <=? off) = false) as -> by (destruct (Z.leb_spec L off); [lia|apply andb_false_r]).
    assert ((ai =? aiIndefinite) && (at_ d off =? breakCode) = false) as ->
      by (destruct (Z.eqb_spec (at_ d off) breakCode); [done|apply andb_false_r]).
    assert ((ai =? aiIndefinite) || (i <? count) = true) as ->.
    { unfold Ends in He; destruct (ai =? aiIndefinite); [done|]; subst ind; cbn.
      destruct He as [_ [He _]]; by destruct (Z.ltb_spec i count); [|lia]. }
    cbn [negb]; destruct (fn s (slice d off off1) (slice d off1 off2)) as [s'|]; [|done]; cbn [res_bind].
    eapply IH; [lia|exact He|done|lia].
Qed.
End EntriesOf.

(** a map the walk accepted is handed to the callback entry by entry:
    [Entries] runs it on exactly the encoded keys and values the rules find,
    in order and with nothing between them, all of the body, and the keys
    decode to pairwise distinct values. *)
Theorem Entries_accepted {O St} (m : DecMode O) (d : bytes) (fn : St -> bytes -> bytes -> res cbor_error St) (s : St) :
  bytes_ok d -> mode_ok (dm_mode m) -> (walk m d true).1 = Ok tt -> IsMap d = true ->
  let c := walk_config m d in
  exists first last es ks, Chain c 1 first last es ks /\ Distinct c ks /\
    (last = blen d \/ last + 1 = blen d /\ at_ d last = breakCode) /\
    (exists ai arg, readHead d 0 = Ok (majorMap, ai, arg, first)) /\
    Entries fn d s = each c fn es s.
Proof.
  intros Hd Hm Hw Hmap; apply walk_ok in Hw as (w & Hrun & Hend); specialize (Hend eq_refl).
  destruct (decide (d = [])) as [->|Hne]; [done|].
  destruct (run_walker_sound m d Hd Hm Hne) as (r & w' & Hrun' & Hr); rewrite Hrun in Hrun'.
  injection Hrun' as <- <-; destruct Hr as (n & Hi & _ & _); rewrite Hend in Hi.
  unfold IsMap, Entries in *; destruct (readHead d 0) as [[[[major ai] arg] first]|] eqn:Hh; [|done].
  apply Z.eqb_eq in Hmap as ->; destruct (Item_map_inv _ _ _ _ _ _ _ _ Hi Hh)
    as (k & off1 & n' & ks & Hp & Hks & Hcl).
  destruct (readHead_bounds (walk_config m d) Hd 0 _ _ _ _ ltac:(lia) Hh).
  destruct (entries_loop_each (walk_config m d) Hd fn _ _ _ _ _ _ Hp) as (es & Hes & Hloop).
  exists first, off1, es, ks; split; [done|split; [done|split]].
  - unfold Closes in Hcl; destruct (ai =? aiIndefinite); cbn [data walk_config] in Hcl; [|left; lia].
    right; split; [lia|apply Hcl].
  - split; [eauto|]; cbn [res_bind]; rewrite Z.eqb_refl; cbn [negb].
    apply (Hloop (ai =? aiIndefinite) arg 0 (blen d) (maxPairs (walk_config m d))); [lia| |done|cbn [data walk_config]; unfold blen; lia].
    unfold Closes, Ends in *; cbn [data walk_config] in *; destruct (ai =? aiIndefinite); intuition lia.
Qed.

(** ** Witnesses *)

(** A wrapped mode with fxamacker's limits, that decodes every tagged key to
    its last byte; and the message [{1: "a", 2: [3]}]. *)
Definition example_mode : Mode Z :=
  {| MaxNestedLevels := 0; MaxArrayElements := 0; MaxMapPairs := 0;
     UTF8RejectInvalid := true; MapKeyByteStringAllowed := true;
     other_eqb := Z.eqb; unmarshal_time := fun _ => true;
     unmarshal_map_key := fun b => Some (last b) |}.
Definition example_map : bytes := [162; 1; 97; 97; 2; 129; 3].
Definition example_dec : DecMode Z := WithBudget (Wrap example_mode) 10.

Lemma example_map_ok : bytes_ok example_map.
Proof. solve_bytes. Qed.

Lemma example_mode_ok : mode_ok (dm_mode example_dec).
Proof. by split. Qed.

Lemma walk_exact_witness :
  exists off n, Item (walk_config example_dec example_map) 0 0 off n /\
    n <= walk_limit example_dec /\ (true = true -> off = blen example_map).
Proof.
  apply (proj1 (walk_exact example_dec example_map true example_map_ok example_mode_ok)).
  vm_compute; reflexivity.
Defined.

Lemma walk_terminates_witness : (walk example_dec (161 :: example_map) true).1 <> Err ErrFuel.
Proof.
  apply (walk_terminates example_dec (161 :: example_map) true); [|apply example_mode_ok].
  constructor; [unfold byte_ok; lia|apply example_map_ok].
Defined.

Lemma walk_work_bounded_witness :
  exists items, 0 <= items <= 10 + 1 /\
    (walk example_dec example_map true).2 = Some {| b_total := 10; b_left := 10 - items |} /\
    (is_ok (walk example_dec example_map true).1 = true -> items <= 10).
Proof.
  apply (walk_work_bounded example_dec example_map true {| b_total := 10; b_left := 10 |} eq_refl).
  cbn; lia.
Defined.

(** [Entries] collecting the encoded keys. *)
Lemma Entries_accepted_witness :
  let fn := fun (s : list bytes) k (_ : bytes) => Ok (s ++ [k]) in
  exists first last es ks, Chain (walk_config example_dec example_map) 1 first last es ks /\
    Distinct (walk_config example_dec example_map) ks /\
    (last = blen example_map \/ last + 1 = blen example_map /\ at_ example_map last = breakCode) /\
    (exists ai arg, readHead example_map 0 = Ok (majorMap, ai, arg, first)) /\
    Entries fn example_map [] = each (walk_config example_dec example_map) fn es [].
Proof.
  intros fn; apply (Entries_accepted example_dec example_map fn [] example_map_ok example_mode_ok);
    vm_compute; reflexivity.
Defined.
