(* ===== verification/IndexStore.v ===== *)
(** * The index store: [statuslist/allocator.go], [statuslist/memory_index_store.go]

    [IndexStore], the interface an Allocator keeps its reservations behind,
    as a class of operations on a store's state, with the laws its comment
    promises as a second class over an abstract view: per list, the reserved
    indices and their statuses.  [MemoryIndexStore] implements both. *)
From S2P Require Import Prelude.

Inductive store_error : Type :=
| ErrIndexTaken
| ErrIndexNotReserved
| ErrStore.                       (* any other: the store couldn't answer *)

#[export] Instance store_error_eq_dec : EqDecision store_error.
Proof. solve_decision. Defined.

Abbreviation StatusType := Z (only parsing).
Definition StatusValid : StatusType := 0.
Definition StatusInvalid : StatusType := 1.
Definition StatusSuspended : StatusType := 2.

(** [ReserveEach] is a BatchIndexStore's: [None] where the store isn't one. *)
Class IndexStore (St : Type) : Type := {
  Reserve : string -> Z -> St -> res store_error unit * St;
  Reserved : string -> St -> res store_error Z;
  SetStatus : string -> Z -> StatusType -> St -> res store_error unit * St;
  Status : string -> Z -> St -> res store_error StatusType;
  Statuses : string -> Z -> St -> res store_error (list StatusType);
  Delete : string -> St -> res store_error unit * St;
  ReserveEach : option (string -> list Z -> St -> res store_error (list Z) * St)
}.

(** ** What a store promises *)

Abbreviation reservations := (gmap Z StatusType).

(** Every index of [m] but those of [new] as it was, and those with status
    [StatusValid]. *)
Definition reserve_all (new : list Z) (m : reservations) : reservations :=
  foldr (fun i m => <[i := StatusValid]> m) m new.

Class IndexStoreLaws (St : Type) `{IndexStore St} : Type := {
  view : St -> string -> reservations;
  Reserve_law uri idx s :
    match Reserve uri idx s with
    | (Ok _, s') => view s uri !! idx = None /\
        forall u, view s' u = if decide (u = uri) then <[idx := StatusValid]> (view s u) else view s u
    | (Err ErrIndexTaken, s') => is_Some (view s uri !! idx) /\ forall u, view s' u = view s u
    | (Err _, s') => exists new, new ⊆ [idx] /\ NoDup new /\ (forall i, i ∈ new -> view s uri !! i = None) /\
        forall u, view s' u = if decide (u = uri) then reserve_all new (view s u) else view s u
    end;
  Reserved_law uri s n : Reserved uri s = Ok n -> n = Z.of_nat (size (view s uri));
  SetStatus_law uri idx status s :
    match SetStatus uri idx status s with
    | (Ok _, s') => is_Some (view s uri !! idx) /\
        forall u, view s' u = if decide (u = uri) then <[idx := status]> (view s u) else view s u
    | (Err ErrIndexNotReserved, s') => view s uri !! idx = None /\ forall u, view s' u = view s u
    | (Err _, s') => forall u, view s' u = view s u \/
        u = uri /\ is_Some (view s uri !! idx) /\ view s' u = <[idx := status]> (view s u)
    end;
  Status_law uri idx s :
    match Status uri idx s with
    | Ok v => view s uri !! idx = Some v
    | Err ErrIndexNotReserved => view s uri !! idx = None
    | Err _ => True
    end;
  Statuses_law uri n s l : Statuses uri n s = Ok l -> (forall i, is_Some (view s uri !! i) -> 0 <= i) ->
    blen l = Z.max 0 n /\ (forall i, is_Some (view s uri !! i) -> i < n) /\
    forall i, 0 <= i < n -> l !! Z.to_nat i = Some (default StatusValid (view s uri !! i));
  Delete_law uri s :
    match Delete uri s with
    | (Ok _, s') => forall u, view s' u = if decide (u = uri) then ∅ else view s u
    | (Err _, s') => forall u, view s' u ⊆ view s u /\ (u <> uri -> view s' u = view s u)
    end;
  ReserveEach_law f uri idxs s : ReserveEach = Some f -> NoDup idxs ->
    match f uri idxs s with
    | (Ok got, s') => NoDup got /\ (forall i, i ∈ got <-> i ∈ idxs /\ view s uri !! i = None) /\
        forall u, view s' u = if decide (u = uri) then reserve_all got (view s u) else view s u
    | (Err _, s') => exists new, new ⊆ idxs /\ NoDup new /\ (forall i, i ∈ new -> view s uri !! i = None) /\
        forall u, view s' u = if decide (u = uri) then reserve_all new (view s u) else view s u
    end
}.

Lemma reserve_all_lookup new m i :
  reserve_all new m !! i = if decide (i ∈ new) then Some StatusValid else m !! i.
Proof.
  unfold reserve_all; induction new as [|j new IH]; cbn [foldr].
  - by destruct (decide (i ∈ [])) as [H|]; [inversion H|].
  - destruct (decide (i = j)) as [->|Hne].
    + rewrite lookup_insert_eq; by destruct (decide (j ∈ j :: new)) as [|[]]; [|left].
    + rewrite lookup_insert_ne, IH by done.
      destruct (decide (i ∈ new)), (decide (i ∈ j :: new)) as [H|H]; try done.
      * exfalso; apply H; by right.
      * by apply elem_of_cons in H as [|].
Qed.

Lemma reserve_all_size new m :
  NoDup new -> (forall i, i ∈ new -> m !! i = None) -> size (reserve_all new m) = (length new + size m)%nat.
Proof.
  unfold reserve_all; induction 1 as [|j new Hj _ IH]; intros Hm; cbn [foldr length]; [done|].
  rewrite map_size_insert_None; [rewrite IH; [done|]; intros; apply Hm; by right|].
  change (foldr _ m new) with (reserve_all new m); rewrite reserve_all_lookup.
  destruct (decide (j ∈ new)); [done|]; apply Hm; by left.
Qed.

(** ** MemoryIndexStore *)

(** The lists by uri; a list is made when first reserved in, and a list never
    made reads as an empty one, as Go's nil map does. *)
Record MemoryIndexStore : Type := { lists : gmap string (gmap Z StatusType) }.

Definition mem_list (s : MemoryIndexStore) (uri : string) : gmap Z StatusType := default ∅ (lists s !! uri).
Definition mem_put (uri : string) (l : gmap Z StatusType) (s : MemoryIndexStore) : MemoryIndexStore :=
  {| lists := <[uri := l]> (lists s) |}.

Definition mem_Reserve (uri : string) (idx : Z) (s : MemoryIndexStore) : res store_error unit * MemoryIndexStore :=
  let list := mem_list s uri in
  let s := mem_put uri list s in
  match list !! idx with
  | Some _ => (Err ErrIndexTaken, s)
  | None => (Ok tt, mem_put uri (<[idx := StatusValid]> list) s)
  end.

Fixpoint reserve_loop (idxs : list Z) (m : reservations) (reserved : list Z) : reservations * list Z :=
  match idxs with
  | [] => (m, reserved)
  | idx :: idxs =>
      match m !! idx with
      | Some _ => reserve_loop idxs m reserved
      | None => reserve_loop idxs (<[idx := StatusValid]> m) (reserved ++ [idx])
      end
  end.

Definition mem_ReserveEach (uri : string) (idxs : list Z) (s : MemoryIndexStore)
    : res store_error (list Z) * MemoryIndexStore :=
  let '(list, reserved) := reserve_loop idxs (mem_list s uri) [] in
  (Ok reserved, mem_put uri list s).

Definition mem_Reserved (uri : string) (s : MemoryIndexStore) : res store_error Z :=
  Ok (Z.of_nat (size (mem_list s uri))).

Definition mem_SetStatus (uri : string) (idx : Z) (status : StatusType) (s : MemoryIndexStore)
    : res store_error unit * MemoryIndexStore :=
  match mem_list s uri !! idx with
  | None => (Err ErrIndexNotReserved, s)
  | Some _ => (Ok tt, mem_put uri (<[idx := status]> (mem_list s uri)) s)
  end.

Definition mem_Status (uri : string) (idx : Z) (s : MemoryIndexStore) : res store_error StatusType :=
  match mem_list s uri !! idx with
  | None => Err ErrIndexNotReserved
  | Some status => Ok status
  end.

(** The range over the map, in an order Go leaves open: here the map's own. *)
Definition mem_Statuses (uri : string) (size : Z) (s : MemoryIndexStore) : res store_error (list StatusType) :=
  if size <? 0 then Err ErrStore
  else
    foldr (fun '(idx, status) r =>
      let? statuses := r in
      if size <=? idx then Err ErrStore else Ok (<[Z.to_nat idx := status]> statuses))
      (Ok (replicate (Z.to_nat size) 0)) (map_to_list (mem_list s uri)).

Definition mem_Delete (uri : string) (s : MemoryIndexStore) : res store_error unit * MemoryIndexStore :=
  (Ok tt, {| lists := delete uri (lists s) |}).

#[export] Instance memory_index_store : IndexStore MemoryIndexStore := {
  Reserve := mem_Reserve;
  Reserved := mem_Reserved;
  SetStatus := mem_SetStatus;
  Status := mem_Status;
  Statuses := mem_Statuses;
  Delete := mem_Delete;
  ReserveEach := Some mem_ReserveEach
}.

(** ** The laws hold of it *)

Lemma mem_list_insert uri l (s : MemoryIndexStore) u :
  mem_list (mem_put uri l s) u = if decide (u = uri) then l else mem_list s u.
Proof.
  unfold mem_list, mem_put; cbn [lists]; destruct (decide (u = uri)) as [->|Hne].
  - by rewrite lookup_insert_eq.
  - by rewrite lookup_insert_ne.
Qed.

Lemma reserve_loop_spec idxs : forall m got, NoDup idxs ->
  exists new, reserve_loop idxs m got = (reserve_all (rev new) m, got ++ new) /\
    NoDup new /\ forall i, i ∈ new <-> i ∈ idxs /\ m !! i = None.
Proof.
  induction idxs as [|j idxs IH]; intros m got Hnd; cbn [reserve_loop].
  - exists []; rewrite app_nil_r; split; [done|split; [constructor|]]; intros i; split; [by inversion 1|].
    intros [H _]; inversion H.
  - apply NoDup_cons in Hnd as [Hj Hnd]; destruct (m !! j) eqn:Em.
    + destruct (IH m got Hnd) as (new & -> & Hn & Hin); exists new; split; [done|split; [done|]].
      intros i; rewrite Hin, elem_of_cons; naive_solver congruence.
    + destruct (IH (<[j := StatusValid]> m) (got ++ [j]) Hnd) as (new & -> & Hn & Hin).
      assert (Hjn : j ∉ new) by (rewrite Hin; tauto).
      exists (j :: new); split; [|split].
      * rewrite <- app_assoc; cbn [app rev]; f_equal; unfold reserve_all; by rewrite foldr_app.
      * by constructor.
      * intros i; rewrite !elem_of_cons, Hin; split.
        -- intros [->|[Hi He]]; [tauto|]; destruct (decide (i = j)) as [->|]; [tauto|].
           rewrite lookup_insert_ne in He by done; tauto.
        -- intros [[->|Hi] He]; [tauto|]; right; split; [done|].
           rewrite lookup_insert_ne; [done|]; by intros ->.
Qed.

Lemma reserve_all_rev new m : reserve_all (rev new) m = reserve_all new m.
Proof.
  apply map_eq; intros i; rewrite !reserve_all_lookup.
  assert (Hr : i ∈ rev new <-> i ∈ new) by (rewrite !list_elem_of_In; symmetry; apply in_rev).
  destruct (decide (i ∈ rev new)), (decide (i ∈ new)); tauto.
Qed.

(** The loop of [mem_Statuses] over any list of the reserved indices. *)
Lemma statuses_fold (n : Z) (kvs : list (Z * StatusType)) l :
  0 <= n -> NoDup kvs.*1 -> Forall (fun kv => 0 <= kv.1) kvs ->
  foldr (fun '(idx, status) r =>
      let? statuses := r in
      if n <=? idx then Err ErrStore else Ok (<[Z.to_nat idx := status]> statuses))
    (Ok (replicate (Z.to_nat n) 0)) kvs = Ok l ->
  blen l = n /\ Forall (fun kv => kv.1 < n) kvs /\
  forall i, 0 <= i < n ->
    (forall v, (i, v) ∈ kvs -> l !! Z.to_nat i = Some v) /\
    (i ∉ kvs.*1 -> l !! Z.to_nat i = Some StatusValid).
Proof.
  intros Hn; revert l; induction kvs as [|[j v] kvs IH]; intros l Hnd Hpos; cbn [foldr].
  - intros [= <-]; unfold blen; rewrite length_replicate; split; [lia|split; [constructor|]].
    intros i Hi; split; [by intros v Hv; inversion Hv|]; intros _; apply lookup_replicate; split; [done|lia].
  - inversion_clear Hpos as [|? ? Hj Hpos']; cbn [fst] in Hj; intros H; cbn [fmap list_fmap] in Hnd.
    apply NoDup_cons in Hnd as [Hjn Hnd].
    destruct (foldr _ _ kvs) as [l'|] eqn:E; [|done]; cbn [res_bind] in H.
    destruct (Z.leb_spec n j); [done|]; injection H as <-.
    destruct (IH l' Hnd Hpos' eq_refl) as (Hlen & Hlt & Hat).
    unfold blen in *; rewrite length_insert; split; [done|split; [by constructor|]]; intros i Hi.
    destruct (Hat i Hi) as [Hin Hout]; destruct (decide (i = j)) as [->|Hne].
    + rewrite list_lookup_insert_eq by lia; split; [|set_solver].
      intros w [[= ->]|Hw]%elem_of_cons; [done|]; exfalso; apply Hjn, list_elem_of_fmap; by exists (j, w).
    + rewrite list_lookup_insert_ne by lia; split; [|set_solver].
      intros w [[= -> ->]|Hw]%elem_of_cons; [done|by apply Hin].
Qed.

#[export] Instance memory_index_store_laws : IndexStoreLaws MemoryIndexStore.
Proof.
  refine {| view := mem_list |}.
  - intros uri idx s; cbn; unfold mem_Reserve; destruct (mem_list s uri !! idx) eqn:E.
    + split; [done|]; intros u; rewrite mem_list_insert; by destruct (decide (u = uri)) as [->|].
    + split; [done|]; intros u; rewrite !mem_list_insert; by destruct (decide (u = uri)) as [->|].
  - by intros uri s n [= <-].
  - intros uri idx status s; cbn; unfold mem_SetStatus; destruct (mem_list s uri !! idx) eqn:E; [|done].
    split; [done|]; intros u; rewrite mem_list_insert; by destruct (decide (u = uri)) as [->|].
  - intros uri idx s; cbn; unfold mem_Status; by destruct (mem_list s uri !! idx).
  - intros uri n s l; cbn; unfold mem_Statuses; destruct (Z.ltb_spec n 0); [done|]; intros Hf Hpos.
    assert (Hkeys : forall i v, (i, v) ∈ map_to_list (mem_list s uri) <-> mem_list s uri !! i = Some v)
      by (intros; apply elem_of_map_to_list).
    apply statuses_fold in Hf as (Hlen & Hlt & Hat); [|done|apply NoDup_fst_map_to_list|].
    + split; [lia|split].
      * intros i [v Hv]; rewrite Forall_forall in Hlt; by apply (Hlt (i, v)), Hkeys.
      * intros i Hi; destruct (Hat i Hi) as [Hin Hout]; destruct (mem_list s uri !! i) as [v|] eqn:E.
        -- by apply Hin, Hkeys.
        -- apply Hout; rewrite list_elem_of_fmap; intros ([i' v] & -> & Hv%Hkeys); cbn in E; congruence.
    + rewrite Forall_forall; intros [i v] Hv%Hkeys; apply Hpos; eauto.
  - intros uri s u; cbn; unfold mem_list; cbn [lists]; destruct (decide (u = uri)) as [->|Hne].
    + by rewrite lookup_delete_eq.
    + by rewrite lookup_delete_ne.
  - intros f uri idxs s; cbn; intros [= <-] Hnd; unfold mem_ReserveEach.
    destruct (reserve_loop_spec idxs (mem_list s uri) [] Hnd) as (new & -> & Hn & Hin).
    split; [done|split; [done|]]; intros u; rewrite mem_list_insert, reserve_all_rev.
    by destruct (decide (u = uri)) as [->|].
Defined.
