(* ===== verification/Allocator.v ===== *)
(** * The allocator: [statuslist/allocator.go]

    An Allocator's calls as programs over the operations they make on what
    they share with other calls: its settings and the cache of them its mutex
    guards, its random source, and its store.  A program is a tree: an
    operation, and the program that goes on with its result.  [run] performs a
    call's operations one after the other; [AllocatorSafe] interleaves those of
    any number of calls.  url.Parse is a parameter; the random source is the
    list of bytes it will yield; a float64 is its IEEE 754 specification,
    [spec_float]. *)
From S2P Require Import Prelude StatusBits IndexStore.
From Stdlib Require Import SpecFloat.

Inductive alloc_error : Type :=
| ErrListsFull
| ErrNoFreeIndex                    (* no free index found in the draws *)
| ErrAllocateN (n : Z)
| ErrNoStore
| ErrNoLists
| ErrAllocBits (b : Bits)
| ErrFillLimit
| ErrList (i : nat) (e : list_error)
| ErrDuplicateList (i : nat)
| ErrCounting (e : store_error)
| ErrDrawing
| ErrReserving (e : store_error)
| ErrReported (idx : Z)
| ErrOutside (idx : Z)
| ErrUnknownList
| ErrStatusDoesntFit (status : StatusType)
| ErrSetting (e : store_error)
| ErrReading (e : store_error)
| ErrStatusesLength (n : Z)
| ErrDrawFuel                       (* of the model alone: unreachable *)
with list_error : Type :=
| ErrURI
| ErrSize
| ErrWholeBytes
| ErrListTooLarge
| ErrNoIndex.

(** ** Settings *)

Record AllocatorList : Type := { URI : string; Size : Z }.

#[export] Instance AllocatorList_eq_dec : EqDecision AllocatorList.
Proof. solve_decision. Defined.

(** float64: the significand is 53 bits, the exponent at most 1024. *)
Abbreviation float64 := spec_float.
Definition f64_mul : float64 -> float64 -> float64 := SFmul 53 1024.
Definition f64_of_int (n : Z) : float64 := binary_normalize 53 1024 n 0 false.

(** int(f), f finite: toward zero.  Go leaves it open where [f] is no int. *)
Definition int_of_f64 (f : float64) : Z :=
  match f with
  | S754_finite s m e =>
      let n := if 0 <=? e then Zpos m * 2 ^ e else Zpos m / 2 ^ (- e) in
      if s then - n else n
  | _ => 0
  end.

Definition DefaultFillLimit : float64 := S754_finite false 4503599627370496 (-53). (* 0.5 *)
Definition MaxFillLimit : float64 := S754_finite false 6755399441055744 (-53).     (* 0.75 *)
Definition maxAllocateAttempts : nat := 128.
Definition maxListBytes : Z := maxDecompressedSize.
Definition MaxAllocateN : Z := 1024.
Definition allocateChunk : Z := 64.

Record allocatorCheck : Type := {
  c_lists : list AllocatorList;
  c_bits : Bits;
  c_fillLimit : float64;
  c_full : nat
}.

(** An Allocator's fields; its store and random source, which calls change,
    are apart. *)
Record Allocator : Type := {
  Lists : list AllocatorList;
  HasStore : bool;                  (* Store != nil *)
  a_Bits : Bits;
  FillLimit : float64;
  checked : option allocatorCheck
}.

Definition fillLimit (a : Allocator) : float64 :=
  if SFeqb (FillLimit a) (S754_zero false) then DefaultFillLimit else FillLimit a.
Definition bits (a : Allocator) : Bits := if a_Bits a =? 0 then 1 else a_Bits a.

(** uint64(l.Size). *)
Definition size_ (l : AllocatorList) : Z := wrap64 (Size l).

Definition limit (a : Allocator) (l : AllocatorList) : Z :=
  int_of_f64 (f64_mul (fillLimit a) (f64_of_int (Size l))).

(** What url.Parse finds in a URI. *)
Record url : Type := { Scheme : string; Host : string; User : option string; Fragment : string }.

Section Validate.
Context (parse_url : string -> option url).

Definition absolute_https (uri : string) : bool :=
  match parse_url uri with
  | None => false
  | Some u => String.eqb (Scheme u) "https" && negb (String.eqb (Host u) "") &&
              match User u with None => true | Some _ => false end && String.eqb (Fragment u) ""
  end.

Definition validateList (a : Allocator) (l : AllocatorList) : res list_error unit :=
  if negb (absolute_https (URI l)) then Err ErrURI
  else if Size l <=? 0 then Err ErrSize
  else if negb (Size l mod perByte (bits a) =? 0) then Err ErrWholeBytes
  else if maxListBytes <? Size l / perByte (bits a) then Err ErrListTooLarge
  else if limit a l <? 1 then Err ErrNoIndex
  else Ok tt.

Fixpoint validate_lists (a : Allocator) (i : nat) (ls : list AllocatorList) (seen : gset string)
    : res alloc_error unit :=
  match ls with
  | [] => Ok tt
  | l :: ls =>
      match validateList a l with
      | Err e => Err (ErrList i e)
      | Ok _ =>
          if decide (URI l ∈ seen) then Err (ErrDuplicateList i)
          else validate_lists a (S i) ls ({[URI l]} ∪ seen)
      end
  end.

Definition validate (a : Allocator) : res alloc_error unit :=
  if negb (HasStore a) then Err ErrNoStore
  else if blen (Lists a) =? 0 then Err ErrNoLists
  else if negb (a_Bits a =? 0) && negb (bits_valid (a_Bits a)) then Err (ErrAllocBits (a_Bits a))
  else if match FillLimit a with S754_nan => true | _ => false end ||
          SFltb (FillLimit a) (S754_zero false) || SFltb MaxFillLimit (FillLimit a) then Err ErrFillLimit
  else validate_lists a 0 (Lists a) ∅.

Definition check (a : Allocator) : res alloc_error allocatorCheck * Allocator :=
  let fresh :=
    match validate a with
    | Err e => (Err e, a)
    | Ok _ =>
        let c := {| c_lists := Lists a; c_bits := a_Bits a; c_fillLimit := FillLimit a; c_full := 0 |} in
        (Ok c, {| Lists := Lists a; HasStore := HasStore a; a_Bits := a_Bits a;
                  FillLimit := FillLimit a; checked := Some c |})
    end in
  match checked a with
  | Some c =>
      if HasStore a && (a_Bits a =? c_bits c) && SFeqb (FillLimit a) (c_fillLimit c) &&
         bool_decide (Lists a = c_lists c)
      then (Ok c, a) else fresh
  | None => fresh
  end.

(** [fullLists] and [filled] on the settings last accepted, which a call's
    [c] is while the Allocator's fields aren't changed. *)
Definition fullLists (a : Allocator) : nat := from_option c_full 0%nat (checked a).
Definition filled (i : nat) (a : Allocator) : Allocator :=
  {| Lists := Lists a; HasStore := HasStore a; a_Bits := a_Bits a; FillLimit := FillLimit a;
     checked := match checked a with
       | None => None
       | Some c => Some {| c_lists := c_lists c; c_bits := c_bits c; c_fillLimit := c_fillLimit c;
                           c_full := Nat.max (c_full c) (i + 1) |}
       end |}.
End Validate.

(** ** Random indices *)

(** bits.Len64. *)
Definition len64 (n : Z) : Z := if n =? 0 then 0 else Z.log2 n + 1.

Definition index_mask (size : Z) : Z :=
  let n := len64 (wrap64 (size - 1)) in
  if n <? 64 then wrap64 (Z.shiftl 1 n) - 1 else 2 ^ 64 - 1.

(** The loop of [randomIndex] over the bytes [r] will yield: the index, or
    [None] when the source ends within a draw, and what is left of it. *)
Fixpoint random_loop (fuel : nat) (size : Z) (r : bytes) : option Z * bytes :=
  match fuel with
  | O => (None, r)
  | S fuel =>
      if blen r <? 8 then (None, [])
      else
        let idx := Z.land (be_value (take 8 r)) (index_mask size) in
        if idx <? size then (Some idx, drop 8 r) else random_loop fuel size (drop 8 r)
  end.
Definition randomIndex (r : bytes) (size : Z) : option Z * bytes := random_loop (S (length r)) size r.

(** ** Programs *)

Record StatusListRef : Type := { Idx : Z; ref_URI : string }.

#[export] Instance StatusListRef_eq_dec : EqDecision StatusListRef.
Proof. solve_decision. Defined.

(** The operations of a call on what calls share, each one atomic: under the
    Allocator's mutex, or the store's own. *)
Inductive op : Type -> Type :=
| Check : op (res alloc_error allocatorCheck)
| FullLists : op nat
| Filled (i : nat) : op unit
| Draw (size : Z) : op (option Z)
| StoreReserved (uri : string) : op (res store_error Z)
| StoreReserve (uri : string) (idx : Z) : op (res store_error unit)
| StoreReserveEach (uri : string) (idxs : list Z) : op (res store_error (list Z))
| StoreSetStatus (uri : string) (idx : Z) (status : StatusType) : op (res store_error unit)
| StoreStatus (uri : string) (idx : Z) : op (res store_error StatusType)
| StoreStatuses (uri : string) (size : Z) : op (res store_error (list StatusType)).

Inductive prog (A : Type) : Type :=
| Return (a : A)
| Do {X : Type} (o : op X) (k : X -> prog A).
Arguments Return {A} a.
Arguments Do {A X} o k.

Fixpoint pbind {A B : Type} (p : prog A) (f : A -> prog B) : prog B :=
  match p with
  | Return a => f a
  | Do o k => Do o (fun x => pbind (k x) f)
  end.

Declare Scope prog_scope.
Notation "x <~ o ; k" := (Do o (fun x => k)) (at level 100, o at next level, right associativity) : prog_scope.
Notation "x <- p ;; k" := (pbind p (fun x => k)) (at level 100, p at next level, right associativity) : prog_scope.
Notation "'try' x <- p ;; k" := (pbind p (fun r => match r with Err e => Return (Err e) | Ok x => k end))
  (at level 100, x pattern, p at next level, right associativity) : prog_scope.
Open Scope prog_scope.

Definition ret_ok {A} (a : A) : prog (res alloc_error A) := Return (Ok a).
Definition ret_err {A} (e : alloc_error) : prog (res alloc_error A) := Return (Err e).

(** *** Allocate *)

Fixpoint reserveIn_loop (attempts : nat) (l : AllocatorList) : prog (res alloc_error (StatusListRef * bool)) :=
  match attempts with
  | O => ret_ok ({| Idx := 0; ref_URI := "" |}, false)
  | S attempts =>
      x <~ Draw (size_ l);
      match x with
      | None => ret_err ErrDrawing
      | Some idx =>
          r <~ StoreReserve (URI l) idx;
          match r with
          | Ok _ => ret_ok ({| Idx := idx; ref_URI := URI l |}, true)
          | Err ErrIndexTaken => reserveIn_loop attempts l
          | Err e => ret_err (ErrReserving e)
          end
      end
  end.
Definition reserveIn := reserveIn_loop maxAllocateAttempts.

Section Calls.
(** [a.limit], of the settings of [a], which calls don't change. *)
Context (lim : AllocatorList -> Z).

(** Over the lists from index [i]. *)
Fixpoint allocate_loop (ls : list AllocatorList) (i : nat) (exhausted : bool) : prog (res alloc_error StatusListRef) :=
  match ls with
  | [] => ret_err (if exhausted then ErrNoFreeIndex else ErrListsFull)
  | l :: ls =>
      r <~ StoreReserved (URI l);
      match r with
      | Err e => ret_err (ErrCounting e)
      | Ok reserved =>
          if lim l <=? reserved then
            if negb exhausted then _ <~ Filled i; allocate_loop ls (i + 1) exhausted
            else allocate_loop ls (i + 1) exhausted
          else
            try (ref, ok) <- reserveIn l;;
            if ok : bool then ret_ok ref else allocate_loop ls (i + 1) true
      end
  end.

Definition Allocate : prog (res alloc_error StatusListRef) :=
  r <~ Check;
  match r with
  | Err e => ret_err e
  | Ok c =>
      full <~ FullLists;
      allocate_loop (drop full (c_lists c)) full false
  end.

(** *** AllocateN *)

(** One round's draws: until [need] new indices, or all of the list's. *)
Fixpoint draw_loop (fuel : nat) (l : AllocatorList) (need : Z) (draw : list Z) (tried : gset Z)
    : prog (res alloc_error (list Z * gset Z)) :=
  match fuel with
  | O => ret_err ErrDrawFuel
  | S fuel =>
      if negb (blen draw <? need) then ret_ok (draw, tried)
      else
        x <~ Draw (size_ l);
        match x with
        | None => ret_err ErrDrawing
        | Some idx =>
            let draw' := if decide (idx ∈ tried) then draw else draw ++ [idx] in
            let tried' := {[idx]} ∪ tried in
            if Z.of_nat (size tried') =? Size l then ret_ok (draw', tried')
            else draw_loop fuel l need draw' tried'
        end
  end.

(** What the store reports reserving: each asked for, and once. *)
Fixpoint check_reported (asked : gset Z) (reserved : list Z) : res alloc_error unit :=
  match reserved with
  | [] => Ok tt
  | idx :: reserved =>
      if decide (idx ∈ asked) then check_reported (asked ∖ {[idx]}) reserved
      else Err (ErrReported idx)
  end.

Fixpoint reserve_each_one (l : AllocatorList) (draw got : list Z) : prog (res alloc_error (list Z)) :=
  match draw with
  | [] => ret_ok got
  | idx :: draw =>
      r <~ StoreReserve (URI l) idx;
      match r with
      | Ok _ => reserve_each_one l draw (got ++ [idx])
      | Err ErrIndexTaken => reserve_each_one l draw got
      | Err e => ret_err (ErrReserving e)
      end
  end.

Definition reserve_round (batch : bool) (l : AllocatorList) (draw got : list Z) : prog (res alloc_error (list Z)) :=
  if batch then
    r <~ StoreReserveEach (URI l) draw;
    match r with
    | Err e => ret_err (ErrReserving e)
    | Ok reserved =>
        match check_reported (list_to_set draw) reserved with
        | Err e => ret_err e
        | Ok _ => ret_ok (got ++ reserved)
        end
    end
  else reserve_each_one l draw got.

(** [draws] bounds a round's draws in the model: the random source is
    finite. *)
Fixpoint reserveEachIn_loop (attempts draws : nat) (batch : bool) (l : AllocatorList) (want : Z)
    (got : list Z) (tried : gset Z) : prog (res alloc_error (list Z)) :=
  match attempts with
  | O => ret_ok got
  | S attempts =>
      try (draw, tried) <- draw_loop draws l (want - blen got) [] tried;;
      if blen draw =? 0 then ret_ok got
      else
        try got <- reserve_round batch l draw got;;
        if blen got =? want then ret_ok got
        else reserveEachIn_loop attempts draws batch l want got tried
  end.
Definition reserveEachIn (draws : nat) (batch : bool) (l : AllocatorList) (want : Z) :=
  reserveEachIn_loop maxAllocateAttempts draws batch l want [] ∅.

(** Each round of the loop goes on to the next list or adds to [refs]. *)
Fixpoint allocateN_loop (fuel draws : nat) (batch : bool) (lists : list AllocatorList) (i : nat) (n : Z)
    (refs : list StatusListRef) (exhausted : bool) : prog (res alloc_error (list StatusListRef)) :=
  match fuel with
  | O => ret_err ErrDrawFuel
  | S fuel =>
      let finish :=
        if blen refs =? n then ret_ok refs
        else ret_err (if exhausted then ErrNoFreeIndex else ErrListsFull) in
      match lists !! i with
      | None => finish
      | Some l =>
          if negb (blen refs <? n) then finish
          else
            r <~ StoreReserved (URI l);
            match r with
            | Err e => ret_err (ErrCounting e)
            | Ok reserved =>
                let room := lim l - reserved in
                if room <=? 0 then
                  if negb exhausted then _ <~ Filled i; allocateN_loop fuel draws batch lists (i + 1) n refs exhausted
                  else allocateN_loop fuel draws batch lists (i + 1) n refs exhausted
                else
                  let want := Z.min (Z.min (n - blen refs) room) allocateChunk in
                  try got <- reserveEachIn draws batch l want;;
                  let refs := refs ++ map (fun idx => {| Idx := idx; ref_URI := URI l |}) got in
                  if blen got <? want then allocateN_loop fuel draws batch lists (i + 1) n refs true
                  else if want =? room then allocateN_loop fuel draws batch lists (i + 1) n refs exhausted
                  else allocateN_loop fuel draws batch lists i n refs exhausted
            end
      end
  end.

Definition AllocateN (draws : nat) (batch : bool) (n : Z) : prog (res alloc_error (list StatusListRef)) :=
  if (n <? 1) || (MaxAllocateN <? n) then ret_err (ErrAllocateN n)
  else
    r <~ Check;
    match r with
    | Err e => ret_err e
    | Ok c =>
        full <~ FullLists;
        allocateN_loop (S (length (c_lists c) + Z.to_nat n)) draws batch (c_lists c) full n [] false
    end.

(** *** Statuses *)

Definition find_list (ls : list AllocatorList) (uri : string) : option AllocatorList :=
  List.find (fun l => String.eqb (URI l) uri) ls.

Definition listFor (ref : StatusListRef) : prog (res alloc_error AllocatorList) :=
  r <~ Check;
  match r with
  | Err e => ret_err e
  | Ok c =>
      match find_list (c_lists c) (ref_URI ref) with
      | None => ret_err ErrUnknownList
      | Some l => if size_ l <=? Idx ref then ret_err (ErrOutside (Idx ref)) else ret_ok l
      end
  end.

Definition alloc_SetStatus (b : Bits) (ref : StatusListRef) (status : StatusType) : prog (res alloc_error unit) :=
  try _ <- listFor ref;;
  if bits_mask b <? status then ret_err (ErrStatusDoesntFit status)
  else
    r <~ StoreSetStatus (ref_URI ref) (Idx ref) status;
    match r with
    | Err e => ret_err (ErrSetting e)
    | Ok _ => ret_ok tt
    end.

(** With an error, the status is StatusInvalid. *)
Definition alloc_Status (ref : StatusListRef) : prog (StatusType * res alloc_error unit) :=
  r <- listFor ref;;
  match r with
  | Err e => Return (StatusInvalid, Err e)
  | Ok _ =>
      r <~ StoreStatus (ref_URI ref) (Idx ref);
      match r with
      | Err e => Return (StatusInvalid, Err (ErrReading e))
      | Ok status => Return (status, Ok tt)
      end
  end.

Definition alloc_Statuses (uri : string) : prog (res alloc_error (list StatusType)) :=
  try l <- listFor {| Idx := 0; ref_URI := uri |};;
  r <~ StoreStatuses uri (Size l);
  match r with
  | Err e => ret_err (ErrReading e)
  | Ok statuses =>
      if negb (blen statuses =? Size l) then ret_err (ErrStatusesLength (blen statuses)) else ret_ok statuses
  end.

Record ListFill : Type := { f_URI : string; f_Size : Z; f_Limit : Z; f_Reserved : Z }.
Definition Full (f : ListFill) : bool := f_Limit f <=? f_Reserved f.
Definition Free (f : ListFill) : Z := Z.max (f_Limit f - f_Reserved f) 0.

Fixpoint fill_loop (ls : list AllocatorList) (fill : list ListFill) : prog (res alloc_error (list ListFill)) :=
  match ls with
  | [] => ret_ok fill
  | l :: ls =>
      r <~ StoreReserved (URI l);
      match r with
      | Err e => ret_err (ErrCounting e)
      | Ok reserved =>
          fill_loop ls (fill ++ [{| f_URI := URI l; f_Size := Size l; f_Limit := lim l; f_Reserved := reserved |}])
      end
  end.
Definition Fill : prog (res alloc_error (list ListFill)) :=
  r <~ Check;
  match r with
  | Err e => ret_err e
  | Ok c => fill_loop (c_lists c) []
  end.
End Calls.

(** ** Running *)

Section Exec.
Context {St : Type} `{IndexStore St} (parse_url : string -> option url).

Record shared : Type := { alloc : Allocator; store : St; rnd : bytes }.

Definition set_alloc (s : shared) (a : Allocator) : shared := {| alloc := a; store := store s; rnd := rnd s |}.
Definition set_store (s : shared) (st : St) : shared := {| alloc := alloc s; store := st; rnd := rnd s |}.
Definition set_rnd (s : shared) (r : bytes) : shared := {| alloc := alloc s; store := store s; rnd := r |}.

Definition exec {X : Type} (o : op X) (s : shared) : X * shared :=
  match o with
  | Check => let '(r, a) := check parse_url (alloc s) in (r, set_alloc s a)
  | FullLists => (fullLists (alloc s), s)
  | Filled i => (tt, set_alloc s (filled i (alloc s)))
  | Draw size => let '(x, r) := randomIndex (rnd s) size in (x, set_rnd s r)
  | StoreReserved uri => (Reserved uri (store s), s)
  | StoreReserve uri idx => let '(r, st) := Reserve uri idx (store s) in (r, set_store s st)
  | StoreReserveEach uri idxs =>
      match ReserveEach with
      | None => (Err ErrStore, s)
      | Some f => let '(r, st) := f uri idxs (store s) in (r, set_store s st)
      end
  | StoreSetStatus uri idx status => let '(r, st) := SetStatus uri idx status (store s) in (r, set_store s st)
  | StoreStatus uri idx => (Status uri idx (store s), s)
  | StoreStatuses uri size => (Statuses uri size (store s), s)
  end.

Fixpoint run {A : Type} (p : prog A) (s : shared) : A * shared :=
  match p with
  | Return a => (a, s)
  | Do o k => let '(x, s) := exec o s in run (k x) s
  end.
End Exec.
