(* ===== verification/AllocatorSafe.v ===== *)
(** * Allocators under interleaving

    Any number of an Allocator's calls at once, their operations on the store
    and on what the Allocator's mutex guards interleaved in any order.  A
    protocol over each call's operations - what it has reserved, how many
    more indices its last count lets it reserve, which lists it knows to be
    full - is what every call of the Allocator conforms to, and what the
    interleaving of calls that conform keeps as an invariant.  The theorems:
    no index is handed out twice; a list passes its fill limit by no more than
    64 for each other call; a list once found full is full. *)
From S2P Require Import Prelude StatusBits IndexStore Allocator.
From Stdlib Require Import SpecFloat.

(** ** Random indices *)

Lemma len64_spec n : 0 <= n -> n < 2 ^ len64 n /\ (0 < n -> 2 ^ (len64 n - 1) <= n) /\ 0 <= len64 n.
Proof.
  intros Hn; unfold len64; destruct (Z.eqb_spec n 0) as [->|]; [done|].
  pose proof (Z.log2_spec n ltac:(lia)); pose proof (Z.log2_nonneg n).
  rewrite <- Z.add_1_r in *; rewrite Z.add_simpl_r; lia.
Qed.

Lemma index_mask_ones size : 0 < size < 2 ^ 64 ->
  exists n, 0 <= n <= 64 /\ index_mask size = Z.ones n /\ size <= 2 ^ n /\ (1 < size -> 2 ^ n < 2 * size).
Proof.
  intros Hs; destruct (len64_spec (size - 1)) as (Hlt & Hge & H0); [lia|].
  assert (Hw : wrap64 (size - 1) = size - 1) by (unfold wrap64; rewrite Z.mod_small; lia).
  unfold index_mask; rewrite Hw; set (n := len64 (size - 1)) in *.
  assert (Hn : n <= 64).
  { unfold n, len64; destruct (Z.eqb_spec (size - 1) 0); [lia|].
    assert (Z.log2 (size - 1) < 64) by (apply Z.log2_lt_pow2; lia); lia. }
  exists n; split; [lia|]; split.
  - destruct (Z.ltb_spec n 64).
    + rewrite Z.shiftl_1_l, Z.ones_equiv; unfold wrap64; rewrite Z.mod_small; [lia|].
      split; [lia|by apply Z.pow_lt_mono_r].
    + by replace n with 64 by lia.
  - split; [lia|]; intros Hs1; specialize (Hge ltac:(lia)).
    assert (1 <= n).
    { unfold n, len64 in *; destruct (Z.eqb_spec (size - 1) 0); [lia|pose proof (Z.log2_nonneg (size - 1)); lia]. }
    replace (2 ^ n) with (2 * 2 ^ (n - 1)) by (rewrite <- Z.pow_succ_r by lia; f_equal; lia); lia.
Qed.

Lemma random_loop_bound f size r idx r' : bytes_ok r -> 0 < size < 2 ^ 64 ->
  random_loop f size r = (Some idx, r') -> 0 <= idx < size.
Proof.
  revert r; induction f as [|f IH]; intros r Hr Hs; [done|]; cbn [random_loop].
  destruct (blen r <? 8); [done|]; cbv zeta.
  destruct (Z.ltb_spec (Z.land (be_value (take 8 r)) (index_mask size)) size).
  - intros [= <- <-]; split; [|done]; apply Z.land_nonneg; left.
    apply be_value_bound; by apply Forall_take.
  - apply IH; [by apply Forall_drop|done].
Qed.

Lemma random_loop_source f size r : bytes_ok r -> bytes_ok (random_loop f size r).2.
Proof.
  revert r; induction f as [|f IH]; intros r Hr; cbn [random_loop]; [done|].
  destruct (blen r <? 8); [constructor|]; cbv zeta; go_case; [|apply IH]; by apply Forall_drop.
Qed.

(** ** Calls and their interleaving *)

Inductive call : Type :=
| CallAllocate
| CallAllocateN (n : Z)
| CallSetStatus (ref : StatusListRef) (status : StatusType)
| CallStatus (ref : StatusListRef)
| CallStatuses (uri : string)
| CallFill.

Inductive outcome : Type :=
| GotRef (r : res alloc_error StatusListRef)
| GotRefs (r : res alloc_error (list StatusListRef))
| GotOther.

(** What a call handed out. *)
Definition handed (r : outcome) : list StatusListRef :=
  match r with
  | GotRef (Ok ref) => [ref]
  | GotRefs (Ok refs) => refs
  | _ => []
  end.

Section Interleaving.
Context {St : Type} `{IndexStoreLaws St} (parse_url : string -> option url) (a0 : Allocator).

Definition lim : AllocatorList -> Z := limit a0.
Definition is_batch : bool := match @ReserveEach St _ with Some _ => true | None => false end.

Definition call_prog (draws : nat) (c : call) : prog outcome :=
  match c with
  | CallAllocate => r <- Allocate lim;; Return (GotRef r)
  | CallAllocateN n => r <- AllocateN lim draws is_batch n;; Return (GotRefs r)
  | CallSetStatus ref status => _ <- alloc_SetStatus (bits a0) ref status;; Return GotOther
  | CallStatus ref => _ <- alloc_Status ref;; Return GotOther
  | CallStatuses uri => _ <- alloc_Statuses uri;; Return GotOther
  | CallFill => _ <- Fill lim;; Return GotOther
  end.

(** One operation of one call. *)
Inductive step : list (prog outcome) * shared (St:=St) -> list (prog outcome) * shared -> Prop :=
| step_at i ps s X (o : op X) k x s' :
    ps !! i = Some (Do o k) -> exec parse_url o s = (x, s') -> step (ps, s) (<[i := k x]> ps, s').

(** ** The protocol *)

(** What one call has done so far: the references it reserved; how many more
    indices, of which list, its last count lets it reserve, and how many it has
    seen reserved there; and how many lists, from the first, it knows to be
    full. *)
Record ghost : Type := {
  g_own : list StatusListRef; g_uri : string; g_room : Z; g_seen : Z; g_known : nat
}.

Definition room_of (G : ghost) (u : string) : Z := if decide (g_uri G = u) then g_room G else 0.

Definition ref_of (uri : string) (idx : Z) : StatusListRef := {| Idx := idx; ref_URI := uri |}.

(** The next list it knows to be full, when it has seen its limit reserved. *)
Definition learn (G : ghost) : ghost :=
  match find_list (Lists a0) (g_uri G) with
  | Some l =>
      if bool_decide (Lists a0 !! g_known G = Some l) && (lim l <=? g_seen G)
      then {| g_own := g_own G; g_uri := g_uri G; g_room := g_room G; g_seen := g_seen G; g_known := S (g_known G) |}
      else G
  | None => G
  end.

Definition pay (G : ghost) (own : list StatusListRef) (n : Z) : ghost :=
  {| g_own := own ++ g_own G; g_uri := g_uri G; g_room := g_room G - n;
     g_seen := g_seen G + blen own; g_known := g_known G |}.
Definition spend (G : ghost) (own : list StatusListRef) : ghost := learn (pay G own (blen own)).

Definition valid : Prop := validate parse_url a0 = Ok tt.

(** A list of [a0] by its uri. *)
Definition listed (uri : string) (l : AllocatorList) : Prop := valid /\ l ∈ Lists a0 /\ URI l = uri.

(** What a call may ask for. *)
Definition pre {X : Type} (G : ghost) (o : op X) : Prop :=
  match o with
  | Filled i => (i + 1 <= g_known G)%nat
  | Draw size => 0 < size < 2 ^ 64
  | StoreReserved uri => exists l, listed uri l
  | StoreReserve uri idx => g_uri G = uri /\ 1 <= g_room G /\ exists l, listed uri l /\ 0 <= idx < Size l
  | StoreReserveEach uri idxs => g_uri G = uri /\ blen idxs <= g_room G /\ NoDup idxs /\ is_batch = true /\
      exists l, listed uri l /\ Forall (fun idx => 0 <= idx < Size l) idxs
  | StoreSetStatus uri idx status => 0 <= status <= bits_mask (bits a0)
  | _ => True
  end.

(** What it is told. *)
Definition resp {X : Type} (o : op X) : X -> Prop :=
  match o in op X return X -> Prop with
  | Check => fun r => (forall c, r = Ok c -> valid /\ c_lists c = Lists a0) /\ r <> Err ErrListsFull
  | FullLists => fun n => (n <= length (Lists a0))%nat
  | Draw size => fun r => forall idx, r = Some idx -> 0 <= idx < size
  | StoreReserveEach uri idxs => fun r => forall got, r = Ok got -> NoDup got /\ got ⊆ idxs
  | _ => fun _ => True
  end.

(** What it knows then. *)
Definition after {X : Type} (G : ghost) (o : op X) : X -> ghost :=
  match o in op X return X -> ghost with
  | FullLists => fun n =>
      {| g_own := g_own G; g_uri := g_uri G; g_room := g_room G; g_seen := g_seen G;
         g_known := Nat.max (g_known G) n |}
  | StoreReserved uri => fun r =>
      match r, find_list (Lists a0) uri with
      | Ok n, Some l =>
          learn {| g_own := g_own G; g_uri := uri; g_room := Z.max 0 (Z.min allocateChunk (lim l - n));
                   g_seen := n; g_known := g_known G |}
      | _, _ => G
      end
  | StoreReserve uri idx => fun r =>
      match r with
      | Ok _ => spend G [ref_of uri idx]
      | Err ErrIndexTaken => G
      | Err _ => pay G [] 1
      end
  | StoreReserveEach uri idxs => fun r =>
      match r with
      | Ok got => spend G (map (ref_of uri) got)
      | Err _ => pay G [] (blen idxs)
      end
  | _ => fun _ => G
  end.

Fixpoint conforms {A : Type} (fin : ghost -> A -> Prop) (G : ghost) (p : prog A) : Prop :=
  match p with
  | Return a => fin G a
  | Do o k => pre G o /\ forall x, resp o x -> conforms fin (after G o x) (k x)
  end.

(** A call that ends has handed out what it reserved, each at most once, and
    has seen every list full if it says so. *)
Definition says_full (r : outcome) : bool :=
  match r with
  | GotRef (Err ErrListsFull) | GotRefs (Err ErrListsFull) => true
  | _ => false
  end.
Definition done_ok (G : ghost) (r : outcome) : Prop :=
  handed r ⊆+ g_own G /\ (says_full r = true -> (length (Lists a0) <= g_known G)%nat).

Lemma conforms_mono {A} (fin fin' : ghost -> A -> Prop) p : forall G,
  conforms fin G p -> (forall G a, fin G a -> fin' G a) -> conforms fin' G p.
Proof using.
  induction p as [a|X o k IH]; intros G Hp Hf; cbn in *; [by apply Hf|].
  destruct Hp as [Hpre Hk]; split; [done|]; intros x Hx; by apply IH; [apply Hk|].
Qed.

Lemma conforms_bind {A B} (fin : ghost -> B -> Prop) (f : A -> prog B) p : forall G,
  conforms (fun G a => conforms fin G (f a)) G p -> conforms fin G (pbind p f).
Proof using.
  induction p as [a|X o k IH]; intros G Hp; cbn in *; [done|].
  destruct Hp as [Hpre Hk]; split; [done|]; intros x Hx; by apply IH, Hk.
Qed.

(** ** Validated settings *)

Lemma validate_lists_ok ls : forall i seen, validate_lists parse_url a0 i ls seen = Ok tt ->
  Forall (fun l => validateList parse_url a0 l = Ok tt) ls /\ NoDup (map URI ls) /\
  (forall u, u ∈ seen -> u ∉ map URI ls).
Proof using.
  induction ls as [|l ls IH]; intros i seen; cbn [validate_lists map].
  - intros _; split; [constructor|split; [constructor|]]; intros u _ Hu; inversion Hu.
  - destruct (validateList parse_url a0 l) as [[]|] eqn:E; [|done].
    destruct (decide (URI l ∈ seen)) as [|Hn]; [done|]; intros (Hf & Hnd & Hs)%IH.
    split; [by constructor|split].
    + constructor; [apply Hs; set_solver|done].
    + intros u Hu [->|Hin]%elem_of_cons; [done|]; apply (Hs u); [set_solver|done].
Qed.

Lemma valid_bits : valid -> bits_valid (bits a0) = true.
Proof using.
  unfold valid, validate, bits; intros Hv; go_if_in Hv; [done|]; go_if_in Hv; [done|].
  go_if_in Hv; [done|]; destruct (Z.eqb_spec (a_Bits a0) 0); [done|]; cbn in *; by destruct (bits_valid _).
Qed.

Lemma valid_lists : valid ->
  Forall (fun l => validateList parse_url a0 l = Ok tt) (Lists a0) /\ NoDup (map URI (Lists a0)).
Proof using.
  unfold valid, validate; intros Hv; do 4 (go_if_in Hv; [done|]).
  apply validate_lists_ok in Hv as (? & ? & _); done.
Qed.

Lemma listed_ok uri l : listed uri l ->
  0 < Size l < 2 ^ 64 /\ 1 <= lim l /\ Size l mod perByte (bits a0) = 0.
Proof using.
  intros (Hv & Hl & _); pose proof (bits_cases _ (valid_bits Hv)) as Hb.
  destruct (valid_lists Hv) as [Hf _]; rewrite Forall_forall in Hf; specialize (Hf l Hl).
  unfold validateList, lim in *; do 5 (go_if_in Hf; [done|]); bool_prop.
  split; [split; [lia|]|split; [lia|done]].
  unfold maxListBytes, maxDecompressedSize in *.
  destruct Hb as [Hb|[Hb|[Hb|Hb]]]; rewrite Hb in *;
    [change (perByte 1) with 8 in *|change (perByte 2) with 4 in *|change (perByte 4) with 2 in *
    |change (perByte 8) with 1 in *]; Z.div_mod_to_equations; lia.
Qed.

Lemma find_list_listed uri l : listed uri l -> find_list (Lists a0) uri = Some l.
Proof using.
  intros (Hv & Hl & <-); destruct (valid_lists Hv) as [_ Hnd]; unfold find_list.
  induction (Lists a0) as [|l' ls IH]; cbn in *; [inversion Hl|].
  apply NoDup_cons in Hnd as [Hn Hnd]; destruct (String.eqb_spec (URI l') (URI l)) as [E|E].
  - apply elem_of_cons in Hl as [->|Hl]; [done|].
    exfalso; apply Hn; rewrite E; apply list_elem_of_fmap; by exists l.
  - apply elem_of_cons in Hl as [->|Hl]; [done|by apply IH].
Qed.

Lemma find_list_elem uri l : valid -> find_list (Lists a0) uri = Some l -> listed uri l.
Proof using.
  intros Hv Hf; apply List.find_some in Hf as [Hin He].
  repeat split; [done|by apply list_elem_of_In|by apply String.eqb_eq].
Qed.

(** ** The invariant *)

Definition total_room (u : string) (Gs : list ghost) : Z := foldr (fun G n => room_of G u + n) 0 Gs.

Definition count (s : shared (St:=St)) (u : string) : Z := Z.of_nat (size (view (store s) u)).

(** The lists before the [n]th have reached their limits. *)
Definition first_full (s : shared (St:=St)) (n : nat) : Prop :=
  (n <= length (Lists a0))%nat /\ forall j l, (j < n)%nat -> Lists a0 !! j = Some l -> lim l <= count s (URI l).

Definition settings_ok (s : shared (St:=St)) : Prop :=
  validate parse_url (alloc s) = validate parse_url a0 /\ Lists (alloc s) = Lists a0 /\
  match checked (alloc s) with
  | Some c => valid /\ c_lists c = Lists a0 /\ first_full s (c_full c)
  | None => True
  end.

(** What a store holds of the Allocator's lists: indices within each list,
    statuses that fit. *)
Definition contents_ok (s : shared (St:=St)) : Prop := forall uri l idx status,
  listed uri l -> view (store s) uri !! idx = Some status ->
  0 <= idx < Size l /\ 0 <= status <= bits_mask (bits a0).

(** [base] is what was reserved of each list at the start. *)
Record Inv (base : string -> reservations) (Gs : list ghost) (s : shared (St:=St)) : Prop := {
  inv_settings : settings_ok s;
  inv_contents : contents_ok s;
  inv_rnd : bytes_ok (rnd s);
  inv_own : NoDup (concat (map g_own Gs));
  inv_reserved : forall G ref, G ∈ Gs -> ref ∈ g_own G ->
    is_Some (view (store s) (ref_URI ref) !! Idx ref) /\ base (ref_URI ref) !! Idx ref = None;
  inv_old : forall u j, is_Some (base u !! j) -> is_Some (view (store s) u !! j);
  inv_seen : Forall (fun G => g_seen G <= count s (g_uri G)) Gs;
  inv_room : Forall (fun G => 0 <= g_room G <= allocateChunk) Gs;
  inv_count : forall uri l, listed uri l ->
    count s uri + total_room uri Gs <= Z.max (lim l + allocateChunk * (blen Gs - 1)) (Z.of_nat (size (base uri)));
  inv_known : Forall (fun G => first_full s (g_known G)) Gs
}.

Lemma total_room_cons u G Gs : total_room u (G :: Gs) = room_of G u + total_room u Gs.
Proof using. done. Qed.

Lemma total_room_insert u Gs i G G' :
  Gs !! i = Some G -> total_room u (<[i := G']> Gs) = total_room u Gs - room_of G u + room_of G' u.
Proof using.
  revert i; induction Gs as [|G1 Gs IH]; intros [|i] Hi; try done.
  - injection Hi as ->; change (<[0%nat:=G']> (G :: Gs)) with (G' :: Gs); rewrite !total_room_cons; lia.
  - change (<[S i:=G']> (G1 :: Gs)) with (G1 :: <[i:=G']> Gs); rewrite !total_room_cons, (IH i Hi); lia.
Qed.

Lemma total_room_bound u Gs :
  Forall (fun G => 0 <= g_room G <= allocateChunk) Gs -> 0 <= total_room u Gs <= allocateChunk * blen Gs.
Proof using.
  induction 1 as [|G Gs HG _ IH]; [done|].
  rewrite total_room_cons, blen_cons; unfold room_of; destruct (decide (g_uri G = u)); lia.
Qed.

Lemma room_of_bound G u : 0 <= g_room G <= allocateChunk -> 0 <= room_of G u <= g_room G.
Proof using. unfold room_of; destruct (decide (g_uri G = u)); lia. Qed.

(** The other calls' rooms. *)
Lemma total_room_others u Gs i G :
  Forall (fun G => 0 <= g_room G <= allocateChunk) Gs -> Gs !! i = Some G ->
  total_room u Gs - room_of G u <= allocateChunk * (blen Gs - 1).
Proof using.
  intros Hf; revert i; induction Hf as [|G1 Gs HG Hf IH]; intros [|i] Hi; cbn [total_room foldr lookup] in *; try done.
  - injection Hi as ->; rewrite blen_cons; pose proof (total_room_bound u Gs Hf); unfold total_room in *; lia.
  - rewrite blen_cons; specialize (IH i Hi); pose proof (room_of_bound G1 u HG); unfold total_room in *; lia.
Qed.

Lemma own_insert (Gs : list ghost) i G G' new :
  Gs !! i = Some G -> g_own G' = new ++ g_own G ->
  concat (map g_own (<[i := G']> Gs)) ≡ₚ new ++ concat (map g_own Gs).
Proof using.
  revert i; induction Gs as [|G1 Gs IH]; intros [|i] Hi Hown; try done.
  - injection Hi as ->; cbn; by rewrite Hown, app_assoc.
  - change (<[S i:=G']> (G1 :: Gs)) with (G1 :: <[i:=G']> Gs); cbn [map concat].
    rewrite (IH i Hi Hown), !app_assoc; apply Permutation_app_tail, Permutation_app_comm.
Qed.

Lemma learn_same G :
  g_own (learn G) = g_own G /\ g_uri (learn G) = g_uri G /\ g_room (learn G) = g_room G /\ g_seen (learn G) = g_seen G.
Proof using. unfold learn; destruct (find_list _ _); [|done]; by destruct (_ && _)%bool. Qed.

Lemma learn_ok s G : first_full s (g_known G) -> g_seen G <= count s (g_uri G) -> first_full s (g_known (learn G)).
Proof using.
  intros Hk Hseen; unfold learn; destruct (find_list (Lists a0) (g_uri G)) as [l|] eqn:Ef; [|done].
  destruct (bool_decide _ && _)%bool eqn:E; [|done]; bool_prop; cbn [g_known].
  match goal with H : Lists a0 !! _ = Some l |- _ => rename H into Hl end.
  destruct Hk as [_ Hk]; split; [by apply lookup_lt_Some in Hl|]; intros j l' Hj Hl'.
  destruct (decide (j = g_known G)) as [->|]; [|apply (Hk j); [lia|done]].
  rewrite Hl in Hl'; injection Hl' as <-; apply List.find_some in Ef as [_ ->%String.eqb_eq]; lia.
Qed.

(** Storing [new] indices of [uri] in place of what a call had room for. *)
Lemma Inv_store base Gs s i G st G1 G' uri new own :
  Inv base Gs s -> Gs !! i = Some G ->
  G1 = pay G (map (ref_of uri) own) (g_room G - g_room G1) -> G' = G1 \/ G' = learn G1 ->
  (forall u, view st u = if decide (u = uri) then reserve_all new (view (store s) u) else view (store s) u) ->
  NoDup new -> (forall j, j ∈ new -> view (store s) uri !! j = None) -> NoDup own -> own ⊆ new ->
  g_uri G = uri -> blen new <= g_room G - g_room G1 -> 0 <= g_room G1 ->
  (forall l, listed uri l -> Forall (fun idx => 0 <= idx < Size l) new) ->
  Inv base (<[i := G']> Gs) (set_store s st).
Proof using.
  intros [Hset Hcon Hrnd Hown Hres Hold0 Hseen Hroom Hcount Hknown] Hi HG1 HG' Hview Hnd Hnew Hndo Hsub Huri Hlen Hpos Hrange.
  assert (Hcnt : forall u, count (set_store s st) u = count s u + (if decide (u = uri) then blen new else 0)).
  { intros u; unfold count; cbn [store set_store]; rewrite Hview; destruct (decide (u = uri)) as [->|]; [|lia].
    rewrite reserve_all_size by done; unfold blen; lia. }
  assert (Hmono : forall u, count s u <= count (set_store s st) u).
  { intros u; rewrite Hcnt; pose proof (blen_nonneg new); destruct (decide (u = uri)); lia. }
  assert (Hfull : forall n, first_full s n -> first_full (set_store s st) n).
  { intros n [? Hn]; split; [done|]; intros j l Hj Hl; specialize (Hn j l Hj Hl); specialize (Hmono (URI l)); lia. }
  assert (Hold : forall u j, is_Some (view (store s) u !! j) -> is_Some (view st u !! j)).
  { intros u j Hj; rewrite Hview; destruct (decide (u = uri)) as [->|]; [|done].
    rewrite reserve_all_lookup; by destruct (decide (j ∈ new)). }
  assert (Hi' : G ∈ Gs) by (by eapply list_elem_of_lookup_2).
  assert (Hsame : g_own G' = g_own G1 /\ g_uri G' = g_uri G1 /\ g_room G' = g_room G1 /\ g_seen G' = g_seen G1)
    by (destruct HG' as [->| ->]; [done|apply learn_same]).
  destruct Hsame as (HoG & HuG & HrG & HsG).
  assert (Hown1 : g_own G1 = map (ref_of uri) own ++ g_own G) by (by rewrite HG1).
  assert (Hu1 : g_uri G1 = g_uri G) by (by rewrite HG1).
  assert (Hseen1 : g_seen G1 <= count (set_store s st) uri).
  { rewrite Forall_forall in Hseen; specialize (Hseen G Hi'); rewrite Huri in Hseen.
    assert (blen own <= blen new) by (unfold blen; apply inj_le, submseteq_length, NoDup_submseteq; done).
    rewrite HG1, Hcnt; cbn [g_seen pay]; destruct (decide (uri = uri)); [|done].
    unfold blen in *; rewrite length_map; lia. }
  assert (HroomG : 0 <= g_room G <= allocateChunk) by (rewrite Forall_forall in Hroom; by apply Hroom).
  split.
  - destruct Hset as (? & ? & Hc); split; [done|split; [done|]]; cbn [alloc set_store] in *.
    destruct (checked (alloc s)) as [c|]; [|done]; naive_solver.
  - intros u l idx status Hl; cbn [store set_store]; rewrite Hview.
    destruct (decide (u = uri)) as [->|]; [|by apply Hcon].
    rewrite reserve_all_lookup; destruct (decide (idx ∈ new)) as [Hin|]; [|by apply Hcon].
    intros [= <-]; specialize (Hrange l Hl); rewrite Forall_forall in Hrange; split; [by apply Hrange|].
    destruct Hl as [Hv _]; rewrite (mask_ones _ (valid_bits Hv)), Z.ones_equiv; unfold StatusValid.
    pose proof (Z.pow_pos_nonneg 2 (bits a0)); destruct (bits_cases _ (valid_bits Hv)) as [->|[->|[->| ->]]]; lia.
  - done.
  - rewrite own_insert; [|done|by rewrite HoG].
    apply NoDup_app; split; [|split; [|done]].
    + apply NoDup_fmap_2; [|done]; by intros x y [= ->].
    + intros ref (idx & -> & Hidx)%list_elem_of_fmap Hin; apply list_elem_of_In, in_concat in Hin.
      destruct Hin as (l & Hl%list_elem_of_In & Hin%list_elem_of_In).
      apply list_elem_of_fmap in Hl as (Ga & -> & HGa).
      destruct (Hres Ga _ HGa Hin) as [[v Hv] _]; cbn in Hv; rewrite Hnew in Hv; [done|by apply Hsub].
  - intros Ga ref HGa Hin; cbn [store set_store].
    destruct (elem_of_insert_cases _ _ _ _ HGa) as [->|HGa']; [|by destruct (Hres _ _ HGa' Hin); split; [apply Hold|]].
    rewrite HoG, Hown1 in Hin; apply elem_of_app in Hin as [Hin|Hin]; [|by destruct (Hres _ _ Hi' Hin); split; [apply Hold|]].
    apply list_elem_of_fmap in Hin as (idx & -> & Hidx); cbn [ref_URI Idx ref_of].
    rewrite Hview; destruct (decide (uri = uri)); [|done].
    rewrite reserve_all_lookup; destruct (decide (idx ∈ new)) as [|Hn]; [|exfalso; by apply Hn, Hsub].
    split; [eauto|]; destruct (base uri !! idx) as [v|] eqn:Eb; [|done].
    destruct (Hold0 uri idx ltac:(by rewrite Eb)) as [v' Hv']; by rewrite Hnew in Hv' by (by apply Hsub).
  - intros u j Hj; by apply Hold, Hold0.
  - apply Forall_insert; [|by rewrite HsG, HuG, Hu1, Huri].
    eapply Forall_impl; [exact Hseen|]; cbn; intros G2 ?; specialize (Hmono (g_uri G2)); lia.
  - apply Forall_insert; [done|]; pose proof (blen_nonneg new); lia.
  - intros u l Hl; specialize (Hcount u l Hl); rewrite Hcnt, (total_room_insert _ _ _ _ _ Hi).
    replace (blen (<[i:=G']> Gs)) with (blen Gs) by (unfold blen; by rewrite length_insert).
    unfold room_of; rewrite HuG, Hu1, Huri; destruct (decide (uri = u)) as [->|].
    + destruct (decide (u = u)); [lia|done].
    + destruct (decide (u = uri)); [congruence|lia].
  - assert (HkG : first_full (set_store s st) (g_known G1)).
    { rewrite HG1; cbn [g_known pay]; rewrite Forall_forall in Hknown; by apply Hfull, Hknown. }
    apply Forall_insert.
    + eapply Forall_impl; [exact Hknown|]; intros ? ?; by apply Hfull.
    + destruct HG' as [->| ->]; [done|]; apply learn_ok; [done|by rewrite Hu1, Huri].
Qed.

(** ** Each operation keeps the invariant *)

Definition with_checked (a : Allocator) (c : option allocatorCheck) : Allocator :=
  {| Lists := Lists a; HasStore := HasStore a; a_Bits := a_Bits a; FillLimit := FillLimit a; checked := c |}.

Lemma validate_checked a c : validate parse_url (with_checked a c) = validate parse_url a.
Proof using.
  assert (Hl : forall ls i seen, validate_lists parse_url (with_checked a c) i ls seen = validate_lists parse_url a i ls seen).
  { induction ls as [|l ls IH]; intros i seen; cbn [validate_lists]; [done|].
    change (validateList parse_url (with_checked a c) l) with (validateList parse_url a l).
    destruct (validateList parse_url a l); [|done]; by destruct (decide _). }
  unfold validate; cbn [with_checked Lists HasStore a_Bits FillLimit]; by rewrite Hl.
Qed.

Lemma validate_errors a e : validate parse_url a = Err e -> e <> ErrListsFull /\ e <> ErrDrawFuel.
Proof using.
  unfold validate; do 4 (intros Hv; go_if_in Hv; [by injection Hv as <-|]; revert Hv).
  generalize 0%nat (∅ : gset string); clear; induction (Lists a) as [|l ls IH]; intros i seen; cbn [validate_lists]; [done|].
  destruct (validateList parse_url a l); [|by intros [= <-]]; destruct (decide _); [by intros [= <-]|apply IH].
Qed.

Lemma check_spec s r a : settings_ok s -> check parse_url (alloc s) = (r, a) ->
  settings_ok (set_alloc s a) /\ (forall c, r = Ok c -> valid /\ c_lists c = Lists a0) /\ r <> Err ErrListsFull.
Proof using.
  intros (Hv & Hl & Hc); unfold check.
  assert (Hfresh : forall r a, match validate parse_url (alloc s) with
      | Err e => (Err e, alloc s)
      | Ok _ =>
          let c := {| c_lists := Lists (alloc s); c_bits := a_Bits (alloc s); c_fillLimit := FillLimit (alloc s); c_full := 0 |} in
          (Ok c, with_checked (alloc s) (Some c))
      end = (r, a) -> settings_ok (set_alloc s a) /\
        (forall c, r = Ok c -> valid /\ c_lists c = Lists a0) /\ r <> Err ErrListsFull).
  { intros r' a'; destruct (validate parse_url (alloc s)) as [[]|e] eqn:E.
    - intros [= <- <-]; assert (Hvalid : valid) by (unfold valid; congruence); split.
      + split; [by rewrite <- Hv; cbn [alloc set_alloc]; rewrite validate_checked|].
        split; [done|]; cbn; split; [done|split; [done|]]; split; [lia|]; intros; lia.
      + split; [|done]; intros c [= <-]; split; done.
    - intros [= <- <-]; split; [|split; [done|intros [= ->]; by destruct (validate_errors _ _ E)]]; split; [by rewrite <- E in Hv|]; by split. }
  cbv zeta in Hfresh |- *; destruct (checked (alloc s)) as [c|] eqn:Echk; [|by apply Hfresh].
  destruct (((_ && _) && _) && _)%bool; [|by apply Hfresh].
  intros [= <- <-]; split; [|split; [intros c' [= <-]; split; apply Hc|done]].
  split; [done|split; [done|]]; cbn [alloc set_alloc]; rewrite Echk; apply Hc.
Qed.

Lemma first_full_max s n m : first_full s n -> first_full s m -> first_full s (Nat.max n m).
Proof using.
  intros [? Hn] [? Hm]; split; [lia|]; intros j l Hj Hl.
  destruct (Nat.lt_ge_cases j n); [by apply (Hn j)|apply (Hm j); [lia|done]].
Qed.

Lemma first_full_le s n m : first_full s n -> (m <= n)%nat -> first_full s m.
Proof using. intros [? Hn] Hm; split; [lia|]; intros j l Hj Hl; apply (Hn j); [lia|done]. Qed.

(** A change of the settings' cache or the random source alone. *)
Lemma Inv_alloc base Gs s a r :
  Inv base Gs s -> settings_ok (set_alloc s a) -> bytes_ok r -> Inv base Gs (set_rnd (set_alloc s a) r).
Proof using. intros [] Ha Hr; by split. Qed.

(** A change of what a call knows, but not of what it reserved. *)
Lemma Inv_ghost base Gs s i G G' :
  Inv base Gs s -> Gs !! i = Some G -> g_own G' = g_own G -> 0 <= g_room G' <= allocateChunk ->
  g_seen G' <= count s (g_uri G') -> first_full s (g_known G') ->
  (forall uri l, listed uri l -> room_of G' uri <= room_of G uri \/ count s uri + room_of G' uri <= lim l) ->
  Inv base (<[i := G']> Gs) s.
Proof using.
  intros [Hset Hcon Hrnd Hown Hres Hold0 Hseen Hroom Hcount Hknown] Hi Ho Hr Hs Hk Hc; split; try done.
  - by rewrite (own_insert Gs i G G' []).
  - intros G1 ref HG1 Hin; destruct (elem_of_insert_cases _ _ _ _ HG1) as [->|HG1']; [|by eapply Hres].
    rewrite Ho in Hin; eapply Hres; [by eapply list_elem_of_lookup_2|done].
  - by apply Forall_insert.
  - by apply Forall_insert.
  - intros uri l Hl; specialize (Hcount uri l Hl); rewrite (total_room_insert _ _ _ _ _ Hi).
    replace (blen (<[i:=G']> Gs)) with (blen Gs) by (unfold blen; by rewrite length_insert).
    pose proof (total_room_others uri Gs i G Hroom Hi).
    destruct (Hc uri l Hl); lia.
  - by apply Forall_insert.
Qed.

Lemma fullLists_ok s : settings_ok s -> first_full s (fullLists (alloc s)).
Proof using.
  intros (_ & _ & Hc); unfold fullLists; destruct (checked (alloc s)) as [c|]; cbn [from_option].
  - apply Hc.
  - split; [lia|]; intros; lia.
Qed.

Lemma filled_ok s i : settings_ok s -> first_full s (i + 1) -> settings_ok (set_alloc s (filled i (alloc s))).
Proof using.
  intros (Hv & Hl & Hc) Hf; split; [|split; [done|]]; cbn [alloc set_alloc].
  - rewrite <- Hv; apply validate_checked.
  - unfold filled; cbn [checked]; destruct (checked (alloc s)) as [c|]; [|done].
    cbn [c_lists c_full]; split; [apply Hc|split; [apply Hc|]]; by apply first_full_max; [apply Hc|].
Qed.

(** A change of one reserved index's status. *)
Lemma Inv_status base Gs s st uri idx status :
  Inv base Gs s -> 0 <= status <= bits_mask (bits a0) ->
  (forall u, view st u = view (store s) u \/
    u = uri /\ is_Some (view (store s) uri !! idx) /\ view st u = <[idx := status]> (view (store s) u)) ->
  Inv base Gs (set_store s st).
Proof using.
  intros [Hset Hcon Hrnd Hown Hres Hold0 Hseen Hroom Hcount Hknown] Hst Hview.
  assert (Hsome : forall u j, is_Some (view (store s) u !! j) -> is_Some (view st u !! j)).
  { intros u j Hj; destruct (Hview u) as [->|(-> & _ & ->)]; [done|].
    destruct (decide (j = idx)) as [->|]; [by rewrite lookup_insert_eq|by rewrite lookup_insert_ne]. }
  assert (Hcnt : forall u, count (set_store s st) u = count s u).
  { intros u; unfold count; cbn [store set_store]; destruct (Hview u) as [->|(-> & ? & ->)]; [done|].
    by rewrite map_size_insert_Some. }
  assert (Hfull : forall n, first_full s n -> first_full (set_store s st) n).
  { intros n [? Hn]; split; [done|]; intros j l Hj Hl; rewrite Hcnt; by eapply Hn. }
  split; try done.
  - destruct Hset as (? & ? & Hc); split; [done|split; [done|]]; cbn [alloc set_store] in *.
    destruct (checked (alloc s)) as [c|]; [|done]; naive_solver.
  - intros u l j v Hl; cbn [store set_store]; destruct (Hview u) as [->|(-> & [v0 Hv0] & ->)]; [by apply Hcon|].
    destruct (decide (j = idx)) as [->|Hne].
    + rewrite lookup_insert_eq; intros [= <-]; split; [|done]; by eapply Hcon.
    + rewrite lookup_insert_ne by done; by apply Hcon.
  - intros G ref HG Hin; cbn [store set_store]; destruct (Hres G ref HG Hin); split; [by apply Hsome|done].
  - intros u j Hj; by apply Hsome, Hold0.
  - eapply Forall_impl; [exact Hseen|]; cbn; intros G ?; by rewrite Hcnt.
  - intros u l Hl; rewrite Hcnt; by apply Hcount.
  - eapply Forall_impl; [exact Hknown|]; intros ? ?; by apply Hfull.
Qed.

Lemma pay_same G : pay G [] 0 = G.
Proof using. destruct G; unfold pay; cbn; by rewrite Z.sub_0_r, Z.add_0_r. Qed.

Lemma Inv_reserve base Gs s i G uri idx l r st :
  Inv base Gs s -> Gs !! i = Some G -> listed uri l -> 0 <= idx < Size l -> g_uri G = uri -> 1 <= g_room G ->
  Reserve uri idx (store s) = (r, st) ->
  Inv base (<[i := after G (StoreReserve uri idx) r]> Gs) (set_store s st).
Proof using.
  intros HI Hi Hl Hidx Hu Hroom Hr; pose proof (Reserve_law uri idx (store s)) as Hlaw; rewrite Hr in Hlaw.
  assert (Hin : forall l', listed uri l' -> Forall (fun j => 0 <= j < Size l') [idx]).
  { intros l' Hl'%find_list_listed; rewrite (find_list_listed _ _ Hl) in Hl'; injection Hl' as <-; by apply Forall_singleton. }
  destruct r as [[]|e]; cbn [after].
  - destruct Hlaw as [Hfree Hview].
    eapply (Inv_store base Gs s i G st (pay G [ref_of uri idx] 1) _ uri [idx] [idx]); try done; cbn [pay g_room]; try lia.
    + by rewrite Z.sub_sub_distr, Z.sub_diag.
    + by right.
    + apply NoDup_singleton.
    + intros j ->%list_elem_of_singleton; done.
    + apply NoDup_singleton.
    + rewrite blen_cons, blen_nil; lia.
  - destruct (decide (e = ErrIndexTaken)) as [->|Hne].
    + destruct Hlaw as [_ Hview].
      eapply (Inv_store base Gs s i G st G _ uri [] []); try done; try (by constructor); try lia.
      * by rewrite Z.sub_diag, pay_same.
      * intros u; rewrite Hview; by destruct (decide (u = uri)) as [->|].
      * intros j Hj; inversion Hj.
      * rewrite Z.sub_diag; done.
    + assert (exists new, new ⊆ [idx] /\ NoDup new /\ (forall j, j ∈ new -> view (store s) uri !! j = None) /\
        forall u, view st u = if decide (u = uri) then reserve_all new (view (store s) u) else view (store s) u)
        as (new & Hsub & Hnd & Hfree & Hview) by (by destruct e).
      assert (Hg : match e with ErrIndexTaken => G | _ => pay G [] 1 end = pay G [] 1) by (by destruct e).
      rewrite Hg; eapply (Inv_store base Gs s i G st (pay G [] 1) _ uri new []); try done; cbn [pay g_room]; try lia.
      * by rewrite Z.sub_sub_distr, Z.sub_diag.
      * by left.
      * constructor.
      * by intros j Hj; inversion Hj.
      * assert (Hlen : (length new <= length [idx])%nat) by (by apply submseteq_length, NoDup_submseteq).
        unfold blen; cbn in Hlen; lia.
      * intros l' Hl'; rewrite Forall_forall; intros j Hj; specialize (Hin l' Hl').
        rewrite Forall_forall in Hin; by apply Hin, Hsub.
Qed.

Lemma Inv_reserve_each base Gs s i G uri idxs l f r st :
  Inv base Gs s -> Gs !! i = Some G -> listed uri l -> Forall (fun idx => 0 <= idx < Size l) idxs ->
  NoDup idxs -> g_uri G = uri -> blen idxs <= g_room G ->
  ReserveEach = Some f -> f uri idxs (store s) = (r, st) ->
  (forall got, r = Ok got -> NoDup got /\ got ⊆ idxs) /\
  Inv base (<[i := after G (StoreReserveEach uri idxs) r]> Gs) (set_store s st).
Proof using.
  intros HI Hi Hl Hidx Hnd Hu Hroom Hf Hr.
  pose proof (ReserveEach_law f uri idxs (store s) Hf Hnd) as Hlaw; rewrite Hr in Hlaw.
  assert (Hin : forall new l', new ⊆ idxs -> listed uri l' -> Forall (fun j => 0 <= j < Size l') new).
  { intros new l' Hnew Hl'%find_list_listed; rewrite (find_list_listed _ _ Hl) in Hl'; injection Hl' as <-.
    rewrite Forall_forall in Hidx |- *; intros j Hj; by apply Hidx, Hnew. }
  assert (Hlen : forall new, NoDup new -> new ⊆ idxs -> blen new <= blen idxs).
  { intros new Hn Hsub; assert ((length new <= length idxs)%nat) by (by apply submseteq_length, NoDup_submseteq).
    unfold blen; lia. }
  destruct r as [got|e]; cbn [after].
  - destruct Hlaw as (Hndg & Hgot & Hview).
    assert (Hsub : got ⊆ idxs) by (intros j Hj; by apply Hgot).
    specialize (Hlen got Hndg Hsub); split; [by intros ? [= <-]|].
    assert (Hb : blen (map (ref_of uri) got) = blen got) by (unfold blen; by rewrite length_map).
    eapply (Inv_store base Gs s i G st (pay G (map (ref_of uri) got) (blen got)) _ uri got got);
      try done; cbn [pay g_room]; try lia.
    + by rewrite Z.sub_sub_distr, Z.sub_diag.
    + right; unfold spend; by rewrite Hb.
    + intros j Hj; by apply Hgot.
    + intros l' Hl'; by apply Hin.
  - split; [done|]; destruct Hlaw as (new & Hsub & Hndn & Hfree & Hview); specialize (Hlen new Hndn Hsub).
    eapply (Inv_store base Gs s i G st (pay G [] (blen idxs)) _ uri new []); try done; cbn [pay g_room]; try lia.
    + by rewrite Z.sub_sub_distr, Z.sub_diag.
    + by left.
    + constructor.
    + by intros j Hj; inversion Hj.
    + intros l' Hl'; by apply Hin.
Qed.

Lemma Inv_counted base Gs s i G uri l n :
  Inv base Gs s -> Gs !! i = Some G -> listed uri l -> Reserved uri (store s) = Ok n ->
  Inv base (<[i := after G (StoreReserved uri) (Ok n)]> Gs) s.
Proof using.
  intros HI Hi Hl Hn%Reserved_law; cbn [after]; rewrite (find_list_listed _ _ Hl).
  assert (Hc : n = count s uri) by done; clear Hn.
  assert (Hk : first_full s (g_known G)).
  { pose proof (inv_known _ _ _ HI) as Hk; rewrite Forall_forall in Hk; by eapply Hk, list_elem_of_lookup_2. }
  set (G1 := {| g_own := _; g_uri := _; g_room := _; g_seen := _; g_known := _ |}).
  destruct (learn_same G1) as (HoG & HuG & HrG & HsG).
  eapply Inv_ghost; [done|exact Hi|by rewrite HoG|rewrite HrG; cbn; unfold allocateChunk; lia| | |].
  - rewrite HsG, HuG; cbn; lia.
  - apply learn_ok; [done|cbn; lia].
  - intros uri' l' Hl'; unfold room_of at 1 3; rewrite HuG, HrG; cbn [g_uri g_room G1].
    pose proof (inv_room _ _ _ HI) as Hf; rewrite Forall_forall in Hf.
    pose proof (room_of_bound G uri' (Hf G ltac:(by eapply list_elem_of_lookup_2))).
    destruct (decide (uri = uri')) as [<-|]; [|left; lia].
    apply find_list_listed in Hl', Hl; assert (l' = l) as -> by congruence.
    destruct (Z.le_gt_cases (lim l) n); [left|right]; lia.
Qed.

Lemma Inv_step base Gs s i G X (o : op X) x s' :
  Inv base Gs s -> Gs !! i = Some G -> pre G o -> exec parse_url o s = (x, s') ->
  resp o x /\ Inv base (<[i := after G o x]> Gs) s'.
Proof using.
  intros HI Hi Hpre He; pose proof (inv_settings _ _ _ HI) as Hset; pose proof (inv_rnd _ _ _ HI) as Hrnd.
  assert (Hsame : <[i := G]> Gs = Gs) by (by apply list_insert_id).
  assert (Hroom : 0 <= g_room G <= allocateChunk).
  { pose proof (inv_room _ _ _ HI) as Hf; rewrite Forall_forall in Hf; by eapply Hf, list_elem_of_lookup_2. }
  assert (Hk : first_full s (g_known G)).
  { pose proof (inv_known _ _ _ HI) as Hk; rewrite Forall_forall in Hk; by eapply Hk, list_elem_of_lookup_2. }
  destruct o as [| |j|n|uri|uri idx|uri idxs|uri idx status|uri idx|uri n]; cbn [exec pre] in *.
  - destruct (check parse_url (alloc s)) as [r a] eqn:E; injection He as <- <-.
    destruct (check_spec s r a Hset E) as [Hs Hr]; split; [done|]; cbn [after]; rewrite Hsame.
    by apply (Inv_alloc base Gs s a (rnd s)).
  - injection He as <- <-; pose proof (fullLists_ok s Hset) as Hf; split; [apply Hf|].
    eapply Inv_ghost; try done; cbn [after g_known g_room g_seen g_uri].
    + pose proof (inv_seen _ _ _ HI) as Hsn; rewrite Forall_forall in Hsn; by eapply Hsn, list_elem_of_lookup_2.
    + by apply first_full_max.
    + intros uri l _; left; done.
  - injection He as <- <-; split; [done|]; cbn [after]; rewrite Hsame.
    apply (Inv_alloc base Gs s _ (rnd s)); [done| |done].
    apply filled_ok; [done|by eapply first_full_le].
  - destruct (randomIndex (rnd s) n) as [r b] eqn:E; injection He as <- <-; unfold randomIndex in E.
    pose proof (random_loop_source (S (length (rnd s))) n (rnd s) Hrnd) as Hb; rewrite E in Hb; split.
    + intros idx ->; exact (random_loop_bound _ _ _ _ _ Hrnd Hpre E).
    + cbn [after]; rewrite Hsame; by apply (Inv_alloc base Gs s (alloc s) b).
  - injection He as <- <-; split; [done|]; destruct Hpre as [l Hl].
    destruct (Reserved uri (store s)) as [n|e] eqn:E; [by eapply Inv_counted|].
    cbn [after]; by rewrite Hsame.
  - destruct (Reserve uri idx (store s)) as [r st] eqn:E; injection He as <- <-; split; [done|].
    destruct Hpre as (Hu & Hr & l & Hl & Hidx); by eapply Inv_reserve.
  - destruct Hpre as (Hu & Hr & Hnd & Hb & l & Hl & Hidx); unfold is_batch in Hb.
    destruct ReserveEach as [f|] eqn:Ef; [|done].
    destruct (f uri idxs (store s)) as [r st] eqn:E; injection He as <- <-.
    by eapply Inv_reserve_each.
  - destruct (SetStatus uri idx status (store s)) as [r st] eqn:E; injection He as <- <-; split; [done|].
    cbn [after]; rewrite Hsame; eapply (Inv_status _ _ _ _ uri idx status); [done|done|].
    pose proof (SetStatus_law uri idx status (store s)) as Hlaw; rewrite E in Hlaw; intros u.
    destruct r as [[]|[]]; try (by destruct (Hlaw u) as [|(? & ? & ?)]; [left|right]); try (left; apply Hlaw).
    destruct Hlaw as [Hsome Hview]; rewrite Hview; destruct (decide (u = uri)) as [->|]; [right|left]; done.
  - injection He as <- <-; split; [done|]; cbn [after]; by rewrite Hsame.
  - injection He as <- <-; split; [done|]; cbn [after]; by rewrite Hsame.
Qed.

(** ** Interleavings of calls that conform *)

Definition Conforming (base : string -> reservations) (ps : list (prog outcome)) (s : shared (St:=St)) (Gs : list ghost) : Prop :=
  Inv base Gs s /\ Forall2 (conforms done_ok) Gs ps.

Lemma step_conforming base c c' Gs :
  step c c' -> Conforming base c.1 c.2 Gs -> exists Gs', Conforming base c'.1 c'.2 Gs'.
Proof using.
  intros [i ps s X o k x s' Hi He] [HI Hc]; cbn [fst snd] in *.
  destruct (Forall2_lookup_r _ _ _ _ _ Hc Hi) as (G & HG & Hpre & Hk).
  destruct (Inv_step base Gs s i G X o x s' HI HG Hpre He) as [Hr HI'].
  exists (<[i := after G o x]> Gs); split; [done|].
  apply Forall2_insert; [done|by apply Hk].
Qed.

Lemma steps_conforming base c c' Gs :
  rtc step c c' -> Conforming base c.1 c.2 Gs -> exists Gs', Conforming base c'.1 c'.2 Gs'.
Proof using.
  intros Hs; revert Gs; induction Hs as [c|c c1 c' H1 _ IH]; intros Gs Hc; [eauto|].
  destruct (step_conforming base _ _ _ H1 Hc) as [Gs1 Hc1]; by apply (IH Gs1).
Qed.

Lemma steps_length c c' : rtc step c c' -> length c'.1 = length c.1.
Proof using.
  induction 1 as [|c c1 c' [] _ IH]; [done|]; cbn [fst] in *; by rewrite IH, length_insert.
Qed.
End Interleaving.
