(* ===== verification/AllocatorCalls.v ===== *)
(** * The allocator's calls

    Every call of an Allocator conforms to the protocol of [AllocatorSafe], so
    what that proves of interleavings holds of them: the theorems at the end
    are about any number of calls at once, and so about one at a time. *)
From S2P Require Import Prelude StatusBits IndexStore Allocator AllocatorSafe.

Section Calls.
Context {St : Type} `{IndexStoreLaws St} (parse_url : string -> option url) (a0 : Allocator).

Local Abbreviation lim := (lim a0).
Local Abbreviation listed := (listed parse_url a0).
Local Abbreviation conforms := (conforms (St:=St) parse_url a0).

(** ** Reserving *)

(** A call that has seen list [i] reserved to its limit knows it. *)
Definition told (l : AllocatorList) (i : nat) (G : ghost) : Prop :=
  Lists a0 !! i = Some l -> (i <= g_known G)%nat -> lim l <= g_seen G -> (i < g_known G)%nat.

(** What reserving a part of [want] indices of list [i] leaves: [X] beside what
    was got among what the call owns, and room for the rest. *)
Definition holding (X : list StatusListRef) (l : AllocatorList) (i : nat) (want seen : Z) (known : nat)
    (G : ghost) (got : list Z) : Prop :=
  X ++ map (ref_of (URI l)) got ⊆+ g_own G /\ g_uri G = URI l /\ want - blen got <= g_room G /\
  (known <= g_known G)%nat /\ seen + blen got <= g_seen G /\ told l i G.

Lemma told_learn l i G : listed (URI l) l -> g_uri G = URI l -> told l i (learn a0 G).
Proof using.
  intros Hl Hu Hi; destruct (learn_same a0 G) as (_ & _ & _ & ->).
  intros Hk Hs; revert Hk; unfold learn; rewrite Hu, (find_list_listed _ _ _ _ Hl).
  destruct (bool_decide _ && _)%bool eqn:E; cbn [g_known]; intros Hk.
  { apply andb_true_iff in E as [E%bool_decide_eq_true _].
    assert (g_known G = i) as ->; [|lia].
    destruct Hl as [Hv _]; destruct (valid_lists _ _ Hv) as [_ Hnd]; apply NoDup_fmap_1 in Hnd.
    by eapply NoDup_lookup. }
  destruct (decide (g_known G = i)) as [<-|]; [exfalso|lia].
  apply andb_false_iff in E as [E|E]; [by apply bool_decide_eq_false in E|lia].
Qed.

Lemma spend_facts G own :
  g_own (spend a0 G own) = own ++ g_own G /\ g_uri (spend a0 G own) = g_uri G /\
  g_room (spend a0 G own) = g_room G - blen own /\ (g_known G <= g_known (spend a0 G own))%nat /\
  g_seen (spend a0 G own) = g_seen G + blen own.
Proof using.
  unfold spend, learn; cbn; destruct (find_list _ _) as [l|]; [|done].
  destruct (_ && _)%bool; cbn; repeat split; lia.
Qed.

Lemma holding_spend X l i want seen known G got new : listed (URI l) l ->
  holding X l i want seen known G got ->
  holding X l i want seen known (spend a0 G (map (ref_of (URI l)) new)) (got ++ new).
Proof using.
  intros Hl (Hown & Hu & Hr & Hk & Hs & Ht).
  destruct (spend_facts G (map (ref_of (URI l)) new)) as (Ho & Hu' & Hr' & Hk' & Hs').
  assert (Hlen : blen (map (ref_of (URI l)) new) = blen new) by (unfold blen; by rewrite length_map).
  rewrite Hlen in *; unfold holding; rewrite blen_app; split; [|split; [congruence|split; [lia|split; [lia|split; [lia|]]]]].
  - rewrite Ho, map_app, app_assoc; etrans; [by apply submseteq_app; [exact Hown|]|].
    by rewrite Permutation_app_comm.
  - by apply told_learn.
Qed.

Lemma size_ok uri l : listed uri l -> size_ l = Size l /\ 0 < Size l < 2 ^ 64.
Proof using.
  intros Hl; destruct (listed_ok _ _ _ _ Hl) as (Hs & _); unfold size_, wrap64; by rewrite Z.mod_small by lia.
Qed.

Lemma reserveIn_conforms l n : listed (URI l) l -> forall G,
  g_uri G = URI l -> 1 <= g_room G ->
  conforms (fun G' r => (g_known G <= g_known G')%nat /\
      match r with
      | Ok (ref, true) => [ref] ++ g_own G ⊆+ g_own G'
      | Ok (_, false) => g_own G ⊆+ g_own G'
      | Err e => e <> ErrListsFull
      end) G (reserveIn_loop n l).
Proof using.
  intros Hl; destruct (size_ok _ _ Hl) as [Hsz Hpos].
  induction n as [|n IH]; intros G Hu Hr; cbn [reserveIn_loop conforms]; [done|].
  split; [by rewrite Hsz|]; intros [idx|] Hx; [|done]; cbn [AllocatorSafe.conforms after].
  specialize (Hx idx eq_refl); rewrite Hsz in Hx.
  split; [split; [done|split; [done|by exists l]]|]; intros [[]|e] _.
  - destruct (spend_facts G [ref_of (URI l) idx]) as (Ho & _ & _ & Hk & _); cbn; rewrite Ho; done.
  - destruct e; cbn [AllocatorSafe.conforms after ret_err]; [by apply IH|done|done].
Qed.

Lemma reserve_each_one_conforms X l i want seen known draw : listed (URI l) l ->
  Forall (fun idx => 0 <= idx < Size l) draw -> forall G got,
  holding X l i want seen known G got -> blen draw <= g_room G -> blen draw <= want - blen got ->
  conforms (fun G' r =>
      match r with
      | Ok got' => holding X l i want seen known G' got' /\ blen got' <= blen got + blen draw
      | Err e => e <> ErrListsFull
      end) G (reserve_each_one l draw got).
Proof using.
  intros Hl; induction draw as [|idx draw IH]; intros Hf G got Hh Hr Hw; cbn [reserve_each_one].
  - cbn; split; [done|rewrite blen_nil; lia].
  - inversion_clear Hf as [|? ? Hidx Hf']; rewrite blen_cons in *; pose proof (blen_nonneg draw).
    split; [split; [apply Hh|split; [lia|by exists l]]|]; intros [[]|e] _; cbn [after].
    + pose proof (holding_spend _ _ _ _ _ _ _ _ [idx] Hl Hh) as Hh'; cbn [map] in Hh'.
      destruct (spend_facts G [ref_of (URI l) idx]) as (_ & _ & Hr' & _).
      rewrite blen_cons, blen_nil in Hr'.
      eapply conforms_mono; [apply IH; [done|exact Hh'|lia|rewrite blen_app, blen_cons, blen_nil; lia]|].
      cbn; intros G' [got'|e] Hg; [|done]; split; [apply Hg|]; destruct Hg as [_ Hg].
      rewrite blen_app, blen_cons, blen_nil in Hg; lia.
    + destruct e; cbn [after]; [|done..].
      eapply conforms_mono; [apply IH; [done|exact Hh|lia|lia]|].
      cbn; intros G' [got'|e] Hg; [|done]; split; [apply Hg|lia].
Qed.

Lemma draw_loop_conforms f l need : listed (URI l) l -> forall G draw tried,
  NoDup draw -> Forall (fun idx => 0 <= idx < Size l) draw -> (forall i, i ∈ draw -> i ∈ tried) ->
  blen draw <= need ->
  conforms (fun G' r => G' = G /\
      match r with
      | Ok (draw', _) => NoDup draw' /\ Forall (fun idx => 0 <= idx < Size l) draw' /\ blen draw' <= need
      | Err e => e <> ErrListsFull
      end) G (draw_loop f l need draw tried).
Proof using.
  intros Hl; destruct (size_ok _ _ Hl) as [Hsz Hpos].
  induction f as [|f IH]; intros G draw tried Hnd Hf Ht Hlen; cbn [draw_loop]; [done|].
  destruct (Z.ltb_spec (blen draw) need); cbn [negb]; [|done].
  split; [by rewrite Hsz|]; intros [idx|] Hx; [|done]; cbn [after].
  specialize (Hx idx eq_refl); rewrite Hsz in Hx; cbv zeta.
  set (draw' := if decide (idx ∈ tried) then draw else draw ++ [idx]).
  assert (Hd : NoDup draw' /\ Forall (fun idx => 0 <= idx < Size l) draw' /\
    (forall i, i ∈ draw' -> i ∈ {[idx]} ∪ tried) /\ blen draw' <= need).
  { unfold draw'; destruct (decide (idx ∈ tried)) as [|Hn]; [set_solver|].
    split; [|split; [|split]].
    - apply NoDup_app; split; [done|split; [|apply NoDup_singleton]]; intros i Hi ->%list_elem_of_singleton.
      by apply Hn, Ht.
    - apply Forall_app; split; [done|by apply Forall_singleton].
    - intros i [Hi|Hi]%elem_of_app; [|apply list_elem_of_singleton in Hi as ->]; set_solver.
    - rewrite blen_app, blen_cons, blen_nil; lia. }
  destruct Hd as (? & ? & ? & ?); destruct (Z.of_nat _ =? Size l); [done|by apply IH].
Qed.

Lemma reserve_round_conforms X l i want seen known draw G got : listed (URI l) l ->
  Forall (fun idx => 0 <= idx < Size l) draw -> NoDup draw ->
  holding X l i want seen known G got -> blen draw <= want - blen got ->
  conforms (fun G' r =>
      match r with
      | Ok got' => holding X l i want seen known G' got' /\ blen got' <= want
      | Err e => e <> ErrListsFull
      end) G (reserve_round (is_batch (St:=St)) l draw got).
Proof using.
  intros Hl Hf Hnd Hh Hlen; unfold reserve_round; destruct is_batch eqn:Hb.
  - split.
    + split; [apply Hh|split; [|split; [done|split; [done|by exists l]]]]; destruct Hh as (_ & _ & Hr & _); lia.
    + intros [new|e] Hx; [|done]; destruct (Hx new eq_refl) as [Hn Hsub].
      destruct (check_reported _ _) as [[]|e] eqn:E; cbn [AllocatorSafe.conforms ret_ok ret_err after].
      * split; [by apply holding_spend|]; rewrite blen_app.
        assert (blen new <= blen draw) by (unfold blen; apply inj_le, submseteq_length, NoDup_submseteq; done); lia.
      * revert E; generalize (list_to_set draw : gset Z); clear; intros asked.
        revert asked; induction new as [|i new IH]; intros asked; cbn [check_reported]; [done|].
        destruct (decide (i ∈ asked)); [apply IH|by intros [= <-]].
  - eapply conforms_mono; [eapply reserve_each_one_conforms; try done; destruct Hh as (_ & _ & ? & _); lia|].
    cbn; intros G' [got'|e] Hg; [|done]; split; [apply Hg|]; destruct Hg; lia.
Qed.

Lemma reserveEachIn_conforms X l i want seen known draws n : listed (URI l) l -> forall G got tried,
  holding X l i want seen known G got -> blen got <= want ->
  conforms (fun G' r =>
      match r with
      | Ok got' => holding X l i want seen known G' got' /\ blen got' <= want
      | Err e => e <> ErrListsFull
      end) G (reserveEachIn_loop n draws (is_batch (St:=St)) l want got tried).
Proof using.
  intros Hl; induction n as [|n IH]; intros G got tried Hh Hlen; cbn [reserveEachIn_loop]; [done|].
  apply conforms_bind; eapply conforms_mono.
  { apply (draw_loop_conforms draws l (want - blen got) Hl G []); [constructor|constructor| |rewrite blen_nil; lia].
    intros j Hj; inversion Hj. }
  cbn; intros G1 [[draw tried']|e] [-> Hd]; [|done]; destruct Hd as (Hnd & Hf & Hb).
  destruct (blen draw =? 0); [done|].
  apply conforms_bind; eapply conforms_mono; [by eapply reserve_round_conforms|].
  cbn; intros G2 [got'|e] Hg; [|done]; destruct Hg as [Hh' Hb'].
  destruct (blen got' =? want); [done|by apply IH].
Qed.

(** ** The lists in turn *)

Lemma listed_at i l : valid parse_url a0 -> Lists a0 !! i = Some l -> listed (URI l) l.
Proof using. intros Hv Hl; repeat split; [done|by eapply list_elem_of_lookup_2]. Qed.

Lemma counted_facts G i l n : valid parse_url a0 -> Lists a0 !! i = Some l ->
  let G' := after a0 G (StoreReserved (URI l)) (Ok n) in
  g_own G' = g_own G /\ g_uri G' = URI l /\ g_room G' = Z.max 0 (Z.min allocateChunk (lim l - n)) /\
  g_seen G' = n /\ (g_known G <= g_known G')%nat /\ told l i G'.
Proof using.
  intros Hv Hl; pose proof (listed_at i l Hv Hl) as Hlist; cbn [after]; rewrite (find_list_listed _ _ _ _ Hlist).
  set (G1 := {| g_own := _; g_uri := _; g_room := _; g_seen := _; g_known := _ |}).
  destruct (learn_same a0 G1) as (-> & -> & -> & ->); repeat split.
  - unfold learn; destruct (find_list _ _); [|done]; destruct (_ && _)%bool; cbn; lia.
  - by apply told_learn.
Qed.

Lemma drop_cons i l (ls : list AllocatorList) :
  l :: ls = drop i (Lists a0) -> Lists a0 !! i = Some l /\ ls = drop (S i) (Lists a0).
Proof using.
  intros Hd; assert (Hi : Lists a0 !! i = Some l).
  { rewrite <- (Nat.add_0_r i), <- lookup_drop, <- Hd; done. }
  split; [done|]; rewrite (drop_S _ _ _ Hi) in Hd; by injection Hd.
Qed.

Lemma allocate_loop_conforms ls : valid parse_url a0 -> forall i exhausted G,
  ls = drop i (Lists a0) -> (exhausted = false -> (i <= g_known G)%nat) ->
  conforms (fun G' r =>
      match r with
      | Ok ref => [ref] ⊆+ g_own G'
      | Err e => e = ErrListsFull -> (length (Lists a0) <= g_known G')%nat
      end) G (allocate_loop lim ls i exhausted).
Proof using.
  intros Hv; induction ls as [|l ls IH]; intros i ex G Hls Hk; cbn [allocate_loop].
  - cbn; destruct ex; [done|]; intros _; specialize (Hk eq_refl).
    assert (length (drop i (Lists a0)) = 0%nat) as Hlen by (by rewrite <- Hls); rewrite length_drop in Hlen; lia.
  - destruct (drop_cons _ _ _ Hls) as [Hi Hls']; pose proof (listed_at i l Hv Hi) as Hl.
    split; [by exists l|]; intros [n|e] _; [|done].
    destruct (counted_facts G i l n Hv Hi) as (Ho & Hu & Hr & Hs & Hkn & Ht).
    set (G1 := after a0 G (StoreReserved (URI l)) (Ok n)) in *; clearbody G1.
    destruct (Z.leb_spec (lim l) n).
    + assert (Hk1 : ex = false -> (i + 1 <= g_known G1)%nat).
      { intros ->; specialize (Hk eq_refl); specialize (Ht Hi ltac:(lia) ltac:(lia)); lia. }
      destruct ex; cbn [negb]; [by apply IH; [rewrite Nat.add_1_r|]|].
      split; [by apply Hk1|]; intros [] _; apply IH; [by rewrite Nat.add_1_r|done].
    + apply conforms_bind; eapply conforms_mono.
      { apply (reserveIn_conforms l maxAllocateAttempts Hl); [done|rewrite Hr; unfold allocateChunk; lia]. }
      cbn; intros G2 [[ref []]|e] [Hk2 Hg]; [|by apply IH; [rewrite Nat.add_1_r|]|by intros He; destruct (Hg He)].
      cbn; etrans; [|exact Hg]; apply submseteq_skip, submseteq_nil_l.
Qed.

Lemma allocateN_loop_conforms f draws n : valid parse_url a0 -> forall i refs exhausted G,
  refs ⊆+ g_own G -> blen refs <= n -> (exhausted = false -> (i <= g_known G)%nat) ->
  conforms (fun G' r =>
      match r with
      | Ok refs => refs ⊆+ g_own G' /\ blen refs = n
      | Err e => e = ErrListsFull -> (length (Lists a0) <= g_known G')%nat
      end) G (allocateN_loop lim f draws (is_batch (St:=St)) (Lists a0) i n refs exhausted).
Proof using.
  intros Hv; induction f as [|f IH]; intros i refs ex G Hrefs Hlen Hk; cbn [allocateN_loop]; [done|].
  destruct (Lists a0 !! i) as [l|] eqn:Hi; cycle 1.
  { apply lookup_ge_None in Hi; destruct (Z.eqb_spec (blen refs) n); [done|].
    destruct ex; [done|]; cbn; intros _; specialize (Hk eq_refl); lia. }
  destruct (Z.ltb_spec (blen refs) n); cbn [negb]; cycle 1.
  { destruct (Z.eqb_spec (blen refs) n); [done|lia]. }
  pose proof (listed_at i l Hv Hi) as Hl; split; [by exists l|]; intros [r|e] _; [|done].
  destruct (counted_facts G i l r Hv Hi) as (Ho & Hu & Hr & Hs & Hkn & Ht).
  set (G1 := after a0 G (StoreReserved (URI l)) (Ok r)) in *; clearbody G1; cbv zeta.
  destruct (Z.leb_spec (lim l - r) 0).
  - assert (Hk1 : ex = false -> (i + 1 <= g_known G1)%nat).
    { intros ->; specialize (Hk eq_refl); specialize (Ht Hi ltac:(lia) ltac:(lia)); lia. }
    destruct ex; cbn [negb]; [by apply IH; rewrite ?Ho|].
    split; [by apply Hk1|]; intros [] _; cbn [after]; by apply IH; rewrite ?Ho.
  - set (want := Z.min (Z.min (n - blen refs) (lim l - r)) allocateChunk).
    assert (Hw : want - blen (@nil Z) <= g_room G1) by (rewrite Hr, blen_nil; lia).
    assert (Hw0 : 0 < want) by (unfold want, allocateChunk; lia).
    apply conforms_bind; eapply conforms_mono.
    { apply (reserveEachIn_conforms refs l i want r (g_known G1) draws maxAllocateAttempts Hl G1 [] ∅).
      - repeat split; [by cbn [map]; rewrite app_nil_r, Ho|done|done|done|rewrite blen_nil; lia|done].
      - rewrite blen_nil; lia. }
    cbn; intros G2 [got|e] Hg; [|intros ->; done].
    destruct Hg as [(Hown & Hu2 & Hr2 & Hk2 & Hs2 & Ht2) Hgot].
    assert (Hlen' : blen (refs ++ map (ref_of (URI l)) got) <= n).
    { rewrite blen_app; unfold blen at 2; rewrite length_map; change (Z.of_nat (length got)) with (blen got); lia. }
    change (fun idx => {| Idx := idx; ref_URI := URI l |}) with (ref_of (URI l)).
    destruct (Z.ltb_spec (blen got) want); [by apply IH|].
    destruct (Z.eqb_spec want (lim l - r)); apply IH; try done; intros Hex; specialize (Hk Hex); try lia.
    specialize (Ht2 Hi ltac:(lia) ltac:(lia)); lia.
Qed.

(** ** Every call conforms *)

Definition ghost0 : ghost := {| g_own := []; g_uri := ""; g_room := 0; g_seen := 0; g_known := 0 |}.

Lemma listFor_conforms ref G : conforms (fun _ _ => True) G (listFor ref).
Proof using.
  split; [done|]; intros [c|e] [Hc _]; [|done]; destruct (Hc c eq_refl) as [_ ->].
  destruct (find_list _ _); [|done]; by destruct (_ <=? _).
Qed.

Lemma fill_loop_conforms ls : Forall (fun l => listed (URI l) l) ls -> forall fill G,
  conforms (fun _ _ => True) G (fill_loop lim ls fill).
Proof using.
  intros Hls; induction Hls as [|l ls Hl _ IH]; intros fill G; cbn [fill_loop]; [done|].
  split; [by exists l|]; intros [n|e] _; [|done]; apply IH.
Qed.

Lemma others_conform {A} (p : prog A) : conforms (fun _ _ => True) ghost0 p ->
  conforms (done_ok a0) ghost0 (_ <- p;; Return GotOther).
Proof using.
  intros Hp; apply conforms_bind; eapply conforms_mono; [exact Hp|].
  intros G a _; split; [apply submseteq_nil_l|done].
Qed.

Lemma Allocate_conforms : conforms (done_ok a0) ghost0 (r <- Allocate lim;; Return (GotRef r)).
Proof using.
  apply conforms_bind; split; [done|]; intros [c|e] [Hc Hf]; cbn [AllocatorSafe.conforms after]; cycle 1.
  { split; [apply submseteq_nil_l|]; by destruct e. }
  destruct (Hc c eq_refl) as [Hv ->]; split; [done|]; intros full Hfull.
  eapply conforms_mono; [apply allocate_loop_conforms; [done|done|intros _; cbn; lia]|].
  cbn; intros G [ref|e] Hg; split; [done|done|apply submseteq_nil_l|].
  destruct e; try done; intros _; by apply Hg.
Qed.

Lemma AllocateN_conforms draws n :
  conforms (done_ok a0) ghost0 (r <- AllocateN lim draws (is_batch (St:=St)) n;; Return (GotRefs r)).
Proof using.
  apply conforms_bind; unfold AllocateN.
  destruct ((n <? 1) || (MaxAllocateN <? n))%bool eqn:En; [by split; [apply submseteq_nil_l|]|bool_prop].
  split; [done|]; intros [c|e] [Hc Hf]; cbn [AllocatorSafe.conforms after]; cycle 1.
  { split; [apply submseteq_nil_l|]; by destruct e. }
  destruct (Hc c eq_refl) as [Hv ->]; split; [done|]; intros full Hfull.
  eapply conforms_mono; [apply allocateN_loop_conforms; [done|apply submseteq_nil_l|rewrite blen_nil; lia|intros _; cbn; lia]|].
  cbn; intros G [refs|e] Hg; split; [apply Hg|done|apply submseteq_nil_l|].
  destruct e; try done; intros _; by apply Hg.
Qed.

Lemma call_conforms draws c : (forall ref status, c = CallSetStatus ref status -> 0 <= status) ->
  conforms (done_ok a0) ghost0 (call_prog a0 draws c).
Proof using.
  intros Hst; destruct c as [|n|ref status|ref|uri|]; cbn [call_prog].
  - apply Allocate_conforms.
  - apply AllocateN_conforms.
  - apply others_conform, conforms_bind; eapply conforms_mono; [apply listFor_conforms|].
    intros G [l|e] _; [|done]; destruct (Z.ltb_spec (bits_mask (bits a0)) status); [done|].
    split; [specialize (Hst ref status eq_refl); cbn; lia|]; by intros [[]|e] _.
  - apply others_conform, conforms_bind; eapply conforms_mono; [apply listFor_conforms|].
    intros G [l|e] _; [|done]; split; [done|]; by intros [v|e] _.
  - apply others_conform, conforms_bind; eapply conforms_mono; [apply listFor_conforms|].
    intros G [l|e] _; [|done]; split; [done|]; intros [v|e] _; [|done]; cbn; by destruct (negb _).
  - apply others_conform; split; [done|]; intros [c|e] [Hc _]; [|done].
    destruct (Hc c eq_refl) as [Hv ->]; apply fill_loop_conforms.
    rewrite Forall_forall; intros l Hl; repeat split; done.
Qed.
End Calls.

(** ** Theorems *)

Section Theorems.
Context {St : Type} `{IndexStoreLaws St} (parse_url : string -> option url) (a0 : Allocator).

(** Where interleavings start: the settings as [a0] has them, nothing cached
    that isn't so, and in the store, of its lists, only indices in range with
    statuses that fit. *)
Definition start (s : shared (St:=St)) : Prop :=
  settings_ok parse_url a0 s /\ contents_ok parse_url a0 s /\ bytes_ok (rnd s).

Definition calls_ok (calls : list call) : Prop :=
  forall ref status, CallSetStatus ref status ∈ calls -> 0 <= status.

Definition reaches (draws : nat) (calls : list call) (s : shared (St:=St)) (ps : list (prog outcome)) (s' : shared) : Prop :=
  rtc (step parse_url) (map (call_prog (St:=St) a0 draws) calls, s) (ps, s').

Lemma start_conforming draws calls s : start s -> calls_ok calls ->
  Conforming parse_url a0 (view (store s)) (map (call_prog (St:=St) a0 draws) calls) s (map (fun _ => ghost0) calls).
Proof using.
  intros (Hset & Hcon & Hrnd) Hcalls; split.
  - assert (Hall : forall G, G ∈ map (fun _ : call => ghost0) calls -> G = ghost0).
    { intros G (? & -> & _)%list_elem_of_fmap; done. }
    assert (Hroom : forall u, total_room u (map (fun _ => ghost0) calls) = 0).
    { intros u; clear; induction calls as [|c calls IH]; [done|]; cbn [map]; rewrite total_room_cons, IH.
      unfold room_of; by destruct (decide _). }
    split; try done.
    + clear; induction calls as [|c calls IH]; [constructor|done].
    + intros G ref ->%Hall Hin; inversion Hin.
    + apply Forall_forall; intros G ->%Hall; cbn; unfold count; lia.
    + apply Forall_forall; intros G ->%Hall; done.
    + intros uri l Hl; rewrite Hroom; unfold count; lia.
    + apply Forall_forall; intros G ->%Hall; split; [cbn; lia|intros; cbn in *; lia].
  - induction calls as [|c calls IH]; cbn [map]; constructor; [|apply IH; intros ref status Hin; apply (Hcalls ref); by right].
    apply call_conforms; intros ref status ->; apply (Hcalls ref status); left.
Qed.

Lemma reached_conforming draws calls s ps s' : start s -> calls_ok calls -> reaches draws calls s ps s' ->
  exists Gs, Inv parse_url a0 (view (store s)) Gs s' /\ length Gs = length calls /\
    forall i r, ps !! i = Some (Return r) -> exists G, Gs !! i = Some G /\ done_ok a0 G r.
Proof using.
  intros Hs Hc Hr; destruct (steps_conforming _ _ _ _ _ _ Hr (start_conforming draws calls s Hs Hc)) as (Gs & HI & Hf).
  exists Gs; cbn [fst snd] in *; split; [done|split].
  - rewrite (Forall2_length _ _ _ Hf); pose proof (steps_length _ _ _ Hr) as Hl; cbn [fst] in Hl.
    by rewrite Hl, length_map.
  - intros i r Hi; destruct (Forall2_lookup_r _ _ _ _ _ Hf Hi) as (G & HG & Hdone); eauto.
Qed.

Lemma own_distinct (Gs : list ghost) i j G G' :
  NoDup (concat (map g_own Gs)) -> Gs !! i = Some G -> Gs !! j = Some G' ->
  NoDup (g_own G) /\ (i <> j -> forall ref, ref ∈ g_own G -> ref ∉ g_own G').
Proof using.
  revert i j G G'; induction Gs as [|G1 Gs IH]; intros i j G G'; cbn [map concat]; [done|].
  intros (Hn & Hd & Hn')%NoDup_app.
  assert (Hin : forall k G2 ref, Gs !! k = Some G2 -> ref ∈ g_own G2 -> ref ∈ concat (map g_own Gs)).
  { intros k G2 ref HG2 Hr; apply list_elem_of_In, in_concat; exists (g_own G2); split; [|by apply list_elem_of_In].
    apply list_elem_of_In, list_elem_of_fmap; exists G2; split; [done|by eapply list_elem_of_lookup_2]. }
  destruct i as [|i], j as [|j]; cbn; intros Hi Hj; simplify_eq.
  - split; [done|]; done.
  - split; [done|]; intros _ ref Hr Hr'; by eapply Hd, Hin.
  - destruct (IH i i G G Hn' Hi Hi); split; [done|]; intros _ ref Hr Hr'; by eapply Hd, Hin.
  - destruct (IH i j G G' Hn' Hi Hj) as [? Hne]; split; [done|]; intros Hij; apply Hne; congruence.
Qed.

(** C34: however the operations of any number of calls on one Allocator
    interleave, no index is handed out twice: a call's references are
    distinct, those of two calls disjoint, and each is of an index in its list
    that nobody had reserved at the start and that stays reserved. *)
Theorem allocations_distinct draws calls s ps s' i ri :
  start s -> calls_ok calls -> reaches draws calls s ps s' -> ps !! i = Some (Return ri) ->
  NoDup (handed ri) /\
  (forall j rj, j <> i -> ps !! j = Some (Return rj) -> forall ref, ref ∈ handed ri -> ref ∉ handed rj) /\
  (forall ref, ref ∈ handed ri ->
    is_Some (view (store s') (ref_URI ref) !! Idx ref) /\ view (store s) (ref_URI ref) !! Idx ref = None).
Proof using.
  intros Hs Hc Hr Hi; destruct (reached_conforming _ _ _ _ _ Hs Hc Hr) as (Gs & HI & _ & Hfin).
  destruct (Hfin i ri Hi) as (G & HG & Hown & _).
  pose proof (inv_own _ _ _ _ _ HI) as Hnd; destruct (own_distinct Gs i i G G Hnd HG HG) as [HndG _].
  assert (Hsub : forall ref, ref ∈ handed ri -> ref ∈ g_own G) by (intros; by eapply elem_of_submseteq).
  split; [by eapply NoDup_submseteq_l|split].
  - intros j rj Hij Hj ref Hin Hin'; destruct (Hfin j rj Hj) as (G' & HG' & Hown' & _).
    destruct (own_distinct Gs i j G G' Hnd HG HG') as [_ Hd].
    apply (Hd ltac:(congruence) ref); [by apply Hsub|by eapply elem_of_submseteq].
  - intros ref Hin; apply (inv_reserved _ _ _ _ _ HI G ref); [by eapply list_elem_of_lookup_2|by apply Hsub].
Qed.

(** a list passes its fill limit by at most 64 indices for every call
    but one in flight, however their operations interleave; one call at a time
    never passes it. *)
Theorem limit_overshoot draws calls s ps s' l :
  start s -> calls_ok calls -> reaches draws calls s ps s' -> valid parse_url a0 -> l ∈ Lists a0 ->
  count s' (URI l) <= Z.max (limit a0 l + 64 * (blen calls - 1)) (count s (URI l)).
Proof using.
  intros Hs Hc Hr Hv Hl; destruct (reached_conforming _ _ _ _ _ Hs Hc Hr) as (Gs & HI & Hlen & _).
  pose proof (inv_count _ _ _ _ _ HI (URI l) l ltac:(by repeat split)) as Hcount.
  pose proof (total_room_bound (URI l) Gs (inv_room _ _ _ _ _ HI)).
  unfold blen in *; rewrite Hlen in Hcount; unfold count, lim, allocateChunk in *; lia.
Qed.

(** a call reports every list full only when each has reached its limit,
    also by what other calls have reserved meanwhile. *)
Theorem lists_full_truthful draws calls s ps s' i r :
  start s -> calls_ok calls -> reaches draws calls s ps s' -> ps !! i = Some (Return r) -> says_full r = true ->
  Forall (fun l => limit a0 l <= count s' (URI l)) (Lists a0).
Proof using.
  intros Hs Hc Hr Hi Hfull; destruct (reached_conforming _ _ _ _ _ Hs Hc Hr) as (Gs & HI & _ & Hfin).
  destruct (Hfin i r Hi) as (G & HG & _ & Hk); specialize (Hk Hfull).
  pose proof (inv_known _ _ _ _ _ HI) as Hkn; rewrite Forall_forall in Hkn.
  destruct (Hkn G ltac:(by eapply list_elem_of_lookup_2)) as [_ Hf].
  apply Forall_forall; intros l Hl; apply list_elem_of_lookup in Hl as [j Hj].
  apply (Hf j); [|done]; apply lookup_lt_Some in Hj; lia.
Qed.

(** Running a call alone is one interleaving of it. *)
Lemma run_steps (p : prog outcome) s r s' : run parse_url p s = (r, s') ->
  rtc (step parse_url) ([p], s) ([Return r], s').
Proof using.
  revert s; induction p as [a|X o k IH]; intros s; cbn [run]; [intros [= <- <-]; constructor|].
  destruct (exec parse_url o s) as [x s1] eqn:E; intros Hrun.
  eapply rtc_l; [|by apply IH]; by apply (step_at _ 0 [Do o k] s X o k x s1).
Qed.
End Theorems.
