(* ===== verification/AllocatorUse.v ===== *)
(** * The allocator in use

    Its draws are uniform; a batch always ends; a call reports the lists full
    whenever they are; what it reports of a token's status is what the
    published list's bytes read back.  Then concrete instances of the theorems
    here and in [AllocatorCalls], over a [MemoryIndexStore]. *)
From S2P Require Import Prelude StatusBits IndexStore Allocator AllocatorSafe AllocatorCalls.
From Stdlib Require Import SpecFloat.

(** ** Draws *)

Lemma random_loop_fuel f : forall g size r, (length r < f)%nat -> (length r < g)%nat ->
  random_loop f size r = random_loop g size r.
Proof.
  induction f as [|f IH]; intros [|g] size r Hf Hg; try lia; cbn [random_loop].
  destruct (Z.ltb_spec (blen r) 8); [done|]; cbv zeta; go_case; [done|].
  unfold blen in *; apply IH; rewrite length_drop; lia.
Qed.

Lemma random_loop_S f size r : random_loop (S f) size r =
  if blen r <? 8 then (None, [])
  else
    let idx := Z.land (be_value (take 8 r)) (index_mask size) in
    if idx <? size then (Some idx, drop 8 r) else random_loop f size (drop 8 r).
Proof. done. Qed.

(** each draw reads 8 bytes, a 64-bit word, and keeps its residue
    modulo the least power of two that covers the list, so every index comes
    of equally many words; a draw past the list is drawn again, less than half
    of them. *)
Theorem randomIndex_uniform (size : Z) : 0 < size < 2 ^ 64 -> exists n,
  0 <= n <= 64 /\ size <= 2 ^ n /\ (1 < size -> 2 ^ n < 2 * size) /\
  (forall w rest, length w = 8%nat -> bytes_ok w ->
    randomIndex (w ++ rest) size =
      if be_value w mod 2 ^ n <? size then (Some (be_value w mod 2 ^ n), rest) else randomIndex rest size) /\
  (forall idx word, 0 <= idx < size ->
    0 <= word < 2 ^ 64 /\ word mod 2 ^ n = idx <-> exists k, 0 <= k < 2 ^ (64 - n) /\ word = idx + k * 2 ^ n).
Proof.
  intros Hs; destruct (index_mask_ones size Hs) as (n & Hn & Hmask & Hcov & Hhalf).
  exists n; do 3 (split; [done|]); split.
  - intros w rest Hw Hb; unfold randomIndex; rewrite random_loop_S.
    assert (Hlen : blen (w ++ rest) = 8 + blen rest) by (rewrite blen_app; unfold blen; lia).
    destruct (Z.ltb_spec (blen (w ++ rest)) 8); [pose proof (blen_nonneg rest); lia|].
    assert (Ht : take 8 (w ++ rest) = w) by (rewrite <- Hw; apply take_app_length).
    assert (Hd : drop 8 (w ++ rest) = rest) by (rewrite <- Hw; apply drop_app_length).
    rewrite Ht, Hd, Hmask, Z.land_ones by lia; cbv zeta; destruct (_ <? size); [done|].
    apply random_loop_fuel; rewrite ?length_app; lia.
  - intros idx word Hidx; assert (Hp : 0 < 2 ^ n) by (apply Z.pow_pos_nonneg; lia).
    assert (H64 : 2 ^ 64 = 2 ^ (64 - n) * 2 ^ n) by (rewrite <- Z.pow_add_r by lia; f_equal; lia).
    split.
    + intros [Hword <-]; exists (word / 2 ^ n); split.
      * split; [apply Z.div_pos; lia|]; apply Z.div_lt_upper_bound; lia.
      * rewrite (Z.div_mod word (2 ^ n)) at 1 by lia; lia.
    + intros (k & Hk & ->); split; [nia|].
      rewrite Z.mod_add by lia; apply Z.mod_small; lia.
Qed.

Lemma randomIndex_uniform_witness : exists n, 0 <= n <= 64 /\ 5 <= 2 ^ n /\ (1 < 5 -> 2 ^ n < 2 * 5) /\
  (forall w rest, length w = 8%nat -> bytes_ok w ->
    randomIndex (w ++ rest) 5 =
      if be_value w mod 2 ^ n <? 5 then (Some (be_value w mod 2 ^ n), rest) else randomIndex rest 5) /\
  (forall idx word, 0 <= idx < 5 ->
    0 <= word < 2 ^ 64 /\ word mod 2 ^ n = idx <-> exists k, 0 <= k < 2 ^ (64 - n) /\ word = idx + k * 2 ^ n).
Proof. apply (randomIndex_uniform 5); done. Defined.

(** ** Calls end *)

Section Run.
Context {St : Type} `{IndexStoreLaws St} (parse_url : string -> option url).

Local Abbreviation run := (run parse_url).

Lemma run_bind {A B} (p : prog A) (f : A -> prog B) (s : shared (St:=St)) :
  run (pbind p f) s = let '(a, s1) := run p s in run (f a) s1.
Proof using.
  revert s; induction p as [a|X o k IH]; intros s; cbn; [done|].
  destruct (exec parse_url o s) as [x s1]; apply IH.
Qed.

Lemma random_loop_consumes f size r x r' : random_loop f size r = (x, r') ->
  (length r' <= length r)%nat /\ (is_Some x -> length r' < length r)%nat.
Proof using.
  revert r; induction f as [|f IH]; intros r; cbn [random_loop].
  - intros [= <- <-]; split; [lia|]; intros [? ?]; done.
  - destruct (Z.ltb_spec (blen r) 8); [intros [= <- <-]; split; [cbn; lia|]; intros [? ?]; done|].
    cbv zeta; unfold blen in *; go_case.
    + intros [= <- <-]; rewrite length_drop; lia.
    + intros Hr; apply IH in Hr; rewrite length_drop in Hr; lia.
Qed.

Lemma exec_rnd {X} (o : op X) (s : shared (St:=St)) : (length (rnd (exec parse_url o s).2) <= length (rnd s))%nat.
Proof using.
  destruct o; cbn [exec]; try done.
  - by destruct (check parse_url (alloc s)).
  - destruct (randomIndex _ _) as [x r] eqn:E; by apply random_loop_consumes in E as [? _].
  - by destruct (Reserve uri idx (store s)).
  - destruct ReserveEach as [f|]; [by destruct (f uri idxs (store s))|done].
  - by destruct (SetStatus uri idx status (store s)).
Qed.

Lemma run_rnd {A} (p : prog A) (s : shared (St:=St)) : (length (rnd (run p s).2) <= length (rnd s))%nat.
Proof using.
  revert s; induction p as [a|X o k IH]; intros s; cbn; [done|].
  pose proof (exec_rnd o s); destruct (exec parse_url o s) as [x s1]; specialize (IH x s1); cbn in *; lia.
Qed.

(** A call's result other than the model's lack of fuel. *)
Definition ends {A} (p : prog (res alloc_error A)) (s : shared (St:=St)) : Prop :=
  (run p s).1 <> Err ErrDrawFuel.

Lemma ends_bind {A B} (p : prog (res alloc_error A)) (f : A -> prog (res alloc_error B)) s :
  ends p s ->
  (forall a s', run p s = (Ok a, s') -> (length (rnd s') <= length (rnd s))%nat -> ends (f a) s') ->
  ends (try x <- p;; f x) s.
Proof using.
  unfold ends; intros Hp Hf; rewrite run_bind; pose proof (run_rnd p s) as Hr.
  destruct (run p s) as [[a|e] s1]; cbn in *; [by apply Hf|congruence].
Qed.

Lemma draw_loop_ends f l need : forall draw tried s, (length (rnd s) < f)%nat -> ends (draw_loop f l need draw tried) s.
Proof using.
  unfold ends; induction f as [|f IH]; intros draw tried s Hf; [lia|]; cbn [draw_loop].
  destruct (negb _); [done|]; cbn [Allocator.run exec].
  destruct (randomIndex (rnd s) (size_ l)) as [[idx|] r] eqn:E; [|done].
  apply random_loop_consumes in E as [_ Hr]; specialize (Hr ltac:(done)); cbv zeta.
  destruct (_ =? Size l); [done|]; apply IH; cbn; lia.
Qed.

Lemma reserve_each_one_ends l draw : forall got s, ends (reserve_each_one l draw got) s.
Proof using.
  unfold ends; induction draw as [|idx draw IH]; intros got s; cbn [reserve_each_one Allocator.run]; [done|].
  destruct (exec _ _ _) as [[[]|[]] s1]; try done; apply IH.
Qed.

Lemma reserve_round_ends b l draw got s : ends (reserve_round b l draw got) s.
Proof using.
  unfold reserve_round; destruct b; [|apply reserve_each_one_ends]; unfold ends; cbn [Allocator.run].
  destruct (exec _ _ _) as [[new|e] s1]; [|done].
  assert (Hc : forall asked, check_reported asked new <> Err ErrDrawFuel).
  { induction new as [|i new IH]; intros asked; cbn [check_reported]; [done|].
    destruct (decide (i ∈ asked)); [apply IH|done]. }
  specialize (Hc (list_to_set draw)); destruct (check_reported _ _) as [|e]; [done|cbn; congruence].
Qed.

Lemma reserveEachIn_ends n draws b l want : forall got tried s, (length (rnd s) < draws)%nat ->
  ends (reserveEachIn_loop n draws b l want got tried) s.
Proof using.
  induction n as [|n IH]; intros got tried s Hd; cbn [reserveEachIn_loop]; [done|].
  apply ends_bind; [by apply draw_loop_ends|]; intros [draw tried'] s1 _ Hr1.
  destruct (blen draw =? 0); [done|].
  apply ends_bind; [apply reserve_round_ends|]; intros got' s2 _ Hr2.
  destruct (blen got' =? want); [done|]; apply IH; lia.
Qed.

Lemma allocateN_loop_ends lim f draws b ls n : forall i refs ex s, (length (rnd s) < draws)%nat ->
  (length ls - i + Z.to_nat (n - blen refs) < f)%nat -> ends (allocateN_loop lim f draws b ls i n refs ex) s.
Proof using.
  induction f as [|f IH]; intros i refs ex s Hd Hf; [lia|]; cbn [allocateN_loop].
  assert (Hfin : ends (if blen refs =? n then ret_ok refs else ret_err (if ex then ErrNoFreeIndex else ErrListsFull)) s)
    by (destruct (blen refs =? n), ex; done).
  destruct (ls !! i) as [l|] eqn:Hi; [|done]; apply lookup_lt_Some in Hi.
  destruct (Z.ltb_spec (blen refs) n); cbn [negb]; [|done].
  unfold ends; cbn [Allocator.run exec]; destruct (Reserved (URI l) (store s)) as [r|e]; [|done]; cbv zeta.
  destruct (Z.leb_spec (lim l - r) 0).
  - destruct ex; cbn [negb Allocator.run exec]; apply IH; cbn; try done; lia.
  - set (want := Z.min _ allocateChunk); assert (Hw : 0 < want) by (unfold want, allocateChunk; lia).
    apply ends_bind; [by apply reserveEachIn_ends|]; intros got s1 _ Hr1.
    assert (Hlen : blen (refs ++ map (fun idx => {| Idx := idx; ref_URI := URI l |}) got) = blen refs + blen got)
      by (rewrite blen_app; unfold blen; by rewrite length_map).
    pose proof (blen_nonneg got); destruct (Z.ltb_spec (blen got) want); [apply IH; lia|].
    destruct (want =? lim l - r); apply IH; lia.
Qed.
End Run.

(** a batch allocation always returns, once its random source has: with
    the draws of a round bounded by what the source can still yield it never
    runs out of the model's fuel, whatever the store answers. *)
Theorem AllocateN_terminates {St} `{IndexStore St} parse_url lim draws batch n (s : shared (St:=St)) :
  (length (rnd s) < draws)%nat -> (run parse_url (AllocateN lim draws batch n) s).1 <> Err ErrDrawFuel.
Proof.
  intros Hd; unfold AllocateN; destruct ((n <? 1) || (MaxAllocateN <? n))%bool; [done|]; cbn [run exec].
  destruct (check parse_url (alloc s)) as [[c|e] a] eqn:E.
  - cbn [run exec]; apply allocateN_loop_ends; [done|].
    rewrite blen_nil; lia.
  - cbn; intros [= ->]; unfold check in E.
    destruct (validate parse_url (alloc s)) as [|e] eqn:Ev;
      [|destruct (validate_errors _ _ _ Ev)]; destruct (checked (alloc s)) as [c|];
      try destruct (((_ && _) && _) && _)%bool; injection E as E1 E2; congruence.
Qed.

Lemma AllocateN_terminates_witness : (run (St:=MemoryIndexStore) (fun _ => None) (AllocateN (fun _ => 3) 9 true 2)
    {| alloc := {| Lists := []; HasStore := true; a_Bits := 0; FillLimit := DefaultFillLimit; checked := None |};
       store := {| lists := ∅ |}; rnd := [1; 2; 3; 4; 5; 6; 7; 8] |}).1 <> Err ErrDrawFuel.
Proof. apply AllocateN_terminates; cbn; lia. Defined.

(** ** Reading back *)

Section Use.
Context {St : Type} `{IndexStoreLaws St} (parse_url : string -> option url) (a0 : Allocator).

Lemma check_valid (s : shared (St:=St)) : settings_ok parse_url a0 s -> valid parse_url a0 ->
  exists c a, check parse_url (alloc s) = (Ok c, a) /\ c_lists c = Lists a0 /\ settings_ok parse_url a0 (set_alloc s a).
Proof using.
  intros Hset Hv; destruct (check parse_url (alloc s)) as [r a] eqn:E.
  destruct (check_spec _ _ _ _ _ Hset E) as (Hs & Hr & _).
  destruct r as [c|e]; [exists c, a; split; [done|split; [by apply Hr|done]]|exfalso].
  destruct Hset as (Hval & _ & _); unfold valid in Hv; rewrite Hv in Hval.
  unfold check in E; rewrite Hval in E; destruct (checked (alloc s)); [destruct (((_ && _) && _) && _)%bool|]; done.
Qed.

Lemma run_listFor (s : shared (St:=St)) ref l :
  settings_ok parse_url a0 s -> listed parse_url a0 (ref_URI ref) l -> Idx ref < Size l ->
  exists s', run parse_url (listFor ref) s = (Ok l, s') /\ store s' = store s /\ settings_ok parse_url a0 s'.
Proof using.
  intros Hset Hl Hidx; destruct (check_valid s Hset (proj1 Hl)) as (c & a & Hc & Hls & Hs).
  cbn [run listFor exec]; rewrite Hc, Hls, (find_list_listed _ _ _ _ Hl).
  destruct (size_ok _ _ _ _ Hl) as [-> _]; destruct (Z.leb_spec (Size l) (Idx ref)); [lia|].
  by exists (set_alloc s a).
Qed.

Lemma allocate_loop_full lim ls : forall i (s : shared (St:=St)),
  (forall l, l ∈ ls -> exists n, Reserved (URI l) (store s) = Ok n /\ lim l <= n) ->
  (run parse_url (allocate_loop lim ls i false) s).1 = Err ErrListsFull.
Proof using.
  induction ls as [|l ls IH]; intros i s Hls; cbn [allocate_loop run exec]; [done|].
  destruct (Hls l) as (n & -> & Hn); [left|].
  destruct (Z.leb_spec (lim l) n); [|lia]; cbn [negb run exec].
  apply IH; intros l' Hl'; apply Hls; by right.
Qed.

(** when the store counts every list at its fill limit, Allocate reports
    the lists full rather than failing otherwise or handing out an index. *)
Theorem Allocate_reports_full (s : shared (St:=St)) :
  settings_ok parse_url a0 s -> valid parse_url a0 ->
  (forall l, l ∈ Lists a0 -> exists n, Reserved (URI l) (store s) = Ok n /\ limit a0 l <= n) ->
  (run parse_url (Allocate (limit a0)) s).1 = Err ErrListsFull.
Proof using.
  intros Hset Hv Hfull; destruct (check_valid s Hset Hv) as (c & a & Hc & Hls & Hs).
  cbn [Allocate run exec]; rewrite Hc; cbn [run exec]; rewrite Hls.
  apply allocate_loop_full; intros l Hl; apply Hfull; eapply elem_of_submseteq; [exact Hl|].
  apply sublist_submseteq, sublist_drop.
Qed.

Lemma statuses_published (s : shared (St:=St)) uri l sts s1 :
  settings_ok parse_url a0 s -> contents_ok parse_url a0 s -> listed parse_url a0 uri l ->
  run parse_url (alloc_Statuses uri) s = (Ok sts, s1) ->
  blen sts = Size l /\ Forall (fun v => 0 <= v <= bits_mask (bits a0)) sts /\
  forall idx, 0 <= idx < Size l -> sts !! Z.to_nat idx = Some (default StatusValid (view (store s) uri !! idx)).
Proof using.
  intros Hset Hcon Hl; destruct (listed_ok _ _ _ _ Hl) as (Hsz & _).
  destruct (run_listFor s {| Idx := 0; ref_URI := uri |} l Hset Hl ltac:(cbn; lia)) as (s2 & Hrun & Hst & _).
  unfold alloc_Statuses; rewrite run_bind, Hrun; cbn [run exec]; rewrite Hst.
  destruct (Statuses uri (Size l) (store s)) as [sts'|e] eqn:E; [|done]; cbn [run].
  destruct (Z.eqb_spec (blen sts') (Size l)) as [Hlen|]; [|done]; intros [= <- _].
  apply Statuses_law in E as (_ & _ & Hat); [|intros i [v Hv]; destruct (Hcon uri l i v Hl Hv); lia].
  split; [done|split; [|done]]; apply Forall_forall; intros v [k Hk]%list_elem_of_lookup.
  pose proof (lookup_lt_Some _ _ _ Hk) as Hlt.
  specialize (Hat (Z.of_nat k) ltac:(unfold blen in Hlen; lia)); rewrite Nat2Z.id, Hk in Hat; injection Hat as ->.
  destruct (view (store s) uri !! Z.of_nat k) as [v|] eqn:Ev; cbn; [by destruct (Hcon _ _ _ _ Hl Ev)|].
  rewrite (mask_ones _ (valid_bits _ _ (proj1 Hl))), Z.ones_equiv; unfold StatusValid.
  destruct (bits_cases _ (valid_bits _ _ (proj1 Hl))) as [->|[->|[->| ->]]]; cbn; lia.
Qed.

(** what a Relying Party reads out of the published list is what the
    issuer set: the statuses Allocator.Statuses gives the Publisher always
    pack, to exactly the list's size with no padding, and the packed byte
    array unpacks, at every index, to what Allocator.Status reports of the
    token there - StatusValid where no index was handed out. *)
Theorem published_status (s : shared (St:=St)) uri l sts s1 :
  settings_ok parse_url a0 s -> contents_ok parse_url a0 s -> listed parse_url a0 uri l ->
  run parse_url (alloc_Statuses uri) s = (Ok sts, s1) ->
  exists packed, Pack (bits a0) sts = Ok packed /\ blen packed * perByte (bits a0) = Size l /\
    (forall idx, 0 <= idx < Size l ->
      Unpack (bits a0) packed idx = Ok (default StatusValid (view (store s) uri !! idx))) /\
    (forall idx v s2, 0 <= idx < Size l ->
      run parse_url (alloc_Status {| Idx := idx; ref_URI := uri |}) s = ((v, Ok tt), s2) ->
      Unpack (bits a0) packed idx = Ok v).
Proof using.
  intros Hset Hcon Hl Hrun; destruct (statuses_published _ _ _ _ _ Hset Hcon Hl Hrun) as (Hlen & Hfit & Hat).
  pose proof (valid_bits _ _ (proj1 Hl)) as Hb; destruct (perByte_mul _ Hb) as (_ & Hp & _).
  destruct (listed_ok _ _ _ _ Hl) as (Hsz & _ & Hmod).
  destruct (Pack_spec (bits a0) sts Hb Hfit) as (packed & Hpack & Hplen & Hslot).
  assert (Hbytes : blen packed * perByte (bits a0) = Size l).
  { rewrite Hplen, Hlen; set (p := perByte (bits a0)) in *; clearbody p.
    pose proof (Z.div_mod (Size l) p ltac:(lia)) as Hq; rewrite Hmod, Z.add_0_r in Hq.
    replace (Size l + p - 1) with (Size l / p * p + (p - 1)) by lia.
    rewrite Z.div_add_l, (Z.div_small (p - 1)) by lia; lia. }
  assert (Hread : forall idx, 0 <= idx < Size l ->
    Unpack (bits a0) packed idx = Ok (default StatusValid (view (store s) uri !! idx))).
  { intros idx Hidx; rewrite Unpack_slot by (done || lia).
    assert (idx / perByte (bits a0) < blen packed) by (apply Z.div_lt_upper_bound; lia).
    destruct (Z.leb_spec (blen packed) (idx / perByte (bits a0))); [lia|].
    by rewrite Hslot, Hat by lia. }
  exists packed; do 3 (split; [done|]); intros idx v s2 Hidx; rewrite Hread by done.
  destruct (run_listFor s {| Idx := idx; ref_URI := uri |} l Hset Hl ltac:(cbn; lia)) as (s3 & Hlf & Hst & _).
  unfold alloc_Status; rewrite run_bind, Hlf; cbn [run exec ref_URI Idx]; rewrite Hst.
  pose proof (Status_law uri idx (store s)) as Hlaw.
  destruct (Status uri idx (store s)) as [v'|e]; cbn [run]; [|done]; intros [= <- _]; by rewrite Hlaw.
Qed.
End Use.

(** ** Schedules: an interleaving, computed *)

Section Schedule.
Context {St : Type} `{IndexStore St} (parse_url : string -> option url).

Definition step_fn (i : nat) (c : list (prog outcome) * shared (St:=St)) : list (prog outcome) * shared :=
  match c.1 !! i with
  | Some (Do o k) => let '(x, s) := exec parse_url o c.2 in (<[i := k x]> c.1, s)
  | _ => c
  end.

Definition schedule (is_ : list nat) (c : list (prog outcome) * shared (St:=St)) := foldl (fun c i => step_fn i c) c is_.

Lemma schedule_steps is_ : forall c, rtc (step parse_url) c (schedule is_ c).
Proof using.
  unfold schedule; induction is_ as [|i is_ IH]; intros [ps s]; cbn [foldl]; [constructor|].
  etrans; [|apply IH]; unfold step_fn; cbn [fst snd].
  destruct (ps !! i) as [[a|X o k]|] eqn:Ei; [constructor| |constructor].
  destruct (exec parse_url o s) as [x s1] eqn:E; by apply rtc_once, (step_at _ i ps s X o k x s1).
Qed.
End Schedule.

(** ** Witnesses *)

Definition example_url (uri : string) : option url :=
  Some {| Scheme := "https"; Host := "issuer.example"; User := None; Fragment := "" |}.
Definition example_list : AllocatorList := {| URI := "https://issuer.example/1"; Size := 16 |}.
Definition example_alloc : Allocator :=
  {| Lists := [example_list]; HasStore := true; a_Bits := 0; FillLimit := S754_zero false; checked := None |}.
Definition example_state (store : MemoryIndexStore) (rnd : bytes) : shared :=
  {| alloc := example_alloc; store := store; rnd := rnd |}.
Definition words (l : list Z) : bytes := concat (map (be_bytes 8) l).

Lemma example_settings store rnd : settings_ok example_url example_alloc (example_state store rnd).
Proof. done. Qed.

(** An empty store, and one at the example's fill limit. *)
Definition empty_store : MemoryIndexStore := {| lists := ∅ |}.
Definition full_store : MemoryIndexStore :=
  {| lists := {[URI example_list := list_to_map (map (fun i => (i, StatusValid)) [0; 1; 2; 3; 4; 5; 6; 7])]} |}.

Lemma example_contents (st : MemoryIndexStore) rnd :
  (forall idx v, mem_list st (URI example_list) !! idx = Some v -> 0 <= idx < 16 /\ 0 <= v <= 1) ->
  contents_ok example_url example_alloc (example_state st rnd).
Proof.
  intros Hst uri l idx v (_ & Hl & <-); cbn in Hl; apply list_elem_of_singleton in Hl as ->; apply Hst.
Qed.

Lemma words_ok l : bytes_ok (words l).
Proof.
  unfold words; induction l; cbn [map concat]; [constructor|]; apply Forall_app; split; [apply be_bytes_ok|done].
Qed.

Lemma example_start rnd : bytes_ok rnd -> start example_url example_alloc (example_state empty_store rnd).
Proof. intros Hr; split; [apply example_settings|split; [|done]]; apply example_contents; intros idx v Hv; done. Qed.

(** Two Allocates and a batch of two, interleaved, all drawing index 3 first. *)
Definition example_calls : list call := [CallAllocate; CallAllocateN 2; CallAllocate].
Definition example_run : list (prog outcome) * shared (St:=MemoryIndexStore) :=
  schedule example_url (concat (replicate 12 [0; 1; 2]%nat))
    (map (call_prog example_alloc 99) example_calls, example_state empty_store (words [3; 3; 4; 3; 5; 4; 6; 7])).

Lemma example_reaches : reaches example_url example_alloc 99 example_calls
  (example_state empty_store (words [3; 3; 4; 3; 5; 4; 6; 7])) example_run.1 example_run.2.
Proof. unfold reaches; rewrite <- surjective_pairing; apply schedule_steps. Qed.

Lemma example_calls_ok : calls_ok example_calls.
Proof. intros ref status H; cbn in H; set_solver. Qed.

Example example_handed : omap (fun p => match p with Return r => Some (map Idx (handed r)) | Do _ _ => None end)
  example_run.1 = [[3]; [5; 6]; [4]].
Proof. vm_compute; reflexivity. Qed.

Lemma allocations_distinct_witness :
  exists r0 r1, example_run.1 !! 0%nat = Some (Return r0) /\ example_run.1 !! 1%nat = Some (Return r1) /\
    map Idx (handed r1) = [5; 6] /\ forall ref, ref ∈ handed r0 -> ref ∉ handed r1.
Proof.
  exists (GotRef (Ok {| Idx := 3; ref_URI := URI example_list |})),
    (GotRefs (Ok [{| Idx := 5; ref_URI := URI example_list |}; {| Idx := 6; ref_URI := URI example_list |}])).
  assert (H0 : example_run.1 !! 0%nat = Some (Return (GotRef (Ok {| Idx := 3; ref_URI := URI example_list |}))))
    by (vm_compute; reflexivity).
  assert (H1 : example_run.1 !! 1%nat = Some (Return (GotRefs (Ok [{| Idx := 5; ref_URI := URI example_list |};
    {| Idx := 6; ref_URI := URI example_list |}])))) by (vm_compute; reflexivity).
  split; [exact H0|split; [exact H1|split; [reflexivity|]]].
  destruct (allocations_distinct example_url example_alloc 99 example_calls _ _ _ 0 _
    (example_start _ (words_ok _)) example_calls_ok example_reaches H0) as (_ & Hd & _).
  apply (Hd 1%nat _ ltac:(lia) H1).
Defined.

Lemma limit_overshoot_witness :
  count example_run.2 (URI example_list) <= Z.max (8 + 64 * 2) 0.
Proof.
  apply (limit_overshoot example_url example_alloc 99 example_calls _ _ _ example_list
    (example_start _ (words_ok _)) example_calls_ok example_reaches); [vm_compute; reflexivity|by left].
Defined.

(** Two calls on the store at its limit. *)
Definition full_run : list (prog outcome) * shared (St:=MemoryIndexStore) :=
  schedule example_url (concat (replicate 6 [1; 0]%nat))
    (map (call_prog example_alloc 9) [CallAllocate; CallAllocateN 1], example_state full_store []).

Lemma full_store_start : start example_url example_alloc (example_state full_store []).
Proof.
  split; [apply example_settings|split; [|constructor]]; apply example_contents; intros idx v Hv.
  assert (Hin : (idx, v) ∈ map (fun i => (i, StatusValid)) [0; 1; 2; 3; 4; 5; 6; 7]) by (by apply elem_of_list_to_map_2).
  apply list_elem_of_fmap in Hin as (i & [= -> ->] & Hin); cbn in Hin; unfold StatusValid.
  repeat (apply elem_of_cons in Hin as [->|Hin]; [lia|]); inversion Hin.
Qed.

Lemma lists_full_truthful_witness :
  Forall (fun l => limit example_alloc l <= count full_run.2 (URI l)) (Lists example_alloc).
Proof.
  apply (lists_full_truthful example_url example_alloc 9 [CallAllocate; CallAllocateN 1] (example_state full_store [])
    full_run.1 full_run.2 0 (GotRef (Err ErrListsFull)) full_store_start).
  - intros ref status H; cbn in H; set_solver.
  - unfold reaches; rewrite <- surjective_pairing; apply schedule_steps.
  - vm_compute; reflexivity.
  - reflexivity.
Defined.

Lemma Allocate_reports_full_witness :
  (run example_url (Allocate (limit example_alloc)) (example_state full_store [])).1 = Err ErrListsFull.
Proof.
  apply (Allocate_reports_full example_url example_alloc); [apply example_settings|vm_compute; reflexivity|].
  intros l Hl; cbn in Hl; apply list_elem_of_singleton in Hl as ->.
  exists 8; split; [vm_compute; reflexivity|vm_compute; discriminate].
Defined.

(** The example's list after index 3 is reserved and revoked. *)
Definition revoked_store : MemoryIndexStore := {| lists := {[URI example_list := {[3 := StatusInvalid]}]} |}.

Lemma published_status_witness : exists sts s1 packed,
  run example_url (alloc_Statuses (URI example_list)) (example_state revoked_store []) = (Ok sts, s1) /\
  Pack 1 sts = Ok packed /\ Unpack 1 packed 3 = Ok StatusInvalid /\ Unpack 1 packed 4 = Ok StatusValid.
Proof.
  set (sts := [0; 0; 0; 1; 0; 0; 0; 0; 0; 0; 0; 0; 0; 0; 0; 0]).
  set (s1 := (run example_url (alloc_Statuses (URI example_list)) (example_state revoked_store [])).2).
  assert (Hrun : run example_url (alloc_Statuses (URI example_list)) (example_state revoked_store []) = (Ok sts, s1))
    by (vm_compute; reflexivity).
  destruct (published_status example_url example_alloc (example_state revoked_store []) (URI example_list) example_list
    sts s1 (example_settings _ _)) as (packed & Hpack & _ & Hread & _); [| |exact Hrun|].
  - apply example_contents; intros idx v Hv; unfold mem_list, revoked_store in Hv; cbn [lists] in Hv.
    rewrite lookup_singleton_eq in Hv; cbn in Hv; apply lookup_singleton_Some in Hv as [<- <-]; unfold StatusInvalid; lia.
  - split; [vm_compute; reflexivity|split; [by left|done]].
  - exists sts, s1, packed; split; [exact Hrun|split; [exact Hpack|split]].
    + apply (Hread 3); cbn; lia.
    + apply (Hread 4); cbn; lia.
Defined.
