(* ===== verification/Apdu.v ===== *)
(** * APDUs and DO53: [proximity/nfcapdu/apdu.go], [do53.go]

    ISO/IEC 7816-4 command and response APDUs, and the DO53 object that
    carries a session message.  The theorems: [ParseCommand] accepts exactly
    the seven encodings of a command, short and extended; [UnwrapDO53] accepts
    exactly what [WrapDO53] makes. *)
From S2P Require Import Prelude.

(** ** Status words and instructions *)

Definition swOK : Z := 36864.                  (* 9000 *)
Definition swEndOfFile : Z := 25218.           (* 6282 *)
Definition swWrongLength : Z := 26368.         (* 6700 *)
Definition swConditionsNotMet : Z := 27013.    (* 6985 *)
Definition swCommandNotAllowedEF : Z := 27014. (* 6986 *)
Definition swWrongData : Z := 27264.           (* 6a80 *)
Definition swFileNotFound : Z := 27266.        (* 6a82 *)
Definition swNotEnoughMemory : Z := 27268.     (* 6a84 *)
Definition swWrongP1P2 : Z := 27270.           (* 6a86 *)
Definition swWrongOffset : Z := 27392.         (* 6b00 *)
Definition swWrongLe : Z := 27903.             (* 6cff *)
Definition swINSNotSupported : Z := 27904.     (* 6d00 *)
Definition swCLANotSupported : Z := 28160.     (* 6e00 *)
Definition swMoreData : Z := 24832.            (* 6100 *)

Definition insSelect : Z := 164.
Definition insReadBinary : Z := 176.
Definition insUpdate : Z := 214.
Definition insEnvelope : Z := 195.
Definition insGetResponse : Z := 192.

Definition maxCommandAPDU : Z := 4 + 3 + 65535 + 2.
Definition NDEFApplication : bytes := [210; 118; 0; 0; 133; 1; 1].
Definition DataApplication : bytes := [160; 0; 0; 2; 72; 4; 0].

(** ** Commands *)

Record Command : Type := { CLA : Z; INS : Z; P1 : Z; P2 : Z; Data : bytes; Le : Z }.

Definition shortLe (b : Z) : Z := if b =? 0 then 256 else b.
Definition extendedLe (n : Z) : Z := if n =? 0 then 65536 else n.

(** [int(b[i])<<8 | int(b[i+1])]. *)
Definition uint16At (b : bytes) (i : Z) : Z := Z.lor (Z.shiftl (at_ b i) 8) (at_ b (i + 1)).

Definition ParseCommand (b : bytes) : option Command :=
  if (blen b <? 4) || (maxCommandAPDU <? blen b) then None
  else
    let c data le := {| CLA := at_ b 0; INS := at_ b 1; P1 := at_ b 2; P2 := at_ b 3; Data := data; Le := le |} in
    if blen b =? 4 then Some (c [] 0)
    else if blen b =? 5 then Some (c [] (shortLe (at_ b 4)))
    else
      let extended := at_ b 4 =? 0 in
      let start := if extended then 7 else 5 in
      if blen b <? start then None
      else
        let length := if extended then uint16At b 5 else at_ b 4 in
        if extended && (blen b =? 7) then Some (c [] (extendedLe length))
        else if (length =? 0) || (blen b <? start + length) then None
        else
          let remaining := blen b - start - length in
          let leBytes := if extended then 2 else 1 in
          if negb (remaining =? 0) && negb (remaining =? leBytes) then None
          else
            let le :=
              if remaining =? 0 then 0
              else if extended then extendedLe (uint16At b (blen b - 2))
              else shortLe (at_ b (blen b - 1)) in
            Some (c (slice b start (start + length)) le).

Definition bytes_eqb (a b : bytes) : bool := bool_decide (a = b).

Definition isSelectByName (c : Command) : bool :=
  (CLA c =? 0) && (INS c =? insSelect) && (P1 c =? 4) && ((P2 c =? 0) || (P2 c =? 12)).

Definition lo (n : Z) : Z := Z.land n 255.
Definition hi (n : Z) : Z := Z.land (Z.shiftr n 8) 255.

Definition response (status : Z) (data : bytes) : bytes := data ++ be_bytes 2 (Z.land status 65535).

(** [None] for a response shorter than its status word. *)
Definition status (resp : bytes) : option (bytes * Z) :=
  if blen resp <? 2 then None
  else
    let n := blen resp - 2 in
    Some (slice resp 0 n, uint16At resp n).

Inductive CommandKind : Type :=
| CommandOther
| CommandSelectNDEF
| CommandSelectData
| CommandSelectDataNoFCI
| CommandSelectOther.

Definition Classify (apdu : bytes) : CommandKind :=
  match ParseCommand apdu with
  | None => CommandOther
  | Some c =>
      if negb (isSelectByName c) then CommandOther
      else if bytes_eqb (Data c) NDEFApplication then CommandSelectNDEF
      else if bytes_eqb (Data c) DataApplication then CommandSelectData
      else CommandSelectOther
  end.

(** ** DO53 *)

Definition MaxMessage : Z := Z.shiftl 2 20.
Definition maxEncoded : Z := MaxMessage + 5.

Definition WrapDO53 (message : bytes) : option bytes :=
  let n := blen message in
  if MaxMessage <? n then None
  else
    Some (83 ::
      (if n <? 128 then [wrap8 n]
       else if n <=? 255 then [129; wrap8 n]
       else if n <=? 65535 then 130 :: be_bytes 2 (Z.land n 65535)
       else 131 :: Z.land (Z.shiftr n 16) 255 :: be_bytes 2 (Z.land n 65535)) ++ message).

Inductive do53_error : Type :=
| ErrMissingDO53
| ErrDO53Length
| ErrDO53Mismatch
| ErrDO53NonCanonical.

Definition UnwrapDO53 (b : bytes) : res do53_error bytes :=
  if (blen b <? 2) || negb (at_ b 0 =? 83) then Err ErrMissingDO53
  else
    let first := at_ b 1 in
    let count := if 128 <=? first then Z.land first 127 else 0 in
    if (3 <? count) || (first =? 128) || (blen b <? 2 + count) then Err ErrDO53Length
    else
      let length := if 0 <? count then be_value (slice b 2 (2 + count)) else first in
      if (MaxMessage <? length) || negb (length =? blen b - 2 - count) then Err ErrDO53Mismatch
      else if (0 <? count) && ((length <? 128) || (at_ b 2 =? 0)) then Err ErrDO53NonCanonical
      else Ok (slice b (2 + count) (blen b)).

(** ** Commands, encoded *)

(** ISO/IEC 7816-4's encodings of a command: by whether it carries data, and
    whether it asks for any, with short lengths or extended ones. *)
Inductive Encodes (c : Command) : bytes -> Prop :=
| Case1 :
    Data c = [] -> Le c = 0 -> Encodes c [CLA c; INS c; P1 c; P2 c]
| Case2S :
    Data c = [] -> 1 <= Le c <= 256 -> Encodes c [CLA c; INS c; P1 c; P2 c; Le c mod 256]
| Case2E :
    Data c = [] -> 1 <= Le c <= 65536 ->
    Encodes c [CLA c; INS c; P1 c; P2 c; 0; Le c / 256 mod 256; Le c mod 256]
| Case3S :
    1 <= blen (Data c) <= 255 -> Le c = 0 ->
    Encodes c (CLA c :: INS c :: P1 c :: P2 c :: blen (Data c) :: Data c)
| Case3E :
    1 <= blen (Data c) <= 65535 -> Le c = 0 ->
    Encodes c (CLA c :: INS c :: P1 c :: P2 c :: 0 :: blen (Data c) / 256 :: blen (Data c) mod 256 :: Data c)
| Case4S :
    1 <= blen (Data c) <= 255 -> 1 <= Le c <= 256 ->
    Encodes c (CLA c :: INS c :: P1 c :: P2 c :: blen (Data c) :: Data c ++ [Le c mod 256])
| Case4E :
    1 <= blen (Data c) <= 65535 -> 1 <= Le c <= 65536 ->
    Encodes c (CLA c :: INS c :: P1 c :: P2 c :: 0 :: blen (Data c) / 256 :: blen (Data c) mod 256 ::
               Data c ++ [Le c / 256 mod 256; Le c mod 256]).

Lemma uint16At_value b i : byte_ok (at_ b (i + 1)) -> uint16At b i = at_ b i * 256 + at_ b (i + 1).
Proof. intros Hb; unfold uint16At; by apply lor_byte. Qed.

Lemma at_cons x l i : 1 <= i -> at_ (x :: l) i = at_ l (i - 1).
Proof. intros Hi; unfold at_; by replace (Z.to_nat i) with (S (Z.to_nat (i - 1))) by lia. Qed.

Lemma shortLe_spec b le : 0 <= b < 256 -> shortLe b = le <-> 1 <= le <= 256 /\ b = le mod 256.
Proof.
  intros Hb; unfold shortLe; destruct (Z.eqb_spec b 0) as [->|]; Z.div_mod_to_equations; lia.
Qed.

Lemma extendedLe_spec h l le : 0 <= h < 256 -> 0 <= l < 256 ->
  extendedLe (h * 256 + l) = le <-> 1 <= le <= 65536 /\ h = le / 256 mod 256 /\ l = le mod 256.
Proof.
  intros Hh Hl; unfold extendedLe; destruct (Z.eqb_spec (h * 256 + l) 0); Z.div_mod_to_equations; lia.
Qed.

(** The body of a short or extended command after its length [n]: its data,
    then nothing or the [k] bytes of Le, which [le] reads. *)
Definition parse_body (c : bytes -> Z -> Command) (n k : Z) (le : bytes -> Z) (r : bytes) : option Command :=
  if (n =? 0) || (blen r <? n) then None
  else
    let t := drop (Z.to_nat n) r in
    if negb (blen t =? 0) && negb (blen t =? k) then None
    else Some (c (take (Z.to_nat n) r) (if blen t =? 0 then 0 else le t)).

Lemma at_after (l t : bytes) i : blen l <= i -> at_ (l ++ t) i = at_ t (i - blen l).
Proof. apply at_app_r. Qed.

Lemma ParseCommand_body x0 x1 x2 x3 r :
  bytes_ok r -> blen r <= maxCommandAPDU - 4 ->
  let c := fun data le => {| CLA := x0; INS := x1; P1 := x2; P2 := x3; Data := data; Le := le |} in
  ParseCommand (x0 :: x1 :: x2 :: x3 :: r) =
  match r with
  | [] => Some (c [] 0)
  | [b] => Some (c [] (shortLe b))
  | b :: r =>
      if b =? 0 then
        match r with
        | h :: l :: [] => Some (c [] (extendedLe (h * 256 + l)))
        | h :: l :: r => parse_body c (h * 256 + l) 2 (fun t => extendedLe (at_ t 0 * 256 + at_ t 1)) r
        | _ => None
        end
      else parse_body c b 1 (fun t => shortLe (at_ t 0)) r
  end.
Proof.
  intros Hr Hmax c; unfold ParseCommand; set (b := x0 :: x1 :: x2 :: x3 :: r).
  assert (Hb : blen b = 4 + blen r) by (unfold b; rewrite !blen_cons; lia).
  pose proof (blen_nonneg r).
  destruct (Z.ltb_spec (blen b) 4); [lia|]; destruct (Z.ltb_spec maxCommandAPDU (blen b)); [lia|]; cbn [orb].
  change (at_ b 0) with x0; change (at_ b 1) with x1; change (at_ b 2) with x2; change (at_ b 3) with x3.
  destruct r as [|b0 [|b1 r]]; [done|done|].
  change (at_ b 4) with b0; rewrite !blen_cons in Hb; pose proof (blen_nonneg r).
  destruct (Z.eqb_spec (blen b) 4); [lia|]; destruct (Z.eqb_spec (blen b) 5); [lia|].
  inversion_clear Hr as [|? ? Hb0 Hr']; inversion_clear Hr' as [|? ? Hb1 Hr].
  destruct (Z.eqb_spec b0 0) as [->|Hb0n]; cbn [andb orb].
  - destruct r as [|b2 r].
    { rewrite blen_nil in Hb; by destruct (Z.ltb_spec (blen b) 7); [|lia]. }
    inversion_clear Hr as [|? ? Hb2 Hr']; rewrite blen_cons in Hb; pose proof (blen_nonneg r).
    destruct (Z.ltb_spec (blen b) 7); [lia|].
    assert (Hu : uint16At b 5 = b1 * 256 + b2) by (by apply (uint16At_value b 5)); rewrite Hu.
    destruct r as [|b3 r]; [done|]; set (r0 := b3 :: r) in *.
    assert (0 < blen r0) by (unfold r0; rewrite blen_cons; pose proof (blen_nonneg r); lia).
    destruct (Z.eqb_spec (blen b) 7); [lia|]; unfold parse_body; set (len := b1 * 256 + b2).
    assert (Hn : 0 <= len) by (unfold len, byte_ok in *; lia).
    destruct (Z.eqb_spec len 0); [done|]; cbn [orb].
    replace (blen b <? 7 + len) with (blen r0 <? len) by lia.
    destruct (Z.ltb_spec (blen r0) len); [done|].
    assert (Ht : blen (drop (Z.to_nat len) r0) = blen r0 - len) by (unfold blen in *; rewrite length_drop; lia).
    cbv zeta; rewrite Ht; replace (blen b - 7 - len) with (blen r0 - len) by lia.
    destruct (negb _ && negb _)%bool eqn:E; [done|]; do 2 f_equal.
    + unfold b; rewrite !slice_cons by lia; replace (7 - 1 - 1 - 1 - 1 - 1 - 1 - 1) with 0 by lia.
      by replace (7 + len - 1 - 1 - 1 - 1 - 1 - 1 - 1) with len by lia; rewrite slice_0.
    + destruct (Z.eqb_spec (blen r0 - len) 0); [done|].
      assert (blen r0 - len = 2) as E2 by lia.
      assert (Hat : forall i, 0 <= i < 2 -> at_ b (blen b - 2 + i) = at_ (drop (Z.to_nat len) r0) i).
      { intros i Hi; replace (blen b - 2 + i) with (7 + len + i) by lia; unfold b; rewrite !at_cons by lia; unfold at_; rewrite lookup_drop; do 2 f_equal; lia. }
      pose proof (Hat 0 ltac:(lia)) as Hat0; pose proof (Hat 1 ltac:(lia)) as Hat1; rewrite Z.add_0_r in Hat0.
      rewrite uint16At_value; rewrite Hat1; [by rewrite Hat0|by apply at_ok, Forall_drop].
  - destruct (Z.ltb_spec (blen b) 5); [lia|]; set (r0 := b1 :: r) in *.
    assert (0 < blen r0) by (unfold r0; rewrite blen_cons; lia).
    assert (Hlen : blen b = 5 + blen r0) by (unfold r0; rewrite blen_cons; lia).
    assert (Hr0 : bytes_ok r0) by (by constructor).
    unfold parse_body; unfold byte_ok in Hb0; destruct (Z.eqb_spec b0 0); [done|]; cbn [orb].
    replace (blen b <? 5 + b0) with (blen r0 <? b0) by lia.
    destruct (Z.ltb_spec (blen r0) b0); [done|].
    assert (Ht : blen (drop (Z.to_nat b0) r0) = blen r0 - b0) by (unfold blen in *; rewrite length_drop; lia).
    cbv zeta; rewrite Ht; replace (blen b - 5 - b0) with (blen r0 - b0) by lia.
    destruct (negb _ && negb _)%bool eqn:E; [done|]; do 2 f_equal.
    + unfold b; rewrite !slice_cons by lia; fold r0; replace (5 - 1 - 1 - 1 - 1 - 1) with 0 by lia.
      by replace (5 + b0 - 1 - 1 - 1 - 1 - 1) with b0 by lia; rewrite slice_0.
    + destruct (Z.eqb_spec (blen r0 - b0) 0); [done|].
      assert (blen r0 - b0 = 1) as E1 by lia; f_equal.
      replace (blen b - 1) with (5 + b0) by lia; unfold b; rewrite !at_cons by lia; fold r0; unfold at_; rewrite lookup_drop; do 2 f_equal; lia.
Qed.

Lemma parse_body_exact c n k le r cmd : 0 <= n -> 0 < k ->
  parse_body c n k le r = Some cmd <->
  0 < n /\ exists data t, r = data ++ t /\ blen data = n /\ (t = [] /\ cmd = c data 0 \/ blen t = k /\ cmd = c data (le t)).
Proof.
  intros Hn Hk; unfold parse_body; split.
  - destruct (Z.eqb_spec n 0); [done|]; destruct (Z.ltb_spec (blen r) n); [done|]; cbn [orb]; cbv zeta.
    set (t := drop (Z.to_nat n) r); destruct (negb _ && negb _)%bool eqn:E; [done|]; intros [= <-].
    split; [lia|]; exists (take (Z.to_nat n) r), t; split; [symmetry; apply take_drop|].
    split; [unfold blen in *; rewrite length_take; lia|].
    destruct (Z.eqb_spec (blen t) 0) as [E0|]; [left; split; [by apply blen_zero|done]|right].
    destruct (Z.eqb_spec (blen t) k); done.
  - intros (Hn0 & data & t & -> & Hd & Ht); rewrite blen_app; pose proof (blen_nonneg t).
    destruct (Z.eqb_spec n 0); [lia|]; destruct (Z.ltb_spec (blen data + blen t) n); [lia|]; cbn [orb]; cbv zeta.
    assert (Hl : Z.to_nat n = length data) by (unfold blen in Hd; lia).
    rewrite Hl, drop_app_length, take_app_length; destruct Ht as [[-> ->]|[Ht ->]]; [done|].
    rewrite Ht, Z.eqb_refl; by destruct (Z.eqb_spec k 0); [lia|].
Qed.

Lemma blen_one {A} (l : list A) : blen l = 1 -> exists x, l = [x].
Proof. destruct l as [|x [|y l]]; cbn; [done|eauto|rewrite !blen_cons; pose proof (blen_nonneg l); lia]. Qed.

Lemma blen_two {A} (l : list A) : blen l = 2 -> exists x y, l = [x; y].
Proof.
  destruct l as [|x l]; [done|]; rewrite blen_cons; intros Hl.
  destruct (blen_one l ltac:(lia)) as [y ->]; eauto.
Qed.

Lemma div256 h l : 0 <= l < 256 -> (h * 256 + l) / 256 = h /\ (h * 256 + l) mod 256 = l.
Proof. intros Hl; split; Z.div_mod_to_equations; lia. Qed.

Lemma ParseCommand_encodes b c : bytes_ok b -> ParseCommand b = Some c -> Encodes c b.
Proof.
  intros Hb Hp; assert (Hmax : 4 <= blen b <= maxCommandAPDU).
  { revert Hp; unfold ParseCommand; destruct (Z.ltb_spec (blen b) 4); [done|].
    destruct (Z.ltb_spec maxCommandAPDU (blen b)); [done|lia]. }
  destruct b as [|x0 [|x1 [|x2 [|x3 r]]]]; cbn in Hmax; try lia; cycle -1.
  all: rewrite ?blen_cons, ?blen_nil in Hmax; try lia.
  do 4 (inversion_clear Hb as [|? ? _ Hb']; rename Hb' into Hb).
  rewrite ParseCommand_body in Hp by (done || lia).
  destruct r as [|b0 r]; [injection Hp as <-; by constructor|].
  inversion_clear Hb as [|? ? Hb0 Hr]; unfold byte_ok in Hb0.
  destruct r as [|b1 r].
  { injection Hp as <-; destruct (proj1 (shortLe_spec b0 _ Hb0) eq_refl) as [? E].
    generalize dependent (shortLe b0); intros le ? E; rewrite E; by apply (Case2S {| Data := []; Le := le |}). }
  destruct (Z.eqb_spec b0 0) as [->|].
  - destruct r as [|b2 r]; [done|]; inversion_clear Hr as [|? ? Hb1 Hr']; inversion_clear Hr' as [|? ? Hb2 Hr].
    unfold byte_ok in *; destruct r as [|b3 r].
    { injection Hp as <-; destruct (proj1 (extendedLe_spec b1 b2 _ Hb1 Hb2) eq_refl) as (? & E1 & E2).
      generalize dependent (extendedLe (b1 * 256 + b2)); intros le ? E1 E2.
      rewrite E1, E2; by apply (Case2E {| Data := []; Le := le |}). }
    apply parse_body_exact in Hp as (Hn & data & t & Hr0 & Hd & Ht); [|lia|lia].
    destruct (div256 b1 b2 Hb2) as [Hdiv Hmod]; rewrite <- Hd in Hdiv, Hmod.
    rewrite Hr0 in *; apply Forall_app in Hr as [_ Htok].
    destruct Ht as [[-> ->]|[Ht ->]].
    + rewrite app_nil_r, <- Hdiv, <- Hmod; apply (Case3E {| Data := data |}); cbn; [lia|done].
    + destruct (blen_two t Ht) as (h & l & ->); inversion_clear Htok as [|? ? Hh Htok'].
      inversion_clear Htok' as [|? ? Hl _]; unfold byte_ok in *.
      change (at_ [h; l] 0) with h; change (at_ [h; l] 1) with l.
      destruct (proj1 (extendedLe_spec h l _ Hh Hl) eq_refl) as (? & E1 & E2).
      generalize dependent (extendedLe (h * 256 + l)); intros le ? E1 E2.
      rewrite <- Hdiv, <- Hmod, E1, E2; apply (Case4E {| Data := data; Le := le |}); cbn; [lia|done].
  - apply parse_body_exact in Hp as (Hn & data & t & Hr0 & Hd & Ht); [|lia|lia].
    rewrite Hr0 in *; apply Forall_app in Hr as [_ Htok]; destruct Ht as [[-> ->]|[Ht ->]].
    + rewrite app_nil_r, <- Hd; apply (Case3S {| Data := data |}); cbn; [lia|done].
    + destruct (blen_one t Ht) as [l ->]; inversion_clear Htok as [|? ? Hl _]; unfold byte_ok in Hl.
      change (at_ [l] 0) with l; destruct (proj1 (shortLe_spec l _ Hl) eq_refl) as [? E].
      generalize dependent (shortLe l); intros le ? E.
      rewrite <- Hd, E; apply (Case4S {| Data := data; Le := le |}); cbn; [lia|done].
Qed.

Lemma encodes_ParseCommand b c : bytes_ok b -> Encodes c b -> ParseCommand b = Some c.
Proof.
  intros Hb He; destruct c as [cla ins p1 p2 data le].
  assert (Hle : forall x, 1 <= x <= 65536 -> x / 256 mod 256 * 256 + x mod 256 = x mod 65536)
    by (intros; Z.div_mod_to_equations; lia).
  destruct He; cbn [CLA INS P1 P2 Data Le] in *; subst;
    do 4 (inversion_clear Hb as [|? ? _ Hb']; rename Hb' into Hb);
    (rewrite ParseCommand_body; [|done|rewrite ?blen_cons, ?blen_app, ?blen_cons, ?blen_nil; unfold maxCommandAPDU; lia]).
  - done.
  - do 2 f_equal; apply shortLe_spec; [Z.div_mod_to_equations; lia|done].
  - cbn [Z.eqb]; do 2 f_equal; apply extendedLe_spec; [Z.div_mod_to_equations; lia..|done].
  - destruct data as [|x data]; [rewrite blen_nil in *; lia|]; set (d := x :: data) in *.
    destruct (Z.eqb_spec (blen d) 0); [lia|]; apply parse_body_exact; [lia..|split; [lia|]].
    exists d, []; rewrite app_nil_r; split; [done|split; [done|by left]].
  - destruct data as [|x data]; [rewrite blen_nil in *; lia|]; set (d := x :: data) in *; cbn [Z.eqb].
    assert (Hn : blen d / 256 * 256 + blen d mod 256 = blen d) by (Z.div_mod_to_equations; lia).
    rewrite Hn; apply parse_body_exact; [lia..|split; [lia|]].
    exists d, []; rewrite app_nil_r; split; [done|split; [done|by left]].
  - destruct data as [|x data]; [rewrite blen_nil in *; lia|]; set (d := x :: data) in *; cbn [app].
    destruct (Z.eqb_spec (blen d) 0); [lia|]; apply parse_body_exact; [lia..|split; [lia|]].
    exists d, [le mod 256]; split; [done|split; [done|right; split; [done|]]].
    change (at_ [le mod 256] 0) with (le mod 256).
    f_equal; symmetry; apply shortLe_spec; [Z.div_mod_to_equations; lia|done].
  - destruct data as [|x data]; [rewrite blen_nil in *; lia|]; set (d := x :: data) in *; cbn [app Z.eqb].
    assert (Hn : blen d / 256 * 256 + blen d mod 256 = blen d) by (Z.div_mod_to_equations; lia).
    rewrite Hn; apply parse_body_exact; [lia..|split; [lia|]].
    exists d, [le / 256 mod 256; le mod 256]; split; [done|split; [done|right; split; [done|]]].
    set (h := le / 256 mod 256); set (l := le mod 256); change (at_ [h; l] 0) with h; change (at_ [h; l] 1) with l.
    f_equal; symmetry; apply extendedLe_spec; unfold h, l; [Z.div_mod_to_equations; lia..|done].
Qed.

(** What a command is made of, when its encoding is made of bytes. *)
Record command_ok (c : Command) : Prop := {
  ok_CLA : byte_ok (CLA c);
  ok_INS : byte_ok (INS c);
  ok_P1 : byte_ok (P1 c);
  ok_P2 : byte_ok (P2 c);
  ok_Data : bytes_ok (Data c);
  ok_length : blen (Data c) <= 65535;
  ok_Le : 0 <= Le c <= 65536
}.

Lemma ParseCommand_ok b c : bytes_ok b -> ParseCommand b = Some c -> command_ok c.
Proof.
  intros Hb Hp; pose proof (ParseCommand_encodes b c Hb Hp) as He.
  destruct He as [E ?|E ?|E ?|? ?|? ?|? ?|? ?]; do 4 (inversion_clear Hb as [|? ? ? Hb']; rename Hb' into Hb);
    try (rewrite E); constructor; rewrite ?E; try (done || (rewrite ?blen_nil; lia) || apply Forall_nil_2);
    repeat (inversion_clear Hb as [|? ? ? Hb']; rename Hb' into Hb; try done); try by apply Forall_app in Hb as [? ?].
Qed.

(** [ParseCommand] accepts exactly ISO/IEC 7816-4's encodings of a
    command, short and extended, and reads the command back from each. *)
Theorem ParseCommand_exact (b : bytes) (c : Command) :
  bytes_ok b -> ParseCommand b = Some c <-> Encodes c b.
Proof. intros Hb; split; [by apply ParseCommand_encodes|by apply encodes_ParseCommand]. Qed.

Lemma ParseCommand_exact_witness :
  ParseCommand [0; 195; 0; 0; 2; 83; 0; 0] = Some {| CLA := 0; INS := 195; P1 := 0; P2 := 0; Data := [83; 0]; Le := 256 |}.
Proof.
  apply (proj2 (ParseCommand_exact [0; 195; 0; 0; 2; 83; 0; 0]
    {| CLA := 0; INS := 195; P1 := 0; P2 := 0; Data := [83; 0]; Le := 256 |} ltac:(solve_bytes))).
  apply Case4S; vm_compute; split; discriminate.
Defined.

(** ** DO53, both ways *)

Ltac solve_ok := repeat apply Forall_cons_2; try apply Forall_nil_2; done.

Lemma MaxMessage_value : MaxMessage = 2097152.
Proof. reflexivity. Qed.

Lemma be2_value n : 0 <= n <= 65535 -> be_bytes 2 (Z.land n 65535) = [n / 256; n mod 256].
Proof.
  intros Hn; assert (Z.land n 65535 = n) as ->.
  { change 65535 with (Z.ones 16); rewrite Z.land_ones by lia; apply Z.mod_small; lia. }
  cbn [be_bytes]; rewrite !land_255, Z.shiftr_div_pow2, Z.shiftr_0_r by lia; cbn [Z.mul Z.of_nat Pos.mul].
  do 2 f_equal; apply Z.mod_small; Z.div_mod_to_equations; lia.
Qed.

(** An object: its length field [first :: field], and what follows it. *)
Lemma UnwrapDO53_fields first field m :
  byte_ok first -> bytes_ok field -> (if 128 <=? first then blen field = first - 128 else field = []) ->
  UnwrapDO53 (83 :: first :: field ++ m) =
  if (3 <? blen field) || (first =? 128) then Err ErrDO53Length
  else
    let length := if 0 <? blen field then be_value field else first in
    if (MaxMessage <? length) || negb (length =? blen m) then Err ErrDO53Mismatch
    else if (0 <? blen field) && ((length <? 128) || (at_ field 0 =? 0)) then Err ErrDO53NonCanonical
    else Ok m.
Proof.
  intros Hf Hfield Hlen; unfold UnwrapDO53; set (b := 83 :: first :: field ++ m).
  assert (Hb : blen b = 2 + blen field + blen m) by (unfold b; rewrite !blen_cons, blen_app; lia).
  pose proof (blen_nonneg field); pose proof (blen_nonneg m).
  destruct (Z.ltb_spec (blen b) 2); [lia|]; change (at_ b 0) with 83; change (at_ b 1) with first.
  cbn [orb negb Z.eqb Pos.eqb]; unfold byte_ok in Hf.
  assert (Hc : (if 128 <=? first then Z.land first 127 else 0) = blen field).
  { destruct (Z.leb_spec 128 first); [|by rewrite Hlen].
    rewrite Hlen; change 127 with (Z.ones 7); rewrite Z.land_ones by lia; change (2 ^ 7) with 128.
    Z.div_mod_to_equations; lia. }
  rewrite Hc; destruct (3 <? blen field); [done|]; destruct (first =? 128); [done|]; cbn [orb].
  destruct (Z.ltb_spec (blen b) (2 + blen field)); [lia|].
  assert (Hs1 : slice b 2 (2 + blen field) = field).
  { unfold b; rewrite !slice_cons by lia; replace (2 + blen field - 1 - 1) with (blen field) by lia.
    apply slice_app_l. }
  assert (Hs2 : slice b (2 + blen field) (blen b) = m).
  { rewrite slice_suffix by lia; unfold b, blen.
    replace (Z.to_nat (2 + Z.of_nat (length field))) with (S (S (length field))) by lia; apply drop_app_length. }
  rewrite Hs1, Hs2; cbv zeta; replace (blen b - 2 - blen field) with (blen m) by lia.
  destruct (Z.ltb_spec 0 (blen field)); [|done]; cbn [andb].
  assert (at_ b 2 = at_ field 0) as ->; [|done].
  by destruct field as [|x field].
Qed.

Lemma be_value_1 x : byte_ok x -> be_value [x] = x.
Proof. intros; rewrite be_value_cons by solve_ok; rewrite blen_nil; cbn [be_value fold_left]; lia. Qed.
Lemma be_value_2 x y : byte_ok x -> byte_ok y -> be_value [x; y] = x * 256 + y.
Proof. intros; rewrite be_value_cons by solve_ok; rewrite be_value_1 by done; change (256 ^ blen [y]) with 256; lia. Qed.
Lemma be_value_3 x y z : byte_ok x -> byte_ok y -> byte_ok z -> be_value [x; y; z] = x * 65536 + y * 256 + z.
Proof.
  intros; rewrite be_value_cons by solve_ok; rewrite be_value_2 by done; change (256 ^ blen [y; z]) with 65536; lia.
Qed.

Lemma Unwrap_long field m :
  bytes_ok field -> 1 <= blen field <= 3 -> be_value field = blen m -> 128 <= blen m <= MaxMessage -> at_ field 0 <> 0 ->
  UnwrapDO53 (83 :: 128 + blen field :: field ++ m) = Ok m.
Proof.
  intros Hok Hf Hv Hm Hat; rewrite UnwrapDO53_fields; [|unfold byte_ok; lia|done|].
  - cbv zeta.
    destruct (Z.ltb_spec 3 (blen field)); [lia|]; destruct (Z.eqb_spec (128 + blen field) 128); [lia|].
    destruct (Z.ltb_spec 0 (blen field)); [|lia]; rewrite Hv, Z.eqb_refl; cbn [negb orb].
    destruct (Z.ltb_spec MaxMessage (blen m)); [lia|]; destruct (Z.ltb_spec (blen m) 128); [lia|].
    by destruct (Z.eqb_spec (at_ field 0) 0).
  - destruct (Z.leb_spec 128 (128 + blen field)); lia.
Qed.

Lemma Unwrap_short n m : blen m = n -> n < 128 -> UnwrapDO53 (83 :: n :: m) = Ok m.
Proof.
  intros Hn Hlt; pose proof (blen_nonneg m); change (83 :: n :: m) with (83 :: n :: [] ++ m).
  rewrite (UnwrapDO53_fields n [] m); [|unfold byte_ok; lia|constructor|destruct (Z.leb_spec 128 n); [lia|done]].
  rewrite Hn, blen_nil, MaxMessage_value; cbn [Z.ltb Z.compare orb negb andb].
  destruct (Z.eqb_spec n 128); [lia|]; destruct (Z.ltb_spec 2097152 n); [lia|by rewrite Z.eqb_refl].
Qed.

(** The length field WrapDO53 writes. *)
Lemma WrapDO53_field m b : WrapDO53 m = Some b ->
  blen m < 128 /\ b = 83 :: blen m :: m \/
  exists field, b = 83 :: 128 + blen field :: field ++ m /\ bytes_ok field /\ 1 <= blen field <= 3 /\
    be_value field = blen m /\ 128 <= blen m <= MaxMessage /\ at_ field 0 <> 0.
Proof.
  unfold WrapDO53; rewrite MaxMessage_value; destruct (Z.ltb_spec 2097152 (blen m)); [done|].
  pose proof (blen_nonneg m) as H0; set (n := blen m) in *; clearbody n.
  assert (Hbit : forall k, 0 <= k < 256 -> byte_ok k) by (intros; unfold byte_ok; lia).
  destruct (Z.ltb_spec n 128); [|destruct (Z.leb_spec n 255); [|destruct (Z.leb_spec n 65535)]]; intros Hs; apply (inj Some) in Hs as <-;
    [left|right..].
  - by rewrite wrap8_small by (apply Hbit; lia).
  - rewrite wrap8_small by (apply Hbit; lia); assert (byte_ok n) by (apply Hbit; lia).
    exists [n]; change (at_ [n] 0) with n; change (blen [n]) with 1; rewrite be_value_1 by done.
    repeat split; try lia; solve_ok.
  - rewrite be2_value by lia; assert (Hn : n = n / 256 * 256 + n mod 256) by (Z.div_mod_to_equations; lia).
    assert (Hr : 1 <= n / 256 < 256 /\ 0 <= n mod 256 < 256) by (Z.div_mod_to_equations; lia).
    revert Hn Hr; generalize (n / 256) (n mod 256); intros h l Hn Hr.
    exists [h; l]; change (at_ [h; l] 0) with h; change (blen [h; l]) with 2.
    rewrite be_value_2 by (apply Hbit; lia); repeat split; try lia; repeat apply Forall_cons_2; try apply Forall_nil_2; apply Hbit; lia.
  - set (k := n mod 65536).
    assert (Z.land n 65535 = Z.land k 65535) as ->.
    { change 65535 with (Z.ones 16); rewrite !Z.land_ones by lia; unfold k; by rewrite Z.mod_mod. }
    assert (Hk : 0 <= k <= 65535) by (unfold k; Z.div_mod_to_equations; lia).
    rewrite be2_value, land_255, Z.shiftr_div_pow2 by lia; change (2 ^ 16) with 65536.
    assert (Hn : n = n / 65536 mod 256 * 65536 + k) by (unfold k; Z.div_mod_to_equations; lia).
    assert (Hr : 1 <= n / 65536 mod 256 < 256) by (Z.div_mod_to_equations; lia).
    assert (Hkk : k = k / 256 * 256 + k mod 256) by (Z.div_mod_to_equations; lia).
    assert (Hr2 : 0 <= k / 256 < 256 /\ 0 <= k mod 256 < 256) by (Z.div_mod_to_equations; lia).
    revert Hn Hr Hkk Hr2; generalize (n / 65536 mod 256) (k / 256) (k mod 256); intros t h l Hn Hr Hkk Hr2.
    exists [t; h; l]; change (at_ [t; h; l] 0) with t; change (blen [t; h; l]) with 3.
    rewrite be_value_3 by (apply Hbit; lia); repeat split; try lia; repeat apply Forall_cons_2; try apply Forall_nil_2; apply Hbit; lia.
Qed.

Lemma Unwrap_Wrap m b : WrapDO53 m = Some b -> UnwrapDO53 b = Ok m.
Proof.
  intros [[Hlt ->]|(field & -> & ? & ? & ? & ? & ?)]%WrapDO53_field; [by apply Unwrap_short|by apply Unwrap_long].
Qed.

Lemma WrapDO53_ok m : blen m <= MaxMessage -> exists b, WrapDO53 m = Some b.
Proof. intros Hm; unfold WrapDO53; destruct (Z.ltb_spec MaxMessage (blen m)); [lia|eauto]. Qed.

(** A length field of [k] bytes without a leading zero is the shortest of its
    value. *)
Lemma be_value_inj l1 : forall l2, bytes_ok l1 -> bytes_ok l2 -> blen l1 = blen l2 -> be_value l1 = be_value l2 -> l1 = l2.
Proof.
  induction l1 as [|x l1 IH]; intros l2 H1 H2 Hlen Hv.
  - symmetry; apply blen_zero; by rewrite <- Hlen.
  - destruct l2 as [|y l2]; [rewrite blen_cons, blen_nil in Hlen; pose proof (blen_nonneg l1); lia|].
    rewrite !blen_cons in Hlen; inversion_clear H1 as [|? ? Hx H1']; inversion_clear H2 as [|? ? Hy H2'].
    rewrite !be_value_cons in Hv by done; assert (Hl : blen l1 = blen l2) by lia; rewrite Hl in Hv.
    pose proof (be_value_bound l1 H1') as B1; pose proof (be_value_bound l2 H2') as B2; rewrite Hl in B1.
    assert (x = y) as -> by nia; f_equal; apply IH; try done; lia.
Qed.

Lemma be_value_leading x l : byte_ok x -> bytes_ok l -> x <> 0 -> 256 ^ blen l <= be_value (x :: l).
Proof.
  intros Hx Hl Hne; rewrite be_value_cons by done; pose proof (be_value_bound l Hl); unfold byte_ok in Hx; nia.
Qed.

(** An object UnwrapDO53 takes, by its length field. *)
Lemma UnwrapDO53_shape b m : bytes_ok b -> UnwrapDO53 b = Ok m ->
  exists first field, b = 83 :: first :: field ++ m /\ byte_ok first /\ bytes_ok field /\
    (if 128 <=? first then blen field = first - 128 else field = []).
Proof.
  intros Hb Hu; unfold UnwrapDO53 in Hu; go_if_in Hu; [done|].
  destruct b as [|x [|first r]]; [done..|]; apply orb_false_iff in E as [_ Hx]; apply negb_false_iff, Z.eqb_eq in Hx.
  change (x = 83) in Hx; subst x; inversion_clear Hb as [|? ? _ Hb']; inversion_clear Hb' as [|? ? Hf Hr].
  change (at_ (83 :: first :: r) 1) with first in Hu; cbv zeta in Hu; unfold byte_ok in Hf.
  set (count := if 128 <=? first then Z.land first 127 else 0) in Hu.
  assert (Hc : 0 <= count /\ (if 128 <=? first then count = first - 128 else count = 0)).
  { unfold count; destruct (Z.leb_spec 128 first); [|done].
    change 127 with (Z.ones 7); rewrite Z.land_ones by lia; change (2 ^ 7) with 128.
    Z.div_mod_to_equations; lia. }
  clearbody count; destruct Hc as [Hc0 Hc]; go_if_in Hu; [done|]; go_if_in Hu; [done|]; go_if_in Hu; [done|].
  injection Hu as <-; apply orb_false_iff in E as [_ E]; apply Z.ltb_ge in E; rewrite !blen_cons in E.
  exists first, (take (Z.to_nat count) r); split; [|split; [done|split; [by apply Forall_take|]]].
  - rewrite slice_suffix by lia; replace (Z.to_nat (2 + count)) with (S (S (Z.to_nat count))) by lia; cbn [drop].
    by rewrite take_drop.
  - destruct (Z.leb_spec 128 first).
    + unfold blen in *; rewrite length_take; lia.
    + by subst count.
Qed.

(** So such a length field is the only one of its value. *)
Lemma be_value_canonical l1 l2 : bytes_ok l1 -> bytes_ok l2 -> 1 <= blen l1 -> 1 <= blen l2 ->
  at_ l1 0 <> 0 -> at_ l2 0 <> 0 -> be_value l1 = be_value l2 -> l1 = l2.
Proof.
  assert (Hlt : forall l k, bytes_ok l -> bytes_ok k -> 1 <= blen k -> at_ k 0 <> 0 ->
    be_value l = be_value k -> blen k <= blen l).
  { intros l k Hl Hk H1 H0 Hv; destruct k as [|y k]; [done|]; change (at_ (y :: k) 0) with y in H0.
    inversion_clear Hk as [|? ? Hy Hk']; pose proof (be_value_leading y k Hy Hk' H0) as Hle.
    pose proof (be_value_bound l Hl) as Hb; rewrite blen_cons; rewrite <- Hv in Hle.
    destruct (Z.le_gt_cases (blen l) (blen k)) as [Hc|]; [|lia].
    pose proof (Z.pow_le_mono_r 256 (blen l) (blen k) ltac:(lia) Hc); lia. }
  intros H1 H2 Hb1 Hb2 Ha1 Ha2 Hv; apply be_value_inj; try done.
  apply Z.le_antisymm; by apply Hlt.
Qed.

Lemma Wrap_Unwrap b m : bytes_ok b -> UnwrapDO53 b = Ok m -> WrapDO53 m = Some b.
Proof.
  intros Hb Hu; destruct (UnwrapDO53_shape b m Hb Hu) as (first & field & -> & Hf & Hr & Hlen).
  rewrite UnwrapDO53_fields in Hu by done; cbv zeta in Hu.
  go_if_in Hu; [done|]; go_if_in Hu; [done|]; go_if_in Hu; [done|]; clear Hu.
  bool_prop; destruct (WrapDO53_ok m ltac:(lia)) as [b' Hw]; rewrite Hw; f_equal.
  pose proof (blen_nonneg field); unfold byte_ok in Hf.
  destruct (WrapDO53_field m b' Hw) as [[Hlt ->]|(field' & -> & Hf' & Hn & Hv & Hm & Ha)].
  - destruct (Z.leb_spec 128 first); [|subst field; change (first = blen m) in H0; by subst first].
    destruct (Z.ltb_spec 0 (blen field)); [|lia]; destruct E1 as [|E1]; [done|]; bool_prop; lia.
  - destruct (Z.leb_spec 128 first); [|subst field; change (first = blen m) in H0; lia].
    destruct (Z.ltb_spec 0 (blen field)); [|lia]; destruct E1 as [|E1]; [done|]; bool_prop.
    assert (field = field') as <- by (apply be_value_canonical; try done; lia).
    by replace (128 + blen field) with first by lia.
Qed.

(** [UnwrapDO53] takes exactly the objects [WrapDO53] makes, and gives
    back the message each was made of. *)
Theorem DO53_exact (b m : bytes) :
  bytes_ok b -> UnwrapDO53 b = Ok m <-> WrapDO53 m = Some b.
Proof. intros Hb; split; [by apply Wrap_Unwrap|apply Unwrap_Wrap]. Qed.

Lemma DO53_exact_witness :
  UnwrapDO53 [83; 2; 1; 2] = Ok [1; 2] /\ WrapDO53 (repeat 7 200) = Some (83 :: 129 :: 200 :: repeat 7 200).
Proof.
  split; [by apply (proj2 (DO53_exact [83; 2; 1; 2] [1; 2] ltac:(solve_bytes)))|].
  apply (proj1 (DO53_exact (83 :: 129 :: 200 :: repeat 7 200) (repeat 7 200)
    ltac:(cbn [repeat]; solve_bytes))); vm_compute; reflexivity.
Defined.

Lemma blen_WrapDO53 m b : WrapDO53 m = Some b -> blen m < blen b <= blen m + 5.
Proof.
  intros [[Hlt ->]|(field & -> & _ & Hf & _)]%WrapDO53_field; rewrite !blen_cons, ?blen_app; lia.
Qed.
