(* ===== verification/Ndef.v ===== *)
(** * NDEF messages: [proximity/ndef.go] and the TNEP records of [proximity/nfcapdu/tnep.go]

    Two parsers of NFC Forum NDEF messages, and the encoder.  A record's
    slices of the message are lists.  The theorems: what a message is
    ([ndef_message]) and that [parseNDEF] accepts exactly those; [parseNDEF]
    reads back what [encodeNDEF] writes; [tnepRecords] agrees with
    [parseNDEF] on every message a tag can hold. *)
From S2P Require Import Prelude Apdu.

(** ** [proximity/ndef.go] *)

Definition MaxNDEFBytes : Z := 65535.
Definition maxNDEFRecords : nat := 128.

Record ndefRecord : Type := { tnf : Z; typ : bytes; id : bytes; payload : bytes }.

Inductive ndef_error : Type :=
| ErrMessageLength (n : Z)
| ErrTooManyOrTruncated
| ErrBoundaryOrChunked
| ErrTruncatedPayloadLength
| ErrPayloadTooLarge
| ErrMissingIDLength
| ErrTruncatedRecord
| ErrNonemptyEmpty
| ErrNoType
| ErrUnknownHasType
| ErrTNF (t : Z)
| ErrBytesAfterEnd
| ErrNoEndRecord
| ErrRecordCount
| ErrRecordTooLarge
| ErrMessageTooLarge.

Definition validateNDEFRecord (r : ndefRecord) : option ndef_error :=
  if tnf r =? 0 then
    if negb (blen (typ r) + blen (id r) + blen (payload r) =? 0) then Some ErrNonemptyEmpty else None
  else if (tnf r =? 1) || (tnf r =? 2) || (tnf r =? 3) || (tnf r =? 4) then
    if blen (typ r) =? 0 then Some ErrNoType else None
  else if tnf r =? 5 then
    if negb (blen (typ r) =? 0) then Some ErrUnknownHasType else None
  else Some (ErrTNF (tnf r)).

(** [flags&bit != 0]. *)
Definition flag (flags bit : Z) : bool := negb (Z.land flags bit =? 0).

(** One record at [pos]: the record, whether it ends the message, and where
    it ends. *)
Definition parseNDEF_record (b : bytes) (pos : Z) (first : bool) : res ndef_error (ndefRecord * bool * Z) :=
  if blen b - pos <? 3 then Err ErrTooManyOrTruncated
  else
    let flags := at_ b pos in
    let typeLen := at_ b (pos + 1) in
    let pos := pos + 2 in
    if negb (Bool.eqb (flag flags 128) first) || flag flags 32 then Err ErrBoundaryOrChunked
    else
      let? (payloadLen, pos) :=
        if flag flags 16 then Ok (at_ b pos, pos + 1)
        else if blen b - pos <? 4 then Err ErrTruncatedPayloadLength
        else Ok (be_value (slice b pos (pos + 4)), pos + 4) in
      if MaxNDEFBytes <? payloadLen then Err ErrPayloadTooLarge
      else
        let? (idLen, pos) :=
          if flag flags 8 then
            if pos =? blen b then Err ErrMissingIDLength else Ok (at_ b pos, pos + 1)
          else Ok (0, pos) in
        if blen b - pos <? typeLen + idLen + payloadLen then Err ErrTruncatedRecord
        else
          let r := {| tnf := Z.land flags 7;
                      typ := slice b pos (pos + typeLen);
                      id := slice b (pos + typeLen) (pos + typeLen + idLen);
                      payload := slice b (pos + typeLen + idLen) (pos + typeLen + idLen + payloadLen) |} in
          match validateNDEFRecord r with
          | Some e => Err e
          | None => Ok (r, flag flags 64, pos + typeLen + idLen + payloadLen)
          end.

(** The loop, with room for [room] more records after [records]. *)
Fixpoint parseNDEF_loop (room : nat) (b : bytes) (pos : Z) (records : list ndefRecord) : res ndef_error (list ndefRecord) :=
  if pos <? blen b then
    match room with
    | O => Err ErrTooManyOrTruncated
    | S room =>
        let? (r, last, pos) := parseNDEF_record b pos (bool_decide (records = [])) in
        let records := records ++ [r] in
        if last then
          if negb (pos =? blen b) then Err ErrBytesAfterEnd else Ok records
        else parseNDEF_loop room b pos records
    end
  else Err ErrNoEndRecord.

Definition parseNDEF (b : bytes) : res ndef_error (list ndefRecord) :=
  if (blen b =? 0) || (MaxNDEFBytes <? blen b) then Err (ErrMessageLength (blen b))
  else parseNDEF_loop maxNDEFRecords b 0 [].

(** The bytes of one record of [encodeNDEF]'s loop. *)
Definition encodeNDEF_record (first last : bool) (r : ndefRecord) : bytes :=
  let flags := tnf r in
  let flags := if first then Z.lor flags 128 else flags in
  let flags := if last then Z.lor flags 64 else flags in
  let flags := if blen (payload r) <? 256 then Z.lor flags 16 else flags in
  let flags := if negb (blen (id r) =? 0) then Z.lor flags 8 else flags in
  [flags; wrap8 (Z.land (blen (typ r)) 255)] ++
  (if flag flags 16 then [wrap8 (Z.land (blen (payload r)) 255)]
   else be_bytes 4 (Z.land (blen (payload r)) 65535)) ++
  (if flag flags 8 then [wrap8 (Z.land (blen (id r)) 255)] else []) ++
  typ r ++ id r ++ payload r.

Fixpoint encodeNDEF_loop (first : bool) (out : bytes) (records : list ndefRecord) : res ndef_error bytes :=
  match records with
  | [] => Ok out
  | r :: records =>
      match validateNDEFRecord r with
      | Some e => Err e
      | None =>
          if (255 <? blen (typ r)) || (255 <? blen (id r)) || (MaxNDEFBytes <? blen (payload r)) then Err ErrRecordTooLarge
          else
            let out := out ++ encodeNDEF_record first (bool_decide (records = [])) r in
            if MaxNDEFBytes <? blen out then Err ErrMessageTooLarge
            else encodeNDEF_loop false out records
      end
  end.

Definition encodeNDEF (records : list ndefRecord) : res ndef_error bytes :=
  if (blen records =? 0) || (Z.of_nat maxNDEFRecords <? blen records) then Err ErrRecordCount
  else encodeNDEF_loop true [] records.

(** ** [proximity/nfcapdu/tnep.go]'s records *)

(** The largest NDEF message the emulated tag holds ([type4.go]). *)
Definition maxNDEF : Z := 32765.
Definition maxTNEPRecords : nat := 128.

(** The type of a well-known record, empty otherwise, and the payload. *)
Record tnepRecord : Type := { tnep_typ : bytes; tnep_payload : bytes }.

Inductive tnep_error : Type :=
| ErrTNEPSize
| ErrTNEPTruncated
| ErrTNEPFraming
| ErrTNEPType
| ErrTNEPPayload
| ErrTNEPAfterEnd
| ErrTNEPNoEnd.

(** [ndefCursor]: a message and a position in it. *)
Record ndefCursor : Type := { cur_b : bytes; cur_pos : Z }.

Definition cur_take (c : ndefCursor) (n : Z) : res tnep_error (bytes * ndefCursor) :=
  if blen (cur_b c) - cur_pos c <? n then Err ErrTNEPTruncated
  else Ok (slice (cur_b c) (cur_pos c) (cur_pos c + n), {| cur_b := cur_b c; cur_pos := cur_pos c + n |}).

Definition cur_length (c : ndefCursor) (short : bool) : res tnep_error (Z * ndefCursor) :=
  if short then
    let? (b, c) := cur_take c 1 in
    Ok (at_ b 0, c)
  else
    let? (b, c) := cur_take c 4 in
    Ok (be_value b, c).

Definition cur_record (c : ndefCursor) (first : bool) : res tnep_error (tnepRecord * bool * ndefCursor) :=
  let? (header, c) := cur_take c 2 in
  let flags := at_ header 0 in
  let typeLength := at_ header 1 in
  let tnf := Z.land flags 7 in
  if negb (Bool.eqb (flag flags 128) first) || flag flags 32 || (5 <? tnf) then Err ErrTNEPFraming
  else
    let? (size, c) := cur_length c (flag flags 16) in
    let? (idLength, c) := if flag flags 8 then cur_length c true else Ok (0, c) in
    let empty := (typeLength =? 0) && (idLength =? 0) && (size =? 0) in
    if (tnf =? 0) && negb empty || (1 <=? tnf) && (tnf <=? 4) && (typeLength =? 0) || (tnf =? 5) && negb (typeLength =? 0)
    then Err ErrTNEPType
    else if (maxNDEF <? size) || (blen (cur_b c) - cur_pos c <? typeLength + idLength + size) then Err ErrTNEPPayload
    else
      let? (typ, c) := cur_take c typeLength in
      let? (_, c) := cur_take c idLength in
      let? (payload, c) := cur_take c size in
      Ok ({| tnep_typ := if tnf =? 1 then typ else []; tnep_payload := payload |}, flag flags 64, c).

Fixpoint tnepRecords_loop (room : nat) (c : ndefCursor) (records : list tnepRecord) : res tnep_error (list tnepRecord) :=
  if cur_pos c <? blen (cur_b c) then
    match room with
    | O => Err ErrTNEPNoEnd
    | S room =>
        let? (r, last, c) := cur_record c (bool_decide (records = [])) in
        let records := records ++ [r] in
        if last then
          if negb (cur_pos c =? blen (cur_b c)) then Err ErrTNEPAfterEnd else Ok records
        else tnepRecords_loop room c records
    end
  else Err ErrTNEPNoEnd.

Definition tnepRecords (message : bytes) : res tnep_error (list tnepRecord) :=
  if (blen message <? 1) || (maxNDEF <? blen message) then Err ErrTNEPSize
  else tnepRecords_loop maxTNEPRecords {| cur_b := message; cur_pos := 0 |} [].

Definition tnep_of (r : ndefRecord) : tnepRecord :=
  {| tnep_typ := if tnf r =? 1 then typ r else []; tnep_payload := payload r |}.

(** ** What an NDEF message is *)

(** A record's header byte: the message begin and end, short record and ID
    length flags, and the TNF. *)
Definition header (first last sr il : bool) (t : Z) : Z :=
  (if first then 128 else 0) + (if last then 64 else 0) + (if sr then 16 else 0) + (if il then 8 else 0) + t.

Definition record_bytes (first last sr il : bool) (r : ndefRecord) : bytes :=
  header first last sr il (tnf r) :: blen (typ r) ::
  (if sr then [blen (payload r)] else be_bytes 4 (blen (payload r))) ++
  (if il then [blen (id r)] else []) ++ typ r ++ id r ++ payload r.

(** A record and the lengths its form writes in one byte. *)
Definition record_form (r : ndefRecord) (sr il : bool) : Prop :=
  validateNDEFRecord r = None /\ blen (typ r) <= 255 /\ blen (id r) <= 255 /\ blen (payload r) <= MaxNDEFBytes /\
  (sr = true -> blen (payload r) <= 255) /\ (il = false -> id r = []).

Inductive ndef_records : bool -> list ndefRecord -> bytes -> Prop :=
| ndef_last first r sr il :
    record_form r sr il -> ndef_records first [r] (record_bytes first true sr il r)
| ndef_more first r sr il rs b :
    record_form r sr il -> ndef_records false rs b -> ndef_records first (r :: rs) (record_bytes first false sr il r ++ b).

Definition ndef_message (rs : list ndefRecord) (b : bytes) : Prop :=
  ndef_records true rs b /\ (length rs <= maxNDEFRecords)%nat /\ blen b <= MaxNDEFBytes.

(** *** Flags *)

Lemma byte_cases (P : Z -> bool) : forallb P (map Z.of_nat (seq 0 256)) = true -> forall f, byte_ok f -> P f = true.
Proof.
  intros Hall f Hf; unfold byte_ok in Hf; rewrite forallb_forall in Hall; apply Hall.
  replace f with (Z.of_nat (Z.to_nat f)) by lia; apply in_map, in_seq; lia.
Qed.

Lemma flags_header f : byte_ok f -> flag f 32 = false ->
  f = header (flag f 128) (flag f 64) (flag f 16) (flag f 8) (Z.land f 7).
Proof.
  intros Hf H32; pose proof (byte_cases (fun f => flag f 32 ||
    (f =? header (flag f 128) (flag f 64) (flag f 16) (flag f 8) (Z.land f 7))) eq_refl f Hf) as H.
  cbv beta in H; rewrite H32 in H; by apply Z.eqb_eq in H.
Qed.

Lemma tnf_cases t : 0 <= t <= 7 -> t = 0 \/ t = 1 \/ t = 2 \/ t = 3 \/ t = 4 \/ t = 5 \/ t = 6 \/ t = 7.
Proof. lia. Qed.

Lemma header_flags first last sr il t : 0 <= t <= 7 ->
  let f := header first last sr il t in
  flag f 128 = first /\ flag f 64 = last /\ flag f 32 = false /\ flag f 16 = sr /\ flag f 8 = il /\ Z.land f 7 = t /\ byte_ok f.
Proof.
  intros Ht; destruct (tnf_cases t Ht) as [->|[->|[->|[->|[->|[->|[->| ->]]]]]]];
    destruct first, last, sr, il; cbn; split_and!; first [reflexivity | unfold byte_ok, header; lia].
Qed.

Lemma validate_tnf r : validateNDEFRecord r = None -> 0 <= tnf r <= 5.
Proof.
  unfold validateNDEFRecord; destruct (Z.eqb_spec (tnf r) 0), (Z.eqb_spec (tnf r) 1), (Z.eqb_spec (tnf r) 2),
    (Z.eqb_spec (tnf r) 3), (Z.eqb_spec (tnf r) 4), (Z.eqb_spec (tnf r) 5); (done || lia).
Qed.

(** *** Positions *)

Definition skip {A} (p : Z) (b : list A) : list A := drop (Z.to_nat p) b.

Lemma skip_0 {A} (b : list A) : skip 0 b = b.
Proof. done. Qed.

Lemma skip_at b p : 0 <= p < blen b -> skip p b = at_ b p :: skip (p + 1) b.
Proof.
  unfold skip, at_, blen; intros Hp; replace (Z.to_nat (p + 1)) with (S (Z.to_nat p)) by lia.
  destruct (b !! Z.to_nat p) as [x|] eqn:E; [by apply drop_S|]; apply lookup_ge_None in E; lia.
Qed.

Lemma skip_slice {A} (b : list A) p q : 0 <= p <= q -> skip p b = slice b p q ++ skip q b.
Proof.
  intros Hp; unfold skip, slice; replace (Z.to_nat q) with (Z.to_nat p + Z.to_nat (q - p))%nat by lia.
  by rewrite <- drop_drop, take_drop.
Qed.

Lemma blen_skip {A} (b : list A) p : 0 <= p <= blen b -> blen (skip p b) = blen b - p.
Proof. unfold skip, blen; rewrite length_drop; lia. Qed.

Lemma skip_all {A} (b : list A) : skip (blen b) b = [].
Proof. unfold skip, blen; rewrite Nat2Z.id; apply drop_all. Qed.

(** Stepping over what is known to be there. *)
Lemma skip_app {A} (b : list A) p l k : 0 <= p -> skip p b = l ++ k -> skip (p + blen l) b = k.
Proof.
  unfold skip, blen; intros Hp E; replace (Z.to_nat (p + Z.of_nat (length l))) with (Z.to_nat p + length l)%nat by lia.
  by rewrite <- drop_drop, E, drop_app_length.
Qed.

Lemma skip_cons {A} (b : list A) p x k : 0 <= p -> skip p b = x :: k -> skip (p + 1) b = k.
Proof. intros Hp E; by apply (skip_app b p [x] k). Qed.

Lemma at_skip b p x k : skip p b = x :: k -> at_ b p = x.
Proof.
  unfold skip, at_; intros E; assert (b !! Z.to_nat p = Some x) as ->; [|done].
  rewrite <- (Nat.add_0_r (Z.to_nat p)), <- lookup_drop, E; done.
Qed.

Lemma slice_of_skip {A} (b : list A) p l k n : n = blen l -> skip p b = l ++ k -> slice b p (p + n) = l.
Proof.
  unfold skip, slice; intros -> E; replace (Z.to_nat (p + blen l - p)) with (length l) by (unfold blen; lia).
  by rewrite E, take_app_length.
Qed.

(** *** Records *)

Lemma be4_value n : 0 <= n <= MaxNDEFBytes -> be_value (be_bytes 4 n) = n.
Proof. unfold MaxNDEFBytes; intros; rewrite be_value_bytes; apply Z.mod_small; cbn; lia. Qed.

Lemma be4_bytes l : bytes_ok l -> blen l = 4 -> be_bytes 4 (be_value l) = l.
Proof.
  intros Hl H4; apply be_value_inj; [apply be_bytes_ok|done|by rewrite be_bytes_blen, H4|].
  rewrite be_value_bytes; apply Z.mod_small; pose proof (be_value_bound l Hl) as Hb; rewrite H4 in Hb; done.
Qed.

(** The type, ID and payload of a record, from where its header ends. *)
Lemma record_fields b p (t i l : bytes) k tl il pl :
  0 <= p -> skip p b = t ++ i ++ l ++ k -> tl = blen t -> il = blen i -> pl = blen l ->
  slice b p (p + tl) = t /\ slice b (p + tl) (p + tl + il) = i /\
  slice b (p + tl + il) (p + tl + il + pl) = l /\ skip (p + tl + il + pl) b = k.
Proof.
  intros Hp E -> -> ->; pose proof (blen_nonneg t); pose proof (blen_nonneg i).
  pose proof (skip_app b p _ _ Hp E) as E1; assert (Hp1 : 0 <= p + blen t) by lia; pose proof (skip_app b _ _ _ Hp1 E1) as E2.
  split_and!; [by eapply slice_of_skip..|eapply skip_app; [lia|done]].
Qed.

Lemma bytes_skip b p : bytes_ok b -> bytes_ok (skip p b).
Proof. apply Forall_drop. Qed.

(** [parseNDEF_record] reads a record in either of its forms, and nothing else. *)
Lemma parseNDEF_record_sound b pos first r last pos' : bytes_ok b -> 0 <= pos ->
  parseNDEF_record b pos first = Ok (r, last, pos') ->
  exists sr il, record_form r sr il /\ skip pos b = record_bytes first last sr il r ++ skip pos' b /\ pos < pos' <= blen b.
Proof.
  intros Hb Hpos Hp; unfold parseNDEF_record in Hp; go_if_in Hp; [done|].
  set (flags := at_ b pos) in *; set (tl := at_ b (pos + 1)) in *.
  assert (Hs : skip pos b = flags :: tl :: skip (pos + 2) b).
  { rewrite skip_at by lia; fold flags; f_equal; rewrite skip_at by lia; fold tl; do 2 f_equal; lia. }
  assert (Hf : byte_ok flags) by (by apply at_ok); assert (Htl : byte_ok tl) by (by apply at_ok).
  clearbody flags tl; go_if_in Hp; [done|]; apply orb_false_iff in E as [Hmb Hcf].
  apply negb_false_iff, eqb_prop in Hmb; pose proof (flags_header flags Hf Hcf) as Hh; rewrite Hmb in Hh.
  apply res_bind_ok in Hp as ([payloadLen p1] & Hlen & Hp).
  assert (Hl : exists lf, skip (pos + 2) b = lf ++ skip p1 b /\ pos + 2 <= p1 <= blen b /\
    lf = (if flag flags 16 then [payloadLen] else be_bytes 4 payloadLen) /\ 0 <= payloadLen /\
    (flag flags 16 = true -> payloadLen <= 255)).
  { destruct (flag flags 16).
    - injection Hlen as <- <-; exists [at_ b (pos + 2)]; rewrite skip_at by lia.
      assert (byte_ok (at_ b (pos + 2))) by (by apply at_ok); unfold byte_ok in *; split_and!; done || lia.
    - go_if_in Hlen; [done|]; injection Hlen as <- <-; set (l := slice b (pos + 2) (pos + 2 + 4)).
      assert (bytes_ok l) by (by apply Forall_take, Forall_drop); assert (blen l = 4) by (unfold l; rewrite slice_length; lia).
      exists l; rewrite be4_bytes by done; pose proof (be_value_bound l ltac:(done)).
      split_and!; [by apply skip_slice; lia|lia..|done|lia|done]. }
  destruct Hl as (lf & Hs1 & Hp1 & -> & Hpl & Hsr); clear Hlen.
  go_if_in Hp; [done|]; apply res_bind_ok in Hp as ([idLen p2] & Hid & Hp).
  assert (Hl : skip p1 b = (if flag flags 8 then [idLen] else []) ++ skip p2 b /\ p1 <= p2 <= blen b /\ 0 <= idLen <= 255 /\
    (flag flags 8 = false -> idLen = 0)).
  { destruct (flag flags 8).
    - go_if_in Hid; [done|]; injection Hid as <- <-; rewrite skip_at by lia.
      assert (byte_ok (at_ b p1)) by (by apply at_ok); unfold byte_ok in *; split_and!; done || lia.
    - injection Hid as <- <-; split_and!; done || lia. }
  destruct Hl as (Hs2 & Hp2 & Hil & Hnil); clear Hid.
  go_if_in Hp; [done|]; unfold byte_ok in Htl.
  set (t := slice b p2 (p2 + tl)) in *; set (i := slice b (p2 + tl) (p2 + tl + idLen)) in *.
  set (l := slice b (p2 + tl + idLen) (p2 + tl + idLen + payloadLen)) in *.
  destruct (validateNDEFRecord _) eqn:Hv in Hp; [done|]; injection Hp as <- <- <-.
  assert (Ht : blen t = tl) by (unfold t; rewrite slice_length; lia).
  assert (Hi : blen i = idLen) by (unfold i; rewrite slice_length; lia).
  assert (Hl : blen l = payloadLen) by (unfold l; rewrite slice_length; lia).
  exists (flag flags 16), (flag flags 8); split; [|split; [|lia]].
  - split_and!; cbn; try (done || lia); [rewrite Hl; done|intros H8; apply blen_zero; by rewrite Hi, Hnil].
  - unfold record_bytes; cbn [tnf typ id payload]; rewrite <- Hh, Ht, Hi, Hl, Hs, Hs1, Hs2; cbn [app].
    do 2 f_equal; rewrite <- !app_assoc; do 2 f_equal.
    rewrite (skip_slice b p2 (p2 + tl)), (skip_slice b (p2 + tl) (p2 + tl + idLen)) by lia.
    by rewrite (skip_slice b (p2 + tl + idLen) (p2 + tl + idLen + payloadLen)) by lia.
Qed.

Lemma parseNDEF_record_complete b pos first last r sr il k : bytes_ok b -> 0 <= pos <= blen b -> record_form r sr il ->
  skip pos b = record_bytes first last sr il r ++ k ->
  exists pos', parseNDEF_record b pos first = Ok (r, last, pos') /\ skip pos' b = k /\ pos < pos' <= blen b.
Proof.
  intros Hb Hpos (Hv & Htl & Hidl & Hpl & Hsr & Hnil) Hs; pose proof (validate_tnf r Hv) as Ht.
  assert (Hlen : blen b - pos = blen (record_bytes first last sr il r) + blen k) by (rewrite <- blen_app, <- Hs, blen_skip; lia).
  pose proof (blen_nonneg (typ r)); pose proof (blen_nonneg (id r)); pose proof (blen_nonneg (payload r)).
  pose proof (blen_nonneg k); unfold record_bytes in Hs, Hlen; cbn [app] in Hs.
  destruct (header_flags first last sr il (tnf r) ltac:(lia)) as (F1 & F2 & F3 & F4 & F5 & F6 & _).
  set (f := header first last sr il (tnf r)) in *; clearbody f.
  assert (A0 : at_ b pos = f) by (by eapply at_skip); apply skip_cons in Hs; [|lia].
  assert (A1 : at_ b (pos + 1) = blen (typ r)) by (by eapply at_skip); apply skip_cons in Hs; [|lia].
  replace (pos + 1 + 1) with (pos + 2) in Hs by lia; rewrite <- !app_assoc in Hs.
  rewrite !blen_cons, !blen_app in Hlen.
  set (lf := if sr then [blen (payload r)] else be_bytes 4 (blen (payload r))) in *.
  set (idf := if il then [blen (id r)] else []) in *.
  assert (Hlf : blen lf = if sr then 1 else 4) by (unfold lf; destruct sr; [done|apply be_bytes_blen]).
  assert (Hidf : blen idf = if il then 1 else 0) by (unfold idf; by destruct il).
  pose proof (skip_app b (pos + 2) _ _ ltac:(lia) Hs) as Hs1; set (p1 := pos + 2 + blen lf) in *.
  assert (Hp1 : 0 <= p1) by (unfold p1; destruct sr; lia).
  pose proof (skip_app b p1 _ _ Hp1 Hs1) as Hs2; set (p2 := p1 + blen idf) in *.
  assert (Hp2 : 0 <= p2) by (unfold p2; destruct il; lia).
  destruct (record_fields b p2 _ _ _ _ _ _ _ Hp2 Hs2 eq_refl eq_refl eq_refl) as (E1 & E2 & E3 & E4).
  exists (p2 + blen (typ r) + blen (id r) + blen (payload r)).
  split; [|split; [done|unfold p1 in p2; destruct sr, il; lia]].
  unfold parseNDEF_record; cbv zeta; rewrite A0, A1, F1, F2, F3, F4, F5, F6, eqb_reflx; cbn [negb orb].
  destruct (Z.ltb_spec (blen b - pos) 3); [destruct sr, il; lia|].
  assert (L1 : (if sr then Ok (at_ b (pos + 2), pos + 2 + 1)
     else if blen b - (pos + 2) <? 4 then Err ErrTruncatedPayloadLength
     else Ok (be_value (slice b (pos + 2) (pos + 2 + 4)), pos + 2 + 4)) = Ok (E := ndef_error) (blen (payload r), p1)).
  { unfold p1, lf in *; destruct sr; [by rewrite (at_skip _ _ _ _ Hs), Hlf|].
    pose proof (blen_nonneg idf); destruct (Z.ltb_spec (blen b - (pos + 2)) 4); [lia|]; rewrite Hlf.
    rewrite (slice_of_skip b (pos + 2) _ _ 4 ltac:(by rewrite Hlf) Hs), be4_value by lia; done. }
  rewrite L1; cbn [res_bind]; destruct (Z.ltb_spec MaxNDEFBytes (blen (payload r))); [lia|].
  assert (L2 : (if il then if p1 =? blen b then Err ErrMissingIDLength else Ok (at_ b p1, p1 + 1) else Ok (0, p1))
    = Ok (E := ndef_error) (blen (id r), p2)).
  { unfold p2, idf in *; destruct il; [rewrite (at_skip _ _ _ _ Hs1), Hidf|by rewrite (Hnil eq_refl), Hidf, Z.add_0_r].
    destruct (Z.eqb_spec p1 (blen b)); [unfold p1 in *; lia|done]. }
  rewrite L2; cbn [res_bind].
  destruct (Z.ltb_spec (blen b - p2) (blen (typ r) + blen (id r) + blen (payload r))); [unfold p2, p1 in *; lia|].
  rewrite E1, E2, E3; by destruct r; cbn in *; rewrite Hv.
Qed.

(** *** Messages *)

Lemma parseNDEF_loop_sound b : bytes_ok b -> forall room pos recs out, 0 <= pos ->
  parseNDEF_loop room b pos recs = Ok out ->
  exists rs, out = recs ++ rs /\ ndef_records (bool_decide (recs = [])) rs (skip pos b) /\ (length rs <= room)%nat.
Proof.
  intros Hb; induction room as [|room IH]; intros pos recs out Hpos; cbn [parseNDEF_loop]; intros Hp;
    go_if_in Hp; try done; clear H.
  apply res_bind_ok in Hp as ([[r last] pos'] & Hr & Hp).
  apply parseNDEF_record_sound in Hr as (sr & il & Hform & Hs & Hpos'); [|done..].
  rewrite Hs; destruct last.
  - go_if_in Hp; [done|]; injection Hp as <-; bool_prop; subst pos'; rewrite skip_all, app_nil_r.
    exists [r]; split_and!; [done|by constructor|cbn; lia].
  - apply IH in Hp as (rs & -> & Hrs & Hl); [|lia].
    rewrite bool_decide_false in Hrs by (by destruct recs).
    exists (r :: rs); rewrite <- app_assoc; split_and!; [done|by constructor|cbn; lia].
Qed.

Lemma blen_record_bytes first last sr il r : 1 <= blen (record_bytes first last sr il r).
Proof. unfold record_bytes; rewrite blen_cons; pose proof (blen_nonneg (blen (typ r) :: (if sr then [blen (payload r)] else be_bytes 4 (blen (payload r))) ++ (if il then [blen (id r)] else []) ++ typ r ++ id r ++ payload r)); lia. Qed.

Lemma parseNDEF_loop_complete b : bytes_ok b -> forall rs recs room pos, 0 <= pos <= blen b ->
  ndef_records (bool_decide (recs = [])) rs (skip pos b) -> (length rs <= room)%nat ->
  parseNDEF_loop room b pos recs = Ok (recs ++ rs).
Proof.
  intros Hb; induction rs as [|r rs IH]; intros recs room pos Hpos Hrs Hroom; [inversion Hrs|].
  destruct room as [|room]; [cbn in Hroom; lia|]; cbn [parseNDEF_loop].
  assert (exists sr il last k, record_form r sr il /\
    skip pos b = record_bytes (bool_decide (recs = [])) last sr il r ++ k /\
    if last then k = [] /\ rs = [] else ndef_records false rs k) as (sr & il & last & k & Hform & Hs & Hlast).
  { inversion Hrs; subst.
    - eexists _, _, true, []; rewrite app_nil_r; eauto.
    - eexists _, _, false, _; eauto. }
  destruct (parseNDEF_record_complete b pos _ last r sr il k Hb Hpos Hform Hs) as (pos' & Hr & Hk & Hpos').
  destruct (Z.ltb_spec pos (blen b)); [|lia]; rewrite Hr; cbn [res_bind].
  destruct last.
  - destruct Hlast as [-> ->]; assert (blen (skip pos' b) = 0) as H0 by (by rewrite Hk).
    rewrite blen_skip in H0 by lia; by destruct (Z.eqb_spec pos' (blen b)); [|lia].
  - rewrite (IH (recs ++ [r]) room pos'); [by rewrite <- app_assoc|lia| |cbn in Hroom; lia].
    rewrite bool_decide_false by (by destruct recs); by rewrite Hk.
Qed.

Lemma parseNDEF_spec b rs : bytes_ok b -> parseNDEF b = Ok rs <-> ndef_message rs b.
Proof.
  intros Hb; unfold parseNDEF, ndef_message; split.
  - intros Hp; go_if_in Hp; [done|]; bool_prop; apply parseNDEF_loop_sound in Hp as (rs' & -> & Hrs & Hl); [|done..].
    split_and!; [exact Hrs|exact Hl|lia].
  - intros (Hrs & Hl & Hmax); pose proof (blen_nonneg b).
    assert (1 <= blen b).
    { pose proof blen_record_bytes as Hr; inversion Hrs; subst; [by apply Hr|].
      match goal with |- _ <= blen (record_bytes ?f ?l ?s ?i ?r ++ ?k) =>
        rewrite blen_app; specialize (Hr f l s i r); pose proof (blen_nonneg k) end; lia. }
    destruct (Z.eqb_spec (blen b) 0); [lia|]; destruct (Z.ltb_spec MaxNDEFBytes (blen b)); [lia|]; cbn [orb].
    by apply (parseNDEF_loop_complete b Hb rs []); [lia|exact Hrs|].
Qed.

(** *** What [encodeNDEF] writes *)

Lemma header_lor (first last sr il : bool) t : 0 <= t <= 7 ->
  (let flags := if first then Z.lor t 128 else t in
   let flags := if last then Z.lor flags 64 else flags in
   let flags := if sr then Z.lor flags 16 else flags in
   if il then Z.lor flags 8 else flags) = header first last sr il t.
Proof.
  intros Ht; destruct (tnf_cases t Ht) as [->|[->|[->|[->|[->|[->|[->| ->]]]]]]]; by destruct first, last, sr, il.
Qed.

Lemma wrap8_len n : 0 <= n <= 255 -> wrap8 (Z.land n 255) = n.
Proof. intros Hn; rewrite land_255, Z.mod_small by lia; apply wrap8_small; unfold byte_ok; lia. Qed.

Lemma encodeNDEF_record_form first last r : validateNDEFRecord r = None ->
  blen (typ r) <= 255 -> blen (id r) <= 255 -> blen (payload r) <= MaxNDEFBytes ->
  exists sr il, record_form r sr il /\ encodeNDEF_record first last r = record_bytes first last sr il r.
Proof.
  intros Hv Ht Hi Hp; pose proof (validate_tnf r Hv); pose proof (blen_nonneg (typ r)); pose proof (blen_nonneg (id r));
    pose proof (blen_nonneg (payload r)).
  exists (blen (payload r) <? 256), (negb (blen (id r) =? 0)); split.
  - split_and!; try done.
    + intros E; apply Z.ltb_lt in E; lia.
    + intros E; apply negb_false_iff, Z.eqb_eq in E; by apply blen_zero.
  - unfold encodeNDEF_record, record_bytes; cbv zeta; rewrite header_lor by lia.
    set (sr := blen (payload r) <? 256); set (il := negb (blen (id r) =? 0)).
    destruct (header_flags first last sr il (tnf r) ltac:(lia)) as (_ & _ & _ & -> & -> & _ & _).
    rewrite (wrap8_len (blen (typ r))), (wrap8_len (blen (id r))) by lia; cbn [app]; do 3 f_equal.
    unfold sr; destruct (Z.ltb_spec (blen (payload r)) 256); [by rewrite wrap8_len by lia|].
    f_equal; change 65535 with (Z.ones 16); rewrite Z.land_ones by lia; apply Z.mod_small; unfold MaxNDEFBytes in Hp; lia.
Qed.

Lemma encodeNDEF_loop_sound rs : forall first out b, rs <> [] -> encodeNDEF_loop first out rs = Ok b ->
  exists k, b = out ++ k /\ ndef_records first rs k /\ blen b <= MaxNDEFBytes.
Proof.
  induction rs as [|r rs IH]; intros first out b Hne He; [done|]; cbn [encodeNDEF_loop] in He.
  destruct (validateNDEFRecord r) eqn:Hv; [done|]; go_if_in He; [done|]; cbv zeta in He; go_if_in He; [done|].
  bool_prop; destruct (encodeNDEF_record_form first (bool_decide (rs = [])) r) as (sr & il & Hform & Hr); [done..|].
  rewrite Hr in *; destruct rs as [|r' rs]; [rewrite bool_decide_true in * by done|rewrite bool_decide_false in * by done].
  - injection He as <-; exists (record_bytes first true sr il r); split_and!; [done|by constructor|lia].
  - apply IH in He as (k & -> & Hk & Hmax); [|done].
    exists (record_bytes first false sr il r ++ k); rewrite <- app_assoc in *; split_and!; [done|by constructor|done].
Qed.

Lemma encodeNDEF_message rs b : encodeNDEF rs = Ok b -> ndef_message rs b.
Proof.
  unfold encodeNDEF; intros He; go_if_in He; [done|]; bool_prop.
  apply encodeNDEF_loop_sound in He as (k & -> & Hk & Hmax); [|by intros E; subst rs].
  split_and!; [exact Hk| |exact Hmax]; unfold blen in *; lia.
Qed.

(** The bytes of a record's fields are bytes, and so are its encoding's. *)
Definition record_ok (r : ndefRecord) : Prop := bytes_ok (typ r) /\ bytes_ok (id r) /\ bytes_ok (payload r).

Lemma record_bytes_ok first last sr il r : record_form r sr il -> record_ok r -> bytes_ok (record_bytes first last sr il r).
Proof.
  intros (Hv & Ht & Hi & _ & Hsr & _) (H1 & H2 & H3); pose proof (validate_tnf r Hv).
  pose proof (blen_nonneg (typ r)); pose proof (blen_nonneg (id r)); pose proof (blen_nonneg (payload r)).
  unfold record_bytes; constructor; [by apply header_flags; lia|]; constructor; [unfold byte_ok; lia|].
  repeat apply Forall_app_2; try done.
  - destruct sr; [|apply be_bytes_ok]; repeat constructor; [done|specialize (Hsr eq_refl); lia].
  - destruct il; repeat constructor; [done|lia].
Qed.

Lemma ndef_records_ok first rs b : ndef_records first rs b -> Forall record_ok rs -> bytes_ok b.
Proof.
  induction 1; intros Hok; inversion_clear Hok; [by apply record_bytes_ok|].
  apply Forall_app_2; [by apply record_bytes_ok|by apply IHndef_records].
Qed.

(** *** [tnepRecords] *)

Lemma at_slice b p n i : 0 <= i < n -> 0 <= p -> at_ (slice b p (p + n)) i = at_ b (p + i).
Proof.
  intros Hi Hp; unfold at_, slice; rewrite lookup_take_lt by lia; rewrite lookup_drop; do 2 f_equal; lia.
Qed.

Lemma cur_take_ok b pos n : n <= blen b - pos ->
  cur_take {| cur_b := b; cur_pos := pos |} n = Ok (slice b pos (pos + n), {| cur_b := b; cur_pos := pos + n |}).
Proof. intros Hn; unfold cur_take; cbn [cur_b cur_pos]; by destruct (Z.ltb_spec (blen b - pos) n); [lia|]. Qed.

Lemma cur_take_short b pos n : blen b - pos < n -> cur_take {| cur_b := b; cur_pos := pos |} n = Err ErrTNEPTruncated.
Proof. intros Hn; unfold cur_take; cbn [cur_b cur_pos]; by destruct (Z.ltb_spec (blen b - pos) n); [|lia]. Qed.

Lemma cur_length_short b pos : 0 <= pos ->
  cur_length {| cur_b := b; cur_pos := pos |} true =
  if pos <? blen b then Ok (at_ b pos, {| cur_b := b; cur_pos := pos + 1 |}) else Err ErrTNEPTruncated.
Proof.
  intros Hpos; unfold cur_length; destruct (Z.ltb_spec pos (blen b)); [|by rewrite cur_take_short by lia].
  rewrite cur_take_ok by lia; cbn [res_bind]; by rewrite at_slice, Z.add_0_r by lia.
Qed.

Lemma cur_length_long b pos :
  cur_length {| cur_b := b; cur_pos := pos |} false =
  if blen b - pos <? 4 then Err ErrTNEPTruncated
  else Ok (be_value (slice b pos (pos + 4)), {| cur_b := b; cur_pos := pos + 4 |}).
Proof.
  unfold cur_length; destruct (Z.ltb_spec (blen b - pos) 4); [by rewrite cur_take_short|by rewrite cur_take_ok].
Qed.

(** The two parsers' checks of a record's shape. *)
Lemma validate_agrees r : 0 <= tnf r ->
  (5 <? tnf r) || ((tnf r =? 0) && negb ((blen (typ r) =? 0) && (blen (id r) =? 0) && (blen (payload r) =? 0)) ||
    (1 <=? tnf r) && (tnf r <=? 4) && (blen (typ r) =? 0) || (tnf r =? 5) && negb (blen (typ r) =? 0)) = false
  <-> validateNDEFRecord r = None.
Proof.
  intros Ht; unfold validateNDEFRecord; pose proof (blen_nonneg (typ r)); pose proof (blen_nonneg (id r));
    pose proof (blen_nonneg (payload r)).
  assert (((blen (typ r) =? 0) && (blen (id r) =? 0) && (blen (payload r) =? 0))%bool =
    (blen (typ r) + blen (id r) + blen (payload r) =? 0)) as ->.
  { destruct (Z.eqb_spec (blen (typ r)) 0), (Z.eqb_spec (blen (id r)) 0), (Z.eqb_spec (blen (payload r)) 0);
      cbn [andb]; symmetry; first [apply Z.eqb_eq; lia|apply Z.eqb_neq; lia]. }
  destruct (blen (typ r) + blen (id r) + blen (payload r) =? 0), (blen (typ r) =? 0);
    destruct (Z.ltb_spec 5 (tnf r)), (Z.eqb_spec (tnf r) 0), (Z.eqb_spec (tnf r) 1), (Z.eqb_spec (tnf r) 2),
      (Z.eqb_spec (tnf r) 3), (Z.eqb_spec (tnf r) 4), (Z.eqb_spec (tnf r) 5), (Z.leb_spec 1 (tnf r)), (Z.leb_spec (tnf r) 4);
    first [lia | split; done].
Qed.

(** What the type, ID and payload of a record are read as, by each parser:
    from [pos], with the header's [flags] and the lengths. *)
Lemma record_tail_agrees b pos nf tl il pl (last : bool) : 0 <= pos -> 0 <= nf -> 0 <= tl -> 0 <= il -> 0 <= pl -> blen b <= maxNDEF ->
  agrees (fun '(t, l, c) '(r, l', pos') => t = tnep_of r /\ l = l' /\ c = {| cur_b := b; cur_pos := pos' |})
    (if (5 <? nf) then Err ErrTNEPFraming else
     if (nf =? 0) && negb ((tl =? 0) && (il =? 0) && (pl =? 0)) || (1 <=? nf) && (nf <=? 4) && (tl =? 0) || (nf =? 5) && negb (tl =? 0)
     then Err ErrTNEPType
     else if (maxNDEF <? pl) || (blen b - pos <? tl + il + pl) then Err ErrTNEPPayload
     else
       let? (typ, c) := cur_take {| cur_b := b; cur_pos := pos |} tl in
       let? (_, c) := cur_take c il in
       let? (payload, c) := cur_take c pl in
       Ok ({| tnep_typ := if nf =? 1 then typ else []; tnep_payload := payload |}, last, c))
    (if MaxNDEFBytes <? pl then Err ErrPayloadTooLarge else
     if blen b - pos <? tl + il + pl then Err ErrTruncatedRecord
     else
       let r := {| tnf := nf; typ := slice b pos (pos + tl); id := slice b (pos + tl) (pos + tl + il);
                   payload := slice b (pos + tl + il) (pos + tl + il + pl) |} in
       match validateNDEFRecord r with
       | Some e => Err e
       | None => Ok (r, last, pos + tl + il + pl)
       end).
Proof.
  intros Hpos Htnf Htl Hil Hpl Hmax; unfold maxNDEF, MaxNDEFBytes in *.
  destruct (Z.ltb_spec (blen b - pos) (tl + il + pl)) as [Hs|Hs].
  { rewrite orb_true_r; repeat (go_case; try done). }
  destruct (Z.ltb_spec 65535 pl); [lia|]; destruct (Z.ltb_spec 32765 pl); [lia|]; cbn [orb]; cbv zeta.
  set (r := {| tnf := nf |}); pose proof (validate_agrees r Htnf) as Hv; cbn [tnf typ id payload r] in Hv.
  rewrite !slice_length in Hv by lia; ring_simplify (pos + tl - pos) (pos + tl + il - (pos + tl)) (pos + tl + il + pl - (pos + tl + il)) in Hv.
  destruct (validateNDEFRecord r) as [e|] eqn:Er.
  - destruct (5 <? nf); [done|]; cbn [orb] in Hv.
    match goal with |- context [if ?c then Err ErrTNEPType else _] => destruct c; [done|] end.
    by discriminate (proj1 Hv eq_refl).
  - apply proj2 in Hv; specialize (Hv eq_refl); apply orb_false_iff in Hv as [-> ->].
    rewrite cur_take_ok by lia; cbn [res_bind]; rewrite cur_take_ok by lia; cbn [res_bind].
    by rewrite cur_take_ok by lia.
Qed.

Lemma cur_length_agrees b pos short : 0 <= pos <= blen b -> bytes_ok b ->
  agrees (fun '(n, c) '(n', p) => n = n' /\ c = {| cur_b := b; cur_pos := p |} /\ 0 <= n /\ pos < p <= blen b)
    (cur_length {| cur_b := b; cur_pos := pos |} short)
    (if short then if pos =? blen b then Err ErrMissingIDLength else Ok (at_ b pos, pos + 1)
     else if blen b - pos <? 4 then Err ErrTruncatedPayloadLength
     else Ok (be_value (slice b pos (pos + 4)), pos + 4)).
Proof.
  intros Hpos Hb; destruct short; [rewrite cur_length_short by lia|rewrite cur_length_long].
  - destruct (Z.ltb_spec pos (blen b)), (Z.eqb_spec pos (blen b)); try lia; [|done].
    split_and!; try done; try lia; by apply (at_ok b pos).
  - destruct (Z.ltb_spec (blen b - pos) 4); [done|].
    split_and!; try done; try lia; apply be_value_bound; by apply Forall_take, Forall_drop.
Qed.

Lemma cur_record_agrees b pos first : 0 <= pos -> blen b <= maxNDEF -> bytes_ok b ->
  agrees (fun '(t, l, c) '(r, l', pos') => t = tnep_of r /\ l = l' /\ c = {| cur_b := b; cur_pos := pos' |})
    (cur_record {| cur_b := b; cur_pos := pos |} first) (parseNDEF_record b pos first).
Proof.
  intros Hpos Hmax Hb; unfold cur_record, parseNDEF_record.
  destruct (Z.ltb_spec (blen b - pos) 2).
  { rewrite cur_take_short by lia; cbn [res_bind]; by destruct (Z.ltb_spec (blen b - pos) 3); [|lia]. }
  rewrite cur_take_ok by lia; cbn [res_bind]; rewrite !at_slice, Z.add_0_r by lia; cbv zeta.
  assert (byte_ok (at_ b pos)) as Hf by (by apply at_ok); assert (byte_ok (at_ b (pos + 1))) as Htl by (by apply at_ok).
  set (f := at_ b pos) in *; set (tl := at_ b (pos + 1)) in *; clearbody f tl; unfold byte_ok in *.
  assert (Ht : 0 <= Z.land f 7) by (apply Z.land_nonneg; lia).
  destruct (negb (eqb (flag f 128) first) || flag f 32); cbn [orb]; [by destruct (Z.ltb_spec (blen b - pos) 3)|].
  destruct (Z.ltb_spec (blen b - pos) 3).
  { destruct (5 <? Z.land f 7); [done|].
    destruct (flag f 16); [rewrite cur_length_short by lia|rewrite cur_length_long].
    - by destruct (Z.ltb_spec (pos + 2) (blen b)); [lia|].
    - by destruct (Z.ltb_spec (blen b - (pos + 2)) 4); [|lia]. }
  apply agrees_test_l; eapply agrees_bind.
  { pose proof (cur_length_agrees b (pos + 2) (flag f 16) ltac:(lia) Hb) as Hlen.
    destruct (Z.eqb_spec (pos + 2) (blen b)); [lia|exact Hlen]. }
  intros [size c] [size' p1] (<- & -> & Hsize & Hp1); apply agrees_test_l, agrees_test_r; eapply agrees_bind.
  { instantiate (1 := fun '(n, c) '(n', p) => n = n' /\ c = {| cur_b := b; cur_pos := p |} /\ 0 <= n /\ pos < p <= blen b).
    destruct (flag f 8); [|cbn; split_and!; done || lia].
    pose proof (cur_length_agrees b p1 true ltac:(lia) Hb) as Hlen.
    revert Hlen; unfold agrees; destruct (cur_length _ _) as [[]|], (if p1 =? blen b then _ else _) as [[]|]; try done.
    intros (? & ? & ? & ?); split_and!; done || lia. }
  intros [il c] [il' p2] (<- & -> & Hil & Hp2).
  pose proof (record_tail_agrees b p2 (Z.land f 7) tl il size (flag f 64) ltac:(lia) Ht ltac:(lia) Hil Hsize Hmax) as Hta.
  exact Hta.
Qed.

Lemma tnepRecords_loop_agrees b : bytes_ok b -> blen b <= maxNDEF -> forall room pos ts rs, 0 <= pos ->
  (ts = [] <-> rs = []) -> ts = map tnep_of rs ->
  agrees (fun ts' rs' => ts' = map tnep_of rs')
    (tnepRecords_loop room {| cur_b := b; cur_pos := pos |} ts) (parseNDEF_loop room b pos rs).
Proof.
  intros Hb Hmax; induction room as [|room IH]; intros pos ts rs Hpos Hnil Hts;
    cbn [tnepRecords_loop parseNDEF_loop cur_b cur_pos]; destruct (pos <? blen b); try done.
  assert (bool_decide (ts = []) = bool_decide (rs = [])) as -> by (by apply bool_decide_ext).
  pose proof (cur_record_agrees b pos (bool_decide (rs = [])) Hpos Hmax Hb) as Hr.
  destruct (cur_record _ _) as [[[t l] c]|], (parseNDEF_record _ _ _) as [[[r l'] pos']|] eqn:Er; try done.
  destruct Hr as (-> & <- & ->); cbn [res_bind cur_b cur_pos].
  apply parseNDEF_record_sound in Er as (_ & _ & _ & _ & Hpos'); [|done..].
  destruct l; [destruct (negb _); [done|]; cbn; by rewrite map_app, Hts|].
  apply IH; [lia|by destruct ts, rs|by rewrite map_app, Hts].
Qed.

(** [parseNDEF] accepts exactly the NDEF messages of 1 to 128 records in
    at most 65535 bytes - each record in its short or long form, with an ID or
    without, the message's begin and end marked on the first and the last
    record and nowhere else - and reads the records of each. *)
Theorem parseNDEF_exact (b : bytes) (rs : list ndefRecord) :
  bytes_ok b -> parseNDEF b = Ok rs <-> ndef_message rs b.
Proof. apply parseNDEF_spec. Qed.

Lemma parseNDEF_exact_witness :
  parseNDEF [209; 1; 2; 85; 1; 2] = Ok [{| tnf := 1; typ := [85]; id := []; payload := [1; 2] |}].
Proof.
  apply (proj2 (parseNDEF_exact [209; 1; 2; 85; 1; 2] [{| tnf := 1; typ := [85]; id := []; payload := [1; 2] |}]
    ltac:(solve_bytes))).
  split; [|split; [apply le_n_S, Nat.le_0_l|vm_compute; discriminate]].
  apply (ndef_last true {| tnf := 1; typ := [85]; id := []; payload := [1; 2] |} true false).
  split; [reflexivity|]; split_and!; try (vm_compute; discriminate); done.
Defined.

(** what [encodeNDEF] writes, [parseNDEF] reads back. *)
Theorem parseNDEF_encodeNDEF (rs : list ndefRecord) (b : bytes) :
  Forall record_ok rs -> encodeNDEF rs = Ok b -> parseNDEF b = Ok rs.
Proof.
  intros Hok He; pose proof (encodeNDEF_message rs b He) as Hm.
  apply parseNDEF_spec; [|done]; destruct Hm as [Hm _]; by eapply ndef_records_ok.
Qed.

Lemma parseNDEF_encodeNDEF_witness :
  parseNDEF [145; 2; 1; 72; 115; 21; 92; 3; 4; 1; 97; 98; 99; 109; 1; 2; 3; 4] =
  Ok [{| tnf := 1; typ := [72; 115]; id := []; payload := [21] |};
      {| tnf := 4; typ := [97; 98; 99]; id := [109]; payload := [1; 2; 3; 4] |}].
Proof.
  apply parseNDEF_encodeNDEF; [|vm_compute; reflexivity].
  repeat constructor; cbn; vm_compute; discriminate.
Defined.

(** the TNEP parser of package nfcapdu and package proximity's NDEF
    parser agree on every message a tag can hold: they accept the same ones,
    and [tnepRecords] gives each record's payload with its type, where it is
    a well-known type. *)
Theorem tnepRecords_agrees (b : bytes) :
  bytes_ok b -> blen b <= maxNDEF ->
  agrees (fun ts rs => ts = map tnep_of rs) (tnepRecords b) (parseNDEF b).
Proof.
  intros Hb Hmax; unfold tnepRecords, parseNDEF; pose proof (blen_nonneg b); unfold maxNDEF, MaxNDEFBytes in *.
  destruct (Z.ltb_spec 32765 (blen b)), (Z.ltb_spec 65535 (blen b)); try lia; rewrite !orb_false_r.
  destruct (Z.ltb_spec (blen b) 1), (Z.eqb_spec (blen b) 0); try lia; [done|].
  by apply tnepRecords_loop_agrees.
Qed.

Lemma tnepRecords_agrees_witness :
  tnepRecords [209; 2; 2; 84; 101; 1; 2] = Ok [{| tnep_typ := [84; 101]; tnep_payload := [1; 2] |}].
Proof.
  pose proof (tnepRecords_agrees [209; 2; 2; 84; 101; 1; 2] ltac:(solve_bytes) ltac:(vm_compute; discriminate)) as H.
  vm_compute in H; exact (f_equal Ok H).
Defined.

(** * TNEP: the rest of [proximity/nfcapdu/tnep.go]

    The single-record TNEP messages, the service parameters a reader finds in
    a tag's initial message, and the holder's service state. *)

(** ["urn:nfc:sn:handover"]. *)
Definition handoverService : bytes :=
  [117; 114; 110; 58; 110; 102; 99; 58; 115; 110; 58; 104; 97; 110; 100; 111; 118; 101; 114].

(** ["Tp"], ["Ts"] and ["Te"]. *)
Definition Tp : bytes := [84; 112].
Definition Ts : bytes := [84; 115].
Definition Te : bytes := [84; 101].

Definition shortRecord (typ payload : bytes) : bytes := [209; lo (blen typ); lo (blen payload)] ++ typ ++ payload.

Definition tnepParameters : bytes :=
  shortRecord Tp ([16; blen handoverService] ++ handoverService ++ [0; 16; 15; Z.shiftr maxNDEF 8; Z.land maxNDEF 255]).
Definition tnepSelectPayload : bytes := [blen handoverService] ++ handoverService.
Definition tnepSelect : bytes := shortRecord Ts tnepSelectPayload.
Definition tnepSuccess : bytes := shortRecord Te [0].

(** The payload of the message's only record when it has the type, or
    nothing. *)
Definition tnepPayload (message typ : bytes) : res tnep_error (option bytes) :=
  let? records := tnepRecords message in
  match records with
  | [r] => Ok (if bytes_eqb (tnep_typ r) typ then Some (tnep_payload r) else None)
  | _ => Ok None
  end.

(** ** The service a reader finds *)

Record tnepTiming : Type := { wt : Z; waits : Z; maxMessage : Z }.

Inductive service_error : Type :=
| ErrServiceRecords (e : tnep_error)
| ErrServiceDuplicate
| ErrServiceUnsupported
| ErrServiceTiming
| ErrServiceLimit.

Definition is_handover_service (r : tnepRecord) : bool :=
  let n := blen handoverService in
  let p := tnep_payload r in
  bytes_eqb (tnep_typ r) Tp && (n + 2 <=? blen p) && (at_ p 1 =? n) && bytes_eqb (slice p 2 (2 + n)) handoverService.

(** [Ok None]: the service isn't advertised. *)
Definition tnepServiceParameters (message : bytes) : res service_error (option tnepTiming) :=
  let? records := res_map_err ErrServiceRecords (tnepRecords message) in
  let n := blen handoverService in
  match List.filter is_handover_service records with
  | [] => Ok None
  | [r] =>
      let p := tnep_payload r in
      if negb (blen p =? n + 7) || negb (at_ p 0 =? 16) || negb (at_ p (2 + n) =? 0) then Err ErrServiceUnsupported
      else
        let timing := {| wt := at_ p (3 + n); waits := at_ p (4 + n);
                         maxMessage := Z.lor (Z.shiftl (at_ p (5 + n)) 8) (at_ p (6 + n)) |} in
        if (63 <? wt timing) || (15 <? waits timing) then Err ErrServiceTiming
        else if maxMessage timing =? 0 then Err ErrServiceLimit
        else Ok (Some timing)
  | _ => Err ErrServiceDuplicate
  end.

(** ** The service a holder offers *)

Record tnepHolder : Type := { service_selected : bool; handoverReady : bool }.

(** [transact] on a message the reader wrote: the tag's answer, or none. The
    callback that negotiates the handover keeps a state of type [N]. *)
Definition tnep_transact {N : Type} (negotiate : N -> bytes -> option bytes * N)
    (h : tnepHolder) (n : N) (message : bytes) : option bytes * tnepHolder * N :=
  match tnepPayload message Ts with
  | Err _ => (None, h, n)
  | Ok service =>
      let service := default [] service in
      if bytes_eqb service [0] then
        (Some tnepParameters, {| service_selected := false; handoverReady := handoverReady h |}, n)
      else if bytes_eqb service tnepSelectPayload then
        (Some tnepSuccess, {| service_selected := true; handoverReady := handoverReady h |}, n)
      else if negb (service_selected h) then (None, h, n)
      else
        let status_ok :=
          match tnepPayload message Te with
          | Ok status => bytes_eqb (default [] status) [0]
          | Err _ => false
          end in
        if status_ok && handoverReady h then (Some tnepSuccess, h, n)
        else
          let '(hs, n) := negotiate n message in
          match hs with
          | None => (None, h, n)
          | Some hs => (Some hs, {| service_selected := service_selected h; handoverReady := true |}, n)
          end
  end.

(** The constants are the messages they stand for. *)
Lemma tnepParameters_service :
  tnepServiceParameters tnepParameters = Ok (Some {| wt := 16; waits := 15; maxMessage := maxNDEF |}).
Proof. by vm_compute. Qed.

Lemma tnepSelect_payload : tnepPayload tnepSelect Ts = Ok (Some tnepSelectPayload).
Proof. by vm_compute. Qed.

Lemma tnepSuccess_payload : tnepPayload tnepSuccess Te = Ok (Some [0]).
Proof. by vm_compute. Qed.

(** The handover is ready from when a negotiation has answered: nothing else
    changes it, and it is never taken back. *)
Lemma tnep_transact_ready {N} (negotiate : N -> bytes -> option bytes * N) h n m :
  let '(answer, h', n') := tnep_transact negotiate h n m in
  handoverReady h' = true ->
  handoverReady h = true \/
  service_selected h = true /\ exists hs, answer = Some hs /\ negotiate n m = (Some hs, n').
Proof.
  unfold tnep_transact; destruct (tnepPayload m Ts) as [service|]; [|auto].
  destruct (bytes_eqb _ [0]); [cbn; auto|]; destruct (bytes_eqb _ tnepSelectPayload); [cbn; auto|].
  destruct (service_selected h) eqn:Hsel; cbn [negb]; [|auto].
  destruct (_ && _)%bool; [auto|]; destruct (negotiate n m) as [[hs|] n']; [|auto].
  intros _; right; split; [done|]; by exists hs.
Qed.
