(* ===== verification/Type4.v ===== *)
(** * The emulated tag: [proximity/nfcapdu/type4.go]

    The NFC Forum Type 4 Tag an mdoc emulates: SELECT, READ BINARY and, when
    a reader may write, UPDATE BINARY, with the answer a write gets.  The
    callback [update] that answers a written message is an argument, and
    keeps a state of type [U].  The theorems: a bitset holds the integers put
    into it; the tag keeps its invariant; it reports a message read once all
    of the message has been read, and once only. *)
From S2P Require Import Prelude Apdu Ndef.

Definition fileCC : Z := 57603.   (* e103 *)
Definition fileNDEF : Z := 57604. (* e104 *)

Definition capabilityContainer : bytes := [0; 15; 32; 0; 255; 0; 255; 4; 6; 225; 4; 127; 255; 0; 255].

(** ** Bit sets *)

(** The words of a [[(maxNDEF + 63) / 64]uint64]. *)
Abbreviation bitset := (list Z) (only parsing).
Definition bitset_words : Z := (maxNDEF + 63) / 64.
Definition bitset_empty : bitset := repeat 0 (Z.to_nat bitset_words).

Definition bitset_word (s : bitset) (i : Z) : Z := default 0 (s !! Z.to_nat (i / 64)).

Definition bitset_set1 (s : bitset) (i : Z) : bitset :=
  <[Z.to_nat (i / 64) := Z.lor (bitset_word s i) (Z.shiftl 1 (i mod 64))]> s.

Fixpoint bitset_set_loop (n : nat) (from : Z) (s : bitset) : bitset :=
  match n with
  | O => s
  | S n => bitset_set_loop n (from + 1) (bitset_set1 s from)
  end.
Definition bitset_set (s : bitset) (from to : Z) : bitset := bitset_set_loop (Z.to_nat (to - from)) from s.

Fixpoint bitset_covers_loop (n : nat) (i : Z) (s : bitset) : bool :=
  match n with
  | O => true
  | S n =>
      if Z.land (bitset_word s i) (Z.shiftl 1 (i mod 64)) =? 0 then false
      else bitset_covers_loop n (i + 1) s
  end.
(** Whether bits [0, n) are all set. *)
Definition bitset_covers (s : bitset) (n : Z) : bool := bitset_covers_loop (Z.to_nat n) 0 s.

(** ** The tag *)

Record type4Tag : Type := {
  ndef : bytes;            (* NLEN and message *)
  committed : bytes;
  coverage : bitset;       (* the message bytes the reader has read *)
  notified : bool;
  selected : bool;
  file : Z;
  staged : option bytes;   (* a message being written in pieces *)
  written : bitset         (* the staged bytes written so far *)
}.

Definition withNLEN (message : bytes) : bytes := [hi (blen message); lo (blen message)] ++ message.

Definition newType4Tag (message : bytes) : option type4Tag :=
  if (blen message =? 0) || (maxNDEF <? blen message) then None
  else Some {| ndef := withNLEN message; committed := withNLEN message; coverage := bitset_empty; notified := false;
               selected := false; file := 0; staged := None; written := bitset_empty |}.

(** [reset] is the message the tag serves from then on, or none. *)
Definition tag_deactivate (t : type4Tag) (reset : option bytes) : type4Tag :=
  let committed := match reset with Some r => withNLEN r | None => committed t end in
  {| ndef := committed; committed := committed; coverage := bitset_empty;
     notified := match reset with Some _ => false | None => notified t end;
     selected := false; file := 0; staged := None; written := bitset_empty |}.

Definition set_selection (t : type4Tag) (sel : bool) (f : Z) : type4Tag :=
  {| ndef := ndef t; committed := committed t; coverage := coverage t; notified := notified t;
     selected := sel; file := f; staged := staged t; written := written t |}.

Definition set_coverage (t : type4Tag) (c : bitset) (n : bool) : type4Tag :=
  {| ndef := ndef t; committed := committed t; coverage := c; notified := n;
     selected := selected t; file := file t; staged := staged t; written := written t |}.

Definition set_staged (t : type4Tag) (b : bytes) (staged : option bytes) (written : bitset) : type4Tag :=
  {| ndef := b; committed := committed t; coverage := coverage t; notified := notified t;
     selected := selected t; file := file t; staged := staged; written := written |}.

Definition set_answer (t : type4Tag) (answer : bytes) : type4Tag :=
  {| ndef := withNLEN answer; committed := withNLEN answer; coverage := bitset_empty; notified := false;
     selected := selected t; file := file t; staged := staged t; written := written t |}.

(** The capability container a reader is served: byte 14 is 0 when the NDEF
    file may be written. *)
Definition served_container (writable : bool) : bytes :=
  if writable then <[14%nat := 0]> capabilityContainer else capabilityContainer.

(** [make([]byte, maxNDEF)]. *)
Definition staging : bytes := repeat 0 (Z.to_nat maxNDEF).

(** READ BINARY: the response, and whether the whole message has just been
    read for the first time. *)
Definition tag_readBinary (writable : bool) (t : type4Tag) (c : Command) : bytes * bool * type4Tag :=
  if negb (Z.land (P1 c) 128 =? 0) || negb (blen (Data c) =? 0) || (Le c =? 0) then (response swWrongP1P2 [], false, t)
  else
    let source :=
      if file t =? fileCC then Some (served_container writable)
      else if file t =? fileNDEF then Some (ndef t)
      else None in
    match source with
    | None => (response swConditionsNotMet [], false, t)
    | Some source =>
        let offset := Z.lor (Z.shiftl (P1 c) 8) (P2 c) in
        if blen source <=? offset then (response swWrongOffset [], false, t)
        else if 255 <? Le c then (response swWrongLe [], false, t)
        else
          let end_ := Z.min (offset + Le c) (blen source) in
          let '(read, t) :=
            if file t =? fileNDEF then
              let from := Z.max offset 2 - 2 in
              let to := Z.max end_ 2 - 2 in
              let cov := if from <? to then bitset_set (coverage t) from to else coverage t in
              let read := negb (notified t) && bitset_covers cov (blen (ndef t) - 2) in
              (read, set_coverage t cov (notified t || read))
            else (false, t) in
          let sw := if negb (end_ - offset =? Le c) then swEndOfFile else swOK in
          (response sw (slice source offset end_), read, t)
    end.

(** [copy(s[at:], data)] where the data fits. *)
Definition copy_at (s : bytes) (i : Z) (data : bytes) : bytes :=
  slice s 0 i ++ data ++ slice s (i + blen data) (blen s).

Section Tag.
Context {U : Type} (update : option (U -> bytes -> option bytes * U)).

Definition writable : bool := match update with Some _ => true | None => false end.

(** The end of UPDATE BINARY: the reader's whole message [incoming]. *)
Definition tag_incoming (t : type4Tag) (update : U -> bytes -> option bytes * U) (u : U) (incoming : bytes) :
    bytes * type4Tag * U :=
  let t := set_staged t (ndef t) None bitset_empty in
  let '(answer, u) := update u incoming in
  match answer with
  | None => (response swWrongData [], t, u)
  | Some answer =>
      if (blen answer <? 1) || (maxNDEF <? blen answer) then (response swNotEnoughMemory [], t, u)
      else (response swOK [], set_answer t answer, u)
  end.

Definition tag_write (t : type4Tag) (u : U) (c : Command) : bytes * type4Tag * U :=
  match update with
  | None => (response swCommandNotAllowedEF [], t, u)
  | Some update =>
      if negb (file t =? fileNDEF) then (response swConditionsNotMet [], t, u)
      else if negb (Z.land (P1 c) 128 =? 0) || (blen (Data c) =? 0) || (255 <? blen (Data c)) || negb (Le c =? 0)
      then (response swWrongP1P2 [], t, u)
      else
        let offset := Z.lor (Z.shiftl (P1 c) 8) (P2 c) in
        if negb (offset =? 0) then
          match staged t with
          | None => (response swConditionsNotMet [], t, u)
          | Some s =>
              if (offset <? 2) || (blen s <? offset - 2 + blen (Data c)) then (response swNotEnoughMemory [], t, u)
              else
                (response swOK [],
                 set_staged t (ndef t) (Some (copy_at s (offset - 2) (Data c)))
                   (bitset_set (written t) (offset - 2) (offset - 2 + blen (Data c))), u)
          end
        else if blen (Data c) <? 2 then (response swWrongLength [], t, u)
        else
          let length := Z.lor (Z.shiftl (at_ (Data c) 0) 8) (at_ (Data c) 1) in
          if (length =? 0) && (blen (Data c) =? 2) then
            (response swOK [], set_staged t [0; 0] (Some staging) bitset_empty, u)
          else if (length <? 1) || (maxNDEF <? length) then (response swNotEnoughMemory [], t, u)
          else if blen (Data c) =? length + 2 then tag_incoming t update u (slice (Data c) 2 (blen (Data c)))
          else
            match staged t with
            | Some s =>
                if (blen (Data c) =? 2) && bitset_covers (written t) length
                then tag_incoming t update u (slice s 0 length)
                else (response swConditionsNotMet [], t, u)
            | None => (response swConditionsNotMet [], t, u)
            end
  end.

(** One command APDU: the response, whether the reader has just read the
    whole message for the first time, and the new states. *)
Definition tag_process (t : type4Tag) (u : U) (apdu : bytes) : bytes * bool * type4Tag * U :=
  match ParseCommand apdu with
  | None => (response swWrongLength [], false, t, u)
  | Some c =>
      if negb (CLA c =? 0) then (response swCLANotSupported [], false, t, u)
      else if (INS c =? insSelect) && (P1 c =? 4) then
        if negb (P2 c =? 0) && negb (P2 c =? 12) then (response swWrongP1P2 [], false, t, u)
        else
          let sel := bytes_eqb (Data c) NDEFApplication in
          let t := set_selection t sel 0 in
          if negb sel then (response swFileNotFound [], false, t, u)
          else (response swOK [], false, t, u)
      else if negb (selected t) then (response swConditionsNotMet [], false, t, u)
      else if INS c =? insSelect then
        if negb (P1 c =? 0) || negb (P2 c =? 12) || negb (blen (Data c) =? 2) then (response swWrongP1P2 [], false, t, u)
        else
          let f := Z.lor (Z.shiftl (at_ (Data c) 0) 8) (at_ (Data c) 1) in
          if negb (f =? fileCC) && negb (f =? fileNDEF) then (response swFileNotFound [], false, set_selection t (selected t) 0, u)
          else (response swOK [], false, set_selection t (selected t) f, u)
      else if INS c =? insReadBinary then
        let '(resp, read, t) := tag_readBinary writable t c in (resp, read, t, u)
      else if INS c =? insUpdate then
        let '(resp, t, u) := tag_write t u c in (resp, false, t, u)
      else (response swINSNotSupported [], false, t, u)
  end.
End Tag.

(** ** Bit sets hold what is put into them *)

Definition bitset_mem (s : bitset) (i : Z) : bool := Z.testbit (bitset_word s i) (i mod 64).

Definition bitset_wf (s : bitset) : Prop := blen s = bitset_words.

Lemma bitset_words_value : bitset_words = 512.
Proof. reflexivity. Qed.

Lemma bitset_empty_wf : bitset_wf bitset_empty.
Proof. unfold bitset_wf, bitset_empty, blen; rewrite repeat_length, bitset_words_value; done. Qed.

Lemma bitset_empty_mem i : bitset_mem bitset_empty i = false.
Proof.
  unfold bitset_mem, bitset_word, bitset_empty; generalize (Z.to_nat bitset_words), (Z.to_nat (i / 64)); intros n k.
  destruct (repeat 0 n !! k) as [w|] eqn:E; cbn; [|apply Z.testbit_0_l].
  apply list_elem_of_lookup_2, list_elem_of_In, repeat_spec in E; subst w; apply Z.testbit_0_l.
Qed.

Lemma bitset_set1_wf s i : bitset_wf s -> bitset_wf (bitset_set1 s i).
Proof. unfold bitset_wf, bitset_set1, blen; by rewrite length_insert. Qed.

Lemma bitset_set1_mem s i j : bitset_wf s -> 0 <= i < 64 * bitset_words -> 0 <= j ->
  bitset_mem (bitset_set1 s i) j = bitset_mem s j || (i =? j).
Proof.
  intros Hs Hi Hj; unfold bitset_mem, bitset_set1; unfold bitset_wf, blen in Hs; rewrite bitset_words_value in *.
  assert (Hw : bitset_word (<[Z.to_nat (i / 64) := Z.lor (bitset_word s i) (Z.shiftl 1 (i mod 64))]> s) j =
    if i / 64 =? j / 64 then Z.lor (bitset_word s i) (Z.shiftl 1 (i mod 64)) else bitset_word s j).
  { unfold bitset_word at 1; destruct (Z.eqb_spec (i / 64) (j / 64)) as [E|E].
    - rewrite <- E, list_lookup_insert_eq; [done|]; Z.div_mod_to_equations; lia.
    - rewrite list_lookup_insert_ne; [done|]; Z.div_mod_to_equations; lia. }
  rewrite Hw; destruct (Z.eqb_spec (i / 64) (j / 64)) as [E|E].
  - rewrite Z.lor_spec, Z.shiftl_spec by (Z.div_mod_to_equations; lia).
    assert (bitset_word s i = bitset_word s j) as -> by (unfold bitset_word; by rewrite E); f_equal.
    destruct (Z.eqb_spec i j) as [->|Hne]; [by rewrite Z.sub_diag|].
    assert (j mod 64 - i mod 64 <> 0) by (Z.div_mod_to_equations; lia).
    destruct (Z.lt_trichotomy (j mod 64 - i mod 64) 0) as [?|[?|?]]; [by apply Z.testbit_neg_r|lia|].
    change 1 with (2 ^ 0); apply Z.pow2_bits_false; lia.
  - destruct (Z.eqb_spec i j) as [->|]; [done|by rewrite orb_false_r].
Qed.

Lemma bitset_set_loop_spec n : forall from s, bitset_wf s -> 0 <= from -> from + Z.of_nat n <= 64 * bitset_words ->
  bitset_wf (bitset_set_loop n from s) /\
  forall j, 0 <= j -> bitset_mem (bitset_set_loop n from s) j = bitset_mem s j || ((from <=? j) && (j <? from + Z.of_nat n)).
Proof.
  induction n as [|n IH]; intros from s Hs Hf Hn; cbn [bitset_set_loop].
  - split; [done|]; intros j Hj; destruct (Z.leb_spec from j), (Z.ltb_spec j (from + Z.of_nat 0));
      cbn [andb]; by rewrite ?orb_false_r || lia.
  - destruct (IH (from + 1) (bitset_set1 s from)) as [Hwf Hmem]; [by apply bitset_set1_wf|lia..|].
    split; [done|]; intros j Hj; rewrite Hmem, bitset_set1_mem, <- orb_assoc by (done || lia); f_equal.
    destruct (Z.eqb_spec from j), (Z.leb_spec (from + 1) j), (Z.ltb_spec j (from + 1 + Z.of_nat n)),
      (Z.leb_spec from j), (Z.ltb_spec j (from + Z.of_nat (S n))); cbn; done || lia.
Qed.

Lemma bitset_set_wf s from to : bitset_wf s -> 0 <= from -> to <= 64 * bitset_words -> bitset_wf (bitset_set s from to).
Proof.
  intros Hs Hf Ht; unfold bitset_set; destruct (Z.le_gt_cases from to); [apply bitset_set_loop_spec; done || lia|].
  by replace (Z.to_nat (to - from)) with 0%nat by lia.
Qed.

Lemma bitset_set_mem s from to j : bitset_wf s -> 0 <= from -> to <= 64 * bitset_words -> 0 <= j ->
  bitset_mem (bitset_set s from to) j = bitset_mem s j || ((from <=? j) && (j <? to)).
Proof.
  intros Hs Hf Ht Hj; unfold bitset_set; destruct (Z.le_gt_cases from to).
  - destruct (bitset_set_loop_spec (Z.to_nat (to - from)) from s Hs Hf ltac:(lia)) as [_ ->]; [|done].
    by replace (from + Z.of_nat (Z.to_nat (to - from))) with to by lia.
  - replace (Z.to_nat (to - from)) with 0%nat by lia; cbn.
    destruct (Z.leb_spec from j), (Z.ltb_spec j to); cbn; by rewrite ?orb_false_r || lia.
Qed.

Lemma bitset_covers_loop_spec s n : forall i, 0 <= i ->
  bitset_covers_loop n i s = true <-> forall j, i <= j < i + Z.of_nat n -> bitset_mem s j = true.
Proof.
  induction n as [|n IH]; intros i Hi; cbn [bitset_covers_loop]; [split; [lia|done]|].
  assert (Hbit : (Z.land (bitset_word s i) (Z.shiftl 1 (i mod 64)) =? 0) = negb (bitset_mem s i)).
  { assert (Hm : 0 <= i mod 64) by (Z.div_mod_to_equations; lia).
    unfold bitset_mem; rewrite Z.shiftl_1_l; destruct (Z.testbit (bitset_word s i) (i mod 64)) eqn:E; cbn.
    - apply Z.eqb_neq; intros H0; assert (Z.testbit 0 (i mod 64) = true) as Ht; [|by rewrite Z.testbit_0_l in Ht].
      by rewrite <- H0, Z.land_spec, E, Z.pow2_bits_true.
    - apply Z.eqb_eq; apply Z.bits_inj'; intros k Hk; rewrite Z.land_spec, Z.testbit_0_l.
      destruct (Z.eq_dec (i mod 64) k) as [<-|]; [by rewrite E|]; by rewrite Z.pow2_bits_false, andb_false_r. }
  rewrite Hbit; destruct (bitset_mem s i) eqn:Hm; cbn [negb].
  - rewrite IH by lia; split; intros H j Hj; [|apply H; lia].
    destruct (Z.eq_dec i j) as [<-|]; [done|apply H; lia].
  - split; [done|]; intros H; rewrite <- Hm; apply H; lia.
Qed.

Lemma bitset_covers_spec s n : 0 <= n -> bitset_covers s n = true <-> forall j, 0 <= j < n -> bitset_mem s j = true.
Proof.
  intros Hn; unfold bitset_covers; rewrite bitset_covers_loop_spec by lia.
  split; intros H j Hj; apply H; lia.
Qed.

(** ** The tag's invariant *)

Record TagInv (t : type4Tag) : Prop := {
  ti_committed : exists m, committed t = withNLEN m /\ 1 <= blen m <= maxNDEF;
  ti_ndef : ndef t = committed t \/ ndef t = [0; 0];
  ti_staged : forall s, staged t = Some s -> blen s = maxNDEF /\ ndef t = [0; 0];
  ti_file : (selected t = false -> file t = 0) /\ (file t = 0 \/ file t = fileCC \/ file t = fileNDEF);
  ti_coverage : bitset_wf (coverage t);
  ti_written : bitset_wf (written t)
}.

Lemma blen_withNLEN m : blen (withNLEN m) = 2 + blen m.
Proof. unfold withNLEN; by rewrite blen_app. Qed.

Lemma withNLEN_ne m : 1 <= blen m -> withNLEN m <> [0; 0].
Proof. intros Hm E; pose proof (blen_withNLEN m) as H; rewrite E in H; change (blen [0; 0]) with 2 in H; lia. Qed.

Lemma newType4Tag_inv m t : newType4Tag m = Some t -> TagInv t /\ coverage t = bitset_empty /\ notified t = false.
Proof.
  unfold newType4Tag; intros Hn; go_if_in Hn; [done|]; injection Hn as <-; pose proof (blen_nonneg m); bool_prop.
  split_and!; try done; constructor; cbn; [exists m; split; [done|lia]|auto|done|auto|apply bitset_empty_wf..].
Qed.

Lemma tag_deactivate_inv t reset : TagInv t -> (forall r, reset = Some r -> 1 <= blen r <= maxNDEF) ->
  TagInv (tag_deactivate t reset).
Proof.
  intros [(m & Hm & Hl) ? ? ? ? ?] Hr; constructor; cbn; try (done || auto using bitset_empty_wf).
  destruct reset as [r|]; [exists r; auto|by exists m].
Qed.

Lemma ti_ndef_length t : TagInv t -> 2 <= blen (ndef t) <= maxNDEF + 2.
Proof.
  intros H; destruct (ti_committed t H) as (m & Hm & Hl); destruct (ti_ndef t H) as [->| ->].
  - rewrite Hm, blen_withNLEN; lia.
  - change (blen [0; 0]) with 2; unfold maxNDEF; lia.
Qed.

(** The offset of READ BINARY and UPDATE BINARY. *)
Lemma offset_value c : command_ok c -> Z.lor (Z.shiftl (P1 c) 8) (P2 c) = P1 c * 256 + P2 c.
Proof. intros Hc; apply lor_byte, Hc. Qed.

(** Byte [i] of the message is among those the response to [c] carries. *)
Definition carried (t : type4Tag) (c : Command) (resp : bytes) (i : Z) : Prop :=
  exists sw d, (sw = swOK \/ sw = swEndOfFile) /\ resp = response sw d /\
    INS c = insReadBinary /\ file t = fileNDEF /\
    let k := i + 2 - (P1 c * 256 + P2 c) in
    0 <= k < blen d /\ at_ d k = at_ (committed t) (i + 2).

Lemma at_slice_in (b : bytes) p q i : 0 <= p <= i -> i < q -> at_ (slice b p q) (i - p) = at_ b i.
Proof.
  intros Hi Hq; unfold at_, slice; rewrite lookup_take_lt by lia; rewrite lookup_drop.
  do 2 f_equal; lia.
Qed.

Lemma tag_readBinary_inv w t c resp read t' : TagInv t -> command_ok c -> INS c = insReadBinary ->
  tag_readBinary w t c = (resp, read, t') ->
  TagInv t' /\ committed t' = committed t /\ ndef t' = ndef t /\ staged t' = staged t /\
  notified t' = (notified t || read) /\
  (forall i, 0 <= i -> bitset_mem (coverage t') i = true -> bitset_mem (coverage t) i = true \/ carried t c resp i) /\
  (read = true -> notified t = false /\ forall i, 0 <= i < blen (ndef t) - 2 -> bitset_mem (coverage t') i = true).
Proof.
  intros Ht Hc Hins Hr; unfold tag_readBinary in Hr; pose proof (offset_value c Hc) as Hoff; rewrite Hoff in Hr.
  assert (Hsame : forall x, (x, false, t) = (resp, read, t') -> TagInv t' /\ committed t' = committed t /\ ndef t' = ndef t /\
    staged t' = staged t /\ notified t' = (notified t || read) /\
    (forall i, 0 <= i -> bitset_mem (coverage t') i = true -> bitset_mem (coverage t) i = true \/ carried t c resp i) /\
    (read = true -> notified t = false /\ forall i, 0 <= i < blen (ndef t) - 2 -> bitset_mem (coverage t') i = true)).
  { intros x [= _ <- <-]; rewrite orb_false_r; split_and!; try done; auto. }
  go_if_in Hr; [by apply Hsame in Hr|]; destruct (if file t =? fileCC then _ else _) as [source|] eqn:Hsrc; [|by apply Hsame in Hr].
  go_if_in Hr; [by apply Hsame in Hr|]; go_if_in Hr; [by apply Hsame in Hr|].
  destruct Hc as [_ _ HP1 HP2 _ _ HLe]; unfold byte_ok in *; set (offset := P1 c * 256 + P2 c) in *.
  destruct (Z.eqb_spec (file t) fileNDEF) as [Ef|Ef]; [|by apply Hsame in Hr].
  rewrite Ef in Hsrc; injection Hsrc as <-; injection Hr as <- <- <-.
  pose proof (ti_ndef_length t Ht) as Hlen; unfold maxNDEF in Hlen.
  set (end_ := Z.min (offset + Le c) (blen (ndef t))) in *.
  set (cov := if _ <? _ then _ else _).
  assert (Hoff0 : 0 <= offset) by (unfold offset; lia).
  assert (Hcov : bitset_wf cov /\ forall i, 0 <= i ->
    bitset_mem cov i = (bitset_mem (coverage t) i || ((Z.max offset 2 - 2 <=? i) && (i <? Z.max end_ 2 - 2)))).
  { unfold cov; destruct (Z.ltb_spec (Z.max offset 2 - 2) (Z.max end_ 2 - 2)).
    - split; [apply bitset_set_wf|intros i Hi; apply bitset_set_mem]; try (done || lia); try apply Ht;
        rewrite bitset_words_value; lia.
    - split; [apply Ht|]; intros i Hi.
      destruct (Z.leb_spec (Z.max offset 2 - 2) i), (Z.ltb_spec i (Z.max end_ 2 - 2)); cbn; by rewrite ?orb_false_r || lia. }
  destruct Hcov as [Hwf Hmem]; clearbody cov; split_and!; try done.
  - destruct Ht; constructor; done.
  - cbn; intros i Hi Hm; rewrite Hmem in Hm by done; apply orb_true_iff in Hm as [Hm|Hm]; [by left|right].
    apply andb_true_iff in Hm as [H1 H2]; apply Z.leb_le in H1; apply Z.ltb_lt in H2.
    assert (Hnd : ndef t = committed t).
    { destruct (ti_ndef t Ht) as [|E2]; [done|]; exfalso; assert (blen (ndef t) = 2) by (by rewrite E2); lia. }
    exists (if negb (end_ - offset =? Le c) then swEndOfFile else swOK), (slice (ndef t) offset end_).
    split; [destruct (end_ - offset =? Le c); cbn [negb]; auto|split; [done|split; [done|split; [done|]]]].
    cbv zeta; fold offset; rewrite slice_length by lia; split; [lia|].
    by rewrite at_slice_in, Hnd by lia.
  - intros Hread; apply andb_true_iff in Hread as [Hn Hcv]; split; [by apply negb_true_iff|].
    cbn; by apply bitset_covers_spec; [lia|].
Qed.

Lemma triple_inj {A B C} (a a' : A) (b b' : B) (c c' : C) : (a, b, c) = (a', b', c') -> a = a' /\ b = b' /\ c = c'.
Proof. by intros [= -> -> ->]. Qed.

Lemma staging_length : blen staging = maxNDEF.
Proof. unfold staging, blen; rewrite repeat_length; unfold maxNDEF; lia. Qed.

Lemma copy_at_length s i data : 0 <= i -> i + blen data <= blen s -> blen (copy_at s i data) = blen s.
Proof.
  intros Hi Hl; pose proof (blen_nonneg data); unfold copy_at; rewrite !blen_app, !slice_length by lia; lia.
Qed.

(** An UPDATE BINARY that succeeds and leaves a message in the file has put
    a new one there. *)
Definition answered (c : Command) (resp : bytes) (t' : type4Tag) : bool :=
  (INS c =? insUpdate) && bytes_eqb resp (response swOK []) && negb (bytes_eqb (ndef t') [0; 0]).

Lemma answered_true c resp t' : answered c resp t' = true <->
  INS c = insUpdate /\ resp = response swOK [] /\ ndef t' <> [0; 0].
Proof.
  unfold answered, bytes_eqb; rewrite !andb_true_iff, negb_true_iff, Z.eqb_eq, bool_decide_eq_true, bool_decide_eq_false.
  tauto.
Qed.

Section Run.
Context {U : Type} (update : option (U -> bytes -> option bytes * U)).

(** What a write does to the message and to what has been read of it. *)
Definition write_kept (t : type4Tag) (c : Command) (resp : bytes) (t' : type4Tag) : Prop :=
  TagInv t' /\
  if answered c resp t' then coverage t' = bitset_empty /\ notified t' = false
  else committed t' = committed t /\ coverage t' = coverage t /\ notified t' = notified t.

Lemma write_same t c resp : TagInv t -> resp <> response swOK [] -> write_kept t c resp t.
Proof.
  intros Ht Hr; split; [done|]; destruct (answered c resp t) eqn:E; [|done].
  by apply answered_true in E as (_ & ? & _).
Qed.

Lemma tag_incoming_inv t (up : U -> bytes -> option bytes * U) u incoming c resp t' u' :
  TagInv t -> INS c = insUpdate -> tag_incoming t up u incoming = (resp, t', u') -> write_kept t c resp t'.
Proof.
  intros Ht Hins; unfold tag_incoming; destruct (up u incoming) as [[answer|] u1].
  - set (t0 := set_staged t (ndef t) None bitset_empty).
    assert (H0 : TagInv t0) by (destruct Ht; constructor; try done; apply bitset_empty_wf).
    destruct (_ || _)%bool eqn:E; intros Hr; injection Hr as <- <- <-.
    + by apply (write_same t0 c).
    + apply orb_false_iff in E as [E1 E2]; apply Z.ltb_ge in E1, E2.
      assert (answered c (response swOK []) (set_answer t0 answer) = true) as Ha.
      { apply answered_true; split_and!; [done..|by apply withNLEN_ne]. }
      unfold write_kept; rewrite Ha; split; [|done].
      destruct H0; constructor; cbn; try done; [by exists answer|by left].
  - intros Hr; injection Hr as <- <- <-.
    assert (H0 : TagInv (set_staged t (ndef t) None bitset_empty)) by (destruct Ht; constructor; try done; apply bitset_empty_wf).
    by apply (write_same _ c _ H0).
Qed.

Lemma tag_write_inv t u c resp t' u' : TagInv t -> command_ok c -> INS c = insUpdate ->
  tag_write update t u c = (resp, t', u') -> write_kept t c resp t'.
Proof.
  intros Ht Hc Hins; unfold tag_write; rewrite (offset_value c Hc).
  assert (Hsame : forall sw, response sw [] <> response swOK [] ->
    (response sw [], t, u) = (resp, t', u') -> write_kept t c resp t').
  { intros sw Hsw E; injection E as <- <- <-; by apply write_same. }
  destruct update as [up|]; [|by apply Hsame].
  go_if; [by apply Hsame|]; go_if; [by apply Hsame|]; cbv zeta.
  bool_prop; destruct Hc as [_ _ HP1 HP2 HD _ _]; unfold byte_ok in *.
  set (offset := P1 c * 256 + P2 c); assert (Hoff : 0 <= offset < 65536) by (unfold offset; lia).
  go_if.
  - destruct (staged t) as [s|] eqn:Es; [|by apply Hsame]; go_if; [by apply Hsame|].
    intros Hr; injection Hr as <- <- <-; bool_prop; destruct (ti_staged t Ht s Es) as [Hs Hnd].
    split.
    + destruct Ht; constructor; cbn; try done.
      * intros s' [= <-]; rewrite copy_at_length by lia; by rewrite Hs.
      * apply bitset_set_wf; [done|lia|unfold maxNDEF in *; rewrite bitset_words_value; lia].
    + destruct (answered _ _ _) eqn:Ea; [|done]; by apply answered_true in Ea as (_ & _ & ?).
  - go_if; [by apply Hsame|]; go_if.
    + intros Hr; apply triple_inj in Hr as (<- & <- & <-); split.
      * destruct Ht as [? ? ? ? ? ?]; constructor; try done; [by right|].
        intros s Hs; apply (inj Some) in Hs as <-; split; [apply staging_length|done].
      * destruct (answered _ _ _) eqn:Ea; [|done]; by apply answered_true in Ea as (_ & _ & ?).
    + go_if; [by apply Hsame|]; go_if; [by apply tag_incoming_inv|].
      destruct (staged t) as [s|]; [|by apply Hsame]; go_if; [by apply tag_incoming_inv|by apply Hsame].
Qed.

(** *** Runs: commands and field losses, with what has been read since the
    message was put there or the field came up ([seen]), and whether the tag
    has reported this message read ([told]) *)

Definition seen_after (t : type4Tag) (apdu resp : bytes) (t' : type4Tag) (seen : Z -> Prop) (i : Z) : Prop :=
  match ParseCommand apdu with
  | None => seen i
  | Some c => answered c resp t' = false /\ (seen i \/ carried t c resp i)
  end.

Definition told_after (apdu resp : bytes) (t' : type4Tag) (told read : bool) : bool :=
  match ParseCommand apdu with
  | None => told
  | Some c => if answered c resp t' then false else told || read
  end.

Inductive tag_run : type4Tag -> (Z -> Prop) -> bool -> Prop :=
| run_new m t :
    newType4Tag m = Some t -> tag_run t (fun _ => False) false
| run_process t seen told apdu u resp read t' u' :
    tag_run t seen told -> bytes_ok apdu -> tag_process update t u apdu = (resp, read, t', u') ->
    tag_run t' (seen_after t apdu resp t' seen) (told_after apdu resp t' told read)
| run_deactivate t seen told reset :
    tag_run t seen told -> (forall r, reset = Some r -> 1 <= blen r <= maxNDEF) ->
    tag_run (tag_deactivate t reset) (fun _ => False) (match reset with Some _ => false | None => told end).

Lemma tag_process_kept t u apdu resp read t' u' seen told : TagInv t -> bytes_ok apdu ->
  (forall i, 0 <= i -> bitset_mem (coverage t) i = true -> seen i) -> told = notified t ->
  tag_process update t u apdu = (resp, read, t', u') ->
  TagInv t' /\
  (forall i, 0 <= i -> bitset_mem (coverage t') i = true -> seen_after t apdu resp t' seen i) /\
  told_after apdu resp t' told read = notified t' /\
  (read = true -> told = false /\ ndef t' = ndef t /\
    forall i, 0 <= i < blen (ndef t) - 2 -> bitset_mem (coverage t') i = true).
Proof.
  intros Ht Hb Hcov -> Hp; unfold tag_process in Hp; unfold seen_after, told_after.
  destruct (ParseCommand apdu) as [c|] eqn:Ec; [|by injection Hp as <- <- <- <-].
  pose proof (ParseCommand_ok apdu c Hb Ec) as Hc.
  set (P := fun resp read t' => TagInv t' /\
    (forall i, 0 <= i -> bitset_mem (coverage t') i = true -> answered c resp t' = false /\ (seen i \/ carried t c resp i)) /\
    (if answered c resp t' then false else notified t || read) = notified t' /\
    (read = true -> notified t = false /\ ndef t' = ndef t /\
      forall i, 0 <= i < blen (ndef t) - 2 -> bitset_mem (coverage t') i = true)).
  enough (Hgoal : P resp read t') by exact Hgoal.
  (* a step that leaves the messages and what was read of them alone *)
  assert (Hstay : forall resp t', TagInv t' -> coverage t' = coverage t -> notified t' = notified t ->
    answered c resp t' = false -> P resp false t').
  { intros r s Hs E1 E2 Ha; unfold P; rewrite Ha, E1, E2, orb_false_r; split_and!; try done; auto. }
  assert (Hst : forall sw s, TagInv s -> coverage s = coverage t -> notified s = notified t ->
    (INS c <> insUpdate \/ response sw [] <> response swOK []) -> P (response sw []) false s).
  { intros sw s Hs E1 E2 Hne; apply Hstay; try done; destruct (answered c (response sw []) s) eqn:Ea; [|done].
    apply answered_true in Ea as (? & ? & _); by destruct Hne. }
  assert (Hset : forall sel f, (sel = false -> f = 0) /\ (f = 0 \/ f = fileCC \/ f = fileNDEF) -> TagInv (set_selection t sel f))
    by (intros sel f Hf; destruct Ht; by constructor).
  destruct (negb (CLA c =? 0)); [injection Hp as <- <- <- <-; apply Hst; auto|].
  destruct (Z.eqb_spec (INS c) insSelect) as [Es|Es]; cbn [andb] in Hp.
  { assert (Hne : INS c <> insUpdate) by (by rewrite Es).
    destruct (P1 c =? 4).
    - go_if_in Hp; [injection Hp as <- <- <- <-; apply Hst; auto|cbv zeta in Hp].
      go_if_in Hp; injection Hp as <- <- <- <-; (apply Hst; [apply Hset; auto|done..|auto]).
    - destruct (selected t) eqn:Esel; cbn [negb] in Hp; [|injection Hp as <- <- <- <-; apply Hst; auto].
      go_if_in Hp; [injection Hp as <- <- <- <-; apply Hst; auto|cbv zeta in Hp].
      go_if_in Hp; injection Hp as <- <- <- <-; (apply Hst; [apply Hset; split; [done|]|done..|auto]); [auto|].
      apply andb_false_iff in E0 as [E0|E0]; apply negb_false_iff, Z.eqb_eq in E0; auto. }
  destruct (negb (selected t)); [injection Hp as <- <- <- <-; apply Hst; auto|].
  destruct (Z.eqb_spec (INS c) insReadBinary) as [Er|Er].
  { destruct (tag_readBinary (writable update) t c) as [[r0 rd0] t0] eqn:Erb; injection Hp as <- <- <- <-.
    destruct (tag_readBinary_inv _ _ _ _ _ _ Ht Hc Er Erb) as (H1 & H2 & H3 & H4 & H5 & H6 & H7).
    assert (Ha : answered c r0 t0 = false) by (unfold answered; by rewrite Er).
    unfold P; rewrite Ha; split_and!; [done| |done|].
    - intros i Hi Hm; split; [done|]; destruct (H6 i Hi Hm); auto.
    - intros E; destruct (H7 E); by split_and!. }
  destruct (Z.eqb_spec (INS c) insUpdate) as [Eu|Eu].
  - destruct (tag_write update t u c) as [[r0 t0] u0] eqn:Ew; injection Hp as <- <- <- <-.
    destruct (tag_write_inv _ _ _ _ _ _ Ht Hc Eu Ew) as [H1 H2].
    destruct (answered c r0 t0) eqn:Ea.
    + unfold P; rewrite Ea; destruct H2 as [-> ->]; split_and!; try done; intros i _ Hm; by rewrite bitset_empty_mem in Hm.
    + destruct H2 as (_ & E1 & E2); by apply Hstay.
  - injection Hp as <- <- <- <-; apply Hst; auto.
Qed.

Lemma tag_run_inv t seen told : tag_run t seen told ->
  TagInv t /\ (forall i, 0 <= i -> bitset_mem (coverage t) i = true -> seen i) /\ told = notified t.
Proof.
  induction 1 as [m t Hn|t seen told apdu u resp read t' u' Hrun (Ht & Hcov & Htold) Hb Hp|t seen told reset Hrun (Ht & Hcov & Htold) Hr].
  - destruct (newType4Tag_inv m t Hn) as (Ht & Hc & Hno); split_and!; [done| |done].
    intros i Hi; by rewrite Hc, bitset_empty_mem.
  - destruct (tag_process_kept t u apdu resp read t' u' seen told Ht Hb Hcov Htold Hp) as (? & ? & ? & _); done.
  - split_and!; [by apply tag_deactivate_inv| |by destruct reset].
    cbn; intros i Hi; by rewrite bitset_empty_mem.
Qed.

(** a tag reports its message read only when the responses since the
    message was put there, or since the field came up, have carried every
    byte of it - this response the last of them - and it reports each message
    at most once.  (A file being written, of NLEN 0, holds no message,
    and what is reported of it is not covered: see [Holder].) *)
Theorem message_read t seen told apdu u resp t' u' :
  tag_run t seen told -> bytes_ok apdu -> tag_process update t u apdu = (resp, true, t', u') ->
  told = false /\
  (ndef t <> [0; 0] -> forall i, 0 <= i < blen (committed t) - 2 -> seen_after t apdu resp t' seen i).
Proof.
  intros Hrun Hb Hp; destruct (tag_run_inv t seen told Hrun) as (Ht & Hcov & Htold).
  destruct (tag_process_kept t u apdu resp true t' u' seen told Ht Hb Hcov Htold Hp) as (_ & Hseen & _ & Hread).
  destruct (Hread eq_refl) as (? & Hnd & Hall); split; [done|]; intros Hne i Hi.
  destruct (ti_ndef t Ht) as [E|]; [|done]; apply Hseen; [lia|]; apply Hall; by rewrite E.
Qed.
End Run.

(** A static tag's reader: SELECT of the application and the NDEF file. *)
Definition selects : list bytes :=
  [[0; 164; 4; 0; 7; 210; 118; 0; 0; 133; 1; 1; 0]; [0; 164; 0; 12; 2; 225; 4]].

Lemma message_read_witness : exists t seen resp t',
  tag_run (U := unit) None t seen false /\
  tag_process (U := unit) None t tt [0; 176; 0; 0; 5] = (resp, true, t', tt) /\
  forall i, 0 <= i < 3 -> seen_after t [0; 176; 0; 0; 5] resp t' seen i.
Proof.
  destruct (newType4Tag [7; 8; 9]) as [t0|] eqn:E0; [|discriminate E0].
  destruct (tag_process (U := unit) None t0 tt (nth 0 selects [])) as [[[r1 d1] t1] []] eqn:E1.
  destruct (tag_process (U := unit) None t1 tt (nth 1 selects [])) as [[[r2 d2] t2] []] eqn:E2.
  destruct (tag_process (U := unit) None t2 tt [0; 176; 0; 0; 5]) as [[[r3 d3] t3] []] eqn:E3.
  assert (Hr : tag_run (U := unit) None t2 (seen_after t1 (nth 1 selects []) r2 t2 (seen_after t0 (nth 0 selects []) r1 t1 (fun _ => False)))
    (told_after (nth 1 selects []) r2 t2 (told_after (nth 0 selects []) r1 t1 false d1) d2)).
  { eapply run_process, E2; [|cbn; solve_bytes]; eapply run_process, E1; [|cbn; solve_bytes]; by eapply run_new. }
  vm_compute in E0; injection E0 as <-; vm_compute in E1; injection E1 as <- <- <-.
  vm_compute in E2; injection E2 as <- <- <-; vm_compute in E3; injection E3 as <- <- <-.
  eexists _, _, _, _; split; [exact Hr|split; [vm_compute; reflexivity|]].
  refine (proj2 (message_read None _ _ _ [0; 176; 0; 0; 5] tt _ _ tt Hr ltac:(solve_bytes) _) _); [vm_compute; reflexivity|discriminate].
Defined.
