(* ===== verification/Holder.v ===== *)
(** * The mdoc's side of NFC: [proximity/nfcapdu/holder.go]

    The NFC data application ([dataHolder]), which reassembles ENVELOPE
    chains and hands out answers, and the [Holder], which routes command APDUs
    to it or to the emulated tag.  A Holder's mutex makes each call one step;
    the calls are functions of the state.  The callback a negotiated handover
    is answered by is an argument with a state of type [N]; so is
    [ParseNFCDataHandover], of package proximity. *)
From S2P Require Import Prelude Apdu Ndef Type4.

Record NFCDataParameters : Type := { MaxCommand : Z; MaxResponse : Z }.

(** What a Holder did with one command APDU. *)
Record Step : Type := {
  Response : option bytes;
  HandoverRead : bool;
  DataSelected : bool;
  Message : option bytes;
  Delivered : bool
}.

Definition respond_with (sw : Z) (data : bytes) : Step :=
  {| Response := Some (response sw data); HandoverRead := false; DataSelected := false; Message := None; Delivered := false |}.

(** ** The data application *)

Record dataHolder : Type := {
  maxCommand : Z;
  maxResponse : Z;
  data_selected : bool;
  closed : bool;
  chain : bytes;
  pending : bool;          (* a message awaits Respond *)
  le : Z;                  (* the final ENVELOPE's Le *)
  outgoing : option bytes;
  offset : Z
}.

(** [&dataHolder{}]. *)
Definition new_dataHolder : dataHolder :=
  {| maxCommand := 0; maxResponse := 0; data_selected := false; closed := false; chain := [];
     pending := false; le := 0; outgoing := None; offset := 0 |}.

Definition set_limits (d : dataHolder) (c r : Z) : dataHolder :=
  {| maxCommand := c; maxResponse := r; data_selected := data_selected d; closed := closed d; chain := chain d;
     pending := pending d; le := le d; outgoing := outgoing d; offset := offset d |}.
Definition set_data_selected (d : dataHolder) : dataHolder :=
  {| maxCommand := maxCommand d; maxResponse := maxResponse d; data_selected := true; closed := closed d; chain := chain d;
     pending := pending d; le := le d; outgoing := outgoing d; offset := offset d |}.
Definition set_chain (d : dataHolder) (c : bytes) : dataHolder :=
  {| maxCommand := maxCommand d; maxResponse := maxResponse d; data_selected := data_selected d; closed := closed d; chain := c;
     pending := pending d; le := le d; outgoing := outgoing d; offset := offset d |}.
Definition set_pending (d : dataHolder) (p : bool) (l : Z) : dataHolder :=
  {| maxCommand := maxCommand d; maxResponse := maxResponse d; data_selected := data_selected d; closed := closed d; chain := chain d;
     pending := p; le := l; outgoing := outgoing d; offset := offset d |}.
Definition set_outgoing (d : dataHolder) (o : option bytes) (off : Z) : dataHolder :=
  {| maxCommand := maxCommand d; maxResponse := maxResponse d; data_selected := data_selected d; closed := closed d; chain := chain d;
     pending := pending d; le := le d; outgoing := o; offset := off |}.

Definition data_close (d : dataHolder) : dataHolder :=
  {| maxCommand := maxCommand d; maxResponse := maxResponse d; data_selected := data_selected d; closed := true; chain := [];
     pending := false; le := le d; outgoing := None; offset := offset d |}.

(** The next part of the outgoing response, of at most [maximum] bytes. *)
Definition data_next (d : dataHolder) (out : bytes) (maximum : Z) : Step * dataHolder :=
  let end_ := Z.min (offset d + maximum) (blen out) in
  let chunk := slice out (offset d) end_ in
  let remaining := blen out - end_ in
  if remaining =? 0 then
    ({| Response := Some (response swOK chunk); HandoverRead := false; DataSelected := false; Message := None; Delivered := true |},
     set_outgoing d None end_)
  else
    let remaining := if 256 <=? remaining then 0 else remaining in
    (respond_with (Z.lor swMoreData remaining) chunk, set_outgoing d (Some out) end_).

Definition data_envelope (d : dataHolder) (c : Command) : Step * dataHolder :=
  let chained := CLA c =? 16 in
  if negb (CLA c =? 0) && negb chained then (respond_with swCLANotSupported [], d)
  else if pending d || is_Some_b (outgoing d) then (respond_with swConditionsNotMet [], d)
  else if (blen (Data c) =? 0) || (maxCommand d <? blen (Data c)) || (maxEncoded <? blen (chain d) + blen (Data c))
  then (respond_with swWrongLength [], set_chain d [])
  else if chained && negb (Le c =? 0) || negb chained && ((Le c <? 1) || (maxResponse d <? Le c))
  then (respond_with swWrongP1P2 [], d)
  else
    let d := set_chain d (chain d ++ Data c) in
    if chained then (respond_with swOK [], d)
    else
      match UnwrapDO53 (chain d) with
      | Err _ => (respond_with swWrongData [], set_chain d [])
      | Ok message =>
          ({| Response := None; HandoverRead := false; DataSelected := false; Message := Some message; Delivered := false |},
           set_pending (set_chain d []) true (Le c))
      end.

Definition data_process (d : dataHolder) (apdu : bytes) : Step * dataHolder :=
  if closed d then (respond_with swConditionsNotMet [], d)
  else
    match ParseCommand apdu with
    | None => (respond_with swWrongLength [], d)
    | Some c =>
        if INS c =? insSelect then
          if negb (isSelectByName c) || negb (bytes_eqb (Data c) DataApplication) then (respond_with swFileNotFound [], d)
          else if negb (blen (chain d) =? 0) || pending d || is_Some_b (outgoing d) then (respond_with swConditionsNotMet [], d)
          else
            ({| Response := Some (response swOK []); HandoverRead := false; DataSelected := true; Message := None; Delivered := false |},
             set_data_selected d)
        else if negb (data_selected d) then (respond_with swConditionsNotMet [], d)
        else if negb (P1 c =? 0) || negb (P2 c =? 0) then (respond_with swWrongP1P2 [], d)
        else if INS c =? insEnvelope then data_envelope d c
        else if INS c =? insGetResponse then
          if negb (CLA c =? 0) || negb (blen (Data c) =? 0) || (Le c <? 1) || (maxResponse d <? Le c)
          then (respond_with swWrongP1P2 [], d)
          else
            match outgoing d with
            | None => (respond_with swConditionsNotMet [], d)
            | Some out => data_next d out (Le c)
            end
        else (respond_with swINSNotSupported [], d)
    end.

Inductive respond_error : Type :=
| ErrNoDataRetrieval
| ErrNoMessage
| ErrTooLarge.

Definition data_respond (d : dataHolder) (message : bytes) : res respond_error Step * dataHolder :=
  if closed d || is_Some_b (outgoing d) || negb (pending d) then (Err ErrNoMessage, d)
  else
    match WrapDO53 message with
    | None => (Err ErrTooLarge, d)
    | Some encoded =>
        let d := set_pending (set_outgoing d (Some encoded) 0) false (le d) in
        let '(step, d) := data_next d encoded (le d) in
        (Ok step, d)
    end.

(** ** The Holder *)

Section Holder.
Context {N : Type} (negotiate : option (N -> bytes -> option bytes * N)).
Context (ParseNFCDataHandover : bytes -> option NFCDataParameters).

(** [None] where [useParameters] fails. *)
Definition useParameters (d : dataHolder) (hs : bytes) : option dataHolder :=
  if data_selected d then None
  else
    match ParseNFCDataHandover hs with
    | None => None
    | Some p =>
        if (MaxCommand p <? 1) || (255 <? MaxCommand p) || (MaxResponse p <? 1) || (256 <? MaxResponse p) then None
        else Some (set_limits d (MaxCommand p) (MaxResponse p))
    end.

Record Holder : Type := {
  tag : type4Tag;
  tnep : option tnepHolder;
  data : option dataHolder;
  dataSelected : bool;
  app : N                  (* the state of the negotiate callback *)
}.

(** The tnepHolder's [negotiate] that [NewHolder] makes. *)
Definition holder_negotiate (negotiate : N -> bytes -> option bytes * N)
    (s : N * option dataHolder) (hr : bytes) : option bytes * (N * option dataHolder) :=
  let '(n, d) := s in
  let '(hs, n) := negotiate n hr in
  match hs, d with
  | Some hs, Some dh =>
      match useParameters dh hs with
      | Some dh => (Some hs, (n, Some dh))
      | None => (None, (n, d))
      end
  | _, _ => (hs, (n, d))
  end.

(** The state the tag's [update], [tnepHolder.transact], works on. *)
Definition env : Type := tnepHolder * (N * option dataHolder).

Definition holder_update : option (env -> bytes -> option bytes * env) :=
  match negotiate with
  | None => None
  | Some negotiate =>
      Some (fun '(h, s) message =>
        let '(answer, h, s) := tnep_transact (holder_negotiate negotiate) h s message in
        (answer, (h, s)))
  end.

(** [opts.HandoverSelect] is [None] for nil. *)
Definition NewHolder (HandoverSelect : option bytes) (Data : bool) (n : N) : option Holder :=
  let d := if Data then Some new_dataHolder else None in
  match negotiate, HandoverSelect with
  | Some _, Some _ => None
  | Some _, None =>
      match newType4Tag tnepParameters with
      | None => None
      | Some t =>
          Some {| tag := t; tnep := Some {| service_selected := false; handoverReady := false |}; data := d;
                  dataSelected := false; app := n |}
      end
  | None, hs =>
      let hs := default [] hs in
      match d with
      | Some dh =>
          match useParameters dh hs with
          | None => None
          | Some dh =>
              match newType4Tag hs with
              | None => None
              | Some t => Some {| tag := t; tnep := None; data := Some dh; dataSelected := false; app := n |}
              end
          end
      | None =>
          match newType4Tag hs with
          | None => None
          | Some t => Some {| tag := t; tnep := None; data := None; dataSelected := false; app := n |}
          end
      end
  end.

(** The part of [Process] that answers from the tag. *)
Definition holder_tag_process (h : Holder) (sel : bool) (apdu : bytes) : Step * Holder :=
  let th := default {| service_selected := false; handoverReady := false |} (tnep h) in
  let '(resp, read, t, (th, (n, d))) := tag_process holder_update (tag h) (th, (app h, data h)) apdu in
  ({| Response := Some resp;
      HandoverRead := read && (negb (is_Some_b (tnep h)) || handoverReady th);
      DataSelected := false; Message := None; Delivered := false |},
   {| tag := t; tnep := if is_Some_b (tnep h) then Some th else None; data := d; dataSelected := sel; app := n |}).

Definition Process (h : Holder) (apdu : bytes) : Step * Holder :=
  let sel :=
    match ParseCommand apdu with
    | Some c => if isSelectByName c then is_Some_b (data h) && bytes_eqb (Data c) DataApplication else dataSelected h
    | None => dataSelected h
    end in
  match sel, data h with
  | true, Some d =>
      let '(step, d) := data_process d apdu in
      (step, {| tag := tag h; tnep := tnep h; data := Some d; dataSelected := sel; app := app h |})
  | _, _ => holder_tag_process h sel apdu
  end.

Definition with_data (h : Holder) (d : dataHolder) : Holder :=
  {| tag := tag h; tnep := tnep h; data := Some d; dataSelected := dataSelected h; app := app h |}.

Definition Respond (h : Holder) (message : bytes) : res respond_error Step * Holder :=
  match data h with
  | None => (Err ErrNoDataRetrieval, h)
  | Some d => let '(step, d) := data_respond d message in (step, with_data h d)
  end.

Definition RefuseMessage (h : Holder) : bytes * Holder :=
  (response swConditionsNotMet [],
   match data h with
   | None => h
   | Some d => with_data h (set_pending d false (le d))
   end).

Record Deactivation : Type := { Cancel : bool; DataClosed : bool }.

Definition Deactivate (h : Holder) (handoverCommitted qrSelected : bool) : Deactivation * Holder :=
  if qrSelected then
    ({| Cancel := false; DataClosed := false |},
     {| tag := tag_deactivate (tag h) None; tnep := tnep h; data := data h; dataSelected := false; app := app h |})
  else
    let '(cancel, t, th) :=
      match tnep h with
      | Some th =>
          if negb handoverCommitted && handoverReady th then (true, tag_deactivate (tag h) None, Some th)
          else if negb handoverCommitted then
            (false, tag_deactivate (tag h) (Some tnepParameters), Some {| service_selected := false; handoverReady := handoverReady th |})
          else (false, tag_deactivate (tag h) None, Some th)
      | None => (false, tag_deactivate (tag h) None, None)
      end in
    let '(dataClosed, d) :=
      match data h with
      | Some d => if dataSelected h && data_selected d && negb (closed d) then (true, Some (data_close d)) else (false, Some d)
      | None => (false, None)
      end in
    ({| Cancel := cancel; DataClosed := dataClosed |},
     {| tag := t; tnep := th; data := d; dataSelected := false; app := app h |}).

Definition Close (h : Holder) : Holder :=
  match data h with
  | None => h
  | Some d => with_data h (data_close d)
  end.
End Holder.

(** ** The data application's invariant *)

Record DataInv (d : dataHolder) : Prop := {
  di_chain : blen (chain d) <= maxEncoded;
  di_pending : pending d = true -> chain d = [] /\ outgoing d = None /\ 1 <= le d;
  di_outgoing : forall out, outgoing d = Some out ->
    pending d = false /\ chain d = [] /\ 0 <= offset d < blen out /\ blen out <= maxEncoded;
  di_closed : closed d = true -> chain d = [] /\ pending d = false /\ outgoing d = None;
  di_unselected : data_selected d = false -> chain d = [] /\ pending d = false /\ outgoing d = None
}.

(** What an app does to the data application, whatever it is sent. *)
Inductive data_step : dataHolder -> dataHolder -> Prop :=
| step_process d apdu : data_step d (snd (data_process d apdu))
| step_respond d m : data_step d (snd (data_respond d m))
| step_refuse d : data_step d (set_pending d false (le d))
| step_close d : data_step d (data_close d)
| step_limits d c r : data_selected d = false -> data_step d (set_limits d c r).

Lemma new_dataHolder_inv : DataInv new_dataHolder.
Proof. constructor; cbn; try done; unfold maxEncoded; rewrite MaxMessage_value; rewrite blen_nil; lia. Qed.

(** [data_next] hands out the rest of the answer, or all of it. *)
Lemma data_next_inv d out n : DataInv d -> closed d = false -> data_selected d = true -> pending d = false -> chain d = [] ->
  0 <= offset d < blen out -> blen out <= maxEncoded -> 1 <= n -> DataInv (snd (data_next d out n)).
Proof.
  intros Hd Hop Hse Hp Hc Ho Hm Hn; unfold data_next; pose proof (di_chain d Hd).
  destruct (Z.eqb_spec (blen out - Z.min (offset d + n) (blen out)) 0); cbn [snd]; constructor; cbn; rewrite ?Hp, ?Hop, ?Hse; try done.
  intros o [= <-]; split_and!; try done; lia.
Qed.

Lemma data_envelope_inv d c : DataInv d -> closed d = false -> data_selected d = true -> DataInv (snd (data_envelope d c)).
Proof.
  intros Hd Hop Hse; unfold data_envelope.
  assert (Hclear : pending d = false -> outgoing d = None -> DataInv (set_chain d [])).
  { intros Hp Ho; constructor; cbn; rewrite ?Hp, ?Ho, ?Hop, ?Hse; try done; rewrite blen_nil; unfold maxEncoded; rewrite MaxMessage_value; lia. }
  destruct (negb (CLA c =? 0) && negb (CLA c =? 16)); [exact Hd|].
  destruct (pending d) eqn:Hp; [exact Hd|]; cbn [orb].
  destruct (outgoing d) eqn:Ho; [exact Hd|]; cbn [is_Some_b].
  match goal with |- context [if ?t then _ else _] => destruct t eqn:Esz end; [by apply Hclear|].
  match goal with |- context [if ?t then _ else _] => destruct t eqn:Ele end; [exact Hd|]; bool_prop.
  destruct (CLA c =? 16) eqn:Hch.
  - cbn [snd]; constructor; cbn; rewrite ?Hp, ?Ho, ?Hop, ?Hse; try done; rewrite blen_app; lia.
  - destruct (UnwrapDO53 _); [|by apply Hclear]; cbn [snd].
    cbn [negb andb orb] in *; bool_prop; constructor; cbn; rewrite ?Ho, ?Hop, ?Hse; try done; intros _; split_and!; done || lia.
Qed.

Lemma data_process_inv d apdu : DataInv d -> DataInv (snd (data_process d apdu)).
Proof.
  intros Hd; unfold data_process; destruct (closed d) eqn:Hop; [exact Hd|].
  destruct (ParseCommand apdu) as [c|]; [|exact Hd].
  destruct (INS c =? insSelect).
  { destruct (_ || _); [exact Hd|]; destruct (_ || _) eqn:E; [exact Hd|]; cbn [snd]; bool_prop.
    constructor; cbn; try done; apply Hd. }
  destruct (data_selected d) eqn:Hse; cbn [negb]; [|exact Hd].
  destruct (_ || _); [exact Hd|]; destruct (INS c =? insEnvelope); [by apply data_envelope_inv|].
  destruct (INS c =? insGetResponse); [|exact Hd].
  match goal with |- context [if ?t then _ else _] => destruct t eqn:E end; [exact Hd|]; bool_prop.
  destruct (outgoing d) as [out|] eqn:Ho; [|exact Hd].
  destruct (di_outgoing d Hd out Ho) as (Hp & Hc & Hoff & Hmax); apply data_next_inv; done || lia.
Qed.

Lemma data_respond_inv d m : DataInv d -> DataInv (snd (data_respond d m)).
Proof.
  intros Hd; unfold data_respond; destruct (_ || _) eqn:E; [exact Hd|]; bool_prop.
  destruct (WrapDO53 m) as [enc|] eqn:Hw; [|exact Hd].
  destruct (data_selected d) eqn:Hse; [|by destruct (di_unselected d Hd Hse) as (_ & ? & _); congruence].
  pose proof (blen_WrapDO53 m enc Hw); pose proof (blen_nonneg m).
  assert (Hmax : blen enc <= maxEncoded).
  { unfold WrapDO53 in Hw; unfold maxEncoded; go_if_in Hw; [done|lia]. }
  destruct (di_pending d Hd ltac:(done)) as (Hc & Ho & Hle).
  set (d1 := set_pending (set_outgoing d (Some enc) 0) false (le d)).
  assert (Hi : DataInv d1).
  { constructor; cbn; rewrite ?Hc, ?Hse; try done.
    - intros o [= <-]; split_and!; done || lia.
    - intros Hcl; congruence. }
  pose proof (data_next_inv d1 enc (le d) Hi ltac:(done) Hse eq_refl Hc ltac:(cbn; lia) Hmax Hle) as Hn.
  by change (le d1) with (le d); destruct (data_next d1 enc (le d)).
Qed.

(** in every state the data application reaches, whatever APDUs and
    answers it is given and in whatever order: a chain is never longer than
    an encoded message; a message awaits its answer, or an answer is being
    handed out, or a chain is being built, and never two of these; the offset
    into an answer is inside it, so that each part of it is in range and none
    is empty; and an application that is closed, or was never selected, holds
    nothing. *)
Theorem data_application_safe (d : dataHolder) : rtc data_step new_dataHolder d -> DataInv d.
Proof.
  intros Hr; assert (H0 : DataInv new_dataHolder) by apply new_dataHolder_inv.
  induction Hr as [d|d1 d2 d3 Hs _ IH]; [done|]; apply IH; clear IH.
  destruct Hs as [d apdu|d m|d|d|d c r Hs].
  - by apply data_process_inv.
  - by apply data_respond_inv.
  - destruct H0; constructor; cbn; try done.
    + intros o Ho; destruct (di_outgoing0 o Ho) as (_ & ?); done.
    + intros Hc; destruct (di_closed0 Hc) as (? & _ & ?); done.
    + intros Hc; destruct (di_unselected0 Hc) as (? & _ & ?); done.
  - constructor; cbn; try done; rewrite blen_nil; unfold maxEncoded; rewrite MaxMessage_value; lia.
  - destruct H0; constructor; done.
Qed.

Lemma data_application_safe_witness :
  let d := snd (data_process (set_limits new_dataHolder 255 256) ([0; 164; 4; 12; 7] ++ DataApplication)) in
  data_selected d = true /\ DataInv d.
Proof.
  split; [vm_compute; reflexivity|]; apply data_application_safe.
  eapply rtc_l; [by apply (step_limits new_dataHolder 255 256)|].
  eapply rtc_l; [apply (step_process _ ([0; 164; 4; 12; 7] ++ DataApplication))|apply rtc_refl].
Defined.
