(* ===== verification/Reader.v ===== *)
(** * The reader's side of NFC: [proximity/nfcapdu/reader.go]

    An [Exchange] is a sequence of command APDUs, each depending on the
    responses before it: a tree that either is over, with its outcome, or
    sends a command after a wait and goes on from its response.  The
    goroutine and channels of the source pass the tree's commands and
    responses one at a time ([ex_Next]).  A reader's state, [type4Reader], is
    passed through its routines, and kept where they fail. *)
From S2P Require Import Prelude Apdu Ndef Type4 Holder.

(** ** Exchanges *)

(** The wait before a command: a service's minimum waiting time
    ([tnepTiming.wait]), or none. *)
Inductive exchange (A : Type) : Type :=
| Done (result : A)
| Xmit (command : bytes) (wait : option tnepTiming) (next : bytes -> exchange A).
Arguments Done {A} result.
Arguments Xmit {A} command wait next.

Fixpoint ex_bind {A B : Type} (x : exchange A) (f : A -> exchange B) : exchange B :=
  match x with
  | Done a => f a
  | Xmit c w k => Xmit c w (fun resp => ex_bind (k resp) f)
  end.

Inductive reader_error : Type :=
| ErrTransceiveLimit
| ErrCommandTooLong
| ErrNoStatus
| ErrStatus (sw : Z)
| ErrShortRead
| ErrCCLength
| ErrMappingVersion
| ErrMLe
| ErrTLV
| ErrNoNDEFFile
| ErrNDEFLength
| ErrService (e : service_error)
| ErrNegotiationUnavailable
| ErrServiceSelection
| ErrWriteCapability
| ErrServiceMessageLimit
| ErrTNEPTimeout
| ErrControllerLimits
| ErrWrap
| ErrChain
| ErrResponseSize
| ErrResponseTooLarge
| ErrEmptyContinuation
| ErrResponseChain
| ErrUnwrap (e : do53_error).

(** [Exchange]: the sequence from the command it waits to have answered, and
    whether it was closed. *)
Record Exchange (A : Type) : Type := { current : exchange A; ex_closed : bool }.
Arguments current {A}.
Arguments ex_closed {A}.

Inductive next_error : Type :=
| ErrExchangeOver
| ErrExchangeClosed
| ErrExchangeNotOver.

Definition newExchange {A} (sequence : exchange A) : Exchange A :=
  {| current := sequence; ex_closed := false |}.

Definition ex_Command {A} (e : Exchange A) : option bytes :=
  match current e with Done _ => None | Xmit c _ _ => Some c end.

Definition ex_Next {A} (e : Exchange A) (resp : bytes) : res next_error (Exchange A) :=
  match current e with
  | Done _ => Err ErrExchangeOver
  | Xmit _ _ k =>
      if ex_closed e then Err ErrExchangeClosed
      else Ok {| current := k resp; ex_closed := false |}
  end.

Definition ex_Result {A} (e : Exchange A) : res next_error A :=
  match current e with Done r => Ok r | Xmit _ _ _ => Err ErrExchangeNotOver end.

Definition ex_Close {A} (e : Exchange A) : Exchange A := {| current := current e; ex_closed := true |}.

(** ** The Type 4 Tag reader

    [type4Reader]'s [negotiated] is in the outcome of [rd_read]: it is set
    once, as negotiation starts. *)

Record type4Reader : Type := {
  maxTransceive : Z;
  chunk : Z;               (* READ BINARY length *)
  writeChunk : Z;          (* UPDATE BINARY length *)
  maxSize : Z;             (* the NDEF file's, NLEN included *)
  can_write : bool
}.

Definition set_chunks (t : type4Reader) (c w : Z) : type4Reader :=
  {| maxTransceive := maxTransceive t; chunk := c; writeChunk := w; maxSize := maxSize t;
     can_write := can_write t |}.
Definition set_file (t : type4Reader) (size : Z) (w : bool) : type4Reader :=
  {| maxTransceive := maxTransceive t; chunk := chunk t; writeChunk := writeChunk t; maxSize := size;
     can_write := w |}.

(** What [t.transceive] sequences: an exchange of results. *)
Definition outcome (A : Type) : Type := exchange (res reader_error A).

Definition fail {A} (e : reader_error) : outcome A := Done (Err e).
Definition ret {A} (a : A) : outcome A := Done (Ok a).
Definition out_bind {A B} (m : outcome A) (f : A -> outcome B) : outcome B :=
  ex_bind m (fun r => match r with Ok a => f a | Err e => Done (Err e) end).
Notation "'let!' x ':=' m 'in' k" := (out_bind m (fun x => k))
  (at level 10, x pattern, m at level 100, k at level 200) : go_scope.

Definition transceive (c : bytes) (wait : option tnepTiming) : outcome bytes := Xmit c wait (fun resp => ret resp).

Definition lift {A} (m : res reader_error A) : outcome A := Done m.

Definition rd_command (t : type4Reader) (c : bytes) (wait : option tnepTiming) : outcome bytes :=
  if maxTransceive t <? blen c then fail ErrCommandTooLong
  else
    let! resp := transceive c wait in
    match status resp with
    | None => fail ErrNoStatus
    | Some (data, sw) => if negb (sw =? swOK) then fail (ErrStatus sw) else ret data
    end.

Definition rd_selectFile (t : type4Reader) (file : Z) : outcome unit :=
  let! _ := rd_command t [0; insSelect; 0; 12; 2; hi file; lo file] None in
  ret tt.

Definition rd_readBinary (t : type4Reader) (offset length : Z) (wait : option tnepTiming) : outcome bytes :=
  let! resp := rd_command t [0; insReadBinary; hi offset; lo offset; lo length] wait in
  if negb (blen resp =? length) then fail ErrShortRead else ret resp.

Definition rd_writeBinary (t : type4Reader) (offset : Z) (data : bytes) : outcome unit :=
  let! _ := rd_command t ([0; insUpdate; hi offset; lo offset; lo (blen data)] ++ data) None in
  ret tt.

Definition rd_readLength (t : type4Reader) : outcome Z :=
  let! b := rd_readBinary t 0 2 None in
  ret (uint16At b 0).

(** [for len(out) < length], reading [out]'s continuation at [len(out) + skip]. *)
Fixpoint rd_read_loop (fuel : nat) (t : type4Reader) (skip length : Z) (out : bytes) : outcome bytes :=
  match fuel with
  | O => ret out
  | S fuel =>
      if blen out <? length then
        let! part := rd_readBinary t (blen out + skip) (Z.min (chunk t) (length - blen out)) None in
        rd_read_loop fuel t skip length (out ++ part)
      else ret out
  end.

Definition rd_readFile (t : type4Reader) (length : Z) : outcome bytes :=
  rd_read_loop (S (Z.to_nat length)) t 0 length [].

Definition rd_readMessage (t : type4Reader) : outcome bytes :=
  let! nlen := rd_readLength t in
  if (nlen =? 0) || (maxSize t - 2 <? nlen) then fail ErrNDEFLength
  else rd_read_loop (S (Z.to_nat nlen)) t 2 nlen [].

Fixpoint rd_write_loop (fuel : nat) (t : type4Reader) (message : bytes) (written : Z) : outcome unit :=
  match fuel with
  | O => ret tt
  | S fuel =>
      if written <? blen message then
        let end_ := Z.min (written + writeChunk t) (blen message) in
        let! _ := rd_writeBinary t (written + 2) (slice message written end_) in
        rd_write_loop fuel t message end_
      else ret tt
  end.

Definition rd_writeMessage (t : type4Reader) (message : bytes) : outcome unit :=
  if negb (can_write t) || (writeChunk t <? 2) || (blen message <? 1) || (maxSize t - 2 <? blen message)
  then fail ErrWriteCapability
  else
    let! _ := rd_writeBinary t 0 [0; 0] in
    let! _ := rd_write_loop (S (length message)) t message 0 in
    rd_writeBinary t 0 [hi (blen message); lo (blen message)].

(** [for range timing.waits + 1]. *)
Fixpoint rd_poll (n : nat) (t : type4Reader) (timing : tnepTiming) : outcome bytes :=
  match n with
  | O => fail ErrTNEPTimeout
  | S n =>
      let! nlen := rd_readBinary t 0 2 (Some timing) in
      if 0 <? uint16At nlen 0 then rd_readMessage t else rd_poll n t timing
  end.

Definition rd_transact (t : type4Reader) (message : bytes) (timing : tnepTiming) : outcome bytes :=
  if maxMessage timing <? blen message then fail ErrServiceMessageLimit
  else
    let! _ := rd_writeMessage t message in
    rd_poll (Z.to_nat (waits timing + 1)) t timing.

(** The NDEF File Control TLV in a capability container: the file, and the
    reader with its maximum size and whether it may be written.  The position
    grows at each turn, so as many turns as bytes are enough. *)
Fixpoint rd_ndefFile_loop (fuel : nat) (t : type4Reader) (cc : bytes) (pos : Z) : res reader_error Z * type4Reader :=
  match fuel with
  | O => (Err ErrNoNDEFFile, t)
  | S fuel =>
      if pos <? blen cc then
        let typ := at_ cc pos in
        let pos := pos + 1 in
        if typ =? 0 then rd_ndefFile_loop fuel t cc pos
        else if typ =? 254 then (Err ErrNoNDEFFile, t)
        else if blen cc <=? pos then (Err ErrTLV, t)
        else
          let length := at_ cc pos in
          let pos := pos + 1 in
          if blen cc <? pos + length then (Err ErrTLV, t)
          else if (typ =? 4) && (length =? 6) && (at_ cc (pos + 4) =? 0) then
            let t := set_file t (uint16At cc (pos + 2)) (at_ cc (pos + 5) =? 0) in
            if (maxSize t <? 3) || (32767 <? maxSize t) then (Err ErrNoNDEFFile, t)
            else (Ok (uint16At cc pos), t)
          else rd_ndefFile_loop fuel t cc (pos + length)
      else (Err ErrNoNDEFFile, t)
  end.

Definition rd_ndefFile (t : type4Reader) (cc : bytes) : res reader_error Z * type4Reader :=
  rd_ndefFile_loop (S (length cc)) t cc 7.

(** The start of [read], before negotiation: the reader, with the limits the
    capability container gives, and the tag's initial message. *)
Definition rd_setup (t : type4Reader) : outcome (type4Reader * bytes) :=
  let! _ := rd_command t ([0; insSelect; 4; 0; lo (blen NDEFApplication)] ++ NDEFApplication ++ [0]) None in
  let! _ := rd_selectFile t fileCC in
  let! ccLength := rd_readLength t in
  if (ccLength <? 15) || (255 <? ccLength) then fail ErrCCLength
  else
    let! cc := rd_readFile t ccLength in
    if negb (Z.shiftr (at_ cc 2) 4 =? 2) then fail ErrMappingVersion
    else
      let mle := uint16At cc 3 in
      if mle <? 15 then fail ErrMLe
      else
        let t := set_chunks t (Z.min (chunk t) mle) (Z.min (writeChunk t) (uint16At cc 5)) in
        let '(file, t) := rd_ndefFile t cc in
        let! file := lift file in
        let! _ := rd_selectFile t file in
        let! initial := rd_readMessage t in
        ret (t, initial).

(** The end of [read]: the negotiation of [hr]. *)
Definition rd_negotiate (t : type4Reader) (hr : option bytes) (timing : tnepTiming) : outcome bytes :=
  match hr with
  | None => fail ErrNegotiationUnavailable
  | Some hr =>
      if negb (can_write t) then fail ErrNegotiationUnavailable
      else
        let! status := rd_transact t tnepSelect timing in
        match tnepPayload status Te with
        | Ok p => if negb (bytes_eqb (default [] p) [0]) then fail ErrServiceSelection else rd_transact t hr timing
        | Err _ => fail ErrServiceSelection
        end
  end.

Definition new_reader (max : Z) : type4Reader :=
  {| maxTransceive := max; chunk := Z.min 255 (max - 2); writeChunk := Z.min 255 (max - 5);
     maxSize := 0; can_write := false |}.

(** [read]: the Handover Select, and whether it was negotiated - which the
    reader knows even where it then fails. *)
Definition rd_read (max : Z) (hr : option bytes) : exchange (res reader_error bytes * bool) :=
  let t := new_reader max in
  if chunk t <? 15 then Done (Err ErrTransceiveLimit, false)
  else
    ex_bind (rd_setup t) (fun r =>
      match r with
      | Err e => Done (Err e, false)
      | Ok (t, initial) =>
          match tnepServiceParameters initial with
          | Err e => Done (Err (ErrService e), false)
          | Ok None => Done (Ok initial, false)
          | Ok (Some timing) => ex_bind (rd_negotiate t hr timing) (fun r => Done (r, true))
          end
      end).

(** [HandoverRead]: the exchange, and [Negotiated] in its outcome. *)
Definition ReadHandover (maxTransceive : Z) (hr : option bytes) : Exchange (res reader_error bytes * bool) :=
  newExchange (rd_read maxTransceive hr).

(** ** The data application *)

Definition SelectDataApplication : bytes := [0; insSelect; 4; 12; lo (blen DataApplication)] ++ DataApplication.

Definition CheckDataApplicationSelected (resp : bytes) : bool :=
  match status resp with Some (_, sw) => sw =? swOK | None => false end.

(** The ENVELOPE commands of [encoded] from [offset]; the response to the last. *)
Fixpoint sendEnvelopes (fuel : nat) (encoded : bytes) (commandLimit responseLimit offset : Z) : outcome bytes :=
  match fuel with
  | O => fail ErrChain
  | S fuel =>
      let end_ := Z.min (offset + commandLimit) (blen encoded) in
      if end_ =? blen encoded then
        transceive ([0; insEnvelope; 0; 0; lo (end_ - offset)] ++ slice encoded offset end_ ++ [lo responseLimit]) None
      else
        let! resp := transceive ([16; insEnvelope; 0; 0; lo (end_ - offset)] ++ slice encoded offset end_) None in
        if negb (bytes_eqb resp (response swOK [])) then fail ErrChain
        else sendEnvelopes fuel encoded commandLimit responseLimit end_
  end.

(** [polls] is how many continuations may still be asked for. *)
Fixpoint readResponses (polls : nat) (resp : bytes) (responseLimit : Z) (assembled : bytes) : outcome bytes :=
  if (blen resp <? 2) || (responseLimit <? blen resp - 2) then fail ErrResponseSize
  else if maxEncoded <? blen assembled + blen resp - 2 then fail ErrResponseTooLarge
  else
    let '(data, sw) := default ([], 0) (status resp) in
    let assembled := assembled ++ data in
    if sw =? swOK then
      Done (res_map_err ErrUnwrap (UnwrapDO53 assembled))
    else if blen resp =? 2 then fail ErrEmptyContinuation
    else if negb (Z.land sw 65280 =? swMoreData) then fail ErrResponseChain
    else
      match polls with
      | O => fail ErrResponseChain
      | S polls =>
          let indicated := Z.land sw 255 in
          let le := if negb (indicated =? 0) then Z.min indicated responseLimit else responseLimit in
          let! resp := transceive [0; insGetResponse; 0; 0; lo le] None in
          readResponses polls resp responseLimit assembled
      end.

Definition transact (maxTransceive : Z) (p : NFCDataParameters) (message : bytes) : outcome bytes :=
  let commandLimit := Z.min (Z.min 255 (maxTransceive - 6)) (MaxCommand p) in
  let responseLimit := Z.min (Z.min 256 (maxTransceive - 2)) (MaxResponse p) in
  if (commandLimit <? 1) || (responseLimit <? 1) then fail ErrControllerLimits
  else
    match WrapDO53 message with
    | None => fail ErrWrap
    | Some encoded =>
        let! resp := sendEnvelopes (S (length encoded)) encoded commandLimit responseLimit 0 in
        readResponses (Z.to_nat maxEncoded) resp responseLimit []
    end.

Definition Transact (maxTransceive : Z) (p : NFCDataParameters) (message : bytes) : Exchange (res reader_error bytes) :=
  newExchange (transact maxTransceive p message).

(** ** An exchange with a device *)

(** A device answers each command from its state. *)
Fixpoint ex_run {A S : Type} (device : S -> bytes -> bytes * S) (x : exchange A) (s : S) : A * S :=
  match x with
  | Done a => (a, s)
  | Xmit c _ k => let '(resp, s) := device s c in ex_run device (k resp) s
  end.

(** The same, one [Command] and [Next] at a time, as an app drives it. *)
Fixpoint ex_drive {A S : Type} (fuel : nat) (device : S -> bytes -> bytes * S) (e : Exchange A) (s : S) :
    option (res next_error A * S) :=
  match ex_Command e with
  | None => Some (ex_Result e, s)
  | Some c =>
      match fuel with
      | O => None
      | S fuel =>
          let '(resp, s) := device s c in
          match ex_Next e resp with
          | Err err => Some (Err err, s)
          | Ok e => ex_drive fuel device e s
          end
      end
  end.

Lemma ex_run_bind {A B S : Type} (device : S -> bytes -> bytes * S) (x : exchange A) (f : A -> exchange B) : forall s,
  ex_run device (ex_bind x f) s = let '(a, s) := ex_run device x s in ex_run device (f a) s.
Proof.
  induction x as [a|c w k IH]; intros s; cbn; [done|]; destruct (device s c) as [resp s']; apply IH.
Qed.

(** Driving an exchange to its end gives what it comes to, in finitely many
    commands. *)
Lemma ex_drive_run {A S : Type} (device : S -> bytes -> bytes * S) (x : exchange A) : forall s,
  exists fuel, ex_drive fuel device (newExchange x) s = let '(a, s') := ex_run device x s in Some (Ok a, s').
Proof.
  induction x as [a|c w k IH]; intros s; [by exists O|]; cbn.
  destruct (device s c) as [resp s'] eqn:E; destruct (IH resp s') as [fuel Hf]; exists (Datatypes.S fuel); cbn.
  by rewrite E.
Qed.

Lemma ex_run_out {A B S : Type} (device : S -> bytes -> bytes * S) (m : outcome A) (f : A -> outcome B) s :
  ex_run device (out_bind m f) s =
  let '(r, s) := ex_run device m s in
  match r with Ok a => ex_run device (f a) s | Err e => (Err e, s) end.
Proof.
  unfold out_bind; rewrite ex_run_bind; destruct (ex_run device m s) as [[a|e] s']; done.
Qed.
