(* ===== verification/DataExchange.v ===== *)
(** * One session message over NFC: [transact] against a [Holder]

    The reader's [transact] ([reader.go]) run against the holder's data
    application ([holder.go]), through the command APDUs and nothing else: for
    any limits the two sides may have, the message the reader sends is the
    one the holder hands to its session, and the answer the session gives is
    the one the reader gets. *)
From S2P Require Import Prelude Apdu Ndef Type4 Holder Reader.

(** ** Responses *)

Lemma status_response sw d : 0 <= sw < 65536 -> status (response sw d) = Some (d, sw).
Proof.
  intros Hsw; unfold status, response.
  assert (Z.land sw 65535 = sw) as -> by (change 65535 with (Z.ones 16); rewrite Z.land_ones by lia; by apply Z.mod_small).
  rewrite blen_app, be_bytes_blen; pose proof (blen_nonneg d); change (Z.of_nat 2) with 2.
  destruct (Z.ltb_spec (blen d + 2) 2); [lia|]; cbv zeta; replace (blen d + 2 - 2) with (blen d) by lia.
  rewrite slice_app_l; do 2 f_equal; cbn [be_bytes]; change (8 * Z.of_nat 1) with 8; change (8 * Z.of_nat 0) with 0.
  rewrite !land_255, Z.shiftr_0_r, Z.shiftr_div_pow2 by lia; change (2 ^ 8) with 256.
  rewrite uint16At_value; rewrite !at_app_r by lia; replace (blen d - blen d) with 0 by lia;
    replace (blen d + 1 - blen d) with 1 by lia.
  - change (sw / 256 mod 256 * 256 + sw mod 256 = sw); Z.div_mod_to_equations; lia.
  - change (byte_ok (sw mod 256)); unfold byte_ok; Z.div_mod_to_equations; lia.
Qed.

Lemma blen_response sw d : blen (response sw d) = blen d + 2.
Proof. unfold response; by rewrite blen_app, be_bytes_blen. Qed.

(** [61XX]. *)
Lemma more_data n : 0 <= n < 256 ->
  let sw := Z.lor swMoreData n in
  0 <= sw < 65536 /\ (sw =? swOK) = false /\ (Z.land sw 65280 =? swMoreData) = true /\ Z.land sw 255 = n.
Proof.
  intros Hn sw; pose proof (byte_cases (fun n => let sw := Z.lor swMoreData n in
    (0 <=? sw) && (sw <? 65536) && negb (sw =? swOK) && (Z.land sw 65280 =? swMoreData) && (Z.land sw 255 =? n)) eq_refl n Hn) as H.
  cbv beta zeta in H; fold sw in H; repeat apply andb_true_iff in H as [H ?]; bool_prop.
  split_and!; try (done || lia); by apply Z.eqb_eq || apply negb_true_iff.
Qed.

Lemma lo_small n : 0 <= n <= 255 -> lo n = n.
Proof. intros Hn; unfold lo; rewrite land_255; apply Z.mod_small; lia. Qed.

Lemma lo_mod n : lo n = n mod 256.
Proof. apply land_255. Qed.

(** ** The commands [transact] sends *)

Lemma parse_envelope cla data : byte_ok cla -> bytes_ok data -> 1 <= blen data <= 255 ->
  ParseCommand ([cla; insEnvelope; 0; 0; lo (blen data)] ++ data) =
  Some {| CLA := cla; INS := insEnvelope; P1 := 0; P2 := 0; Data := data; Le := 0 |}.
Proof.
  intros Hc Hd Hl; rewrite lo_small by lia; apply encodes_ParseCommand.
  - cbn [app]; repeat (apply Forall_cons_2; [unfold byte_ok, insEnvelope in *; lia|]); done.
  - by apply (Case3S {| CLA := cla; INS := insEnvelope; P1 := 0; P2 := 0; Data := data; Le := 0 |}).
Qed.

Lemma parse_envelope_last data n : bytes_ok data -> 1 <= blen data <= 255 -> 1 <= n <= 256 ->
  ParseCommand ([0; insEnvelope; 0; 0; lo (blen data)] ++ data ++ [lo n]) =
  Some {| CLA := 0; INS := insEnvelope; P1 := 0; P2 := 0; Data := data; Le := n |}.
Proof.
  intros Hd Hl Hn; rewrite lo_small by lia; rewrite lo_mod; apply encodes_ParseCommand.
  - cbn [app]; repeat (apply Forall_cons_2; [unfold byte_ok, insEnvelope in *; lia|]).
    apply Forall_app_2; [done|]; apply Forall_cons_2; [|by apply Forall_nil_2]; apply Z.mod_pos_bound; lia.
  - by apply (Case4S {| CLA := 0; INS := insEnvelope; P1 := 0; P2 := 0; Data := data; Le := n |}).
Qed.

Lemma parse_get_response n : 1 <= n <= 256 ->
  ParseCommand [0; insGetResponse; 0; 0; lo n] =
  Some {| CLA := 0; INS := insGetResponse; P1 := 0; P2 := 0; Data := []; Le := n |}.
Proof.
  intros Hn; rewrite lo_mod; apply encodes_ParseCommand.
  - repeat (apply Forall_cons_2; [unfold byte_ok, insGetResponse in *; (lia || (apply Z.mod_pos_bound; lia))|]); by apply Forall_nil_2.
  - by apply (Case2S {| CLA := 0; INS := insGetResponse; P1 := 0; P2 := 0; Data := []; Le := n |}).
Qed.

(** ** The data application between messages *)

Record data_ready (d : dataHolder) : Prop := {
  dr_open : closed d = false;
  dr_selected : data_selected d = true;
  dr_pending : pending d = false;
  dr_outgoing : outgoing d = None
}.

Lemma data_chained d data : data_ready d -> bytes_ok data ->
  1 <= blen data <= 255 -> blen data <= maxCommand d -> blen (chain d) + blen data <= maxEncoded ->
  data_process d ([16; insEnvelope; 0; 0; lo (blen data)] ++ data) = (respond_with swOK [], set_chain d (chain d ++ data)).
Proof.
  intros [Hop Hse Hpe Hou] Hd Hl Hm Hc; unfold data_process; rewrite Hop, parse_envelope by (done || unfold byte_ok; lia).
  cbn [INS P1 P2]; change (insEnvelope =? insSelect) with false; change (insEnvelope =? insEnvelope) with true.
  rewrite Hse; cbn [negb orb Z.eqb]; unfold data_envelope; cbn [CLA Data Le]; rewrite Hpe, Hou; cbn [is_Some_b orb negb Z.eqb Pos.eqb andb].
  destruct (Z.eqb_spec (blen data) 0), (Z.ltb_spec (maxCommand d) (blen data)), (Z.ltb_spec maxEncoded (blen (chain d) + blen data)); try lia.
  done.
Qed.

Lemma data_last d data n m : data_ready d -> bytes_ok data ->
  1 <= blen data <= 255 -> blen data <= maxCommand d -> blen (chain d) + blen data <= maxEncoded ->
  1 <= n <= 256 -> n <= maxResponse d -> UnwrapDO53 (chain d ++ data) = Ok m ->
  data_process d ([0; insEnvelope; 0; 0; lo (blen data)] ++ data ++ [lo n]) =
  ({| Response := None; HandoverRead := false; DataSelected := false; Message := Some m; Delivered := false |},
   set_pending (set_chain d []) true n).
Proof.
  intros [Hop Hse Hpe Hou] Hd Hl Hm Hc Hn Hr Hu; unfold data_process; rewrite Hop, parse_envelope_last by done.
  cbn [INS P1 P2]; change (insEnvelope =? insSelect) with false; change (insEnvelope =? insEnvelope) with true.
  rewrite Hse; cbn [negb orb Z.eqb]; unfold data_envelope; cbn [CLA Data Le]; rewrite Hpe, Hou; cbn [is_Some_b orb negb Z.eqb Pos.eqb andb].
  destruct (Z.eqb_spec (blen data) 0), (Z.ltb_spec (maxCommand d) (blen data)), (Z.ltb_spec maxEncoded (blen (chain d) + blen data)); try lia.
  destruct (Z.ltb_spec n 1), (Z.ltb_spec (maxResponse d) n); try lia; cbn [orb].
  by cbn [chain set_chain]; rewrite Hu.
Qed.

Lemma data_get d n out : closed d = false -> data_selected d = true -> outgoing d = Some out ->
  1 <= n <= 256 -> n <= maxResponse d ->
  data_process d [0; insGetResponse; 0; 0; lo n] = data_next d out n.
Proof.
  intros Hop Hse Hou Hn Hr; unfold data_process; rewrite Hop, parse_get_response by done.
  cbn [INS P1 P2]; change (insGetResponse =? insSelect) with false; change (insGetResponse =? insEnvelope) with false.
  change (insGetResponse =? insGetResponse) with true.
  rewrite Hse; cbn [negb orb Z.eqb CLA Data Le]; rewrite blen_nil; cbn [negb Z.eqb orb].
  destruct (Z.ltb_spec n 1), (Z.ltb_spec (maxResponse d) n); try lia; by rewrite Hou.
Qed.

(** ** The app: a Holder, its session, and what the Holder did *)

Section Exchange.
Context {N : Type} (negotiate : option (N -> bytes -> option bytes * N)) (parse : bytes -> option NFCDataParameters).

(** What the session answers to a message. *)
Context (session : bytes -> bytes).

Definition session_device (s : Holder (N := N) * list Step) (apdu : bytes) : bytes * (Holder * list Step) :=
  let '(h, log) := s in
  let '(step, h) := Process negotiate parse h apdu in
  match Message step with
  | None => (default [] (Response step), (h, log ++ [step]))
  | Some m =>
      let '(r, h) := Respond h (session m) in
      match r with
      | Ok step' => (default [] (Response step'), (h, log ++ [step; step']))
      | Err _ => let '(resp, h) := RefuseMessage h in (resp, (h, log ++ [step]))
      end
  end.

Lemma process_data h d apdu c : dataSelected h = true -> data h = Some d -> ParseCommand apdu = Some c ->
  INS c <> insSelect ->
  Process negotiate parse h apdu = let '(step, d) := data_process d apdu in (step, with_data h d).
Proof.
  intros Hs Hd Hp Hi; unfold Process; rewrite Hp.
  assert (isSelectByName c = false) as ->.
  { unfold isSelectByName; destruct (Z.eqb_spec (INS c) insSelect); [done|]; by rewrite andb_false_r. }
  rewrite Hs, Hd; destruct (data_process d apdu); unfold with_data; by rewrite Hs.
Qed.

Lemma slice_split {A} (l : list A) i j : 0 <= i <= j -> slice l 0 i ++ slice l i j = slice l 0 j.
Proof. intros; apply slice_app; lia. Qed.

Lemma slice_ok (l : bytes) i j : bytes_ok l -> bytes_ok (slice l i j).
Proof. intros; by apply Forall_take, Forall_drop. Qed.

(** Steps that deliver an answer: the last does, and no other; none carries a
    message. *)
Definition delivering (steps : list Step) : Prop :=
  omap Message steps = [] /\
  exists pre last, steps = pre ++ [last] /\ Delivered last = true /\ Forall (fun s => Delivered s = false) pre.

Lemma delivering_one s : Message s = None -> Delivered s = true -> delivering [s].
Proof. intros Hm Hd; split; [cbn; by rewrite Hm|by exists [], s]. Qed.

Lemma delivering_cons s steps : Message s = None -> Delivered s = false -> delivering steps -> delivering (s :: steps).
Proof.
  intros Hm Hd [Ho (pre & last & -> & Hl & Hp)]; split; [cbn; by rewrite Hm|].
  exists (s :: pre), last; split_and!; [done|done|by constructor].
Qed.

Lemma data_next_spec d out n : 0 <= offset d < blen out -> 1 <= n ->
  let end_ := Z.min (offset d + n) (blen out) in
  exists step, data_next d out n = (step, set_outgoing d (if blen out - end_ =? 0 then None else Some out) end_) /\
    Message step = None /\ Delivered step = (blen out - end_ =? 0) /\
    Response step = Some (response (if blen out - end_ =? 0 then swOK else
      Z.lor swMoreData (if 256 <=? blen out - end_ then 0 else blen out - end_)) (slice out (offset d) end_)).
Proof.
  intros Hoff Hn end_; unfold data_next; fold end_; destruct (blen out - end_ =? 0); eexists; split_and!; reflexivity.
Qed.

Lemma readResponses_eq polls resp limit assembled :
  readResponses polls resp limit assembled =
  if (blen resp <? 2) || (limit <? blen resp - 2) then fail ErrResponseSize
  else if maxEncoded <? blen assembled + blen resp - 2 then fail ErrResponseTooLarge
  else
    let '(data, sw) := default ([], 0) (status resp) in
    let assembled := assembled ++ data in
    if sw =? swOK then Done (res_map_err ErrUnwrap (UnwrapDO53 assembled))
    else if blen resp =? 2 then fail ErrEmptyContinuation
    else if negb (Z.land sw 65280 =? swMoreData) then fail ErrResponseChain
    else
      match polls with
      | O => fail ErrResponseChain
      | S polls =>
          let indicated := Z.land sw 255 in
          let le := if negb (indicated =? 0) then Z.min indicated limit else limit in
          let! resp := transceive [0; insGetResponse; 0; 0; lo le] None in
          readResponses polls resp limit assembled
      end.
Proof. by destruct polls. Qed.

Lemma with_data_twice (h : Holder (N := N)) d d' : with_data (with_data h d) d' = with_data h d'.
Proof. done. Qed.

(** Reading an answer from the response that carries it from the holder's
    offset, with polls enough for the rest. *)
Lemma readResponses_data out limit (h : Holder (N := N)) : blen out <= maxEncoded -> dataSelected h = true -> 1 <= limit <= 256 ->
  forall polls log d n,
  closed d = false -> data_selected d = true -> limit <= maxResponse d -> 0 <= offset d < blen out ->
  1 <= n <= limit -> blen out - offset d - 1 <= Z.of_nat polls ->
  let '(step, d1) := data_next d out n in
  exists post,
    ex_run session_device (readResponses polls (default [] (Response step)) limit (slice out 0 (offset d))) (with_data h d1, log) =
      (res_map_err ErrUnwrap (UnwrapDO53 out), (with_data h (set_outgoing d None (blen out)), log ++ post)) /\
    delivering (step :: post).
Proof.
  intros Hmax Hs Hlim; induction polls as [|polls IH]; intros log d n Hop Hse Hlr Hoff Hn Hpolls;
    destruct (data_next_spec d out n Hoff ltac:(lia)) as (step & -> & Hm & Hdel & Hresp); rewrite Hresp; cbn [default Datatypes.id];
    set (end_ := Z.min (offset d + n) (blen out)) in *;
    assert (Hend : offset d < end_ <= blen out /\ end_ - offset d <= limit) by (unfold end_; lia);
    rewrite readResponses_eq, !blen_response, !slice_length by lia;
    destruct (Z.ltb_spec (end_ - offset d + 2) 2), (Z.ltb_spec limit (end_ - offset d + 2 - 2)); try lia; cbn [orb];
    destruct (Z.ltb_spec maxEncoded (offset d - 0 + (end_ - offset d + 2) - 2)); try lia;
    clear Hresp; destruct (Z.eqb_spec (blen out - end_) 0) as [E|E].
  1, 3: exists []; rewrite status_response, app_nil_r by (vm_compute; split; congruence); cbn [default Datatypes.id];
    cbv beta zeta iota; rewrite Z.eqb_refl, slice_split by lia; assert (end_ = blen out) as -> by lia;
    rewrite slice_full; (split; [done|by apply delivering_one]).
  1: unfold end_ in E; lia.
  destruct (more_data (if 256 <=? blen out - end_ then 0 else blen out - end_)) as (Hsw & Hok & Hmore & Hand).
  { destruct (Z.leb_spec 256 (blen out - end_)); lia. }
  set (r := if 256 <=? blen out - end_ then 0 else blen out - end_) in *.
  rewrite status_response by done; cbn [default Datatypes.id]; cbv beta zeta iota.
  rewrite Hok, Hmore, Hand, slice_split by lia; cbn [negb].
  destruct (Z.eqb_spec (end_ - offset d + 2) 2); [lia|].
  set (n' := if negb (r =? 0) then Z.min r limit else limit).
  assert (Hn' : 1 <= n' <= limit).
  { unfold n'; destruct (Z.eqb_spec r 0); cbn [negb]; [lia|]; unfold r in *; destruct (Z.leb_spec 256 (blen out - end_)); lia. }
  rewrite ex_run_out; cbn [ex_run transceive]; unfold session_device at 1.
  set (d1 := set_outgoing d (Some out) end_).
  erewrite (process_data (with_data h d1) d1); [|done|done|apply parse_get_response; lia|done].
  assert (Hr1 : n' <= maxResponse d1) by (change (maxResponse d1) with (maxResponse d); lia).
  rewrite (data_get d1 n' out) by (done || lia).
  destruct (data_next_spec d1 out n' ltac:(change (offset d1) with end_; lia) ltac:(lia)) as (step' & Hn2 & Hm2 & _ & _).
  specialize (IH (log ++ [step']) d1 n' Hop Hse Hlr ltac:(change (offset d1) with end_; lia) Hn'
    ltac:(change (offset d1) with end_; lia)); rewrite Hn2 in *; destruct IH as (post & Hrun & Hdl).
  exists (step' :: post); split; [|apply delivering_cons; [done|by rewrite Hdel|done]].
  rewrite Hm2; change (offset d1) with end_ in Hrun; rewrite <- app_assoc in Hrun; exact Hrun.
Qed.

Definition message_step (m : bytes) : Step :=
  {| Response := None; HandoverRead := false; DataSelected := false; Message := Some m; Delivered := false |}.

(** The holder that has taken a message and answers it with [out]. *)
Definition answering (d : dataHolder) (out : bytes) (n : Z) : dataHolder :=
  set_pending (set_outgoing (set_pending (set_chain d []) true n) (Some out) 0) false n.

Lemma respond_answering (h : Holder (N := N)) d n m out : closed d = false -> outgoing d = None -> WrapDO53 m = Some out ->
  Respond (with_data h (set_pending (set_chain d []) true n)) m =
  let '(step, d) := data_next (answering d out n) out n in (Ok step, with_data h d).
Proof.
  intros Hop Hou Hw; unfold Respond; cbn [data with_data]; unfold data_respond.
  cbn [closed outgoing pending set_pending set_chain]; rewrite Hop, Hou, Hw; cbn [is_Some_b orb negb].
  change (data_next _ out _) with (data_next (answering d out n) out n) at 1.
  by destruct (data_next (answering d out n) out n).
Qed.

(** The ENVELOPE chain hands the holder its message, and the response to the
    last command is the answer's first part. *)
Lemma sendEnvelopes_data encoded m out cl rl (h : Holder (N := N)) :
  bytes_ok encoded -> UnwrapDO53 encoded = Ok m -> WrapDO53 (session m) = Some out -> blen encoded <= maxEncoded ->
  dataSelected h = true -> 1 <= cl <= 255 -> 1 <= rl <= 256 ->
  forall fuel log d off, data h = Some d -> data_ready d -> cl <= maxCommand d -> rl <= maxResponse d ->
  0 <= off < blen encoded -> chain d = slice encoded 0 off -> blen encoded - off <= Z.of_nat fuel ->
  exists pre, Forall (fun s => Message s = None /\ Delivered s = false) pre /\
  let '(step, d1) := data_next (answering d out rl) out rl in
  ex_run session_device (sendEnvelopes fuel encoded cl rl off) (h, log) =
    (Ok (default [] (Response step)), (with_data h d1, log ++ pre ++ [message_step m; step])).
Proof.
  intros Hok Hu Hw Hmax Hs Hcl Hrl fuel; revert h Hs; induction fuel as [|fuel IH];
    intros h Hs log d off Hd Hr Hc1 Hr1 Hoff Hch Hfuel; [lia|].
  cbn [sendEnvelopes]; set (end_ := Z.min (off + cl) (blen encoded)).
  assert (Hend : off < end_ <= blen encoded /\ end_ - off <= cl) by (unfold end_; lia).
  set (part := slice encoded off end_).
  assert (Hp : blen part = end_ - off) by (unfold part; rewrite slice_length; lia).
  assert (Hpo : bytes_ok part) by (by apply slice_ok).
  assert (Hcat : chain d ++ part = slice encoded 0 end_) by (rewrite Hch; apply slice_split; lia).
  assert (Hcl' : blen (chain d) = off) by (rewrite Hch, slice_length; lia).
  rewrite <- Hp; destruct (Z.eqb_spec end_ (blen encoded)) as [E|E].
  - exists []; split; [done|].
    cbn [ex_run transceive]; unfold session_device at 1.
    erewrite (process_data h d); [|done|done|apply parse_envelope_last; done || lia|done].
    rewrite (data_last d part rl m); try (done || lia); [|by rewrite Hcat, E, slice_full].
    cbn [Message]; rewrite (respond_answering h d rl (session m) out) by (apply Hr || done).
    destruct (data_next (answering d out rl) out rl) as [step d1]; done.
  - rewrite ex_run_out; cbn [ex_run transceive]; unfold session_device at 1.
    erewrite (process_data h d); [|done|done|apply parse_envelope; done || lia || (unfold byte_ok; lia)|done].
    rewrite (data_chained d part) by (done || lia); cbn [Message respond_with Response default Datatypes.id ret ex_run].
    unfold bytes_eqb; rewrite bool_decide_true by done; cbn [negb].
    set (d' := set_chain d (chain d ++ part)); set (st := respond_with swOK []).
    destruct (IH (with_data h d') Hs (log ++ [st]) d' end_) as (pre & Hpre & Hrun); try (done || lia).
    { destruct Hr; by constructor. }
    exists (st :: pre); split; [by constructor|].
    change (answering d' out rl) with (answering d out rl) in Hrun.
    destruct (data_next (answering d out rl) out rl) as [step d1].
    rewrite with_data_twice, <- app_assoc in Hrun; exact Hrun.
Qed.

(** The holder's data application, ready for a message. *)
Definition ready (h : Holder (N := N)) (d : dataHolder) : Prop :=
  dataSelected h = true /\ data h = Some d /\ data_ready d /\ chain d = [].

Lemma WrapDO53_bytes m b : bytes_ok m -> WrapDO53 m = Some b -> bytes_ok b.
Proof.
  intros Hm Hw; destruct (WrapDO53_field m b Hw) as [[Hlt ->]|(field & -> & Hf & Hl & _)];
    pose proof (blen_nonneg m); repeat (apply Forall_cons_2; [unfold byte_ok; lia|]); [done|by apply Forall_app_2].
Qed.

(** C36: a message the reader sends over NFC is the message the session gets,
    and the session's answer is what the reader gets back, whatever the
    limits: of the tag connection (from 7 bytes), and of the two sides, as
    long as the holder's are those of the parameters.  The messages may be of
    any size DO53 carries, in as many commands and responses as that takes.
    The Holder reports the message in one step, the answer delivered in the
    last step and no other, and is then ready for another message. *)
Theorem Transact_delivers (maxTransceive : Z) (p : NFCDataParameters) (message : bytes) (h : Holder) (d : dataHolder) (log : list Step) :
  bytes_ok message -> blen message <= MaxMessage -> blen (session message) <= MaxMessage ->
  ready h d -> maxCommand d = MaxCommand p -> maxResponse d = MaxResponse p ->
  1 <= MaxCommand p -> 1 <= MaxResponse p -> 7 <= maxTransceive ->
  exists d' pre post,
    ex_run session_device (transact maxTransceive p message) (h, log) =
      (Ok (session message), (with_data h d', log ++ pre ++ message_step message :: post)) /\
    ready (with_data h d') d' /\ maxCommand d' = MaxCommand p /\ maxResponse d' = MaxResponse p /\
    Forall (fun s => Message s = None /\ Delivered s = false) pre /\ delivering post.
Proof.
  intros Hb Hm Hrep (Hs & Hd & Hr & Hch) Hc Hrs Hc1 Hr1 Hmt; unfold transact.
  set (cl := Z.min (Z.min 255 (maxTransceive - 6)) (MaxCommand p)); set (rl := Z.min (Z.min 256 (maxTransceive - 2)) (MaxResponse p)).
  assert (Hcl : 1 <= cl <= 255 /\ cl <= maxCommand d) by (unfold cl; lia).
  assert (Hrl : 1 <= rl <= 256 /\ rl <= maxResponse d) by (unfold rl; lia).
  destruct (Z.ltb_spec cl 1), (Z.ltb_spec rl 1); try lia; cbn [orb].
  destruct (WrapDO53_ok message Hm) as [encoded He]; rewrite He.
  destruct (WrapDO53_ok (session message) Hrep) as [out Ho].
  pose proof (blen_WrapDO53 _ _ He); pose proof (blen_WrapDO53 _ _ Ho).
  pose proof (blen_nonneg message); pose proof (blen_nonneg (session message)).
  rewrite ex_run_out.
  destruct (sendEnvelopes_data encoded message out cl rl h (WrapDO53_bytes _ _ Hb He) (Unwrap_Wrap _ _ He) Ho
    ltac:(unfold maxEncoded; lia) Hs ltac:(lia) ltac:(lia) (S (length encoded)) log d 0 Hd Hr ltac:(lia) ltac:(lia) ltac:(lia))
    as (pre & Hpre & Hrun); [by rewrite Hch|unfold blen; lia|].
  pose proof (readResponses_data out rl h ltac:(unfold maxEncoded; lia) Hs ltac:(lia) (Z.to_nat maxEncoded)) as Hread.
  destruct (data_next (answering d out rl) out rl) as [step d1] eqn:En; rewrite Hrun.
  specialize (Hread (log ++ pre ++ [message_step message; step]) (answering d out rl) rl (dr_open d Hr) (dr_selected d Hr)
    ltac:(change (maxResponse (answering d out rl)) with (maxResponse d); lia)
    ltac:(change (offset (answering d out rl)) with 0; lia) ltac:(lia)
    ltac:(change (offset (answering d out rl)) with 0; unfold maxEncoded; lia)).
  rewrite En in Hread; destruct Hread as (post & Hrun2 & Hdel).
  change (slice out 0 (offset (answering d out rl))) with (@nil Z) in Hrun2; cbv beta iota; rewrite Hrun2, (Unwrap_Wrap _ _ Ho).
  exists (set_outgoing (answering d out rl) None (blen out)), pre, (step :: post); split; [|split; [|done]].
  - cbn [res_map_err]; do 2 f_equal; rewrite <- !app_assoc; done.
  - split_and!; try done; destruct Hr; by constructor.
Qed.
End Exchange.

Lemma Transact_delivers_witness : exists t,
  let d := set_data_selected (set_limits new_dataHolder 255 256) in
  let h := {| tag := t; tnep := None; data := Some d; dataSelected := true; app := tt |} in
  fst (ex_run (session_device None (fun _ => None) (@rev Z))
    (transact 8 {| MaxCommand := 255; MaxResponse := 256 |} [1; 2; 3]) (h, [])) = Ok [3; 2; 1].
Proof.
  destruct (newType4Tag [1]) as [t|] eqn:Et; [|discriminate Et]; exists t; intros d h.
  destruct (Transact_delivers None (fun _ => None) (@rev Z) 8 {| MaxCommand := 255; MaxResponse := 256 |} [1; 2; 3] h d [])
    as (d' & pre & post & Hrun & _);
    [solve_bytes|vm_compute; discriminate|vm_compute; discriminate|split_and!; try reflexivity; by constructor|reflexivity|reflexivity
    |vm_compute; discriminate|vm_compute; discriminate|vm_compute; discriminate|].
  rewrite Hrun; reflexivity.
Defined.
