(* ===== verification/HandoverExchange.v ===== *)
(** * Reading a handover over NFC: [ReadHandover] against a [Holder]

    The reader's Type 4 Tag reader ([reader.go]) run against the emulated tag
    ([type4.go], [holder.go]), through command APDUs: a static handover is
    read as the holder serves it, and a negotiated one comes to the answer
    the holder's callback gives to the very request the reader was given. *)
From S2P Require Import Prelude Apdu Ndef Type4 Holder Reader DataExchange.

(** ** Commands *)

Lemma hi_value n : 0 <= n < 65536 -> hi n = n / 256.
Proof.
  intros Hn; unfold hi; rewrite land_255, Z.shiftr_div_pow2 by lia; change (2 ^ 8) with 256.
  apply Z.mod_small; Z.div_mod_to_equations; lia.
Qed.

Lemma hi_lo n : 0 <= n < 65536 -> hi n * 256 + lo n = n /\ byte_ok (hi n) /\ byte_ok (lo n).
Proof. intros Hn; rewrite hi_value, lo_mod by done; unfold byte_ok; Z.div_mod_to_equations; lia. Qed.

(** A short offset is in the file: the top bit of P1 is clear. *)
Lemma offset_bit n : 0 <= n < 32768 -> Z.land (hi n) 128 = 0.
Proof.
  intros Hn; rewrite hi_value by lia; assert (Hb : 0 <= n / 256 < 128) by (Z.div_mod_to_equations; lia).
  pose proof (byte_cases (fun x => (128 <=? x) || (Z.land x 128 =? 0)) eq_refl (n / 256) ltac:(unfold byte_ok; lia)) as H.
  cbv beta in H; destruct (Z.leb_spec 128 (n / 256)); [lia|]; by apply Z.eqb_eq.
Qed.

Lemma parse_read offset n : 0 <= offset < 65536 -> 1 <= n <= 255 ->
  ParseCommand [0; insReadBinary; hi offset; lo offset; lo n] =
  Some {| CLA := 0; INS := insReadBinary; P1 := hi offset; P2 := lo offset; Data := []; Le := n |}.
Proof.
  intros Ho Hn; destruct (hi_lo offset Ho) as (_ & H1 & H2); rewrite (lo_mod n); apply encodes_ParseCommand.
  - repeat (apply Forall_cons_2; [done || (unfold byte_ok, insReadBinary; lia) || (apply Z.mod_pos_bound; lia)|]); by apply Forall_nil_2.
  - by apply (Case2S {| CLA := 0; INS := insReadBinary; P1 := hi offset; P2 := lo offset; Data := []; Le := n |}); cbn; [|lia].
Qed.

Lemma parse_update offset data : 0 <= offset < 65536 -> bytes_ok data -> 1 <= blen data <= 255 ->
  ParseCommand ([0; insUpdate; hi offset; lo offset; lo (blen data)] ++ data) =
  Some {| CLA := 0; INS := insUpdate; P1 := hi offset; P2 := lo offset; Data := data; Le := 0 |}.
Proof.
  intros Ho Hd Hn; destruct (hi_lo offset Ho) as (_ & H1 & H2); rewrite (lo_small (blen data)) by lia; apply encodes_ParseCommand.
  - cbn [app]; repeat (apply Forall_cons_2; [done || (unfold byte_ok, insUpdate; lia)|]); done.
  - by apply (Case3S {| CLA := 0; INS := insUpdate; P1 := hi offset; P2 := lo offset; Data := data; Le := 0 |}).
Qed.

(** ** Tags being read *)

(** [k] bytes of the message have been read, and it has not been reported. *)
Definition read_so_far (t : type4Tag) (k : Z) : Prop :=
  notified t = false /\ bitset_wf (coverage t) /\ forall j, 0 <= j -> bitset_mem (coverage t) j = (j <? k).

Lemma read_so_far_fresh t : notified t = false -> coverage t = bitset_empty -> read_so_far t 0.
Proof.
  intros Hn Hc; split; [done|split; [rewrite Hc; apply bitset_empty_wf|]].
  intros j Hj; rewrite Hc, bitset_empty_mem; symmetry; apply Z.ltb_ge; lia.
Qed.

(** What reading leaves of a tag as it was. *)
Definition reads_alike (t t' : type4Tag) : Prop :=
  ndef t' = ndef t /\ committed t' = committed t /\ selected t' = selected t /\ file t' = file t /\
  staged t' = staged t /\ written t' = written t.

Lemma reads_alike_trans t1 t2 t3 : reads_alike t1 t2 -> reads_alike t2 t3 -> reads_alike t1 t3.
Proof. unfold reads_alike; intuition congruence. Qed.

Lemma covers_so_far t k n : read_so_far t k -> 0 <= n -> 0 <= k -> bitset_covers (coverage t) n = (n <=? k).
Proof.
  intros (_ & _ & Hm) Hn Hk; destruct (Z.leb_spec n k) as [H|H].
  - apply bitset_covers_spec; [done|]; intros j Hj; rewrite Hm by lia; apply Z.ltb_lt; lia.
  - destruct (bitset_covers (coverage t) n) eqn:E; [|done]; rewrite bitset_covers_spec in E by done.
    specialize (E k ltac:(lia)); rewrite Hm in E by lia; apply Z.ltb_lt in E; lia.
Qed.

(** Reading [n] bytes at an offset in the NDEF file, in order: the length
    first, or the next bytes of the message. *)
Lemma read_in_order w t offset n k : file t = fileNDEF -> blen (ndef t) <= maxNDEF + 2 -> read_so_far t k ->
  0 <= k < blen (ndef t) - 2 -> 1 <= n <= 255 -> offset + n <= blen (ndef t) ->
  offset = 0 /\ n <= 2 \/ offset = k + 2 ->
  let c := {| CLA := 0; INS := insReadBinary; P1 := hi offset; P2 := lo offset; Data := []; Le := n |} in
  let k' := Z.max k (offset + n - 2) in
  exists t', tag_readBinary w t c = (response swOK (slice (ndef t) offset (offset + n)), k' =? blen (ndef t) - 2, t') /\
    reads_alike t t' /\ (k' < blen (ndef t) - 2 -> read_so_far t' k').
Proof.
  intros Hf Hmax Hk Hkn Hn Hend Hoff c k'; unfold tag_readBinary, maxNDEF in *.
  assert (Ho : 0 <= offset < 32768) by lia; destruct (hi_lo offset ltac:(lia)) as (Hv & H1 & H2).
  assert (Hoff' : Z.lor (Z.shiftl (P1 c) 8) (P2 c) = offset) by (change (Z.lor (Z.shiftl (hi offset) 8) (lo offset) = offset); rewrite lor_byte by done; exact Hv).
  rewrite Hoff'; clear Hoff'; unfold c; cbn [P1 Data Le]; rewrite offset_bit by lia; change (blen (@nil Z)) with 0; rewrite Hf; cbn [negb Z.eqb orb].
  destruct (Z.eqb_spec n 0); [lia|]; change (fileNDEF =? fileCC) with false; change (fileNDEF =? fileNDEF) with true; cbv iota.
  destruct (Z.leb_spec (blen (ndef t)) offset); [lia|]; destruct (Z.ltb_spec 255 n); [lia|].
  assert (Z.min (offset + n) (blen (ndef t)) = offset + n) as -> by lia; cbv zeta.
  replace (offset + n - offset =? n) with true by (symmetry; apply Z.eqb_eq; lia); cbn [negb].
  set (cov := if _ <? _ then _ else _); destruct Hk as (Hno & Hwf & Hmem).
  assert (Hcov : bitset_wf cov /\ forall j, 0 <= j -> bitset_mem cov j = (j <? k')).
  { unfold cov, k'; destruct (Z.ltb_spec (Z.max offset 2 - 2) (Z.max (offset + n) 2 - 2)).
    - split; [apply bitset_set_wf|intros j Hj; rewrite bitset_set_mem, Hmem]; try (done || lia);
        try (rewrite bitset_words_value; lia).
    - split; [done|]; intros j Hj; rewrite Hmem by done; f_equal; lia. }
  clearbody cov; destruct Hcov as [Hw2 Hm2].
  assert (Hc : bitset_covers cov (blen (ndef t) - 2) = (k' =? blen (ndef t) - 2)).
  { rewrite (covers_so_far (set_coverage t cov false) k') by (done || unfold k'; lia); unfold k' in *.
    destruct (Z.leb_spec (blen (ndef t) - 2) (Z.max k (offset + n - 2))), (Z.eqb_spec (Z.max k (offset + n - 2)) (blen (ndef t) - 2)); done || lia. }
  rewrite Hno, Hc; cbn [negb andb orb]; eexists; split; [reflexivity|split; [done|]].
  intros Hlt; destruct (Z.eqb_spec k' (blen (ndef t) - 2)); [lia|]; done.
Qed.

Section Handover.
Context {N : Type} (negotiate : option (N -> bytes -> option bytes * N)) (parse : bytes -> option NFCDataParameters).
Context (session : bytes -> bytes).

Abbreviation device := (session_device negotiate parse session).

Definition with_tag (h : Holder (N := N)) (t : type4Tag) : Holder :=
  {| tag := t; tnep := tnep h; data := data h; dataSelected := dataSelected h; app := app h |}.

Lemma with_tag_twice h t t' : with_tag (with_tag h t) t' = with_tag h t'.
Proof. done. Qed.

(** Whether reading the message is reading the handover: it is not while
    the tag serves what comes before a negotiated one. *)
Definition is_handover (h : Holder (N := N)) : bool :=
  match tnep h with None => true | Some th => handoverReady th end.

Definition tag_step (resp : bytes) (read : bool) : Step :=
  {| Response := Some resp; HandoverRead := read; DataSelected := false; Message := None; Delivered := false |}.

(** A command the tag answers from its own state. *)
Lemma device_tag h log apdu c resp read t' : dataSelected h = false -> ParseCommand apdu = Some c ->
  bytes_eqb (Data c) DataApplication = false \/ isSelectByName c = false ->
  (forall u, tag_process (holder_update negotiate parse) (tag h) u apdu = (resp, read, t', u)) ->
  device (h, log) apdu = (resp, (with_tag h t', log ++ [tag_step resp (read && is_handover h)])).
Proof.
  intros Hs Hp Hc Ht; unfold session_device, Process; rewrite Hp.
  assert ((if isSelectByName c then is_Some_b (data h) && bytes_eqb (Data c) DataApplication else dataSelected h) = false) as ->.
  { destruct Hc as [-> | ->]; [|done]; rewrite andb_false_r; by destruct (isSelectByName c). }
  cbv zeta iota; unfold holder_tag_process; rewrite Ht; cbn [Message Response default Datatypes.id].
  unfold with_tag, tag_step, is_handover; destruct (tnep h); cbn; by rewrite Hs.
Qed.

Lemma tag_process_read t u offset n : selected t = true -> 0 <= offset < 65536 -> 1 <= n <= 255 ->
  tag_process (holder_update negotiate parse) t u [0; insReadBinary; hi offset; lo offset; lo n] =
  let '(resp, read, t) := tag_readBinary (writable (holder_update negotiate parse)) t
    {| CLA := 0; INS := insReadBinary; P1 := hi offset; P2 := lo offset; Data := []; Le := n |} in
  (resp, read, t, u).
Proof.
  intros Hs Ho Hn; unfold tag_process; rewrite parse_read by done; cbn [CLA INS negb Z.eqb].
  change (insReadBinary =? insSelect) with false; change (insReadBinary =? insReadBinary) with true; cbn [andb].
  by rewrite Hs.
Qed.

(** A reader's READ BINARY whose answer is [d]. *)
Lemma run_readBinary t h log offset n d read t' wait : dataSelected h = false -> selected (tag h) = true ->
  0 <= offset < 65536 -> 1 <= n <= 255 -> 5 <= maxTransceive t -> blen d = n ->
  tag_readBinary (writable (holder_update negotiate parse)) (tag h)
    {| CLA := 0; INS := insReadBinary; P1 := hi offset; P2 := lo offset; Data := []; Le := n |} = (response swOK d, read, t') ->
  ex_run device (rd_readBinary t offset n wait) (h, log) =
    (Ok d, (with_tag h t', log ++ [tag_step (response swOK d) (read && is_handover h)])).
Proof.
  intros Hs Hsel Ho Hn Hmt Hd Hr; unfold rd_readBinary; rewrite ex_run_out; unfold rd_command.
  change (blen [0; insReadBinary; hi offset; lo offset; lo n]) with 5; destruct (Z.ltb_spec (maxTransceive t) 5); [lia|].
  rewrite ex_run_out; cbn [ex_run transceive].
  rewrite (device_tag h log _ _ _ _ _ Hs (parse_read offset n Ho Hn) (or_intror eq_refl)
    (fun u => eq_trans (tag_process_read (tag h) u offset n Hsel Ho Hn) (f_equal (fun '(resp, read, t) => (resp, read, t, u)) Hr))).
  cbn [ret ex_run]; rewrite status_response by (vm_compute; split; congruence); cbv beta iota; rewrite Z.eqb_refl; cbn [negb ret ex_run].
  by rewrite Hd, Z.eqb_refl.
Qed.

(** Steps that report the handover read in the last of them, or nowhere. *)
Definition reporting (b : bool) (steps : list Step) : Prop :=
  exists pre last, steps = pre ++ [last] /\ HandoverRead last = b /\ Forall (fun s => HandoverRead s = false) pre.

Lemma reporting_cons b s steps : HandoverRead s = false -> reporting b steps -> reporting b (s :: steps).
Proof.
  intros Hs (pre & last & -> & Hl & Hp); exists (s :: pre), last; split_and!; [done|done|by constructor].
Qed.

Lemma slice_message m k n : 0 <= k -> slice (withNLEN m) (k + 2) (k + 2 + n) = slice m k (k + n).
Proof.
  intros Hk; change (withNLEN m) with (hi (blen m) :: lo (blen m) :: m); rewrite !slice_cons by lia; f_equal; lia.
Qed.

(** Reading the message on from where it has been read to. *)
Lemma run_read_loop t m : 5 <= maxTransceive t -> 1 <= chunk t <= 255 -> 1 <= blen m <= maxNDEF ->
  forall fuel h log k, dataSelected h = false -> selected (tag h) = true -> file (tag h) = fileNDEF ->
  ndef (tag h) = withNLEN m -> read_so_far (tag h) k -> 0 <= k < blen m -> blen m - k <= Z.of_nat fuel ->
  exists t' steps,
    ex_run device (rd_read_loop fuel t 2 (blen m) (slice m 0 k)) (h, log) = (Ok m, (with_tag h t', log ++ steps)) /\
    reads_alike (tag h) t' /\ reporting (is_handover h) steps.
Proof.
  intros Hmt Hch Hm; unfold maxNDEF in Hm; induction fuel as [|fuel IH]; intros h log k Hs Hsel Hf Hnd Hk Hkm Hfuel; [lia|].
  cbn [rd_read_loop]; rewrite slice_length by lia; destruct (Z.ltb_spec (k - 0) (blen m)); [|lia].
  replace (k - 0) with k by lia; set (n := Z.min (chunk t) (blen m - k)).
  assert (Hn : 1 <= n <= 255 /\ k + n <= blen m) by (unfold n; lia).
  assert (Hlen : blen (ndef (tag h)) = blen m + 2) by (rewrite Hnd, blen_withNLEN; lia).
  destruct (read_in_order (writable (holder_update negotiate parse)) (tag h) (k + 2) n k Hf ltac:(unfold maxNDEF; lia) Hk
    ltac:(lia) ltac:(lia) ltac:(lia) ltac:(lia)) as (t' & Hr & Hal & Hso).
  replace (Z.max k (k + 2 + n - 2)) with (k + n) in * by lia; replace (blen (ndef (tag h)) - 2) with (blen m) in * by lia.
  rewrite Hnd, slice_message in Hr by lia.
  rewrite ex_run_out, (run_readBinary t h log (k + 2) n (slice m k (k + n)) (k + n =? blen m) t') by
    (done || lia || (rewrite slice_length; lia)).
  rewrite slice_split by lia; destruct (Z.eqb_spec (k + n) (blen m)) as [E|E].
  - assert (Hdone : rd_read_loop fuel t 2 (blen m) (slice m 0 (k + n)) = ret m).
    { rewrite E, slice_full; destruct fuel; cbn [rd_read_loop]; [done|]; by destruct (Z.ltb_spec (blen m) (blen m)); [lia|]. }
    rewrite Hdone; cbn [ret ex_run]; eexists t', _; split_and!; [reflexivity|done|]; by exists [], (tag_step (response swOK (slice m k (k + n))) (is_handover h)).
  - destruct (IH (with_tag h t') (log ++ [tag_step (response swOK (slice m k (k + n))) false]) (k + n)) as (t'' & steps & Hrun & Hal2 & Hrep);
      try done; try lia; try (destruct Hal as (E1 & E2 & E3 & E4 & E5 & E6); cbn [with_tag tag]; congruence); [apply Hso; lia|].
    cbn [andb]; rewrite Hrun, with_tag_twice, <- app_assoc; eexists t'', _; split_and!; [reflexivity|by eapply reads_alike_trans|].
    by apply reporting_cons.
Qed.

Lemma uint16_hi_lo n : 0 <= n < 65536 -> uint16At [hi n; lo n] 0 = n.
Proof.
  intros Hn; destruct (hi_lo n Hn) as (Hv & H1 & H2); rewrite uint16At_value; [exact Hv|exact H2].
Qed.

(** Reading a message the tag has just been given. *)
Lemma run_readMessage t m h log : 5 <= maxTransceive t -> 1 <= chunk t <= 255 -> 1 <= blen m <= maxNDEF -> blen m <= maxSize t - 2 ->
  dataSelected h = false -> selected (tag h) = true -> file (tag h) = fileNDEF ->
  ndef (tag h) = withNLEN m -> read_so_far (tag h) 0 ->
  exists t' steps, ex_run device (rd_readMessage t) (h, log) = (Ok m, (with_tag h t', log ++ steps)) /\
    reads_alike (tag h) t' /\ reporting (is_handover h) steps.
Proof.
  intros Hmt Hch Hm Hsz Hs Hsel Hf Hnd Hk; unfold maxNDEF in Hm; unfold rd_readMessage, rd_readLength.
  assert (Hlen : blen (ndef (tag h)) = blen m + 2) by (rewrite Hnd, blen_withNLEN; lia).
  destruct (read_in_order (writable (holder_update negotiate parse)) (tag h) 0 2 0 Hf ltac:(unfold maxNDEF; lia) Hk
    ltac:(lia) ltac:(lia) ltac:(lia) ltac:(lia)) as (t' & Hr & Hal & Hso).
  change (Z.max 0 (0 + 2 - 2)) with 0 in *; replace (blen (ndef (tag h)) - 2) with (blen m) in * by lia.
  assert (Hsl : slice (ndef (tag h)) 0 (0 + 2) = [hi (blen m); lo (blen m)]) by (by rewrite Hnd).
  rewrite Hsl in Hr; destruct (Z.eqb_spec 0 (blen m)); [lia|].
  rewrite !ex_run_out, (run_readBinary t h log 0 2 [hi (blen m); lo (blen m)] false t') by (done || lia).
  cbn [ret ex_run]; rewrite uint16_hi_lo by lia; destruct (Z.eqb_spec (blen m) 0); [lia|].
  destruct (Z.ltb_spec (maxSize t - 2) (blen m)); [lia|]; cbn [orb andb].
  destruct (run_read_loop t m Hmt Hch ltac:(unfold maxNDEF; lia) (S (Z.to_nat (blen m))) (with_tag h t')
    (log ++ [tag_step (response swOK [hi (blen m); lo (blen m)]) false]) 0) as (t'' & steps & Hrun & Hal2 & Hrep);
    try done; try lia; try (destruct Hal as (E1 & E2 & E3 & E4 & E5 & E6); cbn [with_tag tag]; congruence); [apply Hso; lia|].
  change (slice m 0 0) with (@nil Z) in Hrun; rewrite Hrun, with_tag_twice, <- app_assoc; cbn [app].
  eexists t'', _; split_and!; [reflexivity|by eapply reads_alike_trans|by apply reporting_cons].
Qed.

(** *** Selecting the files *)

Lemma run_select t h log c cmd t' : dataSelected h = false -> blen cmd <= maxTransceive t -> ParseCommand cmd = Some c ->
  bytes_eqb (Data c) DataApplication = false ->
  (forall u, tag_process (holder_update negotiate parse) (tag h) u cmd = (response swOK [], false, t', u)) ->
  ex_run device (rd_command t cmd None) (h, log) = (Ok [], (with_tag h t', log ++ [tag_step (response swOK []) false])).
Proof.
  intros Hs Hmt Hp Hc Ht; unfold rd_command; destruct (Z.ltb_spec (maxTransceive t) (blen cmd)); [lia|].
  rewrite ex_run_out; cbn [ex_run transceive].
  rewrite (device_tag h log cmd c (response swOK []) false t' Hs Hp (or_introl Hc) Ht); cbn [ret ex_run].
  rewrite status_response by (vm_compute; split; congruence); done.
Qed.

Lemma run_selectFile t h log f : dataSelected h = false -> selected (tag h) = true -> 7 <= maxTransceive t ->
  f = fileCC \/ f = fileNDEF ->
  ex_run device (rd_selectFile t f) (h, log) = (Ok tt, (with_tag h (set_selection (tag h) true f), log ++ [tag_step (response swOK []) false])).
Proof.
  intros Hs Hsel Hmt Hf; unfold rd_selectFile; rewrite ex_run_out.
  destruct Hf as [-> | ->]; (erewrite (run_select t h log _ _ (set_selection (tag h) true _));
    [done|done|change (7 <= maxTransceive t); lia|vm_compute; reflexivity|vm_compute; reflexivity|]);
    intros u; unfold tag_process;
    (match goal with |- context [ParseCommand ?b] => let c := eval vm_compute in (ParseCommand b) in change (ParseCommand b) with c end);
    cbn -[response]; rewrite Hsel; reflexivity.
Qed.

Lemma run_selectApplication t h log : dataSelected h = false -> 13 <= maxTransceive t ->
  ex_run device (rd_command t ([0; insSelect; 4; 0; lo (blen NDEFApplication)] ++ NDEFApplication ++ [0]) None) (h, log) =
    (Ok [], (with_tag h (set_selection (tag h) true 0), log ++ [tag_step (response swOK []) false])).
Proof.
  intros Hs Hmt; eapply run_select; [done|change (13 <= maxTransceive t); lia|vm_compute; reflexivity|vm_compute; reflexivity|].
  intros u; unfold tag_process.
  match goal with |- context [ParseCommand ?b] => let c := eval vm_compute in (ParseCommand b) in change (ParseCommand b) with c end.
  reflexivity.
Qed.

(** *** The capability container *)

Lemma read_container w t n : file t = fileCC -> n = 2 \/ n = 15 ->
  tag_readBinary w t {| CLA := 0; INS := insReadBinary; P1 := hi 0; P2 := lo 0; Data := []; Le := n |} =
  (response swOK (slice (served_container w) 0 n), false, t).
Proof.
  intros Hf Hn; unfold tag_readBinary; cbn [P1 P2 Data Le]; rewrite Hf; by destruct Hn as [-> | ->], w.
Qed.

Lemma run_container {B} t h log w (k : bytes -> outcome B) : dataSelected h = false -> selected (tag h) = true -> file (tag h) = fileCC ->
  w = writable (holder_update negotiate parse) -> 5 <= maxTransceive t -> 15 <= chunk t ->
  exists steps, ex_run device (let! n := rd_readLength t in
      if (n <? 15) || (255 <? n) then fail ErrCCLength else let! cc := rd_readFile t n in k cc) (h, log) =
    ex_run device (k (served_container w)) (h, log ++ steps) /\ Forall (fun s => HandoverRead s = false) steps.
Proof.
  intros Hs Hsel Hf Hw Hmt Hch.
  pose proof (run_readBinary t h log 0 2 (slice (served_container w) 0 2) false (tag h) None Hs Hsel ltac:(lia) ltac:(lia) Hmt
    ltac:(by destruct w) ltac:(rewrite <- Hw; by apply read_container; [|left])) as H2.
  assert (Hh : with_tag h (tag h) = h) by (by destruct h); rewrite Hh in H2; cbn [andb] in H2.
  unfold rd_readLength; rewrite !ex_run_out, H2; cbn [ret ex_run].
  assert (uint16At (slice (served_container w) 0 2) 0 = 15) as -> by (by destruct w); cbn [Z.ltb Z.compare Pos.compare Pos.compare_cont orb].
  rewrite ex_run_out; unfold rd_readFile; change (Z.to_nat 15) with 15%nat; cbn [rd_read_loop].
  change (blen (@nil Z)) with 0; assert (Z.min (chunk t) (15 - 0) = 15) as -> by lia; cbn [Z.ltb Z.compare].
  pose proof (run_readBinary t h (log ++ [tag_step (response swOK (slice (served_container w) 0 2)) false]) 0 15 (slice (served_container w) 0 15)
    false (tag h) None Hs Hsel ltac:(lia) ltac:(lia) Hmt
    ltac:(by destruct w) ltac:(rewrite <- Hw; by apply read_container; [|right])) as H15.
  rewrite Hh in H15; cbn [andb] in H15; rewrite ex_run_out; change (0 + 0) with 0; rewrite H15.
  assert (slice (served_container w) 0 15 = served_container w) as -> by (by destruct w).
  assert (blen ([] ++ served_container w) = 15) as Hl by (by destruct w); rewrite Hl; cbn [Z.ltb Z.compare Pos.compare Pos.compare_cont ret ex_run app].
  eexists; split; [rewrite <- app_assoc; reflexivity|]; by repeat constructor.
Qed.

(** The reader the container gives. *)
Definition opened (max : Z) (w : bool) : type4Reader :=
  set_file (set_chunks (new_reader max) (Z.min 255 (max - 2)) (Z.min 255 (max - 5))) 32767 w.

Lemma container_reader max w : chunk (new_reader max) = Z.min 255 (max - 2) /\
  (let cc := served_container w in
   negb (Z.shiftr (at_ cc 2) 4 =? 2) = false /\ (uint16At cc 3 <? 15) = false /\
   rd_ndefFile (set_chunks (new_reader max) (Z.min (chunk (new_reader max)) (uint16At cc 3)) (Z.min (writeChunk (new_reader max)) (uint16At cc 5))) cc
   = (Ok fileNDEF, opened max w)).
Proof.
  split; [done|]; destruct w; (split; [done|split; [done|]]).
  all: unfold opened; cbn [chunk writeChunk new_reader].
  all: match goal with |- context [uint16At ?cc 3] => change (uint16At cc 3) with 255; change (uint16At cc 5) with 255 end.
  all: rewrite (Z.min_l (Z.min 255 (max - 2)) 255), (Z.min_l (Z.min 255 (max - 5)) 255) by lia; reflexivity.
Qed.

(** The start of [read]: the tag's message, at the limits of its container. *)
Lemma run_setup max m h log : 17 <= max -> 1 <= blen m <= maxNDEF -> dataSelected h = false ->
  ndef (tag h) = withNLEN m -> read_so_far (tag h) 0 ->
  exists t' steps, ex_run device (rd_setup (new_reader max)) (h, log) =
      (Ok (opened max (writable (holder_update negotiate parse)), m), (with_tag h t', log ++ steps)) /\
    reads_alike (set_selection (tag h) true fileNDEF) t' /\ reporting (is_handover h) steps.
Proof.
  intros Hmax Hm Hs Hnd Hk; unfold rd_setup; set (w := writable (holder_update negotiate parse)).
  rewrite ex_run_out, run_selectApplication by (done || cbn; lia).
  rewrite ex_run_out, run_selectFile by (done || (cbn; lia) || by left).
  set (h1 := with_tag _ _).
  destruct (run_container (new_reader max) h1 ((log ++ [tag_step (response swOK []) false]) ++ [tag_step (response swOK []) false]) w
    (fun cc => if negb (Z.shiftr (at_ cc 2) 4 =? 2) then fail ErrMappingVersion else
       let mle := uint16At cc 3 in
       if mle <? 15 then fail ErrMLe
       else
         let t := set_chunks (new_reader max) (Z.min (chunk (new_reader max)) mle) (Z.min (writeChunk (new_reader max)) (uint16At cc 5)) in
         let '(file, t) := rd_ndefFile t cc in
         let! file := lift file in
         let! _ := rd_selectFile t file in
         let! initial := rd_readMessage t in
         ret (t, initial))) as (steps1 & Hcon & Hst1); try done; try (cbn; lia).
  cbv zeta in Hcon |- *; rewrite Hcon; clear Hcon.
  destruct (container_reader max w) as (_ & -> & Hmle & Hnf); cbv zeta in *; rewrite Hmle, Hnf.
  set (log1 := ((_ ++ _) ++ _) ++ _).
  rewrite ex_run_out; cbn [lift ex_run]; rewrite ex_run_out, run_selectFile by (done || (cbn; lia) || by right).
  set (h2 := with_tag h1 _); rewrite ex_run_out.
  destruct (run_readMessage (opened max w) m h2 (log1 ++ [tag_step (response swOK []) false])) as (t' & steps & Hrun & Hal & Hrep);
    try done; try (cbn; lia); try (unfold maxNDEF in *; cbn; lia).
  rewrite Hrun; cbn [ret ex_run]; unfold log1; rewrite <- !app_assoc; eexists t', _; split_and!; [reflexivity|done|].
  cbn [app]; do 2 (apply reporting_cons; [done|]).
  clear -Hst1 Hrep; induction Hst1; [by apply reporting_cons|by apply reporting_cons].
Qed.
End Handover.

(** ** Tags being written *)

(** The tag holds the first [k] bytes of a message being written. *)
Definition being_written (m : bytes) (t : type4Tag) (k : Z) : Prop :=
  selected t = true /\ file t = fileNDEF /\
  exists s, staged t = Some s /\ blen s = maxNDEF /\ slice s 0 k = slice m 0 k /\
    bitset_wf (written t) /\ forall j, 0 <= j -> bitset_mem (written t) j = (j <? k).

Section Write.
Context {U : Type} (up : U -> bytes -> option bytes * U).

Lemma tag_process_update t u offset data : selected t = true -> 0 <= offset < 65536 -> bytes_ok data -> 1 <= blen data <= 255 ->
  tag_process (Some up) t u ([0; insUpdate; hi offset; lo offset; lo (blen data)] ++ data) =
  let '(resp, t, u) := tag_write (Some up) t u
    {| CLA := 0; INS := insUpdate; P1 := hi offset; P2 := lo offset; Data := data; Le := 0 |} in
  (resp, false, t, u).
Proof.
  intros Hs Ho Hd Hn; unfold tag_process; rewrite parse_update by done; cbn [CLA INS negb Z.eqb].
  change (insUpdate =? insSelect) with false; change (insUpdate =? insReadBinary) with false.
  change (insUpdate =? insUpdate) with true; cbn [andb]; by rewrite Hs.
Qed.

Lemma write_start t u : selected t = true -> file t = fileNDEF ->
  tag_write (Some up) t u {| CLA := 0; INS := insUpdate; P1 := hi 0; P2 := lo 0; Data := [0; 0]; Le := 0 |} =
  (response swOK [], set_staged t [0; 0] (Some staging) bitset_empty, u).
Proof. intros Hs Hf; unfold tag_write; by rewrite Hf. Qed.

Lemma write_started m t : selected t = true -> file t = fileNDEF ->
  being_written m (set_staged t [0; 0] (Some staging) bitset_empty) 0.
Proof.
  intros Hs Hf; split_and!; [done|done|]; exists staging; split_and!; [done|apply staging_length|done|apply bitset_empty_wf|].
  intros j Hj; rewrite bitset_empty_mem; symmetry; apply Z.ltb_ge; lia.
Qed.

Lemma write_part m t k n : being_written m t k -> 0 <= k -> 1 <= n <= 255 -> k + n <= blen m -> blen m <= maxNDEF ->
  exists t', (forall u, tag_write (Some up) t u
      {| CLA := 0; INS := insUpdate; P1 := hi (k + 2); P2 := lo (k + 2); Data := slice m k (k + n); Le := 0 |} =
    (response swOK [], t', u)) /\ being_written m t' (k + n).
Proof.
  intros (Hsel & Hf & s & Hst & Hs & Hpre & Hwf & Hmem) Hk Hn Hm Hmax; unfold maxNDEF in *.
  destruct (hi_lo (k + 2) ltac:(lia)) as (Hv & H1 & H2); unfold tag_write; cbn [P1 P2 Data Le].
  assert (Hlen : blen (slice m k (k + n)) = n) by (rewrite slice_length; lia).
  rewrite Hf, offset_bit, Hlen, lor_byte, Hv, Hst by (done || lia); change (fileNDEF =? fileNDEF) with true; cbn [negb Z.eqb orb].
  destruct (Z.eqb_spec n 0), (Z.ltb_spec 255 n), (Z.eqb_spec (k + 2) 0), (Z.ltb_spec (k + 2) 2); try lia; cbn [negb orb].
  replace (k + 2 - 2) with k by lia; destruct (Z.ltb_spec (blen s) (k + n)); [lia|].
  eexists; split; [intros u; reflexivity|]; split_and!; [done|done|].
  exists (copy_at s k (slice m k (k + n))); split; [done|split; [by rewrite copy_at_length by lia|split; [|split]]].
  - unfold copy_at; rewrite app_assoc, Hpre, slice_split by lia.
    assert (blen (slice m 0 (k + n)) = k + n) as Hl by (rewrite slice_length; lia).
    rewrite <- Hl at 3; apply slice_app_l.
  - cbn; apply bitset_set_wf; [done|lia|rewrite bitset_words_value; lia].
  - cbn; intros j Hj; rewrite bitset_set_mem, Hmem by (done || lia || (rewrite bitset_words_value; lia)); lia.
Qed.

Lemma write_end m t u : being_written m t (blen m) -> 1 <= blen m <= maxNDEF ->
  tag_write (Some up) t u {| CLA := 0; INS := insUpdate; P1 := hi 0; P2 := lo 0; Data := [hi (blen m); lo (blen m)]; Le := 0 |} =
  tag_incoming t up u m.
Proof.
  intros (Hsel & Hf & s & Hst & Hs & Hpre & Hwf & Hmem) Hm; unfold maxNDEF in *.
  destruct (hi_lo (blen m) ltac:(lia)) as (Hv & H1 & H2); unfold tag_write; cbn [P1 P2 Data Le]; rewrite Hf, Hst.
  change (at_ [hi (blen m); lo (blen m)] 0) with (hi (blen m)); change (at_ [hi (blen m); lo (blen m)] 1) with (lo (blen m)).
  change (fileNDEF =? fileNDEF) with true.
  change (blen [hi (blen m); lo (blen m)]) with 2; change (Z.land (hi 0) 128) with 0.
  change (Z.lor (Z.shiftl (hi 0) 8) (lo 0)) with 0; rewrite lor_byte, Hv by done.
  change (0 =? 0) with true; change (2 =? 0) with false; change (255 <? 2) with false; change (2 <? 2) with false.
  change (2 =? 2) with true; cbn [negb orb andb].
  unfold maxNDEF; destruct (Z.eqb_spec (blen m) 0), (Z.ltb_spec (blen m) 1), (Z.ltb_spec 32765 (blen m)); try lia; cbn [andb orb].
  destruct (Z.eqb_spec 2 (blen m + 2)); [lia|].
  rewrite (proj2 (bitset_covers_spec (written t) (blen m) ltac:(lia))); [by rewrite Hpre, slice_full|].
  intros j Hj; rewrite Hmem by lia; apply Z.ltb_lt; lia.
Qed.
End Write.

(** ** Negotiation *)

Section Negotiate.
Context {N : Type} (ng : N -> bytes -> option bytes * N) (parse : bytes -> option NFCDataParameters).
Context (session : bytes -> bytes).

Abbreviation device := (session_device (Some ng) parse session).

(** The tag's [update]. *)
Definition up : env (N := N) -> bytes -> option bytes * env :=
  fun '(h, s) message =>
    let '(answer, h, s) := tnep_transact (holder_negotiate parse ng) h s message in (answer, (h, s)).

Definition silent (steps : list Step) : Prop := Forall (fun s => HandoverRead s = false) steps.

(** A write the tag takes without asking [update]. *)
Lemma run_writeBinary t h log offset data t' : dataSelected h = false -> selected (tag h) = true ->
  0 <= offset < 65536 -> bytes_ok data -> 1 <= blen data <= 255 -> blen data + 5 <= maxTransceive t ->
  (forall u, tag_write (Some up) (tag h) u
    {| CLA := 0; INS := insUpdate; P1 := hi offset; P2 := lo offset; Data := data; Le := 0 |} = (response swOK [], t', u)) ->
  ex_run device (rd_writeBinary t offset data) (h, log) =
    (Ok tt, (with_tag h t', log ++ [tag_step (response swOK []) false])).
Proof.
  intros Hs Hsel Ho Hd Hn Hmt Hw; unfold rd_writeBinary; rewrite ex_run_out; unfold rd_command.
  rewrite blen_app; change (blen [0; insUpdate; hi offset; lo offset; lo (blen data)]) with 5.
  destruct (Z.ltb_spec (maxTransceive t) (5 + blen data)); [lia|]; rewrite ex_run_out; cbn [ex_run transceive].
  rewrite (device_tag (Some ng) parse session h log _ _ (response swOK []) false t' Hs (parse_update offset data Ho Hd Hn) (or_intror eq_refl)).
  - cbn [ret ex_run]; rewrite status_response by (vm_compute; split; congruence); done.
  - intros u; change (holder_update (Some ng) parse) with (Some up).
    rewrite (tag_process_update up (tag h) u offset data Hsel Ho Hd Hn); by rewrite Hw.
Qed.

(** The write that ends a message, which [update] answers. *)
Lemma run_write_end t h th log m answer th' n' d' : dataSelected h = false -> tnep h = Some th ->
  being_written m (tag h) (blen m) -> 1 <= blen m <= maxNDEF -> 7 <= maxTransceive t ->
  tnep_transact (holder_negotiate parse ng) th (app h, data h) m = (Some answer, th', (n', d')) -> 1 <= blen answer <= maxNDEF ->
  exists t',
  ex_run device (rd_writeBinary t 0 [hi (blen m); lo (blen m)]) (h, log) =
    (Ok tt, ({| tag := t'; tnep := Some th'; data := d'; dataSelected := false; app := n' |},
             log ++ [tag_step (response swOK []) false])) /\
  selected t' = true /\ file t' = fileNDEF /\ ndef t' = withNLEN answer /\ read_so_far t' 0.
Proof.
  intros Hs Hth Hw Hm Hmt Htr Ha; pose proof Hw as (Hsel & Hf & _); unfold maxNDEF in *.
  exists (set_answer (set_staged (tag h) (ndef (tag h)) None bitset_empty) answer).
  split; [|split_and!; try done; by apply read_so_far_fresh].
  destruct (hi_lo (blen m) ltac:(lia)) as (_ & H1 & H2).
  assert (Hd : bytes_ok [hi (blen m); lo (blen m)]) by (repeat (apply Forall_cons_2; [done|]); by apply Forall_nil_2).
  unfold rd_writeBinary; rewrite ex_run_out; unfold rd_command.
  change (blen ([0; insUpdate; hi 0; lo 0; lo (blen [hi (blen m); lo (blen m)])] ++ [hi (blen m); lo (blen m)])) with 7.
  destruct (Z.ltb_spec (maxTransceive t) 7); [lia|]; rewrite ex_run_out; cbn [ex_run transceive].
  assert (Hdl : 1 <= blen [hi (blen m); lo (blen m)] <= 255) by (change (blen [hi (blen m); lo (blen m)]) with 2; lia).
  unfold session_device at 1, Process; rewrite (parse_update 0 _ ltac:(lia) Hd Hdl).
  change (isSelectByName {| CLA := 0; INS := insUpdate; P1 := hi 0; P2 := lo 0; Data := [hi (blen m); lo (blen m)]; Le := 0 |}) with false.
  cbv zeta; rewrite Hs; cbv iota; unfold holder_tag_process; rewrite Hth; cbn [default Datatypes.id from_option].
  change (holder_update (Some ng) parse) with (Some up).
  rewrite (tag_process_update up (tag h) _ 0 _ Hsel ltac:(lia) Hd Hdl), (write_end up m (tag h) _ Hw ltac:(unfold maxNDEF; lia)).
  unfold tag_incoming, up; cbn [data]; rewrite Htr.
  unfold maxNDEF; destruct (Z.ltb_spec (blen answer) 1), (Z.ltb_spec 32765 (blen answer)); try lia; cbn [orb].
  cbn [Message Response default Datatypes.id from_option ret ex_run is_Some_b negb orb andb].
  rewrite status_response by (vm_compute; split; congruence); reflexivity.
Qed.

(** Writing the message in pieces. *)
Lemma run_write_loop t m : bytes_ok m -> 1 <= blen m <= maxNDEF -> 2 <= writeChunk t <= 255 -> writeChunk t + 5 <= maxTransceive t ->
  forall fuel h log k, dataSelected h = false -> being_written m (tag h) k -> 0 <= k <= blen m -> blen m - k < Z.of_nat fuel ->
  exists t' steps, ex_run device (rd_write_loop fuel t m k) (h, log) = (Ok tt, (with_tag h t', log ++ steps)) /\
    being_written m t' (blen m) /\ silent steps.
Proof.
  intros Hb Hm Hwc Hmt; induction fuel as [|fuel IH]; intros h log k Hs Hw Hk Hfuel; [lia|]; cbn [rd_write_loop].
  destruct (Z.ltb_spec k (blen m)) as [Hlt|Hge].
  - set (n := Z.min (writeChunk t) (blen m - k)); assert (Hn : 1 <= n <= 255 /\ k + n <= blen m) by (unfold n; lia).
    replace (Z.min (k + writeChunk t) (blen m)) with (k + n) by (unfold n; lia).
    destruct (write_part up m (tag h) k n Hw ltac:(lia) ltac:(lia) ltac:(lia) ltac:(lia)) as (t' & Hwr & Hw').
    assert (Hlen : blen (slice m k (k + n)) = n) by (rewrite slice_length; lia); unfold maxNDEF in Hm.
    rewrite ex_run_out, (run_writeBinary t h log (k + 2) (slice m k (k + n)) t' Hs) by
      (apply Hw || (by apply slice_ok) || lia || done).
    destruct (IH (with_tag h t') (log ++ [tag_step (response swOK []) false]) (k + n)) as (t'' & steps & Hrun & Hw'' & Hsil);
      [done|done|lia|lia|].
    rewrite Hrun, with_tag_twice, <- app_assoc; eexists t'', _; split_and!; [reflexivity|done|by constructor].
  - assert (k = blen m) as -> by lia; cbn [ret ex_run]; exists (tag h), []; rewrite app_nil_r; split_and!; [by destruct h|done|constructor].
Qed.

(** Writing a whole message. *)
Lemma run_writeMessage t h th log m answer th' n' d' : dataSelected h = false -> tnep h = Some th ->
  selected (tag h) = true -> file (tag h) = fileNDEF -> bytes_ok m -> 1 <= blen m <= maxNDEF -> blen m <= maxSize t - 2 ->
  can_write t = true -> 2 <= writeChunk t <= 255 -> writeChunk t + 5 <= maxTransceive t ->
  tnep_transact (holder_negotiate parse ng) th (app h, data h) m = (Some answer, th', (n', d')) -> 1 <= blen answer <= maxNDEF ->
  exists t' steps,
    ex_run device (rd_writeMessage t m) (h, log) =
      (Ok tt, ({| tag := t'; tnep := Some th'; data := d'; dataSelected := false; app := n' |}, log ++ steps)) /\
    selected t' = true /\ file t' = fileNDEF /\ ndef t' = withNLEN answer /\ read_so_far t' 0 /\ silent steps.
Proof.
  intros Hs Hth Hsel Hf Hb Hm Hsz Hcw Hwc Hmt Htr Ha; unfold rd_writeMessage; rewrite Hcw; cbn [negb orb].
  destruct (Z.ltb_spec (writeChunk t) 2), (Z.ltb_spec (blen m) 1), (Z.ltb_spec (maxSize t - 2) (blen m)); try lia; cbn [orb].
  assert (Hb0 : bytes_ok [0; 0]) by (repeat (apply Forall_cons_2; [unfold byte_ok; lia|]); by apply Forall_nil_2).
  rewrite ex_run_out, (run_writeBinary t h log 0 [0; 0] _ Hs Hsel ltac:(lia) Hb0 ltac:(change (blen [0; 0]) with 2; lia)
    ltac:(change (blen [0; 0]) with 2; lia) (fun u => write_start up (tag h) u Hsel Hf)).
  set (h1 := with_tag h _).
  destruct (run_write_loop t m Hb Hm Hwc Hmt (S (length m)) h1 (log ++ [tag_step (response swOK []) false]) 0 Hs
    (write_started m (tag h) Hsel Hf) ltac:(lia) ltac:(unfold blen; lia)) as (t2 & steps & Hrun & Hw & Hsil).
  rewrite ex_run_out, Hrun.
  destruct (run_write_end t (with_tag h1 t2) th ((log ++ [tag_step (response swOK []) false]) ++ steps) m answer th' n' d' Hs Hth Hw Hm
    ltac:(lia) Htr Ha) as (t3 & Hrun3 & ? & ? & ? & ?).
  rewrite Hrun3, <- !app_assoc; eexists t3, _; split_and!; try done.
  cbn [app]; constructor; [done|]; apply Forall_app_2; [done|]; by repeat constructor.
Qed.

(** Writing a message and reading its answer. *)
Lemma run_transact t h th log m answer th' n' d' timing : dataSelected h = false -> tnep h = Some th ->
  selected (tag h) = true -> file (tag h) = fileNDEF -> bytes_ok m -> 1 <= blen m <= maxNDEF ->
  blen m <= maxMessage timing -> 0 <= waits timing -> maxSize t = 32767 ->
  can_write t = true -> 2 <= writeChunk t <= 255 -> writeChunk t + 5 <= maxTransceive t -> 1 <= chunk t <= 255 ->
  tnep_transact (holder_negotiate parse ng) th (app h, data h) m = (Some answer, th', (n', d')) -> 1 <= blen answer <= maxNDEF ->
  exists t' steps,
    ex_run device (rd_transact t m timing) (h, log) =
      (Ok answer, ({| tag := t'; tnep := Some th'; data := d'; dataSelected := false; app := n' |}, log ++ steps)) /\
    selected t' = true /\ file t' = fileNDEF /\ reporting (handoverReady th') steps.
Proof.
  intros Hs Hth Hsel Hf Hb Hm Hmax Hwaits Hsz Hcw Hwc Hmt Hch Htr Ha; unfold rd_transact, maxNDEF in *.
  destruct (Z.ltb_spec (maxMessage timing) (blen m)); [lia|].
  destruct (run_writeMessage t h th log m answer th' n' d' Hs Hth Hsel Hf Hb Hm ltac:(lia) Hcw Hwc Hmt Htr Ha)
    as (t1 & steps & Hrun & Hsel1 & Hf1 & Hnd & Hso & Hsil).
  rewrite ex_run_out, Hrun; set (h1 := {| tag := t1 |}).
  replace (Z.to_nat (waits timing + 1)) with (S (Z.to_nat (waits timing))) by lia; cbn [rd_poll].
  assert (Hlen : blen (ndef t1) = blen answer + 2) by (rewrite Hnd, blen_withNLEN; lia).
  destruct (read_in_order (writable (holder_update (Some ng) parse)) t1 0 2 0 Hf1 ltac:(unfold maxNDEF; lia) Hso
    ltac:(lia) ltac:(lia) ltac:(lia) ltac:(lia)) as (t2 & Hr & Hal & Hso2).
  change (Z.max 0 (0 + 2 - 2)) with 0 in *; replace (blen (ndef t1) - 2) with (blen answer) in * by lia.
  assert (Hsl : slice (ndef t1) 0 (0 + 2) = [hi (blen answer); lo (blen answer)]) by (by rewrite Hnd).
  rewrite Hsl in Hr; destruct (Z.eqb_spec 0 (blen answer)); [lia|].
  rewrite ex_run_out, (run_readBinary (Some ng) parse session t h1 (log ++ steps) 0 2 [hi (blen answer); lo (blen answer)] false t2)
    by (done || lia).
  rewrite uint16_hi_lo by lia; destruct (Z.ltb_spec 0 (blen answer)); [|lia]; cbn [andb].
  destruct Hal as (E1 & E2 & E3 & E4 & E5 & E6).
  destruct (run_readMessage (Some ng) parse session t answer (with_tag h1 t2)
    ((log ++ steps) ++ [tag_step (response swOK [hi (blen answer); lo (blen answer)]) false])) as (t3 & steps3 & Hrun3 & Hal3 & Hrep);
    try done; try (unfold maxNDEF; lia); try (cbn [with_tag tag h1]; congruence); [apply Hso2; lia|].
  rewrite Hrun3; exists t3; eexists; split_and!.
  - rewrite <- !app_assoc; reflexivity.
  - destruct Hal3 as (_ & _ & -> & _); cbn [with_tag tag]; congruence.
  - destruct Hal3 as (_ & _ & _ & -> & _); cbn [with_tag tag]; congruence.
  - clear -Hsil Hrep; induction Hsil; [by apply reporting_cons|by apply reporting_cons].
Qed.
End Negotiate.

(** ** Handovers *)

Lemma newType4Tag_fresh m t : newType4Tag m = Some t ->
  1 <= blen m <= maxNDEF /\ ndef t = withNLEN m /\ notified t = false /\ coverage t = bitset_empty.
Proof.
  unfold newType4Tag; intros Hn; go_if_in Hn; [done|]; injection Hn as <-; pose proof (blen_nonneg m); bool_prop.
  split_and!; done || lia.
Qed.

Section Theorems.
Context {N : Type} (parse : bytes -> option NFCDataParameters) (session : bytes -> bytes).

(** a reader reads, from any Holder serving a static Handover Select that
    isn't a TNEP service, exactly that Handover Select, whatever the tag
    connection's limit (from 17 bytes), in as many READ BINARY commands as
    that takes; and the Holder reports the handover read in the step that
    gives its last bytes, and in no other. *)
Theorem ReadHandover_static (max : Z) (hr : option bytes) (hs : bytes) (Data : bool) (n : N) (h : Holder) (log : list Step) :
  NewHolder None parse (Some hs) Data n = Some h -> tnepServiceParameters hs = Ok None -> 17 <= max ->
  exists h' steps, ex_run (session_device None parse session) (rd_read max hr) (h, log) = (Ok hs, false, (h', log ++ steps)) /\
    data h' = data h /\ reporting true steps.
Proof.
  intros Hnew Hsp Hmax; cbn [NewHolder default from_option Datatypes.id] in Hnew.
  assert (Hh : newType4Tag hs = Some (tag h) /\ tnep h = None /\ dataSelected h = false).
  { destruct Data; [destruct (useParameters parse new_dataHolder hs); [|done]|];
      (destruct (newType4Tag hs) as [t|]; [injection Hnew as <-|]; done). }
  destruct Hh as (Ht & Htn & Hsel); destruct (newType4Tag_fresh hs (tag h) Ht) as (Hm & Hnd & Hno & Hco).
  unfold rd_read; change (chunk (new_reader max)) with (Z.min 255 (max - 2)).
  destruct (Z.ltb_spec (Z.min 255 (max - 2)) 15); [lia|]; rewrite ex_run_bind.
  destruct (run_setup None parse session max hs h log Hmax Hm Hsel Hnd (read_so_far_fresh _ Hno Hco)) as (t' & steps & -> & _ & Hrep).
  rewrite Hsp; cbn [ex_run]; eexists _, _; split_and!; [reflexivity|done|].
  unfold is_handover in Hrep; by rewrite Htn in Hrep.
Qed.

(** C35: a reader that is given a Handover Request and meets a Holder
    negotiating the handover gets exactly the Handover Select the Holder's
    callback answers to that request - which it is asked once, in the state
    the Holder was made with - knows it was negotiated, and the Holder reports
    the handover read in the step that gives its last bytes, and in no other.
    The request is any but TNEP's own service messages. *)
Theorem ReadHandover_negotiated (ng : N -> bytes -> option bytes * N) (max : Z) (hr hs : bytes) (Data : bool) (n n' : N) (h : Holder)
    (log : list Step) (service : option bytes) (d' : option dataHolder) :
  NewHolder (Some ng) parse None Data n = Some h -> 17 <= max ->
  bytes_ok hr -> 1 <= blen hr <= maxNDEF -> tnepPayload hr Ts = Ok service ->
  default [] service <> [0] -> default [] service <> tnepSelectPayload ->
  ng n hr = (Some hs, n') -> 1 <= blen hs <= maxNDEF ->
  (if Data then exists d, useParameters parse new_dataHolder hs = Some d /\ d' = Some d else d' = None) ->
  exists h' steps,
    ex_run (session_device (Some ng) parse session) (rd_read max (Some hr)) (h, log) = (Ok hs, true, (h', log ++ steps)) /\
    app h' = n' /\ data h' = d' /\ reporting true steps.
Proof.
  intros Hnew Hmax Hb Hm Hts Hne0 Hnes Hng Hhs Hd; cbn [NewHolder] in Hnew.
  destruct (newType4Tag tnepParameters) as [t|] eqn:Ht; [|done]; injection Hnew as <-.
  destruct (newType4Tag_fresh _ _ Ht) as (Hpm & Hnd & Hno & Hco).
  set (th0 := {| service_selected := false; handoverReady := false |}); set (d := if Data then Some new_dataHolder else None).
  unfold rd_read; change (chunk (new_reader max)) with (Z.min 255 (max - 2)).
  destruct (Z.ltb_spec (Z.min 255 (max - 2)) 15); [lia|]; rewrite ex_run_bind.
  set (h0 := {| tag := t |}).
  destruct (run_setup (Some ng) parse session max tnepParameters h0 log Hmax Hpm eq_refl Hnd (read_so_far_fresh _ Hno Hco))
    as (t1 & steps1 & -> & (_ & _ & Hsel1 & Hf1 & _) & Hrep1).
  rewrite tnepParameters_service, ex_run_bind; set (timing := {| wt := 16 |}).
  cbn [rd_negotiate]; change (can_write (opened max _)) with true; cbn [negb].
  set (th1 := {| service_selected := true; handoverReady := false |}).
  assert (Htr1 : tnep_transact (holder_negotiate parse ng) th0 (n, d) tnepSelect = (Some tnepSuccess, th1, (n, d))).
  { unfold tnep_transact; rewrite tnepSelect_payload; reflexivity. }
  set (rd := opened max _).
  assert (Hrd : 2 <= writeChunk rd <= 255 /\ writeChunk rd + 5 <= maxTransceive rd /\ 1 <= chunk rd <= 255).
  { unfold rd, opened; cbn [writeChunk maxTransceive chunk set_file set_chunks new_reader]; lia. }
  destruct (run_transact ng parse session rd (with_tag h0 t1) th0 (log ++ steps1) tnepSelect tnepSuccess th1 n d timing eq_refl eq_refl
    Hsel1 Hf1) as (t2 & steps2 & Hrun2 & Hsel2 & Hf2 & Hrep2); try exact Htr1; try (apply Hrd); try done.
  1: unfold tnepSelect; vm_compute; repeat (apply Forall_cons_2; [split; done|]); by apply Forall_nil_2.
  rewrite ex_run_out, Hrun2, tnepSuccess_payload; cbn [default from_option Datatypes.id].
  unfold bytes_eqb at 1; rewrite bool_decide_true by done; cbn [negb].
  assert (Htr2 : tnep_transact (holder_negotiate parse ng) th1 (n, d) hr =
    (Some hs, {| service_selected := true; handoverReady := true |}, (n', d'))).
  { unfold tnep_transact; rewrite Hts; unfold bytes_eqb; rewrite !bool_decide_false by done; cbn [negb service_selected th1 handoverReady].
    rewrite andb_false_r; cbn [holder_negotiate]; rewrite Hng; unfold d.
    destruct Data; [destruct Hd as (dh & Hp & ->); by rewrite Hp|by subst d']. }
  destruct (run_transact ng parse session rd {| tag := t2; tnep := Some th1; data := d; dataSelected := false; app := n |} th1
    ((log ++ steps1) ++ steps2) hr hs {| service_selected := true; handoverReady := true |} n' d' timing eq_refl eq_refl Hsel2 Hf2 Hb Hm) as (t3 & steps3 & Hrun3 & _ & _ & Hrep3);
    try exact Htr2; try (apply Hrd); try done; try (apply Hm).
  rewrite Hrun3; cbn [ex_run]; eexists _, _; split_and!; [rewrite <- !app_assoc; reflexivity|done|done|].
  destruct Hrep1 as (p1 & l1 & -> & E1 & Hp1), Hrep2 as (p2 & l2 & -> & E2 & Hp2), Hrep3 as (p3 & l3 & -> & E3 & Hp3).
  exists ((p1 ++ [l1]) ++ (p2 ++ [l2]) ++ p3), l3; split_and!; [by rewrite !app_assoc|done|].
  repeat apply Forall_app_2; try done; by repeat constructor.
Qed.
End Theorems.

Lemma ReadHandover_static_witness : exists h h' steps,
  ex_run (session_device (N := unit) None (fun _ => None) (@rev Z)) (rd_read 17 None) (h, []) =
    (Ok [209; 1; 1; 85; 7], false, (h', steps)) /\ reporting true steps.
Proof.
  destruct (NewHolder (N := unit) None (fun _ => None) (Some [209; 1; 1; 85; 7]) false tt) as [h|] eqn:Eh; [|discriminate Eh].
  destruct (ReadHandover_static (fun _ => None) (@rev Z) 17 None [209; 1; 1; 85; 7] false tt h []) as (h' & steps & Hrun & _ & Hrep);
    [exact Eh|vm_compute; reflexivity|lia|].
  exists h, h', steps; split; [exact Hrun|exact Hrep].
Defined.

Lemma ReadHandover_negotiated_witness : exists h h' steps,
  ex_run (session_device (N := Z) (Some (fun n hr => (Some (hr ++ []), n + 1))) (fun _ => None) (@rev Z))
    (rd_read 20 (Some [209; 1; 1; 85; 7])) (h, []) = (Ok [209; 1; 1; 85; 7], true, (h', steps)) /\ app h' = 1 /\ reporting true steps.
Proof.
  destruct (NewHolder (Some (fun n hr => (Some (hr ++ []), n + 1))) (fun _ => None) None false 0) as [h|] eqn:Eh; [|discriminate Eh].
  destruct (ReadHandover_negotiated (fun _ => None) (@rev Z) (fun n hr => (Some (hr ++ []), n + 1)) 20 [209; 1; 1; 85; 7]
    [209; 1; 1; 85; 7] false 0 1 h [] None None) as (h' & steps & Hrun & Happ & _ & Hrep);
    [exact Eh|lia|solve_bytes|vm_compute; split; discriminate|vm_compute; reflexivity|discriminate|discriminate
    |reflexivity|vm_compute; split; discriminate|reflexivity|].
  exists h, h', steps; split; [exact Hrun|split; [exact Happ|exact Hrep]].
Defined.

(** ** What [HandoverRead] may report *)

(** The command APDUs of a reader that negotiates, then starts writing
    another message and reads its length, zero. *)
Definition eager_reader : list bytes :=
  [ [0; 164; 4; 0; 7; 210; 118; 0; 0; 133; 1; 1; 0];                    (* SELECT the NDEF application *)
    [0; 164; 0; 12; 2; 225; 4];                                         (* SELECT the NDEF file *)
    [0; 214; 0; 0; lo (2 + blen tnepSelect); 0; lo (blen tnepSelect)] ++ tnepSelect;
    [0; 214; 0; 0; 7; 0; 5; 209; 1; 1; 85; 7];                          (* the Handover Request *)
    [0; 214; 0; 0; 2; 0; 0];                                            (* NLEN 0 *)
    [0; 176; 0; 0; 2] ].                                                (* READ BINARY of NLEN *)

(** What a Holder does with the commands, one after the other. *)
Fixpoint feed {N : Type} (ng : option (N -> bytes -> option bytes * N)) (h : Holder) (apdus : list bytes) : list Step * Holder :=
  match apdus with
  | [] => ([], h)
  | apdu :: apdus =>
      let '(step, h) := Process ng (fun _ => None) h apdu in
      let '(steps, h) := feed ng h apdus in
      (step :: steps, h)
  end.

(** a Holder can report the Handover Select read of which no byte has
    been: once the handover is negotiated, a reader that starts another write
    makes the file empty, and the length it then reads, zero, counts as a
    message read in full. *)
Theorem HandoverRead_of_nothing : exists h,
  NewHolder (Some (fun (n : unit) hr => (Some [209; 1; 1; 86; 8], n))) (fun _ => None) None false tt = Some h /\
  map (fun s => (Response s, HandoverRead s)) (fst (feed (Some (fun (n : unit) hr => (Some [209; 1; 1; 86; 8], n))) h eager_reader)) =
    [(Some [144; 0], false); (Some [144; 0], false); (Some [144; 0], false); (Some [144; 0], false); (Some [144; 0], false);
     (Some [0; 0; 144; 0], true)].
Proof.
  destruct (NewHolder (Some (fun (n : unit) hr => (Some [209; 1; 1; 86; 8], n))) (fun _ => None) None false tt) as [h|] eqn:Eh;
    [|discriminate Eh].
  exists h; split; [done|]; vm_compute in Eh; injection Eh as <-; vm_compute; reflexivity.
Qed.
