(* ===== verification/Json.v ===== *)
(** * JSON-like values

    The Go values of type [any] that claims are made of, shared by the DCQL
    and the SD-JWT VC parts, with the order of an object's members left
    aside where it does not matter. *)
From S2P Require Import Prelude.
From Stdlib Require Import SpecFloat.

(** A Go value of type [any], as a credential's claims and a query's values
    hold it: what encoding/json and the CBOR decoder give, or a query built in
    Go.  An integer of any of Go's kinds is a [VInt]; a float32 is the float64
    it converts to; a time is its nanoseconds since the epoch. *)
Inductive goval : Type :=
| VNil
| VString (s : string)
| VBool (b : bool)
| VInt (z : Z)
| VFloat (f : spec_float)
| VNumber (s : string)                 (* json.Number *)
| VObject (o : list (string * goval))  (* map[string]any *)
| VArray (l : list goval)              (* []any *)
| VTag (content : goval)               (* cbor.Tag *)
| VTime (ns : Z)
| VBytes (b : bytes)                   (* []byte and cbor.ByteString *)
| VOther.

(** [obj[key]]. *)
Fixpoint member (key : string) (o : list (string * goval)) : option goval :=
  match o with
  | [] => None
  | (k, v) :: o => if String.eqb k key then Some v else member key o
  end.

(** [obj[key] = v]. *)
Fixpoint set_member (key : string) (v : goval) (o : list (string * goval)) : list (string * goval) :=
  match o with
  | [] => [(key, v)]
  | (k, w) :: o => if String.eqb k key then (k, v) :: o else (k, w) :: set_member key v o
  end.

Lemma member_None key o : member key o = None <-> key ∉ o.*1.
Proof.
  induction o as [|[k v] o IH]; cbn; [split; [intros _ []%elem_of_nil|done]|].
  rewrite not_elem_of_cons, <- IH; destruct (String.eqb_spec k key); naive_solver.
Qed.

Lemma set_member_new key v o : key ∉ o.*1 -> set_member key v o = o ++ [(key, v)].
Proof.
  induction o as [|[k w] o IH]; cbn; [done|]; rewrite not_elem_of_cons; intros [Hk Ho].
  destruct (String.eqb_spec k key); [by subst|]; by rewrite IH.
Qed.

Lemma member_Some_elem key v o : member key o = Some v -> (key, v) ∈ o.
Proof.
  induction o as [|[k w] o IH]; cbn; [done|]; destruct (String.eqb_spec k key); [intros [= <-]; subst; by left|right; auto].
Qed.

Lemma member_set_member key k v o : member key (set_member k v o) = if String.eqb k key then Some v else member key o.
Proof.
  induction o as [|[k' w] o IH]; cbn; [done|]; destruct (String.eqb_spec k' k) as [->|Hne]; cbn.
  - by destruct (String.eqb k key).
  - rewrite IH; destruct (String.eqb_spec k' key) as [->|]; [|done]; destruct (String.eqb_spec k key); [by subst|done].
Qed.

Lemma member_app key o o' : member key (o ++ o') = match member key o with Some v => Some v | None => member key o' end.
Proof. induction o as [|[k w] o IH]; cbn; [done|]; by destruct (String.eqb k key). Qed.

(** ** Values up to the order of members

    A Go map has no order: two objects with the same members are the same. *)
Inductive same : goval -> goval -> Prop :=
| same_leaf v : same v v
| same_array l l' : Forall2 same l l' -> same (VArray l) (VArray l')
| same_object o o' o'' : o ≡ₚ o' -> Forall2 (fun p q => p.1 = q.1 /\ same p.2 q.2) o' o'' -> same (VObject o) (VObject o'').

#[export] Instance same_reflexive : Reflexive same.
Proof. intros v; apply same_leaf. Qed.
