(* ===== verification/DcqlPath.v ===== *)
(** * Claims path pointers: [dcql/path.go]

    What a path selects in a credential's claims, and when one path covers
    another.  The theorems: [Select] gives exactly the values the path leads
    to, or says why there are none; a covering path selects around everything
    the covered one does, where both select anything. *)
From S2P Require Import Prelude Json.

(** ** Paths *)

Inductive PathElement : Type :=
| PathKey (key : string)
| Wildcard
| PathIndex (i : Z).

Abbreviation Path := (list PathElement) (only parsing).

Definition IsKey (p : PathElement) : bool := match p with PathKey _ => true | _ => false end.
Definition IsWildcard (p : PathElement) : bool := match p with Wildcard => true | _ => false end.
Definition IsIndex (p : PathElement) : bool := match p with PathIndex _ => true | _ => false end.

Inductive path_error : Type :=
| ErrPathEmpty
| ErrSelectionEmpty
| ErrNotObject (key : string)
| ErrWildcardNotArray
| ErrIndexNotArray (i : Z)
| PanicIndex (i : Z).                  (* a negative index: Go panics *)

Definition Path_Validate (p : Path) : res path_error unit :=
  match p with [] => Err ErrPathEmpty | _ => Ok tt end.

Fixpoint selectKey (key : string) (selection : list goval) : res path_error (list goval) :=
  match selection with
  | [] => Ok []
  | VObject obj :: selection =>
      let? next := selectKey key selection in
      Ok (match member key obj with Some child => child :: next | None => next end)
  | _ :: _ => Err (ErrNotObject key)
  end.

Fixpoint selectWildcard (selection : list goval) : res path_error (list goval) :=
  match selection with
  | [] => Ok []
  | VArray arr :: selection =>
      let? next := selectWildcard selection in
      Ok (arr ++ next)
  | _ :: _ => Err ErrWildcardNotArray
  end.

Fixpoint selectIndex (index : Z) (selection : list goval) : res path_error (list goval) :=
  match selection with
  | [] => Ok []
  | VArray arr :: selection =>
      if index <? blen arr then
        if index <? 0 then Err (PanicIndex index)
        else
          let? next := selectIndex index selection in
          Ok (match arr !! Z.to_nat index with Some v => v :: next | None => next end)
      else selectIndex index selection
  | _ :: _ => Err (ErrIndexNotArray index)
  end.

Definition selectFrom (elem : PathElement) (selection : list goval) : res path_error (list goval) :=
  match elem with
  | PathKey key => selectKey key selection
  | Wildcard => selectWildcard selection
  | PathIndex i => selectIndex i selection
  end.

Fixpoint select_loop (p : Path) (selection : list goval) : res path_error (list goval) :=
  match p with
  | [] => Ok selection
  | elem :: p =>
      let? next := selectFrom elem selection in
      if blen next =? 0 then Err ErrSelectionEmpty else select_loop p next
  end.

Definition Select (p : Path) (root : goval) : res path_error (list goval) :=
  let? _ := Path_Validate p in
  select_loop p [root].

Definition withIndicesWidened (p : Path) : Path :=
  map (fun elem => if IsIndex elem then Wildcard else elem) p.

(** One component of [Covers]. *)
Definition covers_elem (a b : PathElement) : bool :=
  match a, b with
  | Wildcard, Wildcard => true
  | Wildcard, PathIndex _ => true
  | PathKey k, PathKey l => String.eqb k l
  | PathIndex i, PathIndex j => i =? j
  | _, _ => false
  end.

Fixpoint covers_loop (p q : Path) : bool :=
  match p, q with
  | [], _ => true
  | a :: p, b :: q => if covers_elem a b then covers_loop p q else false
  | _ :: _, [] => false
  end.

Definition Covers (p q : Path) : bool :=
  if (blen p =? 0) || (blen q <? blen p) then false else covers_loop p q.

Definition MdocNamespaceAndElement (p : Path) : option (string * string) :=
  match p with
  | [PathKey namespace; PathKey element] => Some (namespace, element)
  | _ => None
  end.

(** ** What a path leads to *)

(** The values one component leads to from a value, in order; [None] where
    the value has the wrong shape for it. *)
Definition children (elem : PathElement) (v : goval) : option (list goval) :=
  match elem, v with
  | PathKey key, VObject obj => Some (match member key obj with Some child => [child] | None => [] end)
  | Wildcard, VArray arr => Some arr
  | PathIndex i, VArray arr => if i <? 0 then None else Some (match arr !! Z.to_nat i with Some v => [v] | None => [] end)
  | _, _ => None
  end.

(** The values a path leads to from a value. *)
Fixpoint leads (p : Path) (v : goval) : list goval :=
  match p with
  | [] => [v]
  | elem :: p => default [] (children elem v) ≫= leads p
  end.

(** Every value the path passes through has the shape its component asks for. *)
Fixpoint shaped (p : Path) (v : goval) : Prop :=
  match p with
  | [] => True
  | elem :: p => exists next, children elem v = Some next /\ Forall (shaped p) next
  end.

(** ** What [Select] gives *)

Definition childrenOf (elem : PathElement) (v : goval) : list goval := default [] (children elem v).

Lemma selectFrom_spec elem sel next :
  selectFrom elem sel = Ok next <->
  Forall (fun v => is_Some (children elem v)) sel /\ next = sel ≫= childrenOf elem.
Proof.
  revert next; induction sel as [|v sel IH]; intros next; [split; [|intros [_ ->]]; destruct elem; cbn; [intros [= <-]..|done|done|done]; done|].
  assert (Hcons : forall (P : goval -> Prop), Forall P (v :: sel) <-> P v /\ Forall P sel) by (intros; apply Forall_cons).
  rewrite Hcons, bind_cons_eq.
  destruct (children elem v) as [c|] eqn:Ec.
  - assert (Hstep : selectFrom elem (v :: sel) = let? next := selectFrom elem sel in Ok (c ++ next)).
    { destruct elem as [k| |i], v; cbn in Ec; try done; cbn.
      - destruct (member k o); injection Ec as <-; by destruct (selectKey k sel).
      - injection Ec as <-; done.
      - destruct (Z.ltb_spec i 0); [done|]; injection Ec as <-.
        destruct (Z.ltb_spec i (blen l)) as [Hl|Hl].
        + destruct (l !! Z.to_nat i) eqn:El; [by destruct (selectIndex i sel)|].
          apply lookup_ge_None in El; unfold blen in Hl; lia.
        + destruct (l !! Z.to_nat i) eqn:El; [|by destruct (selectIndex i sel)].
          apply lookup_lt_Some in El; unfold blen in Hl; lia. }
    rewrite Hstep; unfold childrenOf at 1; rewrite Ec; cbn [default from_option Datatypes.id].
    rewrite res_bind_ok; split.
    + intros (n & Hn & [= <-]); apply IH in Hn as [H1 ->]; split; [split; [done|exact H1]|done].
    + intros [[_ H1] ->]; exists (sel ≫= childrenOf elem); split; [by apply IH|done].
  - split; [|intros [[[? ?] _] _]; congruence].
    destruct elem as [k| |i], v; cbn in Ec; try done; cbn.
    destruct (Z.ltb_spec i 0); [|done]; destruct (Z.ltb_spec i (blen l)); [done|]; pose proof (blen_nonneg l); lia.
Qed.

Lemma shaped_cons elem p sel :
  Forall (shaped (elem :: p)) sel <->
  Forall (fun v => is_Some (children elem v)) sel /\ Forall (shaped p) (sel ≫= childrenOf elem).
Proof.
  induction sel as [|v sel IH]; [by split; [intros _; split|]|].
  rewrite !Forall_cons, IH, bind_cons_eq, Forall_app; cbn [shaped]; unfold childrenOf at 2; split.
  - intros [(n & E & Hn) [H1 H2]]; rewrite E; cbn; split; [split; [by exists n|done]|done].
  - intros [[[n E] H1] [Hn H2]]; rewrite E in Hn; cbn in Hn; split; [by exists n|done].
Qed.

Lemma leads_cons elem p sel : sel ≫= leads (elem :: p) = (sel ≫= childrenOf elem) ≫= leads p.
Proof.
  induction sel as [|v sel IH]; [done|]; rewrite !bind_cons_eq, IH, bind_app; done.
Qed.

Lemma select_loop_spec p : forall sel out, sel <> [] ->
  select_loop p sel = Ok out <-> Forall (shaped p) sel /\ out = sel ≫= leads p /\ out <> [].
Proof.
  induction p as [|elem p IH]; intros sel out Hne; cbn [select_loop].
  - assert (Hid : sel ≫= leads [] = sel) by (clear; induction sel as [|v sel IH]; [done|]; cbn in *; by rewrite IH).
    rewrite Hid; split; [intros [= <-]; split_and!; try done; by apply Forall_true|by intros (_ & -> & _)].
  - rewrite res_bind_ok, shaped_cons, leads_cons; split.
    + intros (next & Hn & Hout); apply selectFrom_spec in Hn as [H1 ->]; go_if_in Hout; [done|].
      apply IH in Hout as (H2 & -> & Ho); [done|]; intros E; by rewrite E in *.
    + intros ([H1 H2] & -> & Ho); exists (sel ≫= childrenOf elem); split; [by apply selectFrom_spec|].
      assert (Hn : sel ≫= childrenOf elem <> []) by (intros E; by rewrite E in Ho).
      destruct (Z.eqb_spec (blen (sel ≫= childrenOf elem)) 0) as [E|_]; [by apply blen_zero in E|by apply IH].
Qed.

(** [Select]'s own lemma, for the theorems that use it. *)
Lemma Select_spec p root out :
  Select p root = Ok out <-> p <> [] /\ shaped p root /\ out = leads p root /\ out <> [].
Proof.
  unfold Select; rewrite res_bind_ok.
  assert (Hv : (exists a, Path_Validate p = Ok a /\ select_loop p [root] = Ok out) <-> p <> [] /\ select_loop p [root] = Ok out).
  { split; [intros (? & Hp & Hs); by destruct p|intros [Hp Hs]; exists tt; by destruct p]. }
  rewrite Hv, select_loop_spec by done; rewrite Forall_singleton; cbn [mbind list_bind]; by rewrite app_nil_r.
Qed.

(** [Select] gives, in order, exactly the values the path leads to, when
    every value it passes through has the shape its component asks for and
    some value is left; it gives nothing otherwise. *)
Theorem Select_exact (p : Path) (root : goval) (out : list goval) :
  Select p root = Ok out <-> p <> [] /\ shaped p root /\ out = leads p root /\ out <> [].
Proof. apply Select_spec. Qed.

(** ** Covering *)

Lemma covers_elem_children a b v ca cb : covers_elem a b = true -> children a v = Some ca -> children b v = Some cb ->
  forall w, w ∈ cb -> w ∈ ca.
Proof.
  intros Hc Ha Hb w Hw; destruct a as [k| |i], b as [l| |j]; try done.
  - apply String.eqb_eq in Hc as ->; congruence.
  - congruence.
  - destruct v; try done; cbn in Ha, Hb; injection Ha as <-; destruct (Z.ltb_spec j 0); [done|]; injection Hb as <-.
    destruct (l !! Z.to_nat j) eqn:E; [|by apply elem_of_nil in Hw].
    apply list_elem_of_singleton in Hw as ->; by apply list_elem_of_lookup_2 in E.
  - apply Z.eqb_eq in Hc as ->; congruence.
Qed.

Lemma covers_leads p : forall q v w, covers_loop p q = true -> (length p <= length q)%nat -> shaped p v ->
  w ∈ leads q v -> exists u, u ∈ leads p v /\ w ∈ leads (drop (length p) q) u.
Proof.
  induction p as [|a p IH]; intros q v w Hc Hl Hsh Hw.
  - exists v; split; [by apply list_elem_of_singleton|done].
  - destruct q as [|b q]; [cbn in Hl; lia|]; cbn [covers_loop] in Hc; destruct (covers_elem a b) eqn:Eab; [|done].
    cbn [leads] in Hw; apply list_elem_of_bind in Hw as (c & Hw & Hcb).
    destruct Hsh as (ca & Eca & Hca).
    destruct (children b v) as [cb|] eqn:Ecb; cbn in Hcb; [|by apply elem_of_nil in Hcb].
    pose proof (covers_elem_children a b v ca cb Eab Eca Ecb c Hcb) as Hin.
    rewrite Forall_forall in Hca.
    destruct (IH q c w Hc ltac:(cbn in Hl; lia) (Hca c Hin) Hw) as (u & Hu & Hwu); exists u; split; [|done].
    cbn [leads]; rewrite Eca; cbn; apply list_elem_of_bind; by exists c.
Qed.

(** where a covering path passes through values of the shapes it asks for,
    it selects something wherever the covered path does, and everything the
    covered path selects is reached, by the rest of that path, from a value
    the covering one selects. *)
Theorem Covers_selects (p q : Path) (root : goval) (qs : list goval) :
  Covers p q = true -> shaped p root -> Select q root = Ok qs ->
  exists ps, Select p root = Ok ps /\
    forall w, w ∈ qs -> exists u, u ∈ ps /\ w ∈ leads (drop (length p) q) u.
Proof.
  unfold Covers; intros Hc Hsh Hq; go_if_in Hc; [done|]; bool_prop; unfold blen in *.
  apply Select_spec in Hq as (_ & _ & -> & Hne).
  assert (Hall : forall w, w ∈ leads q root -> exists u, u ∈ leads p root /\ w ∈ leads (drop (length p) q) u)
    by (intros w Hw; apply covers_leads; done || lia).
  exists (leads p root); split; [|exact Hall]; apply Select_spec; split_and!; try done; [by destruct p|].
  destruct (leads q root) as [|w ws]; [done|]; destruct (Hall w ltac:(left)) as (u & Hu & _).
  intros E; rewrite E in Hu; by apply elem_of_nil in Hu.
Qed.

Lemma Covers_selects_witness :
  let degree := VObject [("type", VString "MSc")]%string in
  Covers [PathKey "degrees"; Wildcard] [PathKey "degrees"; PathIndex 1; PathKey "type"] = true /\
  exists ps, Select [PathKey "degrees"; Wildcard] (VObject [("degrees", VArray [degree; degree])]%string) = Ok ps /\ length ps = 2%nat.
Proof.
  intros degree; split; [reflexivity|].
  destruct (Covers_selects [PathKey "degrees"; Wildcard] [PathKey "degrees"; PathIndex 1; PathKey "type"]
    (VObject [("degrees", VArray [degree; degree])]%string) [VString "MSc"]) as (ps & Hps & _); [reflexivity| |reflexivity|].
  - eexists; split; [reflexivity|]; repeat constructor; eexists; split; [reflexivity|]; repeat constructor.
  - exists ps; split; [exact Hps|]; vm_compute in Hps; injection Hps as <-; reflexivity.
Defined.

(** a covering path need not select anything where the covered one does:
    a wildcard meets every element of an array, and one of another shape than
    the next component asks for is an error, where the covered path's index
    passed it by. *)
Theorem Covers_heterogeneous :
  let claims := VObject [("degrees", VArray [VObject [("type", VString "MSc")]; VString "other"])]%string in
  let p := [PathKey "degrees"; Wildcard; PathKey "type"]%string in
  let q := [PathKey "degrees"; PathIndex 0; PathKey "type"]%string in
  Covers p q = true /\ p = withIndicesWidened q /\
  Select q claims = Ok [VString "MSc"] /\ Select p claims = Err (ErrNotObject "type").
Proof. split_and!; reflexivity. Qed.
