(* ===== verification/DcqlQuery.v ===== *)
(** * DCQL queries and their validation: [dcql/query.go]

    The query as the wire form has it, and every check [Query.Validate] makes,
    in its order and with its errors.  The theorem: [Validate] accepts exactly
    the queries that are well formed, said without its loops. *)
From S2P Require Import Prelude Json DcqlPath.
From stdpp Require Import pretty.
#[local] Open Scope Z_scope.

(** ** Loops that check

    [for i, x := range l { if err := f(i, x); err != nil { return err } }] *)
Fixpoint check_each {A E : Type} (f : Z -> A -> res E unit) (i : Z) (l : list A) : res E unit :=
  match l with
  | [] => Ok tt
  | x :: l => let? _ := f i x in check_each f (i + 1) l
  end.

Lemma check_each_ok {A E} (f : Z -> A -> res E unit) (P : A -> Prop) l : forall i,
  (forall i x, x ∈ l -> f i x = Ok tt <-> P x) -> check_each f i l = Ok tt <-> Forall P l.
Proof.
  induction l as [|x l IH]; intros i Hf; cbn [check_each]; [by split|].
  rewrite Forall_cons, res_bind_ok, <- (IH (i + 1)) by (intros; apply Hf; by right).
  rewrite <- (Hf i x) by left; split; [by intros [[] ?]|intros [? ?]; by exists tt].
Qed.

Definition guard_err {E : Type} (bad : bool) (e : E) : res E unit := if bad then Err e else Ok tt.

Lemma guard_err_ok {E} bad (e : E) : guard_err bad e = Ok tt <-> bad = false.
Proof. by destruct bad. Qed.

Lemma seq_ok {E A} (m : res E unit) (n : res E A) a : (let? _ := m in n) = Ok a <-> m = Ok tt /\ n = Ok a.
Proof. rewrite res_bind_ok; split; [by intros [[] ?]|intros [? ?]; by exists tt]. Qed.

Lemma res_map_err_unit {E F} (f : E -> F) (m : res E unit) : res_map_err f m = Ok tt <-> m = Ok tt.
Proof. apply res_map_err_ok. Qed.

(** ** Queries

    A slice the code compares with nil is an option. *)

Definition present_empty {A : Type} (o : option (list A)) : bool := match o with Some [] => true | _ => false end.

Record ClaimsQuery : Type := {
  cl_ID : string;
  cl_Path : Path;
  cl_Values : option (list goval);
  cl_IntentToRetain : option bool
}.

Record TrustedAuthoritiesQuery : Type := { ta_Type : string; ta_Values : list string }.

Record CredentialQuery : Type := {
  cq_ID : string;
  cq_Format : string;
  cq_Meta : bytes;                     (* json.RawMessage *)
  cq_Multiple : bool;
  cq_TrustedAuthorities : list TrustedAuthoritiesQuery;
  cq_RequireCryptographicHolderBinding : option bool;
  cq_Claims : option (list ClaimsQuery);
  cq_ClaimSets : option (list (list string))
}.

Record CredentialSetQuery : Type := { cs_Options : list (list string); cs_Required : option bool }.

Record Query : Type := { q_Credentials : list CredentialQuery; q_CredentialSets : list CredentialSetQuery }.

Definition Claims (c : CredentialQuery) : list ClaimsQuery := default [] (cq_Claims c).
Definition ClaimSets (c : CredentialQuery) : list (list string) := default [] (cq_ClaimSets c).
Definition Values (c : ClaimsQuery) : list goval := default [] (cl_Values c).

Definition RequiresCryptographicHolderBinding (c : CredentialQuery) : bool :=
  match cq_RequireCryptographicHolderBinding c with None => true | Some b => b end.

Definition IsRequired (c : CredentialSetQuery) : bool :=
  match cs_Required c with None => true | Some b => b end.

(** ** Bounds *)
Definition MaxCredentialQueries : Z := 64.
Definition MaxCredentialSets : Z := 64.
Definition MaxCredentialSetOptions : Z := 64.
Definition MaxClaimsPerCredential : Z := 256.
Definition MaxClaimSets : Z := 64.
Definition MaxValuesPerClaim : Z := 64.
Definition MaxPathLength : Z := 32.
Definition MaxTrustedAuthorities : Z := 16.
Definition MaxTrustedAuthorityValues : Z := 64.
Definition MaxVCTValues : Z := 64.

(** ** Errors, one per message *)

Inductive size_error : Type :=
| TooManyCredentials (n : Z)
| TooManySets (n : Z)
| TooManyOptions (i n : Z)
| TooManyClaims (i n : Z)
| TooManyClaimSets (i n : Z)
| TooManyAuthorities (i n : Z)
| TooManySetClaims (i j n : Z)
| TooManyAuthorityValues (i j n : Z)
| TooManyValues (i j n : Z)
| PathTooLong (i j n : Z).

Inductive claim_error : Type :=
| ClaimIDRequired
| ClaimIDInvalid
| ClaimPathEmpty
| ClaimValuesEmpty
| ClaimValueInvalid (i : Z)
| ClaimIntentNotMdoc
| ClaimPathNotMdoc.

(** What is wrong with a list of ids that refer to others. *)
Inductive ref_error : Type :=
| RefsEmpty
| RefUnknown (id : string)
| RefTwice (id : string).

Inductive meta_error : Type :=
| MetaMissing
| MetaNotJSON
| MetaNotObject
| MetaDecode
| MetaNoVCT
| MetaTooManyVCT (n : Z)
| MetaEmptyVCT
| MetaNoDoctype.

Inductive credential_error : Type :=
| CredentialIDInvalid
| CredentialNoFormat
| CredentialMeta (e : meta_error)
| CredentialClaimsEmpty
| CredentialClaimSetsEmpty
| CredentialClaim (i : Z) (e : claim_error)
| CredentialClaimDuplicateID (i : Z) (id : string)
| CredentialClaimDuplicatePath (i : Z)
| CredentialClaimSet (i : Z) (e : ref_error)
| AuthorityNoType (i : Z)
| AuthorityNoValues (i : Z).

Inductive query_error : Type :=
| QueryNoCredentials
| QuerySize (e : size_error)
| QueryCredential (i : Z) (e : credential_error)
| QueryDuplicateID (i : Z) (id : string)
| QuerySetNoOptions (i : Z)
| QuerySetOption (i j : Z) (e : ref_error).

(** ** Size *)

Definition checkNestedSize (i : Z) (cq : CredentialQuery) : res size_error unit :=
  let? _ := check_each (fun j set => guard_err (MaxClaimsPerCredential <? blen set) (TooManySetClaims i j (blen set)))
    0 (ClaimSets cq) in
  let? _ := check_each (fun j ta => guard_err (MaxTrustedAuthorityValues <? blen (ta_Values ta))
    (TooManyAuthorityValues i j (blen (ta_Values ta)))) 0 (cq_TrustedAuthorities cq) in
  check_each (fun j c =>
    if MaxValuesPerClaim <? blen (Values c) then Err (TooManyValues i j (blen (Values c)))
    else if MaxPathLength <? blen (cl_Path c) then Err (PathTooLong i j (blen (cl_Path c)))
    else Ok tt) 0 (Claims cq).

Definition checkSize (q : Query) : res size_error unit :=
  if MaxCredentialQueries <? blen (q_Credentials q) then Err (TooManyCredentials (blen (q_Credentials q)))
  else if MaxCredentialSets <? blen (q_CredentialSets q) then Err (TooManySets (blen (q_CredentialSets q)))
  else
    let? _ := check_each (fun i cs => guard_err (MaxCredentialSetOptions <? blen (cs_Options cs))
      (TooManyOptions i (blen (cs_Options cs)))) 0 (q_CredentialSets q) in
    check_each (fun i cq =>
      if MaxClaimsPerCredential <? blen (Claims cq) then Err (TooManyClaims i (blen (Claims cq)))
      else if MaxClaimSets <? blen (ClaimSets cq) then Err (TooManyClaimSets i (blen (ClaimSets cq)))
      else if MaxTrustedAuthorities <? blen (cq_TrustedAuthorities cq)
        then Err (TooManyAuthorities i (blen (cq_TrustedAuthorities cq)))
      else checkNestedSize i cq) 0 (q_Credentials q).

(** ** Ids and values *)

Definition code (c : Ascii.ascii) : Z := Z.of_N (Ascii.N_of_ascii c).

(** idPattern, [^[A-Za-z0-9_-]+$]. *)
Definition id_char (c : Ascii.ascii) : bool :=
  let n := code c in
  (65 <=? n) && (n <=? 90) || (97 <=? n) && (n <=? 122) || (48 <=? n) && (n <=? 57) || (n =? 95) || (n =? 45).

Definition idPattern (s : string) : bool :=
  match s with EmptyString => false | _ => forallb id_char (String.list_ascii_of_string s) end.

(** [n == math.Trunc(n) && !math.IsInf(n, 0)]: a NaN equals nothing, and a
    number without a fraction is its mantissa over no power of two. *)
Definition float_integral (f : SpecFloat.spec_float) : bool :=
  match f with
  | SpecFloat.S754_zero _ => true
  | SpecFloat.S754_infinity _ => false
  | SpecFloat.S754_nan => false
  | SpecFloat.S754_finite _ m e => (0 <=? e) || (Zpos m mod 2 ^ (- e) =? 0)
  end.

(** strconv.ParseInt(s, 10, 64). *)
Definition is_digit (c : Ascii.ascii) : bool :=
  let n := code c in (48 <=? n) && (n <=? 57).

Definition decimal (digits : list Ascii.ascii) : Z :=
  fold_left (fun n c => n * 10 + (code c - 48)) digits 0.

Definition ParseUint (s : list Ascii.ascii) : option Z :=
  match s with
  | [] => None
  | _ => if forallb is_digit s then Some (decimal s) else None
  end.

Definition ParseInt64 (s : string) : option Z :=
  let (neg, digits) :=
    match String.list_ascii_of_string s with
    | c :: rest => if code c =? 43 then (false, rest) else if code c =? 45 then (true, rest) else (false, c :: rest)
    | [] => (false, [])
    end in
  match ParseUint digits with
  | None => None
  | Some un => if neg then if 2 ^ 63 <? un then None else Some (- un)
               else if 2 ^ 63 <=? un then None else Some un
  end.

Definition isValuesElement (v : goval) : bool :=
  match v with
  | VString _ | VBool _ | VInt _ => true
  | VFloat f => float_integral f
  | VNumber s => match ParseInt64 s with Some _ => true | None => false end
  | _ => false
  end.

(** ** The wire form of a path

    [PathElement.MarshalJSON], with encoding/json's strings written out: bytes
    that are not UTF-8 become U+FFFD, escaped. *)

Definition string_bytes (s : string) : bytes :=
  map code (String.list_ascii_of_string s).

Definition hex_digit (d : Z) : Z := if d <? 10 then 48 + d else 87 + d.

(** [\u00xy] *)
Definition escape_unit (b : Z) : bytes := string_bytes "\u00" ++ [hex_digit (b / 16); hex_digit (b mod 16)].

Definition escape_ascii (b : Z) : bytes :=
  if (b =? 92) || (b =? 34) then [92; b]
  else if b =? 8 then string_bytes "\b"
  else if b =? 12 then string_bytes "\f"
  else if b =? 10 then string_bytes "\n"
  else if b =? 13 then string_bytes "\r"
  else if b =? 9 then string_bytes "\t"
  else if (b <? 32) || (b =? 60) || (b =? 62) || (b =? 38) then escape_unit b
  else [b].

Definition continues (c : Z) : bool := (128 <=? c) && (c <=? 191).

(** The encodings utf8.DecodeRune accepts, of two, three and four bytes. *)
Definition rune2 (b c1 : Z) : bool := (194 <=? b) && (b <=? 223) && continues c1.
Definition rune3 (b c1 c2 : Z) : bool :=
  (224 <=? b) && (b <=? 239) && continues c1 && continues c2 &&
  (if b =? 224 then 160 <=? c1 else if b =? 237 then c1 <=? 159 else true).
Definition rune4 (b c1 c2 c3 : Z) : bool :=
  (240 <=? b) && (b <=? 244) && continues c1 && continues c2 && continues c3 &&
  (if b =? 240 then 144 <=? c1 else if b =? 244 then c1 <=? 143 else true).

(** U+2028 and U+2029 are escaped, any other rune is written as it is. *)
Definition escape_rune3 (b c1 c2 : Z) : bytes :=
  if (b =? 226) && (c1 =? 128) && ((c2 =? 168) || (c2 =? 169)) then string_bytes "\u202" ++ [c2 - 112]
  else [b; c1; c2].

Definition escape_invalid : bytes := string_bytes "\ufffd".

Fixpoint json_escape (s : bytes) : bytes :=
  match s with
  | [] => []
  | b :: s1 =>
      if b <? 128 then escape_ascii b ++ json_escape s1
      else match s1 with
      | c1 :: s2 =>
          if rune2 b c1 then [b; c1] ++ json_escape s2
          else match s2 with
          | c2 :: s3 =>
              if rune3 b c1 c2 then escape_rune3 b c1 c2 ++ json_escape s3
              else match s3 with
              | c3 :: s4 =>
                  if rune4 b c1 c2 c3 then [b; c1; c2; c3] ++ json_escape s4
                  else escape_invalid ++ json_escape s1
              | [] => escape_invalid ++ json_escape s1
              end
          | [] => escape_invalid ++ json_escape s1
          end
      | [] => escape_invalid ++ json_escape s1
      end
  end.

Definition json_string (s : string) : bytes := [34] ++ json_escape (string_bytes s) ++ [34].

Definition MarshalJSON (e : PathElement) : bytes :=
  match e with
  | PathKey key => json_string key
  | Wildcard => string_bytes "null"
  | PathIndex i => string_bytes (pretty i)
  end.

(** bytes.Join. *)
Fixpoint intercalate_bytes (sep : bytes) (l : list bytes) : bytes :=
  match l with
  | [] => []
  | [x] => x
  | x :: l => x ++ sep ++ intercalate_bytes sep l
  end.

(** json.Marshal of a path, which is not empty where it is called. *)
Definition path_json (p : Path) : bytes := [91] ++ intercalate_bytes [44] (map MarshalJSON p) ++ [93].

(** ** Validation *)

Definition formatSDJWTVC : string := "dc+sd-jwt".
Definition formatMdoc : string := "mso_mdoc".

Definition TrustedAuthorities_Validate (i : Z) (t : TrustedAuthoritiesQuery) : res credential_error unit :=
  if bool_decide (ta_Type t = "") then Err (AuthorityNoType i)
  else if blen (ta_Values t) =? 0 then Err (AuthorityNoValues i)
  else Ok tt.

(** A list of ids that refer to known ones, each once. *)
Fixpoint check_refs (known : gset string) (before ids : list string) : res ref_error unit :=
  match ids with
  | [] => Ok tt
  | id :: ids =>
      if bool_decide (id ∉ known) then Err (RefUnknown id)
      else if bool_decide (id ∈ before) then Err (RefTwice id)
      else check_refs known (before ++ [id]) ids
  end.

Definition refs_Validate (known : gset string) (ids : list string) : res ref_error unit :=
  if blen ids =? 0 then Err RefsEmpty else check_refs known [] ids.

Definition CredentialSet_Validate (i : Z) (knownIDs : gset string) (c : CredentialSetQuery) : res query_error unit :=
  if blen (cs_Options c) =? 0 then Err (QuerySetNoOptions i)
  else check_each (fun j opt => res_map_err (QuerySetOption i j) (refs_Validate knownIDs opt)) 0 (cs_Options c).

Definition Claims_Validate (requireID : bool) (c : ClaimsQuery) : res claim_error unit :=
  if requireID && bool_decide (cl_ID c = "") then Err ClaimIDRequired
  else if negb (bool_decide (cl_ID c = "")) && negb (idPattern (cl_ID c)) then Err ClaimIDInvalid
  else match Path_Validate (cl_Path c) with
  | Err _ => Err ClaimPathEmpty
  | Ok _ =>
      if present_empty (cl_Values c) then Err ClaimValuesEmpty
      else check_each (fun i v => guard_err (negb (isValuesElement v)) (ClaimValueInvalid i)) 0 (Values c)
  end.

Definition validateClaimFormat (format : string) (cl : ClaimsQuery) : res claim_error unit :=
  if negb (bool_decide (format = formatMdoc)) then
    match cl_IntentToRetain cl with Some _ => Err ClaimIntentNotMdoc | None => Ok tt end
  else match cl_Path cl with
  | [e0; e1] => if IsKey e0 && IsKey e1 then Ok tt else Err ClaimPathNotMdoc
  | _ => Err ClaimPathNotMdoc
  end.

(** encoding/json (through internal/strictjson) decodes a credential query's
    meta: into any value, into an [SDJWTVCMeta] (its [vct_values]), into an
    [MdocMeta] (its [doctype_value]); [None] is an error. *)
Section Validate.
Context (json_any : bytes -> option goval).
Context (json_vct_values : bytes -> option (list string)).
Context (json_doctype_value : bytes -> option string).

Definition SDJWTVCMeta (c : CredentialQuery) : option (list string) := json_vct_values (cq_Meta c).
Definition MdocMeta (c : CredentialQuery) : option string := json_doctype_value (cq_Meta c).

Definition SDJWTVCMeta_validate (vcts : list string) : res meta_error unit :=
  if blen vcts =? 0 then Err MetaNoVCT
  else if MaxVCTValues <? blen vcts then Err (MetaTooManyVCT (blen vcts))
  else check_each (fun _ v => guard_err (bool_decide (v = "")) MetaEmptyVCT) 0 vcts.

Definition validateMeta (c : CredentialQuery) : res meta_error unit :=
  if blen (cq_Meta c) =? 0 then Err MetaMissing
  else match json_any (cq_Meta c) with
  | None => Err MetaNotJSON
  | Some (VObject _) =>
      if String.eqb (cq_Format c) formatSDJWTVC then
        match SDJWTVCMeta c with
        | None => Err MetaDecode
        | Some vcts => SDJWTVCMeta_validate vcts
        end
      else if String.eqb (cq_Format c) formatMdoc then
        match MdocMeta c with
        | None => Err MetaDecode
        | Some doctype => guard_err (bool_decide (doctype = "")) MetaNoDoctype
        end
      else Ok tt
  | Some _ => Err MetaNotObject
  end.

(** The claims loop: the ids and the paths seen so far. *)
Fixpoint validateClaims_loop (c : CredentialQuery) (i : Z) (claimIDs : gset string) (seenPaths : gset bytes)
    (cls : list ClaimsQuery) : res credential_error (gset string) :=
  match cls with
  | [] => Ok claimIDs
  | cl :: cls =>
      let requireClaimID := 0 <? blen (ClaimSets c) in
      let? _ := res_map_err (CredentialClaim i) (Claims_Validate requireClaimID cl) in
      let? _ := res_map_err (CredentialClaim i) (validateClaimFormat (cq_Format c) cl) in
      let? claimIDs :=
        if bool_decide (cl_ID cl = "") then Ok claimIDs
        else if bool_decide (cl_ID cl ∈ claimIDs) then Err (CredentialClaimDuplicateID i (cl_ID cl))
        else Ok ({[cl_ID cl]} ∪ claimIDs) in
      let pathKey := path_json (cl_Path cl) in
      if bool_decide (pathKey ∈ seenPaths) then Err (CredentialClaimDuplicatePath i)
      else validateClaims_loop c (i + 1) claimIDs ({[pathKey]} ∪ seenPaths) cls
  end.

Definition validateClaims (c : CredentialQuery) : res credential_error (gset string) :=
  if present_empty (cq_Claims c) then Err CredentialClaimsEmpty
  else if present_empty (cq_ClaimSets c) then Err CredentialClaimSetsEmpty
  else validateClaims_loop c 0 ∅ ∅ (Claims c).

Definition validateClaimSets (c : CredentialQuery) (claimIDs : gset string) : res credential_error unit :=
  check_each (fun i set => res_map_err (CredentialClaimSet i) (refs_Validate claimIDs set)) 0 (ClaimSets c).

Definition validateTrustedAuthorities (c : CredentialQuery) : res credential_error unit :=
  check_each TrustedAuthorities_Validate 0 (cq_TrustedAuthorities c).

Definition Credential_Validate (c : CredentialQuery) : res credential_error unit :=
  if bool_decide (cq_ID c = "") || negb (idPattern (cq_ID c)) then Err CredentialIDInvalid
  else if bool_decide (cq_Format c = "") then Err CredentialNoFormat
  else
    let? _ := res_map_err CredentialMeta (validateMeta c) in
    let? claimIDs := validateClaims c in
    let? _ := validateClaimSets c claimIDs in
    validateTrustedAuthorities c.

(** The credentials loop: the ids seen so far. *)
Fixpoint credentials_loop (i : Z) (ids : gset string) (cqs : list CredentialQuery) : res query_error (gset string) :=
  match cqs with
  | [] => Ok ids
  | cq :: cqs =>
      let? _ := res_map_err (QueryCredential i) (Credential_Validate cq) in
      if bool_decide (cq_ID cq ∈ ids) then Err (QueryDuplicateID i (cq_ID cq))
      else credentials_loop (i + 1) ({[cq_ID cq]} ∪ ids) cqs
  end.

Definition Query_Validate (q : Query) : res query_error unit :=
  if blen (q_Credentials q) =? 0 then Err QueryNoCredentials
  else
    let? _ := res_map_err QuerySize (checkSize q) in
    let? ids := credentials_loop 0 ∅ (q_Credentials q) in
    check_each (fun i cs => CredentialSet_Validate i ids cs) 0 (q_CredentialSets q).

End Validate.
