(* ===== verification/DcqlValid.v ===== *)
(** * What a valid DCQL query is

    [Query.Validate]'s contract (OpenID4VP 1.0 §6) said without its loops and
    its order, and the theorem that it accepts exactly such queries. *)
From S2P Require Import Prelude Json DcqlPath DcqlQuery.

(** ** References *)

(** A list of references: each to a known id, none twice, and not none. *)
Definition refs_ok (known : string -> Prop) (ids : list string) : Prop :=
  ids <> [] /\ NoDup ids /\ Forall known ids.

Lemma check_refs_ok (known : gset string) ids : forall before,
  check_refs known before ids = Ok tt <->
  NoDup ids /\ Forall (.∈ known) ids /\ forall id, id ∈ ids -> id ∉ before.
Proof.
  induction ids as [|id ids IH]; intros before; cbn [check_refs].
  - split; [intros _; split_and!; try constructor; intros ? []%elem_of_nil|done].
  - rewrite NoDup_cons, Forall_cons.
    case_bool_decide as Hk; [split; [done|intros (_ & [? _] & _); done]|].
    case_bool_decide as Hb; [split; [done|intros (_ & _ & H); by destruct (H id); [left|]]|].
    rewrite IH; split.
    + intros (Hnd & Hf & Hni); split_and!; try done.
      * intros Hin; apply (Hni id Hin); apply elem_of_app; right; by left.
      * intros x [->|Hx]%elem_of_cons; [done|]; intros Hxb; apply (Hni x Hx), elem_of_app; by left.
    + intros ([Hni Hnd] & [_ Hf] & Hall); split_and!; try done.
      intros x Hx [Hxb|Hxi]%elem_of_app; [apply (Hall x); [by right|done]|]; apply list_elem_of_singleton in Hxi as ->; done.
Qed.

Lemma refs_Validate_ok (known : gset string) ids : refs_Validate known ids = Ok tt <-> refs_ok (.∈ known) ids.
Proof.
  unfold refs_Validate, refs_ok; destruct ids as [|id ids]; [split; [done|intros [? _]; done]|].
  change (blen (id :: ids) =? 0) with false; cbv iota; rewrite check_refs_ok.
  split; [intros (? & ? & _); done|intros (_ & ? & ?); split_and!; try done; intros ? _ []%elem_of_nil].
Qed.

Lemma refs_ok_iff (P Q : string -> Prop) ids : (forall id, P id <-> Q id) -> refs_ok P ids <-> refs_ok Q ids.
Proof. intros H; unfold refs_ok; rewrite !Forall_forall; naive_solver. Qed.

(** ** Claims *)

Definition claim_ok (requireID : Prop) (format : string) (c : ClaimsQuery) : Prop :=
  (requireID -> cl_ID c <> "") /\
  (cl_ID c <> "" -> idPattern (cl_ID c) = true) /\
  cl_Path c <> [] /\
  cl_Values c <> Some [] /\
  Forall (fun v => isValuesElement v = true) (Values c) /\
  (if decide (format = formatMdoc) then exists namespace element, cl_Path c = [PathKey namespace; PathKey element]
   else cl_IntentToRetain c = None).

Lemma Claims_Validate_ok requireID c :
  Claims_Validate requireID c = Ok tt <->
  (requireID = true -> cl_ID c <> "") /\ (cl_ID c <> "" -> idPattern (cl_ID c) = true) /\ cl_Path c <> [] /\
  cl_Values c <> Some [] /\ Forall (fun v => isValuesElement v = true) (Values c).
Proof.
  unfold Claims_Validate.
  assert (Hv : check_each (fun i v => guard_err (negb (isValuesElement v)) (ClaimValueInvalid i)) 0 (Values c) = Ok tt <->
    Forall (fun v => isValuesElement v = true) (Values c))
    by (apply check_each_ok; intros; rewrite guard_err_ok; apply negb_false_iff).
  rewrite <- Hv; clear Hv.
  case_bool_decide as Hid; destruct requireID, (idPattern (cl_ID c)) eqn:Ei, (cl_Path c), (cl_Values c) as [[|]|];
    cbn [andb negb Path_Validate present_empty]; naive_solver.
Qed.

Lemma validateClaimFormat_ok format c :
  validateClaimFormat format c = Ok tt <->
  (if decide (format = formatMdoc) then exists namespace element, cl_Path c = [PathKey namespace; PathKey element]
   else cl_IntentToRetain c = None).
Proof.
  unfold validateClaimFormat; case_bool_decide; destruct (decide (format = formatMdoc)); try done; cbn [negb].
  - destruct (cl_Path c) as [|[k| |] [|[l| |] [|]]]; cbn; naive_solver.
  - destruct (cl_IntentToRetain c); naive_solver.
Qed.

(** The ids the claims have. *)
Definition ids_of (cls : list ClaimsQuery) : list string := filter (fun id => id <> "") (cl_ID <$> cls).
Definition paths_of (cls : list ClaimsQuery) : list bytes := (path_json ∘ cl_Path) <$> cls.

(** The claims of one credential query: each well formed, with distinct ids
    where it has one, and distinct paths. *)
Definition claims_ok (c : CredentialQuery) : Prop :=
  cq_Claims c <> Some [] /\ cq_ClaimSets c <> Some [] /\
  Forall (claim_ok (ClaimSets c <> []) (cq_Format c)) (Claims c) /\
  NoDup (ids_of (Claims c)) /\ NoDup (paths_of (Claims c)).

Lemma ids_of_cons cl cls : ids_of (cl :: cls) = if decide (cl_ID cl <> "") then cl_ID cl :: ids_of cls else ids_of cls.
Proof. done. Qed.

Lemma claim_checks_ok c i cl :
  res_map_err (CredentialClaim i) (Claims_Validate (0 <? blen (ClaimSets c)) cl) = Ok tt /\
  res_map_err (CredentialClaim i) (validateClaimFormat (cq_Format c) cl) = Ok tt <->
  claim_ok (ClaimSets c <> []) (cq_Format c) cl.
Proof.
  rewrite !res_map_err_unit, Claims_Validate_ok, validateClaimFormat_ok; unfold claim_ok.
  assert (Hr : (0 <? blen (ClaimSets c)) = true <-> ClaimSets c <> []).
  { destruct (ClaimSets c) as [|x l]; [done|]; rewrite Z.ltb_lt, blen_cons; pose proof (blen_nonneg l); split; [done|lia]. }
  rewrite Hr; tauto.
Qed.

Lemma NoDup_seen {A} (x : A) l (P : A -> Prop) :
  NoDup (x :: l) /\ (forall y, y ∈ x :: l -> ~ P y) <-> ~ P x /\ NoDup l /\ (forall y, y ∈ l -> ~ (y = x \/ P y)).
Proof.
  rewrite NoDup_cons; split.
  - intros [[Hx Hl] H]; split_and!; [apply H; by left|done|]; intros y Hy [->|Hp]; [done|]; apply (H y); [by right|done].
  - intros (Hx & Hl & H); split_and!; [intros Hin; apply (H x Hin); by left|done|].
    intros y [->|Hy]%elem_of_cons; [done|]; intros Hp; apply (H y Hy); by right.
Qed.

Lemma unseen_insert `{Countable A} (x : A) (l : list A) (X : gset A) :
  (forall y, y ∈ l -> y ∉ {[x]} ∪ X) <-> (forall y, y ∈ l -> ~ (y = x \/ y ∈ X)).
Proof. set_solver. Qed.

(** The claims loop, with what it has seen. *)
Lemma validateClaims_loop_ok c cls : forall i ids paths out,
  validateClaims_loop c i ids paths cls = Ok out <->
  Forall (claim_ok (ClaimSets c <> []) (cq_Format c)) cls /\
  (NoDup (ids_of cls) /\ forall id, id ∈ ids_of cls -> id ∉ ids) /\
  (NoDup (paths_of cls) /\ forall p, p ∈ paths_of cls -> p ∉ paths) /\
  out = list_to_set (ids_of cls) ∪ ids.
Proof.
  induction cls as [|cl cls IH]; intros i ids paths out; cbn [validateClaims_loop].
  - split; [intros [= <-]|intros (_ & _ & _ & ->); f_equal; set_solver].
    split_and!; try constructor; try set_solver; by intros ? ?%elem_of_nil.
  - change (paths_of (cl :: cls)) with (path_json (cl_Path cl) :: paths_of cls).
    rewrite !seq_ok, Forall_cons, <- (claim_checks_ok c i), (NoDup_seen (path_json (cl_Path cl)) (paths_of cls) (.∈ paths)), ids_of_cons.
    match goal with |- _ /\ _ /\ ?m = ?o <-> (_ /\ ?f) /\ ?r => enough (m = o <-> f /\ r) by tauto end.
    destruct (decide (cl_ID cl <> "")) as [Hid|Hid].
    + rewrite bool_decide_eq_false_2 by done; rewrite (NoDup_seen (cl_ID cl) (ids_of cls) (.∈ ids)).
      case_bool_decide as Hin; cbn [res_bind]; [naive_solver|].
      case_bool_decide as Hp; [naive_solver|]; rewrite IH.
      rewrite !unseen_insert.
      assert (Hset : forall out, out = list_to_set (ids_of cls) ∪ ({[cl_ID cl]} ∪ ids) <->
        out = list_to_set (cl_ID cl :: ids_of cls) ∪ ids) by (intros o; split; intros ->; apply leibniz_equiv; set_solver).
      rewrite Hset; tauto.
    + rewrite bool_decide_eq_true_2 by (by apply dec_stable); cbn [res_bind].
      case_bool_decide as Hp; [naive_solver|]; rewrite IH.
      rewrite unseen_insert; tauto.
Qed.

Lemma present_empty_ok {A} (o : option (list A)) : present_empty o = false <-> o <> Some [].
Proof. destruct o as [[|]|]; naive_solver. Qed.

Lemma if_err_ok {E A} (b : bool) (e : E) (m : res E A) a : (if b then Err e else m) = Ok a <-> b = false /\ m = Ok a.
Proof. destruct b; naive_solver. Qed.

Lemma validateClaims_ok c out : validateClaims c = Ok out <-> claims_ok c /\ out = list_to_set (ids_of (Claims c)).
Proof.
  unfold validateClaims, claims_ok; rewrite !if_err_ok, !present_empty_ok, validateClaims_loop_ok, (right_id_L ∅ (∪)).
  assert (Hn : forall A `{Countable A} (l : list A), forall x, x ∈ l -> x ∉ (∅ : gset A)) by set_solver.
  naive_solver.
Qed.

(** ** Size *)

Definition credential_size_ok (c : CredentialQuery) : Prop :=
  blen (Claims c) <= MaxClaimsPerCredential /\ blen (ClaimSets c) <= MaxClaimSets /\
  blen (cq_TrustedAuthorities c) <= MaxTrustedAuthorities /\
  Forall (fun set => blen set <= MaxClaimsPerCredential) (ClaimSets c) /\
  Forall (fun ta => blen (ta_Values ta) <= MaxTrustedAuthorityValues) (cq_TrustedAuthorities c) /\
  Forall (fun cl => blen (Values cl) <= MaxValuesPerClaim /\ blen (cl_Path cl) <= MaxPathLength) (Claims c).

Definition size_ok (q : Query) : Prop :=
  blen (q_Credentials q) <= MaxCredentialQueries /\ blen (q_CredentialSets q) <= MaxCredentialSets /\
  Forall (fun cs => blen (cs_Options cs) <= MaxCredentialSetOptions) (q_CredentialSets q) /\
  Forall credential_size_ok (q_Credentials q).

Lemma checkNestedSize_ok i c :
  checkNestedSize i c = Ok tt <->
  Forall (fun set => blen set <= MaxClaimsPerCredential) (ClaimSets c) /\
  Forall (fun ta => blen (ta_Values ta) <= MaxTrustedAuthorityValues) (cq_TrustedAuthorities c) /\
  Forall (fun cl => blen (Values cl) <= MaxValuesPerClaim /\ blen (cl_Path cl) <= MaxPathLength) (Claims c).
Proof.
  unfold checkNestedSize; rewrite !seq_ok; f_equiv; [|f_equiv]; apply check_each_ok; intros j x _.
  - by rewrite guard_err_ok, Z.ltb_ge.
  - by rewrite guard_err_ok, Z.ltb_ge.
  - rewrite !if_err_ok, !Z.ltb_ge; tauto.
Qed.

Lemma checkSize_ok q : checkSize q = Ok tt <-> size_ok q.
Proof.
  unfold checkSize, size_ok; rewrite !if_err_ok, !Z.ltb_ge, seq_ok.
  rewrite (check_each_ok _ (fun cs => blen (cs_Options cs) <= MaxCredentialSetOptions))
    by (intros; by rewrite guard_err_ok, Z.ltb_ge).
  rewrite (check_each_ok _ credential_size_ok); [done|]; intros i c _.
  rewrite !if_err_ok, !Z.ltb_ge, checkNestedSize_ok; done.
Qed.

(** ** Queries *)

Section Valid.
Context (json_any : bytes -> option goval).
Context (json_vct_values : bytes -> option (list string)).
Context (json_doctype_value : bytes -> option string).

(** The format's type constraint: at least one vct, at most [MaxVCTValues],
    none of them empty; a doctype. *)
Definition meta_ok (c : CredentialQuery) : Prop :=
  cq_Meta c <> [] /\ (exists o, json_any (cq_Meta c) = Some (VObject o)) /\
  (cq_Format c = formatSDJWTVC ->
    exists vcts, json_vct_values (cq_Meta c) = Some vcts /\ vcts <> [] /\ blen vcts <= MaxVCTValues /\ "" ∉ vcts) /\
  (cq_Format c = formatMdoc -> exists doctype, json_doctype_value (cq_Meta c) = Some doctype /\ doctype <> "").

Definition credential_ok (c : CredentialQuery) : Prop :=
  idPattern (cq_ID c) = true /\ cq_Format c <> "" /\ meta_ok c /\ claims_ok c /\
  Forall (refs_ok (.∈ ids_of (Claims c))) (ClaimSets c) /\
  Forall (fun ta => ta_Type ta <> "" /\ ta_Values ta <> []) (cq_TrustedAuthorities c).

Definition query_ok (q : Query) : Prop :=
  q_Credentials q <> [] /\ size_ok q /\ Forall credential_ok (q_Credentials q) /\
  NoDup (cq_ID <$> q_Credentials q) /\
  Forall (fun cs => cs_Options cs <> [] /\ Forall (refs_ok (.∈ cq_ID <$> q_Credentials q)) (cs_Options cs)) (q_CredentialSets q).

Lemma blen_eqb_nil {A} (l : list A) : (blen l =? 0) = false <-> l <> [].
Proof. destruct l; [done|]; rewrite Z.eqb_neq, blen_cons; split; [done|]; pose proof (blen_nonneg l); lia. Qed.

Lemma vcts_ok vcts : SDJWTVCMeta_validate vcts = Ok tt <-> vcts <> [] /\ blen vcts <= MaxVCTValues /\ "" ∉ vcts.
Proof using.
  unfold SDJWTVCMeta_validate; rewrite !if_err_ok, blen_eqb_nil, Z.ltb_ge.
  rewrite (check_each_ok _ (fun v => v <> "")) by (intros; by rewrite guard_err_ok, bool_decide_eq_false).
  rewrite Forall_forall; naive_solver.
Qed.

Lemma validateMeta_ok c : validateMeta json_any json_vct_values json_doctype_value c = Ok tt <-> meta_ok c.
Proof using.
  unfold validateMeta, meta_ok, SDJWTVCMeta, MdocMeta; rewrite if_err_ok, blen_eqb_nil; apply and_iff_compat_l.
  destruct (json_any (cq_Meta c)) as [[]|]; try naive_solver.
  destruct (String.eqb_spec (cq_Format c) formatSDJWTVC) as [E|E]; [|destruct (String.eqb_spec (cq_Format c) formatMdoc) as [F|F]].
  - assert (cq_Format c <> formatMdoc) by (by rewrite E); destruct (json_vct_values (cq_Meta c)); rewrite ?vcts_ok; naive_solver.
  - destruct (json_doctype_value (cq_Meta c)); rewrite ?guard_err_ok, ?bool_decide_eq_false; naive_solver.
  - naive_solver.
Qed.

Lemma Credential_Validate_ok c :
  Credential_Validate json_any json_vct_values json_doctype_value c = Ok tt <-> credential_ok c.
Proof using.
  unfold Credential_Validate, credential_ok; rewrite !if_err_ok, seq_ok, res_map_err_unit, validateMeta_ok, orb_false_iff, negb_false_iff, !bool_decide_eq_false.
  assert (Hid : cq_ID c <> "" /\ idPattern (cq_ID c) = true <-> idPattern (cq_ID c) = true) by (destruct (cq_ID c); naive_solver).
  rewrite Hid; repeat apply and_iff_compat_l; rewrite res_bind_ok.
  assert (Hs : forall ids : gset string, ids = list_to_set (ids_of (Claims c)) ->
    validateClaimSets c ids = Ok tt <-> Forall (refs_ok (.∈ ids_of (Claims c))) (ClaimSets c)).
  { intros ids ->; apply check_each_ok; intros; rewrite res_map_err_unit, refs_Validate_ok; apply refs_ok_iff; intros; apply elem_of_list_to_set. }
  assert (Ht : validateTrustedAuthorities c = Ok tt <-> Forall (fun ta => ta_Type ta <> "" /\ ta_Values ta <> []) (cq_TrustedAuthorities c)).
  { apply check_each_ok; intros i ta _; unfold TrustedAuthorities_Validate; rewrite !if_err_ok, bool_decide_eq_false, blen_eqb_nil; naive_solver. }
  split.
  - intros (ids & [Hc Hids]%validateClaims_ok & [Hr Ha]%seq_ok); split_and!; [done|by apply (Hs ids)|by apply Ht].
  - intros (Hc & Hr & Ha); exists (list_to_set (ids_of (Claims c))); split; [by apply validateClaims_ok|].
    apply seq_ok; split; [by apply Hs|by apply Ht].
Qed.

Lemma credentials_loop_ok cqs : forall i ids out,
  credentials_loop json_any json_vct_values json_doctype_value i ids cqs = Ok out <->
  Forall credential_ok cqs /\ (NoDup (cq_ID <$> cqs) /\ forall id, id ∈ cq_ID <$> cqs -> id ∉ ids) /\
  out = list_to_set (cq_ID <$> cqs) ∪ ids.
Proof using.
  induction cqs as [|cq cqs IH]; intros i ids out; cbn [credentials_loop].
  - split; [intros [= <-]|intros (_ & _ & ->); f_equal; set_solver].
    split_and!; try constructor; try set_solver; by intros ? ?%elem_of_nil.
  - rewrite seq_ok, res_map_err_unit, Credential_Validate_ok, Forall_cons, fmap_cons, (NoDup_seen (cq_ID cq) (cq_ID <$> cqs) (.∈ ids)).
    case_bool_decide as Hin; [naive_solver|]; rewrite IH, unseen_insert.
    assert (Hset : forall o, o = list_to_set (cq_ID <$> cqs) ∪ ({[cq_ID cq]} ∪ ids) <->
      o = list_to_set (cq_ID cq :: (cq_ID <$> cqs)) ∪ ids) by (intros o; split; intros ->; apply leibniz_equiv; set_solver).
    rewrite Hset; tauto.
Qed.

Lemma Query_Validate_ok (q : Query) :
  Query_Validate json_any json_vct_values json_doctype_value q = Ok tt <-> query_ok q.
Proof using.
  unfold Query_Validate, query_ok; rewrite if_err_ok, blen_eqb_nil, seq_ok, res_map_err_unit, checkSize_ok, res_bind_ok.
  assert (Hs : forall ids : gset string, ids = list_to_set (cq_ID <$> q_Credentials q) ∪ ∅ ->
    check_each (fun i cs => CredentialSet_Validate i ids cs) 0 (q_CredentialSets q) = Ok tt <->
    Forall (fun cs => cs_Options cs <> [] /\ Forall (refs_ok (.∈ cq_ID <$> q_Credentials q)) (cs_Options cs)) (q_CredentialSets q)).
  { intros ids ->; apply check_each_ok; intros i cs _; unfold CredentialSet_Validate; rewrite if_err_ok, blen_eqb_nil.
    apply and_iff_compat_l, check_each_ok; intros; rewrite res_map_err_unit, refs_Validate_ok; apply refs_ok_iff; set_solver. }
  setoid_rewrite credentials_loop_ok.
  assert (Hn : forall id, id ∈ cq_ID <$> q_Credentials q -> id ∉ (∅ : gset string)) by set_solver.
  naive_solver.
Qed.

(** C33: [Query.Validate] accepts exactly the well-formed queries: within every
    bound on its size, each credential query and credential set well formed,
    ids distinct, and every reference to an id of the query. *)
Theorem Query_Validate_exact (q : Query) :
  Query_Validate json_any json_vct_values json_doctype_value q = Ok tt <-> query_ok q.
Proof using. apply Query_Validate_ok. Qed.

End Valid.
