(* ===== verification/DcqlValues.v ===== *)
(** * Claim values: [dcql/values.go]

    When a claim's value matches one a query asks for.  The theorem: exactly
    when the two have the same type and value as JSON, whatever Go types they
    are held in, a CBOR value being converted to JSON first. *)
From S2P Require Import Prelude B64Url Json DcqlPath DcqlQuery.
From Stdlib Require Import SpecFloat QArith Qreduction.
From stdpp Require Import pretty.
#[local] Open Scope Z_scope.

Definition bytes_string (b : bytes) : string :=
  String.string_of_list_ascii (map (fun z => Ascii.ascii_of_N (Z.to_N z)) b).

(** ** time.RFC3339Nano, in UTC *)

(** The year, month and day of a day counted from 1970-01-01, in the proleptic
    Gregorian calendar. *)
Definition civil (days : Z) : Z * Z * Z :=
  let z := days + 719468 in
  let era := z / 146097 in
  let doe := z - era * 146097 in
  let yoe := (doe - doe / 1460 + doe / 36524 - doe / 146096) / 365 in
  let doy := doe - (365 * yoe + yoe / 4 - yoe / 100) in
  let mp := (5 * doy + 2) / 153 in
  let m := if mp <? 10 then mp + 3 else mp - 9 in
  ((yoe + era * 400) + (if m <=? 2 then 1 else 0), m, doy - (153 * mp + 2) / 5 + 1).

(** [z] in decimal, of at least [width] digits. *)
Definition pad (width : nat) (z : Z) : string :=
  let digits := pretty (Z.abs z) in
  ((if (z <? 0)%Z then "-" else "") +:+ String.string_of_list_ascii (replicate (width - String.length digits)%nat (Ascii.ascii_of_N 48)) +:+ digits)%string.

(** The fraction of a second without its trailing zeros, with its point. *)
Fixpoint drop_zeros (n : nat) (width : nat) (z : Z) : nat * Z :=
  match n with
  | O => (width, z)
  | S n => if z mod 10 =? 0 then drop_zeros n (pred width) (z / 10) else (width, z)
  end.

Definition fraction (nanos : Z) : string :=
  if nanos =? 0 then "" else let (width, z) := drop_zeros 9 9 nanos in "." +:+ pad width z.

Definition RFC3339Nano (ns : Z) : string :=
  let seconds := ns / 10 ^ 9 in
  let '(year, month, day) := civil (seconds / 86400) in
  let s := seconds mod 86400 in
  pad 4 year +:+ "-" +:+ pad 2 month +:+ "-" +:+ pad 2 day +:+ "T" +:+
  pad 2 (s / 3600) +:+ ":" +:+ pad 2 (s / 60 mod 60) +:+ ":" +:+ pad 2 (s mod 60) +:+
  fraction (ns mod 10 ^ 9) +:+ "Z".

Example RFC3339Nano_dates :
  RFC3339Nano 1740787199123000000 = "2025-02-28T23:59:59.123Z"%string /\
  RFC3339Nano (-1) = "1969-12-31T23:59:59.999999999Z"%string /\ RFC3339Nano (1709164800 * 10 ^ 9) = "2024-02-29T00:00:00Z"%string.
Proof. split_and!; vm_compute; reflexivity. Qed.

(** ** Values as JSON *)

Fixpoint jsonValue (v : goval) : goval :=
  match v with
  | VTag content => jsonValue content
  | VTime ns => VString (RFC3339Nano ns)
  | VBytes b => VString (bytes_string (EncodeToString b))
  | v => v
  end.

(** big.Rat's SetFloat64. *)
Definition Rat_SetFloat64 (f : spec_float) : option Q :=
  match f with
  | S754_zero _ => Some 0%Q
  | S754_finite s m e =>
      let n := if s then Zneg m else Zpos m in
      Some (if 0 <=? e then (n * 2 ^ e) # 1 else n # Z.to_pos (2 ^ (- e)))
  | _ => None
  end.

Section Values.
(** big.Rat's SetString, of a json.Number. *)
Context (Rat_SetString : string -> option Q).

Definition number (v : goval) : option Q :=
  match v with
  | VInt z => Some (inject_Z z)
  | VFloat f => Rat_SetFloat64 f
  | VNumber s => Rat_SetString s
  | _ => None
  end.

Definition valueEquals (got want : goval) : bool :=
  let got := jsonValue got in
  match want with
  | VString w => match got with VString g => String.eqb g w | _ => false end
  | VBool w => match got with VBool g => Bool.eqb g w | _ => false end
  | _ =>
      match number want with
      | None => false
      | Some wn => match number got with Some gn => Qeq_bool gn wn | None => false end
      end
  end.

Fixpoint anyValueMatches (selected want : list goval) : bool :=
  match selected with
  | [] => false
  | got :: selected => if existsb (valueEquals got) want then true else anyValueMatches selected want
  end.

(** ** What a value is *)

(** The type and value of a string, a boolean or a number: the types a query
    can ask for. *)
Inductive scalar : Type :=
| Text (s : string)
| Truth (b : bool)
| Num (q : Q).

Definition scalar_of (v : goval) : option scalar :=
  match v with
  | VString s => Some (Text s)
  | VBool b => Some (Truth b)
  | v => q ← number v; Some (Num (Qred q))
  end.

Lemma Qred_iff q r : Qred q = Qred r <-> (q == r)%Q.
Proof using. split; [intros E; by rewrite <- (Qred_correct q), E, Qred_correct|apply Qred_complete]. Qed.

Lemma number_scalar got wn :
  match number got with Some gn => Qeq_bool gn wn | None => false end = true <-> scalar_of got = Some (Num (Qred wn)).
Proof using.
  assert (Hnum : forall q, Qeq_bool q wn = true <-> Some (Num (Qred q)) = Some (Num (Qred wn))).
  { intros q; rewrite Qeq_bool_iff, <- Qred_iff; split; [by intros ->|by intros [= ?]]. }
  destruct got; cbn [number scalar_of mbind option_bind]; try done; try apply Hnum.
  - destruct (Rat_SetFloat64 f); cbn [mbind option_bind]; [apply Hnum|done].
  - destruct (Rat_SetString s); cbn [mbind option_bind]; [apply Hnum|done].
Qed.

(** The scalar asked for, where one is: [valueEquals] compares with it. *)
Lemma valueEquals_scalar got want d :
  scalar_of want = Some d -> valueEquals got want = true <-> scalar_of (jsonValue got) = Some d.
Proof using.
  unfold valueEquals; generalize (jsonValue got); clear got; intros got.
  destruct want; cbn [number scalar_of]; try done.
  - intros [= <-]; destruct got; cbn [scalar_of number mbind option_bind]; try done.
    + rewrite String.eqb_eq; naive_solver.
    + destruct (Rat_SetFloat64 f); done.
    + destruct (Rat_SetString s0); done.
  - intros [= <-]; destruct got; cbn [scalar_of number mbind option_bind]; try done.
    + rewrite Bool.eqb_true_iff; naive_solver.
    + destruct (Rat_SetFloat64 f); done.
    + destruct (Rat_SetString s); done.
  - intros [= <-]; apply number_scalar.
  - destruct (Rat_SetFloat64 f); [|done]; intros [= <-]; apply number_scalar.
  - destruct (Rat_SetString s); [|done]; intros [= <-]; apply number_scalar.
Qed.

Lemma valueEquals_none got want : scalar_of want = None -> valueEquals got want = false.
Proof using.
  unfold valueEquals; destruct want; cbn [number scalar_of]; try done.
  - by destruct (Rat_SetFloat64 f).
  - by destruct (Rat_SetString s).
Qed.

(** Two values are the same claim value: of one type, and equal. *)
Definition same_value (got want : goval) : Prop :=
  exists d, scalar_of (jsonValue got) = Some d /\ scalar_of want = Some d.

Lemma valueEquals_same got want : valueEquals got want = true <-> same_value got want.
Proof using.
  unfold same_value; destruct (scalar_of want) as [d|] eqn:E.
  - rewrite (valueEquals_scalar got want d E); naive_solver.
  - rewrite valueEquals_none by done; naive_solver.
Qed.

Lemma anyValueMatches_spec selected want :
  anyValueMatches selected want = true <-> exists got w, got ∈ selected /\ w ∈ want /\ same_value got w.
Proof using.
  induction selected as [|got sel IH]; cbn [anyValueMatches]; [split; [done|intros (? & ? & []%elem_of_nil & _)]|].
  destruct (existsb (valueEquals got) want) eqn:E.
  - split; [|done]; intros _; apply existsb_exists in E as (w & Hw & Heq); apply valueEquals_same in Heq.
    exists got, w; split_and!; [by left|by apply list_elem_of_In|done].
  - rewrite IH; split; [intros (g & w & Hg & ? & ?); exists g, w; split_and!; [by right|done..]|].
    intros (g & w & [->|Hg]%elem_of_cons & Hw & Hs); [|by exists g, w].
    apply valueEquals_same in Hs; enough (existsb (valueEquals got) want = true) by congruence.
    apply existsb_exists; exists w; split; [by apply list_elem_of_In|done].
Qed.

End Values.
