(* ===== verification/DcqlMatch.v ===== *)
(** * Matching a credential: [dcql/meta.go]

    Whether a credential satisfies a credential query, and which claims
    paths it does so with.  The theorems: the selection is every claim, or the
    first claim set whose claims are all there, whatever the memo of checked
    claims holds; and what a Wallet selects from a credential a Verifier
    accepts. *)
From S2P Require Import Prelude Json DcqlPath DcqlQuery DcqlValues.
From Stdlib Require Import QArith.
#[local] Open Scope Z_scope.

Inductive match_error (E : Type) : Type :=
| MatchMeta                                  (* the meta does not decode *)
| MatchType                                  (* vct, aka_vcts or docType *)
| ClaimNotPresent (p : Path) (e : E)
| ClaimNoneOfValues (p : Path)
| UnknownClaim (id : string)
| ClaimFailed (id : string) (e : match_error E)
| NoOption (last : option (match_error E)).
Arguments MatchMeta {E}.
Arguments MatchType {E}.
Arguments ClaimNotPresent {E}.
Arguments ClaimNoneOfValues {E}.
Arguments UnknownClaim {E}.
Arguments ClaimFailed {E}.
Arguments NoOption {E}.

(** ** Selecting claims *)

Section Select.
Context (Rat_SetString : string -> option Q).
Context {E : Type} (present : Path -> res E (list goval)).

Definition presentAt (cl : ClaimsQuery) : res (match_error E) unit :=
  match present (cl_Path cl) with
  | Err err => Err (ClaimNotPresent (cl_Path cl) err)
  | Ok selected =>
      if (0 <? blen (Values cl)) && negb (anyValueMatches Rat_SetString selected (Values cl))
      then Err (ClaimNoneOfValues (cl_Path cl))
      else Ok tt
  end.

(** What each claim checked so far came to, by its id. *)
Abbreviation memo := (gmap string (res (match_error E) unit)) (only parsing).

Definition presentOnce (checked : memo) (cl : ClaimsQuery) : res (match_error E) unit * memo :=
  match checked !! cl_ID cl with
  | Some err => (err, checked)
  | None => let err := presentAt cl in (err, <[cl_ID cl := err]> checked)
  end.

Fixpoint claimSetOptionPaths (option : list string) (byID : gmap string ClaimsQuery) (checked : memo) (paths : list Path)
    : res (match_error E) (list Path) * memo :=
  match option with
  | [] => (Ok paths, checked)
  | id :: option =>
      match byID !! id with
      | None => (Err (UnknownClaim id), checked)
      | Some cl =>
          match presentOnce checked cl with
          | (Err err, checked) => (Err (ClaimFailed id err), checked)
          | (Ok _, checked) => claimSetOptionPaths option byID checked (paths ++ [cl_Path cl])
          end
      end
  end.

Fixpoint first_option (options : list (list string)) (byID : gmap string ClaimsQuery) (checked : memo)
    (lastErr : option (match_error E)) : res (match_error E) (list Path) :=
  match options with
  | [] => Err (NoOption lastErr)
  | opt :: options =>
      match claimSetOptionPaths opt byID checked [] with
      | (Err err, checked) => first_option options byID checked (Some err)
      | (Ok paths, _) => Ok paths
      end
  end.

Fixpoint all_claims (cls : list ClaimsQuery) (paths : list Path) : res (match_error E) (list Path) :=
  match cls with
  | [] => Ok paths
  | cl :: cls => let? _ := presentAt cl in all_claims cls (paths ++ [cl_Path cl])
  end.

(** The claims by id, a later one in place of an earlier one. *)
Definition by_id (cls : list ClaimsQuery) : gmap string ClaimsQuery :=
  fold_left (fun m cl => <[cl_ID cl := cl]> m) cls ∅.

Definition selectedClaimPaths (c : CredentialQuery) : res (match_error E) (list Path) :=
  if blen (ClaimSets c) =? 0 then all_claims (Claims c) []
  else first_option (ClaimSets c) (by_id (Claims c)) ∅ None.

(** ** What is selected *)

(** A claim is there: its path selects values, one of them the value of one
    the query lists, if it lists any. *)
Definition claim_there (cl : ClaimsQuery) : Prop :=
  exists selected, present (cl_Path cl) = Ok selected /\
    (Values cl = [] \/ exists got want, got ∈ selected /\ want ∈ Values cl /\ same_value Rat_SetString got want).

(** A claim set is satisfied with these paths. *)
Definition set_there (c : CredentialQuery) (ids : list string) (paths : list Path) : Prop :=
  Forall2 (fun id p => exists cl, by_id (Claims c) !! id = Some cl /\ claim_there cl /\ p = cl_Path cl) ids paths.

Definition selects_claims (c : CredentialQuery) (paths : list Path) : Prop :=
  match ClaimSets c with
  | [] => Forall claim_there (Claims c) /\ paths = cl_Path <$> Claims c
  | sets => exists before ids after, sets = before ++ ids :: after /\
      Forall (fun ids => ~ exists paths, set_there c ids paths) before /\ set_there c ids paths
  end.

Lemma presentAt_ok cl : presentAt cl = Ok tt <-> claim_there cl.
Proof using.
  unfold presentAt, claim_there; destruct (present (cl_Path cl)) as [sel|]; [|naive_solver].
  destruct (Values cl) as [|v vs] eqn:Ev; [split; [intros _; exists sel; auto|done]|].
  destruct (Z.ltb_spec 0 (blen (v :: vs))); [|unfold blen in *; cbn [length] in *; lia]; cbn [andb].
  destruct (anyValueMatches Rat_SetString sel (v :: vs)) eqn:Ea; cbn [negb].
  - apply anyValueMatches_spec in Ea; split; [intros _; exists sel; auto|done].
  - split; [done|]; intros (s & [= <-] & [|H1]); [done|].
    apply anyValueMatches_spec in H1; congruence.
Qed.

Lemma all_claims_ok cls : forall acc paths,
  all_claims cls acc = Ok paths <-> Forall claim_there cls /\ paths = acc ++ (cl_Path <$> cls).
Proof using.
  induction cls as [|cl cls IH]; intros acc paths; cbn [all_claims].
  - rewrite fmap_nil, app_nil_r; split; [intros [= <-]; auto|by intros [_ ->]].
  - rewrite seq_ok, presentAt_ok, IH, Forall_cons, fmap_cons, <- app_assoc; cbn [app]; tauto.
Qed.

(** *** The memo changes nothing *)

Definition memo_ok (byID : gmap string ClaimsQuery) (checked : memo) : Prop :=
  forall id err, checked !! id = Some err -> exists cl, byID !! id = Some cl /\ err = presentAt cl.

Definition keyed (byID : gmap string ClaimsQuery) : Prop := forall id cl, byID !! id = Some cl -> cl_ID cl = id.

Lemma by_id_keyed cls : keyed (by_id cls).
Proof using.
  unfold by_id; assert (H : keyed ∅) by (intros id cl; rewrite lookup_empty; done).
  revert H; generalize (∅ : gmap string ClaimsQuery); induction cls as [|cl cls IH]; intros m Hm; cbn [fold_left]; [done|].
  apply IH; intros id c; rewrite lookup_insert_Some; intros [[<- <-]|[_ Hc]]; [done|by apply Hm].
Qed.

Lemma presentOnce_ok byID checked id cl : keyed byID -> memo_ok byID checked -> byID !! id = Some cl ->
  exists checked', presentOnce checked cl = (presentAt cl, checked') /\ memo_ok byID checked'.
Proof using.
  intros Hk Hm Hid; unfold presentOnce; pose proof (Hk _ _ Hid) as Hcl; rewrite Hcl.
  destruct (checked !! id) as [err|] eqn:Ec.
  - exists checked; destruct (Hm _ _ Ec) as (cl' & Hcl' & ->); replace cl' with cl by congruence; done.
  - exists (<[id := presentAt cl]> checked); split; [done|].
    intros id' err; rewrite lookup_insert_Some; intros [[<- <-]|[_ He]]; [by exists cl|by apply Hm].
Qed.

Lemma claimSetOptionPaths_ok c ids : forall checked acc, memo_ok (by_id (Claims c)) checked ->
  exists r checked', claimSetOptionPaths ids (by_id (Claims c)) checked acc = (r, checked') /\
    memo_ok (by_id (Claims c)) checked' /\
    forall paths, r = Ok paths <-> exists more, paths = acc ++ more /\ set_there c ids more.
Proof using.
  unfold set_there; induction ids as [|id ids IH]; intros checked acc Hm; cbn [claimSetOptionPaths].
  - eexists _, _; split_and!; [done|done|]; intros paths; split.
    + intros [= <-]; exists []; rewrite app_nil_r; split; [done|constructor].
    + intros (more & -> & ->%Forall2_nil_inv_l); by rewrite app_nil_r.
  - destruct (by_id (Claims c) !! id) as [cl|] eqn:Eid.
    + destruct (presentOnce_ok _ checked id cl (by_id_keyed _) Hm Eid) as (checked1 & -> & Hm1).
      destruct (presentAt cl) as [[]|err] eqn:Ep.
      * destruct (IH checked1 (acc ++ [cl_Path cl]) Hm1) as (r & checked2 & -> & Hm2 & Hr).
        exists r, checked2; split_and!; [done|done|]; intros paths; rewrite Hr; apply presentAt_ok in Ep; split.
        { intros (more & -> & Hf); exists (cl_Path cl :: more); rewrite <- app_assoc; split; [done|].
          constructor; [by exists cl|done]. }
        intros (more & -> & Hf); apply Forall2_cons_inv_l in Hf as (p & more' & (cl' & Hcl' & _ & ->) & Hf & ->).
        replace cl' with cl by congruence; exists more'; by rewrite <- app_assoc.
      * eexists _, _; split_and!; [done|done|]; intros paths; split; [done|].
        intros (more & -> & Hf); apply Forall2_cons_inv_l in Hf as (p & more' & (cl' & Hcl' & Ht & ->) & _).
        replace cl' with cl in Ht by congruence; apply presentAt_ok in Ht; congruence.
    + eexists _, _; split_and!; [done|done|]; intros paths; split; [done|].
      intros (more & -> & Hf); apply Forall2_cons_inv_l in Hf as (p & more' & (cl' & Hcl' & _) & _); congruence.
Qed.

Lemma first_option_ok c sets : forall checked lastErr paths, memo_ok (by_id (Claims c)) checked ->
  first_option sets (by_id (Claims c)) checked lastErr = Ok paths <->
  exists before ids after, sets = before ++ ids :: after /\
    Forall (fun ids => ~ exists paths, set_there c ids paths) before /\ set_there c ids paths.
Proof using.
  induction sets as [|ids sets IH]; intros checked lastErr paths Hm; cbn [first_option].
  - split; [done|intros ([|] & ? & ? & ? & _); done].
  - destruct (claimSetOptionPaths_ok c ids checked [] Hm) as (r & checked1 & -> & Hm1 & Hr); cbn [app] in Hr.
    assert (Hset : forall ps, r = Ok ps <-> set_there c ids ps) by (intros ps; rewrite Hr; split; [intros (? & -> & ?); done|by exists ps]).
    destruct r as [ps|err].
    + pose proof (proj1 (Hset ps) eq_refl) as Hps; split; [intros [= <-]; by exists [], ids, sets|].
      intros ([|b before] & ids' & after & Heq & Hb & Hset'); injection Heq as <- Heq.
      * apply Hset in Hset'; congruence.
      * apply Forall_cons in Hb as [Hb _]; destruct Hb; by exists ps.
    + rewrite IH by done; split.
      * intros (before & ids' & after & -> & Hb & Hs); exists (ids :: before), ids', after; split_and!; [done| |done].
        constructor; [|done]; intros (ps & Hps); apply Hset in Hps; done.
      * intros ([|b before] & ids' & after & Heq & Hb & Hs); injection Heq as <- Heq; [apply Hset in Hs; done|].
        apply Forall_cons in Hb as [_ Hb]; by exists before, ids', after.
Qed.

Lemma selectedClaimPaths_spec c paths : selectedClaimPaths c = Ok paths <-> selects_claims c paths.
Proof using.
  unfold selectedClaimPaths, selects_claims; destruct (ClaimSets c) as [|ids sets].
  - cbn [blen length Z.of_nat Z.eqb]; apply (all_claims_ok (Claims c) []).
  - destruct (Z.eqb_spec (blen (ids :: sets)) 0) as [E0|_]; [by apply blen_zero in E0|].
    apply first_option_ok; intros ? ?; by rewrite lookup_empty.
Qed.

(** A satisfied claim set is enough for a selection. *)
Lemma first_option_some c ids paths sets : forall checked lastErr, memo_ok (by_id (Claims c)) checked ->
  ids ∈ sets -> set_there c ids paths -> exists ps, first_option sets (by_id (Claims c)) checked lastErr = Ok ps.
Proof using.
  induction sets as [|ids' sets IH]; intros checked lastErr Hm Hin Hset; [by apply elem_of_nil in Hin|]; cbn [first_option].
  destruct (claimSetOptionPaths_ok c ids' checked [] Hm) as ([ps|err] & checked1 & -> & Hm1 & Hr); [by exists ps|].
  apply IH; [done| |done]; apply elem_of_cons in Hin as [->|]; [|done].
  assert (@Err (match_error E) (list Path) err = Ok paths) by (apply Hr; by exists paths); done.
Qed.

Lemma selectedClaimPaths_some c ids paths :
  ids ∈ ClaimSets c -> set_there c ids paths -> exists ps, selectedClaimPaths c = Ok ps.
Proof using.
  intros Hin Hset; unfold selectedClaimPaths.
  destruct (Z.eqb_spec (blen (ClaimSets c)) 0) as [E0|_]; [apply blen_zero in E0; rewrite E0 in Hin; by apply elem_of_nil in Hin|].
  apply (first_option_some c ids paths); [|done|done]; intros ? ?; by rewrite lookup_empty.
Qed.

(** the paths selected are those of every claim, each there, where the
    query has no claim sets; and those of the first claim set all of whose
    claims are there, in its order, where it has some.  Nothing is selected
    otherwise. *)
Theorem selectedClaimPaths_exact (c : CredentialQuery) (paths : list Path) :
  selectedClaimPaths c = Ok paths <-> selects_claims c paths.
Proof using. apply selectedClaimPaths_spec. Qed.

End Select.

(** ** The formats *)

Section Formats.
Context (Rat_SetString : string -> option Q).
Context (json_vct_values : bytes -> option (list string)).
Context (json_doctype_value : bytes -> option string).

(** A claim's string, where it is one and not empty. *)
Definition type_name (v : goval) : list string :=
  match v with VString s => if String.eqb s "" then [] else [s] | _ => [] end.

Definition credentialTypes (claims : list (string * goval)) : list string :=
  match member "vct" claims with Some v => type_name v | None => [] end ++
  match member "aka_vcts" claims with Some (VArray aka) => aka ≫= type_name | _ => [] end.

(** The type constraint both checks of an SD-JWT VC begin with. *)
Definition type_requested {E : Type} (c : CredentialQuery) (claims : list (string * goval)) : res (match_error E) unit :=
  match SDJWTVCMeta json_vct_values c with
  | None => Err MatchMeta
  | Some vcts =>
      if (0 <? blen vcts) && negb (existsb (fun t => bool_decide (t ∈ vcts)) (credentialTypes claims))
      then Err MatchType else Ok tt
  end.

Definition SelectedSDJWTVCClaimPaths (c : CredentialQuery) (claims : list (string * goval))
    : res (match_error path_error) (list Path) :=
  let? _ := type_requested c claims in
  selectedClaimPaths Rat_SetString (fun p => Select p (VObject claims)) c.

Definition SatisfiedBySDJWTVCClaims (c : CredentialQuery) (claims : list (string * goval)) : res (match_error path_error) unit :=
  let? _ := SelectedSDJWTVCClaimPaths c claims in Ok tt.

Definition SatisfiedBySDJWTVCPresentation (c : CredentialQuery) (claims : list (string * goval))
    : res (match_error path_error) unit :=
  let? _ := type_requested c claims in
  let? _ := selectedClaimPaths Rat_SetString (fun p => Select (withIndicesWidened p) (VObject claims)) c in
  Ok tt.

Inductive mdoc_error : Type :=
| NotMdocPath (p : Path)
| NamespaceMissing (namespace : string)
| ElementMissing (namespace element : string).

Definition mdoc_present (nameSpaces : gmap string (gmap string goval)) (p : Path) : res mdoc_error (list goval) :=
  match MdocNamespaceAndElement p with
  | None => Err (NotMdocPath p)
  | Some (namespace, element) =>
      match nameSpaces !! namespace with
      | None => Err (NamespaceMissing namespace)
      | Some elements =>
          match elements !! element with
          | None => Err (ElementMissing namespace element)
          | Some value => Ok [value]
          end
      end
  end.

Definition SelectedMdocClaimPaths (c : CredentialQuery) (docType : string) (nameSpaces : gmap string (gmap string goval))
    : res (match_error mdoc_error) (list Path) :=
  match MdocMeta json_doctype_value c with
  | None => Err MatchMeta
  | Some doctype =>
      if negb (String.eqb doctype "") && negb (String.eqb docType doctype) then Err MatchType
      else selectedClaimPaths Rat_SetString (mdoc_present nameSpaces) c
  end.

Definition SatisfiedByMdocClaims (c : CredentialQuery) (docType : string) (nameSpaces : gmap string (gmap string goval))
    : res (match_error mdoc_error) unit :=
  let? _ := SelectedMdocClaimPaths c docType nameSpaces in Ok tt.

(** ** A presentation of what was selected *)

(** The presentation discloses a path of the credential: what the path leads
    to is there, at the path with its indices widened, and the arrays and
    objects that path meets have the shapes it asks for. *)
Definition discloses (claims shown : list (string * goval)) (p : Path) : Prop :=
  shaped (withIndicesWidened p) (VObject shown) /\
  forall v, v ∈ leads p (VObject claims) -> v ∈ leads (withIndicesWidened p) (VObject shown).

Lemma discloses_there claims shown cl :
  discloses claims shown (cl_Path cl) ->
  claim_there Rat_SetString (fun p => Select p (VObject claims)) cl ->
  claim_there Rat_SetString (fun p => Select (withIndicesWidened p) (VObject shown)) cl.
Proof using.
  intros [Hsh Hin] (sel & Hsel & Hval); apply Select_spec in Hsel as (Hne & _ & -> & Hsel).
  exists (leads (withIndicesWidened (cl_Path cl)) (VObject shown)); split.
  - apply Select_spec; split_and!; [by destruct (cl_Path cl)|done|done|].
    destruct (leads (cl_Path cl) (VObject claims)) as [|v vs] eqn:El; [done|].
    intros Hnil; specialize (Hin v ltac:(left)); rewrite Hnil in Hin; by apply elem_of_nil in Hin.
  - destruct Hval as [->|(got & want & Hg & Hw & Hs)]; [by left|right; exists got, want; auto].
Qed.

Lemma type_requested_mono {E} c claims shown :
  (forall t, t ∈ credentialTypes claims -> t ∈ credentialTypes shown) ->
  type_requested (E:=E) c claims = Ok tt -> type_requested (E:=E) c shown = Ok tt.
Proof using.
  unfold type_requested; destruct (SDJWTVCMeta json_vct_values c) as [vcts|]; [|done]; intros Hsub.
  destruct (0 <? blen vcts); cbn [andb]; [|done].
  destruct (existsb _ (credentialTypes claims)) eqn:E1; [|done]; intros _.
  apply existsb_exists in E1 as (t & Ht & Hb); apply list_elem_of_In, Hsub in Ht.
  destruct (existsb _ (credentialTypes shown)) eqn:E2; [done|].
  enough (existsb (fun t => bool_decide (t ∈ vcts)) (credentialTypes shown) = true) by congruence.
  apply existsb_exists; exists t; split; [by apply list_elem_of_In|done].
Qed.

Lemma by_id_elem cls id cl : by_id cls !! id = Some cl -> cl ∈ cls.
Proof using.
  unfold by_id; assert (H : forall m : gmap string ClaimsQuery, fold_left (fun m cl => <[cl_ID cl := cl]> m) cls m !! id = Some cl -> cl ∈ cls \/ m !! id = Some cl).
  { induction cls as [|c cls IH]; intros m Hm; cbn [fold_left] in Hm; [by right|].
    destruct (IH _ Hm) as [|[[_ ->]|[_ Hx]]%lookup_insert_Some]; [left; by right|left; by left|by right]. }
  intros Hl; destruct (H ∅ Hl) as [|He]; [done|by rewrite lookup_empty in He].
Qed.

(** Whatever selection succeeds, one succeeds where its claims are there too. *)
Lemma selects_claims_mono {E F} (present : Path -> res E (list goval)) (present' : Path -> res F (list goval)) c paths :
  (forall cl, cl ∈ Claims c -> cl_Path cl ∈ paths ->
     claim_there Rat_SetString present cl -> claim_there Rat_SetString present' cl) ->
  selects_claims Rat_SetString present c paths -> exists paths', selectedClaimPaths Rat_SetString present' c = Ok paths'.
Proof using.
  intros Hmono Hsel; unfold selects_claims in Hsel.
  destruct (ClaimSets c) as [|ids0 sets0] eqn:Ecs.
  - destruct Hsel as [Hall ->]; exists (cl_Path <$> Claims c); apply selectedClaimPaths_spec; unfold selects_claims; rewrite Ecs.
    split; [|done]; rewrite Forall_forall in Hall |- *; intros cl Hcl; apply Hmono; [done|by apply list_elem_of_fmap_2|by apply Hall].
  - destruct Hsel as (before & ids & after & Heq & _ & Hset).
    apply (selectedClaimPaths_some _ _ _ ids paths); [rewrite Ecs, Heq; apply elem_of_app; right; by left|].
    unfold set_there in *; apply Forall2_same_length_lookup; split; [by eapply Forall2_length|].
    intros i id p Hid Hp; apply Forall2_same_length_lookup in Hset as [_ Hset].
    destruct (Hset i id p Hid Hp) as (cl & Hcl & Ht & ->); exists cl; split_and!; [done| |done].
    apply Hmono; [by eapply by_id_elem|by eapply list_elem_of_lookup_2|done].
Qed.

(** a Verifier accepts a presentation of what the Wallet selected: one
    that discloses each path of the selection, its types still those the
    credential has. *)
Theorem selection_accepted (c : CredentialQuery) (claims shown : list (string * goval)) (paths : list Path) :
  SelectedSDJWTVCClaimPaths c claims = Ok paths ->
  (forall t, t ∈ credentialTypes claims -> t ∈ credentialTypes shown) ->
  (forall p, p ∈ paths -> discloses claims shown p) ->
  SatisfiedBySDJWTVCPresentation c shown = Ok tt.
Proof using.
  intros Hsel Htypes Hshown; unfold SelectedSDJWTVCClaimPaths, SatisfiedBySDJWTVCPresentation in *.
  apply seq_ok in Hsel as [Htype Hsel]; apply selectedClaimPaths_spec in Hsel.
  apply seq_ok; split; [by eapply type_requested_mono|].
  destruct (selects_claims_mono (fun p => Select p (VObject claims)) (fun p => Select (withIndicesWidened p) (VObject shown)) c paths)
    as (ps & ->); [|done|done].
  intros cl _ Hp; by apply discloses_there, Hshown.
Qed.

End Formats.

(** An index into an array the presentation drops other elements of. *)
Lemma selection_accepted_witness :
  let c := {| cq_ID := "pid"; cq_Format := formatSDJWTVC; cq_Meta := [123; 125]; cq_Multiple := false; cq_TrustedAuthorities := [];
    cq_RequireCryptographicHolderBinding := None;
    cq_Claims := Some [{| cl_ID := ""; cl_Path := [PathKey "nationalities"; PathIndex 1]; cl_Values := Some [VString "FR"]; cl_IntentToRetain := None |}];
    cq_ClaimSets := None |}%string in
  let shown l := [("vct", VString "urn:eudi:pid:1"); ("nationalities", VArray l)]%string in
  let meta := fun _ : bytes => Some ["urn:eudi:pid:1"%string] in
  SatisfiedBySDJWTVCClaims (fun _ => None) meta c (shown [VString "FR"]) <> Ok tt /\
  SatisfiedBySDJWTVCPresentation (fun _ => None) meta c (shown [VString "FR"]) = Ok tt.
Proof.
  intros c shown meta; split; [done|].
  apply (selection_accepted (fun _ => None) meta c (shown [VString "DE"; VString "FR"]%string) (shown [VString "FR"]%string)
    [[PathKey "nationalities"; PathIndex 1]]%string); [reflexivity|done|].
  intros p Hp; apply list_elem_of_singleton in Hp as ->; split; [|done].
  eexists; split; [reflexivity|]; repeat constructor; eexists; split; [reflexivity|]; repeat constructor.
Defined.
