(* ===== verification/DcqlAnswered.v ===== *)
(** * What a response must answer: [dcql/answered.go]

    [Query.CheckAnswered]'s search for the options of the credential sets that
    an answer makes up.  The theorem: within the limit on combinations it
    accepts exactly the answers that are one option of each set. *)
From S2P Require Import Prelude Json DcqlPath DcqlQuery.
From stdpp Require Import sorting.
#[local] Open Scope Z_scope.

(** ** The search *)

Definition maxOptionCombinations : Z := 10000.

Inductive answered_error : Type :=
| NotOfQuery (id : string)
| NotAnswered (id : string)
| SetNotAnswered (i : Z)
| NotInOption (id : string)
| TooManyCombinations
| MoreThanOneOption.

(** The answered ids: [map[string]bool], an id that is missing being false. *)
Abbreviation answers := (gmap string bool) (only parsing).
Definition is_answered (answered : answers) (id : string) : bool := default false (answered !! id).

(** The counts of chosen options per id, and the combinations tried. *)
Record cover : Type := { covered : gmap string Z; tried : Z }.

Definition count (c : gmap string Z) (id : string) : Z := default 0 (c !! id).

Definition cover_add (option : list string) (n : Z) (c : gmap string Z) : gmap string Z :=
  fold_left (fun c id => <[id := count c id + n]> c) option c.

Section Pick.
Context (ids : list string).

Fixpoint pick (choices : list (list (list string))) (c : cover) : res answered_error bool * cover :=
  match choices with
  | [] => (Ok (negb (existsb (fun id => count (covered c) id =? 0) ids)), c)
  | options :: choices =>
      (fix pick_option (options : list (list string)) (c : cover) : res answered_error bool * cover :=
        match options with
        | [] => (Ok false, c)
        | opt :: options =>
            let c := {| covered := covered c; tried := tried c + 1 |} in
            if maxOptionCombinations <? tried c then (Err TooManyCombinations, c)
            else
              match pick choices {| covered := cover_add opt 1 (covered c); tried := tried c |} with
              | (Ok false, c) => pick_option options {| covered := cover_add opt (-1) (covered c); tried := tried c |}
              | result => result
              end
        end) options c
  end.

(** The inner loop, by its own name. *)
Fixpoint pick_option (choices : list (list (list string))) (options : list (list string)) (c : cover)
    : res answered_error bool * cover :=
  match options with
  | [] => (Ok false, c)
  | opt :: options =>
      let c := {| covered := covered c; tried := tried c + 1 |} in
      if maxOptionCombinations <? tried c then (Err TooManyCombinations, c)
      else
        match pick choices {| covered := cover_add opt 1 (covered c); tried := tried c |} with
        | (Ok false, c) => pick_option choices options {| covered := cover_add opt (-1) (covered c); tried := tried c |}
        | result => result
        end
  end.

Lemma pick_cons options choices c : pick (options :: choices) c = pick_option choices options c.
Proof using.
  revert c; cbn [pick]; induction options as [|opt options IH]; intros c; cbn; [done|].
  destruct (maxOptionCombinations <? tried c + 1); [done|].
  destruct (pick choices _) as [[[|]|] c']; [done| |done]; apply IH.
Qed.

End Pick.

Definition coverExactly (ids : list string) (choices : list (list (list string))) : res answered_error bool :=
  fst (pick ids choices {| covered := ∅; tried := 0 |}).

(** ** CheckAnswered *)

Definition sortedIDs (m : answers) : list string :=
  merge_sort string_le (fst <$> filter (fun p => snd p = true) (map_to_list m)).

Section Check.
Context (q : Query).

Fixpoint checkKnown (ids : list string) : res answered_error unit :=
  match ids with
  | [] => Ok tt
  | id :: ids =>
      if existsb (fun cq => String.eqb (cq_ID cq) id) (q_Credentials q) then checkKnown ids else Err (NotOfQuery id)
  end.

Definition checkAllAnswered (answered : answers) : res answered_error unit :=
  check_each (fun _ cq => guard_err (negb (is_answered answered (cq_ID cq))) (NotAnswered (cq_ID cq))) 0 (q_Credentials q).

(** The options of a set the answer includes whole; those they reach. *)
Definition answered_of (answered : answers) (options : list (list string)) : list (list string) :=
  filter (fun option => existsb (fun id => negb (is_answered answered id)) option = false) options.

Fixpoint answeredOptions (answered : answers) (i : Z) (sets : list CredentialSetQuery)
    (choices : list (list (list string))) (reachable : gset string)
    : res answered_error (list (list (list string)) * gset string) :=
  match sets with
  | [] => Ok (choices, reachable)
  | cs :: sets =>
      let whole := answered_of answered (cs_Options cs) in
      let reachable := list_to_set (concat whole) ∪ reachable in
      if negb (IsRequired cs) then answeredOptions answered (i + 1) sets (choices ++ [whole ++ [[]]]) reachable
      else if blen whole =? 0 then Err (SetNotAnswered i)
      else answeredOptions answered (i + 1) sets (choices ++ [whole]) reachable
  end.

Definition CheckAnswered (answered : answers) : res answered_error unit :=
  let ids := sortedIDs answered in
  let? _ := checkKnown ids in
  if blen (q_CredentialSets q) =? 0 then checkAllAnswered answered
  else
    let? (choices, reachable) := answeredOptions answered 0 (q_CredentialSets q) [] ∅ in
    let? _ := check_each (fun _ id => guard_err (bool_decide (id ∉ reachable)) (NotInOption id)) 0 ids in
    match coverExactly ids choices with
    | Err e => Err e
    | Ok false => Err MoreThanOneOption
    | Ok true => Ok tt
    end.

(** ** The contract *)

(** One option of the set, or, for an optional one, none. *)
Definition option_of (cs : CredentialSetQuery) (chosen : list string) : Prop :=
  chosen ∈ cs_Options cs \/ (IsRequired cs = false /\ chosen = []).

Definition answers_query (answered : answers) : Prop :=
  (forall id, is_answered answered id = true -> id ∈ cq_ID <$> q_Credentials q) /\
  match q_CredentialSets q with
  | [] => forall cq, cq ∈ q_Credentials q -> is_answered answered (cq_ID cq) = true
  | sets => exists chosen, Forall2 option_of sets chosen /\
      forall id, is_answered answered id = true <-> id ∈ concat chosen
  end.

(** The combinations of the options an answer includes: every prefix of a
    choice of one per set is tried at most once. *)
Fixpoint combinations (answered : answers) (sets : list CredentialSetQuery) : Z :=
  match sets with
  | [] => 0
  | cs :: sets =>
      (blen (answered_of answered (cs_Options cs)) + (if IsRequired cs then 0 else 1)) * (1 + combinations answered sets)
  end.

End Check.

(** ** The search is right *)

(** How many times an id is in a list. *)
Definition occ (id : string) (l : list string) : Z := Z.of_nat (length (filter (id =.) l)).

Lemma occ_app id l k : occ id (l ++ k) = occ id l + occ id k.
Proof. unfold occ; rewrite filter_app, length_app; lia. Qed.

Lemma occ_pos id l : occ id l <> 0 <-> id ∈ l.
Proof.
  unfold occ; split.
  - destruct (filter (id =.) l) as [|x k] eqn:E; [done|]; intros _.
    assert (Hx : x ∈ filter (id =.) l) by (rewrite E; by left); apply list_elem_of_filter in Hx as [<- ?]; done.
  - intros Hin H0; assert (Hx : id ∈ filter (id =.) l) by by apply list_elem_of_filter.
    destruct (filter (id =.) l); [by apply elem_of_nil in Hx|cbn in H0; lia].
Qed.

Lemma count_add opt n : forall c id, count (cover_add opt n c) id = count c id + n * occ id opt.
Proof.
  unfold cover_add, occ; induction opt as [|x opt IH]; intros c id; cbn [fold_left]; [rewrite filter_nil; cbn; lia|].
  rewrite IH, filter_cons; unfold count at 1; destruct (decide (id = x)) as [<-|Hne].
  - rewrite lookup_insert_eq; cbn [default from_option Datatypes.id length]; lia.
  - rewrite lookup_insert_ne by done; fold (count c id); lia.
Qed.

(** A choice of one option per set that covers every id not counted yet. *)
Definition covering (ids : list string) (choices : list (list (list string))) (c : gmap string Z) : Prop :=
  exists chosen, Forall2 (fun options opt => opt ∈ options) choices chosen /\
    forall id, id ∈ ids -> count c id + occ id (concat chosen) <> 0.

(** The nodes of the search. *)
Fixpoint nodes (choices : list (list (list string))) : Z :=
  match choices with
  | [] => 0
  | options :: choices => blen options * (1 + nodes choices)
  end.

Lemma nodes_nonneg choices : 0 <= nodes choices.
Proof. induction choices as [|o cs IH]; cbn [nodes]; [done|]; pose proof (blen_nonneg o); nia. Qed.

Definition pick_ok (ids : list string) (c : cover) (n : Z) (P : Prop) (out : res answered_error bool * cover) : Prop :=
  match out with
  | (Ok b, c') => (b = true <-> P) /\
      (b = false -> (forall id, count (covered c') id = count (covered c) id) /\ tried c' <= tried c + n)
  | (Err e, _) => e = TooManyCombinations /\ maxOptionCombinations < tried c + n
  end.

Lemma covering_same ids choices c c' :
  (forall id, count c id = count c' id) -> covering ids choices c <-> covering ids choices c'.
Proof. intros Heq; unfold covering; by setoid_rewrite Heq. Qed.

Lemma covering_cons ids opt options choices c :
  (exists chosen, Forall2 (fun options opt => opt ∈ options) ((opt :: options) :: choices) chosen /\
     forall id, id ∈ ids -> count c id + occ id (concat chosen) <> 0) <->
  covering ids choices (cover_add opt 1 c) \/ covering ids (options :: choices) c.
Proof.
  assert (Hc : forall id ch, count (cover_add opt 1 c) id + occ id (concat ch) = count c id + occ id (concat (opt :: ch)))
    by (intros id ch; rewrite count_add; cbn [concat]; rewrite occ_app; lia).
  unfold covering; split.
  - intros (chosen & Hf & Hall); apply Forall2_cons_inv_l in Hf as (o & ch & [->|Ho]%elem_of_cons & Hf & ->).
    + left; exists ch; split; [done|]; intros id Hid; rewrite Hc; by apply Hall.
    + right; exists (o :: ch); split; [by constructor|done].
  - intros [(ch & Hf & Hall)|(ch & Hf & Hall)].
    + exists (opt :: ch); split; [constructor; [by left|done]|]; intros id Hid; rewrite <- Hc; by apply Hall.
    + apply Forall2_cons_inv_l in Hf as (o & ch' & Ho & Hf & ->).
      exists (o :: ch'); split; [constructor; [by right|done]|done].
Qed.

Lemma pick_option_spec ids choices options :
  (forall c, pick_ok ids c (nodes choices) (covering ids choices (covered c)) (pick ids choices c)) ->
  forall c, pick_ok ids c (nodes (options :: choices)) (covering ids (options :: choices) (covered c))
    (pick_option ids choices options c).
Proof.
  intros Hpick; cbn [nodes]; induction options as [|opt options IH]; intros c; cbn [pick_option].
  - cbn [pick_ok]; split; [|intros _; split; [done|unfold blen; cbn [length]; lia]].
    split; [done|intros (ch & Hf & _); apply Forall2_cons_inv_l in Hf as (? & ? & []%elem_of_nil & _)].
  - pose proof (nodes_nonneg choices); pose proof (blen_nonneg options); rewrite blen_cons; cbn [tried covered].
    destruct (Z.ltb_spec maxOptionCombinations (tried c + 1)) as [Hm|Hm]; [cbn; split; [done|nia]|].
    set (c1 := {| covered := cover_add opt 1 (covered c); tried := tried c + 1 |}).
    pose proof (Hpick c1) as H1; destruct (pick ids choices c1) as [[[|]|e] c']; cbn [pick_ok] in H1 |- *.
    + destruct H1 as [H1 _]; split; [|done]; split; [intros _|done]; apply covering_cons; left; by apply H1.
    + destruct H1 as [Hno Hc1]; destruct (Hc1 eq_refl) as [Hcount Htried]; cbn [c1 tried covered] in Hcount, Htried.
      set (c2 := {| covered := cover_add opt (-1) (covered c'); tried := tried c' |}).
      assert (Hback : forall id, count (covered c2) id = count (covered c) id).
      { intros id; cbn [c2 covered]; rewrite count_add, Hcount, count_add; lia. }
      specialize (IH c2); destruct (pick_option ids choices options c2) as [[b|e] c'']; cbn [pick_ok] in IH |- *.
      * destruct IH as [Hb Hf]; split.
        { rewrite Hb, (covering_same _ _ _ (covered c)) by done; unfold covering at 2; rewrite covering_cons.
          split; [by right|intros [Hc|]; [|done]]; apply Hno in Hc; done. }
        intros Hfalse; destruct (Hf Hfalse) as [Hcc Ht]; split; [intros id; by rewrite Hcc|cbn [c2 tried] in Ht; nia].
      * destruct IH as [-> Hlt]; split; [done|cbn [c2 tried] in Hlt; nia].
    + destruct H1 as [-> Hlt]; split; [done|cbn [c1 tried] in Hlt; nia].
Qed.

Lemma pick_spec ids choices : forall c,
  pick_ok ids c (nodes choices) (covering ids choices (covered c)) (pick ids choices c).
Proof.
  induction choices as [|options choices IH]; intros c.
  - cbn [pick pick_ok nodes]; split; [|split; [done|lia]].
    rewrite negb_true_iff; unfold covering.
    assert (He : existsb (fun id => count (covered c) id =? 0) ids = false <-> forall id, id ∈ ids -> count (covered c) id <> 0).
    { split.
      - intros E id Hid H0; enough (existsb (fun id => count (covered c) id =? 0) ids = true) by congruence.
        apply existsb_exists; exists id; split; [by apply list_elem_of_In|by rewrite H0].
      - intros Hall; destruct (existsb _ ids) eqn:E; [|done]; apply existsb_exists in E as (id & Hid & H0).
        apply list_elem_of_In, Hall in Hid; by apply Z.eqb_eq in H0. }
    rewrite He; split.
    + intros Hall; exists []; split; [by apply Forall2_nil|]; intros id Hid; change (occ id (concat [])) with 0; rewrite Z.add_0_r; by apply Hall.
    + intros (ch & ->%Forall2_nil_inv_l & Hall) id Hid; specialize (Hall id Hid); change (occ id (concat [])) with 0 in Hall; by rewrite Z.add_0_r in Hall.
  - rewrite pick_cons; by apply pick_option_spec.
Qed.

(** ** CheckAnswered is right *)

Lemma sortedIDs_spec m id : id ∈ sortedIDs m <-> is_answered m id = true.
Proof.
  unfold sortedIDs, is_answered; rewrite merge_sort_Permutation, list_elem_of_fmap; split.
  - intros ([k b] & -> & [Hb Hin]%list_elem_of_filter); apply elem_of_map_to_list in Hin; cbn in *; by rewrite Hin.
  - destruct (m !! id) as [b|] eqn:E; [|done]; cbn; intros ->; exists (id, true); split; [done|].
    apply list_elem_of_filter; split; [done|by apply elem_of_map_to_list].
Qed.

Lemma checkKnown_ok q ids : checkKnown q ids = Ok tt <-> Forall (.∈ cq_ID <$> q_Credentials q) ids.
Proof.
  induction ids as [|id ids IH]; cbn [checkKnown]; [split; constructor|]; rewrite Forall_cons, <- IH.
  assert (He : existsb (fun cq => String.eqb (cq_ID cq) id) (q_Credentials q) = true <-> id ∈ cq_ID <$> q_Credentials q).
  { rewrite existsb_exists, list_elem_of_fmap; setoid_rewrite <- list_elem_of_In; setoid_rewrite String.eqb_eq; naive_solver. }
  destruct (existsb _ _); naive_solver.
Qed.

Lemma answered_of_spec answered options opt :
  opt ∈ answered_of answered options <-> opt ∈ options /\ forall id, id ∈ opt -> is_answered answered id = true.
Proof.
  unfold answered_of; rewrite list_elem_of_filter.
  assert (He : existsb (fun id => negb (is_answered answered id)) opt = false <-> forall id, id ∈ opt -> is_answered answered id = true).
  { split.
    - intros E id Hid; destruct (is_answered answered id) eqn:Ea; [done|].
      enough (existsb (fun id => negb (is_answered answered id)) opt = true) by congruence.
      apply existsb_exists; exists id; split; [by apply list_elem_of_In|by rewrite Ea].
    - intros Hall; destruct (existsb _ opt) eqn:E; [|done]; apply existsb_exists in E as (id & Hid & Hn).
      apply list_elem_of_In, Hall in Hid; by rewrite Hid in Hn. }
  rewrite He; tauto.
Qed.

(** The choices of the sets: the options answered whole, and none for an
    optional set. *)
Definition choices_of (answered : answers) (cs : CredentialSetQuery) : list (list string) :=
  answered_of answered (cs_Options cs) ++ (if IsRequired cs then [] else [[]]).

Lemma answeredOptions_ok answered sets : forall i choices reachable out,
  answeredOptions answered i sets choices reachable = Ok out <->
  Forall (fun cs => choices_of answered cs <> []) sets /\
  out = (choices ++ (choices_of answered <$> sets),
         list_to_set (concat (concat ((answered_of answered ∘ cs_Options) <$> reverse sets))) ∪ reachable).
Proof.
  induction sets as [|cs sets IH]; intros i choices reachable out; cbn [answeredOptions].
  - rewrite fmap_nil, app_nil_r; cbn; rewrite (left_id_L ∅ (∪)); split; [intros [= <-]; split; [constructor|done]|by intros [_ ->]].
  - rewrite Forall_cons, reverse_cons, fmap_app, !concat_app; cbn [fmap list_fmap concat]; rewrite !app_nil_r, list_to_set_app_L, <- (assoc_L (∪)).
    change ((answered_of answered ∘ cs_Options) cs) with (answered_of answered (cs_Options cs)).
    assert (Hch : choices_of answered cs = answered_of answered (cs_Options cs) ++ (if IsRequired cs then [] else [[]])) by done.
    destruct (IsRequired cs) eqn:Er; cbn [negb].
    + rewrite app_nil_r in Hch; rewrite Hch; destruct (answered_of answered (cs_Options cs)) as [|o os] eqn:Ew; [naive_solver|].
      destruct (Z.eqb_spec (blen (o :: os)) 0) as [E0|_]; [by apply blen_zero in E0|].
      rewrite IH, <- app_assoc; cbn [app]; naive_solver.
    + rewrite IH, <- app_assoc, <- Hch; cbn [app].
      assert (choices_of answered cs <> []) by (rewrite Hch; by destruct (answered_of answered (cs_Options cs))); naive_solver.
Qed.

Lemma nodes_choices answered sets : nodes (choices_of answered <$> sets) = combinations answered sets.
Proof.
  induction sets as [|cs sets IH]; [done|]; rewrite fmap_cons; cbn [nodes combinations]; rewrite IH; f_equal.
  unfold choices_of; rewrite blen_app; by destruct (IsRequired cs).
Qed.

(** What the search finds, as the contract says it. *)
Lemma covering_answers answered sets :
  covering (sortedIDs answered) (choices_of answered <$> sets) ∅ <->
  exists chosen, Forall2 option_of sets chosen /\ forall id, is_answered answered id = true <-> id ∈ concat chosen.
Proof.
  assert (Hopt : forall cs chosen, chosen ∈ choices_of answered cs <->
    option_of cs chosen /\ forall id, id ∈ chosen -> is_answered answered id = true).
  { intros cs chosen; unfold choices_of, option_of; rewrite elem_of_app, answered_of_spec.
    destruct (IsRequired cs); [rewrite elem_of_nil; naive_solver|rewrite list_elem_of_singleton].
    split; [intros [?| ->]; [tauto|split; [by right|by intros ? ?%elem_of_nil]]|intros [[?|[_ ?]] ?]; tauto]. }
  unfold covering; apply exist_proper; intros chosen; rewrite Forall2_fmap_l; split.
  - intros [Hf Hall]; split; [eapply Forall2_impl; [exact Hf|]; intros cs o Ho; by apply Hopt in Ho as [? _]|].
    intros id; split.
    + intros Ha; apply occ_pos; rewrite <- (Z.add_0_l (occ _ _)); apply (Hall id), sortedIDs_spec, Ha.
    + intros (o & Ho & Hid)%list_elem_of_In%in_concat; apply list_elem_of_In, list_elem_of_lookup in Ho as [j Hj].
      apply Forall2_same_length_lookup in Hf as [Hlen Hf]; destruct (lookup_lt_is_Some_2 sets j) as [cs Hcs].
      { rewrite Hlen; by eapply lookup_lt_Some. }
      apply (Hopt cs o); [by eapply Hf|by apply list_elem_of_In].
  - intros [Hf Hall]; split.
    + apply Forall2_same_length_lookup; split; [by eapply Forall2_length|]; intros j cs o Hcs Ho; apply Hopt; split.
      * by eapply Forall2_lookup_lr.
      * intros id Hid; apply Hall, list_elem_of_In, in_concat; exists o; split; [apply list_elem_of_In; by eapply list_elem_of_lookup_2|by apply list_elem_of_In].
    + intros id Hid%sortedIDs_spec; rewrite Z.add_0_l; by apply occ_pos, Hall.
Qed.

Lemma covering_reachable answered sets id :
  covering (sortedIDs answered) (choices_of answered <$> sets) ∅ -> is_answered answered id = true ->
  id ∈ concat (concat ((answered_of answered ∘ cs_Options) <$> reverse sets)).
Proof.
  intros Hc Hid; apply covering_answers in Hc as (chosen & Hf & Hall).
  pose proof (proj1 (Hall id) Hid) as (o & Ho & Hin)%list_elem_of_In%in_concat.
  apply list_elem_of_In, list_elem_of_lookup in Ho as [j Hj].
  apply Forall2_same_length_lookup in Hf as [Hlen Hf]; destruct (lookup_lt_is_Some_2 sets j) as [cs Hcs].
  { rewrite Hlen; by eapply lookup_lt_Some. }
  apply list_elem_of_In, in_concat; exists o; split; [|done]; apply in_concat; exists (answered_of answered (cs_Options cs)); split.
  - apply list_elem_of_In, (list_elem_of_fmap_2 (answered_of answered ∘ cs_Options)), elem_of_reverse; by eapply list_elem_of_lookup_2.
  - apply list_elem_of_In, answered_of_spec; destruct (Hf j cs o Hcs Hj) as [Hopt|[_ ->]]; [|done].
    split; [done|]; intros x Hx; apply Hall, list_elem_of_In, in_concat; exists o; split; [|by apply list_elem_of_In].
    apply list_elem_of_In; by eapply list_elem_of_lookup_2.
Qed.

(** With credential sets, up to the limit: the search and the checks around it. *)
Lemma CheckAnswered_sets q answered : q_CredentialSets q <> [] ->
  CheckAnswered q answered = Ok tt <->
  Forall (.∈ cq_ID <$> q_Credentials q) (sortedIDs answered) /\
  covering (sortedIDs answered) (choices_of answered <$> q_CredentialSets q) ∅ /\
  fst (pick (sortedIDs answered) (choices_of answered <$> q_CredentialSets q) {| covered := ∅; tried := 0 |}) <> Err TooManyCombinations.
Proof.
  intros Hne; unfold CheckAnswered, coverExactly; rewrite seq_ok, checkKnown_ok; apply and_iff_compat_l.
  destruct (Z.eqb_spec (blen (q_CredentialSets q)) 0) as [E0|_]; [by apply blen_zero in E0|].
  rewrite res_bind_ok.
  pose proof (pick_spec (sortedIDs answered) (choices_of answered <$> q_CredentialSets q) {| covered := ∅; tried := 0 |}) as Hpick.
  assert (Hgood : covering (sortedIDs answered) (choices_of answered <$> q_CredentialSets q) ∅ ->
    exists out, answeredOptions answered 0 (q_CredentialSets q) [] ∅ = Ok out /\
      check_each (fun _ id => guard_err (bool_decide (id ∉ out.2)) (NotInOption id)) 0 (sortedIDs answered) = Ok tt).
  { intros Hc; eexists; split.
    - apply answeredOptions_ok; split; [|done].
      destruct Hc as (chosen & Hf & _); rewrite Forall2_fmap_l in Hf; apply Forall_forall; intros cs Hcs.
      apply list_elem_of_lookup in Hcs as [j Hj]; apply Forall2_same_length_lookup in Hf as [Hlen Hf].
      destruct (lookup_lt_is_Some_2 chosen j) as [o Ho]; [rewrite <- Hlen; by eapply lookup_lt_Some|].
      intros E; pose proof (Hf j cs o Hj Ho) as Hin; cbn in Hin; rewrite E in Hin; by apply elem_of_nil in Hin.
    - apply (check_each_ok _ (fun id => is_answered answered id = true)); [|apply Forall_forall; intros id Hid; by apply sortedIDs_spec].
      intros _ id Hid; apply sortedIDs_spec in Hid; rewrite guard_err_ok, bool_decide_eq_false; split; [done|]; intros _ Hn; apply Hn; cbn.
      apply elem_of_union_l, elem_of_list_to_set; by apply covering_reachable. }
  destruct (pick _ _ _) as [r c'] eqn:Ep; cbn [pick_ok fst covered tried] in Hpick |- *; split.
  - intros ([choices reachable] & Ho & Hs); apply answeredOptions_ok in Ho as [_ [= -> ->]]; cbn [app] in Hs.
    apply seq_ok in Hs as [_ Hs]; unfold coverExactly in Hs; rewrite Ep in Hs; destruct r as [[|]|]; [|done..].
    split; [by apply Hpick|done].
  - intros [Hc Hr]; destruct (Hgood Hc) as ([choices reachable] & Ho & Hck); exists (choices, reachable); split; [done|].
    apply seq_ok; split; [done|]; apply answeredOptions_ok in Ho as [_ [= -> ->]]; unfold coverExactly; cbn [app]; rewrite Ep.
    destruct r as [b|e]; [|by destruct Hpick as [-> _]]; by rewrite (proj2 (proj1 Hpick) Hc).
Qed.

Lemma CheckAnswered_plain q answered : q_CredentialSets q = [] ->
  CheckAnswered q answered = Ok tt <-> answers_query q answered.
Proof.
  intros E; unfold CheckAnswered, answers_query, checkAllAnswered; rewrite E, seq_ok, checkKnown_ok; change (blen (@nil CredentialSetQuery) =? 0) with true; cbv iota.
  rewrite (check_each_ok _ (fun cq => is_answered answered (cq_ID cq) = true)) by (intros; by rewrite guard_err_ok, negb_false_iff).
  rewrite !Forall_forall; setoid_rewrite sortedIDs_spec; done.
Qed.

Lemma answers_query_sets q answered : q_CredentialSets q <> [] ->
  answers_query q answered <->
  Forall (.∈ cq_ID <$> q_Credentials q) (sortedIDs answered) /\
  covering (sortedIDs answered) (choices_of answered <$> q_CredentialSets q) ∅.
Proof.
  intros Hne; unfold answers_query; rewrite covering_answers, Forall_forall; setoid_rewrite sortedIDs_spec.
  by destruct (q_CredentialSets q).
Qed.

Lemma CheckAnswered_answers q answered : CheckAnswered q answered = Ok tt -> answers_query q answered.
Proof.
  destruct (decide (q_CredentialSets q = [])) as [E|Hne]; [by rewrite CheckAnswered_plain|].
  rewrite CheckAnswered_sets, answers_query_sets by done; tauto.
Qed.

(** C31: an answer [CheckAnswered] accepts is of the query's credentials, all of
    them without credential sets, and with them exactly one option of each
    required set and at most one of each optional one; and every such answer
    is accepted, unless the options it includes have more combinations than
    the search tries. *)
Theorem CheckAnswered_exact (q : Query) (answered : gmap string bool) :
  (CheckAnswered q answered = Ok tt -> answers_query q answered) /\
  (combinations answered (q_CredentialSets q) <= maxOptionCombinations ->
   answers_query q answered -> CheckAnswered q answered = Ok tt).
Proof.
  destruct (decide (q_CredentialSets q = [])) as [E|Hne]; [rewrite CheckAnswered_plain by done; tauto|].
  rewrite CheckAnswered_sets, answers_query_sets by done; split; [tauto|]; intros Hn [Hk Hc]; split_and!; [done|done|].
  pose proof (pick_spec (sortedIDs answered) (choices_of answered <$> q_CredentialSets q) {| covered := ∅; tried := 0 |}) as Hpick.
  destruct (pick _ _ _) as [[b|e] c']; cbn [pick_ok fst tried] in Hpick |- *; [done|].
  rewrite nodes_choices in Hpick; lia.
Qed.

Definition credential_named (id : string) : CredentialQuery :=
  {| cq_ID := id; cq_Format := formatMdoc; cq_Meta := []; cq_Multiple := false; cq_TrustedAuthorities := [];
     cq_RequireCryptographicHolderBinding := None; cq_Claims := None; cq_ClaimSets := None |}.

(** Two sets that share a credential: [pid] with [nonce] answers both. *)
Lemma CheckAnswered_exact_witness :
  let q := {| q_Credentials := [credential_named "pid"; credential_named "mdl"; credential_named "nonce"];
    q_CredentialSets := [{| cs_Options := [["pid"]; ["mdl"]]; cs_Required := None |};
                         {| cs_Options := [["pid"; "nonce"]]; cs_Required := Some false |}] |}%string in
  let answered := list_to_map [("pid", true); ("nonce", true); ("mdl", false)]%string in
  combinations answered (q_CredentialSets q) <= maxOptionCombinations /\ CheckAnswered q answered = Ok tt.
Proof.
  intros q answered; split; [vm_compute; discriminate|].
  apply (CheckAnswered_exact q answered); [vm_compute; discriminate|].
  apply (CheckAnswered_exact q answered); vm_compute; reflexivity.
Defined.
