(* ===== verification/Prog.v ===== *)
(** * Programs of atomic operations

    A call that shares state with other calls is a tree of operations, each
    atomic: under a mutex, or in a store.  Calls interleave operation by
    operation, and what surrounds them changes in between.  [safe] is a
    rely/guarantee reading of one call, on ghost state of the component's own:
    calls that are each safe keep the invariant together, however they
    interleave ([interleaved]). *)
From S2P Require Import Prelude.

Inductive prog (op : Type -> Type) (A : Type) : Type :=
| Return (a : A)
| Do {X : Type} (o : op X) (k : X -> prog op A).
Arguments Return {op A} a.
Arguments Do {op A X} o k.

Fixpoint pbind {op : Type -> Type} {A B : Type} (p : prog op A) (f : A -> prog op B) : prog op B :=
  match p with
  | Return a => f a
  | Do o k => Do o (fun x => pbind (k x) f)
  end.

Declare Scope prog_scope.
Delimit Scope prog_scope with prog.
Notation "x <~ o ; k" := (Do o (fun x => k)) (at level 100, o at next level, right associativity) : prog_scope.
Notation "x <- p ;; k" := (pbind p (fun x => k)) (at level 100, p at next level, right associativity) : prog_scope.
Notation "'try' x <- p ;; k" := (pbind p (fun r => match r with Err e => Return (Err e) | Ok x => k end))
  (at level 100, x pattern, p at next level, right associativity) : prog_scope.
Notation "'do?' x <~ o ; k" := (Do o (fun r => match r with Err e => Return (Err e) | Ok x => k end))
  (at level 100, x pattern, o at next level, right associativity) : prog_scope.

(** One program alone, its operations given as functions. *)
Fixpoint run {op : Type -> Type} {St A : Type} (exec : forall X, op X -> St -> X * St) (p : prog op A) (s : St) : A * St :=
  match p with
  | Return a => (a, s)
  | Do o k => let '(x, s) := exec _ o s in run exec (k x) s
  end.

(** An operation and what it answered. *)
Inductive event (op : Type -> Type) : Type :=
| Event {X : Type} (o : op X) (x : X).
Arguments Event {op X} o x.

Lemma run_pbind {op : Type -> Type} {St A B : Type} (exec : forall X, op X -> St -> X * St) (p : prog op A) (f : A -> prog op B) s :
  run exec (pbind p f) s = let '(a, s) := run exec p s in run exec (f a) s.
Proof.
  revert s; induction p as [a|X o k IH]; intros s; cbn; [done|]; destruct (exec X o s); apply IH.
Qed.

Section Pool.
Context {op : Type -> Type} {St A : Type}.
(** What an operation may answer and leave, and what may change around. *)
Context (exec : forall X, op X -> St -> X -> St -> Prop) (env : St -> St -> Prop).

Inductive step : list (prog op A) * St -> list (prog op A) * St -> Prop :=
| step_at i ps s X (o : op X) k x s' : ps !! i = Some (Do o k) -> exec X o s x s' -> step (ps, s) (<[i := k x]> ps, s')
| step_around ps s s' : env s s' -> step (ps, s) (ps, s').

Lemma pool_length c c' : rtc step c c' -> length c'.1 = length c.1.
Proof. induction 1 as [|c c1 c' [] _ IH]; [done|..]; cbn [fst] in *; by rewrite IH, ?length_insert. Qed.

(** ** Traces

    A run with what was done in it, the last first: whose operation, and its
    answer. *)
Inductive traced (c : list (prog op A) * St) : list (nat * event op) -> list (prog op A) * St -> Prop :=
| traced_start : traced c [] c
| traced_at tr i ps s X (o : op X) k x s' : traced c tr (ps, s) -> ps !! i = Some (Do o k) -> exec X o s x s' ->
    traced c ((i, Event o x) :: tr) (<[i := k x]> ps, s')
| traced_around tr ps s s' : traced c tr (ps, s) -> env s s' -> traced c tr (ps, s').

Lemma traced_steps c tr c' : traced c tr c' -> rtc step c c'.
Proof using.
  induction 1 as [|tr i ps s X o k x s' _ IH Hi Hx|tr ps s s' _ IH He]; [apply rtc_refl|..]; (eapply rtc_r; [exact IH|]).
  - by apply (step_at i ps s X o k x s').
  - by apply step_around.
Qed.

(** Every run has one. *)
Lemma steps_traced c c' : rtc step c c' -> exists tr, traced c tr c'.
Proof using.
  revert c'; apply rtc_ind_r; [exists []; constructor|]; intros c1 c2 _ Hs [tr Ht].
  inversion Hs as [i ps s X o k x s' Hi Hx|ps s s' He]; subst; eexists; [by eapply traced_at|by eapply traced_around].
Qed.

(** What one call did of it. *)
Definition did (i : nat) (tr : list (nat * event op)) : list (event op) := omap (fun e => if decide (e.1 = i) then Some e.2 else None) tr.

Lemma did_in i e tr : e ∈ did i tr -> (i, e) ∈ tr.
Proof using. intros ([j x] & Hin & He)%list_elem_of_omap; cbn in He; by destruct (decide (j = i)) as [->|]; [injection He as ->|]. Qed.

Lemma did_split i e tr p1 p2 : did i tr = p2 ++ e :: p1 -> exists before after, tr = after ++ (i, e) :: before /\ did i before = p1.
Proof using.
  revert p2; induction tr as [|[j x] tr IH]; intros p2; cbn [did omap list_omap fst snd]; [by destruct p2|].
  destruct (decide (j = i)) as [->|Hne]; [destruct p2 as [|y p2]; intros [= -> E]; [by exists tr, []|]|intros E];
    destruct (IH _ E) as (before & after & -> & Hp); eexists before, (_ :: after); done.
Qed.

(** ** One call *)

(** Ghost states [G]; claims [T], each made by at most one call and kept;
    [trans c], what a call with the claims [c] may make of a ghost state. *)
Context {G T : Type} (Inv : G -> St -> Prop) (trans : list T -> G -> G -> Prop) (taken : G -> list T).

Definition apart (c m : list T) : Prop := forall t, t ∈ c -> t ∈ m -> False.

(** What the other calls may make of it, their claims apart from [m]. *)
Definition rely (m : list T) : G -> G -> Prop := rtc (fun g g' => exists c, apart c m /\ trans c g g').

Fixpoint safe (Q : A -> G -> list T -> Prop) (p : prog op A) (g : G) (mine : list T) : Prop :=
  match p with
  | Return a => Q a g mine
  | Do o k => forall g1 s x s', rely mine g g1 -> Inv g1 s -> exec _ o s x s' ->
      exists g2 new, trans (new ++ mine) g1 g2 /\ Inv g2 s' /\ taken g2 = new ++ taken g1 /\ NoDup (taken g2) /\
        safe Q (k x) g2 (new ++ mine)
  end.

(** ** Any number of calls *)

Context {C : Type} (Q : C -> A -> G -> list T -> Prop).
Context (Henv : forall g s s', Inv g s -> env s s' -> Inv g s').

Definition conforming (c : C) (p : prog op A) (g : G) (mine : list T) : Prop :=
  exists g0, rely mine g0 g /\ safe (Q c) p g0 mine.

Record together (cs : list C) (ps : list (prog op A)) (s : St) (g : G) (claims : list (list T)) : Prop := {
  together_inv : Inv g s;
  together_distinct : NoDup (taken g);
  together_claims : concat claims ⊆+ taken g;
  together_calls : length ps = length cs;
  together_owners : length claims = length cs;
  together_safe : forall i c p mine, cs !! i = Some c -> ps !! i = Some p -> claims !! i = Some mine -> conforming c p g mine
}.

Lemma concat_insert (claims : list (list T)) i mine new :
  claims !! i = Some mine -> concat (<[i := new ++ mine]> claims) ≡ₚ new ++ concat claims.
Proof.
  revert i; induction claims as [|c claims IH]; intros [|i]; cbn; [done|done|intros [= ->]|intros Hi].
  - by rewrite app_assoc.
  - rewrite (IH i Hi); by rewrite !app_assoc, (Permutation_app_comm c).
Qed.

Lemma NoDup_concat_lookup (claims : list (list T)) i j mine mine' : NoDup (concat claims) ->
  claims !! i = Some mine -> claims !! j = Some mine' -> i <> j -> apart mine mine'.
Proof using.
  assert (Hin : forall (l : list (list T)) k m, l !! k = Some m -> forall x, x ∈ m -> x ∈ concat l).
  { induction l as [|c l IH]; intros [|k] m; cbn; [done..|intros [= ->]|intros Hk]; intros x Hx; apply elem_of_app; eauto. }
  revert i j; induction claims as [|c claims IH]; intros [|i] [|j]; cbn; try done; intros (Hc & Hd & Hnd)%NoDup_app.
  - intros [= ->] Hj _ t Ht Ht'; destruct (Hd t Ht); by eapply Hin.
  - intros Hi [= ->] _ t Ht Ht'; destruct (Hd t Ht'); by eapply Hin.
  - intros Hi Hj Hij; eapply (IH i j); [done..|congruence].
Qed.

Lemma together_concat cs ps s g claims : together cs ps s g claims -> NoDup (concat claims).
Proof using.
  intros [_ Hnd Hcl _ _ _]; apply submseteq_Permutation in Hcl as [rest Hp].
  rewrite Hp in Hnd; by apply NoDup_app in Hnd as (? & _ & _).
Qed.

Lemma together_step cs ps s ps' s' g claims : step (ps, s) (ps', s') -> together cs ps s g claims ->
  exists g' claims', together cs ps' s' g' claims'.
Proof using All.
  intros Hstep Ht; pose proof Ht as [HI Hnd Hcl Hlen Hown Hsafe].
  inversion Hstep as [i ps0 s0 X o k x s1 Hi Hx|? ? ? He]; subst.
  - assert (Hlt : (i < length cs)%nat) by (rewrite <- Hlen; by eapply lookup_lt_Some).
    destruct (lookup_lt_is_Some_2 cs i Hlt) as [c Hc]; rewrite <- Hown in Hlt; destruct (lookup_lt_is_Some_2 claims i Hlt) as [mine Hm].
    destruct (Hsafe i c _ mine Hc Hi Hm) as (g0 & Hg0 & Hs); cbn [safe] in Hs.
    destruct (Hs g s x s' Hg0 HI Hx) as (g2 & new & He2 & HI2 & Htk & Hnd2 & Hk).
    assert (Ht2 : concat (<[i := new ++ mine]> claims) ⊆+ taken g2).
    { rewrite (concat_insert claims i mine new Hm), Htk; by apply submseteq_app. }
    exists g2, (<[i := new ++ mine]> claims); split; [done|done|done|by rewrite length_insert|by rewrite length_insert|].
    intros j c' p' mine' Hcj Hpj Hmj; destruct (decide (i = j)) as [<-|Hne].
    + rewrite list_lookup_insert_eq in Hpj by (by eapply lookup_lt_Some); injection Hpj as <-.
      rewrite list_lookup_insert_eq in Hmj by done; injection Hmj as <-; rewrite Hc in Hcj; injection Hcj as <-.
      exists g2; split; [apply rtc_refl|done].
    + assert (Hap : apart (new ++ mine) mine').
      { eapply (NoDup_concat_lookup (<[i := new ++ mine]> claims) i j); [|by apply list_lookup_insert_eq|done|done].
        apply submseteq_Permutation in Ht2 as [rest Hp]; rewrite Hp in Hnd2; by apply NoDup_app in Hnd2 as (? & _ & _). }
      rewrite list_lookup_insert_ne in Hpj by done; rewrite list_lookup_insert_ne in Hmj by done.
      destruct (Hsafe j c' p' mine' Hcj Hpj Hmj) as (g' & Hg' & Hs'); exists g'; split; [|done].
      eapply rtc_r; [exact Hg'|by exists (new ++ mine)].
  - exists g, claims; split; try done; by eapply Henv.
Qed.

(** Calls that are each safe keep the invariant, and each ends as its own
    reading promises, with claims no other has. *)
Lemma interleaved cs ps s ps' s' g : rtc step (ps, s) (ps', s') -> Inv g s -> NoDup (taken g) -> length ps = length cs ->
  (forall i c p, cs !! i = Some c -> ps !! i = Some p -> safe (Q c) p g []) ->
  exists g' claims, together cs ps' s' g' claims.
Proof using All.
  intros Hsteps HI Hnd Hlen Hsafe.
  assert (H0 : exists g' claims, together cs ps s g' claims).
  { exists g, (replicate (length cs) []); split; try done; [|by rewrite length_replicate|].
    - assert (E : concat (replicate (length cs) (@nil T)) = []) by (generalize (length cs); intros n; induction n; done).
      rewrite E; apply submseteq_nil_l.
    - intros i c p mine Hc Hp [-> _]%lookup_replicate; exists g; split; [apply rtc_refl|by eapply Hsafe]. }
  clear HI Hnd Hlen Hsafe; remember (ps, s) as c0; remember (ps', s') as c1.
  revert ps s Heqc0 H0; induction Hsteps as [c|c c2 c' H1 _ IH]; intros ps s -> (g1 & cl & Ht).
  - injection Heqc1 as -> ->; eauto.
  - destruct c2 as [ps2 s2]; eapply IH; [done..|]; by eapply together_step.
Qed.

(** A call that has ended. *)
Lemma together_ended cs ps s g claims i c a : together cs ps s g claims -> cs !! i = Some c -> ps !! i = Some (Return a) ->
  exists g0 mine, rely mine g0 g /\ claims !! i = Some mine /\ Q c a g0 mine.
Proof using.
  intros [_ _ _ Hlen Hown Hsafe] Hc Hp; assert (Hlt := lookup_lt_Some _ _ _ Hc); rewrite <- Hown in Hlt.
  destruct (lookup_lt_is_Some_2 claims i Hlt) as [mine Hm]; destruct (Hsafe i c _ mine Hc Hp Hm) as (g0 & Hg0 & HQ); eauto.
Qed.

(** No two calls make one claim. *)
Lemma together_exclusive cs ps s g claims i j mine mine' t : together cs ps s g claims ->
  claims !! i = Some mine -> claims !! j = Some mine' -> t ∈ mine -> t ∈ mine' -> i = j.
Proof using.
  intros Ht Hi Hj H1 H2; destruct (decide (i = j)) as [|Hne]; [done|].
  destruct (NoDup_concat_lookup claims i j mine mine' (together_concat _ _ _ _ _ Ht) Hi Hj Hne t H1 H2).
Qed.
End Pool.

(** ** What a call does, in order

    Of what the call has done, the last first: every operation with its answer
    as [G] allows after what came before, and what it comes to as [R] has it. *)
Section Along.
Context {op : Type -> Type} (G : list (event op) -> event op -> Prop).

Fixpoint along {A : Type} (R : list (event op) -> A -> Prop) (p : prog op A) (past : list (event op)) : Prop :=
  match p with
  | Return a => R past a
  | Do o k => forall x, G past (Event o x) /\ along R (k x) (Event o x :: past)
  end.

Lemma along_pbind {A B : Type} (R : list (event op) -> A -> Prop) (p : prog op B) (f : B -> prog op A) past :
  along (fun past b => along R (f b) past) p past -> along R (pbind p f) past.
Proof using. revert past; induction p as [b|X o k IH]; intros past; cbn; [done|]; intros Hk x; destruct (Hk x); split; [done|by apply IH]. Qed.

Lemma along_mono {A : Type} (Q R : list (event op) -> A -> Prop) (p : prog op A) past :
  along Q p past -> (forall past a, Q past a -> R past a) -> along R p past.
Proof using.
  intros Hp HQ; revert past Hp; induction p as [b|X o k IH]; intros past; cbn; [apply HQ|]; intros Hk x; destruct (Hk x); split; [done|by apply IH].
Qed.
End Along.

(** Each call of a run does what it may, after what it has done, and those
    that have ended came to what they may come to. *)
Lemma traced_along {op : Type -> Type} {St A : Type} exec env (G : nat -> list (event op) -> event op -> Prop)
    (R : nat -> list (event op) -> A -> Prop) ps (s : St) tr c' :
  traced exec env (ps, s) tr c' -> (forall i p, ps !! i = Some p -> along (G i) (R i) p []) ->
  (forall i p, c'.1 !! i = Some p -> along (G i) (R i) p (did i tr)) /\
  forall i e before after, tr = after ++ (i, e) :: before -> G i (did i before) e.
Proof.
  intros Ht H0; induction Ht as [|tr i ps1 s1 X o k x s2 _ [IH1 IH2] Hi Hx|tr ps1 s1 s2 _ IH He]; cbn [fst] in *; [|..|done].
  - split; [done|]; intros i e before after E; by destruct after.
  - pose proof (IH1 i _ Hi) as Hal; cbn [along] in Hal; destruct (Hal x) as [HG Hk]; split.
    + intros j p Hj; cbn [did omap list_omap fst snd]; destruct (decide (i = j)) as [<-|Hne].
      * rewrite list_lookup_insert_eq in Hj by (by eapply lookup_lt_Some); by injection Hj as <-.
      * rewrite list_lookup_insert_ne in Hj by done; by apply IH1.
    + intros j e before [|[j' e'] after] E; cbn in E; [injection E as <- <- <-; done|injection E as _ _ E; by eapply IH2].
Qed.

(** One call after another. *)
Lemma safe_pbind {op : Type -> Type} {St A B G T : Type} exec (Inv : G -> St -> Prop) trans (taken : G -> list T)
    (Q : A -> G -> list T -> Prop) (p : prog op B) (f : B -> prog op A) g mine :
  safe exec Inv trans taken (fun b g mine => safe exec Inv trans taken Q (f b) g mine) p g mine ->
  safe exec Inv trans taken Q (pbind p f) g mine.
Proof.
  revert g mine; induction p as [b|X o k IH]; intros g mine; cbn [safe pbind]; [done|].
  intros Hs g1 s x s' Hr HI Hx; destruct (Hs g1 s x s' Hr HI Hx) as (g2 & new & ? & ? & ? & ? & Hk).
  exists g2, new; split_and!; try done; by apply IH.
Qed.

Lemma safe_mono {op : Type -> Type} {St A G T : Type} exec (Inv : G -> St -> Prop) trans (taken : G -> list T)
    (Q R : A -> G -> list T -> Prop) (p : prog op A) g mine :
  (forall a g mine, Q a g mine -> R a g mine) -> safe exec Inv trans taken Q p g mine -> safe exec Inv trans taken R p g mine.
Proof.
  intros HQ; revert g mine; induction p as [b|X o k IH]; intros g mine; cbn [safe]; [apply HQ|].
  intros Hs g1 s x s' Hr HI Hx; destruct (Hs g1 s x s' Hr HI Hx) as (g2 & new & ? & ? & ? & ? & Hk).
  exists g2, new; split_and!; try done; by apply IH.
Qed.

(** A call alone, among others that wait. *)
Lemma run_alone {op : Type -> Type} {St A : Type} (exec : forall X, op X -> St -> X * St) env (ps : list (prog op A)) i p s :
  ps !! i = Some p ->
  rtc (step (fun X o s x s' => exec X o s = (x, s')) env) (ps, s) (<[i := Return (run exec p s).1]> ps, (run exec p s).2).
Proof.
  revert ps s; induction p as [a|X o k IH]; intros ps s Hi; cbn [run].
  - rewrite list_insert_id by done; apply rtc_refl.
  - destruct (exec X o s) as [x s1] eqn:Ex; eapply rtc_l; [by apply (step_at _ _ i ps s X o k x s1)|].
    specialize (IH x (<[i := k x]> ps) s1); rewrite list_insert_insert_eq in IH; apply IH.
    apply list_lookup_insert_eq; by eapply lookup_lt_Some.
Qed.

(** Calls one after another. *)
Fixpoint run_list {op : Type -> Type} {St A : Type} (exec : forall X, op X -> St -> X * St) (ps : list (prog op A)) (s : St) : list A * St :=
  match ps with
  | [] => ([], s)
  | p :: ps => let '(a, s) := run exec p s in let '(l, s) := run_list exec ps s in (a :: l, s)
  end.

Lemma run_list_steps {op : Type -> Type} {St A : Type} (exec : forall X, op X -> St -> X * St) env (ps : list (prog op A)) s :
  rtc (step (fun X o s x s' => exec X o s = (x, s')) env) (ps, s) (map Return (run_list exec ps s).1, (run_list exec ps s).2).
Proof.
  assert (Hgen : forall pre, rtc (step (fun X o s x s' => exec X o s = (x, s')) env) (pre ++ ps, s)
    (pre ++ map Return (run_list exec ps s).1, (run_list exec ps s).2)); [|apply (Hgen [])].
  revert s; induction ps as [|p ps IH]; intros s pre; cbn [run_list map]; [apply rtc_refl|].
  etransitivity; [apply (run_alone exec env _ (length pre) p s), list_lookup_middle; done|].
  rewrite insert_app_r_alt, Nat.sub_diag by done; cbn [insert list_insert].
  destruct (run exec p s) as [a s1]; specialize (IH s1 (pre ++ [Return a])); destruct (run_list exec ps s1) as [l s2].
  cbn [fst snd map] in *; by rewrite <- !app_assoc in IH.
Qed.
