(* ===== verification/Text.v ===== *)
(** * Strings as bytes

    What the components use of Go's strings: a string is its bytes, and
    package strings splits, joins and cuts it. *)
From S2P Require Import Prelude B64Url Json DcqlQuery DcqlValues.
From Stdlib Require Import Ascii.
#[local] Open Scope Z_scope.

(** ** Bytes of a string *)

Lemma code_byte c : byte_ok (code c).
Proof. unfold code, byte_ok; pose proof (N_ascii_bounded c); lia. Qed.

Lemma string_bytes_ok s : bytes_ok (string_bytes s).
Proof. unfold string_bytes, bytes_ok; apply Forall_fmap, Forall_true; intros; apply code_byte. Qed.

Lemma string_of_bytes b : bytes_ok b -> string_bytes (bytes_string b) = b.
Proof.
  intros Hb; unfold string_bytes, bytes_string; rewrite String.list_ascii_of_string_of_list_ascii, map_map.
  induction Hb as [|x b Hx _ IH]; cbn [map]; [done|]; rewrite IH; f_equal.
  unfold code, byte_ok in *; rewrite N_ascii_embedding by lia; lia.
Qed.

Lemma bytes_of_string s : bytes_string (string_bytes s) = s.
Proof.
  unfold string_bytes, bytes_string; rewrite map_map.
  rewrite (map_ext _ (fun c => c)), map_id; [apply String.string_of_list_ascii_of_string|].
  intros c; unfold code; rewrite N2Z.id; apply ascii_N_embedding.
Qed.

#[export] Instance string_bytes_inj : Inj (=) (=) string_bytes.
Proof. intros s t H; by rewrite <- (bytes_of_string s), H, bytes_of_string. Qed.

Lemma bytes_string_app a b : bytes_string (a ++ b) = (bytes_string a ++ bytes_string b)%string.
Proof. unfold bytes_string; rewrite map_app; induction a as [|x a IH]; cbn; [done|by rewrite IH]. Qed.

Definition slen (s : string) : Z := Z.of_nat (String.length s).

(** ** strings.Split and strings.Cut, at one byte *)

Fixpoint absent (sep : ascii) (s : string) : bool :=
  match s with
  | EmptyString => true
  | String c s => negb (Ascii.eqb c sep) && absent sep s
  end.

Fixpoint split_on (sep : ascii) (s : string) : list string :=
  match s with
  | EmptyString => [EmptyString]
  | String c s =>
      if Ascii.eqb c sep then EmptyString :: split_on sep s
      else match split_on sep s with
      | [] => [String c EmptyString]
      | part :: parts => String c part :: parts
      end
  end.

(** strings.Join. *)
Fixpoint join (sep : string) (parts : list string) : string :=
  match parts with
  | [] => EmptyString
  | [part] => part
  | part :: parts => (part ++ sep ++ join sep parts)%string
  end.

Fixpoint cut (sep : ascii) (s : string) : option (string * string) :=
  match s with
  | EmptyString => None
  | String c s =>
      if Ascii.eqb c sep then Some (EmptyString, s)
      else match cut sep s with
      | Some (before, after) => Some (String c before, after)
      | None => None
      end
  end.

Definition char_string (c : ascii) : string := String c EmptyString.

(** stdpp keeps [++] on strings from reducing. *)
Lemma append_nil t : (EmptyString ++ t)%string = t.
Proof. done. Qed.
Lemma append_cons c s t : (String c s ++ t)%string = String c (s ++ t).
Proof. done. Qed.

Lemma append_assoc s t u : (s ++ t ++ u)%string = ((s ++ t) ++ u)%string.
Proof. induction s as [|c s IH]; [done|]; by rewrite !append_cons, IH. Qed.
Lemma append_empty s : (s ++ EmptyString)%string = s.
Proof. induction s as [|c s IH]; [done|]; by rewrite append_cons, IH. Qed.
Lemma slen_app s t : slen (s ++ t) = slen s + slen t.
Proof. unfold slen; induction s as [|c s IH]; [done|]; rewrite append_cons; cbn [String.length]; lia. Qed.

Lemma absent_app sep s t : absent sep (s ++ t) = absent sep s && absent sep t.
Proof. induction s as [|c s IH]; [done|]; rewrite append_cons; cbn; by rewrite IH, andb_assoc. Qed.

Lemma split_on_absent sep s : absent sep s = true -> split_on sep s = [s].
Proof.
  induction s as [|c s IH]; cbn; [done|]; intros [Hc Hs]%andb_true_iff.
  apply negb_true_iff in Hc; rewrite Hc; by rewrite (IH Hs).
Qed.

Lemma split_on_cons sep part s : absent sep part = true ->
  split_on sep (part ++ String sep s)%string = part :: split_on sep s.
Proof.
  induction part as [|c part IH]; rewrite ?append_nil, ?append_cons; cbn; [by rewrite Ascii.eqb_refl|].
  intros [Hc Hs]%andb_true_iff.
  apply negb_true_iff in Hc; rewrite Hc; by rewrite (IH Hs).
Qed.

(** Parts that do not hold the separator are what splitting their join gives. *)
Lemma split_join sep parts : parts <> [] -> Forall (fun p => absent sep p = true) parts ->
  split_on sep (join (char_string sep) parts) = parts.
Proof.
  intros Hne Hp; destruct parts as [|part parts]; [done|]; clear Hne; revert part Hp.
  induction parts as [|next parts IH]; intros part [Hpart Hparts]%Forall_cons; [by apply split_on_absent|].
  change (join (char_string sep) (part :: next :: parts)) with (part ++ String sep (join (char_string sep) (next :: parts)))%string.
  rewrite split_on_cons by done; by rewrite (IH next).
Qed.

Lemma split_on_ne sep s : split_on sep s <> [].
Proof. induction s as [|c s IH]; cbn; [done|]; destruct (Ascii.eqb c sep); [done|]; by destruct (split_on sep s). Qed.

Lemma join_cons sep a b parts : join sep (a :: b :: parts) = (a ++ sep ++ join sep (b :: parts))%string.
Proof. done. Qed.

Lemma join_split sep s : join (char_string sep) (split_on sep s) = s.
Proof.
  induction s as [|c s IH]; [done|]; cbn [split_on]; pose proof (split_on_ne sep s) as Hne.
  destruct (split_on sep s) as [|p ps] eqn:E; [done|]; destruct (Ascii.eqb_spec c sep) as [->|].
  - by rewrite join_cons, append_nil, IH.
  - destruct ps as [|q ps]; [by rewrite <- IH|]; rewrite join_cons in *; by rewrite append_cons, IH.
Qed.

Lemma split_on_parts sep s : Forall (fun p => absent sep p = true) (split_on sep s).
Proof.
  induction s as [|c s IH]; cbn; [by repeat constructor|]; destruct (Ascii.eqb c sep) eqn:E.
  - by constructor.
  - destruct (split_on sep s) as [|p ps]; [by constructor; [cbn; rewrite E|]|].
    apply Forall_cons in IH as [? ?]; constructor; [cbn; by rewrite E|done].
Qed.

Lemma cut_some sep s before after : cut sep s = Some (before, after) <->
  s = (before ++ String sep after)%string /\ absent sep before = true.
Proof.
  revert before after; induction s as [|c s IH]; intros before after; cbn [cut].
  - split; [done|]; intros [E _]; by destruct before.
  - destruct (Ascii.eqb_spec c sep) as [->|Hc].
    + split; [intros [= <- <-]; done|]; intros [E Ha]; destruct before as [|d before]; cbn in *; [by injection E as <-|].
      injection E as <- E; by rewrite Ascii.eqb_refl in Ha.
    + destruct (cut sep s) as [[b a]|].
      * destruct (proj1 (IH b a) eq_refl) as [-> Hb]; split.
        { intros [= <- <-]; split; [done|]; cbn; rewrite Hb, andb_true_r; by apply negb_true_iff, Ascii.eqb_neq. }
        intros [E Ha]; destruct before as [|d before]; cbn in *; [by injection E as ->|].
        injection E as <- E; apply andb_true_iff in Ha as [_ Ha].
        assert (E' : Some (b, a) = Some (before, after)) by (apply IH; done).
        by injection E' as -> ->.
      * split; [done|]; intros [E Ha]; destruct before as [|d before]; cbn in *; [by injection E as ->|].
        injection E as <- ->; apply andb_true_iff in Ha as [_ Ha].
        by assert (None = Some (before, after)) by (apply IH; done).
Qed.

(** What is before and after the last [sep]: [strings.LastIndexByte]. *)
Fixpoint last_cut (sep : ascii) (s : string) : option (string * string) :=
  match s with
  | EmptyString => None
  | String c s' =>
      match last_cut sep s' with
      | Some (before, after) => Some (String c before, after)
      | None => if Ascii.eqb c sep then Some (EmptyString, s') else None
      end
  end.

Lemma last_cut_none sep s : last_cut sep s = None <-> absent sep s = true.
Proof.
  induction s as [|c s IH]; cbn; [done|]; destruct (last_cut sep s) as [[b a]|]; [|rewrite (proj1 IH eq_refl); by destruct (Ascii.eqb c sep)].
  split; [done|]; intros [_ Ha]%andb_true_iff; by apply IH in Ha.
Qed.

Lemma last_cut_some sep s before after : last_cut sep s = Some (before, after) <->
  s = (before ++ String sep after)%string /\ absent sep after = true.
Proof.
  revert before after; induction s as [|c s IH]; intros before after; cbn [last_cut].
  - split; [done|]; intros [E _]; by destruct before.
  - destruct (last_cut sep s) as [[b a]|] eqn:El.
    + split.
      * intros [= <- <-]; destruct (proj1 (IH b a) eq_refl) as [-> Ha]; by split.
      * intros [E Ha]; destruct before as [|c' before]; cbn in E; injection E as -> E.
        -- subst s; apply last_cut_none in Ha; congruence.
        -- assert (Hb : Some (b, a) = Some (before, after)) by (by apply IH); by injection Hb as -> ->.
    + apply last_cut_none in El; destruct (Ascii.eqb_spec c sep) as [->|Hc]; split.
      * intros [= <- <-]; by split.
      * intros [E Ha]; destruct before as [|c' before]; cbn in E; [by injection E as ->|injection E as E1 E; exfalso].
        subst s; rewrite absent_app in El; apply andb_true_iff in El as [_ El]; cbn in El; by rewrite Ascii.eqb_refl in El.
      * done.
      * intros [E Ha]; destruct before as [|c' before]; cbn in E; injection E as E1 E; [done|exfalso].
        subst s; rewrite absent_app in El; apply andb_true_iff in El as [_ El]; cbn in El; by rewrite Ascii.eqb_refl in El.
Qed.

(** ** Base64url text *)

Lemma absent_b64 sep b : (forall c, isAlphabet c = true -> c <> code sep) -> absent sep (bytes_string (EncodeToString b)) = true.
Proof.
  intros Hsep; unfold EncodeToString; pose proof (encode_quanta_alphabet b) as Hf.
  induction Hf as [|c l Hc _ IH]; [done|]; cbn; fold (bytes_string l); rewrite IH, andb_true_r.
  apply negb_true_iff, Ascii.eqb_neq; intros E; apply (Hsep c Hc).
  rewrite <- E; unfold code.
  assert (0 <= c < 256) by (unfold isAlphabet in Hc; bool_prop; destruct_or?; bool_prop; lia).
  rewrite N_ascii_embedding by lia; lia.
Qed.

(** ** Runes

    Ranging over a string: each rune with the bytes that encode it, U+FFFD for
    a byte that starts none. *)

Definition cont (b : Z) : bool := (128 <=? b) && (b <=? 191).

Definition rune2 (b0 b1 : Z) : Z := (b0 - 192) * 64 + (b1 - 128).
Definition rune3 (b0 b1 b2 : Z) : Z := (b0 - 224) * 4096 + (b1 - 128) * 64 + (b2 - 128).
Definition rune4 (b0 b1 b2 b3 : Z) : Z := (b0 - 240) * 262144 + (b1 - 128) * 4096 + (b2 - 128) * 64 + (b3 - 128).

(** The length of the encoding the bytes start with, and its rune. *)
Definition decode_rune (s : bytes) : option (Z * nat) :=
  match s with
  | b0 :: rest =>
      if b0 <? 128 then Some (b0, 1%nat)
      else match rest with
      | b1 :: rest =>
          if (194 <=? b0) && (b0 <=? 223) && cont b1 then Some (rune2 b0 b1, 2%nat)
          else match rest with
          | b2 :: rest =>
              if (224 <=? b0) && (b0 <=? 239) && cont b1 && cont b2 && (2048 <=? rune3 b0 b1 b2) &&
                 negb ((55296 <=? rune3 b0 b1 b2) && (rune3 b0 b1 b2 <=? 57343)) then Some (rune3 b0 b1 b2, 3%nat)
              else match rest with
              | b3 :: _ =>
                  if (240 <=? b0) && (b0 <=? 244) && cont b1 && cont b2 && cont b3 && (65536 <=? rune4 b0 b1 b2 b3) &&
                     (rune4 b0 b1 b2 b3 <=? 1114111) then Some (rune4 b0 b1 b2 b3, 4%nat)
                  else None
              | [] => None
              end
          | [] => None
          end
      | [] => None
      end
  | [] => None
  end.

Definition replacement : Z * bytes := (65533, [239; 191; 189]).

(** With at least as many steps as bytes. *)
Fixpoint runes_loop (fuel : nat) (s : bytes) : list (Z * bytes) :=
  match fuel, s with
  | S fuel, _ :: rest =>
      match decode_rune s with
      | Some (r, n) => (r, take n s) :: runes_loop fuel (drop n s)
      | None => replacement :: runes_loop fuel rest
      end
  | _, _ => []
  end.
Definition runes (s : string) : list (Z * bytes) := let b := string_bytes s in runes_loop (length b) b.
