(* ===== verification/WebOrigin.v ===== *)
(** * Web origins: [internal/weborigin]

    What an origin the Digital Credentials API gives a response is spelled
    like, and how a configured one is normalized to it.  url.Parse and
    net.ParseIP are parameters.  The theorem: what a configuration keeps of its
    origins is what a browser spells. *)
From stdpp Require Import pretty.
From S2P Require Import Prelude DcqlQuery Text.
From Stdlib Require Import Ascii.
#[local] Open Scope Z_scope.

(** A url.URL, as far as the package looks at it. *)
Record URL : Type := {
  Scheme : string;
  Host : string;
  has_User : bool;
  RawQuery : string;
  ForceQuery : bool;
  url_Path : string;
  Opaque : string
}.

Inductive origin_error : Type :=
| OriginURL
| OriginHost
| OriginExtra (what : string)
| OriginSpelling
| OriginNotHTTPS.

Definition ends_with (suffix s : string) : bool :=
  (slen suffix <=? slen s) && String.eqb (String.substring (String.length s - String.length suffix) (String.length suffix) s) suffix.
Definition trim_suffix (suffix s : string) : string :=
  if ends_with suffix s then String.substring 0 (String.length s - String.length suffix) s else s.

Fixpoint all_ascii (P : Z -> bool) (s : string) : bool :=
  match s with EmptyString => true | String c s => P (code c) && all_ascii P s end.

Definition is_upper (c : Z) : bool := (65 <=? c) && (c <=? 90).

(** What strings.ToLower makes of ASCII text. *)
Fixpoint ToLower (s : string) : string :=
  match s with
  | EmptyString => EmptyString
  | String c s => String (if is_upper (code c) then ascii_of_N (Z.to_N (code c + 32)) else c) (ToLower s)
  end.

(** URL.Port and URL.Hostname: the host cut at its last colon, where a port or nothing follows. *)
Definition valid_port (s : string) : bool := all_ascii (fun c => (48 <=? c) && (c <=? 57)) s.

Definition splitHostPort (host : string) : string * string :=
  match last_cut ":" host with
  | Some (before, port) => if valid_port port then (before, port) else (host, EmptyString)
  | None => (host, EmptyString)
  end.

Definition unbracketed (host : string) : string :=
  if String.prefix "[" host && ends_with "]" host then String.substring 1 (String.length host - 2) host else host.

Definition Port (u : URL) : string := snd (splitHostPort (Host u)).
Definition Hostname (u : URL) : string := unbracketed (fst (splitHostPort (Host u))).

Section WebOrigin.
(** [ip_loopback]: whether net.ParseIP gives an address, and it is a loopback one. *)
Context (url_Parse : string -> option URL) (strings_ToLower : string -> string) (ip_loopback : string -> bool).

Definition Extra (origin : string) (u : URL) : string :=
  if negb (absent "#" origin) then "a fragment"
  else if has_User u then "user info"
  else if negb (String.eqb (RawQuery u) "") || ForceQuery u then "a query"
  else if String.eqb (url_Path u) "/" then "a trailing slash"
  else if negb (String.eqb (url_Path u) "") || negb (String.eqb (Opaque u) "") then "a path"
  else EmptyString.

(** Unless the scheme has none, its default port. *)
Definition defaultPort (scheme : string) : string :=
  if String.eqb scheme "http" then "80" else if String.eqb scheme "https" then "443" else EmptyString.

Definition isCanonical (origin : string) (u : URL) : bool :=
  String.prefix (Scheme u ++ "://") origin &&
  all_ascii (fun c => negb ((128 <=? c) || is_upper c)) (Host u) &&
  negb (ends_with ":" (Host u)) &&
  (let port := Port u in
   if String.eqb port "" then true
   else match ParseInt64 port with
   | None => false
   | Some n => String.eqb (pretty n) port && negb (String.eqb port (defaultPort (Scheme u)))
   end).

Definition Check (origin : string) : res origin_error unit :=
  match url_Parse origin with
  | None => Err OriginURL
  | Some u =>
      if String.eqb (Scheme u) "" || String.eqb (Host u) "" then Err OriginHost
      else if negb (String.eqb (Extra origin u) "") then Err (OriginExtra (Extra origin u))
      else if negb (isCanonical origin u) then Err OriginSpelling
      else Ok tt
  end.

Definition Normalize (origin : string) : string :=
  match url_Parse origin with
  | None => origin
  | Some u =>
      if String.eqb (Scheme u) "" || String.eqb (Host u) "" ||
         negb (String.eqb (Extra origin u) "") && negb (String.eqb (Extra origin u) "a trailing slash")
      then origin
      else
        let host := strings_ToLower (Host u) in
        let host :=
          if String.eqb (Scheme u) "https" then trim_suffix ":443" host
          else if String.eqb (Scheme u) "http" then trim_suffix ":80" host
          else host in
        (Scheme u ++ "://" ++ host)%string
  end.

Definition IsLoopback (host : string) : bool := String.eqb host "localhost" || ip_loopback host.

Definition CheckPage (origin : string) (allowLoopbackHTTP : bool) : res origin_error unit :=
  let? _ := Check origin in
  match url_Parse origin with
  | None => Err OriginURL
  | Some u =>
      if String.eqb (Scheme u) "https" then Ok tt
      else if String.eqb (Scheme u) "http" && allowLoopbackHTTP && IsLoopback (Hostname u) then Ok tt
      else Err OriginNotHTTPS
  end.

Fixpoint NormalizeAll (origins : list string) (allowLoopbackHTTP : bool) : res origin_error (list string) :=
  match origins with
  | [] => Ok []
  | origin :: origins =>
      let normalized := Normalize origin in
      let? _ := CheckPage normalized allowLoopbackHTTP in
      let? out := NormalizeAll origins allowLoopbackHTTP in
      Ok (normalized :: out)
  end.

(** ** What is spelled as a browser spells it *)

Lemma ToLower_same s : all_ascii (fun c => negb ((128 <=? c) || is_upper c)) s = true -> ToLower s = s.
Proof using.
  induction s as [|c s IH]; cbn; [done|]; rewrite andb_true_iff, negb_true_iff, orb_false_iff; intros [[_ ->] Hs]; by rewrite IH.
Qed.

Lemma all_ascii_impl (P Q : Z -> bool) s : (forall c, P c = true -> Q c = true) -> all_ascii P s = true -> all_ascii Q s = true.
Proof using. intros HPQ; induction s as [|c s IH]; cbn; [done|]; rewrite !andb_true_iff; intros [? ?]; split; auto. Qed.

Lemma substring_split n : forall s, (n <= String.length s)%nat -> s = (String.substring 0 n s ++ String.substring n (String.length s - n) s)%string.
Proof using.
  induction n as [|n IH]; intros s Hn.
  - rewrite Nat.sub_0_r; destruct s as [|c s]; [done|]; change (String.substring 0 0 _) with EmptyString; rewrite append_nil; clear Hn.
    induction (String c s) as [|c' s' IH]; cbn; [done|]; by f_equal.
  - destruct s as [|c s]; cbn in Hn |- *; [lia|]; rewrite append_cons; f_equal; apply IH; lia.
Qed.

Lemma ends_with_app suffix s : ends_with suffix s = true -> exists before, s = (before ++ suffix)%string.
Proof using.
  unfold ends_with, slen; intros [Hl%Z.leb_le E%String.eqb_eq]%andb_true_iff; eexists.
  rewrite (substring_split (String.length s - String.length suffix) s) at 1 by lia.
  replace (String.length s - (String.length s - String.length suffix))%nat with (String.length suffix) by lia; by rewrite E.
Qed.

Lemma trim_port scheme port host : defaultPort scheme = port -> port <> EmptyString -> ParseInt64 port <> None ->
  valid_port port = true -> absent ":" port = true ->
  (let p := snd (splitHostPort host) in if String.eqb p "" then true else match ParseInt64 p with
   | None => false | Some n => String.eqb (pretty n) p && negb (String.eqb p (defaultPort scheme)) end) = true ->
  trim_suffix (String ":" port) host = host.
Proof using.
  intros Hd Hne Hi Hv Ha Hc; unfold trim_suffix; destruct (ends_with _ host) eqn:E; [|done]; exfalso; apply ends_with_app in E as [before ->].
  unfold splitHostPort in Hc; rewrite (proj2 (last_cut_some ":" _ before port)) in Hc by done; rewrite Hv in Hc; cbn [snd] in Hc.
  destruct (String.eqb_spec port ""); [done|]; destruct (ParseInt64 port); [|done]; by rewrite Hd, String.eqb_refl, andb_false_r in Hc.
Qed.

End WebOrigin.

(** ** Ports *)

Lemma decimal_from l a : fold_left (fun n c => n * 10 + (code c - 48)) l a = a * 10 ^ blen l + decimal l.
Proof using.
  unfold decimal; revert a; induction l as [|c l IH]; intros a; cbn [fold_left]; [unfold blen; cbn; lia|].
  rewrite IH, (IH (0 * 10 + _)), blen_cons, Z.pow_add_r by (try apply blen_nonneg; lia); lia.
Qed.

Lemma pretty_char x : (x < 10)%N -> code (pretty_N_char x) = 48 + Z.of_N x.
Proof using.
  intros Hx; assert (x = 0 \/ x = 1 \/ x = 2 \/ x = 3 \/ x = 4 \/ x = 5 \/ x = 6 \/ x = 7 \/ x = 8 \/ x = 9)%N as Hd by lia.
  by repeat destruct Hd as [->|Hd]; try subst x.
Qed.

Lemma pretty_digits x : forall s, forallb is_digit (String.list_ascii_of_string s) = true ->
  forallb is_digit (String.list_ascii_of_string (pretty_N_go x s)) = true /\
  decimal (String.list_ascii_of_string (pretty_N_go x s)) = Z.of_N x * 10 ^ blen (String.list_ascii_of_string s) + decimal (String.list_ascii_of_string s).
Proof using.
  induction (N.lt_wf_0 x) as [x _ IH]; intros s Hs; destruct (N.eq_dec x 0) as [->|Hx]; [rewrite pretty_N_go_0; split; [done|lia]|].
  rewrite pretty_N_go_step by lia; assert (Hm : (x mod 10 < 10)%N) by (by apply N.mod_lt).
  destruct (IH (x / 10)%N) with (s := String (pretty_N_char (x mod 10)) s) as [Hd He]; [apply N.div_lt; lia| |split; [exact Hd|]].
  - cbn; rewrite Hs; unfold is_digit; rewrite pretty_char by done; clear IH; revert Hm; generalize (x mod 10)%N; intros m Hm; lia.
  - rewrite He; cbn [String.list_ascii_of_string]; unfold decimal at 1; cbn [fold_left]; rewrite decimal_from, pretty_char, blen_cons, Z.pow_add_r by (try apply blen_nonneg; done || lia).
    rewrite (N.div_mod x 10) at 3 by done; rewrite N2Z.inj_add, N2Z.inj_mul; nia.
Qed.

(** strconv.Atoi reads what strconv.Itoa writes. *)
Lemma ParseInt64_pretty n : 0 <= n < 2 ^ 63 -> ParseInt64 (pretty n) = Some n.
Proof using.
  intros Hn; destruct n as [|x|]; [done| |lia]; unfold pretty, pretty_Z, pretty, pretty_positive, pretty, pretty_N.
  rewrite decide_False by done; destruct (pretty_digits (Npos x) "" eq_refl) as [Hd He].
  change (Z.of_N (N.pos x) * 10 ^ blen (String.list_ascii_of_string "") + decimal (String.list_ascii_of_string "")) with (Z.pos x * 1 + 0) in He.
  unfold ParseInt64; destruct (String.list_ascii_of_string (pretty_N_go _ _)) as [|c l] eqn:El; [cbn in He; lia|].
  assert (Hc : is_digit c = true) by (by apply andb_true_iff in Hd as [? _]); unfold is_digit in Hc.
  destruct (Z.eqb_spec (code c) 43), (Z.eqb_spec (code c) 45); try lia; unfold ParseUint; rewrite Hd, He.
  destruct (Z.leb_spec (2 ^ 63) (Z.pos x * 1 + 0)); [lia|]; f_equal; lia.
Qed.

Definition digits (s : string) : bool := all_ascii (fun c => (48 <=? c) && (c <=? 57)) s.

Lemma digits_no_colon s : digits s = true -> absent ":" s = true.
Proof using.
  unfold digits; induction s as [|c s IH]; [done|]; cbn [all_ascii absent]; intros [Hc Hs]%andb_true_iff; rewrite IH by done.
  destruct (Ascii.eqb_spec c ":") as [->|]; [done|done].
Qed.

(** A host's port, where it has one, is a number as Itoa writes it, and not its scheme's own. *)
Definition port_spelled (scheme host : string) : Prop :=
  forall name port, host = (name ++ String ":" port)%string -> digits port = true ->
  (exists n, 0 <= n < 2 ^ 63 /\ port = pretty n) /\ (scheme = "https"%string -> port <> "443"%string) /\ (scheme = "http"%string -> port <> "80"%string).

Lemma ends_with_of before suffix : ends_with suffix (before ++ suffix) = true.
Proof using.
  unfold ends_with, slen; rewrite andb_true_iff, Z.leb_le, String.eqb_eq.
  assert (Hl : forall a b, String.length (a ++ b) = (String.length a + String.length b)%nat) by (induction a as [|c a IH]; intros b; [done|]; rewrite append_cons; cbn; by rewrite IH).
  rewrite Hl; split; [lia|]; replace (String.length before + String.length suffix - String.length suffix)%nat with (String.length before) by lia.
  rewrite <- (substring_app before suffix) at 3; rewrite Hl; do 2 f_equal; lia.
Qed.

Lemma default_port scheme port : port <> EmptyString -> String.eqb port (defaultPort scheme) = false <->
  (scheme = "https"%string -> port <> "443"%string) /\ (scheme = "http"%string -> port <> "80"%string).
Proof using.
  intros Hne; unfold defaultPort; destruct (String.eqb_spec scheme "http") as [->|]; [|destruct (String.eqb_spec scheme "https") as [->|]]; rewrite String.eqb_neq; naive_solver.
Qed.

(** The port a host ends in. *)
Lemma split_port host name port : host = (name ++ String ":" port)%string -> digits port = true -> splitHostPort host = (name, port).
Proof using.
  intros -> Hd; unfold splitHostPort; rewrite (proj2 (last_cut_some ":" _ name port)) by (split; [done|by apply digits_no_colon]).
  by change (valid_port port) with (digits port); rewrite Hd.
Qed.

Lemma port_of_host host : snd (splitHostPort host) <> EmptyString ->
  digits (snd (splitHostPort host)) = true /\ host = (fst (splitHostPort host) ++ String ":" (snd (splitHostPort host)))%string.
Proof using.
  unfold splitHostPort; destruct (last_cut ":" host) as [[name port]|] eqn:El; [|done]; apply last_cut_some in El as [-> _].
  destruct (valid_port port) eqn:Ev; [done|done].
Qed.

Lemma port_canonical scheme host :
  negb (ends_with ":" host) &&
  (let port := snd (splitHostPort host) in if String.eqb port "" then true else match ParseInt64 port with
   | None => false | Some n => String.eqb (pretty n) port && negb (String.eqb port (defaultPort scheme)) end) = true <-> port_spelled scheme host.
Proof using.
  unfold port_spelled; split.
  - intros [He Hp]%andb_true_iff name prt -> Hd; apply negb_true_iff in He; cbv zeta in Hp; rewrite (split_port _ name prt) in Hp by done; cbn [snd] in Hp.
    destruct (String.eqb_spec prt "") as [Hz|Hne]; [by rewrite Hz, ends_with_of in He|]; destruct (ParseInt64 prt) as [n|] eqn:En; [|done].
    apply andb_true_iff in Hp as [Hn%String.eqb_eq Hdef%negb_true_iff]; split; [|by apply default_port].
    exists n; split; [|done]; assert (0 <= n); [|split; [done|]].
    + destruct n as [|n|n]; [done|done|]; exfalso; rewrite <- Hn in Hd; by cbn in Hd.
    + destruct prt as [|c prt]; [done|]; cbn [digits all_ascii] in Hd; unfold ParseInt64 in En; cbn [String.list_ascii_of_string] in En.
      apply andb_true_iff in Hd as [Hc _]; destruct (Z.eqb_spec (code c) 43), (Z.eqb_spec (code c) 45); try lia.
      destruct (ParseUint _) as [un|]; [|done]; destruct (Z.leb_spec (2 ^ 63) un); [done|]; injection En as ->; done.
  - intros Hs; apply andb_true_iff; split.
    + apply negb_true_iff; destruct (ends_with ":" host) eqn:E; [|done]; apply ends_with_app in E as [name ->].
      destruct (Hs name EmptyString eq_refl eq_refl) as [(n & Hn & Hp) _]; apply (f_equal ParseInt64) in Hp; by rewrite ParseInt64_pretty in Hp.
    + cbv zeta; destruct (String.eqb_spec (snd (splitHostPort host)) "") as [|Hne]; [done|]; destruct (port_of_host _ Hne) as [Hd Hh].
      destruct (Hs _ _ Hh Hd) as [(n & Hn & Hp) Hdef]; rewrite Hp, ParseInt64_pretty, String.eqb_refl, <- Hp by done.
      apply default_port in Hdef; [|done]; by rewrite Hdef.
Qed.


(** ** Origins a page can have *)

(** A URL is of the text [scheme://[userinfo@]host[/path][?query]]: a part the
    URL has not is not in it, and a host of ASCII with no escape is in it as it is. *)
Definition of_text (s : string) (u : URL) : Prop :=
  exists userinfo host path, s = (Scheme u ++ "://" ++ userinfo ++ host ++ path ++
      (if String.eqb (RawQuery u) "" && negb (ForceQuery u) then EmptyString else "?" ++ RawQuery u))%string /\
    (has_User u = false -> userinfo = EmptyString) /\ (url_Path u = EmptyString -> path = EmptyString) /\
    (all_ascii (fun c => c <? 128) (Host u) = true -> absent "%" (Host u) = true -> host = Host u).

Definition lower_ascii (s : string) : bool := all_ascii (fun c => (c <? 128) && negb ((65 <=? c) && (c <=? 90))) s.

Section Pages.
Context (url_Parse : string -> option URL) (ip_loopback : string -> bool).

(** An origin as a browser spells it: a lower case scheme, "://", a host of ASCII
    in lower case and, of a port, one that is not the scheme's own, as a number is
    written - and nothing else: no user, path, query or fragment.  A page's is
    https, or loopback http where that is allowed. *)
Definition page_origin (origin : string) (allowLoopbackHTTP : bool) (u : URL) : Prop :=
  url_Parse origin = Some u /\ Host u <> EmptyString /\ String.prefix (Scheme u ++ "://") origin = true /\
  absent "#" origin = true /\ has_User u = false /\ RawQuery u = EmptyString /\ ForceQuery u = false /\
  url_Path u = EmptyString /\ Opaque u = EmptyString /\
  lower_ascii (Host u) = true /\ port_spelled (Scheme u) (Host u) /\
  (Scheme u = "https"%string \/
   Scheme u = "http"%string /\ allowLoopbackHTTP = true /\ (Hostname u = "localhost"%string \/ ip_loopback (Hostname u) = true)).

Lemma Extra_ok origin u : Extra origin u = EmptyString <->
  absent "#" origin = true /\ has_User u = false /\ RawQuery u = EmptyString /\ ForceQuery u = false /\ url_Path u = EmptyString /\ Opaque u = EmptyString.
Proof using.
  unfold Extra; destruct (absent "#" origin); cbn [negb]; [|by split; [|intros [? _]]].
  destruct (has_User u); [by split; [|intros (_ & ? & _)]|].
  destruct (String.eqb_spec (RawQuery u) ""), (ForceQuery u); cbn [negb orb]; try (by split; [|intros (_ & _ & ? & ? & _)]).
  destruct (String.eqb_spec (url_Path u) "/") as [->|]; [by split; [|intros (_ & _ & _ & _ & ? & _)]|].
  destruct (String.eqb_spec (url_Path u) ""), (String.eqb_spec (Opaque u) ""); cbn [negb orb]; split; try done; by intros (_ & _ & _ & _ & ? & ?).
Qed.

Lemma isCanonical_ok origin u : isCanonical origin u = true <->
  String.prefix (Scheme u ++ "://") origin = true /\ lower_ascii (Host u) = true /\ port_spelled (Scheme u) (Host u).
Proof using.
  unfold isCanonical, Port; rewrite <- !andb_assoc, !andb_true_iff, <- port_canonical, andb_true_iff.
  assert (Hl : all_ascii (fun c => negb ((128 <=? c) || is_upper c)) (Host u) = true <-> lower_ascii (Host u) = true).
  { unfold lower_ascii, is_upper; split; apply all_ascii_impl; intros c; lia. }
  by rewrite Hl.
Qed.

Lemma CheckPage_ok origin allow : CheckPage url_Parse ip_loopback origin allow = Ok tt <-> exists u, page_origin origin allow u.
Proof using.
  unfold CheckPage, Check, page_origin; destruct (url_Parse origin) as [u|]; [|split; [done|]; by intros (? & [=] & _)].
  assert (Hs : (exists u', Some u = Some u' /\ Host u' <> EmptyString /\ String.prefix (Scheme u' ++ "://") origin = true /\
    absent "#" origin = true /\ has_User u' = false /\ RawQuery u' = EmptyString /\ ForceQuery u' = false /\
    url_Path u' = EmptyString /\ Opaque u' = EmptyString /\ lower_ascii (Host u') = true /\ port_spelled (Scheme u') (Host u') /\
    (Scheme u' = "https"%string \/ Scheme u' = "http"%string /\ allow = true /\ (Hostname u' = "localhost"%string \/ ip_loopback (Hostname u') = true))) <->
    Host u <> EmptyString /\ Extra origin u = EmptyString /\ isCanonical origin u = true /\
    (Scheme u = "https"%string \/ Scheme u = "http"%string /\ allow = true /\ IsLoopback ip_loopback (Hostname u) = true)).
  { unfold IsLoopback; rewrite orb_true_iff, String.eqb_eq, Extra_ok, isCanonical_ok; split; [intros (u' & [= <-] & ?); tauto|intros ?; exists u; tauto]. }
  rewrite Hs; clear Hs; destruct (String.eqb_spec (Host u) "") as [|Hh]; [rewrite orb_true_r; split; [done|]; by intros [? _]|]; rewrite orb_false_r.
  destruct (String.eqb_spec (Extra origin u) "") as [Hx|Hx]; [|destruct (String.eqb _ ""); split; try done; by intros (_ & ? & _)].
  destruct (isCanonical origin u); cbn [negb]; [|destruct (String.eqb _ ""); split; try done; by intros (_ & _ & ? & _)].
  destruct (String.eqb_spec (Scheme u) "") as [->|]; cbn [res_bind]; [split; [done|]; by intros (_ & _ & _ & [?|[? _]])|].
  destruct (String.eqb_spec (Scheme u) "https") as [->|]; [split; [intros _; split_and!; try done; by left|done]|].
  destruct (String.eqb_spec (Scheme u) "http") as [->|]; [|split; [done|]; by intros (_ & _ & _ & [?|[? _]])].
  destruct allow, (IsLoopback ip_loopback (Hostname u)); cbn [andb]; split; try done; try (by intros (_ & _ & _ & [?|(_ & ? & ?)])).
  intros _; split_and!; try done; by right.
Qed.

Context (strings_ToLower : string -> string).

Lemma NormalizeAll_ok origins allow out : NormalizeAll url_Parse strings_ToLower ip_loopback origins allow = Ok out <->
  out = map (Normalize url_Parse strings_ToLower) origins /\ Forall (fun origin => exists u, page_origin origin allow u) out.
Proof using.
  revert out; induction origins as [|origin origins IH]; intros out; cbn [NormalizeAll map].
  - split; [intros [= <-]; by split; [|constructor]|by intros [-> _]].
  - rewrite seq_ok, res_bind_ok, CheckPage_ok; split.
    + intros (Hp & out' & [-> Hr]%IH & [= <-]); split; [done|by constructor].
    + intros [-> [Hp Hr]%Forall_cons]; split; [done|]; eexists; split; [by apply IH|done].
Qed.

Context (Hlower : forall s, all_ascii (fun c => c <? 128) s = true -> strings_ToLower s = ToLower s).
Context (Hparse : forall s u, url_Parse s = Some u -> absent "#" s = true -> Opaque u = EmptyString -> String.prefix (Scheme u ++ "://") s = true -> of_text s u).

(** Such an origin is its scheme and host, and is what normalizing leaves. *)
Lemma page_origin_text origin allow u : page_origin origin allow u -> absent "%" (Host u) = true ->
  origin = (Scheme u ++ "://" ++ Host u)%string /\ Normalize url_Parse strings_ToLower origin = origin.
Proof using All.
  intros (Hu & Hh & Hpre & Hf & Huser & Hq & Hfq & Hpath & Ho & Hl & Hport & Hs) Hpc.
  assert (Hasc : all_ascii (fun c => c <? 128) (Host u) = true) by (revert Hl; unfold lower_ascii; apply all_ascii_impl; intros c; lia).
  destruct (Hparse _ _ Hu Hf Ho Hpre) as (userinfo & host & path & E & E1 & E2 & E3); rewrite E1, E2, E3, Hq, Hfq in E by done; cbn [String.eqb negb andb] in E.
  change (("" ++ Host u ++ "" ++ "")%string) with (Host u ++ "")%string in E; rewrite append_empty in E; split; [done|].
  assert (Hx : Extra origin u = EmptyString) by (by apply Extra_ok); unfold Normalize; rewrite Hu, Hx, (proj2 (String.eqb_neq _ _) Hh), orb_false_r; cbn [String.eqb negb andb].
  rewrite orb_false_r, Hlower, ToLower_same by (done || (revert Hl; unfold lower_ascii, is_upper; apply all_ascii_impl; intros c; lia)).
  apply port_canonical in Hport; apply andb_true_iff in Hport as [_ Hport].
  destruct Hs as [Es|(Es & _)]; rewrite Es in *; cbn [String.eqb Ascii.eqb Bool.eqb]; rewrite E; do 2 f_equal; [by apply (trim_port "https" "443")|by apply (trim_port "http" "80")].
Qed.
End Pages.


(** ** A configured origin *)

Module OriginExample.
Definition url (host path : string) : URL :=
  {| Scheme := "https"; Host := host; has_User := false; RawQuery := ""; ForceQuery := false; url_Path := path; Opaque := "" |}.
Definition parse (s : string) : option URL :=
  if String.eqb s "https://RP.example:443/" then Some (url "RP.example:443" "/")
  else if String.eqb s "https://rp.example" then Some (url "rp.example" "")
  else if String.eqb s "https://rp.example:" then Some (url "rp.example:" "") else None.
End OriginExample.

Section Example.
Import OriginExample.

End Example.
