(* ===== verification/ListFetch.v ===== *)
(** * Fetching lists: [statuslist/fetch.go], [statuslist/fetch_hardened.go]

    One HTTPS GET of the URI a credential names, and the address policy its
    connections are held to.  url.Parse, netip.ParseAddr and the HTTP client's
    round trips are parameters; an IP address is its number, its length and its
    zone.  The theorems: what a fetch returns is bounded, of the type asked for
    and from an https URL; and a hardened Fetcher connects, of the addresses
    with no zone, to exactly those outside the special-purpose ranges - one with
    a zone is in no range at all. *)
From S2P Require Import Prelude DcqlQuery DcqlValues Text StatusBits WebOrigin.
From Stdlib Require Import Ascii.
#[local] Open Scope Z_scope.

Definition DefaultMaxTokenBytes : Z := 2 ^ 20.
Definition MaxStatusListRedirects : Z := 3.
Definition fetchTimeout : Z := 30 * 1000000000.

(** int64(z). *)
Definition int64 (z : Z) : Z := (z + 2 ^ 63) mod 2 ^ 64 - 2 ^ 63.

(** ** Addresses *)

(** A netip.Addr of 32 or 128 bits. *)
Inductive Addr : Type := Addr4 (v : Z) | Addr6 (v : Z) (zone : string).

Record Prefix : Type := { p_ip : Addr; p_bits : Z }.

(** netip's methods. *)
Definition Contains (p : Prefix) (ip : Addr) : bool :=
  match p_ip p, ip with
  | Addr4 a, Addr4 v => Z.shiftr (Z.lxor v a) (32 - p_bits p) =? 0
  | Addr6 a _, Addr6 v EmptyString => Z.shiftr (Z.lxor v a) (128 - p_bits p) =? 0
  | _, _ => false
  end.

Definition Is4In6 (ip : Addr) : bool := match ip with Addr6 v _ => Z.shiftr v 32 =? 0xffff | Addr4 _ => false end.
Definition Unmap (ip : Addr) : Addr := match ip with Addr6 v _ => if Is4In6 ip then Addr4 (v mod 2 ^ 32) else ip | _ => ip end.
Definition IsLoopback (ip : Addr) : bool := match Unmap ip with Addr4 v => Z.shiftr v 24 =? 127 | Addr6 v _ => v =? 1 end.
Definition IsMulticast (ip : Addr) : bool := match Unmap ip with Addr4 v => Z.shiftr v 28 =? 0xe | Addr6 v _ => Z.shiftr v 120 =? 0xff end.
Definition IsPrivate (ip : Addr) : bool :=
  match Unmap ip with
  | Addr4 v => (Z.shiftr v 24 =? 10) || (Z.shiftr v 20 =? 0xac1) || (Z.shiftr v 16 =? 0xc0a8)
  | Addr6 v _ => Z.shiftr v 121 =? 0x7e
  end.
Definition IsLinkLocalUnicast (ip : Addr) : bool :=
  match Unmap ip with Addr4 v => Z.shiftr v 16 =? 0xa9fe | Addr6 v _ => Z.shiftr v 118 =? 0x3fa end.
Definition IsUnspecified (ip : Addr) : bool := match ip with Addr4 v => v =? 0 | Addr6 v z => (v =? 0) && String.eqb z "" end.
Definition IsGlobalUnicast (ip : Addr) : bool :=
  let ip := Unmap ip in
  negb (IsUnspecified ip || match ip with Addr4 v => v =? 2 ^ 32 - 1 | _ => false end) &&
  negb (IsLoopback ip) && negb (IsMulticast ip) && negb (IsLinkLocalUnicast ip).

Definition v4Prefix (a b c d bits : Z) : Prefix :=
  {| p_ip := Addr4 (be_value [a; b; c; d]); p_bits := bits |}.

(** netip.MustParsePrefix, of the text of these 16-bit groups and then ::. *)
Definition v6Prefix (groups : list Z) (bits : Z) : Prefix :=
  {| p_ip := Addr6 (fold_left (fun n g => n * 2 ^ 16 + g) (groups ++ replicate (8 - length groups) 0) 0) EmptyString; p_bits := bits |}.

Definition privatePrefixes : list Prefix :=
  [v4Prefix 100 64 0 0 10; v6Prefix [0xfec0] 10; v6Prefix [0x64; 0xff9b; 1] 48].

Definition reservedPrefixes : list Prefix :=
  [v4Prefix 0 0 0 0 8; v4Prefix 192 0 0 0 24; v4Prefix 192 0 2 0 24; v4Prefix 192 88 99 0 24; v4Prefix 198 18 0 0 15;
   v4Prefix 198 51 100 0 24; v4Prefix 203 0 113 0 24; v4Prefix 240 0 0 0 4;
   v6Prefix [0x100] 64; v6Prefix [0x2001] 23; v6Prefix [0x2001; 0xdb8] 32; v6Prefix [0x3fff] 20; v6Prefix [0x5f00] 16].

Definition nat64Prefix : Prefix := v6Prefix [0x64; 0xff9b] 96.
Definition sixToFour : Prefix := v6Prefix [0x2002] 16.
Definition v4Compat : Prefix := v6Prefix [] 96.

Definition inAny (prefixes : list Prefix) (ip : Addr) : bool := existsb (fun p => Contains p ip) prefixes.

(** b[12:16] and b[2:6] of an IPv6 address's bytes. *)
Definition low32 (v : Z) : Z := v mod 2 ^ 32.
Definition after16 (v : Z) : Z := Z.shiftr v 80 mod 2 ^ 32.

Definition embeddedIPv4 (ip : Addr) : Addr :=
  match ip with
  | Addr4 _ => ip
  | Addr6 v _ =>
      if Is4In6 ip then Unmap ip
      else if Contains nat64Prefix ip || (Contains v4Compat ip && negb (IsUnspecified ip) && negb (IsLoopback ip)) then Addr4 (low32 v)
      else if Contains sixToFour ip then Addr4 (after16 v)
      else ip
  end.

(** ** Fetchers *)

(** An http.RoundTripper: nil, an *http.Transport, or another.  A Transport's
    [Control] is that of the dialer it connects with, where it has one;
    [own_dialers], whether it has dial hooks of its own. *)
Record Transport : Type := { Proxy : bool; Control : option (string -> bool); own_dialers : bool }.
Inductive RoundTripper : Type := NoTransport | HTTPTransport (t : Transport) | OtherTransport.

(** [CheckRedirect]: whether a request to a URL, after so many, is followed. *)
Record Client : Type := { Timeout : Z; CheckRedirect : option (URL -> Z -> bool); c_Transport : RoundTripper }.

Record Fetcher : Type := {
  f_HTTP : option Client;
  f_MaxBytes : Z;
  AllowLoopback : bool;
  AllowPrivate : bool;
  AllowProxy : bool;
  UncheckedTransport : bool
}.

Definition HardenedForProduction (f : Fetcher) : bool :=
  negb (AllowLoopback f) && negb (AllowPrivate f) && negb (AllowProxy f) && negb (UncheckedTransport f).

Definition addressAllowed (f : Fetcher) (ip : Addr) : bool :=
  let ip := embeddedIPv4 ip in
  if IsLoopback ip then AllowLoopback f
  else if IsPrivate ip || IsLinkLocalUnicast ip || inAny privatePrefixes ip then AllowPrivate f
  else negb (negb (IsGlobalUnicast ip) || inAny reservedPrefixes ip).

(** Of statuscache: what a fetch revalidates by, and its outcome. *)
Record Validators : Type := { ETag : string; LastModified : string }.
Definition no_validators : Validators := {| ETag := ""; LastModified := "" |}.
#[export] Instance Validators_eq_dec : EqDecision Validators.
Proof. solve_decision. Defined.

Record Fetched : Type := { f_Token : bytes; NotModified : bool; f_Validators : Validators; f_MaxAge : option Z }.

Inductive fetch_error : Type :=
| FetchNotHTTPS
| FetchTransport
| FetchDo
| FetchHTTP (status : Z)
| FetchContentType (got : string)
| FetchRead
| FetchTooLarge.

Record Request : Type := { req_URL : string; Accept : string; IfNoneMatch : string; IfModifiedSince : string }.
Record Response : Type := { StatusCode : Z; Header : gmap string (list string); Body : zstream }.

(** What the standard library is asked for: texts, addresses, and the round
    trips of a client. *)
Class Http : Type := {
  url_Parse : string -> option URL;
  ParseAddr : string -> option Addr;
  SplitHostPort : string -> option (string * string);
  ParseMediaType : string -> option string;
  TrimSpace : string -> string;
  EqualFold : string -> string -> bool;
  DefaultTransport : Transport;
  Do : Client -> Request -> option Response
}.

Section Fetch.
Context `{Http}.

Definition client (f : Fetcher) : Client :=
  let c := match f_HTTP f with Some c => c | None => {| Timeout := 0; CheckRedirect := None; c_Transport := NoTransport |} end in
  if Timeout c <=? 0 then {| Timeout := fetchTimeout; CheckRedirect := CheckRedirect c; c_Transport := c_Transport c |} else c.

Definition checkDial (f : Fetcher) (address : string) : bool :=
  match SplitHostPort address with
  | None => false
  | Some (host, _) => match ParseAddr host with None => false | Some ip => addressAllowed f ip end
  end.

(** addressPolicy.apply, of the policy of a Fetcher. *)
Definition apply (f : Fetcher) (base : Transport) : Transport :=
  {| Proxy := AllowProxy f && Proxy base; Control := Some (checkDial f); own_dialers := false |}.

Definition transport (f : Fetcher) (rt : RoundTripper) : res fetch_error RoundTripper :=
  match rt with
  | NoTransport => Ok (HTTPTransport (apply f DefaultTransport))
  | HTTPTransport t => Ok (HTTPTransport (apply f t))
  | OtherTransport => if negb (UncheckedTransport f) then Err FetchTransport else Ok rt
  end.

Definition redirect (next : URL) (via : Z) : bool :=
  negb (MaxStatusListRedirects <? via) && String.eqb (Scheme next) "https".

(** [header.Get], [header.Values]. *)
Definition Values (key : string) (h : gmap string (list string)) : list string := default [] (h !! key).
Definition Get (key : string) (h : gmap string (list string)) : string := match Values key h with v :: _ => v | [] => EmptyString end.

Fixpoint trim_left (c : ascii) (s : string) : string :=
  match s with EmptyString => s | String d t => if Ascii.eqb d c then trim_left c t else s end.
(** strings.Trim, of one character. *)
Definition Trim (s : string) (c : ascii) : string :=
  bytes_string (rev (string_bytes (trim_left c (bytes_string (rev (string_bytes (trim_left c s))))))).

(** A duration of seconds, as many as one holds. *)
Definition seconds (n : Z) : Z := Z.min n ((2 ^ 63 - 1) / 1000000000) * 1000000000.

Definition max_age_of (directive : string) (maxAge : option Z) : option Z :=
  let d := TrimSpace directive in
  let '(name, value) := default (d, EmptyString) (cut "=" d) in
  if EqualFold name "max-age" then
    let n := match ParseInt64 (Trim value (ascii_of_nat 34)) with Some n => if n <? 0 then 0 else n | None => 0 end in
    Some (seconds n)
  else maxAge.

Definition freshFor (h : gmap string (list string)) : option Z :=
  let directives := split_on "," (join "," (Values "Cache-Control" h)) in
  match fold_left (fun maxAge d => max_age_of d maxAge) directives None with
  | None => None
  | Some maxAge =>
      match ParseInt64 (Get "Age" h) with
      | Some age => if 0 <? age then Some (maxAge - seconds age) else Some maxAge
      | None => Some maxAge
      end
  end.

Definition token_limit (f : Fetcher) : Z := if f_MaxBytes f <=? 0 then DefaultMaxTokenBytes else f_MaxBytes f.

Definition fetch (f : Fetcher) (uri mediaType : string) (held : Validators) : res fetch_error Fetched :=
  match url_Parse uri with
  | None => Err FetchNotHTTPS
  | Some u =>
      if negb (String.eqb (Scheme u) "https") || String.eqb (Host u) "" then Err FetchNotHTTPS
      else
        let req := {| req_URL := uri; Accept := mediaType; IfNoneMatch := ETag held; IfModifiedSince := LastModified held |} in
        let c := client f in
        let? t := transport f (c_Transport c) in
        match Do {| Timeout := Timeout c; CheckRedirect := Some redirect; c_Transport := t |} req with
        | None => Err FetchDo
        | Some resp =>
            let res body := {| f_Token := body; NotModified := false;
              f_Validators := {| ETag := Get "Etag" (Header resp); LastModified := Get "Last-Modified" (Header resp) |};
              f_MaxAge := freshFor (Header resp) |} in
            if (StatusCode resp =? 304) && negb (bool_decide (held = no_validators)) then
              Ok {| f_Token := []; NotModified := true; f_Validators := f_Validators (res []); f_MaxAge := f_MaxAge (res []) |}
            else if negb (Z.quot (StatusCode resp) 100 =? 2) then Err (FetchHTTP (StatusCode resp))
            else if negb (match ParseMediaType (Get "Content-Type" (Header resp)) with Some got => EqualFold got mediaType | None => false end)
            then Err (FetchContentType (Get "Content-Type" (Header resp)))
            else
              let limit := token_limit f in
              let '(body, how) := lr_read_all {| lr_stream := Body resp; lr_left := int64 (limit + 1) |} in
              match how with
              | ReadFail => Err FetchRead
              | _ => if limit <? blen body then Err FetchTooLarge else Ok (res body)
              end
        end
  end.

Definition Fetch (f : Fetcher) (uri mediaType : string) : res fetch_error bytes :=
  let? r := fetch f uri mediaType no_validators in Ok (f_Token r).
End Fetch.

(** ** Ranges *)

(** The numbers from [lo] to [hi]. *)
Definition within (v : Z) (r : Z * Z) : Prop := r.1 <= v <= r.2.

(** The numbers with these first bits. *)
Lemma shiftr_range v k q : 0 <= k -> Z.shiftr v k = q <-> within v (q * 2 ^ k, (q + 1) * 2 ^ k - 1).
Proof.
  intros Hk; rewrite Z.shiftr_div_pow2 by done; unfold within; cbn; pose proof (Z.pow_pos_nonneg 2 k ltac:(lia) Hk) as Hp; split.
  - intros <-; pose proof (Z.mul_div_le v (2 ^ k) Hp); pose proof (Z.mul_succ_div_gt v (2 ^ k) Hp); lia.
  - intros Hv; symmetry; apply (Z.div_unique v (2 ^ k) q (v - q * 2 ^ k)); [left|]; lia.
Qed.

Lemma prefix_range v a k : 0 <= k -> (Z.shiftr (Z.lxor v a) k =? 0) = true <-> within v (Z.shiftr a k * 2 ^ k, (Z.shiftr a k + 1) * 2 ^ k - 1).
Proof. intros Hk; by rewrite <- shiftr_range, Z.eqb_eq, Z.shiftr_lxor, Z.lxor_eq_0_iff by done. Qed.

(** The numbers of a prefix, of the addresses of its length. *)
Definition range_of (p : Prefix) : Z * Z :=
  match p_ip p with
  | Addr4 a => let k := 32 - p_bits p in (Z.shiftr a k * 2 ^ k, (Z.shiftr a k + 1) * 2 ^ k - 1)
  | Addr6 a _ => let k := 128 - p_bits p in (Z.shiftr a k * 2 ^ k, (Z.shiftr a k + 1) * 2 ^ k - 1)
  end.
Definition is4 (p : Prefix) : bool := match p_ip p with Addr4 _ => true | _ => false end.

Lemma inAny4 prefixes v : forallb (fun p => p_bits p <=? 32) (List.filter is4 prefixes) = true ->
  inAny prefixes (Addr4 v) = true <-> Exists (within v) (map range_of (List.filter is4 prefixes)).
Proof.
  unfold inAny; induction prefixes as [|[[a|a z] bits] ps IH]; cbn [existsb List.filter is4 p_ip map forallb]; [by rewrite Exists_nil| |exact IH].
  intros [Hb%Z.leb_le Hps]%andb_true_iff; cbn [p_bits] in Hb; rewrite orb_true_iff, Exists_cons, IH by done.
  cbn [Contains p_ip range_of p_bits]; by rewrite prefix_range by lia.
Qed.

Definition is6 (p : Prefix) : bool := negb (is4 p).

Lemma inAny6 prefixes v : forallb (fun p => p_bits p <=? 128) (List.filter is6 prefixes) = true ->
  inAny prefixes (Addr6 v EmptyString) = true <-> Exists (within v) (map range_of (List.filter is6 prefixes)).
Proof.
  unfold inAny; induction prefixes as [|[[a|a z] bits] ps IH]; cbn [existsb List.filter is4 is6 negb p_ip map forallb]; [by rewrite Exists_nil|exact IH|].
  intros [Hb%Z.leb_le Hps]%andb_true_iff; cbn [p_bits] in Hb; rewrite orb_true_iff, Exists_cons, IH by done.
  cbn [Contains p_ip range_of p_bits]; by rewrite prefix_range by lia.
Qed.

(** A range of addresses, and whether a Fetcher may reach them. *)
Definition special : Type := Z * Z * (Fetcher -> bool).
Definition never (_ : Fetcher) : bool := false.

(** The addresses of these first 16-bit groups, or bytes. *)
Definition spread (width total : Z) (groups : list Z) (bits : Z) (p : Fetcher -> bool) : special :=
  let first := fold_left (fun n g => n * 2 ^ width + g) groups 0 * 2 ^ (total - width * blen groups) in
  (first, first + 2 ^ (total - bits) - 1, p).
Definition v4 := spread 8 32.
Definition v6 := spread 16 128.

(** Of IPv4: this network; private and shared; loopback; link-local; protocol
    assignments, documentation, relays and benchmarks; multicast; reserved. *)
Definition special4 : list special :=
  [v4 [0] 8 never; v4 [10] 8 AllowPrivate; v4 [100; 64] 10 AllowPrivate; v4 [127] 8 AllowLoopback; v4 [169; 254] 16 AllowPrivate;
   v4 [172; 16] 12 AllowPrivate; v4 [192; 0; 0] 24 never; v4 [192; 0; 2] 24 never; v4 [192; 88; 99] 24 never; v4 [192; 168] 16 AllowPrivate;
   v4 [198; 18] 15 never; v4 [198; 51; 100] 24 never; v4 [203; 0; 113] 24 never; v4 [224] 4 never; v4 [240] 4 never].

(** Of IPv6: unspecified; loopback; local NAT64; discarded; protocol
    assignments, documentation and segments; unique local, link- and
    site-local; multicast. *)
Definition special6 : list special :=
  [v6 [] 128 never; v6 [0; 0; 0; 0; 0; 0; 0; 1] 128 AllowLoopback; v6 [0x64; 0xff9b; 1] 48 AllowPrivate; v6 [0x100] 64 never;
   v6 [0x2001] 23 never; v6 [0x2001; 0xdb8] 32 never; v6 [0x3fff] 20 never; v6 [0x5f00] 16 never;
   v6 [0xfc00] 7 AllowPrivate; v6 [0xfe80] 10 AllowPrivate; v6 [0xfec0] 10 AllowPrivate; v6 [0xff00] 8 never].

(** Every special range a number lies in is one the Fetcher may reach. *)
Definition reachable (f : Fetcher) (table : list special) (v : Z) : Prop :=
  Forall (fun r => within v r.1 -> r.2 f = true) table.

(** The IPv4 address an IPv6 one reaches: compatible, but not :: and ::1;
    mapped; of NAT64; of 6to4. *)
Definition reaches4 (v : Z) : option Z :=
  if (2 <=? v) && (v <? 2 ^ 32) then Some v
  else if (0xffff * 2 ^ 32 <=? v) && (v <? 2 ^ 48) then Some (v mod 2 ^ 32)
  else if (0x64ff9b * 2 ^ 96 <=? v) && (v <? 0x64ff9b * 2 ^ 96 + 2 ^ 32) then Some (v mod 2 ^ 32)
  else if (0x2002 * 2 ^ 112 <=? v) && (v <? 0x2003 * 2 ^ 112) then Some (v / 2 ^ 80 mod 2 ^ 32)
  else None.

(** A test of first bits, as a range. *)
Lemma first_bits v k q : 0 <= k -> (Z.shiftr v k =? q) = ((q * 2 ^ k <=? v) && (v <=? (q + 1) * 2 ^ k - 1)).
Proof. intros Hk; apply eq_true_iff_eq; rewrite Z.eqb_eq, shiftr_range, andb_true_iff, !Z.leb_le by done; done. Qed.

Lemma Exists_ranges v l : Exists (within v) l <-> existsb (fun r => (r.1 <=? v) && (v <=? r.2)) l = true.
Proof.
  induction l as [|r l IH]; cbn [existsb]; [by rewrite Exists_nil|]; by rewrite Exists_cons, orb_true_iff, IH, andb_true_iff, !Z.leb_le.
Qed.

Lemma inAny_private4 v : inAny privatePrefixes (Addr4 v) = (1681915904 <=? v) && (v <=? 1686110207).
Proof.
  apply eq_true_iff_eq; rewrite inAny4, Exists_ranges by done.
  replace (map range_of (List.filter is4 privatePrefixes)) with [(1681915904, 1686110207)] by (by vm_compute); cbn [existsb fst snd]; by rewrite orb_false_r.
Qed.

Lemma allowed4 f v : 0 <= v < 2 ^ 32 -> addressAllowed f (Addr4 v) = true <-> reachable f special4 v.
Proof.
  intros Hv; unfold addressAllowed, embeddedIPv4, reachable.
  assert (Hr : inAny reservedPrefixes (Addr4 v) = true <-> Exists (within v) (map range_of (List.filter is4 reservedPrefixes))) by (by apply inAny4).
  rewrite Exists_ranges in Hr; replace (map range_of (List.filter is4 reservedPrefixes)) with
    [(0, 16777215); (3221225472, 3221225727); (3221225984, 3221226239); (3227017984, 3227018239); (3323068416, 3323199487);
     (3325256704, 3325256959); (3405803776, 3405804031); (4026531840, 4294967295)] in Hr by (by vm_compute).
  replace special4 with
    [(0, 16777215, never); (167772160, 184549375, AllowPrivate); (1681915904, 1686110207, AllowPrivate); (2130706432, 2147483647, AllowLoopback);
     (2851995648, 2852061183, AllowPrivate); (2886729728, 2887778303, AllowPrivate); (3221225472, 3221225727, never); (3221225984, 3221226239, never);
     (3227017984, 3227018239, never); (3232235520, 3232301055, AllowPrivate); (3323068416, 3323199487, never); (3325256704, 3325256959, never);
     (3405803776, 3405804031, never); (3758096384, 4026531839, never); (4026531840, 4294967295, never)] by (by vm_compute).
  rewrite !Forall_cons, Forall_nil; unfold within; cbn [fst snd existsb] in *; unfold never.
  unfold IsGlobalUnicast, IsLoopback, IsPrivate, IsLinkLocalUnicast, IsMulticast, IsUnspecified, Unmap.
  rewrite !first_bits, inAny_private4 by lia; cbn [Z.mul Z.pow Z.pow_pos Pos.iter Z.add Z.sub Pos.mul Pos.add Z.opp Pos.succ] in *.
  destruct (inAny reservedPrefixes (Addr4 v)), (AllowLoopback f), (AllowPrivate f); repeat go_case; lia.
Qed.

(** The same tests with the numbers evaluated. *)
Ltac numbers := cbn [Z.mul Z.pow Z.pow_pos Pos.iter Z.add Z.sub Pos.mul Pos.add Z.opp Pos.succ Z.pos_sub Pos.pred_double Z.double Z.succ_double Z.pred_double] in *.

Lemma embedded6 v : 0 <= v < 2 ^ 128 ->
  embeddedIPv4 (Addr6 v EmptyString) = match reaches4 v with Some w => Addr4 w | None => Addr6 v EmptyString end.
Proof.
  intros Hv; unfold embeddedIPv4, reaches4, IsUnspecified, IsLoopback, Unmap, Is4In6, Contains, nat64Prefix, v4Compat, sixToFour, v6Prefix; cbn [p_ip p_bits].
  set (n64 := fold_left _ _ _); set (compat := fold_left _ _ _); set (six := fold_left _ _ _).
  assert (H64 : (Z.shiftr (Z.lxor v n64) (128 - 96) =? 0) = (0x64ff9b * 2 ^ 96 <=? v) && (v <? 0x64ff9b * 2 ^ 96 + 2 ^ 32))
    by (apply eq_true_iff_eq; rewrite prefix_range, andb_true_iff by lia; replace (Z.shiftr n64 (128 - 96)) with (0x64ff9b * 2 ^ 64) by (by vm_compute); unfold within; cbn [fst snd]; lia).
  assert (Hc : (Z.shiftr (Z.lxor v compat) (128 - 96) =? 0) = (v <? 2 ^ 32))
    by (apply eq_true_iff_eq; rewrite prefix_range by lia; replace (Z.shiftr compat (128 - 96)) with (0) by (by vm_compute); unfold within; cbn [fst snd]; lia).
  assert (H6 : (Z.shiftr (Z.lxor v six) (128 - 16) =? 0) = (0x2002 * 2 ^ 112 <=? v) && (v <? 0x2003 * 2 ^ 112))
    by (apply eq_true_iff_eq; rewrite prefix_range, andb_true_iff by lia; replace (Z.shiftr six (128 - 16)) with (0x2002) by (by vm_compute); unfold within; cbn [fst snd]; lia).
  rewrite H64, Hc, H6; clear H64 Hc H6; rewrite first_bits by lia; unfold low32, after16; rewrite Z.shiftr_div_pow2 by lia.
  cbn [String.eqb andb]; rewrite andb_true_r; clear n64 compat six.
  repeat go_case; try (exfalso; lia); try done; f_equal; apply Z.mod_small; lia.
Qed.

Lemma allowed6 f v : 0 <= v < 2 ^ 128 -> reaches4 v = None -> addressAllowed f (Addr6 v EmptyString) = true <-> reachable f special6 v.
Proof.
  intros Hv Hn; unfold addressAllowed, reachable; rewrite embedded6, Hn by done.
  assert (Hm : Is4In6 (Addr6 v EmptyString) = false).
  { unfold Is4In6; rewrite first_bits by lia; unfold reaches4 in Hn; repeat go_case_in Hn; try done; lia. }
  assert (Hr : inAny reservedPrefixes (Addr6 v EmptyString) = true <-> Exists (within v) (map range_of (List.filter is6 reservedPrefixes))) by (by apply inAny6).
  assert (Hp : inAny privatePrefixes (Addr6 v EmptyString) = true <-> Exists (within v) (map range_of (List.filter is6 privatePrefixes))) by (by apply inAny6).
  rewrite Exists_ranges in Hr, Hp.
  unfold IsGlobalUnicast, IsLoopback, IsPrivate, IsLinkLocalUnicast, IsMulticast, IsUnspecified, Unmap; cbv zeta; rewrite !Hm; cbv beta iota; rewrite ?Hm; cbv beta iota.
  rewrite !first_bits by lia; cbn [String.eqb]; rewrite !andb_true_r, !orb_false_r.
  set (reserved := inAny reservedPrefixes _) in *; set (private := inAny privatePrefixes _) in *.
  replace (map range_of (List.filter is6 reservedPrefixes)) with
    [(0x100 * 2 ^ 112, 0x100 * 2 ^ 112 + 2 ^ 64 - 1); (0x2001 * 2 ^ 112, 0x2001 * 2 ^ 112 + 2 ^ 105 - 1);
     (0x20010db8 * 2 ^ 96, 0x20010db8 * 2 ^ 96 + 2 ^ 96 - 1); (0x3fff * 2 ^ 112, 0x3fff * 2 ^ 112 + 2 ^ 108 - 1);
     (0x5f00 * 2 ^ 112, 0x5f00 * 2 ^ 112 + 2 ^ 112 - 1)] in Hr by (by vm_compute).
  replace (map range_of (List.filter is6 privatePrefixes)) with
    [(0xfec0 * 2 ^ 112, 0xfec0 * 2 ^ 112 + 2 ^ 118 - 1); (0x64ff9b0001 * 2 ^ 80, 0x64ff9b0001 * 2 ^ 80 + 2 ^ 80 - 1)] in Hp by (by vm_compute).
  replace special6 with
    [(0, 0, never); (1, 1, AllowLoopback); (0x64ff9b0001 * 2 ^ 80, 0x64ff9b0001 * 2 ^ 80 + 2 ^ 80 - 1, AllowPrivate);
     (0x100 * 2 ^ 112, 0x100 * 2 ^ 112 + 2 ^ 64 - 1, never); (0x2001 * 2 ^ 112, 0x2001 * 2 ^ 112 + 2 ^ 105 - 1, never);
     (0x20010db8 * 2 ^ 96, 0x20010db8 * 2 ^ 96 + 2 ^ 96 - 1, never); (0x3fff * 2 ^ 112, 0x3fff * 2 ^ 112 + 2 ^ 108 - 1, never);
     (0x5f00 * 2 ^ 112, 0x5f00 * 2 ^ 112 + 2 ^ 112 - 1, never); (0xfc00 * 2 ^ 112, 0xfc00 * 2 ^ 112 + 2 ^ 121 - 1, AllowPrivate);
     (0xfe80 * 2 ^ 112, 0xfe80 * 2 ^ 112 + 2 ^ 118 - 1, AllowPrivate); (0xfec0 * 2 ^ 112, 0xfec0 * 2 ^ 112 + 2 ^ 118 - 1, AllowPrivate);
     (0xff00 * 2 ^ 112, 0xff00 * 2 ^ 112 + 2 ^ 120 - 1, never)] by (by vm_compute).
  rewrite !Forall_cons, Forall_nil; unfold within; cbn [fst snd existsb] in *; unfold never.
  destruct reserved, private, (AllowLoopback f), (AllowPrivate f); repeat go_case; lia.
Qed.

(** ** With a zone *)

(** What an address with a zone is judged by: no prefix contains it. *)
Definition zoned6 : list special :=
  [v6 [0; 0; 0; 0; 0; 0; 0; 1] 128 AllowLoopback; v6 [0xfc00] 7 AllowPrivate; v6 [0xfe80] 10 AllowPrivate; v6 [0xff00] 8 never].

Lemma inAny_zoned prefixes v c z : inAny prefixes (Addr6 v (String c z)) = false.
Proof. unfold inAny; induction prefixes as [|[[a|a z'] bits] ps IH]; cbn [existsb Contains p_ip]; done. Qed.

Lemma allowed_zoned f v c z : 0 <= v < 2 ^ 128 -> Is4In6 (Addr6 v (String c z)) = false ->
  addressAllowed f (Addr6 v (String c z)) = true <-> reachable f zoned6 v.
Proof.
  intros Hv Hm; unfold addressAllowed, reachable.
  assert (He : embeddedIPv4 (Addr6 v (String c z)) = Addr6 v (String c z)) by (unfold embeddedIPv4; by rewrite Hm).
  rewrite He, !inAny_zoned; unfold IsGlobalUnicast, IsLoopback, IsPrivate, IsLinkLocalUnicast, IsMulticast, IsUnspecified, Unmap.
  cbv zeta; rewrite !Hm; cbv beta iota; rewrite ?Hm; cbv beta iota; rewrite !first_bits by lia; cbn [String.eqb]; rewrite !andb_false_r, !orb_false_r.
  replace zoned6 with
    [(1, 1, AllowLoopback); (0xfc00 * 2 ^ 112, 0xfc00 * 2 ^ 112 + 2 ^ 121 - 1, AllowPrivate);
     (0xfe80 * 2 ^ 112, 0xfe80 * 2 ^ 112 + 2 ^ 118 - 1, AllowPrivate); (0xff00 * 2 ^ 112, 0xff00 * 2 ^ 112 + 2 ^ 120 - 1, never)] by (by vm_compute).
  rewrite !Forall_cons, Forall_nil; unfold within; cbn [fst snd] in *; unfold never.
  destruct (AllowLoopback f), (AllowPrivate f); repeat go_case; lia.
Qed.

(** ::; 127.0.0.1 by NAT64; 10.0.0.1 by 6to4; fec0::1; and 10.0.0.1 by a local NAT64. *)
Definition local_addresses : list Z :=
  [0; 0x64ff9b * 2 ^ 96 + 0x7f000001; 0x20020a000001 * 2 ^ 80; 0xfec0 * 2 ^ 112 + 1; 0x64ff9b0001 * 2 ^ 80 + 0x0a000001].

(** ** The theorems *)

(** C23: The address policy, exactly: a Fetcher connects to an IPv4 address when every special-purpose range it lies in is one the Fetcher's options permit - none of them for a hardened Fetcher - and to an IPv6 address without a zone when that holds of the IPv4 address it reaches through an embedding (mapped, compatible, NAT64, 6to4), or else of the IPv6 ranges it lies in; one with a zone that is not mapped, of four of those ranges alone. *)
Theorem addressAllowed_exact f v :
  (0 <= v < 2 ^ 32 -> addressAllowed f (Addr4 v) = true <-> reachable f special4 v) /\
  (0 <= v < 2 ^ 128 -> addressAllowed f (Addr6 v EmptyString) = true <->
    match reaches4 v with Some w => reachable f special4 w | None => reachable f special6 v end) /\
  (0 <= v < 2 ^ 128 -> forall c zone, Is4In6 (Addr6 v (String c zone)) = false ->
    addressAllowed f (Addr6 v (String c zone)) = true <-> reachable f zoned6 v).
Proof.
  split; [apply allowed4|split]; [|intros Hv c zone; by apply allowed_zoned]; intros Hv; destruct (reaches4 v) as [w|] eqn:E; [|by apply allowed6].
  assert (Hw : 0 <= w < 2 ^ 32).
  { unfold reaches4 in E; repeat go_case_in E; try done; injection E as <-; try (apply Z.mod_pos_bound; lia); lia. }
  rewrite <- allowed4 by done; unfold addressAllowed; by rewrite embedded6, E.
Qed.

(** C24: The policy does not hold of addresses with a zone: no netip.Prefix contains one, so a hardened Fetcher, which refuses ::, 127.0.0.1 by NAT64, 10.0.0.1 by 6to4 or a local NAT64 and the site-local fec0::1, connects to each of them spelled with any zone at all. *)
Theorem zoned_addresses_allowed f : HardenedForProduction f = true ->
  forall v, v ∈ local_addresses -> addressAllowed f (Addr6 v EmptyString) = false /\
    forall c zone, addressAllowed f (Addr6 v (String c zone)) = true.
Proof.
  unfold HardenedForProduction; intros Hf v Hv; bool_prop.
  assert (Hl : AllowLoopback f = false) by (by destruct (AllowLoopback f)); assert (Hp : AllowPrivate f = false) by (by destruct (AllowPrivate f)).
  split.
  - unfold addressAllowed; rewrite Hl, Hp.
    repeat (apply elem_of_cons in Hv as [-> | Hv]; [by vm_compute|]); by apply elem_of_nil in Hv.
  - intros c zone; unfold addressAllowed; rewrite Hl, Hp.
    repeat (apply elem_of_cons in Hv as [-> | Hv]; [by vm_compute|]); by apply elem_of_nil in Hv.
Qed.

Section Fetched.
Context `{Http}.

(** Connections that are checked. *)
Definition checked (f : Fetcher) (rt : RoundTripper) : Prop :=
  match rt with
  | HTTPTransport t => Control t = Some (checkDial f) /\ own_dialers t = false /\ (Proxy t = true -> AllowProxy f = true)
  | NoTransport => False
  | OtherTransport => UncheckedTransport f = true
  end.

Lemma transport_checked f rt t : transport f rt = Ok t -> checked f t.
Proof using.
  unfold transport; destruct rt as [|base|]; [intros [= <-]..|]; cbn; try (split_and!; try done; by intros [? _]%andb_true_iff).
  by destruct (UncheckedTransport f) eqn:E; intros [= <-].
Qed.

Lemma Timeout_positive f : 0 < Timeout (client f).
Proof using. unfold client; set (c := match f_HTTP f with Some c => c | None => _ end); destruct (Z.leb_spec (Timeout c) 0); cbn; [by vm_compute|done]. Qed.

(** All of a body, where that is no longer than the limit. *)
Lemma read_whole z limit body how : 0 <= limit < 2 ^ 63 - 1 ->
  lr_read_all {| lr_stream := z; lr_left := int64 (limit + 1) |} = (body, how) -> how <> ReadFail -> blen body <= limit ->
  body = zs_data z /\ zs_clean z = true.
Proof using.
  intros Hl; assert (int64 (limit + 1) = limit + 1) as -> by (unfold int64; rewrite Z.mod_small; lia).
  unfold lr_read_all; cbn [lr_stream lr_left]; intros [= <- <-] Hh Hb; destruct (Z.leb_spec (limit + 1) (blen (zs_data z))) as [Hle|Hlt].
  - exfalso; unfold blen in *; rewrite length_take in Hb; lia.
  - rewrite take_ge by (unfold blen in Hlt; lia); by destruct (zs_clean z).
Qed.
End Fetched.

(** What a fetch returns: the whole body of a 2xx response of the media type asked for, no longer than the Fetcher's limit - or, of a conditional fetch alone, that the token held is unchanged - to a request of an https URL, by a client that times out, follows three redirects and only to https, and connects with the address policy, unless the Fetcher says otherwise. *)
Theorem fetch_bounded `{Http} f uri mediaType held r : f_MaxBytes f < 2 ^ 63 - 1 -> fetch f uri mediaType held = Ok r ->
  exists u c resp, url_Parse uri = Some u /\ Scheme u = "https"%string /\ Host u <> ""%string /\
    Do c {| req_URL := uri; Accept := mediaType; IfNoneMatch := ETag held; IfModifiedSince := LastModified held |} = Some resp /\
    0 < Timeout c /\ CheckRedirect c = Some redirect /\ checked f (c_Transport c) /\
    f_MaxAge r = freshFor (Header resp) /\
    (NotModified r = true /\ StatusCode resp = 304 /\ held <> no_validators \/
     NotModified r = false /\ 200 <= StatusCode resp < 300 /\ blen (f_Token r) <= token_limit f /\
     f_Token r = zs_data (Body resp) /\ zs_clean (Body resp) = true /\
     exists got, ParseMediaType (Get "Content-Type" (Header resp)) = Some got /\ EqualFold got mediaType = true).
Proof.
  intros Hmax; unfold fetch; destruct (url_Parse uri) as [u|] eqn:Eu; [|done].
  go_if; [done|]; bool_prop; rewrite res_bind_ok; intros (t & Ht & Hd); apply transport_checked in Ht.
  destruct (Do _ _) as [resp|] eqn:Ed; [|done]; eexists u, _, resp; split; [done|].
  split; [by apply String.eqb_eq|]; split; [by apply String.eqb_neq|]; split; [exact Ed|]; split; [apply Timeout_positive|].
  split; [done|split; [done|]].
  destruct ((StatusCode resp =? 304) && _) eqn:E3.
  - injection Hd as <-; split; [done|left]; bool_prop; done.
  - destruct (Z.quot (StatusCode resp) 100 =? 2) eqn:E2; cbn [negb] in Hd; [|done]; apply Z.eqb_eq in E2.
    destruct (ParseMediaType _) as [got|] eqn:Em; cbn [negb] in Hd; [|done]; destruct (EqualFold got mediaType) eqn:Ef; cbn [negb] in Hd; [|done].
    destruct (lr_read_all _) as [body how] eqn:Er; assert (Hh : how <> ReadFail) by (by intros ->).
    assert (Hd' : (if token_limit f <? blen body then Err FetchTooLarge else Ok {| f_Token := body; NotModified := false;
      f_Validators := {| ETag := Get "Etag" (Header resp); LastModified := Get "Last-Modified" (Header resp) |};
      f_MaxAge := freshFor (Header resp) |}) = Ok r) by (by destruct how).
    clear Hd; go_if_in Hd'; [done|]; injection Hd' as <-; split; [done|right]; cbn [NotModified f_Token].
    apply read_whole in Er as [-> Hc]; [|unfold token_limit, DefaultMaxTokenBytes; destruct (Z.leb_spec (f_MaxBytes f) 0); lia|done|done].
    split_and!; try done; [| |by exists got].
    all: pose proof (Z.quot_rem' (StatusCode resp) 100); pose proof (Z.rem_bound_abs (StatusCode resp) 100); pose proof (Z.rem_nonneg (StatusCode resp) 100); lia.
Qed.

(** ** A list fetched *)

Module FetchExample.

Definition media_type : string := "application/statuslist+jwt".
Definition list_uri : string := "https://issuer.example/lists/1".
Definition listed : bytes := [97; 46; 98; 46; 99].

Definition url (scheme : string) : URL :=
  {| Scheme := scheme; Host := "issuer.example"; has_User := false; RawQuery := ""; ForceQuery := false; url_Path := "/lists/1"; Opaque := "" |}.

(** A world whose one server serves one list, with a max-age of a minute. *)
Definition response (body : bytes) : Response := {|
  StatusCode := 200; Body := {| zs_data := body; zs_clean := true |};
  Header := {["Content-Type" := [media_type]; "Cache-Control" := ["no-transform"; "max-age=60"]; "Age" := ["15"]]} |}%string.

Definition world (body : bytes) : Http := {|
  url_Parse := fun uri => if String.prefix "https:" uri then Some (url "https") else Some (url "http");
  ParseAddr := fun _ => None; SplitHostPort := fun _ => None; ParseMediaType := Some; TrimSpace := id; EqualFold := String.eqb;
  DefaultTransport := {| Proxy := true; Control := None; own_dialers := false |};
  Do := fun c req => if String.eqb (req_URL req) list_uri then Some (response body) else None |}.

Definition hardened : Fetcher :=
  {| f_HTTP := None; f_MaxBytes := 0; AllowLoopback := false; AllowPrivate := false; AllowProxy := false; UncheckedTransport := false |}.

Definition got : Fetched :=
  {| f_Token := listed; NotModified := false; f_Validators := no_validators; f_MaxAge := Some (45 * 1000000000) |}.
End FetchExample.

Section Example.
Import FetchExample.

Lemma fetch_bounded_witness : fetch (H := world listed) hardened list_uri media_type no_validators = Ok got /\
  exists c resp, Do (Http := world listed) c {| req_URL := list_uri; Accept := media_type; IfNoneMatch := ""; IfModifiedSince := "" |} = Some resp /\
    f_Token got = zs_data (Body resp) /\ checked (H := world listed) hardened (c_Transport c).
Proof.
  assert (E : fetch (H := world listed) hardened list_uri media_type no_validators = Ok got) by (by vm_compute).
  split; [exact E|]; destruct (fetch_bounded (H := world listed) hardened list_uri media_type no_validators got ltac:(by vm_compute) E)
    as (u & c & resp & _ & _ & _ & Hd & _ & _ & Hc & _ & [(? & _)|(_ & _ & _ & Ht & _)]); [done|]; by exists c, resp.
Defined.

(** 93.184.215.14, 10.0.0.1 and 10.0.0.1 by NAT64. *)
Lemma addressAllowed_exact_witness : addressAllowed hardened (Addr4 0x5db8d70e) = true /\ addressAllowed hardened (Addr4 0x0a000001) = false /\
  ~ reachable hardened special4 0x0a000001 /\ addressAllowed hardened (Addr6 (0x64ff9b * 2 ^ 96 + 0x0a000001) EmptyString) = false.
Proof.
  split_and!; [by vm_compute|by vm_compute| |by vm_compute].
  intros Hr; destruct (addressAllowed_exact hardened 0x0a000001) as [H4 _]; apply H4 in Hr; [by vm_compute in Hr|lia].
Defined.

Lemma zoned_addresses_allowed_witness : HardenedForProduction hardened = true /\ forall zone, addressAllowed hardened (Addr6 0 (String "l" zone)) = true.
Proof.
  assert (E : HardenedForProduction hardened = true) by (by vm_compute); split; [exact E|]; intros zone.
  by apply (zoned_addresses_allowed hardened E 0); apply elem_of_cons; left.
Defined.
End Example.
