(* ===== verification/JwtDate.v ===== *)
(** * Numeric dates: [internal/jwtdate]

    The times of tokens: seconds of a JSON number, or an integer, as a time,
    and the freshness a token's times must meet.  A time is its nanoseconds
    since 1970; a float64 is its IEEE 754 specification.  The theorem:
    [Window.Check] accepts exactly the tokens that are fresh. *)
From S2P Require Import Prelude Json.
From Stdlib Require Import SpecFloat.

Definition Second : Z := 1000000000.
Definition Minute : Z := 60 * Second.
Definition Hour : Z := 60 * Minute.

(** time.Time{}, in nanoseconds since 1970. *)
Definition time_zero : Z := -62135596800 * Second.

(** ** float64 *)

Abbreviation float := spec_float (only parsing).

Definition float_of_int (z : Z) : float := binary_normalize 53 1024 z 0 false.

(** int64(f), f finite and in range: toward zero. *)
Definition int_of_float (f : float) : Z :=
  match f with
  | S754_finite s m e =>
      let n := if 0 <=? e then Zpos m * 2 ^ e else Zpos m / 2 ^ (- e) in
      if s then - n else n
  | _ => 0
  end.

Definition is_nan (f : float) : bool := match f with S754_nan => true | _ => false end.

(** ** Dates *)

Inductive date_error : Type := ErrOutOfRange | ErrNotNumericDate.

Definition Max : Z := 253402300799.

(** time.Unix(sec, 0). *)
Definition unix (sec : Z) : Z := sec * Second.

Definition FromUnix (sec : Z) : res date_error Z :=
  if (sec <? 0) || (Max <? sec) then Err ErrOutOfRange else Ok (unix sec).

Definition FromFloat (v : float) : res date_error Z :=
  if is_nan v || SFltb v (S754_zero false) || SFltb (float_of_int Max) v then Err ErrOutOfRange
  else Ok (unix (int_of_float v)).

(** Of what a CBOR decoder gives: a uint64 or an int64, or a float. *)
Definition FromCBOR (v : goval) : res date_error Z :=
  match v with
  | VInt n => if Max <? n then Err ErrOutOfRange else FromUnix n
  | VFloat f => FromFloat f
  | _ => Err ErrNotNumericDate
  end.

(** ** A token's freshness *)

Definition DefaultMaxClockSkew : Z := Minute.
Definition DefaultMaxAgeWithoutExp : Z := 24 * Hour.

Record Window : Type := { MaxAge : Z; MaxClockSkew : Z; RequireExp : bool }.

Inductive window_error : Type :=
| ErrNegativeMaxAge
| ErrIat
| ErrIssuedInFuture
| ErrNbfRange
| ErrNotYetValid
| ErrMissingExp
| ErrTooOld
| ErrExpRange
| ErrExpNotAfterIat
| ErrExpired.

Definition skew_of (w : Window) : Z := if MaxClockSkew w =? 0 then DefaultMaxClockSkew else MaxClockSkew w.

Definition checkFreshness (w : Window) (issued : Z) (exp : option Z) (now : Z) : res window_error unit :=
  if negb (is_Some_b exp) && RequireExp w then Err ErrMissingExp
  else
    let maxAge := if (MaxAge w =? 0) && negb (is_Some_b exp) then DefaultMaxAgeWithoutExp else MaxAge w in
    if (0 <? maxAge) && (issued <? now - maxAge) then Err ErrTooOld
    else match exp with
    | None => Ok tt
    | Some exp =>
        match FromUnix exp with
        | Err _ => Err ErrExpRange
        | Ok expires =>
            if negb (issued <? expires) then Err ErrExpNotAfterIat
            else if negb (now <? expires) then Err ErrExpired
            else Ok tt
        end
    end.

Definition Window_Check (w : Window) (iat : Z) (exp nbf : option Z) (now : Z) : res window_error unit :=
  if MaxAge w <? 0 then Err ErrNegativeMaxAge
  else match FromUnix iat with
  | Err _ => Err ErrIat
  | Ok issued =>
      if iat =? 0 then Err ErrIat
      else if now + skew_of w <? issued then Err ErrIssuedInFuture
      else match nbf with
      | None => checkFreshness w issued exp now
      | Some nbf =>
          match FromUnix nbf with
          | Err _ => Err ErrNbfRange
          | Ok notBefore =>
              if now + skew_of w <? notBefore then Err ErrNotYetValid
              else checkFreshness w issued exp now
          end
      end
  end.

(** ** What is fresh *)

Definition date (sec : Z) : Prop := 0 <= sec <= Max.

(** Issued in no future, no longer ago than allowed, valid from before now to
    after now; a token that bounds its life neither by exp nor by the caller's
    MaxAge is good for a day. *)
Definition fresh (w : Window) (iat : Z) (exp nbf : option Z) (now : Z) : Prop :=
  0 <= MaxAge w /\ 0 < iat <= Max /\ unix iat <= now + skew_of w /\
  (forall n, nbf = Some n -> date n /\ unix n <= now + skew_of w) /\
  (RequireExp w = true -> is_Some exp) /\
  (0 < MaxAge w -> now - MaxAge w <= unix iat) /\
  match exp with
  | Some e => date e /\ iat < e /\ now < unix e
  | None => MaxAge w = 0 -> now - DefaultMaxAgeWithoutExp <= unix iat
  end.

Lemma FromUnix_ok sec t : FromUnix sec = Ok t <-> date sec /\ t = unix sec.
Proof.
  unfold FromUnix, date; destruct (Z.ltb_spec sec 0), (Z.ltb_spec Max sec); cbn; split; try lia; try done.
  - intros [= <-]; split; [lia|done].
  - by intros [_ ->].
Qed.

Lemma checkFreshness_ok w issued exp now : 0 <= MaxAge w -> checkFreshness w issued exp now = Ok tt <->
  (RequireExp w = true -> is_Some exp) /\ (0 < MaxAge w -> now - MaxAge w <= issued) /\
  match exp with
  | Some e => date e /\ issued < unix e /\ now < unix e
  | None => MaxAge w = 0 -> now - DefaultMaxAgeWithoutExp <= issued
  end.
Proof.
  intros Hage; unfold checkFreshness; destruct exp as [e|]; cbn [is_Some_b negb andb]; rewrite ?andb_false_r, ?andb_true_r.
  - destruct (Z.ltb_spec 0 (MaxAge w)), (Z.ltb_spec issued (now - MaxAge w)); cbn [andb].
    1: split; [done|]; lia.
    all: destruct (FromUnix e) as [t|?] eqn:E; [apply FromUnix_ok in E as [Hd ->]|].
    all: try (split; [done|]; intros (_ & _ & Hd & _); assert (FromUnix e = Ok (unix e)) by (by apply FromUnix_ok); congruence).
    all: destruct (Z.ltb_spec issued (unix e)), (Z.ltb_spec now (unix e)); cbn [negb]; split; try done; try lia; eauto with lia.
  - destruct (RequireExp w); [split; [done|]; intros [H _]; by destruct (H eq_refl)|].
    unfold DefaultMaxAgeWithoutExp, Hour, Minute, Second.
    destruct (Z.eqb_spec (MaxAge w) 0) as [->|].
    + cbn [Z.ltb]; destruct (Z.ltb_spec issued (now - 24 * (60 * (60 * 1000000000)))); cbn [andb]; split; try done; try lia.
    + destruct (Z.ltb_spec 0 (MaxAge w)); [|lia]; destruct (Z.ltb_spec issued (now - MaxAge w)); cbn [andb]; split; try done; try lia.
Qed.

(** [Window.Check] accepts exactly the fresh tokens, at every boundary. *)
Theorem Window_Check_exact w iat exp nbf now :
  Window_Check w iat exp nbf now = Ok tt <-> fresh w iat exp nbf now.
Proof.
  unfold Window_Check, fresh; destruct (Z.ltb_spec (MaxAge w) 0); [split; [done|lia]|].
  destruct (FromUnix iat) as [t|?] eqn:E; [apply FromUnix_ok in E as [Hd ->]|].
  2: { split; [done|]; intros (_ & Hi & _); assert (FromUnix iat = Ok (unix iat)) by (apply FromUnix_ok; split; [unfold date; lia|done]); congruence. }
  unfold date in Hd; destruct (Z.eqb_spec iat 0); [split; [done|lia]|].
  destruct (Z.ltb_spec (now + skew_of w) (unix iat)); [split; [done|lia]|].
  assert (Hexp : forall e, unix iat < unix e <-> iat < e) by (intros e; unfold unix, Second; lia).
  assert (Hf := checkFreshness_ok w (unix iat) exp now ltac:(lia)).
  destruct nbf as [b|]; [destruct (FromUnix b) as [nt|?] eqn:En; [apply FromUnix_ok in En as [Hn ->]|]|].
  - destruct (Z.ltb_spec (now + skew_of w) (unix b)).
    + split; [done|]; intros (_ & _ & _ & Hx & _); specialize (Hx b eq_refl); lia.
    + rewrite Hf; clear Hf; destruct exp as [e|]; rewrite ?Hexp; (split; [intros (? & ? & ?)|intros (? & ? & ? & ? & ? & ? & ?)]);
        destruct_and?; split_and!; try done; try lia; by intros ? [= <-].
  - split; [done|]; intros (_ & _ & _ & Hx & _); destruct (Hx b eq_refl) as [Hn _].
    assert (FromUnix b = Ok (unix b)) by (by apply FromUnix_ok); congruence.
  - rewrite Hf; clear Hf; destruct exp as [e|]; rewrite ?Hexp; (split; [intros (? & ? & ?)|intros (? & ? & ? & ? & ? & ? & ?)]);
      destruct_and?; split_and!; try done; lia.
Qed.

(** ** Integers as float64

    Integers below 2^53 are exact, so a date that is one is the same date as a
    JSON number. *)

Lemma digits2_bounds p : 2 ^ (Zpos (digits2_pos p) - 1) <= Zpos p < 2 ^ Zpos (digits2_pos p).
Proof.
  induction p as [p IH|p IH|]; cbn [digits2_pos]; [| |lia].
  all: rewrite Pos2Z.inj_succ, <- Z.add_1_r, Z.add_simpl_r, Z.pow_add_r by lia.
  all: replace (2 ^ Zpos (digits2_pos p)) with (2 * 2 ^ (Zpos (digits2_pos p) - 1)) in *
    by (rewrite <- Z.pow_succ_r by lia; f_equal; lia); lia.
Qed.

Lemma iter_xO k p : Zpos (Pos.iter xO p k) = Zpos p * 2 ^ Zpos k /\ digits2_pos (Pos.iter xO p k) = (digits2_pos p + k)%positive.
Proof.
  induction k as [|k [IHv IHd]] using Pos.peano_ind; [cbn; lia|].
  rewrite Pos.iter_succ; cbn [digits2_pos]; split; [|lia].
  rewrite Pos2Z.inj_xO, IHv, Pos2Z.inj_succ, Z.pow_succ_r; lia.
Qed.

(** The 53 digits of a small integer. *)
Lemma float_of_pos p : Zpos p < 2 ^ 53 ->
  exists m, float_of_int (Zpos p) = S754_finite false m (Zpos (digits2_pos p) - 53) /\
    Zpos m = Zpos p * 2 ^ (53 - Zpos (digits2_pos p)) /\ digits2_pos m = 53%positive /\ Zpos (digits2_pos p) <= 53.
Proof.
  intros Hp; pose proof (digits2_bounds p) as Hb; set (d := digits2_pos p) in *.
  assert (Hd : Zpos d <= 53).
  { destruct (Z.le_gt_cases (Zpos d) 53); [done|].
    assert (2 ^ 53 <= 2 ^ (Zpos d - 1)) by (apply Z.pow_le_mono_r; lia); lia. }
  assert (Hal : exists m, shl_align p 0 (fexp 53 1024 (Zpos d + 0)) = (m, Zpos d - 53) /\
    Zpos m = Zpos p * 2 ^ (53 - Zpos d) /\ digits2_pos m = 53%positive).
  { unfold shl_align, fexp, emin; rewrite Z.add_0_r, Z.sub_0_r.
    replace (Z.max (Zpos d - 53) (3 - 1024 - 53)) with (Zpos d - 53) by lia.
    destruct (Zpos d - 53) as [|k|k] eqn:Ek; [|lia|].
    - exists p; replace (Zpos d) with 53 by lia; split_and!; [done|lia|]; fold d; lia.
    - exists (Pos.iter xO p k); destruct (iter_xO k p) as [Hv Hn].
      replace (53 - Zpos d) with (Zpos k) by lia; split_and!; [done|done|]; fold d in Hn; lia. }
  destruct Hal as (m & Hal & Hv & Hm); exists m; split_and!; [|done|done|done].
  unfold float_of_int, binary_normalize, binary_round; fold d; rewrite Hal.
  assert (Hshr : forall l, shr_fexp 53 1024 (Zpos m) (Zpos d - 53) l = (shr_record_of_loc (Zpos m) l, Zpos d - 53)).
  { intros l; unfold shr_fexp; cbn [Zdigits2]; rewrite Hm; unfold fexp, emin.
    replace (Z.max (53 + (Zpos d - 53) - 53) (3 - 1024 - 53) - (Zpos d - 53)) with 0 by lia; done. }
  unfold binary_round_aux; rewrite Hshr; cbn [shr_record_of_loc shr_m loc_of_shr_record shr_r shr_s round_nearest_even].
  rewrite Hshr; cbn [shr_record_of_loc shr_m]; by rewrite (proj2 (Z.leb_le _ _)) by lia.
Qed.

Lemma int_of_float_of_int z : 0 <= z < 2 ^ 53 -> int_of_float (float_of_int z) = z.
Proof.
  intros Hz; destruct z as [|p|p]; [done| |lia].
  destruct (float_of_pos p) as (m & -> & Hm & _ & Hd); [lia|]; cbn [int_of_float].
  destruct (Z.leb_spec 0 (Zpos (digits2_pos p) - 53)).
  - replace (Zpos (digits2_pos p)) with 53 in * by lia; rewrite Hm; change (53 - 53) with 0; lia.
  - rewrite Hm; replace (- (Zpos (digits2_pos p) - 53)) with (53 - Zpos (digits2_pos p)) by lia.
    apply Z.div_mul; apply Z.pow_nonzero; lia.
Qed.

(** Numerically ordered: by the digits, then by value. *)
Lemma SFltb_pos p q : Zpos p < 2 ^ 53 -> Zpos q < 2 ^ 53 ->
  SFltb (float_of_int (Zpos p)) (float_of_int (Zpos q)) = (Zpos p <? Zpos q).
Proof.
  intros Hp Hq; destruct (float_of_pos p Hp) as (m & -> & Hm & _ & Hdp), (float_of_pos q Hq) as (n & -> & Hn & _ & Hdq).
  pose proof (digits2_bounds p); pose proof (digits2_bounds q); unfold SFltb; cbn [SFcompare].
  set (a := Zpos (digits2_pos p)) in *; set (b := Zpos (digits2_pos q)) in *.
  destruct (Z.compare_spec (a - 53) (b - 53)) as [E|E|E].
  - replace b with a in * by lia; change (Pos.compare_cont Eq m n) with (Pos.compare m n).
    assert (0 < 2 ^ (53 - a)) by (apply Z.pow_pos_nonneg; lia).
    destruct (Pos.compare_spec m n), (Z.ltb_spec (Zpos p) (Zpos q)); try done; subst; nia.
  - assert (2 ^ a <= 2 ^ (b - 1)) by (apply Z.pow_le_mono_r; lia); destruct (Z.ltb_spec (Zpos p) (Zpos q)); [done|lia].
  - assert (2 ^ b <= 2 ^ (a - 1)) by (apply Z.pow_le_mono_r; lia); destruct (Z.ltb_spec (Zpos p) (Zpos q)); [lia|done].
Qed.

(** A date is the same read from its JSON number. *)
Lemma FromFloat_int z : Z.abs z < 2 ^ 53 -> FromFloat (float_of_int z) = FromUnix z.
Proof.
  intros Hz; unfold FromFloat, FromUnix; destruct z as [|p|p]; [done| |].
  - rewrite int_of_float_of_int by lia; change Max with (Zpos 253402300799).
    rewrite SFltb_pos by lia.
    destruct (float_of_pos p) as (m & -> & _); [lia|]; cbn [is_nan SFltb SFcompare orb]; done.
  - assert (E : exists m e, float_of_int (Zneg p) = S754_finite true m e).
    { destruct (float_of_pos p) as (m & E & _); [lia|]; revert E; unfold float_of_int, binary_normalize, binary_round.
      destruct (shl_align _ _ _) as [mz ez]; unfold binary_round_aux.
      destruct (shr_fexp _ _ _ _ _) as [r e]; destruct (shr_fexp _ _ _ _ _) as [r' e'].
      destruct (shr_m r'); try done; destruct (e' <=? 1024 - 53); try done; eauto. }
    by destruct E as (m & e & ->).
Qed.
