(* ===== verification/Jws.v ===== *)
(** * Compact JWS: [internal/jose], with [internal/ecdsafixed] and [internal/jwk]'s smallorder.go

    Signing and verifying a compact JWS, ECDSA signatures between their ASN.1
    and their fixed-width forms, and the media type of a [typ] header.
    ECDSA, Ed25519, SHA-256, ASN.1 and JSON are parameters. *)
From S2P Require Import Prelude Cbor B64Url Json DcqlQuery DcqlValues Text JwtDate.
From Stdlib Require Import Ascii SpecFloat.
#[local] Open Scope Z_scope.

Inductive jose_error : Type :=
| ErrJWSTooLarge (n : Z)
| ErrNotCompact (parts : Z)
| ErrHeaderBase64 (e : b64_error)
| ErrHeaderJSON
| ErrEmptyCrit
| ErrCrit
| ErrHeaderAlg (alg : string)
| ErrPayloadBase64 (e : b64_error)
| ErrSignatureBase64 (e : b64_error)
| ErrKeyType
| ErrSmallOrder
| ErrSignatureLength (n : Z)
| ErrASN1
| ErrASN1Rest (n : Z)
| ErrSignatureRange
| ErrBadSignature
| ErrUnsupportedAlg (alg : string)
| ErrMarshalHeader
| ErrSigning.

(** ** What the package calls *)

(** encoding/json, and internal/strictjson's decoding into an [any] and into a
    []json.RawMessage; [None] is an error. *)
Class JsonText : Type := {
  marshal_object : list (string * goval) -> option bytes;
  unmarshal_any : bytes -> option goval;
  unmarshal_raws : bytes -> option (list bytes)
}.

(** Decoding into a map[string]any: null leaves it nil. *)
Definition unmarshal_object `{JsonText} (raw : bytes) : option (list (string * goval)) :=
  match unmarshal_any raw with
  | Some (VObject o) => Some o
  | Some VNil => Some []
  | _ => None
  end.

(** [s, _ := o[key].(string)]. *)
Definition string_member (key : string) (o : list (string * goval)) : string :=
  match member key o with Some (VString s) => s | _ => EmptyString end.

(** A crypto.PublicKey, by the type assertions made of it. *)
Inductive PublicKey {ec : Type} : Type :=
| ECDSAKey (p256 : bool) (k : ec)
| Ed25519Key (k : bytes)
| OtherKey.
Arguments PublicKey ec : clear implicits.

(** A crypto.Signer is what it signs with; [Sign] is given a digest by an
    ECDSA one, and gives ASN.1; the message by an Ed25519 one. *)
Class Signatures : Type := {
  ec : Type;
  signer : Type;
  Public : signer -> PublicKey ec;
  signer_Sign : signer -> bytes -> option bytes;
  Sum256 : bytes -> bytes;
  asn1_Marshal : Z -> Z -> option bytes;            (* of a signature's R and S *)
  asn1_Unmarshal : bytes -> option (Z * Z * bytes); (* and what is left *)
  VerifyASN1 : ec -> bytes -> bytes -> bool;
  ed25519_Verify : bytes -> bytes -> bytes -> bool
}.

(** ** ECDSA signatures *)

Section ECDSA.
Context `{Signatures}.

Definition fits (size v : Z) : bool := (0 <? v) && (v <? 2 ^ (8 * size)).

Definition ToFixed (der : bytes) (size : Z) : res jose_error bytes :=
  match asn1_Unmarshal der with
  | None => Err ErrASN1
  | Some (r, s, rest) =>
      if 0 <? blen rest then Err (ErrASN1Rest (blen rest))
      else if negb (fits size r) || negb (fits size s) then Err ErrSignatureRange
      else Ok (be_bytes (Z.to_nat size) r ++ be_bytes (Z.to_nat size) s)
  end.

Definition ToDER (fixed : bytes) (size : Z) : res jose_error bytes :=
  if negb (blen fixed =? 2 * size) then Err (ErrSignatureLength (blen fixed))
  else
    let r := be_value (slice fixed 0 size) in
    let s := be_value (slice fixed size (blen fixed)) in
    match asn1_Marshal r s with
    | None => Err ErrASN1
    | Some der => Ok der
    end.

End ECDSA.

(** ** Ed25519 keys of small order *)

Definition ed25519Near (low : Z) : bytes := low :: replicate 30 255 ++ [127].

Definition ed25519SmallOrder : list bytes :=
  [replicate 32 0;
   1 :: replicate 31 0;
   [0x26; 0xe8; 0x95; 0x8f; 0xc2; 0xb2; 0x27; 0xb0; 0x45; 0xc3; 0xf4; 0x89; 0xf2; 0xef; 0x98; 0xf0;
    0xd5; 0xdf; 0xac; 0x05; 0xd3; 0xc6; 0x33; 0x39; 0xb1; 0x38; 0x02; 0x88; 0x6d; 0x53; 0xfc; 0x05];
   [0xc7; 0x17; 0x6a; 0x70; 0x3d; 0x4d; 0xd8; 0x4f; 0xba; 0x3c; 0x0b; 0x76; 0x0d; 0x10; 0x67; 0x0f;
    0x2a; 0x20; 0x53; 0xfa; 0x2c; 0x39; 0xcc; 0xc6; 0x4e; 0xc7; 0xfd; 0x77; 0x92; 0xac; 0x03; 0x7a];
   ed25519Near 0xec; ed25519Near 0xed; ed25519Near 0xee].

Definition IsSmallOrderEd25519 (pub : bytes) : bool :=
  if negb (blen pub =? 32) then false
  else
    let masked := <[31%nat := Z.land (at_ pub 31) 0x7f]> pub in
    existsb (fun b => bool_decide (masked = b)) ed25519SmallOrder.

(** ** Media types *)

Definition lowerASCII (c : ascii) : ascii :=
  let n := code c in
  if (65 <=? n) && (n <=? 90) then ascii_of_N (Z.to_N (n + 32)) else c.

Fixpoint asciiEqualFold (a b : string) : bool :=
  match a, b with
  | EmptyString, EmptyString => true
  | String c a, String d b => Ascii.eqb (lowerASCII c) (lowerASCII d) && asciiEqualFold a b
  | _, _ => false
  end.

Definition mediaType (typ : string) : string :=
  if absent "/" typ then ("application/" ++ typ)%string else typ.

Definition TypeIs (typ want : string) : bool := asciiEqualFold (mediaType typ) (mediaType want).

(** ** Signing *)

Definition ES256 : string := "ES256".
Definition EdDSA : string := "EdDSA".

Definition IsSupported (alg : string) : bool := String.eqb alg ES256 || String.eqb alg EdDSA.

Definition b64_string (b : bytes) : string := bytes_string (EncodeToString b).
Definition b64_decode (s : string) : res b64_error bytes := DecodeString (string_bytes s).

Section JWS.
Context `{Signatures} `{JsonText}.

Definition signBytes (alg : string) (s : signer) (signingInput : bytes) : res jose_error bytes :=
  if String.eqb alg ES256 then
    match Public s with
    | ECDSAKey true _ =>
        match signer_Sign s (Sum256 signingInput) with
        | None => Err ErrSigning
        | Some der => ToFixed der 32
        end
    | _ => Err ErrKeyType
    end
  else if String.eqb alg EdDSA then
    match Public s with
    | Ed25519Key _ =>
        match signer_Sign s signingInput with
        | None => Err ErrSigning
        | Some sig => Ok sig
        end
    | _ => Err ErrKeyType
    end
  else Err (ErrUnsupportedAlg alg).

Definition Sign (alg : string) (s : signer) (header : list (string * goval)) (payload : bytes) : res jose_error string :=
  match marshal_object (set_member "alg" (VString alg) header) with
  | None => Err ErrMarshalHeader
  | Some headerJSON =>
      let signingInput := (b64_string headerJSON ++ "." ++ b64_string payload)%string in
      let? sig := signBytes alg s (string_bytes signingInput) in
      Ok (signingInput ++ "." ++ b64_string sig)%string
  end.

(** ** Verifying *)

Definition verifyBytes (alg : string) (pub : PublicKey ec) (signingInput sig : bytes) : res jose_error unit :=
  if String.eqb alg ES256 then
    match pub with
    | ECDSAKey true k =>
        let? der := ToDER sig 32 in
        if VerifyASN1 k (Sum256 signingInput) der then Ok tt else Err ErrBadSignature
    | _ => Err ErrKeyType
    end
  else if String.eqb alg EdDSA then
    match pub with
    | Ed25519Key k =>
        if negb (blen k =? 32) then Err ErrKeyType
        else if IsSmallOrderEd25519 k then Err ErrSmallOrder
        else if ed25519_Verify k signingInput sig then Ok tt else Err ErrBadSignature
    | _ => Err ErrKeyType
    end
  else Err (ErrUnsupportedAlg alg).

Definition split (compact : string) : res jose_error (string * string * string) :=
  match split_on "." compact with
  | [header; payload; sig] => Ok (header, payload, sig)
  | parts => Err (ErrNotCompact (blen parts))
  end.

Definition decodeHeader (encHeader : string) : res jose_error (list (string * goval)) :=
  let? raw := res_map_err ErrHeaderBase64 (b64_decode encHeader) in
  match unmarshal_object raw with
  | None => Err ErrHeaderJSON
  | Some header =>
      match member "crit" header with
      | Some (VArray []) => Err ErrEmptyCrit
      | Some _ => Err ErrCrit
      | None => Ok header
      end
  end.

Definition MaxCompactBytes : Z := 2 ^ 16.

Definition VerifyMax (alg : string) (pub : PublicKey ec) (compact : string) (maxBytes : Z)
    : res jose_error (list (string * goval) * bytes) :=
  if maxBytes <? slen compact then Err (ErrJWSTooLarge (slen compact))
  else
    let? (h, encPayload, encSig) := split compact in
    let? header := decodeHeader h in
    if negb (String.eqb (string_member "alg" header) alg) then Err (ErrHeaderAlg (string_member "alg" header))
    else
      let? payload := res_map_err ErrPayloadBase64 (b64_decode encPayload) in
      let? sig := res_map_err ErrSignatureBase64 (b64_decode encSig) in
      let? _ := verifyBytes alg pub (string_bytes (h ++ "." ++ encPayload)%string) sig in
      Ok (header, payload).

Definition Verify (alg : string) (pub : PublicKey ec) (compact : string) : res jose_error (list (string * goval) * bytes) :=
  VerifyMax alg pub compact MaxCompactBytes.

Definition DecodeUnverifiedMax (compact : string) (maxBytes : Z) : res jose_error (list (string * goval) * bytes) :=
  if maxBytes <? slen compact then Err (ErrJWSTooLarge (slen compact))
  else
    let? (h, encPayload, _) := split compact in
    let? header := decodeHeader h in
    let? payload := res_map_err ErrPayloadBase64 (b64_decode encPayload) in
    Ok (header, payload).

Definition DecodeUnverified (compact : string) : res jose_error (list (string * goval) * bytes) :=
  DecodeUnverifiedMax compact MaxCompactBytes.

End JWS.

(** ** What is promised of them *)

(** The nesting of a value, which encoding/json bounds. *)
Fixpoint levels (v : goval) : nat :=
  match v with
  | VObject o => S (foldr (fun p n => Nat.max (levels p.2) n) 0%nat o)
  | VArray l => S (foldr (fun v n => Nat.max (levels v) n) 0%nat l)
  | _ => 1%nat
  end.

Definition utf8 (s : string) : bool := utf8_valid (string_bytes s).

(** The float64s JSON has. *)
Definition finite_float (f : spec_float) : bool :=
  valid_binary 53 1024 f && match f with S754_zero _ | S754_finite _ _ _ => true | _ => false end.

(** What decoding the JSON of a value gives: an integer is a float64, exactly
    where it is small, and an object's members are in any order. *)
Inductive reads : goval -> goval -> Prop :=
| reads_nil : reads VNil VNil
| reads_bool b : reads (VBool b) (VBool b)
| reads_string s : utf8 s = true -> reads (VString s) (VString s)
| reads_int z : Z.abs z < 2 ^ 53 -> reads (VInt z) (VFloat (float_of_int z))
| reads_float f : finite_float f = true -> reads (VFloat f) (VFloat f)
| reads_array l l' : Forall2 reads l l' -> reads (VArray l) (VArray l')
| reads_object o o' o'' : o ≡ₚ o' -> NoDup o.*1 -> Forall2 (fun p q => p.1 = q.1 /\ utf8 p.1 = true /\ reads p.2 q.2) o' o'' ->
    reads (VObject o) (VObject o'').

(** A value JSON can hold. *)
Definition json_value (v : goval) : Prop := (levels v <= 10000)%nat /\ exists w, reads v w.

(** A value whose objects have each member once, as Go maps do. *)
Fixpoint map_wf (v : goval) : Prop :=
  match v with
  | VObject o => NoDup o.*1 /\ foldr (fun p P => map_wf p.2 /\ P) True o
  | VArray l => foldr (fun v P => map_wf v /\ P) True l
  | _ => True
  end.

(** What is read is a Go value, and nothing is read of no text. *)
Class JsonReads `{JsonText} : Prop := {
  unmarshal_any_law raw v : unmarshal_any raw = Some v -> map_wf v;
  unmarshal_raws_empty : unmarshal_raws [] = None
}.

(** What is written is read back. *)
Class JsonTextLaws `{JsonText} : Prop := {
  marshal_object_law o raw : marshal_object o = Some raw ->
    bytes_ok raw /\ (json_value (VObject o) -> exists w, unmarshal_any raw = Some w /\ reads (VObject o) w);
  marshal_object_total o : json_value (VObject o) -> is_Some (marshal_object o)
}.

(** A signer's signatures verify under its public key, in the DER they are
    given as and re-encoded. *)
Class SignaturesLaws `{Signatures} : Prop := {
  ecdsa_law s k digest der r t rest : Public s = ECDSAKey true k -> signer_Sign s digest = Some der ->
    asn1_Unmarshal der = Some (r, t, rest) -> exists der', asn1_Marshal r t = Some der' /\ VerifyASN1 k digest der' = true;
  ed25519_law s k message sig : Public s = Ed25519Key k -> signer_Sign s message = Some sig ->
    bytes_ok sig /\ ed25519_Verify k message sig = true
}.

(** A key Verify takes. *)
Definition usable {ec} (alg : string) (pub : PublicKey ec) : Prop :=
  match pub with
  | ECDSAKey p256 _ => alg = ES256 /\ p256 = true
  | Ed25519Key k => alg = EdDSA /\ blen k = 32 /\ IsSmallOrderEd25519 k = false
  | OtherKey => False
  end.

(** ** What is signed verifies *)

Lemma b64_decode_string b : bytes_ok b -> b64_decode (b64_string b) = Ok b.
Proof.
  intros Hb; unfold b64_decode, b64_string; rewrite string_of_bytes; [by apply b64url_decode_encode|].
  unfold EncodeToString, bytes_ok; eapply Forall_impl; [apply encode_quanta_alphabet|].
  unfold isAlphabet, byte_ok; intros c Hc; bool_prop; destruct_or?; bool_prop; lia.
Qed.

Lemma b64_decode_canonical s b : b64_decode s = Ok b -> s = b64_string b /\ bytes_ok b.
Proof.
  intros Hb; apply b64url_canonical in Hb as [He Hb]; split; [|done].
  unfold b64_string; by rewrite He, bytes_of_string.
Qed.

(** What a header's text holds, when it is taken. *)
Lemma decodeHeader_ok `{JsonText} s header : decodeHeader s = Ok header <->
  exists raw, s = b64_string raw /\ bytes_ok raw /\ unmarshal_object raw = Some header /\ member "crit" header = None.
Proof.
  unfold decodeHeader; split.
  - destruct (b64_decode s) as [raw|] eqn:E; cbn [res_map_err res_bind]; [|done]; apply b64_decode_canonical in E as [-> Hraw].
    destruct (unmarshal_object raw) as [h|] eqn:Eu; [|done]; destruct (member "crit" h) as [[| | | | | | |[]| | | |]|] eqn:Ec; try done.
    intros [= <-]; eauto.
  - intros (raw & -> & Hraw & Hu & Hc); rewrite b64_decode_string by done; cbn [res_map_err res_bind]; by rewrite Hu, Hc.
Qed.

Lemma dot_absent b : absent "." (b64_string b) = true.
Proof. apply absent_b64; intros c Hc ->; by vm_compute in Hc. Qed.

Lemma tilde_absent b : absent "~" (b64_string b) = true.
Proof. apply absent_b64; intros c Hc ->; by vm_compute in Hc. Qed.

Lemma split_compact h p s : absent "." h = true -> absent "." p = true -> absent "." s = true ->
  split ((h ++ "." ++ p) ++ "." ++ s)%string = Ok (h, p, s).
Proof.
  intros Hh Hp Hs; unfold split.
  assert (E : ((h ++ "." ++ p) ++ "." ++ s)%string = join (char_string ".") [h; p; s]).
  { rewrite !join_cons; cbn [join]; by rewrite <- !append_assoc. }
  by rewrite E, split_join by (done || by repeat constructor).
Qed.

Lemma split_inv compact h p s : split compact = Ok (h, p, s) -> compact = ((h ++ "." ++ p) ++ "." ++ s)%string.
Proof.
  unfold split; pose proof (join_split "." compact) as Hj.
  destruct (split_on "." compact) as [|x [|y [|z [|? ?]]]]; try done; intros [= -> -> ->].
  rewrite <- Hj, !join_cons; cbn [join]; by rewrite <- !append_assoc.
Qed.

Lemma member_elem key o v : NoDup o.*1 -> (key, v) ∈ o -> member key o = Some v.
Proof.
  induction o as [|[k a] o IH]; [by intros _ ?%elem_of_nil|]; intros [Hn Hnd]%NoDup_cons [[= -> ->]|Hin]%elem_of_cons; cbn.
  - by rewrite String.eqb_refl.
  - destruct (String.eqb_spec k key) as [->|]; [|by apply IH]; exfalso; apply Hn.
    by apply (list_elem_of_fmap_2 fst o (key, v)).
Qed.

Lemma member_perm key o o' : NoDup o.*1 -> o ≡ₚ o' -> member key o = member key o'.
Proof.
  intros Hnd Hp; assert (Hnd' : NoDup o'.*1) by (by rewrite <- Hp); destruct (member key o) as [v|] eqn:E.
  - symmetry; apply member_elem; [done|]; rewrite <- Hp; by apply member_Some_elem.
  - symmetry; apply member_None; rewrite <- Hp; by apply member_None.
Qed.

(** A member is read where it is. *)
Lemma reads_member key o w : reads (VObject o) (VObject w) ->
  match member key o with
  | Some v => exists v', member key w = Some v' /\ reads v v'
  | None => member key w = None
  end.
Proof.
  inversion 1 as [| | | | | |? o' ? Hp Hnd Hf]; subst; rewrite (member_perm key o o') by done; clear Hp Hnd H.
  induction Hf as [|[k a] [k' b] p q (Hk & _ & Hr) _ IH]; cbn in *; [done|]; subst k'.
  destruct (String.eqb_spec k key); [eauto|apply IH].
Qed.

Lemma reads_string_member key s o w : member key o = Some (VString s) -> reads (VObject o) (VObject w) -> member key w = Some (VString s).
Proof.
  intros Hm Hr; apply (reads_member key) in Hr; rewrite Hm in Hr; destruct Hr as (v' & -> & Hv); by inversion Hv; subst.
Qed.

Lemma reads_is_object o w : reads (VObject o) w -> exists o', w = VObject o'.
Proof. inversion 1; eauto. Qed.

Section Sound.
Context `{SignaturesLaws} `{JsonTextLaws}.

Lemma fits_value size v : 0 <= size -> fits size v = true -> be_value (be_bytes (Z.to_nat size) v) = v.
Proof using.
  intros Hs [Hl Hu]%andb_true_iff; apply Z.ltb_lt in Hl, Hu.
  rewrite be_value_bytes, Z2Nat.id by done; apply Z.mod_small.
  change 256 with (2 ^ 8); rewrite <- Z.pow_mul_r by lia; lia.
Qed.

(** The fixed-width form holds the signature's values, and no more. *)
Lemma ToDER_ToFixed der size fixed : 0 <= size -> ToFixed der size = Ok fixed ->
  exists r s, asn1_Unmarshal der = Some (r, s, []) /\ bytes_ok fixed /\
    ToDER fixed size = match asn1_Marshal r s with Some d => Ok d | None => Err ErrASN1 end.
Proof using.
  intros Hs; unfold ToFixed; destruct (asn1_Unmarshal der) as [[[r s] rest]|]; [|done].
  go_if; [done|]; destruct (fits size r) eqn:Hr, (fits size s) eqn:Ht; try done; intros [= <-].
  assert (rest = []) as -> by (apply blen_zero; pose proof (blen_nonneg rest); lia).
  exists r, s; split_and!; [done|by apply Forall_app; split; apply be_bytes_ok|].
  unfold ToDER; rewrite blen_app, !be_bytes_blen, !Z2Nat.id by done.
  replace (size + size =? 2 * size) with true by (symmetry; apply Z.eqb_eq; lia); cbn [negb].
  unfold slice; rewrite Z.sub_0_r, Z.add_simpl_r; change (Z.to_nat 0) with 0%nat; rewrite drop_0.
  rewrite take_app_length' by (by rewrite be_bytes_length); rewrite drop_app_length' by (by rewrite be_bytes_length).
  rewrite take_ge by (by rewrite be_bytes_length); by rewrite !fits_value.
Qed.

Lemma verifyBytes_sign alg s m sig : usable alg (Public s) -> signBytes alg s m = Ok sig ->
  bytes_ok sig /\ verifyBytes alg (Public s) m sig = Ok tt.
Proof using All.
  unfold usable, signBytes, verifyBytes; destruct (Public s) as [p256 k|k|] eqn:Hp; [| |done].
  - intros [-> ->]; cbn [String.eqb Ascii.eqb Bool.eqb]; destruct (signer_Sign s (Sum256 m)) as [der|] eqn:Es; [|done].
    intros Hf; destruct (ToDER_ToFixed der 32 sig ltac:(lia) Hf) as (r & t & Hu & Hok & ->).
    destruct (ecdsa_law _ _ _ _ _ _ _ Hp Es Hu) as (der' & -> & Hv); cbn [res_bind]; by rewrite Hv.
  - intros (-> & Hl & Hso); cbn [String.eqb Ascii.eqb Bool.eqb]; destruct (signer_Sign s m) as [sg|] eqn:Es; [|done].
    intros [= <-]; destruct (ed25519_law _ _ _ _ Hp Es) as [Hok Hv]; by rewrite Hl, Hso, Hv.
Qed.

(** Verify takes what Sign makes, and gives back its header, as JSON reads it,
    and its payload. *)
Lemma Verify_Sign alg s header payload compact : usable alg (Public s) ->
  Sign alg s header payload = Ok compact -> slen compact <= MaxCompactBytes -> bytes_ok payload ->
  json_value (VObject (set_member "alg" (VString alg) header)) -> member "crit" header = None ->
  exists h, reads (VObject (set_member "alg" (VString alg) header)) (VObject h) /\ Verify alg (Public s) compact = Ok (h, payload) /\
    DecodeUnverified compact = Ok (h, payload).
Proof using All.
  intros Hu; unfold Sign; destruct (marshal_object _) as [raw|] eqn:Em; [|done].
  destruct (signBytes _ _ _) as [sig|] eqn:Es; cbn [res_bind]; [|done]; intros [= <-] Hlen Hp Hjson Hcrit.
  destruct (marshal_object_law _ _ Em) as [Hraw (w & Hw & Hr)]; [done|]; destruct (reads_is_object _ _ Hr) as [h ->].
  destruct (verifyBytes_sign _ _ _ _ Hu Es) as [Hsig Hv]; exists h; split; [done|].
  assert (Hh : decodeHeader (b64_string raw) = Ok h).
  { unfold decodeHeader, unmarshal_object; rewrite b64_decode_string by done; cbn [res_map_err res_bind]; rewrite Hw.
    pose proof (reads_member "crit" _ _ Hr) as Hc; rewrite member_set_member in Hc; cbn in Hc; rewrite Hcrit in Hc; by rewrite Hc. }
  unfold Verify, VerifyMax, DecodeUnverified, DecodeUnverifiedMax.
  rewrite (proj2 (Z.ltb_ge _ _) Hlen), split_compact by apply dot_absent; cbn [res_bind]; rewrite Hh; cbn [res_bind].
  rewrite !b64_decode_string by done; cbn [res_map_err res_bind].
  assert (Ha : string_member "alg" h = alg).
  { unfold string_member; erewrite reads_string_member; [done| |exact Hr]; by rewrite member_set_member. }
  by rewrite Ha, String.eqb_refl, Hv.
Qed.
End Sound.

(** ** What verifies *)

(** C30: a compact JWS is accepted exactly when it is the canonical encodings of
    a header, a payload and a signature, the header names the algorithm asked
    for and no critical extension, and the signature verifies over the text of
    the first two. *)
Theorem Verify_exact `{Signatures} `{JsonText} alg pub compact maxBytes header payload :
  VerifyMax alg pub compact maxBytes = Ok (header, payload) <->
  slen compact <= maxBytes /\ exists raw sig, bytes_ok raw /\ bytes_ok payload /\ bytes_ok sig /\
    let signed := (b64_string raw ++ "." ++ b64_string payload)%string in
    compact = (signed ++ "." ++ b64_string sig)%string /\
    unmarshal_object raw = Some header /\ member "crit" header = None /\ string_member "alg" header = alg /\
    verifyBytes alg pub (string_bytes signed) sig = Ok tt.
Proof.
  unfold VerifyMax; split.
  - go_if; [done|]; destruct (split compact) as [[[h p] sg]|] eqn:Es; cbn [res_bind]; [|done]; apply split_inv in Es as ->.
    destruct (decodeHeader h) as [hd|] eqn:Eh; cbn [res_bind]; [|done]; apply decodeHeader_ok in Eh as (raw & -> & Hraw & Hu & Hc).
    go_if; [done|]; destruct (b64_decode p) as [pl|] eqn:Ep; cbn [res_map_err res_bind]; [|done].
    destruct (b64_decode sg) as [sig|] eqn:Esg; cbn [res_map_err res_bind]; [|done].
    apply b64_decode_canonical in Ep as [-> Hp]; apply b64_decode_canonical in Esg as [-> Hsg].
    destruct (verifyBytes _ _ _ _) as [[]|] eqn:Ev; cbn [res_bind]; [|done]; intros [= <- <-]; bool_prop.
    split; [done|]; exists raw, sig; split_and!; try done; by apply String.eqb_eq.
  - intros (Hl & raw & sig & Hr & Hp & Hs & -> & Hu & Hc & Ha & Hv).
    rewrite (proj2 (Z.ltb_ge _ _) Hl), split_compact by apply dot_absent; cbn [res_bind].
    rewrite (proj2 (decodeHeader_ok _ _)) by eauto; cbn [res_bind]; rewrite Ha, String.eqb_refl; cbn [negb].
    by rewrite !b64_decode_string by done; cbn [res_map_err res_bind]; rewrite Hv.
Qed.
