(* ===== verification/X509.v ===== *)
(** * Certificates, as the repository reads them: crypto/x509

    The fields of an x509.Certificate and an x509.RevocationList that the
    repository looks at, and the functions of crypto/x509 it calls, a class.  An
    object identifier is the list of its numbers; a big.Int a [Z]. *)
From S2P Require Import Prelude JwtDate Jws.
#[local] Open Scope Z_scope.

Record Extension : Type := { Id : list Z; Critical : bool; ext_Value : bytes }.

Section Certificates.
Context `{Signatures}.

(** [PublicKey] as a signature key; [RSA], as an *rsa.PublicKey's N and E. *)
Record Certificate : Type := {
  Raw : bytes;
  RawIssuer : bytes;
  RawSubject : bytes;
  RawSubjectPublicKeyInfo : bytes;
  Country : list string;                 (* the subject's *)
  Province : list string;
  SubjectKeyId : bytes;
  AuthorityKeyId : bytes;
  cert_PublicKey : PublicKey ec;
  RSA : option (Z * Z);
  SerialNumber : Z;
  NotBefore : Z;
  NotAfter : Z;
  BasicConstraintsValid : bool;
  IsCA : bool;
  KeyUsage : Z;
  ExtKeyUsage : list Z;
  UnknownExtKeyUsage : list (list Z);
  cert_Extensions : list Extension;
  DNSNames : list string;
  URIs : list string                     (* each as its String gives it *)
}.

Record RevocationListEntry : Type := { entry_SerialNumber : option Z; entry_Extensions : list Extension }.

Record RevocationList : Type := {
  list_Raw : bytes;
  list_RawIssuer : bytes;
  ThisUpdate : Z;
  NextUpdate : Z;
  RevokedCertificateEntries : list RevocationListEntry;
  list_Extensions : list Extension
}.

(** Where an *x509.CertPool matters: whether it is the system's. *)
Class X509 : Type := {
  CertPool : Type;
  pool_of : list Certificate -> CertPool;
  IsSystemPool : CertPool -> bool;
  ParseCertificate : bytes -> option Certificate;
  CheckSignature_own : Certificate -> bool;        (* by its own key *)
  CheckSignatureFrom : Certificate -> Certificate -> bool;
  CheckCRLSignatureFrom : RevocationList -> Certificate -> bool;
  (* leaf.Verify: the paths to the roots, of the leaf and these intermediates, for any extended key usage *)
  x509_Verify : Certificate -> list Certificate -> CertPool -> Z -> option (list (list Certificate));
  key_Equal : PublicKey ec -> PublicKey ec -> bool;
  unmarshal_oids : bytes -> option (list (list Z));  (* with nothing left *)
  spki_bits : bytes -> option bytes;                 (* a SubjectPublicKeyInfo's BIT STRING, with nothing left *)
  sha1_Sum : bytes -> bytes
}.

Context `{!X509}.

Definition selfSigned (cert : Certificate) : bool :=
  bool_decide (RawIssuer cert = RawSubject cert) && CheckSignature_own cert.

End Certificates.

Definition oid_in (oid : list Z) (l : list (list Z)) : bool := existsb (fun o => bool_decide (o = oid)) l.

(** ** big.Int.Bytes *)

(** The fewest bytes that hold [z], big-endian. *)
Definition abs_bytes (z : Z) : bytes :=
  if z =? 0 then [] else be_bytes (Z.to_nat (Z.log2 (Z.abs z) / 8 + 1)) (Z.abs z).

Lemma be_value_abs z : be_value (abs_bytes z) = Z.abs z.
Proof.
  unfold abs_bytes; destruct (Z.eqb_spec z 0) as [->|Hz]; [done|]; rewrite be_value_bytes.
  assert (Hl := Z.log2_nonneg (Z.abs z)); rewrite Z2Nat.id by (apply Z.add_nonneg_nonneg; [apply Z.div_pos|]; lia).
  apply Z.mod_small; split; [lia|]; destruct (Z.log2_spec (Z.abs z)) as [_ Hlt]; [lia|]; eapply Z.lt_le_trans; [exact Hlt|].
  replace 256 with (2 ^ 8) by done; rewrite <- Z.pow_mul_r by (try apply Z.add_nonneg_nonneg; try apply Z.div_pos; lia).
  apply Z.pow_le_mono_r; [lia|]; pose proof (Z.mod_pos_bound (Z.log2 (Z.abs z)) 8); pose proof (Z.div_mod (Z.log2 (Z.abs z)) 8); lia.
Qed.
