(* ===== verification/CertRevocation.v ===== *)
(** * Certificate revocation lists: [certrevocation]'s certrevocation.go and listindex.go

    Whether a verified path holds a revoked certificate.  What is found of a
    list is kept with it; the theorem: a check gives what reading the lists
    afresh would, and passes exactly the paths every certificate of which its
    issuer's current lists all spare. *)
From stdpp Require Import sorting.
From S2P Require Import Prelude JwtDate Jws X509.
#[local] Open Scope Z_scope.

Inductive revocation_error : Type :=
| ErrRevoked
| ErrNoCurrentCRL
| ErrListsRequired
| ErrLists.

Definition CRLClockSkew : Z := 5 * Minute.

Definition oidDeltaCRLIndicator : list Z := [2; 5; 29; 27].
Definition oidIssuingDistributionPoint : list Z := [2; 5; 29; 28].
Definition understoodCRLExtensions : list (list Z) := [[2; 5; 29; 35]; [2; 5; 29; 20]].
Definition understoodEntryExtensions : list (list Z) := [[2; 5; 29; 21]; [2; 5; 29; 24]].

Definition notYetValid (l : RevocationList) (now : Z) : bool := now + CRLClockSkew <? ThisUpdate l.

Definition understood (oids : list (list Z)) (ext : Extension) : bool := negb (Critical ext) || oid_in (Id ext) oids.

Definition criticalUnderstood (l : RevocationList) : bool :=
  forallb (understood understoodCRLExtensions) (list_Extensions l) &&
  forallb (fun entry => forallb (understood understoodEntryExtensions) (entry_Extensions entry)) (RevokedCertificateEntries l).

Definition completeAndDirect (l : RevocationList) : bool :=
  negb (existsb (fun ext => oid_in (Id ext) [oidDeltaCRLIndicator; oidIssuingDistributionPoint]) (list_Extensions l)).

(** A serial number's key: its sign, then its bytes. *)
Definition serialKey (n : Z) : bool * bytes := (n <? 0, abs_bytes n).

Section CRLs.
Context `{Signatures} `{!X509}.

(** What is kept of a list: its form and serial numbers, and whose key, by the
    SHA-256 of the certificate, verified it. *)
Record listIndex : Type := {
  usable : bool;
  revoked : gset (bool * bytes);
  verified : gmap bytes bool
}.

Definition entry_keys (l : RevocationList) : list (bool * bytes) :=
  omap (fun entry => serialKey <$> entry_SerialNumber entry) (RevokedCertificateEntries l).

Definition new_index (l : RevocationList) : listIndex :=
  let usable := completeAndDirect l && criticalUnderstood l in
  {| usable := usable; revoked := if usable then list_to_set (entry_keys l) else ∅; verified := ∅ |}.

(** A list and what is kept of it, nothing at first. *)
Definition kept_list : Type := RevocationList * option listIndex.

Definition indexOf (l : kept_list) : option listIndex :=
  match list_Raw l.1 with
  | [] => None
  | _ => Some (match l.2 with Some idx => idx | None => new_index l.1 end)
  end.

Definition signedBy (idx : listIndex) (l : RevocationList) (issuer : Certificate) : bool * listIndex :=
  match Raw issuer with
  | [] => (CheckCRLSignatureFrom l issuer, idx)
  | raw =>
      let key := Sum256 raw in
      match verified idx !! key with
      | Some ok => (ok, idx)
      | None =>
          let ok := CheckCRLSignatureFrom l issuer in
          (ok, {| usable := usable idx; revoked := revoked idx; verified := <[key := ok]> (verified idx) |})
      end
  end.

Definition crlUsableFor (l : kept_list) (issuer : Certificate) (now : Z) : bool * kept_list :=
  if negb (bool_decide (list_RawIssuer l.1 = RawSubject issuer)) then (false, l)
  else if (NextUpdate l.1 =? time_zero) || notYetValid l.1 now || negb (now <? NextUpdate l.1) then (false, l)
  else match indexOf l with
  | Some idx =>
      if usable idx then let '(ok, idx) := signedBy idx l.1 issuer in (ok, (l.1, Some idx))
      else (false, (l.1, Some idx))
  | None => (completeAndDirect l.1 && criticalUnderstood l.1 && CheckCRLSignatureFrom l.1 issuer, l)
  end.

Definition revokes (l : kept_list) (serial : Z) : bool :=
  match indexOf l with
  | Some idx => bool_decide (serialKey serial ∈ revoked idx)
  | None => existsb (fun entry => bool_decide (entry_SerialNumber entry = Some serial)) (RevokedCertificateEntries l.1)
  end.

(** checkAgainstCRLs from a list on, [found] whether one before was usable. *)
Fixpoint crls_loop (cert issuer : Certificate) (now : Z) (lists : list kept_list) (found : bool)
    : res revocation_error unit * list kept_list :=
  match lists with
  | [] => (if found then Ok tt else Err ErrNoCurrentCRL, [])
  | l :: lists =>
      let '(ok, l) := crlUsableFor l issuer now in
      if negb ok then let '(r, lists) := crls_loop cert issuer now lists found in (r, l :: lists)
      else if revokes l (SerialNumber cert) then (Err ErrRevoked, l :: lists)
      else let '(r, lists) := crls_loop cert issuer now lists true in (r, l :: lists)
  end.

Definition checkAgainstCRLs (cert issuer : Certificate) (lists : list kept_list) (now : Z)
    : res revocation_error unit * list kept_list := crls_loop cert issuer now lists false.

Fixpoint anchor_loop (issuers : list Certificate) (cert : Certificate) (lists : list kept_list) (now : Z)
    : res revocation_error unit * list kept_list :=
  match issuers with
  | [] => (Err ErrNoCurrentCRL, lists)
  | issuer :: issuers =>
      if bool_decide (RawIssuer cert = RawSubject issuer) && CheckSignatureFrom cert issuer
      then checkAgainstCRLs cert issuer lists now
      else anchor_loop issuers cert lists now
  end.

(** CheckRevocation's loop over a path, then its anchor. *)
Fixpoint chain_loop (issuers : list Certificate) (chain : list Certificate) (lists : list kept_list) (now : Z)
    : res revocation_error unit * list kept_list :=
  match chain with
  | [] => (Ok tt, lists)
  | [anchor] => if selfSigned anchor then (Ok tt, lists) else anchor_loop issuers anchor lists now
  | cert :: (issuer :: _) as rest =>
      match checkAgainstCRLs cert issuer lists now with
      | (Err e, lists) => (Err e, lists)
      | (Ok _, lists) => chain_loop issuers rest lists now
      end
  end.

(** [Lists]: unset, failing, or the lists it gives; [clock], time.Now where
    check.Now is zero. *)
Definition CheckRevocation (Lists : option (option (list kept_list))) (issuers : list Certificate) (chain : list Certificate)
    (checkNow clock : Z) : res revocation_error unit * option (list kept_list) :=
  match Lists with
  | None => (Err ErrListsRequired, None)
  | Some None => (Err ErrLists, None)
  | Some (Some lists) =>
      let now := if checkNow =? time_zero then clock else checkNow in
      let '(r, lists) := chain_loop issuers chain lists now in (r, Some lists)
  end.

(** ** What a list says, read afresh *)

Definition current (l : RevocationList) (issuer : Certificate) (now : Z) : Prop :=
  list_RawIssuer l = RawSubject issuer /\ NextUpdate l <> time_zero /\ ThisUpdate l <= now + CRLClockSkew /\ now < NextUpdate l /\
  completeAndDirect l = true /\ criticalUnderstood l = true /\ CheckCRLSignatureFrom l issuer = true.

Definition names (l : RevocationList) (serial : Z) : Prop :=
  exists entry, entry ∈ RevokedCertificateEntries l /\ entry_SerialNumber entry = Some serial.

(** Every current list of its issuer spares a certificate, and there is one. *)
Definition spared (lists : list RevocationList) (now : Z) (cert issuer : Certificate) : Prop :=
  (exists l, l ∈ lists /\ current l issuer now) /\
  forall l, l ∈ lists -> current l issuer now -> ~ names l (SerialNumber cert).

Definition issued_by (cert issuer : Certificate) : bool :=
  bool_decide (RawIssuer cert = RawSubject issuer) && CheckSignatureFrom cert issuer.

(** Each certificate of a path, by the next; and an anchor that is no root, by
    the first of the issuers that issued it. *)
Definition path_spared (lists : list RevocationList) (issuers : list Certificate) (now : Z) (chain : list Certificate) : Prop :=
  (forall i cert issuer, chain !! i = Some cert -> chain !! S i = Some issuer -> spared lists now cert issuer) /\
  (forall anchor, last chain = Some anchor -> selfSigned anchor = true \/
    exists issuer, List.find (issued_by anchor) issuers = Some issuer /\ spared lists now anchor issuer).

(** What is kept of a list is what it says. *)
Definition kept_ok (l : kept_list) : Prop :=
  match l.2 with
  | None => True
  | Some idx => usable idx = completeAndDirect l.1 && criticalUnderstood l.1 /\
      (usable idx = true -> revoked idx = list_to_set (entry_keys l.1)) /\
      forall issuer ok, Raw issuer <> [] -> verified idx !! Sum256 (Raw issuer) = Some ok -> ok = CheckCRLSignatureFrom l.1 issuer
  end.

(** A digest stands for its certificate: no two are tried with one digest. *)
Context (digests_apart : forall l a b, Raw a <> [] -> Raw b <> [] -> Sum256 (Raw a) = Sum256 (Raw b) ->
  CheckCRLSignatureFrom l a = CheckCRLSignatureFrom l b).

Lemma serialKey_inj a b : serialKey a = serialKey b -> a = b.
Proof using.
  unfold serialKey; intros [= Hs Hb]; apply (f_equal be_value) in Hb; rewrite !be_value_abs in Hb.
  destruct (Z.ltb_spec a 0), (Z.ltb_spec b 0); lia || done.
Qed.

Lemma new_index_ok (l : RevocationList) : kept_ok (l, Some (new_index l)).
Proof using.
  unfold new_index; split_and!; cbn [usable revoked verified]; [done| |intros issuer ok _; by rewrite lookup_empty].
  by intros ->.
Qed.

Lemma indexOf_ok (l : kept_list) idx : kept_ok l -> indexOf l = Some idx -> kept_ok (l.1, Some idx).
Proof using.
  destruct l as [l [k|]]; unfold indexOf; cbn [fst snd]; destruct (list_Raw l); try done; intros Hk [= <-]; [done|apply new_index_ok].
Qed.

Lemma signedBy_ok (l : RevocationList) idx issuer : kept_ok (l, Some idx) ->
  let '(ok, idx') := signedBy idx l issuer in ok = CheckCRLSignatureFrom l issuer /\ kept_ok (l, Some idx') /\
    usable idx' = usable idx /\ revoked idx' = revoked idx.
Proof using digests_apart.
  intros (Hu & Hr & Hv); unfold signedBy; destruct (Raw issuer) as [|b raw] eqn:Er; [by split_and!|]; rewrite <- Er.
  assert (Hne : Raw issuer <> []) by (by rewrite Er).
  destruct (verified idx !! Sum256 (Raw issuer)) as [ok|] eqn:Ev; [split; [by apply Hv|by split_and!]|].
  split; [done|split; [|done]]; split; [done|split; [done|]]; intros other ok Ho; cbn [verified]; intros [[Hd <-]|[_ Hl]]%lookup_insert_Some; [|by apply Hv].
  by apply digests_apart.
Qed.

Lemma not_current_dates (l : RevocationList) now : NextUpdate l =? time_zero = false -> notYetValid l now = false -> negb (now <? NextUpdate l) = false ->
  NextUpdate l <> time_zero /\ ThisUpdate l <= now + CRLClockSkew /\ now < NextUpdate l.
Proof using.
  unfold notYetValid; intros H1%Z.eqb_neq H2%Z.ltb_ge H3%negb_false_iff%Z.ltb_lt; done.
Qed.

Lemma current_dates (l : RevocationList) issuer now : current l issuer now ->
  bool_decide (list_RawIssuer l = RawSubject issuer) = true /\
  (NextUpdate l =? time_zero) || notYetValid l now || negb (now <? NextUpdate l) = false.
Proof using.
  intros (H1 & H2 & H3 & H4 & _); split; [by apply bool_decide_eq_true|]; unfold notYetValid.
  apply Z.eqb_neq in H2; apply Z.ltb_ge in H3; apply Z.ltb_lt in H4; by rewrite H2, H3, H4.
Qed.

(** What is kept makes no difference. *)
Lemma crlUsableFor_ok (l : kept_list) issuer now : kept_ok l ->
  let '(ok, l') := crlUsableFor l issuer now in l'.1 = l.1 /\ kept_ok l' /\ (ok = true <-> current l.1 issuer now).
Proof using digests_apart.
  intros Hk; unfold crlUsableFor; destruct (bool_decide _) eqn:Ei; cbn [negb].
  2: { split_and!; [done..|]; split; [done|]; intros [E _]%current_dates; congruence. }
  destruct ((NextUpdate l.1 =? time_zero) || _ || _) eqn:Ed.
  { split_and!; [done..|]; split; [done|]; intros [_ E]%current_dates; congruence. }
  apply bool_decide_eq_true in Ei; apply orb_false_iff in Ed as [[Ez Ey]%orb_false_iff En]; pose proof (not_current_dates _ _ Ez Ey En) as Hdates.
  assert (Hiff : forall ok, ok = completeAndDirect l.1 && criticalUnderstood l.1 && CheckCRLSignatureFrom l.1 issuer ->
    (ok = true <-> current l.1 issuer now)).
  { intros ok ->; unfold current; rewrite !andb_true_iff; tauto. }
  destruct (indexOf l) as [idx|] eqn:Eidx; [|split; [done|split; [done|by apply Hiff]]].
  pose proof (indexOf_ok l idx Hk Eidx) as Hidx; pose proof Hidx as (Hu & _ & _); cbn [fst snd] in Hu.
  destruct (usable idx) eqn:Eu; [|split; [done|split; [done|apply Hiff; by rewrite <- Hu]]].
  pose proof (signedBy_ok l.1 idx issuer Hidx) as Hs; destruct (signedBy idx l.1 issuer) as [ok idx']; destruct Hs as (-> & Hk' & _).
  split; [done|split; [done|apply Hiff; by rewrite <- Hu]].
Qed.

Lemma revokes_ok (l : kept_list) serial issuer now : kept_ok l -> current l.1 issuer now -> (revokes l serial = true <-> names l.1 serial).
Proof using.
  intros Hk (_ & _ & _ & _ & Hc & Hu & _); unfold revokes; destruct (indexOf l) as [idx|] eqn:Ei.
  - destruct (indexOf_ok l idx Hk Ei) as (Hus & Hr & _); cbn [fst snd] in *; rewrite Hc, Hu in Hus; specialize (Hr Hus).
    rewrite bool_decide_eq_true, Hr, elem_of_list_to_set; unfold entry_keys; rewrite list_elem_of_omap; unfold names; split.
    + intros (entry & He & Hs); exists entry; split; [done|]; destruct (entry_SerialNumber entry) as [z|]; [|done].
      injection Hs as Hs1 Hs2; f_equal; by apply serialKey_inj, pair_equal_spec.
    + intros (entry & He & Hs); exists entry; by rewrite Hs.
  - rewrite existsb_exists; unfold names; split; intros (entry & He & Hs); exists entry.
    + split; [by apply list_elem_of_In|by apply bool_decide_eq_true in Hs].
    + split; [by apply list_elem_of_In|by apply bool_decide_eq_true].
Qed.

(** What a check gives, and what it keeps of the lists it read. *)
Definition reads_lists (lists : list kept_list) (out : res revocation_error unit * list kept_list) : Prop :=
  map fst out.2 = map fst lists /\ Forall kept_ok out.2.

Definition revoked_by (lists : list RevocationList) (now : Z) (cert issuer : Certificate) : Prop :=
  exists l, l ∈ lists /\ current l issuer now /\ names l (SerialNumber cert).

Lemma revoked_by_cons l lists now cert issuer : revoked_by (l :: lists) now cert issuer <->
  current l issuer now /\ names l (SerialNumber cert) \/ revoked_by lists now cert issuer.
Proof using.
  unfold revoked_by; setoid_rewrite elem_of_cons; split; [intros (l' & [->|Hl] & H1); [by left|right; by exists l']|].
  intros [H1|(l' & Hl & H1)]; [exists l|exists l']; tauto.
Qed.

Lemma current_cons l lists issuer now : (exists l', l' ∈ l :: lists /\ current l' issuer now) <->
  current l issuer now \/ exists l', l' ∈ lists /\ current l' issuer now.
Proof using.
  setoid_rewrite elem_of_cons; split; [intros (l' & [->|Hl] & H1); [by left|right; by exists l']|].
  intros [H1|(l' & Hl & H1)]; [exists l|exists l']; tauto.
Qed.

Lemma crls_loop_ok cert issuer now lists : Forall kept_ok lists -> forall found, let out := crls_loop cert issuer now lists found in
  reads_lists lists out /\
  (out.1 = Ok tt <-> (found = true \/ exists l, l ∈ map fst lists /\ current l issuer now) /\ ~ revoked_by (map fst lists) now cert issuer) /\
  (out.1 = Err ErrRevoked <-> revoked_by (map fst lists) now cert issuer).
Proof using digests_apart.
  unfold reads_lists; induction 1 as [|l lists Hl Hk IH]; intros found; cbn [crls_loop map].
  { cbn [fst snd map]; split_and!; [done|constructor|..]; (split; [intros E|intros Hr]); destruct found; try done.
    - split; [by left|by intros (? & ?%elem_of_nil & _)].
    - by destruct Hr as [[?|(? & ?%elem_of_nil & _)] _].
    - by destruct Hr as (? & ?%elem_of_nil & _).
    - by destruct Hr as (? & ?%elem_of_nil & _). }
  pose proof (crlUsableFor_ok l issuer now Hl) as Hu; destruct (crlUsableFor l issuer now) as [ok l']; destruct Hu as (El & Hl' & Hok).
  rewrite revoked_by_cons, current_cons; destruct ok; cbn [negb].
  - assert (Hc : current l.1 issuer now) by (by apply Hok); pose proof (revokes_ok l' (SerialNumber cert) issuer now Hl') as Hr.
    rewrite El in Hr; specialize (Hr Hc); destruct (revokes l' _) eqn:Er.
    + assert (Hn : names l.1 (SerialNumber cert)) by (by apply Hr); cbn [fst snd map]; rewrite El; split_and!; [done|by constructor|..].
      * split; [done|]; intros [_ Hno]; destruct Hno; by left.
      * split; [by left|done].
    + assert (Hn : ~ names l.1 (SerialNumber cert)) by (intros Hn; apply Hr in Hn; congruence).
      specialize (IH true); destruct (crls_loop cert issuer now lists true) as [r lists']; cbn [fst snd map] in *.
      destruct IH as ([Em Hk'] & Hiff & Hrev); rewrite El, Em; split_and!; [done|by constructor|rewrite Hiff; tauto|rewrite Hrev; tauto].
  - assert (Hc : ~ current l.1 issuer now) by (intros Hc; by apply Hok in Hc).
    specialize (IH found); destruct (crls_loop cert issuer now lists found) as [r lists']; cbn [fst snd map] in *.
    destruct IH as ([Em Hk'] & Hiff & Hrev); rewrite El, Em; split_and!; [done|by constructor|rewrite Hiff; tauto|rewrite Hrev; tauto].
Qed.

Lemma spared_iff lists now cert issuer : spared lists now cert issuer <->
  (exists l, l ∈ lists /\ current l issuer now) /\ ~ revoked_by lists now cert issuer.
Proof using.
  unfold spared, revoked_by; split; intros [H1 H2]; (split; [done|]).
  - intros (l & Hl & Hc & Hn); by apply (H2 l).
  - intros l Hl Hc Hn; apply H2; by exists l.
Qed.

Lemma checkAgainstCRLs_ok cert issuer lists now : Forall kept_ok lists -> let out := checkAgainstCRLs cert issuer lists now in
  reads_lists lists out /\ (out.1 = Ok tt <-> spared (map fst lists) now cert issuer) /\
  (out.1 = Err ErrRevoked <-> revoked_by (map fst lists) now cert issuer).
Proof using digests_apart.
  intros Hk; destruct (crls_loop_ok cert issuer now lists Hk false) as (H1 & H2 & H3); split_and!; [done| |done].
  unfold checkAgainstCRLs; rewrite H2, spared_iff; split; intros [Hl Hn]; (split; [|done]); [|by right].
  by destruct Hl.
Qed.

Lemma anchor_loop_ok cert lists now issuers : Forall kept_ok lists -> let out := anchor_loop issuers cert lists now in
  reads_lists lists out /\ (out.1 = Ok tt <-> exists issuer, List.find (issued_by cert) issuers = Some issuer /\ spared (map fst lists) now cert issuer).
Proof using digests_apart.
  intros Hk; induction issuers as [|issuer issuers IH]; cbn [anchor_loop List.find].
  - split; [done|]; split; [done|]; by intros (? & ? & _).
  - fold (issued_by cert issuer); destruct (issued_by cert issuer); [|exact IH].
    destruct (checkAgainstCRLs_ok cert issuer lists now Hk) as (H1 & H2 & _); split; [done|]; rewrite H2.
    split; [by exists issuer|]; by intros (? & [= <-] & Hs).
Qed.

Lemma path_spared_cons lists issuers now cert issuer rest : path_spared lists issuers now (cert :: issuer :: rest) <->
  spared lists now cert issuer /\ path_spared lists issuers now (issuer :: rest).
Proof using.
  unfold path_spared; cbn [last]; split.
  - intros [Hp Ha]; split; [by apply (Hp 0%nat)|]; split; [|done]; intros i c c'; apply (Hp (S i)).
  - intros [Hs [Hp Ha]]; split; [|done]; intros [|i] c c'; cbn; [by intros [= <-] [= <-]|apply Hp].
Qed.

Lemma chain_loop_cons issuers cert issuer rest lists now : chain_loop issuers (cert :: issuer :: rest) lists now =
  match checkAgainstCRLs cert issuer lists now with
  | (Err e, lists) => (Err e, lists)
  | (Ok _, lists) => chain_loop issuers (issuer :: rest) lists now
  end.
Proof using. done. Qed.

Lemma chain_loop_ok issuers now chain : forall lists, Forall kept_ok lists -> let out := chain_loop issuers chain lists now in
  reads_lists lists out /\ (out.1 = Ok tt <-> path_spared (map fst lists) issuers now chain).
Proof using digests_apart.
  induction chain as [|cert [|issuer rest] IH]; intros lists Hk; [cbn [chain_loop]..|rewrite chain_loop_cons].
  - split; [done|]; split; [|done]; intros _; by split.
  - destruct (selfSigned cert) eqn:Es.
    + split; [done|]; split; [|done]; intros _; split; [by intros [|i] ? ?|]; intros a [= <-]; by left.
    + destruct (anchor_loop_ok cert lists now issuers Hk) as [H1 H2]; split; [done|]; rewrite H2; split.
      * intros Hx; split; [by intros [|i] ? ?|]; intros a [= <-]; by right.
      * intros [_ Ha]; destruct (Ha cert eq_refl) as [E|Hx]; [congruence|done].
  - destruct (checkAgainstCRLs_ok cert issuer lists now Hk) as ([Em Hk'] & Hok & _).
    destruct (checkAgainstCRLs cert issuer lists now) as [[[]|e] lists']; cbn [fst snd] in *.
    + destruct (IH lists' Hk') as [[Em2 Hk2] Hiff]; split; [split; [by rewrite Em2|done]|].
      rewrite path_spared_cons, Hiff, Em; split; [|by intros [_ ?]]; intros Hp; split; [by apply Hok|done].
    + split; [done|]; split; [done|]; rewrite path_spared_cons; intros [Hs _]; by apply Hok in Hs.
Qed.

(** C26: Revocation, exactly: whatever the lists were asked before, a path passes exactly when every certificate below its anchor - and an anchor that is no root - is spared by all the current, complete lists its issuer signed, of which there is one; and what is then kept of the lists is still what they say. *)
Theorem CheckRevocation_exact lists issuers chain checkNow clock : Forall kept_ok lists ->
  let '(r, kept) := CheckRevocation (Some (Some lists)) issuers chain checkNow clock in
  (r = Ok tt <-> path_spared (map fst lists) issuers (if checkNow =? time_zero then clock else checkNow) chain) /\
  exists kept', kept = Some kept' /\ map fst kept' = map fst lists /\ Forall kept_ok kept'.
Proof using digests_apart.
  intros Hk; cbn [CheckRevocation]; destruct (chain_loop_ok issuers (if checkNow =? time_zero then clock else checkNow) chain lists Hk) as [[Hm Hk'] Hiff].
  destruct (chain_loop _ _ _ _) as [r kept]; split; [done|]; by exists kept.
Qed.
End CRLs.

(** ** An example *)

Section Example.

#[local] Instance plain_signatures : Signatures := {|
  ec := unit; signer := unit; Public _ := OtherKey; signer_Sign _ _ := None; Sum256 b := b; asn1_Marshal _ _ := None;
  asn1_Unmarshal _ := None; VerifyASN1 _ _ _ := false; ed25519_Verify _ _ _ := false |}.

(** A list is signed by the certificate it names as its issuer. *)
#[local] Instance plain_x509 : X509 := {|
  CertPool := unit; pool_of _ := tt; IsSystemPool _ := false; ParseCertificate _ := None; CheckSignature_own c := bool_decide (RawIssuer c = RawSubject c);
  CheckSignatureFrom c issuer := bool_decide (RawIssuer c = RawSubject issuer);
  CheckCRLSignatureFrom l issuer := bool_decide (list_RawIssuer l = Raw issuer); x509_Verify _ _ _ _ := None; key_Equal _ _ := false;
  unmarshal_oids _ := None; spki_bits _ := None; sha1_Sum := id |}.

Definition plain_certificate (name issuer : bytes) (serial : Z) : Certificate := {|
  Raw := name; RawIssuer := issuer; RawSubject := name; RawSubjectPublicKeyInfo := name; Country := []; Province := []; SubjectKeyId := []; AuthorityKeyId := []; cert_PublicKey := OtherKey; RSA := None; SerialNumber := serial; NotBefore := 0; NotAfter := 0;
  BasicConstraintsValid := false; IsCA := false; KeyUsage := 0; ExtKeyUsage := []; UnknownExtKeyUsage := []; cert_Extensions := [];
  DNSNames := []; URIs := [] |}.

Definition plain_list : RevocationList := {|
  list_Raw := [9]; list_RawIssuer := [1]; ThisUpdate := 100; NextUpdate := 200; list_Extensions := [];
  RevokedCertificateEntries := [{| entry_SerialNumber := Some 7; entry_Extensions := [] |}] |}.

Lemma CheckRevocation_exact_witness : let chain := [plain_certificate [2] [1] 5; plain_certificate [1] [1] 1] in
  path_spared [plain_list] [] 150 chain /\ ~ path_spared [plain_list] [] 150 [plain_certificate [2] [1] 7; plain_certificate [1] [1] 1].
Proof.
  assert (Hapart : forall (l : RevocationList) (a b : Certificate), Raw a <> [] -> Raw b <> [] -> Sum256 (Raw a) = Sum256 (Raw b) ->
    CheckCRLSignatureFrom l a = CheckCRLSignatureFrom l b) by (cbn; intros l a b _ _ ->; done).
  assert (Hkept : Forall kept_ok [(plain_list, Some (new_index plain_list)) : kept_list]).
  { constructor; [|constructor]; apply new_index_ok. }
  split.
  - pose proof (CheckRevocation_exact Hapart [(plain_list, Some (new_index plain_list))] []
      [plain_certificate [2] [1] 5; plain_certificate [1] [1] 1] 150 0 Hkept) as Hx.
    destruct (CheckRevocation _ _ _ _ _) as [r kept] eqn:E; destruct Hx as [Hx _]; apply Hx; vm_compute in E; by injection E as <- _.
  - pose proof (CheckRevocation_exact Hapart [(plain_list, Some (new_index plain_list))] []
      [plain_certificate [2] [1] 7; plain_certificate [1] [1] 1] 150 0 Hkept) as Hx.
    destruct (CheckRevocation _ _ _ _ _) as [r kept] eqn:E; destruct Hx as [Hx _]; intros Hp; apply Hx in Hp; subst r; vm_compute in E; discriminate.
Defined.
End Example.
