(* ===== verification/CertChain.v ===== *)
(** * Certificate chains: [internal/certchain]

    A presented chain of certificates, verified to the trust anchors a relying
    party configured (certchain.go), for a role (role.go, eku.go), and the chain
    a signer presents (signer.go).  Paths are crypto/x509's.  The theorem: what
    [VerifyTrustedChainsAt] returns is the verified paths the policy allows and
    that revocation spares, each on its own. *)
From S2P Require Import Prelude Json DcqlQuery Text JwtDate Jws X509.
From Stdlib Require Import Ascii.
#[local] Open Scope Z_scope.

Inductive chain_error : Type :=
| ErrRSABits (n : Z)
| ErrRSAExponent (e : Z)
| ErrNoX5C
| ErrX5CNotArray
| ErrChainLength (n : Z)
| ErrEntryNotString (i : Z)
| ErrEntryBase64 (i : Z)
| ErrEntryParse (i : Z)
| ErrEntryKey (i : Z) (e : chain_error)
| ErrPolicy
| ErrNoPathPasses
| ErrRevocationUndecided
| ErrPathRevoked
| ErrNoVerifiedPath
| ErrNoAnchors
| ErrChainEmpty
| ErrLeafSelfSigned
| ErrLeafCA
| ErrLeafKeyUsage
| ErrLeafSmallOrder
| ErrPathsFail
| ErrNotSignedBy (i : Z)
| ErrAnchorIncluded (i : Z)
| ErrIssDNS
| ErrIssURI
| ErrEKUMalformed
| ErrEKUMissing
| ErrEKUIntermediates
| ErrNotTheSigner
| ErrKeyType.

Inductive role_error : Type :=
| RoleKeyUsage
| RoleOCSP
| RoleISO (oid : list Z)
| RoleListsOther
| RoleOnlyOther
| RoleIntermediates.

Definition MaxChainLength : Z := 8.
Definition MaxRSABits : Z := 4096.

(** big.Int.BitLen, of a positive one. *)
Definition BitLen (n : Z) : Z := if n =? 0 then 0 else Z.log2 (Z.abs n) + 1.

Section Chains.
Context `{Signatures} `{!X509}.
(** base64.StdEncoding; strings.EqualFold. *)
Context (std_base64 : string -> option bytes) (EqualFold : string -> string -> bool).

(** A leaf policy; and a certrevocation.Checker, which may have a Validate. *)
Definition policy : Type := Certificate -> list (list Certificate) -> bool.

Inductive revocation_outcome : Type := NotRevoked | Revoked | Undecided.
Record Checker : Type := { CheckPath : list Certificate -> Z -> revocation_outcome; validates : bool }.

Definition CheckKeySize (cert : Certificate) : res chain_error unit :=
  match RSA cert with
  | None => Ok tt
  | Some (n, e) =>
      if MaxRSABits <? BitLen n then Err (ErrRSABits (BitLen n))
      else if negb (e =? 65537) then Err (ErrRSAExponent e) else Ok tt
  end.

Fixpoint ders_loop (i : Z) (entries : list goval) : res chain_error (list bytes) :=
  match entries with
  | [] => Ok []
  | VString s :: entries =>
      match std_base64 s with
      | None => Err (ErrEntryBase64 i)
      | Some der => let? ders := ders_loop (i + 1) entries in Ok (der :: ders)
      end
  | _ :: _ => Err (ErrEntryNotString i)
  end.

Definition DERsFromBase64 (entries : list goval) : res chain_error (list bytes) :=
  if MaxChainLength <? blen entries then Err (ErrChainLength (blen entries)) else ders_loop 0 entries.

Definition X5CDERsFromHeader (header : list (string * goval)) : res chain_error (list bytes) :=
  match member "x5c" header with
  | None => Err ErrNoX5C
  | Some (VArray ((_ :: _) as entries)) => DERsFromBase64 entries
  | Some _ => Err ErrX5CNotArray
  end.

(** ** Verified paths *)

Definition IsSelfSigned : Certificate -> bool := selfSigned.

Definition KeyUsageDigitalSignature : Z := 1.
Definition digitalSignature (cert : Certificate) : bool :=
  (KeyUsage cert =? 0) || negb (Z.land (KeyUsage cert) KeyUsageDigitalSignature =? 0).

Fixpoint parse_chain (i : Z) (ders : list bytes) : res chain_error (list Certificate) :=
  match ders with
  | [] => Ok []
  | der :: ders =>
      match ParseCertificate der with
      | None => Err (ErrEntryParse i)
      | Some cert =>
          let? _ := res_map_err (ErrEntryKey i) (CheckKeySize cert) in
          let? certs := parse_chain (i + 1) ders in
          Ok (cert :: certs)
      end
  end.

Definition VerifyChainsAt (ders : list bytes) (roots : option CertPool) (now : Z)
    : res chain_error (Certificate * list (list Certificate)) :=
  match roots with
  | None => Err ErrNoAnchors
  | Some roots =>
      if blen ders =? 0 then Err ErrChainEmpty
      else if MaxChainLength <? blen ders then Err (ErrChainLength (blen ders))
      else
        let? certs := parse_chain 0 ders in
        match certs with
        | [] => Err ErrChainEmpty
        | leaf :: intermediates =>
            if IsSelfSigned leaf then Err ErrLeafSelfSigned
            else if BasicConstraintsValid leaf && IsCA leaf then Err ErrLeafCA
            else if negb (digitalSignature leaf) then Err ErrLeafKeyUsage
            else if match cert_PublicKey leaf with Ed25519Key k => IsSmallOrderEd25519 k | _ => false end then Err ErrLeafSmallOrder
            else match x509_Verify leaf intermediates roots now with
            | None => Err ErrPathsFail
            | Some chains => Ok (leaf, chains)
            end
        end
  end.

Definition ApprovedChains (leaf : Certificate) (chains : list (list Certificate)) (p : option policy)
    : res chain_error (list (list Certificate)) :=
  match p with
  | None => Ok chains
  | Some p =>
      if negb (p leaf chains) then Err ErrPolicy
      else
        let approved := List.filter (fun chain => p leaf [chain]) chains in
        if blen approved =? 0 then Err ErrNoPathPasses else Ok approved
  end.

(** [now] as the caller gives it; [clock], time.Now where it is zero. *)
Definition NotRevokedChains (chains : list (list Certificate)) (revocation : option Checker) (now clock : Z)
    : res chain_error (list (list Certificate)) :=
  match revocation with
  | None => Ok chains
  | Some checker =>
      let now := if now =? time_zero then clock else now in
      let good := List.filter (fun chain => match CheckPath checker chain now with NotRevoked => true | _ => false end) chains in
      if negb (blen good =? 0) then Ok good
      else if existsb (fun chain => match CheckPath checker chain now with Undecided => true | _ => false end) chains then Err ErrRevocationUndecided
      else if existsb (fun chain => match CheckPath checker chain now with Revoked => true | _ => false end) chains then Err ErrPathRevoked
      else Err ErrNoVerifiedPath
  end.

Definition VerifyTrustedChainsAt (ders : list bytes) (roots : option CertPool) (p : option policy) (revocation : option Checker) (now clock : Z)
    : res chain_error (Certificate * list (list Certificate)) :=
  let? (leaf, chains) := VerifyChainsAt ders roots now in
  let? approved := ApprovedChains leaf chains p in
  let? good := NotRevokedChains approved revocation now clock in
  Ok (leaf, good).

Definition VerifyLeafWithPolicyAt (ders : list bytes) (roots : option CertPool) (p : option policy) (now : Z) : res chain_error Certificate :=
  let? (leaf, chains) := VerifyChainsAt ders roots now in
  match p with
  | Some p => if negb (p leaf chains) then Err ErrPolicy else Ok leaf
  | None => Ok leaf
  end.

(** ** A chain presented *)

Fixpoint presented_loop (i : Z) (child : Certificate) (parents : list Certificate) : res chain_error unit :=
  match parents with
  | [] => Ok tt
  | parent :: parents =>
      let? _ := res_map_err (ErrEntryKey i) (CheckKeySize parent) in
      if negb (CheckSignatureFrom child parent) then Err (ErrNotSignedBy i)
      else if IsSelfSigned parent then Err (ErrAnchorIncluded i)
      else presented_loop (i + 1) parent parents
  end.

Definition CheckPresentedChain (leaf : Certificate) (intermediates : list Certificate) : res chain_error unit :=
  let? _ := CheckKeySize leaf in
  if IsSelfSigned leaf then Err ErrLeafSelfSigned else presented_loop 0 leaf intermediates.

Fixpoint no_anchor_loop (i : Z) (ders : list bytes) : res chain_error unit :=
  match ders with
  | [] => Ok tt
  | der :: ders =>
      match ParseCertificate der with
      | None => Err (ErrEntryParse i)
      | Some cert => if bool_decide (RawIssuer cert = RawSubject cert) then Err (ErrAnchorIncluded i) else no_anchor_loop (i + 1) ders
      end
  end.

Definition CheckNoAnchor (ders : list bytes) : res chain_error unit :=
  if MaxChainLength <? blen ders then Err (ErrChainLength (blen ders)) else no_anchor_loop 1 (drop 1 ders).

Definition trim_prefix (prefix s : string) : string :=
  if String.prefix prefix s then String.substring (String.length prefix) (String.length s - String.length prefix) s else s.

Lemma trim_prefix_app p s : trim_prefix p (p ++ s) = s.
Proof using. unfold trim_prefix; rewrite prefix_app; apply substring_app. Qed.

Definition CheckIssuerName (leaf : Certificate) (iss : string) : res chain_error unit :=
  if String.prefix "dns:" iss then
    let name := trim_prefix "//" (trim_prefix "dns:" iss) in
    if negb (String.eqb name "") && existsb (fun d => EqualFold d name) (DNSNames leaf) then Ok tt else Err ErrIssDNS
  else if negb (String.eqb iss "") && existsb (String.eqb iss) (URIs leaf) then Ok tt else Err ErrIssURI.

(** ** Roles *)

Definition MDLDocumentSignerEKU : list Z := [1; 0; 18013; 5; 1; 2].
Definition ReaderAuthenticationEKU : list Z := [1; 0; 18013; 5; 1; 6].

(** x509.ExtKeyUsageServerAuth and the other purposes but any; OCSP signing is 9. *)
Definition otherRoleEKUs : list Z := [1; 2; 3; 4; 8; 9; 5; 6; 7; 10; 11; 12; 13].
Definition ExtKeyUsageOCSPSigning : Z := 9.
Definition is_other_role (eku : Z) : bool := existsb (Z.eqb eku) otherRoleEKUs.

Definition CheckSigningLeaf (leaf : Certificate) : res role_error unit :=
  if negb (digitalSignature leaf) then Err RoleKeyUsage
  else if existsb (Z.eqb ExtKeyUsageOCSPSigning) (ExtKeyUsage leaf) then Err RoleOCSP
  else Ok tt.

Record LeafRole : Type := { OtherISOEKUs : list (list Z); Strict : bool }.

Definition isOtherISOEKU (r : LeafRole) (oid : list Z) : bool := oid_in oid (OtherISOEKUs r).

Definition onlyOtherRoles (r : LeafRole) (cert : Certificate) : bool :=
  negb (blen (ExtKeyUsage cert) + blen (UnknownExtKeyUsage cert) =? 0) && forallb is_other_role (ExtKeyUsage cert) &&
  forallb (isOtherISOEKU r) (UnknownExtKeyUsage cert).

(** Of a path, what is between its leaf and its anchor. *)
Definition between (chain : list Certificate) : list Certificate := removelast (drop 1 chain).

Definition role_intermediatesAllow (r : LeafRole) (chain : list Certificate) : bool :=
  (blen chain <? 3) || negb (existsb (onlyOtherRoles r) (between chain)).

Definition LeafRole_Check (r : LeafRole) (leaf : Certificate) (chains : list (list Certificate)) : res role_error unit :=
  let? _ := CheckSigningLeaf leaf in
  match List.find (isOtherISOEKU r) (UnknownExtKeyUsage leaf) with
  | Some oid => Err (RoleISO oid)
  | None =>
      if Strict r && existsb is_other_role (ExtKeyUsage leaf) then Err RoleListsOther
      else if onlyOtherRoles r leaf then Err RoleOnlyOther
      else if (0 <? blen chains) && negb (existsb (role_intermediatesAllow r) chains) then Err RoleIntermediates
      else Ok tt
  end.

(** ** Extended key usages, of any purpose *)

Definition oidExtKeyUsage : list Z := [2; 5; 29; 37].
Definition oidAnyExtendedKeyUsage : list Z := [2; 5; 29; 37; 0].

(** The extension's purposes, none where it has none. *)
Definition ExtKeyUsages (cert : Certificate) : res chain_error (option (list (list Z))) :=
  match List.find (fun ext => bool_decide (Id ext = oidExtKeyUsage)) (cert_Extensions cert) with
  | None => Ok None
  | Some ext => match unmarshal_oids (ext_Value ext) with Some usages => Ok (Some usages) | None => Err ErrEKUMalformed end
  end.

Definition usage_allows (oid : list Z) (cert : Certificate) : bool :=
  match ExtKeyUsages cert with
  | Ok None => true
  | Ok (Some usages) => oid_in oid usages || oid_in oidAnyExtendedKeyUsage usages
  | Err _ => false
  end.

Definition intermediatesAllow (chain : list Certificate) (oid : list Z) : bool :=
  match chain with [] => false | _ => forallb (usage_allows oid) (between chain) end.

Definition EKUInIntermediates (chains : list (list Certificate)) (oid : list Z) : res chain_error unit :=
  if (blen chains =? 0) || existsb (fun chain => intermediatesAllow chain oid) chains then Ok tt else Err ErrEKUIntermediates.

Definition EKUInPath (leaf : Certificate) (chains : list (list Certificate)) (oid : list Z) : res chain_error unit :=
  let? usages := ExtKeyUsages leaf in
  if negb (oid_in oid (default [] usages)) then Err ErrEKUMissing else EKUInIntermediates chains oid.

(** ** Signers *)

Definition SignerChainDERs (signer_public : PublicKey ec) (chain : list Certificate) : res chain_error (list bytes) :=
  match chain with
  | [] => Err ErrChainEmpty
  | leaf :: intermediates =>
      if negb (key_Equal (cert_PublicKey leaf) signer_public) then Err ErrNotTheSigner
      else
        let? _ := CheckPresentedChain leaf intermediates in
        Ok (map Raw chain)
  end.

Definition SignerKeyIsEdDSA (pub : PublicKey ec) : res chain_error bool :=
  match pub with
  | ECDSAKey p256 _ => if p256 then Ok false else Err ErrKeyType
  | Ed25519Key _ => Ok true
  | OtherKey => Err ErrKeyType
  end.

Definition BothPolicies (first second : option policy) : option policy :=
  match first, second with
  | None, p | p, None => p
  | Some p, Some q => Some (fun leaf chains => p leaf chains && q leaf chains)
  end.


(** ** What is trusted *)

Lemma parse_chain_ok ders : forall i certs, parse_chain i ders = Ok certs <->
  Forall2 (fun der cert => ParseCertificate der = Some cert /\ CheckKeySize cert = Ok tt) ders certs.
Proof using.
  induction ders as [|der ders IH]; intros i certs; cbn [parse_chain].
  - split; [intros [= <-]; constructor|by intros ->%Forall2_nil_inv_l].
  - split.
    + destruct (ParseCertificate der) as [cert|] eqn:Ep; [|done]; destruct (CheckKeySize cert) as [[]|e] eqn:Ek; cbn [res_map_err res_bind]; [|done].
      destruct (parse_chain (i + 1) ders) as [cs|] eqn:E; cbn [res_bind]; [|done]; intros [= <-]; constructor; [done|by apply (IH (i + 1))].
    + intros (cert & cs & [-> ->] & Hcs & ->)%Forall2_cons_inv_l; cbn [res_map_err res_bind].
      apply (IH (i + 1)) in Hcs; by rewrite Hcs.
Qed.

(** A leaf that may sign, and is no anchor. *)
Definition signing_leaf (leaf : Certificate) : Prop :=
  IsSelfSigned leaf = false /\ BasicConstraintsValid leaf && IsCA leaf = false /\ digitalSignature leaf = true /\
  match cert_PublicKey leaf with Ed25519Key k => IsSmallOrderEd25519 k = false | _ => True end.

Lemma VerifyChainsAt_ok ders roots now leaf chains : VerifyChainsAt ders roots now = Ok (leaf, chains) <->
  exists pool intermediates, roots = Some pool /\ blen ders <= MaxChainLength /\
    Forall2 (fun der cert => ParseCertificate der = Some cert /\ CheckKeySize cert = Ok tt) ders (leaf :: intermediates) /\
    signing_leaf leaf /\ x509_Verify leaf intermediates pool now = Some chains.
Proof using.
  unfold VerifyChainsAt, signing_leaf; split.
  - destruct roots as [pool|]; [|done]; destruct (blen ders =? 0); [done|]; destruct (Z.ltb_spec MaxChainLength (blen ders)); [done|].
    destruct (parse_chain 0 ders) as [[|leaf' certs]|] eqn:Ep; cbn [res_bind]; [done| |done]; apply parse_chain_ok in Ep.
    destruct (IsSelfSigned leaf') eqn:E1; [done|]; destruct (BasicConstraintsValid leaf' && IsCA leaf') eqn:E2; [done|].
    destruct (digitalSignature leaf') eqn:E3; cbn [negb]; [|done].
    destruct (match cert_PublicKey leaf' with Ed25519Key k => IsSmallOrderEd25519 k | _ => false end) eqn:E4; [done|].
    destruct (x509_Verify leaf' certs pool now) as [cs|] eqn:E5; [|done]; intros [= <- <-]; exists pool, certs; split_and!; try done.
    by destruct (cert_PublicKey leaf').
  - intros (pool & certs & -> & Hl & Hp & (E1 & E2 & E3 & E4) & E5); assert (Hne : blen ders =? 0 = false).
    { apply Z.eqb_neq; apply Forall2_cons_inv_r in Hp as (der & ders' & _ & _ & ->); rewrite blen_cons; pose proof (blen_nonneg ders'); lia. }
    apply Z.ltb_ge in Hl; rewrite Hne, Hl; apply (parse_chain_ok ders 0) in Hp; rewrite Hp; cbn [res_bind]; rewrite E1, E2, E3, E5; cbn [negb].
    destruct (cert_PublicKey leaf); try done; by rewrite E4.
Qed.

Definition allowed (p : option policy) (leaf : Certificate) (chain : list Certificate) : bool :=
  match p with None => true | Some p => p leaf [chain] end.

Definition not_revoked (revocation : option Checker) (now : Z) (chain : list Certificate) : bool :=
  match revocation with
  | None => true
  | Some checker => match CheckPath checker chain now with NotRevoked => true | _ => false end
  end.

Lemma filter_true {A} (l : list A) : List.filter (fun _ => true) l = l.
Proof using. induction l as [|a l IH]; cbn; [done|by rewrite IH]. Qed.

Lemma filter_filter {A} (f g : A -> bool) (l : list A) : List.filter f (List.filter g l) = List.filter (fun a => g a && f a) l.
Proof using. induction l as [|a l IH]; cbn; [done|]; destruct (g a); cbn; [destruct (f a)|]; by rewrite IH. Qed.

Lemma blen_not_nil {A} (l : list A) : blen l =? 0 = false <-> l <> [].
Proof using. rewrite Z.eqb_neq; destruct l as [|a l]; [done|]; rewrite blen_cons; pose proof (blen_nonneg l); split; [done|lia]. Qed.

Lemma ApprovedChains_ok leaf chains p approved : ApprovedChains leaf chains p = Ok approved <->
  approved = List.filter (allowed p leaf) chains /\ match p with None => True | Some p => p leaf chains = true /\ approved <> [] end.
Proof using.
  unfold ApprovedChains, allowed; destruct p as [p|]; [|rewrite filter_true; split; [by intros [= <-]|by intros [-> _]]].
  destruct (p leaf chains); cbn [negb]; [|split; [done|by intros (_ & ? & _)]].
  destruct (blen _ =? 0) eqn:E.
  - split; [done|]; intros (-> & _ & Hne); apply blen_not_nil in Hne; congruence.
  - split; [intros [= <-]; by apply blen_not_nil in E|by intros (-> & _)].
Qed.

Lemma NotRevokedChains_ok chains revocation now clock good : NotRevokedChains chains revocation now clock = Ok good <->
  good = List.filter (not_revoked revocation (if now =? time_zero then clock else now)) chains /\ (revocation = None \/ good <> []).
Proof using.
  unfold NotRevokedChains, not_revoked; destruct revocation as [checker|].
  2: { rewrite filter_true; split; [intros [= <-]; split; [done|by left]|by intros [-> _]]. }
  set (good' := List.filter _ _); destruct (blen good' =? 0) eqn:E; cbn [negb].
  - split; [by destruct (existsb _ _); [|destruct (existsb _ _)]|]; intros [-> [?|Hne]]; [done|]; apply blen_not_nil in Hne; congruence.
  - split; [intros [= <-]; split; [done|right; by apply blen_not_nil]|by intros [-> _]].
Qed.

(** C25: Certificate trust, exactly: a presented chain of at most eight certificates is trusted exactly when its leaf - no CA, not self-signed, a usable signing key - verifies to the relying party's anchors, the leaf policy allows it, and some verified path passes the policy and revocation on its own; and what is returned are exactly the paths that do. *)
Theorem VerifyTrustedChainsAt_exact ders roots p revocation now clock leaf good :
  VerifyTrustedChainsAt ders roots p revocation now clock = Ok (leaf, good) <->
  exists pool intermediates chains, roots = Some pool /\ blen ders <= MaxChainLength /\
    Forall2 (fun der cert => ParseCertificate der = Some cert /\ CheckKeySize cert = Ok tt) ders (leaf :: intermediates) /\
    signing_leaf leaf /\ x509_Verify leaf intermediates pool now = Some chains /\
    match p with None => True | Some p => p leaf chains = true end /\
    good = List.filter (fun chain => allowed p leaf chain && not_revoked revocation (if now =? time_zero then clock else now) chain) chains /\
    (p = None /\ revocation = None \/ good <> []).
Proof using.
  unfold VerifyTrustedChainsAt; rewrite res_bind_ok; split.
  - intros ([leaf' chains] & Hv & Hk); apply res_bind_ok in Hk as (approved & Ha & Hn); apply res_bind_ok in Hn as (good' & Hg & [= -> ->]).
    apply VerifyChainsAt_ok in Hv as (pool & ints & H1 & H2 & H3 & H4 & H5); apply ApprovedChains_ok in Ha as [-> Hp].
    apply NotRevokedChains_ok in Hg as [-> Hne]; exists pool, ints, chains; rewrite filter_filter in Hne |- *.
    split_and!; try done; [by destruct p as [p|]; [destruct Hp|]|].
    destruct Hne as [->|Hne]; [|by right]; destruct p as [p|]; [right|by left].
    destruct Hp as [_ Hne]; intros E; apply Hne; rewrite <- E; apply filter_ext; intros c; cbn; by rewrite andb_true_r.
  - intros (pool & ints & chains & H1 & H2 & H3 & H4 & H5 & Hp & -> & Hne).
    exists (leaf, chains); split; [apply VerifyChainsAt_ok; by exists pool, ints|].
    apply res_bind_ok; exists (List.filter (allowed p leaf) chains); split.
    + apply ApprovedChains_ok; split; [done|]; destruct p as [p|]; [split; [done|]|done]; intros E; destruct Hne as [[? _]|Hne]; [done|].
      apply Hne; rewrite <- filter_filter, E; done.
    + apply res_bind_ok; eexists; split; [apply NotRevokedChains_ok; split; [done|]|by rewrite filter_filter].
      rewrite filter_filter; destruct Hne as [[_ ->]|Hne]; [by left|by right].
Qed.

(** A chain presented is signed link by link, with no anchor in it. *)
Definition presents (leaf : Certificate) (intermediates : list Certificate) : Prop :=
  CheckKeySize leaf = Ok tt /\ IsSelfSigned leaf = false /\
  forall i child parent, (leaf :: intermediates) !! i = Some child -> intermediates !! i = Some parent ->
    CheckKeySize parent = Ok tt /\ CheckSignatureFrom child parent = true /\ IsSelfSigned parent = false.

Lemma presented_loop_ok parents : forall i child, presented_loop i child parents = Ok tt <->
  forall j c parent, (child :: parents) !! j = Some c -> parents !! j = Some parent ->
    CheckKeySize parent = Ok tt /\ CheckSignatureFrom c parent = true /\ IsSelfSigned parent = false.
Proof using.
  induction parents as [|parent parents IH]; intros i child; cbn [presented_loop]; [split; [by intros _ [|j] ? ?|done]|]; split.
  - destruct (CheckKeySize parent) as [[]|e] eqn:Ek; cbn [res_map_err res_bind]; [|done].
    destruct (CheckSignatureFrom child parent) eqn:Es; cbn [negb]; [|done]; destruct (IsSelfSigned parent) eqn:Ea; [done|].
    intros Hl [|j] c q; cbn [lookup list_lookup]; [by intros [= <-] [= <-]|]; by apply (IH (i + 1)).
  - intros Hp; destruct (Hp 0%nat child parent eq_refl eq_refl) as (-> & -> & ->); cbn [res_map_err res_bind negb].
    apply IH; intros j; apply (Hp (S j)).
Qed.

Lemma CheckPresentedChain_ok leaf intermediates : CheckPresentedChain leaf intermediates = Ok tt <-> presents leaf intermediates.
Proof using.
  unfold CheckPresentedChain, presents; rewrite <- (presented_loop_ok intermediates 0 leaf); split.
  - destruct (CheckKeySize leaf) as [[]|e]; cbn [res_bind]; [|done]; by destruct (IsSelfSigned leaf).
  - intros (-> & -> & H1); exact H1.
Qed.
End Chains.
