(* ===== verification/TrustedAuthorities.v ===== *)
(** * Trusted authorities: [dcql/aki_trusted_authorities_checker.go]

    With aki_trusted_authorities.go, and what aki_anchors.go keeps of a
    checker's anchors, which is what it would make of them again.  The theorem:
    a checker with anchors accepts a chain only for a certificate authority on
    a verified path of it, named by an identifier no other can claim. *)
From S2P Require Import Prelude Json B64Url DcqlQuery DcqlValues Text JwtDate Jws X509 CertChain.
#[local] Open Scope Z_scope.

Inductive authorities_error : Type :=
| AuthNoEntry
| AuthNoChain
| AuthBothAnchors
| AuthConflict
| AuthChain (e : chain_error)
| AuthParse (i : Z)
| AuthNone
| AuthNoCAs
| AuthNoKeyId.

Definition TrustedAuthorityAKI : string := "aki".

Section Authorities.
Context `{Signatures} `{!X509}.

(** Of certificates, none nil. *)
Record AKITrustedAuthoritiesChecker : Type := { aki_Roots : option CertPool; Anchors : list Certificate }.

Definition derivedKeyIdentifiers (cert : Certificate) : list bytes :=
  match spki_bits (RawSubjectPublicKeyInfo cert) with
  | None => []
  | Some bits => [sha1_Sum bits; take 20 (Sum256 bits)]
  end.

Definition bytes_in (b : bytes) (l : list bytes) : bool := existsb (fun c => bool_decide (c = b)) l.

(** A key identifier an anchor has: derived from its key, or declared. *)
Record claim : Type := { claimed : bytes; claimant : Certificate; declared : bool }.

Definition claims_of (anchor : Certificate) : list claim :=
  map (fun id => {| claimed := id; claimant := anchor; declared := false |}) (derivedKeyIdentifiers anchor) ++
  (if negb (blen (SubjectKeyId anchor) =? 0) && negb (bytes_in (SubjectKeyId anchor) (derivedKeyIdentifiers anchor))
   then [{| claimed := SubjectKeyId anchor; claimant := anchor; declared := true |}] else []).

Definition clash (a b : claim) : bool :=
  bool_decide (claimed a = claimed b) && (declared a || declared b) &&
  negb (bool_decide (RawSubjectPublicKeyInfo (claimant a) = RawSubjectPublicKeyInfo (claimant b))).

Fixpoint conflicting (l : list claim) : bool :=
  match l with
  | [] => false
  | a :: l => existsb (clash a) l || conflicting l
  end.

Definition Validate (c : AKITrustedAuthoritiesChecker) : res authorities_error unit :=
  if is_Some_b (aki_Roots c) && (0 <? blen (Anchors c)) then Err AuthBothAnchors
  else if conflicting (flat_map claims_of (Anchors c)) then Err AuthConflict else Ok tt.

(** The pool of a checker with anchors and no roots. *)
Definition anchorSetOf (c : AKITrustedAuthoritiesChecker) : res authorities_error CertPool :=
  let? _ := Validate c in Ok (pool_of (Anchors c)).

Definition caKeyIdentifiers (c : AKITrustedAuthoritiesChecker) (ca : Certificate) (anchor : bool) : list bytes :=
  derivedKeyIdentifiers ca ++
  (if anchor && negb (blen (SubjectKeyId ca) =? 0) && existsb (fun a => bool_decide (Raw a = Raw ca)) (Anchors c)
   then [SubjectKeyId ca] else []).

Definition wanted (wantAKIs : list string) (id : bytes) : bool := existsb (String.eqb (b64_string id)) wantAKIs.

(** The certificates above a path's leaf, from its [i]th. *)
Fixpoint path_wanted (c : AKITrustedAuthoritiesChecker) (cas : list Certificate) (wantAKIs : list string) : bool :=
  match cas with
  | [] => false
  | ca :: cas => existsb (wanted wantAKIs) (caKeyIdentifiers c ca (match cas with [] => true | _ => false end)) || path_wanted c cas wantAKIs
  end.

Definition checkVerifiedChainAKI (c : AKITrustedAuthoritiesChecker) (issuerChain : list bytes) (roots : CertPool) (wantAKIs : list string) (at' : Z)
    : res authorities_error unit :=
  let? (_, chains) := res_map_err AuthChain (VerifyChainsAt issuerChain (Some roots) at') in
  if existsb (fun chain => path_wanted c (tail chain) wantAKIs) chains then Ok tt else Err AuthNone.

(** What an unverified chain states of its issuers. *)
Fixpoint stated_loop (i : Z) (n : Z) (ders : list bytes) (wantAKIs : list string) : res authorities_error unit :=
  match ders with
  | [] => Err AuthNone
  | der :: ders =>
      match ParseCertificate der with
      | None => Err (AuthParse i)
      | Some cert =>
          if (0 <? blen (AuthorityKeyId cert)) && wanted wantAKIs (AuthorityKeyId cert) then Ok tt
          else if (i =? n - 1) && (0 <? i) && (0 <? blen (SubjectKeyId cert)) && wanted wantAKIs (SubjectKeyId cert) then Ok tt
          else stated_loop (i + 1) n ders wantAKIs
      end
  end.

Definition wantAKIs_of (authorities : list TrustedAuthoritiesQuery) : list string :=
  flat_map (fun ta => if String.eqb (ta_Type ta) TrustedAuthorityAKI then ta_Values ta else []) authorities.

Definition CheckTrustedAuthorities (c : AKITrustedAuthoritiesChecker) (at' : Z) (authorities : list TrustedAuthoritiesQuery) (issuerChain : list bytes)
    : res authorities_error unit :=
  let wantAKIs := wantAKIs_of authorities in
  if blen wantAKIs =? 0 then Err AuthNoEntry
  else if blen issuerChain =? 0 then Err AuthNoChain
  else if is_Some_b (aki_Roots c) || (0 <? blen (Anchors c)) then
    let? roots :=
      match aki_Roots c with
      | None => anchorSetOf c
      | Some roots => let? _ := Validate c in Ok roots
      end in
    checkVerifiedChainAKI c issuerChain roots wantAKIs at'
  else stated_loop 0 (blen issuerChain) issuerChain wantAKIs.

Definition AKITrustedAuthorities (cas : list Certificate) : res authorities_error TrustedAuthoritiesQuery :=
  if blen cas =? 0 then Err AuthNoCAs
  else if existsb (fun ca => blen (SubjectKeyId ca) =? 0) cas then Err AuthNoKeyId
  else Ok {| ta_Type := TrustedAuthorityAKI; ta_Values := map (fun ca => b64_string (SubjectKeyId ca)) cas |}.

(** ** Who can be named *)

Lemma clash_sym a b : clash a b = clash b a.
Proof using.
  unfold clash; rewrite (orb_comm (declared a)); f_equal; [f_equal|f_equal]; apply bool_decide_ext; split; congruence.
Qed.

Lemma conflicting_false l : conflicting l = false <-> ForallOrdPairs (fun a b => clash a b = false) l.
Proof using.
  induction l as [|a l IH]; cbn [conflicting]; [split; [constructor|done]|]; rewrite orb_false_iff, IH; split.
  - intros [He Hl]; constructor; [|done]; apply List.Forall_forall; intros b Hb; destruct (clash a b) eqn:E; [|done].
    assert (existsb (clash a) l = true) by (apply existsb_exists; eauto); congruence.
  - intros Hp; inversion_clear Hp as [|? ? Ha Hl]; split; [|done]; destruct (existsb (clash a) l) eqn:E; [|done].
    apply existsb_exists in E as (b & Hb & Hc); rewrite List.Forall_forall in Ha; by rewrite Ha in Hc.
Qed.

(** Anchors whose claims do not conflict: an identifier one declares is no other key's. *)
Lemma declared_unambiguous anchors a b id : conflicting (flat_map claims_of anchors) = false -> a ∈ anchors -> b ∈ anchors ->
  In {| claimed := id; claimant := a; declared := true |} (claims_of a) ->
  (id = SubjectKeyId b /\ id <> [] \/ id ∈ derivedKeyIdentifiers b) -> RawSubjectPublicKeyInfo a = RawSubjectPublicKeyInfo b.
Proof using.
  intros Hc Ha Hb Hid Hclaim; apply conflicting_false in Hc.
  assert (Hin : forall c x, c ∈ anchors -> In x (claims_of c) -> In x (flat_map claims_of anchors)).
  { intros c x Hcin Hx; apply in_flat_map; exists c; split; [by apply list_elem_of_In|done]. }
  assert (Hb' : exists d, In {| claimed := id; claimant := b; declared := d |} (claims_of b)).
  { unfold claims_of; destruct Hclaim as [[-> Hne]|Hd].
    - destruct (bytes_in (SubjectKeyId b) (derivedKeyIdentifiers b)) eqn:E.
      + exists false; apply in_app_iff; left; apply existsb_exists in E as (x & Hx & ->%bool_decide_eq_true).
        apply in_map_iff; by exists (SubjectKeyId b).
      + exists true; apply in_app_iff; right; destruct (SubjectKeyId b) as [|z zs]; [done|]; rewrite blen_cons; pose proof (blen_nonneg zs).
        destruct (Z.eqb_spec (1 + blen zs) 0); [lia|]; by left.
    - exists false; apply in_app_iff; left; apply in_map_iff; exists id; split; [done|by apply list_elem_of_In]. }
  destruct Hb' as [d Hbin]; pose proof (Hin _ _ Ha Hid) as Ha1; pose proof (Hin _ _ Hb Hbin) as Hb1.
  destruct (decide (RawSubjectPublicKeyInfo a = RawSubjectPublicKeyInfo b)) as [|Hne]; [done|exfalso].
  assert (Hclash : clash {| claimed := id; claimant := a; declared := true |} {| claimed := id; claimant := b; declared := d |} = true).
  { unfold clash; cbn; by rewrite bool_decide_true, bool_decide_false. }
  pose proof (ForallOrdPairs_In Hc _ _ Ha1 Hb1) as [E|[E|E]].
  - by injection E as E _; subst.
  - congruence.
  - rewrite clash_sym in E; congruence.
Qed.

Lemma path_wanted_ok c cas wantAKIs : path_wanted c cas wantAKIs = true <->
  exists i ca id, cas !! i = Some ca /\ b64_string id ∈ wantAKIs /\ In id (caKeyIdentifiers c ca (bool_decide (S i = length cas))).
Proof using.
  induction cas as [|ca cas IH]; cbn [path_wanted]; [split; [done|by intros ([|i] & ? & ? & ? & _)]|]; rewrite orb_true_iff, IH; split.
  - intros [He|(i & ca' & id & Hi & Hw & Hid)].
    + apply existsb_exists in He as (id & Hid & Hw); apply existsb_exists in Hw as (w & Hw & E%String.eqb_eq); subst w.
      exists 0%nat, ca, id; split_and!; [done|by apply list_elem_of_In|].
      destruct cas as [|ca' cas]; cbn [length]; [by rewrite bool_decide_true|by rewrite bool_decide_false].
    + exists (S i), ca', id; split_and!; [done|done|]; cbn [length].
      replace (bool_decide (S (S i) = S (length cas))) with (bool_decide (S i = length cas)); [done|apply bool_decide_ext; lia].
  - intros ([|i] & ca' & id & Hi & Hw & Hid); cbn [lookup list_lookup length] in *.
    + injection Hi as <-; left; apply existsb_exists; exists id; split.
      * destruct cas as [|ca' cas]; cbn [length] in Hid; [by rewrite bool_decide_true in Hid|by rewrite bool_decide_false in Hid].
      * apply existsb_exists; exists (b64_string id); split; [by apply list_elem_of_In|apply String.eqb_refl].
    + right; exists i, ca', id; split_and!; [done|done|].
      replace (bool_decide (S i = length cas)) with (bool_decide (S (S i) = S (length cas))); [done|apply bool_decide_ext; lia].
Qed.
End Authorities.

(** A key's own identifiers: the SHA-1 of its bits, and their SHA-256 cut to 20 bytes. *)
Definition identifies_key `{Signatures} `{!X509} (cert : Certificate) (id : bytes) : Prop :=
  exists bits, spki_bits (RawSubjectPublicKeyInfo cert) = Some bits /\ (id = sha1_Sum bits \/ id = take 20 (Sum256 bits)).

Lemma derived_identifies `{Signatures} `{!X509} cert id : id ∈ derivedKeyIdentifiers cert <-> identifies_key cert id.
Proof.
  unfold derivedKeyIdentifiers, identifies_key; destruct (spki_bits _) as [bits|]; [|rewrite elem_of_nil; naive_solver].
  rewrite !elem_of_cons, elem_of_nil; naive_solver.
Qed.

Lemma wantAKIs_ok value authorities : value ∈ wantAKIs_of authorities <->
  exists ta, ta ∈ authorities /\ ta_Type ta = "aki"%string /\ value ∈ ta_Values ta.
Proof.
  unfold wantAKIs_of; rewrite list_elem_of_In, in_flat_map; split.
  - intros (ta & Hta & Hv); destruct (String.eqb_spec (ta_Type ta) TrustedAuthorityAKI) as [E|]; [|done].
    exists ta; rewrite !list_elem_of_In; by split_and!.
  - intros (ta & Hta & E & Hv); exists ta; rewrite E; cbn; by rewrite <- !list_elem_of_In.
Qed.

(** C27: A checker with trust anchors accepts a chain only for a certificate authority above the leaf of a path that verifies to them - to the roots it was given, or else to its anchors - under an identifier that an entry of type aki asks for and that is derived from that authority's own key - or that it declares, being an anchor the checker was given, and that no anchor with another key declares or derives. *)
Theorem authority_on_path `{Signatures} `{!X509} c at' authorities issuerChain :
  (forall leaf intermediates roots now chains chain cert, x509_Verify leaf intermediates roots now = Some chains ->
     chain ∈ chains -> cert ∈ chain -> ParseCertificate (Raw cert) = Some cert) ->
  (forall anchor, anchor ∈ Anchors c -> ParseCertificate (Raw anchor) = Some anchor) ->
  is_Some (aki_Roots c) \/ Anchors c <> [] ->
  CheckTrustedAuthorities c at' authorities issuerChain = Ok tt ->
  exists roots leaf chains chain i ca id ta,
    (aki_Roots c = Some roots /\ Anchors c = [] \/ aki_Roots c = None /\ roots = pool_of (Anchors c)) /\
    VerifyChainsAt issuerChain (Some roots) at' = Ok (leaf, chains) /\ chain ∈ chains /\ chain !! S i = Some ca /\
    ta ∈ authorities /\ ta_Type ta = "aki"%string /\ b64_string id ∈ ta_Values ta /\
    (identifies_key ca id \/
     id <> [] /\ id = SubjectKeyId ca /\ length chain = S (S i) /\ ca ∈ Anchors c /\
     forall other, other ∈ Anchors c -> id = SubjectKeyId other \/ identifies_key other id ->
       RawSubjectPublicKeyInfo other = RawSubjectPublicKeyInfo ca).
Proof.
  intros Hpaths Hanchors Hanch; unfold CheckTrustedAuthorities; destruct (_ =? 0); [done|]; destruct (_ =? 0); [done|].
  assert (is_Some_b (aki_Roots c) || (0 <? blen (Anchors c)) = true) as ->.
  { destruct Hanch as [[r ->]|Hne]; [done|]; destruct (Anchors c) as [|a l]; [done|]; rewrite blen_cons; pose proof (blen_nonneg l).
    apply orb_true_iff; right; by apply Z.ltb_lt; lia. }
  intros (roots & Hr & Hk)%res_bind_ok.
  assert (Hval : Validate c = Ok tt).
  { destruct (aki_Roots c); [|unfold anchorSetOf in Hr]; by destruct (Validate c) as [[]|]. }
  apply res_bind_ok in Hk as ([leaf chains] & Hv & Hk); apply res_map_err_ok in Hv.
  destruct (existsb _ chains) eqn:E; [|done]; apply existsb_exists in E as (chain & Hc & Hw); apply list_elem_of_In in Hc.
  apply path_wanted_ok in Hw as (i & ca & id & Hi & Hw & Hid); apply wantAKIs_ok in Hw as (ta & Hta & Hty & Hw); exists roots, leaf, chains, chain, i, ca, id, ta.
  assert (Hpool : aki_Roots c = Some roots /\ Anchors c = [] \/ aki_Roots c = None /\ roots = pool_of (Anchors c)).
  { unfold anchorSetOf in Hr; rewrite Hval in Hr; cbn [res_bind] in Hr; destruct (aki_Roots c) as [r|] eqn:Er; injection Hr as <-; [left|by right].
    split; [done|]; unfold Validate in Hval; rewrite Er in Hval; cbn [is_Some_b andb] in Hval.
    destruct (Anchors c) as [|a l]; [done|]; rewrite blen_cons in Hval; pose proof (blen_nonneg l); by rewrite (proj2 (Z.ltb_lt _ _)) in Hval by lia. }
  assert (Hch : chain !! S i = Some ca) by (by destruct chain).
  assert (Hca : ParseCertificate (Raw ca) = Some ca).
  { apply VerifyChainsAt_ok in Hv as (pool & ints & _ & _ & _ & _ & Hx); eapply Hpaths; [exact Hx|exact Hc|by eapply list_elem_of_lookup_2]. }
  split_and!; [done..|]; unfold caKeyIdentifiers in Hid; apply in_app_iff in Hid as [Hid|Hid]; [left; by apply derived_identifies, list_elem_of_In|].
  case_bool_decide as El; cbn [andb] in Hid; [|done]; destruct (Z.eqb_spec (blen (SubjectKeyId ca)) 0) as [|Hne]; cbn [negb andb] in Hid; [done|].
  destruct (existsb _ (Anchors c)) eqn:Ea; [|done]; destruct Hid as [<-|[]]; apply existsb_exists in Ea as (a & Ha & Hraw%bool_decide_eq_true).
  apply list_elem_of_In in Ha; assert (a = ca) as -> by (specialize (Hanchors a Ha); rewrite Hraw, Hca in Hanchors; congruence).
  destruct (decide (SubjectKeyId ca ∈ derivedKeyIdentifiers ca)) as [|Hnd]; [left; by apply derived_identifies|right].
  split_and!; [by intros E0; rewrite E0 in Hne|done|destruct chain; [done|cbn in El |- *; lia]|done|].
  intros other Ho Hcl; rewrite <- derived_identifies in Hcl; unfold Validate in Hval; destruct (is_Some_b (aki_Roots c) && _); [done|].
  destruct (conflicting (flat_map claims_of (Anchors c))) eqn:Econf; [done|]; symmetry; eapply (declared_unambiguous _ ca other (SubjectKeyId ca)); try done.
  - unfold claims_of; apply in_app_iff; right; destruct (Z.eqb_spec (blen (SubjectKeyId ca)) 0); [done|].
    assert (bytes_in (SubjectKeyId ca) (derivedKeyIdentifiers ca) = false) as ->; [|by left].
    destruct (bytes_in _ _) eqn:Eb; [|done]; apply existsb_exists in Eb as (x & Hx & ->%bool_decide_eq_true); exfalso; apply Hnd; by apply list_elem_of_In.
  - destruct Hcl as [E1|]; [left; split; [done|]|by right]; intros E0; by rewrite E0 in Hne.
Qed.

(** ** An anchor named by what it declares *)

Module AuthoritiesExample.

#[export] Instance signatures : Signatures := {|
  ec := unit; signer := unit; Public _ := OtherKey; signer_Sign _ _ := None; Sum256 := id; asn1_Marshal _ _ := None; asn1_Unmarshal _ := None;
  VerifyASN1 _ _ _ := false; ed25519_Verify _ _ _ := false |}.

Definition certificate (name issuer key declared : bytes) : Certificate := {|
  Raw := name; RawIssuer := issuer; RawSubject := name; RawSubjectPublicKeyInfo := key; Country := []; Province := [];
  SubjectKeyId := declared; AuthorityKeyId := []; cert_PublicKey := OtherKey; RSA := None; SerialNumber := 1; NotBefore := 0; NotAfter := 0;
  BasicConstraintsValid := false; IsCA := false; KeyUsage := 0; ExtKeyUsage := []; UnknownExtKeyUsage := []; cert_Extensions := [];
  DNSNames := []; URIs := [] |}.

Definition leaf : Certificate := certificate [1] [2] [10] [].
Definition ca : Certificate := certificate [2] [2] [20] [77].
Definition another : Certificate := certificate [3] [3] [30] [88].

(** Keys are their own bits; identifiers, of them. *)
#[export] Instance x509 : X509 := {|
  CertPool := list Certificate; pool_of := id; IsSystemPool _ := false;
  ParseCertificate der := if bool_decide (der = [1]) then Some leaf else if bool_decide (der = [2]) then Some ca
    else if bool_decide (der = [3]) then Some another else None;
  CheckSignature_own c := bool_decide (RawIssuer c = RawSubject c); CheckSignatureFrom c issuer := bool_decide (RawIssuer c = RawSubject issuer);
  CheckCRLSignatureFrom _ _ := false; x509_Verify c _ roots _ := if bool_decide (Raw c = [1]) && existsb (fun r => bool_decide (Raw r = Raw ca)) roots then Some [[leaf; ca]] else None;
  key_Equal _ _ := false; unmarshal_oids _ := None; spki_bits := Some; sha1_Sum b := 0 :: b |}.

Definition checker : AKITrustedAuthoritiesChecker := {| aki_Roots := None; Anchors := [another; ca] |}.
Definition asked : list TrustedAuthoritiesQuery := [{| ta_Type := "aki"; ta_Values := [b64_string [77]] |}]%string.
End AuthoritiesExample.

Section Example.
Import AuthoritiesExample.

Lemma authority_on_path_witness : CheckTrustedAuthorities checker 100 asked [[1]] = Ok tt /\
  exists roots leaf chains chain i ca id ta,
    (aki_Roots checker = Some roots /\ Anchors checker = [] \/ aki_Roots checker = None /\ roots = pool_of (Anchors checker)) /\
    VerifyChainsAt [[1]] (Some roots) 100 = Ok (leaf, chains) /\ chain ∈ chains /\ chain !! S i = Some ca /\
    ta ∈ asked /\ ta_Type ta = "aki"%string /\ b64_string id ∈ ta_Values ta /\
    (identifies_key ca id \/
     id <> [] /\ id = SubjectKeyId ca /\ length chain = S (S i) /\ ca ∈ Anchors checker /\
     forall other, other ∈ Anchors checker -> id = SubjectKeyId other \/ identifies_key other id ->
       RawSubjectPublicKeyInfo other = RawSubjectPublicKeyInfo ca).
Proof.
  assert (Hc : CheckTrustedAuthorities checker 100 asked [[1]] = Ok tt) by (vm_compute; reflexivity).
  split; [exact Hc|]; refine (authority_on_path checker 100 asked [[1]] _ _ _ Hc); [| |by right].
  - intros l ints roots now chains chain cert; cbn; destruct (bool_decide _ && existsb _ _); [|done]; intros [= <-] ->%list_elem_of_singleton Hin.
    apply elem_of_cons in Hin as [->|Hin]; [done|]; by apply list_elem_of_singleton in Hin as ->.
  - intros a Ha; cbn in Ha; apply elem_of_cons in Ha as [->|Ha]; [done|]; by apply list_elem_of_singleton in Ha as ->.
Defined.
End Example.
