(* ===== verification/Hkdf.v ===== *)
(** * HKDF: [internal/hkdf]

    RFC 5869's key derivation over HMAC-SHA-256, which is a parameter.  The
    theorem: what Expand derives is the prefix of RFC 5869's blocks. *)
From S2P Require Import Prelude.
#[local] Open Scope Z_scope.

Inductive hkdf_error : Type := HkdfNotPositive (n : Z) | HkdfTooLong (n : Z) | HkdfFuel.

Definition HashLen : Z := 32.
Definition maxLength : Z := 255 * HashLen.

Section HKDF.
Context (mac : bytes -> bytes -> bytes).

Definition Extract (salt ikm : bytes) : bytes := mac (match salt with [] => replicate 32 0 | _ => salt end) ikm.

Fixpoint expand_loop (fuel : nat) (prk info t okm : bytes) (counter length : Z) : res hkdf_error bytes :=
  match fuel with
  | O => Err HkdfFuel
  | S fuel =>
      if length <=? blen okm then Ok okm
      else
        let t := mac prk (t ++ info ++ [counter]) in
        expand_loop fuel prk info t (okm ++ t) (wrap8 (counter + 1)) length
  end.

(** A block at least a byte long: [length] rounds are enough. *)
Definition Expand (prk info : bytes) (length : Z) : res hkdf_error bytes :=
  if length <=? 0 then Err (HkdfNotPositive length)
  else if maxLength <? length then Err (HkdfTooLong length)
  else
    let? okm := expand_loop (S (Z.to_nat length)) prk info [] [] 1 length in
    Ok (take (Z.to_nat length) okm).

Definition Key (salt ikm info : bytes) (length : Z) : res hkdf_error bytes := Expand (Extract salt ikm) info length.

(** ** RFC 5869's T(1) | T(2) | ... *)

Fixpoint block (prk info : bytes) (i : nat) : bytes :=
  match i with
  | O => []
  | S j => mac prk (block prk info j ++ info ++ [Z.of_nat i])
  end.

Definition blocks (prk info : bytes) (n : nat) : bytes := concat (map (block prk info) (seq 1 n)).

Context (Hmac : forall k m, blen (mac k m) = HashLen).

Lemma blocks_S prk info n : blocks prk info (S n) = blocks prk info n ++ block prk info (S n).
Proof using. unfold blocks; by rewrite seq_S, map_app, concat_app; cbn [map concat]; rewrite app_nil_r. Qed.

Lemma blocks_blen prk info n : blen (blocks prk info n) = HashLen * Z.of_nat n.
Proof using Hmac.
  induction n as [|n IH]; [done|]; rewrite blocks_S, blen_app, IH; cbn [block]; rewrite Hmac; unfold HashLen; lia.
Qed.

Lemma expand_loop_blocks prk info length fuel : 0 < length <= maxLength -> forall n, (n <= 255)%nat ->
  (forall m, (m < n)%nat -> blen (blocks prk info m) < length) -> (Z.to_nat length < fuel + n)%nat ->
  exists N, (N <= 255)%nat /\ length <= blen (blocks prk info N) /\ (forall m, (m < N)%nat -> blen (blocks prk info m) < length) /\
    expand_loop fuel prk info (block prk info n) (blocks prk info n) (wrap8 (Z.of_nat n + 1)) length = Ok (blocks prk info N).
Proof using Hmac.
  intros Hl; induction fuel as [|fuel IH]; intros n Hn Hm Hf; cbn [expand_loop].
  - exfalso; specialize (Hm (n - 1)%nat ltac:(lia)); rewrite blocks_blen in Hm; unfold HashLen in Hm; lia.
  - destruct (Z.leb_spec length (blen (blocks prk info n))); [by exists n|].
    assert (Hlt : (n < 255)%nat).
    { rewrite blocks_blen in *; unfold maxLength, HashLen in *; lia. }
    assert (Hw : wrap8 (Z.of_nat n + 1) = Z.of_nat (S n)) by (unfold wrap8; rewrite Z.mod_small by lia; lia).
    rewrite Hw; change (mac prk (block prk info n ++ info ++ [Z.of_nat (S n)])) with (block prk info (S n)); rewrite <- blocks_S.
    apply IH; [lia| |lia]; intros m Hlm; destruct (decide (m = n)) as [->|]; [done|apply Hm; lia].
Qed.

(** Key derivation, exactly: a positive length of at most 255 blocks is derived as the first bytes of RFC 5869's blocks - each the code of the one before, the info and its number - and any other length is refused. *)
Theorem Expand_exact prk info length okm :
  Expand prk info length = Ok okm <->
  0 < length <= 255 * HashLen /\ exists n, (n <= 255)%nat /\ length <= HashLen * Z.of_nat n /\
    okm = take (Z.to_nat length) (blocks prk info n).
Proof using Hmac.
  unfold Expand; destruct (Z.leb_spec length 0); [split; [done|lia]|].
  destruct (Z.ltb_spec maxLength length); [split; [done|unfold maxLength in *; lia]|].
  destruct (expand_loop_blocks prk info length (S (Z.to_nat length)) ltac:(lia) 0%nat ltac:(lia) ltac:(lia) ltac:(lia)) as (N & HN & Hle & Hmin & E).
  change (wrap8 (Z.of_nat 0 + 1)) with 1 in E; cbn [block] in E; change (blocks prk info 0) with ([] : bytes) in E.
  rewrite E; cbn [res_bind]; split.
  - intros [= <-]; split; [unfold maxLength in *; lia|]; exists N; rewrite blocks_blen in Hle; done.
  - intros (_ & n & Hn & Hn' & ->); f_equal.
    assert (Hbig : forall k, take (Z.to_nat length) (blocks prk info (N + k)) = take (Z.to_nat length) (blocks prk info N)).
    { induction k as [|k IH]; [by rewrite Nat.add_0_r|]; rewrite Nat.add_succ_r, blocks_S, take_app_le; [done|].
      rewrite blocks_blen in Hle; pose proof (blocks_blen prk info (N + k)) as Hb; unfold blen, HashLen in *; lia. }
    replace n with (N + (n - N))%nat; [by rewrite Hbig|].
    destruct (decide (n < N)%nat) as [Hlt|]; [|lia]; specialize (Hmin n Hlt); rewrite blocks_blen in Hmin; lia.
Qed.
End HKDF.

(** 40 bytes, of two blocks. *)
Lemma Expand_exact_witness : let mac := fun k m : bytes => replicate 32 (foldl Z.add 0 (k ++ m) mod 256) in
  Expand mac [1] [2] 40 = Ok (replicate 32 4 ++ replicate 8 133) /\
  (0 < 40 <= 255 * HashLen /\ exists n, (n <= 255)%nat /\ 40 <= HashLen * Z.of_nat n /\
    replicate 32 4 ++ replicate 8 133 = take (Z.to_nat 40) (blocks mac [1] [2] n)).
Proof.
  intros mac; assert (E : Expand mac [1] [2] 40 = Ok (replicate 32 4 ++ replicate 8 133)) by (vm_compute; reflexivity).
  split; [exact E|]; apply (Expand_exact mac (fun k m => eq_refl) [1] [2] 40); exact E.
Defined.
