(* ===== verification/Cose.v ===== *)
(** * COSE: [internal/cose]

    COSE_Sign1 (cose.go), COSE_Mac0 (mac0.go) and a token's x5chain
    (x5chain_signer.go).  What is read goes through [Cbor]'s strict walk; the
    CBOR of what it lets through, the curves' keys and the hashes are
    parameters.  The theorems: what verifies, exactly, and that what is signed
    verifies. *)
From S2P Require Import Prelude Cbor Json DcqlQuery JwtDate Jws X509 CertChain.
#[local] Open Scope Z_scope.

Inductive cose_error : Type :=
| CoseTooLarge (n : Z)
| CoseNotArray
| CoseDecode (e : cbor_error)
| CoseTag (n : Z)
| CoseCrit
| CoseAlgInteger
| CoseKID
| CoseTyp
| CoseX5Chain
| CoseX5ChainLength (n : Z)
| CoseX5ChainEntry
| CoseBothBuckets
| CoseProtected (e : cbor_error)
| CoseNoPayload
| CoseDetached
| CoseEmbedded
| CoseAlg (alg : Z)
| CoseMarshal
| CoseKeyType
| CoseSmallOrder
| CoseECDSA (e : jose_error)
| CoseSignature
| CoseSigning
| CoseUnsupported (alg : Z)
| CoseMAC
| CoseSigner (e : chain_error).

(** ** Algorithms and keys *)

Definition ES256 : Z := -7.
Definition ES384 : Z := -35.
Definition ES512 : Z := -36.
Definition EdDSA : Z := -8.
Definition HMAC256 : Z := 5.
Definition esp256 : Z := -9.
Definition esp384 : Z := -51.
Definition esp512 : Z := -52.

Definition IsSupportedSigningAlg (alg : Z) : bool := existsb (Z.eqb alg) [ES256; ES384; ES512; EdDSA].

Inductive curve : Type := P256 | P384 | P521.

#[export] Instance curve_eq_dec : EqDecision curve.
Proof. solve_decision. Defined.

Definition ecdsaParamsFor (alg : Z) : option curve :=
  if alg =? ES256 then Some P256 else if alg =? ES384 then Some P384 else if alg =? ES512 then Some P521 else None.

(** (BitSize + 7) / 8, of 256, 384 and 521. *)
Definition size (c : curve) : Z := match c with P256 => 32 | P384 => 48 | P521 => 66 end.

Definition sameAlg (header alg : Z) : bool :=
  (header =? alg) ||
  (if alg =? ES256 then header =? esp256 else if alg =? ES384 then header =? esp384
   else if alg =? ES512 then header =? esp512 else false).

(** The curve of a key that is not on P-256; crypto/sha512 and crypto/hmac. *)
Class CoseKeys `{Signatures} : Type := {
  other_curve : ec -> option curve;
  Sum384 : bytes -> bytes;
  Sum512 : bytes -> bytes;
  computeHMAC : bytes -> bytes -> bytes
}.

(** ** Headers *)

Record Headers : Type := { h_Alg : Z; KID : option bytes; h_Typ : string; X5Chain : list bytes }.
Definition no_headers : Headers := {| h_Alg := 0; KID := None; h_Typ := ""; X5Chain := [] |}.

Definition labelAlg : Z := 1.
Definition labelCrit : Z := 2.
Definition labelKID : Z := 4.
Definition labelTyp : Z := 16.
Definition labelX5Chain : Z := 33.

Definition toMap (h : Headers) : gmap Z goval :=
  let m : gmap Z goval := if h_Alg h =? 0 then ∅ else {[labelAlg := VInt (h_Alg h)]} in
  let m := match KID h with None => m | Some kid => <[labelKID := VBytes kid]> m end in
  let m := if String.eqb (h_Typ h) "" then m else <[labelTyp := VString (h_Typ h)]> m in
  match X5Chain h with
  | [] => m
  | [cert] => <[labelX5Chain := VBytes cert]> m
  | chain => <[labelX5Chain := VArray (map VBytes chain)]> m
  end.

Definition toInt64 (v : goval) : res cose_error Z :=
  match v with VInt n => if 2 ^ 63 - 1 <? n then Err CoseAlgInteger else Ok n | _ => Err CoseAlgInteger end.

Fixpoint x5chain_entries (l : list goval) : res cose_error (list bytes) :=
  match l with
  | [] => Ok []
  | VBytes b :: l => let? chain := x5chain_entries l in Ok (b :: chain)
  | _ :: _ => Err CoseX5ChainEntry
  end.

Definition x5ChainFromValue (v : goval) : res cose_error (list bytes) :=
  match v with
  | VBytes b => Ok [b]
  | VArray l => if MaxChainLength <? blen l then Err (CoseX5ChainLength (blen l)) else x5chain_entries l
  | _ => Err CoseX5Chain
  end.

Definition headersFromMap (m : gmap Z goval) : res cose_error Headers :=
  match m !! labelCrit with
  | Some _ => Err CoseCrit
  | None =>
      let? alg := match m !! labelAlg with Some v => toInt64 v | None => Ok 0 end in
      let? kid := match m !! labelKID with Some (VBytes b) => Ok (Some b) | Some _ => Err CoseKID | None => Ok None end in
      let? typ := match m !! labelTyp with Some (VString s) => Ok s | Some _ => Err CoseTyp | None => Ok EmptyString end in
      let? chain := match m !! labelX5Chain with Some v => x5ChainFromValue v | None => Ok [] end in
      Ok {| h_Alg := alg; KID := kid; h_Typ := typ; X5Chain := chain |}
  end.

Definition X5ChainOf (protected unprotected : Headers) : list bytes :=
  match X5Chain protected with [] => X5Chain unprotected | chain => chain end.

(** ** Messages *)

(** A rawSign1 or a rawMac0: [Signature] is its tag; a null payload is none. *)
Record message : Type := { Protected : bytes; Unprotected : gmap Z goval; Payload : option bytes; Signature : bytes }.

(** What the packages' cbor.DecMode decodes under the walk; the maps, arrays
    and tags it and the canonical cbor.EncMode are given here. *)
Class CborLib : Type := {
  cbor_key : Type;
  key_eqb : cbor_key -> cbor_key -> bool;
  decodes_time : bytes -> bool;
  decode_map_key : bytes -> option (option cbor_key);
  marshal_headers : gmap Z goval -> option bytes;
  marshal_structure : string -> bytes -> bytes -> bytes -> option bytes;
  marshal_message : message -> option bytes;
  marshal_raw_tag : Z -> bytes -> option bytes;
  unmarshal_headers : bytes -> res cbor_error (gmap Z goval);
  unmarshal_message : bytes -> res cbor_error message;
  unmarshal_raw_tag : bytes -> res cbor_error (Z * bytes)
}.

Definition MaxBytes : Z := 2 ^ 16.

Definition sign1Tag : Z := 18.
Definition sign1TagByte : Z := Z.lor 0xc0 sign1Tag.
Definition mac0TagByte : Z := Z.lor 0xc0 17.

Definition untag (b : bytes) (tagByte : Z) : res cose_error bytes :=
  let b := match b with c :: rest => if c =? tagByte then rest else b | [] => b end in
  match b with
  | c :: _ => if Z.shiftr c 5 =? 4 then Ok b else Err CoseNotArray
  | [] => Err CoseNotArray
  end.

Section COSE.
Context `{Signatures} `{!CoseKeys} `{!CborLib}.

Definition decMode : DecMode cbor_key := Wrap
  {| MaxNestedLevels := 16; MaxArrayElements := 4096; MaxMapPairs := 4096; UTF8RejectInvalid := true;
     MapKeyByteStringAllowed := true; other_eqb := key_eqb; unmarshal_time := decodes_time; unmarshal_map_key := decode_map_key |}.

Definition decode {V} (unmarshal : bytes -> res cbor_error V) (d : bytes) : res cbor_error V := (Unmarshal unmarshal decMode d).1.

Definition curve_of (pub : PublicKey ec) : option curve :=
  match pub with ECDSAKey true _ => Some P256 | ECDSAKey false k => other_curve k | _ => None end.

Definition AlgForKey (pub : PublicKey ec) : res cose_error Z :=
  match pub with
  | ECDSAKey _ _ =>
      match curve_of pub with
      | Some P256 => Ok ES256
      | Some P384 => Ok ES384
      | Some P521 => Ok ES512
      | None => Err CoseKeyType
      end
  | Ed25519Key _ => Ok EdDSA
  | OtherKey => Err CoseKeyType
  end.

Definition digest (c : curve) (b : bytes) : bytes := match c with P256 => Sum256 b | P384 => Sum384 b | P521 => Sum512 b end.

Definition signBytes (alg : Z) (s : signer) (toSign : bytes) : res cose_error bytes :=
  match ecdsaParamsFor alg with
  | Some c =>
      if bool_decide (curve_of (Public s) = Some c) then
        match signer_Sign s (digest c toSign) with
        | None => Err CoseSigning
        | Some der => res_map_err CoseECDSA (ToFixed der (size c))
        end
      else Err CoseKeyType
  | None =>
      if negb (alg =? EdDSA) then Err (CoseUnsupported alg)
      else match Public s with
      | Ed25519Key _ => match signer_Sign s toSign with None => Err CoseSigning | Some sig => Ok sig end
      | _ => Err CoseKeyType
      end
  end.

Definition verifyBytes (alg : Z) (pub : PublicKey ec) (toVerify sig : bytes) : res cose_error unit :=
  match ecdsaParamsFor alg with
  | Some c =>
      match pub with
      | ECDSAKey _ k =>
          if bool_decide (curve_of pub = Some c) then
            let? der := res_map_err CoseECDSA (ToDER sig (size c)) in
            if VerifyASN1 k (digest c toVerify) der then Ok tt else Err CoseSignature
          else Err CoseKeyType
      | _ => Err CoseKeyType
      end
  | None =>
      if negb (alg =? EdDSA) then Err (CoseUnsupported alg)
      else match pub with
      | Ed25519Key k =>
          if negb (blen k =? 32) then Err CoseKeyType
          else if IsSmallOrderEd25519 k then Err CoseSmallOrder
          else if ed25519_Verify k toVerify sig then Ok tt else Err CoseSignature
      | _ => Err CoseKeyType
      end
  end.

(** [o], or the error marshalling it is. *)
Definition marshalled {A} (o : option A) : res cose_error A := match o with Some a => Ok a | None => Err CoseMarshal end.

Definition with_alg (alg : Z) (h : Headers) : Headers := {| h_Alg := alg; KID := KID h; h_Typ := h_Typ h; X5Chain := X5Chain h |}.

Definition signSign1 (alg : Z) (s : signer) (protected unprotected : Headers) (wirePayload : option bytes) (externalAAD sigPayload : bytes)
    : res cose_error bytes :=
  let? protectedBytes := marshalled (marshal_headers (toMap (with_alg alg protected))) in
  let? toSign := marshalled (marshal_structure "Signature1" protectedBytes externalAAD sigPayload) in
  let? sig := signBytes alg s toSign in
  marshalled (marshal_message {| Protected := protectedBytes; Unprotected := toMap unprotected; Payload := wirePayload; Signature := sig |}).

Definition Sign (alg : Z) (s : signer) (protected unprotected : Headers) (payload : option bytes) (externalAAD : bytes) : res cose_error bytes :=
  match payload with
  | None => Err CoseNoPayload
  | Some p => signSign1 alg s protected unprotected payload externalAAD p
  end.

Definition SignDetached (alg : Z) (s : signer) (protected unprotected : Headers) (detachedPayload : option bytes) (externalAAD : bytes)
    : res cose_error bytes :=
  match detachedPayload with
  | None => Err CoseNoPayload
  | Some p => signSign1 alg s protected unprotected None externalAAD p
  end.

Definition SignTagged (alg : Z) (s : signer) (protected unprotected : Headers) (payload : option bytes) (externalAAD : bytes) : res cose_error bytes :=
  let? untagged := Sign alg s protected unprotected payload externalAAD in
  marshalled (marshal_raw_tag sign1Tag untagged).

(** ** Reading *)

Definition read_message (b : bytes) (tagByte maxBytes : Z) : res cose_error message :=
  if maxBytes <? blen b then Err (CoseTooLarge (blen b))
  else
    let? body := untag b tagByte in
    res_map_err CoseDecode (decode unmarshal_message body).

Definition decodeRaw (sign1 : bytes) (maxBytes : Z) : res cose_error message := read_message sign1 sign1TagByte maxBytes.

Definition stripSign1Tag (sign1 : bytes) (maxBytes : Z) : res cose_error bytes :=
  if maxBytes <? blen sign1 then Err (CoseTooLarge (blen sign1))
  else
    let? (number, content) := res_map_err CoseDecode (decode unmarshal_raw_tag sign1) in
    if negb (number =? sign1Tag) then Err (CoseTag number)
    else match content with
    | c :: _ => if Z.shiftr c 5 =? 4 then Ok content else Err CoseNotArray
    | [] => Err CoseNotArray
    end.

Definition decodeHeaders (protectedBytes : bytes) (unprotectedMap : gmap Z goval) : res cose_error (Headers * Headers) :=
  let? protectedMap := res_map_err CoseProtected (decode unmarshal_headers protectedBytes) in
  if existsb (fun p => is_Some_b (protectedMap !! p.1)) (map_to_list unprotectedMap) then Err CoseBothBuckets
  else
    let? protected := headersFromMap protectedMap in
    let? unprotected := headersFromMap unprotectedMap in
    Ok (protected, unprotected).

Definition verifySign1 (alg : Z) (pub : PublicKey ec) (raw : message) (externalAAD sigPayload : bytes) : res cose_error (Headers * Headers) :=
  let? (protected, unprotected) := decodeHeaders (Protected raw) (Unprotected raw) in
  if negb (sameAlg (h_Alg protected) alg) then Err (CoseAlg (h_Alg protected))
  else
    let? toVerify := marshalled (marshal_structure "Signature1" (Protected raw) externalAAD sigPayload) in
    let? _ := verifyBytes alg pub toVerify (Signature raw) in
    Ok (protected, unprotected).

Definition VerifyMax (alg : Z) (pub : PublicKey ec) (sign1 externalAAD : bytes) (maxBytes : Z) : res cose_error (Headers * Headers * bytes) :=
  let? raw := decodeRaw sign1 maxBytes in
  match Payload raw with
  | None => Err CoseDetached
  | Some payload =>
      let? (protected, unprotected) := verifySign1 alg pub raw externalAAD payload in
      Ok (protected, unprotected, payload)
  end.

Definition Verify (alg : Z) (pub : PublicKey ec) (sign1 externalAAD : bytes) : res cose_error (Headers * Headers * bytes) :=
  VerifyMax alg pub sign1 externalAAD MaxBytes.

Definition VerifyDetachedMax (alg : Z) (pub : PublicKey ec) (sign1 detachedPayload externalAAD : bytes) (maxBytes : Z)
    : res cose_error (Headers * Headers) :=
  let? raw := decodeRaw sign1 maxBytes in
  match Payload raw with
  | Some _ => Err CoseEmbedded
  | None => verifySign1 alg pub raw externalAAD detachedPayload
  end.

Definition VerifyDetached (alg : Z) (pub : PublicKey ec) (sign1 detachedPayload externalAAD : bytes) : res cose_error (Headers * Headers) :=
  VerifyDetachedMax alg pub sign1 detachedPayload externalAAD MaxBytes.

Definition DecodeUnverifiedMax (sign1 : bytes) (maxBytes : Z) : res cose_error (Headers * Headers * option bytes) :=
  let? raw := decodeRaw sign1 maxBytes in
  let? (protected, unprotected) := decodeHeaders (Protected raw) (Unprotected raw) in
  Ok (protected, unprotected, Payload raw).

Definition DecodeUnverified (sign1 : bytes) : res cose_error (Headers * Headers * option bytes) := DecodeUnverifiedMax sign1 MaxBytes.

Definition VerifyTaggedMax (alg : Z) (pub : PublicKey ec) (sign1 externalAAD : bytes) (maxBytes : Z) : res cose_error (Headers * Headers * bytes) :=
  let? untagged := stripSign1Tag sign1 maxBytes in VerifyMax alg pub untagged externalAAD maxBytes.

Definition DecodeUnverifiedTaggedMax (sign1 : bytes) (maxBytes : Z) : res cose_error (Headers * Headers * option bytes) :=
  let? untagged := stripSign1Tag sign1 maxBytes in DecodeUnverifiedMax untagged maxBytes.

(** ** MACs *)

Definition ComputeMAC (key : bytes) (protected unprotected : Headers) (detachedPayload : option bytes) (externalAAD : bytes) : res cose_error bytes :=
  match detachedPayload with
  | None => Err CoseNoPayload
  | Some payload =>
      let? protectedBytes := marshalled (marshal_headers (toMap (with_alg HMAC256 protected))) in
      let? toMAC := marshalled (marshal_structure "MAC0" protectedBytes externalAAD payload) in
      marshalled (marshal_message
        {| Protected := protectedBytes; Unprotected := toMap unprotected; Payload := None; Signature := computeHMAC key toMAC |})
  end.

Definition VerifyMACMax (key mac0 detachedPayload externalAAD : bytes) (maxBytes : Z) : res cose_error (Headers * Headers) :=
  let? raw := read_message mac0 mac0TagByte maxBytes in
  match Payload raw with
  | Some _ => Err CoseEmbedded
  | None =>
      let? (protected, unprotected) := decodeHeaders (Protected raw) (Unprotected raw) in
      if negb (h_Alg protected =? HMAC256) then Err (CoseAlg (h_Alg protected))
      else
        let? toMAC := marshalled (marshal_structure "MAC0" (Protected raw) externalAAD detachedPayload) in
        if negb (bool_decide (computeHMAC key toMAC = Signature raw)) then Err CoseMAC else Ok (protected, unprotected)
  end.

Definition VerifyMAC (key mac0 detachedPayload externalAAD : bytes) : res cose_error (Headers * Headers) :=
  VerifyMACMax key mac0 detachedPayload externalAAD MaxBytes.

(** ** The signer of a token, from its x5chain *)

Record X5ChainTrust `{!X509} : Type := {
  trust_MaxBytes : Z;
  ProtectedOnly : bool;
  trust_Roots : option CertPool;
  trust_Policy : option policy;
  trust_Revocation : option Checker;
  trust_Now : Z
}.

Definition Chain `{!X509} (trust : X5ChainTrust) (sign1 : bytes) : res cose_error (list bytes * bool) :=
  let? (protected, unprotected, _) := DecodeUnverifiedMax sign1 (trust_MaxBytes trust) in
  if ProtectedOnly trust || negb (blen (X5Chain protected) =? 0) then Ok (X5Chain protected, true)
  else Ok (X5Chain unprotected, false).

Definition Signer `{!X509} (clock : Z) (trust : X5ChainTrust) (chain : list bytes) : res cose_error (Certificate * Z) :=
  let? (leaf, _) := res_map_err CoseSigner
    (VerifyTrustedChainsAt chain (trust_Roots trust) (trust_Policy trust) (trust_Revocation trust) (trust_Now trust) clock) in
  let? alg := AlgForKey (cert_PublicKey leaf) in
  Ok (leaf, alg).

Definition X5ChainSigner `{!X509} (clock : Z) (sign1 : bytes) (trust : X5ChainTrust) : res cose_error (Certificate * Z) :=
  let? (chain, _) := Chain trust sign1 in Signer clock trust chain.

End COSE.

(** ** What is read *)

Definition headers_ok (h : Headers) : Prop := - 2 ^ 63 <= h_Alg h < 2 ^ 63 /\ blen (X5Chain h) <= MaxChainLength /\ utf8 (h_Typ h) = true.

Lemma x5chain_entries_map chain : x5chain_entries (map VBytes chain) = Ok chain.
Proof. induction chain as [|b chain IH]; cbn [map x5chain_entries]; [done|]; by rewrite IH. Qed.

(** The header map of these headers, at each label. *)
Lemma toMap_lookup h : toMap h !! labelCrit = None /\
  toMap h !! labelAlg = (if h_Alg h =? 0 then None else Some (VInt (h_Alg h))) /\
  toMap h !! labelKID = VBytes <$> KID h /\
  toMap h !! labelTyp = (if String.eqb (h_Typ h) "" then None else Some (VString (h_Typ h))) /\
  toMap h !! labelX5Chain =
    match X5Chain h with [] => None | [cert] => Some (VBytes cert) | chain => Some (VArray (map VBytes chain)) end.
Proof.
  unfold toMap; destruct h as [a kid t chain]; cbn [h_Alg KID h_Typ X5Chain].
  destruct (a =? 0), kid, (String.eqb t ""), chain as [|x [|y chain]]; split_and!; by simplify_map_eq.
Qed.

Lemma headersFromMap_toMap h : headers_ok h -> headersFromMap (toMap h) = Ok h.
Proof.
  intros (Ha & Hc & _); destruct (toMap_lookup h) as (E1 & E2 & E3 & E4 & E5); unfold headersFromMap; rewrite E1, E2, E3, E4, E5.
  destruct h as [a kid t chain]; cbn [h_Alg KID h_Typ X5Chain fmap option_fmap option_map] in *.
  assert (Hs : (let? n := match (if a =? 0 then None else Some (VInt a)) with Some v => toInt64 v | None => Ok 0 end in Ok n) = Ok a).
  { destruct (Z.eqb_spec a 0) as [->|]; [done|]; cbn [toInt64]; by destruct (Z.ltb_spec (2 ^ 63 - 1) a); [lia|]. }
  destruct (if a =? 0 then None else Some (VInt a)) as [v|]; [destruct (toInt64 v) as [n|]; [|done]|]; cbn [res_bind] in Hs |- *;
    injection Hs as ->; (destruct kid as [b|]; cbn [res_bind]);
    (destruct (String.eqb_spec t ""); cbn [res_bind]; subst);
    (destruct chain as [|x [|y chain]]; cbn [res_bind x5ChainFromValue]; [done|done|]);
    (replace (blen (map VBytes (x :: y :: chain))) with (blen (x :: y :: chain)) by (unfold blen; by rewrite length_map));
    destruct (Z.ltb_spec MaxChainLength (blen (x :: y :: chain))); try lia; by rewrite x5chain_entries_map.
Qed.

Definition is_array (body : bytes) : Prop := exists c rest, body = c :: rest /\ Z.shiftr c 5 = 4.

Lemma untag_ok b tagByte body : Z.shiftr tagByte 5 <> 4 ->
  untag b tagByte = Ok body <-> (b = body \/ b = tagByte :: body) /\ is_array body.
Proof.
  intros Ht; unfold untag, is_array; split.
  - destruct b as [|c rest]; [done|]; destruct (Z.eqb_spec c tagByte) as [->|Hc].
    + destruct rest as [|d rest]; [done|]; destruct (Z.eqb_spec (Z.shiftr d 5) 4); [|done]; intros [= <-]; eauto 6.
    + destruct (Z.eqb_spec (Z.shiftr c 5) 4); [|done]; intros [= <-]; eauto 6.
  - intros [[-> | ->] (c & rest & -> & Hc)].
    + destruct (Z.eqb_spec c tagByte) as [->|]; [done|]; by rewrite Hc.
    + by rewrite Z.eqb_refl, Hc.
Qed.

Section Read.
Context `{Signatures} `{!CoseKeys} `{!CborLib}.

(** The message a COSE structure carries, with its tag or without. *)
Definition carried (b : bytes) (tagByte maxBytes : Z) (raw : message) : Prop :=
  blen b <= maxBytes /\ exists body, (b = body \/ b = tagByte :: body) /\ is_array body /\ decode unmarshal_message body = Ok raw.

Lemma read_message_ok b tagByte maxBytes raw : Z.shiftr tagByte 5 <> 4 ->
  read_message b tagByte maxBytes = Ok raw <-> carried b tagByte maxBytes raw.
Proof using.
  intros Ht; unfold read_message, carried; destruct (Z.ltb_spec maxBytes (blen b)); [split; [done|lia]|]; rewrite res_bind_ok; split.
  - intros (body & Hu & Hd); apply (untag_ok _ _ _ Ht) in Hu as [Hb Ha]; split; [done|]; exists body; split_and!; try done.
    by destruct (decode _ _); [injection Hd as ->|].
  - intros (_ & body & Hb & Ha & Hd); exists body; split; [by apply untag_ok|by rewrite Hd].
Qed.

(** Headers are read of two buckets that share no label. *)
Definition headers_of (protectedBytes : bytes) (unprotectedMap : gmap Z goval) (protected unprotected : Headers) : Prop :=
  exists protectedMap, decode unmarshal_headers protectedBytes = Ok protectedMap /\ protectedMap ##ₘ unprotectedMap /\
    headersFromMap protectedMap = Ok protected /\ headersFromMap unprotectedMap = Ok unprotected.

Lemma existsb_disjoint (m1 m2 : gmap Z goval) : existsb (fun p => is_Some_b (m1 !! p.1)) (map_to_list m2) = false <-> m1 ##ₘ m2.
Proof using.
  rewrite map_disjoint_spec; split.
  - intros He k x y E1 E2; apply elem_of_map_to_list in E2; apply list_elem_of_In in E2.
    assert (Ht : existsb (fun p => is_Some_b (m1 !! p.1)) (map_to_list m2) = true) by (apply existsb_exists; exists (k, y); cbn; by rewrite E1).
    congruence.
  - intros Hd; destruct (existsb _ _) eqn:E; [|done]; apply existsb_exists in E as ([k y] & Hin & Hs); cbn in Hs.
    apply list_elem_of_In, elem_of_map_to_list in Hin; destruct (m1 !! k) as [x|] eqn:E1; [|done]; by destruct (Hd k x y).
Qed.

Lemma decodeHeaders_ok pb um protected unprotected :
  decodeHeaders pb um = Ok (protected, unprotected) <-> headers_of pb um protected unprotected.
Proof using.
  unfold decodeHeaders, headers_of; rewrite res_bind_ok; split.
  - intros (pm & Hd & Hr); destruct (decode _ _) as [pm'|] eqn:E; [injection Hd as ->|done].
    destruct (existsb _ _) eqn:Ee; [done|]; apply existsb_disjoint in Ee; exists pm.
    apply res_bind_ok in Hr as (p & Hp & Hr); apply res_bind_ok in Hr as (u & Hu & [= -> ->]); done.
  - intros (pm & -> & Hd & Hp & Hu); exists pm; split; [done|]; apply existsb_disjoint in Hd; by rewrite Hd, Hp, Hu.
Qed.

(** A message signed: its headers name the algorithm, and its signature is over its protected bytes and this payload. *)
Definition signed_by (alg : Z) (pub : PublicKey ec) (raw : message) (externalAAD sigPayload : bytes) (protected unprotected : Headers) : Prop :=
  headers_of (Protected raw) (Unprotected raw) protected unprotected /\ sameAlg (h_Alg protected) alg = true /\
  exists toVerify, marshal_structure "Signature1" (Protected raw) externalAAD sigPayload = Some toVerify /\
    verifyBytes alg pub toVerify (Signature raw) = Ok tt.

Lemma marshalled_ok {A} (o : option A) a : marshalled o = Ok a <-> o = Some a.
Proof using. destruct o; cbn; split; congruence. Qed.

Lemma verifySign1_ok alg pub raw aad payload protected unprotected :
  verifySign1 alg pub raw aad payload = Ok (protected, unprotected) <-> signed_by alg pub raw aad payload protected unprotected.
Proof using.
  unfold verifySign1, signed_by; rewrite res_bind_ok; split.
  - intros ([p u] & Hh & Hr); apply decodeHeaders_ok in Hh; destruct (sameAlg (h_Alg p) alg) eqn:Ea; cbn [negb] in Hr; [|done].
    apply res_bind_ok in Hr as (tv & Hm & Hr); apply marshalled_ok in Hm; apply res_bind_ok in Hr as ([] & Hv & [= -> ->]).
    split_and!; try done; by exists tv.
  - intros (Hh & Ha & tv & Hm & Hv); exists (protected, unprotected); split; [by apply decodeHeaders_ok|].
    rewrite Ha; cbn [negb]; by rewrite Hm; cbn [marshalled res_bind]; rewrite Hv.
Qed.

Lemma VerifyMax_ok alg pub sign1 aad maxBytes protected unprotected payload :
  VerifyMax alg pub sign1 aad maxBytes = Ok (protected, unprotected, payload) <->
  exists raw, carried sign1 sign1TagByte maxBytes raw /\ Payload raw = Some payload /\
    signed_by alg pub raw aad payload protected unprotected.
Proof using.
  unfold VerifyMax, decodeRaw; rewrite res_bind_ok; split.
  - intros (raw & Hr & Hv); apply read_message_ok in Hr; [|done]; destruct (Payload raw) as [p|] eqn:Ep; [|done].
    apply res_bind_ok in Hv as ([pr un] & Hs & [= -> -> ->]); apply verifySign1_ok in Hs; by exists raw.
  - intros (raw & Hr & Hp & Hs); exists raw; split; [by apply read_message_ok|]; rewrite Hp; apply verifySign1_ok in Hs; by rewrite Hs.
Qed.

Lemma VerifyDetachedMax_ok alg pub sign1 detached aad maxBytes protected unprotected :
  VerifyDetachedMax alg pub sign1 detached aad maxBytes = Ok (protected, unprotected) <->
  exists raw, carried sign1 sign1TagByte maxBytes raw /\ Payload raw = None /\ signed_by alg pub raw aad detached protected unprotected.
Proof using.
  unfold VerifyDetachedMax, decodeRaw; rewrite res_bind_ok; split.
  - intros (raw & Hr & Hv); apply read_message_ok in Hr; [|done]; destruct (Payload raw) as [p|] eqn:Ep; [done|].
    apply verifySign1_ok in Hv; by exists raw.
  - intros (raw & Hr & Hp & Hs); exists raw; split; [by apply read_message_ok|]; rewrite Hp; by apply verifySign1_ok.
Qed.
End Read.

(** ** What is signed verifies *)

(** A signer's signatures verify under its public key, re-encoded. *)
Class CoseSignaturesLaws `{Signatures} : Prop := {
  ecdsa_verifies s p256 k d der r t rest : Public s = ECDSAKey p256 k -> signer_Sign s d = Some der ->
    asn1_Unmarshal der = Some (r, t, rest) -> exists der', asn1_Marshal r t = Some der' /\ VerifyASN1 k d der' = true;
  ed25519_verifies s k m sig : Public s = Ed25519Key k -> signer_Sign s m = Some sig -> ed25519_Verify k m sig = true
}.

(** What is encoded is within the walk's limits, and decodes to what it encodes. *)
Class CborLibLaws `{CborLib} : Prop := {
  headers_law h b : headers_ok h -> marshal_headers (toMap h) = Some b -> decode unmarshal_headers b = Ok (toMap h);
  message_law p h payload sig b : headers_ok h ->
    marshal_message {| Protected := p; Unprotected := toMap h; Payload := payload; Signature := sig |} = Some b ->
    (exists rest, b = 132 :: rest) /\
    decode unmarshal_message b = Ok {| Protected := p; Unprotected := toMap h; Payload := payload; Signature := sig |}
}.

Section Sound.
Context `{Signatures} `{!CoseKeys} `{!CborLib} `{!CoseSignaturesLaws} `{!CborLibLaws}.

(** A key that is not refused as one that verifies anything. *)
Definition sound_key (pub : PublicKey ec) : Prop :=
  match pub with Ed25519Key k => blen k = 32 /\ IsSmallOrderEd25519 k = false | _ => True end.

Lemma verifies alg s m sig : sound_key (Public s) -> signBytes alg s m = Ok sig -> verifyBytes alg (Public s) m sig = Ok tt.
Proof using All.
  unfold sound_key, signBytes, verifyBytes; intros Hk; destruct (ecdsaParamsFor alg) as [c|].
  - case_bool_decide as Hc; [|done]; destruct (signer_Sign s (digest c m)) as [der|] eqn:Es; [|done].
    destruct (ToFixed der (size c)) as [fixed|] eqn:Ef; cbn [res_map_err]; [|done]; intros [= <-].
    destruct (Public s) as [p256 k|k|] eqn:Ep; [|done..].
    assert (Hz : 0 <= size c) by (destruct c; cbn; lia).
    destruct (ToDER_ToFixed der (size c) fixed Hz Ef) as (r & t & Hu & _ & ->).
    destruct (ecdsa_verifies _ _ _ _ _ _ _ _ Ep Es Hu) as (der' & -> & Hv); cbn [res_map_err res_bind]; by rewrite Hv.
  - destruct (alg =? EdDSA); cbn [negb]; [|done]; destruct (Public s) as [|k|] eqn:Ep; try done; destruct Hk as [-> ->].
    destruct (signer_Sign s m) as [sg|] eqn:Es; [|done]; intros [= <-]; cbn [negb Z.eqb Pos.eqb].
    by rewrite (ed25519_verifies _ _ _ _ Ep Es).
Qed.

Lemma sameAlg_refl alg : sameAlg alg alg = true.
Proof using. unfold sameAlg; by rewrite Z.eqb_refl. Qed.

Lemma signSign1_carried alg s protected unprotected wire aad payload sign1 :
  headers_ok (with_alg alg protected) -> headers_ok unprotected -> toMap (with_alg alg protected) ##ₘ toMap unprotected ->
  sound_key (Public s) -> signSign1 alg s protected unprotected wire aad payload = Ok sign1 -> blen sign1 <= MaxBytes ->
  exists raw, carried sign1 sign1TagByte MaxBytes raw /\ Payload raw = wire /\
    signed_by alg (Public s) raw aad payload (with_alg alg protected) unprotected.
Proof using All.
  intros Hp Hu Hd Hk Hs Hl; unfold signSign1 in Hs; apply res_bind_ok in Hs as (pb & Epb & Hs); apply res_bind_ok in Hs as (ts & Ets & Hs).
  apply res_bind_ok in Hs as (sig & Esig & Hs); apply marshalled_ok in Epb, Ets, Hs.
  destruct (message_law _ _ _ _ _ Hu Hs) as [(rest & ->) Hm].
  exists {| Protected := pb; Unprotected := toMap unprotected; Payload := wire; Signature := sig |}; split; [|split; [reflexivity|]].
  - split; [done|]; exists (132 :: rest); split_and!; [by left|by exists 132, rest|exact Hm].
  - split; [|split; [apply sameAlg_refl|]].
    + exists (toMap (with_alg alg protected)); split_and!; [by apply headers_law|done|by apply headersFromMap_toMap..].
    + exists ts; split; [done|]; by apply verifies.
Qed.
End Sound.

(** ** The theorems *)

(** A header map, parameter by parameter: none critical; an algorithm an int64,
    0 where there is none; a key identifier of bytes; a type of text; and a
    chain of one certificate, or of eight at most, each of bytes. *)
Definition reads_chain (v : option goval) (chain : list bytes) : Prop :=
  v = None /\ chain = [] \/ (exists b, v = Some (VBytes b) /\ chain = [b]) \/ v = Some (VArray (map VBytes chain)) /\ blen chain <= 8.

Definition reads_headers (m : gmap Z goval) (h : Headers) : Prop :=
  m !! 2 = None /\
  (m !! 1 = None /\ h_Alg h = 0 \/ m !! 1 = Some (VInt (h_Alg h)) /\ h_Alg h < 2 ^ 63) /\
  m !! 4 = VBytes <$> KID h /\
  (m !! 16 = None /\ h_Typ h = EmptyString \/ m !! 16 = Some (VString (h_Typ h))) /\
  reads_chain (m !! 33) (X5Chain h).

Lemma x5chain_entries_ok l chain : x5chain_entries l = Ok chain <-> l = map VBytes chain.
Proof.
  split; [|intros ->; apply x5chain_entries_map].
  revert chain; induction l as [|v l IH]; intros chain; cbn [x5chain_entries]; [by intros [= <-]|].
  destruct v; try done; intros (r & Hr & [= <-])%res_bind_ok; by rewrite (IH _ Hr).
Qed.

Lemma x5ChainFromValue_ok v chain : x5ChainFromValue v = Ok chain <-> reads_chain (Some v) chain.
Proof.
  unfold reads_chain; split.
  - destruct v; try done; cbn [x5ChainFromValue]; [|intros [= <-]; eauto].
    go_case; [done|]; intros E%x5chain_entries_ok; subst; right; right; split; [done|]; unfold blen, MaxChainLength in *; rewrite length_map in *; lia.
  - intros [[[=] _]|[(b & [= ->] & ->)|([= ->] & Hl)]]; [done|]; cbn [x5ChainFromValue].
    unfold blen, MaxChainLength in *; rewrite length_map; by rewrite (proj2 (Z.ltb_ge 8 _) Hl), x5chain_entries_map.
Qed.

Lemma headersFromMap_ok m h : headersFromMap m = Ok h <-> reads_headers m h.
Proof.
  unfold headersFromMap, reads_headers, labelCrit, labelAlg, labelKID, labelTyp, labelX5Chain; split.
  - destruct (m !! 2); [done|]; intros (a & Ha & (k & Hk & (t & Ht & (c & Hc & [= <-])%res_bind_ok)%res_bind_ok)%res_bind_ok)%res_bind_ok.
    cbn [h_Alg KID h_Typ X5Chain]; split_and!; [done| | | |].
    + destruct (m !! 1) as [[]|]; cbn [toInt64] in Ha; try done; [|left; split; congruence].
      go_case_in Ha; [done|]; injection Ha as <-; right; split; [done|lia].
    + destruct (m !! 4) as [[]|]; try done; by injection Hk as <-.
    + destruct (m !! 16) as [[]|]; try done; injection Ht as <-; [by right|by left].
    + destruct (m !! 33); [by apply x5ChainFromValue_ok|injection Hc as <-; by left].
  - intros (-> & Ha & -> & Ht & Hc).
    assert (He : match m !! 1 with Some v => toInt64 v | None => Ok 0 end = Ok (h_Alg h)).
    { destruct Ha as [[-> ->]|[-> Hl]]; [done|]; cbn [toInt64]; by rewrite (proj2 (Z.ltb_ge _ _)) by lia. }
    rewrite He; cbn [res_bind]; replace (match VBytes <$> KID h with Some (VBytes b) => Ok (Some b) | Some _ => Err CoseKID | None => Ok None end)
      with (Ok (E := cose_error) (KID h)) by (by destruct (KID h)); cbn [res_bind].
    assert (Hx : match m !! 33 with Some v => x5ChainFromValue v | None => Ok [] end = Ok (X5Chain h)).
    { destruct (m !! 33); [by apply x5ChainFromValue_ok|]; by destruct Hc as [[_ ->]|[(b & [=] & _)|[[=] _]]]. }
    destruct Ht as [[-> Et]| ->]; cbn [res_bind]; rewrite Hx; cbn [res_bind]; destruct h; cbn in *; by subst.
Qed.

(** An algorithm asked for is named by itself, or by its fully specified alias. *)
Definition names_alg (header alg : Z) : Prop := header = alg \/ (header, alg) ∈ [(-9, -7); (-51, -35); (-52, -36)].

Lemma sameAlg_ok header alg : sameAlg header alg = true <-> names_alg header alg.
Proof.
  unfold sameAlg, names_alg, ES256, ES384, ES512, esp256, esp384, esp512; rewrite !elem_of_cons, elem_of_nil, orb_true_iff, Z.eqb_eq.
  destruct (Z.eqb_spec alg (-7)), (Z.eqb_spec alg (-35)), (Z.eqb_spec alg (-36)); rewrite ?Z.eqb_eq; naive_solver.
Qed.

(** A signature of [m]: ECDSA's, r and s each at the curve's width, over the
    hash its algorithm pairs with the curve, under a key on that curve; or
    EdDSA's, under an Ed25519 key that is no point of small order. *)
Definition signature_over `{Signatures} `{!CoseKeys} (alg : Z) (pub : PublicKey ec) (m sig : bytes) : Prop :=
  (exists c width hash p256 k der, (alg, c, width, hash) ∈ [(-7, P256, 32, Sum256); (-35, P384, 48, Sum384); (-36, P521, 66, Sum512)] /\
     pub = ECDSAKey p256 k /\ (if p256 then c = P256 else other_curve k = Some c) /\ blen sig = 2 * width /\
     asn1_Marshal (be_value (slice sig 0 width)) (be_value (slice sig width (2 * width))) = Some der /\ VerifyASN1 k (hash m) der = true) \/
  alg = -8 /\ exists k, pub = Ed25519Key k /\ blen k = 32 /\ <[31%nat := Z.land (at_ k 31) 0x7f]> k ∉ ed25519SmallOrder /\
    ed25519_Verify k m sig = true.

Lemma ToDER_ok `{Signatures} sig width der : ToDER sig width = Ok der <->
  blen sig = 2 * width /\ asn1_Marshal (be_value (slice sig 0 width)) (be_value (slice sig width (2 * width))) = Some der.
Proof.
  unfold ToDER; destruct (Z.eqb_spec (blen sig) (2 * width)) as [E|]; cbn [negb]; [rewrite E|naive_solver].
  destruct (asn1_Marshal _ _); naive_solver.
Qed.

Lemma small_order_not k : blen k = 32 -> IsSmallOrderEd25519 k = false <-> <[31%nat := Z.land (at_ k 31) 0x7f]> k ∉ ed25519SmallOrder.
Proof.
  intros Hl; unfold IsSmallOrderEd25519; rewrite Hl; cbn [negb Z.eqb Pos.eqb]; rewrite <- not_true_iff_false, existsb_exists.
  split; intros Hn He; apply Hn; [exists (<[31%nat := Z.land (at_ k 31) 0x7f]> k); by rewrite bool_decide_true, <- list_elem_of_In|].
  destruct He as (b & Hb & ->%bool_decide_eq_true_1); by apply list_elem_of_In.
Qed.

Lemma verifyBytes_ecdsa `{Signatures} `{!CoseKeys} alg c pub m sig : ecdsaParamsFor alg = Some c ->
  verifyBytes alg pub m sig = Ok tt <->
  exists p256 k der, pub = ECDSAKey p256 k /\ (if p256 then c = P256 else other_curve k = Some c) /\
    ToDER sig (size c) = Ok der /\ VerifyASN1 k (digest c m) der = true.
Proof.
  intros E; unfold verifyBytes; rewrite E; destruct pub as [p256 k|k|]; [|naive_solver..].
  assert (Hc : curve_of (ECDSAKey p256 k) = Some c <-> if p256 then c = P256 else other_curve k = Some c) by (cbn; destruct p256; naive_solver).
  case_bool_decide as Hb; [apply Hc in Hb|split; [done|]; intros (? & ? & ? & [= -> ->] & ?%Hc & _); done].
  destruct (ToDER sig (size c)) as [der|]; cbn [res_map_err res_bind]; [|naive_solver].
  destruct (VerifyASN1 k (digest c m) der) eqn:Ev; [|split; [done|]; intros (? & ? & ? & [= <- <-] & _ & [= <-] & ?); congruence]; split; [|done]; intros _; exists p256, k, der; by split_and!.
Qed.

Lemma verifyBytes_ok `{Signatures} `{!CoseKeys} alg pub m sig : verifyBytes alg pub m sig = Ok tt <-> signature_over alg pub m sig.
Proof.
  destruct (ecdsaParamsFor alg) as [c|] eqn:E.
  - rewrite (verifyBytes_ecdsa _ _ _ _ _ E); unfold signature_over; split.
    + intros (p256 & k & der & -> & Hc & Hd & Hv); apply ToDER_ok in Hd as [Hl Hd]; left; exists c, (size c), (digest c), p256, k, der.
      split_and!; try done; unfold ecdsaParamsFor, ES256, ES384, ES512 in E; rewrite !elem_of_cons.
      repeat go_case_in E; simplify_eq; cbn [size digest]; subst; naive_solver.
    + intros [(c' & w & h & p256 & k & der & Hin & -> & Hc & Hl & Hd & Hv)|[-> _]]; [|done].
      exists p256, k, der; rewrite ToDER_ok; rewrite !elem_of_cons, elem_of_nil in Hin.
      destruct Hin as [|[|[|[]]]]; simplify_eq; cbn in E; injection E as <-; by split_and!.
  - unfold verifyBytes, signature_over; rewrite E; destruct (Z.eqb_spec alg EdDSA) as [->|Hn]; cbn [negb].
    + split.
      * destruct pub as [|k|]; try done; destruct (Z.eqb_spec (blen k) 32) as [Hl|]; cbn [negb]; [|done].
        destruct (IsSmallOrderEd25519 k) eqn:Es; [done|]; apply small_order_not in Es; [|done]; destruct (ed25519_Verify k m sig) eqn:Ev; [|done].
        intros _; right; split; [done|]; by exists k.
      * intros [(c' & w & h & p256 & k & der & Hin & _)|(_ & k & -> & Hl & Es%small_order_not & Hv)]; [|rewrite Hl, Es, Hv; done|done].
        rewrite !elem_of_cons, elem_of_nil in Hin; by destruct Hin as [|[|[|[]]]]; simplify_eq.
    + split; [done|]; intros [(c' & w & h & p256 & k & der & Hin & _)|[-> _]]; [|done].
      rewrite !elem_of_cons, elem_of_nil in Hin; by destruct Hin as [|[|[|[]]]]; simplify_eq.
Qed.

(** C28: A COSE_Sign1 verifies exactly when it is within the limit, is an array carrying its own tag or none, its two buckets share no label and mark no header critical, its headers are of the types their labels ask for (a chain of at most eight certificates), its protected algorithm is the one asked for or its fully specified alias, and its signature verifies over the protected bytes as received, the external data and the payload, under a key that fits the algorithm and is no point of small order - and the headers read and the payload are what is returned. *)
Theorem VerifyMax_exact `{Signatures} `{!CoseKeys} `{!CborLib} alg pub sign1 aad maxBytes protected unprotected payload :
  VerifyMax alg pub sign1 aad maxBytes = Ok (protected, unprotected, payload) <->
  blen sign1 <= maxBytes /\ exists body raw protectedMap toVerify,
    (sign1 = body \/ sign1 = 0xd2 :: body) /\ is_array body /\ decode unmarshal_message body = Ok raw /\ Payload raw = Some payload /\
    decode unmarshal_headers (Protected raw) = Ok protectedMap /\ protectedMap ##ₘ Unprotected raw /\
    reads_headers protectedMap protected /\ reads_headers (Unprotected raw) unprotected /\ names_alg (h_Alg protected) alg /\
    marshal_structure "Signature1" (Protected raw) aad payload = Some toVerify /\ signature_over alg pub toVerify (Signature raw).
Proof.
  rewrite VerifyMax_ok; split.
  - intros (raw & (Hl & body & Hb & Ha & Hd) & Hp & (pm & Hpm & Hdis & Hh & Hu) & Hs & tv & Hm & Hv); split; [done|].
    apply headersFromMap_ok in Hh, Hu; apply sameAlg_ok in Hs; apply verifyBytes_ok in Hv; by exists body, raw, pm, tv.
  - intros (Hl & body & raw & pm & tv & Hb & Ha & Hd & Hp & Hpm & Hdis & Hh & Hu & Hs & Hm & Hv).
    apply headersFromMap_ok in Hh, Hu; apply sameAlg_ok in Hs; apply verifyBytes_ok in Hv.
    exists raw; split; [split; [done|]; by exists body|split; [done|]]; split; [by exists pm|split; [done|]]; by exists tv.
Qed.

(** What is signed verifies, under the signer's key, and gives back the headers - the algorithm among the protected - and the payload; detached, it verifies over the payload it was made of. *)
Theorem Sign_Verify `{Signatures} `{!CoseKeys} `{!CborLib} `{!CoseSignaturesLaws} `{!CborLibLaws} alg s protected unprotected payload aad sign1 detached :
  headers_ok (with_alg alg protected) -> headers_ok unprotected -> toMap (with_alg alg protected) ##ₘ toMap unprotected ->
  sound_key (Public s) ->
  Sign alg s protected unprotected (Some payload) aad = Ok sign1 -> blen sign1 <= MaxBytes ->
  SignDetached alg s protected unprotected (Some payload) aad = Ok detached -> blen detached <= MaxBytes ->
  Verify alg (Public s) sign1 aad = Ok (with_alg alg protected, unprotected, payload) /\
  VerifyDetached alg (Public s) detached payload aad = Ok (with_alg alg protected, unprotected).
Proof.
  intros Hp Hu Hd Hk Hs Hl Hs' Hl'; split.
  - apply VerifyMax_ok; by eapply signSign1_carried.
  - apply VerifyDetachedMax_ok; by eapply signSign1_carried.
Qed.

(** ** Signed, attached and detached *)

Module CoseSigned.

Definition toy_signature (k m : bytes) : bytes := be_bytes 4 (foldl (fun h c => (31 * h + c) mod 2 ^ 32) 7 (k ++ m)).

#[export] Instance signatures : Signatures := {|
  ec := unit; signer := bytes; Public := Ed25519Key; signer_Sign := fun k m => Some (toy_signature k m); Sum256 := id;
  asn1_Marshal := fun _ _ => None; asn1_Unmarshal := fun _ => None; VerifyASN1 := fun _ _ _ => false;
  ed25519_Verify := fun k m sig => bool_decide (sig = toy_signature k m) |}.

#[export] Instance keys : CoseKeys := {| other_curve := fun _ => None; Sum384 := id; Sum512 := id; computeHMAC := toy_signature |}.

Definition key : @signer signatures := replicate 32 9.
Definition protected : Headers := {| h_Alg := EdDSA; KID := None; h_Typ := ""; X5Chain := [] |}.
Definition unprotected : Headers := {| h_Alg := 0; KID := None; h_Typ := ""; X5Chain := [[5]] |}.
(** 24(h'00'). *)
Definition payload : bytes := [216; 24; 65; 0].

#[export] Instance Headers_eq_dec : EqDecision Headers.
Proof. solve_decision. Defined.

(** {1: -8}; and ["Signature1", protected, external, payload], laid end to end. *)
Definition protected_bytes : bytes := [161; 1; 39].
Definition structure (context : string) (p aad payload : bytes) : bytes := string_bytes context ++ p ++ aad ++ payload.
Definition signature : bytes := toy_signature key (structure "Signature1" protected_bytes [] payload).

(** [h'a10127', {33: h'05'}, the payload or null, signature]. *)
Definition sign1 (p : bytes) : bytes := [132; 67] ++ protected_bytes ++ [161; 24; 33; 65; 5] ++ p ++ [68] ++ signature.
Definition attached : bytes := sign1 (68 :: payload).
Definition detached : bytes := sign1 [246].

Definition is_headers (h : Headers) (m : gmap Z goval) : bool :=
  match headersFromMap m with Ok h' => bool_decide (h' = h) | Err _ => false end.

#[export] Instance cbor : CborLib := {|
  cbor_key := unit; key_eqb := fun _ _ => true; decodes_time := fun _ => true; decode_map_key := fun _ => None;
  marshal_headers := fun m => if is_headers protected m then Some protected_bytes else None;
  marshal_structure := fun context p aad payload => Some (structure context p aad payload);
  marshal_message := fun m =>
    if is_headers unprotected (Unprotected m) && bool_decide (Protected m = protected_bytes) && bool_decide (Signature m = signature) then
      if bool_decide (Payload m = Some payload) then Some attached
      else if bool_decide (Payload m = None) then Some detached else None
    else None;
  marshal_raw_tag := fun _ _ => None;
  unmarshal_headers := fun b => if bool_decide (b = protected_bytes) then Ok (toMap protected) else Err ErrEOF;
  unmarshal_message := fun b =>
    let m p := {| Protected := protected_bytes; Unprotected := toMap unprotected; Payload := p; Signature := signature |} in
    if bool_decide (b = attached) then Ok (m (Some payload)) else if bool_decide (b = detached) then Ok (m None) else Err ErrEOF;
  unmarshal_raw_tag := fun _ => Err ErrEOF |}.

Lemma is_headers_toMap h h' : headers_ok h' -> is_headers h (toMap h') = true -> h' = h.
Proof. intros Hh; unfold is_headers; rewrite headersFromMap_toMap by done; by case_bool_decide. Qed.

#[export] Instance signatures_laws : CoseSignaturesLaws.
Proof.
  split; [done|]; intros s k m sig; cbn; intros [= ->] [= <-]; by apply bool_decide_true.
Defined.

#[export] Instance cbor_laws : CborLibLaws.
Proof.
  split; cbn [marshal_headers marshal_message cbor].
  - intros h b Hh; destruct (is_headers protected (toMap h)) eqn:E; [|done]; intros [= <-].
    apply is_headers_toMap in E as ->; [|done]; by vm_compute.
  - intros p h pl sig b Hh; cbn [Unprotected Protected Signature Payload].
    destruct (is_headers unprotected (toMap h)) eqn:E; cbn [andb]; [|done]; apply is_headers_toMap in E as ->; [|done].
    case_bool_decide as Ep; cbn [andb]; [|done]; case_bool_decide as Es; [|done]; subst p sig.
    case_bool_decide as E1; [subst pl; intros [= <-]|case_bool_decide as E2; [subst pl; intros [= <-]|done]];
      (split; [eexists; reflexivity|by vm_compute]).
Defined.

End CoseSigned.

Section Example.
Import CoseSigned.

Lemma Sign_Verify_witness :
  Verify EdDSA (Public key) attached [] = Ok (with_alg EdDSA no_headers, unprotected, payload) /\
  VerifyDetached EdDSA (Public key) detached payload [] = Ok (with_alg EdDSA no_headers, unprotected).
Proof.
  apply (Sign_Verify EdDSA key no_headers unprotected payload [] attached detached); try (vm_compute; done).
  apply (map_disjoint_singleton_l_2 _ labelAlg (VInt EdDSA)); by vm_compute.
Defined.
End Example.
