(* ===== verification/Mdoc.v ===== *)
(** * mdocs: [credential/mdoc]'s data, and what verifies of it

    cbor.go, mso.go, issuersigned.go, devicekey.go, verify.go, device.go,
    document_signer.go and select_namespaces.go.  A Go map is a [gmap]; a range
    over one is over its entries in some order, which only the error of one that
    fails depends on.  CBOR's own decoding and encoding, between the strict walk
    and the packages' types, ECDH and an elliptic curve's points are
    parameters. *)
From S2P Require Import Prelude Cbor Json DcqlQuery JwtDate Jws X509 CertChain Hkdf Cose.
#[local] Open Scope Z_scope.

(** ** Data *)

Record IssuerSignedItem : Type := { DigestID : Z; Random : bytes; ElementIdentifier : string; ElementValue : goval }.

Record IssuerSigned : Type := {
  is_NameSpaces : gmap string (list IssuerSignedItem);
  IssuerAuth : bytes;
  rawItems : gmap string (list bytes)
}.

Record CoseKey : Type := { Kty : Z; Crv : Z; X : bytes; Y : bytes }.
Record KeyAuthorizations : Type := { ka_NameSpaces : list string; DataElements : gmap string (list string) }.
Record DeviceKeyInfo : Type := { DeviceKey : CoseKey; dki_KeyAuthorizations : option KeyAuthorizations }.
Record ValidityInfo : Type := { Signed : Z; ValidFrom : Z; ValidUntil : Z; ExpectedUpdate : option Z }.
Record IdentifierListRef : Type := { il_ID : bytes; il_URI : string; il_Certificate : bytes }.
Record StatusListRef : Type := { Idx : Z; sl_URI : string; sl_Certificate : bytes }.
Record Status : Type := { IdentifierList : option IdentifierListRef; StatusList : option StatusListRef }.

Record MobileSecurityObject : Type := {
  Version : string;
  DigestAlgorithm : string;
  ValueDigests : gmap string (gmap Z bytes);
  mso_DeviceKeyInfo : DeviceKeyInfo;
  mso_DocType : string;
  mso_ValidityInfo : ValidityInfo;
  mso_Status : option Status
}.

Definition SHA256 : string := "SHA-256".
Definition SHA384 : string := "SHA-384".
Definition SHA512 : string := "SHA-512".
Definition mobileSecurityObjectVersion : string := "1.0".

Definition DeviceAuthSignature : Z := 1.
Definition DeviceAuthMAC : Z := 2.

Record DeviceSigned : Type := {
  ds_NameSpaces : gmap string (gmap string goval);
  DeviceAuth : bytes;
  AuthType : Z;
  nameSpacesBytes : option bytes
}.

(** wireIssuerSigned and wireDeviceSigned. *)
Record wireIssuerSigned : Type := { w_IssuerAuth : bytes; w_NameSpaces : gmap string (list bytes) }.
Record wireDeviceSigned : Type := { w_DeviceNameSpaces : bytes; DeviceSignature : bytes; DeviceMac : bytes }.

Inductive mdoc_error : Type :=
| MdocCose (e : cose_error)
| MdocDecode (e : cbor_error)
| MdocTag (n : Z)
| MdocTagContent
| MdocMarshal
| MdocVersion
| MdocDocType
| MdocNoValidity
| MdocValidityOrder
| MdocNoDigests (ns : string)
| MdocChanged (ns : string)
| MdocNoDigest (ns : string) (id : Z)
| MdocDigestAlg (alg : string)
| MdocDigestMismatch (ns el : string)
| MdocTwice (ns el : string)
| MdocSkew
| MdocNotYetValid
| MdocExpired
| MdocDeviceKey
| MdocTooLarge (n : Z)
| MdocEmptyNamespace (ns : string)
| MdocAuthType (t : Z)
| MdocBothAuths
| MdocNoAuth
| MdocCurves
| MdocECDH
| MdocHKDF (e : hkdf_error)
| MdocNotAuthorized (ns : string)
| MdocRole (e : role_error)
| MdocEKU (e : chain_error)
| MdocNoPath
| MdocSignedOutside
| MdocIssuingCountry (ns : string)
| MdocIssuingJurisdiction (ns : string)
| MdocIACACountry
| MdocIACAProvince
| MdocEmptyPath
| MdocKeyAuthorizationsEmpty
| MdocKeyAuthorizationsBoth (ns : string)
| MdocClaims
| MdocX5Chain
| MdocStatusCertificate
| MdocRand.

(** fxamacker/cbor, between the walk and the packages' types: a cbor.Tag is
    its number and content; a cbor.RawMessage, the bytes of an item. *)
Class MdocCbor : Type := {
  unmarshal_tag : bytes -> res cbor_error (Z * goval);
  unmarshal_mso : bytes -> res cbor_error MobileSecurityObject;
  unmarshal_item : bytes -> res cbor_error IssuerSignedItem;
  unmarshal_wire_issuer_signed : bytes -> res cbor_error wireIssuerSigned;
  unmarshal_wire_device_signed : bytes -> res cbor_error wireDeviceSigned;
  unmarshal_device_namespaces : bytes -> res cbor_error (gmap string (gmap string goval));
  unmarshal_raw_message : bytes -> res cbor_error bytes;
  marshal_tag : Z -> bytes -> option bytes;         (* a tag of a byte string *)
  marshal_mso : MobileSecurityObject -> option bytes;
  marshal_item : IssuerSignedItem -> option bytes;
  marshal_wire_issuer_signed : wireIssuerSigned -> option bytes;
  marshal_wire_device_signed : wireDeviceSigned -> option bytes;
  marshal_device_namespaces : gmap string (gmap string goval) -> option bytes;
  marshal_device_authentication : bytes -> string -> bytes -> option bytes
}.

(** crypto/ecdsa and crypto/ecdh: a key's uncompressed point, a key of one; a private key's public one, and the shared secret. *)
Class Curves `{Signatures} : Type := {
  ParseUncompressedPublicKey : curve -> bytes -> option ec;
  ec_Bytes : ec -> option bytes;
  ecdsa_priv : Type;
  priv_Public : ecdsa_priv -> PublicKey ec;
  ECDH : ecdsa_priv -> PublicKey ec -> option bytes
}.

(** In a range over a map, with the errors of the first entry that fails. *)
Fixpoint range {K A B E : Type} (f : K -> A -> res E B) (l : list (K * A)) : res E (list (K * B)) :=
  match l with
  | [] => Ok []
  | (k, a) :: l => let? b := f k a in let? bs := range f l in Ok ((k, b) :: bs)
  end.

Section Mdoc.
Context `{Signatures} `{!CoseKeys} `{!CborLib} `{!MdocCbor} `{!Curves} `{!X509}.

(** ** Tag 24 *)

Definition tag24 : Z := 24.

Definition wrapTag24 (inner : option bytes) : res mdoc_error bytes :=
  match inner with
  | None => Err MdocMarshal
  | Some inner => match marshal_tag tag24 inner with Some b => Ok b | None => Err MdocMarshal end
  end.

(** [mode.Unmarshal], and [mode] after it. *)
Definition unmarshal_with {V} (mode : DecMode cbor_key) (unmarshal : bytes -> res cbor_error V) (d : bytes) : res mdoc_error V * DecMode cbor_key :=
  let '(r, b) := Unmarshal unmarshal mode d in
  (res_map_err MdocDecode r, {| dm_mode := dm_mode mode; dm_maxItems := dm_maxItems mode; dm_budget := b |}).

Definition tag24_content (t : Z * goval) : res mdoc_error bytes :=
  if negb (t.1 =? tag24) then Err (MdocTag t.1)
  else match t.2 with VBytes inner => Ok inner | _ => Err MdocTagContent end.

Definition unwrapTag24With {V} (mode : DecMode cbor_key) (unmarshal : bytes -> res cbor_error V) (d : bytes) : res mdoc_error V * DecMode cbor_key :=
  let '(t, mode) := unmarshal_with mode unmarshal_tag d in
  match (let? t := t in tag24_content t) with
  | Err e => (Err e, mode)
  | Ok inner => unmarshal_with mode unmarshal inner
  end.

Definition unwrapTag24 {V} (unmarshal : bytes -> res cbor_error V) (d : bytes) : res mdoc_error V := (unwrapTag24With decMode unmarshal d).1.

(** ** Keys *)

Definition coseKtyOKP : Z := 1.
Definition coseKtyEC2 : Z := 2.
Definition coseCrvEd25519 : Z := 6.

Definition ecCurve (crv : Z) : option curve :=
  if crv =? 1 then Some P256 else if crv =? 2 then Some P384 else if crv =? 3 then Some P521 else None.

Definition coseCurveID (c : curve) : Z := match c with P256 => 1 | P384 => 2 | P521 => 3 end.

Definition ec_key (c : curve) (k : ec) : PublicKey ec := ECDSAKey (bool_decide (c = P256)) k.

Definition NewCoseKey (pub : PublicKey ec) : res mdoc_error CoseKey :=
  match pub with
  | ECDSAKey _ k =>
      match curve_of pub with
      | None => Err MdocDeviceKey
      | Some c =>
          match ec_Bytes k with
          | None => Err MdocDeviceKey
          | Some uncompressed =>
              let n := (blen uncompressed - 1) / 2 in
              Ok {| Kty := coseKtyEC2; Crv := coseCurveID c; X := slice uncompressed 1 (1 + n); Y := slice uncompressed (1 + n) (blen uncompressed) |}
          end
      end
  | Ed25519Key k => Ok {| Kty := coseKtyOKP; Crv := coseCrvEd25519; X := k; Y := [] |}
  | OtherKey => Err MdocDeviceKey
  end.

Definition CoseKey_PublicKey (k : CoseKey) : res mdoc_error (PublicKey ec) :=
  if Kty k =? coseKtyEC2 then
    match ecCurve (Crv k) with
    | None => Err MdocDeviceKey
    | Some c =>
        if negb (blen (X k) =? size c) || negb (blen (Y k) =? size c) then Err MdocDeviceKey
        else match ParseUncompressedPublicKey c (4 :: X k ++ Y k) with
        | None => Err MdocDeviceKey
        | Some pub => Ok (ec_key c pub)
        end
    end
  else if Kty k =? coseKtyOKP then
    if negb (Crv k =? coseCrvEd25519) then Err MdocDeviceKey
    else if negb (blen (X k) =? 32) then Err MdocDeviceKey
    else if IsSmallOrderEd25519 (X k) then Err MdocDeviceKey
    else Ok (Ed25519Key (X k))
  else Err MdocDeviceKey.

Definition KeyAuthorizations_validate (k : KeyAuthorizations) : res mdoc_error unit :=
  if (blen (ka_NameSpaces k) =? 0) && bool_decide (DataElements k = ∅) then Err MdocKeyAuthorizationsEmpty
  else match List.find (fun ns => is_Some_b (DataElements k !! ns)) (ka_NameSpaces k) with
  | Some ns => Err (MdocKeyAuthorizationsBoth ns)
  | None => Ok tt
  end.

Definition ValidityInfo_check (v : ValidityInfo) : res mdoc_error unit :=
  if (Signed v =? time_zero) || (ValidFrom v =? time_zero) || (ValidUntil v =? time_zero) then Err MdocNoValidity
  else if ValidUntil v <=? ValidFrom v then Err MdocValidityOrder else Ok tt.

(** ** IssuerSigned *)

Definition issuerSignedItemBytes (item : IssuerSignedItem) : res mdoc_error bytes := wrapTag24 (marshal_item item).

(** The [i]th of the bytes cached, or an item's own encoding. *)
Definition hashedItemBytes (cached : list bytes) (i : nat) (item : IssuerSignedItem) : res mdoc_error bytes :=
  match cached !! i with Some b => Ok b | None => issuerSignedItemBytes item end.

Fixpoint wire_items (cached : list bytes) (i : nat) (items : list IssuerSignedItem) : res mdoc_error (list bytes) :=
  match items with
  | [] => Ok []
  | item :: items => let? b := hashedItemBytes cached i item in let? bs := wire_items cached (S i) items in Ok (b :: bs)
  end.

Definition cached_of (s : IssuerSigned) (ns : string) : list bytes := default [] (rawItems s !! ns).

Definition issuerNameSpacesWire (s : IssuerSigned) : res mdoc_error (gmap string (list bytes)) :=
  let? l := range (fun ns items =>
    match items with
    | [] => Err (MdocEmptyNamespace ns)
    | _ => wire_items (cached_of s ns) 0 items
    end) (map_to_list (is_NameSpaces s)) in
  Ok (list_to_map l).

Definition IssuerSigned_Marshal (s : IssuerSigned) : res mdoc_error bytes :=
  let? nameSpaces := issuerNameSpacesWire s in
  match marshal_wire_issuer_signed {| w_IssuerAuth := IssuerAuth s; w_NameSpaces := nameSpaces |} with
  | Some b => Ok b
  | None => Err MdocMarshal
  end.

Definition mdoc_MaxBytes : Z := 2 ^ 20.

(** Each item decoded, out of one budget. *)
Fixpoint decode_items (mode : DecMode cbor_key) (bs : list bytes) : res mdoc_error (list IssuerSignedItem) * DecMode cbor_key :=
  match bs with
  | [] => (Ok [], mode)
  | b :: bs =>
      let '(item, mode) := unwrapTag24With mode unmarshal_item b in
      match item with
      | Err e => (Err e, mode)
      | Ok item => let '(items, mode) := decode_items mode bs in (let? items := items in Ok (item :: items), mode)
      end
  end.

Fixpoint decodeIssuerNameSpaces (mode : DecMode cbor_key) (wire : list (string * list bytes)) : res mdoc_error (list (string * list IssuerSignedItem)) :=
  match wire with
  | [] => Ok []
  | (ns, bs) :: wire =>
      let '(items, mode) := decode_items mode bs in
      let? items := items in
      let? out := decodeIssuerNameSpaces mode wire in
      Ok ((ns, items) :: out)
  end.

Definition UnmarshalIssuerSignedMax (d : bytes) (maxBytes : Z) : res mdoc_error IssuerSigned :=
  if maxBytes <? blen d then Err (MdocTooLarge (blen d))
  else
    let '(wire, mode) := unmarshal_with (WithBudget decMode DefaultMaxItems) unmarshal_wire_issuer_signed d in
    let? wire := wire in
    let? nameSpaces := decodeIssuerNameSpaces mode (map_to_list (w_NameSpaces wire)) in
    Ok {| is_NameSpaces := list_to_map nameSpaces; IssuerAuth := w_IssuerAuth wire; rawItems := w_NameSpaces wire |}.

Definition UnmarshalIssuerSigned (d : bytes) : res mdoc_error IssuerSigned := UnmarshalIssuerSignedMax d mdoc_MaxBytes.

Definition digest (alg : string) (itemBytes : bytes) : res mdoc_error bytes :=
  if String.eqb alg SHA256 then Ok (Sum256 itemBytes)
  else if String.eqb alg SHA384 then Ok (Sum384 itemBytes)
  else if String.eqb alg SHA512 then Ok (Sum512 itemBytes)
  else Err (MdocDigestAlg alg).

(** ** Verify *)

Record VerifiedMSO : Type := {
  v_DocType : string;
  v_NameSpaces : gmap string (gmap string goval);
  v_DeviceKey : PublicKey ec;
  v_ValidityInfo : ValidityInfo;
  v_X5Chain : list bytes;
  v_KeyAuthorizations : option KeyAuthorizations;
  v_Status : option Status
}.

(** checkNamespaceDigests' loop, from its [i]th item. *)
Fixpoint digests_loop (ns : string) (i : nat) (items : list IssuerSignedItem) (cached : list bytes) (digests : gmap Z bytes) (alg : string)
    (elements : gmap string goval) : res mdoc_error (gmap string goval) :=
  match items with
  | [] => Ok elements
  | item :: items =>
      let? itemBytes := hashedItemBytes cached i item in
      let? hashed := unwrapTag24 unmarshal_item itemBytes in
      match digests !! DigestID hashed with
      | None => Err (MdocNoDigest ns (DigestID hashed))
      | Some want =>
          let? got := digest alg itemBytes in
          if negb (bool_decide (got = want)) then Err (MdocDigestMismatch ns (ElementIdentifier hashed))
          else match elements !! ElementIdentifier hashed with
          | Some _ => Err (MdocTwice ns (ElementIdentifier hashed))
          | None => digests_loop ns (S i) items cached digests alg (<[ElementIdentifier hashed := ElementValue hashed]> elements)
          end
      end
  end.

Definition checkNamespaceDigests (ns : string) (items : list IssuerSignedItem) (cached : list bytes) (digests : gmap Z bytes) (alg : string)
    : res mdoc_error (gmap string goval) := digests_loop ns 0 items cached digests alg ∅.

Definition checkDigests_of (signed : IssuerSigned) (mso : MobileSecurityObject) (ns : string) (items : list IssuerSignedItem)
    : res mdoc_error (gmap string goval) :=
  match ValueDigests mso !! ns with
  | None => Err (MdocNoDigests ns)
  | Some digests =>
      if is_Some_b (rawItems signed !! ns) && negb (blen (cached_of signed ns) =? blen items) then Err (MdocChanged ns)
      else checkNamespaceDigests ns items (cached_of signed ns) digests (DigestAlgorithm mso)
  end.

Definition checkDigests (signed : IssuerSigned) (mso : MobileSecurityObject) : res mdoc_error (gmap string (gmap string goval)) :=
  let? l := range (checkDigests_of signed mso) (map_to_list (is_NameSpaces signed)) in
  Ok (list_to_map l).

Definition Verify (now : Z) (signed : IssuerSigned) (docType : string) (issuerPub : PublicKey ec) (alg skew : Z) : res mdoc_error VerifiedMSO :=
  let? (protected, unprotected, payload) := res_map_err MdocCose (Cose.Verify alg issuerPub (IssuerAuth signed) []) in
  let? mso := unwrapTag24 unmarshal_mso payload in
  if negb (String.eqb (Version mso) mobileSecurityObjectVersion) then Err MdocVersion
  else if negb (String.eqb (mso_DocType mso) docType) then Err MdocDocType
  else
    let? _ := ValidityInfo_check (mso_ValidityInfo mso) in
    let? nameSpaces := checkDigests signed mso in
    if skew <? 0 then Err MdocSkew
    else if now + skew <? ValidFrom (mso_ValidityInfo mso) then Err MdocNotYetValid
    else if ValidUntil (mso_ValidityInfo mso) <? now - skew then Err MdocExpired
    else
      let? deviceKey := CoseKey_PublicKey (DeviceKey (mso_DeviceKeyInfo mso)) in
      Ok {| v_DocType := mso_DocType mso; v_NameSpaces := nameSpaces; v_DeviceKey := deviceKey; v_ValidityInfo := mso_ValidityInfo mso;
            v_X5Chain := X5ChainOf protected unprotected; v_KeyAuthorizations := dki_KeyAuthorizations (mso_DeviceKeyInfo mso);
            v_Status := mso_Status mso |}.


(** ** The device's authentication *)

Definition deviceNameSpacesBytes (s : DeviceSigned) : res mdoc_error bytes :=
  match nameSpacesBytes s with
  | Some b => Ok b
  | None => wrapTag24 (marshal_device_namespaces (ds_NameSpaces s))
  end.

(** The SessionTranscript in its bytes, unwrapped. *)
Definition deviceAuthenticationBytes (sessionTranscriptBytes : bytes) (docType : string) (deviceNameSpaces : bytes) : res mdoc_error bytes :=
  let? sessionTranscript := unwrapTag24 unmarshal_raw_message sessionTranscriptBytes in
  wrapTag24 (marshal_device_authentication sessionTranscript docType deviceNameSpaces).

Definition deviceAuthBytes (s : DeviceSigned) (want : Z) (sessionTranscriptBytes : bytes) (docType : string) : res mdoc_error bytes :=
  if negb (AuthType s =? want) then Err (MdocAuthType (AuthType s))
  else
    let? b := deviceNameSpacesBytes s in
    deviceAuthenticationBytes sessionTranscriptBytes docType b.

Definition deviceSignedInput (sessionTranscriptBytes : bytes) (docType : string) (nameSpaces : gmap string (gmap string goval))
    : res mdoc_error (bytes * bytes) :=
  let? b := wrapTag24 (marshal_device_namespaces nameSpaces) in
  let? authBytes := deviceAuthenticationBytes sessionTranscriptBytes docType b in
  Ok (b, authBytes).

Definition SignDeviceSignature (s : signer) (alg : Z) (sessionTranscriptBytes : bytes) (docType : string) (nameSpaces : gmap string (gmap string goval))
    : res mdoc_error DeviceSigned :=
  let? (b, authBytes) := deviceSignedInput sessionTranscriptBytes docType nameSpaces in
  let? sig := res_map_err MdocCose (SignDetached alg s no_headers no_headers (Some authBytes) []) in
  Ok {| ds_NameSpaces := nameSpaces; DeviceAuth := sig; AuthType := DeviceAuthSignature; nameSpacesBytes := Some b |}.

Definition VerifyDeviceSignature (signed : DeviceSigned) (deviceKey : PublicKey ec) (alg : Z) (sessionTranscriptBytes : bytes) (docType : string)
    : res mdoc_error unit :=
  let? authBytes := deviceAuthBytes signed DeviceAuthSignature sessionTranscriptBytes docType in
  let? _ := res_map_err MdocCose (VerifyDetached alg deviceKey (DeviceAuth signed) authBytes []) in
  Ok tt.

Definition eMacKeyFromSharedSecret (z sessionTranscriptBytes : bytes) : res mdoc_error bytes :=
  res_map_err MdocHKDF (Key computeHMAC (Sum256 sessionTranscriptBytes) z (string_bytes "EMacKey") 32).

Definition deriveEMacKey (priv : ecdsa_priv) (peerPub : PublicKey ec) (sessionTranscriptBytes : bytes) : res mdoc_error bytes :=
  match curve_of (priv_Public priv) with
  | None => Err MdocCurves
  | Some c =>
      if negb (bool_decide (curve_of peerPub = Some c)) then Err MdocCurves
      else match ECDH priv peerPub with
      | None => Err MdocECDH
      | Some z => eMacKeyFromSharedSecret z sessionTranscriptBytes
      end
  end.

Definition deviceMACWithKey (key b authBytes : bytes) (nameSpaces : gmap string (gmap string goval)) : res mdoc_error DeviceSigned :=
  let? mac0 := res_map_err MdocCose (ComputeMAC key no_headers no_headers (Some authBytes) []) in
  Ok {| ds_NameSpaces := nameSpaces; DeviceAuth := mac0; AuthType := DeviceAuthMAC; nameSpacesBytes := Some b |}.

Definition ComputeDeviceMAC (devicePriv : ecdsa_priv) (readerPub : PublicKey ec) (sessionTranscriptBytes : bytes) (docType : string)
    (nameSpaces : gmap string (gmap string goval)) : res mdoc_error DeviceSigned :=
  let? (b, authBytes) := deviceSignedInput sessionTranscriptBytes docType nameSpaces in
  let? key := deriveEMacKey devicePriv readerPub sessionTranscriptBytes in
  deviceMACWithKey key b authBytes nameSpaces.

Definition ComputeDeviceMACFromSharedSecret (sharedSecret sessionTranscriptBytes : bytes) (docType : string)
    (nameSpaces : gmap string (gmap string goval)) : res mdoc_error DeviceSigned :=
  if negb (existsb (Z.eqb (blen sharedSecret)) [32; 48; 66]) then Err MdocECDH
  else
    let? (b, authBytes) := deviceSignedInput sessionTranscriptBytes docType nameSpaces in
    let? key := eMacKeyFromSharedSecret sharedSecret sessionTranscriptBytes in
    deviceMACWithKey key b authBytes nameSpaces.

Definition VerifyDeviceMAC (signed : DeviceSigned) (deviceKey : PublicKey ec) (readerPriv : ecdsa_priv) (sessionTranscriptBytes : bytes) (docType : string)
    : res mdoc_error unit :=
  let? authBytes := deviceAuthBytes signed DeviceAuthMAC sessionTranscriptBytes docType in
  let? key := deriveEMacKey readerPriv deviceKey sessionTranscriptBytes in
  let? _ := res_map_err MdocCose (VerifyMAC key (DeviceAuth signed) authBytes []) in
  Ok tt.

Definition DeviceSigned_Marshal (s : DeviceSigned) : res mdoc_error bytes :=
  let? b := deviceNameSpacesBytes s in
  let? wire :=
    if AuthType s =? DeviceAuthSignature then Ok {| w_DeviceNameSpaces := b; DeviceSignature := DeviceAuth s; DeviceMac := [] |}
    else if AuthType s =? DeviceAuthMAC then Ok {| w_DeviceNameSpaces := b; DeviceSignature := []; DeviceMac := DeviceAuth s |}
    else Err (MdocAuthType (AuthType s)) in
  match marshal_wire_device_signed wire with Some d => Ok d | None => Err MdocMarshal end.

Definition UnmarshalDeviceSignedMax (d : bytes) (maxBytes : Z) : res mdoc_error DeviceSigned :=
  if maxBytes <? blen d then Err (MdocTooLarge (blen d))
  else
    let '(wire, mode) := unmarshal_with (WithBudget decMode DefaultMaxItems) unmarshal_wire_device_signed d in
    let? wire := wire in
    let? nameSpaces := (unwrapTag24With mode unmarshal_device_namespaces (w_DeviceNameSpaces wire)).1 in
    let signed auth t := {| ds_NameSpaces := nameSpaces; DeviceAuth := auth; AuthType := t; nameSpacesBytes := Some (w_DeviceNameSpaces wire) |} in
    match DeviceSignature wire, DeviceMac wire with
    | _ :: _, _ :: _ => Err MdocBothAuths
    | (_ :: _) as sig, [] => Ok (signed sig DeviceAuthSignature)
    | [], (_ :: _) as mac => Ok (signed mac DeviceAuthMAC)
    | [], [] => Err MdocNoAuth
    end.

Definition UnmarshalDeviceSigned (d : bytes) : res mdoc_error DeviceSigned := UnmarshalDeviceSignedMax d mdoc_MaxBytes.

Definition containsString (l : list string) (s : string) : bool := existsb (String.eqb s) l.

(** A namespace's elements, against what its key may authenticate. *)
Definition authorized (auth : option KeyAuthorizations) (ns : string) (elements : gmap string goval) : bool :=
  bool_decide (elements = ∅) ||
  match auth with
  | None => false
  | Some auth => containsString (ka_NameSpaces auth) ns ||
      forallb (fun p => containsString (default [] (DataElements auth !! ns)) p.1) (map_to_list elements)
  end.

Definition CheckKeyAuthorizations (deviceNameSpaces : gmap string (gmap string goval)) (auth : option KeyAuthorizations) : res mdoc_error unit :=
  match List.find (fun p => negb (authorized auth p.1 p.2)) (map_to_list deviceNameSpaces) with
  | Some (ns, _) => Err (MdocNotAuthorized ns)
  | None => Ok tt
  end.

(** ** The document signer *)

Definition MDLNameSpace : string := "org.iso.18013.5.1".
Definition ISO23220NameSpace : string := "org.iso.23220.1".
Definition EUDIPIDNameSpace : string := "eu.europa.ec.eudi.pid.1".
Definition issuingAuthorityNameSpaces : list string := [MDLNameSpace; ISO23220NameSpace; EUDIPIDNameSpace].

Definition DefaultDocumentSignerPolicy (leaf : Certificate) (chains : list (list Certificate)) : res mdoc_error unit :=
  let? _ := res_map_err MdocRole (CheckSigningLeaf leaf) in
  if negb (oid_in MDLDocumentSignerEKU (UnknownExtKeyUsage leaf)) then Err (MdocEKU ErrEKUMissing)
  else res_map_err MdocEKU (EKUInIntermediates chains MDLDocumentSignerEKU).

Definition LenientDocumentSignerPolicy (leaf : Certificate) (chains : list (list Certificate)) : res mdoc_error unit :=
  let? _ := res_map_err MdocRole (CheckSigningLeaf leaf) in
  if (blen (ExtKeyUsage leaf) =? 0) && (blen (UnknownExtKeyUsage leaf) =? 0) then Ok tt
  else DefaultDocumentSignerPolicy leaf chains.

Definition checkSignerNamesItsIACA (chain : list Certificate) : res mdoc_error unit :=
  match chain, last chain with
  | leaf :: _, Some iaca =>
      if (blen (Country iaca) =? 0) || negb (bool_decide (Country iaca = Country leaf)) then Err MdocIACACountry
      else if (0 <? blen (Province iaca)) && (0 <? blen (Province leaf)) && negb (bool_decide (Province iaca = Province leaf)) then Err MdocIACAProvince
      else Ok tt
  | _, _ => Err MdocEmptyPath
  end.

(** An element that is a string among these. *)
Definition names (l : list string) (v : goval) : bool := match v with VString s => containsString l s | _ => false end.

Definition checkIssuingAuthority (ns : string) (elements : gmap string goval) (ds : Certificate) : res mdoc_error unit :=
  if match elements !! "issuing_country"%string with Some v => negb (names (Country ds) v) | None => false end then Err (MdocIssuingCountry ns)
  else match elements !! "issuing_jurisdiction"%string with
  | Some v => if (0 <? blen (Province ds)) && negb (names (Province ds) v) then Err (MdocIssuingJurisdiction ns) else Ok tt
  | None => Ok tt
  end.

Fixpoint issuing_loop (nss : list string) (nameSpaces : gmap string (gmap string goval)) (ds : Certificate) : res mdoc_error unit :=
  match nss with
  | [] => Ok tt
  | ns :: nss => let? _ := checkIssuingAuthority ns (default ∅ (nameSpaces !! ns)) ds in issuing_loop nss nameSpaces ds
  end.

Fixpoint iaca_loop (chains : list (list Certificate)) (lastErr : mdoc_error) : res mdoc_error (list Certificate) :=
  match chains with
  | [] => Err lastErr
  | chain :: chains => match checkSignerNamesItsIACA chain with Ok _ => Ok chain | Err e => iaca_loop chains e end
  end.

(** Of certificates, none nil. *)
Definition CheckDocumentSigner (verified : VerifiedMSO) (chains : list (list Certificate)) : res mdoc_error (list Certificate) :=
  match chains with
  | (ds :: _) :: _ =>
      let signed := Signed (v_ValidityInfo verified) in
      if (signed <? NotBefore ds) || (NotAfter ds <? signed) then Err MdocSignedOutside
      else
        let? _ := issuing_loop issuingAuthorityNameSpaces (v_NameSpaces verified) ds in
        iaca_loop chains MdocNoPath
  | _ => Err MdocNoPath
  end.

(** ** Selecting *)

(** Of the items of a namespace, those of these elements, with the bytes cached of each. *)
Fixpoint selectNamespaceItems (items : list IssuerSignedItem) (cached : list bytes) (elements : gset string) : list IssuerSignedItem * list bytes :=
  match items with
  | [] => ([], [])
  | item :: items =>
      let '(keptItems, keptRaw) := selectNamespaceItems items (tail cached) elements in
      if bool_decide (ElementIdentifier item ∈ elements) then
        (item :: keptItems, match cached with b :: _ => b :: keptRaw | [] => keptRaw end)
      else (keptItems, keptRaw)
  end.

Definition wantedElementsByNamespace (paths : list (string * string)) (ns : string) : gset string :=
  list_to_set (omap (fun p => if String.eqb p.1 ns then Some p.2 else None) paths).

Definition select_ns (s : IssuerSigned) (paths : list (string * string)) (ns : string) (items : list IssuerSignedItem)
    : option (list IssuerSignedItem * list bytes) :=
  let elements := wantedElementsByNamespace paths ns in
  if bool_decide (elements = ∅) then None
  else
    let '(keptItems, keptRaw) := selectNamespaceItems items (cached_of s ns) elements in
    match keptItems with [] => None | _ => Some (keptItems, keptRaw) end.

Definition SelectNameSpaces (s : IssuerSigned) (paths : list (string * string)) : IssuerSigned :=
  let selected := map_imap (select_ns s paths) (is_NameSpaces s) in
  {| is_NameSpaces := fst <$> selected; IssuerAuth := IssuerAuth s;
     rawItems := omap (fun p : list IssuerSignedItem * list bytes => if blen p.2 =? blen p.1 then Some p.2 else None) selected |}.

End Mdoc.
