(* ===== verification/MdocVerified.v ===== *)
(** * What a verified mdoc is

    What [Mdoc.Verify] accepts, exactly; and that a selection of a verified
    mdoc's elements verifies, to those elements. *)
From S2P Require Import Prelude Cbor CborLimits Json DcqlQuery JwtDate Jws X509 CertChain Hkdf Cose Mdoc.
#[local] Open Scope Z_scope.

(** ** Ranges over a map *)

Lemma range_ok {K A B E} (f : K -> A -> res E B) l : forall out,
  range f l = Ok out <-> Forall2 (fun p q => p.1 = q.1 /\ f p.1 p.2 = Ok q.2) l out.
Proof.
  induction l as [|[k a] l IH]; intros out; cbn [range].
  - split; [intros [= <-]; constructor|by intros ->%Forall2_nil_inv_l].
  - rewrite res_bind_ok; split.
    + intros (b & Hf & Hr); apply res_bind_ok in Hr as (bs & Hr & [= <-]); constructor; [done|by apply IH].
    + intros ([k' b] & bs & [Hk Hf] & Hr & ->)%Forall2_cons_inv_l; cbn in Hk, Hf; subst k'; exists b; split; [done|].
      apply IH in Hr; by rewrite Hr.
Qed.

Lemma range_keys {K A B E} (f : K -> A -> res E B) l out : range f l = Ok out -> out.*1 = l.*1.
Proof. intros Hr%range_ok; induction Hr as [|p q l out [Hk _] _ IH]; cbn; [done|]; by rewrite Hk, IH. Qed.

Lemma range_total {K A B E} (f : K -> A -> res E B) l :
  (forall k a, (k, a) ∈ l -> exists b, f k a = Ok b) -> exists out, range f l = Ok out.
Proof.
  induction l as [|[k a] l IH]; intros Hf; cbn [range]; [by eexists|].
  destruct (Hf k a ltac:(by left)) as [b ->]; destruct IH as [out ->]; [intros k' a' Hin; apply Hf; by right|by eexists].
Qed.

(** A map made by a range over another: at each key, what is made of the other's value. *)
Lemma range_map {A B E} (f : string -> A -> res E B) (m : gmap string A) (M : gmap string B) :
  (let? l := range f (map_to_list m) in Ok (list_to_map l)) = Ok M <->
  forall k, match m !! k with Some a => exists b, M !! k = Some b /\ f k a = Ok b | None => M !! k = None end.
Proof.
  assert (Hfwd : forall M' : gmap string B, (let? l := range f (map_to_list m) in Ok (list_to_map l)) = Ok M' ->
    forall k, match m !! k with Some a => exists b, M' !! k = Some b /\ f k a = Ok b | None => M' !! k = None end).
  { intros M' (out & Hr & [= <-])%res_bind_ok k; pose proof (range_keys _ _ _ Hr) as Hk; pose proof (NoDup_fst_map_to_list m) as Hnd.
    rewrite <- Hk in Hnd; apply range_ok in Hr; destruct (m !! k) as [a|] eqn:Em.
    - apply elem_of_map_to_list, list_elem_of_lookup in Em as [i Hi]; destruct (Forall2_lookup_l _ _ _ _ _ Hr Hi) as ([k' b] & Ho & [Ek Ef]).
      cbn in Ek, Ef; subst k'; exists b; split; [|done]; apply elem_of_list_to_map_1; [done|by eapply list_elem_of_lookup_2].
    - apply not_elem_of_list_to_map_1; rewrite Hk; intros ([k' a] & -> & Hin)%list_elem_of_fmap; apply elem_of_map_to_list in Hin; cbn in Em; congruence. }
  split; [apply Hfwd|]; intros HM.
  destruct (range_total f (map_to_list m)) as [out Hout].
  { intros k a Hin%elem_of_map_to_list; specialize (HM k); rewrite Hin in HM; destruct HM as (b & _ & Hb); by exists b. }
  rewrite Hout; cbn [res_bind]; f_equal; apply map_eq; intros k; specialize (HM k).
  assert (Hf := Hfwd (list_to_map out)); rewrite Hout in Hf; specialize (Hf eq_refl k).
  destruct (m !! k); [|by rewrite HM, Hf]; destruct HM as (b & -> & Hb), Hf as (b' & -> & Hb'); congruence.
Qed.

Section Verified.
Context `{Signatures} `{!CoseKeys} `{!CborLib} `{!MdocCbor} `{!Curves} `{!X509}.

(** ** Digests *)

(** The element an item's bytes attest: what they decode to, when the issuer's digest under its identifier is theirs. *)
Definition attested (digests : gmap Z bytes) (alg : string) (b : bytes) (entry : string * goval) : Prop :=
  exists item d, unwrapTag24 unmarshal_item b = Ok item /\ entry = (ElementIdentifier item, ElementValue item) /\
    digest alg b = Ok d /\ digests !! DigestID item = Some d.

Lemma attested_det digests alg b e e' : attested digests alg b e -> attested digests alg b e' -> e = e'.
Proof using. intros (? & ? & E1 & -> & _) (? & ? & E2 & -> & _); congruence. Qed.

Lemma digests_loop_ok ns cached digests alg items : forall i elements out,
  digests_loop ns i items cached digests alg elements = Ok out <->
  exists bs entries, wire_items cached i items = Ok bs /\ Forall2 (attested digests alg) bs entries /\ NoDup entries.*1 /\
    (forall k, k ∈ entries.*1 -> elements !! k = None) /\ out = list_to_map entries ∪ elements.
Proof using.
  induction items as [|item items IH]; intros i elements out; cbn [digests_loop wire_items].
  - split.
    + intros [= <-]; exists [], []; split_and!; [done|constructor|constructor|by intros k ?%elem_of_nil|]; cbn; by rewrite (left_id_L ∅ (∪)).
    + intros (bs & entries & [= <-] & ->%Forall2_nil_inv_l & _ & _ & ->); cbn; by rewrite (left_id_L ∅ (∪)).
  - rewrite res_bind_ok; split.
    + intros (b & Hb & Hr); apply res_bind_ok in Hr as (hashed & Hh & Hr); destruct (digests !! DigestID hashed) as [want|] eqn:Ed; [|done].
      apply res_bind_ok in Hr as (got & Hg & Hr); case_bool_decide as Hw; cbn [negb] in Hr; [subst got|done].
      destruct (elements !! ElementIdentifier hashed) eqn:Ee; [done|]; apply IH in Hr as (bs & entries & Hbs & Hf & Hnd & Hel & ->).
      assert (Hn : ElementIdentifier hashed ∉ entries.*1).
      { intros Hin%Hel; by rewrite lookup_insert_eq in Hin. }
      exists (b :: bs), ((ElementIdentifier hashed, ElementValue hashed) :: entries); split_and!.
      * rewrite Hb; cbn [res_bind]; by rewrite Hbs.
      * constructor; [by exists hashed, want|done].
      * cbn; by constructor.
      * cbn; intros k [->|Hk]%elem_of_cons; [done|]; specialize (Hel k Hk); by apply lookup_insert_None in Hel as [].
      * cbn [list_to_map foldr]; rewrite <- insert_union_r by (by apply not_elem_of_list_to_map_1); by rewrite insert_union_l.
    + intros (bs' & entries' & Hbs & Hf & Hnd & Hel & ->); apply res_bind_ok in Hbs as (b & Hb & Hbs).
      apply res_bind_ok in Hbs as (bs & Hbs & [= <-]); apply Forall2_cons_inv_l in Hf as (e & entries & (hashed & d & Hh & -> & Hd & Hl) & Hf & ->).
      exists b; split; [done|]; rewrite Hh; cbn [res_bind]; rewrite Hl, Hd; cbn [res_bind]; rewrite bool_decide_true by done; cbn [negb].
      cbn in Hnd; apply NoDup_cons in Hnd as [Hn Hnd]; rewrite (Hel (ElementIdentifier hashed)) by (cbn; by left).
      apply IH; exists bs, entries; split_and!; try done.
      * intros k Hk; apply lookup_insert_None; split; [apply Hel; cbn; by right|]; by intros <-.
      * cbn [list_to_map foldr]; rewrite <- insert_union_r by (by apply not_elem_of_list_to_map_1); by rewrite insert_union_l.
Qed.

(** A namespace's elements, as attested by the bytes presented of its items. *)
Definition ns_attested (s : IssuerSigned) (mso : MobileSecurityObject) (ns : string) (items : list IssuerSignedItem) (elements : gmap string goval) : Prop :=
  exists digests bs entries, ValueDigests mso !! ns = Some digests /\
    (forall cached, rawItems s !! ns = Some cached -> length cached = length items) /\
    wire_items (cached_of s ns) 0 items = Ok bs /\ Forall2 (attested digests (DigestAlgorithm mso)) bs entries /\
    NoDup entries.*1 /\ elements = list_to_map entries.

Lemma checkDigests_of_ok s mso ns items elements : checkDigests_of s mso ns items = Ok elements <-> ns_attested s mso ns items elements.
Proof using.
  unfold checkDigests_of, ns_attested, checkNamespaceDigests, cached_of; destruct (ValueDigests mso !! ns) as [digests|]; [|split; [done|by intros (? & ? & ? & ? & _)]].
  destruct (rawItems s !! ns) as [cached|]; cbn [is_Some_b andb default from_option id]; [destruct (Z.eqb_spec (blen cached) (blen items)) as [E|E]; cbn [negb]|];
    [|split; [done|]; intros (_ & _ & _ & _ & Hc & _); specialize (Hc _ eq_refl); unfold blen in E; lia|];
    rewrite digests_loop_ok; split.
  - intros (bs & entries & Hw & Hf & Hnd & _ & ->); exists digests, bs, entries; split_and!; try done; [|by rewrite (right_id_L ∅ (∪))].
    intros c [= <-]; unfold blen in E; lia.
  - intros (? & bs & entries & [= <-] & _ & Hw & Hf & Hnd & ->); exists bs, entries; split_and!; try done. by rewrite (right_id_L ∅ (∪)).
  - intros (bs & entries & Hw & Hf & Hnd & _ & ->); exists digests, bs, entries; split_and!; try done; by rewrite (right_id_L ∅ (∪)).
  - intros (? & bs & entries & [= <-] & _ & Hw & Hf & Hnd & ->); exists bs, entries; split_and!; try done. by rewrite (right_id_L ∅ (∪)).
Qed.

(** What is presented is attested, namespace by namespace. *)
Definition all_attested (s : IssuerSigned) (mso : MobileSecurityObject) (nameSpaces : gmap string (gmap string goval)) : Prop :=
  forall ns, match is_NameSpaces s !! ns with
  | Some items => exists elements, nameSpaces !! ns = Some elements /\ ns_attested s mso ns items elements
  | None => nameSpaces !! ns = None
  end.

Lemma checkDigests_ok s mso nameSpaces : checkDigests s mso = Ok nameSpaces <-> all_attested s mso nameSpaces.
Proof using.
  unfold checkDigests, all_attested; rewrite range_map; split; intros Ha ns; specialize (Ha ns); destruct (is_NameSpaces s !! ns); try done;
    destruct Ha as (e & He & Hc); exists e; (split; [done|]); by apply checkDigests_of_ok.
Qed.

(** ** The issuer's object *)

Definition in_validity (now skew : Z) (v : ValidityInfo) : Prop :=
  Signed v <> time_zero /\ ValidFrom v <> time_zero /\ ValidUntil v <> time_zero /\ ValidFrom v < ValidUntil v /\
  0 <= skew /\ ValidFrom v <= now + skew /\ now - skew <= ValidUntil v.

Lemma ValidityInfo_check_ok v : ValidityInfo_check v = Ok tt <->
  Signed v <> time_zero /\ ValidFrom v <> time_zero /\ ValidUntil v <> time_zero /\ ValidFrom v < ValidUntil v.
Proof using.
  unfold ValidityInfo_check; destruct (Z.eqb_spec (Signed v) time_zero), (Z.eqb_spec (ValidFrom v) time_zero), (Z.eqb_spec (ValidUntil v) time_zero);
    cbn [orb]; try (split; [done|by intros (? & ? & ? & ?)]); destruct (Z.leb_spec (ValidUntil v) (ValidFrom v)); split; try done; lia.
Qed.

(** The issuer signed this object, of this type and current. *)
Definition issued (now skew alg : Z) (s : IssuerSigned) (docType : string) (pub : PublicKey ec) (protected unprotected : Headers)
    (mso : MobileSecurityObject) : Prop :=
  exists payload, Cose.Verify alg pub (IssuerAuth s) [] = Ok (protected, unprotected, payload) /\
    unwrapTag24 unmarshal_mso payload = Ok mso /\ Version mso = mobileSecurityObjectVersion /\ mso_DocType mso = docType /\
    in_validity now skew (mso_ValidityInfo mso).

(** What is verified of it. *)
Definition result (mso : MobileSecurityObject) (protected unprotected : Headers) (nameSpaces : gmap string (gmap string goval)) (key : PublicKey ec)
    : VerifiedMSO :=
  {| v_DocType := mso_DocType mso; v_NameSpaces := nameSpaces; v_DeviceKey := key; v_ValidityInfo := mso_ValidityInfo mso;
     v_X5Chain := X5ChainOf protected unprotected; v_KeyAuthorizations := dki_KeyAuthorizations (mso_DeviceKeyInfo mso);
     v_Status := mso_Status mso |}.

Lemma Verify_ok now s docType pub alg skew v : Verify now s docType pub alg skew = Ok v <->
  exists protected unprotected mso nameSpaces key, issued now skew alg s docType pub protected unprotected mso /\
    all_attested s mso nameSpaces /\ CoseKey_PublicKey (DeviceKey (mso_DeviceKeyInfo mso)) = Ok key /\
    v = result mso protected unprotected nameSpaces key.
Proof using.
  unfold Verify, issued, in_validity; rewrite res_bind_ok; split.
  - intros ([[p u] payload] & Hc & Hr); apply res_map_err_ok in Hc; apply res_bind_ok in Hr as (mso & Hm & Hr).
    destruct (String.eqb_spec (Version mso) mobileSecurityObjectVersion) as [Hv|]; cbn [negb] in Hr; [|done].
    destruct (String.eqb_spec (mso_DocType mso) docType) as [Hd|]; cbn [negb] in Hr; [|done].
    apply res_bind_ok in Hr as ([] & Hi & Hr); apply ValidityInfo_check_ok in Hi as (? & ? & ? & ?).
    apply res_bind_ok in Hr as (nss & Hn & Hr); apply checkDigests_ok in Hn.
    destruct (Z.ltb_spec skew 0); [done|]; destruct (Z.ltb_spec (now + skew) (ValidFrom (mso_ValidityInfo mso))); [done|].
    destruct (Z.ltb_spec (ValidUntil (mso_ValidityInfo mso)) (now - skew)); [done|].
    apply res_bind_ok in Hr as (key & Hk & [= <-]); exists p, u, mso, nss, key; split_and!; try done; exists payload; split_and!; done.
  - intros (p & u & mso & nss & key & (payload & Hc & Hm & Hv & Hd & ? & ? & ? & ? & ? & ? & ?) & Hn & Hk & ->).
    exists (p, u, payload); split; [by apply res_map_err_ok|]; rewrite Hm; cbn [res_bind].
    rewrite Hv, Hd, !String.eqb_refl; cbn [negb]; rewrite (proj2 (ValidityInfo_check_ok _)) by done; cbn [res_bind].
    apply checkDigests_ok in Hn; rewrite Hn; cbn [res_bind].
    rewrite (proj2 (Z.ltb_ge _ _)), (proj2 (Z.ltb_ge _ _)), (proj2 (Z.ltb_ge _ _)) by done; by rewrite Hk, <- Hd.
Qed.
End Verified.

(** ** Selections *)

(** What is decoded of bytes is bytes. *)
Class MdocCborLaws `{MdocCbor} : Prop := {
  tag_bytes d n b : unmarshal_tag d = Ok (n, VBytes b) -> bytes_ok b;
  wire_bytes d w : unmarshal_wire_issuer_signed d = Ok w -> map_Forall (fun _ bs => Forall bytes_ok bs) (w_NameSpaces w)
}.

Section Selected.
Context `{Signatures} `{!CoseKeys} `{!CborLib} `{!MdocCbor} `{!Curves} `{!X509} `{!MdocCborLaws}.

(** A mode like the package's, with what its message has left. *)
Definition budgeted (mode : DecMode cbor_key) : Prop := dm_mode mode = dm_mode decMode /\ dm_maxItems mode = DefaultMaxItems.

Lemma unmarshal_with_budget {V} mode (unmarshal : bytes -> res cbor_error V) d r mode' : budgeted mode ->
  unmarshal_with mode unmarshal d = (r, mode') ->
  budgeted mode' /\ forall v, bytes_ok d -> r = Ok v -> (unmarshal_with decMode unmarshal d).1 = Ok v /\ unmarshal d = Ok v.
Proof using.
  intros [Hm Hi]; unfold unmarshal_with, Unmarshal; destruct (walk mode d true) as [w b] eqn:Ew; intros [= <- <-]; split; [by split|].
  intros v Hd Hr; apply res_map_err_ok, res_bind_ok in Hr as ([] & -> & Hu).
  assert (Hwalk : (walk decMode d true).1 = Ok tt).
  { apply (walk_mono mode); [done|rewrite Hm; by split|done| |by rewrite Ew].
    unfold walk_limit, MaxItems; rewrite Hi; cbn; destruct (dm_budget mode); lia. }
  destruct (walk decMode d true) as [w' b']; cbn [fst] in Hwalk; subst w'; cbn [fst res_bind]; by rewrite Hu.
Qed.

Lemma unmarshal_with_decMode {V} (unmarshal : bytes -> res cbor_error V) d r mode : unmarshal_with decMode unmarshal d = (r, mode) -> mode = decMode.
Proof using.
  unfold unmarshal_with, Unmarshal; destruct (walk decMode d true) as [w b] eqn:Ew; intros [= _ <-].
  assert (b = None) as -> by (unfold walk in Ew; destruct (run_walker decMode d) as [[? ?]|]; by injection Ew as _ <-); done.
Qed.

Lemma unwrapTag24_budget {V} mode (unmarshal : bytes -> res cbor_error V) d r mode' : budgeted mode ->
  unwrapTag24With mode unmarshal d = (r, mode') ->
  budgeted mode' /\ forall v, bytes_ok d -> r = Ok v -> unwrapTag24 unmarshal d = Ok v.
Proof using All.
  intros Hm; unfold unwrapTag24With, unwrapTag24; destruct (unmarshal_with mode unmarshal_tag d) as [t mode1] eqn:Et.
  destruct (unmarshal_with_budget _ _ _ _ _ Hm Et) as [Hm1 Ht]; destruct (let? t := t in tag24_content t) as [inner|e] eqn:Ei.
  - intros E2; destruct (unmarshal_with_budget _ _ _ _ _ Hm1 E2) as [Hm2 Hin]; split; [done|]; intros v Hd Hr.
    apply res_bind_ok in Ei as (tag & -> & Ec); destruct (Ht _ Hd eq_refl) as [Hd1 Hu]; unfold unwrapTag24With.
    destruct (unmarshal_with decMode unmarshal_tag d) as [t' mode1'] eqn:Et'; cbn [fst] in Hd1; subst t'; cbn [res_bind]; rewrite Ec.
    assert (Hb : bytes_ok inner).
    { unfold tag24_content in Ec; destruct tag as [n [| | | | | | | | | |b|]]; cbn [fst snd] in Ec; destruct (negb _); try done.
      injection Ec as ->; by eapply tag_bytes. }
    apply unmarshal_with_decMode in Et' as ->; exact (proj1 (Hin v Hb Hr)).
  - intros [= <- <-]; done.
Qed.

Definition decodes_to (bs : list bytes) (items : list IssuerSignedItem) : Prop := Forall2 (fun b item => unwrapTag24 unmarshal_item b = Ok item) bs items.

Lemma decode_items_budget bs : forall mode r mode', budgeted mode -> decode_items mode bs = (r, mode') ->
  budgeted mode' /\ forall items, Forall bytes_ok bs -> r = Ok items -> decodes_to bs items.
Proof using All.
  induction bs as [|b bs IH]; intros mode r mode' Hm; cbn [decode_items].
  - intros [= <- <-]; split; [done|]; intros items _ [= <-]; constructor.
  - destruct (unwrapTag24With mode unmarshal_item b) as [item mode1] eqn:E1; destruct (unwrapTag24_budget _ _ _ _ _ Hm E1) as [Hm1 Hit].
    destruct item as [item|]; [|by intros [= <- <-]]; destruct (decode_items mode1 bs) as [items mode2] eqn:E2.
    destruct (IH _ _ _ Hm1 E2) as [Hm2 Hits]; intros [= <- <-]; split; [done|]; intros items' [Hb Hbs]%Forall_cons Hr.
    apply res_bind_ok in Hr as (its & -> & [= <-]); constructor; [by apply Hit|by apply Hits].
Qed.

Lemma decodeIssuerNameSpaces_ok wire : forall mode out, budgeted mode -> decodeIssuerNameSpaces mode wire = Ok out ->
  Forall (fun p => Forall bytes_ok p.2) wire -> Forall2 (fun p q => p.1 = q.1 /\ decodes_to p.2 q.2) wire out.
Proof using All.
  induction wire as [|[ns bs] wire IH]; intros mode out Hm; cbn [decodeIssuerNameSpaces]; [intros [= <-]; constructor|].
  destruct (decode_items mode bs) as [items mode1] eqn:E; destruct (decode_items_budget _ _ _ _ Hm E) as [Hm1 Hi]; intros Hr.
  apply res_bind_ok in Hr as (its & -> & Hr); apply res_bind_ok in Hr as (out' & Ho & [= <-]); intros [Hb Hbs]%Forall_cons.
  constructor; [split; [done|by apply Hi]|by eapply IH].
Qed.

(** An mdoc as decoded: each namespace's items are what their bytes decode to. *)
Definition as_decoded (s : IssuerSigned) : Prop := forall ns items, is_NameSpaces s !! ns = Some items ->
  exists bs, rawItems s !! ns = Some bs /\ decodes_to bs items.

Lemma UnmarshalIssuerSigned_decoded d maxBytes s : bytes_ok d -> UnmarshalIssuerSignedMax d maxBytes = Ok s -> as_decoded s.
Proof using All.
  intros Hd; unfold UnmarshalIssuerSignedMax; destruct (maxBytes <? blen d); [done|].
  destruct (unmarshal_with _ _ _) as [wire mode] eqn:Ew; intros Hr; apply res_bind_ok in Hr as (w & -> & Hr).
  apply res_bind_ok in Hr as (out & Ho & [= <-]).
  destruct (unmarshal_with_budget (WithBudget decMode DefaultMaxItems) unmarshal_wire_issuer_signed d (Ok w) mode ltac:(by split) Ew) as [Hm Hu].
  destruct (Hu w Hd eq_refl) as [_ Hwire]; apply wire_bytes in Hwire.
  apply decodeIssuerNameSpaces_ok in Ho; [|done|apply Forall_forall; intros [k bs] Hin; apply elem_of_map_to_list in Hin; by apply (Hwire k bs)].
  intros ns items Hns; cbn [is_NameSpaces rawItems] in *; apply elem_of_list_to_map_2 in Hns.
  apply list_elem_of_lookup in Hns as [i Hi]; destruct (Forall2_lookup_r _ _ _ _ _ Ho Hi) as ([ns' bs] & Hw & [E Hdec]); cbn in E, Hdec; subst ns'.
  exists bs; split; [|done]; apply elem_of_map_to_list; by eapply list_elem_of_lookup_2.
Qed.

(** ** The bytes of a selection *)

Lemma wire_items_cached items : forall pre bs, length bs = length items -> wire_items (pre ++ bs) (length pre) items = Ok bs.
Proof using.
  induction items as [|item items IH]; intros pre [|b bs] Hl; cbn [wire_items]; try done.
  unfold hashedItemBytes; rewrite list_lookup_middle by done; cbn [res_bind].
  replace (pre ++ b :: bs) with ((pre ++ [b]) ++ bs) by (by rewrite <- app_assoc).
  replace (S (length pre)) with (length (pre ++ [b])) by (rewrite length_app; cbn; lia).
  rewrite IH by (cbn in Hl; lia); done.
Qed.

Definition entry_of (item : IssuerSignedItem) : string * goval := (ElementIdentifier item, ElementValue item).

Lemma attested_entries digests alg bs items entries : decodes_to bs items -> Forall2 (attested digests alg) bs entries -> entries = map entry_of items.
Proof using.
  intros Hd; revert entries; induction Hd as [|b item bs items Hb _ IH]; intros entries Hf.
  - by apply Forall2_nil_inv_l in Hf as ->.
  - apply Forall2_cons_inv_l in Hf as (e & es & (item' & dg & Hi & -> & _) & Hf & ->); cbn [map]; f_equal; [|by apply IH].
    assert (item' = item) as -> by congruence; done.
Qed.

Lemma selectNamespaceItems_ok digests alg elements bs items : decodes_to bs items -> Forall2 (attested digests alg) bs (map entry_of items) ->
  let '(kept, raw) := selectNamespaceItems items bs elements in
  kept = filter (fun item => ElementIdentifier item ∈ elements) items /\ length raw = length kept /\
  Forall2 (attested digests alg) raw (map entry_of kept).
Proof using.
  induction 1 as [|b item bs items Hb _ IH]; cbn [selectNamespaceItems tail map]; intros Hf; [split_and!; try done; constructor|].
  apply Forall2_cons_1 in Hf as [He Hf]; specialize (IH Hf); destruct (selectNamespaceItems items bs elements) as [kept raw].
  destruct IH as (-> & Hl & Hk); rewrite filter_cons; case_bool_decide as Hin.
  - rewrite decide_True by done; split_and!; [done|cbn; by rewrite Hl|by constructor].
  - by rewrite decide_False.
Qed.

Lemma filter_entries (elements : gset string) items :
  map entry_of (filter (fun item => ElementIdentifier item ∈ elements) items) = filter (fun e => e.1 ∈ elements) (map entry_of items).
Proof using.
  induction items as [|item items IH]; cbn [map]; [done|]; rewrite !filter_cons; cbn [fst entry_of].
  destruct (decide (ElementIdentifier item ∈ elements)); cbn [map]; by rewrite IH.
Qed.

Lemma list_to_map_filter (elements : gset string) (entries : list (string * goval)) : NoDup entries.*1 ->
  (list_to_map (filter (fun e => e.1 ∈ elements) entries) : gmap string goval) = filter (fun e => e.1 ∈ elements) (list_to_map entries).
Proof using.
  intros Hnd; apply map_eq; intros k; apply option_eq; intros v; rewrite map_lookup_filter_Some.
  assert (Hnd' : NoDup (filter (fun e : string * goval => e.1 ∈ elements) entries).*1).
  { eapply sublist_NoDup; [exact Hnd|]; apply fmap_sublist, sublist_filter. }
  rewrite <- !elem_of_list_to_map by done; rewrite list_elem_of_filter; tauto.
Qed.
End Selected.

Section Selection.
Context `{Signatures} `{!CoseKeys} `{!CborLib} `{!MdocCbor} `{!Curves} `{!X509} `{!MdocCborLaws}.

(** Of a verified mdoc's namespaces, the elements named, and the namespaces with one. *)
Definition selected (paths : list (string * string)) (nameSpaces : gmap string (gmap string goval)) : gmap string (gmap string goval) :=
  map_imap (fun ns elements =>
    let kept := filter (fun e => e.1 ∈ wantedElementsByNamespace paths ns) elements in
    if bool_decide (kept = ∅) then None else Some kept) nameSpaces.

Definition with_NameSpaces (nss : gmap string (gmap string goval)) (v : VerifiedMSO) : VerifiedMSO :=
  {| v_DocType := v_DocType v; v_NameSpaces := nss; v_DeviceKey := v_DeviceKey v; v_ValidityInfo := v_ValidityInfo v;
     v_X5Chain := v_X5Chain v; v_KeyAuthorizations := v_KeyAuthorizations v; v_Status := v_Status v |}.

Lemma select_ns_attested s mso paths ns items elements : as_decoded s -> is_NameSpaces s !! ns = Some items -> ns_attested s mso ns items elements ->
  let kept := filter (fun e => e.1 ∈ wantedElementsByNamespace paths ns) elements in
  match select_ns s paths ns items with
  | None => kept = ∅
  | Some (keptItems, _) => kept <> ∅ /\ ns_attested (SelectNameSpaces s paths) mso ns keptItems kept
  end.
Proof using All.
  intros Hs Hns (digests & bs & entries & Hv & Hc & Hw & Hf & Hnd & ->); cbn zeta.
  destruct (Hs ns items Hns) as (cached & Hraw & Hdec); assert (Hcached : cached_of s ns = cached) by (unfold cached_of; by rewrite Hraw).
  assert (Hl : length cached = length items) by (by apply Hc).
  rewrite Hcached in Hw; pose proof (wire_items_cached items [] cached Hl : wire_items cached 0 items = Ok cached) as Hw'.
  rewrite Hw in Hw'; injection Hw' as ->.
  assert (Hent := attested_entries _ _ _ _ _ Hdec Hf); subst entries; set (w := wantedElementsByNamespace paths ns) in *.
  pose proof (selectNamespaceItems_ok _ _ w _ _ Hdec Hf) as Hsel; rewrite <- list_to_map_filter by done; rewrite <- filter_entries.
  destruct (selectNamespaceItems items cached w) as [kept raw] eqn:Esel; destruct Hsel as (Ek & Hlen & Hatt); rewrite <- Ek.
  assert (Hselect : select_ns s paths ns items = match kept with [] => None | _ => Some (kept, raw) end).
  { unfold select_ns; fold w; rewrite Hcached, Esel; case_bool_decide as Hw0; [|by destruct kept].
    rewrite Hw0 in Ek; replace kept with ([] : list IssuerSignedItem); [done|]; rewrite Ek; clear; induction items as [|i items IH]; [done|].
    rewrite filter_cons, decide_False; [done|set_solver]. }
  rewrite Hselect; destruct kept as [|k0 kept]; [done|]; split.
  { intros He; assert (E : (list_to_map (map entry_of (k0 :: kept)) : gmap string goval) !! ElementIdentifier k0 = Some (ElementValue k0)).
    { cbn; by rewrite lookup_insert_eq. }
    by rewrite He, lookup_empty in E. }
  assert (Hrow : rawItems (SelectNameSpaces s paths) !! ns = Some raw).
  { cbn [rawItems SelectNameSpaces]; rewrite lookup_omap, map_lookup_imap, Hns; cbn [mbind option_bind]; rewrite Hselect; cbn [mbind option_bind fst snd].
    unfold blen; by rewrite Hlen, Z.eqb_refl. }
  exists digests, raw, (map entry_of (k0 :: kept)); split_and!; try done.
  - intros c; rewrite Hrow; by intros [= <-].
  - unfold cached_of; rewrite Hrow; cbn [default from_option id]; by apply (wire_items_cached (k0 :: kept) []).
  - rewrite Ek, filter_entries; eapply sublist_NoDup; [exact Hnd|]; apply fmap_sublist, sublist_filter.
Qed.

Lemma selection_attested s mso paths nss : as_decoded s -> all_attested s mso nss -> all_attested (SelectNameSpaces s paths) mso (selected paths nss).
Proof using All.
  intros Hs Ha ns; specialize (Ha ns); cbn [is_NameSpaces SelectNameSpaces]; rewrite lookup_fmap, map_lookup_imap; unfold selected; rewrite map_lookup_imap.
  destruct (is_NameSpaces s !! ns) as [items|] eqn:Hns; cbn [mbind option_bind fmap option_fmap option_map]; [|by rewrite Ha].
  destruct Ha as (elements & -> & Hat); pose proof (select_ns_attested s mso paths ns items elements Hs Hns Hat) as Hsel; cbn zeta in Hsel.
  cbn [mbind option_bind]; destruct (select_ns s paths ns items) as [[kept raw]|]; cbn [fst fmap option_fmap option_map].
  - destruct Hsel as [Hne Hk]; rewrite bool_decide_false by done; by eexists.
  - by rewrite bool_decide_true.
Qed.
End Selection.

(** ** The theorems *)

(** C7: mdoc verification, exactly: an mdoc is accepted exactly when its issuer's signature verifies over an object of version 1.0 for this document type, current within the clock skew, every presented item's bytes - those received, where it was received - hash to the digest the object has for its identifier, no element comes twice, and the device key is sound; and what is returned is each namespace's elements as those bytes name them, never as the caller's copy does, with the rest from the signed object. *)
Theorem Mdoc_Verify_exact `{Signatures} `{!CoseKeys} `{!CborLib} `{!MdocCbor} `{!Curves} `{!X509} now s docType pub alg skew v :
  Mdoc.Verify now s docType pub alg skew = Ok v <->
  exists protected unprotected payload mso,
    Cose.Verify alg pub (IssuerAuth s) [] = Ok (protected, unprotected, payload) /\ unwrapTag24 unmarshal_mso payload = Ok mso /\
    Version mso = mobileSecurityObjectVersion /\ mso_DocType mso = docType /\ in_validity now skew (mso_ValidityInfo mso) /\
    (forall ns, match is_NameSpaces s !! ns with
     | Some items => exists elements, v_NameSpaces v !! ns = Some elements /\ ns_attested s mso ns items elements
     | None => v_NameSpaces v !! ns = None
     end) /\
    CoseKey_PublicKey (DeviceKey (mso_DeviceKeyInfo mso)) = Ok (v_DeviceKey v) /\
    v_DocType v = docType /\ v_ValidityInfo v = mso_ValidityInfo mso /\ v_X5Chain v = X5ChainOf protected unprotected /\
    v_KeyAuthorizations v = dki_KeyAuthorizations (mso_DeviceKeyInfo mso) /\ v_Status v = mso_Status mso.
Proof.
  rewrite Verify_ok; split.
  - intros (p & u & mso & nss & key & (payload & Hc & Hm & Hv & Hd & Hi) & Ha & Hk & ->); exists p, u, payload, mso; cbn.
    split_and!; try done; congruence.
  - intros (p & u & payload & mso & Hc & Hm & Hv & Hd & Hi & Ha & Hk & E1 & E2 & E3 & E4 & E5); exists p, u, mso, (v_NameSpaces v), (v_DeviceKey v).
    split_and!; try done; [by exists payload|]; destruct v; unfold result; cbn in *; congruence.
Qed.

(** Selective disclosure of an mdoc is sound: of an mdoc decoded as it was received and verified, any selection of elements verifies too, at the same instant and under the same key, to exactly the elements named - with the same device key, validity, authorizations and status. *)
Theorem Selection_verifies `{Signatures} `{!CoseKeys} `{!CborLib} `{!MdocCbor} `{!Curves} `{!X509} `{!MdocCborLaws}
    d maxBytes s now docType pub alg skew v paths :
  bytes_ok d -> UnmarshalIssuerSignedMax d maxBytes = Ok s -> Mdoc.Verify now s docType pub alg skew = Ok v ->
  Mdoc.Verify now (SelectNameSpaces s paths) docType pub alg skew = Ok (with_NameSpaces (selected paths (v_NameSpaces v)) v).
Proof.
  intros Hd Hu (p & u & mso & nss & key & Hi & Ha & Hk & ->)%Verify_ok; apply Verify_ok.
  exists p, u, mso, (selected paths nss), key; split_and!; try done; by apply selection_attested; [eapply UnmarshalIssuerSigned_decoded|].
Qed.

(** ** An mdoc of two elements, and one of them *)

Module MdocExample.
Import CoseSigned.

Definition ns : string := "org.iso.18013.5.1".
Definition family : IssuerSignedItem := {| DigestID := 10; Random := [0]; ElementIdentifier := "family_name"; ElementValue := VString "Mustermann" |}.
Definition given : IssuerSignedItem := {| DigestID := 11; Random := [0]; ElementIdentifier := "given_name"; ElementValue := VString "Erika" |}.

(** 24(h'01') and 24(h'02'), each its own digest. *)
Definition family_bytes : bytes := [216; 24; 65; 1].
Definition given_bytes : bytes := [216; 24; 65; 2].

Definition mso : MobileSecurityObject := {|
  Version := "1.0"; DigestAlgorithm := SHA256; ValueDigests := {[ns := {[10 := family_bytes; 11 := given_bytes; 12 := [7]]}]};
  mso_DeviceKeyInfo := {| DeviceKey := {| Kty := 1; Crv := 6; X := replicate 32 11; Y := [] |}; dki_KeyAuthorizations := None |};
  mso_DocType := "org.iso.18013.5.1.mDL";
  mso_ValidityInfo := {| Signed := 0; ValidFrom := 0; ValidUntil := 2000; ExpectedUpdate := None |}; mso_Status := None |}.

Definition wire : wireIssuerSigned := {| w_IssuerAuth := attached; w_NameSpaces := {[ns := [family_bytes; given_bytes]]} |}.
Definition text : bytes := [3].

Definition one {A} (b b' : bytes) (a : A) : res cbor_error A := if bool_decide (b = b') then Ok a else Err ErrEOF.

#[export] Instance mdoc_cbor : MdocCbor := {|
  unmarshal_tag := fun d =>
    if bool_decide (d = payload) then Ok (24, VBytes [0])
    else if bool_decide (d = family_bytes) then Ok (24, VBytes [1]) else one d given_bytes (24, VBytes [2]);
  unmarshal_mso := fun d => one d [0] mso;
  unmarshal_item := fun d => if bool_decide (d = [1]) then Ok family else one d [2] given;
  unmarshal_wire_issuer_signed := fun d => one d text wire;
  unmarshal_wire_device_signed := fun _ => Err ErrEOF;
  unmarshal_device_namespaces := fun _ => Err ErrEOF; unmarshal_raw_message := fun _ => Err ErrEOF;
  marshal_tag := fun _ _ => None; marshal_mso := fun _ => None; marshal_item := fun _ => None;
  marshal_wire_issuer_signed := fun _ => None; marshal_wire_device_signed := fun _ => None;
  marshal_device_namespaces := fun _ => None; marshal_device_authentication := fun _ _ _ => None |}.

#[export] Instance curves : Curves := {|
  ParseUncompressedPublicKey := fun _ _ => None; ec_Bytes := fun _ => None; ecdsa_priv := unit; priv_Public := fun _ => OtherKey;
  ECDH := fun _ _ => None |}.

#[export] Instance mdoc_cbor_laws : MdocCborLaws.
Proof.
  split.
  - intros d n b; cbn [unmarshal_tag mdoc_cbor]; unfold one.
    case_bool_decide; [|case_bool_decide; [|case_bool_decide; [|done]]]; intros [= _ <-]; solve_bytes.
  - intros d w; cbn [unmarshal_wire_issuer_signed mdoc_cbor]; unfold one; case_bool_decide; [|done]; intros [= <-].
    apply map_Forall_singleton; repeat constructor; solve_bytes.
Defined.

#[export] Instance x509 : X509 := {|
  CertPool := unit; pool_of := fun _ => tt; IsSystemPool := fun _ => false; ParseCertificate := fun _ => None; CheckSignature_own := fun _ => false;
  CheckSignatureFrom := fun _ _ => false; CheckCRLSignatureFrom := fun _ _ => false; x509_Verify := fun _ _ _ _ => None;
  key_Equal := fun _ _ => false; unmarshal_oids := fun _ => None; spki_bits := fun _ => None; sha1_Sum := id |}.

Definition received : IssuerSigned :=
  {| is_NameSpaces := {[ns := [family; given]]}; IssuerAuth := attached; rawItems := {[ns := [family_bytes; given_bytes]]} |}.

Definition verified (nameSpaces : gmap string (gmap string goval)) : VerifiedMSO := {|
  v_DocType := "org.iso.18013.5.1.mDL"; v_NameSpaces := nameSpaces; v_DeviceKey := Ed25519Key (replicate 32 11);
  v_ValidityInfo := mso_ValidityInfo mso; v_X5Chain := [[5]]; v_KeyAuthorizations := None; v_Status := None |}.

Definition issuer_key : PublicKey ec := Public key.

Definition both : gmap string (gmap string goval) :=
  {[ns := <["family_name"%string := VString "Mustermann"]> {["given_name"%string := VString "Erika"]}]}.
Definition given_only : gmap string (gmap string goval) := {[ns := {["given_name"%string := VString "Erika"]}]}.
Definition asked : list (string * string) := [(ns, "given_name"); (ns, "portrait")]%string.
Definition doctype : string := "org.iso.18013.5.1.mDL".
End MdocExample.

Section Example.
Import CoseSigned MdocExample.

Lemma Selection_verifies_witness :
  UnmarshalIssuerSignedMax text 100 = Ok received /\
  Mdoc.Verify 1000 received doctype issuer_key EdDSA 0 = Ok (verified both) /\
  Mdoc.Verify 1000 (SelectNameSpaces received asked) doctype issuer_key EdDSA 0 = Ok (verified given_only).
Proof.
  assert (Hu : UnmarshalIssuerSignedMax text 100 = Ok received) by (vm_compute; reflexivity).
  assert (Hv : Mdoc.Verify 1000 received doctype issuer_key EdDSA 0 = Ok (verified both)).
  { vm_cast_no_check (@eq_refl (res mdoc_error VerifiedMSO) (Ok (verified both))). }
  split_and!; [exact Hu|exact Hv|].
  pose proof (Selection_verifies text 100 received 1000 doctype issuer_key EdDSA 0 _ asked ltac:(solve_bytes) Hu Hv) as Hs.
  rewrite Hs; vm_cast_no_check (@eq_refl (res mdoc_error VerifiedMSO) (Ok (verified given_only))).
Defined.
End Example.
