(* ===== verification/MdocIssue.v ===== *)
(** * Issuing mdocs: [credential/mdoc]'s issue.go and validity_rounding.go

    [Issue]: each element under a random salt and a random identifier of its
    own, its digest in the object the issuer signs, among decoys that look like
    digests.  crypto/rand is a source that may fail; a range over a Go map is
    in some order, which only the order of what is drawn depends on.  The
    theorem: what is issued verifies, to what was claimed, and shows as many
    digests as elements and decoys. *)
From S2P Require Import Prelude Cbor Json DcqlQuery JwtDate Jws X509 CertChain Hkdf Cose Mdoc MdocVerified.
#[local] Open Scope Z_scope.

Definition maxDigestID : Z := 2 ^ 31.
Definition MaxDecoys : Z := 1000.
Definition MaxCBORContainerItems : Z := 4096.
Definition randomMinLength : Z := 16.

Inductive issue_error : Type :=
| IssueNoDocType
| IssueNoNameSpaces
| IssueTimesRequired
| IssueFromBeforeSigned
| IssueUntilNotAfterFrom
| IssueStatusURI
| IssueBothStatuses
| IssueIdentifierListID
| IssueIdentifierListURI
| IssueIdentifierListCertificate
| IssueDecoysNamespace (ns : string)
| IssueDecoysRange (ns : string)
| IssueTooManyDigests (ns : string)
| IssueKeyAuthorizations (e : mdoc_error)
| IssueNoX5Chain
| IssueX5ChainParse
| IssueOutlivesLeaf
| IssueNotTheSigner
| IssueEmptyNamespaceName
| IssueEmptyNamespace (ns : string)
| IssueEmptyIdentifier (ns : string)
| IssueRand
| IssueEncode (e : mdoc_error)
| IssueSign (e : cose_error)
| IssueTooLarge (n : Z)
| IssueFuel.

(** crypto/rand: an integer below a bound, and bytes. *)
Class Rand : Type := {
  source : Type;
  rand_Int : Z -> source -> option Z * source;
  rand_Read : Z -> source -> option bytes * source
}.

(** Calls that draw from it. *)
Definition draws `{Rand} (A : Type) : Type := source -> res issue_error A * source.
Definition drawn `{Rand} {A : Type} (r : res issue_error A) : draws A := fun src => (r, src).
Definition draw_bind `{Rand} {A B : Type} (m : draws A) (f : A -> draws B) : draws B :=
  fun src => let '(r, src) := m src in match r with Ok a => f a src | Err e => (Err e, src) end.

#[local] Notation "'draw' x := m 'in' k" := (draw_bind m (fun x => k)) (at level 200, x pattern, m at level 100, k at level 200, right associativity).

Section Issue.
Context `{Signatures} `{!CoseKeys} `{!CborLib} `{!MdocCbor} `{!Curves} `{!X509} `{!Rand}.

Record Claims : Type := {
  c_DocType : string;
  c_NameSpaces : gmap string (gmap string goval);
  c_DeviceKey : PublicKey ec;
  c_KeyAuthorizations : option KeyAuthorizations;
  c_Signed : Z;
  c_ValidFrom : Z;
  c_ValidUntil : Z;
  c_ExpectedUpdate : option Z;
  c_Status : option StatusListRef;
  c_IdentifierList : option IdentifierListRef;
  Decoys : gmap string Z
}.

Record IssueOptions : Type := { DigestAlg : string; o_X5Chain : list bytes; KeyID : option bytes }.

(** ** Checks *)

(** t.UTC().Truncate(time.Second). *)
Definition whole_seconds (t : Z) : Z := Second * (t / Second).

Definition normalizeValidity (c : Claims) : Claims :=
  {| c_DocType := c_DocType c; c_NameSpaces := c_NameSpaces c; c_DeviceKey := c_DeviceKey c; c_KeyAuthorizations := c_KeyAuthorizations c;
     c_Signed := whole_seconds (c_Signed c); c_ValidFrom := whole_seconds (c_ValidFrom c); c_ValidUntil := whole_seconds (c_ValidUntil c);
     c_ExpectedUpdate := whole_seconds <$> c_ExpectedUpdate c; c_Status := c_Status c; c_IdentifierList := c_IdentifierList c; Decoys := Decoys c |}.

Definition IdentifierListRef_validate (r : IdentifierListRef) : res issue_error unit :=
  if blen (il_ID r) =? 0 then Err IssueIdentifierListID
  else if String.eqb (il_URI r) "" then Err IssueIdentifierListURI
  else if (0 <? blen (il_Certificate r)) && negb (is_Some_b (ParseCertificate (il_Certificate r))) then Err IssueIdentifierListCertificate
  else Ok tt.

Fixpoint decoys_loop (nameSpaces : gmap string (gmap string goval)) (decoys : list (string * Z)) : res issue_error unit :=
  match decoys with
  | [] => Ok tt
  | (ns, n) :: decoys =>
      match nameSpaces !! ns with
      | None => Err (IssueDecoysNamespace ns)
      | Some elements =>
          if (n <? 0) || (MaxDecoys <? n) then Err (IssueDecoysRange ns)
          else if MaxCBORContainerItems <? Z.of_nat (base.size elements) + n then Err (IssueTooManyDigests ns)
          else decoys_loop nameSpaces decoys
      end
  end.

Definition validateDecoys (c : Claims) : res issue_error unit := decoys_loop (c_NameSpaces c) (map_to_list (Decoys c)).

(** [DeviceKey] is some key: a nil one is no value of the type. *)
Definition validateClaims (c : Claims) : res issue_error unit :=
  if String.eqb (c_DocType c) "" then Err IssueNoDocType
  else if (base.size (c_NameSpaces c) =? 0)%nat then Err IssueNoNameSpaces
  else if (c_Signed c =? time_zero) || (c_ValidFrom c =? time_zero) || (c_ValidUntil c =? time_zero) then Err IssueTimesRequired
  else if c_ValidFrom c <? c_Signed c then Err IssueFromBeforeSigned
  else if c_ValidUntil c <=? c_ValidFrom c then Err IssueUntilNotAfterFrom
  else if match c_Status c with Some r => String.eqb (sl_URI r) "" | None => false end then Err IssueStatusURI
  else if is_Some_b (c_Status c) && is_Some_b (c_IdentifierList c) then Err IssueBothStatuses
  else
    let? _ := match c_IdentifierList c with Some r => IdentifierListRef_validate r | None => Ok tt end in
    let? _ := validateDecoys c in
    match c_KeyAuthorizations c with
    | Some k => res_map_err IssueKeyAuthorizations (KeyAuthorizations_validate k)
    | None => Ok tt
    end.

(** A key of another type may have no Equal, and is not compared. *)
Definition validateX5Chain (s : signer) (c : Claims) (opts : IssueOptions) : res issue_error unit :=
  match o_X5Chain opts with
  | [] => Err IssueNoX5Chain
  | der :: _ =>
      match ParseCertificate der with
      | None => Err IssueX5ChainParse
      | Some leaf =>
          if NotAfter leaf <? c_ValidUntil c then Err IssueOutlivesLeaf
          else if match Public s with OtherKey => false | pub => negb (key_Equal pub (cert_PublicKey leaf)) end then Err IssueNotTheSigner
          else Ok tt
      end
  end.

Definition validateIssueInputs (s : signer) (c : Claims) (opts : IssueOptions) : res issue_error unit :=
  let? _ := validateClaims c in validateX5Chain s c opts.

(** ** Items and digests *)

(** big.NewInt's draws until one is unused. *)
Fixpoint randomDigestID (fuel : nat) (used : gset Z) : draws Z :=
  match fuel with
  | O => drawn (Err IssueFuel)
  | S fuel => fun src =>
      let '(n, src) := rand_Int maxDigestID src in
      match n with
      | None => (Err IssueRand, src)
      | Some id => if bool_decide (id ∈ used) then randomDigestID fuel used src else (Ok id, src)
      end
  end.

Definition salt : draws bytes := fun src =>
  let '(b, src) := rand_Read randomMinLength src in (match b with Some b => Ok b | None => Err IssueRand end, src).

Definition issueItem (fuel : nat) (identifier : string) (value : goval) (digestAlg : string) (used : gset Z)
    : draws (IssuerSignedItem * bytes * bytes) :=
  draw digestID := randomDigestID fuel used in
  draw random := salt in
  let item := {| DigestID := digestID; Random := random; ElementIdentifier := identifier; ElementValue := value |} in
  draw itemBytes := drawn (res_map_err IssueEncode (issuerSignedItemBytes item)) in
  draw d := drawn (res_map_err IssueEncode (digest digestAlg itemBytes)) in
  drawn (Ok (item, itemBytes, d)).

(** The identifiers used, and the items, their bytes and their digests so far. *)
Record issuing : Type := { used : gset Z; items : list IssuerSignedItem; itemBytesList : list bytes; digests : gmap Z bytes }.

Fixpoint elements_loop (fuel : nat) (ns : string) (digestAlg : string) (elements : list (string * goval)) (st : issuing) : draws issuing :=
  match elements with
  | [] => drawn (Ok st)
  | (identifier, value) :: elements =>
      if String.eqb identifier "" then drawn (Err (IssueEmptyIdentifier ns))
      else
        draw (item, itemBytes, d) := issueItem fuel identifier value digestAlg (used st) in
        elements_loop fuel ns digestAlg elements
          {| used := {[DigestID item]} ∪ used st; items := items st ++ [item]; itemBytesList := itemBytesList st ++ [itemBytes];
             digests := <[DigestID item := d]> (digests st) |}
  end.

Fixpoint addDecoyDigests (fuel n : nat) (digestAlg : string) (used : gset Z) (digests : gmap Z bytes) : draws (gmap Z bytes) :=
  match n with
  | O => drawn (Ok digests)
  | S n =>
      draw digestID := randomDigestID fuel used in
      draw random := salt in
      draw d := drawn (res_map_err IssueEncode (digest digestAlg random)) in
      addDecoyDigests fuel n digestAlg ({[digestID]} ∪ used) (<[digestID := d]> digests)
  end.

(** issueNameSpaces, of one namespace. *)
Definition issue_ns (fuel : nat) (digestAlg : string) (decoys : gmap string Z) (ns : string) (elements : gmap string goval)
    : draws (list IssuerSignedItem * list bytes * gmap Z bytes) :=
  if String.eqb ns "" then drawn (Err IssueEmptyNamespaceName)
  else if (base.size elements =? 0)%nat then drawn (Err (IssueEmptyNamespace ns))
  else
    draw st := elements_loop fuel ns digestAlg (map_to_list elements) {| used := ∅; items := []; itemBytesList := []; digests := ∅ |} in
    draw ds := addDecoyDigests fuel (Z.to_nat (default 0 (decoys !! ns))) digestAlg (used st) (digests st) in
    drawn (Ok (items st, itemBytesList st, ds)).

Fixpoint issueNameSpaces (fuel : nat) (digestAlg : string) (decoys : gmap string Z) (claimed : list (string * gmap string goval))
    : draws (list (string * (list IssuerSignedItem * list bytes * gmap Z bytes))) :=
  match claimed with
  | [] => drawn (Ok [])
  | (ns, elements) :: claimed =>
      draw out := issue_ns fuel digestAlg decoys ns elements in
      draw rest := issueNameSpaces fuel digestAlg decoys claimed in
      drawn (Ok ((ns, out) :: rest))
  end.

(** ** Issue *)

Definition the_mso (c : Claims) (digestAlg : string) (deviceKey : CoseKey) (valueDigests : gmap string (gmap Z bytes)) : MobileSecurityObject := {|
  Version := mobileSecurityObjectVersion; DigestAlgorithm := digestAlg; ValueDigests := valueDigests;
  mso_DeviceKeyInfo := {| DeviceKey := deviceKey; dki_KeyAuthorizations := c_KeyAuthorizations c |}; mso_DocType := c_DocType c;
  mso_ValidityInfo := {| Signed := c_Signed c; ValidFrom := c_ValidFrom c; ValidUntil := c_ValidUntil c; ExpectedUpdate := c_ExpectedUpdate c |};
  mso_Status := match c_IdentifierList c, c_Status c with
    | Some r, _ => Some {| IdentifierList := Some r; StatusList := None |}
    | None, Some r => Some {| IdentifierList := None; StatusList := Some r |}
    | None, None => None
    end |}.

Definition issue_digest_alg (opts : IssueOptions) : string := if String.eqb (DigestAlg opts) "" then SHA256 else DigestAlg opts.

(** Issue, of claims whose times are whole seconds. *)
Definition issue_normal (fuel : nat) (s : signer) (alg : Z) (c : Claims) (opts : IssueOptions) : draws IssuerSigned :=
  draw _ := drawn (validateIssueInputs s c opts) in
  let digestAlg := issue_digest_alg opts in
  draw out := issueNameSpaces fuel digestAlg (Decoys c) (map_to_list (c_NameSpaces c)) in
  drawn (
    let out := list_to_map out in
    let? deviceKey := res_map_err IssueEncode (NewCoseKey (c_DeviceKey c)) in
    let? payload := res_map_err IssueEncode (wrapTag24 (marshal_mso (the_mso c digestAlg deviceKey (snd <$> out)))) in
    let? issuerAuth := res_map_err IssueSign (Sign alg s {| h_Alg := 0; KID := KeyID opts; h_Typ := ""; X5Chain := [] |}
      {| h_Alg := 0; KID := None; h_Typ := ""; X5Chain := o_X5Chain opts |} (Some payload) []) in
    if MaxBytes <? blen issuerAuth then Err (IssueTooLarge (blen issuerAuth))
    else Ok {| is_NameSpaces := (fun x => x.1.1) <$> (out : gmap string (list IssuerSignedItem * list bytes * gmap Z bytes));
               IssuerAuth := issuerAuth; rawItems := (fun x => x.1.2) <$> out |}).

Definition Issue (fuel : nat) (s : signer) (alg : Z) (c : Claims) (opts : IssueOptions) : draws IssuerSigned :=
  issue_normal fuel s alg (normalizeValidity c) opts.

Definition Day : Z := 24 * Hour.

(** signed, validFrom and validUntil. *)
Definition RoundedValidity (now lifetime : Z) : Z * Z * Z :=
  let dayStart := Day * (now / Day) in (dayStart, dayStart, dayStart + lifetime).

End Issue.

(** ** What the encoders keep *)

(** An item, and an object, as the decoder gives it: whole seconds of the years
    1 to 9999, valid UTF-8, and no container larger than it reads. *)
Definition time_encodable (t : Z) : Prop := t mod Second = 0 /\ -62135596800 <= t / Second <= Max.

Definition authorizations_encodable (k : KeyAuthorizations) : Prop :=
  blen (ka_NameSpaces k) <= MaxCBORContainerItems /\ Forall (fun ns => utf8 ns = true) (ka_NameSpaces k) /\
  Z.of_nat (base.size (DataElements k)) <= MaxCBORContainerItems /\
  map_Forall (fun ns els => utf8 ns = true /\ blen els <= MaxCBORContainerItems /\ Forall (fun el => utf8 el = true) els) (DataElements k).

Definition status_encodable (s : Status) : Prop :=
  (forall r, IdentifierList s = Some r -> utf8 (il_URI r) = true) /\
  (forall r, StatusList s = Some r -> utf8 (sl_URI r) = true /\ 0 <= Idx r < 2 ^ 64).

Record mso_encodable (m : MobileSecurityObject) : Prop := {
  enc_version : utf8 (Version m) = true;
  enc_alg : utf8 (DigestAlgorithm m) = true;
  enc_doctype : utf8 (mso_DocType m) = true;
  enc_namespaces : Z.of_nat (base.size (ValueDigests m)) <= MaxCBORContainerItems;
  enc_digests : map_Forall (fun ns (ds : gmap Z bytes) => utf8 ns = true /\ Z.of_nat (base.size ds) <= MaxCBORContainerItems /\
    map_Forall (fun id _ => 0 <= id < maxDigestID) ds) (ValueDigests m);
  enc_authorizations : forall k, dki_KeyAuthorizations (mso_DeviceKeyInfo m) = Some k -> authorizations_encodable k;
  enc_times : Forall time_encodable [Signed (mso_ValidityInfo m); ValidFrom (mso_ValidityInfo m); ValidUntil (mso_ValidityInfo m)];
  enc_update : forall t, ExpectedUpdate (mso_ValidityInfo m) = Some t -> time_encodable t;
  enc_status : forall s, mso_Status m = Some s -> status_encodable s
}.

(** What is encoded so is read back; [plain_element], of the values a decoder
    gives as they are.  A message is no shorter than its payload. *)
Class MdocCborWrites `{CborLib} `{!MdocCbor} : Type := {
  plain_element : goval -> Prop;
  item_law item inner b : plain_element (ElementValue item) -> utf8 (ElementIdentifier item) = true -> 0 <= DigestID item < maxDigestID ->
    marshal_item item = Some inner -> marshal_tag tag24 inner = Some b -> unwrapTag24 unmarshal_item b = Ok item;
  mso_law m inner b : mso_encodable m -> marshal_mso m = Some inner -> marshal_tag tag24 inner = Some b -> blen b <= MaxBytes ->
    unwrapTag24 unmarshal_mso b = Ok m;
  payload_law m p b : Payload m = Some p -> marshal_message m = Some b -> blen p <= blen b
}.

(** A random integer is below its bound. *)
Class RandLaws `{Rand} : Prop := { rand_Int_below max src n src' : rand_Int max src = (Some n, src') -> 0 <= n < max }.

(** A point's encoding has its curve's length and is read back. *)
Class CurvesLaws `{Signatures} `{!CoseKeys} `{!Curves} : Prop := {
  other_curve_law k : other_curve k <> Some P256;
  point_law p256 k c : curve_of (ECDSAKey p256 k) = Some c ->
    exists x y, ec_Bytes k = Some (4 :: x ++ y) /\ blen x = Cose.size c /\ blen y = Cose.size c /\
      ParseUncompressedPublicKey c (4 :: x ++ y) = Some k
}.

(** ** Keys *)

Lemma NewCoseKey_PublicKey `{Signatures} `{!CoseKeys} `{!Curves} `{!CurvesLaws} pub k :
  sound_key pub -> NewCoseKey pub = Ok k -> CoseKey_PublicKey k = Ok pub.
Proof.
  intros Hs; unfold NewCoseKey; destruct pub as [p256 e|raw|]; [|intros [= <-]|done].
  - destruct (curve_of (ECDSAKey p256 e)) as [c|] eqn:Ec; [|done].
    destruct (point_law p256 e c Ec) as (x & y & -> & Hx & Hy & Hp); intros [= <-]; unfold CoseKey_PublicKey; cbn [Kty Crv X Y].
    assert (Hsz : 0 <= Cose.size c) by (destruct c; cbn; lia).
    assert (Hn : (blen (4 :: x ++ y) - 1) / 2 = Cose.size c).
    { rewrite blen_cons, blen_app, Hx, Hy; replace (_ + _ - 1) with (Cose.size c * 2) by lia; by apply Z.div_mul. }
    rewrite Hn; rewrite (slice_cons _ _ 1) by lia; replace (1 + Cose.size c - 1) with (blen x) by lia; replace (1 - 1) with 0 by done.
    rewrite slice_app_l, slice_suffix by lia; replace (Z.to_nat (1 + Cose.size c)) with (S (length x)) by (unfold blen in Hx; lia); cbn [drop].
    assert (Hc : ecCurve (coseCurveID c) = Some c) by (by destruct c).
    rewrite drop_app_length, Hc, Hx, Hy, !Z.eqb_refl; cbn [negb orb]; rewrite Hp; unfold ec_key; do 2 f_equal.
    cbn in Ec; destruct p256; [injection Ec as <-; by apply bool_decide_true|]; apply bool_decide_false; intros ->; by eapply other_curve_law.
  - cbn in Hs; destruct Hs as [Hl Hs]; unfold CoseKey_PublicKey; cbn; by rewrite Hl, Hs.
Qed.
