(* ===== verification/MdocIssued.v ===== *)
(** * What is issued verifies

    [MdocIssue.Issue]'s result: every identifier its own, every item's bytes
    under their digest; it verifies to what was claimed, and so does every
    selection of its elements. *)
From S2P Require Import Prelude Cbor Json DcqlQuery JwtDate Jws X509 CertChain Hkdf Cose Mdoc MdocVerified MdocIssue.
#[local] Open Scope Z_scope.

(** A map made, entry by entry, of another's. *)
Lemma made_of_map {A B} (R : string -> A -> B -> Prop) (m : gmap string A) (out : list (string * B)) :
  Forall2 (fun p q => p.1 = q.1 /\ R p.1 p.2 q.2) (map_to_list m) out ->
  forall k, match m !! k with
  | Some a => exists b, (list_to_map out : gmap string B) !! k = Some b /\ R k a b
  | None => (list_to_map out : gmap string B) !! k = None
  end.
Proof.
  intros Hr k; assert (Hk : out.*1 = (map_to_list m).*1).
  { clear k; induction Hr as [|p q l out [Hk _] _ IH]; cbn; [done|]; by rewrite Hk, IH. }
  pose proof (NoDup_fst_map_to_list m) as Hnd; rewrite <- Hk in Hnd; destruct (m !! k) as [a|] eqn:Em.
  - apply elem_of_map_to_list, list_elem_of_lookup in Em as [i Hi]; destruct (Forall2_lookup_l _ _ _ _ _ Hr Hi) as ([k' b] & Ho & [Ek Ef]).
    cbn in Ek, Ef; subst k'; exists b; split; [|done]; apply elem_of_list_to_map_1; [done|by eapply list_elem_of_lookup_2].
  - apply not_elem_of_list_to_map_1; rewrite Hk; intros ([k' a] & -> & Hin)%list_elem_of_fmap; apply elem_of_map_to_list in Hin; cbn in Em; congruence.
Qed.

Section Draws.
Context `{Rand} `{!RandLaws}.

Lemma draw_bind_ok {A B} (m : draws A) (f : A -> draws B) src b src' :
  draw_bind m f src = (Ok b, src') <-> exists a src1, m src = (Ok a, src1) /\ f a src1 = (Ok b, src').
Proof using.
  unfold draw_bind; destruct (m src) as [[a|e] src1]; split; try done; [by exists a, src1|by intros (? & ? & [= <- <-] & ?)|by intros (? & ? & ? & ?)].
Qed.

Lemma drawn_ok {A} (r : res issue_error A) src a src' : drawn r src = (Ok a, src') <-> r = Ok a /\ src' = src.
Proof using. unfold drawn; split; [intros [= -> ->]|intros [-> ->]]; done. Qed.

Lemma randomDigestID_ok fuel used : forall src id src', randomDigestID fuel used src = (Ok id, src') -> id ∉ used /\ 0 <= id < maxDigestID.
Proof using All.
  induction fuel as [|fuel IH]; intros src id src'; cbn [randomDigestID]; [done|].
  destruct (rand_Int maxDigestID src) as [[n|] src1] eqn:En; [|done]; case_bool_decide as Hu; [apply IH|]; intros [= <- <-].
  split; [done|]; by eapply rand_Int_below.
Qed.
End Draws.

Section Issued.
Context `{Signatures} `{!CoseKeys} `{!CborLib} `{!MdocCbor} `{!Curves} `{!X509} `{!Rand} `{!RandLaws} `{!MdocCborWrites}.

Definition ids_ok (ds : gmap Z bytes) : Prop := map_Forall (fun id _ => 0 <= id < maxDigestID) ds.

(** What is read of an item. *)
Definition readable (e : string * goval) : Prop := utf8 e.1 = true /\ plain_element e.2.

Lemma issueItem_ok fuel identifier value alg used src item b d src' : readable (identifier, value) ->
  issueItem fuel identifier value alg used src = (Ok (item, b, d), src') ->
  DigestID item ∉ used /\ 0 <= DigestID item < maxDigestID /\ entry_of item = (identifier, value) /\
  unwrapTag24 unmarshal_item b = Ok item /\ Mdoc.digest alg b = Ok d.
Proof using All.
  intros [Hu Hp]; unfold issueItem; intros (id & s1 & Hid & Hr)%draw_bind_ok; apply randomDigestID_ok in Hid as [Hn Hb].
  apply draw_bind_ok in Hr as (random & s2 & _ & Hr).
  apply draw_bind_ok in Hr as (ib & s3 & [Hi ->]%drawn_ok & Hr); apply draw_bind_ok in Hr as (dg & s4 & [Hd ->]%drawn_ok & Hr).
  apply drawn_ok in Hr as [[= <- <- <-] ->]; apply res_map_err_ok in Hi, Hd; cbn [DigestID]; do 3 (split; [done|]); split; [|done].
  unfold issuerSignedItemBytes, wrapTag24 in Hi; destruct (marshal_item _) as [inner|] eqn:Em; [|done].
  destruct (marshal_tag tag24 inner) as [tb|] eqn:Et; [|done]; injection Hi as <-; by refine (item_law _ inner tb _ _ _ Em Et).
Qed.

(** What is issued so far of a namespace, of these elements. *)
Record issuing_ok (alg : string) (st : issuing) (claimed : list (string * goval)) : Prop := {
  io_used : dom (digests st) ⊆ used st;
  io_ids : ids_ok (digests st);
  io_entries : map entry_of (items st) = claimed;
  io_decodes : decodes_to (itemBytesList st) (items st);
  io_attested : Forall2 (attested (digests st) alg) (itemBytesList st) claimed;
  io_size : base.size (digests st) = length claimed
}.

Lemma attested_weaken ds ds' alg b e : ds ⊆ ds' -> attested ds alg b e -> attested ds' alg b e.
Proof. intros Hs (item & d & Hu & He & Hd & Hl); exists item, d; split_and!; try done; by eapply lookup_weaken. Qed.

Lemma fresh_id (ds : gmap Z bytes) used id d : dom ds ⊆ used -> id ∉ used -> ids_ok ds -> 0 <= id < maxDigestID ->
  ds !! id = None /\ dom (<[id := d]> ds) ⊆ {[id]} ∪ used /\ ids_ok (<[id := d]> ds) /\ base.size (<[id := d]> ds) = S (base.size ds).
Proof.
  intros Hs Hn Hi Hb; assert (Hnone : ds !! id = None) by (apply not_elem_of_dom; set_solver).
  split_and!; [done|set_solver| |by apply map_size_insert_None]; intros id' d' [[<- _]|[_ Hl]]%lookup_insert_Some; [done|by eapply Hi].
Qed.

Lemma elements_loop_ok fuel ns alg elements : forall st claimed src st' src', Forall readable elements -> issuing_ok alg st claimed ->
  elements_loop fuel ns alg elements st src = (Ok st', src') -> issuing_ok alg st' (claimed ++ elements).
Proof using All.
  induction elements as [|[identifier value] elements IH]; intros st claimed src st' src' Hf Hok; cbn [elements_loop].
  - intros [[= <-] ->]%drawn_ok; by rewrite app_nil_r.
  - apply Forall_cons in Hf as [Hr Hf]; destruct (String.eqb identifier ""); [by intros [? _]%drawn_ok|].
    intros ([[item b] d] & s1 & Hi & Hl)%draw_bind_ok; apply (issueItem_ok _ _ _ _ _ _ _ _ _ _ Hr) in Hi as (Hn & Hb & He & Hu & Hd).
    destruct Hok as [Hused Hids Hent Hdec Hatt Hsize]; destruct (fresh_id (digests st) (used st) (DigestID item) d) as (Hnone & Hused' & Hids' & Hsize'); try done.
    rewrite cons_middle, app_assoc; eapply IH; [done| |exact Hl]; split; cbn [used items itemBytesList digests]; try done.
    + rewrite map_app; cbn [map]; by rewrite Hent, He.
    + apply Forall2_app; [done|by repeat constructor].
    + apply Forall2_app; [|constructor; [|constructor]].
      * eapply Forall2_impl; [exact Hatt|]; intros b' e'; apply attested_weaken; by apply insert_subseteq.
      * exists item, d; split_and!; try done; by rewrite lookup_insert_eq.
    + rewrite Hsize', length_app, Hsize; cbn; lia.
Qed.

Lemma addDecoyDigests_ok fuel n alg : forall used ds src ds' src', dom ds ⊆ used -> ids_ok ds ->
  addDecoyDigests fuel n alg used ds src = (Ok ds', src') -> ds ⊆ ds' /\ ids_ok ds' /\ base.size ds' = (base.size ds + n)%nat.
Proof using All.
  induction n as [|n IH]; intros used ds src ds' src' Hs Hi; cbn [addDecoyDigests].
  - intros [[= <-] ->]%drawn_ok; split_and!; [done|done|lia].
  - intros (id & s1 & Hid & Hr)%draw_bind_ok; apply randomDigestID_ok in Hid as [Hn Hb].
    apply draw_bind_ok in Hr as (random & s2 & _ & Hr); apply draw_bind_ok in Hr as (d & s3 & [_ ->]%drawn_ok & Hr).
    destruct (fresh_id ds used id d) as (Hnone & Hused' & Hids' & Hsize'); try done.
    apply IH in Hr as (Hsub & Hids & Hsize); [|done|done]; split_and!; [|done|lia].
    etransitivity; [|exact Hsub]; by apply insert_subseteq.
Qed.

(** A namespace issued. *)
Definition ns_issued (alg : string) (decoys : gmap string Z) (ns : string) (elements : gmap string goval)
    (out : list IssuerSignedItem * list bytes * gmap Z bytes) : Prop :=
  map entry_of out.1.1 = map_to_list elements /\ decodes_to out.1.2 out.1.1 /\
  Forall2 (attested out.2 alg) out.1.2 (map_to_list elements) /\ ids_ok out.2 /\
  base.size out.2 = (base.size elements + Z.to_nat (default 0%Z (decoys !! ns)))%nat.

Definition elements_readable (elements : gmap string goval) : Prop := map_Forall (fun identifier value => readable (identifier, value)) elements.

Lemma issue_ns_ok fuel alg decoys ns elements src out src' : elements_readable elements ->
  issue_ns fuel alg decoys ns elements src = (Ok out, src') -> ns_issued alg decoys ns elements out.
Proof using All.
  intros Hf; unfold issue_ns; destruct (String.eqb ns ""); [by intros [? _]%drawn_ok|]; destruct (base.size elements =? 0)%nat; [by intros [? _]%drawn_ok|].
  intros (st & s1 & Hl & Hr)%draw_bind_ok; apply draw_bind_ok in Hr as (ds & s2 & Hd & Hr); apply drawn_ok in Hr as [[= <-] _].
  eapply (elements_loop_ok _ _ _ _ _ []) in Hl.
  - destruct Hl as [Hused Hids Hent Hdec Hatt Hsize]; cbn [app] in *; apply addDecoyDigests_ok in Hd as (Hsub & Hids' & Hsize'); [|done|done].
    split_and!; cbn; try done; [|by rewrite Hsize', Hsize, length_map_to_list].
    eapply Forall2_impl; [exact Hatt|]; intros; by eapply attested_weaken.
  - apply Forall_forall; intros [k v] Hin%elem_of_map_to_list; by apply Hf.
  - split; cbn; try done; try set_solver; try constructor; apply map_Forall_empty.
Qed.

Lemma issueNameSpaces_ok fuel alg decoys claimed : forall src out src', Forall (fun p => elements_readable p.2) claimed ->
  issueNameSpaces fuel alg decoys claimed src = (Ok out, src') -> Forall2 (fun p q => p.1 = q.1 /\ ns_issued alg decoys p.1 p.2 q.2) claimed out.
Proof using All.
  induction claimed as [|[ns elements] claimed IH]; intros src out src' Hf; cbn [issueNameSpaces].
  - intros [[= <-] _]%drawn_ok; constructor.
  - apply Forall_cons in Hf as [He Hf]; intros (o & s1 & Ho & Hr)%draw_bind_ok; apply draw_bind_ok in Hr as (rest & s2 & Hrest & Hr).
    apply drawn_ok in Hr as [[= <-] _]; constructor; [|by eapply IH]; split; [done|]; by eapply issue_ns_ok.
Qed.
End Issued.

(** ** The object signed *)

Section Objects.
Context `{Signatures} `{!CoseKeys} `{!CborLib} `{!MdocCbor} `{!Curves} `{!X509} `{!Rand} `{!RandLaws} `{!MdocCborWrites} `{!CurvesLaws}.
Context `{!CoseSignaturesLaws} `{!CborLibLaws}.

(** What the encoders keep of claims, whose times are whole seconds. *)
Record claims_encodable (c : Claims) (opts : IssueOptions) : Prop := {
  ce_alg : utf8 (issue_digest_alg opts) = true;
  ce_doctype : utf8 (c_DocType c) = true;
  ce_namespaces : Z.of_nat (base.size (c_NameSpaces c)) <= MaxCBORContainerItems;
  ce_elements : map_Forall (fun ns elements => utf8 ns = true /\ elements_readable elements /\
    Z.of_nat (base.size elements + Z.to_nat (default 0 (Decoys c !! ns))) <= MaxCBORContainerItems) (c_NameSpaces c);
  ce_authorizations : forall k, c_KeyAuthorizations c = Some k -> authorizations_encodable k;
  ce_times : Forall time_encodable [c_Signed c; c_ValidFrom c; c_ValidUntil c];
  ce_update : forall t, c_ExpectedUpdate c = Some t -> time_encodable t;
  ce_identifier : forall r, c_IdentifierList c = Some r -> utf8 (il_URI r) = true;
  ce_status : forall r, c_Status c = Some r -> utf8 (sl_URI r) = true /\ 0 <= Idx r < 2 ^ 64
}.

Definition issue_headers (opts : IssueOptions) : Headers := {| h_Alg := 0; KID := KeyID opts; h_Typ := ""; X5Chain := [] |}.
Definition chain_headers (opts : IssueOptions) : Headers := {| h_Alg := 0; KID := None; h_Typ := ""; X5Chain := o_X5Chain opts |}.

Lemma issue_headers_disjoint alg opts : toMap (with_alg alg (issue_headers opts)) ##ₘ toMap (chain_headers opts).
Proof using.
  apply map_disjoint_spec; intros k x y; unfold toMap; cbn [with_alg issue_headers chain_headers h_Alg KID h_Typ X5Chain Z.eqb String.eqb].
  destruct (o_X5Chain opts) as [|? [|? ?]]; [done|..]; intros Hk [[<- _]|[_ ?]]%lookup_insert_Some; try done; exfalso;
    destruct (KeyID opts), (alg =? 0); by simplify_map_eq.
Qed.

(** What [Issue] returns: the items of each namespace, and a signed object of their digests. *)
Definition issued_object (alg : Z) (s : signer) (c : Claims) (opts : IssueOptions) (out : IssuerSigned) (mso : MobileSecurityObject) : Prop :=
  exists deviceKey valueDigests payload,
    mso = the_mso c (issue_digest_alg opts) deviceKey valueDigests /\ CoseKey_PublicKey deviceKey = Ok (c_DeviceKey c) /\
    unwrapTag24 unmarshal_mso payload = Ok mso /\
    Cose.Verify alg (Public s) (IssuerAuth out) [] = Ok (with_alg alg (issue_headers opts), chain_headers opts, payload) /\
    forall ns, match c_NameSpaces c !! ns with
    | Some elements => exists items bs ds, is_NameSpaces out !! ns = Some items /\ rawItems out !! ns = Some bs /\ valueDigests !! ns = Some ds /\
        ns_issued (issue_digest_alg opts) (Decoys c) ns elements (items, bs, ds)
    | None => is_NameSpaces out !! ns = None /\ rawItems out !! ns = None /\ valueDigests !! ns = None
    end.

Lemma the_mso_encodable c opts deviceKey (valueDigests : gmap string (gmap Z bytes)) : claims_encodable c opts ->
  (forall ns ds, valueDigests !! ns = Some ds -> exists elements, c_NameSpaces c !! ns = Some elements /\ ids_ok ds /\
    base.size ds = (base.size elements + Z.to_nat (default 0%Z (Decoys c !! ns)))%nat) ->
  mso_encodable (the_mso c (issue_digest_alg opts) deviceKey valueDigests).
Proof using.
  intros [Halg Hdoc Hns Hel Ha Ht Hu Hi Hs] Hvd; split; cbn; try done.
  - transitivity (Z.of_nat (base.size (c_NameSpaces c))); [|done]; rewrite <- !size_dom; apply inj_le, subseteq_size; intros ns [ds Hds]%elem_of_dom.
    destruct (Hvd ns ds Hds) as (e & He & _); by apply elem_of_dom.
  - intros ns ds Hds; destruct (Hvd ns ds Hds) as (e & He & Hids & ->); destruct (Hel ns e He) as (Hutf & _ & Hsz); by split_and!.
  - intros st; destruct (c_IdentifierList c) as [r|] eqn:Er; [|destruct (c_Status c) as [r|] eqn:Es; [|done]]; intros [= <-]; split; cbn; intros r' [= <-]; eauto.
Qed.

Lemma issue_normal_object fuel s alg c opts src out src' : claims_encodable c opts -> sound_key (Public s) -> sound_key (c_DeviceKey c) ->
  - 2 ^ 63 <= alg < 2 ^ 63 -> blen (o_X5Chain opts) <= MaxChainLength ->
  issue_normal fuel s alg c opts src = (Ok out, src') ->
  validateIssueInputs s c opts = Ok tt /\ exists mso, issued_object alg s c opts out mso.
Proof using All.
  intros Hc Hk Hdk Halg Hx; unfold issue_normal; intros ([] & s1 & [Hv ->]%drawn_ok & Hr)%draw_bind_ok.
  apply draw_bind_ok in Hr as (o & s2 & Ho & Hr); apply drawn_ok in Hr as [Hr _]; split; [done|].
  apply issueNameSpaces_ok in Ho; [|apply Forall_forall; intros [ns e] Hin%elem_of_map_to_list; apply (ce_elements _ _ Hc ns e Hin)].
  pose proof (made_of_map _ _ _ Ho) as Hm; set (M := list_to_map o : gmap string _) in *.
  apply res_bind_ok in Hr as (deviceKey & Hdev & Hr); apply res_map_err_ok in Hdev.
  apply res_bind_ok in Hr as (payload & Hp & Hr); apply res_map_err_ok in Hp; apply res_bind_ok in Hr as (auth & Hs & Hr); apply res_map_err_ok in Hs.
  destruct (Z.ltb_spec MaxBytes (blen auth)) as [|Hlen]; [done|]; injection Hr as <-.
  unfold wrapTag24 in Hp; destruct (marshal_mso _) as [inner|] eqn:Einner; [|done]; destruct (marshal_tag tag24 inner) as [p|] eqn:Etag; [|done].
  injection Hp as ->; change {| h_Alg := 0; KID := None; h_Typ := ""; X5Chain := o_X5Chain opts |} with (chain_headers opts) in Hs.
  exists (the_mso c (issue_digest_alg opts) deviceKey (snd <$> M)), deviceKey, (snd <$> M), payload; split_and!; [done|by apply NewCoseKey_PublicKey|..].
  - apply (mso_law _ inner payload); [|exact Einner|exact Etag|].
    + apply the_mso_encodable; [done|]; intros ns ds; rewrite lookup_fmap; specialize (Hm ns); destruct (c_NameSpaces c !! ns) as [e|].
      * destruct Hm as (x & -> & Hni); cbn; intros [= <-]; exists e; split; [done|]; split; apply Hni.
      * rewrite Hm; done.
    + transitivity (blen auth); [|done]; unfold Sign, signSign1 in Hs; apply res_bind_ok in Hs as (pb & _ & Hs); apply res_bind_ok in Hs as (ts & _ & Hs).
      apply res_bind_ok in Hs as (sig & _ & Hs); apply marshalled_ok in Hs; by eapply payload_law; [|exact Hs].
  - apply VerifyMax_ok; eapply signSign1_carried; [split_and!; cbn; try done; lia|split_and!; cbn; try done; lia|apply issue_headers_disjoint|done|exact Hs|done].
  - intros ns; cbn [is_NameSpaces rawItems]; rewrite !lookup_fmap; specialize (Hm ns); destruct (c_NameSpaces c !! ns) as [e|].
    + destruct Hm as ([[its bs] ds] & -> & Hni); cbn; by exists its, bs, ds.
    + by rewrite Hm.
Qed.

(** ** It verifies *)

Lemma issued_attested alg s c opts out mso : issued_object alg s c opts out mso -> as_decoded out /\ all_attested out mso (c_NameSpaces c).
Proof using All.
  intros (deviceKey & vds & payload & -> & _ & _ & _ & Hns); split.
  - intros ns its Hits; specialize (Hns ns); destruct (c_NameSpaces c !! ns) as [e|]; [|destruct Hns; congruence].
    destruct Hns as (items & bs & ds & Hi & Hb & _ & _ & Hdec & _); exists bs; split; [done|]; assert (its = items) as -> by congruence; done.
  - intros ns; specialize (Hns ns); destruct (c_NameSpaces c !! ns) as [e|]; [|destruct Hns as [-> _]; done].
    destruct Hns as (items & bs & ds & Hi & Hb & Hd & Hent & Hdec & Hatt & _ & _); cbn [fst snd] in *; rewrite Hi; exists e; split; [done|].
    assert (Hl : length bs = length items) by (by eapply Forall2_length).
    exists ds, bs, (map_to_list e); split_and!; [done| | |done|apply NoDup_fst_map_to_list|symmetry; apply list_to_map_to_list].
    + intros cached; rewrite Hb; by intros [= <-].
    + unfold cached_of; rewrite Hb; by apply (wire_items_cached items [] bs).
Qed.

Lemma validated_times s c opts : validateIssueInputs s c opts = Ok tt ->
  c_Signed c <> time_zero /\ c_ValidFrom c <> time_zero /\ c_ValidUntil c <> time_zero /\ c_ValidFrom c < c_ValidUntil c.
Proof using.
  unfold validateIssueInputs, validateClaims; intros ([] & Hv & _)%res_bind_ok; destruct (String.eqb _ _); [done|]; destruct (_ =? _)%nat; [done|].
  destruct (Z.eqb_spec (c_Signed c) time_zero), (Z.eqb_spec (c_ValidFrom c) time_zero), (Z.eqb_spec (c_ValidUntil c) time_zero); try done.
  cbn [orb] in Hv; destruct (c_ValidFrom c <? c_Signed c); [done|]; destruct (Z.leb_spec (c_ValidUntil c) (c_ValidFrom c)); done.
Qed.

(** What verification gives of an mdoc issued of these claims, showing these elements. *)
Definition as_claimed (c : Claims) (opts : IssueOptions) (nameSpaces : gmap string (gmap string goval)) : VerifiedMSO := {|
  v_DocType := c_DocType c; v_NameSpaces := nameSpaces; v_DeviceKey := c_DeviceKey c;
  v_ValidityInfo := {| Signed := c_Signed c; ValidFrom := c_ValidFrom c; ValidUntil := c_ValidUntil c; ExpectedUpdate := c_ExpectedUpdate c |};
  v_X5Chain := o_X5Chain opts; v_KeyAuthorizations := c_KeyAuthorizations c;
  v_Status := match c_IdentifierList c, c_Status c with
    | Some r, _ => Some {| IdentifierList := Some r; StatusList := None |}
    | None, Some r => Some {| IdentifierList := None; StatusList := Some r |}
    | None, None => None
    end |}.

Lemma issued_Verify alg s c opts out mso now skew shown nss : issued_object alg s c opts out mso -> validateIssueInputs s c opts = Ok tt ->
  0 <= skew -> c_ValidFrom c <= now + skew -> now - skew <= c_ValidUntil c -> IssuerAuth shown = IssuerAuth out -> all_attested shown mso nss ->
  Mdoc.Verify now shown (c_DocType c) (Public s) alg skew = Ok (as_claimed c opts nss).
Proof using All.
  intros (deviceKey & vds & payload & -> & Hdk & Hmso & Hv & _) (? & ? & ? & ?)%validated_times Hs Hf Hu Hauth Hatt; apply Verify_ok.
  eexists _, _, _, nss, (c_DeviceKey c); split; [exists payload; rewrite Hauth; split_and!; [exact Hv|exact Hmso|done..]|by split_and!].
Qed.
End Objects.

(** ** The theorem *)

(** C29: What is issued verifies: of claims the encoders keep, an mdoc that is issued - whatever crypto/rand gave, and however often an identifier had to be drawn again - verifies, at any instant of its validity, to exactly the claims: the elements, the device key and what it may authenticate, the validity in whole seconds, the status and the chain; any selection of its elements verifies, to the elements selected; and of each namespace the object signed shows as many digests as it has elements and decoys. *)
Theorem Issue_verifies `{Signatures} `{!CoseKeys} `{!CborLib} `{!MdocCbor} `{!Curves} `{!X509} `{!Rand} `{!RandLaws} `{!MdocCborWrites} `{!CurvesLaws}
    `{!CoseSignaturesLaws} `{!CborLibLaws} `{!MdocCborLaws} fuel s alg claims opts src out src' now skew :
  let c := normalizeValidity claims in
  claims_encodable c opts -> sound_key (Public s) -> sound_key (c_DeviceKey c) -> - 2 ^ 63 <= alg < 2 ^ 63 -> blen (o_X5Chain opts) <= MaxChainLength ->
  0 <= skew -> c_ValidFrom c <= now + skew -> now - skew <= c_ValidUntil c ->
  Issue fuel s alg claims opts src = (Ok out, src') ->
  Mdoc.Verify now out (c_DocType c) (Public s) alg skew = Ok (as_claimed c opts (c_NameSpaces c)) /\
  (forall paths, Mdoc.Verify now (SelectNameSpaces out paths) (c_DocType c) (Public s) alg skew =
    Ok (as_claimed c opts (selected paths (c_NameSpaces c)))) /\
  exists protected unprotected payload mso, Cose.Verify alg (Public s) (IssuerAuth out) [] = Ok (protected, unprotected, payload) /\
    unwrapTag24 unmarshal_mso payload = Ok mso /\
    forall ns elements, c_NameSpaces c !! ns = Some elements ->
      exists ds, ValueDigests mso !! ns = Some ds /\ base.size ds = (base.size elements + Z.to_nat (default 0%Z (Decoys c !! ns)))%nat.
Proof.
  intros c Hc Hk Hdk Halg Hx Hskew Hf Hu Hi; unfold Issue in Hi; fold c in Hi; clearbody c; eapply issue_normal_object in Hi as (Hv & mso & Ho); try done.
  destruct (issued_attested _ _ _ _ _ _ Ho) as [Hdec Hatt]; split_and!.
  - by eapply issued_Verify.
  - intros paths; eapply issued_Verify; try done; by apply selection_attested.
  - destruct Ho as (deviceKey & vds & payload & -> & _ & Hmso & Hver & Hns); eexists _, _, payload, _; split_and!; [exact Hver|exact Hmso|].
    intros ns e He; specialize (Hns ns); rewrite He in Hns; destruct Hns as (its & bs & ds & _ & _ & Hd & _ & _ & _ & _ & Hsz); by exists ds.
Qed.

(** ** Two elements and a decoy, an identifier drawn twice *)

Module IssueExample.
Import CoseSigned.

#[export] Instance rand : Rand := {|
  source := list Z;
  rand_Int := fun max src => match src with n :: src => if (0 <=? n) && (n <? max) then (Some n, src) else (None, src) | [] => (None, []) end;
  rand_Read := fun n src => (Some (replicate (Z.to_nat n) 7), src) |}.

#[export] Instance rand_laws : RandLaws.
Proof.
  split; intros max [|n src] m src'; cbn; [done|]; destruct (Z.leb_spec 0 n), (Z.ltb_spec n max); cbn; intros [= <- _]; lia.
Defined.

Definition ns : string := "org.iso.18013.5.1".
Definition salted : bytes := replicate 16 7.
Definition family : IssuerSignedItem := {| DigestID := 10; Random := salted; ElementIdentifier := "family_name"; ElementValue := VString "Mustermann" |}.
Definition given : IssuerSignedItem := {| DigestID := 11; Random := salted; ElementIdentifier := "given_name"; ElementValue := VString "Erika" |}.
Definition family_bytes : bytes := [216; 24; 65; 1].
Definition given_bytes : bytes := [216; 24; 65; 2].

Definition opts : IssueOptions := {| DigestAlg := ""; o_X5Chain := [[5]]; KeyID := None |}.
Definition both : gmap string (gmap string goval) :=
  {[ns := <["family_name"%string := VString "Mustermann"]> {["given_name"%string := VString "Erika"]}]}.

#[export] Instance curves : Curves := {|
  ParseUncompressedPublicKey := fun _ _ => Some tt; ec_Bytes := fun _ => Some (4 :: replicate 32 1 ++ replicate 32 2); ecdsa_priv := unit;
  priv_Public := fun _ => OtherKey; ECDH := fun _ _ => None |}.

#[export] Instance curves_laws : CurvesLaws.
Proof.
  split; [done|]; intros [|] [] c; cbn; [|done]; intros [= <-]; exists (replicate 32 1), (replicate 32 2); done.
Defined.

Definition claims : Claims := {|
  c_DocType := "org.iso.18013.5.1.mDL"; c_NameSpaces := both; c_DeviceKey := Ed25519Key (replicate 32 11); c_KeyAuthorizations := None;
  c_Signed := 5; c_ValidFrom := 1000000007; c_ValidUntil := 2000000000; c_ExpectedUpdate := None; c_Status := None; c_IdentifierList := None;
  Decoys := {[ns := 1]} |}.

Definition mso : MobileSecurityObject := the_mso (normalizeValidity claims) SHA256 {| Kty := 1; Crv := 6; X := replicate 32 11; Y := [] |}
  {[ns := <[10 := family_bytes]> (<[11 := given_bytes]> {[12 := salted]})]}.

#[export] Instance MobileSecurityObject_eq_dec : EqDecision MobileSecurityObject.
Proof.
  assert (EqDecision CoseKey) by solve_decision; assert (EqDecision KeyAuthorizations) by solve_decision.
  assert (EqDecision DeviceKeyInfo) by solve_decision; assert (EqDecision ValidityInfo) by solve_decision.
  assert (EqDecision IdentifierListRef) by solve_decision; assert (EqDecision StatusListRef) by solve_decision.
  assert (EqDecision Status) by solve_decision; solve_decision.
Defined.

Definition is_item (item want : IssuerSignedItem) (v : string) : bool :=
  (DigestID item =? DigestID want) && bool_decide (Random item = Random want) && String.eqb (ElementIdentifier item) (ElementIdentifier want) &&
  match ElementValue item with VString s => String.eqb s v | _ => false end.

Definition one {A} (b b' : bytes) (a : A) : res cbor_error A := if bool_decide (b = b') then Ok a else Err ErrEOF.

#[export] Instance mdoc_cbor : MdocCbor := {|
  unmarshal_tag := fun d =>
    if bool_decide (d = payload) then Ok (24, VBytes [0])
    else if bool_decide (d = family_bytes) then Ok (24, VBytes [1]) else one d given_bytes (24, VBytes [2]);
  unmarshal_mso := fun d => one d [0] mso;
  unmarshal_item := fun d => if bool_decide (d = [1]) then Ok family else one d [2] given;
  unmarshal_wire_issuer_signed := fun d => Err ErrEOF;
  unmarshal_wire_device_signed := fun _ => Err ErrEOF;
  unmarshal_device_namespaces := fun _ => Err ErrEOF; unmarshal_raw_message := fun _ => Err ErrEOF;
  marshal_tag := fun _ b => if bool_decide (b = [0]) then Some payload else if bool_decide (b = [1]) then Some family_bytes
    else if bool_decide (b = [2]) then Some given_bytes else None;
  marshal_mso := fun m => if bool_decide (m = mso) then Some [0] else None;
  marshal_item := fun item => if is_item item family "Mustermann" then Some [1] else if is_item item given "Erika" then Some [2] else None;
  marshal_wire_issuer_signed := fun _ => None; marshal_wire_device_signed := fun _ => None;
  marshal_device_namespaces := fun _ => None; marshal_device_authentication := fun _ _ _ => None |}.

#[export] Instance mdoc_cbor_laws : MdocCborLaws.
Proof.
  split; [|done]; intros d n b; cbn [unmarshal_tag mdoc_cbor]; unfold one.
  case_bool_decide; [|case_bool_decide; [|case_bool_decide; [|done]]]; intros [= _ <-]; solve_bytes.
Defined.

Lemma is_item_eq item want v : ElementValue want = VString v -> is_item item want v = true -> item = want.
Proof.
  unfold is_item; destruct item as [i r e x], want as [i' r' e' x']; cbn; intros -> [[[->%Z.eqb_eq Hr]%andb_prop ->%String.eqb_eq]%andb_prop Hx]%andb_prop.
  apply bool_decide_eq_true in Hr as ->; destruct x; try done; by apply String.eqb_eq in Hx as ->.
Qed.

#[export] Instance mdoc_cbor_writes : MdocCborWrites.
Proof.
  refine {| plain_element := fun _ => True |}.
  - intros item inner b _ _ _; cbn [marshal_item marshal_tag mdoc_cbor]; destruct (is_item item family "Mustermann") eqn:E1.
    { apply is_item_eq in E1 as ->; [|done]; intros [= <-] [= <-]; by vm_compute. }
    destruct (is_item item given "Erika") eqn:E2; [|done]; apply is_item_eq in E2 as ->; [|done]; intros [= <-] [= <-]; by vm_compute.
  - intros m inner b _; cbn [marshal_mso marshal_tag mdoc_cbor]; case_bool_decide; [subst|done]; intros [= <-] [= <-] _.
    vm_cast_no_check (@eq_refl (res mdoc_error MobileSecurityObject) (Ok mso)).
  - intros m p b Hp; cbn [marshal_message cbor]; rewrite Hp; destruct (_ && _); [|done]; case_bool_decide as E; [|by case_bool_decide].
    injection E as ->; intros [= <-]; by vm_compute.
Defined.

Definition leaf : Certificate := {|
  Raw := [5]; RawIssuer := [1]; RawSubject := [2]; RawSubjectPublicKeyInfo := []; Country := []; Province := []; SubjectKeyId := []; AuthorityKeyId := [];
  cert_PublicKey := Public key; RSA := None; SerialNumber := 1; NotBefore := 0; NotAfter := 2000000000; BasicConstraintsValid := false; IsCA := false;
  KeyUsage := 0; ExtKeyUsage := []; UnknownExtKeyUsage := []; cert_Extensions := []; DNSNames := []; URIs := [] |}.

#[export] Instance x509 : X509 := {|
  CertPool := unit; pool_of := fun _ => tt; IsSystemPool := fun _ => false; ParseCertificate := fun b => if bool_decide (b = [5]) then Some leaf else None;
  CheckSignature_own := fun _ => false; CheckSignatureFrom := fun _ _ => false; CheckCRLSignatureFrom := fun _ _ => false; x509_Verify := fun _ _ _ _ => None;
  key_Equal := fun a b => match a, b with Ed25519Key x, Ed25519Key y => bool_decide (x = y) | _, _ => false end;
  unmarshal_oids := fun _ => None; spki_bits := fun _ => None; sha1_Sum := id |}.

Definition the_mdoc : IssuerSigned := {| is_NameSpaces := {[ns := [given; family]]}; IssuerAuth := attached; rawItems := {[ns := [given_bytes; family_bytes]]} |}.

(** 11 is drawn again. *)
Definition randomness : @source rand := [11; 11; 10; 12].
Definition given_only : gmap string (gmap string goval) := {[ns := {["given_name"%string := VString "Erika"]}]}.
End IssueExample.

Section Example.
Import CoseSigned IssueExample.

Lemma claims_kept : claims_encodable (normalizeValidity claims) opts.
Proof.
  split; [by vm_compute|by vm_compute|by vm_compute| |done| |done|done|done].
  - apply map_Forall_singleton; split_and!; [by vm_compute| |by vm_compute].
    apply map_Forall_insert_2; [split; [by vm_compute|exact I]|]; apply map_Forall_singleton; split; [by vm_compute|exact I].
  - repeat constructor; by vm_compute.
Qed.

Lemma Issue_verifies_witness :
  Issue 3 key EdDSA claims opts randomness = (Ok the_mdoc, []) /\
  Mdoc.Verify 1500000000 the_mdoc "org.iso.18013.5.1.mDL" (Public key) EdDSA 0 = Ok (as_claimed (normalizeValidity claims) opts both) /\
  Mdoc.Verify 1500000000 (SelectNameSpaces the_mdoc [(ns, "given_name"%string)]) "org.iso.18013.5.1.mDL" (Public key) EdDSA 0 =
    Ok (as_claimed (normalizeValidity claims) opts (selected [(ns, "given_name"%string)] both)).
Proof.
  assert (Hi : Issue 3 key EdDSA claims opts randomness = (Ok the_mdoc, [])).
  { vm_cast_no_check (@eq_refl (res issue_error IssuerSigned * source) (Ok the_mdoc, [])). }
  destruct (Issue_verifies 3 key EdDSA claims opts randomness the_mdoc [] 1500000000 0 claims_kept
    ltac:(by split; vm_compute) ltac:(by split; vm_compute) ltac:(by split; vm_compute) ltac:(by vm_compute) ltac:(done)
    ltac:(by vm_compute) ltac:(by vm_compute) Hi) as (Hw & Hsel & _).
  split_and!; [exact Hi|exact Hw|exact (Hsel _)].
Defined.
End Example.
