(* ===== verification/Oid4vpMdoc.v ===== *)
(** * mdoc presentations in OpenID4VP: [oid4vpmdoc]

    The DeviceResponse an answer carries (device_response.go), and the session
    transcript its device authentication is over (handover.go).  The theorem:
    transcripts are equal only of one flow and one request. *)
From S2P Require Import Prelude Cbor Json DcqlQuery Text JwtDate Jws X509 CertChain Hkdf Cose Mdoc.
#[local] Open Scope Z_scope.

Inductive response_error : Type :=
| RespTooLarge (n : Z)
| RespDecode (e : cbor_error)
| RespStatus (n : Z)
| RespDocuments (n : Z)
| RespIssuerSigned (e : mdoc_error)
| RespDeviceSigned (e : mdoc_error)
| RespNoDocType
| RespMarshal.

Inductive handover_error : Type :=
| HandoverNoClientID | HandoverNoOrigin | HandoverNoNonce | HandoverNoResponseURI | HandoverNoThumbprint | HandoverMarshal.

Record Document : Type := { DocType : string; doc_IssuerSigned : IssuerSigned; doc_DeviceSigned : DeviceSigned }.

Record wireDocument : Type := { wd_DocType : string; wd_IssuerSigned : bytes; wd_DeviceSigned : bytes }.
Record wireDeviceResponse : Type := { wr_Version : string; wr_Documents : list wireDocument; wr_Status : Z }.

(** The package's own CBOR: cbor.Marshal of an []any, and of a tag of a byte string. *)
Class ResponseCbor : Type := {
  unmarshal_device_response : bytes -> res cbor_error wireDeviceResponse;
  marshal_device_response : wireDeviceResponse -> option bytes;
  marshal_array : list goval -> option bytes;
  marshal_default_tag : Z -> bytes -> option bytes
}.

Definition deviceResponseVersion : string := "1.0".
Definition mdocResponseStatusOK : Z := 0.
Definition MaxBytes : Z := 2 ^ 20.

Record HandoverParams : Type := {
  ClientID : string;
  hp_Nonce : string;
  ResponseURI : string;
  hp_Thumbprint : option bytes;
  hp_ResponseIsUnencrypted : bool
}.

Record DCAPIHandoverParams : Type := {
  Origin : string;
  dc_Nonce : string;
  dc_Thumbprint : option bytes;
  dc_ResponseIsUnencrypted : bool
}.

Section Responses.
Context `{Signatures} `{!CoseKeys} `{!CborLib} `{!MdocCbor} `{!Curves} `{!X509} `{!ResponseCbor}.

Definition MarshalDeviceResponse (doc : Document) : res response_error bytes :=
  if String.eqb (DocType doc) "" then Err RespNoDocType
  else
    let? issuerSignedBytes := res_map_err RespIssuerSigned (IssuerSigned_Marshal (doc_IssuerSigned doc)) in
    let? deviceSignedBytes := res_map_err RespDeviceSigned (DeviceSigned_Marshal (doc_DeviceSigned doc)) in
    match marshal_device_response
      {| wr_Version := deviceResponseVersion;
         wr_Documents := [{| wd_DocType := DocType doc; wd_IssuerSigned := issuerSignedBytes; wd_DeviceSigned := deviceSignedBytes |}];
         wr_Status := mdocResponseStatusOK |} with
    | Some b => Ok b
    | None => Err RespMarshal
    end.

Definition UnmarshalDeviceResponseMax (d : bytes) (maxBytes : Z) : res response_error Document :=
  if maxBytes <? blen d then Err (RespTooLarge (blen d))
  else
    let? wire := res_map_err RespDecode (decode unmarshal_device_response d) in
    if negb (wr_Status wire =? mdocResponseStatusOK) then Err (RespStatus (wr_Status wire))
    else match wr_Documents wire with
    | [w] =>
        let? issuerSigned := res_map_err RespIssuerSigned (UnmarshalIssuerSignedMax (wd_IssuerSigned w) maxBytes) in
        let? deviceSigned := res_map_err RespDeviceSigned (UnmarshalDeviceSignedMax (wd_DeviceSigned w) maxBytes) in
        Ok {| DocType := wd_DocType w; doc_IssuerSigned := issuerSigned; doc_DeviceSigned := deviceSigned |}
    | docs => Err (RespDocuments (blen docs))
    end.

Definition UnmarshalDeviceResponse (d : bytes) : res response_error Document := UnmarshalDeviceResponseMax d MaxBytes.

(** ** Session transcripts *)

Definition nilableThumbprint (thumbprint : option bytes) : goval := match thumbprint with None => VNil | Some t => VBytes t end.

Definition handover_wrapTag24 (v : list goval) : res handover_error bytes :=
  match marshal_array v with
  | None => Err HandoverMarshal
  | Some inner => match marshal_default_tag 24 inner with Some b => Ok b | None => Err HandoverMarshal end
  end.

Definition buildHandoverSessionTranscriptBytes (handoverType : string) (info : list goval) : res handover_error bytes :=
  match marshal_array info with
  | None => Err HandoverMarshal
  | Some infoBytes => handover_wrapTag24 [VNil; VNil; VArray [VString handoverType; VBytes (Sum256 infoBytes)]]
  end.

Definition BuildSessionTranscriptBytes (p : HandoverParams) : res handover_error bytes :=
  if String.eqb (ClientID p) "" then Err HandoverNoClientID
  else if String.eqb (hp_Nonce p) "" then Err HandoverNoNonce
  else if String.eqb (ResponseURI p) "" then Err HandoverNoResponseURI
  else if (blen (default [] (hp_Thumbprint p)) =? 0) && negb (hp_ResponseIsUnencrypted p) then Err HandoverNoThumbprint
  else buildHandoverSessionTranscriptBytes "OpenID4VPHandover"
    [VString (ClientID p); VString (hp_Nonce p); nilableThumbprint (hp_Thumbprint p); VString (ResponseURI p)].

Definition BuildDCAPISessionTranscriptBytes (p : DCAPIHandoverParams) : res handover_error bytes :=
  if String.eqb (Origin p) "" then Err HandoverNoOrigin
  else if String.eqb (dc_Nonce p) "" then Err HandoverNoNonce
  else if (blen (default [] (dc_Thumbprint p)) =? 0) && negb (dc_ResponseIsUnencrypted p) then Err HandoverNoThumbprint
  else buildHandoverSessionTranscriptBytes "OpenID4VPDCAPIHandover"
    [VString (Origin p); VString (dc_Nonce p); nilableThumbprint (dc_Thumbprint p)].

(** ** What a transcript binds *)

(** The values handovers are made of, and the values transcripts are. *)
Definition basic (v : goval) : Prop := match v with VNil | VString _ | VBytes _ => True | _ => False end.
Definition plain_value (v : goval) : Prop := match v with VArray l => Forall basic l | _ => basic v end.

(** CBOR's encodings of different arrays of those values, and of different
    byte strings under a tag, differ; and SHA-256 has no collision. *)
Context (marshal_array_inj : forall l l' b, Forall plain_value l -> Forall plain_value l' -> marshal_array l = Some b -> marshal_array l' = Some b -> l = l').
Context (marshal_tag_inj : forall n b b' t, marshal_default_tag n b = Some t -> marshal_default_tag n b' = Some t -> b = b').
Context (Sum256_inj : forall b b', Sum256 b = Sum256 b' -> b = b').

Lemma transcript_info type type' info info' t : Forall plain_value info -> Forall plain_value info' ->
  buildHandoverSessionTranscriptBytes type info = Ok t -> buildHandoverSessionTranscriptBytes type' info' = Ok t -> type = type' /\ info = info'.
Proof using marshal_array_inj marshal_tag_inj Sum256_inj.
  intros Hp Hp'; unfold buildHandoverSessionTranscriptBytes, handover_wrapTag24.
  destruct (marshal_array info) as [i|] eqn:Ei; [|done]; destruct (marshal_array info') as [i'|] eqn:Ei'; [|done].
  destruct (marshal_array [VNil; VNil; VArray [VString type; VBytes (Sum256 i)]]) as [b|] eqn:Eb; [|done].
  destruct (marshal_array [VNil; VNil; VArray [VString type'; VBytes (Sum256 i')]]) as [b'|] eqn:Eb'; [|done].
  destruct (marshal_default_tag 24 b) as [x|] eqn:Et; [|done]; intros [= ->].
  destruct (marshal_default_tag 24 b') as [x'|] eqn:Et'; [|done]; intros [= ->]; assert (b' = b) as -> by (by eapply marshal_tag_inj).
  assert (Heq : [VNil; VNil; VArray [VString type; VBytes (Sum256 i)]] = [VNil; VNil; VArray [VString type'; VBytes (Sum256 i')]]).
  { eapply marshal_array_inj; [| |exact Eb|exact Eb']; repeat constructor. }
  injection Heq as -> Hs; apply Sum256_inj in Hs as ->; split; [done|]; by eapply marshal_array_inj.
Qed.

Lemma plain_thumbprint t : plain_value (nilableThumbprint t).
Proof using. by destruct t. Qed.

Lemma nilableThumbprint_inj t t' : nilableThumbprint t = nilableThumbprint t' -> t = t'.
Proof using. destruct t, t'; cbn; congruence. Qed.

(** C38: The session transcript binds the request: two redirect requests with one transcript have the same client identifier, nonce, response URI and encryption key, two Digital Credentials API requests the same origin, nonce and key, and no transcript is of both flows. *)
Theorem transcript_binds (p q : HandoverParams) (r s : DCAPIHandoverParams) t u :
  (BuildSessionTranscriptBytes p = Ok t -> BuildSessionTranscriptBytes q = Ok t ->
    ClientID p = ClientID q /\ hp_Nonce p = hp_Nonce q /\ ResponseURI p = ResponseURI q /\ hp_Thumbprint p = hp_Thumbprint q) /\
  (BuildDCAPISessionTranscriptBytes r = Ok u -> BuildDCAPISessionTranscriptBytes s = Ok u ->
    Origin r = Origin s /\ dc_Nonce r = dc_Nonce s /\ dc_Thumbprint r = dc_Thumbprint s) /\
  ~ (BuildSessionTranscriptBytes p = Ok t /\ BuildDCAPISessionTranscriptBytes r = Ok t).
Proof using marshal_array_inj marshal_tag_inj Sum256_inj.
  unfold BuildSessionTranscriptBytes, BuildDCAPISessionTranscriptBytes; repeat split_and!.
  - repeat (destruct (String.eqb _ _); [done|]); destruct (_ && _); [done|]; intros Hp; repeat (destruct (String.eqb _ _); [done|]).
    destruct (_ && _); [done|]; intros Hq; pose proof (plain_thumbprint (hp_Thumbprint p)); pose proof (plain_thumbprint (hp_Thumbprint q)).
    edestruct (fun A B => transcript_info _ _ _ _ _ A B Hp Hq) as [_ [= E1 E2 Et E3]]; [by repeat constructor..|].
    split_and!; try done; by apply nilableThumbprint_inj.
  - repeat (destruct (String.eqb _ _); [done|]); destruct (_ && _); [done|]; intros Hp; repeat (destruct (String.eqb _ _); [done|]).
    destruct (_ && _); [done|]; intros Hq; pose proof (plain_thumbprint (dc_Thumbprint r)); pose proof (plain_thumbprint (dc_Thumbprint s)).
    edestruct (fun A B => transcript_info _ _ _ _ _ A B Hp Hq) as [_ [= E1 E2 Et]]; [by repeat constructor..|].
    split_and!; try done; by apply nilableThumbprint_inj.
  - intros [Hp Hr]; repeat (destruct (String.eqb _ _) in Hp; [done|]); destruct (_ && _) in Hp; [done|].
    repeat (destruct (String.eqb _ _) in Hr; [done|]); destruct (_ && _) in Hr; [done|].
    pose proof (plain_thumbprint (hp_Thumbprint p)); pose proof (plain_thumbprint (dc_Thumbprint r)).
    edestruct (fun A B => transcript_info _ _ _ _ _ A B Hp Hr) as [Ht _]; [by repeat constructor..|discriminate Ht].
Qed.
End Responses.

(** ** Two requests *)

Module TranscriptExample.
Import CoseSigned.

Definition put (b : bytes) : bytes := blen b :: b.

Definition enc_basic (v : goval) : bytes :=
  match v with VString s => 1 :: put (string_bytes s) | VBytes b => 2 :: put b | _ => [0] end.

Definition enc (v : goval) : bytes := match v with VArray l => 3 :: put (concat (map enc_basic l)) | _ => enc_basic v end.

Lemma put_inj b b' r r' : put b ++ r = put b' ++ r' -> b = b' /\ r = r'.
Proof.
  unfold put; cbn; intros [= Hl Hr]; apply app_inj_1 in Hr; [done|]; unfold blen in Hl; lia.
Qed.

Lemma enc_basic_inj v v' r r' : basic v -> basic v' -> enc_basic v ++ r = enc_basic v' ++ r' -> v = v' /\ r = r'.
Proof.
  destruct v as [|s| | | | | | | | |b|], v' as [|s'| | | | | | | | |b'|]; try done; cbn -[put]; intros _ _ He; try done; apply (f_equal tail) in He; cbn -[put] in He.
  - by subst.
  - apply put_inj in He as [He ->]; split; [|done]; by apply (inj string_bytes) in He as ->.
  - by apply put_inj in He as [-> ->].
Qed.

Lemma enc_basics_inj l : forall l', Forall basic l -> Forall basic l' -> concat (map enc_basic l) = concat (map enc_basic l') -> l = l'.
Proof.
  induction l as [|v l IH]; intros [|v' l'] Hl Hl'; cbn [map concat]; try done.
  - by destruct v'.
  - by destruct v.
  - apply Forall_cons in Hl as [Hv Hl]; apply Forall_cons in Hl' as [Hv' Hl']; intros He.
    apply enc_basic_inj in He as [-> He]; [|done..]; f_equal; by apply IH.
Qed.

Lemma enc_inj v v' r r' : plain_value v -> plain_value v' -> enc v ++ r = enc v' ++ r' -> v = v' /\ r = r'.
Proof.
  destruct v as [| | | | | | |l| | | |], v' as [| | | | | | |l'| | | |]; cbn [plain_value enc]; try done;
    try (intros Hv Hv'; by apply enc_basic_inj); try (intros _ _; cbn; discriminate).
  intros Hl Hl'; cbn -[put]; intros He; apply (f_equal tail) in He; cbn -[put] in He; apply put_inj in He as [He ->]; split; [|done]; f_equal; by apply enc_basics_inj.
Qed.

Lemma encs_inj l : forall l', Forall plain_value l -> Forall plain_value l' -> concat (map enc l) = concat (map enc l') -> l = l'.
Proof.
  assert (Hne : forall v, enc v <> []) by (by intros []).
  induction l as [|v l IH]; intros [|v' l'] Hl Hl'; cbn [map concat]; try done.
  - intros He; symmetry in He; by apply app_eq_nil in He as [He%Hne _].
  - intros He; by apply app_eq_nil in He as [He%Hne _].
  - apply Forall_cons in Hl as [Hv Hl]; apply Forall_cons in Hl' as [Hv' Hl']; intros He.
    apply enc_inj in He as [-> He]; [|done..]; f_equal; by apply IH.
Qed.

#[export] Instance response_cbor : ResponseCbor := {|
  unmarshal_device_response := fun _ => Err ErrEOF; marshal_device_response := fun _ => None;
  marshal_array := fun l => Some (concat (map enc l)); marshal_default_tag := fun n b => Some (n :: b) |}.

Definition request (nonce : string) : HandoverParams := {|
  ClientID := "x509_hash:abc"; hp_Nonce := nonce; ResponseURI := "https://rp.example/response"; hp_Thumbprint := Some [1; 2];
  hp_ResponseIsUnencrypted := false |}.
Definition dcapi_request : DCAPIHandoverParams := {|
  Origin := "https://rp.example"; dc_Nonce := "n-1"; dc_Thumbprint := Some [1; 2]; dc_ResponseIsUnencrypted := false |}.
End TranscriptExample.

Section Example.
Import CoseSigned TranscriptExample.

Lemma transcript_binds_witness : exists t, BuildSessionTranscriptBytes (request "n-1") = Ok t /\
  BuildSessionTranscriptBytes (request "n-2") <> Ok t /\ BuildDCAPISessionTranscriptBytes dcapi_request <> Ok t.
Proof.
  eexists; split; [vm_compute; reflexivity|].
  match goal with |- _ <> Ok ?t /\ _ => pose proof (transcript_binds
    (fun l l' b Hl Hl' E E' => encs_inj l l' Hl Hl' (eq_trans (f_equal (default []) E) (eq_sym (f_equal (default []) E'))))
    (fun n b b' x E E' => f_equal (fun o => tail (default [] o)) (eq_trans E (eq_sym E'))) (fun b b' (E : @Sum256 signatures b = @Sum256 signatures b') => E)
    (request "n-1") (request "n-2") dcapi_request dcapi_request t t) as (Hp & _ & Hx) end.
  split; intros E; [|apply Hx; split; [vm_compute; reflexivity|exact E]].
  destruct (Hp ltac:(vm_compute; reflexivity) E) as (_ & Hn & _); discriminate Hn.
Defined.
End Example.
