(* ===== verification/IssuerKeys.v ===== *)
(** * Issuers' keys: [verifier]'s resolvers

    x5c_issuer_key_resolver.go, x5chain_issuer_key_resolver.go,
    issuer_chain.go, revocation.go, assurance.go and the keys' algorithms of
    verify_response.go.  An interface is the package's own type or any other,
    with the methods the package asks it for.  [at] is the verification's
    instant, as its context carries it, or the zero time; [clock], time.Now. *)
From S2P Require Import Prelude Cbor Json DcqlQuery Text JwtDate Jws X509 CertRevocation CertChain Hkdf Cose Mdoc.
#[local] Open Scope Z_scope.

Inductive keys_error : Type :=
| KeysNoRevocation
| KeysRevocation
| KeysOther
| KeysChain (e : chain_error)
| KeysNoIss
| KeysIssNotString
| KeysType
| KeysCose (e : cose_error)
| KeysNoRootsFor (docType : string)
| KeysNoRoots
| KeysNotTheChain
| KeysIssuerChain
| KeysDocumentSigner (e : mdoc_error)
| KeysNotThePath
| KeysNoAssurance (name : string)
| KeysNotHardened (name : string)
| KeysNoChains
| KeysSystemPool (name : string).

Section IssuerKeys.
Context `{Signatures} `{!CoseKeys} `{!CborLib} `{!MdocCbor} `{!Curves} `{!X509}.
Context (std_base64 : string -> option bytes) (EqualFold : string -> string -> bool).

Definition header : Type := list (string * goval).

Definition validateRevocation (revocation : option Checker) : res keys_error unit :=
  match revocation with
  | None => Err KeysNoRevocation
  | Some v => if validates v then Ok tt else Err KeysRevocation
  end.

(** ** SD-JWT VC issuers *)

Definition sdjwtvcAlgForKey (pub : PublicKey ec) : res keys_error string :=
  match pub with
  | ECDSAKey _ _ => Ok Jws.ES256
  | Ed25519Key _ => Ok Jws.EdDSA
  | OtherKey => Err KeysType
  end.

Record X5CIssuerKeyResolver : Type := {
  Roots : option CertPool;
  LeafPolicy : option policy;
  Revocation : option Checker;
  RequireIssuerName : bool
}.

(** An SDJWTVCIssuerKeyResolver of another type, and the other interfaces it may be of. *)
Record OtherKeys : Type := {
  other_ResolveIssuerKey : Z -> header -> list (string * goval) -> option (PublicKey ec * string);
  other_ResolveIssuerChains : option (Z -> header -> option (list (list Certificate)));
  other_BindsIssuerName : option bool;
  other_Validate : option bool;
  other_LiveFetchHardened : option bool
}.

Inductive SDJWTVCIssuerKeyResolver : Type := X5CKeys (r : X5CIssuerKeyResolver) | OtherSDJWTKeys (o : OtherKeys).

Definition sdjwtIssuerRole : LeafRole := {| OtherISOEKUs := [ReaderAuthenticationEKU]; Strict := false |}.

Definition DefaultSDJWTIssuerLeafPolicy : policy := fun leaf chains => is_ok (LeafRole_Check sdjwtIssuerRole leaf chains).
Definition AnyIssuerLeaf : policy := fun _ _ => true.

Definition x5c_Validate (r : X5CIssuerKeyResolver) : res keys_error unit := validateRevocation (Revocation r).
Definition x5c_leafPolicy (r : X5CIssuerKeyResolver) : policy := default DefaultSDJWTIssuerLeafPolicy (LeafPolicy r).

Definition x5c_verify (clock at' : Z) (r : X5CIssuerKeyResolver) (ders : list bytes) : res keys_error (Certificate * list (list Certificate)) :=
  res_map_err KeysChain (VerifyTrustedChainsAt ders (Roots r) (Some (x5c_leafPolicy r)) (Revocation r) at' clock).

Definition x5c_ResolveIssuerChains (clock at' : Z) (r : X5CIssuerKeyResolver) (h : header) : res keys_error (list (list Certificate)) :=
  let? _ := x5c_Validate r in
  let? ders := res_map_err KeysChain (X5CDERsFromHeader std_base64 h) in
  let? (_, chains) := x5c_verify clock at' r ders in
  Ok chains.

Definition resolveIssuerKeyAndChains (clock at' : Z) (r : X5CIssuerKeyResolver) (h : header) (payload : list (string * goval))
    : res keys_error (PublicKey ec * string * list (list Certificate)) :=
  let? _ := x5c_Validate r in
  let? ders := res_map_err KeysChain (X5CDERsFromHeader std_base64 h) in
  let? _ := res_map_err KeysChain (CheckNoAnchor ders) in
  let? (leaf, chains) := x5c_verify clock at' r ders in
  let? _ :=
    if RequireIssuerName r then
      match member "iss" payload with
      | None => Err KeysNoIss
      | Some (VString iss) => res_map_err KeysChain (CheckIssuerName EqualFold leaf iss)
      | Some _ => Err KeysIssNotString
      end
    else Ok tt in
  let? alg := sdjwtvcAlgForKey (cert_PublicKey leaf) in
  Ok (cert_PublicKey leaf, alg, chains).

Definition x5c_ResolveIssuerKey (clock at' : Z) (r : X5CIssuerKeyResolver) (h : header) (payload : list (string * goval))
    : res keys_error (PublicKey ec * string) :=
  let? (pub, alg, _) := resolveIssuerKeyAndChains clock at' r h payload in Ok (pub, alg).

Definition or_other {A} (o : option A) : res keys_error A := match o with Some a => Ok a | None => Err KeysOther end.

Definition BindsIssuerName (keys : SDJWTVCIssuerKeyResolver) : bool :=
  match keys with X5CKeys r => RequireIssuerName r | OtherSDJWTKeys o => default false (other_BindsIssuerName o) end.

(** ** Issuer chains *)

Definition keyBoundChain (chain : list bytes) (issuerPub : PublicKey ec) : list bytes :=
  match chain with
  | [] => []
  | der :: _ =>
      match ParseCertificate der with
      | None => []
      | Some leaf => if key_Equal (cert_PublicKey leaf) issuerPub then chain else []
      end
  end.

(** The first of the paths whose leaf has the key, without the anchor it ends at. *)
Fixpoint verifiedPath (chains : list (list Certificate)) (issuerPub : PublicKey ec) : list bytes :=
  match chains with
  | [] => []
  | path :: chains =>
      match path with
      | [] => verifiedPath chains issuerPub
      | leaf :: rest =>
          if negb (key_Equal (cert_PublicKey leaf) issuerPub) then verifiedPath chains issuerPub
          else map Raw (match rest with [] => path | _ => removelast path end)
      end
  end.

(** ** mdoc issuers *)

Record X5ChainIssuerKeyResolver : Type := {
  mdoc_Roots : option CertPool;
  RootsByDocType : gmap string (option CertPool);
  mdoc_LeafPolicy : option policy;
  mdoc_Revocation : option Checker
}.

(** An MdocIssuerKeyResolver of another type: its key, and the other interfaces it may be of, Unwrap's among them. *)
Inductive MdocIssuerKeyResolver : Type :=
| X5ChainKeys (r : X5ChainIssuerKeyResolver)
| OtherMdocKeys (o : OtherMdoc) (unwrap : option (option MdocIssuerKeyResolver))
with OtherMdoc : Type :=
| OtherMdocMethods (key : Z -> list bytes -> string -> option (PublicKey ec * Z)) (chains : option (Z -> list bytes -> string -> option (list (list Certificate))))
    (validate : option bool) (hardened : option bool).

Definition x5chain_Validate (r : X5ChainIssuerKeyResolver) : res keys_error unit := validateRevocation (mdoc_Revocation r).

Definition x5chain_leafPolicy (r : X5ChainIssuerKeyResolver) : policy :=
  default (fun leaf chains => is_ok (DefaultDocumentSignerPolicy leaf chains)) (mdoc_LeafPolicy r).

Definition rootsFor (r : X5ChainIssuerKeyResolver) (docType : string) : res keys_error CertPool :=
  match RootsByDocType r !! docType with
  | Some None => Err (KeysNoRootsFor docType)
  | Some (Some roots) => Ok roots
  | None =>
      match mdoc_Roots r with
      | Some roots => Ok roots
      | None => if bool_decide (RootsByDocType r = ∅) then Err KeysNoRoots else Err (KeysNoRootsFor docType)
      end
  end.

Definition x5chain_verify (clock at' : Z) (r : X5ChainIssuerKeyResolver) (x5chain : list bytes) (docType : string)
    : res keys_error (Certificate * list (list Certificate)) :=
  let? _ := x5chain_Validate r in
  let? roots := rootsFor r docType in
  res_map_err KeysChain (VerifyTrustedChainsAt x5chain (Some roots) (Some (x5chain_leafPolicy r)) (mdoc_Revocation r) at' clock).

Definition mdocAlgForKey (pub : PublicKey ec) : res keys_error Z := res_map_err KeysCose (AlgForKey pub).

Definition x5chain_ResolveMdocIssuerKey (clock at' : Z) (r : X5ChainIssuerKeyResolver) (x5chain : list bytes) (docType : string)
    : res keys_error (PublicKey ec * Z) :=
  let? (leaf, _) := x5chain_verify clock at' r x5chain docType in
  let? alg := mdocAlgForKey (cert_PublicKey leaf) in
  Ok (cert_PublicKey leaf, alg).

Definition x5chain_ResolveMdocIssuerChains (clock at' : Z) (r : X5ChainIssuerKeyResolver) (x5chain : list bytes) (docType : string)
    : res keys_error (list (list Certificate)) :=
  let? (_, chains) := x5chain_verify clock at' r x5chain docType in Ok chains.

Definition anchorPools (r : X5ChainIssuerKeyResolver) : list (option CertPool) := mdoc_Roots r :: map snd (map_to_list (RootsByDocType r)).

Definition ResolveMdocIssuerKey (clock at' : Z) (resolver : MdocIssuerKeyResolver) (x5chain : list bytes) (docType : string) : res keys_error (PublicKey ec * Z) :=
  match resolver with
  | X5ChainKeys r => x5chain_ResolveMdocIssuerKey clock at' r x5chain docType
  | OtherMdocKeys (OtherMdocMethods key _ _ _) _ => or_other (key at' x5chain docType)
  end.

(** An MdocIssuerChainResolver. *)
Definition chain_resolver : Type := Z -> Z -> list bytes -> string -> res keys_error (list (list Certificate)).

Definition unwrapped (resolver : MdocIssuerKeyResolver) : option (option MdocIssuerKeyResolver) :=
  match resolver with X5ChainKeys _ => None | OtherMdocKeys _ unwrap => unwrap end.

(** At most 16 wrappers; the resolver is nil where it is [None]. *)
Fixpoint chain_resolver_loop (n : nat) (resolver : option MdocIssuerKeyResolver) : option chain_resolver :=
  match n with
  | O => None
  | S n =>
      match resolver with
      | None => None
      | Some (X5ChainKeys r) => Some (fun clock at' => x5chain_ResolveMdocIssuerChains clock at' r)
      | Some (OtherMdocKeys (OtherMdocMethods _ (Some chains) _ _) _) => Some (fun _ at' x5chain docType => or_other (chains at' x5chain docType))
      | Some resolver => match unwrapped resolver with Some inner => chain_resolver_loop n inner | None => None end
      end
  end.

Definition mdocChainResolver (resolver : MdocIssuerKeyResolver) : option chain_resolver := chain_resolver_loop 16 (Some resolver).

Definition checkDocumentSignerPaths (chains : list (list Certificate)) (issuerPub : PublicKey ec) (verified : VerifiedMSO) : res keys_error (list bytes) :=
  let? path := res_map_err KeysDocumentSigner (CheckDocumentSigner verified chains) in
  match verifiedPath [path] issuerPub with
  | [] => Err KeysNotThePath
  | trusted => Ok trusted
  end.

Definition CheckMdocIssuer (clock at' : Z) (resolver : MdocIssuerKeyResolver) (x5chain : list bytes) (docType : string) (issuerPub : PublicKey ec)
    (verified : VerifiedMSO) : res keys_error (list bytes) :=
  match mdocChainResolver resolver with
  | None => Ok []
  | Some chainResolver =>
      match keyBoundChain x5chain issuerPub with
      | [] => Err KeysNotTheChain
      | _ =>
          let? chains := res_map_err (fun _ => KeysIssuerChain) (chainResolver clock at' x5chain docType) in
          checkDocumentSignerPaths chains issuerPub verified
      end
  end.

Record MdocIssuer : Type := {
  mi_Key : PublicKey ec;
  mi_Alg : Z;
  mi_resolver : MdocIssuerKeyResolver;
  mi_x5chain : list bytes;
  mi_docType : string;
  mi_chains : option (list (list Certificate))     (* where [verifiedChains] *)
}.

Definition ResolveMdocIssuer (clock at' : Z) (resolver : MdocIssuerKeyResolver) (x5chain : list bytes) (docType : string) : res keys_error MdocIssuer :=
  match resolver with
  | X5ChainKeys r =>
      let? (leaf, chains) := x5chain_verify clock at' r x5chain docType in
      let? alg := mdocAlgForKey (cert_PublicKey leaf) in
      Ok {| mi_Key := cert_PublicKey leaf; mi_Alg := alg; mi_resolver := resolver; mi_x5chain := x5chain; mi_docType := docType; mi_chains := Some chains |}
  | _ =>
      let? (key, alg) := ResolveMdocIssuerKey clock at' resolver x5chain docType in
      Ok {| mi_Key := key; mi_Alg := alg; mi_resolver := resolver; mi_x5chain := x5chain; mi_docType := docType; mi_chains := None |}
  end.

Definition MdocIssuer_Check (clock at' : Z) (i : MdocIssuer) (verified : VerifiedMSO) : res keys_error (list bytes) :=
  match mi_chains i with
  | None => CheckMdocIssuer clock at' (mi_resolver i) (mi_x5chain i) (mi_docType i) (mi_Key i) verified
  | Some chains =>
      match keyBoundChain (mi_x5chain i) (mi_Key i) with
      | [] => Err KeysNotTheChain
      | _ => checkDocumentSignerPaths chains (mi_Key i) verified
      end
  end.

(** ** What a deployment must have configured *)

Definition validate_of (o : option bool) : res keys_error unit := match o with Some false => Err KeysOther | _ => Ok tt end.

Definition mdoc_Validate (resolver : MdocIssuerKeyResolver) : res keys_error unit :=
  match resolver with
  | X5ChainKeys r => x5chain_Validate r
  | OtherMdocKeys (OtherMdocMethods _ _ validate _) _ => validate_of validate
  end.

Fixpoint mdoc_valid_loop (n : nat) (resolver : option MdocIssuerKeyResolver) : res keys_error unit :=
  match n with
  | O => Ok tt
  | S n =>
      match resolver with
      | None => Ok tt
      | Some resolver =>
          let? _ := mdoc_Validate resolver in
          match unwrapped resolver with Some inner => mdoc_valid_loop n inner | None => Ok tt end
      end
  end.

Definition checkIssuerKeysValid (issuerKeys : option SDJWTVCIssuerKeyResolver) (mdocIssuerKeys : option MdocIssuerKeyResolver) : res keys_error unit :=
  let? _ :=
    match issuerKeys with
    | None => Ok tt
    | Some (X5CKeys r) => x5c_Validate r
    | Some (OtherSDJWTKeys o) => validate_of (other_Validate o)
    end in
  mdoc_valid_loop 16 mdocIssuerKeys.

(** [hardened]: what its Capabilities say, [None] where it has none. *)
Definition checkKeySourceAssurance (name : string) (hardened : option bool) : res keys_error unit :=
  match hardened with
  | None => Err (KeysNoAssurance name)
  | Some false => Err (KeysNotHardened name)
  | Some true => Ok tt
  end.

Definition is_system (pool : option CertPool) : bool := match pool with Some p => IsSystemPool p | None => false end.

Definition sdjwt_anchoredBySystemPool (keys : SDJWTVCIssuerKeyResolver) : bool :=
  match keys with X5CKeys r => is_system (Roots r) | OtherSDJWTKeys _ => false end.

Definition mdoc_anchoredBySystemPool (resolver : MdocIssuerKeyResolver) : bool :=
  match resolver with X5ChainKeys r => existsb is_system (anchorPools r) | OtherMdocKeys _ _ => false end.

Fixpoint system_pool_loop (n : nat) (resolver : option MdocIssuerKeyResolver) : res keys_error unit :=
  match n with
  | O => Ok tt
  | S n =>
      match resolver with
      | None => Ok tt
      | Some resolver =>
          if mdoc_anchoredBySystemPool resolver then Err (KeysSystemPool "mdoc_issuer_keys")
          else match unwrapped resolver with Some inner => system_pool_loop n inner | None => Ok tt end
      end
  end.

Definition checkProductionKeySources (issuerKeys : option SDJWTVCIssuerKeyResolver) (mdocIssuerKeys : option MdocIssuerKeyResolver) : res keys_error unit :=
  let? _ :=
    match issuerKeys with
    | None => Ok tt
    | Some (X5CKeys _) => checkKeySourceAssurance "issuer_keys" (Some true)
    | Some (OtherSDJWTKeys o) => checkKeySourceAssurance "issuer_keys" (other_LiveFetchHardened o)
    end in
  let? _ :=
    match mdocIssuerKeys with
    | None => Ok tt
    | Some resolver =>
        let? _ := checkKeySourceAssurance "mdoc_issuer_keys"
          (match resolver with X5ChainKeys _ => Some true | OtherMdocKeys (OtherMdocMethods _ _ _ hardened) _ => hardened end) in
        if is_Some_b (mdocChainResolver resolver) then Ok tt else Err KeysNoChains
    end in
  if match issuerKeys with Some keys => sdjwt_anchoredBySystemPool keys | None => false end then Err (KeysSystemPool "issuer_keys")
  else system_pool_loop 16 mdocIssuerKeys.

(** ** One verification of a chain *)

Lemma x5chain_key clock at' r x5chain docType :
  x5chain_ResolveMdocIssuerKey clock at' r x5chain docType =
  let? i := ResolveMdocIssuer clock at' (X5ChainKeys r) x5chain docType in Ok (mi_Key i, mi_Alg i).
Proof using.
  unfold x5chain_ResolveMdocIssuerKey, ResolveMdocIssuer; destruct (x5chain_verify _ _ _ _ _) as [[leaf chains]|]; [|done]; cbn [res_bind].
  by destruct (mdocAlgForKey _).
Qed.

End IssuerKeys.

(** Verifying an issuer's chain once is verifying it each time it is asked for: what ResolveMdocIssuer resolves has the key and algorithm ResolveMdocIssuerKey gives and fails where it fails, its Check reports exactly what CheckMdocIssuer does for that key, errors included, whatever the resolver; and the paths resolved along with an SD-JWT VC's key are those ResolveIssuerChains gives. *)
Theorem issuer_resolved_once `{Signatures} `{!CoseKeys} `{!CborLib} `{!MdocCbor} `{!Curves} `{!X509} (std_base64 : string -> option bytes)
    (EqualFold : string -> string -> bool) clock at' (resolver : MdocIssuerKeyResolver) x5chain docType verified (r : X5CIssuerKeyResolver) h payload :
  (let? i := ResolveMdocIssuer clock at' resolver x5chain docType in Ok (mi_Key i, mi_Alg i)) = ResolveMdocIssuerKey clock at' resolver x5chain docType /\
  (let? i := ResolveMdocIssuer clock at' resolver x5chain docType in MdocIssuer_Check clock at' i verified) =
    (let? (key, _) := ResolveMdocIssuerKey clock at' resolver x5chain docType in CheckMdocIssuer clock at' resolver x5chain docType key verified) /\
  (let? (_, _, chains) := resolveIssuerKeyAndChains std_base64 EqualFold clock at' r h payload in Ok chains) =
    (let? _ := resolveIssuerKeyAndChains std_base64 EqualFold clock at' r h payload in x5c_ResolveIssuerChains std_base64 clock at' r h).
Proof.
  split_and!.
  - destruct resolver as [r'|[key chains validate hardened] unwrap]; [cbn [ResolveMdocIssuerKey]; by rewrite x5chain_key|].
    cbn [ResolveMdocIssuer]; by destruct (ResolveMdocIssuerKey _ _ _ _ _) as [[]|].
  - destruct resolver as [r'|[key chains validate hardened] unwrap].
    + cbn [ResolveMdocIssuerKey]; rewrite x5chain_key; cbn [ResolveMdocIssuer]; destruct (x5chain_verify _ _ _ _ _) as [[leaf chains]|] eqn:E; cbn [res_bind]; [|done].
      destruct (mdocAlgForKey _); cbn [res_bind mi_Key mi_Alg]; [|done]; unfold MdocIssuer_Check, CheckMdocIssuer; cbn [mi_chains mi_x5chain mi_Key].
      change (mdocChainResolver (X5ChainKeys r')) with (Some (fun clock at' => x5chain_ResolveMdocIssuerChains clock at' r')).
      unfold x5chain_ResolveMdocIssuerChains; rewrite E; by destruct (keyBoundChain _ _).
    + cbn [ResolveMdocIssuer]; by destruct (ResolveMdocIssuerKey _ _ _ _ _) as [[]|].
  - unfold resolveIssuerKeyAndChains, x5c_ResolveIssuerChains; destruct (x5c_Validate r); cbn [res_bind]; [|done].
    destruct (res_map_err _ (X5CDERsFromHeader _ _)) as [ders|]; cbn [res_bind]; [|done]; destruct (res_map_err _ (CheckNoAnchor ders)); cbn [res_bind]; [|done].
    destruct (x5c_verify _ _ _ _) as [[leaf chains]|]; cbn [res_bind]; [|done].
    destruct (if RequireIssuerName r then _ else _); cbn [res_bind]; [|done]; by destruct (sdjwtvcAlgForKey _).
Qed.
