(* ===== verification/Jwk.v ===== *)
(** * JSON Web Keys: [internal/jwk]

    jwk.go: a public key and its JWK, what a JWK names and its thumbprint.
    smallorder.go is in [Jws].  [strictjson]'s decoding into a JWK and
    strconv's quoting are parameters.  The theorem: a JWK and a thumbprint each
    name one key. *)
From S2P Require Import Prelude B64Url Json DcqlQuery Text JwtDate Jws X509 Hkdf Cose Mdoc MdocVerified.
#[local] Open Scope Z_scope.

Inductive jwk_error : Type :=
| JwkCurve
| JwkEncode
| JwkKeyType
| JwkCrv (crv : string)
| JwkBase64 (e : b64_error)
| JwkCoordinate
| JwkPoint
| JwkLength (n : Z)
| JwkSmallOrder
| JwkKty (kty : string)
| JwkJSON
| JwkPrivate.

(** Each member's zero value is a member left out. *)
Record JWK : Type := { j_Kty : string; j_Crv : string; j_X : string; j_Y : string; j_D : string }.

Class JwkText : Type := {
  unmarshal_jwk : bytes -> option JWK;
  marshal_any : goval -> option bytes;
  Quote : string -> string             (* fmt's %q *)
}.

Section Jwk.
Context `{Signatures} `{!CoseKeys} `{!CborLib} `{!MdocCbor} `{!Curves} `{!JwkText}.
Context (priv_Bytes : ecdsa_priv -> option bytes).

Definition ec_jwk (x y : bytes) : JWK := {| j_Kty := "EC"; j_Crv := "P-256"; j_X := b64_string x; j_Y := b64_string y; j_D := "" |}.
Definition okp_jwk (x : bytes) : JWK := {| j_Kty := "OKP"; j_Crv := "Ed25519"; j_X := b64_string x; j_Y := ""; j_D := "" |}.

Definition Marshal (pub : PublicKey ec) : res jwk_error JWK :=
  match pub with
  | ECDSAKey p256 k =>
      if negb p256 then Err JwkCurve
      else match ec_Bytes k with
      | None => Err JwkEncode
      | Some raw =>
          let n := (blen raw - 1) / 2 in
          Ok (ec_jwk (slice raw 1 (1 + n)) (slice raw (1 + n) (blen raw)))
      end
  | Ed25519Key k => Ok (okp_jwk k)
  | OtherKey => Err JwkKeyType
  end.

(** A crypto.PrivateKey: an ed25519.PrivateKey is its seed, and its public key. *)
Inductive PrivateKey : Type :=
| ECDSAPrivate (k : ecdsa_priv)
| Ed25519Private (k : bytes)
| OtherPrivate.

Definition with_D (d : bytes) (j : JWK) : JWK :=
  {| j_Kty := j_Kty j; j_Crv := j_Crv j; j_X := j_X j; j_Y := j_Y j; j_D := b64_string d |}.

Definition MarshalPrivate (priv : PrivateKey) : res jwk_error JWK :=
  match priv with
  | ECDSAPrivate k =>
      let? j := Marshal (priv_Public k) in
      match priv_Bytes k with
      | None => Err JwkEncode
      | Some d => Ok (with_D d j)
      end
  | Ed25519Private k =>
      let? j := Marshal (Ed25519Key (drop 32 k)) in
      Ok (with_D (take 32 k) j)
  | OtherPrivate => Err JwkKeyType
  end.

Definition JWK_PublicKey (k : JWK) : res jwk_error (PublicKey ec) :=
  if String.eqb (j_Kty k) "EC" then
    if negb (String.eqb (j_Crv k) "P-256") then Err (JwkCrv (j_Crv k))
    else
      let? x := res_map_err JwkBase64 (b64_decode (j_X k)) in
      let? y := res_map_err JwkBase64 (b64_decode (j_Y k)) in
      if negb (blen x =? 32) || negb (blen y =? 32) then Err JwkCoordinate
      else match ParseUncompressedPublicKey P256 (4 :: x ++ y) with
      | None => Err JwkPoint
      | Some pub => Ok (ECDSAKey true pub)
      end
  else if String.eqb (j_Kty k) "OKP" then
    if negb (String.eqb (j_Crv k) "Ed25519") then Err (JwkCrv (j_Crv k))
    else
      let? x := res_map_err JwkBase64 (b64_decode (j_X k)) in
      if negb (blen x =? 32) then Err (JwkLength (blen x))
      else if IsSmallOrderEd25519 x then Err JwkSmallOrder
      else Ok (Ed25519Key x)
  else Err (JwkKty (j_Kty k)).

Definition unmarshal_public (raw : bytes) : res jwk_error JWK :=
  match unmarshal_jwk raw with
  | None => Err JwkJSON
  | Some k => if negb (String.eqb (j_D k) "") then Err JwkPrivate else Ok k
  end.

Definition ParsePublicKey (raw : bytes) : res jwk_error (PublicKey ec) :=
  let? k := unmarshal_public raw in JWK_PublicKey k.

Definition jwk_eqb (a b : JWK) : bool :=
  String.eqb (j_Kty a) (j_Kty b) && String.eqb (j_Crv a) (j_Crv b) && String.eqb (j_X a) (j_X b) &&
  String.eqb (j_Y a) (j_Y b) && String.eqb (j_D a) (j_D b).

Definition Matches (raw : bytes) (pub : PublicKey ec) : res jwk_error bool :=
  let? candidate := Marshal pub in
  let? want := unmarshal_public raw in
  match JWK_PublicKey want with
  | Err _ => Ok false
  | Ok parsed =>
      match Marshal parsed with
      | Err _ => Ok false
      | Ok want => Ok (jwk_eqb want candidate)
      end
  end.

Definition canonical (k : JWK) : JWK :=
  match JWK_PublicKey k with
  | Ok pub => match Marshal pub with Ok c => c | Err _ => k end
  | Err _ => k
  end.

(** A character of JSON's own text. *)
Definition quote : string := String (Ascii.ascii_of_nat 34) EmptyString.

Definition members_text (l : list (string * string)) : string :=
  ("{" ++ join "," (map (fun p => quote ++ p.1 ++ quote ++ ":" ++ p.2) l) ++ "}")%string.

Definition JWK_Thumbprint (k : JWK) : res jwk_error string :=
  let k := canonical k in
  let? text :=
    if String.eqb (j_Kty k) "EC" then
      if negb (String.eqb (j_Crv k) "P-256") then Err (JwkCrv (j_Crv k))
      else Ok (members_text [("crv", quote ++ "P-256" ++ quote); ("kty", quote ++ "EC" ++ quote); ("x", Quote (j_X k)); ("y", Quote (j_Y k))])%string
    else if String.eqb (j_Kty k) "OKP" then
      if negb (String.eqb (j_Crv k) "Ed25519") then Err (JwkCrv (j_Crv k))
      else Ok (members_text [("crv", quote ++ "Ed25519" ++ quote); ("kty", quote ++ "OKP" ++ quote); ("x", Quote (j_X k))])%string
    else Err (JwkKty (j_Kty k)) in
  Ok (b64_string (Sum256 (string_bytes text))).

Definition Thumbprint (pub : PublicKey ec) : res jwk_error bytes :=
  let? j := Marshal pub in
  let? thumbprint := JWK_Thumbprint j in
  res_map_err JwkBase64 (b64_decode thumbprint).

End Jwk.

(** ** A key and its JWK *)

Lemma quoted_inj sep a b s t : absent sep a = true -> absent sep b = true ->
  (a ++ String sep s)%string = (b ++ String sep t)%string -> a = b /\ s = t.
Proof.
  intros Ha Hb E; assert (Hc : cut sep (a ++ String sep s) = Some (b, t)) by (apply cut_some; split; [exact E|done]).
  assert (Hc' : cut sep (a ++ String sep s) = Some (a, s)) by (by apply cut_some); rewrite Hc in Hc'; by injection Hc' as -> ->.
Qed.

Lemma b64_string_inj a b : bytes_ok a -> bytes_ok b -> b64_string a = b64_string b -> a = b.
Proof. intros Ha Hb E; assert (Hd := b64_decode_string a Ha); rewrite E, b64_decode_string in Hd by done; by injection Hd. Qed.

Section JwkKeys.
Context `{Signatures} `{!CoseKeys} `{!CborLib} `{!MdocCbor} `{!Curves} `{!JwkText}.

(** A key a JWK can have: a point of P-256 as its curve writes it, or an Ed25519 key that is not of small order. *)
Definition jwk_key (pub : PublicKey ec) : Prop :=
  match pub with
  | ECDSAKey _ k => exists x y, ec_Bytes k = Some (4 :: x ++ y) /\ blen x = 32 /\ blen y = 32 /\ bytes_ok (x ++ y) /\
      ParseUncompressedPublicKey P256 (4 :: x ++ y) = Some k
  | Ed25519Key k => blen k = 32 /\ bytes_ok k /\ IsSmallOrderEd25519 k = false
  | OtherKey => False
  end.

(** The text a thumbprint is the digest of. *)
Definition key_text (j : JWK) : string :=
  if String.eqb (j_Kty j) "EC"
  then members_text [("crv", quote ++ "P-256" ++ quote); ("kty", quote ++ "EC" ++ quote); ("x", quote ++ j_X j ++ quote); ("y", quote ++ j_Y j ++ quote)]%string
  else members_text [("crv", quote ++ "Ed25519" ++ quote); ("kty", quote ++ "OKP" ++ quote); ("x", quote ++ j_X j ++ quote)]%string.

Lemma Marshal_ec k x y : ec_Bytes k = Some (4 :: x ++ y) -> blen x = 32 -> blen y = 32 -> Marshal (ECDSAKey true k) = Ok (ec_jwk x y).
Proof using.
  intros Hb Hx Hy; unfold Marshal; cbn [negb]; rewrite Hb, blen_cons, blen_app, Hx, Hy; change ((1 + (32 + 32) - 1) / 2) with 32.
  unfold slice; change (Z.to_nat 1) with 1%nat; change (Z.to_nat (1 + 32)) with 33%nat; change (Z.to_nat (1 + 32 - 1)) with 32%nat.
  change (Z.to_nat (1 + (32 + 32) - (1 + 32))) with 32%nat; cbn [drop]; unfold blen in Hx, Hy.
  rewrite drop_0, take_app_length', drop_app_length' by lia; by rewrite take_ge by lia.
Qed.

Lemma Marshal_keys pub j : jwk_key pub -> Marshal pub = Ok j ->
  (exists k x y, pub = ECDSAKey true k /\ j = ec_jwk x y /\ blen x = 32 /\ blen y = 32 /\ bytes_ok x /\ bytes_ok y /\
     ParseUncompressedPublicKey P256 (4 :: x ++ y) = Some k) \/
  exists k, pub = Ed25519Key k /\ j = okp_jwk k /\ blen k = 32 /\ bytes_ok k /\ IsSmallOrderEd25519 k = false.
Proof using.
  destruct pub as [[] k|k|]; cbn [jwk_key]; [intros (x & y & Hb & Hx & Hy & Hok & Hp)|done|intros (Hl & Hok & Hs)|done]; intros Hm.
  - rewrite (Marshal_ec _ _ _ Hb Hx Hy) in Hm; injection Hm as <-; left; exists k, x, y; apply Forall_app in Hok as [? ?]; by split_and!.
  - injection Hm as <-; right; by exists k.
Qed.

Lemma Marshal_PublicKey pub j : jwk_key pub -> Marshal pub = Ok j -> JWK_PublicKey j = Ok pub.
Proof using.
  intros Hk Hm; destruct (Marshal_keys pub j Hk Hm) as [(k & x & y & -> & -> & Hx & Hy & Hxo & Hyo & Hp)|(k & -> & -> & Hl & Ho & Hs)];
    unfold JWK_PublicKey; cbn [ec_jwk okp_jwk j_Kty j_Crv j_X j_Y String.eqb Ascii.eqb Bool.eqb negb]; rewrite !b64_decode_string by done; cbn [res_map_err res_bind].
  - by rewrite Hx, Hy, Hp.
  - by rewrite Hl, Hs.
Qed.

Lemma Marshal_thumbprint pub j : (forall b, bytes_ok b -> Quote (b64_string b) = (quote ++ b64_string b ++ quote)%string) ->
  jwk_key pub -> Marshal pub = Ok j -> JWK_Thumbprint j = Ok (b64_string (Sum256 (string_bytes (key_text j)))).
Proof using.
  intros Hq Hk Hm; unfold JWK_Thumbprint, canonical; rewrite (Marshal_PublicKey pub j Hk Hm), Hm.
  destruct (Marshal_keys pub j Hk Hm) as [(k & x & y & -> & -> & Hx & Hy & Hxo & Hyo & Hp)|(k & -> & -> & Hl & Ho & Hs)];
    unfold key_text; cbn [ec_jwk okp_jwk j_Kty j_Crv j_X j_Y String.eqb Ascii.eqb Bool.eqb negb res_bind]; by rewrite !Hq.
Qed.

Lemma absent_quote b : absent (Ascii.ascii_of_nat 34) (b64_string b) = true.
Proof using. apply absent_b64; intros c Hc; change (code _) with 34; intros ->; discriminate. Qed.

Lemma key_text_inj pub pub' j j' : jwk_key pub -> jwk_key pub' -> Marshal pub = Ok j -> Marshal pub' = Ok j' -> key_text j = key_text j' -> pub = pub'.
Proof using.
  intros Hk Hk' Hm Hm' E; assert (Hj : j = j'); [|subst j'; apply Marshal_PublicKey in Hm, Hm'; congruence].
  destruct (Marshal_keys pub j Hk Hm) as [(k & x & y & -> & -> & _)|(k & -> & -> & _)],
    (Marshal_keys pub' j' Hk' Hm') as [(k' & x' & y' & -> & -> & _)|(k' & -> & -> & _)]; clear - E;
    unfold key_text, members_text, quote in E; cbn -[b64_string] in E; try discriminate E; simplify_eq E.
  - clear E; intros E; rewrite <- !append_assoc in E; cbn -[b64_string] in E; apply quoted_inj in E as [Ex E]; try apply absent_quote; cbn -[b64_string] in E.
    injection E as E; apply quoted_inj in E as [Ey _]; try apply absent_quote; unfold ec_jwk; by rewrite Ex, Ey.
  - clear E; intros E; rewrite <- !append_assoc in E; cbn -[b64_string] in E; apply quoted_inj in E as [Ex _]; try apply absent_quote; unfold okp_jwk; by rewrite Ex.
Qed.

Lemma PublicKey_jwk_key k pub : (forall raw p, ParseUncompressedPublicKey P256 raw = Some p -> ec_Bytes p = Some raw) ->
  JWK_PublicKey k = Ok pub -> jwk_key pub.
Proof using.
  intros Hp; unfold JWK_PublicKey; destruct (String.eqb _ _); [destruct (negb _); [done|]|destruct (String.eqb _ _); [destruct (negb _); [done|]|done]].
  - destruct (b64_decode (j_X k)) as [x|] eqn:Ex; cbn [res_map_err res_bind]; [|done]; destruct (b64_decode (j_Y k)) as [y|] eqn:Ey; cbn [res_map_err res_bind]; [|done].
    destruct (Z.eqb_spec (blen x) 32), (Z.eqb_spec (blen y) 32); cbn [negb orb]; try done.
    destruct (ParseUncompressedPublicKey _ _) as [p|] eqn:E; [|done]; intros [= <-]; exists x, y; apply b64_decode_canonical in Ex as [_ ?], Ey as [_ ?].
    split_and!; [by apply Hp|done|done|by apply Forall_app|done].
  - destruct (b64_decode (j_X k)) as [x|] eqn:Ex; cbn [res_map_err res_bind]; [|done]; destruct (Z.eqb_spec (blen x) 32); cbn [negb]; [|done].
    destruct (IsSmallOrderEd25519 x) eqn:Es; [done|]; intros [= <-]; apply b64_decode_canonical in Ex as [_ ?]; by split_and!.
Qed.

Lemma jwk_eqb_spec a b : jwk_eqb a b = true <-> a = b.
Proof using. unfold jwk_eqb; rewrite !andb_true_iff, !String.eqb_eq; destruct a, b; cbn; split; [by intros [[[[-> ->] ->] ->] ->]|by intros [=]]. Qed.
End JwkKeys.

(** A JWK names one key: the JWK Marshal gives of a key parses back to that key and to no other's; its thumbprint, from the JWK or from the key, is the digest of one text, which no other key's JWK has; and Matches accepts exactly the public JWKs that parse to the key. *)
Theorem jwk_names_key `{Signatures} `{!CoseKeys} `{!CborLib} `{!MdocCbor} `{!Curves} `{!JwkText} pub j :
  (forall b, bytes_ok b -> Quote (b64_string b) = (quote ++ b64_string b ++ quote)%string) ->
  (forall raw p, ParseUncompressedPublicKey P256 raw = Some p -> ec_Bytes p = Some raw) ->
  (forall b, bytes_ok b -> bytes_ok (Sum256 b)) ->
  jwk_key pub -> Marshal pub = Ok j ->
  JWK_PublicKey j = Ok pub /\
  JWK_Thumbprint j = Ok (b64_string (Sum256 (string_bytes (key_text j)))) /\ Thumbprint pub = Ok (Sum256 (string_bytes (key_text j))) /\
  (forall pub' j', jwk_key pub' -> Marshal pub' = Ok j' -> key_text j' = key_text j -> pub' = pub) /\
  (forall raw k, unmarshal_jwk raw = Some k -> Matches raw pub = Ok true <-> j_D k = ""%string /\ JWK_PublicKey k = Ok pub).
Proof.
  intros Hq Hp Hs Hk Hm; pose proof (Marshal_thumbprint pub j Hq Hk Hm) as Ht; split_and!.
  - by apply Marshal_PublicKey.
  - done.
  - unfold Thumbprint; rewrite Hm; cbn [res_bind]; rewrite Ht; cbn [res_bind]; rewrite b64_decode_string; [done|apply Hs, string_bytes_ok].
  - intros pub' j' Hk' Hm' E; by eapply key_text_inj.
  - intros raw k Hraw; unfold Matches, unmarshal_public; rewrite Hm, Hraw; cbn [res_bind]; destruct (String.eqb_spec (j_D k) ""); cbn [negb res_bind]; [|naive_solver].
    destruct (JWK_PublicKey k) as [parsed|] eqn:E; [|naive_solver]; pose proof (PublicKey_jwk_key k parsed Hp E) as Hkp; split.
    + destruct (Marshal parsed) as [want|] eqn:Ew; [|done]; intros [= ->%jwk_eqb_spec]; split; [done|]; apply Marshal_PublicKey in Ew, Hm; congruence.
    + intros [_ [= ->]]; rewrite Hm; f_equal; by apply jwk_eqb_spec.
Qed.

(** ** A holder's key *)

Module JwkExample.
Import CoseSigned MdocExample.

Definition holder : PublicKey ec := Ed25519Key key.
Definition holder_jwk : JWK := okp_jwk key.

#[export] Instance text : JwkText := {|
  unmarshal_jwk raw := if bool_decide (raw = [1]) then Some holder_jwk else None; marshal_any _ := Some [1];
  Quote s := (quote ++ s ++ quote)%string |}.
End JwkExample.

Section Example.
Import CoseSigned MdocExample JwkExample.

Lemma jwk_names_key_witness : Marshal holder = Ok holder_jwk /\ Matches [1] holder = Ok true /\
  JWK_PublicKey holder_jwk = Ok holder /\
  JWK_Thumbprint holder_jwk = Ok (b64_string (Sum256 (string_bytes (key_text holder_jwk)))) /\
  Thumbprint holder = Ok (Sum256 (string_bytes (key_text holder_jwk))) /\
  (forall pub' j', jwk_key pub' -> Marshal pub' = Ok j' -> key_text j' = key_text holder_jwk -> pub' = holder) /\
  (forall raw k, unmarshal_jwk raw = Some k -> Matches raw holder = Ok true <-> j_D k = ""%string /\ JWK_PublicKey k = Ok holder).
Proof.
  split; [done|]; split; [vm_compute; reflexivity|].
  apply (jwk_names_key holder holder_jwk); [done|done|done| |done].
  split_and!; [done| |done]; unfold key; by repeat constructor.
Defined.
End Example.
