(* ===== verification/SdJwt.v ===== *)
(** * Selective disclosure: [credential/sdjwtvc]

    Disclosures and their digests (disclosure.go, hash.go), sealing a tree of
    claims (markers.go), and resolving the disclosures a presentation carries
    (resolve.go). *)
From S2P Require Import Prelude B64Url Json DcqlValues.
From stdpp Require Import sorting.
#[local] Open Scope Z_scope.

(** ** Disclosures *)

Record Disclosure : Type := {
  Salt : string;
  Name : string;
  Value : goval;
  encoded : string;                    (* Encode's result, "" until it is made *)
  named : bool
}.

Definition IsArrayElement (d : Disclosure) : bool := negb (named d) && String.eqb (Name d) "".

Inductive sd_error : Type :=
| ErrUnsupportedHash (alg : string)
| ErrAlgNotString
| ErrEncode
| ErrRand
| ErrReserved (name : string)
| ErrMisplacedSD
| ErrMisplacedSDElement
| ErrMarkerInside
| ErrDecoys (n : Z)
| ErrDecoysNotObject
| ErrNestedDecoys
| ErrSameDigest (digest : string)
| ErrTooDeep
| ErrNestedAlg
| ErrSDNotArray
| ErrSDNotString
| ErrDigestTwice (digest : string)
| ErrElementInObject (digest : string)
| ErrClaimExists (name : string)
| ErrUnused (n : Z)
| ErrRefNotString
| ErrPropertyInArray (digest : string)
| ErrNotAnObject.

Definition SHA256 : string := "sha-256".
Definition SHA384 : string := "sha-384".
Definition SHA512 : string := "sha-512".
Definition DefaultHashAlg : string := SHA256.

Definition isReservedName (name : string) : bool :=
  String.eqb name "_sd" || String.eqb name "..." || String.eqb name "_sd_alg".

Definition PayloadHashAlg (payload : list (string * goval)) (fallback : string) : res sd_error string :=
  match member "_sd_alg" payload with
  | None => Ok fallback
  | Some (VString declared) => if String.eqb declared "" then Err ErrAlgNotString else Ok declared
  | Some _ => Err ErrAlgNotString
  end.

(** crypto/sha256 and crypto/sha512, and encoding/json's encoding of an array. *)
Class Codec : Type := {
  sum : string -> string -> bytes;     (* of a supported algorithm *)
  json_array : list goval -> option bytes
}.

Section Digests.
Context `{Codec}.

Definition hashString (alg s : string) : res sd_error string :=
  if String.eqb alg SHA256 || String.eqb alg SHA384 || String.eqb alg SHA512
  then Ok (bytes_string (EncodeToString (sum alg s)))
  else Err (ErrUnsupportedHash alg).

Definition encode (d : Disclosure) : res sd_error string :=
  let arr := if IsArrayElement d then [VString (Salt d); Value d] else [VString (Salt d); VString (Name d); Value d] in
  match json_array arr with
  | None => Err ErrEncode
  | Some raw => Ok (bytes_string (EncodeToString raw))
  end.

Definition Encode (d : Disclosure) : res sd_error string :=
  if negb (String.eqb (encoded d) "") then Ok (encoded d) else encode d.

Definition Digest (alg : string) (d : Disclosure) : res sd_error string :=
  let? s := Encode d in hashString alg s.

Definition encodeDisclosure (d : Disclosure) : res sd_error Disclosure :=
  let? s := encode d in
  Ok {| Salt := Salt d; Name := Name d; Value := Value d; encoded := s; named := named d |}.

(** ** Sealing

    A claims tree as Issue takes it.  A value the code looks into by
    reflection is what reflection finds: another map or slice type, or a value
    with an encoding of its own. *)
Inductive claim : Type :=
| Scalar (v : goval)                   (* null, a boolean, number or string *)
| Object (m : list (string * claim))   (* map[string]any *)
| Array (l : list claim)               (* []any *)
| SD (c : claim)
| SDElement (c : claim)
| WithDecoys (c : claim) (n : Z)
| Typed (c : claim)                    (* another map or slice, as asGeneric gives it *)
| Encoded (marker : bool) (json : option claim).  (* whether a marker is inside; what it encodes to *)

(** What randomness and the caller give: the n-th salt drawn, and the count
    IssueOptions.NestedDecoys answers its n-th call with. *)
Record supply : Type := {
  salts : nat -> option string;
  nested_decoys : option (nat -> option Z)
}.

Record drawn : Type := { salts_drawn : nat; decoys_asked : nat }.

Definition MaxDecoys : Z := 1000.

Context (sup : supply) (alg : string).

(** Sealing draws from the supply: a state monad over results. *)
Definition sealing (A : Type) : Type := drawn -> res sd_error (A * drawn).
Definition seal_ret {A} (a : A) : sealing A := fun st => Ok (a, st).
Definition seal_err {A} (e : sd_error) : sealing A := fun _ => Err e.
Definition seal_of {A} (m : res sd_error A) : sealing A := fun st => let? a := m in Ok (a, st).
Definition seal_bind {A B} (m : sealing A) (k : A -> sealing B) : sealing B :=
  fun st => let? (a, st) := m st in k a st.

Definition newSalt : sealing string := fun st =>
  match salts sup (salts_drawn st) with
  | None => Err ErrRand
  | Some s => Ok (s, {| salts_drawn := S (salts_drawn st); decoys_asked := decoys_asked st |})
  end.

Definition NewObjectDisclosure (name : string) (value : goval) : sealing Disclosure :=
  if isReservedName name then seal_err (ErrReserved name)
  else seal_bind newSalt (fun salt =>
    seal_of (encodeDisclosure {| Salt := salt; Name := name; Value := value; encoded := ""; named := true |})).

Definition NewArrayElementDisclosure (value : goval) : sealing Disclosure :=
  seal_bind newSalt (fun salt =>
    seal_of (encodeDisclosure {| Salt := salt; Name := ""; Value := value; encoded := ""; named := false |})).

Fixpoint newDecoyDigests (n : nat) : sealing (list string) :=
  match n with
  | O => seal_ret []
  | S n => seal_bind newSalt (fun salt => seal_bind (seal_of (hashString alg salt)) (fun digest =>
      seal_bind (newDecoyDigests n) (fun out => seal_ret (digest :: out))))
  end.

(** The decoys IssueOptions.NestedDecoys adds to a nested _sd array. *)
Definition ask_decoys (nested : bool) (digests : list string) (decoys : Z) : sealing Z := fun st =>
  match nested_decoys sup with
  | Some ask =>
      if nested && ((0 <? blen digests) || (0 <? decoys)) then
        match ask (decoys_asked st) with
        | None => Err ErrNestedDecoys
        | Some n =>
            if (n <? 0) || (MaxDecoys <? n) then Err (ErrDecoys n)
            else Ok (decoys + n, {| salts_drawn := salts_drawn st; decoys_asked := S (decoys_asked st) |})
        end
      else Ok (decoys, st)
  | None => Ok (decoys, st)
  end.

(** The object's [_sd] array, and the object. *)
Definition finish_object (nested : bool) (decoys : Z) (out : list (string * goval)) (digests : list string)
    (disclosures : list Disclosure) : sealing (goval * list Disclosure) :=
  seal_bind (ask_decoys nested digests decoys) (fun decoys =>
  seal_bind (newDecoyDigests (Z.to_nat decoys)) (fun decoyDigests =>
    let digests := digests ++ decoyDigests in
    seal_ret (VObject (if 0 <? blen digests
      then set_member "_sd" (VArray (VString <$> merge_sort string_le digests)) out else out), disclosures))).

Section Loops.
Context (rec : claim -> sealing (goval * list Disclosure)).

Fixpoint seal_members (m : list (string * claim)) (out : list (string * goval)) (digests : list string)
    (disclosures : list Disclosure) : sealing (list (string * goval) * list string * list Disclosure) :=
  match m with
  | [] => seal_ret (out, digests, disclosures)
  | (k, v) :: m =>
      if isReservedName k then seal_err (ErrReserved k)
      else match v with
      | SD c =>
          seal_bind (rec c) (fun '(sealedInner, innerDs) =>
          seal_bind (NewObjectDisclosure k sealedInner) (fun d =>
          seal_bind (seal_of (Digest alg d)) (fun digest =>
            seal_members m out (digests ++ [digest]) (disclosures ++ d :: innerDs))))
      | v =>
          seal_bind (rec v) (fun '(sealed, ds) =>
            seal_members m (set_member k sealed out) digests (disclosures ++ ds))
      end
  end.

Definition sealObject (m : list (string * claim)) (decoys : Z) (nested : bool) : sealing (goval * list Disclosure) :=
  seal_bind (seal_members m [] [] []) (fun '(out, digests, disclosures) =>
    finish_object nested decoys out digests disclosures).

Fixpoint seal_elements (arr : list claim) (out : list goval) (disclosures : list Disclosure)
    : sealing (list goval * list Disclosure) :=
  match arr with
  | [] => seal_ret (out, disclosures)
  | SDElement c :: arr =>
      seal_bind (rec c) (fun '(sealedInner, innerDs) =>
      seal_bind (NewArrayElementDisclosure sealedInner) (fun d =>
      seal_bind (seal_of (Digest alg d)) (fun digest =>
        seal_elements arr (out ++ [VObject [("...", VString digest)]]) (disclosures ++ d :: innerDs))))
  | el :: arr =>
      seal_bind (rec el) (fun '(sealed, ds) => seal_elements arr (out ++ [sealed]) (disclosures ++ ds))
  end.

End Loops.

Fixpoint seal (c : claim) : sealing (goval * list Disclosure) :=
  match c with
  | Scalar v => seal_ret (v, [])
  | Object m => sealObject seal m 0 true
  | Array l => seal_bind (seal_elements seal l [] []) (fun '(out, ds) => seal_ret (VArray out, ds))
  | WithDecoys w n =>
      if (n <? 0) || (MaxDecoys <? n) then seal_err (ErrDecoys n)
      else match w with
      | Object m => sealObject seal m n true
      | Typed (Object m) => sealObject seal m n true
      | _ => seal_err ErrDecoysNotObject
      end
  | SD _ => seal_err ErrMisplacedSD
  | SDElement _ => seal_err ErrMisplacedSDElement
  | Typed c => seal c
  | Encoded true _ => seal_err ErrMarkerInside
  | Encoded false None => seal_err ErrEncode
  | Encoded false (Some c) => seal c
  end.

(** addDecoys, of the top level's payload. *)
Definition sd_strings (sd : option goval) : list string :=
  match sd with
  | Some (VArray l) => omap (fun v => match v with VString s => Some s | _ => None end) l
  | _ => []
  end.

Definition addDecoys (payload : list (string * goval)) (n : Z) : sealing (list (string * goval)) :=
  if (n <? 0) || (MaxDecoys <? n) then seal_err (ErrDecoys n)
  else seal_bind (newDecoyDigests (Z.to_nat n)) (fun decoys =>
    seal_ret (set_member "_sd" (VArray (VString <$> merge_sort string_le (sd_strings (member "_sd" payload) ++ decoys))) payload)).

End Digests.

(** ** Resolving

    The recursion goes one level of nesting at a time, so the levels left, of
    [maxDepth] and the top one, bound it: none left is the error. *)

Record resolving : Type := { used : gset string; seen : gset string }.

Definition see (digest : string) (st : resolving) : resolving :=
  {| used := used st; seen := {[digest]} ∪ seen st |}.
Definition use (digest : string) (st : resolving) : resolving :=
  {| used := {[digest]} ∪ used st; seen := seen st |}.

Definition MaxResolveDepth : Z := 32.

Section Resolve.
Context (byDigest : gmap string Disclosure).

Section Level.
Context (rec : goval -> resolving -> res sd_error (goval * resolving)).

(** resolveMap's own members. *)
Fixpoint resolve_members (top : bool) (m out : list (string * goval)) (st : resolving)
    : res sd_error (list (string * goval) * resolving) :=
  match m with
  | [] => Ok (out, st)
  | (k, v) :: m =>
      if String.eqb k "_sd_alg" && negb top then Err ErrNestedAlg
      else if String.eqb k "_sd" || String.eqb k "_sd_alg" then resolve_members top m out st
      else
        let? (resolved, st) := rec v st in
        resolve_members top m (set_member k resolved out) st
  end.

Fixpoint resolve_digests (sdList : list goval) (out : list (string * goval)) (st : resolving)
    : res sd_error (list (string * goval) * resolving) :=
  match sdList with
  | [] => Ok (out, st)
  | VString digest :: sdList =>
      if bool_decide (digest ∈ seen st) then Err (ErrDigestTwice digest)
      else
        let st := see digest st in
        match byDigest !! digest with
        | None => resolve_digests sdList out st
        | Some d =>
            if IsArrayElement d then Err (ErrElementInObject digest)
            else match member (Name d) out with
            | Some _ => Err (ErrClaimExists (Name d))
            | None =>
                let? (resolvedValue, st) := rec (Value d) (use digest st) in
                resolve_digests sdList (set_member (Name d) resolvedValue out) st
            end
        end
  | _ :: _ => Err ErrSDNotString
  end.

Definition resolveSDDigests (m out : list (string * goval)) (st : resolving) : res sd_error (list (string * goval) * resolving) :=
  match member "_sd" m with
  | None => Ok (out, st)
  | Some (VArray sdList) => resolve_digests sdList out st
  | Some _ => Err ErrSDNotArray
  end.

Definition resolveMap (top : bool) (m : list (string * goval)) (st : resolving) : res sd_error (goval * resolving) :=
  let? (out, st) := resolve_members top m [] st in
  let? (out, st) := resolveSDDigests m out st in
  Ok (VObject out, st).

(** [{"...": v}], the form of a reference. *)
Definition disclosure_ref (el : goval) : option goval :=
  match el with
  | VObject [(k, v)] => if String.eqb k "..." then Some v else None
  | _ => None
  end.

Fixpoint resolve_elements (arr out : list goval) (st : resolving) : res sd_error (list goval * resolving) :=
  match arr with
  | [] => Ok (out, st)
  | el :: arr =>
      match disclosure_ref el with
      | Some (VString digest) =>
          if bool_decide (digest ∈ seen st) then Err (ErrDigestTwice digest)
          else
            let st := see digest st in
            match byDigest !! digest with
            | None => resolve_elements arr out st
            | Some d =>
                if negb (IsArrayElement d) then Err (ErrPropertyInArray digest)
                else
                  let? (resolvedValue, st) := rec (Value d) (use digest st) in
                  resolve_elements arr (out ++ [resolvedValue]) st
            end
      | Some _ => Err ErrRefNotString
      | None =>
          let? (resolved, st) := rec el st in
          resolve_elements arr (out ++ [resolved]) st
      end
  end.

Definition resolveArray (arr : list goval) (st : resolving) : res sd_error (goval * resolving) :=
  let? (out, st) := resolve_elements arr [] st in
  Ok (VArray out, st).

End Level.

Fixpoint resolveValue (levels : nat) (top : bool) (v : goval) (st : resolving) : res sd_error (goval * resolving) :=
  match levels with
  | O => Err ErrTooDeep
  | S levels =>
      match v with
      | VObject m => resolveMap (resolveValue levels false) top m st
      | VArray l => resolveArray (resolveValue levels false) l st
      | v => Ok (v, st)
      end
  end.

End Resolve.

Fixpoint by_digest `{Codec} (alg : string) (disclosures : list Disclosure) (byDigest : gmap string Disclosure)
    : res sd_error (gmap string Disclosure) :=
  match disclosures with
  | [] => Ok byDigest
  | d :: disclosures =>
      let? digest := Digest alg d in
      match byDigest !! digest with
      | Some _ => Err (ErrSameDigest digest)
      | None => by_digest alg disclosures (<[digest := d]> byDigest)
      end
  end.

Definition ResolveDisclosuresMax `{Codec} (payload : list (string * goval)) (alg : string) (disclosures : list Disclosure)
    (maxDepth : Z) : res sd_error (list (string * goval)) :=
  let? byDigest := by_digest alg disclosures ∅ in
  let? (resolved, st) := resolveValue byDigest (Z.to_nat (maxDepth + 1)) true (VObject payload) {| used := ∅; seen := ∅ |} in
  match resolved with
  | VObject resolvedMap =>
      if negb (Z.of_nat (size (used st)) =? blen disclosures) then Err (ErrUnused (blen disclosures - Z.of_nat (size (used st))))
      else Ok resolvedMap
  | _ => Err ErrNotAnObject
  end.

Definition ResolveDisclosures `{Codec} (payload : list (string * goval)) (alg : string) (disclosures : list Disclosure)
    : res sd_error (list (string * goval)) :=
  ResolveDisclosuresMax payload alg disclosures MaxResolveDepth.
