(* ===== verification/SdTree.v ===== *)
(** * What an SD-JWT discloses

    A tree of claims, each member and element either in plain sight or behind
    a disclosure: what sealing makes, and what resolving a choice of its
    disclosures must give back (RFC 9901 §7.1).  [resolveValue] refines it. *)
From S2P Require Import Prelude B64Url Json DcqlValues SdJwt.
#[local] Open Scope Z_scope.

(** ** Trees *)

(** A disclosure with its digest. *)
Abbreviation label := (Disclosure * string)%type (only parsing).

Inductive tree : Type :=
| Leaf (v : goval)
| Obj (ms : list (string * (option label * tree))) (decoys : list string)
| Arr (ls : list (option label * tree)).

Section TreeInd.
Context (P : tree -> Prop).
Context (HL : forall v, P (Leaf v)).
Context (HO : forall ms decoys, Forall (fun m => P m.2.2) ms -> P (Obj ms decoys)).
Context (HA : forall ls, Forall (fun e => P e.2) ls -> P (Arr ls)).

Fixpoint tree_nested_ind (T : tree) : P T :=
  match T with
  | Leaf v => HL v
  | Obj ms decoys =>
      HO ms decoys ((fix go ms : Forall (fun m => P m.2.2) ms :=
        match ms with
        | [] => Forall_nil_2 _
        | m :: ms => Forall_cons_2 _ m ms (tree_nested_ind m.2.2) (go ms)
        end) ms)
  | Arr ls =>
      HA ls ((fix go ls : Forall (fun e => P e.2) ls :=
        match ls with
        | [] => Forall_nil_2 _
        | e :: ls => Forall_cons_2 _ e ls (tree_nested_ind e.2) (go ls)
        end) ls)
  end.
End TreeInd.

Section Choice.
(** Which digests' disclosures are presented. *)
Context (chosen : string -> bool).

Definition shows (l : option label) : bool := match l with None => true | Some (_, s) => chosen s end.

(** The claims the choice reveals. *)
Fixpoint reveal (T : tree) : goval :=
  match T with
  | Leaf v => v
  | Obj ms _ => VObject (flat_map (fun m => let '(k, (l, t)) := m in if shows l then [(k, reveal t)] else []) ms)
  | Arr ls => VArray (flat_map (fun e => let '(l, t) := e in if shows l then [reveal t] else []) ls)
  end.

(** The digests resolving meets, each with the disclosure it finds. *)
Definition met_label (l : option label) : list (string * option Disclosure) :=
  match l with None => [] | Some (d, s) => [(s, if chosen s then Some d else None)] end.

Fixpoint met (T : tree) : list (string * option Disclosure) :=
  match T with
  | Leaf _ => []
  | Obj ms decoys =>
      flat_map (fun m => let '(_, (l, t)) := m in met_label l ++ (if shows l then met t else [])) ms ++
      ((fun s => (s, None)) <$> decoys)
  | Arr ls => flat_map (fun e => let '(l, t) := e in met_label l ++ (if shows l then met t else [])) ls
  end.

(** The disclosures presented: the chosen ones that a plain or a chosen value
    refers to. *)
Definition shown (T : tree) : list Disclosure := omap snd (met T).

End Choice.

(** Every digest of the tree. *)
Definition digests (T : tree) : list string := (met (fun _ => true) T).*1.

(** ** What carries a tree *)

Definition plain (ms : list (string * (option label * tree))) : list (string * tree) :=
  flat_map (fun m => let '(k, (l, t)) := m in match l with None => [(k, t)] | Some _ => [] end) ms.

Definition hidden (ms : list (string * (option label * tree))) : list (string * (label * tree)) :=
  flat_map (fun m => let '(k, (l, t)) := m in match l with None => [] | Some l => [(k, (l, t))] end) ms.

Definition structural (k : string) : bool := String.eqb k "_sd" || String.eqb k "_sd_alg".

Definition visible (o : list (string * goval)) : list (string * goval) := filter (fun p => structural p.1 = false) o.

(** The digests of an object: none, or those of its [_sd] array. *)
Definition sd_array (o : list (string * goval)) (l : list string) : Prop :=
  match member "_sd" o with None => l = [] | Some v => v = VArray (VString <$> l) end.

Section Carries.
Context `{Codec} (alg : string).

(** The payload value is the tree, of at most [n] levels: the plain members
    and elements in their order, the digests of the others in any order among
    the decoys. *)
Definition carries_object (rec : tree -> goval -> Prop) (top : bool) (ms : list (string * (option label * tree)))
    (decoys : list string) (o : list (string * goval)) : Prop :=
  NoDup ms.*1 /\ Forall (fun k => isReservedName k = false) ms.*1 /\
  NoDup o.*1 /\ (top = false -> "_sd_alg" ∉ o.*1) /\
  Forall2 (fun p q => p.1 = q.1 /\ rec p.2 q.2) (plain ms) (visible o) /\
  (exists l, sd_array o l /\ l ≡ₚ ((fun m => m.2.1.2) <$> hidden ms) ++ decoys) /\
  Forall (fun m => Name m.2.1.1 = m.1 /\ IsArrayElement m.2.1.1 = false /\
    Digest alg m.2.1.1 = Ok m.2.1.2 /\ rec m.2.2 (Value m.2.1.1)) (hidden ms).

Definition carries_element (rec : tree -> goval -> Prop) (e : option label * tree) (v : goval) : Prop :=
  match e with
  | (None, t) => disclosure_ref v = None /\ rec t v
  | (Some (d, s), t) =>
      v = VObject [("...", VString s)] /\ IsArrayElement d = true /\ Digest alg d = Ok s /\ rec t (Value d)
  end.

Fixpoint carries (n : nat) (top : bool) (T : tree) (v : goval) : Prop :=
  match n with
  | O => False
  | S n =>
      match T, v with
      | Leaf w, (VObject _ | VArray _) => False
      | Leaf w, v => w = v
      | Obj ms decoys, VObject o => carries_object (carries n false) top ms decoys o
      | Arr ls, VArray arr => Forall2 (carries_element (carries n false)) ls arr
      | _, _ => False
      end
  end.

End Carries.

(** ** Resolving refines it *)

Section Refine.
Context `{Codec} (alg : string) (byDigest : gmap string Disclosure) (chosen : string -> bool).

(** The disclosures looked up are those presented. *)
Definition found (l : list (string * option Disclosure)) : Prop := Forall (fun m => byDigest !! m.1 = m.2) l.

(** What a visit to these digests does to the state. *)
Definition visited (l : list (string * option Disclosure)) (st : resolving) : resolving :=
  {| used := list_to_set (omap (fun m => match m.2 with Some _ => Some m.1 | None => None end) l) ∪ used st;
     seen := list_to_set l.*1 ∪ seen st |}.

Definition unseen (l : list (string * option Disclosure)) (st : resolving) : Prop :=
  NoDup l.*1 /\ forall s, s ∈ l.*1 -> s ∉ seen st.

Lemma visited_nil st : visited [] st = st.
Proof using. unfold visited; destruct st as [u s]; cbn; by rewrite !(left_id_L ∅ (∪)). Qed.

Lemma visited_app l k st : visited (l ++ k) st = visited k (visited l st).
Proof using.
  unfold visited; cbn [used seen]; rewrite omap_app, fmap_app, !list_to_set_app_L; f_equal;
    by rewrite (assoc_L (∪)), (comm_L (∪) (list_to_set _) (list_to_set _)).
Qed.

Lemma visited_perm l k st : l ≡ₚ k -> visited l st = visited k st.
Proof using. intros Hp; unfold visited; f_equal; f_equal; apply list_to_set_perm_L; by rewrite Hp. Qed.

Lemma visited_see s st : visited [(s, None)] st = see s st.
Proof using. unfold visited, see; cbn; by rewrite !(left_id_L ∅ (∪)), (right_id_L ∅ (∪)). Qed.

Lemma visited_use s d st : visited [(s, Some d)] st = use s (see s st).
Proof using. unfold visited, see, use; cbn; by rewrite !(right_id_L ∅ (∪)). Qed.

Lemma unseen_app l k st : unseen (l ++ k) st -> unseen l st /\ unseen k (visited l st).
Proof using.
  unfold unseen; rewrite fmap_app, NoDup_app; intros [(Hl & Hlk & Hk) Hs]; split; split; try done.
  - intros s Hin; apply Hs, elem_of_app; by left.
  - intros s Hin; cbn [visited seen]; rewrite elem_of_union, elem_of_list_to_set; intros [Hx|Hx]; [by apply (Hlk s)|].
    apply (Hs s); [apply elem_of_app; by right|done].
Qed.

Lemma unseen_perm l k st : l ≡ₚ k -> unseen l st -> unseen k st.
Proof using. intros Hp; unfold unseen; by setoid_rewrite Hp. Qed.

Lemma unseen_head s o l st : unseen ((s, o) :: l) st -> s ∉ seen st.
Proof using. intros [_ H1]; apply H1; by left. Qed.

(** A routine that resolves one value, right for the trees of a level. *)
Definition resolves (rec : goval -> resolving -> res sd_error (goval * resolving)) (T : tree) (v : goval) : Prop :=
  forall st, unseen (met chosen T) st -> found (met chosen T) ->
    exists w, rec v st = Ok (w, visited (met chosen T) st) /\ same w (reveal chosen T).

Definition revealed (ts : list (string * tree)) : list (string * goval) :=
  (fun p => (p.1, reveal chosen p.2)) <$> ts.

Definition same_members (o o' : list (string * goval)) : Prop := Forall2 (fun p q => p.1 = q.1 /\ same p.2 q.2) o o'.

Lemma visible_cons k v m : visible ((k, v) :: m) = if structural k then visible m else (k, v) :: visible m.
Proof using. unfold visible; rewrite filter_cons; cbn [fst]; by destruct (structural k). Qed.

(** The members in plain sight. *)
Lemma resolve_members_ok rec top m : forall ts out st,
  NoDup m.*1 -> (top = false -> "_sd_alg" ∉ m.*1) -> (forall k, k ∈ m.*1 -> k ∉ out.*1) ->
  Forall2 (fun p q => p.1 = q.1 /\ resolves rec p.2 q.2) ts (visible m) ->
  unseen (ts ≫= (met chosen ∘ snd)) st -> found (ts ≫= (met chosen ∘ snd)) ->
  exists news, resolve_members rec top m out st = Ok (out ++ news, visited (ts ≫= (met chosen ∘ snd)) st) /\
    same_members news (revealed ts).
Proof using.
  induction m as [|[k v] m IH]; intros ts out st Hnd Htop Hout Hts Hun Hf.
  - apply Forall2_nil_inv_r in Hts as ->; exists []; cbn [resolve_members mbind list_bind]; rewrite app_nil_r, visited_nil.
    split; [done|constructor].
  - cbn [fmap list_fmap fst] in Hnd, Htop, Hout; apply NoDup_cons in Hnd as [Hk Hnd].
    rewrite visible_cons in Hts; unfold structural in Hts; cbn [resolve_members].
    assert (Ha : (String.eqb k "_sd_alg" && negb top)%bool = false).
    { destruct (String.eqb_spec k "_sd_alg") as [->|]; [|done]; destruct top; [done|]; destruct (Htop eq_refl); by left. }
    rewrite Ha; destruct (String.eqb k "_sd" || String.eqb k "_sd_alg")%bool eqn:Es.
    + apply IH; try done; [intros Ht Hin; apply (Htop Ht); by right|intros x Hx; apply Hout; by right].
    + apply Forall2_cons_inv_r in Hts as ([k' T] & ts' & [Hkk HT] & Hts & ->); cbn [fst snd] in Hkk, HT; subst k'.
      rewrite bind_cons_eq in Hun, Hf |- *; cbn [compose snd] in Hun, Hf |- *.
      apply unseen_app in Hun as [Hun1 Hun2]; apply Forall_app in Hf as [Hf1 Hf2].
      destruct (HT st Hun1 Hf1) as (w & -> & Hw); cbn [res_bind]; rewrite set_member_new by (apply Hout; by left).
      destruct (IH ts' (out ++ [(k, w)]) (visited (met chosen T) st)) as (news & -> & Hn); try done.
      * intros Ht Hin; apply (Htop Ht); by right.
      * intros x Hx; rewrite fmap_app, not_elem_of_app; split; [apply Hout; by right|].
        intros Hxk; apply list_elem_of_singleton in Hxk as ->; done.
      * exists ((k, w) :: news); rewrite <- app_assoc, visited_app; split; [done|]; constructor; [done|exact Hn].
Qed.

(** A digest of an object: a member's, or a decoy's. *)
Definition entry : Type := string * option (string * (label * tree)).

Definition met_entry (e : entry) : list (string * option Disclosure) :=
  match e with
  | (_, Some (_, (l, t))) => met_label chosen (Some l) ++ (if shows chosen (Some l) then met chosen t else [])
  | (s, None) => [(s, None)]
  end.

Definition reveal_entry (e : entry) : list (string * goval) :=
  match e with
  | (_, Some (k, (l, t))) => if shows chosen (Some l) then [(k, reveal chosen t)] else []
  | (_, None) => []
  end.

Definition entry_ok (rec : goval -> resolving -> res sd_error (goval * resolving)) (e : entry) : Prop :=
  match e with
  | (s, Some (k, ((d, s'), t))) => s = s' /\ Name d = k /\ IsArrayElement d = false /\ resolves rec t (Value d)
  | (_, None) => True
  end.

Definition entry_name (e : entry) : list string := match e with (_, Some (k, _)) => [k] | _ => [] end.

(** The members behind disclosures. *)
Lemma resolve_digests_ok rec E : forall out st,
  Forall (entry_ok rec) E -> NoDup (E ≫= entry_name) -> (forall k, k ∈ E ≫= entry_name -> k ∉ out.*1) ->
  unseen (E ≫= met_entry) st -> found (E ≫= met_entry) ->
  exists news, resolve_digests byDigest rec (VString <$> E.*1) out st = Ok (out ++ news, visited (E ≫= met_entry) st) /\
    same_members news (E ≫= reveal_entry).
Proof using.
  induction E as [|[s e] E IH]; intros out st Hok Hnd Hout Hun Hf.
  - exists []; cbn; rewrite app_nil_r, visited_nil; split; [done|constructor].
  - apply Forall_cons in Hok as [He Hok]; rewrite !bind_cons_eq in *; cbn [fmap list_fmap fst resolve_digests].
    apply unseen_app in Hun as [Hun1 Hun2]; apply Forall_app in Hf as [Hf1 Hf2].
    destruct e as [[k [[d s'] t]]|]; cbn [entry_ok entry_name met_entry reveal_entry met_label shows app] in *.
    + destruct He as (<- & Hname & Harr & Hres); apply Forall_cons in Hf1 as [Hfs Hf1]; cbn [fst snd] in Hfs.
      rewrite bool_decide_eq_false_2 by (by eapply unseen_head); rewrite Hfs.
      apply NoDup_cons in Hnd as [Hk Hnd].
      destruct (chosen s); cbn [app] in *.
      * rewrite Harr, Hname, (proj2 (member_None k out)) by (apply Hout; by left).
        change ((s, Some d) :: met chosen t) with ([(s, Some d)] ++ met chosen t) in *.
        apply unseen_app in Hun1 as [_ Hun1]; rewrite <- (visited_use s d).
        destruct (Hres _ Hun1 Hf1) as (w & -> & Hw); cbn [res_bind]; rewrite set_member_new by (apply Hout; by left).
        rewrite <- visited_app.
        destruct (IH (out ++ [(k, w)]) (visited ([(s, Some d)] ++ met chosen t) st)) as (news & -> & Hn); try done.
        { intros x Hx; rewrite fmap_app, not_elem_of_app; split; [apply Hout; by right|].
          intros Hxk; apply list_elem_of_singleton in Hxk as ->; done. }
        exists ((k, w) :: news); rewrite <- app_assoc, <- visited_app; split; [done|]; constructor; [done|exact Hn].
      * rewrite <- visited_see.
        destruct (IH out (visited [(s, None)] st)) as (news & -> & Hn); try done; [intros x Hx; apply Hout; by right|].
        exists news; by rewrite <- visited_app.
    + apply Forall_cons in Hf1 as [Hfs _]; cbn [fst snd] in Hfs.
      rewrite bool_decide_eq_false_2 by (by eapply unseen_head); rewrite Hfs, <- visited_see.
      destruct (IH out (visited [(s, None)] st)) as (news & -> & Hn); try done.
      exists news; by rewrite <- visited_app.
Qed.

(** The elements of an array. *)
Definition met_element (e : option label * tree) : list (string * option Disclosure) :=
  met_label chosen e.1 ++ (if shows chosen e.1 then met chosen e.2 else []).

Definition reveal_element (e : option label * tree) : list goval :=
  if shows chosen e.1 then [reveal chosen e.2] else [].

Definition element_ok (rec : goval -> resolving -> res sd_error (goval * resolving)) (e : option label * tree) (v : goval) : Prop :=
  match e with
  | (None, t) => disclosure_ref v = None /\ resolves rec t v
  | (Some (d, s), t) => v = VObject [("...", VString s)]%string /\ IsArrayElement d = true /\ resolves rec t (Value d)
  end.

Lemma resolve_elements_ok rec ls : forall arr out st,
  Forall2 (element_ok rec) ls arr -> unseen (ls ≫= met_element) st -> found (ls ≫= met_element) ->
  exists news, resolve_elements byDigest rec arr out st = Ok (out ++ news, visited (ls ≫= met_element) st) /\
    Forall2 same news (ls ≫= reveal_element).
Proof using.
  induction ls as [|[l t] ls IH]; intros arr out st Hok Hun Hf.
  - apply Forall2_nil_inv_l in Hok as ->; exists []; cbn; rewrite app_nil_r, visited_nil; split; [done|constructor].
  - apply Forall2_cons_inv_l in Hok as (v & arr' & He & Hok & ->); rewrite !bind_cons_eq in *; cbn [resolve_elements].
    apply unseen_app in Hun as [Hun1 Hun2]; apply Forall_app in Hf as [Hf1 Hf2].
    destruct l as [[d s]|]; cbn [element_ok] in He.
    + destruct He as (-> & Harr & Hres); cbn [disclosure_ref]; rewrite String.eqb_refl.
      assert (Hm : met_element (Some (d, s), t) = (s, if chosen s then Some d else None) :: (if chosen s then met chosen t else [])) by done.
      assert (Hr : reveal_element (Some (d, s), t) = if chosen s then [reveal chosen t] else []) by done.
      rewrite Hm in Hun1, Hf1, Hun2 |- *; rewrite Hr; clear Hm Hr.
      apply Forall_cons in Hf1 as [Hfs Hf1]; cbn [fst snd] in Hfs.
      rewrite bool_decide_eq_false_2 by (by eapply unseen_head); rewrite Hfs.
      destruct (chosen s); cbn [app] in *.
      * rewrite Harr; cbn [negb].
        change ((s, Some d) :: met chosen t) with ([(s, Some d)] ++ met chosen t) in *.
        apply unseen_app in Hun1 as [_ Hun1]; rewrite <- (visited_use s d).
        destruct (Hres _ Hun1 Hf1) as (w & -> & Hw); cbn [res_bind]; rewrite <- visited_app.
        destruct (IH arr' (out ++ [w]) (visited ([(s, Some d)] ++ met chosen t) st)) as (news & -> & Hn); try done.
        exists (w :: news); rewrite <- app_assoc, <- visited_app; split; [done|]; by constructor.
      * rewrite <- visited_see; destruct (IH arr' out (visited [(s, None)] st)) as (news & -> & Hn); try done.
        exists news; by rewrite <- visited_app.
    + destruct He as [Href Hres]; rewrite Href.
      change (met_element (None, t)) with (met chosen t) in *; change (reveal_element (None, t)) with [reveal chosen t].
      destruct (Hres _ Hun1 Hf1) as (w & -> & Hw); cbn [res_bind].
      destruct (IH arr' (out ++ [w]) (visited (met chosen t) st)) as (news & -> & Hn); try done.
      exists (w :: news); rewrite <- app_assoc, visited_app; split; [done|]; by constructor.
Qed.

(** *** An object's members, plain and hidden *)

(** The entries of an object's digests, in the order of the array. *)
Definition entries (ms : list (string * (option label * tree))) (decoys : list string) : list entry :=
  ((fun m => (m.2.1.2, Some m)) <$> hidden ms) ++ ((fun s => (s, None)) <$> decoys).

Lemma plain_cons k l t ms : plain ((k, (l, t)) :: ms) = match l with None => (k, t) :: plain ms | Some _ => plain ms end.
Proof using. by destruct l. Qed.

Lemma hidden_cons k l t ms : hidden ((k, (l, t)) :: ms) = match l with None => hidden ms | Some l => (k, (l, t)) :: hidden ms end.
Proof using. by destruct l. Qed.

Lemma entries_digests ms decoys : (entries ms decoys).*1 = ((fun m => m.2.1.2) <$> hidden ms) ++ decoys.
Proof using.
  unfold entries; rewrite fmap_app, <- !list_fmap_compose; f_equal; induction decoys as [|s decoys IH]; [done|]; rewrite fmap_cons, IH; done.
Qed.

Lemma entries_cons k l t ms decoys :
  entries ((k, (l, t)) :: ms) decoys =
  match l with None => entries ms decoys | Some l => (l.2, Some (k, (l, t))) :: entries ms decoys end.
Proof using. unfold entries; rewrite hidden_cons; by destruct l. Qed.

Lemma decoys_bind {A} (f : entry -> list A) decoys : entries [] decoys ≫= f = decoys ≫= (fun s => f (s, None)).
Proof using.
  change (entries [] decoys) with ((fun s => (s, None) : entry) <$> decoys).
  induction decoys as [|s decoys IH]; [done|]; by rewrite fmap_cons, !bind_cons_eq, IH.
Qed.

Lemma bind_nil {A B} (l : list A) : (l ≫= fun _ => []) = @nil B.
Proof using. induction l as [|x l IH]; [done|]; by rewrite bind_cons_eq, IH. Qed.

Lemma bind_singleton {A B} (f : A -> B) (l : list A) : (l ≫= fun x => [f x]) = f <$> l.
Proof using. induction l as [|x l IH]; [done|]; by rewrite bind_cons_eq, IH. Qed.

Lemma met_object ms decoys :
  met chosen (Obj ms decoys) ≡ₚ (plain ms ≫= (met chosen ∘ snd)) ++ (entries ms decoys ≫= met_entry).
Proof using.
  cbn [met]; induction ms as [|[k [l t]] ms IH]; cbn [flat_map].
  - rewrite decoys_bind; cbn [met_entry]; by rewrite bind_singleton.
  - rewrite <- (app_assoc (_ ++ _)), IH, plain_cons, entries_cons; destruct l as [[d s]|].
    + rewrite bind_cons_eq; cbn [met_entry snd]; apply Permutation_app_swap_app.
    + rewrite bind_cons_eq; cbn [met_label shows app compose snd]; by rewrite <- app_assoc.
Qed.

Lemma reveal_object ms decoys :
  flat_map (fun m => let '(k, (l, t)) := m in if shows chosen l then [(k, reveal chosen t)] else []) ms ≡ₚ
  revealed (plain ms) ++ (entries ms decoys ≫= reveal_entry).
Proof using.
  induction ms as [|[k [l t]] ms IH]; cbn [flat_map].
  - rewrite decoys_bind; cbn [reveal_entry]; by rewrite bind_nil.
  - rewrite IH, plain_cons, entries_cons; destruct l as [[d s]|]; [|done].
    rewrite bind_cons_eq; cbn [reveal_entry]; apply Permutation_app_swap_app.
Qed.

Lemma names_object ms decoys : ms.*1 ≡ₚ (plain ms).*1 ++ (entries ms decoys ≫= entry_name).
Proof using.
  induction ms as [|[k [l t]] ms IH].
  - rewrite decoys_bind; cbn [entry_name]; by rewrite bind_nil.
  - rewrite fmap_cons, IH, plain_cons, entries_cons; destruct l as [[d s]|]; [|done].
    rewrite bind_cons_eq; cbn [entry_name fst app]; apply Permutation_middle.
Qed.

Lemma same_members_names o o' : same_members o o' -> o.*1 = o'.*1.
Proof using. induction 1 as [|p q o o' [Hk _] _ IH]; [done|]; by rewrite !fmap_cons, Hk, IH. Qed.

Lemma same_object_perm o o1 o2 : same_members o o1 -> o2 ≡ₚ o1 -> same (VObject o) (VObject o2).
Proof using.
  intros Hs Hp; destruct (Permutation_Forall2 (P := fun q p => p.1 = q.1 /\ same p.2 q.2) (l2 := o) (Permutation_sym Hp)) as (o' & Hp' & Hs').
  { by apply Forall2_flip. }
  eapply same_object; [exact Hp'|by apply Forall2_flip].
Qed.

Lemma revealed_names ts : (revealed ts).*1 = ts.*1.
Proof using. unfold revealed; by rewrite <- list_fmap_compose. Qed.

(** *** Every level *)

Lemma entries_ok n ms decoys :
  (forall top T v, carries alg n top T v -> resolves (resolveValue byDigest n top) T v) ->
  Forall (fun m => Name m.2.1.1 = m.1 /\ IsArrayElement m.2.1.1 = false /\
    Digest alg m.2.1.1 = Ok m.2.1.2 /\ carries alg n false m.2.2 (Value m.2.1.1)) (hidden ms) ->
  Forall (entry_ok (resolveValue byDigest n false)) (entries ms decoys).
Proof using.
  intros IH Hhid; unfold entries; apply Forall_app; split; apply Forall_fmap; [|by apply Forall_true].
  eapply Forall_impl; [exact Hhid|]; intros [k [[d s] t]] (Hn & Ha & _ & Hc); cbn in *; split_and!; try done; by apply IH.
Qed.

Lemma resolveMap_carries n top ms decoys o :
  (forall top T v, carries alg n top T v -> resolves (resolveValue byDigest n top) T v) ->
  carries_object alg (carries alg n false) top ms decoys o ->
  forall st, unseen (met chosen (Obj ms decoys)) st -> found (met chosen (Obj ms decoys)) ->
  exists w, resolveMap byDigest (resolveValue byDigest n false) top o st = Ok (w, visited (met chosen (Obj ms decoys)) st) /\
    same w (reveal chosen (Obj ms decoys)).
Proof using.
  intros IH (Hms & _ & Ho & Halg & Hpl & (l & Hl & Hlp) & Hhid) st Hun Hf.
  rewrite <- entries_digests in Hlp; apply Permutation_map_inv in Hlp as (E & -> & HE).
  pose proof (met_object ms decoys) as Hmet; rewrite HE in Hmet.
  pose proof (reveal_object ms decoys) as Hrev; rewrite HE in Hrev.
  pose proof (entries_ok n ms decoys IH Hhid) as HEok; rewrite HE in HEok.
  pose proof (names_object ms decoys) as Hnames; rewrite HE in Hnames.
  rewrite Hnames in Hms; apply NoDup_app in Hms as (_ & Hdis & HndE).
  apply (unseen_perm _ _ _ Hmet), unseen_app in Hun as [Hun1 Hun2].
  unfold found in Hf; rewrite Hmet in Hf; apply Forall_app in Hf as [Hf1 Hf2].
  rewrite (visited_perm _ _ _ Hmet), visited_app; unfold resolveMap.
  destruct (resolve_members_ok (resolveValue byDigest n false) top o (plain ms) [] st) as (news1 & -> & Hn1); try done.
  { intros k _; apply not_elem_of_nil. }
  { eapply Forall2_impl; [exact Hpl|]; intros p q [Hk Hc]; split; [done|by apply IH]. }
  cbn [res_bind app].
  assert (Hn1k : news1.*1 = (plain ms).*1) by (by rewrite (same_members_names _ _ Hn1), revealed_names).
  destruct (resolve_digests_ok (resolveValue byDigest n false) E news1 (visited (plain ms ≫= (met chosen ∘ snd)) st)) as (news2 & Hres & Hn2); try done.
  { intros k Hk; rewrite Hn1k; intros Hin; by apply (Hdis k Hin). }
  assert (Hsd : resolveSDDigests byDigest (resolveValue byDigest n false) o news1 (visited (plain ms ≫= (met chosen ∘ snd)) st) =
    Ok (news1 ++ news2, visited (E ≫= met_entry) (visited (plain ms ≫= (met chosen ∘ snd)) st))).
  { unfold resolveSDDigests, sd_array in *; destruct (member "_sd" o) as [v|]; [by subst v|].
    destruct E as [|? ?]; [|done]; cbn in Hres |- *; exact Hres. }
  rewrite Hsd; cbn [res_bind]; eexists; split; [done|]; cbn [reveal].
  eapply same_object_perm; [|exact Hrev]; by apply Forall2_app.
Qed.

Lemma reveal_array ls : reveal chosen (Arr ls) = VArray (ls ≫= reveal_element).
Proof using. cbn [reveal]; f_equal; induction ls as [|[l t] ls IH]; [done|]; cbn [flat_map]; by rewrite IH, bind_cons_eq. Qed.

Lemma met_array ls : met chosen (Arr ls) = ls ≫= met_element.
Proof using. cbn [met]; induction ls as [|[l t] ls IH]; [done|]; cbn [flat_map]; by rewrite IH, bind_cons_eq. Qed.

Lemma resolveValue_carries n : forall top T v,
  carries alg n top T v -> resolves (resolveValue byDigest n top) T v.
Proof using.
  induction n as [|n IH]; intros top T v Hc st Hun Hf; [done|]; cbn [carries resolveValue] in *.
  destruct T as [w|ms decoys|ls].
  - exists w; cbn [met reveal]; rewrite visited_nil; split; [by destruct v; subst|done].
  - destruct v; try done; by apply resolveMap_carries.
  - destruct v as [| | | | | | |arr| | | |]; try done; unfold resolveArray.
    rewrite met_array in *; rewrite reveal_array.
    destruct (resolve_elements_ok (resolveValue byDigest n false) ls arr [] st) as (news & -> & Hn); try done.
    { eapply Forall2_impl; [exact Hc|]; intros [[[d s]|] t] x; cbn.
      - intros (-> & Ha & _ & Hx); split_and!; try done; by apply IH.
      - intros [Href Hx]; split; [done|by apply IH]. }
    eexists; split; [done|]; by apply same_array.
Qed.

End Refine.

(** ** Resolving a presentation *)

Section Present.
Context `{Codec} (alg : string) (chosen : string -> bool).

(** What the labels of the tree say: the digest of each disclosure met is its own. *)
Definition labelled (l : list (string * option Disclosure)) : Prop :=
  Forall (fun m => match m.2 with Some d => Digest alg d = Ok m.1 | None => True end) l.

Lemma by_digest_ok ds : forall m,
  (exists ss, Forall2 (fun d s => Digest alg d = Ok s) ds ss /\ NoDup ss /\ forall s, s ∈ ss -> m !! s = None) ->
  exists m', by_digest alg ds m = Ok m' /\
    forall s d, m' !! s = Some d <-> m !! s = Some d \/ (d ∈ ds /\ Digest alg d = Ok s).
Proof using.
  induction ds as [|d ds IH]; intros m (ss & Hss & Hnd & Hm); cbn [by_digest].
  - exists m; split; [done|]; intros s d; split; [by left|intros [|[[]%elem_of_nil _]]; done].
  - apply Forall2_cons_inv_l in Hss as (s & ss' & Hs & Hss & ->); rewrite Hs; cbn [res_bind].
    rewrite (Hm s) by left; apply NoDup_cons in Hnd as [Hni Hnd].
    destruct (IH (<[s := d]> m)) as (m' & -> & Hm').
    { exists ss'; split_and!; try done; intros x Hx; rewrite lookup_insert_ne by (intros ->; done); apply Hm; by right. }
    exists m'; split; [done|]; intros x e; rewrite Hm', lookup_insert_Some; split.
    + intros [[[<- <-]|[_ Hx]]|[Hin Hx]]; [right; split; [by left|done]|by left|right; split; [by right|done]].
    + intros [Hx|[[->|Hin]%elem_of_cons Hx]]; [|left; left; split; congruence|right; done].
      left; right; split; [|done]; intros <-; rewrite (Hm s) in Hx by left; done.
Qed.

Lemma labelled_app l k : labelled (l ++ k) <-> labelled l /\ labelled k.
Proof using. apply Forall_app. Qed.

Lemma carries_labelled n : forall top T v, carries alg n top T v -> labelled (met chosen T).
Proof using.
  induction n as [|n IH]; intros top T v Hc; [done|]; cbn [carries] in Hc; destruct T as [w|ms decoys|ls].
  - constructor.
  - destruct v as [| | | | | |o| | | | |]; try done; destruct Hc as (_ & _ & _ & _ & Hpl & _ & Hhid).
    unfold labelled; rewrite met_object; apply labelled_app; split; apply Forall_bind.
    + apply Forall_forall; intros p Hp; apply list_elem_of_lookup in Hp as [i Hi].
      destruct (Forall2_lookup_l _ _ _ _ _ Hpl Hi) as (q & _ & _ & Hc); by eapply IH.
    + unfold entries; apply Forall_app; split; apply Forall_fmap.
      * eapply Forall_impl; [exact Hhid|]; intros [k [[d s] t]] (_ & _ & Hd & Hc); cbn [compose met_entry met_label app fst snd shows] in *.
        constructor; [by destruct (chosen s)|]; destruct (chosen s); [by eapply IH|constructor].
      * apply Forall_true; intros s; cbn; by constructor.
  - destruct v as [| | | | | | |arr| | | |]; try done; rewrite met_array; apply Forall_bind, Forall_forall; intros e He.
    apply list_elem_of_lookup in He as [i Hi]; destruct (Forall2_lookup_l _ _ _ _ _ Hc Hi) as (v & _ & Hv).
    destruct e as [[[d s]|] t]; cbn [carries_element] in Hv; unfold met_element; cbn [met_label shows app fst snd].
    + destruct Hv as (_ & _ & Hd & Hv); constructor; [cbn; by destruct (chosen s)|].
      cbn [shows fst snd]; destruct (chosen s); [by eapply IH|constructor].
    + destruct Hv as [_ Hv]; by eapply IH.
Qed.

Lemma met_label_keys l : (met_label chosen l).*1 = (met_label (fun _ => true) l).*1.
Proof using. by destruct l as [[d s]|]. Qed.

(** A choice meets some of the digests. *)
Lemma met_sublist T : (met chosen T).*1 `sublist_of` digests T.
Proof using.
  unfold digests; induction T as [v|ms decoys IH|ls IH] using tree_nested_ind; [constructor| |]; cbn [met].
  - rewrite !fmap_app; apply sublist_app; [|done].
    induction IH as [|[k [l t]] ms Ht _ IH]; cbn [flat_map]; [done|]; cbn [snd] in Ht.
    rewrite !fmap_app, met_label_keys; apply sublist_app; [|done]; apply sublist_app; [done|].
    destruct l as [[d s]|]; cbn [shows]; [|done]; destruct (chosen s); [done|apply sublist_nil_l].
  - induction IH as [|[l t] ls Ht _ IH]; cbn [flat_map]; [done|]; cbn [snd] in Ht.
    rewrite !fmap_app, met_label_keys; apply sublist_app; [|done]; apply sublist_app; [done|].
    destruct l as [[d s]|]; cbn [shows]; [|done]; destruct (chosen s); [done|apply sublist_nil_l].
Qed.

Lemma NoDup_keys_eq {A B} (l : list (A * B)) k a b : NoDup l.*1 -> (k, a) ∈ l -> (k, b) ∈ l -> a = b.
Proof using.
  induction l as [|[k' c] l IH]; cbn; [intros _ []%elem_of_nil|]; intros [Hni Hnd]%NoDup_cons.
  assert (Hin : forall x, (k', x) ∈ l -> False) by (intros x Hx; apply Hni; by apply (list_elem_of_fmap_2 fst _ _ Hx)).
  intros [Ha|Ha]%elem_of_cons [Hb|Hb]%elem_of_cons; [congruence| | |by apply IH].
  - injection Ha as -> ->; by apply Hin in Hb.
  - injection Hb as -> ->; by apply Hin in Ha.
Qed.

(** The disclosures met, each with its digest. *)
Definition presented (l : list (string * option Disclosure)) : list (string * Disclosure) :=
  omap (fun m => pair m.1 <$> m.2) l.

Lemma presented_cons s o l : presented ((s, o) :: l) = match o with Some d => (s, d) :: presented l | None => presented l end.
Proof using. by destruct o. Qed.

Lemma presented_shown l : (presented l).*2 = omap snd l.
Proof using.
  induction l as [|[s o] l IH]; [done|]; rewrite presented_cons; destruct o as [d|]; [|exact IH].
  rewrite fmap_cons, IH; done.
Qed.

Lemma presented_digests l :
  omap (fun m => match m.2 with Some _ => Some m.1 | None => None end) l = (presented l).*1.
Proof using.
  induction l as [|[s o] l IH]; [done|]; rewrite presented_cons; destruct o as [d|]; [|exact IH].
  rewrite fmap_cons, <- IH; done.
Qed.

Lemma presented_sublist l : (presented l).*1 `sublist_of` l.*1.
Proof using.
  induction l as [|[s o] l IH]; [done|]; rewrite presented_cons; destruct o as [d|]; rewrite !fmap_cons; by constructor.
Qed.

Lemma presented_elem l s d : (s, d) ∈ presented l <-> (s, Some d) ∈ l.
Proof using.
  unfold presented; rewrite list_elem_of_omap; split.
  - intros ([s' [d'|]] & Hin & Heq); cbn in Heq; [|done]; by injection Heq as -> ->.
  - intros Hin; by exists (s, Some d).
Qed.

Lemma by_digest_met T ds : NoDup (digests T) -> labelled (met chosen T) -> ds ≡ₚ shown chosen T ->
  exists m, by_digest alg ds ∅ = Ok m /\ found m (met chosen T) /\ forall s d, m !! s = Some d -> (s, Some d) ∈ met chosen T.
Proof using.
  intros Hnd Hlab Hds; assert (Hnd' : NoDup (met chosen T).*1) by (eapply sublist_NoDup; [exact Hnd|apply met_sublist]).
  unfold shown in Hds; rewrite <- presented_shown in Hds; apply Permutation_map_inv in Hds as (P & -> & HP).
  destruct (by_digest_ok P.*2 ∅) as (m & Hm & Hspec).
  - exists P.*1; split_and!.
    + apply Forall2_fmap_l, Forall2_fmap_r, Forall_Forall2_diag, Forall_forall; intros [s d] Hin; cbn.
      rewrite <- HP in Hin; apply presented_elem in Hin.
      unfold labelled in Hlab; rewrite Forall_forall in Hlab; by apply (Hlab _ Hin).
    + rewrite <- HP; eapply sublist_NoDup; [exact Hnd'|apply presented_sublist].
    + intros s _; apply lookup_empty.
  - assert (Hback : forall s d, m !! s = Some d -> (s, Some d) ∈ met chosen T).
    { intros s d E; apply Hspec in E as [E|[Hd Hdig]]; [by rewrite lookup_empty in E|].
      apply list_elem_of_fmap in Hd as ([s' d'] & -> & Hin'); cbn in *; rewrite <- HP in Hin'; apply presented_elem in Hin'.
      unfold labelled in Hlab; rewrite Forall_forall in Hlab; pose proof (Hlab _ Hin') as Hd'; cbn in Hd'.
      by assert (s' = s) as -> by congruence. }
    exists m; split_and!; [exact Hm| |exact Hback]; unfold found; apply Forall_forall; intros [s o] Hin; cbn.
    unfold labelled in Hlab; rewrite Forall_forall in Hlab; destruct o as [d|].
    + apply Hspec; right; split; [|by apply (Hlab _ Hin)].
      apply (list_elem_of_fmap_2 snd P (s, d)); rewrite <- HP; by apply presented_elem.
    + destruct (m !! s) as [d|] eqn:E; [|done]; apply Hback in E; by pose proof (NoDup_keys_eq _ _ _ _ Hnd' Hin E).
Qed.

Lemma ResolveDisclosuresMax_tree T payload ds maxDepth :
  carries alg (Z.to_nat (maxDepth + 1)) true T (VObject payload) -> NoDup (digests T) -> ds ≡ₚ shown chosen T ->
  exists claims, ResolveDisclosuresMax payload alg ds maxDepth = Ok claims /\ same (VObject claims) (reveal chosen T).
Proof using.
  intros Hc Hnd Hds; assert (Hnd' : NoDup (met chosen T).*1) by (eapply sublist_NoDup; [exact Hnd|apply met_sublist]).
  unfold ResolveDisclosuresMax.
  destruct (by_digest_met T ds Hnd (carries_labelled _ _ _ _ Hc) Hds) as (m & -> & Hf & _); cbn [res_bind].
  destruct (resolveValue_carries alg m chosen _ _ _ _ Hc {| used := ∅; seen := ∅ |}) as (w & -> & Hw); [|done|].
  { split; [done|]; intros s _; apply not_elem_of_empty. }
  cbn [res_bind visited used]; rewrite (right_id_L ∅ (∪)), presented_digests.
  assert (Hsize : Z.of_nat (size (list_to_set (C := gset string) (presented (met chosen T)).*1)) = blen ds).
  { rewrite size_list_to_set by (eapply sublist_NoDup; [exact Hnd'|apply presented_sublist]).
    unfold blen; rewrite Hds; unfold shown; by rewrite <- presented_shown, !length_fmap. }
  rewrite Hsize, Z.eqb_refl; cbn [negb].
  destruct (Z.to_nat (maxDepth + 1)) as [|n]; [done|]; cbn [carries] in Hc; destruct T as [|ms decoys|]; [by destruct Hc| |done].
  cbn [reveal] in Hw; inversion Hw; subst; eauto.
Qed.

End Present.
