(* ===== verification/SdSeal.v ===== *)
(** * Issue, present, resolve

    Sealing a tree of claims makes an SD-JWT that resolves, for any choice of
    its disclosures, to the claims that choice reveals: [seal] of markers.go
    against [ResolveDisclosures] of resolve.go, through the trees between. *)
From stdpp Require Import sorting.
From S2P Require Import Prelude B64Url Json DcqlPath DcqlQuery DcqlValues SdJwt SdTree.
#[local] Open Scope Z_scope.

(** ** Claims and their trees *)

Section ClaimInd.
Context (P : claim -> Prop).
Context (HScalar : forall v, P (Scalar v)).
Context (HObject : forall m, Forall (fun p => P p.2) m -> P (Object m)).
Context (HArray : forall l, Forall P l -> P (Array l)).
Context (HSD : forall c, P c -> P (SD c)).
Context (HSDElement : forall c, P c -> P (SDElement c)).
Context (HWithDecoys : forall c n, P c -> P (WithDecoys c n)).
Context (HTyped : forall c, P c -> P (Typed c)).
Context (HEncoded : forall marker json, from_option P True json -> P (Encoded marker json)).

Fixpoint claim_nested_ind (c : claim) : P c :=
  match c with
  | Scalar v => HScalar v
  | Object m =>
      HObject m ((fix go m : Forall (fun p => P p.2) m :=
        match m with
        | [] => Forall_nil_2 _
        | p :: m => Forall_cons_2 _ p m (claim_nested_ind p.2) (go m)
        end) m)
  | Array l =>
      HArray l ((fix go l : Forall P l :=
        match l with
        | [] => Forall_nil_2 _
        | c :: l => Forall_cons_2 _ c l (claim_nested_ind c) (go l)
        end) l)
  | SD c => HSD c (claim_nested_ind c)
  | SDElement c => HSDElement c (claim_nested_ind c)
  | WithDecoys c n => HWithDecoys c n (claim_nested_ind c)
  | Typed c => HTyped c (claim_nested_ind c)
  | Encoded marker json =>
      HEncoded marker json (match json return from_option P True json with
        | Some c => claim_nested_ind c
        | None => I
        end)
  end.
End ClaimInd.

(** A claims tree Go can hold: scalars are no containers, names are distinct. *)
Fixpoint claim_wf (c : claim) : Prop :=
  match c with
  | Scalar v => match v with VObject _ | VArray _ => False | _ => True end
  | Object m => NoDup m.*1 /\ foldr (fun p P => claim_wf p.2 /\ P) True m
  | Array l => foldr (fun c P => claim_wf c /\ P) True l
  | SD c | SDElement c | WithDecoys c _ | Typed c => claim_wf c
  | Encoded _ json => match json with Some c => claim_wf c | None => True end
  end.

(** The levels of nesting of what a claims tree seals to. *)
Fixpoint height (c : claim) : nat :=
  match c with
  | Scalar _ => 1
  | Object m => S (foldr (fun p n => Nat.max (height p.2) n) 0 m)%nat
  | Array l => S (foldr (fun c n => Nat.max (height c) n) 0 l)%nat
  | SD c | SDElement c | WithDecoys c _ | Typed c => height c
  | Encoded _ json => match json with Some c => height c | None => 1 end
  end%nat.

(** The claims themselves, without their markers. *)
Fixpoint strip (c : claim) : goval :=
  match c with
  | Scalar v => v
  | Object m => VObject (map (fun p => (p.1, strip p.2)) m)
  | Array l => VArray (map strip l)
  | SD c | SDElement c | WithDecoys c _ | Typed c => strip c
  | Encoded _ json => match json with Some c => strip c | None => VNil end
  end.

(** The tree is the claims', a label on each member and element marked. *)
Inductive tree_of : claim -> tree -> Prop :=
| tree_scalar v : tree_of (Scalar v) (Leaf v)
| tree_object m ms decoys : Forall2 (fun p q => p.1 = q.1 /\ member_of p.2 q.2) m ms -> tree_of (Object m) (Obj ms decoys)
| tree_array l ls : Forall2 element_of l ls -> tree_of (Array l) (Arr ls)
| tree_decoys c n T : tree_of c T -> tree_of (WithDecoys c n) T
| tree_typed c T : tree_of c T -> tree_of (Typed c) T
| tree_encoded c T : tree_of c T -> tree_of (Encoded false (Some c)) T
with member_of : claim -> option (Disclosure * string) * tree -> Prop :=
| member_sd c l T : tree_of c T -> member_of (SD c) (Some l, T)
| member_plain c T : tree_of c T -> member_of c (None, T)
with element_of : claim -> option (Disclosure * string) * tree -> Prop :=
| element_sd c l T : tree_of c T -> element_of (SDElement c) (Some l, T)
| element_plain c T : tree_of c T -> element_of c (None, T).

Definition every (s : string) : bool := true.

(** ** What sealing makes *)

Section Seal.
Context `{Codec} (sup : supply) (alg : string).

(** What the sealing of [c] into [v] with disclosures [ds] is. *)
Definition seals (c : claim) (v : goval) (ds : list Disclosure) : Prop :=
  exists T, tree_of c T /\ (forall n top, (height c <= n)%nat -> carries alg n top T v) /\ shown every T ≡ₚ ds.

Definition sealed_right (c : claim) : Prop :=
  forall st v ds st', seal sup alg c st = Ok (v, ds, st') -> claim_wf c -> seals c v ds.

Lemma seal_bind_ok {A B} (m : sealing A) (k : A -> sealing B) st b st' :
  seal_bind m k st = Ok (b, st') <-> exists a st1, m st = Ok (a, st1) /\ k a st1 = Ok (b, st').
Proof using. unfold seal_bind; rewrite res_bind_ok; split; [intros ([a st1] & ? & ?); eauto|intros (a & st1 & ? & ?); exists (a, st1); auto]. Qed.

Lemma seal_of_ok {A} (m : res sd_error A) st a st' : seal_of m st = Ok (a, st') <-> m = Ok a /\ st' = st.
Proof using. unfold seal_of; rewrite res_bind_ok; split; [intros (x & ? & [= <- <-]); auto|intros [-> ->]; eauto]. Qed.

Lemma NewObjectDisclosure_ok k v st d st' :
  NewObjectDisclosure sup k v st = Ok (d, st') -> Name d = k /\ IsArrayElement d = false /\ Value d = v.
Proof using.
  unfold NewObjectDisclosure; destruct (isReservedName k); [done|]; rewrite seal_bind_ok; intros (s & st1 & _ & Hd).
  apply seal_of_ok in Hd as [Hd _]; unfold encodeDisclosure in Hd; apply res_bind_ok in Hd as (e & _ & [= <-]); done.
Qed.

Lemma NewArrayElementDisclosure_ok v st d st' :
  NewArrayElementDisclosure sup v st = Ok (d, st') -> IsArrayElement d = true /\ Value d = v.
Proof using.
  unfold NewArrayElementDisclosure; rewrite seal_bind_ok; intros (s & st1 & _ & Hd).
  apply seal_of_ok in Hd as [Hd _]; unfold encodeDisclosure in Hd; apply res_bind_ok in Hd as (e & _ & [= <-]); done.
Qed.

(** What hides a member: a disclosure of the right form, of its value. *)
Definition hidden_right (n : nat) (m : string * (Disclosure * string * tree)) : Prop :=
  Name m.2.1.1 = m.1 /\ IsArrayElement m.2.1.1 = false /\ Digest alg m.2.1.1 = Ok m.2.1.2 /\
  carries alg n false m.2.2 (Value m.2.1.1).

Definition shown_member (m : string * (option (Disclosure * string) * tree)) : list Disclosure :=
  (match m.2.1 with Some (d, _) => [d] | None => [] end) ++ shown every m.2.2.

Lemma shown_object ms decoys : shown every (Obj ms decoys) = ms ≫= shown_member.
Proof using.
  unfold shown; cbn [met]; rewrite omap_app.
  assert (Hd : omap snd ((fun s : string => (s, @None Disclosure)) <$> decoys) = []) by (induction decoys; done).
  rewrite Hd, app_nil_r; induction ms as [|[k [l t]] ms IH]; [done|]; cbn [flat_map].
  rewrite omap_app, IH, bind_cons_eq; f_equal; rewrite omap_app; unfold shown_member; cbn [fst snd].
  by destruct l as [[d s]|].
Qed.

(** The members of an object. *)
Lemma seal_members_ok m : forall out digests ds st out' digests' ds' st',
  Forall (fun p => sealed_right p.2 /\ match p.2 with SD c => sealed_right c | _ => True end) m ->
  NoDup m.*1 -> (forall k, k ∈ m.*1 -> k ∉ out.*1) -> foldr (fun p P => claim_wf p.2 /\ P) True m ->
  seal_members sup alg (seal sup alg) m out digests ds st = Ok (out', digests', ds', st') ->
  exists ms news,
    Forall2 (fun p q => p.1 = q.1 /\ member_of p.2 q.2) m ms /\
    Forall (fun k => isReservedName k = false) m.*1 /\
    out' = out ++ news /\ digests' = digests ++ ((fun m => m.2.1.2) <$> hidden ms) /\ ds' ≡ₚ ds ++ (ms ≫= shown_member) /\
    forall n, (foldr (fun p n => Nat.max (height p.2) n) 0 m <= n)%nat ->
      Forall2 (fun p q => p.1 = q.1 /\ carries alg n false p.2 q.2) (plain ms) news /\ Forall (hidden_right n) (hidden ms).
Proof using.
  induction m as [|[k c] m IH]; intros out digests ds st out' digests' ds' st' Hr Hnd Hout Hwf Hs; cbn [seal_members] in Hs.
  - injection Hs as <- <- <- <-; exists [], []; cbn; rewrite !app_nil_r; split_and!; try constructor; done.
  - apply Forall_cons in Hr as [[Hc Hsd] Hr]; cbn [fmap list_fmap fst snd] in *; apply NoDup_cons in Hnd as [Hk Hnd]; destruct Hwf as [Hwfc Hwf].
    destruct (isReservedName k) eqn:Ek; [done|].
    destruct (match c with SD _ => true | _ => false end) eqn:Esd.
    + destruct c as [| | |c| | | |]; try done; cbn [claim_wf] in Hwfc.
      apply seal_bind_ok in Hs as ([v inner] & st1 & Hv & Hs); apply seal_bind_ok in Hs as (d & st2 & Hd & Hs).
      apply seal_bind_ok in Hs as (digest & st3 & Hdig & Hs); apply seal_of_ok in Hdig as [Hdig _].
      apply NewObjectDisclosure_ok in Hd as (Hname & Harr & Hval).
      destruct (Hsd _ _ _ _ Hv Hwfc) as (T & HT & Hcar & Hsh).
      destruct (IH _ _ _ _ _ _ _ _ Hr Hnd ltac:(intros x Hx; apply Hout; by right) Hwf Hs) as (ms & news & Hf & Hres & -> & -> & Hds & Hn).
      exists ((k, (Some (d, digest), T)) :: ms), news; split_and!; try done.
      * constructor; [split; [done|by constructor]|done].
      * by constructor.
      * rewrite hidden_cons, fmap_cons, <- app_assoc; done.
      * rewrite Hds, bind_cons_eq; unfold shown_member at 2; cbn [fst snd]; rewrite Hsh, <- app_assoc; done.
      * intros n Hh; cbn [foldr] in Hh; rewrite plain_cons, hidden_cons; destruct (Hn n ltac:(lia)) as [Hp Hhid].
        split; [done|]; constructor; [|done]; unfold hidden_right; cbn [fst snd]; rewrite Hval; split_and!; try done.
        apply Hcar; cbn [snd height] in Hh; lia.
    + assert (Hs' : seal_bind (seal sup alg c) (fun '(sealed, ds0) =>
        seal_members sup alg (seal sup alg) m (set_member k sealed out) digests (ds ++ ds0)) st = Ok (out', digests', ds', st'))
        by (by destruct c). clear Hs.
      apply seal_bind_ok in Hs' as ([v inner] & st1 & Hv & Hs); rewrite set_member_new in Hs by (apply Hout; by left).
      destruct (Hc _ _ _ _ Hv Hwfc) as (T & HT & Hcar & Hsh).
      assert (Hout' : forall x, x ∈ m.*1 -> x ∉ (out ++ [(k, v)]).*1).
      { intros x Hx; rewrite fmap_app, not_elem_of_app; split; [apply Hout; by right|].
        intros Hxk; apply list_elem_of_singleton in Hxk as ->; done. }
      destruct (IH _ _ _ _ _ _ _ _ Hr Hnd Hout' Hwf Hs) as (ms & news & Hf & Hres & -> & -> & Hds & Hn).
      exists ((k, (None, T)) :: ms), ((k, v) :: news); split_and!; try done.
      * constructor; [split; [done|by constructor]|done].
      * by constructor.
      * by rewrite <- app_assoc.
      * rewrite Hds, bind_cons_eq; unfold shown_member at 2; cbn [fst snd app]; rewrite Hsh, <- app_assoc; done.
      * intros n Hh; cbn [foldr snd] in Hh; rewrite plain_cons, hidden_cons; destruct (Hn n ltac:(lia)) as [Hp Hhid].
        split; [|done]; constructor; [|done]; split; [done|]; apply Hcar; lia.
Qed.

Lemma finish_object_ok nested decoys out digests ds st v ds' st' :
  finish_object sup alg nested decoys out digests ds st = Ok (v, ds', st') -> "_sd" ∉ out.*1 ->
  ds' = ds /\ exists more l, l ≡ₚ digests ++ more /\
    v = VObject (match l with [] => out | _ => out ++ [("_sd"%string, VArray (VString <$> l))] end).
Proof using.
  unfold finish_object; rewrite seal_bind_ok; intros (n & st1 & _ & Hs) Hsd.
  apply seal_bind_ok in Hs as (more & st2 & _ & [= <- <- <-]); split; [done|].
  exists more, (merge_sort string_le (digests ++ more)); split; [apply merge_sort_Permutation|].
  pose proof (merge_sort_Permutation string_le (digests ++ more)) as Hp; f_equal.
  destruct (Z.ltb_spec 0 (blen (digests ++ more))) as [Hpos|Hz].
  - rewrite set_member_new by done; destruct (merge_sort _ _) as [|x l]; [|done].
    apply Permutation_nil in Hp; rewrite Hp in Hpos; done.
  - destruct (digests ++ more) as [|x l]; [done|]; rewrite blen_cons in Hz; pose proof (blen_nonneg l); lia.
Qed.

Lemma plain_names_sub ms : (plain ms).*1 ⊆ ms.*1.
Proof using.
  induction ms as [|[k [l t]] ms IH]; [done|]; rewrite plain_cons, fmap_cons; cbn [fst].
  destruct l; [set_solver|]; rewrite fmap_cons; set_solver.
Qed.

Lemma plain_names_NoDup ms : NoDup ms.*1 -> NoDup (plain ms).*1.
Proof using.
  induction ms as [|[k [l t]] ms IH]; [done|]; rewrite plain_cons, fmap_cons; cbn [fst]; rewrite NoDup_cons; intros [Hk Hnd].
  destruct l; [by apply IH|]; rewrite fmap_cons; constructor; [|by apply IH]; intros Hin; by apply plain_names_sub in Hin.
Qed.

Lemma reserved_structural k : isReservedName k = false -> structural k = false /\ k <> "_sd"%string /\ k <> "_sd_alg"%string.
Proof using.
  unfold isReservedName, structural; intros Hr; apply orb_false_iff in Hr as [Hr H3]; apply orb_false_iff in Hr as [H1 H2].
  rewrite H1, H3; apply String.eqb_neq in H1, H3; done.
Qed.

Lemma visible_all o : Forall (fun k => isReservedName k = false) o.*1 -> visible o = o.
Proof using.
  induction o as [|[k v] o IH]; [done|]; rewrite fmap_cons; intros [Hk Ho]%Forall_cons.
  cbn [fst] in Hk; rewrite visible_cons, (proj1 (reserved_structural _ Hk)); by rewrite IH.
Qed.

(** An object with the members and digests of its sealing carries its tree. *)
Lemma carries_sealed n top ms decoys out l :
  NoDup ms.*1 -> Forall (fun k => isReservedName k = false) ms.*1 ->
  Forall2 (fun p q => p.1 = q.1 /\ carries alg n false p.2 q.2) (plain ms) out -> Forall (hidden_right n) (hidden ms) ->
  l ≡ₚ ((fun m => m.2.1.2) <$> hidden ms) ++ decoys ->
  carries alg (S n) top (Obj ms decoys) (VObject (match l with [] => out | _ => out ++ [("_sd"%string, VArray (VString <$> l))] end)).
Proof using.
  intros Hnd Hres Hout Hhid Hl.
  assert (Hnames : out.*1 = (plain ms).*1).
  { clear -Hout; induction Hout as [|p q ps qs [Hk _] _ IH]; [done|]; by rewrite !fmap_cons, Hk, IH. }
  assert (Hr : Forall (fun k => isReservedName k = false) out.*1).
  { rewrite Hnames; rewrite !Forall_forall in *; intros k Hk; by apply Hres, plain_names_sub. }
  assert (Hno : forall k, k ∈ out.*1 -> k <> "_sd"%string /\ k <> "_sd_alg"%string).
  { intros k Hk; rewrite Forall_forall in Hr; by apply (reserved_structural k), Hr. }
  assert (Hsd : member "_sd" out = None) by (apply member_None; intros Hin; by destruct (Hno _ Hin)).
  cbn [carries]; unfold carries_object; split_and!; try done.
  - destruct l; [by rewrite Hnames; apply plain_names_NoDup|]; rewrite fmap_app; apply NoDup_app; split_and!.
    + by rewrite Hnames; apply plain_names_NoDup.
    + intros k Hk Hk'; apply list_elem_of_singleton in Hk' as ->; by destruct (Hno _ Hk).
    + apply NoDup_singleton.
  - intros _; destruct l; [by intros Hin; destruct (Hno _ Hin)|]; rewrite fmap_app, not_elem_of_app; split; [by intros Hin; destruct (Hno _ Hin)|].
    intros Hk'; by apply list_elem_of_singleton in Hk'.
  - replace (visible _) with out; [done|]; destruct l as [|x l]; [by rewrite visible_all|].
    unfold visible; rewrite filter_app; fold (visible out); rewrite visible_all by done; cbn; by rewrite app_nil_r.
  - exists l; split; [|done]; unfold sd_array; destruct l as [|x l]; [by rewrite Hsd|]; by rewrite member_app, Hsd.
Qed.

(** What an object seals to, whatever its decoys. *)
Definition objects_right (c : claim) : Prop :=
  forall m decoys nested st v ds st', (c = Object m \/ c = Typed (Object m)) ->
    sealObject sup alg (seal sup alg) m decoys nested st = Ok (v, ds, st') -> claim_wf (Object m) -> seals (Object m) v ds.

Definition right (c : claim) : Prop :=
  sealed_right c /\ match c with SD c => sealed_right c | SDElement c => sealed_right c | _ => True end /\ objects_right c.

Lemma sealObject_ok m : Forall (fun p => right p.2) m ->
  forall decoys nested st v ds st', sealObject sup alg (seal sup alg) m decoys nested st = Ok (v, ds, st') ->
  claim_wf (Object m) -> seals (Object m) v ds.
Proof using.
  intros Hr decoys nested st v ds st' Hs [Hnd Hwf]; unfold sealObject in Hs.
  apply seal_bind_ok in Hs as ([[out digests] ds1] & st1 & Hm & Hf).
  apply seal_members_ok in Hm as (ms & news & Hms & Hres & -> & -> & Hds & Hn); [|by eapply Forall_impl; [exact Hr|];
    intros [k c] (? & ? & _); cbn in *; split; [done|by destruct c]|done|intros k _; apply not_elem_of_nil|done].
  cbn [app] in *.
  assert (Hnames : ms.*1 = m.*1) by (clear -Hms; induction Hms as [|p q ps qs [Hk _] _ IH]; [done|]; by rewrite !fmap_cons, Hk, IH).
  assert (Hsd : "_sd"%string ∉ news.*1).
  { destruct (Hn _ (le_n _)) as [Hp _].
    assert (Hk : news.*1 = (plain ms).*1) by (clear -Hp; induction Hp as [|p q ps qs [Hk _] _ IH]; [done|]; by rewrite !fmap_cons, Hk, IH).
    rewrite Hk; intros Hin%plain_names_sub; rewrite Hnames in Hin; rewrite Forall_forall in Hres; by apply Hres in Hin. }
  destruct (finish_object_ok _ _ _ _ _ _ _ _ _ Hf Hsd) as (-> & more & l & Hl & ->).
  exists (Obj ms more); split_and!.
  - by constructor.
  - intros [|n] top Hh; cbn [height] in Hh; [lia|]; destruct (Hn n ltac:(lia)) as [Hp Hhid].
    apply carries_sealed; rewrite ?Hnames; done.
  - by rewrite shown_object, Hds.
Qed.

Lemma carries_not_ref n top T v : carries alg n top T v -> disclosure_ref v = None.
Proof using.
  destruct n as [|n]; [done|]; cbn [carries]; destruct T, v; try done; intros (_ & Hres & _ & _ & Hpl & _ & _).
  destruct o as [|[k w] [|? ?]]; try done; cbn [disclosure_ref]; destruct (String.eqb_spec k "...") as [->|]; [|done].
  apply Forall2_cons_inv_r in Hpl as ([k' T] & ts & [Hk _] & _ & Hts); cbn in Hk; subst k'.
  assert (Hin : "..."%string ∈ ms.*1) by (apply plain_names_sub; rewrite Hts; by left).
  rewrite Forall_forall in Hres; by apply Hres in Hin.
Qed.

Definition shown_element (e : option (Disclosure * string) * tree) : list Disclosure :=
  (match e.1 with Some (d, _) => [d] | None => [] end) ++ shown every e.2.

Lemma shown_array ls : shown every (Arr ls) = ls ≫= shown_element.
Proof using.
  unfold shown; cbn [met]; induction ls as [|[l t] ls IH]; [done|]; cbn [flat_map].
  rewrite omap_app, IH, bind_cons_eq; f_equal; rewrite omap_app; unfold shown_element; cbn [fst snd].
  by destruct l as [[d s]|].
Qed.

Lemma seal_elements_ok l : forall out ds st out' ds' st',
  Forall right l -> foldr (fun c P => claim_wf c /\ P) True l ->
  seal_elements sup alg (seal sup alg) l out ds st = Ok (out', ds', st') ->
  exists ls news, Forall2 element_of l ls /\ out' = out ++ news /\ ds' ≡ₚ ds ++ (ls ≫= shown_element) /\
    forall n, (foldr (fun c n => Nat.max (height c) n) 0 l <= n)%nat ->
      Forall2 (carries_element alg (carries alg n false)) ls news.
Proof using.
  induction l as [|c l IH]; intros out ds st out' ds' st' Hr Hwf Hs; cbn [seal_elements] in Hs.
  - injection Hs as <- <- <-; exists [], []; cbn; rewrite !app_nil_r; split_and!; try constructor; done.
  - apply Forall_cons in Hr as [(Hc & Hsd & _) Hr]; destruct Hwf as [Hwfc Hwf].
    destruct (match c with SDElement _ => true | _ => false end) eqn:Esd.
    + destruct c as [| | | |c| | |]; try done; cbn [claim_wf] in Hwfc.
      apply seal_bind_ok in Hs as ([v inner] & st1 & Hv & Hs); apply seal_bind_ok in Hs as (d & st2 & Hd & Hs).
      apply seal_bind_ok in Hs as (digest & st3 & Hdig & Hs); apply seal_of_ok in Hdig as [Hdig _].
      apply NewArrayElementDisclosure_ok in Hd as (Harr & Hval); destruct (Hsd _ _ _ _ Hv Hwfc) as (T & HT & Hcar & Hsh).
      destruct (IH _ _ _ _ _ _ Hr Hwf Hs) as (ls & news & Hf & -> & Hds & Hn).
      exists ((Some (d, digest), T) :: ls), (VObject [("...", VString digest)]%string :: news); split_and!.
      * constructor; [by constructor|done].
      * by rewrite <- app_assoc.
      * rewrite Hds, bind_cons_eq; unfold shown_element at 2; cbn [fst snd]; rewrite Hsh, <- app_assoc; done.
      * intros n Hh; cbn [foldr] in Hh; constructor; [|apply Hn; lia]; cbn [carries_element]; rewrite Hval; split_and!; try done.
        apply Hcar; cbn [height] in Hh; lia.
    + assert (Hs' : seal_bind (seal sup alg c) (fun '(sealed, ds0) =>
        seal_elements sup alg (seal sup alg) l (out ++ [sealed]) (ds ++ ds0)) st = Ok (out', ds', st')) by (by destruct c). clear Hs.
      apply seal_bind_ok in Hs' as ([v inner] & st1 & Hv & Hs); destruct (Hc _ _ _ _ Hv Hwfc) as (T & HT & Hcar & Hsh).
      destruct (IH _ _ _ _ _ _ Hr Hwf Hs) as (ls & news & Hf & -> & Hds & Hn).
      exists ((None, T) :: ls), (v :: news); split_and!.
      * constructor; [by constructor|done].
      * by rewrite <- app_assoc.
      * rewrite Hds, bind_cons_eq; unfold shown_element at 2; cbn [fst snd app]; rewrite Hsh, <- app_assoc; done.
      * intros n Hh; cbn [foldr] in Hh; constructor; [|apply Hn; lia].
        assert (Hx : carries alg n false T v) by (apply Hcar; lia); split; [by eapply carries_not_ref|done].
Qed.

Lemma seals_passes c c' v ds : (forall T, tree_of c T -> tree_of c' T) -> height c' = height c -> seals c v ds -> seals c' v ds.
Proof using. intros Ht Hh (T & HT & Hcar & Hsh); exists T; rewrite Hh; auto. Qed.

Lemma seal_right c : right c.
Proof using.
  induction c as [v|m IH|l IH|c IH|c IH|c n IH|c IH|marker json IH] using claim_nested_ind.
  - split_and!; [|done|by intros ? ? ? ? ? ? ? [|]].
    intros st v' ds st' [= <- <- _] Hwf; exists (Leaf v); split_and!; [constructor| |done].
    intros [|n] top Hh; cbn [height] in Hh; [lia|]; cbn; by destruct v.
  - assert (Ho : objects_right (Object m)) by (intros m' decoys nested st v ds st' [[= <-]|]; [by apply sealObject_ok|done]).
    split_and!; [|done|done]; intros st v ds st' Hs Hwf; by eapply (Ho m); [left|exact Hs|].
  - split_and!; [|done|by intros ? ? ? ? ? ? ? [|]].
    intros st v ds st' Hs Hwf; cbn [seal] in Hs; apply seal_bind_ok in Hs as ([out ds1] & st1 & Hl & [= <- <- _]).
    destruct (seal_elements_ok _ _ _ _ _ _ _ IH Hwf Hl) as (ls & news & Hf & -> & Hds & Hn); exists (Arr ls); split_and!.
    + by constructor.
    + intros [|n] top Hh; cbn [height] in Hh; [lia|]; apply Hn; lia.
    + by rewrite shown_array, Hds.
  - split_and!; [by intros ? ? ? ?|by apply IH|by intros ? ? ? ? ? ? ? [|]].
  - split_and!; [by intros ? ? ? ?|by apply IH|by intros ? ? ? ? ? ? ? [|]].
  - split_and!; [|done|by intros ? ? ? ? ? ? ? [|]].
    destruct IH as (_ & _ & Ho); intros st v ds st' Hs Hwf; cbn [seal] in Hs; destruct ((n <? 0) || (MaxDecoys <? n))%bool; [done|].
    destruct c as [|m| | | | |[|m| | | | | |]|]; try done.
    + eapply seals_passes; [by apply tree_decoys|done|]; eapply (Ho m); [by left|exact Hs|exact Hwf].
    + eapply seals_passes; [by intros T HT; apply tree_decoys, tree_typed|done|]; eapply (Ho m); [by right|exact Hs|exact Hwf].
  - destruct IH as (Hc & _ & Ho); split_and!; [|done|].
    + intros st v ds st' Hs Hwf; eapply seals_passes; [by apply tree_typed|done|]; by eapply Hc.
    + intros m decoys nested st v ds st' [|[= ->]] Hs Hwf; [done|]; eapply (Ho m); [by left|exact Hs|done].
  - split_and!; [|done|by intros ? ? ? ? ? ? ? [|]].
    intros st v ds st' Hs Hwf; destruct marker, json as [c|]; try done; destruct IH as (Hc & _).
    eapply seals_passes; [by apply tree_encoded|done|]; by eapply Hc.
Qed.

(** ** The digests of an SD-JWT *)

(** The digests a value refers to, at any depth. *)
Fixpoint refs (v : goval) : list string :=
  match v with
  | VObject o =>
      sd_strings (member "_sd" o) ++ flat_map (fun p => if structural p.1 then [] else refs p.2) o
  | VArray l => flat_map (fun v => match disclosure_ref v with Some (VString s) => [s] | _ => refs v end) l
  | _ => []
  end.

(** What one element of an array refers to. *)
Definition element_refs (v : goval) : list string :=
  match disclosure_ref v with Some (VString s) => [s] | _ => refs v end.

Lemma refs_array l : refs (VArray l) = l ≫= element_refs.
Proof using. done. Qed.

Lemma refs_object o : refs (VObject o) = sd_strings (member "_sd" o) ++ (visible o ≫= (refs ∘ snd)).
Proof using.
  cbn [refs]; f_equal; induction o as [|[k v] o IH]; [done|]; cbn [flat_map fst snd]; rewrite visible_cons, IH.
  by destruct (structural k).
Qed.

Lemma sd_strings_digests l : sd_strings (Some (VArray (VString <$> l))) = l.
Proof using. cbn; induction l as [|s l IH]; [done|]; cbn; by rewrite IH. Qed.

Lemma sd_array_strings o l : sd_array o l -> sd_strings (member "_sd" o) = l.
Proof using. unfold sd_array; destruct (member "_sd" o) as [v|]; intros ->; [apply sd_strings_digests|done]. Qed.

Lemma bind_app_Permutation {A B} (f g : A -> list B) l : (l ≫= fun x => f x ++ g x) ≡ₚ (l ≫= f) ++ (l ≫= g).
Proof using.
  induction l as [|x l IH]; [done|]; rewrite !bind_cons_eq, IH, <- !app_assoc; f_equiv; apply Permutation_app_swap_app.
Qed.

Lemma Forall2_bind_Permutation {A B C} (f : A -> list C) (g : B -> list C) (R : A -> B -> Prop) l k :
  Forall2 R l k -> (forall x y, R x y -> f x ≡ₚ g y) -> (l ≫= f) ≡ₚ (k ≫= g).
Proof using. intros Hf Hfg; induction Hf as [|x y l k Hxy _ IH]; [done|]; by rewrite !bind_cons_eq, IH, (Hfg _ _ Hxy). Qed.

Lemma bind_bind {A B C} (f : A -> list B) (g : B -> list C) l : ((l ≫= f) ≫= g) = l ≫= (fun x => f x ≫= g).
Proof using. induction l as [|x l IH]; [done|]; by rewrite !bind_cons_eq, bind_app, IH. Qed.

Lemma fmap_of_bind {A B C} (f : B -> C) (g : A -> list B) l : f <$> (l ≫= g) = l ≫= (fun x => f <$> g x).
Proof using. induction l as [|x l IH]; [done|]; by rewrite !bind_cons_eq, fmap_app, IH. Qed.

Definition value_refs (ds : list Disclosure) : list string := ds ≫= (refs ∘ Value).

#[export] Instance value_refs_Permutation : Proper (Permutation ==> Permutation) value_refs.
Proof using. intros ds es Hp; unfold value_refs; by rewrite Hp. Qed.

Lemma value_refs_app ds es : value_refs (ds ++ es) = value_refs ds ++ value_refs es.
Proof using. apply bind_app. Qed.

Lemma perm_shuffle {A} (a b s d : list A) : a ++ (s ++ b) ++ d ≡ₚ (s ++ d) ++ a ++ b.
Proof using.
  rewrite <- !app_assoc, Permutation_app_swap_app; f_equiv; rewrite (app_assoc a b d); apply Permutation_app_comm.
Qed.

Definition hidden_digests (m : string * (Disclosure * string * tree)) : list string := m.2.1.2 :: digests m.2.2.

Lemma digests_object ms decoys :
  digests (Obj ms decoys) ≡ₚ (plain ms ≫= (digests ∘ snd)) ++ (hidden ms ≫= hidden_digests) ++ decoys.
Proof using.
  unfold digests at 1; rewrite (met_object (fun _ => true)), fmap_app, !fmap_of_bind; f_equiv; [done|].
  unfold entries; rewrite bind_app; f_equiv.
  - induction (hidden ms) as [|[k [[d s] t]] l IH]; [done|]; rewrite fmap_cons, !bind_cons_eq, IH; done.
  - induction decoys as [|s decoys IH]; [done|]; rewrite fmap_cons, !bind_cons_eq, IH; done.
Qed.

Definition shown_hidden (m : string * (Disclosure * string * tree)) : list Disclosure := m.2.1.1 :: shown every m.2.2.

Lemma shown_object_split ms decoys :
  shown every (Obj ms decoys) ≡ₚ (plain ms ≫= (shown every ∘ snd)) ++ (hidden ms ≫= shown_hidden).
Proof using.
  rewrite shown_object; induction ms as [|[k [l t]] ms IH]; [done|]; rewrite bind_cons_eq, IH, plain_cons, hidden_cons.
  destruct l as [[d s]|]; rewrite bind_cons_eq; unfold shown_member; cbn [fst snd app compose].
  - apply Permutation_app_swap_app with (l1 := d :: shown every t).
  - by rewrite <- app_assoc.
Qed.

(** The digests of a tree are those its payload refers to, directly and in the
    values of its disclosures. *)
Lemma digests_refs n : forall top T v, carries alg n top T v -> digests T ≡ₚ refs v ++ value_refs (shown every T).
Proof using.
  induction n as [|n IH]; intros top T v Hc; [done|]; cbn [carries] in Hc; destruct T as [w|ms decoys|ls].
  - by destruct v; subst.
  - destruct v as [| | | | | |o| | | | |]; try done; destruct Hc as (_ & _ & _ & _ & Hpl & (l & Hl & Hlp) & Hhid).
    assert (Hplain : (plain ms ≫= (digests ∘ snd)) ≡ₚ (visible o ≫= (refs ∘ snd)) ++ value_refs (plain ms ≫= (shown every ∘ snd))).
    { clear -Hpl IH; unfold value_refs; rewrite bind_bind; induction Hpl as [|[k T] [k' v] ps qs [_ Hc] _ IHl]; [done|].
      rewrite !bind_cons_eq, IHl; cbn [compose snd] in *; rewrite (IH _ _ _ Hc), <- !app_assoc; f_equiv; apply Permutation_app_swap_app. }
    assert (Hhidden : (hidden ms ≫= hidden_digests) ≡ₚ ((fun m => m.2.1.2) <$> hidden ms) ++ value_refs (hidden ms ≫= shown_hidden)).
    { clear -Hhid IH; unfold value_refs; rewrite bind_bind; induction Hhid as [|[k [[d s] T]] hs (_ & _ & _ & Hc) _ IHl]; [done|].
      rewrite fmap_cons, !bind_cons_eq, IHl; cbn [fst snd] in *.
      change (hidden_digests (k, ((d, s), T))) with (s :: digests T).
      change (shown_hidden (k, ((d, s), T)) ≫= (refs ∘ Value)) with (refs (Value d) ++ (shown every T ≫= (refs ∘ Value))).
      rewrite (IH _ _ _ Hc); cbn [app]; f_equiv; unfold value_refs; rewrite <- !app_assoc.
      rewrite (Permutation_app_swap_app (_ <$> hs)); f_equiv; apply Permutation_app_swap_app. }
    rewrite digests_object, refs_object, (sd_array_strings _ _ Hl), Hlp, shown_object_split, value_refs_app, Hplain, Hhidden.
    rewrite perm_shuffle, <- !app_assoc; done.
  - destruct v as [| | | | | | |arr| | | |]; try done; rewrite shown_array; unfold digests at 1; rewrite met_array, fmap_of_bind.
    unfold value_refs; rewrite bind_bind; rewrite refs_array.
    induction Hc as [|[l t] v ls arr He _ IHl]; [done|]; rewrite !bind_cons_eq, IHl, <- !app_assoc; clear IHl.
    destruct l as [[d s]|]; cbn [carries_element] in He.
    + destruct He as (-> & _ & _ & Hc).
      change ((met_element (fun _ => true) (Some (d, s), t)).*1) with (s :: digests t).
      change (element_refs (VObject [("...", VString s)]%string)) with [s].
      change (shown_element (Some (d, s), t) ≫= (refs ∘ Value)) with (refs (Value d) ++ value_refs (shown every t)).
      rewrite (IH _ _ _ Hc), <- !app_assoc; cbn [app]; f_equiv; rewrite <- !app_assoc.
      rewrite (Permutation_app_swap_app (arr ≫= _)); apply Permutation_app_head, Permutation_app_swap_app.
    + destruct He as [Href Hc].
      change ((met_element (fun _ => true) (None, t)).*1) with (digests t).
      change (shown_element (None, t) ≫= (refs ∘ Value)) with (value_refs (shown every t)).
      assert (Hv : element_refs v = refs v) by (unfold element_refs; by rewrite Href).
      rewrite Hv, (IH _ _ _ Hc), <- !app_assoc; apply Permutation_app_head, Permutation_app_swap_app.
Qed.

(** All disclosures reveal all the claims. *)
Definition stripped (c : claim) : Prop :=
  forall T, (tree_of c T \/ exists c', (c = SD c' \/ c = SDElement c') /\ tree_of c' T) -> reveal every T = strip c.

Lemma reveal_strip c : stripped c.
Proof using.
  assert (Hcase : forall c, (forall T, tree_of c T -> reveal every T = strip c) ->
    (forall c' T, (c = SD c' \/ c = SDElement c') -> tree_of c' T -> reveal every T = strip c) -> stripped c)
    by (intros c0 H1 H2 T [HT|(c' & Hc & HT)]; [by apply H1|by eapply H2]).
  induction c as [v|m IH|l IH|c IH|c IH|c n IH|c IH|marker json IH] using claim_nested_ind; apply Hcase;
    try (intros c' T [[=]|[=]]; fail); clear Hcase; try (intros T HT; inversion HT; subst; try done; fail).
  - intros T HT; inversion HT as [|? ms decoys Hms| | | |]; subst; cbn [reveal strip]; f_equal; clear HT.
    induction Hms as [|[k c] [k' [l t]] m ms [Hk Hm] _ IHm]; [done|]; apply Forall_cons in IH as [IHc IH]; cbn [flat_map map fst snd] in *; subst k'.
    rewrite (IHm IH); cbn [every].
    assert (Ht : reveal every t = strip c) by (apply IHc; inversion Hm; subst; [right; eauto|by left]).
    unfold shows; destruct l as [[d s]|]; cbn [every app]; by rewrite Ht.
  - intros T HT; inversion HT as [| |? ls Hls| | |]; subst; cbn [reveal strip]; f_equal; clear HT.
    induction Hls as [|c [l t] k ls Hm _ IHl]; [done|]; apply Forall_cons in IH as [IHc IH]; cbn [flat_map map].
    rewrite (IHl IH).
    assert (Ht : reveal every t = strip c) by (apply IHc; inversion Hm; subst; [right; eauto|by left]).
    unfold shows; destruct l as [[d s]|]; cbn [every app]; by rewrite Ht.
  - intros c' T [[= <-]|[=]] HT; apply IH; by left.
  - intros c' T [[=]|[= <-]] HT; apply IH; by left.
  - intros T HT; inversion HT; subst; apply IH; by left.
  - intros T HT; inversion HT; subst; apply IH; by left.
  - intros T HT; inversion HT; subst; apply IH; by left.
Qed.

(** C18: sealing a tree of claims makes an SD-JWT that resolves, for any of its
    disclosures a Holder presents (each with those around it), to exactly the
    claims they reveal: everything in plain sight, and what the presented
    disclosures hide.  All of them give back all the claims.  No digest may be
    in the SD-JWT twice, which a hash without collisions makes so. *)
Theorem seal_resolve (m : list (string * claim)) (decoys : Z) (nested : bool) (st st' : drawn)
    (payload : list (string * goval)) (ds : list Disclosure) :
  claim_wf (Object m) -> Z.of_nat (height (Object m)) <= MaxResolveDepth + 1 ->
  sealObject sup alg (seal sup alg) m decoys nested st = Ok (VObject payload, ds, st') ->
  NoDup (refs (VObject payload) ++ value_refs ds) ->
  exists T, tree_of (Object m) T /\ shown every T ≡ₚ ds /\ reveal every T = strip (Object m) /\
    forall chosen presented, presented ≡ₚ shown chosen T ->
      exists claims, ResolveDisclosures payload alg presented = Ok claims /\ same (VObject claims) (reveal chosen T).
Proof using.
  intros Hwf Hh Hs Hnd.
  destruct (sealObject_ok m ltac:(apply Forall_true; intros; apply seal_right) _ _ _ _ _ _ Hs Hwf) as (T & HT & Hcar & Hsh).
  exists T; split_and!; [done|done|apply (reveal_strip (Object m)); by left|]; intros chosen presented Hp.
  assert (Hc : carries alg (Z.to_nat (MaxResolveDepth + 1)) true T (VObject payload)) by (apply Hcar; lia).
  apply ResolveDisclosuresMax_tree; [done| |done].
  rewrite (digests_refs _ _ _ _ Hc); by rewrite Hsh.
Qed.

End Seal.

(** A codec for the witness: distinct disclosures have distinct digests. *)
Definition toy_codec : Codec :=
  {| sum := fun _ s => string_bytes s;
     json_array := fun l => Some (l ≫= fun v => match v with VString s => string_bytes s ++ [44] | _ => [] end) |}.

Definition toy_supply : supply := {| salts := fun n => Some (pretty.pretty n); nested_decoys := Some (fun _ => Some 1) |}.

Definition toy_claims : list (string * claim) :=
  [("given_name", SD (Scalar (VString "Ada")));
   ("address", SD (Object [("street", SD (Scalar (VString "Main"))); ("country", Scalar (VString "DE"))]));
   ("nationalities", Array [SDElement (Scalar (VString "DE")); Scalar (VString "FR")])]%string.

Lemma seal_resolve_witness :
  exists payload ds st',
    sealObject (H := toy_codec) toy_supply SHA256 (seal (H := toy_codec) toy_supply SHA256) toy_claims 2 false {| salts_drawn := 0; decoys_asked := 0 |}
      = Ok (VObject payload, ds, st') /\
    exists claims, ResolveDisclosures (H := toy_codec) payload SHA256 ds = Ok claims /\ same (VObject claims) (strip (Object toy_claims)).
Proof.
  destruct (sealObject (H := toy_codec) toy_supply SHA256 (seal (H := toy_codec) toy_supply SHA256) toy_claims 2 false {| salts_drawn := 0; decoys_asked := 0 |})
    as [[[[| | | | | |payload| | | | |] ds] st']|] eqn:E; try (vm_compute in E; discriminate E).
  exists payload, ds, st'; split; [reflexivity|].
  assert (Hwf : claim_wf (Object toy_claims)) by (cbn; split_and!; try done; apply (bool_decide_unpack _); vm_compute; exact I).
  assert (Hh : Z.of_nat (height (Object toy_claims)) <= MaxResolveDepth + 1) by (vm_compute; discriminate).
  assert (Hnd : NoDup (refs (VObject payload) ++ value_refs ds))
    by (vm_compute in E; injection E as <- <- _; apply (bool_decide_unpack _); vm_compute; exact I).
  destruct (seal_resolve (H := toy_codec) toy_supply SHA256 toy_claims 2 false _ _ _ _ Hwf Hh E Hnd) as (T & HT & Hsh & Hre & Hres).
  destruct (Hres every ds) as (claims & Hc & Hsame); [by symmetry|]; exists claims; split; [exact Hc|]; by rewrite <- Hre.
Defined.
