(* ===== verification/SdPresent.v ===== *)
(** * A presentation of what was chosen resolves

    What [SelectDisclosuresAt] selects is closed: each disclosure with those
    around it.  So whatever paths a Holder is asked for, the presentation
    resolves; and what it may leave out of a path. *)
From S2P Require Import Prelude B64Url Json DcqlPath DcqlQuery DcqlValues SdJwt SdTree SdSeal SdSelect.
#[local] Open Scope Z_scope.

(** ** Closed choices *)

(** A choice by the digests selected. *)
Definition chose (X : gset string) (s : string) : bool := bool_decide (s ∈ X).

Lemma chose_true X s : chose X s = true <-> s ∈ X.
Proof. apply bool_decide_eq_true. Qed.

(** The digests whose disclosures a choice shows. *)
Definition in_shown (X : gset string) (T : tree) (s : string) (d : Disclosure) : Prop := (s, Some d) ∈ met (chose X) T.

Section Trees.
Context (X : gset string).

Lemma in_shown_object ms decoys s d :
  in_shown X (Obj ms decoys) s d <->
  (exists k t, (k, t) ∈ plain ms /\ in_shown X t s d) \/
  (exists m, m ∈ hidden ms /\ m.2.1.2 ∈ X /\ (m.2.1 = (d, s) \/ in_shown X m.2.2 s d)).
Proof using.
  unfold in_shown; rewrite met_object, elem_of_app, !list_elem_of_bind; split.
  - intros [([k t] & Hin & Hp)|(e & Hin & He)]; [left; by exists k, t|right].
    unfold entries in He; apply elem_of_app in He as [He|He]; apply list_elem_of_fmap in He as (m & -> & Hm).
    + exists m; destruct m as [k [[d' s'] t]]; cbn [met_entry met_label shows app fst snd] in *.
      destruct (chose X s') eqn:Ec; [apply chose_true in Ec|].
      * apply elem_of_cons in Hin as [Heq|Hin]; [injection Heq as -> ->|]; auto.
      * apply list_elem_of_singleton in Hin; done.
    + cbn [met_entry] in Hin; by apply list_elem_of_singleton in Hin.
  - intros [(k & t & Hp & Hin)|(m & Hm & HX & Hd)]; [left; by exists (k, t)|right].
    exists (m.2.1.2, Some m); split; [|unfold entries; apply elem_of_app; left; apply list_elem_of_fmap; by exists m].
    destruct m as [k [[d' s'] t]]; cbn [met_entry met_label shows app fst snd] in *; rewrite (proj2 (chose_true X s') HX).
    destruct Hd as [[= -> ->]|Hin]; [by left|by right].
Qed.

Lemma in_shown_array ls s d :
  in_shown X (Arr ls) s d <->
  exists l t, (l, t) ∈ ls /\
    match l with
    | None => in_shown X t s d
    | Some (d', s') => s' ∈ X /\ ((d', s') = (d, s) \/ in_shown X t s d)
    end.
Proof using.
  unfold in_shown; rewrite met_array, list_elem_of_bind; split.
  - intros ([l t] & Hin & Hl); exists l, t; split; [done|]; unfold met_element in Hin; cbn [fst snd] in Hin.
    destruct l as [[d' s']|]; cbn [met_label shows app] in Hin; [|done]; destruct (chose X s') eqn:Ec.
    + apply chose_true in Ec; apply elem_of_cons in Hin as [Heq|Hin]; [injection Heq as -> ->|]; auto.
    + by apply list_elem_of_singleton in Hin.
  - intros (l & t & Hl & Hin); exists (l, t); split; [|done]; unfold met_element; cbn [fst snd].
    destruct l as [[d' s']|]; cbn [met_label shows app]; [|done]; destruct Hin as [HX Hin]; rewrite (proj2 (chose_true X s') HX).
    destruct Hin as [[= -> ->]|Hin]; [by left|by right].
Qed.

End Trees.

Lemma in_shown_mono X Y T s d : X ⊆ Y -> in_shown X T s d -> in_shown Y T s d.
Proof.
  intros HXY; induction T as [v|ms decoys IH|ls IH] using tree_nested_ind; [by intros ?%elem_of_nil| |].
  - rewrite !in_shown_object; rewrite Forall_forall in IH.
    assert (Hpl : forall k t, (k, t) ∈ plain ms -> exists l, (k, (l, t)) ∈ ms).
    { clear; intros k t; induction ms as [|[k' [l t']] ms IHm]; [by intros ?%elem_of_nil|]; rewrite plain_cons; destruct l.
      - intros Hin; destruct (IHm Hin) as (l' & Hl'); exists l'; by right.
      - intros [[= -> ->]|Hin]%elem_of_cons; [exists None; by left|]; destruct (IHm Hin) as (l' & Hl'); exists l'; by right. }
    assert (Hhid : forall m, m ∈ hidden ms -> exists l, (m.1, (l, m.2.2)) ∈ ms).
    { clear; intros m; induction ms as [|[k' [l t']] ms IHm]; [by intros ?%elem_of_nil|]; rewrite hidden_cons; destruct l.
      - intros [->|Hin]%elem_of_cons; [eexists; by left|]; destruct (IHm Hin) as (l' & Hl'); exists l'; by right.
      - intros Hin; destruct (IHm Hin) as (l' & Hl'); exists l'; by right. }
    intros [(k & t & Hp & Hin)|(m & Hm & HX & Hd)].
    + left; exists k, t; split; [done|]; destruct (Hpl _ _ Hp) as (l & Hl); by apply (IH _ Hl).
    + right; exists m; split_and!; [done|set_solver|]; destruct Hd as [|Hin]; [by left|right].
      destruct (Hhid _ Hm) as (l & Hl); by apply (IH _ Hl).
  - rewrite !in_shown_array; rewrite Forall_forall in IH; intros (l & t & Hl & Hin); exists l, t; split; [done|].
    destruct l as [[d' s']|]; [|by apply (IH _ Hl)]; destruct Hin as [HX Hin]; split; [set_solver|].
    destruct Hin as [|Hin]; [by left|right; by apply (IH _ Hl)].
Qed.

Section Closed.
Context `{Codec} (alg : string) (byDigest : gmap string Disclosure) (T : tree).

(** Selected digests show in the tree, with the disclosures the map has. *)
Definition closed (sel : gmap string Disclosure) : Prop :=
  forall s d, sel !! s = Some d -> in_shown (dom sel) T s d.

(** What shows in a subtree shows in the tree, under any larger choice. *)
Definition reached (X : gset string) (t : tree) : Prop :=
  forall Y s d, X ⊆ Y -> in_shown Y t s d -> in_shown Y T s d.

(** The disclosures of a subtree, by their digests; its decoys have none. *)
Definition known (t : tree) : Prop := Forall (fun m => byDigest !! m.1 = m.2) (met every t).

Lemma reached_mono X Y t : X ⊆ Y -> reached X t -> reached Y t.
Proof using. intros HXY Hr Z s d HZ; apply Hr; set_solver. Qed.

(** Marking a disclosure whose place is reached. *)
Lemma closed_insert sel t s d :
  closed sel -> reached (dom sel) t -> in_shown ({[s]} ∪ dom sel) t s d -> closed (<[s := d]> sel).
Proof using.
  intros Hc Hr Hin s' d'; rewrite lookup_insert_Some, dom_insert_L; intros [[<- <-]|[_ Hs]].
  - apply (Hr ({[s]} ∪ dom sel)); [set_solver|done].
  - eapply in_shown_mono; [|by apply Hc]; set_solver.
Qed.

(** A step that keeps the selection closed. *)
Definition keeps (sel sel' : gmap string Disclosure) : Prop := closed sel' /\ dom sel ⊆ dom sel'.

Lemma select_each_keeps {A} (f : A -> gmap string Disclosure -> res select_error (gmap string Disclosure)) l :
  forall sel sel', select_each f l sel = Ok sel' -> closed sel ->
  (forall x s s', x ∈ l -> f x s = Ok s' -> closed s -> dom sel ⊆ dom s -> keeps s s') -> keeps sel sel'.
Proof using.
  induction l as [|x l IH]; intros sel sel' Hs Hc Hf; cbn [select_each] in Hs; [injection Hs as <-; by split|].
  apply res_bind_ok in Hs as (s1 & Hx & Hs); destruct (Hf x sel s1 ltac:(left) Hx Hc ltac:(done)) as [Hc1 Hd1].
  destruct (IH s1 sel' Hs Hc1) as [Hc2 Hd2].
  { intros y s s' Hy Hfy Hcs Hds; apply (Hf y); [by right|done|done|set_solver]. }
  split; [done|set_solver].
Qed.

(** Marking, then going on below: the two steps together. *)
Lemma keeps_insert sel s d sel' : keeps (<[s := d]> sel) sel' -> keeps sel sel'.
Proof using. intros [Hc Hd]; split; [done|]; rewrite dom_insert_L in Hd; set_solver. Qed.

(** *** Subtrees *)

Lemma reached_plain X ms decoys k t : reached X (Obj ms decoys) -> (k, t) ∈ plain ms -> reached X t.
Proof using. intros Hr Hin Y s d HY Hs; apply Hr; [done|]; apply in_shown_object; left; by exists k, t. Qed.

Lemma reached_hidden X ms decoys m : reached X (Obj ms decoys) -> m ∈ hidden ms -> reached ({[m.2.1.2]} ∪ X) m.2.2.
Proof using.
  intros Hr Hin Y s d HY Hs; apply Hr; [set_solver|]; apply in_shown_object; right; exists m; split_and!; [done|set_solver|by right].
Qed.

Lemma shown_here X ms decoys k d s t : (k, ((d, s), t)) ∈ hidden ms -> in_shown ({[s]} ∪ X) (Obj ms decoys) s d.
Proof using. intros Hin; apply in_shown_object; right; exists (k, ((d, s), t)); split_and!; [done|set_solver|by left]. Qed.

Lemma reached_element X ls t : reached X (Arr ls) -> (None, t) ∈ ls -> reached X t.
Proof using. intros Hr Hin Y s d HY Hs; apply Hr; [done|]; apply in_shown_array; by exists None, t. Qed.

Lemma reached_element_sd X ls d s t : reached X (Arr ls) -> (Some (d, s), t) ∈ ls -> reached ({[s]} ∪ X) t.
Proof using.
  intros Hr Hin Y s' d' HY Hs; apply Hr; [set_solver|]; apply in_shown_array; exists (Some (d, s)), t; split; [done|].
  split; [set_solver|by right].
Qed.

Lemma shown_here_element X ls d s t : (Some (d, s), t) ∈ ls -> in_shown ({[s]} ∪ X) (Arr ls) s d.
Proof using. intros Hin; apply in_shown_array; exists (Some (d, s)), t; split; [done|]; split; [set_solver|by left]. Qed.

Lemma known_object ms decoys : known (Obj ms decoys) ->
  (forall k t, (k, t) ∈ plain ms -> known t) /\
  (forall k d s t, (k, ((d, s), t)) ∈ hidden ms -> byDigest !! s = Some d /\ known t) /\
  (forall s, s ∈ decoys -> byDigest !! s = None).
Proof using.
  unfold known; rewrite met_object, Forall_app, !Forall_bind; intros [Hp He]; unfold entries in He; apply Forall_app in He as [Hh Hd].
  rewrite Forall_forall in Hp; rewrite Forall_forall in Hh; rewrite Forall_forall in Hd; split_and!.
  - intros k t Hin; apply (Hp _ Hin).
  - intros k d s t Hin; specialize (Hh _ (list_elem_of_fmap_2 _ _ _ Hin)); cbn in Hh.
    apply Forall_cons in Hh as [Hs Ht]; split; [exact Hs|exact Ht].
  - intros s Hin; specialize (Hd _ (list_elem_of_fmap_2 _ _ _ Hin)); cbn in Hd; by apply Forall_cons in Hd as [Hs _].
Qed.

Lemma known_array ls : known (Arr ls) ->
  forall l t, (l, t) ∈ ls -> known t /\ match l with Some (d, s) => byDigest !! s = Some d | None => True end.
Proof using.
  unfold known; rewrite met_array, Forall_bind, Forall_forall; intros Hl l t Hin; specialize (Hl _ Hin).
  unfold met_element in Hl; cbn [fst snd] in Hl; destruct l as [[d s]|]; cbn in Hl; [|done].
  apply Forall_cons in Hl as [Hs Ht]; split; [exact Ht|exact Hs].
Qed.

Lemma Forall2_elem_r {A B} (R : A -> B -> Prop) l k y : Forall2 R l k -> y ∈ k -> exists x, x ∈ l /\ R x y.
Proof using.
  intros Hf Hy; apply list_elem_of_lookup in Hy as [i Hi]; destruct (Forall2_lookup_r _ _ _ _ _ Hf Hi) as (x & Hx & HR).
  exists x; split; [by eapply list_elem_of_lookup_2|done].
Qed.

(** The members and digests of an object that carries a tree. *)
Lemma object_member n top ms decoys o p : carries alg (S n) top (Obj ms decoys) (VObject o) -> p ∈ o -> structural p.1 = false ->
  exists t, (p.1, t) ∈ plain ms /\ carries alg n false t p.2.
Proof using.
  intros (_ & _ & _ & _ & Hpl & _) Hp Hs.
  assert (Hv : p ∈ visible o) by (apply list_elem_of_filter; by split).
  destruct (Forall2_elem_r _ _ _ _ Hpl Hv) as ([k t] & Hin & Hk & Hc); cbn in Hk, Hc; subst k; by exists t.
Qed.

Lemma object_digest n top ms decoys o s : carries alg (S n) top (Obj ms decoys) (VObject o) -> s ∈ sdDigests o ->
  s ∈ decoys \/ exists k d t, (k, ((d, s), t)) ∈ hidden ms /\ Name d = k /\ IsArrayElement d = false /\ carries alg n false t (Value d).
Proof using.
  intros (_ & _ & _ & _ & _ & (l & Hl & Hp) & Hhid) Hs; unfold sdDigests in Hs.
  rewrite (sd_array_strings _ _ Hl), Hp in Hs; apply elem_of_app in Hs as [Hs|Hs]; [right|by left].
  apply list_elem_of_fmap in Hs as ([k [[d s'] t]] & -> & Hin); rewrite Forall_forall in Hhid.
  destruct (Hhid _ Hin) as (Hn & Ha & _ & Hc); cbn in *; eauto 10.
Qed.

Definition including (n : nat) : Prop := forall top t v fuel sel sel',
  carries alg n top t v -> known t ->
  includeAllDisclosures (includeDisclosure byDigest fuel) v sel = Ok sel' ->
  closed sel -> reached (dom sel) t -> keeps sel sel'.

(** Marking a hidden value and all within it. *)
Lemma include_marked n t0 t d s fuel sel sel' : including n -> carries alg n false t (Value d) -> known t ->
  byDigest !! s = Some d -> reached (dom sel) t0 -> in_shown ({[s]} ∪ dom sel) t0 s d -> reached ({[s]} ∪ dom sel) t ->
  includeDisclosure byDigest fuel s sel = Ok sel' -> closed sel -> keeps sel sel'.
Proof using.
  intros Hinc Hcar Hkn Hby Hr0 Hin Hr Hs Hc; destruct fuel as [|fuel]; [done|]; rewrite includeDisclosure_S in Hs.
  destruct (sel !! s); [injection Hs as <-; by split|]; rewrite Hby in Hs.
  apply (keeps_insert _ s d); eapply Hinc; [exact Hcar|exact Hkn|exact Hs| |by rewrite dom_insert_L].
  by eapply closed_insert.
Qed.

Lemma include_keeps n : including n.
Proof using.
  induction n as [|n IH]; intros top t v fuel sel sel' Hcar Hkn Hs Hc Hr; [done|].
  destruct t as [w|ms decoys|ls].
  - cbn [carries] in Hcar; destruct v; try done; cbn [includeAllDisclosures] in Hs; injection Hs as <-; by split.
  - pose proof Hcar as Hcar0; cbn [carries] in Hcar; destruct v as [| | | | | |o| | | | |]; try done; clear Hcar.
    destruct (known_object ms decoys Hkn) as (Hkp & Hkh & Hkd); cbn [includeAllDisclosures] in Hs; apply res_bind_ok in Hs as (s1 & Hm & Hd).
    assert (H1 : keeps sel s1).
    { eapply select_each_keeps; [exact Hm|done|]; intros [k v] s s' Hp Hf Hcs Hds; cbn [fst snd] in Hf.
      destruct (String.eqb k "_sd" || String.eqb k "_sd_alg")%bool eqn:Ek; [injection Hf as <-; by split|].
      destruct (object_member _ _ _ _ _ _ Hcar0 Hp Ek) as (t & Ht & Hct); eapply IH; [exact Hct|by eapply Hkp|exact Hf|done|].
      eapply reached_mono; [exact Hds|]; by eapply reached_plain. }
    destruct H1 as [Hc1 Hd1]; enough (keeps s1 sel') as [Hc2 Hd2] by (split; [done|set_solver]).
    eapply select_each_keeps; [exact Hd|done|]; intros digest s s' Hp Hf Hcs Hds.
    assert (Hrs : reached (dom s) (Obj ms decoys)) by (eapply reached_mono; [|exact Hr]; set_solver).
    destruct (object_digest _ _ _ _ _ _ Hcar0 Hp) as [Hdec|(k & d & t & Hin & _ & _ & Hct)].
    + apply Hkd in Hdec; destruct fuel as [|fuel]; [done|]; rewrite includeDisclosure_S, Hdec in Hf.
      destruct (s !! digest); injection Hf as <-; by split.
    + destruct (Hkh _ _ _ _ Hin) as [Hby Hkt].
      eapply (include_marked n (Obj ms decoys) t d digest); try done; [by eapply shown_here|].
      exact (reached_hidden _ _ _ _ Hrs Hin).
  - cbn [carries] in Hcar; destruct v as [| | | | | | |arr| | | |]; try done; cbn [includeAllDisclosures] in Hs.
    eapply select_each_keeps; [exact Hs|done|]; intros el s s' Hp Hf Hcs Hds.
    assert (Hrs : reached (dom s) (Arr ls)) by (eapply reached_mono; [exact Hds|exact Hr]).
    destruct (Forall2_elem_r _ _ _ _ Hcar Hp) as ([[[d digest]|] t] & Hin & He); destruct (known_array _ Hkn _ _ Hin) as [Hkt Hby]; cbn [carries_element] in He.
    + destruct He as (-> & _ & _ & Hct); change (disclosureRefDigest (VObject [("...", VString digest)]%string)) with (Some digest) in Hf; cbv iota in Hf.
      eapply (include_marked n (Arr ls) t d digest); try done; [by eapply shown_here_element|by eapply reached_element_sd].
    + destruct He as [Href Hct]; unfold disclosureRefDigest in Hf; rewrite Href in Hf.
      eapply IH; [exact Hct|done|exact Hf|done|by eapply reached_element].
Qed.

(** *** Paths *)

(** A string, or an array of strings: nothing to select in. *)
Definition flat (v : goval) : Prop :=
  match v with
  | VString _ => True
  | VArray l => Forall (fun v => match v with VString _ => True | _ => False end) l
  | _ => False
  end.

Lemma flat_elements l : Forall (fun v => match v with VString _ => True | _ => False end) l ->
  resolveElements byDigest l = (fun v => {| el_value := v; el_digest := "" |}) <$> l.
Proof using. induction 1 as [|v l Hv _ IH]; [done|]; destruct v; try done; cbn [resolveElements disclosureRefDigest disclosure_ref]; by rewrite IH. Qed.

Lemma mark_plain v sel : mark_element byDigest {| el_value := v; el_digest := "" |} sel = sel.
Proof using. unfold mark_element; cbn [el_digest]; by destruct (byDigest !! ""%string). Qed.

Lemma select_each_same {A} (f : A -> gmap string Disclosure -> res select_error (gmap string Disclosure)) l sel sel' :
  select_each f l sel = Ok sel' -> (forall x s', x ∈ l -> f x sel = Ok s' -> s' = sel) -> sel' = sel.
Proof using.
  revert sel'; induction l as [|x l IH]; intros sel' Hs Hf; cbn [select_each] in Hs; [by injection Hs as <-|].
  apply res_bind_ok in Hs as (s1 & Hx & Hs); rewrite (Hf x s1 ltac:(left) Hx) in Hs; apply IH; [done|].
  intros y s' Hy; apply Hf; by right.
Qed.

Lemma selectPath_flat path : forall v sel sel', flat v -> selectPath byDigest path v sel = Ok sel' -> sel' = sel.
Proof using.
  induction path as [|c path IH]; intros v sel sel' Hv Hs; cbn [selectPath] in Hs.
  - destruct v as [| | | | | | |arr| | | |]; try done; cbn [includeAllDisclosures] in Hs; [by injection Hs as <-|].
    eapply select_each_same; [exact Hs|]; intros el s' Hel Hf; cbn [flat] in Hv; rewrite Forall_forall in Hv; specialize (Hv _ Hel).
    destruct el; try done; cbn in Hf; by injection Hf as <-.
  - destruct c as [key|i| |]; [by destruct v| | |done].
    + destruct (i <? 0); [done|]; destruct v as [| | | | | | |arr| | | |]; try done; cbn [flat] in Hv; rewrite (flat_elements _ Hv), list_lookup_fmap in Hs.
      destruct (arr !! Z.to_nat i) as [w|] eqn:Ew; cbn [fmap option_map option_fmap] in Hs; [|by injection Hs as <-].
      rewrite mark_plain in Hs; eapply IH; [|exact Hs]; cbn [el_value]; rewrite Forall_forall in Hv; apply list_elem_of_lookup_2, Hv in Ew; by destruct w.
    + destruct v as [| | | | | | |arr| | | |]; try done; cbn [flat] in Hv; rewrite (flat_elements _ Hv) in Hs.
      eapply select_each_same; [exact Hs|]; intros el s' Hel Hf; apply list_elem_of_fmap in Hel as (w & -> & Hw); rewrite mark_plain in Hf; cbn [el_value] in Hf.
      destruct (walkable w path); [|by injection Hf as <-]; eapply IH; [|exact Hf]; rewrite Forall_forall in Hv; apply Hv in Hw; by destruct w.
Qed.

(** What resolveElements finds of an array that carries a tree. *)
Lemma resolveElements_elem arr el : el ∈ resolveElements byDigest arr ->
  exists v, v ∈ arr /\
    ((disclosureRefDigest v = None /\ el = {| el_value := v; el_digest := "" |}) \/
     (exists s d, disclosureRefDigest v = Some s /\ byDigest !! s = Some d /\ el = {| el_value := Value d; el_digest := s |})).
Proof using.
  induction arr as [|v arr IH]; cbn [resolveElements]; [by intros ?%elem_of_nil|].
  assert (Hrest : el ∈ resolveElements byDigest arr -> exists v0, v0 ∈ v :: arr /\
    ((disclosureRefDigest v0 = None /\ el = {| el_value := v0; el_digest := "" |}) \/
     (exists s d, disclosureRefDigest v0 = Some s /\ byDigest !! s = Some d /\ el = {| el_value := Value d; el_digest := s |})))
    by (intros Hin; destruct (IH Hin) as (w & Hw & Hel); exists w; split; [by right|done]).
  destruct (disclosureRefDigest v) as [s|] eqn:Ev; [destruct (byDigest !! s) as [d|] eqn:Ed|]; [|exact Hrest|].
  - intros [->|Hin]%elem_of_cons; [|auto]; exists v; split; [by left|right; eauto].
  - intros [->|Hin]%elem_of_cons; [|auto]; exists v; split; [by left|by left].
Qed.

Context (Hempty : byDigest !! ""%string = None).

Definition alg_flat (v : goval) : Prop :=
  match v with VObject o => forall a, member "_sd_alg" o = Some a -> flat a | _ => True end.

Lemma carries_alg_flat n t v : carries alg n false t v -> alg_flat v.
Proof using.
  destruct n as [|n]; [done|]; destruct t, v; try done; intros (_ & _ & _ & Ha & _) a Hm; destruct (Ha eq_refl).
  apply member_Some_elem in Hm; by apply (list_elem_of_fmap_2 fst _ _ Hm).
Qed.

Definition walking (path : list component) : Prop := forall n top t v sel sel',
  carries alg n top t v -> alg_flat v -> known t -> selectPath byDigest path v sel = Ok sel' ->
  closed sel -> reached (dom sel) t -> keeps sel sel'.

(** Walking on into a value behind a disclosure, marked on the way. *)
Lemma walk_marked path n t0 t d s sel sel' : walking path -> carries alg n false t (Value d) -> known t ->
  reached (dom sel) t0 -> in_shown ({[s]} ∪ dom sel) t0 s d -> reached ({[s]} ∪ dom sel) t ->
  selectPath byDigest path (Value d) (<[s := d]> sel) = Ok sel' -> closed sel -> keeps sel sel'.
Proof using.
  intros Hw Hcar Hkn Hr0 Hin Hr Hs Hc; apply (keeps_insert _ s d).
  eapply Hw; [exact Hcar|by eapply carries_alg_flat|exact Hkn|exact Hs| |by rewrite dom_insert_L].
  by eapply closed_insert.
Qed.

(** One element of an array, walked on into. *)
Lemma walk_element path n ls arr el s s' : walking path -> Forall2 (carries_element alg (carries alg n false)) ls arr -> known (Arr ls) ->
  el ∈ resolveElements byDigest arr -> selectPath byDigest path (el_value el) (mark_element byDigest el s) = Ok s' ->
  closed s -> reached (dom s) (Arr ls) -> keeps s s'.
Proof using Hempty.
  intros Hw Hcar Hkn Hel Hs Hc Hr; destruct (resolveElements_elem _ _ Hel) as (v & Hv & Hcase).
  destruct (Forall2_elem_r _ _ _ _ Hcar Hv) as ([[[d digest]|] t] & Hin & He); destruct (known_array _ Hkn _ _ Hin) as [Hkt Hby]; cbn [carries_element] in He.
  - destruct He as (-> & _ & _ & Hct); change (disclosureRefDigest (VObject [("...", VString digest)]%string)) with (Some digest) in Hcase.
    destruct Hcase as [[? _]|(x & d' & [= <-] & Hd' & ->)]; [done|]; assert (d' = d) as -> by congruence; cbn [el_value] in Hs.
    assert (Hm : mark_element byDigest {| el_value := Value d; el_digest := digest |} s = <[digest := d]> s).
    { unfold mark_element; cbn [el_digest]; rewrite Hby; destruct (String.eqb_spec digest "") as [->|]; [congruence|done]. }
    rewrite Hm in Hs; eapply (walk_marked path n (Arr ls) t d digest); try done; [by eapply shown_here_element|by eapply reached_element_sd].
  - destruct He as [Href Hct]; unfold disclosureRefDigest in Hcase; rewrite Href in Hcase.
    destruct Hcase as [[_ ->]|(x & d' & ? & _)]; [|done]; cbn [el_value] in Hs; rewrite mark_plain in Hs.
    eapply Hw; [exact Hct|by eapply carries_alg_flat|done|exact Hs|done|by eapply reached_element].
Qed.

Lemma find_member_some key l s d : find_member byDigest key l = Some (s, d) -> s ∈ l /\ byDigest !! s = Some d.
Proof using.
  induction l as [|x l IH]; cbn [find_member]; [done|]; destruct (byDigest !! x) as [d'|] eqn:E.
  - destruct (IsArrayElement d' || negb (String.eqb (Name d') key))%bool.
    + intros Hf; destruct (IH Hf); split; [by right|done].
    + intros [= <- <-]; split; [by left|done].
  - intros Hf; destruct (IH Hf); split; [by right|done].
Qed.

Lemma structural_flat n top ms decoys o key child : carries alg (S n) top (Obj ms decoys) (VObject o) -> alg_flat (VObject o) ->
  structural key = true -> member key o = Some child -> flat child.
Proof using.
  intros (_ & _ & _ & _ & _ & (l & Hl & _) & _) Ha Hk Hm; unfold structural in Hk; apply orb_true_iff in Hk as [Hk|Hk]; apply String.eqb_eq in Hk as ->.
  - unfold sd_array in Hl; rewrite Hm in Hl; subst child; cbn [flat]; apply Forall_fmap, Forall_true; done.
  - by apply Ha.
Qed.

Lemma walk_member path n top ms decoys o key sel sel' : walking path -> carries alg (S n) top (Obj ms decoys) (VObject o) ->
  alg_flat (VObject o) -> known (Obj ms decoys) -> selectPath byDigest (Key key :: path) (VObject o) sel = Ok sel' ->
  closed sel -> reached (dom sel) (Obj ms decoys) -> keeps sel sel'.
Proof using.
  intros Hw Hcar Ha Hkn Hs Hc Hr; destruct (known_object ms decoys Hkn) as (Hkp & Hkh & Hkd); cbn [selectPath] in Hs.
  destruct (member key o) as [child|] eqn:Em.
  - destruct (structural key) eqn:Ek.
    + apply selectPath_flat in Hs as ->; [by split|by eapply structural_flat].
    + destruct (object_member _ _ _ _ _ (key, child) Hcar) as (t & Ht & Hct); [by apply member_Some_elem|done|]; cbn [fst snd] in *.
      eapply Hw; [exact Hct|by eapply carries_alg_flat|by eapply Hkp|exact Hs|done|by eapply reached_plain].
  - destruct (find_member byDigest key (sdDigests o)) as [[s d]|] eqn:Ef; [|injection Hs as <-; by split].
    apply find_member_some in Ef as [Hin Hby].
    destruct (object_digest _ _ _ _ _ _ Hcar Hin) as [Hdec|(k & d' & t & Hh & _ & _ & Hct)]; [apply Hkd in Hdec; congruence|].
    destruct (Hkh _ _ _ _ Hh) as [Hby' Hkt]; assert (d' = d) as -> by congruence.
    eapply (walk_marked path n (Obj ms decoys) t d s); try done; [by eapply shown_here|exact (reached_hidden _ _ _ _ Hr Hh)].
Qed.

Lemma selectPath_keeps path : walking path.
Proof using Hempty.
  induction path as [|c path IH]; intros n top t v sel sel' Hcar Ha Hkn Hs Hc Hr; [by eapply include_keeps|].
  destruct n as [|n]; [done|]; destruct c as [key|i| |]; [| | |done].
  - destruct v as [| | | | | |o| | | | |]; try done; destruct t as [w|ms decoys|ls]; try done; by eapply walk_member.
  - cbn [selectPath] in Hs; destruct (i <? 0); [done|]; destruct v as [| | | | | | |arr| | | |]; try done; destruct t as [w|ms decoys|ls]; try done.
    destruct (resolveElements byDigest arr !! Z.to_nat i) as [el|] eqn:El; [|injection Hs as <-; by split].
    apply list_elem_of_lookup_2 in El; by eapply walk_element.
  - cbn [selectPath] in Hs; destruct v as [| | | | | | |arr| | | |]; try done; destruct t as [w|ms decoys|ls]; try done.
    eapply select_each_keeps; [exact Hs|done|]; intros el s s' Hel Hf Hcs Hds; cbv beta in Hf.
    destruct (walkable (el_value el) path); [|injection Hf as <-; by split].
    eapply walk_element; [exact IH|exact Hcar|exact Hkn|exact Hel|exact Hf|exact Hcs|]; by eapply reached_mono.
Qed.

End Closed.

(** ** Presentations *)

Lemma in_shown_chosen X T s d : in_shown X T s d -> s ∈ X.
Proof.
  revert s d; induction T as [v|ms decoys IH|ls IH] using tree_nested_ind; intros s d; [by intros ?%elem_of_nil| |].
  - rewrite in_shown_object; rewrite Forall_forall in IH.
    assert (Hsub : forall t, (exists k, (k, t) ∈ plain ms) \/ (exists m, m ∈ hidden ms /\ m.2.2 = t) -> exists m, m ∈ ms /\ m.2.2 = t).
    { clear; induction ms as [|[k' [l t']] ms IHm]; intros t; rewrite ?plain_cons, ?hidden_cons; [intros [[k Hk]|(m & Hm & _)]; by apply elem_of_nil in Hk || by apply elem_of_nil in Hm|].
      intros Hin; assert (Hcase : t' = t \/ ((exists k, (k, t) ∈ plain ms) \/ (exists m, m ∈ hidden ms /\ m.2.2 = t))).
      { destruct l; destruct Hin as [[k Hk]|(m & Hm & Ht)]; try (right; left; by exists k); try (right; right; by exists m).
        - apply elem_of_cons in Hm as [->|Hm]; [by left|right; right; by exists m].
        - apply elem_of_cons in Hk as [[= -> ->]|Hk]; [by left|right; left; by exists k]. }
      destruct Hcase as [<-|Hc]; [eexists; split; [by left|done]|]; destruct (IHm t Hc) as (m & Hm & Ht); exists m; split; [by right|done]. }
    intros [(k & t & Hp & Hin)|(m & Hm & HX & [Heq|Hin])].
    + destruct (Hsub t) as (m & Hm & <-); [left; by exists k|]; by apply (IH _ Hm) in Hin.
    + by rewrite Heq in HX.
    + destruct (Hsub m.2.2) as (m' & Hm' & Heq); [right; by exists m|]; rewrite <- Heq in Hin; by apply (IH _ Hm') in Hin.
  - rewrite in_shown_array; rewrite Forall_forall in IH; intros (l & t & Hl & Hin).
    destruct l as [[d' s']|]; [|by apply (IH _ Hl) in Hin]; destruct Hin as [HX [[= -> ->]|Hin]]; [done|by apply (IH _ Hl) in Hin].
Qed.

Section Presentation.
Context `{Codec} (alg : string).

Lemma index_by_digest all : forall m m', by_digest alg all m = Ok m' -> index_disclosures alg all m = Ok m'.
Proof using.
  induction all as [|d all IH]; intros m m' Hm; cbn [by_digest index_disclosures] in *; [by injection Hm as <-|].
  destruct (Digest alg d) as [s|]; cbn [res_bind res_map_err] in *; [|done]; destruct (m !! s); [done|by apply IH].
Qed.

(** The disclosures of a closed selection are those it shows. *)
Lemma closed_shown T sel : NoDup (digests T) -> closed T sel -> (map_to_list sel).*2 ≡ₚ shown (chose (dom sel)) T.
Proof using.
  intros Hnd Hc; unfold shown; rewrite <- presented_shown; apply fmap_Permutation.
  assert (Hnd' : NoDup (met (chose (dom sel)) T).*1) by (eapply sublist_NoDup; [exact Hnd|apply met_sublist]).
  apply NoDup_Permutation; [apply NoDup_map_to_list| |].
  - apply (NoDup_fmap_1 fst); eapply sublist_NoDup; [exact Hnd'|apply presented_sublist].
  - intros [s d]; rewrite elem_of_map_to_list, presented_elem; split; [by apply Hc|]; intros Hin.
    pose proof (in_shown_chosen _ _ _ _ Hin) as Hs; apply elem_of_dom in Hs as [d' Hd']; pose proof (Hc _ _ Hd') as Hin'.
    pose proof (NoDup_keys_eq _ _ _ _ Hnd' Hin Hin'); congruence.
Qed.

Lemma SelectDisclosuresAt_closed T n payload all paths sel :
  carries alg n true T (VObject payload) -> alg_flat (VObject payload) -> NoDup (digests T) -> ""%string ∉ digests T ->
  all ≡ₚ shown every T -> SelectDisclosuresAt payload alg all paths = Ok sel -> closed T sel.
Proof using.
  intros Hcar Ha Hnd Hne Hall Hs; unfold SelectDisclosuresAt in Hs.
  destruct (by_digest_met alg every T all Hnd (carries_labelled alg every _ _ _ _ Hcar) Hall) as (m & Hm & Hf & Hback).
  rewrite (index_by_digest _ _ _ Hm) in Hs; cbn [res_bind] in Hs.
  assert (Hempty : m !! ""%string = None).
  { destruct (m !! ""%string) as [d|] eqn:E; [|done]; apply Hback in E; destruct Hne; apply (list_elem_of_fmap_2 fst _ _ E). }
  eapply (select_each_keeps T); [exact Hs|by intros s d Hl; rewrite lookup_empty in Hl|].
  intros path s s' _ Hp Hcs _; eapply (selectPath_keeps alg m T Hempty path); [exact Hcar|exact Ha|exact Hf|exact Hp|exact Hcs|].
  by intros Y x d _ Hx.
Qed.

End Presentation.

(** How many disclosures of sealed claims some paths select. *)
Definition selected_size (claims : list (string * claim)) (paths : list (list component)) : option nat :=
  match sealObject (H := toy_codec) toy_supply SHA256 (seal (H := toy_codec) toy_supply SHA256) claims 2 false {| salts_drawn := 0; decoys_asked := 0 |} with
  | Ok (VObject payload, ds, _) =>
      match SelectDisclosuresAt (H := toy_codec) payload SHA256 ds paths with Ok selected => Some (size selected) | Err _ => None end
  | _ => None
  end.

(** whatever paths a Holder is asked for, the disclosures selected of a
    sealed credential resolve, to the claims they reveal: none is left without
    the disclosures around it, and the walk never runs out. *)
Theorem selection_resolves `{Codec} (sup : supply) (alg : string) (m : list (string * claim)) (decoys : Z) (nested : bool)
    (st st' : drawn) (payload : list (string * goval)) (ds : list Disclosure) :
  claim_wf (Object m) -> Z.of_nat (height (Object m)) <= MaxResolveDepth + 1 ->
  sealObject sup alg (seal sup alg) m decoys nested st = Ok (VObject payload, ds, st') ->
  NoDup (""%string :: refs (VObject payload) ++ value_refs ds) ->
  exists T, tree_of (Object m) T /\
    forall paths,
      match SelectDisclosuresAt payload alg ds paths with
      | Err e => e <> OutOfFuel
      | Ok selected => exists claims, ResolveDisclosures payload alg (map_to_list selected).*2 = Ok claims /\
          same (VObject claims) (reveal (chose (dom selected)) T)
      end.
Proof.
  intros Hwf Hh Hs [Hne Hnd]%NoDup_cons.
  destruct (sealObject_ok sup alg m ltac:(apply Forall_true; intros; apply seal_right) _ _ _ _ _ _ Hs Hwf) as (T & HT & Hcar & Hsh).
  exists T; split; [done|]; intros paths.
  assert (Hc : forall top, carries alg (Z.to_nat (MaxResolveDepth + 1)) top T (VObject payload)) by (intros top; apply Hcar; lia).
  assert (Hrefs : digests T ≡ₚ refs (VObject payload) ++ value_refs ds) by (rewrite (digests_refs alg _ _ _ _ (Hc true)); by rewrite Hsh).
  rewrite <- Hrefs in Hne, Hnd.
  destruct (SelectDisclosuresAt payload alg ds paths) as [sel|e] eqn:Es; [|intros ->; by apply (SelectDisclosuresAt_fuel payload alg ds paths)].
  apply ResolveDisclosuresMax_tree; [done|done|]; apply closed_shown; [done|].
  eapply SelectDisclosuresAt_closed; [exact (Hc true)|exact (carries_alg_flat _ _ _ _ (Hc false))|done|done|by symmetry|exact Es].
Qed.

Lemma selection_resolves_witness :
  exists payload ds st' selected claims,
    sealObject (H := toy_codec) toy_supply SHA256 (seal (H := toy_codec) toy_supply SHA256) toy_claims 2 false {| salts_drawn := 0; decoys_asked := 0 |}
      = Ok (VObject payload, ds, st') /\
    SelectDisclosuresAt (H := toy_codec) payload SHA256 ds [[Key "address"; Key "street"]; [Key "nationalities"; Index 0]]%string = Ok selected /\
    size selected = 3%nat /\
    ResolveDisclosures (H := toy_codec) payload SHA256 (map_to_list selected).*2 = Ok claims.
Proof.
  destruct (sealObject (H := toy_codec) toy_supply SHA256 (seal (H := toy_codec) toy_supply SHA256) toy_claims 2 false {| salts_drawn := 0; decoys_asked := 0 |})
    as [[[[| | | | | |payload| | | | |] ds] st']|] eqn:E; try (vm_compute in E; discriminate E).
  assert (Hwf : claim_wf (Object toy_claims)) by (cbn; split_and!; try done; apply (bool_decide_unpack _); vm_compute; exact I).
  assert (Hh : Z.of_nat (height (Object toy_claims)) <= MaxResolveDepth + 1) by (vm_compute; discriminate).
  assert (Hnd : NoDup (""%string :: refs (VObject payload) ++ value_refs ds))
    by (vm_compute in E; injection E as <- <- _; apply (bool_decide_unpack _); vm_compute; exact I).
  destruct (selection_resolves (H := toy_codec) toy_supply SHA256 toy_claims 2 false _ _ _ _ Hwf Hh E Hnd) as (T & HT & Hsel).
  specialize (Hsel [[Key "address"; Key "street"]; [Key "nationalities"; Index 0]]%string).
  assert (Hsize : selected_size toy_claims [[Key "address"; Key "street"]; [Key "nationalities"; Index 0]]%string = Some 3%nat)
    by (vm_compute; reflexivity).
  unfold selected_size in Hsize; rewrite E in Hsize.
  destruct (SelectDisclosuresAt (H := toy_codec) payload SHA256 ds _) as [selected|e] eqn:Es; [|discriminate Hsize].
  destruct Hsel as (claims & Hc & _); exists payload, ds, st', selected, claims; split_and!; [reflexivity|exact Es| |exact Hc].
  by injection Hsize.
Defined.

(** ** What a path can miss *)

(** A claim in plain sight around one behind a disclosure, with another behind
    a disclosure of its own inside. *)
Definition nested_claims : list (string * claim) :=
  [("residence", Object [("address", SD (Object [("country", Scalar (VString "DE")); ("street", SD (Scalar (VString "Main")))]))])]%string.

(** a path need not disclose its whole value: a disclosure an earlier path
    only walked through is not looked into again, so asking for a claim inside
    a value before the value itself leaves the rest of it out. *)
Theorem SelectDisclosuresAt_incomplete :
  let country := [Key "residence"; Key "address"; Key "country"]%string in
  let whole := [Key "residence"]%string in
  selected_size nested_claims [whole] = Some 2%nat /\
  selected_size nested_claims [whole; country] = Some 2%nat /\ selected_size nested_claims [country; whole] = Some 1%nat.
Proof. split_and!; vm_compute; reflexivity. Qed.

(** ** What resolving leaves *)

(** No name of the SD-JWT's own structure, at any depth. *)
Fixpoint clean (v : goval) : Prop :=
  match v with
  | VObject o => foldr (fun p P => (structural p.1 = false /\ clean p.2) /\ P) True o
  | VArray l => foldr (fun v P => clean v /\ P) True l
  | _ => True
  end.

Lemma clean_object o : clean (VObject o) <-> Forall (fun p => structural p.1 = false /\ clean p.2) o.
Proof. cbn [clean]; induction o as [|p o IH]; cbn [foldr]; [by split|]; by rewrite IH, Forall_cons. Qed.

Lemma clean_array l : clean (VArray l) <-> Forall clean l.
Proof. cbn [clean]; induction l as [|p o IH]; cbn [foldr]; [by split|]; by rewrite IH, Forall_cons. Qed.

Lemma set_member_clean k v o : structural k = false -> clean v -> clean (VObject o) -> clean (VObject (set_member k v o)).
Proof.
  rewrite !clean_object; intros Hk Hv; induction 1 as [|[k' w] o [Hk' Hw] Ho IH]; cbn [set_member]; [by repeat constructor|].
  by destruct (String.eqb k' k); constructor.
Qed.

Section Clean.
Context (byDigest : gmap string Disclosure).
Context (Hnames : forall s d, byDigest !! s = Some d -> isReservedName (Name d) = false).

Definition cleans (rec : goval -> resolving -> res sd_error (goval * resolving)) : Prop :=
  forall v st w st', rec v st = Ok (w, st') -> clean w.

Lemma resolve_members_clean rec top m : cleans rec -> forall out st out' st',
  clean (VObject out) -> resolve_members rec top m out st = Ok (out', st') -> clean (VObject out').
Proof using.
  intros Hr; induction m as [|[k v] m IH]; intros out st out' st' Hout Hs; cbn [resolve_members] in Hs; [by injection Hs as <- <-|].
  destruct (String.eqb k "_sd_alg" && negb top)%bool; [done|]; destruct (String.eqb k "_sd" || String.eqb k "_sd_alg")%bool eqn:Ek; [by eapply IH|].
  apply res_bind_ok in Hs as ([w st1] & Hv & Hs); eapply IH; [|exact Hs]; apply set_member_clean; [exact Ek|by eapply Hr|done].
Qed.

Lemma resolve_digests_clean rec l : cleans rec -> forall out st out' st',
  clean (VObject out) -> resolve_digests byDigest rec l out st = Ok (out', st') -> clean (VObject out').
Proof using Hnames.
  intros Hr; induction l as [|v l IH]; intros out st out' st' Hout Hs; cbn [resolve_digests] in Hs; [by injection Hs as <- <-|].
  destruct v as [|s| | | | | | | | | |]; try done; destruct (bool_decide (s ∈ seen st)); [done|].
  destruct (byDigest !! s) as [d|] eqn:Ed; [|by eapply IH]; destruct (IsArrayElement d); [done|]; destruct (member (Name d) out); [done|].
  apply res_bind_ok in Hs as ([w st1] & Hv & Hs); eapply IH; [|exact Hs].
  apply set_member_clean; [by apply reserved_structural, (Hnames s)|by eapply Hr|done].
Qed.

Lemma resolve_elements_clean rec l : cleans rec -> forall out st out' st',
  Forall clean out -> resolve_elements byDigest rec l out st = Ok (out', st') -> Forall clean out'.
Proof using.
  intros Hr; induction l as [|v l IH]; intros out st out' st' Hout Hs; cbn [resolve_elements] in Hs; [by injection Hs as <- <-|].
  assert (Hrec : forall v st, (let? (w, st) := rec v st in resolve_elements byDigest rec l (out ++ [w]) st) = Ok (out', st') -> Forall clean out').
  { intros x st0 Hx; apply res_bind_ok in Hx as ([w st1] & Hv & Hx); eapply IH; [|exact Hx].
    apply Forall_app; split; [done|]; constructor; [by eapply Hr|constructor]. }
  destruct (disclosure_ref v) as [[|s| | | | | | | | | |]|]; try done; [|by eapply Hrec].
  destruct (bool_decide (s ∈ seen st)); [done|]; destruct (byDigest !! s) as [d|]; [|by eapply IH].
  destruct (IsArrayElement d); [|done]; exact (Hrec (Value d) _ Hs).
Qed.

Lemma resolveValue_clean n : forall top, cleans (resolveValue byDigest n top).
Proof using Hnames.
  induction n as [|n IH]; intros top v st w st' Hs; [done|]; cbn [resolveValue] in Hs.
  destruct v as [| | | | | |o|l| | | |]; try (by injection Hs as <- <-).
  - unfold resolveMap in Hs; apply res_bind_ok in Hs as ([out st1] & Hm & Hs); apply res_bind_ok in Hs as ([out' st2] & Hd & [= <- <-]).
    pose proof (resolve_members_clean _ _ _ (IH false) [] _ _ _ I Hm) as Hout; unfold resolveSDDigests in Hd.
    destruct (member "_sd" o) as [[| | | | | | |sd| | | |]|]; try done; [|by injection Hd as <- <-].
    by eapply resolve_digests_clean.
  - unfold resolveArray in Hs; apply res_bind_ok in Hs as ([out st1] & Hm & [= <- <-]); apply clean_array.
    by eapply (resolve_elements_clean _ _ (IH false) []).
Qed.

End Clean.

Lemma by_digest_names `{Codec} alg ds : Forall (fun d => isReservedName (Name d) = false) ds -> forall m m',
  (forall s d, m !! s = Some d -> isReservedName (Name d) = false) -> by_digest alg ds m = Ok m' ->
  forall s d, m' !! s = Some d -> isReservedName (Name d) = false.
Proof.
  induction 1 as [|d ds Hd _ IH]; intros m m' Hm Hs; cbn [by_digest] in Hs; [by injection Hs as <-|].
  apply res_bind_ok in Hs as (s & _ & Hs); destruct (m !! s); [done|]; eapply IH; [|exact Hs].
  intros x e; rewrite lookup_insert_Some; intros [[_ <-]|[_ Hx]]; [done|by eapply Hm].
Qed.

(** whatever the payload and the disclosures, claims that resolve hold no
    [_sd] and no [_sd_alg], at any depth, so long as no disclosure is of a
    reserved name (ParseDisclosure refuses one). *)
Theorem resolved_clean `{Codec} (payload claims : list (string * goval)) (alg : string) (ds : list Disclosure) (maxDepth : Z) :
  Forall (fun d => isReservedName (Name d) = false) ds ->
  ResolveDisclosuresMax payload alg ds maxDepth = Ok claims -> clean (VObject claims).
Proof.
  intros Hds Hs; unfold ResolveDisclosuresMax in Hs; apply res_bind_ok in Hs as (m & Hm & Hs).
  apply res_bind_ok in Hs as ([w st] & Hr & Hs); assert (Hw : clean w).
  { eapply (resolveValue_clean m); [|exact Hr]; eapply by_digest_names; [exact Hds| |exact Hm]; intros s d Hl; by rewrite lookup_empty in Hl. }
  destruct w; try done; go_if_in Hs; [done|]; by injection Hs as <-.
Qed.

(** A payload with a decoy and an object within. *)
Lemma resolved_clean_witness :
  exists claims, ResolveDisclosuresMax (H := toy_codec)
    [("_sd_alg", VString SHA256); ("a", VObject [("_sd", VArray [VString "x"]); ("b", VNil)])]%string SHA256 [] MaxResolveDepth = Ok claims /\
    clean (VObject claims).
Proof.
  eexists; split; [vm_compute; reflexivity|].
  apply (resolved_clean (H := toy_codec) [("_sd_alg", VString SHA256); ("a", VObject [("_sd", VArray [VString "x"]); ("b", VNil)])]%string _ SHA256 [] MaxResolveDepth).
  - constructor.
  - vm_compute; reflexivity.
Defined.
