(* ===== verification/SdVerify.v ===== *)
(** * Verifying an SD-JWT VC: [credential/sdjwtvc]'s presentation.go, keybinding.go and verify.go

    A presentation's compact form and its parts, a disclosure's text
    (disclosure.go), the Key Binding JWT, and [Verify] (RFC 9901 §7.1, §7.3).
    [Verify] reads the clock once here.  Signatures and JSON are the
    parameters of [Jws]. *)
From stdpp Require Import pretty sorting.
From S2P Require Import Prelude B64Url Json DcqlQuery DcqlValues Text JwtDate Jws SdJwt.
From Stdlib Require Import Ascii SpecFloat.
#[local] Open Scope Z_scope.

Inductive disclosure_error : Type :=
| ErrDisclosureBase64 (e : b64_error)
| ErrDisclosureJSON
| ErrSaltNotString
| ErrNameNotString
| ErrNameReserved (name : string)
| ErrValueJSON
| ErrDisclosureLength (n : Z).

Inductive kb_error : Type :=
| ErrKBMaxAge
| ErrKBSkew
| ErrKBExpected
| ErrKBSignature (e : jose_error)
| ErrKBTyp (typ : string)
| ErrKBClaims
| ErrKBAudience                       (* ErrNotThisRequest *)
| ErrKBNonce                          (* ErrNotThisRequest *)
| ErrKBSDHash
| ErrKBIat
| ErrKBIatRange
| ErrKBFuture
| ErrKBOld
| ErrKBWindow (e : validity_error)
with validity_error : Type :=
| ErrExpNotNumber
| ErrExpDate
| ErrHasExpired
| ErrNbfNotNumber
| ErrNbfDate
| ErrIsNotYetValid.

Inductive verify_error : Type :=
| ErrPresentationTooLarge (n : Z)
| ErrNoTilde
| ErrDisclosure (i : Z) (e : disclosure_error)
| ErrNoRequirement
| ErrNoKeyBinding
| ErrIssuerJWT (e : jose_error)
| ErrTyp (typ : string)
| ErrPayloadJSON
| ErrNoVCT
| ErrSkew
| ErrValidity (e : validity_error)
| ErrHash (e : sd_error)
| ErrAkaVCTs
| ErrRegisteredDisclosed (name : string)
| ErrRegisteredSubClaim
| ErrResolve (e : sd_error)
| ErrNoHolderKey
| ErrKeyBindingJWT (e : kb_error).

(** ErrNotThisRequest is wrapped by what two checks of a Key Binding JWT give. *)
Definition kb_not_this_request (e : kb_error) : bool :=
  match e with ErrKBAudience | ErrKBNonce => true | _ => false end.
Definition not_this_request (e : verify_error) : bool :=
  match e with ErrKeyBindingJWT e => kb_not_this_request e | _ => false end.

(** ** Presentations *)

Record Presentation : Type := {
  IssuerJWT : string;
  Disclosures : list Disclosure;
  KeyBindingJWT : string               (* "" for a bare SD-JWT *)
}.

Definition HasKeyBinding (p : Presentation) : bool := negb (String.eqb (KeyBindingJWT p) "").

Definition MaxBytes : Z := 2 ^ 20.

(** The JSON whitespace [raw] may start with, of what bytes.TrimSpace trims. *)
Fixpoint trim_left (raw : bytes) : bytes :=
  match raw with
  | c :: rest => if (c =? 32) || (9 <=? c) && (c <=? 13) then trim_left rest else raw
  | [] => []
  end.

Section Verify.
Context `{Codec} `{JsonText} `{Signatures}.

Definition jsonString (raw : bytes) : option string :=
  match trim_left raw with
  | 34 :: _ => match unmarshal_any raw with Some (VString s) => Some s | _ => None end
  | _ => None
  end.

Definition ParseDisclosure (s : string) : res disclosure_error Disclosure :=
  let? raw := res_map_err ErrDisclosureBase64 (b64_decode s) in
  match unmarshal_raws raw with
  | None => Err ErrDisclosureJSON
  | Some [a0; a1] =>
      match jsonString a0 with
      | None => Err ErrSaltNotString
      | Some salt =>
          match unmarshal_any a1 with
          | None => Err ErrValueJSON
          | Some v => Ok {| Salt := salt; Name := ""; Value := v; encoded := s; named := false |}
          end
      end
  | Some [a0; a1; a2] =>
      match jsonString a0 with
      | None => Err ErrSaltNotString
      | Some salt =>
          match jsonString a1 with
          | None => Err ErrNameNotString
          | Some name =>
              if isReservedName name then Err (ErrNameReserved name)
              else match unmarshal_any a2 with
              | None => Err ErrValueJSON
              | Some v => Ok {| Salt := salt; Name := name; Value := v; encoded := s; named := true |}
              end
          end
      end
  | Some arr => Err (ErrDisclosureLength (blen arr))
  end.

Fixpoint parse_disclosures (i : Z) (parts : list string) : res verify_error (list Disclosure) :=
  match parts with
  | [] => Ok []
  | dp :: parts =>
      let? d := res_map_err (ErrDisclosure i) (ParseDisclosure dp) in
      let? ds := parse_disclosures (i + 1) parts in
      Ok (d :: ds)
  end.

Definition ParseMax (s : string) (maxBytes : Z) : res verify_error Presentation :=
  if maxBytes <? slen s then Err (ErrPresentationTooLarge (slen s))
  else match split_on "~" s with
  | [] | [_] => Err ErrNoTilde
  | issuer :: parts =>
      let? ds := parse_disclosures 0 (removelast parts) in
      Ok {| IssuerJWT := issuer; Disclosures := ds; KeyBindingJWT := List.last parts EmptyString |}
  end.

Definition Parse (s : string) : res verify_error Presentation := ParseMax s MaxBytes.

(** The loop of Presentation.SDJWT, from [s] on. *)
Fixpoint sdjwt_loop (s : string) (ds : list Disclosure) : res sd_error string :=
  match ds with
  | [] => Ok s
  | d :: ds => let? enc := Encode d in sdjwt_loop (s ++ enc ++ "~")%string ds
  end.

Definition SDJWT (p : Presentation) : res sd_error string := sdjwt_loop (IssuerJWT p ++ "~")%string (Disclosures p).

Definition SDHash (alg : string) (p : Presentation) : res sd_error string :=
  let? sdjwt := SDJWT p in hashString alg sdjwt.

Definition Compact (p : Presentation) : res sd_error string :=
  let? sdjwt := SDJWT p in Ok (sdjwt ++ KeyBindingJWT p)%string.

(** ** Validity *)

Definition checkValidityWindow (claims : list (string * goval)) (now skew : Z) : res validity_error unit :=
  let? _ :=
    match member "exp" claims with
    | None => Ok tt
    | Some (VFloat exp) =>
        match FromFloat exp with
        | Err _ => Err ErrExpDate
        | Ok expires => if negb (now - skew <? expires) then Err ErrHasExpired else Ok tt
        end
    | Some _ => Err ErrExpNotNumber
    end in
  match member "nbf" claims with
  | None => Ok tt
  | Some (VFloat nbf) =>
      match FromFloat nbf with
      | Err _ => Err ErrNbfDate
      | Ok notBefore => if now + skew <? notBefore then Err ErrIsNotYetValid else Ok tt
      end
  | Some _ => Err ErrNbfNotNumber
  end.

(** ** Key Binding JWTs *)

Definition KeyBindingTyp : string := "kb+jwt".

Record KeyBindingClaims : Type := { kb_Audience : string; kb_Nonce : string; kb_Extra : list (string * goval) }.

Inductive sign_error : Type :=
| ErrKBRequired
| ErrKBHash (e : sd_error)
| ErrKBMarshal
| ErrKBSign (e : jose_error).

(** time.Now().Unix() at [now]. *)
Definition unix_of (now : Z) : Z := now / Second.

Definition NewKeyBindingJWT (now : Z) (s : signer) (alg : string) (presentation : Presentation) (hashAlg : string)
    (claims : KeyBindingClaims) : res sign_error string :=
  if String.eqb (kb_Audience claims) "" || String.eqb (kb_Nonce claims) "" then Err ErrKBRequired
  else
    let? sdHash := res_map_err ErrKBHash (SDHash hashAlg presentation) in
    let payload := set_member "sd_hash" (VString sdHash)
      (set_member "nonce" (VString (kb_Nonce claims))
      (set_member "aud" (VString (kb_Audience claims))
      (set_member "iat" (VInt (unix_of now)) (kb_Extra claims)))) in
    match marshal_object payload with
    | None => Err ErrKBMarshal
    | Some raw => res_map_err ErrKBSign (Sign alg s [("typ", VString KeyBindingTyp)]%string raw)
    end.

Record KeyBindingCheck : Type := {
  ExpectedAudience : string;
  ExpectedNonce : string;
  ExpectedSDHash : string;
  kb_MaxClockSkew : Z;
  kb_MaxAge : Z
}.

Definition VerifyKeyBindingJWT (now : Z) (kbJWT : string) (holderPub : PublicKey ec) (alg : string) (check : KeyBindingCheck)
    : res kb_error (list (string * goval)) :=
  if kb_MaxAge check <=? 0 then Err ErrKBMaxAge
  else if kb_MaxClockSkew check <? 0 then Err ErrKBSkew
  else if String.eqb (ExpectedAudience check) "" || String.eqb (ExpectedNonce check) "" then Err ErrKBExpected
  else
    let? (header, raw) := res_map_err ErrKBSignature (Jws.Verify alg holderPub kbJWT) in
    if negb (TypeIs (string_member "typ" header) KeyBindingTyp) then Err (ErrKBTyp (string_member "typ" header))
    else match unmarshal_object raw with
    | None => Err ErrKBClaims
    | Some claims =>
        if negb (String.eqb (string_member "aud" claims) (ExpectedAudience check)) then Err ErrKBAudience
        else if negb (String.eqb (string_member "nonce" claims) (ExpectedNonce check)) then Err ErrKBNonce
        else if negb (String.eqb (string_member "sd_hash" claims) (ExpectedSDHash check)) then Err ErrKBSDHash
        else match member "iat" claims with
        | Some (VFloat iat) =>
            match FromFloat iat with
            | Err _ => Err ErrKBIatRange
            | Ok issued =>
                if now + kb_MaxAge check <? issued then Err ErrKBFuture
                else if issued <? now - kb_MaxAge check then Err ErrKBOld
                else
                  let? _ := res_map_err ErrKBWindow (checkValidityWindow claims now (kb_MaxClockSkew check)) in
                  Ok claims
            end
        | _ => Err ErrKBIat
        end
    end.

(** ** Verify *)

Inductive KeyBindingRequirement : Type := KeyBindingUnset | KeyBindingRequired | KeyBindingNotRequired.

Record VerifyOptions : Type := {
  o_HashAlg : string;
  RequireKeyBinding : KeyBindingRequirement;
  HolderPublicKey : option (PublicKey ec);
  KeyBindingAlg : string;
  o_ExpectedAudience : string;
  o_ExpectedNonce : string;
  MaxKeyBindingAge : Z;
  o_MaxClockSkew : Z;
  AcceptLegacyTyp : bool
}.

Definition TypHeader : string := "dc+sd-jwt".
Definition LegacyTypHeader : string := "vc+sd-jwt".

Definition nonDisclosableClaims : list string :=
  ["iss"; "nbf"; "exp"; "cnf"; "vct"; "vct#integrity"; "status"; "aka_vcts"]%string.
Definition nonDisclosable (name : string) : bool := existsb (String.eqb name) nonDisclosableClaims.

Fixpoint hasDisclosureDigest (v : goval) : bool :=
  match v with
  | VObject o =>
      is_Some_b (member "_sd" o) || match o with [(k, _)] => String.eqb k "..." | _ => false end ||
      existsb (fun p => hasDisclosureDigest p.2) o
  | VArray l => existsb hasDisclosureDigest l
  | _ => false
  end.

Definition checkNoRegisteredSubClaimDisclosable (decoded : list (string * goval)) : res verify_error unit :=
  if existsb (fun name => match member name decoded with Some v => hasDisclosureDigest v | None => false end)
       nonDisclosableClaims
  then Err ErrRegisteredSubClaim else Ok tt.

Fixpoint registered_loop (alg : string) (digests : list string) (ds : list Disclosure) : res verify_error unit :=
  match ds with
  | [] => Ok tt
  | d :: ds =>
      if IsArrayElement d || negb (nonDisclosable (Name d)) then registered_loop alg digests ds
      else
        let? digest := res_map_err ErrHash (Digest alg d) in
        if existsb (String.eqb digest) digests then Err (ErrRegisteredDisclosed (Name d))
        else registered_loop alg digests ds
  end.

Definition checkNoRegisteredClaimDisclosed (decoded : list (string * goval)) (alg : string) (ds : list Disclosure)
    : res verify_error unit :=
  match member "_sd" decoded with
  | Some (VArray (_ :: _)) => registered_loop alg (sd_strings (member "_sd" decoded)) ds
  | _ => Ok tt
  end.

Definition checkAkaVCTs (vct : string) (akaVCTs : list string) : bool :=
  negb (blen akaVCTs =? 0) && forallb (fun t => negb (String.eqb t "")) akaVCTs && negb (existsb (String.eqb vct) akaVCTs).

Fixpoint all_strings (l : list goval) : option (list string) :=
  match l with
  | [] => Some []
  | VString s :: l => match all_strings l with Some ss => Some (s :: ss) | None => None end
  | _ :: _ => None
  end.

Definition checkAkaVCTsClaim (vctRaw raw : goval) : bool :=
  match raw with
  | VArray arr =>
      match all_strings arr with
      | Some types => checkAkaVCTs (match vctRaw with VString s => s | _ => "" end) types
      | None => false
      end
  | _ => false
  end.

Definition verifyKeyBindingIfRequired (now : Z) (pres : Presentation) (opts : VerifyOptions) (hashAlg : string)
    : res verify_error unit :=
  match RequireKeyBinding opts with
  | KeyBindingRequired =>
      match HolderPublicKey opts with
      | None => Err ErrNoHolderKey
      | Some holderPub =>
          let? sdHash := res_map_err ErrHash (SDHash hashAlg pres) in
          let? _ := res_map_err ErrKeyBindingJWT (VerifyKeyBindingJWT now (KeyBindingJWT pres) holderPub (KeyBindingAlg opts)
            {| ExpectedAudience := o_ExpectedAudience opts; ExpectedNonce := o_ExpectedNonce opts; ExpectedSDHash := sdHash;
               kb_MaxClockSkew := o_MaxClockSkew opts; kb_MaxAge := MaxKeyBindingAge opts |}) in
          Ok tt
      end
  | _ => Ok tt
  end.

Definition typ_ok (opts : VerifyOptions) (header : list (string * goval)) : bool :=
  TypeIs (string_member "typ" header) TypHeader ||
  AcceptLegacyTyp opts && TypeIs (string_member "typ" header) LegacyTypHeader.

(** Verify's checks of the issuer JWT's payload, and of the disclosures with it. *)
Definition verify_payload (now : Z) (opts : VerifyOptions) (pres : Presentation) (decoded : list (string * goval))
    : res verify_error (list (string * goval)) :=
  match member "vct" decoded with
  | Some (VString vct) =>
      if o_MaxClockSkew opts <? 0 then Err ErrSkew
      else
        let? _ := res_map_err ErrValidity (checkValidityWindow decoded now (o_MaxClockSkew opts)) in
        let fallback := if String.eqb (o_HashAlg opts) "" then DefaultHashAlg else o_HashAlg opts in
        let? hashAlg := res_map_err ErrHash (PayloadHashAlg decoded fallback) in
        let? _ :=
          match member "aka_vcts" decoded with
          | Some raw => if checkAkaVCTsClaim (VString vct) raw then Ok tt else Err ErrAkaVCTs
          | None => Ok tt
          end in
        let? _ := checkNoRegisteredClaimDisclosed decoded hashAlg (Disclosures pres) in
        let? _ := checkNoRegisteredSubClaimDisclosable decoded in
        let? resolved := res_map_err ErrResolve (ResolveDisclosures decoded hashAlg (Disclosures pres)) in
        let? _ := verifyKeyBindingIfRequired now pres opts hashAlg in
        Ok resolved
  | _ => Err ErrNoVCT
  end.

Definition Verify (now : Z) (s : string) (issuerPub : PublicKey ec) (issuerAlg : string) (opts : VerifyOptions)
    : res verify_error (list (string * goval) * list (string * goval)) :=
  match RequireKeyBinding opts with
  | KeyBindingUnset => Err ErrNoRequirement
  | requirement =>
      let? pres := Parse s in
      if match requirement with KeyBindingRequired => true | _ => false end && negb (HasKeyBinding pres)
      then Err ErrNoKeyBinding
      else
        let? (header, rawPayload) := res_map_err ErrIssuerJWT (Jws.Verify issuerAlg issuerPub (IssuerJWT pres)) in
        if negb (typ_ok opts header) then Err (ErrTyp (string_member "typ" header))
        else match unmarshal_object rawPayload with
        | None => Err ErrPayloadJSON
        | Some decoded =>
            let? resolved := verify_payload now opts pres decoded in
            Ok (resolved, header)
        end
  end.

End Verify.
