(* ===== verification/SdVerified.v ===== *)
(** * What [sdjwtvc.Verify] accepts

    A presentation's text is what its parts give back; the registered claims
    of what [Verify] returns are the Issuer's own, whatever the Holder
    disclosed or withheld; and the Key Binding JWT is over the very text
    presented. *)
From S2P Require Import Prelude B64Url Json DcqlQuery DcqlValues Text JwtDate Jws SdJwt SdTree SdVerify.
From Stdlib Require Import Ascii.
#[local] Open Scope Z_scope.

(** ** Values without digests resolve to themselves *)

Section Digestless.
Context (byDigest : gmap string Disclosure).

Lemma resolve_members_plain rec m : forall out st out' st', NoDup (out ++ m).*1 ->
  Forall (fun p => forall st w st', rec p.2 st = Ok (w, st') -> w = p.2 /\ st' = st) m ->
  Forall (fun p => p.1 <> "_sd"%string) m ->
  resolve_members rec false m out st = Ok (out', st') -> out' = out ++ m /\ st' = st.
Proof using.
  induction m as [|[k v] m IH]; intros out st out' st' Hnd Hr Hsd; cbn [resolve_members]; [by intros [= <- <-]; rewrite app_nil_r|].
  apply Forall_cons in Hr as [Hv Hr], Hsd as [Hk Hsd]; cbn [fst snd negb] in *.
  destruct (String.eqb_spec k "_sd_alg"); [done|]; destruct (String.eqb_spec k "_sd"); [done|]; cbn [andb orb].
  destruct (rec v st) as [[w st1]|] eqn:E; cbn [res_bind]; [|done]; destruct (Hv _ _ _ E) as [-> ->].
  assert (Hn : k ∉ out.*1).
  { rewrite fmap_app in Hnd; apply NoDup_app in Hnd as (_ & Hn & _); intros Hin; apply (Hn k Hin); by left. }
  rewrite set_member_new by done.
  intros Hm; apply IH in Hm as [-> ->]; [by rewrite <- app_assoc|by rewrite <- app_assoc|done|done].
Qed.

Lemma resolve_elements_plain rec arr : forall out st out' st',
  Forall (fun v => forall st w st', rec v st = Ok (w, st') -> w = v /\ st' = st) arr ->
  Forall (fun v => disclosure_ref v = None) arr ->
  resolve_elements byDigest rec arr out st = Ok (out', st') -> out' = out ++ arr /\ st' = st.
Proof using.
  induction arr as [|v arr IH]; intros out st out' st' Hr Hd; cbn [resolve_elements]; [by intros [= <- <-]; rewrite app_nil_r|].
  apply Forall_cons in Hr as [Hv Hr], Hd as [-> Hd].
  destruct (rec v st) as [[w st1]|] eqn:E; cbn [res_bind]; [|done]; destruct (Hv _ _ _ E) as [-> ->].
  intros Hm; destruct (IH _ _ _ _ Hr Hd Hm) as [-> ->]; by rewrite <- app_assoc.
Qed.

Lemma foldr_conj {A} (P : A -> Prop) l : foldr (fun x Q => P x /\ Q) True l <-> Forall P l.
Proof using. induction l as [|x l IH]; cbn; [by split|]; by rewrite IH, Forall_cons. Qed.

Lemma existsb_false {A} (f : A -> bool) l : existsb f l = false <-> Forall (fun x => f x = false) l.
Proof using. induction l as [|x l IH]; cbn; [by split|]; by rewrite orb_false_iff, IH, Forall_cons. Qed.

(** What holds no digest holds nothing to resolve. *)
Lemma resolveValue_plain n : forall v st w st', hasDisclosureDigest v = false -> map_wf v ->
  resolveValue byDigest n false v st = Ok (w, st') -> w = v /\ st' = st.
Proof using.
  induction n as [|n IH]; intros v st w st' Hd Hwf; cbn [resolveValue]; [done|].
  destruct v as [|s|b|z|f|s|o|l|c|t|b|]; try by intros [= <- <-].
  - cbn [hasDisclosureDigest map_wf] in *; apply orb_false_iff in Hd as [Hd Hin]; apply orb_false_iff in Hd as [Hsd _].
    destruct Hwf as [Hnd Hwf]; apply foldr_conj in Hwf; apply existsb_false in Hin; unfold resolveMap.
    assert (Hno : member "_sd" o = None) by (by destruct (member "_sd" o)).
    destruct (resolve_members _ _ _ _ _) as [[out st1]|] eqn:E; cbn [res_bind]; [|done].
    apply resolve_members_plain in E as [-> ->]; [|done| |].
    + unfold resolveSDDigests; rewrite Hno; cbn [res_bind]; by intros [= <- <-].
    + rewrite Forall_forall in *; intros p Hp ? ? ? Hp'; eapply IH; [by apply Hin|by apply Hwf|exact Hp'].
    + apply member_None in Hno; rewrite Forall_forall; intros p Hp Hq; apply Hno; rewrite <- Hq; by apply list_elem_of_fmap_2.
  - cbn [hasDisclosureDigest map_wf] in *; apply foldr_conj in Hwf; apply existsb_false in Hd; unfold resolveArray.
    destruct (resolve_elements _ _ _ _ _) as [[out st1]|] eqn:E; cbn [res_bind]; [|done].
    apply resolve_elements_plain in E as [-> ->]; [by intros [= <- <-]| |].
    + rewrite Forall_forall in *; intros v Hv ? ? ? Hv'; eapply IH; [by apply Hd|by apply Hwf|exact Hv'].
    + eapply Forall_impl; [exact Hd|]; intros v Hv; unfold disclosure_ref.
      destruct v as [| | | | | |[|[k x] [|]]| | | | |]; try done; cbn in Hv |- *.
      destruct (String.eqb k "..."); [by rewrite orb_true_r in Hv|done].
Qed.

(** ** The members of what resolves *)

(** A member keeps its place, and its value but for what is disclosed in it. *)
Lemma resolve_members_member rec top k m : structural k = false -> NoDup m.*1 -> forall out st out' st',
  resolve_members rec top m out st = Ok (out', st') ->
  match member k m with
  | None => member k out' = member k out
  | Some v => exists st1 w st2, rec v st1 = Ok (w, st2) /\ member k out' = Some w
  end.
Proof using.
  intros Hk; induction m as [|[k' v] m IH]; intros Hnd out st out' st'; cbn [resolve_members member]; [by intros [= <- <-]|].
  apply NoDup_cons in Hnd as [Hn Hnd]; cbn [fst] in Hn.
  destruct (_ && _); [done|]; destruct (String.eqb_spec k' "_sd") as [->|]; [|destruct (String.eqb_spec k' "_sd_alg") as [->|]].
  1, 2: unfold structural in Hk; apply orb_false_iff in Hk as [H1 H2]; cbn [orb]; rewrite String.eqb_sym, ?H1, ?H2; by apply IH.
  cbn [orb]; destruct (rec v st) as [[w st1]|] eqn:E; cbn [res_bind]; [|done]; intros Hm; apply (IH Hnd) in Hm.
  destruct (String.eqb_spec k' k) as [->|Hne].
  - apply member_None in Hn; rewrite Hn, member_set_member, String.eqb_refl in Hm; eauto.
  - destruct (member k m); [done|]; rewrite member_set_member in Hm; by rewrite (proj2 (String.eqb_neq k' k) Hne) in Hm.
Qed.

(** A member of what resolves is one of before, or one disclosed there. *)
Lemma resolve_digests_member rec k l : forall out st out' st',
  resolve_digests byDigest rec l out st = Ok (out', st') ->
  member k out' = member k out \/
  exists s d, VString s ∈ l /\ byDigest !! s = Some d /\ Name d = k /\ IsArrayElement d = false.
Proof using.
  induction l as [|v l IH]; intros out st out' st'; cbn [resolve_digests]; [intros [= <- <-]; by left|].
  destruct v as [|s| | | | | | | | | |]; try done; case_bool_decide; [done|].
  destruct (byDigest !! s) as [d|] eqn:Ed.
  - destruct (IsArrayElement d) eqn:Ea; [done|]; destruct (member (Name d) out) eqn:Em; [done|].
    destruct (rec _ _) as [[w st1]|]; cbn [res_bind]; [|done]; intros Hm.
    destruct (String.eqb_spec (Name d) k) as [Hk|Hne]; [right; exists s, d; split; [by left|done]|].
    destruct (IH _ _ _ _ Hm) as [->|(s' & d' & Hin & Hd')]; [left|right; exists s', d'; split; [by right|done]].
    by rewrite member_set_member, (proj2 (String.eqb_neq _ _) Hne).
  - intros Hm; destruct (IH _ _ _ _ Hm) as [->|(s' & d' & Hin & Hd')]; [by left|right; exists s', d'; split; [by right|done]].
Qed.

End Digestless.

(** ** A presentation's text *)

(** Claims within their validity, give or take [skew]. *)
Definition in_window (claims : list (string * goval)) (now skew : Z) : Prop :=
  (forall v, member "exp" claims = Some v -> exists f t, v = VFloat f /\ FromFloat f = Ok t /\ now < t + skew) /\
  (forall v, member "nbf" claims = Some v -> exists f t, v = VFloat f /\ FromFloat f = Ok t /\ t - skew <= now).

Lemma checkValidityWindow_ok claims now skew : checkValidityWindow claims now skew = Ok tt -> in_window claims now skew.
Proof.
  unfold checkValidityWindow, in_window; intros Hc; split; intros v Hv; rewrite Hv in Hc.
  - destruct v as [| | | |f| | | | | | |]; try done; destruct (FromFloat f) as [t|] eqn:E; cbn [res_bind] in Hc; [|done].
    exists f, t; split_and!; [done..|]; destruct (Z.ltb_spec (now - skew) t); [lia|done].
  - destruct (match member "exp" claims with Some _ => _ | None => _ end); cbn [res_bind] in Hc; [|done].
    destruct v as [| | | |f| | | | | | |]; try done; destruct (FromFloat f) as [t|] eqn:E; [|done].
    exists f, t; split_and!; [done..|]; destruct (Z.ltb_spec (now + skew) t); [done|lia].
Qed.

Section Verified.
Context `{Codec} `{JsonText} `{Signatures} `{!JsonReads}.

Lemma ParseDisclosure_encoded s d : ParseDisclosure s = Ok d -> Encode d = Ok s.
Proof using All.
  intros Hd; assert (Hs : encoded d = s /\ s <> EmptyString).
  { unfold ParseDisclosure in Hd; destruct (b64_decode s) as [raw|] eqn:E; cbn [res_map_err res_bind] in Hd; [|done].
    split; [|by intros ->; injection E as <-; rewrite unmarshal_raws_empty in Hd].
    destruct (unmarshal_raws raw) as [[|a0 [|a1 [|a2 [|? ?]]]]|]; try done; destruct (jsonString a0); try done.
    - destruct (unmarshal_any a1); [by injection Hd as <-|done].
    - destruct (jsonString a1); [|done]; destruct (isReservedName _); [done|].
      destruct (unmarshal_any a2); [by injection Hd as <-|done]. }
  destruct Hs as [He Hne]; unfold Encode; rewrite He; by destruct (String.eqb_spec s "").
Qed.

Lemma sdjwt_loop_parsed kb parts : forall i ds s, parse_disclosures i parts = Ok ds ->
  exists t, sdjwt_loop (s ++ "~") ds = Ok (t ++ "~")%string /\
    ((t ++ "~") ++ kb = (s ++ "~") ++ join (char_string "~"%char) (parts ++ [kb])%list)%string.
Proof using All.
  induction parts as [|part parts IH]; intros i ds s; cbn [parse_disclosures].
  - intros [= <-]; by exists s.
  - destruct (ParseDisclosure part) as [d|] eqn:E; cbn [res_map_err res_bind]; [|done].
    destruct (parse_disclosures _ _) as [ds'|] eqn:Ep; cbn [res_bind]; [|done]; intros [= <-].
    cbn [sdjwt_loop]; rewrite (ParseDisclosure_encoded _ _ E); cbn [res_bind]; rewrite append_assoc.
    destruct (IH _ _ ((s ++ "~") ++ part)%string Ep) as (t & Ht & Hj); exists t; split; [done|].
    rewrite Hj; change ((part :: parts) ++ [kb]) with (part :: (parts ++ [kb])).
    destruct (parts ++ [kb]) as [|q qs] eqn:Eq; [by destruct parts|].
    rewrite join_cons; change (char_string "~"%char) with "~"%string; by rewrite !append_assoc.
Qed.

(** What Parse accepts is the issuer-signed part with its disclosures, up to
    and with its last tilde, and what follows. *)
Lemma Parse_SDJWT s p : Parse s = Ok p ->
  slen s <= MaxBytes /\ absent "~" (KeyBindingJWT p) = true /\ exists t,
    SDJWT p = Ok (t ++ "~")%string /\ s = ((t ++ "~") ++ KeyBindingJWT p)%string.
Proof using All.
  unfold Parse, ParseMax; go_if; [done|]; pose proof (join_split "~" s) as Hj; pose proof (split_on_parts "~" s) as Hp.
  destruct (split_on "~" s) as [|issuer [|q parts]] eqn:Es; try done.
  destruct (parse_disclosures _ _) as [ds|] eqn:E; cbn [res_bind]; [|done]; intros Hok; injection Hok as <-.
  assert (Hq : q :: parts = removelast (q :: parts) ++ [List.last (q :: parts) EmptyString]) by (by apply app_removelast_last).
  apply Forall_cons in Hp as [_ Hp]; rewrite Hq in Hp; apply Forall_app in Hp as [_ Hp]; apply List.Forall_inv in Hp.
  remember (List.last (q :: parts) EmptyString) as kb eqn:Hkb; change (KeyBindingJWT _) with (List.last (q :: parts) EmptyString); rewrite <- Hkb.
  split_and!; [lia|done|]; unfold SDJWT; cbn [IssuerJWT Disclosures].
  destruct (sdjwt_loop_parsed kb _ _ _ issuer E) as (t & Ht & Htj); exists t; split; [done|].
  rewrite Htj, <- Hq, <- Hj, join_cons; by rewrite append_assoc.
Qed.

(** ** What Verify checked *)

Lemma by_digest_found alg ds : forall bd bd' s d, by_digest alg ds bd = Ok bd' -> bd' !! s = Some d ->
  bd !! s = Some d \/ d ∈ ds /\ Digest alg d = Ok s.
Proof using.
  induction ds as [|e ds IH]; intros bd bd' s d; cbn [by_digest]; [intros [= <-]; by left|].
  destruct (Digest alg e) as [dg|] eqn:E; cbn [res_bind]; [|done]; destruct (bd !! dg); [done|].
  intros Hb Hl; destruct (IH _ _ _ _ Hb Hl) as [Hi|[? ?]]; [|right; split; [by right|done]].
  destruct (decide (dg = s)) as [->|]; [|left; by rewrite lookup_insert_ne in Hi].
  rewrite lookup_insert_eq in Hi; injection Hi as ->; right; split; [by left|done].
Qed.

Lemma registered_loop_ok alg digests ds : registered_loop alg digests ds = Ok tt -> forall d s, d ∈ ds ->
  IsArrayElement d = false -> nonDisclosable (Name d) = true -> Digest alg d = Ok s -> s ∉ digests.
Proof using.
  induction ds as [|e ds IH]; cbn [registered_loop]; intros Hl d s; [by intros []%elem_of_nil|].
  intros [->|Hin]%elem_of_cons Ha Hn Hd.
  - rewrite Ha, Hn, Hd in Hl; cbn [orb negb res_map_err res_bind] in Hl.
    intros Hin; assert (Hx : existsb (String.eqb s) digests = true).
    { apply existsb_exists; exists s; split; [by apply list_elem_of_In|by apply String.eqb_eq]. }
    by rewrite Hx in Hl.
  - eapply IH; [|done..]; destruct (_ || _); [done|]; destruct (Digest alg e); cbn [res_map_err res_bind] in Hl; [|done].
    by destruct (existsb _ _).
Qed.

Lemma sd_strings_elem l s : VString s ∈ l -> s ∈ sd_strings (Some (VArray l)).
Proof using. intros Hin; cbn; apply list_elem_of_omap; by exists (VString s). Qed.

Lemma nonDisclosable_plain k : nonDisclosable k = true -> structural k = false /\ k ∈ nonDisclosableClaims.
Proof using.
  unfold nonDisclosable; rewrite existsb_exists; intros (x & Hx & ->%String.eqb_eq); split; [|by apply list_elem_of_In].
  cbn in Hx; by destruct_or?; subst.
Qed.

(** The registered claims survive resolving as they are. *)
Lemma resolved_registered alg decoded ds resolved : map_wf (VObject decoded) ->
  checkNoRegisteredClaimDisclosed decoded alg ds = Ok tt -> checkNoRegisteredSubClaimDisclosable decoded = Ok tt ->
  ResolveDisclosures decoded alg ds = Ok resolved -> forall k, nonDisclosable k = true -> member k resolved = member k decoded.
Proof using.
  intros Hwf Hreg Hsub Hres k Hk; destruct (nonDisclosable_plain k Hk) as [Hs Hin].
  unfold ResolveDisclosures, ResolveDisclosuresMax in Hres.
  destruct (by_digest _ _ _) as [bd|] eqn:Eb; cbn [res_bind] in Hres; [|done].
  destruct (Z.to_nat (MaxResolveDepth + 1)) as [|n]; [done|]; cbn [resolveValue] in Hres; unfold resolveMap in Hres.
  destruct (resolve_members _ _ _ _ _) as [[out st1]|] eqn:Em; cbn [res_bind] in Hres; [|done].
  destruct (resolveSDDigests _ _ _ _ _) as [[out' st2]|] eqn:Ed; cbn [res_bind] in Hres; [|done].
  destruct (negb _); [done|]; injection Hres as <-; destruct Hwf as [Hnd Hwf]; apply foldr_conj in Hwf; rewrite Forall_forall in Hwf.
  assert (Hout : member k out = member k decoded).
  { pose proof (resolve_members_member _ _ k _ Hs Hnd _ _ _ _ Em) as Hm; cbn [member] in Hm.
    destruct (member k decoded) as [v|] eqn:Ek; [|done]; destruct Hm as (st & w & st' & Hr & ->); f_equal.
    eapply (resolveValue_plain bd n); [|by eapply (Hwf (k, v)), member_Some_elem|exact Hr].
    unfold checkNoRegisteredSubClaimDisclosable in Hsub; destruct (existsb _ _) eqn:Ex; [done|].
    apply existsb_false in Ex; rewrite Forall_forall in Ex; specialize (Ex k Hin); by rewrite Ek in Ex. }
  rewrite <- Hout; unfold resolveSDDigests in Ed; unfold checkNoRegisteredClaimDisclosed in Hreg.
  destruct (member "_sd" decoded) as [[| | | | | | |l| | | |]|] eqn:Esd; try done; [|by injection Ed as <- _].
  destruct (resolve_digests_member _ _ k _ _ _ _ _ Ed) as [|(s & d & Hl & Hb & Hn & Ha)]; [done|exfalso].
  destruct l as [|x l]; [by apply elem_of_nil in Hl|].
  destruct (by_digest_found _ _ _ _ _ _ Eb Hb) as [Hbad|[Hd Hdg]]; [by rewrite lookup_empty in Hbad|].
  eapply (registered_loop_ok _ _ _ Hreg d s Hd Ha); [by rewrite Hn|exact Hdg|by apply sd_strings_elem].
Qed.

(** Everything Verify checked of what it returns. *)
Record checked (now : Z) (s : string) (pub : PublicKey ec) (alg : string) (opts : VerifyOptions)
    (resolved header : list (string * goval)) (pres : Presentation) (decoded : list (string * goval)) (hashAlg : string) : Prop := {
  checked_parse : Parse s = Ok pres;
  checked_signed : exists raw, Jws.Verify alg pub (IssuerJWT pres) = Ok (header, raw) /\ unmarshal_object raw = Some decoded;
  checked_typ : typ_ok opts header = true;
  checked_vct : exists vct, member "vct" decoded = Some (VString vct);
  checked_window : in_window decoded now (o_MaxClockSkew opts);
  checked_alg : PayloadHashAlg decoded (if String.eqb (o_HashAlg opts) "" then DefaultHashAlg else o_HashAlg opts) = Ok hashAlg;
  checked_registered : checkNoRegisteredClaimDisclosed decoded hashAlg (Disclosures pres) = Ok tt;
  checked_registered_sub : checkNoRegisteredSubClaimDisclosable decoded = Ok tt;
  checked_resolved : ResolveDisclosures decoded hashAlg (Disclosures pres) = Ok resolved;
  checked_binding : verifyKeyBindingIfRequired now pres opts hashAlg = Ok tt
}.

Lemma Verify_checked now s pub alg opts resolved header : Verify now s pub alg opts = Ok (resolved, header) ->
  exists pres decoded hashAlg, checked now s pub alg opts resolved header pres decoded hashAlg.
Proof using.
  unfold Verify; intros Hv.
  assert (Hp : exists pres, Parse s = Ok pres /\ (let? (header, rawPayload) := res_map_err ErrIssuerJWT (Jws.Verify alg pub (IssuerJWT pres)) in
    if negb (typ_ok opts header) then Err (ErrTyp (string_member "typ" header))
    else match unmarshal_object rawPayload with
    | None => Err ErrPayloadJSON
    | Some decoded => let? resolved := verify_payload now opts pres decoded in Ok (resolved, header)
    end) = Ok (resolved, header)).
  { destruct (RequireKeyBinding opts); [done| |]; (destruct (Parse s) as [pres|] eqn:Ep; cbn [res_bind] in Hv; [|done]);
      exists pres; (split; [done|]); destruct (_ && _); done. }
  clear Hv; destruct Hp as (pres & Hp & Hv).
  destruct (Jws.Verify _ _ _) as [[h raw]|] eqn:Ej; cbn [res_map_err res_bind] in Hv; [|done].
  destruct (typ_ok opts h) eqn:Et; cbn [negb] in Hv; [|done]; destruct (unmarshal_object raw) as [decoded|] eqn:Eu; [|done].
  destruct (verify_payload _ _ _ _) as [r|] eqn:Ev; cbn [res_bind] in Hv; [|done]; injection Hv as <- <-.
  unfold verify_payload in Ev; destruct (member "vct" decoded) as [[|vct| | | | | | | | | |]|] eqn:Evct; try done.
  destruct (_ <? 0); [done|]; destruct (checkValidityWindow _ _ _) as [[]|] eqn:Ew; cbn [res_map_err res_bind] in Ev; [|done].
  destruct (PayloadHashAlg _ _) as [hashAlg|] eqn:Ea; cbn [res_map_err res_bind] in Ev; [|done].
  destruct (match member "aka_vcts" decoded with Some _ => _ | None => _ end); cbn [res_bind] in Ev; [|done].
  destruct (checkNoRegisteredClaimDisclosed _ _ _) as [[]|] eqn:Er; cbn [res_bind] in Ev; [|done].
  destruct (checkNoRegisteredSubClaimDisclosable _) as [[]|] eqn:Esub; cbn [res_bind] in Ev; [|done].
  destruct (ResolveDisclosures _ _ _) as [res|] eqn:Eres; cbn [res_map_err res_bind] in Ev; [|done].
  destruct (verifyKeyBindingIfRequired _ _ _ _) as [[]|] eqn:Ek; cbn [res_bind] in Ev; [|done]; injection Ev as <-.
  exists pres, decoded, hashAlg; split; try done; eauto; by apply checkValidityWindow_ok.
Qed.

(** What a checked Key Binding JWT says. *)
Record bound (now : Z) (holder : PublicKey ec) (alg aud nonce sdHash : string) (age : Z) (kbJWT : string) : Prop := {
  bound_age : 0 < age;
  bound_named : aud <> EmptyString /\ nonce <> EmptyString;
  bound_signed : exists header raw claims iat issued, Jws.Verify alg holder kbJWT = Ok (header, raw) /\
    TypeIs (string_member "typ" header) KeyBindingTyp = true /\ unmarshal_object raw = Some claims /\
    member "aud" claims = Some (VString aud) /\ member "nonce" claims = Some (VString nonce) /\
    string_member "sd_hash" claims = sdHash /\
    member "iat" claims = Some (VFloat iat) /\ FromFloat iat = Ok issued /\ now - age <= issued <= now + age
}.

Lemma string_member_some key claims s : s <> EmptyString -> string_member key claims = s -> member key claims = Some (VString s).
Proof using. unfold string_member; intros Hs; destruct (member key claims) as [[]|]; congruence. Qed.

Lemma VerifyKeyBindingJWT_bound now kbJWT holder alg check claims : VerifyKeyBindingJWT now kbJWT holder alg check = Ok claims ->
  bound now holder alg (ExpectedAudience check) (ExpectedNonce check) (ExpectedSDHash check) (kb_MaxAge check) kbJWT.
Proof using.
  unfold VerifyKeyBindingJWT; destruct (Z.leb_spec (kb_MaxAge check) 0); [done|]; destruct (_ <? 0); [done|].
  destruct (String.eqb_spec (ExpectedAudience check) ""); [done|]; destruct (String.eqb_spec (ExpectedNonce check) ""); [done|]; cbn [orb].
  destruct (Jws.Verify _ _ _) as [[header raw]|] eqn:Ej; cbn [res_map_err res_bind]; [|done].
  destruct (TypeIs _ _) eqn:Et; cbn [negb]; [|done]; destruct (unmarshal_object raw) as [c|] eqn:Eu; [|done].
  destruct (String.eqb_spec (string_member "aud" c) (ExpectedAudience check)); cbn [negb]; [|done].
  destruct (String.eqb_spec (string_member "nonce" c) (ExpectedNonce check)); cbn [negb]; [|done].
  destruct (String.eqb_spec (string_member "sd_hash" c) (ExpectedSDHash check)); cbn [negb]; [|done].
  destruct (member "iat" c) as [[| | | |iat| | | | | | |]|] eqn:Ei; try done; destruct (FromFloat iat) as [issued|] eqn:Ef; [|done].
  destruct (Z.ltb_spec (now + kb_MaxAge check) issued); [done|]; destruct (Z.ltb_spec issued (now - kb_MaxAge check)); [done|]; intros _.
  split; [lia|done|]; exists header, raw, c, iat, issued; split_and!; try done; by apply string_member_some.
Qed.

(** ** What Verify promises *)

(** what Parse accepts is spelled back by Compact, to the byte, so that a
    presentation stored or forwarded from its parts is the one received; and
    the Key Binding JWT is what follows its last tilde. *)
Theorem Parse_Compact s p : Parse s = Ok p -> Compact p = Ok s /\ absent "~" (KeyBindingJWT p) = true.
Proof using All.
  intros (_ & Hkb & t & Ht & ->)%Parse_SDJWT; split; [|done]; unfold Compact; by rewrite Ht.
Qed.

(** C20: the registered claims of what Verify returns - iss, nbf, exp, cnf, vct,
    vct#integrity, status, aka_vcts - are exactly those of the payload the
    Issuer signed, whichever disclosures the Holder sent or left out, and it is
    within its validity. *)
Theorem Verify_registered now s pub alg opts resolved header : Verify now s pub alg opts = Ok (resolved, header) ->
  exists pres raw decoded, Parse s = Ok pres /\ Jws.Verify alg pub (IssuerJWT pres) = Ok (header, raw) /\
    unmarshal_object raw = Some decoded /\
    (forall k, nonDisclosable k = true -> member k resolved = member k decoded) /\
    (exists vct, member "vct" resolved = Some (VString vct)) /\ in_window resolved now (o_MaxClockSkew opts).
Proof using All.
  intros (pres & decoded & hashAlg & [Hp (raw & Hj & Hu) _ [vct Hvct] Hw _ Hr Hsub Hres _])%Verify_checked.
  assert (Hwf : map_wf (VObject decoded)).
  { unfold unmarshal_object in Hu; destruct (unmarshal_any raw) as [v|] eqn:E; [|done]; apply unmarshal_any_law in E.
    destruct v; try done; injection Hu as <-; [repeat constructor|done]. }
  pose proof (resolved_registered _ _ _ _ Hwf Hr Hsub Hres) as Hreg.
  exists pres, raw, decoded; split_and!; try done; [by exists vct; rewrite Hreg|].
  unfold in_window; by rewrite !Hreg.
Qed.

(** C16: with Key Binding required, what Verify accepts is followed by a JWT the
    Holder's key signed, for the audience and the nonce expected, within the
    age allowed, over the digest of the very text before it: the issuer-signed
    part with the disclosures as they were presented. *)
Theorem Verify_bound now s pub alg opts resolved header : RequireKeyBinding opts = KeyBindingRequired ->
  Verify now s pub alg opts = Ok (resolved, header) ->
  exists holder presented kbJWT hashAlg sdHash, HolderPublicKey opts = Some holder /\
    s = ((presented ++ "~") ++ kbJWT)%string /\ absent "~" kbJWT = true /\
    hashString hashAlg (presented ++ "~") = Ok sdHash /\
    bound now holder (KeyBindingAlg opts) (o_ExpectedAudience opts) (o_ExpectedNonce opts) sdHash (MaxKeyBindingAge opts) kbJWT.
Proof using All.
  intros Hreq (pres & decoded & hashAlg & [Hp _ _ _ _ _ _ _ _ Hb])%Verify_checked.
  apply Parse_SDJWT in Hp as (_ & Hkb & t & Ht & ->); unfold verifyKeyBindingIfRequired, SDHash in Hb; rewrite Hreq, Ht in Hb.
  destruct (HolderPublicKey opts) as [holder|]; [|done]; cbn [res_bind] in Hb.
  destruct (hashString hashAlg _) as [sdHash|] eqn:Eh; cbn [res_map_err res_bind] in Hb; [|done].
  destruct (VerifyKeyBindingJWT _ _ _ _ _) as [claims|] eqn:Ek; cbn [res_map_err res_bind] in Hb; [|done].
  apply VerifyKeyBindingJWT_bound in Ek; exists holder, t, (KeyBindingJWT pres), hashAlg, sdHash; by split_and!.
Qed.

End Verified.

(** ** A presentation *)

Module Presented.

Definition toy_sum (alg s : string) : bytes := be_bytes 4 (foldl (fun h c => (31 * h + c) mod 2 ^ 32) 7 (string_bytes s)).

#[export] Instance codec : Codec := {| sum := toy_sum; json_array := fun _ => None |}.

Definition disclosure : string := b64_string [5].
Definition digest : string := b64_string (toy_sum SHA256 disclosure).

Definition toy_signature (k m : bytes) : bytes := toy_sum SHA256 (bytes_string (k ++ m)).

#[export] Instance signatures : Signatures := {|
  ec := unit; signer := bytes; Public := Ed25519Key; signer_Sign := fun k m => Some (toy_signature k m); Sum256 := id;
  asn1_Marshal := fun _ _ => None; asn1_Unmarshal := fun _ => None; VerifyASN1 := fun _ _ _ => false;
  ed25519_Verify := fun k m sig => bool_decide (sig = toy_signature k m) |}.

Definition issuer_key : bytes := replicate 32 9.
Definition holder_key : bytes := replicate 32 11.

Definition compact (k header payload : bytes) : string :=
  let signed := (b64_string header ++ "." ++ b64_string payload)%string in
  (signed ++ "." ++ b64_string (toy_signature k (string_bytes signed)))%string.

Definition presented : string := (compact issuer_key [1] [2] ++ "~" ++ disclosure)%string.
Definition text : string := ((presented ++ "~") ++ compact holder_key [3] [4])%string.

Definition texts : list (bytes * goval) :=
  [([1], VObject [("alg", VString "EdDSA"); ("typ", VString "dc+sd-jwt")]);
   ([2], VObject [("vct", VString "urn:eudi:pid:1"); ("exp", VFloat (float_of_int 2000)); ("_sd", VArray [VString digest])]);
   ([3], VObject [("alg", VString "EdDSA"); ("typ", VString "kb+jwt")]);
   ([4], VObject [("aud", VString "https://rp.example"); ("nonce", VString "n-1"); ("iat", VFloat (float_of_int 1000));
                  ("sd_hash", VString (b64_string (toy_sum SHA256 (presented ++ "~"))))]);
   ([34; 1], VString "salt"); ([34; 2], VString "given_name"); ([34; 3], VString "Erika")]%string.

Fixpoint look (raw : bytes) (l : list (bytes * goval)) : option goval :=
  match l with
  | [] => None
  | (r, v) :: l => if bool_decide (raw = r) then Some v else look raw l
  end.

#[export] Instance json : JsonText := {|
  marshal_object := fun _ => None; unmarshal_any := fun raw => look raw texts;
  unmarshal_raws := fun raw => if bool_decide (raw = [5]) then Some [[34; 1]; [34; 2]; [34; 3]] else None |}.

Lemma look_wf raw l v : Forall (fun p => map_wf p.2) l -> look raw l = Some v -> map_wf v.
Proof.
  induction 1 as [|[r w] l Hw _ IH]; cbn [look]; [done|]; case_bool_decide; [by intros [= <-]|done].
Qed.

#[export] Instance json_reads : JsonReads.
Proof.
  split; [|done]; intros raw v; apply look_wf; unfold texts.
  repeat (apply Forall_cons_2; [cbn -[digest float_of_int b64_string]; split_and?; try done;
    apply (bool_decide_unpack _); vm_compute; exact I|]); apply Forall_nil_2.
Defined.

Definition options : VerifyOptions := {|
  o_HashAlg := ""; RequireKeyBinding := KeyBindingRequired; HolderPublicKey := Some (Ed25519Key holder_key);
  KeyBindingAlg := EdDSA; o_ExpectedAudience := "https://rp.example"; o_ExpectedNonce := "n-1";
  MaxKeyBindingAge := 300 * Second; o_MaxClockSkew := 0; AcceptLegacyTyp := false |}.

Definition verified : res verify_error (list (string * goval) * list (string * goval)) :=
  Verify (1000 * Second) text (Ed25519Key issuer_key) EdDSA options.

End Presented.

Import Presented.

Definition parsed : Presentation := {|
  IssuerJWT := compact issuer_key [1] [2];
  Disclosures := [{| Salt := "salt"; Name := "given_name"; Value := VString "Erika"; encoded := disclosure; named := true |}];
  KeyBindingJWT := compact holder_key [3] [4] |}.

Definition claims : list (string * goval) :=
  [("vct", VString "urn:eudi:pid:1"); ("exp", VFloat (float_of_int 2000)); ("given_name", VString "Erika")]%string.

Definition issuer_header : list (string * goval) := [("alg", VString "EdDSA"); ("typ", VString "dc+sd-jwt")]%string.

Lemma Parse_Compact_witness : Parse text = Ok parsed /\ Compact parsed = Ok text /\ absent "~" (KeyBindingJWT parsed) = true.
Proof. split; [vm_compute; reflexivity|apply (Parse_Compact text); vm_compute; reflexivity]. Defined.

Lemma Verify_registered_witness : verified = Ok (claims, issuer_header) /\
  exists pres raw decoded, Parse text = Ok pres /\
    Jws.Verify EdDSA (Ed25519Key issuer_key : PublicKey ec) (IssuerJWT pres) = Ok (issuer_header, raw) /\
    unmarshal_object raw = Some decoded /\
    (forall k, nonDisclosable k = true -> member k claims = member k decoded) /\
    (exists vct, member "vct" claims = Some (VString vct)) /\ in_window claims (1000 * Second) 0.
Proof.
  split; [vm_compute; reflexivity|].
  apply (Verify_registered (1000 * Second) text (Ed25519Key issuer_key) EdDSA options); vm_compute; reflexivity.
Defined.

Lemma Verify_bound_witness : verified = Ok (claims, issuer_header) /\
  exists holder presented kbJWT hashAlg sdHash, HolderPublicKey options = Some holder /\
    text = ((presented ++ "~") ++ kbJWT)%string /\ absent "~" kbJWT = true /\
    hashString hashAlg (presented ++ "~") = Ok sdHash /\
    bound (1000 * Second) holder (KeyBindingAlg options) (o_ExpectedAudience options) (o_ExpectedNonce options) sdHash
      (MaxKeyBindingAge options) kbJWT.
Proof.
  split; [vm_compute; reflexivity|].
  apply (Verify_bound (1000 * Second) text (Ed25519Key issuer_key) EdDSA options claims issuer_header); vm_compute; reflexivity.
Defined.
