(* ===== verification/SdIssue.v ===== *)
(** * Issuing SD-JWT VCs: [credential/sdjwtvc]'s issue.go, type_metadata.go, type_metadata_check.go and integrity.go

    [Issue]: the checks of what it is given, the claims sealed, the registered
    claims beside them in plain sight, decoys at the top level, and the JWT
    signed; a type's metadata, its own checks, and whether claims follow it. *)
From S2P Require Import Prelude B64Url Json DcqlQuery DcqlValues Text JwtDate Jws X509 CertChain SdJwt SdVerify.
From Stdlib Require Import Ascii SpecFloat.
#[local] Open Scope Z_scope.

(** ** Dates *)

(** t.UTC().Truncate(24 * time.Hour). *)
Definition start_of_day (t : Z) : Z := 24 * Hour * (t / (24 * Hour)).

Definition RoundedExp (now lifetime : Z) : Z := unix_of (start_of_day now + lifetime).

(** A day's credentials expire together, less than a day early. *)
Lemma RoundedExp_day now now' lifetime : start_of_day now = start_of_day now' -> RoundedExp now lifetime = RoundedExp now' lifetime.
Proof. unfold RoundedExp; by intros ->. Qed.

Lemma RoundedExp_close now lifetime : unix_of (now + lifetime) - 24 * 3600 <= RoundedExp now lifetime <= unix_of (now + lifetime).
Proof.
  unfold RoundedExp, start_of_day, unix_of; change (24 * Hour) with (24 * 3600 * Second).
  pose proof (Z.mod_pos_bound now (24 * 3600 * Second) ltac:(done)); pose proof (Z.div_mod now (24 * 3600 * Second) ltac:(done)).
  split; [|apply Z.div_le_mono; [done|lia]].
  replace ((now + lifetime) / Second - 24 * 3600) with ((now + lifetime + - (24 * 3600) * Second) / Second) by (rewrite Z.div_add by done; lia).
  apply Z.div_le_mono; [done|lia].
Qed.

(** ** Integrity metadata *)

(** unicode.IsSpace's characters, as UTF-8 has them: how many bytes of [b] the
    one at its head is, 0 where there is none. *)
Definition space (b : bytes) : nat :=
  match b with
  | c :: rest =>
      if (c =? 32) || (9 <=? c) && (c <=? 13) then 1%nat
      else match rest with
      | d :: rest =>
          if (c =? 0xc2) && ((d =? 0x85) || (d =? 0xa0)) then 2%nat
          else match rest with
          | e :: _ =>
              if (c =? 0xe1) && (d =? 0x9a) && (e =? 0x80) ||
                 (c =? 0xe2) && (d =? 0x80) && ((0x80 <=? e) && (e <=? 0x8a) || (e =? 0xa8) || (e =? 0xa9) || (e =? 0xaf)) ||
                 (c =? 0xe2) && (d =? 0x81) && (e =? 0x9f) || (c =? 0xe3) && (d =? 0x80) && (e =? 0x80)
              then 3%nat else 0%nat
          | [] => 0%nat
          end
      | [] => 0%nat
      end
  | [] => 0%nat
  end.

(** strings.Fields: [skip], bytes of a space still to go; [field], what there
    is of the current one, backwards. *)
Fixpoint fields (skip : nat) (b field : bytes) : list string :=
  let flush rest := match field with [] => rest | _ => bytes_string (rev field) :: rest end in
  match b with
  | [] => flush []
  | c :: rest =>
      match skip with
      | S skip => fields skip rest []
      | O => match space b with
        | O => fields 0 rest (c :: field)
        | S n => flush (fields n rest [])
        end
      end
  end.

Definition Fields (s : string) : list string := fields 0 (string_bytes s) [].

Definition integrityDigestSize (alg : string) : option Z :=
  if String.eqb alg "sha256" then Some 32 else if String.eqb alg "sha384" then Some 48 else if String.eqb alg "sha512" then Some 64 else None.

Inductive integrity_error : Type :=
| IntegrityEmpty
| IntegrityForm (expr : string)
| IntegrityDigest (expr : string).

(** encoding/base64's standard encodings, padded and not; and what else the
    package calls. *)
Class SdIssueLib : Type := {
  StdEncode : bytes -> string;
  StdDecode : string -> option bytes;
  RawStdDecode : string -> option bytes;
  uri_Parse : string -> option (string * string);           (* url.Parse's Scheme and Host *)
  simple_uris : bytes -> option (list (option string * option string));  (* a "simple" rendering's logo and background_image, those present *)
  template_uris : bytes -> option (list (option string * option string))
}.

Section Integrity.
Context `{SdIssueLib}.

Definition integrity_expr (expr : string) : res integrity_error unit :=
  let expr := match cut "?" expr with Some (before, _) => before | None => expr end in
  match cut "-" expr with
  | None => Err (IntegrityForm expr)
  | Some (alg, value) =>
      match integrityDigestSize alg with
      | None => Err (IntegrityForm expr)
      | Some size =>
          match (match StdDecode value with Some d => Some d | None => RawStdDecode value end) with
          | None => Err (IntegrityDigest expr)
          | Some d => if negb (blen d =? size) then Err (IntegrityDigest expr) else Ok tt
          end
      end
  end.

Fixpoint integrity_loop (exprs : list string) : res integrity_error unit :=
  match exprs with
  | [] => Ok tt
  | expr :: exprs => let? _ := integrity_expr expr in integrity_loop exprs
  end.

Definition validateIntegrity (s : string) : res integrity_error unit :=
  match Fields s with [] => Err IntegrityEmpty | exprs => integrity_loop exprs end.

End Integrity.

(** ** Type metadata *)

(** A path's elements: a string, nil, an int, an int64, a float64, another. *)
Inductive path_element : Type :=
| PathName (name : string)
| PathEvery
| PathInt (n : Z)
| PathInt64 (n : Z)
| PathFloat (f : float)
| PathOther.

Record TypeDisplay : Type := { td_Locale : string; td_Name : string; td_Description : string; Rendering : list (string * bytes) }.

Record ClaimDisplay : Type := { cd_Locale : string; Label : string; cd_Description : string }.

Record ClaimMetadata : Type := { cm_Path : list path_element; cm_Display : list ClaimDisplay; Mandatory : bool; cm_SD : string; SvgID : string }.

Record TypeMetadata : Type := {
  tm_VCT : string;
  tm_Name : string;
  tm_Description : string;
  Extends : string;
  ExtendsIntegrity : string;
  tm_Display : list TypeDisplay;
  tm_Claims : list ClaimMetadata
}.

Definition SDAlways : string := "always".
Definition SDAllowed : string := "allowed".
Definition SDNever : string := "never".

Definition ClaimPath (names : list string) : list path_element := map PathName names.

Inductive metadata_error : Type :=
| MetaNoVCT
| MetaExtends (e : integrity_error)
| MetaDisplay (i : Z)
| MetaRendering (i : Z) (e : rendering_error)
| MetaPathEmpty (i : Z)
| MetaPath (i j : Z)
| MetaClaimDisplay (i j : Z)
| MetaSD (i : Z) (sd : string)
| MetaSvgID (i : Z) (id : string)
| MetaSvgIDTwice (i : Z) (id : string)
with rendering_error : Type :=
| RenderingJSON (method : string)
| RenderingNoURI
| RenderingURIParse
| RenderingURI (uri : string)
| RenderingIntegrity (e : integrity_error).

Section Metadata.
Context `{SdIssueLib}.

Definition validateRenderingURI (uri : option string) : res rendering_error unit :=
  match uri with
  | None => Err RenderingNoURI
  | Some uri =>
      if String.eqb uri "" then Err RenderingNoURI
      else match uri_Parse uri with
      | None => Err RenderingURIParse
      | Some (scheme, host) =>
          if String.eqb scheme "https" && negb (String.eqb host "") then Ok tt
          else if String.eqb scheme "data" then Ok tt
          else Err (RenderingURI uri)
      end
  end.

(** A renderingURI: its uri and its uri#integrity. *)
Definition renderingURI_validate (r : option string * option string) : res rendering_error unit :=
  let? _ := validateRenderingURI r.1 in
  match r.2 with
  | Some s => res_map_err RenderingIntegrity (validateIntegrity s)
  | None => Ok tt
  end.

Fixpoint renderings_loop (l : list (option string * option string)) : res rendering_error unit :=
  match l with
  | [] => Ok tt
  | r :: l => let? _ := renderingURI_validate r in renderings_loop l
  end.

Fixpoint rendering_of (method : string) (rendering : list (string * bytes)) : option bytes :=
  match rendering with
  | [] => None
  | (k, raw) :: rendering => if String.eqb k method then Some raw else rendering_of method rendering
  end.

Definition rendering_method (method : string) (uris : bytes -> option (list (option string * option string))) (rendering : list (string * bytes))
    : res rendering_error unit :=
  match rendering_of method rendering with
  | None => Ok tt
  | Some raw => match uris raw with None => Err (RenderingJSON method) | Some l => renderings_loop l end
  end.

Definition validateRendering (rendering : list (string * bytes)) : res rendering_error unit :=
  let? _ := rendering_method "simple" simple_uris rendering in
  rendering_method "svg_templates" template_uris rendering.

Fixpoint displays_loop (i : Z) (l : list TypeDisplay) : res metadata_error unit :=
  match l with
  | [] => Ok tt
  | d :: l =>
      if String.eqb (td_Locale d) "" || String.eqb (td_Name d) "" then Err (MetaDisplay i)
      else
        let? _ := res_map_err (MetaRendering i) (validateRendering (Rendering d)) in
        displays_loop (i + 1) l
  end.

(** float64(int64(v)) is v, and it is not negative. *)
Definition isClaimPathElement (el : path_element) : bool :=
  match el with
  | PathName _ | PathEvery => true
  | PathInt n => 0 <=? n
  | PathFloat f => SFleb (S754_zero false) f && SFeqb f (float_of_int (int_of_float f)) && (int_of_float f <? 2 ^ 63)
  | PathInt64 _ | PathOther => false
  end.

Fixpoint path_loop (i j : Z) (path : list path_element) : res metadata_error unit :=
  match path with
  | [] => Ok tt
  | el :: path => if isClaimPathElement el then path_loop i (j + 1) path else Err (MetaPath i j)
  end.

Definition validateClaimPath (i : Z) (path : list path_element) : res metadata_error unit :=
  match path with [] => Err (MetaPathEmpty i) | _ => path_loop i 0 path end.

(** svgIDPattern, [^[A-Za-z_][A-Za-z0-9_]*$]. *)
Definition svg_start (c : ascii) : bool := let n := code c in (65 <=? n) && (n <=? 90) || (97 <=? n) && (n <=? 122) || (n =? 95).
Definition svgIDPattern (id : string) : bool :=
  match String.list_ascii_of_string id with
  | [] => false
  | c :: rest => svg_start c && forallb (fun c => svg_start c || is_digit c) rest
  end.

Definition validateSvgID (i : Z) (id : string) (seen : gset string) : res metadata_error (gset string) :=
  if String.eqb id "" then Ok seen
  else if negb (svgIDPattern id) then Err (MetaSvgID i id)
  else if bool_decide (id ∈ seen) then Err (MetaSvgIDTwice i id)
  else Ok ({[id]} ∪ seen).

Fixpoint claim_displays_loop (i j : Z) (l : list ClaimDisplay) : res metadata_error unit :=
  match l with
  | [] => Ok tt
  | d :: l => if String.eqb (cd_Locale d) "" || String.eqb (Label d) "" then Err (MetaClaimDisplay i j) else claim_displays_loop i (j + 1) l
  end.

Definition ClaimMetadata_validate (i : Z) (c : ClaimMetadata) (svgIDs : gset string) : res metadata_error (gset string) :=
  let? _ := validateClaimPath i (cm_Path c) in
  let? _ := claim_displays_loop i 0 (cm_Display c) in
  if existsb (String.eqb (cm_SD c)) [EmptyString; SDAlways; SDAllowed; SDNever] then validateSvgID i (SvgID c) svgIDs
  else Err (MetaSD i (cm_SD c)).

Fixpoint claims_metadata_loop (i : Z) (l : list ClaimMetadata) (svgIDs : gset string) : res metadata_error unit :=
  match l with
  | [] => Ok tt
  | c :: l => let? svgIDs := ClaimMetadata_validate i c svgIDs in claims_metadata_loop (i + 1) l svgIDs
  end.

Definition TypeMetadata_Validate (m : TypeMetadata) : res metadata_error unit :=
  if String.eqb (tm_VCT m) "" then Err MetaNoVCT
  else
    let? _ := if negb (String.eqb (ExtendsIntegrity m) "") then res_map_err MetaExtends (validateIntegrity (ExtendsIntegrity m)) else Ok tt in
    let? _ := displays_loop 0 (tm_Display m) in
    claims_metadata_loop 0 (tm_Claims m) ∅.

End Metadata.

(** ** Claims *)

(** Status and CNF are maps; [None] where nil. *)
Record Claims : Type := {
  VCT : string;
  AkaVCTs : option (list string);
  Iss : string;
  Nbf : option Z;
  Exp : option Z;
  VCTIntegrity : string;
  Status : option (list (string * claim));
  CNF : option (list (string * claim));
  Additional : list (string * claim)
}.

(** [tree[k] = v]. *)
Fixpoint set_claim (key : string) (v : claim) (o : list (string * claim)) : list (string * claim) :=
  match o with
  | [] => [(key, v)]
  | (k, w) :: o => if String.eqb k key then (k, v) :: o else (k, w) :: set_claim key v o
  end.

Fixpoint claim_member (key : string) (o : list (string * claim)) : option claim :=
  match o with
  | [] => None
  | (k, v) :: o => if String.eqb k key then Some v else claim_member key o
  end.

Definition set_when (b : bool) (key : string) (v : claim) (o : list (string * claim)) : list (string * claim) :=
  if b then set_claim key v o else o.

Definition set_some {A : Type} (a : option A) (key : string) (f : A -> claim) (o : list (string * claim)) : list (string * claim) :=
  match a with Some a => set_claim key (f a) o | None => o end.

Definition aka_claim (types : list string) : claim := Typed (Array (map (fun t => Scalar (VString t)) types)).

Definition claimTree (c : Claims) : list (string * claim) :=
  set_when (0 <? blen (default [] (AkaVCTs c))) "aka_vcts" (aka_claim (default [] (AkaVCTs c)))
  (set_some (CNF c) "cnf" Object
  (set_some (Status c) "status" Object
  (set_when (negb (String.eqb (VCTIntegrity c) "")) "vct#integrity" (Scalar (VString (VCTIntegrity c)))
  (set_some (Exp c) "exp" (fun t => Scalar (VInt t))
  (set_some (Nbf c) "nbf" (fun t => Scalar (VInt t))
  (set_when (negb (String.eqb (Iss c) "")) "iss" (Scalar (VString (Iss c)))
  (set_claim "vct" (Scalar (VString (VCT c))) (Additional c)))))))).

(** ** Claims against a type's metadata *)

Definition MaxInt32 : Z := 2 ^ 31 - 1.

Definition pathIndex (step : path_element) : option Z :=
  match step with
  | PathInt n => if 0 <=? n then Some n else None
  | PathInt64 n => if (0 <=? n) && (n <=? MaxInt32) then Some n else None
  | PathFloat f =>
      if SFleb (S754_zero false) f && float_integral f && SFleb f (float_of_int MaxInt32) then Some (int_of_float f) else None
  | _ => None
  end.

(** What reflection finds: a typed container is its elements; in a value with
    an encoding of its own there is nothing to step into. *)
Definition everyElement (v : claim) : list claim :=
  match v with Array l | Typed (Array l) => l | _ => [] end.

Definition members_of (v : claim) (name : string) : list claim :=
  match v with Object m | Typed (Object m) => match claim_member name m with Some c => [c] | None => [] end | _ => [] end.

Definition element (v : claim) (idx : Z) : list claim :=
  match v with Array l | Typed (Array l) => match l !! Z.to_nat idx with Some c => [c] | None => [] end | _ => [] end.

Inductive check_error : Type :=
| CheckVCT (vct : string)
| CheckPathElement (i : Z)
| CheckMandatory (i : Z)
| CheckAlways (i : Z)
| CheckNever (i : Z).

(** [None]: a path element that selects nothing in any value. *)
Definition stepInto (v : claim) (step : path_element) : option (list claim) :=
  match step with
  | PathEvery => Some (everyElement v)
  | PathName name => Some (members_of v name)
  | _ => match pathIndex step with Some idx => Some (element v idx) | None => None end
  end.

Definition unwrapSD (v : claim) : claim * bool :=
  let '(v, disclosable) := match v with SD c | SDElement c => (c, true) | _ => (v, false) end in
  (match v with WithDecoys w _ => w | _ => v end, disclosable).

Fixpoint step_nodes (nodes : list (claim * bool)) (step : path_element) : option (list (claim * bool)) :=
  match nodes with
  | [] => Some []
  | (v, _) :: nodes =>
      match stepInto v step with
      | None => None
      | Some children =>
          match step_nodes nodes step with
          | Some next => Some (map unwrapSD children ++ next)
          | None => None
          end
      end
  end.

Fixpoint select_nodes (nodes : list (claim * bool)) (path : list path_element) : option (list (claim * bool)) :=
  match path with
  | [] => Some nodes
  | step :: path => match step_nodes nodes step with Some next => select_nodes next path | None => None end
  end.

Definition selectClaims (tree : list (string * claim)) (path : list path_element) : option (list bool) :=
  match select_nodes [(Object tree, false)] path with Some nodes => Some (map snd nodes) | None => None end.

Fixpoint sd_loop (i : Z) (sd : string) (found : list bool) : res check_error unit :=
  match found with
  | [] => Ok tt
  | disclosable :: found =>
      if String.eqb sd SDAlways && negb disclosable then Err (CheckAlways i)
      else if String.eqb sd SDNever && disclosable then Err (CheckNever i)
      else sd_loop i sd found
  end.

Fixpoint check_claims_loop (i : Z) (tree : list (string * claim)) (l : list ClaimMetadata) : res check_error unit :=
  match l with
  | [] => Ok tt
  | c :: l =>
      match selectClaims tree (cm_Path c) with
      | None => Err (CheckPathElement i)
      | Some found =>
          if Mandatory c && (blen found =? 0) then Err (CheckMandatory i)
          else let? _ := sd_loop i (cm_SD c) found in check_claims_loop (i + 1) tree l
      end
  end.

Definition CheckTypeMetadata (c : Claims) (m : TypeMetadata) : res check_error unit :=
  if negb (String.eqb (tm_VCT m) "") && negb (String.eqb (tm_VCT m) (VCT c)) then Err (CheckVCT (tm_VCT m))
  else check_claims_loop 0 (claimTree c) (tm_Claims m).

(** ** Issue *)

Inductive sd_issue_error : Type :=
| IssueAkaVCTs
| IssueMarker
| IssueNotJSON (field : string)
| IssueReserved (field name : string)
| IssueNoVCT
| IssueIntegrity (e : integrity_error)
| IssueDecoys (n : Z)
| IssueIntermediates
| IssueChain (e : chain_error)
| IssueNoEqual
| IssueNotTheSigner
| IssueTypeMetadata (e : check_error)
| IssueReservedClaim (k : string)
| IssueSeal (e : sd_error)
| IssueMarshal
| IssueSign (e : jose_error)
| IssueJWTTooLarge (n : Z)
| IssueTooLarge (n : Z).

Definition reservedTopLevelClaims : list string :=
  ["vct"; "aka_vcts"; "iss"; "nbf"; "exp"; "vct#integrity"; "status"; "cnf"; "_sd"; "_sd_alg"; "..."]%string.

(** hasSDMarker, of what is in a map; a map or slice of any holds interfaces,
    each a level of its own. *)
Definition maxMarkerDepth : Z := 64.

Fixpoint hasSDMarkerValue (depth : Z) (c : claim) : bool :=
  if maxMarkerDepth <? depth then false
  else match c with
  | SD _ | SDElement _ | WithDecoys _ _ => true
  | Object m => existsb (fun p => hasSDMarkerValue (depth + 2) p.2) m
  | Array l => existsb (hasSDMarkerValue (depth + 2)) l
  | Typed c => hasSDMarkerValue depth c
  | Encoded marker _ => marker
  | Scalar _ => false
  end.

Definition hasSDMarker (v : option (list (string * claim))) : bool :=
  match v with Some m => hasSDMarkerValue 0 (Object m) | None => false end.

(** toGenericJSON: what a claim encodes to as it is, a marker as a struct
    whose fields encoding/json leaves out. *)
Fixpoint toGenericJSON (c : claim) : option goval :=
  match c with
  | Scalar v => Some v
  | Object m =>
      match (fix go m := match m with
        | [] => Some []
        | (k, c) :: m => match toGenericJSON c, go m with Some v, Some o => Some ((k, v) :: o) | _, _ => None end
        end) m with Some o => Some (VObject o) | None => None end
  | Array l =>
      match (fix go l := match l with
        | [] => Some []
        | c :: l => match toGenericJSON c, go l with Some v, Some o => Some (v :: o) | _, _ => None end
        end) l with Some o => Some (VArray o) | None => None end
  | SD _ | SDElement _ | WithDecoys _ _ => Some (VObject [])
  | Typed c => toGenericJSON c
  | Encoded _ None => None
  | Encoded _ (Some c) => toGenericJSON c
  end.

Fixpoint reservedNameIn (v : goval) : option string :=
  match v with
  | VObject o =>
      (fix go o := match o with
        | [] => None
        | (k, child) :: o =>
            if isReservedName k then Some k
            else match reservedNameIn child with Some name => Some name | None => go o end
        end) o
  | VArray l =>
      (fix go l := match l with
        | [] => None
        | child :: l => match reservedNameIn child with Some name => Some name | None => go l end
        end) l
  | _ => None
  end.

Definition checkNoReservedNames (field : string) (v : option (list (string * claim))) : res sd_issue_error unit :=
  match v with
  | None => Ok tt
  | Some m =>
      match toGenericJSON (Object m) with
      | None => Err (IssueNotJSON field)
      | Some generic => match reservedNameIn generic with Some name => Err (IssueReserved field name) | None => Ok tt end
      end
  end.

Definition set_goval (b : bool) (key : string) (v : goval) (o : list (string * goval)) : list (string * goval) :=
  if b then set_member key v o else o.

Definition set_opt {A : Type} (a : option A) (key : string) (f : A -> goval) (o : list (string * goval)) : list (string * goval) :=
  match a with Some a => set_member key (f a) o | None => o end.

(** What checkIssueInputs found to encode. *)
Definition generic_of (m : list (string * claim)) : goval := default VNil (toGenericJSON (Object m)).

Definition applyPlaintextClaims (sealed : list (string * goval)) (c : Claims) : list (string * goval) :=
  set_opt (CNF c) "cnf" generic_of
  (set_opt (Status c) "status" generic_of
  (set_goval (negb (String.eqb (VCTIntegrity c) "")) "vct#integrity" (VString (VCTIntegrity c))
  (set_opt (Exp c) "exp" VInt
  (set_opt (Nbf c) "nbf" VInt
  (set_goval (negb (String.eqb (Iss c) "")) "iss" (VString (Iss c))
  (set_goval (0 <? blen (default [] (AkaVCTs c))) "aka_vcts" (VArray (map VString (default [] (AkaVCTs c))))
  (set_member "vct" (VString (VCT c)) sealed))))))).

Section Issue.
Context `{Codec} `{JsonText} `{Signatures} `{!X509} `{SdIssueLib}.

(** NestedDecoys is in the supply; [has_Equal], whether the signer's public
    key is of a type with an Equal method. *)
Record IssueOptions : Type := {
  HashAlg : string;
  o_Decoys : Z;
  o_KeyID : string;
  IssuerCertificate : option Certificate;
  IssuerIntermediates : list Certificate;
  o_TypeMetadata : option TypeMetadata;
  has_Equal : bool
}.

Definition checkIssueInputs (s : signer) (c : Claims) (opts : IssueOptions) : res sd_issue_error unit :=
  let? _ := match AkaVCTs c with
    | Some types => if checkAkaVCTs (VCT c) types then Ok tt else Err IssueAkaVCTs
    | None => Ok tt
    end in
  if hasSDMarker (Status c) || hasSDMarker (CNF c) then Err IssueMarker
  else
    let? _ := checkNoReservedNames "Status" (Status c) in
    let? _ := checkNoReservedNames "CNF" (CNF c) in
    if String.eqb (VCT c) "" then Err IssueNoVCT
    else
      let? _ := if negb (String.eqb (VCTIntegrity c) "") then res_map_err IssueIntegrity (validateIntegrity (VCTIntegrity c)) else Ok tt in
      if (o_Decoys opts <? 0) || (MaxDecoys <? o_Decoys opts) then Err (IssueDecoys (o_Decoys opts))
      else match IssuerCertificate opts with
      | None => if 0 <? blen (IssuerIntermediates opts) then Err IssueIntermediates else Ok tt
      | Some cert =>
          let? _ := res_map_err IssueChain (CheckPresentedChain cert (IssuerIntermediates opts)) in
          if negb (has_Equal opts) then Err IssueNoEqual
          else if negb (key_Equal (Public s) (cert_PublicKey cert)) then Err IssueNotTheSigner
          else Ok tt
      end.

Definition issuerJWTHeader (opts : IssueOptions) : list (string * goval) :=
  set_opt (IssuerCertificate opts) "x5c" (fun cert =>
    VArray (map (fun c => VString (StdEncode (Raw c))) (cert :: IssuerIntermediates opts)))
  (set_goval (negb (String.eqb (o_KeyID opts) "")) "kid" (VString (o_KeyID opts)) [("typ", VString TypHeader)]%string).

Fixpoint reserved_loop (additional : list (string * claim)) : res sd_issue_error unit :=
  match additional with
  | [] => Ok tt
  | (k, _) :: additional => if existsb (String.eqb k) reservedTopLevelClaims then Err (IssueReservedClaim k) else reserved_loop additional
  end.

(** The payload: sealed, the registered claims, the decoys, _sd_alg. *)
Definition issue_payload (sup : supply) (c : Claims) (opts : IssueOptions) : res sd_issue_error (list (string * goval) * list Disclosure) :=
  let hashAlg := if String.eqb (HashAlg opts) "" then DefaultHashAlg else HashAlg opts in
  let? _ := reserved_loop (Additional c) in
  let? (sealed, disclosures, st) :=
    res_map_err IssueSeal (sealObject sup hashAlg (seal sup hashAlg) (Additional c) 0 false {| salts_drawn := 0; decoys_asked := 0 |}) in
  let sealed := applyPlaintextClaims (match sealed with VObject o => o | _ => [] end) c in
  let? (sealed, _) :=
    if (0 <? blen disclosures) && (0 <? o_Decoys opts) then res_map_err IssueSeal (addDecoys sup hashAlg sealed (o_Decoys opts) st)
    else Ok (sealed, st) in
  Ok (set_goval ((0 <? blen disclosures) || hasDisclosureDigest (VObject sealed)) "_sd_alg" (VString hashAlg) sealed, disclosures).

Definition Issue (sup : supply) (s : signer) (alg : string) (c : Claims) (opts : IssueOptions) : res sd_issue_error (string * list Disclosure) :=
  let? _ := checkIssueInputs s c opts in
  let? _ := match o_TypeMetadata opts with Some m => res_map_err IssueTypeMetadata (CheckTypeMetadata c m) | None => Ok tt end in
  let? (sealed, disclosures) := issue_payload sup c opts in
  match marshal_object sealed with
  | None => Err IssueMarshal
  | Some payload =>
      let? issuerJWT := res_map_err IssueSign (Jws.Sign alg s (issuerJWTHeader opts) payload) in
      if MaxCompactBytes <? slen issuerJWT then Err (IssueJWTTooLarge (slen issuerJWT))
      else
        let? out := res_map_err IssueSeal (sdjwt_loop (issuerJWT ++ "~")%string disclosures) in
        if MaxBytes <? slen out then Err (IssueTooLarge (slen out))
        else Ok (out, disclosures)
  end.

End Issue.
