(* ===== verification/Reasons.v ===== *)
(** * Why an answer is refused, and what a deployment assures: [verifier]'s errors.go and config.go

    The reasons a presentation or an answer fails verification with, their
    fixed descriptions, and the assurance levels. *)
From S2P Require Import Prelude.

Inductive Reason : Type :=
| ReasonMalformed
| ReasonStateMismatch
| ReasonNotAnswered
| ReasonUntrustedIssuer
| ReasonInvalidCredential
| ReasonHolderBinding
| ReasonUnrequestedClaims
| ReasonMdocDCAPIResponse.

Definition description (r : Reason) : string :=
  match r with
  | ReasonMalformed => "it is malformed (malformed)"
  | ReasonStateMismatch => "its state isn't this request's (state_mismatch)"
  | ReasonNotAnswered => "what it presents doesn't answer the request (not_answered)"
  | ReasonUntrustedIssuer => "a credential's issuer isn't trusted for it (untrusted_issuer)"
  | ReasonInvalidCredential => "a credential's signature or validity failed (invalid_credential)"
  | ReasonHolderBinding => "a credential's holder binding failed (holder_binding)"
  | ReasonUnrequestedClaims => "a credential discloses claims the request didn't ask for (unrequested_claims)"
  | ReasonMdocDCAPIResponse => "the org-iso-mdoc response didn't decrypt or verify (mdoc_dcapi_response)"
  end.

Inductive AssuranceLevel : Type := AssuranceDevelopment | AssuranceProduction.
Definition production (a : AssuranceLevel) : bool := match a with AssuranceProduction => true | _ => false end.
