(* ===== verification/CredentialStatus.v ===== *)
(** * A verified credential and its status: [verifier/status_ref.go], [verifier/status_policy.go] and [statuslist/claim.go]

    What a verified credential is reported as, the status reference it
    carries, and the policy an answer's credentials are held to.  Fetching and
    reading the list a reference names is the policy's own [requireValid]. *)
From S2P Require Import Prelude Json DcqlQuery JwtDate Jws X509 CertRevocation CertChain Hkdf Cose Mdoc IssuerKeys Reasons.
From Stdlib Require Import SpecFloat.
#[local] Open Scope Z_scope.

(** ** Verified credentials *)

Record VerifiedCredential : Type := {
  CredentialQueryID : string;
  vc_Claims : list (string * goval);
  MdocStatus : option Mdoc.Status;
  IssuerChain : list bytes             (* nil where empty *)
}.

(** ** References *)

(** A statuslist.StatusListRef. *)
Record ListRef : Type := { lr_Idx : Z; lr_URI : string }.

Inductive claim_error : Type :=
| ClaimNoStatusList
| ClaimNotObject
| ClaimNoIdx
| ClaimIdx
| ClaimNoURI
| ClaimJSON
| ClaimNull.

Definition ParseStatusClaim (status : list (string * goval)) : res claim_error ListRef :=
  match member "status_list" status with
  | None => Err ClaimNoStatusList
  | Some (VObject m) =>
      match member "idx" m with
      | None => Err ClaimNoIdx
      | Some (VFloat f) =>
          if SFltb f (S754_zero false) || SFltb (float_of_int (2 ^ 53)) f || negb (float_integral f) then Err ClaimIdx
          else match member "uri" m with
          | Some (VString uri) => if String.eqb uri "" then Err ClaimNoURI else Ok {| lr_Idx := int_of_float f; lr_URI := uri |}
          | _ => Err ClaimNoURI
          end
      | Some _ => Err ClaimIdx
      end
  | Some _ => Err ClaimNotObject
  end.

Definition ParseStatusClaimJSON `{JsonText} (status : bytes) : res claim_error ListRef :=
  match unmarshal_any status with
  | Some (VObject claim) => ParseStatusClaim claim
  | Some VNil => Err ClaimNull
  | _ => Err ClaimJSON
  end.

Inductive status_error : Type :=
| StatusIdentifierListOnly
| StatusUnknownMechanism
| StatusNotObject
| StatusClaim (e : claim_error)
| StatusNoReference (query : string)
| StatusInvalid (query : string).

(** A reference, whether it names a CWT's list, where there is one. *)
Definition StatusListRef (vc : VerifiedCredential) : res status_error (option (ListRef * bool)) :=
  match MdocStatus vc with
  | Some status =>
      match StatusList status with
      | Some sl => Ok (Some ({| lr_Idx := Idx sl; lr_URI := sl_URI sl |}, true))
      | None => if is_Some_b (IdentifierList status) then Err StatusIdentifierListOnly else Err StatusUnknownMechanism
      end
  | None =>
      match member "status" (vc_Claims vc) with
      | None => Ok None
      | Some (VObject status) => let? ref := res_map_err StatusClaim (ParseStatusClaim status) in Ok (Some (ref, false))
      | Some _ => Err StatusNotObject
      end
  end.

Definition has_identifier_list (vc : VerifiedCredential) : bool :=
  match MdocStatus vc with Some status => is_Some_b (IdentifierList status) | None => false end.

Fixpoint requireReferences (vcs : list VerifiedCredential) : res status_error unit :=
  match vcs with
  | [] => Ok tt
  | vc :: vcs =>
      let ok := match StatusListRef vc with Ok (Some _) => true | _ => false end in
      if negb ok && negb (has_identifier_list vc) then Err (StatusNoReference (CredentialQueryID vc))
      else requireReferences vcs
  end.

(** ** Policies *)

Section Policy.
Context `{Signatures} `{!X509}.

(** A StatusPolicy: its Checker's roots and fetcher's assurance, the
    revocation its options have, and the check of one reference with them. *)
Record StatusPolicy : Type := {
  sp_Roots : option CertPool;
  HardenedForProduction : bool;
  sp_Revocation : option Checker;
  RequireReference : bool;
  requireValid : VerifiedCredential -> bool
}.

Fixpoint require_valid_loop (p : StatusPolicy) (vcs : list VerifiedCredential) : res status_error unit :=
  match vcs with
  | [] => Ok tt
  | vc :: vcs => if requireValid p vc then require_valid_loop p vcs else Err (StatusInvalid (CredentialQueryID vc))
  end.

Definition StatusPolicy_Check (p : StatusPolicy) (vcs : list VerifiedCredential) : res status_error unit :=
  let? _ := if RequireReference p then requireReferences vcs else Ok tt in
  require_valid_loop p vcs.

Inductive decision_error : Type :=
| DecisionBoth
| DecisionNoRoots
| DecisionFetcher
| DecisionRevocation (e : keys_error)
| DecisionUndecided.

Definition StatusPolicy_validate (p : StatusPolicy) (assurance : AssuranceLevel) : res decision_error unit :=
  if negb (is_Some_b (sp_Roots p)) then Err DecisionNoRoots
  else if negb (production assurance) then Ok tt
  else if negb (HardenedForProduction p) then Err DecisionFetcher
  else res_map_err DecisionRevocation (validateRevocation (sp_Revocation p)).

Definition CheckStatusDecision (assurance : AssuranceLevel) (status : option StatusPolicy) (noStatusCheck : bool) : res decision_error unit :=
  match status with
  | Some p => if noStatusCheck then Err DecisionBoth else StatusPolicy_validate p assurance
  | None => if negb noStatusCheck && production assurance then Err DecisionUndecided else Ok tt
  end.

End Policy.
