(* ===== verification/StatusToken.v ===== *)
(** * Status List Tokens: [statuslist]'s token.go, cwt.go, x5c.go, check.go, claim.go, statustype.go, and cache.go's memos

    A Status List as its issuer signs it, a JWT or a CWT, and the status a
    relying party reads from one: the signer's chain, its binding to the
    credential's issuer, the signature, the claims and the list.  JSON, CBOR
    and zlib are parameters, as the walk leaves them.  The theorems: what is
    accepted, exactly; and that a token checked again from what a cache keeps
    of it is checked as its bytes would be. *)
From S2P Require Import Prelude Cbor B64Url Json DcqlQuery DcqlValues Text JwtDate Jws X509 CertChain Hkdf Cose Mdoc IssuerKeys Reasons CredentialStatus.
From S2P Require StatusBits ListFetch.
From Stdlib Require Import Ascii SpecFloat.
#[local] Open Scope Z_scope.

Definition TokenTyp : string := "statuslist+jwt".
Definition TokenMediaType : string := "application/statuslist+jwt".
Definition CWTTokenMediaType : string := "application/statuslist+cwt".
Definition MaxTokenBytesLimit : Z := 32 * 2 ^ 20.
Definition MaxInt : Z := 2 ^ 63 - 1.

Definition cwtClaimIss : Z := 1.
Definition cwtClaimSub : Z := 2.
Definition cwtClaimExp : Z := 4.
Definition cwtClaimNbf : Z := 5.
Definition cwtClaimIat : Z := 6.
Definition cwtClaimTTL : Z := 65534.
Definition cwtClaimStatusList : Z := 65533.

(** ** Statuses *)

(** A StatusType is its number. *)
Definition StatusValid : Z := 0.
Definition StatusInvalid : Z := 1.
Definition StatusSuspended : Z := 2.

Definition failClosed {E A} (r : res E (Z * A)) : Z * res E A :=
  match r with Ok (status, a) => (status, Ok a) | Err e => (StatusInvalid, Err e) end.

(** ** Claims *)

Record TokenClaims : Type := {
  Sub : string;
  Iat : Z;
  Exp : option Z;
  TTL : option Z;
  tc_StatusList : StatusBits.StatusList;
  Additional : list (string * goval)
}.

Record parsedClaims : Type := { claims : TokenClaims; iss : string; nbf : option Z }.

(** The claims as JSON holds them, and a list as CBOR does. *)
Record wireClaims : Type := {
  w_Iss : string;
  w_Sub : string;
  w_Iat : option spec_float;
  w_Exp : option spec_float;
  w_Nbf : option spec_float;
  w_TTL : option Z;
  w_StatusList : StatusBits.StatusList
}.
Record cwtStatusList : Type := { cw_Bits : Z; cw_Lst : bytes; cw_AggregationURI : bytes }.

Inductive token_error : Type :=
| TokenMaxBytes (n : Z)
| TokenUnbound
| TokenJose (e : jose_error)
| TokenCose (e : cose_error)
| TokenTypIs (typ : string)
| TokenJSON
| TokenCBOR (e : cbor_error)
| TokenDate (claim : string) (e : date_error)
| TokenNoSub
| TokenTTL
| TokenBits
| TokenClaimType (claim : string)
| TokenNoStatusList
| TokenIss (iss : string)
| TokenTimes (e : window_error)
| TokenSub (sub : string)
| TokenIdx (idx : Z)
| TokenStatus (e : StatusBits.status_error)
| TokenSigner (e : chain_error)
| TokenSignerCose (e : cose_error)
| TokenAnotherKey
| TokenNotIssuer (e : chain_error)
| TokenNoIat
| TokenExpBeforeIat
| TokenMarshal
| TokenLst (e : b64_error)
| TokenNoURI
| TokenNoRoots
| TokenFetch (e : ListFetch.fetch_error)
| TokenTooLarge (n : Z).

(** What the package calls: encoding/json into the claims' struct; the CBOR
    library, whose [any] is [cbor_any], read as [as_goval] reads it; base64, compress/zlib and strings.EqualFold. *)
Class TokenText : Type := {
  std_encode : bytes -> string;
  std_decode : string -> option bytes;
  EqualFold : string -> string -> bool;
  inflate : bytes -> option StatusBits.zstream;
  unmarshal_claims : bytes -> option wireClaims;
  cbor_any : Type;
  as_goval : cbor_any -> goval;
  marshal_any_cbor : cbor_any -> option bytes;
  unmarshal_cwt : bytes -> res cbor_error (gmap Z cbor_any);
  unmarshal_cwt_list : bytes -> res cbor_error cwtStatusList;
  unmarshal_cwt_ref : bytes -> res cbor_error (list (string * cbor_any));
  marshal_cwt : gmap Z goval -> option bytes
}.

Section Tokens.
Context `{Signatures} `{!CoseKeys} `{!CborLib} `{!JsonText} `{!X509} `{!TokenText}.

Record VerifyOptions : Type := {
  Now : option Z;                      (* what it gives, read once a check *)
  MaxAge : Z;
  MaxClockSkew : Z;
  RequireExp : bool;
  X5ChainProtectedOnly : bool;
  LeafPolicy : option policy;
  Revocation : option Checker;
  Issuer : string;
  IssuerKey : option (PublicKey ec);
  UnboundSigner : option policy;
  MaxTokenBytes : Z
}.

Definition AnyListSigner : policy := fun _ _ => true.

Definition signerPolicy (o : VerifyOptions) : res token_error (option policy) :=
  if negb (String.eqb (Issuer o) "") || is_Some_b (IssuerKey o) then Ok (LeafPolicy o)
  else match UnboundSigner o with
  | None => Err TokenUnbound
  | Some p => Ok (BothPolicies (Some p) (LeafPolicy o))
  end.

Definition maxTokenBytes (o : VerifyOptions) : res token_error Z :=
  if (MaxTokenBytes o <? 0) || (MaxTokenBytesLimit <? MaxTokenBytes o) then Err (TokenMaxBytes (MaxTokenBytes o))
  else if MaxTokenBytes o =? 0 then Ok ListFetch.DefaultMaxTokenBytes
  else Ok (MaxTokenBytes o).

(** [clock] is time.Now. *)
Definition now (clock : Z) (o : VerifyOptions) : Z := default clock (Now o).

Definition atOneInstant (clock : Z) (o : VerifyOptions) : VerifyOptions := {|
  Now := Some (now clock o); MaxAge := MaxAge o; MaxClockSkew := MaxClockSkew o; RequireExp := RequireExp o;
  X5ChainProtectedOnly := X5ChainProtectedOnly o; LeafPolicy := LeafPolicy o; Revocation := Revocation o; Issuer := Issuer o;
  IssuerKey := IssuerKey o; UnboundSigner := UnboundSigner o; MaxTokenBytes := MaxTokenBytes o |}.

(** ** Issuing *)

Definition TokenClaims_validate (c : TokenClaims) : res token_error unit :=
  if String.eqb (Sub c) "" then Err TokenNoSub
  else if Iat c <=? 0 then Err TokenNoIat
  else if match TTL c with Some ttl => ttl <=? 0 | None => false end then Err TokenTTL
  else if match Exp c with Some exp => exp <=? Iat c | None => false end then Err TokenExpBeforeIat
  else if negb (StatusBits.bits_valid (StatusBits.sl_Bits (tc_StatusList c))) then Err TokenBits
  else Ok tt.

(** A StatusList's JSON. *)
Definition list_object (sl : StatusBits.StatusList) : goval :=
  VObject ([("bits", VInt (StatusBits.sl_Bits sl)); ("lst", VString (bytes_string (StatusBits.sl_Lst sl)))]%string ++
    match StatusBits.sl_AggregationURI sl with [] => [] | uri => [("aggregation_uri", VString (bytes_string uri))]%string end).

Definition set_opt (key : string) (v : option Z) (o : list (string * goval)) : list (string * goval) :=
  match v with Some n => set_member key (VInt n) o | None => o end.

Definition token_payload (c : TokenClaims) : list (string * goval) :=
  set_member "status_list" (list_object (tc_StatusList c))
    (set_opt "ttl" (TTL c) (set_opt "exp" (Exp c) (set_member "iat" (VInt (Iat c)) (set_member "sub" (VString (Sub c)) (Additional c))))).

Definition signToken (s : signer) (alg : string) (c : TokenClaims) (header : list (string * goval)) : res token_error string :=
  match marshal_object (token_payload c) with
  | None => Err TokenMarshal
  | Some raw => res_map_err TokenJose (Jws.Sign alg s header raw)
  end.

Definition issueToken (s : signer) (alg : string) (c : TokenClaims) (header : list (string * goval)) : res token_error string :=
  let? _ := TokenClaims_validate c in signToken s alg c header.

Definition IssueToken (s : signer) (alg : string) (c : TokenClaims) (keyID : string) : res token_error string :=
  issueToken s alg c (if String.eqb keyID "" then [("typ", VString TokenTyp)]%string else [("typ", VString TokenTyp); ("kid", VString keyID)]%string).

Definition IssueTokenX5C (s : signer) (alg : string) (c : TokenClaims) (chain : list Certificate) : res token_error string :=
  let? ders := res_map_err TokenSigner (SignerChainDERs (Public s) chain) in
  issueToken s alg c [("typ", VString TokenTyp); ("x5c", VArray (map (fun der => VString (std_encode der)) ders))]%string.

Definition toCWTStatusList (sl : StatusBits.StatusList) : res token_error cwtStatusList :=
  let? raw := res_map_err TokenLst (B64Url.DecodeString (StatusBits.sl_Lst sl)) in
  Ok {| cw_Bits := StatusBits.sl_Bits sl; cw_Lst := raw; cw_AggregationURI := StatusBits.sl_AggregationURI sl |}.

Definition fromCWTStatusList (c : cwtStatusList) : StatusBits.StatusList :=
  {| StatusBits.sl_Bits := cw_Bits c; StatusBits.sl_Lst := EncodeToString (cw_Lst c); StatusBits.sl_AggregationURI := cw_AggregationURI c |}.

Definition cwt_list_value (c : cwtStatusList) : goval :=
  VObject ([("bits", VInt (cw_Bits c)); ("lst", VBytes (cw_Lst c))]%string ++
    match cw_AggregationURI c with [] => [] | uri => [("aggregation_uri", VString (bytes_string uri))]%string end).

Definition insert_opt (key : Z) (v : option Z) (m : gmap Z goval) : gmap Z goval :=
  match v with Some n => <[key := VInt n]> m | None => m end.

Definition issueTokenCWT (s : signer) (alg : Z) (c : TokenClaims) (protected : Headers) : res token_error bytes :=
  let? _ := TokenClaims_validate c in
  let? cwtSL := toCWTStatusList (tc_StatusList c) in
  let payload := <[cwtClaimStatusList := cwt_list_value cwtSL]> (insert_opt cwtClaimTTL (TTL c) (insert_opt cwtClaimExp (Exp c)
    (<[cwtClaimIat := VInt (Iat c)]> {[cwtClaimSub := VString (Sub c)]}))) in
  match marshal_cwt payload with
  | None => Err TokenMarshal
  | Some raw => res_map_err TokenCose (SignTagged alg s protected no_headers (Some raw) [])
  end.

Definition IssueTokenCWT (s : signer) (alg : Z) (c : TokenClaims) (keyID : option bytes) : res token_error bytes :=
  issueTokenCWT s alg c {| h_Alg := 0; KID := keyID; h_Typ := CWTTokenMediaType; X5Chain := [] |}.

Definition IssueTokenCWTX5Chain (s : signer) (alg : Z) (c : TokenClaims) (chain : list Certificate) : res token_error bytes :=
  let? ders := res_map_err TokenSigner (SignerChainDERs (Public s) chain) in
  issueTokenCWT s alg c {| h_Alg := 0; KID := None; h_Typ := CWTTokenMediaType; X5Chain := ders |}.

(** ** Reading *)

(** A date of JSON's, where there is one. *)
Definition float_date (claim : string) (v : option spec_float) : res token_error (option Z) :=
  match v with
  | None => Ok None
  | Some f => let? at' := res_map_err (TokenDate claim) (FromFloat f) in Ok (Some (at' / Second))
  end.

Definition parseJWTClaims (raw : bytes) : res token_error parsedClaims :=
  match unmarshal_claims raw with
  | None => Err TokenJSON
  | Some w =>
      let? iat := float_date "iat" (w_Iat w) in
      let? exp := float_date "exp" (w_Exp w) in
      let? nbf := float_date "nbf" (w_Nbf w) in
      if String.eqb (w_Sub w) "" then Err TokenNoSub
      else if match w_TTL w with Some ttl => ttl <=? 0 | None => false end then Err TokenTTL
      else if negb (StatusBits.bits_valid (StatusBits.sl_Bits (w_StatusList w))) then Err TokenBits
      else Ok {| claims := {| Sub := w_Sub w; Iat := default 0 iat; Exp := exp; TTL := w_TTL w; tc_StatusList := w_StatusList w; Additional := [] |};
                 iss := w_Iss w; nbf := nbf |}
  end.

Definition checkTokenTimes (clock iat : Z) (exp nbf : option Z) (o : VerifyOptions) : res token_error unit :=
  res_map_err TokenTimes
    (Window_Check {| JwtDate.MaxAge := MaxAge o; JwtDate.MaxClockSkew := MaxClockSkew o; JwtDate.RequireExp := RequireExp o |} iat exp nbf (now clock o)).

Definition parsedClaims_check (clock : Z) (p : parsedClaims) (o : VerifyOptions) : res token_error unit :=
  if negb (String.eqb (iss p) "") && negb (String.eqb (Issuer o) "") && negb (String.eqb (iss p) (Issuer o)) then Err (TokenIss (iss p))
  else checkTokenTimes clock (Iat (claims p)) (Exp (claims p)) (nbf p) o.

Definition parseChecked (clock : Z) (raw : bytes) (parse : bytes -> res token_error parsedClaims) (o : VerifyOptions) : res token_error parsedClaims :=
  let? parsed := parse raw in
  let? _ := parsedClaims_check clock parsed o in
  Ok parsed.

Definition verifyToken (clock : Z) (token : string) (pub : PublicKey ec) (alg : string) (o : VerifyOptions) : res token_error parsedClaims :=
  let? limit := maxTokenBytes o in
  let? (header, raw) := res_map_err TokenJose (Jws.VerifyMax alg pub token limit) in
  let typ := string_member "typ" header in
  if negb (TypeIs typ TokenMediaType) then Err (TokenTypIs typ) else parseChecked clock raw parseJWTClaims o.

Definition VerifyToken (clock : Z) (token : string) (pub : PublicKey ec) (alg : string) (o : VerifyOptions) : res token_error TokenClaims :=
  let? parsed := verifyToken clock token pub alg o in Ok (claims parsed).

(** The claims of a CWT: each as the decoder gives it, nil where there is none. *)
Definition cwt_claim (key : Z) (m : gmap Z cbor_any) : goval := match m !! key with Some v => as_goval v | None => VNil end.

Definition toNumericDateClaim (claim : string) (v : goval) : res token_error Z :=
  let? at' := res_map_err (TokenDate claim) (FromCBOR v) in Ok (at' / Second).

Definition toInt64Claim (claim : string) (v : goval) : res token_error Z :=
  match v with
  | VInt n => if 2 ^ 62 <? n then Err (TokenClaimType claim) else Ok n
  | _ => Err (TokenClaimType claim)
  end.

Definition cwt_opt {A} (key : Z) (m : gmap Z cbor_any) (read : goval -> res token_error A) : res token_error (option A) :=
  match m !! key with None => Ok None | Some v => let? a := read (as_goval v) in Ok (Some a) end.

Definition cwtDecMode : DecMode cbor_key := Wrap
  {| MaxNestedLevels := 16; MaxArrayElements := 0; MaxMapPairs := 0; UTF8RejectInvalid := true;
     MapKeyByteStringAllowed := true; other_eqb := key_eqb; unmarshal_time := decodes_time; unmarshal_map_key := decode_map_key |}.

Definition cwt_decode {V} (unmarshal : bytes -> res cbor_error V) (d : bytes) : res token_error V :=
  res_map_err TokenCBOR (Unmarshal unmarshal cwtDecMode d).1.

Definition decodeCBORValue {V} (unmarshal : bytes -> res cbor_error V) (v : cbor_any) : res token_error V :=
  match marshal_any_cbor v with None => Err TokenMarshal | Some raw => cwt_decode unmarshal raw end.

Definition parseCWTClaims (m : gmap Z cbor_any) : res token_error TokenClaims :=
  match cwt_claim cwtClaimSub m with
  | VString sub =>
      if String.eqb sub "" then Err TokenNoSub
      else
        let? iat := toNumericDateClaim "iat" (cwt_claim cwtClaimIat m) in
        let? exp := cwt_opt cwtClaimExp m (toNumericDateClaim "exp") in
        let? ttl := cwt_opt cwtClaimTTL m (fun v => let? n := toInt64Claim "ttl" v in if n <=? 0 then Err TokenTTL else Ok n) in
        match m !! cwtClaimStatusList with
        | None => Err TokenNoStatusList
        | Some slRaw =>
            let? sl := decodeCBORValue unmarshal_cwt_list slRaw in
            Ok {| Sub := sub; Iat := iat; Exp := exp; TTL := ttl; tc_StatusList := fromCWTStatusList sl; Additional := [] |}
        end
  | _ => Err TokenNoSub
  end.

Definition parseCWTPayload (raw : bytes) : res token_error parsedClaims :=
  let? m := cwt_decode unmarshal_cwt raw in
  let? c := parseCWTClaims m in
  if negb (StatusBits.bits_valid (StatusBits.sl_Bits (tc_StatusList c))) then Err TokenBits
  else
    let? iss := cwt_opt cwtClaimIss m (fun v => match v with VString s => Ok s | _ => Err (TokenClaimType "iss") end) in
    let? nbf := cwt_opt cwtClaimNbf m (toNumericDateClaim "nbf") in
    Ok {| claims := c; iss := default EmptyString iss; nbf := nbf |}.

Definition verifyTokenCWT (clock : Z) (token : bytes) (pub : PublicKey ec) (alg : Z) (o : VerifyOptions) : res token_error parsedClaims :=
  let? limit := maxTokenBytes o in
  let? (protected, _, raw) := res_map_err TokenCose (Cose.VerifyMax alg pub token [] limit) in
  if negb (EqualFold (h_Typ protected) CWTTokenMediaType) then Err (TokenTypIs (h_Typ protected))
  else parseChecked clock raw parseCWTPayload o.

Definition VerifyTokenCWT (clock : Z) (token : bytes) (pub : PublicKey ec) (alg : Z) (o : VerifyOptions) : res token_error TokenClaims :=
  let? parsed := verifyTokenCWT clock token pub alg o in Ok (claims parsed).

(** ** References *)

Definition Claim (ref : ListRef) : goval :=
  VObject [("status_list", VObject [("idx", VInt (lr_Idx ref)); ("uri", VString (lr_URI ref))])]%string.

Definition CWTStatusClaim (ref : ListRef) : res token_error goval :=
  if String.eqb (lr_URI ref) "" then Err TokenNoURI else Ok (Claim ref).

Definition any_member (key : string) (m : list (string * cbor_any)) : option cbor_any := snd <$> List.find (fun p => String.eqb p.1 key) m.

Definition ParseCWTStatusClaim (status : list (string * cbor_any)) : res token_error ListRef :=
  match any_member "status_list" status with
  | None => Err TokenNoStatusList
  | Some raw =>
      let? m := decodeCBORValue unmarshal_cwt_ref raw in
      match any_member "idx" m with
      | None => Err (TokenClaimType "idx")
      | Some idxRaw =>
          let? idx := toInt64Claim "idx" (as_goval idxRaw) in
          if idx <? 0 then Err (TokenClaimType "idx")
          else match as_goval <$> any_member "uri" m with
          | Some (VString uri) => if String.eqb uri "" then Err TokenNoURI else Ok {| lr_Idx := idx; lr_URI := uri |}
          | _ => Err TokenNoURI
          end
      end
  end.

(** ** Checking *)

Definition checkSub (c : TokenClaims) (uri : string) : res token_error unit :=
  if negb (String.eqb (Sub c) uri) then Err (TokenSub (Sub c)) else Ok tt.

Definition checkClaims (parsed : parsedClaims) (ref : ListRef) (decoded : option StatusBits.Decoded) : res token_error (Z * parsedClaims) :=
  let? _ := checkSub (claims parsed) (lr_URI ref) in
  if MaxInt <? lr_Idx ref then Err (TokenIdx (lr_Idx ref))
  else
    let? status := res_map_err TokenStatus
      match decoded with
      | Some d => StatusBits.Decoded_Status d (lr_Idx ref)
      | None => StatusBits.StatusList_Status inflate (tc_StatusList (claims parsed)) (lr_Idx ref)
      end in
    Ok (status, parsed).

Definition claims_of {E} (r : res E (Z * parsedClaims)) : res E (Z * TokenClaims) := let? (status, p) := r in Ok (status, claims p).

Definition Check (clock : Z) (token : string) (issuerPub : PublicKey ec) (alg : string) (ref : ListRef) (o : VerifyOptions) : Z * res token_error TokenClaims :=
  failClosed (claims_of (let? parsed := verifyToken clock token issuerPub alg o in checkClaims parsed ref None)).

Definition CheckCWT (clock : Z) (token : bytes) (issuerPub : PublicKey ec) (alg : Z) (ref : ListRef) (o : VerifyOptions) : Z * res token_error TokenClaims :=
  failClosed (claims_of (let? parsed := verifyTokenCWT clock token issuerPub alg o in checkClaims parsed ref None)).

(** certchain.SameKey, a nil key being [None]. *)
Definition SameKey (a : PublicKey ec) (b : option (PublicKey ec)) : bool := match b with Some b => key_Equal a b | None => false end.

Definition checkSignerIsIssuer (leaf : Certificate) (o : VerifyOptions) : res token_error unit :=
  if (String.eqb (Issuer o) "" && negb (is_Some_b (IssuerKey o))) || SameKey (cert_PublicKey leaf) (IssuerKey o) then Ok tt
  else if String.eqb (Issuer o) "" then Err TokenAnotherKey
  else res_map_err TokenNotIssuer (CheckIssuerName EqualFold leaf (Issuer o)).

Definition signerTrust (clock : Z) (roots : option CertPool) (o : VerifyOptions) : res token_error X5ChainTrust :=
  let? p := signerPolicy o in
  let? limit := maxTokenBytes o in
  Ok {| trust_MaxBytes := limit; ProtectedOnly := X5ChainProtectedOnly o; trust_Roots := roots; trust_Policy := p;
        trust_Revocation := Revocation o; trust_Now := now clock o |}.

Definition trustedSigner (clock : Z) (trust : X5ChainTrust) (chain : list bytes) (cwt : bool) (o : VerifyOptions) : res token_error (Certificate * Z) :=
  let? (leaf, alg) :=
    if cwt then res_map_err TokenSignerCose (Signer clock trust chain)
    else
      let? (leaf, _) := res_map_err TokenSigner
        (VerifyTrustedChainsAt chain (trust_Roots trust) (trust_Policy trust) (trust_Revocation trust) (trust_Now trust) clock) in
      Ok (leaf, 0) in
  let? _ := checkSignerIsIssuer leaf o in
  Ok (leaf, alg).

Record signedToken : Type := { st_chain : list bytes; st_chainProtected : bool; st_parsed : parsedClaims }.

Definition verifyX5C (clock : Z) (token : string) (roots : option CertPool) (o : VerifyOptions) : res token_error signedToken :=
  let o := atOneInstant clock o in
  let? trust := signerTrust clock roots o in
  let? (header, _) := res_map_err TokenJose (Jws.DecodeUnverifiedMax token (trust_MaxBytes trust)) in
  let? chain := res_map_err TokenSigner (X5CDERsFromHeader std_decode header) in
  let? (leaf, _) := trustedSigner clock trust chain false o in
  let? eddsa := res_map_err TokenSigner (SignerKeyIsEdDSA (cert_PublicKey leaf)) in
  let? parsed := verifyToken clock token (cert_PublicKey leaf) (if eddsa : bool then Jws.EdDSA else Jws.ES256) o in
  Ok {| st_chain := chain; st_chainProtected := false; st_parsed := parsed |}.

Definition verifyCWTX5Chain (clock : Z) (token : bytes) (roots : option CertPool) (o : VerifyOptions) : res token_error signedToken :=
  let o := atOneInstant clock o in
  let? trust := signerTrust clock roots o in
  let? (chain, protected) := res_map_err TokenCose (Chain trust token) in
  let? (leaf, alg) := trustedSigner clock trust chain true o in
  let? parsed := verifyTokenCWT clock token (cert_PublicKey leaf) alg o in
  Ok {| st_chain := chain; st_chainProtected := protected; st_parsed := parsed |}.

Definition checkX5C (clock : Z) (token : string) (roots : option CertPool) (ref : ListRef) (o : VerifyOptions) : res token_error (Z * parsedClaims) :=
  let? signed := verifyX5C clock token roots o in checkClaims (st_parsed signed) ref None.

Definition checkCWTX5Chain (clock : Z) (token : bytes) (roots : option CertPool) (ref : ListRef) (o : VerifyOptions) : res token_error (Z * parsedClaims) :=
  let? signed := verifyCWTX5Chain clock token roots o in checkClaims (st_parsed signed) ref None.

Definition CheckX5C (clock : Z) (token : string) (roots : option CertPool) (ref : ListRef) (o : VerifyOptions) : Z * res token_error TokenClaims :=
  failClosed (claims_of (checkX5C clock token roots ref o)).

Definition CheckCWTX5Chain (clock : Z) (token : bytes) (roots : option CertPool) (ref : ListRef) (o : VerifyOptions) : Z * res token_error TokenClaims :=
  failClosed (claims_of (checkCWTX5Chain clock token roots ref o)).

(** ** What a cache keeps *)

Record tokenMemo : Type := {
  m_size : Z;
  m_cwt : bool;
  m_chainProtected : bool;
  m_chain : list bytes;
  m_parsed : parsedClaims;
  m_decoded : option StatusBits.Decoded
}.

Definition verify_form (clock : Z) (token : bytes) (cwt : bool) (roots : option CertPool) (o : VerifyOptions) : res token_error signedToken :=
  if cwt then verifyCWTX5Chain clock token roots o else verifyX5C clock (bytes_string token) roots o.

Definition verifyMemo (clock : Z) (token : bytes) (cwt : bool) (roots : option CertPool) (uri : string) (o : VerifyOptions) : res token_error tokenMemo :=
  let? signed := verify_form clock token cwt roots o in
  let? _ := checkSub (claims (st_parsed signed)) uri in
  Ok {| m_size := blen token; m_cwt := cwt; m_chainProtected := st_chainProtected signed; m_chain := st_chain signed; m_parsed := st_parsed signed;
        m_decoded := match StatusBits.Decode inflate (tc_StatusList (claims (st_parsed signed))) with Ok d => Some d | Err _ => None end |}.

Definition recheck (clock : Z) (m : tokenMemo) (roots : option CertPool) (uri : string) (o : VerifyOptions) : res token_error unit :=
  let o := atOneInstant clock o in
  let? trust := signerTrust clock roots o in
  if trust_MaxBytes trust <? m_size m then Err (TokenTooLarge (m_size m))
  else
    let chain := if m_cwt m && X5ChainProtectedOnly o && negb (m_chainProtected m) then [] else m_chain m in
    let? _ := trustedSigner clock trust chain (m_cwt m) o in
    let? _ := parsedClaims_check clock (m_parsed m) o in
    checkSub (claims (m_parsed m)) uri.

(** A check answered from a memo that passed. *)
Definition check_memo (clock : Z) (m : tokenMemo) (roots : option CertPool) (ref : ListRef) (o : VerifyOptions) : res token_error (Z * parsedClaims) :=
  let? _ := recheck clock m roots (lr_URI ref) o in checkClaims (m_parsed m) ref (m_decoded m).

Definition check_form (clock : Z) (token : bytes) (cwt : bool) (roots : option CertPool) (ref : ListRef) (o : VerifyOptions) : res token_error (Z * parsedClaims) :=
  if cwt then checkCWTX5Chain clock token roots ref o else checkX5C clock (bytes_string token) roots ref o.

(** ** A Checker *)

Record ListChecker : Type := { Fetcher : ListFetch.Fetcher; Roots : option CertPool; Options : VerifyOptions }.

Definition with_limit (o : VerifyOptions) (max : Z) (cwt : bool) : VerifyOptions := {|
  Now := Now o; MaxAge := MaxAge o; MaxClockSkew := MaxClockSkew o; RequireExp := cwt || RequireExp o;
  X5ChainProtectedOnly := cwt || X5ChainProtectedOnly o; LeafPolicy := LeafPolicy o; Revocation := Revocation o; Issuer := Issuer o;
  IssuerKey := IssuerKey o; UnboundSigner := UnboundSigner o; MaxTokenBytes := max |}.

Definition with_max_bytes (f : ListFetch.Fetcher) (max : Z) : ListFetch.Fetcher := {|
  ListFetch.f_HTTP := ListFetch.f_HTTP f; ListFetch.f_MaxBytes := max; ListFetch.AllowLoopback := ListFetch.AllowLoopback f;
  ListFetch.AllowPrivate := ListFetch.AllowPrivate f; ListFetch.AllowProxy := ListFetch.AllowProxy f;
  ListFetch.UncheckedTransport := ListFetch.UncheckedTransport f |}.

Context `{!ListFetch.Http}.

(** The largest token a Checker reads, and what it fetches and checks with. *)
Definition checker_limit (c : ListChecker) : Z :=
  if MaxTokenBytes (Options c) =? 0 then ListFetch.f_MaxBytes (Fetcher c) else MaxTokenBytes (Options c).
Definition checker_options (c : ListChecker) (cwt : bool) : VerifyOptions := with_limit (Options c) (checker_limit c) cwt.
Definition checker_fetcher (c : ListChecker) : ListFetch.Fetcher :=
  if ListFetch.f_MaxBytes (Fetcher c) =? 0 then with_max_bytes (Fetcher c) (checker_limit c) else Fetcher c.
Definition media_type (cwt : bool) : string := if cwt then CWTTokenMediaType else TokenMediaType.

(** Checker.check, of a Checker without a Cache. *)
Definition Checker_check (clock : Z) (c : ListChecker) (ref : ListRef) (cwt : bool) : res token_error (Z * parsedClaims) :=
  if negb (is_Some_b (Roots c)) then Err TokenNoRoots
  else
    let? _ := signerPolicy (Options c) in
    let? _ := maxTokenBytes (checker_options c cwt) in
    let? token := res_map_err TokenFetch (ListFetch.Fetch (checker_fetcher c) (lr_URI ref) (media_type cwt)) in
    check_form clock token cwt (Roots c) ref (checker_options c cwt).

Definition Checker_Check (clock : Z) (c : ListChecker) (ref : ListRef) (cwt : bool) : Z * res token_error TokenClaims :=
  failClosed (claims_of (Checker_check clock c ref cwt)).

Inductive valid_error : Type := ErrCheck (e : token_error) | ErrNotValid (status : Z).

Definition RequireValid (clock : Z) (c : ListChecker) (ref : ListRef) (cwt : bool) : res valid_error unit :=
  match Checker_Check clock c ref cwt with
  | (_, Err e) => Err (ErrCheck e)
  | (status, Ok _) => if negb (status =? StatusValid) then Err (ErrNotValid status) else Ok tt
  end.

End Tokens.

(** ** What depends on a token's bytes alone *)

Lemma slen_bytes_string b : slen (bytes_string b) = blen b.
Proof.
  unfold bytes_string, slen, blen; f_equal; rewrite <- (length_map (fun z => ascii_of_N (Z.to_N z)) b).
  induction (map _ b) as [|c l IH]; [done|]; cbn [String.string_of_list_ascii String.length length]; by rewrite IH.
Qed.

Section Bytes.
Context `{Signatures} `{!CoseKeys} `{!CborLib} `{!JsonText} `{!X509} `{!TokenText}.

Lemma jws_VerifyMax_limit alg pub token n x :
  Jws.VerifyMax alg pub token n = Ok x <-> slen token <= n /\ Jws.VerifyMax alg pub token (slen token) = Ok x.
Proof using. 
  unfold Jws.VerifyMax; rewrite Z.ltb_irrefl; destruct (Z.ltb_spec n (slen token)); split; try done; [by intros [? _]; lia|by intros [_ ?]].
Qed.

Lemma jws_VerifyMax_decodes alg pub token n header raw :
  Jws.VerifyMax alg pub token n = Ok (header, raw) -> Jws.DecodeUnverifiedMax token n = Ok (header, raw).
Proof using.
  unfold Jws.VerifyMax, Jws.DecodeUnverifiedMax; destruct (n <? slen token); [done|].
  destruct (split token) as [[[h p] s]|]; cbn [res_bind]; [|done]; destruct (decodeHeader h) as [hd|]; cbn [res_bind]; [|done].
  go_if; [done|]; destruct (b64_decode p) as [pl|]; cbn [res_map_err res_bind]; [|done].
  destruct (b64_decode s) as [sig|]; cbn [res_map_err res_bind]; [|done]; by destruct (Jws.verifyBytes _ _ _ _) as [[]|].
Qed.

Lemma cose_VerifyMax_limit alg pub token n x :
  Cose.VerifyMax alg pub token [] n = Ok x <-> blen token <= n /\ Cose.VerifyMax alg pub token [] (blen token) = Ok x.
Proof using.
  unfold Cose.VerifyMax, decodeRaw, read_message; rewrite Z.ltb_irrefl.
  destruct (Z.ltb_spec n (blen token)); split; try done; [by intros [? _]; lia|by intros [_ ?]].
Qed.

Lemma cose_VerifyMax_decodes alg pub token n p u raw :
  Cose.VerifyMax alg pub token [] n = Ok (p, u, raw) -> Cose.DecodeUnverifiedMax token n = Ok (p, u, Some raw).
Proof using.
  unfold Cose.VerifyMax, Cose.DecodeUnverifiedMax; destruct (decodeRaw token n) as [msg|]; cbn [res_bind]; [|done].
  destruct (Payload msg) as [pl|]; [|done]; unfold verifySign1; destruct (decodeHeaders _ _) as [[p' u']|]; cbn [res_bind]; [|done].
  destruct (negb _); [done|]; destruct (marshalled _) as [tv|]; cbn [res_bind]; [|done].
  destruct (Cose.verifyBytes _ _ _ _) as [[]|]; cbn [res_bind]; [|done]; by intros [= -> -> ->].
Qed.

(** The certificate a chain starts with. *)
Definition leaf_of (chain : list bytes) (leaf : Certificate) : Prop :=
  exists der rest, chain = der :: rest /\ ParseCertificate der = Some leaf.

Lemma leaf_of_unique chain leaf leaf' : leaf_of chain leaf -> leaf_of chain leaf' -> leaf = leaf'.
Proof using. intros (d & r & -> & E) (d' & r' & [= <- <-] & E'); congruence. Qed.

Lemma trusted_leaf ders roots p rev now' clock leaf good :
  VerifyTrustedChainsAt ders roots p rev now' clock = Ok (leaf, good) -> leaf_of ders leaf.
Proof using.
  intros ([leaf' chains] & Hv & (approved & _ & (good' & _ & Hg)%res_bind_ok)%res_bind_ok)%res_bind_ok; injection Hg as -> _.
  apply VerifyChainsAt_ok in Hv as (pool & ints & _ & _ & Hf & _).
  apply Forall2_cons_inv_r in Hf as (der & rest & [Hp _] & _ & ->); by exists der, rest.
Qed.
Lemma trustedSigner_ok clock trust chain cwt o leaf alg : trustedSigner clock trust chain cwt o = Ok (leaf, alg) <->
  (exists good, VerifyTrustedChainsAt chain (trust_Roots trust) (trust_Policy trust) (trust_Revocation trust) (trust_Now trust) clock = Ok (leaf, good)) /\
  (if cwt then AlgForKey (cert_PublicKey leaf) = Ok alg else alg = 0) /\ checkSignerIsIssuer leaf o = Ok tt.
Proof using.
  unfold trustedSigner, Signer; destruct (VerifyTrustedChainsAt chain _ _ _ _ _) as [[leaf' good]|e] eqn:Ev.
  2: { split; [by destruct cwt|]; by intros [[good ?] _]. }
  destruct cwt; cbn [res_map_err res_bind].
  - destruct (AlgForKey (cert_PublicKey leaf')) as [alg'|] eqn:Ea; cbn [res_map_err res_bind].
    + destruct (checkSignerIsIssuer leaf' o) as [[]|] eqn:Ec; cbn [res_bind]; split; try done.
      * intros [= -> ->]; split_and!; [by exists good|done|done].
      * intros ([g [= -> ->]] & Ha & _); congruence.
      * intros ([g [= -> ->]] & _ & ?); congruence.
    + split; [done|]; intros ([g [= -> ->]] & ? & _); congruence.
  - destruct (checkSignerIsIssuer leaf' o) as [[]|] eqn:Ec; cbn [res_bind]; split; try done.
    + intros [= -> <-]; split_and!; [by exists good|done|done].
    + intros ([g [= -> ->]] & -> & _); done.
    + intros ([g [= -> ->]] & _ & ?); congruence.
Qed.

(** The algorithm a JWT's key signs with. *)
Definition jwt_alg (leaf : Certificate) (alg : string) : Prop :=
  exists eddsa, SignerKeyIsEdDSA (cert_PublicKey leaf) = Ok eddsa /\ alg = if eddsa : bool then Jws.EdDSA else Jws.ES256.

Lemma parseChecked_ok clock raw parse o parsed :
  parseChecked clock raw parse o = Ok parsed <-> parse raw = Ok parsed /\ parsedClaims_check clock parsed o = Ok tt.
Proof using.
  unfold parseChecked; rewrite res_bind_ok; split.
  - intros (p & Hp & ([] & Hc & [= ->])%res_bind_ok); done.
  - intros [Hp Hc]; exists parsed; by rewrite Hc.
Qed.

Lemma verifyToken_ok clock token pub alg o parsed : verifyToken clock token pub alg o = Ok parsed <->
  exists limit header raw, maxTokenBytes o = Ok limit /\ slen token <= limit /\ Jws.VerifyMax alg pub token (slen token) = Ok (header, raw) /\
    TypeIs (string_member "typ" header) TokenMediaType = true /\ parseJWTClaims raw = Ok parsed /\ parsedClaims_check clock parsed o = Ok tt.
Proof using.
  unfold verifyToken; rewrite res_bind_ok; split.
  - intros (limit & Hl & ([header raw] & Hv%res_map_err_ok & Hc)%res_bind_ok); apply jws_VerifyMax_limit in Hv as [Hs Hv].
    destruct (TypeIs _ _) eqn:Et; cbn [negb] in Hc; [|done]; apply parseChecked_ok in Hc as [? ?]; by exists limit, header, raw.
  - intros (limit & header & raw & Hl & Hs & Hv & Ht & Hp & Hc); exists limit; split; [done|]; apply res_bind_ok; exists (header, raw); split.
    + apply res_map_err_ok; by apply jws_VerifyMax_limit.
    + rewrite Ht; by apply parseChecked_ok.
Qed.

Lemma verifyTokenCWT_ok clock token pub alg o parsed : verifyTokenCWT clock token pub alg o = Ok parsed <->
  exists limit protected unprotected raw, maxTokenBytes o = Ok limit /\ blen token <= limit /\
    Cose.VerifyMax alg pub token [] (blen token) = Ok (protected, unprotected, raw) /\
    EqualFold (h_Typ protected) CWTTokenMediaType = true /\ parseCWTPayload raw = Ok parsed /\ parsedClaims_check clock parsed o = Ok tt.
Proof using.
  unfold verifyTokenCWT; rewrite res_bind_ok; split.
  - intros (limit & Hl & ([[p u] raw] & Hv%res_map_err_ok & Hc)%res_bind_ok); apply cose_VerifyMax_limit in Hv as [Hs Hv].
    destruct (EqualFold _ _) eqn:Et; cbn [negb] in Hc; [|done]; apply parseChecked_ok in Hc as [? ?]; by exists limit, p, u, raw.
  - intros (limit & p & u & raw & Hl & Hs & Hv & Ht & Hp & Hc); exists limit; split; [done|]; apply res_bind_ok; exists (p, u, raw); split.
    + apply res_map_err_ok; by apply cose_VerifyMax_limit.
    + rewrite Ht; by apply parseChecked_ok.
Qed.

Lemma signerTrust_ok clock roots o trust : signerTrust clock roots o = Ok trust ->
  maxTokenBytes o = Ok (trust_MaxBytes trust) /\ ProtectedOnly trust = X5ChainProtectedOnly o /\
  signerPolicy o = Ok (trust_Policy trust) /\ trust_Roots trust = roots /\ trust_Revocation trust = Revocation o /\ trust_Now trust = now clock o.
Proof using. unfold signerTrust; rewrite res_bind_ok; intros (p & Hp & (limit & Hl & [= <-])%res_bind_ok); by rewrite Hl, Hp. Qed.

(** A JWT signed by this leaf, the chain and claims it carries. *)
Definition jwt_signed (token : string) (leaf : Certificate) (chain : list bytes) (parsed : parsedClaims) : Prop :=
  exists alg header raw, jwt_alg leaf alg /\ Jws.VerifyMax alg (cert_PublicKey leaf) token (slen token) = Ok (header, raw) /\
    X5CDERsFromHeader std_decode header = Ok chain /\ TypeIs (string_member "typ" header) TokenMediaType = true /\ parseJWTClaims raw = Ok parsed.

Lemma verifyX5C_ok clock token roots o signed : let o' := atOneInstant clock o in
  verifyX5C clock token roots o = Ok signed <->
  exists trust leaf, signerTrust clock roots o' = Ok trust /\ slen token <= trust_MaxBytes trust /\
    trustedSigner clock trust (st_chain signed) false o' = Ok (leaf, 0) /\ st_chainProtected signed = false /\
    jwt_signed token leaf (st_chain signed) (st_parsed signed) /\ parsedClaims_check clock (st_parsed signed) o' = Ok tt.
Proof using.
  intros o'; unfold verifyX5C; fold o'; rewrite res_bind_ok; split.
  - intros (trust & Ht & ([h pl] & Hd%res_map_err_ok & (chain & Hx%res_map_err_ok & ([leaf a] & Hs & Hr)%res_bind_ok)%res_bind_ok)%res_bind_ok).
    apply res_bind_ok in Hr as (eddsa & He%res_map_err_ok & (parsed & Hp & [= <-])%res_bind_ok); cbn [st_chain st_parsed st_chainProtected].
    apply verifyToken_ok in Hp as (limit & header & raw & Hl & Hs' & Hv & Hty & Hp & Hc).
    destruct (signerTrust_ok _ _ _ _ Ht) as (Hl' & _); rewrite Hl in Hl'; injection Hl' as ->.
    assert (Hd' := Hv); apply (conj Hs') in Hd'; apply jws_VerifyMax_limit, jws_VerifyMax_decodes in Hd'; rewrite Hd in Hd'; injection Hd' as -> ->.
    exists trust, leaf; split_and!; try done.
    + apply trustedSigner_ok in Hs as (Hg & -> & Hc'); by apply trustedSigner_ok.
    + exists (if eddsa : bool then Jws.EdDSA else Jws.ES256), header, raw; split_and!; try done; by exists eddsa.
  - intros (trust & leaf & Ht & Hl & Hs & Hpr & (alg & header & raw & (eddsa & He & ->) & Hv & Hx & Hty & Hp) & Hc).
    exists trust; split; [done|]; apply res_bind_ok; exists (header, raw); split.
    { apply res_map_err_ok; eapply jws_VerifyMax_decodes; by apply jws_VerifyMax_limit. }
    apply res_bind_ok; exists (st_chain signed); split; [by apply res_map_err_ok|]; rewrite Hs; cbn [res_bind]; rewrite He; cbn [res_map_err res_bind].
    apply res_bind_ok; exists (st_parsed signed); split; [|destruct signed; cbn in *; by rewrite Hpr].
    apply verifyToken_ok; exists (trust_MaxBytes trust), header, raw; split_and!; try done; by apply signerTrust_ok in Ht as (? & _).
Qed.

(** A CWT signed by this leaf, whose key is of this algorithm, and its claims. *)
Definition cwt_signed (token : bytes) (leaf : Certificate) (alg : Z) (protected unprotected : Headers) (parsed : parsedClaims) : Prop :=
  exists raw, Cose.VerifyMax alg (cert_PublicKey leaf) token [] (blen token) = Ok (protected, unprotected, raw) /\
    EqualFold (h_Typ protected) CWTTokenMediaType = true /\ parseCWTPayload raw = Ok parsed.

(** The chain Chain reads of headers. *)
Definition read_chain (only : bool) (protected unprotected : Headers) : list bytes * bool :=
  if only || negb (blen (X5Chain protected) =? 0) then (X5Chain protected, true) else (X5Chain unprotected, false).

Lemma verifyCWTX5Chain_ok clock token roots o signed : let o' := atOneInstant clock o in
  verifyCWTX5Chain clock token roots o = Ok signed <->
  exists trust leaf alg protected unprotected, signerTrust clock roots o' = Ok trust /\ blen token <= trust_MaxBytes trust /\
    (st_chain signed, st_chainProtected signed) = read_chain (X5ChainProtectedOnly o) protected unprotected /\
    trustedSigner clock trust (st_chain signed) true o' = Ok (leaf, alg) /\
    cwt_signed token leaf alg protected unprotected (st_parsed signed) /\ parsedClaims_check clock (st_parsed signed) o' = Ok tt.
Proof using.
  intros o'; unfold verifyCWTX5Chain, Chain; fold o'; rewrite res_bind_ok; split.
  - intros (trust & Ht & ([chain pr] & Hd%res_map_err_ok & ([leaf alg] & Hs & (parsed & Hp & [= <-])%res_bind_ok)%res_bind_ok)%res_bind_ok).
    cbn [st_chain st_parsed st_chainProtected]; apply res_bind_ok in Hd as ([[p u] pl] & Hd & Hch).
    apply verifyTokenCWT_ok in Hp as (limit & p' & u' & raw & Hl & Hs' & Hv & Hty & Hp & Hc).
    destruct (signerTrust_ok _ _ _ _ Ht) as (Hl' & Ho & _); rewrite Hl in Hl'; injection Hl' as ->.
    assert (Hd' := Hv); apply (conj Hs') in Hd'; apply cose_VerifyMax_limit, cose_VerifyMax_decodes in Hd'; rewrite Hd in Hd'; injection Hd' as -> -> _.
    exists trust, leaf, alg, p', u'; split_and!; try done; [|by exists raw].
    unfold read_chain; rewrite Ho in Hch; cbn [X5ChainProtectedOnly o' atOneInstant] in Hch; by destruct (_ || _); injection Hch as -> ->.
  - intros (trust & leaf & alg & p & u & Ht & Hl & Hch & Hs & (raw & Hv & Hty & Hp) & Hc).
    exists trust; split; [done|]; destruct (signerTrust_ok _ _ _ _ Ht) as (Hl' & Ho & _).
    assert (Hd : Cose.DecodeUnverifiedMax token (trust_MaxBytes trust) = Ok (p, u, Some raw)) by (eapply cose_VerifyMax_decodes; by apply cose_VerifyMax_limit).
    rewrite Hd; cbn [res_bind]; rewrite Ho; cbn [X5ChainProtectedOnly o' atOneInstant].
    assert (Hr : (if X5ChainProtectedOnly o || negb (blen (X5Chain p) =? 0) then Ok (X5Chain p, true) else Ok (X5Chain u, false)) =
      @Ok cose_error _ (st_chain signed, st_chainProtected signed)) by (rewrite Hch; unfold read_chain; by destruct (_ || _)).
    rewrite Hr; cbn [res_map_err res_bind]; rewrite Hs; cbn [res_bind].
    apply res_bind_ok; exists (st_parsed signed); split; [|by destruct signed].
    apply verifyTokenCWT_ok; by exists (trust_MaxBytes trust), p, u, raw.
Qed.

(** A memo of these bytes: the chain they carry, the claims they hold, signed by
    that chain's leaf, and the list. *)
Definition made (token : bytes) (m : tokenMemo) : Prop :=
  m_size m = blen token /\
  m_decoded m = match StatusBits.Decode inflate (tc_StatusList (claims (m_parsed m))) with Ok d => Some d | Err _ => None end /\
  exists leaf, leaf_of (m_chain m) leaf /\
    if m_cwt m then
      exists alg protected unprotected, AlgForKey (cert_PublicKey leaf) = Ok alg /\ cwt_signed token leaf alg protected unprotected (m_parsed m) /\
        (m_chain m, m_chainProtected m) = read_chain false protected unprotected
    else m_chainProtected m = false /\ jwt_signed (bytes_string token) leaf (m_chain m) (m_parsed m).

Definition used_chain (m : tokenMemo) (only : bool) : list bytes := if m_cwt m && only && negb (m_chainProtected m) then [] else m_chain m.

Lemma recheck_ok clock m roots uri o : let o' := atOneInstant clock o in
  recheck clock m roots uri o = Ok tt <-> exists trust leaf alg, signerTrust clock roots o' = Ok trust /\ m_size m <= trust_MaxBytes trust /\
    trustedSigner clock trust (used_chain m (X5ChainProtectedOnly o)) (m_cwt m) o' = Ok (leaf, alg) /\
    parsedClaims_check clock (m_parsed m) o' = Ok tt /\ Sub (claims (m_parsed m)) = uri.
Proof using.
  intros o'; unfold recheck; fold o'; rewrite res_bind_ok; change (X5ChainProtectedOnly o') with (X5ChainProtectedOnly o); split.
  - intros (trust & Ht & Hr); destruct (Z.ltb_spec (trust_MaxBytes trust) (m_size m)); [done|].
    apply res_bind_ok in Hr as ([leaf alg] & Hs & ([] & Hc & Hu)%res_bind_ok); exists trust, leaf, alg; split_and!; try done.
    unfold checkSub in Hu; destruct (String.eqb_spec (Sub (claims (m_parsed m))) uri); done.
  - intros (trust & leaf & alg & Ht & Hl & Hs & Hc & Hu); exists trust; split; [done|].
    destruct (Z.ltb_spec (trust_MaxBytes trust) (m_size m)); [lia|]; unfold used_chain in Hs; rewrite Hs; cbn [res_bind]; rewrite Hc; cbn [res_bind].
    unfold checkSub; by rewrite Hu, String.eqb_refl.
Qed.

Lemma trustedSigner_leaf clock trust chain cwt o leaf alg : trustedSigner clock trust chain cwt o = Ok (leaf, alg) ->
  leaf_of chain leaf /\ (if cwt then AlgForKey (cert_PublicKey leaf) = Ok alg else alg = 0).
Proof using. intros Hs; apply trustedSigner_ok in Hs as ([good Hg] & Ha & _); apply trusted_leaf in Hg; done. Qed.

Lemma memo_x5c clock token roots uri o m : m_cwt m = false ->
  verifyMemo clock token false roots uri o = Ok m <-> made token m /\ recheck clock m roots uri o = Ok tt.
Proof using.
  intros Hcwt; unfold verifyMemo, verify_form, made; rewrite Hcwt, res_bind_ok; setoid_rewrite verifyX5C_ok; rewrite recheck_ok; unfold used_chain; rewrite Hcwt, <- slen_bytes_string; cbn [andb]; split.
  - intros (signed & (trust & leaf & Ht & Hl & Hs & Hp & Hj & Hc) & ([] & Hu & [= <-])%res_bind_ok); cbn [m_size m_decoded m_chain m_chainProtected m_parsed].
    destruct (trustedSigner_leaf _ _ _ _ _ _ _ Hs) as [Hleaf _]; split.
    + split_and!; [done|done|]; by exists leaf.
    + exists trust, leaf, 0; split_and!; try done.
      unfold checkSub in Hu; by destruct (String.eqb_spec (Sub (claims (st_parsed signed))) uri).
  - intros ((Hz & Hd & leaf & Hleaf & Hp & Hj) & trust & leaf' & alg & Ht & Hl & Hs & Hc & Hu).
    destruct (trustedSigner_leaf _ _ _ _ _ _ _ Hs) as [Hleaf' ->]; rewrite (leaf_of_unique _ _ _ Hleaf' Hleaf) in Hs.
    exists {| st_chain := m_chain m; st_chainProtected := false; st_parsed := m_parsed m |}; cbn [st_chain st_chainProtected st_parsed]; split.
    + exists trust, leaf; split_and!; try done; by rewrite <- Hz.
    + unfold checkSub; rewrite Hu, String.eqb_refl; cbn [negb res_bind]; rewrite <- Hd, <- Hz; destruct m; cbn in *; congruence.
Qed.

Lemma memo_cwt clock token roots uri o m : m_cwt m = true ->
  verifyMemo clock token true roots uri o = Ok m <-> made token m /\ recheck clock m roots uri o = Ok tt.
Proof using.
  intros Hcwt; unfold verifyMemo, verify_form, made; rewrite Hcwt, res_bind_ok; setoid_rewrite verifyCWTX5Chain_ok; rewrite recheck_ok; unfold used_chain; rewrite Hcwt; cbn [andb]; split.
  - intros (signed & (trust & leaf & alg & p & u & Ht & Hl & Hch & Hs & Hj & Hc) & ([] & Hu & [= <-])%res_bind_ok); cbn [m_size m_decoded m_chain m_chainProtected m_parsed].
    destruct (trustedSigner_leaf _ _ _ _ _ _ _ Hs) as [Hleaf Ha].
    assert (Hch' : (st_chain signed, st_chainProtected signed) = read_chain false p u /\ (X5ChainProtectedOnly o = true -> st_chainProtected signed = true)).
    { destruct Hleaf as (der & rest & Hch1 & _); unfold read_chain in *; destruct (X5ChainProtectedOnly o); cbn [orb] in *; [|done].
      injection Hch as E1 E2; rewrite <- E1, Hch1, E2; rewrite blen_cons; destruct (Z.eqb_spec (1 + blen rest) 0); [pose proof (blen_nonneg rest); lia|]; done. }
    destruct Hch' as [Hch' Honly]; split.
    + split_and!; [done|done|]; exists leaf; split; [done|]; by exists alg, p, u.
    + exists trust, leaf, alg; split_and!; try done; [destruct (X5ChainProtectedOnly o); [by rewrite Honly|done]|].
      unfold checkSub in Hu; by destruct (String.eqb_spec (Sub (claims (st_parsed signed))) uri).
  - intros ((Hz & Hd & leaf & Hleaf & alg & p & u & Ha & Hj & Hch) & trust & leaf' & alg' & Ht & Hl & Hs & Hc & Hu).
    destruct (trustedSigner_leaf _ _ _ _ _ _ _ Hs) as [Hleaf' Ha'].
    assert (Hused : X5ChainProtectedOnly o = true -> m_chainProtected m = true).
    { intros E; rewrite E in Hleaf'; destruct (m_chainProtected m); [done|]; by destruct Hleaf' as (? & ? & ? & _). }
    assert (E : (if X5ChainProtectedOnly o && negb (m_chainProtected m) then [] else m_chain m) = m_chain m)
      by (destruct (X5ChainProtectedOnly o); [by rewrite Hused|done]).
    rewrite E in Hs, Hleaf'; rewrite (leaf_of_unique _ _ _ Hleaf' Hleaf) in Hs, Ha'; rewrite Ha in Ha'; injection Ha' as <-.
    exists {| st_chain := m_chain m; st_chainProtected := m_chainProtected m; st_parsed := m_parsed m |}; cbn [st_chain st_chainProtected st_parsed]; split.
    + exists trust, leaf, alg, p, u; split_and!; try done; [by rewrite <- Hz|]; rewrite Hch; unfold read_chain.
      destruct (X5ChainProtectedOnly o); [|done]; specialize (Hused eq_refl); unfold read_chain in Hch; cbn [orb] in *.
      destruct (negb (blen (X5Chain p) =? 0)); [done|]; injection Hch as _ Hx; congruence.
    + unfold checkSub; rewrite Hu, String.eqb_refl; cbn [negb res_bind]; rewrite <- Hd, <- Hz; destruct m; cbn in *; congruence.
Qed.

(** Bytes hold one chain and one set of claims. *)
Lemma made_unique token m m' : made token m -> made token m' -> m_cwt m = m_cwt m' -> m = m'.
Proof using.
  unfold made; intros (Hz & Hd & leaf & Hl & Hm) (Hz' & Hd' & leaf' & Hl' & Hm') Hc; rewrite <- Hc in Hm'.
  assert (E : m_chain m = m_chain m' /\ m_chainProtected m = m_chainProtected m' /\ m_parsed m = m_parsed m').
  { destruct (m_cwt m).
    - destruct Hm as (alg & p & u & _ & (raw & Hv & _ & Hp) & Hch), Hm' as (alg' & p' & u' & _ & (raw' & Hv' & _ & Hp') & Hch').
      apply cose_VerifyMax_decodes in Hv, Hv'; rewrite Hv in Hv'; injection Hv' as <- <- <-; rewrite Hp in Hp'; rewrite <- Hch in Hch'.
      injection Hp' as ->; injection Hch' as -> ->; done.
    - destruct Hm as (Hpr & alg & h & raw & _ & Hv & Hx & _ & Hp), Hm' as (Hpr' & alg' & h' & raw' & _ & Hv' & Hx' & _ & Hp').
      apply jws_VerifyMax_decodes in Hv, Hv'; rewrite Hv in Hv'; injection Hv' as <- <-; rewrite Hp in Hp'; rewrite Hx in Hx'.
      injection Hp' as ->; injection Hx' as ->; split_and!; congruence. }
  destruct E as (E1 & E2 & E3), m, m'; cbn in *; subst; congruence.
Qed.

Lemma verifyMemo_made clock token cwt roots uri o m :
  verifyMemo clock token cwt roots uri o = Ok m <-> m_cwt m = cwt /\ made token m /\ recheck clock m roots uri o = Ok tt.
Proof using.
  split.
  - intros Hm; assert (Hc : m_cwt m = cwt) by (unfold verifyMemo in Hm; by apply res_bind_ok in Hm as (sg & _ & ([] & _ & [= <-])%res_bind_ok)).
    split; [done|]; destruct cwt; [by apply memo_cwt|by apply memo_x5c].
  - intros (Hc & Hm); destruct cwt; [by apply memo_cwt|by apply memo_x5c].
Qed.

(** The status of a list's entry. *)
Definition entry (sl : StatusBits.StatusList) (idx status : Z) : Prop :=
  idx <= MaxInt /\ exists d, StatusBits.Decode inflate sl = Ok d /\ StatusBits.Unpack (StatusBits.d_Bits d) (StatusBits.d_Packed d) idx = Ok status.

(** The list is read alike, decompressed before or as it is read. *)
Lemma checkClaims_ok parsed ref decoded status p :
  decoded = None \/ decoded = match StatusBits.Decode inflate (tc_StatusList (claims parsed)) with Ok d => Some d | Err _ => None end ->
  checkClaims parsed ref decoded = Ok (status, p) <->
  p = parsed /\ Sub (claims parsed) = lr_URI ref /\ entry (tc_StatusList (claims parsed)) (lr_Idx ref) status.
Proof using.
  intros Hd; unfold checkClaims, checkSub, entry; destruct (String.eqb_spec (Sub (claims parsed)) (lr_URI ref)) as [Hu|Hu]; cbn [negb res_bind].
  2: { split; [done|]; by intros (_ & ? & _). }
  destruct (Z.ltb_spec MaxInt (lr_Idx ref)) as [Hi|Hi]; [split; [done|]; by intros (_ & _ & ? & _); lia|].
  assert (E : forall v, match decoded with Some d => StatusBits.Decoded_Status d (lr_Idx ref)
      | None => StatusBits.StatusList_Status inflate (tc_StatusList (claims parsed)) (lr_Idx ref) end = Ok v <->
    exists d, StatusBits.Decode inflate (tc_StatusList (claims parsed)) = Ok d /\ StatusBits.Unpack (StatusBits.d_Bits d) (StatusBits.d_Packed d) (lr_Idx ref) = Ok v).
  { intros v; destruct Hd as [-> | ->]; [apply StatusBits.Status_streamed_whole|].
    destruct (StatusBits.Decode _ _) as [d|] eqn:Ed; [|rewrite StatusBits.Status_streamed_whole; by rewrite Ed].
    unfold StatusBits.Decoded_Status; split; [by intros ?; exists d|]; by intros (d' & [= <-] & ?). }
  rewrite res_bind_ok; split.
  - intros (v & Hv%res_map_err_ok%E & [= -> ->]); done.
  - intros (-> & _ & _ & Hv); exists status; split; [|done]; by apply res_map_err_ok, E.
Qed.

Lemma check_form_ok clock token cwt roots ref o status p : check_form clock token cwt roots ref o = Ok (status, p) <->
  exists m, m_cwt m = cwt /\ made token m /\ recheck clock m roots (lr_URI ref) o = Ok tt /\ p = m_parsed m /\
    entry (tc_StatusList (claims p)) (lr_Idx ref) status.
Proof using.
  assert (E : check_form clock token cwt roots ref o = Ok (status, p) <->
    exists signed, verify_form clock token cwt roots o = Ok signed /\ checkClaims (st_parsed signed) ref None = Ok (status, p))
    by (unfold check_form, verify_form, checkX5C, checkCWTX5Chain; destruct cwt; apply res_bind_ok).
  rewrite E; clear E; split.
  - intros (signed & Hv & Hc); apply checkClaims_ok in Hc as (-> & Hu & He); [|by left].
    set (m := {| m_size := blen token; m_cwt := cwt; m_chainProtected := st_chainProtected signed; m_chain := st_chain signed; m_parsed := st_parsed signed;
      m_decoded := match StatusBits.Decode inflate (tc_StatusList (claims (st_parsed signed))) with Ok d => Some d | Err _ => None end |}).
    assert (Hm : verifyMemo clock token cwt roots (lr_URI ref) o = Ok m)
      by (unfold verifyMemo; rewrite Hv; cbn [res_bind]; unfold checkSub; by rewrite Hu, String.eqb_refl).
    apply verifyMemo_made in Hm as (? & ? & ?); by exists m.
  - intros (m & Hc & Hm & Hr & -> & He); assert (Hv : verifyMemo clock token cwt roots (lr_URI ref) o = Ok m) by (by apply verifyMemo_made).
    unfold verifyMemo in Hv; apply res_bind_ok in Hv as (signed & Hv & ([] & Hu & [= <-])%res_bind_ok); exists signed; split; [done|].
    apply checkClaims_ok; [by left|]; cbn [m_parsed] in *; split_and!; try done.
    unfold checkSub in Hu; by destruct (String.eqb_spec (Sub (claims (st_parsed signed))) (lr_URI ref)).
Qed.

Lemma check_memo_ok clock m roots ref o status p : m_decoded m = match StatusBits.Decode inflate (tc_StatusList (claims (m_parsed m))) with Ok d => Some d | Err _ => None end ->
  check_memo clock m roots ref o = Ok (status, p) <->
  recheck clock m roots (lr_URI ref) o = Ok tt /\ p = m_parsed m /\ entry (tc_StatusList (claims p)) (lr_Idx ref) status.
Proof using.
  intros Hd; unfold check_memo; rewrite res_bind_ok; split.
  - intros ([] & Hr & Hc); apply checkClaims_ok in Hc as (-> & _ & He); [done|by right].
  - intros (Hr & -> & He); exists tt; split; [done|]; apply checkClaims_ok; [by right|]; split_and!; try done.
    apply recheck_ok in Hr as (? & ? & ? & _ & _ & _ & _ & ?); done.
Qed.

(** A signer tied to the credential's issuer: by no name or key given, so by
    UnboundSigner; by its key; or by its name. *)
Definition bound_to_issuer (leaf : Certificate) (o : VerifyOptions) : Prop :=
  Issuer o = EmptyString /\ IssuerKey o = None \/ SameKey (cert_PublicKey leaf) (IssuerKey o) = true \/
  Issuer o <> EmptyString /\ CheckIssuerName EqualFold leaf (Issuer o) = Ok tt.

Lemma checkSignerIsIssuer_ok leaf o : checkSignerIsIssuer leaf o = Ok tt <-> bound_to_issuer leaf o.
Proof using.
  unfold checkSignerIsIssuer, bound_to_issuer; destruct (String.eqb_spec (Issuer o) "") as [E|E], (IssuerKey o) as [k|] eqn:Ek; cbn [is_Some_b negb andb orb SameKey].
  - destruct (key_Equal _ _); split; try done; [by right; left|]; by intros [[_ ?]|[?|[? _]]].
  - split; [by left|done].
  - destruct (key_Equal _ _); [split; [by right; left|done]|]; rewrite res_map_err_ok; split; [by right; right|]; by intros [[? _]|[?|[_ ?]]].
  - rewrite res_map_err_ok; split; [by right; right|]; by intros [[? _]|[?|[_ ?]]].
Qed.

Definition window_of (o : VerifyOptions) : Window :=
  {| JwtDate.MaxAge := MaxAge o; JwtDate.MaxClockSkew := MaxClockSkew o; JwtDate.RequireExp := RequireExp o |}.

(** Claims of this issuer's, if of one's, and fresh. *)
Definition claims_hold (clock : Z) (p : parsedClaims) (o : VerifyOptions) : Prop :=
  (iss p = EmptyString \/ Issuer o = EmptyString \/ iss p = Issuer o) /\
  fresh (window_of o) (Iat (claims p)) (Exp (claims p)) (nbf p) (now clock o).

Lemma parsedClaims_check_ok clock p o : parsedClaims_check clock p o = Ok tt <-> claims_hold clock p o.
Proof using.
  unfold parsedClaims_check, claims_hold, checkTokenTimes; rewrite <- Window_Check_exact; fold (window_of o).
  destruct (String.eqb_spec (iss p) ""), (String.eqb_spec (Issuer o) ""), (String.eqb_spec (iss p) (Issuer o)); cbn [negb andb];
    rewrite ?res_map_err_ok; split; try done; try tauto; by intros [[?|[?|?]] _].
Qed.

Lemma signerTrust_made clock roots o p limit : signerPolicy o = Ok p -> maxTokenBytes o = Ok limit ->
  signerTrust clock roots o = Ok {| trust_MaxBytes := limit; ProtectedOnly := X5ChainProtectedOnly o; trust_Roots := roots; trust_Policy := p;
    trust_Revocation := Revocation o; trust_Now := now clock o |}.
Proof using. intros Hp Hl; unfold signerTrust; by rewrite Hp, Hl. Qed.

(** A token checked again: within the limit, of a trusted signer bound to the
    issuer, fresh, and of this URI. *)
Lemma recheck_trusted clock token m roots uri o : made token m ->
  recheck clock m roots uri o = Ok tt <->
  exists p limit leaf good, signerPolicy o = Ok p /\ maxTokenBytes o = Ok limit /\ blen token <= limit /\
    (m_cwt m = true -> X5ChainProtectedOnly o = true -> m_chainProtected m = true) /\
    VerifyTrustedChainsAt (m_chain m) roots p (Revocation o) (now clock o) clock = Ok (leaf, good) /\
    bound_to_issuer leaf o /\ claims_hold clock (m_parsed m) o /\ Sub (claims (m_parsed m)) = uri.
Proof using.
  intros (Hz & _ & leaf0 & Hleaf0 & Hm); rewrite recheck_ok; split.
  - intros (trust & leaf & alg & Ht & Hl & Hs & Hc & Hu); destruct (signerTrust_ok _ _ _ _ Ht) as (Hl' & _ & Hp & Hr & Hv & Hn).
    destruct (trustedSigner_leaf _ _ _ _ _ _ _ Hs) as [Hleaf _]; apply trustedSigner_ok in Hs as ([good Hg] & _ & Hb).
    exists (trust_Policy trust), (trust_MaxBytes trust), leaf, good; split_and!; try done; [lia| | | |].
    + intros E E'; unfold used_chain in Hleaf; rewrite E, E' in Hleaf; destruct (m_chainProtected m); [done|]; by destruct Hleaf as (? & ? & ? & _).
    + rewrite Hr, Hv, Hn in Hg; cbn [now Now atOneInstant default Revocation] in Hg; rewrite <- Hg; f_equal.
      unfold used_chain in *; destruct (m_cwt m && _ && _); [by destruct Hleaf as (? & ? & ? & _)|done].
    + by apply checkSignerIsIssuer_ok in Hb.
    + by apply parsedClaims_check_ok in Hc.
  - intros (p & limit & leaf & good & Hp & Hl & Hn & Hpr & Hg & Hb & Hc & Hu); assert (Hleaf := trusted_leaf _ _ _ _ _ _ _ _ Hg).
    assert (E : used_chain m (X5ChainProtectedOnly o) = m_chain m).
    { unfold used_chain; destruct (m_cwt m), (X5ChainProtectedOnly o); try done; by rewrite Hpr. }
    rewrite (leaf_of_unique _ _ _ Hleaf Hleaf0) in *.
    eexists _, leaf0, (if m_cwt m then match AlgForKey (cert_PublicKey leaf0) with Ok alg => alg | Err _ => 0 end else 0); split_and!.
    + by apply (signerTrust_made clock roots (atOneInstant clock o) p limit).
    + cbn; lia.
    + apply trustedSigner_ok; rewrite E; split_and!; [by exists good| |by apply checkSignerIsIssuer_ok].
      destruct (m_cwt m); [|done]; by destruct Hm as (alg & pr & un & -> & _).
    + by apply parsedClaims_check_ok.
    + done.
Qed.
End Bytes.

(** ** The theorems *)

Section Exact.
Context `{Signatures} `{!CoseKeys} `{!CborLib} `{!JsonText} `{!X509} `{!TokenText}.

(** A token is verified by what its bytes alone say - the chain they carry, the claims they hold, signed by that chain's leaf - and by what recheck asks of a memo of that: so a memo is made exactly of the tokens a check verifies, and holds for any other check nothing that another token's would. *)
Theorem verifyMemo_exact clock token cwt roots uri o m :
  verifyMemo clock token cwt roots uri o = Ok m <-> m_cwt m = cwt /\ made token m /\ recheck clock m roots uri o = Ok tt.
Proof using. apply verifyMemo_made. Qed.

(** C21: A check answered from a cache is the check its token would get: whatever check made the memo - under its own roots, options, clock and URI - another accepts a reference by it exactly when it would accept it by the token itself, fetched again, verified and decompressed, and with the same status and claims. *)
Theorem cached_as_fresh clock0 token cwt roots0 uri0 o0 m clock roots ref o status p :
  verifyMemo clock0 token cwt roots0 uri0 o0 = Ok m ->
  check_memo clock m roots ref o = Ok (status, p) <-> check_form clock token cwt roots ref o = Ok (status, p).
Proof using.
  intros (Hc & Hm & _)%verifyMemo_made; rewrite check_memo_ok by (by destruct Hm as (_ & ? & _)); rewrite check_form_ok; split.
  - intros (Hr & -> & He); by exists m.
  - intros (m' & Hc' & Hm' & Hr & -> & He); assert (m = m') as <- by (apply (made_unique token); congruence); done.
Qed.

Context `{!ListFetch.Http}.

Lemma RequireValid_check clock c ref cwt : RequireValid clock c ref cwt = Ok tt <-> exists p, Checker_check clock c ref cwt = Ok (StatusValid, p).
Proof using.
  unfold RequireValid, Checker_Check, failClosed, claims_of; destruct (Checker_check clock c ref cwt) as [[status p]|e]; cbn [res_bind]; [|naive_solver].
  destruct (Z.eqb_spec status StatusValid) as [->|]; cbn [negb]; split; try done; [by exists p|]; by intros [q [= ? _]].
Qed.

(** A list that vouches for a reference. *)
Definition vouches (clock : Z) (c : ListChecker) (ref : ListRef) (cwt : bool) (token : bytes) (m : tokenMemo) (leaf : Certificate) (good : list (list Certificate)) : Prop :=
  let o := checker_options c cwt in
  exists p limit, ListFetch.Fetch (checker_fetcher c) (lr_URI ref) (media_type cwt) = Ok token /\ m_cwt m = cwt /\ made token m /\
    signerPolicy (Options c) = Ok p /\ maxTokenBytes o = Ok limit /\ blen token <= limit /\ (cwt = true -> m_chainProtected m = true) /\
    VerifyTrustedChainsAt (m_chain m) (Roots c) p (Revocation (Options c)) (now clock (Options c)) clock = Ok (leaf, good) /\
    bound_to_issuer leaf (Options c) /\ claims_hold clock (m_parsed m) o /\ (cwt = true -> is_Some (Exp (claims (m_parsed m)))) /\
    Sub (claims (m_parsed m)) = lr_URI ref /\ entry (tc_StatusList (claims (m_parsed m))) (lr_Idx ref) StatusValid.

Lemma RequireValid_vouches clock c ref cwt : RequireValid clock c ref cwt = Ok tt <-> exists token m leaf good, vouches clock c ref cwt token m leaf good.
Proof using.
  rewrite RequireValid_check; unfold Checker_check, vouches; split.
  - intros (parsed & Hk); destruct (Roots c) as [roots|] eqn:Er; cbn [is_Some_b negb] in Hk; [|done].
    apply res_bind_ok in Hk as (p & Hp & (limit & Hl & (token & Hf%res_map_err_ok & Hk)%res_bind_ok)%res_bind_ok).
    apply check_form_ok in Hk as (m & Hc & Hm & Hr & -> & He); apply (recheck_trusted _ token) in Hr; [|done].
    destruct Hr as (p' & limit' & leaf & good & Hp' & Hl' & Hn & Hpr & Hg & Hb & Hcl & Hu).
    exists token, m, leaf, good, p', limit'; split_and!; try done.
    + intros ->; by apply Hpr.
    + intros ->; destruct Hcl as (_ & _ & _ & _ & _ & Hx & _); by apply Hx.
  - intros (token & m & leaf & good & p & limit & Hf & Hc & Hm & Hp & Hl & Hn & Hpr & Hg & Hb & Hcl & _ & Hu & He); exists (m_parsed m).
    destruct (Roots c) as [roots|] eqn:Er; cbn [is_Some_b negb]; [|done].
    rewrite Hp; cbn [res_bind]; rewrite Hl; cbn [res_bind]; rewrite Hf; cbn [res_map_err res_bind].
    apply check_form_ok; exists m; split_and!; try done; apply (recheck_trusted _ token); [done|].
    exists p, limit, leaf, good; split_and!; try done; intros E1 _; apply Hpr; congruence.
Qed.

(** C9: A status is VALID only so: RequireValid passes exactly when the list's URI serves a token within the limit - a CWT with its chain protected, for an mdoc - signed by the leaf of the chain it carries, which is trusted, as the policy and revocation leave it, and bound to the credential's issuer; of that issuer or none, fresh, and of that URI; whose list, decompressed, has 0 at the index. And Check gives the status VALID then alone, never with an error. *)
Theorem RequireValid_exact clock c ref cwt :
  (RequireValid clock c ref cwt = Ok tt <->
   exists token m leaf good p limit, let o := checker_options c cwt in
     ListFetch.Fetch (checker_fetcher c) (lr_URI ref) (media_type cwt) = Ok token /\ m_cwt m = cwt /\ made token m /\
     signerPolicy (Options c) = Ok p /\ maxTokenBytes o = Ok limit /\ blen token <= limit /\ (cwt = true -> m_chainProtected m = true) /\
     VerifyTrustedChainsAt (m_chain m) (Roots c) p (Revocation (Options c)) (now clock (Options c)) clock = Ok (leaf, good) /\
     bound_to_issuer leaf (Options c) /\ claims_hold clock (m_parsed m) o /\ (cwt = true -> is_Some (Exp (claims (m_parsed m)))) /\
     Sub (claims (m_parsed m)) = lr_URI ref /\ entry (tc_StatusList (claims (m_parsed m))) (lr_Idx ref) StatusValid) /\
  ((Checker_Check clock c ref cwt).1 = StatusValid <-> RequireValid clock c ref cwt = Ok tt).
Proof using.
  split; [apply RequireValid_vouches|]; rewrite RequireValid_check; unfold Checker_Check, failClosed, claims_of.
  destruct (Checker_check clock c ref cwt) as [[status p]|e]; cbn [res_bind fst]; [|split; [done|naive_solver]].
  split; [intros ->; by exists p|by intros [q [= -> _]]].
Qed.
End Exact.

(** ** A list of three, cached by one check and used by another *)

Module StatusExample.
Import CoseSigned.

Definition issuer_key : bytes := replicate 32 9.
Definition list_uri : string := "https://issuer.example/lists/1".

(** The statuses 0, 1 and 2, of two bits each. *)
Definition status_list : StatusBits.StatusList :=
  {| StatusBits.sl_Bits := 2; StatusBits.sl_Lst := EncodeToString [36]; StatusBits.sl_AggregationURI := [] |}.

Definition wire : wireClaims := {|
  w_Iss := "https://issuer.example"; w_Sub := list_uri; w_Iat := Some (float_of_int 1000); w_Exp := Some (float_of_int 2000); w_Nbf := None;
  w_TTL := Some 300; w_StatusList := status_list |}.

#[export] Instance json : JsonText := {|
  marshal_object := fun _ => None; unmarshal_raws := fun _ => None;
  unmarshal_any := fun raw => if bool_decide (raw = [1])
    then Some (VObject [("alg", VString "EdDSA"); ("typ", VString "statuslist+jwt"); ("x5c", VArray [VString "leaf"])])%string else None |}.

(** The issuer's certificate, under a root of its own. *)
Definition certificate (raw : bytes) (key : PublicKey ec) (uris : list string) : Certificate := {|
  Raw := raw; RawIssuer := [8]; RawSubject := raw; RawSubjectPublicKeyInfo := raw; Country := []; Province := []; SubjectKeyId := []; AuthorityKeyId := [];
  cert_PublicKey := key; RSA := None; SerialNumber := 1; NotBefore := 0; NotAfter := 0; BasicConstraintsValid := false; IsCA := false; KeyUsage := 0;
  ExtKeyUsage := []; UnknownExtKeyUsage := []; cert_Extensions := []; DNSNames := []; URIs := uris |}.
Definition leaf : Certificate := certificate [7] (Ed25519Key issuer_key) ["https://issuer.example"%string].
Definition root : Certificate := certificate [8] OtherKey [].

Definition same_key (a b : PublicKey ec) : bool := match a, b with Ed25519Key a, Ed25519Key b => bool_decide (a = b) | _, _ => false end.

#[export] Instance x509 : X509 := {|
  CertPool := unit; pool_of := fun _ => tt; IsSystemPool := fun _ => false; CheckSignature_own := fun _ => false;
  ParseCertificate := fun der => if bool_decide (der = [7]) then Some leaf else if bool_decide (der = [8]) then Some root else None;
  CheckSignatureFrom := fun child parent => bool_decide (RawIssuer child = RawSubject parent); CheckCRLSignatureFrom := fun _ _ => false;
  x509_Verify := fun leaf _ _ _ => Some [[leaf; root]]; key_Equal := same_key; unmarshal_oids := fun _ => None; spki_bits := fun _ => None; sha1_Sum := id |}.

#[export] Instance text : TokenText := {|
  std_encode := fun _ => ""; std_decode := fun s => if String.eqb s "leaf" then Some [7] else None; EqualFold := String.eqb;
  inflate := fun raw => Some {| StatusBits.zs_data := raw; StatusBits.zs_clean := true |};
  unmarshal_claims := fun raw => if bool_decide (raw = [2]) then Some wire else None;
  cbor_any := unit; as_goval := fun _ => VOther; marshal_any_cbor := fun _ => None; unmarshal_cwt := fun _ => Err ErrEOF;
  unmarshal_cwt_list := fun _ => Err ErrEOF; unmarshal_cwt_ref := fun _ => Err ErrEOF; marshal_cwt := fun _ => None |}.

Definition signed_text : string := (b64_string [1] ++ "." ++ b64_string [2])%string.
Definition token : bytes := string_bytes (signed_text ++ "." ++ b64_string (toy_signature issuer_key (string_bytes signed_text)))%string.

Definition options (at' : Z) (issuer : string) (key : option (PublicKey ec)) : VerifyOptions := {|
  Now := Some at'; MaxAge := 0; MaxClockSkew := 0; RequireExp := false; X5ChainProtectedOnly := false; LeafPolicy := None; Revocation := None;
  Issuer := issuer; IssuerKey := key; UnboundSigner := None; MaxTokenBytes := 0 |}.

Definition parsed : parsedClaims := {|
  claims := {| Sub := list_uri; Iat := 1000; Exp := Some 2000; TTL := Some 300; tc_StatusList := status_list; Additional := [] |};
  iss := "https://issuer.example"; nbf := None |}.

Definition memo : tokenMemo := {|
  m_size := blen token; m_cwt := false; m_chainProtected := false; m_chain := [[7]]; m_parsed := parsed;
  m_decoded := Some {| StatusBits.d_Bits := 2; StatusBits.d_Packed := [36] |} |}.

End StatusExample.

Section Example.
Import CoseSigned StatusExample.

(** Made under the issuer's name, the memo serves a check under its key, a
    quarter of an hour later: the third entry is suspended. *)
Lemma cached_as_fresh_witness : let o := options (1900 * Second) "" (Some (Ed25519Key issuer_key)) in
  verifyMemo 0 token false (Some tt) list_uri (options (1000 * Second) "https://issuer.example" None) = Ok memo /\
  check_memo 0 memo (Some tt) {| lr_Idx := 2; lr_URI := list_uri |} o = Ok (StatusSuspended, parsed) /\
  check_form 0 token false (Some tt) {| lr_Idx := 2; lr_URI := list_uri |} o = Ok (StatusSuspended, parsed).
Proof.
  intros o; assert (E : verifyMemo 0 token false (Some tt) list_uri (options (1000 * Second) "https://issuer.example" None) = Ok memo) by (by vm_compute).
  assert (E' : check_memo 0 memo (Some tt) {| lr_Idx := 2; lr_URI := list_uri |} o = Ok (StatusSuspended, parsed)) by (by vm_compute).
  split; [exact E|split; [exact E'|]]; exact (proj1 (cached_as_fresh 0 token false (Some tt) list_uri _ memo 0 (Some tt) _ o _ _ E) E').
Defined.
End Example.
