(* ===== verification/StatusCheck.v ===== *)
(** * A credential's status, checked: [credential/mdoc/status_trust.go], [identifierlist]'s token.go and checker.go, and [verifier]'s status_ref.go

    Who may sign an mdoc's revocation list; identifier lists, which name the
    revoked mdocs; and the check a StatusPolicy makes of each credential's
    references, over [StatusToken]'s and this file's lists.  The theorems: what
    a credential that passes was vouched for by, in each of its forms. *)
From stdpp Require Import sorting.
From S2P Require Import Prelude Cbor Json DcqlQuery DcqlValues Text JwtDate Jws X509 CertChain Hkdf Cose Mdoc IssuerKeys Reasons CredentialStatus StatusToken.
From S2P Require StatusBits ListFetch.
From Stdlib Require Import Ascii SpecFloat.
#[local] Open Scope Z_scope.

(** ** bytes.Compare *)

Fixpoint bytes_compare (a b : bytes) : comparison :=
  match a, b with
  | [], [] => Eq
  | [], _ => Lt
  | _, [] => Gt
  | x :: a, y :: b => match Z.compare x y with Eq => bytes_compare a b | c => c end
  end.

Definition bytes_le (a b : bytes) : Prop := bytes_compare a b <> Gt.
#[export] Instance bytes_le_dec : RelDecision bytes_le.
Proof. intros a b; unfold bytes_le; destruct (bytes_compare a b); [left|left|right]; congruence. Defined.

Lemma bytes_compare_eq a b : bytes_compare a b = Eq <-> a = b.
Proof.
  revert b; induction a as [|x a IH]; intros [|y b]; cbn; try done; destruct (Z.compare_spec x y) as [->|?|?].
  - rewrite IH; split; [by intros ->|by intros [= ->]].
  - split; [done|]; intros [= -> _]; lia.
  - split; [done|]; intros [= -> _]; lia.
Qed.

Lemma bytes_compare_antisym a b : bytes_compare b a = CompOpp (bytes_compare a b).
Proof.
  revert b; induction a as [|x a IH]; intros [|y b]; cbn; try done.
  rewrite (Z.compare_antisym x y); by destruct (Z.compare x y); cbn.
Qed.

Lemma bytes_lt_trans a b c : bytes_compare a b = Lt -> bytes_compare b c = Lt -> bytes_compare a c = Lt.
Proof.
  revert b c; induction a as [|x a IH]; intros [|y b] [|z c]; cbn; try done.
  destruct (Z.compare_spec x y) as [->|?|?], (Z.compare_spec y z) as [->|?|?]; try done; intros H1 H2.
  all: first [by eapply IH|match goal with |- context [?p ?= ?q] => destruct (Z.compare_spec p q); try lia; by eauto end].
Qed.

#[export] Instance bytes_le_trans : Transitive bytes_le.
Proof.
  intros a b c; unfold bytes_le; destruct (bytes_compare a b) eqn:E1, (bytes_compare b c) eqn:E2; try done; intros _ _.
  - apply bytes_compare_eq in E1 as ->; by rewrite E2.
  - apply bytes_compare_eq in E1 as ->; by rewrite E2.
  - apply bytes_compare_eq in E2 as <-; by rewrite E1.
  - by rewrite (bytes_lt_trans _ _ _ E1 E2).
Qed.

#[export] Instance bytes_le_total : Total bytes_le.
Proof.
  intros a b; unfold bytes_le; rewrite (bytes_compare_antisym a b); destruct (bytes_compare a b); cbn; [left|left|right]; congruence.
Qed.

(** slices.BinarySearchFunc's loop, over [i, j). *)
Fixpoint search_loop (fuel : nat) (l : list bytes) (target : bytes) (i j : nat) : nat :=
  match fuel with
  | O => i
  | S fuel =>
      if (i <? j)%nat then
        let h := ((i + j) / 2)%nat in
        match bytes_compare (default [] (l !! h)) target with
        | Lt => search_loop fuel l target (S h) j
        | _ => search_loop fuel l target i h
        end
      else i
  end.

Definition BinarySearch (l : list bytes) (target : bytes) : bool :=
  let i := search_loop (S (length l)) l target 0 (length l) in
  (i <? length l)%nat && match bytes_compare (default [] (l !! i)) target with Eq => true | _ => false end.

Lemma sorted_lookup l : StronglySorted bytes_le l -> forall i j a b, (i < j)%nat -> l !! i = Some a -> l !! j = Some b -> bytes_le a b.
Proof.
  induction l as [|x l IH]; [done|]; intros [Hf Hs]%StronglySorted_cons [|i] [|j] a b Hij Ha Hb; try lia; cbn in *.
  - injection Ha as <-; eapply Forall_lookup_1; [exact Hf|exact Hb].
  - eapply (IH Hs i j); [lia|done|done].
Qed.

(** The search ends where the target would be. *)
Lemma search_loop_spec fuel l target : StronglySorted bytes_le l -> forall i j, (j - i < fuel)%nat -> (i <= j <= length l)%nat ->
  (forall k b, (k < i)%nat -> l !! k = Some b -> bytes_compare b target = Lt) ->
  (forall k b, (j <= k)%nat -> l !! k = Some b -> bytes_compare b target <> Lt) ->
  let r := search_loop fuel l target i j in (i <= r <= j)%nat /\
  (forall k b, (k < r)%nat -> l !! k = Some b -> bytes_compare b target = Lt) /\
  (forall k b, (r <= k)%nat -> l !! k = Some b -> bytes_compare b target <> Lt).
Proof.
  intros Hs; induction fuel as [|fuel IH]; intros i j Hf Hij Hlo Hhi; [lia|]; cbn [search_loop].
  destruct (Nat.ltb_spec i j) as [Hlt|Hge]; [|assert (i = j) as -> by lia; split_and!; [lia|lia|done|done]].
  assert (Hh : (i <= (i + j) / 2 < j)%nat) 
    by (pose proof (Nat.div_mod_eq (i + j) 2); pose proof (Nat.mod_upper_bound (i + j) 2); lia).
  remember ((i + j) / 2)%nat as h eqn:Eh; clear Eh; destruct (lookup_lt_is_Some_2 l h) as [x Hx]; [lia|]; rewrite Hx; change (default [] (Some x)) with x.
  assert (Hord : forall p q a b, (p <= q)%nat -> l !! p = Some a -> l !! q = Some b -> bytes_compare a b <> Gt).
  { intros p q a b Hpq Ha Hb; destruct (Nat.eq_dec p q) as [->|]; [assert (a = b) as -> by congruence; by rewrite (proj2 (bytes_compare_eq b b))|].
    by apply (sorted_lookup l Hs p q a b ltac:(lia) Ha Hb). }
  destruct (bytes_compare x target) eqn:E.
  - apply bytes_compare_eq in E as ->; destruct (IH i h) as (Hr & Hl & Hg); [lia|lia|done| |split_and!; [lia|lia|done|done]].
    intros k b Hk Hb Hlt'; apply (Hord h k target b Hk Hx Hb); by rewrite bytes_compare_antisym, Hlt'.
  - destruct (IH (S h) j) as (Hr & Hl & Hg); [lia|lia| |done|split_and!; [lia|lia|done|done]].
    intros k b Hk Hb; destruct (bytes_compare b x) eqn:Eb; [apply bytes_compare_eq in Eb; congruence|by eapply bytes_lt_trans|].
    by destruct (Hord k h b x ltac:(lia) Hb Hx).
  - destruct (IH i h) as (Hr & Hl & Hg); [lia|lia|done| |split_and!; [lia|lia|done|done]].
    intros k b Hk Hb Hlt'; apply (Hord h k x b Hk Hx Hb).
    rewrite bytes_compare_antisym; rewrite bytes_compare_antisym in E; destruct (bytes_compare target x) eqn:Et; try done.
    by rewrite (bytes_lt_trans b target x).
Qed.

(** Of a sorted list, the search finds what is in it. *)
Lemma BinarySearch_spec l target : StronglySorted bytes_le l -> BinarySearch l target = true <-> target ∈ l.
Proof.
  intros Hs; unfold BinarySearch; destruct (search_loop_spec (S (length l)) l target Hs 0 (length l)) as (Hr & Hlo & Hhi);
    [lia|lia|lia|intros k b Hk Hb; apply lookup_lt_Some in Hb; lia|].
  set (r := search_loop _ _ _ _ _) in *; split.
  - intros [Hlt%Nat.ltb_lt He]%andb_true_iff; destruct (lookup_lt_is_Some_2 l r Hlt) as [b Hb]; rewrite Hb in He; change (default [] (Some b)) with b in He.
    destruct (bytes_compare b target) eqn:E; try done; apply bytes_compare_eq in E as ->; by eapply list_elem_of_lookup_2.
  - intros [k Hk]%list_elem_of_lookup; assert (Hrk : (r <= k)%nat).
    { destruct (Nat.lt_ge_cases k r) as [Hkr|]; [|done]; specialize (Hlo k target Hkr Hk); by rewrite (proj2 (bytes_compare_eq target target)) in Hlo. }
    assert (Hkl := lookup_lt_Some _ _ _ Hk); destruct (lookup_lt_is_Some_2 l r) as [b Hb]; [lia|]; rewrite Hb; change (default [] (Some b)) with b.
    rewrite (proj2 (Nat.ltb_lt _ _)) by lia; cbn [andb]; destruct (bytes_compare b target) eqn:E; [done|by destruct (Hhi r b (Nat.le_refl r) Hb)|].
    assert (Hle : bytes_le b target); [|by destruct Hle].
    destruct (Nat.eq_dec r k) as [<-|]; [assert (b = target) as -> by congruence; unfold bytes_le; by rewrite (proj2 (bytes_compare_eq target target))|].
    by apply (sorted_lookup l Hs r k b target ltac:(lia)).
Qed.

(** ** Who may sign an mdoc's revocation list *)

Section Trust.
Context `{Signatures} `{!CoseKeys} `{!CborLib} `{!MdocCbor} `{!X509}.

Record StatusSignerTrust : Type := { sst_Roots : option CertPool; sst_LeafPolicy : option policy }.

Inductive trust_error : Type := TrustCertificate | TrustNoPath | TrustNotSigned.

(** Of a path, a certificate that is nil is [None]. *)
Definition signed_by (ds : Certificate) (issuer : option Certificate) (cert : Certificate) : bool :=
  match issuer with
  | None => CheckSignatureFrom ds cert
  | Some issuer =>
      bool_decide (Raw cert = Raw issuer) ||
      bool_decide (RawSubject cert = RawSubject issuer) && bool_decide (RawSubjectPublicKeyInfo cert = RawSubjectPublicKeyInfo issuer)
  end.

Definition passes_through (signed : Certificate -> bool) : policy := fun _ chains => existsb (existsb signed) chains.

Definition revocationListTrust (certificate : bytes) (documentSignerPath : list (option Certificate)) : res trust_error StatusSignerTrust :=
  if 0 <? blen certificate then
    match ParseCertificate certificate with
    | None => Err TrustCertificate
    | Some cert => Ok {| sst_Roots := Some (pool_of [cert]); sst_LeafPolicy := None |}
    end
  else match documentSignerPath with
  | [] | None :: _ => Err TrustNoPath
  | [Some ds] => Ok {| sst_Roots := None; sst_LeafPolicy := Some (passes_through (signed_by ds None)) |}
  | Some ds :: issuer :: _ =>
      match issuer with
      | None => Err TrustNotSigned
      | Some issuer =>
          if negb (CheckSignatureFrom ds issuer) then Err TrustNotSigned
          else Ok {| sst_Roots := None; sst_LeafPolicy := Some (passes_through (signed_by ds (Some issuer))) |}
      end
  end.

Definition StatusTrust (ref : option Mdoc.StatusListRef) (path : list (option Certificate)) : res trust_error StatusSignerTrust :=
  revocationListTrust (match ref with Some r => sl_Certificate r | None => [] end) path.

Definition IdentifierListTrust (ref : option IdentifierListRef) (path : list (option Certificate)) : res trust_error StatusSignerTrust :=
  revocationListTrust (match ref with Some r => il_Certificate r | None => [] end) path.

(** A payload that is nil is no bytes. *)
Definition decodeIssuerAuth (s : IssuerSigned) : res mdoc_error (Headers * Headers * MobileSecurityObject) :=
  let? (protected, unprotected, payload) := res_map_err MdocCose (DecodeUnverified (IssuerAuth s)) in
  let? mso := unwrapTag24 unmarshal_mso (default [] payload) in
  Ok (protected, unprotected, mso).

Fixpoint parse_all (ders : list bytes) : option (list Certificate) :=
  match ders with
  | [] => Some []
  | der :: ders => match ParseCertificate der with None => None | Some cert => cons cert <$> parse_all ders end
  end.

Definition IssuerAuthStatus (s : IssuerSigned) : res mdoc_error (option Mdoc.Status * list Certificate) :=
  let? (protected, unprotected, mso) := decodeIssuerAuth s in
  match parse_all (X5ChainOf protected unprotected) with
  | None => Err MdocX5Chain
  | Some chain => Ok (mso_Status mso, chain)
  end.

Definition IssuerAuthMSO (s : IssuerSigned) : res mdoc_error MobileSecurityObject :=
  let? (_, _, mso) := decodeIssuerAuth s in Ok mso.

End Trust.

(** ** Identifier lists *)

Definition MediaType : string := "application/identifierlist+cwt".
Definition BareTyp : string := "identifierlist+cwt".
Definition cwtClaimIdentifierList : Z := 65530.
Definition id_DefaultMaxTokenBytes : Z := 4 * 2 ^ 20.
Definition id_MaxTokenBytesLimit : Z := MaxTokenBytesLimit.
Definition maxIdentifiers : Z := 2 ^ 20.

Inductive id_error : Type :=
| IdMaxBytes (n : Z)
| IdRef
| IdNoSub
| IdNoIat
| IdNoExp
| IdExpBeforeIat
| IdTTL
| IdEmptyIdentifier
| IdSigner (e : chain_error)
| IdTyp (typ : string)
| IdTooMany (n : Z)
| IdMarshal
| IdCose (e : cose_error)
| IdTooLarge (n : Z)
| IdCBOR (e : cbor_error)
| IdDate (claim : string) (e : date_error)
| IdStatusListClaim
| IdNoList
| IdNotMap
| IdIdentifiers (e : cbor_error)
| IdTimes (e : window_error)
| IdSub (sub : string)
| IdUnbound
| IdTrust (e : trust_error)
| IdNoRoots
| IdFetch (e : ListFetch.fetch_error)
| IdRevoked.

Record id_Claims : Type := { ic_Sub : string; ic_Iat : Z; ic_Exp : option Z; ic_TTL : option Z; Identifiers : list bytes }.
Record id_parsed : Type := { ip_claims : id_Claims; ip_nbf : option Z }.

(** What IssueToken encodes: the claims, their identifiers as the keys of a map. *)
Record id_payload : Type := { pl_Sub : string; pl_Iat : Z; pl_Exp : Z; pl_TTL : option Z; pl_identifiers : gset bytes }.

(** The package's CBOR: encoded deterministically; decoded, after the walk, to
    the raw claims, a text, any value, an int64, and - with no walk - the list's identifiers. *)
Class IdCbor : Type := {
  marshal_id_payload : id_payload -> option bytes;
  unmarshal_id_claims : bytes -> res cbor_error (gmap Z bytes);
  unmarshal_text : bytes -> res cbor_error string;
  unmarshal_value : bytes -> res cbor_error goval;
  unmarshal_int64 : bytes -> res cbor_error Z;
  unmarshal_id_list : bytes -> res cbor_error bytes
}.

Section Identifiers.
Context `{Signatures} `{!CoseKeys} `{!CborLib} `{!X509} `{!TokenText} `{!IdCbor}.

Definition id_maxTokenBytes (limit : Z) : res id_error Z :=
  if (limit <? 0) || (id_MaxTokenBytesLimit <? limit) then Err (IdMaxBytes limit)
  else if limit =? 0 then Ok id_DefaultMaxTokenBytes else Ok limit.

Definition Contains (c : id_Claims) (id : bytes) : bool := existsb (fun listed => bool_decide (listed = id)) (Identifiers c).
Definition listed (c : id_Claims) (id : bytes) : bool := BinarySearch (Identifiers c) id.

Definition id_validate (c : id_Claims) : res id_error Z :=
  if String.eqb (ic_Sub c) "" then Err IdNoSub
  else if ic_Iat c <=? 0 then Err IdNoIat
  else match ic_Exp c with
  | None => Err IdNoExp
  | Some exp =>
      if exp <=? ic_Iat c then Err IdExpBeforeIat
      else if match ic_TTL c with Some ttl => ttl <=? 0 | None => false end then Err IdTTL
      else if existsb (fun id => blen id =? 0) (Identifiers c) then Err IdEmptyIdentifier
      else Ok exp
  end.

Definition id_IssueToken (s : signer) (alg : Z) (c : id_Claims) (chain : list Certificate) (opts_Typ : string) (opts_MaxTokenBytes : Z) : res id_error bytes :=
  let? exp := id_validate c in
  let? ders := res_map_err IdSigner (SignerChainDERs (Public s) chain) in
  let? limit := id_maxTokenBytes opts_MaxTokenBytes in
  let typ := if String.eqb opts_Typ "" then MediaType else opts_Typ in
  if negb (String.eqb typ MediaType) && negb (String.eqb typ BareTyp) then Err (IdTyp typ)
  else
    let identifiers : gset bytes := list_to_set (Identifiers c) in
    if maxIdentifiers <? Z.of_nat (base.size identifiers) then Err (IdTooMany (Z.of_nat (base.size identifiers)))
    else match marshal_id_payload {| pl_Sub := ic_Sub c; pl_Iat := ic_Iat c; pl_Exp := exp; pl_TTL := ic_TTL c; pl_identifiers := identifiers |} with
    | None => Err IdMarshal
    | Some raw =>
        let? token := res_map_err IdCose (SignTagged alg s {| h_Alg := 0; KID := None; h_Typ := typ; X5Chain := ders |} no_headers (Some raw) []) in
        if limit <? blen token then Err (IdTooLarge (blen token)) else Ok token
    end.

Record IdOptions : Type := {
  io_Now : option Z;
  io_MaxAge : Z;
  io_MaxClockSkew : Z;
  io_LeafPolicy : option policy;
  io_UnboundSigner : option policy;
  io_Revocation : option Checker;
  io_MaxTokenBytes : Z
}.

Definition id_now (clock : Z) (o : IdOptions) : Z := default clock (io_Now o).

Definition id_decMode : DecMode cbor_key := WithMaxItems (Wrap
  {| MaxNestedLevels := 16; MaxArrayElements := 0; MaxMapPairs := maxIdentifiers; UTF8RejectInvalid := true;
     MapKeyByteStringAllowed := true; other_eqb := key_eqb; unmarshal_time := decodes_time; unmarshal_map_key := decode_map_key |}) (4 * maxIdentifiers).

Definition id_decode {V} (unmarshal : bytes -> res cbor_error V) (d : bytes) : res cbor_error V := (Unmarshal unmarshal id_decMode d).1.

(** The bytes of a claim, none where it is absent. *)
Definition raw_claim (decoded : gmap Z bytes) (key : Z) : bytes := default [] (decoded !! key).

Definition numericDate (decoded : gmap Z bytes) (key : Z) (name : string) : res id_error (option Z) :=
  match decoded !! key with
  | None => Ok None
  | Some v =>
      let? n := res_map_err IdCBOR (id_decode unmarshal_value v) in
      let? at' := res_map_err (IdDate name) (FromCBOR n) in
      Ok (Some (at' / Second))
  end.

Definition take_identifier (ids : list bytes) (key info : bytes) : res cbor_error (list bytes) :=
  match Bytes key with
  | None => Err ErrFn
  | Some id => if blen id =? 0 then Err ErrFn else if negb (IsMap info) then Err ErrFn else Ok (ids ++ [id])
  end.

Definition identifiers (raw : bytes) : res id_error (list bytes) :=
  let? _ := res_map_err IdIdentifiers (Entries (fun n _ _ => Ok (n + 1)) raw 0) in
  let? ids := res_map_err IdIdentifiers (Entries take_identifier raw []) in
  Ok (merge_sort bytes_le ids).

Definition parseClaims (raw : bytes) : res id_error id_parsed :=
  let? decoded := res_map_err IdCBOR (id_decode unmarshal_id_claims raw) in
  match id_decode unmarshal_text (raw_claim decoded cwtClaimSub) with
  | Err _ => Err IdNoSub
  | Ok sub =>
      if String.eqb sub "" then Err IdNoSub
      else
        let? iat := numericDate decoded cwtClaimIat "iat" in
        match iat with
        | None | Some 0 => Err IdNoIat
        | Some iat =>
            let? exp := numericDate decoded cwtClaimExp "exp" in
            let? nbf := numericDate decoded cwtClaimNbf "nbf" in
            let? ttl :=
              match decoded !! cwtClaimTTL with
              | None => Ok None
              | Some v =>
                  match id_decode unmarshal_int64 v with
                  | Ok ttl => if ttl <=? 0 then Err IdTTL else Ok (Some ttl)
                  | Err _ => Err IdTTL
                  end
              end in
            if is_Some_b (decoded !! cwtClaimStatusList) then Err IdStatusListClaim
            else match decoded !! cwtClaimIdentifierList with
            | None => Err IdNoList
            | Some v =>
                let? list := res_map_err IdCBOR (unmarshal_id_list v) in
                if negb (IsMap list) then Err IdNotMap
                else
                  let? ids := identifiers list in
                  Ok {| ip_claims := {| ic_Sub := sub; ic_Iat := iat; ic_Exp := exp; ic_TTL := ttl; Identifiers := ids |}; ip_nbf := nbf |}
            end
        end
  end.

Definition id_checkTimes (p : id_parsed) (o : IdOptions) (now : Z) : res id_error unit :=
  res_map_err IdTimes (Window_Check {| JwtDate.MaxAge := io_MaxAge o; JwtDate.MaxClockSkew := io_MaxClockSkew o; JwtDate.RequireExp := true |}
    (ic_Iat (ip_claims p)) (ic_Exp (ip_claims p)) (ip_nbf p) now).

Definition signerTrustAt (clock : Z) (roots : option CertPool) (p : option policy) (o : IdOptions) (limit : Z) : X5ChainTrust := {|
  trust_MaxBytes := limit; ProtectedOnly := true; trust_Roots := roots; trust_Policy := p; trust_Revocation := io_Revocation o; trust_Now := id_now clock o |}.

Definition id_verifyToken (clock : Z) (token : bytes) (roots : option CertPool) (p : option policy) (o : IdOptions) : res id_error (id_parsed * list bytes) :=
  let? limit := id_maxTokenBytes (io_MaxTokenBytes o) in
  let trust := signerTrustAt clock roots p o limit in
  let? (chain, _) := res_map_err IdCose (Chain trust token) in
  let? (leaf, alg) := res_map_err IdCose (Signer clock trust chain) in
  let? (protected, _, raw) := res_map_err IdCose (Cose.VerifyMax alg (cert_PublicKey leaf) token [] limit) in
  if negb (EqualFold (h_Typ protected) MediaType) && negb (EqualFold (h_Typ protected) BareTyp) then Err (IdTyp (h_Typ protected))
  else
    let? parsed := parseClaims raw in
    let? _ := id_checkTimes parsed o (trust_Now trust) in
    Ok (parsed, chain).

Definition id_VerifyToken (clock : Z) (token : bytes) (roots : option CertPool) (o : IdOptions) : res id_error id_Claims :=
  let? (parsed, _) := id_verifyToken clock token roots (io_LeafPolicy o) o in Ok (ip_claims parsed).

Definition Ref_validate (r : IdentifierListRef) : res id_error unit :=
  if (blen (il_ID r) =? 0) || String.eqb (il_URI r) "" then Err IdRef else Ok tt.

Definition id_signerTrust (roots : option CertPool) (ref : IdentifierListRef) (path : list (option Certificate)) (o : IdOptions)
    : res id_error (option CertPool * option policy) :=
  if (blen (il_Certificate ref) =? 0) && (blen path =? 0) then
    match io_UnboundSigner o with
    | None => Err IdUnbound
    | Some p => Ok (roots, BothPolicies (Some p) (io_LeafPolicy o))
    end
  else
    let? trust := res_map_err IdTrust
      (IdentifierListTrust (Some {| il_ID := []; il_URI := EmptyString; il_Certificate := il_Certificate ref |}) path) in
    match sst_Roots trust with
    | Some pool => Ok (Some pool, io_LeafPolicy o)
    | None => Ok (roots, BothPolicies (sst_LeafPolicy trust) (io_LeafPolicy o))
    end.

Definition boundSigner (roots : option CertPool) (ref : IdentifierListRef) (path : list (option Certificate)) (o : IdOptions)
    : res id_error (option CertPool * option policy) :=
  let? _ := Ref_validate ref in
  let? (roots, p) := id_signerTrust roots ref path o in
  if negb (is_Some_b roots) then Err IdNoRoots else Ok (roots, p).

Definition id_checkSub (p : id_parsed) (ref : IdentifierListRef) : res id_error unit :=
  if negb (String.eqb (ic_Sub (ip_claims p)) (il_URI ref)) then Err (IdSub (ic_Sub (ip_claims p))) else Ok tt.

Definition id_check (clock : Z) (token : bytes) (roots : option CertPool) (ref : IdentifierListRef) (path : list (option Certificate)) (o : IdOptions)
    : res id_error (id_parsed * list bytes) :=
  let? (roots, p) := boundSigner roots ref path o in
  let? (parsed, chain) := id_verifyToken clock token roots p o in
  let? _ := id_checkSub parsed ref in
  Ok (parsed, chain).

Definition id_Check (clock : Z) (token : bytes) (roots : option CertPool) (ref : IdentifierListRef) (path : list (option Certificate)) (o : IdOptions)
    : bool * res id_error id_Claims :=
  match id_check clock token roots ref path o with
  | Err e => (true, Err e)
  | Ok (parsed, _) => (listed (ip_claims parsed) (il_ID ref), Ok (ip_claims parsed))
  end.

(** Of a token a check read before: its chain and its claims. *)
Definition id_recheck (clock : Z) (chain : list bytes) (parsed : id_parsed) (roots : option CertPool) (ref : IdentifierListRef)
    (path : list (option Certificate)) (o : IdOptions) : res id_error unit :=
  let? (roots, p) := boundSigner roots ref path o in
  let? limit := id_maxTokenBytes (io_MaxTokenBytes o) in
  let trust := signerTrustAt clock roots p o limit in
  let? _ := res_map_err IdCose (Signer clock trust chain) in
  let? _ := id_checkTimes parsed o (trust_Now trust) in
  id_checkSub parsed ref.

Record IdChecker : Type := { ick_Fetcher : ListFetch.Fetcher; ick_Roots : option CertPool; ick_Options : IdOptions }.

Definition id_with_limit (o : IdOptions) (max : Z) : IdOptions := {|
  io_Now := io_Now o; io_MaxAge := io_MaxAge o; io_MaxClockSkew := io_MaxClockSkew o; io_LeafPolicy := io_LeafPolicy o;
  io_UnboundSigner := io_UnboundSigner o; io_Revocation := io_Revocation o; io_MaxTokenBytes := max |}.

Context `{!ListFetch.Http}.

(** Checker.check, of a Checker without a Cache. *)
Definition IdChecker_check (clock : Z) (c : IdChecker) (ref : IdentifierListRef) (path : list (option Certificate)) : res id_error id_Claims :=
  let? _ := Ref_validate ref in
  let o := ick_Options c in
  let max := if io_MaxTokenBytes o =? 0 then ListFetch.f_MaxBytes (ick_Fetcher c) else io_MaxTokenBytes o in
  let? limit := id_maxTokenBytes max in
  let f := if ListFetch.f_MaxBytes (ick_Fetcher c) <=? 0 then with_max_bytes (ick_Fetcher c) limit else ick_Fetcher c in
  let? token := res_map_err IdFetch (ListFetch.Fetch f (il_URI ref) MediaType) in
  let? (parsed, _) := id_check clock token (ick_Roots c) ref path (id_with_limit o max) in
  Ok (ip_claims parsed).

Definition RequireNotRevoked (clock : Z) (c : IdChecker) (ref : IdentifierListRef) (path : list (option Certificate)) : res id_error unit :=
  let? claims := IdChecker_check clock c ref path in
  if listed claims (il_ID ref) then Err IdRevoked else Ok tt.

End Identifiers.

(** ** A verified credential's status *)

Section Credential.
Context `{Signatures} `{!CoseKeys} `{!CborLib} `{!JsonText} `{!X509} `{!TokenText} `{!IdCbor} `{!ListFetch.Http}.

Definition StatusIssuerPolicy : Type := string -> Certificate -> list (list Certificate) -> bool.

Definition AnyStatusListSigner : StatusIssuerPolicy := fun _ _ _ => true.

Inductive require_error : Type :=
| ReqStatus (e : status_error)
| ReqUnbound
| ReqChain
| ReqTrust (e : trust_error)
| ReqList (e : valid_error)
| ReqIdentifier (e : id_error).

Definition issuerName (vc : VerifiedCredential) : string :=
  let own := string_member "iss" (vc_Claims vc) in
  if negb (String.eqb own "") then own
  else match IssuerChain vc with
  | [] => EmptyString
  | der :: _ =>
      match ParseCertificate der with
      | None => EmptyString
      | Some leaf => match URIs leaf with uri :: _ => uri | [] => EmptyString end
      end
  end.

Definition issuerKey (vc : VerifiedCredential) : option (PublicKey ec) :=
  match IssuerChain vc with
  | [] => None
  | der :: _ => cert_PublicKey <$> ParseCertificate der
  end.

Definition issuerPath (vc : VerifiedCredential) : res require_error (list Certificate) :=
  match parse_all (IssuerChain vc) with Some path => Ok path | None => Err ReqChain end.

Definition unnamedStatusIssuer (statusIssuers : StatusIssuerPolicy) : policy := statusIssuers EmptyString.

Definition with_signer (o : VerifyOptions) (issuer : string) (key : option (PublicKey ec)) (unbound : option policy) : VerifyOptions := {|
  Now := Now o; MaxAge := MaxAge o; MaxClockSkew := MaxClockSkew o; RequireExp := RequireExp o; X5ChainProtectedOnly := X5ChainProtectedOnly o;
  LeafPolicy := LeafPolicy o; Revocation := Revocation o; Issuer := issuer; IssuerKey := key; UnboundSigner := unbound; MaxTokenBytes := MaxTokenBytes o |}.

(** A signer that is the issuer, or a Status Issuer accepted for it. *)
Definition issuer_or_status_issuer (issuer : string) (key : option (PublicKey ec)) (q : StatusIssuerPolicy) : policy := fun leaf chains =>
  SameKey (cert_PublicKey leaf) key || (negb (String.eqb issuer "") && is_ok (CheckIssuerName EqualFold leaf issuer)) || q issuer leaf chains.

Definition statusOptionsFor (o : VerifyOptions) (issuer : string) (key : option (PublicKey ec)) (statusIssuers : option StatusIssuerPolicy)
    : res require_error VerifyOptions :=
  match statusIssuers with
  | None => if String.eqb issuer "" && negb (is_Some_b key) then Err ReqUnbound else Ok (with_signer o issuer key (UnboundSigner o))
  | Some q => Ok (with_signer o EmptyString (IssuerKey o) (Some (issuer_or_status_issuer issuer key q)))
  end.

(** The Checker with other roots and options; an mdoc's list carries exp, and its chain protected. *)
Definition with_roots (c : ListChecker) (roots : option CertPool) (o : VerifyOptions) : ListChecker :=
  {| Fetcher := Fetcher c; Roots := roots; Options := o |}.
Definition for_mdoc (o : VerifyOptions) (unbound : policy) : VerifyOptions := {|
  Now := Now o; MaxAge := MaxAge o; MaxClockSkew := MaxClockSkew o; RequireExp := true; X5ChainProtectedOnly := true; LeafPolicy := LeafPolicy o;
  Revocation := Revocation o; Issuer := Issuer o; IssuerKey := IssuerKey o; UnboundSigner := Some unbound; MaxTokenBytes := MaxTokenBytes o |}.

Definition policy_or (p : policy) (statusIssuers : option StatusIssuerPolicy) : policy := fun leaf chains =>
  p leaf chains || match statusIssuers with Some q => q EmptyString leaf chains | None => false end.

Definition mdocStatusChecker (c : ListChecker) (vc : VerifiedCredential) (statusIssuers : option StatusIssuerPolicy) : res require_error ListChecker :=
  let ref := match MdocStatus vc with Some status => StatusList status | None => None end in
  let? path := issuerPath vc in
  if match ref with None => true | Some r => blen (sl_Certificate r) =? 0 end && (blen path =? 0) then
    match statusIssuers with
    | None => Err ReqUnbound
    | Some q => Ok (with_roots c (Roots c) (for_mdoc (Options c) (unnamedStatusIssuer q)))
    end
  else
    let? trust := res_map_err ReqTrust (StatusTrust ref (map Some path)) in
    match sst_Roots trust, sst_LeafPolicy trust with
    | Some pool, _ => Ok (with_roots c (Some pool) (for_mdoc (Options c) AnyListSigner))
    | None, Some p => Ok (with_roots c (Roots c) (for_mdoc (Options c) (policy_or p statusIssuers)))
    | None, None => Err ReqUnbound   (* StatusTrust gives one *)
    end.

Definition identifier_checker (c : ListChecker) (unbound : option policy) : IdChecker := {|
  ick_Fetcher := Fetcher c; ick_Roots := Roots c;
  ick_Options := let o := Options c in {| io_Now := Now o; io_MaxAge := MaxAge o; io_MaxClockSkew := MaxClockSkew o; io_LeafPolicy := LeafPolicy o;
    io_UnboundSigner := unbound; io_Revocation := Revocation o; io_MaxTokenBytes := 0 |} |}.

Definition requireNotOnIdentifierList (clock : Z) (c : ListChecker) (statusIssuers : option StatusIssuerPolicy) (vc : VerifiedCredential)
    (ref : IdentifierListRef) : res require_error unit :=
  let? path := issuerPath vc in
  let run unbound := res_map_err ReqIdentifier (RequireNotRevoked clock (identifier_checker c unbound) ref (map Some path)) in
  if (blen path =? 0) && (blen (il_Certificate ref) =? 0) then
    match statusIssuers with
    | None => Err ReqUnbound
    | Some q => run (Some (unnamedStatusIssuer q))
    end
  else run None.

Definition check_reference (clock : Z) (c : ListChecker) (statusIssuers : option StatusIssuerPolicy) (vc : VerifiedCredential) : res require_error unit :=
  let? found := res_map_err ReqStatus (CredentialStatus.StatusListRef vc) in
  match found with
  | None => Ok tt
  | Some (ref, cwt) =>
      let? c :=
        if cwt : bool then mdocStatusChecker c vc statusIssuers
        else let? o := statusOptionsFor (Options c) (issuerName vc) (issuerKey vc) statusIssuers in Ok (with_roots c (Roots c) o) in
      res_map_err ReqList (RequireValid clock c ref cwt)
  end.

Definition requireValid (clock : Z) (c : ListChecker) (statusIssuers : option StatusIssuerPolicy) (vc : VerifiedCredential) : res require_error unit :=
  match MdocStatus vc with
  | Some status =>
      match IdentifierList status with
      | Some ref =>
          let? _ := requireNotOnIdentifierList clock c statusIssuers vc ref in
          if negb (is_Some_b (StatusList status)) then Ok tt else check_reference clock c statusIssuers vc
      | None => check_reference clock c statusIssuers vc
      end
  | None => check_reference clock c statusIssuers vc
  end.

(** A StatusPolicy of a Checker, as [CredentialStatus] has it. *)
Definition policy_of (clock : Z) (c : ListChecker) (statusIssuers : option StatusIssuerPolicy) (requireReference : bool) : StatusPolicy := {|
  sp_Roots := Roots c; HardenedForProduction := ListFetch.HardenedForProduction (Fetcher c); sp_Revocation := Revocation (Options c);
  RequireReference := requireReference; CredentialStatus.requireValid := fun vc => is_ok (requireValid clock c statusIssuers vc) |}.

End Credential.

(** ** What a credential that passes was vouched for by *)

Section Vouched.
Context `{Signatures} `{!CoseKeys} `{!CborLib} `{!JsonText} `{!X509} `{!TokenText} `{!IdCbor} `{!ListFetch.Http}.

Lemma trusted_paths ders roots q rev now' clock leaf good chain :
  VerifyTrustedChainsAt ders roots (Some q) rev now' clock = Ok (leaf, good) -> chain ∈ good -> q leaf [chain] = true.
Proof using.
  intros ([leaf' chains] & _ & (approved & Ha & (good' & Hg & Hx)%res_bind_ok)%res_bind_ok)%res_bind_ok Hin; injection Hx as -> ->.
  apply ApprovedChains_ok in Ha as [-> _]; apply NotRevokedChains_ok in Hg as [-> _].
  apply list_elem_of_In, filter_In in Hin as [Hin _]; by apply filter_In in Hin as [_ ?].
Qed.

Lemma both_paths ders roots u lp rev now' clock leaf good chain :
  VerifyTrustedChainsAt ders roots (BothPolicies (Some u) lp) rev now' clock = Ok (leaf, good) -> chain ∈ good -> u leaf [chain] = true.
Proof using.
  destruct lp as [lp|]; cbn [BothPolicies]; intros Hv Hin; pose proof (trusted_paths _ _ _ _ _ _ _ _ _ Hv Hin) as Hq; [|done].
  by apply andb_true_iff in Hq as [? _].
Qed.

Lemma parse_all_length ders certs : parse_all ders = Some certs -> blen certs = blen ders.
Proof using.
  revert certs; induction ders as [|der ders IH]; intros certs; cbn; [by intros [= <-]|].
  destruct (ParseCertificate der); [|done]; destruct (parse_all ders) as [cs|] eqn:E; [|done]; intros [= <-]; rewrite !blen_cons; by rewrite (IH cs).
Qed.

(** The path of a document signer: the signer alone, or with the certificate
    next to it, which signed it. *)
Definition ds_path (path : list (option Certificate)) (ds : Certificate) (issuer : option Certificate) : Prop :=
  (path = [Some ds] /\ issuer = None) \/
  exists ca rest, path = Some ds :: Some ca :: rest /\ CheckSignatureFrom ds ca = true /\ issuer = Some ca.

(** The CA of a document signer: the certificate next to it, or one of that
    name and key; of a signer alone, any whose key signed it. *)
Definition ca_of (ds : Certificate) (issuer : option Certificate) (cert : Certificate) : Prop :=
  match issuer with
  | Some ca => Raw cert = Raw ca \/ RawSubject cert = RawSubject ca /\ RawSubjectPublicKeyInfo cert = RawSubjectPublicKeyInfo ca
  | None => CheckSignatureFrom ds cert = true
  end.

Lemma signed_by_ok ds issuer cert : signed_by ds issuer cert = true <-> ca_of ds issuer cert.
Proof using. unfold signed_by, ca_of; destruct issuer; [|done]; by rewrite orb_true_iff, andb_true_iff, !bool_decide_eq_true. Qed.

Definition through_ca (ds : Certificate) (issuer : option Certificate) (chains : list (list Certificate)) : Prop :=
  exists chain cert, chain ∈ chains /\ cert ∈ chain /\ ca_of ds issuer cert.

Lemma passes_through_ok ds issuer leaf chains : passes_through (signed_by ds issuer) leaf chains = true <-> through_ca ds issuer chains.
Proof using.
  unfold passes_through, through_ca; rewrite existsb_exists; setoid_rewrite existsb_exists; setoid_rewrite signed_by_ok; setoid_rewrite <- list_elem_of_In.
  split; [intros (chain & Hc & cert & Hin & Hs)|intros (chain & cert & Hc & Hin & Hs)]; exists chain; [by exists cert|split; [done|by exists cert]].
Qed.

(** A revocation list's trust: to the certificate its status names, or through
    the CA that signed the document signer. *)
Lemma revocationListTrust_ok certificate path trust : revocationListTrust certificate path = Ok trust <->
  (certificate <> [] /\ exists cert, ParseCertificate certificate = Some cert /\ trust = {| sst_Roots := Some (pool_of [cert]); sst_LeafPolicy := None |}) \/
  (certificate = [] /\ exists ds issuer, ds_path path ds issuer /\
    trust = {| sst_Roots := None; sst_LeafPolicy := Some (passes_through (signed_by ds issuer)) |}).
Proof using.
  unfold revocationListTrust, ds_path; destruct certificate as [|b bs].
  - change (0 <? blen []) with false; split.
    + destruct path as [|[ds|] [|[ca|] rest]]; try done; [intros [= <-]; right; split; [done|]; exists ds, None; eauto|].
      destruct (CheckSignatureFrom ds ca) eqn:Es; [|done]; intros [= <-]; right; split; [done|]; exists ds, (Some ca); split; [right; eauto|done].
    + intros [[? _]|(_ & ds & issuer & [[-> ->]|(ca & rest & -> & Es & ->)] & ->)]; [done|done|]; by rewrite Es.
  - rewrite blen_cons, (proj2 (Z.ltb_lt _ _)) by (pose proof (blen_nonneg bs); lia); split.
    + destruct (ParseCertificate _) as [cert|]; [|done]; intros [= <-]; left; split; [done|]; by exists cert.
    + intros [(_ & cert & -> & ->)|[? _]]; done.
Qed.

Lemma parse_all_ok ders path : parse_all ders = Some path <-> Forall2 (fun der cert => ParseCertificate der = Some cert) ders path.
Proof using.
  revert path; induction ders as [|der ders IH]; intros path; cbn [parse_all].
  - split; [intros [= <-]; constructor|by intros ->%Forall2_nil_inv_l].
  - destruct (ParseCertificate der) as [cert|] eqn:E; [|split; [done|]; intros (? & ? & ? & _)%Forall2_cons_inv_l; congruence].
    split.
    + destruct (parse_all ders) as [l|]; [|done]; intros [= <-]; constructor; [done|by apply IH].
    + intros (cert' & l & Hc & Hl & ->)%Forall2_cons_inv_l; apply IH in Hl as ->; by rewrite E in Hc; injection Hc as ->.
Qed.

(** Paths an mdoc's revocation list may be signed under: to the certificate its
    status names; or through the CA that signed its document signer; or, where
    there is neither - or, for a status list, beside that CA - of a Status Issuer accepted. *)
Definition mdoc_signer (beside : bool) (roots0 : option CertPool) (statusIssuers : option StatusIssuerPolicy) (vc : VerifiedCredential)
    (certificate : bytes) (roots : option CertPool) (leaf : Certificate) (good : list (list Certificate)) : Prop :=
  let accepted chain := exists q, statusIssuers = Some q /\ q EmptyString leaf [chain] = true in
  (certificate <> [] /\ exists cert, ParseCertificate certificate = Some cert /\ roots = Some (pool_of [cert])) \/
  (certificate = [] /\ roots = roots0 /\ exists path, Forall2 (fun der cert => ParseCertificate der = Some cert) (IssuerChain vc) path /\
    ((path = [] /\ forall chain, chain ∈ good -> accepted chain) \/
     exists ds issuer, ds_path (map Some path) ds issuer /\
       forall chain, chain ∈ good -> (exists cert, cert ∈ chain /\ ca_of ds issuer cert) \/ beside = true /\ accepted chain)).

(** An SD-JWT VC's issuer by name: its iss, or the first URI of the certificate
    that leads its chain, or neither; and by key, that certificate's. *)
Definition issuing_certificate (vc : VerifiedCredential) (cert : Certificate) : Prop :=
  exists der rest, IssuerChain vc = der :: rest /\ ParseCertificate der = Some cert.

Definition issuer_named (vc : VerifiedCredential) (name : string) : Prop :=
  (name <> EmptyString /\ member "iss" (vc_Claims vc) = Some (VString name)) \/
  ((forall iss, member "iss" (vc_Claims vc) = Some (VString iss) -> iss = EmptyString) /\
   ((exists cert, issuing_certificate vc cert /\ name = List.hd EmptyString (URIs cert)) \/
    (forall cert, ~ issuing_certificate vc cert) /\ name = EmptyString)).

(** A certificate of a name: for dns:host or dns://host, one of that DNS name;
    for another, of that URI. *)
Definition carries_name (leaf : Certificate) (name : string) : Prop :=
  (exists host d, host <> EmptyString /\ (name = ("dns://" ++ host)%string \/ name = ("dns:" ++ host)%string /\ String.prefix "//" host = false) /\
     d ∈ DNSNames leaf /\ EqualFold d host = true) \/
  (String.prefix "dns:" name = false /\ name <> EmptyString /\ name ∈ URIs leaf).

(** A signer of an SD-JWT VC's list: with its issuer's key, or of its issuer's
    name, or a Status Issuer accepted for its issuer; a token that names an
    issuer names that one, where no Status Issuer is accepted. *)
Definition sdjwt_signer (statusIssuers : option StatusIssuerPolicy) (vc : VerifiedCredential) (claimed : string) (leaf : Certificate) (good : list (list Certificate)) : Prop :=
  exists name, issuer_named vc name /\
  let own := (exists cert, issuing_certificate vc cert /\ key_Equal (cert_PublicKey leaf) (cert_PublicKey cert) = true) \/
    name <> EmptyString /\ carries_name leaf name in
  match statusIssuers with
  | None => own /\ (claimed = EmptyString \/ name = EmptyString \/ claimed = name)
  | Some q => forall chain, chain ∈ good -> own \/ q name leaf [chain] = true
  end.

Lemma issuerName_ok vc : issuer_named vc (issuerName vc).
Proof using.
  unfold issuer_named, issuerName, issuing_certificate, string_member.
  destruct (match member "iss" (vc_Claims vc) with Some (VString s) => s | _ => EmptyString end) as [|a own] eqn:Eo; cbn [String.eqb negb].
  - right; split; [intros iss Hi; by rewrite Hi in Eo|].
    destruct (IssuerChain vc) as [|der rest]; [right; split; [by intros ? (? & ? & ? & _)|done]|].
    destruct (ParseCertificate der) as [cert|] eqn:Ec; [left; exists cert; split; [by exists der, rest|by destruct (URIs cert)]|].
    right; split; [|done]; intros cert (d & r & [= <- <-] & ?); congruence.
  - left; split; [done|]; destruct (member "iss" (vc_Claims vc)) as [[]|]; by subst.
Qed.

Lemma issuerKey_ok vc leaf : SameKey (cert_PublicKey leaf) (issuerKey vc) = true ->
  exists cert, issuing_certificate vc cert /\ key_Equal (cert_PublicKey leaf) (cert_PublicKey cert) = true.
Proof using.
  unfold issuerKey, issuing_certificate, SameKey; destruct (IssuerChain vc) as [|der rest]; [done|].
  destruct (ParseCertificate der) as [cert|] eqn:E; [|done]; intros Hk; exists cert; split; [by exists der, rest|done].
Qed.

Lemma CheckIssuerName_ok leaf name : CheckIssuerName EqualFold leaf name = Ok tt -> carries_name leaf name.
Proof using.
  unfold CheckIssuerName, carries_name; destruct (String.prefix "dns:" name) eqn:Ep.
  - assert (Hn : exists rest, name = ("dns:" ++ rest)%string) by (by apply prefix_split).
    destruct Hn as [rest ->]; rewrite trim_prefix_app; intros Hc; left.
    destruct (String.prefix "//" rest) eqn:E2.
    + destruct (prefix_split _ _ E2) as [host ->]; rewrite trim_prefix_app in Hc; destruct (String.eqb_spec host ""); [done|]; cbn [negb andb] in Hc.
      destruct (existsb _ _) eqn:Ee; [|done]; apply existsb_exists in Ee as (d & Hd & Hf); exists host, d; split_and!; [done|by left|by apply list_elem_of_In|done].
    + unfold trim_prefix in Hc; rewrite E2 in Hc; destruct (String.eqb_spec rest ""); [done|]; cbn [negb andb] in Hc.
      destruct (existsb _ _) eqn:Ee; [|done]; apply existsb_exists in Ee as (d & Hd & Hf); exists rest, d; split_and!; [done|by right|by apply list_elem_of_In|done].
  - destruct (String.eqb_spec name ""); [done|]; cbn [negb andb]; destruct (existsb _ _) eqn:Ee; [|done]; intros _; right.
    apply existsb_exists in Ee as (u & Hu & ->%String.eqb_eq); split_and!; [done|done|by apply list_elem_of_In].
Qed.

(** The leaf policy holds of each path left, whichever signer is asked for. *)
Lemma leaf_policy_paths o p lp ders roots rev now' clock leaf good chain : signerPolicy o = Ok p -> LeafPolicy o = Some lp ->
  VerifyTrustedChainsAt ders roots p rev now' clock = Ok (leaf, good) -> chain ∈ good -> lp leaf [chain] = true.
Proof using.
  unfold signerPolicy; intros Hp Hlp Hv Hin; destruct (negb _ || _) in Hp; [injection Hp as <-; rewrite Hlp in Hv; by apply (trusted_paths _ _ _ _ _ _ _ _ _ Hv Hin)|].
  destruct (UnboundSigner o) as [u|]; [|done]; injection Hp as <-; rewrite Hlp in Hv; cbn [BothPolicies] in Hv.
  by apply (trusted_paths _ _ _ _ _ _ _ _ _ Hv), andb_true_iff in Hin as [_ ?].
Qed.

(** A list's signer, bound by neither name nor key, is one UnboundSigner accepts under each path left. *)
Lemma unbound_paths clock c ref cwt token m leaf good u : Issuer (Options c) = EmptyString -> IssuerKey (Options c) = None ->
  UnboundSigner (Options c) = Some u -> vouches clock c ref cwt token m leaf good -> forall chain, chain ∈ good -> u leaf [chain] = true.
Proof using.
  intros Hi Hk Hu (p & limit & _ & _ & _ & Hp & _ & _ & _ & Hv & _) chain Hin.
  unfold signerPolicy in Hp; rewrite Hi, Hk, Hu in Hp; injection Hp as <-; by apply (both_paths _ _ _ _ _ _ _ _ _ _ Hv Hin).
Qed.

Definition status_certificate (vc : VerifiedCredential) : bytes :=
  match MdocStatus vc with Some status => match StatusList status with Some r => sl_Certificate r | None => [] end | None => [] end.

(** A Checker that reads what another does, as it does: of other roots, perhaps,
    and another signer; an mdoc's, of lists that carry exp. *)
Definition reads_as (c c' : ListChecker) (cwt : bool) : Prop :=
  Fetcher c' = Fetcher c /\ Now (Options c') = Now (Options c) /\ MaxAge (Options c') = MaxAge (Options c) /\
  MaxClockSkew (Options c') = MaxClockSkew (Options c) /\ (cwt || RequireExp (Options c') = cwt || RequireExp (Options c)) /\
  LeafPolicy (Options c') = LeafPolicy (Options c) /\ Revocation (Options c') = Revocation (Options c) /\ MaxTokenBytes (Options c') = MaxTokenBytes (Options c).

Lemma mdocStatusChecker_reads c vc statusIssuers c' : mdocStatusChecker c vc statusIssuers = Ok c' -> reads_as c c' true.
Proof using.
  unfold mdocStatusChecker; intros (path & _ & Hc)%res_bind_ok; destruct (_ && _) in Hc; [destruct statusIssuers; [by injection Hc as <-|done]|].
  apply res_bind_ok in Hc as ([[pool|] [p|]] & _ & Hc); cbn in Hc; try done; by injection Hc as <-.
Qed.

Lemma statusOptionsFor_reads c issuer key statusIssuers o : statusOptionsFor (Options c) issuer key statusIssuers = Ok o -> reads_as c (with_roots c (Roots c) o) false.
Proof using. unfold statusOptionsFor; destruct statusIssuers; [|destruct (_ && _); [done|]]; by intros [= <-]. Qed.

Lemma mdocStatusChecker_ok c statusIssuers vc c' clock ref cwt token m leaf good :
  Issuer (Options c) = EmptyString -> IssuerKey (Options c) = None ->
  mdocStatusChecker c vc statusIssuers = Ok c' -> vouches clock c' ref cwt token m leaf good ->
  mdoc_signer true (Roots c) statusIssuers vc (status_certificate vc) (Roots c') leaf good.
Proof using.
  intros Hi Hk; unfold mdocStatusChecker, StatusTrust; set (ref' := match MdocStatus vc with Some status => StatusList status | None => None end).
  assert (Hcert : match ref' with Some r => sl_Certificate r | None => [] end = status_certificate vc) by (unfold ref', status_certificate; by destruct (MdocStatus vc)).
  assert (Hempty : match ref' with None => true | Some r => blen (sl_Certificate r) =? 0 end = (blen (status_certificate vc) =? 0)) by (rewrite <- Hcert; by destruct ref').
  rewrite Hcert, Hempty; clear Hcert Hempty; unfold mdoc_signer, issuerPath; destruct (parse_all (IssuerChain vc)) as [path|] eqn:Ep; cbn [res_bind]; [|done].
  apply parse_all_ok in Ep; destruct ((blen _ =? 0) && (blen path =? 0)) eqn:E0.
  - destruct statusIssuers as [q|]; [|done]; intros [= <-] Hv; apply andb_true_iff in E0 as [Ec%Z.eqb_eq%blen_zero E0%Z.eqb_eq%blen_zero].
    right; split_and!; try done; exists path; split; [done|left]; split; [done|]; intros chain Hin; exists q; split; [done|].
    by apply (unbound_paths clock (with_roots c (Roots c) (for_mdoc (Options c) (unnamedStatusIssuer q))) ref cwt token m leaf good).
  - clear E0; destruct (revocationListTrust _ _) as [trust|] eqn:Et; cbn [res_map_err res_bind]; [|done].
    apply revocationListTrust_ok in Et as [(Hc & cert & Hcert & ->)|(Hc & ds & issuer & Hds & ->)]; cbn [sst_Roots sst_LeafPolicy]; intros [= <-] Hv.
    + left; split; [done|]; by exists cert.
    + right; split_and!; try done; exists path; split; [done|right]; exists ds, issuer; split; [done|]; intros chain Hin.
      set (u := policy_or _ _) in Hv; assert (Hu : u leaf [chain] = true)
        by (by apply (unbound_paths clock (with_roots c (Roots c) (for_mdoc (Options c) u)) ref cwt token m leaf good)).
      apply orb_true_iff in Hu as [(ch & cert & ->%list_elem_of_singleton & Hcert & Hca)%passes_through_ok|Hu]; [left; by exists cert|].
      right; split; [done|]; destruct statusIssuers as [q|]; [by exists q|done].
Qed.

Lemma statusOptionsFor_ok c statusIssuers vc o clock ref cwt token m leaf good :
  IssuerKey (Options c) = None ->
  statusOptionsFor (Options c) (issuerName vc) (issuerKey vc) statusIssuers = Ok o ->
  vouches clock (with_roots c (Roots c) o) ref cwt token m leaf good -> sdjwt_signer statusIssuers vc (iss (m_parsed m)) leaf good.
Proof using.
  intros Hk; unfold statusOptionsFor, sdjwt_signer; intros Ho Hv; exists (issuerName vc); split; [apply issuerName_ok|]; destruct statusIssuers as [q|].
  - injection Ho as <-; intros chain Hin; pose proof (unbound_paths clock (with_roots c (Roots c) (with_signer (Options c) EmptyString (IssuerKey (Options c)) _)) ref cwt token m leaf good _ eq_refl Hk eq_refl Hv chain Hin) as Hu.
    apply orb_true_iff in Hu as [[Hu%issuerKey_ok|[Hn Hu]%andb_true_iff]%orb_true_iff|Hu]; [by left; left| |by right].
    left; right; split; [by destruct (String.eqb_spec (issuerName vc) "")|]; apply CheckIssuerName_ok; by destruct (CheckIssuerName _ _ _) as [[]|].
  - destruct (String.eqb (issuerName vc) "" && _) eqn:E; [done|]; injection Ho as <-; destruct Hv as (p & limit & _ & _ & _ & _ & _ & _ & _ & _ & Hb & [Hi _] & _).
    split; [|exact Hi]; destruct Hb as [[Hn Hb]|[Hb|[Hn Hb]]]; [cbn in Hn, Hb; by rewrite Hn, Hb in E|left; by apply issuerKey_ok|right; split; [done|by apply CheckIssuerName_ok]].
Qed.

(** An identifier list that leaves a reference out. *)
Definition leaves_out (clock : Z) (c : IdChecker) (ref : IdentifierListRef) (path : list (option Certificate)) (token : bytes) (parsed : id_parsed)
    (roots : option CertPool) (leaf : Certificate) (good : list (list Certificate)) : Prop :=
  let o := ick_Options c in
  let max := if io_MaxTokenBytes o =? 0 then ListFetch.f_MaxBytes (ick_Fetcher c) else io_MaxTokenBytes o in
  exists p limit alg protected unprotected raw, id_maxTokenBytes max = Ok limit /\
    ListFetch.Fetch (if ListFetch.f_MaxBytes (ick_Fetcher c) <=? 0 then with_max_bytes (ick_Fetcher c) limit else ick_Fetcher c) (il_URI ref) MediaType = Ok token /\
    blen token <= limit /\ boundSigner (ick_Roots c) ref path o = Ok (roots, p) /\
    VerifyTrustedChainsAt (X5Chain protected) roots p (io_Revocation o) (id_now clock o) clock = Ok (leaf, good) /\
    AlgForKey (cert_PublicKey leaf) = Ok alg /\ Cose.VerifyMax alg (cert_PublicKey leaf) token [] (blen token) = Ok (protected, unprotected, raw) /\
    (EqualFold (h_Typ protected) MediaType || EqualFold (h_Typ protected) BareTyp) = true /\ parseClaims raw = Ok parsed /\
    fresh {| JwtDate.MaxAge := io_MaxAge o; JwtDate.MaxClockSkew := io_MaxClockSkew o; JwtDate.RequireExp := true |}
      (ic_Iat (ip_claims parsed)) (ic_Exp (ip_claims parsed)) (ip_nbf parsed) (id_now clock o) /\
    ic_Sub (ip_claims parsed) = il_URI ref /\ il_ID ref ∉ Identifiers (ip_claims parsed).

Lemma identifiers_sorted raw ids : identifiers raw = Ok ids -> StronglySorted bytes_le ids.
Proof using.
  unfold identifiers; intros (n & _ & (ids' & _ & [= <-])%res_bind_ok)%res_bind_ok; apply StronglySorted_merge_sort; apply _.
Qed.

Lemma parseClaims_sorted raw parsed : parseClaims raw = Ok parsed -> StronglySorted bytes_le (Identifiers (ip_claims parsed)).
Proof using.
  unfold parseClaims; intros (decoded & _ & Hs)%res_bind_ok; destruct (id_decode unmarshal_text _) as [sub|]; [|done].
  destruct (String.eqb sub ""); [done|]; apply res_bind_ok in Hs as (iat & _ & Hs); destruct iat as [[|iat|iat]|]; try done.
  all: apply res_bind_ok in Hs as (exp & _ & (nbf & _ & (ttl & _ & Hs)%res_bind_ok)%res_bind_ok); destruct (is_Some_b _); [done|].
  all: destruct (decoded !! cwtClaimIdentifierList) as [v|]; [|done]; apply res_bind_ok in Hs as (l & _ & Hs); destruct (negb _); [done|].
  all: apply res_bind_ok in Hs as (ids & Hids & [= <-]); by apply identifiers_sorted in Hids.
Qed.

(** On a list read, the search is membership. *)
Lemma listed_member raw parsed id : parseClaims raw = Ok parsed -> listed (ip_claims parsed) id = true <-> id ∈ Identifiers (ip_claims parsed).
Proof using. intros Hp%parseClaims_sorted; by apply BinarySearch_spec. Qed.

Lemma id_verifyToken_ok clock token roots p o parsed chain : id_verifyToken clock token roots p o = Ok (parsed, chain) <->
  exists limit leaf good alg protected unprotected raw, id_maxTokenBytes (io_MaxTokenBytes o) = Ok limit /\ blen token <= limit /\
    VerifyTrustedChainsAt chain roots p (io_Revocation o) (id_now clock o) clock = Ok (leaf, good) /\ AlgForKey (cert_PublicKey leaf) = Ok alg /\
    Cose.VerifyMax alg (cert_PublicKey leaf) token [] (blen token) = Ok (protected, unprotected, raw) /\ chain = X5Chain protected /\
    (EqualFold (h_Typ protected) MediaType || EqualFold (h_Typ protected) BareTyp) = true /\ parseClaims raw = Ok parsed /\
    id_checkTimes parsed o (id_now clock o) = Ok tt.
Proof using.
  unfold id_verifyToken, Signer, Chain; cbn [trust_MaxBytes ProtectedOnly signerTrustAt trust_Roots trust_Policy trust_Revocation trust_Now orb]; split.
  - intros (limit & Hl & ([chain' pr] & Hd%res_map_err_ok & ([leaf alg] & Hs%res_map_err_ok & ([[pt u] raw] & Hv%res_map_err_ok & Hr)%res_bind_ok)%res_bind_ok)%res_bind_ok)%res_bind_ok.
    apply res_bind_ok in Hd as ([[pt' u'] pl] & Hd & [= <- <-]); pose proof (cose_VerifyMax_decodes _ _ _ _ _ _ _ Hv) as Hd'.
    rewrite Hd in Hd'; injection Hd' as -> -> ->; apply cose_VerifyMax_limit in Hv as [Hn Hv].
    apply res_bind_ok in Hs as ([leaf' good] & Hg%res_map_err_ok & (alg' & Ha & [= -> ->])%res_bind_ok).
    destruct (EqualFold _ MediaType) eqn:Et, (EqualFold _ BareTyp) eqn:Et'; cbn [negb andb] in Hr; try done.
    all: apply res_bind_ok in Hr as (parsed' & Hp & ([] & Hc & [= -> <-])%res_bind_ok); exists limit, leaf, good, alg, pt, u, raw; split_and!; try done; by rewrite Et.
  - intros (limit & leaf & good & alg & pt & u & raw & Hl & Hn & Hg & Ha & Hv & -> & Ht & Hp & Hc); rewrite Hl; cbn [res_bind].
    assert (Hv' : Cose.VerifyMax alg (cert_PublicKey leaf) token [] limit = Ok (pt, u, raw)) by (by apply cose_VerifyMax_limit).
    rewrite (cose_VerifyMax_decodes _ _ _ _ _ _ _ Hv'); cbn [res_map_err res_bind]; rewrite Hg; cbn [res_map_err res_bind]; rewrite Ha; cbn [res_map_err res_bind].
    rewrite Hv'; cbn [res_map_err res_bind]; rewrite <- negb_orb, Ht; cbn [negb]; rewrite Hp; cbn [res_bind]; by rewrite Hc.
Qed.

Lemma RequireNotRevoked_ok clock c ref path :
  RequireNotRevoked clock c ref path = Ok tt <-> exists token parsed roots leaf good, leaves_out clock c ref path token parsed roots leaf good.
Proof using.
  unfold RequireNotRevoked, IdChecker_check, leaves_out; set (max := if _ =? 0 then _ else _); split.
  - intros (claims & ([] & Hr & (limit & Hl & (token & Hf%res_map_err_ok & ([parsed chain] & Hk & [= <-])%res_bind_ok)%res_bind_ok)%res_bind_ok)%res_bind_ok & Hn)%res_bind_ok.
    apply res_bind_ok in Hk as ([roots p] & Hb & ([parsed' chain'] & Hv & ([] & Hs & [= -> ->])%res_bind_ok)%res_bind_ok).
    apply id_verifyToken_ok in Hv as (limit' & leaf & good & alg & pt & u & raw & Hl' & Hz & Hg & Ha & Hv & -> & Ht & Hp & Hc).
    cbn [io_MaxTokenBytes id_with_limit] in Hl'; rewrite Hl in Hl'; injection Hl' as <-; unfold id_checkSub in Hs.
    destruct (String.eqb_spec (ic_Sub (ip_claims parsed)) (il_URI ref)); [|done]; destruct (listed _ _) eqn:Ei; [done|].
    exists token, parsed, roots, leaf, good, p, limit, alg, pt, u, raw; split_and!; try done.
    + unfold id_checkTimes in Hc; rewrite res_map_err_ok in Hc; by apply Window_Check_exact in Hc.
    + intros Hin; apply (listed_member raw) in Hin; [congruence|done].
  - intros (token & parsed & roots & leaf & good & p & limit & alg & pt & u & raw & Hl & Hf & Hz & Hb & Hg & Ha & Hv & Ht & Hp & Hc & Hs & Hn).
    apply res_bind_ok; exists (ip_claims parsed); split; [|destruct (listed _ _) eqn:Ei; [|done]; by apply (listed_member raw) in Ei].
    assert (Hr : Ref_validate ref = Ok tt) by (by apply res_bind_ok in Hb as ([] & ? & _)).
    rewrite Hr; cbn [res_bind]; rewrite Hl; cbn [res_bind]; rewrite Hf; cbn [res_map_err res_bind]; unfold id_check.
    assert (Hb' : boundSigner (ick_Roots c) ref path (id_with_limit (ick_Options c) max) = Ok (roots, p)) by exact Hb.
    rewrite Hb'; cbn [res_bind]; apply res_bind_ok; exists (parsed, X5Chain pt); split; [|done]; apply res_bind_ok; exists (parsed, X5Chain pt); split.
    + apply id_verifyToken_ok; exists limit, leaf, good, alg, pt, u, raw; split_and!; try done; apply res_map_err_ok; by apply Window_Check_exact.
    + unfold id_checkSub; by rewrite Hs, String.eqb_refl.
Qed.

Lemma requireReferences_ok vcs : requireReferences vcs = Ok tt -> forall vc, vc ∈ vcs ->
  (exists found, CredentialStatus.StatusListRef vc = Ok (Some found)) \/ has_identifier_list vc = true.
Proof using.
  induction vcs as [|vc vcs IH]; cbn [requireReferences]; intros Hr vc' Hin; [by apply elem_of_nil in Hin|].
  destruct (negb _ && negb _) eqn:E; [done|]; apply elem_of_cons in Hin as [->|Hin]; [|by apply IH].
  apply andb_false_iff in E as [E%negb_false_iff|E%negb_false_iff]; [left|by right].
  destruct (CredentialStatus.StatusListRef vc) as [[found|]|]; try done; by exists found.
Qed.

Lemma require_valid_loop_ok p vcs : require_valid_loop p vcs = Ok tt -> forall vc, vc ∈ vcs -> CredentialStatus.requireValid p vc = true.
Proof using.
  induction vcs as [|vc vcs IH]; cbn [require_valid_loop]; intros Hr vc' Hin; [by apply elem_of_nil in Hin|].
  destruct (CredentialStatus.requireValid p vc) eqn:E; [|done]; apply elem_of_cons in Hin as [->|Hin]; [done|by apply IH].
Qed.

(** What a Checker's roots, and the policy its options hold a signer to, make
    trusted for an identifier list: the certificate its status names, any leaf
    under it; or the roots, and beside the leaf policy, with neither a certificate
    nor a path, the signers UnboundSigner accepts, or else those a path of which
    passes through the document signer's CA. *)
Definition held_to (accepted : Certificate -> list (list Certificate) -> Prop) (lp : option policy) (p : option policy) : Prop :=
  exists q, p = Some q /\ forall leaf chains, q leaf chains = true <-> accepted leaf chains /\ forall l, lp = Some l -> l leaf chains = true.

Definition id_trust (c : IdChecker) (ref : IdentifierListRef) (path : list (option Certificate)) (pool : CertPool) (p : option policy) : Prop :=
  let o := ick_Options c in
  (il_Certificate ref <> [] /\ exists cert, ParseCertificate (il_Certificate ref) = Some cert /\ pool = pool_of [cert] /\ p = io_LeafPolicy o) \/
  (il_Certificate ref = [] /\ ick_Roots c = Some pool /\
    ((path = [] /\ exists u, io_UnboundSigner o = Some u /\ held_to (fun leaf chains => u leaf chains = true) (io_LeafPolicy o) p) \/
     exists ds issuer, ds_path path ds issuer /\ held_to (fun _ chains => through_ca ds issuer chains) (io_LeafPolicy o) p)).

Lemma both_held u lp accepted : (forall leaf chains, u leaf chains = true <-> accepted leaf chains) -> held_to accepted lp (BothPolicies (Some u) lp).
Proof using.
  intros Hu; destruct lp as [l|]; cbn [BothPolicies]; eexists; (split; [reflexivity|]); intros leaf chains.
  - rewrite andb_true_iff, Hu; split; [intros [? ?]; split; [done|by intros ? [= <-]]|intros [? Hl]; split; [done|by apply Hl]].
  - rewrite Hu; split; [intros ?; by split|by intros [? _]].
Qed.

Definition same_policy (p q : option policy) : Prop :=
  p = q \/ exists u v, p = Some u /\ q = Some v /\ forall leaf chains, u leaf chains = v leaf chains.

Lemma held_same accepted lp p q : held_to accepted lp p -> held_to accepted lp q -> same_policy p q.
Proof using.
  intros (u & -> & Hu) (v & -> & Hv); right; exists u, v; split_and!; try done.
  intros leaf chains; apply eq_iff_eq_true; by rewrite Hu, Hv.
Qed.

Lemma trusted_same p q ders roots rev now' clock : same_policy p q ->
  VerifyTrustedChainsAt ders roots p rev now' clock = VerifyTrustedChainsAt ders roots q rev now' clock.
Proof using.
  intros [->|(u & v & -> & -> & He)]; [done|]; unfold VerifyTrustedChainsAt, ApprovedChains.
  destruct (VerifyChainsAt ders roots now') as [[leaf chains]|]; cbn [res_bind]; [|done]; rewrite He; destruct (v leaf chains); [|done]; cbn [negb].
  by rewrite (filter_ext _ (fun chain => v leaf [chain])).
Qed.

Lemma boundSigner_ok c ref path roots p : boundSigner (ick_Roots c) ref path (ick_Options c) = Ok (roots, p) ->
  il_ID ref <> [] /\ il_URI ref <> EmptyString /\ exists pool, roots = Some pool /\ id_trust c ref path pool p.
Proof using.
  unfold boundSigner, Ref_validate; destruct (Z.eqb_spec (blen (il_ID ref)) 0) as [|Hi]; [done|]; destruct (String.eqb_spec (il_URI ref) "") as [|Hu]; [done|].
  cbn [orb res_bind]; intros ([roots' p'] & Hs & Hr)%res_bind_ok; destruct roots' as [pool|]; cbn [is_Some_b negb] in Hr; [injection Hr as <- <-|done].
  split_and!; [by intros E; rewrite E in Hi|done|]; exists pool; split; [done|].
  unfold id_signerTrust, id_trust in *; destruct ((blen (il_Certificate ref) =? 0) && (blen path =? 0)) eqn:E0.
  - apply andb_true_iff in E0 as [Ec%Z.eqb_eq%blen_zero E0%Z.eqb_eq%blen_zero]; destruct (io_UnboundSigner (ick_Options c)) as [u|]; [|done].
    injection Hs as -> <-; right; split_and!; try done; left; split; [done|]; exists u; split; [done|by apply both_held].
  - apply res_bind_ok in Hs as (trust & Ht%res_map_err_ok & Hs); apply revocationListTrust_ok in Ht as [(Hc & cert & Hcert & ->)|(Hc & ds & issuer & Hds & ->)];
      cbn [sst_Roots sst_LeafPolicy] in Hs; injection Hs as Hs <-.
    + subst pool; left; split; [done|]; by exists cert.
    + right; split_and!; try done; right; exists ds, issuer; split; [done|]; apply both_held; intros; apply passes_through_ok.
Qed.

Lemma id_trust_bound c ref path pool p : il_ID ref <> [] -> il_URI ref <> EmptyString -> id_trust c ref path pool p ->
  exists q, boundSigner (ick_Roots c) ref path (ick_Options c) = Ok (Some pool, q) /\ same_policy q p.
Proof using.
  intros Hi Hu Ht; unfold boundSigner, Ref_validate; rewrite (proj2 (blen_not_nil _) Hi), (proj2 (String.eqb_neq _ _) Hu); cbn [orb res_bind].
  unfold id_signerTrust, id_trust in *; destruct Ht as [(Hc & cert & Hp & -> & ->)|(Hc & Hr & [(-> & u & Hu' & Hh)|(ds & issuer & Hds & Hh)])].
  - rewrite (proj2 (blen_not_nil _) Hc); cbn [andb]; assert (Ht : revocationListTrust (il_Certificate ref) path = Ok {| sst_Roots := Some (pool_of [cert]); sst_LeafPolicy := None |})
      by (apply revocationListTrust_ok; left; split; [done|by exists cert]).
    unfold IdentifierListTrust; cbn [il_Certificate]; rewrite Ht; cbn; eexists; by split; [|left].
  - rewrite Hc, Hu'; cbn; rewrite Hr; cbn; eexists; split; [done|]; eapply held_same; [|exact Hh]; by apply both_held.
  - rewrite Hc; assert (Ht : revocationListTrust [] path = Ok {| sst_Roots := None; sst_LeafPolicy := Some (passes_through (signed_by ds issuer)) |})
      by (apply revocationListTrust_ok; right; split; [done|by exists ds, issuer]).
    assert (Hp : blen path =? 0 = false) by (destruct Hds as [[-> _]|(? & ? & -> & _)]; by apply blen_not_nil).
    rewrite Hp, andb_false_r; unfold IdentifierListTrust; cbn [il_Certificate]; rewrite Ht; cbn [res_map_err res_bind sst_Roots sst_LeafPolicy]; rewrite Hr; cbn.
    eexists; split; [done|]; eapply held_same; [|exact Hh]; apply both_held; intros; apply passes_through_ok.
Qed.

(** A token that says a reference is valid: of the list's URI, within the
    Checker's limit, trusted at its instant under its leaf policy and revocation,
    fresh by its ages, and 0 at the index. *)
Definition served_valid (clock : Z) (c : ListChecker) (ref : ListRef) (cwt : bool) (m : tokenMemo) (roots : option CertPool) (leaf : Certificate)
    (good : list (list Certificate)) : Prop :=
  let o := Options c in
  exists token limit p, ListFetch.Fetch (checker_fetcher c) (lr_URI ref) (media_type cwt) = Ok token /\ m_cwt m = cwt /\ made token m /\
    maxTokenBytes (checker_options c cwt) = Ok limit /\ blen token <= limit /\ (cwt = true -> m_chainProtected m = true) /\
    VerifyTrustedChainsAt (m_chain m) roots p (Revocation o) (now clock o) clock = Ok (leaf, good) /\
    (forall lp chain, LeafPolicy o = Some lp -> chain ∈ good -> lp leaf [chain] = true) /\
    fresh {| JwtDate.MaxAge := MaxAge o; JwtDate.MaxClockSkew := MaxClockSkew o; JwtDate.RequireExp := cwt || RequireExp o |}
      (Iat (claims (m_parsed m))) (Exp (claims (m_parsed m))) (nbf (m_parsed m)) (now clock o) /\
    Sub (claims (m_parsed m)) = lr_URI ref /\ entry (tc_StatusList (claims (m_parsed m))) (lr_Idx ref) StatusValid.

(** A reference's list, and who signed it. *)
Definition vouched_for (clock : Z) (c : ListChecker) (statusIssuers : option StatusIssuerPolicy) (vc : VerifiedCredential) (ref : ListRef) (cwt : bool) : Prop :=
  exists m roots leaf good, served_valid clock c ref cwt m roots leaf good /\
    if cwt then mdoc_signer true (Roots c) statusIssuers vc (status_certificate vc) roots leaf good
    else roots = Roots c /\ sdjwt_signer statusIssuers vc (iss (m_parsed m)) leaf good.

(** An identifier list that leaves a credential out, and who signed it. *)
Definition unlisted (clock : Z) (c : ListChecker) (statusIssuers : option StatusIssuerPolicy) (vc : VerifiedCredential) (ref : IdentifierListRef) : Prop :=
  let o := Options c in
  exists token parsed roots p limit leaf good alg protected unprotected raw,
    id_maxTokenBytes (ListFetch.f_MaxBytes (Fetcher c)) = Ok limit /\
    ListFetch.Fetch (if ListFetch.f_MaxBytes (Fetcher c) <=? 0 then with_max_bytes (Fetcher c) limit else Fetcher c) (il_URI ref) MediaType = Ok token /\
    blen token <= limit /\ VerifyTrustedChainsAt (X5Chain protected) roots p (Revocation o) (now clock o) clock = Ok (leaf, good) /\
    (forall lp chain, LeafPolicy o = Some lp -> chain ∈ good -> lp leaf [chain] = true) /\
    AlgForKey (cert_PublicKey leaf) = Ok alg /\ Cose.VerifyMax alg (cert_PublicKey leaf) token [] (blen token) = Ok (protected, unprotected, raw) /\
    (EqualFold (h_Typ protected) MediaType || EqualFold (h_Typ protected) BareTyp) = true /\ parseClaims raw = Ok parsed /\
    fresh {| JwtDate.MaxAge := MaxAge o; JwtDate.MaxClockSkew := MaxClockSkew o; JwtDate.RequireExp := true |}
      (ic_Iat (ip_claims parsed)) (ic_Exp (ip_claims parsed)) (ip_nbf parsed) (now clock o) /\
    ic_Sub (ip_claims parsed) = il_URI ref /\ il_ID ref ∉ Identifiers (ip_claims parsed) /\
    mdoc_signer false (Roots c) statusIssuers vc (il_Certificate ref) roots leaf good.

Lemma vouches_served clock c c' ref cwt token m leaf good : reads_as c c' cwt -> vouches clock c' ref cwt token m leaf good ->
  served_valid clock c ref cwt m (Roots c') leaf good.
Proof using.
  intros (Hf & Hn & Ha & Hs & He & Hl & Hr & Hm) (p & limit & G1 & G2 & G3 & Hp & G5 & G6 & G7 & G8 & _ & [_ G9] & _ & G10 & G11).
  unfold checker_fetcher, checker_limit in G1; rewrite Hf, Hm in G1; unfold maxTokenBytes, checker_options, checker_limit in G5; cbn [MaxTokenBytes with_limit] in G5; rewrite Hf, Hm in G5.
  exists token, limit, p; unfold now in *; rewrite Hn in *; rewrite Hr in G8; split_and!; try done.
  - intros lp chain Hlp Hin; rewrite <- Hl in Hlp; by apply (leaf_policy_paths _ _ _ _ _ _ _ _ _ _ chain Hp Hlp G8).
  - unfold window_of, checker_options in G9; cbn [MaxAge MaxClockSkew RequireExp Now with_limit] in G9; by rewrite Ha, Hs, He, Hn in G9.
Qed.

Lemma check_reference_ok clock c statusIssuers vc : Issuer (Options c) = EmptyString -> IssuerKey (Options c) = None ->
  check_reference clock c statusIssuers vc = Ok tt -> exists found, CredentialStatus.StatusListRef vc = Ok found /\
    forall ref cwt, found = Some (ref, cwt) -> vouched_for clock c statusIssuers vc ref cwt.
Proof using.
  intros Hi Hk; unfold check_reference; destruct (CredentialStatus.StatusListRef vc) as [[[ref cwt]|]|]; cbn [res_map_err res_bind]; intros Hr; try done;
    [|by exists None].
  exists (Some (ref, cwt)); split; [done|]; intros ? ? [= <- <-]; apply res_bind_ok in Hr as (c' & Hc & Hr%res_map_err_ok).
  apply RequireValid_vouches in Hr as (token & m & leaf & good & Hv); exists m, (Roots c'), leaf, good; destruct cwt.
  - split; [by eapply vouches_served; [eapply mdocStatusChecker_reads|]|by apply (mdocStatusChecker_ok c statusIssuers vc c' clock ref true token m)].
  - apply res_bind_ok in Hc as (o & Ho & [= <-]); split; [by eapply vouches_served; [eapply statusOptionsFor_reads|]|split; [done|]].
    by apply (statusOptionsFor_ok c statusIssuers vc o clock ref false token m).
Qed.

Lemma requireNotOnIdentifierList_ok clock c statusIssuers vc ref :
  requireNotOnIdentifierList clock c statusIssuers vc ref = Ok tt -> unlisted clock c statusIssuers vc ref.
Proof using.
  unfold requireNotOnIdentifierList, issuerPath, unlisted; destruct (parse_all _) as [path|] eqn:Ep; cbn [res_bind]; [|done]; apply parse_all_ok in Ep.
  intros Hr; assert (Hu : exists u, RequireNotRevoked clock (identifier_checker c u) ref (map Some path) = Ok tt /\
    (path = [] -> il_Certificate ref = [] -> exists q, statusIssuers = Some q /\ u = Some (unnamedStatusIssuer q))).
  { destruct ((blen path =? 0) && (blen (il_Certificate ref) =? 0)) eqn:E0.
    - destruct statusIssuers as [q|]; [|done]; apply res_map_err_ok in Hr; exists (Some (unnamedStatusIssuer q)); split; [done|by exists q].
    - apply res_map_err_ok in Hr; exists None; split; [done|]; intros -> Hc; by rewrite Hc in E0. }
  destruct Hu as (u & Hu & Hq); clear Hr; apply RequireNotRevoked_ok in Hu as (token & parsed & roots & leaf & good & p & limit & alg & pt & un & raw & Hl & Hf & Hz & Hb & Hv & Hrest).
  apply boundSigner_ok in Hb as (_ & _ & pool & -> & Ht); exists token, parsed, (Some pool), p, limit, leaf, good, alg, pt, un, raw.
  assert (Hgood : forall accepted, held_to accepted (LeafPolicy (Options c)) p -> forall chain, chain ∈ good ->
    accepted leaf [chain] /\ forall l, LeafPolicy (Options c) = Some l -> l leaf [chain] = true).
  { intros accepted (q & -> & Hh) chain Hin; apply Hh; by apply (trusted_paths _ _ _ _ _ _ _ _ _ Hv). }
  assert (Hsig : (forall lp chain, LeafPolicy (Options c) = Some lp -> chain ∈ good -> lp leaf [chain] = true) /\
    mdoc_signer false (Roots c) statusIssuers vc (il_Certificate ref) (Some pool) leaf good); [|by destruct Hsig; destruct Hrest as (? & ? & ? & ? & ? & ? & ?); split_and!].
  unfold mdoc_signer; destruct Ht as [(Hc & cert & Hcert & -> & ->)|(Hc & Hr & [(Hpath & u' & Hu' & Hh)|(ds & issuer & Hds & Hh)])].
  - split; [|left; split; [done|by exists cert]]; intros lp chain Hlp Hin; cbn in Hv; rewrite Hlp in Hv; by apply (trusted_paths _ _ _ _ _ _ _ _ _ Hv).
  - apply map_eq_nil in Hpath as ->; destruct (Hq eq_refl Hc) as (q & -> & ->); injection Hu' as <-.
    split; [intros lp chain Hlp Hin; by apply (Hgood _ Hh chain Hin)|]; right; split_and!; try done; exists []; split; [done|left; split; [done|]].
    intros chain Hin; exists q; split; [done|]; by destruct (Hgood _ Hh chain Hin) as [? _].
  - split; [intros lp chain Hlp Hin; by apply (Hgood _ Hh chain Hin)|]; right; split_and!; try done; exists path; split; [done|right].
    exists ds, issuer; split; [done|]; intros chain Hin; left; destruct (Hgood _ Hh chain Hin) as [(ch & cert & ->%list_elem_of_singleton & ? & ?) _]; by exists cert.
Qed.
End Vouched.

(** ** The theorems *)

Section Theorems.
Context `{Signatures} `{!CoseKeys} `{!CborLib} `{!JsonText} `{!X509} `{!TokenText} `{!IdCbor} `{!ListFetch.Http}.

(** C22: An mdoc is left out of its identifier list only so: RequireNotRevoked passes exactly when its reference is whole, and the URI its status names serves a token within the limit whose protected chain is trusted - to the certificate the status names, or, where it names none, to the Checker's roots, through the CA of the mdoc's document signer, or, with no path to read that of, by a signer UnboundSigner accepts; by the leaf policy and revocation in each case - and whose leaf signed it; of the media type, fresh and expiring, of that URI, and whose identifiers, of which the search finds all, do not hold this one. *)
Theorem RequireNotRevoked_exact clock c ref path :
  (RequireNotRevoked clock c ref path = Ok tt <->
   il_ID ref <> [] /\ il_URI ref <> EmptyString /\
   exists token parsed pool leaf good p limit alg protected unprotected raw, let o := ick_Options c in
     let max := if io_MaxTokenBytes o =? 0 then ListFetch.f_MaxBytes (ick_Fetcher c) else io_MaxTokenBytes o in
     id_maxTokenBytes max = Ok limit /\
     ListFetch.Fetch (if ListFetch.f_MaxBytes (ick_Fetcher c) <=? 0 then with_max_bytes (ick_Fetcher c) limit else ick_Fetcher c) (il_URI ref) MediaType = Ok token /\
     blen token <= limit /\ id_trust c ref path pool p /\
     VerifyTrustedChainsAt (X5Chain protected) (Some pool) p (io_Revocation o) (id_now clock o) clock = Ok (leaf, good) /\
     AlgForKey (cert_PublicKey leaf) = Ok alg /\ Cose.VerifyMax alg (cert_PublicKey leaf) token [] (blen token) = Ok (protected, unprotected, raw) /\
     (EqualFold (h_Typ protected) MediaType || EqualFold (h_Typ protected) BareTyp) = true /\ parseClaims raw = Ok parsed /\
     fresh {| JwtDate.MaxAge := io_MaxAge o; JwtDate.MaxClockSkew := io_MaxClockSkew o; JwtDate.RequireExp := true |}
       (ic_Iat (ip_claims parsed)) (ic_Exp (ip_claims parsed)) (ip_nbf parsed) (id_now clock o) /\
     ic_Sub (ip_claims parsed) = il_URI ref /\ il_ID ref ∉ Identifiers (ip_claims parsed)) /\
  forall raw parsed id, parseClaims raw = Ok parsed -> listed (ip_claims parsed) id = Contains (ip_claims parsed) id.
Proof using.
  split.
  - rewrite RequireNotRevoked_ok; split.
    + intros (token & parsed & roots & leaf & good & p & limit & alg & pt & un & raw & Hl & Hf & Hz & (Hi & Hu & pool & -> & Ht)%boundSigner_ok & Hrest).
      split_and!; [done|done|]; by exists token, parsed, pool, leaf, good, p, limit, alg, pt, un, raw.
    + intros (Hi & Hu & token & parsed & pool & leaf & good & p & limit & alg & pt & un & raw & Hl & Hf & Hz & Ht & Hv & Hrest).
      destruct (id_trust_bound _ _ _ _ _ Hi Hu Ht) as (q & Hb & Hs); exists token, parsed, (Some pool), leaf, good, q, limit, alg, pt, un, raw.
      rewrite (trusted_same q p) by done; destruct Hrest as (? & ? & ? & ? & ? & ? & ?); by split_and!.
  - intros raw parsed id Hp; apply eq_iff_eq_true; rewrite (listed_member raw) by done; unfold Contains; rewrite existsb_exists; split.
    + intros Hin; exists id; split; [by apply list_elem_of_In|by apply bool_decide_eq_true].
    + intros (id' & Hin & ->%bool_decide_eq_true); by apply list_elem_of_In.
Qed.

(** The entry a status claim names: of a list's URI, at a whole index that a double holds exactly. *)
Definition names_entry (status : list (string * goval)) (ref : ListRef) : Prop :=
  exists m f, member "status_list" status = Some (VObject m) /\ member "idx" m = Some (VFloat f) /\
    float_integral f = true /\ SFltb f (S754_zero false) = false /\ SFltb (float_of_int (2 ^ 53)) f = false /\ lr_Idx ref = int_of_float f /\
    member "uri" m = Some (VString (lr_URI ref)) /\ lr_URI ref <> EmptyString.

Lemma ParseStatusClaim_ok status ref : ParseStatusClaim status = Ok ref -> names_entry status ref.
Proof using.
  unfold ParseStatusClaim, names_entry; destruct (member "status_list" status) as [[]|]; try done; destruct (member "idx" _) as [[]|] eqn:Ei; try done.
  destruct (SFltb _ (S754_zero false)) eqn:E1, (SFltb (float_of_int (2 ^ 53)) _) eqn:E2, (float_integral _) eqn:E3; try done; cbn [orb negb].
  destruct (member "uri" _) as [[]|] eqn:Eu; try done; destruct (String.eqb_spec s "") as [|]; [done|]; intros [= <-]; cbn [lr_Idx lr_URI]; eauto 12.
Qed.

Lemma checked_references clock c statusIssuers vc : Issuer (Options c) = EmptyString -> IssuerKey (Options c) = None ->
  requireValid clock c statusIssuers vc = Ok tt ->
  (forall status, MdocStatus vc = Some status -> (is_Some (StatusList status) \/ is_Some (IdentifierList status)) /\
    (forall ref, IdentifierList status = Some ref -> unlisted clock c statusIssuers vc ref) /\
    (forall sl, StatusList status = Some sl -> vouched_for clock c statusIssuers vc {| lr_Idx := Mdoc.Idx sl; lr_URI := sl_URI sl |} true)) /\
  (MdocStatus vc = None -> forall v, member "status" (vc_Claims vc) = Some v ->
    exists status ref, v = VObject status /\ names_entry status ref /\ vouched_for clock c statusIssuers vc ref false).
Proof using.
  intros Hi Hk; unfold requireValid; destruct (MdocStatus vc) as [status|] eqn:Em.
  - intros Hr; split; [|done]; intros ? [= <-]; destruct (IdentifierList status) as [ref|] eqn:Ei.
    + apply res_bind_ok in Hr as ([] & Hn%requireNotOnIdentifierList_ok & Hr); split_and!; [by right; exists ref|by intros ? [= <-]|].
      intros sl Hs; rewrite Hs in Hr; cbn [is_Some_b negb] in Hr; apply check_reference_ok in Hr as (found & Hf & Hv); [|done|done].
      apply Hv; unfold CredentialStatus.StatusListRef in Hf; rewrite Em, Hs in Hf; by injection Hf as <-.
    + apply check_reference_ok in Hr as (found & Hf & Hv); [|done|done]; unfold CredentialStatus.StatusListRef in Hf; rewrite Em, Ei in Hf.
      destruct (StatusList status) as [sl|]; [|done]; injection Hf as <-; split_and!; [by left; exists sl|done|intros ? [= <-]; by apply Hv].
  - intros Hr; split; [done|]; intros _ v Hm; apply check_reference_ok in Hr as (found & Hf & Hv); [|done|done].
    unfold CredentialStatus.StatusListRef in Hf; rewrite Em, Hm in Hf; destruct v as [| | | | | |status| | | | |]; try done.
    apply res_bind_ok in Hf as (ref & Hp%res_map_err_ok%ParseStatusClaim_ok & [= <-]); exists status, ref; split_and!; [done|done|by apply Hv].
Qed.

(** C8: A StatusPolicy's answer is of credentials vouched for. For a Checker whose options name no Issuer or IssuerKey of their own: when it passes, a policy that requires a reference has a status of each credential; an mdoc's status names a list, its identifier list leaves it out and its status list's entry is VALID; an SD-JWT VC's status claim names an entry, which is VALID - each by a token of the list's own URI, within the Checker's limit, trusted and fresh at the Checker's own instant, by its ages, skew, leaf policy and revocation, and signed by one the credential's issuer allows: with the SD-JWT VC's issuer's key or name, to the certificate the mdoc's status names or through the CA of its document signer, or by a Status Issuer this policy accepts. *)
Theorem StatusPolicy_vouched clock c statusIssuers required vcs vc :
  Issuer (Options c) = EmptyString -> IssuerKey (Options c) = None ->
  StatusPolicy_Check (policy_of clock c statusIssuers required) vcs = Ok tt -> vc ∈ vcs ->
  (required = true -> is_Some (MdocStatus vc) \/ is_Some (member "status" (vc_Claims vc))) /\
  (forall status, MdocStatus vc = Some status -> (is_Some (StatusList status) \/ is_Some (IdentifierList status)) /\
    (forall ref, IdentifierList status = Some ref -> unlisted clock c statusIssuers vc ref) /\
    (forall sl, StatusList status = Some sl -> vouched_for clock c statusIssuers vc {| lr_Idx := Mdoc.Idx sl; lr_URI := sl_URI sl |} true)) /\
  (MdocStatus vc = None -> forall v, member "status" (vc_Claims vc) = Some v ->
    exists status ref, v = VObject status /\ names_entry status ref /\ vouched_for clock c statusIssuers vc ref false).
Proof using.
  intros Hi Hk ([] & Hq & Hl)%res_bind_ok Hin; apply (require_valid_loop_ok _ _ Hl) in Hin as Hv; cbn [policy_of CredentialStatus.requireValid RequireReference] in *.
  split; [|apply checked_references; [done|done|]; by destruct (requireValid clock c statusIssuers vc) as [[]|]].
  intros ->; destruct (requireReferences_ok vcs Hq vc Hin) as [(found & Hf)|Hf].
  - unfold CredentialStatus.StatusListRef in Hf; destruct (MdocStatus vc); [by left|right]; by destruct (member "status" (vc_Claims vc)).
  - unfold has_identifier_list in Hf; left; by destruct (MdocStatus vc).
Qed.

(** Options that name an issuer, or its key, leave the signer of an mdoc's list
    to that alone: no path is held to the CA that signed its document signer. *)
Lemma mdoc_named_issuer o u : Issuer o <> EmptyString \/ is_Some (IssuerKey o) -> signerPolicy (for_mdoc o u) = Ok (LeafPolicy o).
Proof using.
  unfold signerPolicy; cbn; destruct (String.eqb_spec (Issuer o) ""), (IssuerKey o); cbn; try done; by intros [?|[? ?]].
Qed.
End Theorems.

(** ** An SD-JWT VC whose list's first entry is valid *)

Module CheckExample.
Import CoseSigned StatusExample.

#[export] Instance id_cbor : IdCbor := {|
  marshal_id_payload := fun _ => None; unmarshal_id_claims := fun _ => Err ErrEOF; unmarshal_text := fun _ => Err ErrEOF;
  unmarshal_value := fun _ => Err ErrEOF; unmarshal_int64 := fun _ => Err ErrEOF; unmarshal_id_list := fun _ => Err ErrEOF |}.

#[export] Instance http : ListFetch.Http := ListFetch.FetchExample.world token.

Definition checker : ListChecker :=
  {| Fetcher := ListFetch.FetchExample.hardened; Roots := Some (tt : CertPool (X509 := x509)); Options := options (1900 * Second) EmptyString None |}.

Definition reference (idx : Z) : goval :=
  VObject [("status_list", VObject [("idx", VFloat (float_of_int idx)); ("uri", VString list_uri)])]%string.

Definition credential (idx : Z) : VerifiedCredential := {|
  CredentialQueryID := "pid"; vc_Claims := [("iss", VString "https://issuer.example"); ("status", reference idx)]%string;
  MdocStatus := None; IssuerChain := [[7]] |}.
End CheckExample.

Section Example.
Import CoseSigned StatusExample CheckExample.

Lemma StatusPolicy_vouched_witness :
  StatusPolicy_Check (policy_of 0 checker None true) [credential 0] = Ok tt /\
  is_ok (StatusPolicy_Check (policy_of 0 checker None true) [credential 0; credential 1]) = false /\
  vouched_for 0 checker None (credential 0) {| lr_Idx := 0; lr_URI := list_uri |} false.
Proof.
  assert (E : StatusPolicy_Check (policy_of 0 checker None true) [credential 0] = Ok tt) by (by vm_compute).
  split; [exact E|split; [by vm_compute|]].
  destruct (StatusPolicy_vouched 0 checker None true [credential 0] (credential 0) eq_refl eq_refl E ltac:(by apply list_elem_of_singleton))
    as (_ & _ & Hs); destruct (Hs eq_refl (reference 0) eq_refl) as (status & [idx uri] & [= <-] & (m & f & [= <-] & [= <-] & _ & _ & _ & Hidx & [= Huri] & _) & Hv).
  cbn in Hidx, Huri; by subst idx uri.
Defined.
End Example.
