(* ===== verification/Attestation.v ===== *)
(** * Attestations: [attestation]

    keyattestation.go, walletattestation.go and jwk.go: a key attestation, from
    the keys attested to what is verified of it, and a wallet attestation's own
    claims.  encoding/json's and [strictjson]'s between the wire claims and
    their text is the class [AttestationText]. *)
From S2P Require Import Prelude B64Url Json DcqlQuery Text JwtDate Jws X509 CertChain Hkdf Cose Mdoc Jwk.
From Stdlib Require Import SpecFloat.
#[local] Open Scope Z_scope.

Definition TypHeader : string := "key-attestation+jwt".
Definition WalletAttestationTypHeader : string := "oauth-client-attestation+jwt".

(** ISO 18045's levels are the strings a claim has. *)
Definition ISO18045High : string := "iso_18045_high".
Definition ISO18045Moderate : string := "iso_18045_moderate".
Definition ISO18045EnhancedBasic : string := "iso_18045_enhanced-basic".
Definition ISO18045Basic : string := "iso_18045_basic".

Record att_Header : Type := { ah_KeyID : string; ah_X5C : list string; ah_TrustChain : list string }.

(** A nil Status is none. *)
Record att_Claims : Type := {
  at_Issuer : string;
  at_IssuedAt : Z;
  at_ExpiresAt : option Z;
  at_AttestedKeys : list bytes;
  KeyStorage : list string;
  UserAuthentication : list string;
  at_Certification : string;
  at_Nonce : string;
  at_Status : option (list (string * goval))
}.

(** Parse's [in]: the wire claims, and the two times as the numbers they are. *)
Record att_wire : Type := { aw_claims : att_Claims; aw_IssuedAt : float; aw_ExpiresAt : option float }.

Record WalletAttestationExtraClaims : Type := { WalletName : string; WalletLink : string; wx_Status : option (list (string * goval)) }.

Inductive att_error : Type :=
| AttNoIssuedAt
| AttNoKeys
| AttX5CBase64 (i : Z)
| AttX5CParse (i : Z)
| AttX5CSigner
| AttX5CChain (e : chain_error)
| AttMarshal
| AttSign (e : jose_error)
| AttJWS (e : jose_error)
| AttUnmarshal
| AttIssuedAt (e : date_error)
| AttExpiresAt (e : date_error)
| AttTyp
| AttSignature (e : jose_error)
| AttNowRequired
| AttExpired
| AttNoExpiry
| AttNonce
| AttJWK (e : jwk_error)
| AttWalletIssuer
| AttWalletSubject
| AttWalletExpiry
| AttWalletOrder.

Section Attestation.
Context `{Signatures} `{!JsonText} `{!CoseKeys} `{!CborLib} `{!MdocCbor} `{!Curves} `{!X509} `{!JwkText}.

Record WalletAttestationClaims : Type := {
  wc_Issuer : string;
  wc_Subject : string;
  InstanceKey : PublicKey ec;
  wc_IssuedAt : Z;
  wc_ExpiresAt : Z;
  wc_NotBefore : Z;
  wc_Extra : WalletAttestationExtraClaims
}.

Class AttestationText : Type := {
  std_base64 : string -> option bytes;
  marshal_attestation : att_Claims -> option bytes;
  unmarshal_attestation : bytes -> option att_wire;
  marshal_wallet : WalletAttestationClaims -> bytes -> option bytes;   (* with the cnf's jwk *)
  unmarshal_wallet_extra : bytes -> option WalletAttestationExtraClaims;
  marshal_jwk : JWK -> option bytes
}.
Context `{!AttestationText}.

(** ** Keys *)

Definition marshalJWK (pub : PublicKey ec) : res att_error bytes :=
  let? k := res_map_err AttJWK (Marshal pub) in
  match marshal_jwk k with Some raw => Ok raw | None => Err AttMarshal end.

Definition AttestedKey (pub : PublicKey ec) : res att_error bytes := marshalJWK pub.

Definition matchesPublicKey (attestedKeyJSON : bytes) (pub : PublicKey ec) : res att_error bool :=
  res_map_err AttJWK (Matches attestedKeyJSON pub).

(** ** Issuing *)

Fixpoint parse_x5c (i : Z) (x5c : list string) : res att_error (list Certificate) :=
  match x5c with
  | [] => Ok []
  | b64 :: x5c =>
      match std_base64 b64 with
      | None => Err (AttX5CBase64 i)
      | Some der =>
          match ParseCertificate der with
          | None => Err (AttX5CParse i)
          | Some cert => let? certs := parse_x5c (i + 1) x5c in Ok (cert :: certs)
          end
      end
  end.

Definition checkX5C (h : att_Header) (s : signer) : res att_error unit :=
  match ah_X5C h with
  | [] => Ok tt
  | _ =>
      let? certs := parse_x5c 0 (ah_X5C h) in
      match certs with
      | [] => Ok tt
      | leaf :: intermediates =>
          if match Public s with OtherKey => true | pub => negb (key_Equal pub (cert_PublicKey leaf)) end then Err AttX5CSigner
          else res_map_err AttX5CChain (CheckPresentedChain leaf intermediates)
      end
  end.

Definition strings (l : list string) : goval := VArray (map VString l).

Definition joseHeader (typ : string) (h : att_Header) : list (string * goval) :=
  [("typ", VString typ)]%string ++
  (if String.eqb (ah_KeyID h) "" then [] else [("kid", VString (ah_KeyID h))]%string) ++
  match ah_X5C h with [] => [] | x5c => [("x5c", strings x5c)]%string end ++
  match ah_TrustChain h with [] => [] | chain => [("trust_chain", strings chain)]%string end.

Definition att_Issue (s : signer) (alg : string) (header : att_Header) (claims : att_Claims) : res att_error string :=
  if at_IssuedAt claims =? 0 then Err AttNoIssuedAt
  else if blen (at_AttestedKeys claims) =? 0 then Err AttNoKeys
  else
    let? _ := checkX5C header s in
    match marshal_attestation claims with
    | None => Err AttMarshal
    | Some payload => res_map_err AttSign (Jws.Sign alg s (joseHeader TypHeader header) payload)
    end.

(** ** Reading *)

Record KeyAttestation : Type := { a_header : list (string * goval); a_compact : string; a_claims : att_Claims }.

Definition with_times (c : att_Claims) (iat : Z) (exp : option Z) : att_Claims := {|
  at_Issuer := at_Issuer c; at_IssuedAt := iat; at_ExpiresAt := exp; at_AttestedKeys := at_AttestedKeys c; KeyStorage := KeyStorage c;
  UserAuthentication := UserAuthentication c; at_Certification := at_Certification c; at_Nonce := at_Nonce c; at_Status := at_Status c |}.

(** t.Unix(). *)
Definition Unix (t : Z) : Z := t / Second.

Definition Parse (compact : string) : res att_error KeyAttestation :=
  let? (header, payload) := res_map_err AttJWS (Jws.DecodeUnverified compact) in
  match unmarshal_attestation payload with
  | None => Err AttUnmarshal
  | Some w =>
      if SFeqb (aw_IssuedAt w) (S754_zero false) then Err AttNoIssuedAt
      else
        let? iat := res_map_err AttIssuedAt (FromFloat (aw_IssuedAt w)) in
        let? exp := match aw_ExpiresAt w with
          | None => Ok None
          | Some e => let? exp := res_map_err AttExpiresAt (FromFloat e) in Ok (Some (Unix exp))
          end in
        if blen (at_AttestedKeys (aw_claims w)) =? 0 then Err AttNoKeys
        else Ok {| a_header := header; a_compact := compact; a_claims := with_times (aw_claims w) (Unix iat) exp |}
  end.

Definition stringSlice (v : option goval) : list string :=
  match v with
  | Some (VArray raw) => omap (fun e => match e with VString s => Some s | _ => None end) raw
  | _ => []
  end.

Definition KeyAttestation_KeyID (a : KeyAttestation) : string := string_member "kid" (a_header a).
Definition KeyAttestation_Issuer (a : KeyAttestation) : string := at_Issuer (a_claims a).
Definition KeyAttestation_X5C (a : KeyAttestation) : list string := stringSlice (member "x5c" (a_header a)).
Definition KeyAttestation_TrustChain (a : KeyAttestation) : list string := stringSlice (member "trust_chain" (a_header a)).

Record att_VerifyOptions : Type := { av_Now : Z; av_ExpectedNonce : string; RequireExpiry : bool }.

(** VerifiedClaims: the claims, their times as instants. *)
Definition att_Verify (a : KeyAttestation) (pub : PublicKey ec) (alg : string) (opts : att_VerifyOptions) : res att_error att_Claims :=
  if negb (TypeIs (string_member "typ" (a_header a)) TypHeader) then Err AttTyp
  else
    let? _ := res_map_err AttSignature (Jws.Verify alg pub (a_compact a)) in
    let c := a_claims a in
    let? exp := match at_ExpiresAt c with
      | Some e =>
          let? t := res_map_err AttExpiresAt (FromUnix e) in
          if av_Now opts =? time_zero then Err AttNowRequired
          else if negb (av_Now opts <? t) then Err AttExpired else Ok (Some t)
      | None => if RequireExpiry opts then Err AttNoExpiry else Ok None
      end in
    if negb (String.eqb (av_ExpectedNonce opts) "") && negb (String.eqb (at_Nonce c) (av_ExpectedNonce opts)) then Err AttNonce
    else
      let? issuedAt := res_map_err AttIssuedAt (FromUnix (at_IssuedAt c)) in
      Ok (with_times c issuedAt exp).

(** Whether a verified attestation attests a key; one it cannot parse is no match. *)
Definition KeyAttested (v : att_Claims) (pub : PublicKey ec) : bool :=
  existsb (fun k => match matchesPublicKey k pub with Ok b => b | Err _ => false end) (at_AttestedKeys v).

(** ** Wallet attestations *)

Definition ParseWalletAttestationClaims (compact : string) : res att_error WalletAttestationExtraClaims :=
  let? (header, payload) := res_map_err AttJWS (Jws.DecodeUnverified compact) in
  if negb (TypeIs (string_member "typ" header) WalletAttestationTypHeader) then Err AttTyp
  else match unmarshal_wallet_extra payload with Some w => Ok w | None => Err AttUnmarshal end.

Definition IssueWalletAttestation (s : signer) (alg : string) (header : att_Header) (claims : WalletAttestationClaims) : res att_error string :=
  if String.eqb (wc_Issuer claims) "" then Err AttWalletIssuer
  else if String.eqb (wc_Subject claims) "" then Err AttWalletSubject
  else if wc_ExpiresAt claims =? 0 then Err AttWalletExpiry
  else if negb (wc_IssuedAt claims =? 0) && (wc_ExpiresAt claims <=? wc_IssuedAt claims) then Err AttWalletOrder
  else
    let? _ := checkX5C header s in
    let? instanceJWK := marshalJWK (InstanceKey claims) in
    match marshal_wallet claims instanceJWK with
    | None => Err AttMarshal
    | Some payload => res_map_err AttSign (Jws.Sign alg s (joseHeader WalletAttestationTypHeader header) payload)
    end.
End Attestation.
