(* ===== verification/VerifyResponse.v ===== *)
(** * Verifying an answer: [verifier]'s verify_response.go and issuer_authorization.go

    [VerifyResponse]: what must be configured, the presentations an answer has
    for each credential query, each one's verification by its format, the
    presentations discarded, and what is left of the query's options.  An
    interface's other implementations, and the functions a request is given,
    are the request's own; [clock] is time.Now, and a request's Now one
    instant. *)
From stdpp Require Import sorting.
From Stdlib Require Import Ascii QArith_base.
From S2P Require Import Prelude B64Url Json DcqlPath DcqlQuery DcqlMatch DcqlAnswered Text WebOrigin JwtDate Jws X509.
From S2P Require Import CertRevocation CertChain TrustedAuthorities Hkdf Cose Mdoc Oid4vpMdoc IssuerKeys Jwk SdJwt SdSelect.
From S2P Require Import SdVerify Reasons CredentialStatus.
#[local] Open Scope Z_scope.

Definition MaxPresentationsPerQuery : Z := 32.
Definition MaxAllowedClockSkew : Z := Hour.
Definition MaxAllowedKeyBindingAge : Z := Hour.

Inductive holder_error : Type :=
| HolderNoCNF
| HolderNoJWK
| HolderMarshal
| HolderParse (e : jwk_error)
| HolderAlg (e : keys_error).

(** A presentation's failure: the cause of an [Error]. *)
Inductive presentation_error : Type :=
| PresNone
| PresMultiple
| PresTooMany (n : Z)
| PresTwice
| PresTwoQueries (other query : string)
| PresParse (e : verify_error)
| PresIssuerJWT (e : jose_error)
| PresPayload
| PresIssuerKey (e : keys_error)
| PresHolderKey (e : holder_error)
| PresVerify (e : verify_error)
| PresClaims (e : match_error path_error)
| PresHash (e : sd_error)
| PresSelect (e : select_error)
| PresDigest (e : sd_error)
| PresUnrequested (names : list string)
| PresIssuerChain
| PresAuthorities
| PresBase64 (e : b64_error)
| PresDeviceResponse (e : response_error)
| PresIssuerAuth (e : cose_error)
| PresIssuerSigned (e : Mdoc.mdoc_error)
| PresDocumentSigner (e : keys_error)
| PresAuthType (t : Z)
| PresDeviceKey (e : keys_error)
| PresDeviceSignature (e : Mdoc.mdoc_error)
| PresKeyAuthorizations (e : Mdoc.mdoc_error)
| PresElements (e : match_error DcqlMatch.mdoc_error)
| PresUnauthorized
| PresNotAnswered (e : answered_error)
| PresOptionLost.

(** What is wrong with the request, or the deployment. *)
Inductive setup_error : Type :=
| SetupQuery (e : query_error)
| SetupNonce
| SetupOrigin (e : origin_error)
| SetupNotExpectedOrigin
| SetupKeyBindingAge
| SetupClockSkew
| SetupAuthorities (query : string)
| SetupUnverifiedAuthorities
| SetupIssuerKeys (e : keys_error)
| SetupKeySources (e : keys_error)
| SetupIssuerAuthorized
| SetupStatus (e : decision_error)
| SetupFormat (format : string)
| SetupNoIssuerKeys
| SetupNoMdocIssuerKeys
| SetupNoEncryptionKey
| SetupThumbprint (e : jwk_error)
| SetupTranscript (e : handover_error).

Inductive failure : Type :=
| Refused (reason : Reason) (cause : presentation_error)     (* *Error *)
| Setup (e : setup_error)
| StatusRefused (e : status_error)
| AcceptRefused.

(** errors.Is(err, errNotThisRequest). *)
Definition not_this_request (e : failure) : bool :=
  match e with
  | Refused _ (PresVerify e) => SdVerify.not_this_request e
  | Refused _ (PresDeviceSignature _) => true
  | _ => false
  end.

(** errors.Is(err, sdjwtvc.ErrKeyBinding). *)
Definition key_binding_error (e : verify_error) : bool := match e with ErrKeyBindingJWT _ => true | _ => false end.

Record IssuerAuthorization : Type := {
  ia_CredentialQueryID : string;
  ia_Format : string;
  Type' : string;
  AkaTypes : list string;
  RequestedTypes : list string;
  Issuer : string;
  ClaimedIssuer : string;
  MatchedTypes : list string;
  ia_IssuerChain : list bytes;
  ia_Claims : list (string * goval)
}.

Record DiscardedPresentation : Type := {
  d_CredentialQueryID : string;
  d_Code : Reason;
  d_Reason : string;
  d_Err : failure
}.

Record VerifyResponseResult : Type := { Credentials : list VerifiedCredential; Discarded : list DiscardedPresentation }.

Section VerifyResponse.
Context `{Signatures} `{!CoseKeys} `{!CborLib} `{!MdocCbor} `{!Curves} `{!X509} `{!ResponseCbor} `{!Codec} `{!JsonText} `{!JwkText}.
Context (std_base64 : string -> option bytes) (EqualFold : string -> string -> bool) (url_Parse : string -> option URL).
Context (Rat_SetString : string -> option Q) (json_any : bytes -> option goval).
Context (json_vct_values : bytes -> option (list string)) (json_doctype_value : bytes -> option string).

Record Verifier : Type := { clientID : string; cfg_ResponseURI : string; cfg_Assurance : AssuranceLevel }.

(** A dcql.TrustedAuthoritiesChecker: the package's own, or another by what it checks at an instant. *)
Inductive AuthoritiesChecker : Type :=
| AKIChecker (c : AKITrustedAuthoritiesChecker)
| OtherChecker (accepts : Z -> list TrustedAuthoritiesQuery -> list bytes -> bool).

Record VerifyResponseRequest : Type := {
  rq_Query : Query;
  VPToken : gmap string (list string);
  ExpectedNonce : string;
  rq_IssuerKeys : option SDJWTVCIssuerKeyResolver;
  Now : option Z;
  MaxClockSkew : Z;
  MaxKeyBindingAge : Z;
  MdocIssuerKeys : option MdocIssuerKeyResolver;
  TrustedAuthorities : option AuthoritiesChecker;
  IssuerAuthorized : option (IssuerAuthorization -> bool);
  AnyIssuerForAnyType : bool;
  DistinctCredentials : bool;
  rq_Status : option StatusPolicy;
  AllowUnrequestedClaims : bool;
  NoStatusCheck : bool;
  Accept : option (VerifyResponseResult -> bool);
  statusByTransactions : bool;
  ResponseEncryptionKey : option ecdsa_priv;
  rq_Origin : string;
  ExpectedOrigins : list string
}.

Context (clock : Z) (v : Verifier) (req : VerifyResponseRequest).

(** The instant of a check, and the one certificates are valid at: the zero time where Now is nil. *)
Definition now : Z := default clock (Now req).
Definition verificationTime : Z := default time_zero (Now req).

(** ** What must be configured *)

Definition guard (bad : bool) (e : setup_error) : res failure unit := if bad then Err (Setup e) else Ok tt.
Definition set_up {E A} (f : E -> setup_error) (m : res E A) : res failure A := res_map_err (fun e => Setup (f e)) m.

Definition checkMaxKeyBindingAgeRequired : res failure unit :=
  if 0 <? MaxKeyBindingAge req then Ok tt
  else guard (existsb (fun cq => String.eqb (cq_Format cq) formatSDJWTVC) (q_Credentials (rq_Query req))) SetupKeyBindingAge.

Definition checkTimeBounds : res failure unit :=
  if (MaxClockSkew req <? 0) || (MaxAllowedClockSkew <? MaxClockSkew req) then Err (Setup SetupClockSkew)
  else if (MaxKeyBindingAge req <? 0) || (MaxAllowedKeyBindingAge <? MaxKeyBindingAge req) then Err (Setup SetupKeyBindingAge)
  else Ok tt.

Definition isUnverifiedAKIChecker (c : AuthoritiesChecker) : bool :=
  match c with AKIChecker c => negb (is_Some_b (aki_Roots c)) && (blen (Anchors c) =? 0) | OtherChecker _ => false end.

Definition checkTrustedAuthoritiesConfigured : res failure unit :=
  check_each (fun _ cq =>
    if blen (cq_TrustedAuthorities cq) =? 0 then Ok tt
    else match TrustedAuthorities req with
    | None => Err (Setup (SetupAuthorities (cq_ID cq)))
    | Some c => guard (isUnverifiedAKIChecker c) SetupUnverifiedAuthorities
    end) 0 (q_Credentials (rq_Query req)).

Definition checkProductionDecisions : res failure unit :=
  guard (negb (is_Some_b (IssuerAuthorized req)) && negb (AnyIssuerForAnyType req)) SetupIssuerAuthorized.

(** VerifyResponse's checks before it looks at the answer. *)
Definition checkRequest : res failure unit :=
  let? _ := set_up SetupQuery (Query_Validate json_any json_vct_values json_doctype_value (rq_Query req)) in
  let? _ := guard (String.eqb (ExpectedNonce req) "") SetupNonce in
  let? _ := if String.eqb (rq_Origin req) "" then Ok tt else set_up SetupOrigin (WebOrigin.Check url_Parse (rq_Origin req)) in
  let? _ := guard (negb (String.eqb (rq_Origin req) "") && negb (existsb (String.eqb (rq_Origin req)) (ExpectedOrigins req))) SetupNotExpectedOrigin in
  let? _ := checkMaxKeyBindingAgeRequired in
  let? _ := checkTimeBounds in
  let? _ := checkTrustedAuthoritiesConfigured in
  let? _ := set_up SetupIssuerKeys (checkIssuerKeysValid (rq_IssuerKeys req) (MdocIssuerKeys req)) in
  let? _ :=
    if production (cfg_Assurance v) then
      let? _ := set_up SetupKeySources (checkProductionKeySources (rq_IssuerKeys req) (MdocIssuerKeys req)) in
      checkProductionDecisions
    else Ok tt in
  if statusByTransactions req then Ok tt
  else set_up SetupStatus (CheckStatusDecision (cfg_Assurance v) (rq_Status req) (NoStatusCheck req)).

(** ** SD-JWT VC presentations *)

Definition refuse {E A} (reason : Reason) (f : E -> presentation_error) (m : res E A) : res failure A :=
  res_map_err (fun e => Refused reason (f e)) m.

Definition expectedAudience (origin : string) : string := if String.eqb origin "" then clientID v else ("origin:" ++ origin)%string.

Definition holderPublicKeyFromCNF (cnf : option goval) : res holder_error (PublicKey ec * string) :=
  match cnf with
  | Some (VObject cnfObj) =>
      match member "jwk" cnfObj with
      | None => Err HolderNoJWK
      | Some rawJWK =>
          match marshal_any rawJWK with
          | None => Err HolderMarshal
          | Some jwkJSON =>
              let? pub := res_map_err HolderParse (ParsePublicKey jwkJSON) in
              let? alg := res_map_err HolderAlg (sdjwtvcAlgForKey pub) in
              Ok (pub, alg)
          end
      end
  | _ => Err HolderNoCNF
  end.

(** A claims path, with its indices and wildcards both every element. *)
Definition widened (p : Path) : list component := map (fun e => match e with PathKey k => Key k | _ => Every end) p.

Fixpoint requested_digests (hashAlg : string) (ds : list Disclosure) (requested : gset string) : res failure (gset string) :=
  match ds with
  | [] => Ok requested
  | d :: ds =>
      let? digest := refuse ReasonMalformed PresDigest (Digest hashAlg d) in
      requested_digests hashAlg ds ({[digest]} ∪ requested)
  end.

Fixpoint unrequested_names (hashAlg : string) (requested : gset string) (ds : list Disclosure) : res failure (list string) :=
  match ds with
  | [] => Ok []
  | d :: ds =>
      let? digest := refuse ReasonMalformed PresDigest (Digest hashAlg d) in
      let? names := unrequested_names hashAlg requested ds in
      Ok (if bool_decide (digest ∈ requested) then names
          else (if IsArrayElement d then "an array element" else Name d)%string :: names)
  end.

Definition checkRequestedDisclosures (cq : CredentialQuery) (payload : list (string * goval)) (disclosures : list Disclosure) : res failure unit :=
  let? hashAlg := refuse ReasonInvalidCredential PresHash (PayloadHashAlg payload DefaultHashAlg) in
  let paths := map (fun cl => widened (cl_Path cl)) (Claims cq) in
  let? selected := refuse ReasonNotAnswered PresSelect (SelectDisclosuresAt payload hashAlg disclosures paths) in
  let? requested := requested_digests hashAlg (map snd (map_to_list selected)) ∅ in
  let? unrequested := unrequested_names hashAlg requested disclosures in
  match unrequested with
  | [] => Ok tt
  | _ => Err (Refused ReasonUnrequestedClaims (PresUnrequested unrequested))
  end.

Definition checkAuthorities (cq : CredentialQuery) (chain : list bytes) : res failure unit :=
  if blen (cq_TrustedAuthorities cq) =? 0 then Ok tt
  else match TrustedAuthorities req with
  | None => Err (Setup (SetupAuthorities (cq_ID cq)))        (* checkTrustedAuthoritiesConfigured refused it *)
  | Some (AKIChecker c) =>
      refuse ReasonUntrustedIssuer (fun _ => PresAuthorities) (CheckTrustedAuthorities c verificationTime (cq_TrustedAuthorities cq) chain)
  | Some (OtherChecker accepts) =>
      if accepts verificationTime (cq_TrustedAuthorities cq) chain then Ok tt else Err (Refused ReasonUntrustedIssuer PresAuthorities)
  end.

(** The issuer's key and algorithm, and with the package's own resolver the paths verified. *)
Definition sdjwt_issuer (keys : SDJWTVCIssuerKeyResolver) (h payload : list (string * goval))
    : res failure (PublicKey ec * string * list (list Certificate)) :=
  match keys with
  | X5CKeys r => refuse ReasonUntrustedIssuer PresIssuerKey (resolveIssuerKeyAndChains std_base64 EqualFold clock verificationTime r h payload)
  | OtherSDJWTKeys o =>
      match other_ResolveIssuerKey o verificationTime h payload with
      | None => Err (Refused ReasonUntrustedIssuer (PresIssuerKey KeysOther))
      | Some (pub, alg) => Ok (pub, alg, [])
      end
  end.

Definition sdjwt_chain (keys : SDJWTVCIssuerKeyResolver) (h : list (string * goval)) (issuerPub : PublicKey ec) (issuerChains : list (list Certificate))
    : res failure (list bytes) :=
  match keys with
  | X5CKeys _ => Ok (verifiedPath issuerChains issuerPub)
  | OtherSDJWTKeys o =>
      match other_ResolveIssuerChains o with
      | Some resolve =>
          match resolve verificationTime h with
          | None => Err (Refused ReasonUntrustedIssuer PresIssuerChain)
          | Some chains => Ok (verifiedPath chains issuerPub)
          end
      | None => Ok (keyBoundChain (match X5CDERsFromHeader std_base64 h with Ok ders => ders | Err _ => [] end) issuerPub)
      end
  end.

(** The options Verify is called with; [holder] where a Key Binding JWT is required. *)
Definition sdjwt_options (holder : option (PublicKey ec * string)) : VerifyOptions := {|
  o_HashAlg := "";
  RequireKeyBinding := match holder with Some _ => KeyBindingRequired | None => KeyBindingNotRequired end;
  HolderPublicKey := fst <$> holder;
  KeyBindingAlg := match holder with Some (_, alg) => alg | None => "" end;
  o_ExpectedAudience := expectedAudience (rq_Origin req);
  o_ExpectedNonce := ExpectedNonce req;
  SdVerify.MaxKeyBindingAge := MaxKeyBindingAge req;
  o_MaxClockSkew := MaxClockSkew req;
  AcceptLegacyTyp := false
|}.

Definition verifySDJWTVCPresentation (cq : CredentialQuery) (compact : string) : res failure (list (string * goval) * list bytes) :=
  match rq_IssuerKeys req with
  | None => Err (Setup SetupNoIssuerKeys)
  | Some keys =>
      let? pres := refuse ReasonMalformed PresParse (Parse compact) in
      let? (h, rawPayload) := refuse ReasonMalformed PresIssuerJWT (Jws.DecodeUnverified (IssuerJWT pres)) in
      match unmarshal_object rawPayload with
      | None => Err (Refused ReasonMalformed PresPayload)
      | Some payload =>
          let? (issuerPub, issuerAlg, issuerChains) := sdjwt_issuer keys h payload in
          let cnf := member "cnf" payload in
          let? holder :=
            if RequiresCryptographicHolderBinding cq || is_Some_b cnf
            then let? holder := refuse ReasonHolderBinding PresHolderKey (holderPublicKeyFromCNF cnf) in Ok (Some holder)
            else Ok None in
          let? (claims, _) :=
            match SdVerify.Verify now compact issuerPub issuerAlg (sdjwt_options holder) with
            | Ok verified => Ok verified
            | Err e => Err (Refused (if key_binding_error e then ReasonHolderBinding else ReasonInvalidCredential) (PresVerify e))
            end in
          let? _ := refuse ReasonNotAnswered PresClaims (SatisfiedBySDJWTVCPresentation Rat_SetString json_vct_values cq claims) in
          let? _ := if AllowUnrequestedClaims req then Ok tt else checkRequestedDisclosures cq payload (Disclosures pres) in
          let? chain := sdjwt_chain keys h issuerPub issuerChains in
          let? _ := checkAuthorities cq chain in
          Ok (claims, chain)
      end
  end.

(** ** mdoc presentations *)

Definition requested_elements (cq : CredentialQuery) : list (string * string) := omap (fun cl => MdocNamespaceAndElement (cl_Path cl)) (Claims cq).

Definition unrequested_elements (cq : CredentialQuery) (disclosed : gmap string (gmap string goval)) : list string :=
  flat_map (fun '(namespace, elements) =>
    omap (fun '(element, _) => if bool_decide ((namespace, element) ∈ requested_elements cq) then None else Some (namespace ++ "/" ++ element)%string)
      (map_to_list elements)) (map_to_list disclosed).

Definition checkRequestedElements (cq : CredentialQuery) (disclosed : gmap string (gmap string goval)) : res failure unit :=
  match unrequested_elements cq disclosed with
  | [] => Ok tt
  | unrequested => Err (Refused ReasonUnrequestedClaims (PresUnrequested (merge_sort string_le unrequested)))
  end.

Definition buildMdocSessionTranscriptBytes (thumbprintBytes : bytes) : res handover_error bytes :=
  if negb (String.eqb (rq_Origin req) "")
  then BuildDCAPISessionTranscriptBytes
    {| Origin := rq_Origin req; dc_Nonce := ExpectedNonce req; dc_Thumbprint := Some thumbprintBytes; dc_ResponseIsUnencrypted := false |}
  else BuildSessionTranscriptBytes
    {| ClientID := clientID v; hp_Nonce := ExpectedNonce req; ResponseURI := cfg_ResponseURI v; hp_Thumbprint := Some thumbprintBytes;
       hp_ResponseIsUnencrypted := false |}.

(** An mdoc's claims: each namespace's elements, in the order the maps are ranged over. *)
Definition mdoc_claims (nameSpaces : gmap string (gmap string goval)) : list (string * goval) :=
  map (fun '(namespace, elements) => (namespace, VObject (map_to_list elements))) (map_to_list nameSpaces).

Definition verifyMdocPresentation (cq : CredentialQuery) (presented : string)
    : res failure (list (string * goval) * option Mdoc.Status * list bytes * bytes) :=
  match MdocIssuerKeys req, ResponseEncryptionKey req with
  | None, _ => Err (Setup SetupNoMdocIssuerKeys)
  | Some _, None => Err (Setup SetupNoEncryptionKey)
  | Some keys, Some key =>
      let? raw := refuse ReasonMalformed PresBase64 (RawURLEncoding_DecodeString (string_bytes presented)) in
      let? doc := refuse ReasonMalformed PresDeviceResponse (UnmarshalDeviceResponse raw) in
      let? (protected, unprotected, payload) := refuse ReasonMalformed PresIssuerAuth (Cose.DecodeUnverified (IssuerAuth (doc_IssuerSigned doc))) in
      let? issuer := refuse ReasonUntrustedIssuer PresIssuerKey
        (ResolveMdocIssuer clock verificationTime keys (X5ChainOf protected unprotected) (DocType doc)) in
      let? verified := refuse ReasonInvalidCredential PresIssuerSigned
        (Mdoc.Verify now (doc_IssuerSigned doc) (DocType doc) (mi_Key issuer) (mi_Alg issuer) (MaxClockSkew req)) in
      let? chain := refuse ReasonUntrustedIssuer PresDocumentSigner (MdocIssuer_Check clock verificationTime issuer verified) in
      let? thumbprintBytes := set_up SetupThumbprint (Thumbprint (priv_Public key)) in
      let? sessionTranscriptBytes := set_up SetupTranscript (buildMdocSessionTranscriptBytes thumbprintBytes) in
      if negb (AuthType (doc_DeviceSigned doc) =? DeviceAuthSignature) then Err (Refused ReasonHolderBinding (PresAuthType (AuthType (doc_DeviceSigned doc))))
      else
        let? deviceAlg := refuse ReasonHolderBinding PresDeviceKey (mdocAlgForKey (v_DeviceKey verified)) in
        let? _ := refuse ReasonHolderBinding PresDeviceSignature
          (VerifyDeviceSignature (doc_DeviceSigned doc) (v_DeviceKey verified) deviceAlg sessionTranscriptBytes (DocType doc)) in
        let? _ := refuse ReasonHolderBinding PresKeyAuthorizations
          (CheckKeyAuthorizations (ds_NameSpaces (doc_DeviceSigned doc)) (v_KeyAuthorizations verified)) in
        let? _ := refuse ReasonNotAnswered PresElements
          (SatisfiedByMdocClaims Rat_SetString json_doctype_value cq (v_DocType verified) (v_NameSpaces verified)) in
        let? _ := if AllowUnrequestedClaims req then Ok tt else checkRequestedElements cq (v_NameSpaces verified) in
        let? _ := checkAuthorities cq chain in
        Ok (mdoc_claims (v_NameSpaces verified), v_Status verified, chain, default [] payload)
  end.

(** ** The issuer's authorization *)

Fixpoint matched_types (requested ts matched : list string) : list string :=
  match ts with
  | [] => matched
  | t :: ts =>
      if negb (String.eqb t "") && existsb (String.eqb t) requested && negb (existsb (String.eqb t) matched)
      then matched_types requested ts (matched ++ [t])
      else matched_types requested ts matched
  end.

Definition setSDJWTVCTypes (cq : CredentialQuery) (claims : list (string * goval)) (chain : list bytes) : IssuerAuthorization :=
  let type := string_member "vct" claims in
  let claimed := string_member "iss" claims in
  let aka := match member "aka_vcts" claims with Some (VArray l) => omap (fun t => match t with VString s => Some s | _ => None end) l | _ => [] end in
  let requested := default [] (SDJWTVCMeta json_vct_values cq) in
  {| ia_CredentialQueryID := cq_ID cq; ia_Format := cq_Format cq; Type' := type; AkaTypes := aka; RequestedTypes := requested;
     Issuer := match rq_IssuerKeys req with Some keys => if BindsIssuerName keys then claimed else "" | None => "" end;
     ClaimedIssuer := claimed; MatchedTypes := matched_types requested (type :: aka) []; ia_IssuerChain := chain; ia_Claims := claims |}.

Definition mdoc_types (cq : CredentialQuery) (claims : list (string * goval)) (chain : list bytes) : IssuerAuthorization :=
  let types := match MdocMeta json_doctype_value cq with Some doctype => [doctype] | None => [] end in
  {| ia_CredentialQueryID := cq_ID cq; ia_Format := cq_Format cq; Type' := default EmptyString (head types); AkaTypes := []; RequestedTypes := types;
     Issuer := ""; ClaimedIssuer := ""; MatchedTypes := types; ia_IssuerChain := chain; ia_Claims := claims |}.

Definition authorizeIssuer (cq : CredentialQuery) (claims : list (string * goval)) (chain : list bytes) : res failure unit :=
  match IssuerAuthorized req with
  | None => Ok tt
  | Some authorized =>
      if authorized (if String.eqb (cq_Format cq) formatSDJWTVC then setSDJWTVCTypes cq claims chain else mdoc_types cq claims chain) then Ok tt
      else Err (Refused ReasonUntrustedIssuer PresUnauthorized)
  end.

(** ** A credential query's presentations *)

(** What identifies an SD-JWT VC: what its issuer signed. *)
Definition sdjwtvcSignedPart (compact : string) : bytes :=
  let issuerJWT := match cut "~"%char compact with Some (before, _) => before | None => compact end in
  string_bytes (match last_cut "."%char issuerJWT with Some (before, _) => before | None => issuerJWT end).

(** A presentation verified by its format, with what identifies its credential. *)
Definition verifyPresentation (cq : CredentialQuery) (presented : string) : res failure (VerifiedCredential * bytes) :=
  let verified claims status chain :=
    {| CredentialQueryID := cq_ID cq; vc_Claims := claims; MdocStatus := status; IssuerChain := chain |} in
  if String.eqb (cq_Format cq) formatSDJWTVC then
    let? (claims, chain) := verifySDJWTVCPresentation cq presented in
    let? _ := authorizeIssuer cq claims chain in
    Ok (verified claims None chain, sdjwtvcSignedPart presented)
  else if String.eqb (cq_Format cq) formatMdoc then
    let? (claims, status, chain, signed) := verifyMdocPresentation cq presented in
    let? _ := authorizeIssuer cq claims chain in
    Ok (verified claims status chain, signed)
  else Err (Setup (SetupFormat (cq_Format cq))).

(** The credentials a response has verified so far, by the hash of what identifies each: the query it answered. *)
Abbreviation seen_map := (gmap bytes string) (only parsing).

Definition discard (cq : CredentialQuery) (reason : Reason) (e : failure) : DiscardedPresentation :=
  {| d_CredentialQueryID := cq_ID cq; d_Code := reason; d_Reason := description reason; d_Err := e |}.

(** What the presentations of a query come to: those verified, those
    discarded, and the first's failure. *)
Record tally : Type := { t_seen : seen_map; t_verified : list VerifiedCredential; t_discarded : list DiscardedPresentation; t_first : option failure }.

Definition take_presentation (cq : CredentialQuery) (presented : string) (t : tally) : res failure tally :=
  match verifyPresentation cq presented with
  | Err e =>
      if not_this_request e then Err e
      else match e with
      | Refused reason _ =>
          Ok {| t_seen := t_seen t; t_verified := t_verified t; t_discarded := t_discarded t ++ [discard cq reason e];
                t_first := match t_first t with Some first => Some first | None => Some e end |}
      | _ => Err e
      end
  | Ok (vc, signed) =>
      let identity := Sum256 signed in
      let? _ :=
        match t_seen t !! identity with
        | Some other =>
            if String.eqb other (cq_ID cq) then Err (Refused ReasonMalformed PresTwice)
            else if DistinctCredentials req then Err (Refused ReasonMalformed (PresTwoQueries other (cq_ID cq)))
            else Ok tt
        | None => Ok tt
        end in
      Ok {| t_seen := <[identity := cq_ID cq]> (t_seen t); t_verified := t_verified t ++ [vc]; t_discarded := t_discarded t; t_first := t_first t |}
  end.

Fixpoint take_presentations (cq : CredentialQuery) (presentations : list string) (t : tally) : res failure tally :=
  match presentations with
  | [] => Ok t
  | presented :: presentations =>
      let? t := take_presentation cq presented t in
      take_presentations cq presentations t
  end.

(** The failure is the query's where nothing of it verified: a discardedError. *)
Definition verifyCredentialQuery (cq : CredentialQuery) (seen : seen_map)
    : res failure (list VerifiedCredential * list DiscardedPresentation * option failure * seen_map) :=
  let presentations := default [] (VPToken req !! cq_ID cq) in
  if blen presentations =? 0 then Err (Refused ReasonMalformed PresNone)
  else if (1 <? blen presentations) && negb (cq_Multiple cq) then Err (Refused ReasonMalformed PresMultiple)
  else if MaxPresentationsPerQuery <? blen presentations then Err (Refused ReasonMalformed (PresTooMany (blen presentations)))
  else
    let? t := take_presentations cq presentations {| t_seen := seen; t_verified := []; t_discarded := []; t_first := None |} in
    Ok (t_verified t, t_discarded t, match t_verified t with [] => t_first t | _ => None end, t_seen t).

(** ** The answer *)

Definition keep_option (verified : gmap string bool) (option : list string) (kept : gmap string bool) : gmap string bool :=
  if existsb (fun id => negb (is_answered verified id)) option then kept
  else fold_left (fun kept id => <[id := true]> kept) option kept.

Definition complete_options (q : Query) (verified : gmap string bool) : gmap string bool :=
  fold_left (fun kept set => fold_left (fun kept option => keep_option verified option kept) (cs_Options set) kept) (q_CredentialSets q) ∅.

Definition option_lost (vc : VerifiedCredential) : DiscardedPresentation :=
  {| d_CredentialQueryID := CredentialQueryID vc; d_Code := ReasonNotAnswered; d_Reason := description ReasonNotAnswered;
     d_Err := Refused ReasonNotAnswered PresOptionLost |}.

Definition keepCompleteOptions (q : Query) (result : VerifyResponseResult) (verified : gmap string bool) : VerifyResponseResult * gmap string bool :=
  let kept := complete_options q verified in
  let keeps vc := is_answered kept (CredentialQueryID vc) in
  ({| Credentials := List.filter keeps (Credentials result);
      Discarded := Discarded result ++ map option_lost (List.filter (fun vc => negb (keeps vc)) (Credentials result)) |}, kept).

(** The credential queries' presentations, in the query's order. *)
Record progress : Type := { p_result : VerifyResponseResult; p_verified : gmap string bool; p_seen : seen_map; p_first : option failure }.

Fixpoint verify_queries (cqs : list CredentialQuery) (p : progress) : res failure progress :=
  match cqs with
  | [] => Ok p
  | cq :: cqs =>
      if negb (is_Some_b (VPToken req !! cq_ID cq)) then verify_queries cqs p
      else
        let? (vcs, discarded, allFailed, seen) := verifyCredentialQuery cq (p_seen p) in
        verify_queries cqs
          {| p_result := {| Credentials := Credentials (p_result p) ++ vcs; Discarded := Discarded (p_result p) ++ discarded |};
             p_verified := <[cq_ID cq := 0 <? blen vcs]> (p_verified p); p_seen := seen;
             p_first := match p_first p with Some first => Some first | None => allFailed end |}
  end.

Definition no_result : VerifyResponseResult := {| Credentials := []; Discarded := [] |}.

(** What is left, where presentations were discarded. *)
Definition settle (p : progress) : res failure VerifyResponseResult :=
  let q := rq_Query req in
  if blen (Discarded (p_result p)) =? 0 then Ok (p_result p)
  else
    let '(result, verifiedIDs) :=
      if negb (is_ok (CheckAnswered q (p_verified p))) && (0 <? blen (q_CredentialSets q))
      then keepCompleteOptions q (p_result p) (p_verified p) else (p_result p, p_verified p) in
    match CheckAnswered q verifiedIDs with
    | Ok _ => Ok result
    | Err e => Err (match p_first p with Some first => first | None => Refused ReasonNotAnswered (PresNotAnswered e) end)
    end.

Definition accepted (result : VerifyResponseResult) : res failure VerifyResponseResult :=
  if statusByTransactions req then Ok result
  else
    let? _ := match rq_Status req with Some p => res_map_err StatusRefused (StatusPolicy_Check p (Credentials result)) | None => Ok tt end in
    match Accept req with
    | Some accept => if accept result then Ok result else Err AcceptRefused
    | None => Ok result
    end.

Definition VerifyResponse : res failure VerifyResponseResult :=
  let? _ := checkRequest in
  let q := rq_Query req in
  let? _ := refuse ReasonNotAnswered PresNotAnswered (CheckAnswered q ((fun _ => true) <$> VPToken req)) in
  let? p := verify_queries (q_Credentials q) {| p_result := no_result; p_verified := ∅; p_seen := ∅; p_first := None |} in
  let? result := settle p in
  accepted result.

End VerifyResponse.
