(* ===== verification/VerifiedResponse.v ===== *)
(** * What a verified answer is

    The theorems on [VerifyResponse]: what it reports of every presentation of
    an answer, that what is left answers the query, that no credential counts
    twice, and that each credential reported was presented for this request. *)
From Stdlib Require Import QArith_base Ascii.
From S2P Require Import Prelude B64Url Json DcqlPath DcqlQuery DcqlValid DcqlMatch DcqlAnswered Text WebOrigin JwtDate Jws X509.
From S2P Require Import CertRevocation CertChain TrustedAuthorities Hkdf Cose Mdoc MdocVerified Oid4vpMdoc IssuerKeys Jwk SdJwt.
From S2P Require Import SdSelect SdVerify SdVerified Reasons CredentialStatus VerifyResponse.
#[local] Open Scope Z_scope.

Lemma omap_app {A B} (f : A -> option B) (l k : list A) : omap f (l ++ k) = omap f l ++ omap f k.
Proof. induction l as [|x l IH]; [done|]; cbn; destruct (f x); cbn; by rewrite <- IH. Qed.

Lemma is_answered_insert (m : gmap string bool) k b id : is_answered (<[k := b]> m) id = if decide (id = k) then b else is_answered m id.
Proof. unfold is_answered; destruct (decide (id = k)) as [->|]; [by rewrite lookup_insert_eq|by rewrite lookup_insert_ne]. Qed.

(** ** Options verified in full *)

Definition complete (q : Query) (verified : string -> Prop) (id : string) : Prop :=
  exists set option, set ∈ q_CredentialSets q /\ option ∈ cs_Options set /\ id ∈ option /\ forall id', id' ∈ option -> verified id'.

Lemma keep_all option : forall kept id, is_answered (fold_left (fun kept id => <[id := true]> kept) option kept) id = true <->
  id ∈ option \/ is_answered kept id = true.
Proof.
  induction option as [|x option IH]; intros kept id; cbn; [split; [by right|by intros [?%elem_of_nil|]]|].
  rewrite IH, is_answered_insert, elem_of_cons; destruct (decide (id = x)); naive_solver.
Qed.

Lemma keep_option_ok verified option kept id : is_answered (keep_option verified option kept) id = true <->
  id ∈ option /\ (forall id', id' ∈ option -> is_answered verified id' = true) \/ is_answered kept id = true.
Proof.
  unfold keep_option; destruct (existsb _ option) eqn:E.
  - apply existsb_exists in E as (x & Hx%list_elem_of_In & Hn); split; [by right|]; intros [[_ Ha]|]; [|done]; by rewrite (Ha x Hx) in Hn.
  - rewrite keep_all; split; [intros [Hid|]; [left; split; [done|]|by right]|intros [[? _]|]; [by left|by right]].
    intros x Hx; apply existsb_false in E; rewrite Forall_forall in E; specialize (E x Hx); by apply negb_false_iff in E.
Qed.

Lemma complete_options_ok q verified id : is_answered (complete_options q verified) id = true <-> complete q (fun id => is_answered verified id = true) id.
Proof.
  assert (Hin : forall options kept, is_answered (fold_left (fun kept option => keep_option verified option kept) options kept) id = true <->
    (exists option, option ∈ options /\ id ∈ option /\ forall id', id' ∈ option -> is_answered verified id' = true) \/ is_answered kept id = true).
  { induction options as [|o options IH]; intros kept; cbn; [split; [by right|by intros [(? & ?%elem_of_nil & _)|]]|].
    rewrite IH, keep_option_ok; setoid_rewrite elem_of_cons; naive_solver. }
  assert (Hout : forall sets kept, is_answered (fold_left (fun kept set => fold_left (fun kept option => keep_option verified option kept) (cs_Options set) kept) sets kept) id = true <->
    (exists set option, set ∈ sets /\ option ∈ cs_Options set /\ id ∈ option /\ forall id', id' ∈ option -> is_answered verified id' = true) \/ is_answered kept id = true).
  { induction sets as [|set sets IH]; intros kept; cbn; [split; [by right|by intros [(? & ? & ?%elem_of_nil & _)|]]|].
    rewrite IH, Hin; setoid_rewrite elem_of_cons; naive_solver. }
  unfold complete_options, complete; rewrite Hout; split; [by intros [|]|by left].
Qed.

Lemma filter_all {A} (l : list A) : List.filter (fun _ => true) l = l.
Proof. induction l as [|x l IH]; cbn; [done|by rewrite IH]. Qed.

Lemma filter_none {A} (l : list A) : List.filter (fun _ => false) l = [].
Proof. induction l; done. Qed.

Lemma filter_kept (kept : string -> bool) (l : list VerifiedCredential) id :
  id ∈ CredentialQueryID <$> List.filter (fun vc => kept (CredentialQueryID vc)) l <-> kept id = true /\ id ∈ CredentialQueryID <$> l.
Proof.
  rewrite !list_elem_of_fmap; setoid_rewrite list_elem_of_In; setoid_rewrite filter_In; split.
  - intros (vc & -> & Hin & Hk); split; [done|by exists vc].
  - intros [Hk (vc & -> & Hin)]; by exists vc.
Qed.

Section Answer.
Context `{Signatures} `{!CoseKeys} `{!CborLib} `{!MdocCbor} `{!Curves} `{!X509} `{!ResponseCbor} `{!Codec} `{!JsonText} `{!JwkText}.
Context (std_base64 : string -> option bytes) (EqualFold : string -> string -> bool) (Rat_SetString : string -> option Q).
Context (json_vct_values : bytes -> option (list string)) (json_doctype_value : bytes -> option string).
Context (clock : Z) (v : Verifier) (req : VerifyResponseRequest).

Abbreviation verify cq p := (verifyPresentation std_base64 EqualFold Rat_SetString json_vct_values json_doctype_value clock v req cq p).

(** ** A query's presentations *)

(** What a presentation is reported as. *)
Definition verified_one (p : CredentialQuery * string) : option (VerifiedCredential * bytes) :=
  match verify p.1 p.2 with Ok x => Some x | Err _ => None end.

Definition discarded_one (p : CredentialQuery * string) : option DiscardedPresentation :=
  match verify p.1 p.2 with Err (Refused reason cause) => Some (discard p.1 reason (Refused reason cause)) | _ => None end.

(** A presentation whose failure leaves the rest of the answer. *)
Definition tolerated (p : CredentialQuery * string) : Prop :=
  forall e, verify p.1 p.2 = Err e -> not_this_request e = false /\ exists reason cause, e = Refused reason cause.

Definition first_failure (ps : list (CredentialQuery * string)) : option failure := d_Err <$> head (omap discarded_one ps).

Definition identities (ps : list (CredentialQuery * string)) : list bytes := map (fun x => Sum256 x.2) (omap verified_one ps).

Definition or_first (o o' : option failure) : option failure := match o with Some e => Some e | None => o' end.

(** The credentials seen, with those of a query's. *)
Definition seen_with (id : string) (l : list bytes) (seen : gmap bytes string) : gmap bytes string :=
  fold_left (fun seen identity => <[identity := id]> seen) l seen.

Lemma seen_with_lookup id l : forall seen x, seen_with id l seen !! x = if decide (x ∈ l) then Some id else seen !! x.
Proof using.
  induction l as [|y l IH]; intros seen x; cbn; [by rewrite decide_False by (by intros ?%elem_of_nil)|]; unfold seen_with in IH; rewrite IH.
  destruct (decide (x ∈ l)) as [Hin|Hin]; [rewrite decide_True by (by right); done|].
  destruct (decide (x = y)) as [->|Hne]; [rewrite lookup_insert_eq, decide_True by left; done|].
  rewrite lookup_insert_ne by done; rewrite decide_False; [done|]; by intros [|]%elem_of_cons.
Qed.

(** What came of the presentations of one query, from the credentials seen before. *)
Record taken (cq : CredentialQuery) (ps : list (CredentialQuery * string)) (t t' : tally) : Prop := {
  taken_tolerated : Forall tolerated ps;
  taken_verified : t_verified t' = t_verified t ++ (omap verified_one ps).*1;
  taken_discarded : t_discarded t' = t_discarded t ++ omap discarded_one ps;
  taken_first : t_first t' = or_first (t_first t) (first_failure ps);
  taken_seen : t_seen t' = seen_with (cq_ID cq) (identities ps) (t_seen t);
  taken_once : NoDup (identities ps) /\ forall x, x ∈ identities ps -> t_seen t !! x <> Some (cq_ID cq);
  taken_distinct : DistinctCredentials req = true -> forall x, x ∈ identities ps -> t_seen t !! x = None
}.

Lemma take_presentations_taken cq presentations : forall t t',
  take_presentations std_base64 EqualFold Rat_SetString json_vct_values json_doctype_value clock v req cq presentations t = Ok t' ->
  taken cq (map (pair cq) presentations) t t'.
Proof using.
  induction presentations as [|p ps IH]; intros t t'; cbn [take_presentations map].
  - intros [= <-]; split; cbn; rewrite ?app_nil_r; [constructor|done|done|by destruct (t_first t)|done|split; [constructor|by intros ? ?%elem_of_nil]|by intros _ ? ?%elem_of_nil].
  - intros (t1 & Hstep & Hrest)%res_bind_ok; apply IH in Hrest as [Ht Hv Hd Hf Hs [Hnd Hn] Hdist]; unfold take_presentation in Hstep.
    destruct (verify cq p) as [[vc signed]|e] eqn:E.
    + apply res_bind_ok in Hstep as ([] & Hseen & [= <-]); cbn [t_seen t_verified t_discarded t_first] in *.
      assert (Hone : verified_one (cq, p) = Some (vc, signed)) by (unfold verified_one; cbn; by rewrite E).
      assert (Hno : discarded_one (cq, p) = None) by (unfold discarded_one; cbn; by rewrite E).
      assert (Hid : identities ((cq, p) :: map (pair cq) ps) = Sum256 signed :: identities (map (pair cq) ps)).
      { unfold identities; cbn [omap list_omap]; by rewrite Hone. }
      assert (Hfresh : t_seen t !! Sum256 signed <> Some (cq_ID cq)).
      { intros Ex; rewrite Ex, String.eqb_refl in Hseen; done. }
      assert (Hnin : Sum256 signed ∉ identities (map (pair cq) ps)).
      { intros Hin; apply (Hn _ Hin); by rewrite lookup_insert_eq. }
      split; [|..|rewrite Hid|rewrite Hid].
      * constructor; [|done]; intros e; cbn; by rewrite E.
      * rewrite Hv; cbn [omap list_omap]; rewrite Hone; cbn; by rewrite <- app_assoc.
      * rewrite Hd; cbn [omap list_omap]; by rewrite Hno.
      * rewrite Hf; unfold first_failure; cbn [omap list_omap]; by rewrite Hno.
      * rewrite Hs, Hid; done.
      * split; [by constructor|]; intros x [->|Hin]%elem_of_cons; [done|]; intros Ex; apply (Hn x Hin).
        destruct (decide (Sum256 signed = x)) as [->|]; [by rewrite lookup_insert_eq|by rewrite lookup_insert_ne].
      * intros Hdd x [->|Hin]%elem_of_cons.
        -- destruct (t_seen t !! Sum256 signed) as [other|]; [|done]; rewrite Hdd in Hseen; by destruct (String.eqb _ _).
        -- specialize (Hdist Hdd x Hin); by apply lookup_insert_None in Hdist as [? _].
    + destruct (not_this_request e) eqn:En; [done|]; destruct e as [reason cause| | |]; try done; injection Hstep as <-; cbn [t_seen t_verified t_discarded t_first] in *.
      assert (Hone : verified_one (cq, p) = None) by (unfold verified_one; cbn; by rewrite E).
      assert (Hd1 : discarded_one (cq, p) = Some (discard cq reason (Refused reason cause))) by (unfold discarded_one; cbn; by rewrite E).
      assert (Hid : identities ((cq, p) :: map (pair cq) ps) = identities (map (pair cq) ps)) by (unfold identities; cbn [omap list_omap]; by rewrite Hone).
      split; [|..|by rewrite Hid|by rewrite Hid].
      * constructor; [|done]; intros e'; cbn; rewrite E; intros [= <-]; eauto.
      * rewrite Hv; cbn [omap list_omap]; by rewrite Hone.
      * rewrite Hd; cbn [omap list_omap]; rewrite Hd1; by rewrite <- app_assoc.
      * rewrite Hf; unfold first_failure; cbn [omap list_omap]; rewrite Hd1; cbn; by destruct (t_first t).
      * by rewrite Hs, Hid.
Qed.

(** ** An answer's presentations *)

(** Those of the credential queries answered, in the query's order and then the answer's. *)
Definition presentations (cqs : list CredentialQuery) : list (CredentialQuery * string) :=
  cqs ≫= fun cq => pair cq <$> default [] (VPToken req !! cq_ID cq).

Lemma presentations_cons cq cqs : presentations (cq :: cqs) = map (pair cq) (default [] (VPToken req !! cq_ID cq)) ++ presentations cqs.
Proof using. done. Qed.

Definition credential_key (x : VerifiedCredential * bytes) : string * bytes := (CredentialQueryID x.1, Sum256 x.2).

Lemma verified_one_id p x : verified_one p = Some x -> CredentialQueryID x.1 = cq_ID p.1.
Proof using.
  destruct p as [cq p], x as [vc signed]; unfold verified_one, verifyPresentation; cbn [fst snd]; destruct (String.eqb _ _).
  - destruct (verifySDJWTVCPresentation _ _ _ _ _ _ _ _ _) as [[claims chain]|]; cbn [res_bind]; [|done].
    destruct (authorizeIssuer _ _ _ _ _ _); cbn [res_bind]; [|done]; by intros [= <- _].
  - destruct (String.eqb _ _); [|done]; destruct (verifyMdocPresentation _ _ _ _ _ _) as [[[[claims st] chain] sg]|]; cbn [res_bind]; [|done].
    destruct (authorizeIssuer _ _ _ _ _ _); cbn [res_bind]; [|done]; by intros [= <- _].
Qed.

Lemma verified_ids cqs x : x ∈ omap verified_one (presentations cqs) -> CredentialQueryID x.1 ∈ cq_ID <$> cqs.
Proof using.
  intros ([cq p] & Hin & Hv)%list_elem_of_omap; rewrite (verified_one_id _ _ Hv); apply list_elem_of_fmap_2.
  unfold presentations in Hin; apply list_elem_of_bind in Hin as (cq' & Hp & Hc); by apply list_elem_of_fmap in Hp as (p' & [= -> ->] & _).
Qed.

(** What came of the queries' presentations. *)
Record answered_as (cqs : list CredentialQuery) (p p' : progress) : Prop := {
  as_tolerated : Forall tolerated (presentations cqs);
  as_credentials : Credentials (p_result p') = Credentials (p_result p) ++ (omap verified_one (presentations cqs)).*1;
  as_discarded : Discarded (p_result p') = Discarded (p_result p) ++ omap discarded_one (presentations cqs);
  as_verified : forall id, is_answered (p_verified p') id = true <->
    is_answered (p_verified p) id = true \/ exists x, x ∈ omap verified_one (presentations cqs) /\ CredentialQueryID x.1 = id;
  as_present : forall cq ps, cq ∈ cqs -> VPToken req !! cq_ID cq = Some ps ->
    ps <> [] /\ (cq_Multiple cq = false -> blen ps = 1) /\ blen ps <= MaxPresentationsPerQuery;
  as_once : NoDup (credential_key <$> omap verified_one (presentations cqs));
  as_distinct : DistinctCredentials req = true ->
    NoDup (identities (presentations cqs)) /\ forall x, x ∈ identities (presentations cqs) -> p_seen p !! x = None
}.

Lemma elem_verified ps x : x ∈ identities ps <-> exists y, y ∈ omap verified_one ps /\ Sum256 y.2 = x.
Proof using. unfold identities; rewrite list_elem_of_fmap; naive_solver. Qed.

Lemma identities_app ps qs : identities (ps ++ qs) = identities ps ++ identities qs.
Proof using. unfold identities; by rewrite omap_app, map_app. Qed.

Lemma NoDup_keys cq ps : Forall (fun p => p.1 = cq) ps -> NoDup (identities ps) -> NoDup (credential_key <$> omap verified_one ps).
Proof using.
  intros Hps; unfold identities; induction Hps as [|p ps Hp _ IH]; cbn; [constructor|]; destruct (verified_one p) as [x|] eqn:E; [|done].
  cbn; intros [Hn Hnd]%NoDup_cons; constructor; [|by apply IH]; intros (y & Hy & Hin)%list_elem_of_fmap; apply Hn; unfold credential_key in Hy; injection Hy as _ Hy.
  rewrite Hy; apply list_elem_of_fmap; eauto.
Qed.

Lemma verify_queries_answered cqs : NoDup (cq_ID <$> cqs) -> forall p p',
  (forall id, id ∈ cq_ID <$> cqs -> is_answered (p_verified p) id = false) ->
  verify_queries std_base64 EqualFold Rat_SetString json_vct_values json_doctype_value clock v req cqs p = Ok p' ->
  answered_as cqs p p'.
Proof using.
  induction cqs as [|cq cqs IH]; intros Hnd p p' Hfresh; cbn [verify_queries].
  - intros [= <-]; split; cbn; rewrite ?app_nil_r; [constructor|done|done| |by intros ? ? ?%elem_of_nil|constructor|intros _; split; [constructor|by intros ? ?%elem_of_nil]].
    intros id; split; [by left|]; by intros [?|(x & ?%elem_of_nil & _)].
  - apply NoDup_cons in Hnd as [Hcq Hnd]; destruct (VPToken req !! cq_ID cq) as [ps|] eqn:Ep; cbn [is_Some_b negb].
    2: { intros Hr; apply IH in Hr; [|done|intros id Hid; apply Hfresh; by right].
      assert (Hpe : presentations (cq :: cqs) = presentations cqs) by (rewrite presentations_cons, Ep; done).
      destruct Hr as [Ht Hc Hd Hv Hpr Ho Hds]; split; rewrite ?Hpe; try done; intros cq' ps' [->|Hin]%elem_of_cons; [by rewrite Ep|by apply Hpr]. }
    intros ([[[vcs discarded] allFailed] seen'] & Hq & Hr)%res_bind_ok; unfold verifyCredentialQuery in Hq; rewrite Ep in Hq; cbn [default from_option id] in Hq.
    destruct (Z.eqb_spec (blen ps) 0) as [|Hn0]; [done|]; destruct ((1 <? blen ps) && negb (cq_Multiple cq)) eqn:Emul; [done|].
    destruct (Z.ltb_spec MaxPresentationsPerQuery (blen ps)) as [|Hmax]; [done|].
    apply res_bind_ok in Hq as (t & Ht & [= <- <- _ <-]); apply take_presentations_taken in Ht as [Htol Htv Htd _ Hts [Hton _] Htdist]; cbn in Htv, Htd, Hts, Htdist.
    set (here := map (pair cq) ps) in *.
    assert (Hhere : Forall (fun p => p.1 = cq) here) by (apply Forall_fmap, Forall_true; done).
    assert (Hids : forall x, x ∈ omap verified_one here -> CredentialQueryID x.1 = cq_ID cq).
    { intros x (y & Hy & Hx)%list_elem_of_omap; rewrite (verified_one_id _ _ Hx); rewrite Forall_forall in Hhere; by rewrite (Hhere y Hy). }
    assert (Hlen : (0 <? blen (t_verified t)) = true <-> exists x, x ∈ omap verified_one here).
    { rewrite Htv; destruct (omap verified_one here) as [|x l]; cbn; [split; [done|by intros (x & ?%elem_of_nil)]|].
      split; [intros _; exists x; by left|intros _; apply Z.ltb_lt; rewrite blen_cons; pose proof (blen_nonneg l.*1); lia]. }
    apply IH in Hr as [Ht Hc Hd Hv Hpr Ho Hds]; [|done|]; cbn [p_result p_verified p_seen Credentials Discarded] in *.
    2: { intros id Hid; rewrite is_answered_insert, decide_False by (by intros ->); apply Hfresh; by right. }
    split; rewrite ?presentations_cons, ?Ep; cbn [default from_option id]; fold here.
    + apply Forall_app; by split.
    + rewrite Hc, Htv, omap_app, fmap_app; by rewrite <- app_assoc.
    + rewrite Hd, Htd, omap_app; by rewrite <- app_assoc.
    + intros id; rewrite Hv, omap_app; setoid_rewrite elem_of_app; rewrite is_answered_insert; destruct (decide (id = cq_ID cq)) as [->|Hne].
      * rewrite (Hfresh (cq_ID cq)) by (by left); rewrite Hlen.
        split; [intros [(x & Hx)|(x & Hx & Hid)]; right; exists x; (split; [by eauto|by eauto])|intros [?|(x & [Hx|Hx] & Hid)]; [done|left; eauto|right; eauto]].
      * split; [intros [?|(x & Hx & Hid)]; [by left|right; eauto]|].
        intros [?|(x & [Hx|Hx] & Hid)]; [by left| |right; eauto]; exfalso; apply Hne; by rewrite <- Hid, (Hids x Hx).
    + intros cq' ps' [->|Hin]%elem_of_cons Hps; [|by apply Hpr]; rewrite Ep in Hps; injection Hps as <-; split_and!; [by intros ->| |done].
      intros Hm; rewrite Hm, andb_true_r in Emul; pose proof (blen_nonneg ps); lia.
    + rewrite omap_app, fmap_app; apply NoDup_app; split_and!; [by apply (NoDup_keys cq)| |done].
      intros k (x & -> & Hx)%list_elem_of_fmap (y & Hxy & Hy)%list_elem_of_fmap; injection Hxy as Hxy _.
      apply verified_ids in Hy; rewrite <- Hxy, (Hids x Hx) in Hy; done.
    + intros Hdd; rewrite identities_app; specialize (Htdist Hdd); specialize (Hds Hdd) as [Hdn Hdf]; split.
      * apply NoDup_app; split_and!; [done| |done]; intros x Hx Hin; specialize (Hdf x Hin); rewrite Hts, seen_with_lookup, decide_True in Hdf; done.
      * intros x [Hx|Hx]%elem_of_app; [by apply Htdist|]; specialize (Hdf x Hx); rewrite Hts, seen_with_lookup in Hdf; by destruct (decide _).
Qed.

(** ** What is left *)

(** What of the credentials verified is reported: all of them, or those of the options verified in full. *)
Record outcome (result : VerifyResponseResult) (kept : string -> bool) : Prop := {
  out_credentials : Credentials result =
    List.filter (fun vc => kept (CredentialQueryID vc)) (omap verified_one (presentations (q_Credentials (rq_Query req)))).*1;
  out_discarded : Discarded result = omap discarded_one (presentations (q_Credentials (rq_Query req))) ++
    map option_lost (List.filter (fun vc => negb (kept (CredentialQueryID vc))) (omap verified_one (presentations (q_Credentials (rq_Query req)))).*1);
  out_kept : (forall id, kept id = true) \/
    omap discarded_one (presentations (q_Credentials (rq_Query req))) <> [] /\
    forall id, kept id = true <->
      complete (rq_Query req) (fun id => id ∈ CredentialQueryID <$> (omap verified_one (presentations (q_Credentials (rq_Query req)))).*1) id;
  out_answers : exists answered, answers_query (rq_Query req) answered /\
    forall id, is_answered answered id = true <-> id ∈ CredentialQueryID <$> Credentials result
}.

Lemma settle_outcome p result : CheckAnswered (rq_Query req) ((fun _ => true) <$> VPToken req) = Ok tt ->
  answered_as (q_Credentials (rq_Query req)) {| p_result := no_result; p_verified := ∅; p_seen := ∅; p_first := None |} p ->
  settle req p = Ok result -> exists kept, outcome result kept.
Proof using.
  intros Hans [Htol Hc Hd Hv Hpr _ _]; unfold settle; cbn [p_result p_verified no_result Credentials Discarded app] in Hc, Hd, Hv.
  assert (Hver : forall id, is_answered (p_verified p) id = true <-> id ∈ CredentialQueryID <$> (omap verified_one (presentations (q_Credentials (rq_Query req)))).*1).
  { intros id; rewrite Hv, list_elem_of_fmap; setoid_rewrite list_elem_of_fmap; split; [intros [?|(x & Hx & <-)]; [done|eauto]|intros (vc & -> & x & -> & Hx); eauto]. }
  assert (Hall : forall answered, CheckAnswered (rq_Query req) answered = Ok tt -> (forall id, is_answered answered id = true <-> is_answered (p_verified p) id = true) ->
    outcome (p_result p) (fun _ => true)).
  { intros answered Hok E; split; cbn [negb]; rewrite ?filter_all, ?filter_none; cbn; rewrite ?app_nil_r; [done|done|by left|].
    exists answered; split; [by apply CheckAnswered_answers|]; intros id; by rewrite E, Hver, Hc. }
  destruct (Z.eqb_spec (blen (Discarded (p_result p))) 0) as [E0|Hne].
  - intros [= <-]; exists (fun _ => true); apply (Hall _ Hans); apply blen_zero in E0; rewrite Hd in E0; intros id.
    pose proof (CheckAnswered_answers _ _ Hans) as [Hknown _]; unfold is_answered at 1; rewrite lookup_fmap; split.
    + intros Ha; destruct (VPToken req !! id) as [ps|] eqn:Ep; [|done].
      assert (Hid : id ∈ cq_ID <$> q_Credentials (rq_Query req)) by (apply Hknown; unfold is_answered; by rewrite lookup_fmap, Ep).
      apply list_elem_of_fmap in Hid as (cq & -> & Hcq); destruct (Hpr cq ps Hcq Ep) as (Hps & _ & _); destruct ps as [|q ps]; [done|].
      assert (Hin : (cq, q) ∈ presentations (q_Credentials (rq_Query req))).
      { unfold presentations; apply list_elem_of_bind; exists cq; split; [|done]; rewrite Ep; by left. }
      apply Hver, list_elem_of_fmap; destruct (verify cq q) as [x|e] eqn:Ex.
      * assert (Hone : verified_one (cq, q) = Some x) by (unfold verified_one; cbn; by rewrite Ex); exists x.1; split; [by rewrite (verified_one_id _ _ Hone)|].
        apply list_elem_of_fmap_2, list_elem_of_omap; eauto.
      * exfalso; rewrite Forall_forall in Htol; destruct (Htol _ Hin e Ex) as (_ & reason & cause & ->).
        assert (Hbad : discard cq reason (Refused reason cause) ∈ omap discarded_one (presentations (q_Credentials (rq_Query req)))).
        { apply list_elem_of_omap; exists (cq, q); split; [done|]; unfold discarded_one; cbn; by rewrite Ex. }
        rewrite E0 in Hbad; by apply elem_of_nil in Hbad.
    + intros Hid%Hver; apply list_elem_of_fmap in Hid as (vc & -> & Hvc); apply list_elem_of_fmap in Hvc as (x & -> & Hx).
      apply list_elem_of_omap in Hx as ([cq q] & Hin & Hx); rewrite (verified_one_id _ _ Hx); cbn.
      unfold presentations in Hin; apply list_elem_of_bind in Hin as (cq' & Hp & _); apply list_elem_of_fmap in Hp as (q' & [= -> ->] & Hq).
      destruct (VPToken req !! cq_ID cq'); [done|by apply elem_of_nil in Hq].
  - destruct (_ && _) eqn:Ek.
    + unfold keepCompleteOptions; destruct (CheckAnswered _ (complete_options _ _)) as [[]|] eqn:Ea; [|by destruct (p_first p)]; intros [= <-].
      exists (fun id => is_answered (complete_options (rq_Query req) (p_verified p)) id); split; cbn [Credentials Discarded]; rewrite ?Hc, ?Hd; [done|done| |].
      * right; split; [intros E; rewrite Hd, E in Hne; done|]; intros id; rewrite complete_options_ok; unfold complete; by setoid_rewrite Hver.
      * eexists; split; [by apply CheckAnswered_answers|]; intros id; rewrite filter_kept, <- Hver; split; [|tauto].
        intros Hid; split; [done|]; apply complete_options_ok in Hid as (set & option & _ & _ & Hin & Ho); by apply Ho.
    + destruct (CheckAnswered _ (p_verified p)) as [[]|] eqn:Ea; [|by destruct (p_first p)]; intros [= <-]; exists (fun _ => true); by apply (Hall (p_verified p)).
Qed.

End Answer.

(** ** The theorems *)

Section Response.
Context `{Signatures} `{!CoseKeys} `{!CborLib} `{!MdocCbor} `{!Curves} `{!X509} `{!ResponseCbor} `{!Codec} `{!JsonText} `{!JwkText}.
Context (std_base64 : string -> option bytes) (EqualFold : string -> string -> bool) (url_Parse : string -> option URL).
Context (Rat_SetString : string -> option Q) (json_any : bytes -> option goval).
Context (json_vct_values : bytes -> option (list string)) (json_doctype_value : bytes -> option string).
Context (clock : Z) (v : Verifier) (req : VerifyResponseRequest).

Abbreviation checkRequest := (checkRequest url_Parse json_any json_vct_values json_doctype_value v req).
Abbreviation VerifyResponse :=
  (VerifyResponse std_base64 EqualFold url_Parse Rat_SetString json_any json_vct_values json_doctype_value clock v req).
Abbreviation answered_as := (answered_as std_base64 EqualFold Rat_SetString json_vct_values json_doctype_value clock v req).

Lemma VerifyResponse_ok result : VerifyResponse = Ok result ->
  checkRequest = Ok tt /\ CheckAnswered (rq_Query req) ((fun _ => true) <$> VPToken req) = Ok tt /\
  (exists p, answered_as (q_Credentials (rq_Query req)) {| p_result := no_result; p_verified := ∅; p_seen := ∅; p_first := None |} p /\
     settle req p = Ok result) /\
  (statusByTransactions req = false -> (forall p, rq_Status req = Some p -> StatusPolicy_Check p (Credentials result) = Ok tt) /\
     forall accept, Accept req = Some accept -> accept result = true).
Proof using.
  unfold VerifyResponse.VerifyResponse; intros ([] & Hc & Hr)%res_bind_ok; apply res_bind_ok in Hr as ([] & Ha & Hr); apply res_map_err_ok in Ha.
  apply res_bind_ok in Hr as (p & Hq & Hr); apply res_bind_ok in Hr as (result' & Hs & Hr).
  assert (Hres : result' = result /\ (statusByTransactions req = false ->
    (forall p, rq_Status req = Some p -> StatusPolicy_Check p (Credentials result) = Ok tt) /\ forall accept, Accept req = Some accept -> accept result = true)).
  { unfold accepted in Hr; destruct (statusByTransactions req); [by injection Hr as <-|]; apply res_bind_ok in Hr as ([] & Hst & Hr).
    assert (E : result' = result) by (destruct (Accept req) as [accept|]; [destruct (accept result')|]; congruence); subst result'.
    split; [done|]; intros _; split; [intros pol Ep; rewrite Ep in Hst; by apply res_map_err_ok in Hst|].
    intros accept Ea; rewrite Ea in Hr; by destruct (accept result). }
  destruct Hres as [-> Hres]; split_and!; try done; exists p; split; [|done]; eapply verify_queries_answered; [| |exact Hq].
  - pose proof Hc as Hv; unfold VerifyResponse.checkRequest in Hv; apply res_bind_ok in Hv as ([] & Hv & _); apply res_map_err_ok in Hv.
    by apply Query_Validate_ok in Hv as (_ & _ & _ & Hnd & _).
  - done.
Qed.

(** C4: What VerifyResponse reports of an answer: every presentation, in the query's order, as a credential verified or as one discarded with its own failure - but for credentials of a credential set option that a discarded presentation left incomplete, which are discarded too, and with none discarded nothing is; and the credential queries of what is left are an answer to the query as CheckAnswered asks. *)
Theorem response_outcome result : VerifyResponse = Ok result ->
  exists kept, outcome std_base64 EqualFold Rat_SetString json_vct_values json_doctype_value clock v req result kept.
Proof using. intros (_ & Ha & (p & Hp & Hs) & _)%VerifyResponse_ok; by eapply settle_outcome. Qed.

(** C11: No credential counts twice: of the presentations of an accepted answer no two that verified for one credential query are of the same credential - the same signed part, whatever the holder varied around it - and under DistinctCredentials no two of the whole answer are; a query without multiple has one presentation, and none more than 32. *)
Theorem response_distinct result : VerifyResponse = Ok result ->
  let ps := presentations req (q_Credentials (rq_Query req)) in
  let verified := omap (verified_one std_base64 EqualFold Rat_SetString json_vct_values json_doctype_value clock v req) ps in
  Credentials result `sublist_of` verified.*1 /\ NoDup (credential_key <$> verified) /\
  (DistinctCredentials req = true -> NoDup ((fun x => Sum256 x.2) <$> verified)) /\
  forall cq presented, cq ∈ q_Credentials (rq_Query req) -> VPToken req !! cq_ID cq = Some presented ->
    presented <> [] /\ (cq_Multiple cq = false -> blen presented = 1) /\ blen presented <= MaxPresentationsPerQuery.
Proof using.
  intros (_ & Ha & (p & Hp & Hs) & _)%VerifyResponse_ok; destruct (settle_outcome _ _ _ _ _ _ _ _ _ _ Ha Hp Hs) as [kept [Hc _ _ _]].
  destruct Hp as [_ _ _ _ Hpr Ho Hd]; cbv zeta; split_and!; [|done|by apply Hd|done].
  rewrite Hc; clear; induction (omap _ _).*1 as [|x l IH]; cbn [List.filter]; [done|]; destruct (kept _); by constructor.
Qed.

End Response.
