(* ===== verification/BoundResponse.v ===== *)
(** * What a presentation verified is bound to

    A presentation [VerifyResponse] takes for an SD-JWT VC or an mdoc: the
    issuer's signature under a trusted key, the claims that are the issuer's,
    the holder's proof for this request alone, and no claim but those asked
    for; and an answer small enough to compute with, a PID as an SD-JWT VC and
    a driving licence, for the witnesses. *)
From Stdlib Require Import QArith_base Ascii.
From S2P Require Import Prelude Cbor B64Url Json DcqlPath DcqlQuery DcqlMatch DcqlAnswered Text WebOrigin JwtDate Jws X509 CertRevocation CertChain.
From S2P Require Import TrustedAuthorities Hkdf Cose Mdoc MdocVerified Oid4vpMdoc IssuerKeys Jwk SdJwt SdSelect SdVerify.
From S2P Require Import SdVerified Reasons CredentialStatus VerifyResponse VerifiedResponse.
#[local] Open Scope Z_scope.

Lemma DecodeUnverified_Verify `{Signatures} `{JsonText} alg pub compact header raw :
  Jws.Verify alg pub compact = Ok (header, raw) -> Jws.DecodeUnverified compact = Ok (header, raw).
Proof.
  unfold Jws.Verify, Jws.VerifyMax, Jws.DecodeUnverified, Jws.DecodeUnverifiedMax; destruct (_ <? _); [done|].
  intros ([[h p] s] & -> & Hv)%res_bind_ok; apply res_bind_ok in Hv as (hd & Hh & Hv); cbn [res_bind]; rewrite Hh; cbn [res_bind].
  destruct (negb _); [done|]; apply res_bind_ok in Hv as (pl & Hp & Hv); rewrite Hp; cbn [res_bind].
  apply res_bind_ok in Hv as (sg & _ & Hv); apply res_bind_ok in Hv as ([] & _ & [= <- <-]); done.
Qed.

Section Bound.
Context `{Signatures} `{!CoseKeys} `{!CborLib} `{!MdocCbor} `{!Curves} `{!X509} `{!ResponseCbor} `{!Codec} `{!JsonText} `{!JwkText} `{reads_law : !JsonReads}.
Context (std_base64 : string -> option bytes) (EqualFold : string -> string -> bool) (Rat_SetString : string -> option Q).
Context (json_vct_values : bytes -> option (list string)) (json_doctype_value : bytes -> option string).
Context (clock : Z) (v : Verifier) (req : VerifyResponseRequest).

(** ** SD-JWT VCs *)

(** Every disclosure has the digest of one the query's paths select. *)
Definition only_requested (cq : CredentialQuery) (payload : list (string * goval)) (disclosures : list Disclosure) : Prop :=
  exists hashAlg selected, PayloadHashAlg payload DefaultHashAlg = Ok hashAlg /\
    SelectDisclosuresAt payload hashAlg disclosures (map (fun cl => widened (cl_Path cl)) (Claims cq)) = Ok selected /\
    forall d, d ∈ disclosures -> exists s d' digest, selected !! s = Some d' /\ Digest hashAlg d = Ok digest /\ Digest hashAlg d' = Ok digest.

Lemma requested_digests_ok hashAlg ds : forall requested out, requested_digests hashAlg ds requested = Ok out ->
  forall s, s ∈ out -> s ∈ requested \/ exists d, d ∈ ds /\ Digest hashAlg d = Ok s.
Proof using.
  induction ds as [|d ds IH]; intros requested out; cbn [requested_digests]; [intros [= <-]; by left|].
  intros (digest & Hd & Hr)%res_bind_ok s Hs; apply res_map_err_ok in Hd; destruct (IH _ _ Hr s Hs) as [[->%elem_of_singleton|Hin]%elem_of_union|(d' & Hin & Hd')].
  - right; exists d; split; [by left|done].
  - by left.
  - right; exists d'; split; [by right|done].
Qed.

Lemma unrequested_names_nil hashAlg requested ds : unrequested_names hashAlg requested ds = Ok [] ->
  forall d, d ∈ ds -> exists s, Digest hashAlg d = Ok s /\ s ∈ requested.
Proof using.
  induction ds as [|d ds IH]; cbn [unrequested_names]; [by intros _ ? ?%elem_of_nil|].
  intros (s & Hs & Hr)%res_bind_ok; apply res_map_err_ok in Hs; apply res_bind_ok in Hr as (names & Hn & Hr); case_bool_decide as Hin; [|done].
  injection Hr as ->; intros d' [->|Hd]%elem_of_cons; [by exists s|by apply IH].
Qed.

Lemma checkRequestedDisclosures_ok cq payload ds : checkRequestedDisclosures cq payload ds = Ok tt -> only_requested cq payload ds.
Proof using.
  unfold checkRequestedDisclosures, only_requested; intros (hashAlg & Hh & Hr)%res_bind_ok; apply res_map_err_ok in Hh.
  apply res_bind_ok in Hr as (selected & Hs & Hr); apply res_map_err_ok in Hs; apply res_bind_ok in Hr as (requested & Hreq & Hr).
  apply res_bind_ok in Hr as (names & Hn & Hr); destruct names; [|done]; exists hashAlg, selected; split_and!; [done..|]; intros d Hd.
  destruct (unrequested_names_nil _ _ _ Hn d Hd) as (s & Hds & Hin); destruct (requested_digests_ok _ _ _ _ Hreq s Hin) as [?%elem_of_empty|(d' & Hd' & Hdd)]; [done|].
  apply list_elem_of_In, in_map_iff in Hd' as ([s' d''] & <- & Hin'); apply list_elem_of_In, elem_of_map_to_list in Hin'; by exists s', d'', s.
Qed.

(** The holder's proof: a Key Binding JWT signed by the key the credential
    names, for this request's audience and nonce, over the very text presented. *)
Definition proved_for (payload : list (string * goval)) (presented : string) : Prop :=
  exists hpub halg part kb hashAlg sdHash, holderPublicKeyFromCNF (member "cnf" payload) = Ok (hpub, halg) /\
    presented = ((part ++ "~") ++ kb)%string /\ absent "~" kb = true /\ hashString hashAlg (part ++ "~") = Ok sdHash /\
    bound (now clock req) hpub halg (expectedAudience v (rq_Origin req)) (ExpectedNonce req) sdHash (MaxKeyBindingAge req) kb.

Record sdjwt_bound (cq : CredentialQuery) (presented : string) (claims : list (string * goval)) (chain : list bytes) : Prop := {
  sb_issuer : exists keys pres h raw payload pub alg paths, rq_IssuerKeys req = Some keys /\ Parse presented = Ok pres /\
    sdjwt_issuer std_base64 EqualFold clock req keys h payload = Ok (pub, alg, paths) /\
    Jws.Verify alg pub (IssuerJWT pres) = Ok (h, raw) /\ unmarshal_object raw = Some payload /\
    (forall k, nonDisclosable k = true -> member k claims = member k payload) /\
    (RequiresCryptographicHolderBinding cq = true \/ is_Some (member "cnf" payload) -> proved_for payload presented) /\
    (AllowUnrequestedClaims req = false -> only_requested cq payload (Disclosures pres)) /\
    sdjwt_chain std_base64 req keys h pub paths = Ok chain;
  sb_window : in_window claims (now clock req) (MaxClockSkew req);
  sb_satisfied : SatisfiedBySDJWTVCPresentation Rat_SetString json_vct_values cq claims = Ok tt;
  sb_authorities : checkAuthorities req cq chain = Ok tt
}.

Lemma unmarshal_object_wf raw payload : unmarshal_object raw = Some payload -> map_wf (VObject payload).
Proof using reads_law.
  unfold unmarshal_object; destruct (unmarshal_any raw) as [w|] eqn:E; [|done]; apply unmarshal_any_law in E.
  destruct w; try done; intros [= <-]; [repeat constructor|done].
Qed.

Lemma sdjwt_presentation cq presented claims chain :
  verifySDJWTVCPresentation std_base64 EqualFold Rat_SetString json_vct_values clock v req cq presented = Ok (claims, chain) ->
  sdjwt_bound cq presented claims chain.
Proof using reads_law.
  unfold verifySDJWTVCPresentation; destruct (rq_IssuerKeys req) as [keys|] eqn:Ek; [|done].
  intros (pres & Hp & Hr)%res_bind_ok; apply res_map_err_ok in Hp; apply res_bind_ok in Hr as ([h raw] & Hd & Hr); apply res_map_err_ok in Hd.
  destruct (unmarshal_object raw) as [payload|] eqn:Eu; [|done]; apply res_bind_ok in Hr as ([[pub alg] paths] & Hi & Hr).
  apply res_bind_ok in Hr as (holder & Hh & Hr); apply res_bind_ok in Hr as ([claims' h'] & Hv & Hr).
  destruct (SdVerify.Verify _ _ _ _ _) as [[cs h'']|] eqn:Ev; [injection Hv as -> ->|done].
  apply res_bind_ok in Hr as ([] & Hs & Hr); apply res_map_err_ok in Hs; apply res_bind_ok in Hr as ([] & Hreq & Hr).
  apply res_bind_ok in Hr as (chain' & Hc & Hr); apply res_bind_ok in Hr as ([] & Ha & [= -> ->]).
  destruct (Verify_checked _ _ _ _ _ _ _ Ev) as (pres' & payload' & hashAlg & [Hp' (raw' & Hj & Hu') _ _ Hw _ Hreg Hsub Hres Hb]).
  rewrite Hp in Hp'; injection Hp' as <-; pose proof (DecodeUnverified_Verify _ _ _ _ _ Hj) as Hd'; rewrite Hd in Hd'; injection Hd' as <- <-.
  rewrite Eu in Hu'; injection Hu' as <-; pose proof (resolved_registered _ _ _ _ (unmarshal_object_wf _ _ Eu) Hreg Hsub Hres) as Hmem.
  split; [|unfold in_window; by rewrite !Hmem|done|done].
  exists keys, pres, h, raw, payload, pub, alg, paths; split_and!; try done.
  - intros Hbind; assert (Hreqd : RequiresCryptographicHolderBinding cq || is_Some_b (member "cnf" payload) = true).
    { apply orb_true_iff; destruct Hbind as [|[w ->]]; [by left|by right]. }
    rewrite Hreqd in Hh; apply res_bind_ok in Hh as ([hpub halg] & Hh & [= <-]); apply res_map_err_ok in Hh.
    apply Parse_SDJWT in Hp as (_ & Hkb & t & Ht & ->); unfold verifyKeyBindingIfRequired, SDHash in Hb; cbn [sdjwt_options RequireKeyBinding HolderPublicKey fst fmap option_fmap option_map] in Hb.
    rewrite Ht in Hb; cbn [res_bind] in Hb; destruct (hashString hashAlg _) as [sdHash|] eqn:Eh; cbn [res_map_err res_bind] in Hb; [|done].
    destruct (VerifyKeyBindingJWT _ _ _ _ _) as [cl|] eqn:Ekb; [|done]; apply VerifyKeyBindingJWT_bound in Ekb; cbn in Ekb.
    exists hpub, halg, t, (KeyBindingJWT pres), hashAlg, sdHash; by split_and!.
  - intros Hn; rewrite Hn in Hreq; by apply checkRequestedDisclosures_ok.
Qed.

(** ** mdocs *)

(** The device's proof: its signature, under the key the issuer signed, over a
    DeviceAuthentication of this request's session transcript. *)
Definition device_proved_for (doc : Document) (verified : VerifiedMSO) : Prop :=
  exists key thumbprintBytes transcript nameSpaces authBytes alg raw protected unprotected,
    ResponseEncryptionKey req = Some key /\ Thumbprint (priv_Public key) = Ok thumbprintBytes /\
    buildMdocSessionTranscriptBytes v req thumbprintBytes = Ok transcript /\
    deviceNameSpacesBytes (doc_DeviceSigned doc) = Ok nameSpaces /\
    deviceAuthenticationBytes transcript (DocType doc) nameSpaces = Ok authBytes /\
    mdocAlgForKey (v_DeviceKey verified) = Ok alg /\
    carried (DeviceAuth (doc_DeviceSigned doc)) sign1TagByte Cose.MaxBytes raw /\ Payload raw = None /\
    signed_by alg (v_DeviceKey verified) raw [] authBytes protected unprotected.

Record mdoc_bound (cq : CredentialQuery) (presented : string) (claims : list (string * goval)) (status : option Mdoc.Status) (chain : list bytes) (signed : bytes) : Prop := {
  mb_doc : exists keys raw doc protected unprotected issuer mso nameSpaces verified, MdocIssuerKeys req = Some keys /\
    RawURLEncoding_DecodeString (string_bytes presented) = Ok raw /\ UnmarshalDeviceResponse raw = Ok doc /\
    ResolveMdocIssuer clock (verificationTime req) keys (X5ChainOf protected unprotected) (DocType doc) = Ok issuer /\
    Cose.Verify (mi_Alg issuer) (mi_Key issuer) (IssuerAuth (doc_IssuerSigned doc)) [] = Ok (protected, unprotected, signed) /\
    unwrapTag24 unmarshal_mso signed = Ok mso /\ mso_DocType mso = DocType doc /\
    in_validity (now clock req) (MaxClockSkew req) (mso_ValidityInfo mso) /\
    all_attested (doc_IssuerSigned doc) mso nameSpaces /\ claims = mdoc_claims nameSpaces /\ status = mso_Status mso /\
    CoseKey_PublicKey (DeviceKey (mso_DeviceKeyInfo mso)) = Ok (v_DeviceKey verified) /\
    device_proved_for doc verified /\
    MdocIssuer_Check clock (verificationTime req) issuer verified = Ok chain /\
    SatisfiedByMdocClaims Rat_SetString json_doctype_value cq (DocType doc) nameSpaces = Ok tt /\
    (AllowUnrequestedClaims req = false -> forall ns elements e x, nameSpaces !! ns = Some elements -> elements !! e = Some x ->
       (ns, e) ∈ requested_elements cq);
  mb_authorities : checkAuthorities req cq chain = Ok tt
}.

Lemma unrequested_elements_nil cq nameSpaces : unrequested_elements cq nameSpaces = [] ->
  forall ns elements e x, nameSpaces !! ns = Some elements -> elements !! e = Some x -> (ns, e) ∈ requested_elements cq.
Proof using.
  intros He ns elements e x Hns Hx; destruct (decide ((ns, e) ∈ requested_elements cq)) as [|Hn]; [done|exfalso].
  assert (Hin : (ns ++ "/" ++ e)%string ∈ unrequested_elements cq nameSpaces).
  { apply list_elem_of_In, in_flat_map; exists (ns, elements); split; [by apply list_elem_of_In, elem_of_map_to_list|].
    apply list_elem_of_In, list_elem_of_omap; exists (e, x); split; [by apply elem_of_map_to_list|]; by rewrite bool_decide_false. }
  rewrite He in Hin; by apply elem_of_nil in Hin.
Qed.

Lemma cose_decoded alg pub sign1 p u payload p' u' payload' : Cose.Verify alg pub sign1 [] = Ok (p, u, payload) ->
  Cose.DecodeUnverified sign1 = Ok (p', u', payload') -> p' = p /\ u' = u /\ payload' = Some payload.
Proof using.
  unfold Cose.Verify; intros (raw & Hc & Hp & [Hh _])%VerifyMax_ok; unfold Cose.DecodeUnverified, Cose.DecodeUnverifiedMax, decodeRaw.
  apply read_message_ok in Hc; [|done]; intros (raw' & Hr & Hd)%res_bind_ok; rewrite Hc in Hr; injection Hr as <-.
  apply decodeHeaders_ok in Hh; rewrite Hh in Hd; cbn [res_bind] in Hd; rewrite Hp in Hd; by injection Hd as <- <- <-.
Qed.

Lemma mdoc_presentation cq presented claims status chain signed :
  verifyMdocPresentation Rat_SetString json_doctype_value clock v req cq presented = Ok (claims, status, chain, signed) ->
  mdoc_bound cq presented claims status chain signed.
Proof using.
  unfold verifyMdocPresentation; destruct (MdocIssuerKeys req) as [keys|] eqn:Ek; [|done]; destruct (ResponseEncryptionKey req) as [key|] eqn:Ekey; [|done].
  intros (raw & Hb & Hr)%res_bind_ok; apply res_map_err_ok in Hb; apply res_bind_ok in Hr as (doc & Hdoc & Hr); apply res_map_err_ok in Hdoc.
  apply res_bind_ok in Hr as ([[p' u'] payload'] & Hd & Hr); apply res_map_err_ok in Hd.
  apply res_bind_ok in Hr as (issuer & Hi & Hr); apply res_map_err_ok in Hi; apply res_bind_ok in Hr as (verified & Hv & Hr); apply res_map_err_ok in Hv.
  apply res_bind_ok in Hr as (ch & Hch & Hr); apply res_map_err_ok in Hch; apply res_bind_ok in Hr as (thumb & Ht & Hr); apply res_map_err_ok in Ht.
  apply res_bind_ok in Hr as (transcript & Htr & Hr); apply res_map_err_ok in Htr.
  destruct (Z.eqb_spec (AuthType (doc_DeviceSigned doc)) DeviceAuthSignature) as [Hat|]; cbn [negb] in Hr; [|done].
  apply res_bind_ok in Hr as (alg & Ha & Hr); apply res_map_err_ok in Ha; apply res_bind_ok in Hr as ([] & Hds & Hr); apply res_map_err_ok in Hds.
  apply res_bind_ok in Hr as ([] & _ & Hr); apply res_bind_ok in Hr as ([] & Hs & Hr); apply res_map_err_ok in Hs.
  apply res_bind_ok in Hr as ([] & Hreq & Hr); apply res_bind_ok in Hr as ([] & Hau & [= <- <- <- <-]).
  apply Verify_ok in Hv as (p & u & mso & nss & dkey & (payload & Hc & Hm & Hver & Hdt & Hval) & Hatt & Hdk & ->).
  destruct (cose_decoded _ _ _ _ _ _ _ _ _ Hc Hd) as (-> & -> & ->); unfold result in *; cbn [v_DocType v_NameSpaces v_DeviceKey v_Status v_KeyAuthorizations default from_option id] in *.
  unfold VerifyDeviceSignature in Hds; apply res_bind_ok in Hds as (authBytes & Hab & Hds); apply res_bind_ok in Hds as ([dp du] & Hdv & _); apply res_map_err_ok in Hdv.
  unfold VerifyDetached in Hdv; apply VerifyDetachedMax_ok in Hdv as (rawd & Hcar & Hpl & Hsig).
  unfold deviceAuthBytes in Hab; rewrite Hat, Z.eqb_refl in Hab; cbn [negb] in Hab; apply res_bind_ok in Hab as (nsb & Hnsb & Hab).
  split; [|done].
  match type of Hch with MdocIssuer_Check _ _ _ ?vm = _ => exists keys, raw, doc, p, u, issuer, mso, nss, vm end.
  split_and!; [done|done|done|done|done|done|done|done|done|done|done|exact Hdk| |exact Hch|by rewrite <- Hdt|].
  - exists key, thumb, transcript, nsb, authBytes, alg, rawd, dp, du; by split_and!.
  - intros Hn; rewrite Hn in Hreq; unfold checkRequestedElements in Hreq; apply unrequested_elements_nil.
    by destruct (unrequested_elements cq nss).
Qed.

End Bound.

(** ** The theorems *)

Section Theorems.
Context `{Signatures} `{!CoseKeys} `{!CborLib} `{!MdocCbor} `{!Curves} `{!X509} `{!ResponseCbor} `{!Codec} `{!JsonText} `{!JwkText} `{reads_law : !JsonReads}.
Context (std_base64 : string -> option bytes) (EqualFold : string -> string -> bool) (url_Parse : string -> option URL).
Context (Rat_SetString : string -> option Q) (json_any : bytes -> option goval).
Context (json_vct_values : bytes -> option (list string)) (json_doctype_value : bytes -> option string).

(** A credential reported for a presentation, as its format verifies it. *)
Definition presented_for (clock : Z) (v : Verifier) (req : VerifyResponseRequest) (cq : CredentialQuery) (presented : string) (vc : VerifiedCredential) : Prop :=
  cq_Format cq = formatSDJWTVC /\ MdocStatus vc = None /\
    sdjwt_bound std_base64 EqualFold Rat_SetString json_vct_values clock v req cq presented (vc_Claims vc) (IssuerChain vc) \/
  cq_Format cq = formatMdoc /\ exists signed,
    mdoc_bound Rat_SetString json_doctype_value clock v req cq presented (vc_Claims vc) (MdocStatus vc) (IssuerChain vc) signed.

Lemma verifyPresentation_ok clock v req cq presented vc signed :
  verifyPresentation std_base64 EqualFold Rat_SetString json_vct_values json_doctype_value clock v req cq presented = Ok (vc, signed) ->
  CredentialQueryID vc = cq_ID cq /\ presented_for clock v req cq presented vc /\
  authorizeIssuer json_vct_values json_doctype_value req cq (vc_Claims vc) (IssuerChain vc) = Ok tt.
Proof using reads_law.
  unfold verifyPresentation, presented_for; destruct (String.eqb_spec (cq_Format cq) formatSDJWTVC) as [Ef|_]; [|destruct (String.eqb_spec (cq_Format cq) formatMdoc) as [Ef|]; [|done]].
  - intros ([claims chain] & Hv & Hr)%res_bind_ok; apply res_bind_ok in Hr as ([] & Ha & [= <- <-]); cbn; split_and!; [done| |done].
    left; split_and!; [done..|]; by apply sdjwt_presentation.
  - intros ([[[claims status] chain] sg] & Hv & Hr)%res_bind_ok; apply res_bind_ok in Hr as ([] & Ha & [= <- <-]); cbn; split_and!; [done| |done].
    right; split; [done|]; exists sg; by apply mdoc_presentation.
Qed.

(** C1: Each credential an accepted answer reports was presented for this request: in the answer for its own credential query, signed by an issuer whose key the resolver gives for it and who is authorized for it, within its validity, with claims that are the issuer's, what the query asks for and no disclosure it does not; and held by who presents it - an SD-JWT VC with a Key Binding JWT, by the key the issuer named in it, over the text presented and for this request's audience and nonce, wherever the query asks for holder binding or the credential names a key; an mdoc, read from its base64url as Go's decoder reads it, with a signature, by the device key the issuer signed, over this request's session transcript.  And no presentation of the answer was made for another request. *)
Theorem response_bound clock v req result :
  VerifyResponse std_base64 EqualFold url_Parse Rat_SetString json_any json_vct_values json_doctype_value clock v req = Ok result ->
  (forall vc, vc ∈ Credentials result -> exists cq ps presented,
     cq ∈ q_Credentials (rq_Query req) /\ cq_ID cq = CredentialQueryID vc /\ VPToken req !! cq_ID cq = Some ps /\ presented ∈ ps /\
     presented_for clock v req cq presented vc /\
     authorizeIssuer json_vct_values json_doctype_value req cq (vc_Claims vc) (IssuerChain vc) = Ok tt) /\
  (forall cq ps presented e, cq ∈ q_Credentials (rq_Query req) -> VPToken req !! cq_ID cq = Some ps -> presented ∈ ps ->
     verifyPresentation std_base64 EqualFold Rat_SetString json_vct_values json_doctype_value clock v req cq presented = Err e ->
     not_this_request e = false).
Proof using reads_law.
  intros (_ & Ha & (p & Hp & Hs) & _)%VerifyResponse_ok; destruct (settle_outcome _ _ _ _ _ _ _ _ _ _ Ha Hp Hs) as [kept [Hc _ _ _]]; split.
  - intros vc Hvc; rewrite Hc in Hvc; apply list_elem_of_In, filter_In in Hvc as [Hvc _]; apply list_elem_of_In, list_elem_of_fmap in Hvc as ([vc' signed] & -> & Hx).
    apply list_elem_of_omap in Hx as ([cq presented] & Hin & Hx); unfold verified_one in Hx; cbn [fst snd] in Hx |- *.
    destruct (verifyPresentation _ _ _ _ _ _ _ _ cq presented) as [x|] eqn:E; [injection Hx as ->|done]; apply verifyPresentation_ok in E as (Hid & Hfor & Hauth).
    unfold presentations in Hin; apply list_elem_of_bind in Hin as (cq' & Hq & Hcq); apply list_elem_of_fmap in Hq as (q' & [= <- <-] & Hq).
    destruct (VPToken req !! cq_ID cq) as [ps|] eqn:Ep; cbn in Hq; [|by apply elem_of_nil in Hq]; exists cq, ps, presented; by split_and!.
  - intros cq ps presented e Hcq Hps Hin He; destruct Hp as [Ht _ _ _ _ _ _]; rewrite Forall_forall in Ht.
    destruct (Ht (cq, presented)) with (e := e) as [? _]; [|done..].
    unfold presentations; apply list_elem_of_bind; exists cq; split; [|done]; rewrite Hps; by apply list_elem_of_fmap_2.
Qed.

(** C6: A presentation does not serve twice: where an SD-JWT VC's presentation is accepted for a query that asks for holder binding, it is accepted - for any query, by any Verifier, at any time - only under the same nonce and for the same audience. *)
Theorem presentation_not_replayed clock v req cq presented vc signed clock' v' req' cq' vc' signed' :
  cq_Format cq = formatSDJWTVC -> RequiresCryptographicHolderBinding cq = true -> cq_Format cq' = formatSDJWTVC ->
  verifyPresentation std_base64 EqualFold Rat_SetString json_vct_values json_doctype_value clock v req cq presented = Ok (vc, signed) ->
  verifyPresentation std_base64 EqualFold Rat_SetString json_vct_values json_doctype_value clock' v' req' cq' presented = Ok (vc', signed') ->
  ExpectedNonce req' = ExpectedNonce req /\ expectedAudience v' (rq_Origin req') = expectedAudience v (rq_Origin req).
Proof using reads_law.
  intros Hf Hb Hf' (_ & Hp & _)%verifyPresentation_ok (_ & Hp' & _)%verifyPresentation_ok; unfold presented_for in Hp, Hp'; rewrite Hf in Hp; rewrite Hf' in Hp'.
  destruct Hp as [(_ & _ & [Hi _ _ _])|[? _]]; [|done]; destruct Hp' as [(_ & _ & [Hi' _ _ _])|[? _]]; [|done].
  destruct Hi as (keys & pres & h & raw & payload & pub & alg & paths & _ & Hpar & _ & Hj & Hu & _ & Hpr & _).
  destruct Hi' as (keys' & pres' & h' & raw' & payload' & pub' & alg' & paths' & _ & Hpar' & _ & Hj' & Hu' & _ & Hpr' & _).
  rewrite Hpar in Hpar'; injection Hpar' as <-; apply DecodeUnverified_Verify in Hj, Hj'; rewrite Hj in Hj'; injection Hj' as <- <-.
  rewrite Hu in Hu'; injection Hu' as <-; destruct Hpr as (hpub & halg & part & kb & ha & sd & Hcnf & Htext & Hkb & _ & Hbd); [by left|].
  destruct Hpr' as (hpub' & halg' & part' & kb' & ha' & sd' & _ & Htext' & Hkb' & _ & Hbd').
  { right; destruct (member "cnf" payload); [by eexists|done]. }
  assert (Hk : last_cut "~"%char presented = Some (part, kb)) by (apply last_cut_some; split; [|done]; by rewrite Htext, <- append_assoc).
  assert (Hk' : last_cut "~"%char presented = Some (part', kb')) by (apply last_cut_some; split; [|done]; by rewrite Htext', <- append_assoc).
  rewrite Hk in Hk'; injection Hk' as <- <-.
  destruct Hbd as [_ _ (hd & r & cl & iat & iss & Hv & _ & Hc & Haud & Hnon & _)], Hbd' as [_ _ (hd' & r' & cl' & iat' & iss' & Hv' & _ & Hc' & Haud' & Hnon' & _)].
  apply DecodeUnverified_Verify in Hv, Hv'; rewrite Hv in Hv'; injection Hv' as <- <-; rewrite Hc in Hc'; injection Hc' as <-.
  split; congruence.
Qed.

End Theorems.

(** ** An answer: a PID as an SD-JWT VC, and a driving licence *)

Module ResponseExample.
Import CoseSigned.

Definition issuer_key : bytes := replicate 32 9.
Definition holder_key : bytes := replicate 32 11.

(** ** The SD-JWT VC *)

#[export] Instance codec : Codec := {| sum := Presented.toy_sum; json_array := fun _ => None |}.

Definition disclosure : string := b64_string [5].
Definition digest : string := b64_string (Presented.toy_sum SdJwt.SHA256 disclosure).

Definition compact (k header payload : bytes) : string :=
  let signed := (b64_string header ++ "." ++ b64_string payload)%string in
  (signed ++ "." ++ b64_string (toy_signature k (string_bytes signed)))%string.

Definition presented : string := (compact issuer_key [1] [2] ++ "~" ++ disclosure)%string.
Definition pid_text : string := ((presented ++ "~") ++ compact holder_key [3] [4])%string.

Definition texts : list (bytes * goval) :=
  [([1], VObject [("alg", VString "EdDSA"); ("typ", VString "dc+sd-jwt")]);
   ([2], VObject [("vct", VString "urn:eudi:pid:1"); ("exp", VFloat (float_of_int 2000)); ("cnf", VObject [("jwk", VString "holder")]);
                  ("_sd", VArray [VString digest])]);
   ([3], VObject [("alg", VString "EdDSA"); ("typ", VString "kb+jwt")]);
   ([4], VObject [("aud", VString "x509_hash:rp"); ("nonce", VString "n-1"); ("iat", VFloat (float_of_int 1000));
                  ("sd_hash", VString (b64_string (Presented.toy_sum SdJwt.SHA256 (presented ++ "~"))))]);
   ([34; 1], VString "salt"); ([34; 2], VString "given_name"); ([34; 3], VString "Erika")]%string.

#[export] Instance json : JsonText := {|
  marshal_object := fun _ => None; unmarshal_any := fun raw => Presented.look raw texts;
  unmarshal_raws := fun raw => if bool_decide (raw = [5]) then Some [[34; 1]; [34; 2]; [34; 3]] else None |}.

#[export] Instance json_reads : JsonReads.
Proof.
  split; [|done]; intros raw v; apply Presented.look_wf; unfold texts.
  repeat (apply Forall_cons_2; [cbn -[digest float_of_int b64_string]; split_and?; try done;
    apply (bool_decide_unpack _); vm_compute; exact I|]); apply Forall_nil_2.
Defined.

#[export] Instance jwk_text : JwkText := {|
  unmarshal_jwk := fun raw => if bool_decide (raw = [1]) then Some (okp_jwk holder_key) else None;
  marshal_any := fun _ => Some [1]; Quote := fun s => (quote ++ s ++ quote)%string |}.

(** ** The mdoc *)

Definition mso : MobileSecurityObject := {|
  Version := "1.0"; DigestAlgorithm := Mdoc.SHA256;
  ValueDigests := {[MdocExample.ns := {[10 := MdocExample.family_bytes; 11 := MdocExample.given_bytes]}]};
  mso_DeviceKeyInfo := {| DeviceKey := {| Kty := 1; Crv := 6; X := holder_key; Y := [] |}; dki_KeyAuthorizations := None |};
  mso_DocType := MdocExample.doctype;
  mso_ValidityInfo := {| Signed := 0; ValidFrom := 0; ValidUntil := 2000 * Second; ExpectedUpdate := None |}; mso_Status := None |}.

(** 24(h'03') for what the device signs of its namespaces, 24(h'09') for the session transcript. *)
Definition device_namespaces : bytes := [216; 24; 65; 3].
Definition transcript : bytes := [216; 24; 65; 9].
Definition authentication : bytes := [216; 24; 65; 1].

(** [h'a10127', {}, null, signature]. *)
Definition device_signature : bytes := toy_signature holder_key (structure "Signature1" protected_bytes [] authentication).
Definition device_auth : bytes := [132; 67] ++ protected_bytes ++ [160; 246; 68] ++ device_signature.

#[export] Instance cbor : CborLib := {|
  cbor_key := unit; key_eqb := fun _ _ => true; decodes_time := fun _ => true; decode_map_key := fun _ => None;
  marshal_headers := fun _ => None; marshal_structure := fun context p aad payload => Some (structure context p aad payload);
  marshal_message := fun _ => None; marshal_raw_tag := fun _ _ => None;
  unmarshal_headers := fun b => if bool_decide (b = protected_bytes) then Ok (toMap protected) else Err ErrEOF;
  unmarshal_message := fun b =>
    if bool_decide (b = attached)
    then Ok {| Protected := protected_bytes; Unprotected := toMap unprotected; Payload := Some payload; Signature := signature |}
    else if bool_decide (b = device_auth)
    then Ok {| Protected := protected_bytes; Unprotected := ∅; Payload := None; Signature := device_signature |} else Err ErrEOF;
  unmarshal_raw_tag := fun _ => Err ErrEOF |}.

#[export] Instance mdoc_cbor : MdocCbor := {|
  unmarshal_tag := fun d =>
    if bool_decide (d = payload) then Ok (24, VBytes [0])
    else if bool_decide (d = MdocExample.family_bytes) then Ok (24, VBytes [1])
    else if bool_decide (d = MdocExample.given_bytes) then Ok (24, VBytes [2])
    else if bool_decide (d = device_namespaces) then Ok (24, VBytes [3]) else MdocExample.one d transcript (24, VBytes [9]);
  unmarshal_mso := fun d => MdocExample.one d [0] mso;
  unmarshal_item := fun d => if bool_decide (d = [1]) then Ok MdocExample.family else MdocExample.one d [2] MdocExample.given;
  unmarshal_wire_issuer_signed := fun d => MdocExample.one d [3] MdocExample.wire;
  unmarshal_wire_device_signed := fun d =>
    MdocExample.one d [4] {| w_DeviceNameSpaces := device_namespaces; DeviceSignature := device_auth; DeviceMac := [] |};
  unmarshal_device_namespaces := fun d => MdocExample.one d [3] ∅; unmarshal_raw_message := fun d => MdocExample.one d [9] [9];
  marshal_tag := fun n b => Some ([216; n; 64 + blen b] ++ b); marshal_mso := fun _ => None; marshal_item := fun _ => None;
  marshal_wire_issuer_signed := fun _ => None; marshal_wire_device_signed := fun _ => None;
  marshal_device_namespaces := fun _ => None; marshal_device_authentication := fun _ _ _ => Some [1] |}.

#[export] Instance curves : Curves := {|
  ParseUncompressedPublicKey := fun _ _ => None; ec_Bytes := fun _ => None; ecdsa_priv := unit; priv_Public := fun _ => Ed25519Key issuer_key;
  ECDH := fun _ _ => None |}.

#[export] Instance x509 : X509 := MdocExample.x509.

#[export] Instance response_cbor : ResponseCbor := {|
  unmarshal_device_response := fun d => MdocExample.one d [5]
    {| wr_Version := "1.0"; wr_Documents := [{| wd_DocType := MdocExample.doctype; wd_IssuerSigned := [3]; wd_DeviceSigned := [4] |}]; wr_Status := 0 |};
  marshal_device_response := fun _ => None; marshal_array := fun _ => Some [0]; marshal_default_tag := fun _ _ => Some transcript |}.

Definition mdl_text : string := b64_string [5].

(** ** The request and its answer *)

Definition claim (path : list PathElement) : ClaimsQuery := {| cl_ID := ""; cl_Path := path; cl_Values := None; cl_IntentToRetain := None |}.

Definition pid : CredentialQuery := {|
  cq_ID := "pid"; cq_Format := formatSDJWTVC; cq_Meta := [1]; cq_Multiple := true; cq_TrustedAuthorities := [];
  cq_RequireCryptographicHolderBinding := None; cq_Claims := Some [claim [PathKey "given_name"]]; cq_ClaimSets := None |}.
Definition mdl : CredentialQuery := {|
  cq_ID := "mdl"; cq_Format := formatMdoc; cq_Meta := [2]; cq_Multiple := false; cq_TrustedAuthorities := [];
  cq_RequireCryptographicHolderBinding := None;
  cq_Claims := Some [claim [PathKey MdocExample.ns; PathKey "given_name"]; claim [PathKey MdocExample.ns; PathKey "family_name"]]; cq_ClaimSets := None |}.

Definition vct_values (meta : bytes) : option (list string) := if bool_decide (meta = [1]) then Some ["urn:eudi:pid:1"%string] else None.
Definition doctype_value (meta : bytes) : option string := if bool_decide (meta = [2]) then Some MdocExample.doctype else None.

Definition verifier : Verifier :=
  {| clientID := "x509_hash:rp"; cfg_ResponseURI := "https://rp.example/response"; cfg_Assurance := AssuranceDevelopment |}.

Definition request_at (instant : Z) : VerifyResponseRequest := {|
  rq_Query := {| q_Credentials := [pid; mdl]; q_CredentialSets := [] |};
  VPToken := {["pid" := [pid_text; "not a presentation"]; "mdl" := [mdl_text]]}%string;
  ExpectedNonce := "n-1";
  rq_IssuerKeys := Some (OtherSDJWTKeys {| other_ResolveIssuerKey := fun _ _ _ => Some (Ed25519Key issuer_key, Jws.EdDSA);
    other_ResolveIssuerChains := None; other_BindsIssuerName := None; other_Validate := None; other_LiveFetchHardened := None |});
  Now := Some instant; MaxClockSkew := 0; MaxKeyBindingAge := 300 * Second;
  MdocIssuerKeys := Some (OtherMdocKeys (OtherMdocMethods (fun _ _ _ => Some (Ed25519Key issuer_key, EdDSA)) None None None) None);
  TrustedAuthorities := None; IssuerAuthorized := Some (fun a => negb (blen (MatchedTypes a) =? 0)); AnyIssuerForAnyType := false;
  DistinctCredentials := true; rq_Status := None; AllowUnrequestedClaims := false; NoStatusCheck := true; Accept := None;
  statusByTransactions := false; ResponseEncryptionKey := Some tt; rq_Origin := ""; ExpectedOrigins := [] |}.

Definition request : VerifyResponseRequest := request_at (1000 * Second).

Definition verified : res failure VerifyResponseResult :=
  VerifyResponse (fun _ => None) (fun _ _ => false) (fun _ => None) (fun _ => None) (fun _ => Some (VObject [])) vct_values doctype_value
    0 verifier request.

Definition result : VerifyResponseResult := {|
  Credentials := [
    {| CredentialQueryID := "pid"; vc_Claims := [("vct", VString "urn:eudi:pid:1"); ("exp", VFloat (float_of_int 2000));
         ("cnf", VObject [("jwk", VString "holder")]); ("given_name", VString "Erika")];
       MdocStatus := None; IssuerChain := [] |};
    {| CredentialQueryID := "mdl"; vc_Claims := [(MdocExample.ns, VObject [("given_name", VString "Erika"); ("family_name", VString "Mustermann")])];
       MdocStatus := None; IssuerChain := [] |}];
  Discarded := [{| d_CredentialQueryID := "pid"; d_Code := ReasonMalformed; d_Reason := description ReasonMalformed;
    d_Err := Refused ReasonMalformed (PresParse ErrNoTilde) |}] |}%string.

Lemma verified_result : verified = Ok result.
Proof. vm_cast_no_check (@eq_refl (res failure VerifyResponseResult) (Ok result)). Qed.

(** Its SD-JWT VC, verified at an instant. *)
Definition pid_verified (instant : Z) : res failure (VerifiedCredential * bytes) :=
  verifyPresentation (fun _ => None) (fun _ _ => false) (fun _ => None) vct_values doctype_value 0 verifier (request_at instant) pid pid_text.

End ResponseExample.

Section Example.
Import CoseSigned ResponseExample.

Lemma response_outcome_witness : verified = Ok result /\
  exists kept, outcome (fun _ => None) (fun _ _ => false) (fun _ => None) vct_values doctype_value 0 verifier request result kept.
Proof. split; [exact verified_result|]; exact (response_outcome _ _ _ _ _ _ _ _ _ _ _ verified_result). Defined.

Lemma response_distinct_witness : verified = Ok result /\
  let ps := presentations request (q_Credentials (rq_Query request)) in
  let verified := omap (verified_one (fun _ => None) (fun _ _ => false) (fun _ => None) vct_values doctype_value 0 verifier request) ps in
  Credentials result `sublist_of` verified.*1 /\ NoDup (credential_key <$> verified) /\
  (DistinctCredentials request = true -> NoDup ((fun x => Sum256 x.2) <$> verified)) /\
  forall cq presented, cq ∈ q_Credentials (rq_Query request) -> VPToken request !! cq_ID cq = Some presented ->
    presented <> [] /\ (cq_Multiple cq = false -> blen presented = 1) /\ blen presented <= MaxPresentationsPerQuery.
Proof. split; [exact verified_result|]; exact (response_distinct _ _ _ _ _ _ _ _ _ _ _ verified_result). Defined.

Lemma response_bound_witness : verified = Ok result /\
  (forall vc, vc ∈ Credentials result -> exists cq ps presented,
     cq ∈ q_Credentials (rq_Query request) /\ cq_ID cq = CredentialQueryID vc /\ VPToken request !! cq_ID cq = Some ps /\ presented ∈ ps /\
     presented_for (fun _ => None) (fun _ _ => false) (fun _ => None) vct_values doctype_value 0 verifier request cq presented vc /\
     authorizeIssuer vct_values doctype_value request cq (vc_Claims vc) (IssuerChain vc) = Ok tt) /\
  (forall cq ps presented e, cq ∈ q_Credentials (rq_Query request) -> VPToken request !! cq_ID cq = Some ps -> presented ∈ ps ->
     verifyPresentation (fun _ => None) (fun _ _ => false) (fun _ => None) vct_values doctype_value 0 verifier request cq presented = Err e ->
     not_this_request e = false).
Proof. split; [exact verified_result|]; exact (response_bound _ _ _ _ _ _ _ _ _ _ _ verified_result). Defined.

Lemma presentation_not_replayed_witness : is_ok (pid_verified (1000 * Second)) = true /\ is_ok (pid_verified (1100 * Second)) = true /\
  ExpectedNonce (request_at (1100 * Second)) = ExpectedNonce request /\
  expectedAudience verifier (rq_Origin (request_at (1100 * Second))) = expectedAudience verifier (rq_Origin request).
Proof.
  assert (Hok : forall t, is_ok (pid_verified t) = true -> exists x, pid_verified t = Ok x) by (intros t; destruct (pid_verified t) as [x|]; [by exists x|done]).
  assert (E : is_ok (pid_verified (1000 * Second)) = true) by (vm_cast_no_check (@eq_refl bool true)).
  assert (E' : is_ok (pid_verified (1100 * Second)) = true) by (vm_cast_no_check (@eq_refl bool true)).
  split; [exact E|split; [exact E'|]]; destruct (Hok _ E) as [[vc signed] Hv], (Hok _ E') as [[vc' signed'] Hv']; unfold pid_verified in Hv, Hv'.
  exact (presentation_not_replayed (fun _ => None) (fun _ _ => false) (fun _ => None) vct_values doctype_value 0 verifier request pid pid_text vc signed
    0 verifier (request_at (1100 * Second)) pid vc' signed' eq_refl eq_refl eq_refl Hv Hv').
Defined.
End Example.
