(* ===== verification/TxStore.v ===== *)
(** * A Verifier's presentation requests and where they are kept

    [verifier]'s Transaction, the errors of its calls and the TransactionStore
    they are kept behind (transactions.go, errors.go, response.go), a class
    with its laws; and [storage]'s in-memory store (verifier_transaction_store.go,
    prune.go) as its instance.  What a request asks for and its keys are its
    [Request], which nothing changes; the rest is its progress.  Values are
    copied in and out of the in-memory store, so its clones are the values. *)
From S2P Require Import Prelude Reasons Json DcqlQuery Text JwtDate.
#[local] Open Scope Z_scope.

(** ** Errors

    A Go error, by what errors.As and errors.Is find in it. *)

Inductive tx_error : Type :=
| ErrTransactionUnknown
| ErrTransactionExpired
| ErrTransactionAnswered
| ErrTransactionClosed
| ErrWrongBrowser
| ResponseError (Code Description State : string)
| VerifyError (reason : Reason) (cause : option tx_error)   (* *Error *)
| acceptError (err : tx_error)
| serverFault (err : tx_error)
| Wrapped (err : tx_error)                                  (* fmt.Errorf with one %w *)
| Joined (err err' : tx_error)                              (* and with two *)
| Plain (text : string).

(** errors.As, for each type looked for. *)
Fixpoint as_response (e : tx_error) : option (string * string * string) :=
  match e with
  | ResponseError c d s => Some (c, d, s)
  | VerifyError _ (Some e) | acceptError e | serverFault e | Wrapped e => as_response e
  | Joined e e' => match as_response e with Some r => Some r | None => as_response e' end
  | _ => None
  end.

Fixpoint as_accept (e : tx_error) : option tx_error :=
  match e with
  | acceptError e => Some e
  | VerifyError _ (Some e) | serverFault e | Wrapped e => as_accept e
  | Joined e e' => match as_accept e with Some r => Some r | None => as_accept e' end
  | _ => None
  end.

Fixpoint as_verify (e : tx_error) : option Reason :=
  match e with
  | VerifyError r _ => Some r
  | acceptError e | serverFault e | Wrapped e => as_verify e
  | Joined e e' => match as_verify e with Some r => Some r | None => as_verify e' end
  | _ => None
  end.

Fixpoint as_fault (e : tx_error) : bool :=
  match e with
  | serverFault _ => true
  | VerifyError _ (Some e) | acceptError e | Wrapped e => as_fault e
  | Joined e e' => as_fault e || as_fault e'
  | _ => false
  end.

(** errors.Is, of the outcomes a store reports about the request itself. *)
Fixpoint is_outcome (e : tx_error) : bool :=
  match e with
  | ErrTransactionUnknown | ErrTransactionExpired | ErrTransactionAnswered | ErrTransactionClosed => true
  | VerifyError _ (Some e) | acceptError e | serverFault e | Wrapped e => is_outcome e
  | Joined e e' => is_outcome e || is_outcome e'
  | _ => false
  end.

Definition storeFault (e : tx_error) : tx_error :=
  if is_outcome e then e else if as_fault e then e else serverFault e.

(** ** Transactions *)

Inductive TransactionStatus : Type :=
| TransactionPending
| TransactionAwaitingRedirect
| TransactionDone
| TransactionClosed
| TransactionExpired.

#[export] Instance TransactionStatus_eq_dec : EqDecision TransactionStatus.
Proof. solve_decision. Defined.

(** What a Transaction holds and does not look into: an *ecdsa.PrivateKey, with
    its Equal, and a *VerifyResponseResult. *)
Class Contents : Type := {
  PrivateKey : Type;
  PrivateKey_eq_dec :: EqDecision PrivateKey;
  Result : Type
}.

Section Transactions.
Context `{Contents}.

Record Request : Type := {
  ID : string;
  KeyID : string;
  State : string;
  Nonce : string;
  tx_Query : Query;
  ResponseDecryptionKey : option PrivateKey;
  RequestObject : string;
  Origin : string;
  MdocEncryptionInfo : string;
  Owner : string;
  BrowserBindingHash : bytes;
  SameDevice : bool;
  ExpiresAt : Z;
  RetainUntil : Z
}.

Record Transaction : Type := {
  request :> Request;
  Status : TransactionStatus;
  ResponseCodeHash : string;
  tx_Result : option Result;
  LastError : string
}.

(** ** Stores *)

(** A store's calls, at the time given where they read it.  What an Update's
    [fn] leaves in its caller's variables is the [X] it gives. *)
Class TransactionStore (St : Type) : Type := {
  Create : Z -> Transaction -> St -> res tx_error unit * St;
  Get : string -> St -> res tx_error Transaction;
  Update : forall {X : Type}, string -> (Transaction -> res tx_error (Transaction * X)) -> St -> res tx_error X * St;
  IDByKeyID : string -> St -> res tx_error string;
  IDByResponseCode : string -> St -> res tx_error string
}.

(** An Update that leaves the request as it is. *)
Definition keeps_request {X} (fn : Transaction -> res tx_error (Transaction * X)) : Prop :=
  forall tx tx' x, fn tx = Ok (tx', x) -> request tx' = request tx.

(** What every store promises, failures of its own allowed - before or after
    it saved - and transactions dropped at any time: each Update is of the
    transaction as last saved. *)
Class TransactionStoreLaws (St : Type) `{TransactionStore St} : Type := {
  view : St -> gmap string Transaction;
  store_ok : St -> Prop;
  view_ID s id (tx : Transaction) : store_ok s -> view s !! id = Some tx -> ID tx = id;
  Create_law now tx s : store_ok s -> Status tx = TransactionPending -> let '(r, s') := Create now tx s in store_ok s' /\
    (view s' ⊆ view s \/ view s !! ID tx = None /\ view s' ⊆ <[ID tx := tx]> (view s));
  Get_law id s tx : store_ok s -> Get id s = Ok tx -> view s !! id = Some tx;
  Update_law {X} id (fn : Transaction -> res tx_error (Transaction * X)) s : store_ok s -> keeps_request fn ->
    let '(r, s') := Update id fn s in store_ok s' /\
    ((exists e, r = Err e) /\ view s' ⊆ view s \/
     exists tx tx' x, view s !! id = Some tx /\ fn tx = Ok (tx', x) /\ view s' ⊆ <[id := tx']> (view s) /\
       ((exists e, r = Err e) \/ r = Ok x));
  IDByKeyID_law kid s id : store_ok s -> IDByKeyID kid s = Ok id -> exists tx : Transaction, view s !! id = Some tx /\ KeyID tx = kid;
  IDByResponseCode_law code s id : store_ok s -> IDByResponseCode code s = Ok id ->
    exists tx : Transaction, view s !! id = Some tx /\ ResponseCodeHash tx = code
}.

(** And what one that is working promises: a call fails only for the reasons it
    gives, a transaction stays until its RetainUntil, and a response code leads
    to its transaction where no two have had the same. *)
Class TransactionStoreWorks (St : Type) `{TransactionStoreLaws St} : Type := {
  codes_ok : St -> Prop;
  Create_works now tx s : store_ok s -> codes_ok s -> Status tx = TransactionPending -> ResponseCodeHash tx = EmptyString ->
    ID tx <> EmptyString -> view s !! ID tx = None ->
    (KeyID tx <> EmptyString -> forall id (tx' : Transaction), view s !! id = Some tx' -> KeyID tx' <> KeyID tx) ->
    exists s', Create now tx s = (Ok tt, s') /\ codes_ok s' /\ view s' !! ID tx = Some tx /\
      forall id (tx' : Transaction), view s !! id = Some tx' -> now <= RetainUntil tx' -> view s' !! id = Some tx';
  Get_works id s tx : store_ok s -> view s !! id = Some tx -> Get id s = Ok tx;
  Update_works {X} id (fn : Transaction -> res tx_error (Transaction * X)) s tx : store_ok s -> codes_ok s -> keeps_request fn ->
    view s !! id = Some tx ->
    (forall tx' x, fn tx = Ok (tx', x) -> ResponseCodeHash tx' = EmptyString \/
      forall id' (o : Transaction), view s !! id' = Some o -> ResponseCodeHash o = ResponseCodeHash tx' -> id' = id) ->
    exists s', Update id fn s = (match fn tx with Ok (_, x) => Ok x | Err e => Err e end, s') /\ codes_ok s' /\
      view s' = match fn tx with Ok (tx', _) => <[id := tx']> (view s) | Err _ => view s end;
  IDByKeyID_works s id (tx : Transaction) : store_ok s -> view s !! id = Some tx -> KeyID tx <> EmptyString ->
    IDByKeyID (KeyID tx) s = Ok id;
  IDByResponseCode_works s id (tx : Transaction) : store_ok s -> codes_ok s -> view s !! id = Some tx ->
    ResponseCodeHash tx <> EmptyString -> IDByResponseCode (ResponseCodeHash tx) s = Ok id
}.

(** ** The in-memory store *)

Definition minPruneAt : Z := 1024.
Definition expiryGrace : Z := 10 * Minute.

(** [pruner.at]: [due] at a size and [pruned] to one. *)
Definition due (at_size n : Z) : bool := negb (n <? Z.max at_size minPruneAt).
Definition pruned (n : Z) : Z := 2 * n.

Definition pruneMap {V} (m : gmap string V) (now : Z) (expiresAt : V -> Z) : gmap string V :=
  filter (fun '(_, v) => negb (expiresAt v =? time_zero) && (expiresAt v <? now) = false) m.

Record VerifierTransactionStore : Type := {
  byID : gmap string Transaction;
  byKey : gmap string string;
  byCode : gmap string string;
  prune_at : Z
}.

Definition NewVerifierTransactionStore : VerifierTransactionStore :=
  {| byID := ∅; byKey := ∅; byCode := ∅; prune_at := 0 |}.

Definition keep_until (tx : Transaction) : Z :=
  if ExpiresAt tx =? time_zero then time_zero
  else if RetainUntil tx <? ExpiresAt tx + expiryGrace then ExpiresAt tx + expiryGrace else RetainUntil tx.

Definition live_index (m : gmap string Transaction) (index : gmap string string) : gmap string string :=
  filter (fun '(_, id) => is_Some (m !! id)) index.

Definition dropExpired (now : Z) (s : VerifierTransactionStore) : VerifierTransactionStore :=
  let m := pruneMap (byID s) now keep_until in
  {| byID := m; byKey := live_index m (byKey s); byCode := live_index m (byCode s); prune_at := prune_at s |}.

Definition index (k id : string) (m : gmap string string) : gmap string string :=
  if String.eqb k "" then m else <[k := id]> m.

Definition save (tx : Transaction) (s : VerifierTransactionStore) : VerifierTransactionStore :=
  {| byID := <[ID tx := tx]> (byID s); byKey := index (KeyID tx) (ID tx) (byKey s);
     byCode := index (ResponseCodeHash tx) (ID tx) (byCode s); prune_at := prune_at s |}.

Definition mem_Create (now : Z) (tx : Transaction) (s : VerifierTransactionStore) : res tx_error unit * VerifierTransactionStore :=
  if String.eqb (ID tx) "" then (Err (Plain "transaction ID is required"), s)
  else if is_Some_b (byID s !! ID tx) then (Err (Plain "transaction ID is already in use"), s)
  else if is_Some_b (byKey s !! KeyID tx) && negb (String.eqb (KeyID tx) "") then
    (Err (Plain "transaction key ID is already in use"), s)
  else
    let s := if due (prune_at s) (Z.of_nat (size (byID s))) then
        let s := dropExpired now s in
        {| byID := byID s; byKey := byKey s; byCode := byCode s; prune_at := pruned (Z.of_nat (size (byID s))) |}
      else s in
    (Ok tt, save tx s).

Definition mem_Get (id : string) (s : VerifierTransactionStore) : res tx_error Transaction :=
  match byID s !! id with Some tx => Ok tx | None => Err ErrTransactionUnknown end.

(** [tx.ID = id]. *)
Definition with_ID (id : string) (tx : Transaction) : Transaction :=
  {| request := {| ID := id; KeyID := KeyID tx; State := State tx; Nonce := Nonce tx; tx_Query := tx_Query tx;
       ResponseDecryptionKey := ResponseDecryptionKey tx; RequestObject := RequestObject tx; Origin := Origin tx;
       MdocEncryptionInfo := MdocEncryptionInfo tx; Owner := Owner tx; BrowserBindingHash := BrowserBindingHash tx;
       SameDevice := SameDevice tx; ExpiresAt := ExpiresAt tx; RetainUntil := RetainUntil tx |};
     Status := Status tx; ResponseCodeHash := ResponseCodeHash tx; tx_Result := tx_Result tx; LastError := LastError tx |}.

Definition mem_Update {X} (id : string) (fn : Transaction -> res tx_error (Transaction * X)) (s : VerifierTransactionStore)
    : res tx_error X * VerifierTransactionStore :=
  match byID s !! id with
  | None => (Err ErrTransactionUnknown, s)
  | Some stored =>
      match fn stored with
      | Err e => (Err e, s)
      | Ok (tx, x) =>
          let tx := with_ID id tx in
          let previousCode := ResponseCodeHash stored in
          let codes := if negb (String.eqb previousCode "") && negb (String.eqb previousCode (ResponseCodeHash tx))
            then delete previousCode (byCode s) else byCode s in
          (Ok x, save tx {| byID := byID s; byKey := byKey s; byCode := codes; prune_at := prune_at s |})
      end
  end.

Definition mem_IDByKeyID (kid : string) (s : VerifierTransactionStore) : res tx_error string :=
  match byKey s !! kid with
  | Some id => if String.eqb kid "" then Err ErrTransactionUnknown else Ok id
  | None => Err ErrTransactionUnknown
  end.

Definition mem_IDByResponseCode (codeHash : string) (s : VerifierTransactionStore) : res tx_error string :=
  match byCode s !! codeHash with
  | Some id => if String.eqb codeHash "" then Err ErrTransactionUnknown else Ok id
  | None => Err ErrTransactionUnknown
  end.

#[export] Instance VerifierTransactionStore_store : TransactionStore VerifierTransactionStore := {|
  Create := mem_Create; Get := mem_Get; Update := @mem_Update;
  IDByKeyID := mem_IDByKeyID; IDByResponseCode := mem_IDByResponseCode |}.

(** ** The in-memory store keeps its promises *)

Record mem_ok (s : VerifierTransactionStore) : Prop := {
  ok_ID : forall id (tx : Transaction), byID s !! id = Some tx -> ID tx = id;
  ok_key : forall k id, byKey s !! k = Some id -> k <> EmptyString /\ exists tx : Transaction, byID s !! id = Some tx /\ KeyID tx = k;
  ok_keys : forall id (tx : Transaction), byID s !! id = Some tx -> KeyID tx <> EmptyString -> byKey s !! KeyID tx = Some id;
  ok_code : forall c id, byCode s !! c = Some id ->
    c <> EmptyString /\ exists tx : Transaction, byID s !! id = Some tx /\ ResponseCodeHash tx = c
}.

Definition mem_codes_ok (s : VerifierTransactionStore) : Prop :=
  forall id (tx : Transaction), byID s !! id = Some tx -> ResponseCodeHash tx <> EmptyString -> byCode s !! ResponseCodeHash tx = Some id.

Lemma index_lookup k id m j x : index k id m !! j = Some x <->
  (k <> EmptyString /\ j = k /\ x = id) \/ (j <> k \/ k = EmptyString) /\ m !! j = Some x.
Proof.
  unfold index; destruct (String.eqb_spec k "") as [->|Hk]; [tauto|]; rewrite lookup_insert_Some.
  split; [intros [[<- <-]|[? ?]]|intros [(_ & -> & ->)|[[?|?] ?]]]; try tauto; right; split; try left; congruence || done.
Qed.

Lemma live_index_lookup (m : gmap string Transaction) ix k id : live_index m ix !! k = Some id <-> ix !! k = Some id /\ is_Some (m !! id).
Proof. apply map_lookup_filter_Some. Qed.

Lemma pruneMap_lookup now (m : gmap string Transaction) id tx : pruneMap m now keep_until !! id = Some tx <->
  m !! id = Some tx /\ (keep_until tx = time_zero \/ now <= keep_until tx).
Proof.
  unfold pruneMap; rewrite map_lookup_filter_Some; f_equiv; rewrite andb_false_iff, negb_false_iff, Z.eqb_eq, Z.ltb_ge; done.
Qed.

Lemma pruneMap_subseteq now (m : gmap string Transaction) : pruneMap m now keep_until ⊆ m.
Proof. apply map_filter_subseteq. Qed.

Lemma dropExpired_ok now s : mem_ok s -> mem_ok (dropExpired now s).
Proof.
  intros [HI Hk Hks Hc]; split; cbn [dropExpired byID byKey byCode].
  - intros id tx [Hid _]%pruneMap_lookup; by apply HI.
  - intros k id [Hl [tx Htx]]%live_index_lookup; destruct (Hk _ _ Hl) as (Hne & tx' & Htx' & HK); split; [done|].
    exists tx; split; [done|]; apply pruneMap_lookup in Htx as [Htx _]; congruence.
  - intros id tx Htx Hne; apply live_index_lookup; split; [|eauto]; apply pruneMap_lookup in Htx as [Htx _]; by apply Hks.
  - intros c id [Hl [tx Htx]]%live_index_lookup; destruct (Hc _ _ Hl) as (Hne & tx' & Htx' & HK); split; [done|].
    exists tx; split; [done|]; apply pruneMap_lookup in Htx as [Htx _]; congruence.
Qed.

Lemma dropExpired_codes now s : mem_codes_ok s -> mem_codes_ok (dropExpired now s).
Proof.
  intros Hc id tx Htx Hne; cbn [dropExpired byID byCode] in *; apply live_index_lookup; split; [|eauto].
  apply pruneMap_lookup in Htx as [Htx _]; by apply Hc.
Qed.

(** Saving a transaction, its indexes free or its own. *)
Lemma save_ok (tx : Transaction) s : (forall id (o : Transaction), byID s !! id = Some o -> ID o = id) ->
  (forall k id, byKey s !! k = Some id -> k <> EmptyString /\ (id = ID tx /\ k = KeyID tx \/
     id <> ID tx /\ exists o : Transaction, byID s !! id = Some o /\ KeyID o = k)) ->
  (forall id (o : Transaction), id <> ID tx -> byID s !! id = Some o -> KeyID o <> EmptyString ->
     byKey s !! KeyID o = Some id /\ KeyID o <> KeyID tx) ->
  (forall c id, byCode s !! c = Some id -> c <> EmptyString /\ (c = ResponseCodeHash tx \/
     id <> ID tx /\ exists o : Transaction, byID s !! id = Some o /\ ResponseCodeHash o = c)) ->
  mem_ok (save tx s).
Proof.
  intros HI Hk Hks Hc; split; cbn [save byID byKey byCode].
  - intros id o [[<- <-]|[_ Ho]]%lookup_insert_Some; [done|by apply HI].
  - intros k id [(Hne & -> & ->)|[_ Hl]]%index_lookup.
    + split; [done|]; exists tx; by rewrite lookup_insert_eq.
    + destruct (Hk _ _ Hl) as [Hne [[-> ->]|(Hid & o & Ho & HK)]]; (split; [done|]); [exists tx|exists o].
      all: by rewrite ?lookup_insert_eq, ?lookup_insert_ne by done.
  - intros id o [[<- <-]|[Hid Ho]]%lookup_insert_Some Hne; apply index_lookup; [left; done|right].
    destruct (Hks id o ltac:(done) Ho Hne); split; [by left|done].
  - intros c id [(Hne & -> & ->)|[Hcc Hl]]%index_lookup; [split; [done|]; exists tx; by rewrite lookup_insert_eq|].
    destruct (Hc _ _ Hl) as [Hne [->|(Hid & o & Ho & HK)]]; [by destruct Hcc|]; split; [done|].
    exists o; by rewrite lookup_insert_ne.
Qed.

(** Space made for what Create saves. *)
Definition room (now : Z) (s : VerifierTransactionStore) : VerifierTransactionStore :=
  if due (prune_at s) (Z.of_nat (size (byID s))) then
    let s := dropExpired now s in
    {| byID := byID s; byKey := byKey s; byCode := byCode s; prune_at := pruned (Z.of_nat (size (byID s))) |}
  else s.

Lemma room_ok now s : mem_ok s -> mem_ok (room now s).
Proof. unfold room; destruct (due _ _); [|done]; intros [H1 H2 H3 H4]%(dropExpired_ok now); by split. Qed.

Lemma room_codes now s : mem_codes_ok s -> mem_codes_ok (room now s).
Proof. unfold room; destruct (due _ _); [|done]; apply dropExpired_codes. Qed.

Lemma room_view now s : byID (room now s) ⊆ byID s.
Proof. unfold room; destruct (due _ _); [|done]; apply pruneMap_subseteq. Qed.

Lemma room_keeps now s id (tx : Transaction) : byID s !! id = Some tx -> now <= RetainUntil tx -> RetainUntil tx <= keep_until tx \/ keep_until tx = time_zero ->
  byID (room now s) !! id = Some tx.
Proof.
  intros Htx Hn Hk; unfold room; destruct (due _ _); [|done]; cbn [dropExpired byID]; apply pruneMap_lookup; split; [done|].
  destruct Hk; [right; lia|by left].
Qed.

Lemma keep_until_retains (tx : Transaction) : RetainUntil tx <= keep_until tx \/ keep_until tx = time_zero.
Proof. unfold keep_until; destruct (Z.eqb_spec (ExpiresAt tx) time_zero); [by right|left]; go_case; lia. Qed.

Lemma mem_Create_law now (tx : Transaction) s : mem_ok s -> let '(r, s') := mem_Create now tx s in mem_ok s' /\
  (byID s' ⊆ byID s \/ byID s !! ID tx = None /\ byID s' ⊆ <[ID tx := tx]> (byID s)).
Proof.
  intros Hok; unfold mem_Create; destruct (String.eqb _ _); [by auto|]; destruct (byID s !! ID tx) as [o|] eqn:Eid; cbn [is_Some_b]; [by auto|].
  destruct (is_Some_b _ && _) eqn:Ek; [by auto|]; fold (room now s); split.
  - destruct (room_ok now s Hok) as [HI Hk Hks Hc]; pose proof (room_view now s) as Hv.
    assert (Hfree : byID (room now s) !! ID tx = None) by (by eapply lookup_weaken_None).
    apply save_ok; [done|..].
    + intros k id Hl; destruct (Hk _ _ Hl) as (Hne & o & Ho & HK); split; [done|right]; split; [congruence|eauto].
    + intros id o Hne Ho HK; split; [by apply Hks|]; intros E.
      assert (Hs : byKey s !! KeyID tx = Some id).
      { rewrite <- E; apply (ok_keys s Hok); [|done]; by eapply lookup_weaken. }
      rewrite Hs in Ek; cbn in Ek; apply negb_false_iff, String.eqb_eq in Ek; congruence.
    + intros c id Hl; destruct (Hc _ _ Hl) as (Hne & o & Ho & HK); split; [done|right]; split; [congruence|eauto].
  - right; split; [done|]; cbn [save byID]; apply insert_mono, room_view.
Qed.

Lemma with_ID_same id (tx : Transaction) : ID tx = id -> with_ID id tx = tx.
Proof. destruct tx as [[] ? ? ? ?]; cbn; by intros ->. Qed.

Lemma mem_Update_saved {X} id (fn : Transaction -> res tx_error (Transaction * X)) s (stored tx : Transaction) x : mem_ok s -> keeps_request fn ->
  byID s !! id = Some stored -> fn stored = Ok (tx, x) ->
  exists s', mem_Update id fn s = (Ok x, s') /\ mem_ok s' /\ byID s' = <[id := tx]> (byID s) /\
    (mem_codes_ok s -> (ResponseCodeHash tx = EmptyString \/
      forall id' (o : Transaction), byID s !! id' = Some o -> ResponseCodeHash o = ResponseCodeHash tx -> id' = id) -> mem_codes_ok s').
Proof.
  intros Hok Hkeep Hst Hfn; pose proof (Hkeep _ _ _ Hfn) as Hreq; destruct Hok as [HI Hk Hks Hc].
  assert (Hid : ID tx = id) by (rewrite Hreq; by apply HI).
  unfold mem_Update; rewrite Hst, Hfn, (with_ID_same id tx Hid); eexists; split_and!; [done| |cbn [save byID]; by rewrite Hid|].
  - apply save_ok; cbn [byID byKey byCode]; [done|..].
    + intros k i Hl; destruct (Hk _ _ Hl) as (Hne & o & Ho & HK); split; [done|]; rewrite Hid.
      destruct (decide (i = id)) as [->|]; [left; split; [done|]|right; eauto].
      rewrite Hst in Ho; injection Ho as <-; by rewrite Hreq.
    + intros i o Hne Ho HK; split; [by apply Hks|]; intros E; apply Hne; rewrite Hid.
      pose proof (Hks _ _ Ho HK) as H1; rewrite E, Hreq in H1; rewrite E, Hreq in HK; pose proof (Hks _ _ Hst HK); congruence.
    + intros c i Hl; assert (Hl' : byCode s !! c = Some i /\ (c = ResponseCodeHash stored -> c = ResponseCodeHash tx)).
      { destruct (String.eqb_spec (ResponseCodeHash stored) ""), (String.eqb_spec (ResponseCodeHash stored) (ResponseCodeHash tx)); cbn [negb andb] in Hl;
          [..|apply lookup_delete_Some in Hl as [? Hl]]; (split; [done|congruence || (intros ->; destruct (Hc _ _ Hl); congruence)]). }
      destruct Hl' as [Hl' Hcc]; destruct (Hc _ _ Hl') as (Hne & o & Ho & HK); split; [done|]; rewrite Hid.
      destruct (decide (i = id)) as [->|]; [left; apply Hcc; congruence|right; eauto].
  - intros Hcodes Hnew i o; cbn [save byID byCode]; rewrite Hid; intros [[<- <-]|[Hne Ho]]%lookup_insert_Some Hcn; apply index_lookup; [by left|right].
    assert (Hcd : ResponseCodeHash o <> ResponseCodeHash tx \/ ResponseCodeHash tx = EmptyString).
    { destruct Hnew as [->|Hnew]; [by right|left]; intros E; apply Hne; symmetry; by eapply Hnew. }
    split; [done|]; pose proof (Hcodes _ _ Ho Hcn) as Hl; destruct (_ && _) eqn:E; [|done].
    apply andb_true_iff in E as [E _]; apply negb_true_iff, String.eqb_neq in E; rewrite lookup_delete_ne; [done|].
    intros E'; pose proof (Hcodes _ _ Hst E) as Hl2; rewrite E' in Hl2; congruence.
Qed.

#[export] Program Instance VerifierTransactionStore_laws : TransactionStoreLaws VerifierTransactionStore :=
  {| view := byID; store_ok := mem_ok |}.
Next Obligation. intros s id tx Hok; by apply ok_ID. Qed.
Next Obligation. intros now tx s Hok _; by apply mem_Create_law. Qed.
Next Obligation. intros id s tx _; cbn; unfold mem_Get; destruct (byID s !! id); [by intros [= ->]|done]. Qed.
Next Obligation.
  intros X id fn s Hok Hkeep; cbn; destruct (byID s !! id) as [stored|] eqn:E;
    [destruct (fn stored) as [[tx x]|e] eqn:Ef|unfold mem_Update; rewrite E; split; [done|left; split; [eauto|done]]].
  - destruct (mem_Update_saved id fn s stored tx x Hok Hkeep E Ef) as (s' & -> & Hok' & Hb & _); split; [done|right].
    exists stored, tx, x; rewrite Hb; split_and!; [done..|by right].
  - unfold mem_Update; rewrite E, Ef; split; [done|left; split; [eauto|done]].
Qed.
Next Obligation.
  intros kid s id Hok; cbn; unfold mem_IDByKeyID; destruct (byKey s !! kid) eqn:E; [|done]; destruct (String.eqb _ _); [done|].
  intros [= <-]; by apply (ok_key s Hok).
Qed.
Next Obligation.
  intros c s id Hok; cbn; unfold mem_IDByResponseCode; destruct (byCode s !! c) eqn:E; [|done]; destruct (String.eqb _ _); [done|].
  intros [= <-]; by apply (ok_code s Hok).
Qed.

#[export] Program Instance VerifierTransactionStore_works : TransactionStoreWorks VerifierTransactionStore :=
  {| codes_ok := mem_codes_ok |}.
Next Obligation.
  intros now tx s Hok Hcodes _ Hcode Hid Hv Hkey; cbn in *; unfold mem_Create; apply String.eqb_neq in Hid; rewrite Hid, Hv; cbn [is_Some_b].
  assert (Hk : is_Some_b (byKey s !! KeyID tx) && negb (String.eqb (KeyID tx) "") = false).
  { destruct (byKey s !! KeyID tx) as [i|] eqn:E; [|done]; cbn; apply negb_false_iff, String.eqb_eq.
    destruct (ok_key s Hok _ _ E) as (Hne & o & Ho & HK); by destruct (Hkey Hne i o Ho). }
  rewrite Hk; fold (room now s); eexists; split_and!; [done| |cbn [save byID]; by rewrite lookup_insert_eq|].
  - intros i o; cbn [save byID byCode]; rewrite Hcode; intros [[<- <-]|[Hne Ho]]%lookup_insert_Some Hcn; [done|].
    by apply (room_codes now s Hcodes).
  - intros i o Ho Hn; cbn [save byID]; rewrite lookup_insert_ne by congruence.
    apply room_keeps; [done..|apply keep_until_retains].
Qed.
Next Obligation. intros id s tx _ Hv; cbn in *; unfold mem_Get; by rewrite Hv. Qed.
Next Obligation.
  intros X id fn s tx Hok Hcodes Hkeep Hv Hnew; cbn in *; destruct (fn tx) as [[tx' x]|e] eqn:Ef.
  - destruct (mem_Update_saved id fn s tx tx' x Hok Hkeep Hv Ef) as (s' & Hu & _ & Hb & Hc).
    exists s'; split_and!; [done|apply Hc; [done|by eapply Hnew]|done].
  - exists s; unfold mem_Update; by rewrite Hv, Ef.
Qed.
Next Obligation.
  intros s id tx Hok Hv Hne; cbn in *; unfold mem_IDByKeyID; rewrite (ok_keys s Hok _ _ Hv Hne); apply String.eqb_neq in Hne; by rewrite Hne.
Qed.
Next Obligation.
  intros s id tx Hok Hc Hv Hne; cbn in *; unfold mem_IDByResponseCode; rewrite (Hc _ _ Hv Hne); apply String.eqb_neq in Hne; by rewrite Hne.
Qed.
End Transactions.
