(* ===== verification/CredentialOffer.v ===== *)
(** * Credential Offers: credential_offer.go, and [issuer]'s credential_offer.go

    An offer and its grants, what they must be, and which of them an Issuer's
    configuration lets it make.  net/url and encoding/json are parameters. *)
From S2P Require Import Prelude DcqlQuery Text.
From Stdlib Require Import Ascii.
#[local] Open Scope Z_scope.

Definition TxCodeInputModeNumeric : string := "numeric".
Definition TxCodeInputModeText : string := "text".
Definition maxTxCodeDescriptionLength : Z := 300.

Record TxCode : Type := { InputMode : string; Length : Z; Description : string }.
Record GrantAuthorizationCode : Type := { IssuerState : string; ga_AuthorizationServer : string }.
Record GrantPreAuthorizedCode : Type := { g_PreAuthorizedCode : string; g_TxCode : option TxCode; gp_AuthorizationServer : string }.
Record Grants : Type := { AuthorizationCode : option GrantAuthorizationCode; PreAuthorizedCode : option GrantPreAuthorizedCode }.
Record CredentialOffer : Type := { CredentialIssuer : string; o_ConfigurationIDs : list string; o_Grants : option Grants }.

Inductive offer_error : Type :=
| OfferInputMode
| OfferLength
| OfferDescription
| OfferNoCode
| OfferNoIssuer
| OfferIssuerURL
| OfferNoConfigurations
| OfferDuplicate (id : string)
| OfferUnknown (id : string)
| OfferNoGrants
| OfferServerNotAdvertised
| OfferServerUnknown (server : string)
| OfferEncode.

(** The number of runes. *)
Definition RuneCountInString (s : string) : Z := blen (runes s).

Definition TxCode_Validate (t : TxCode) : res offer_error unit :=
  if negb (existsb (String.eqb (InputMode t)) [""%string; TxCodeInputModeNumeric; TxCodeInputModeText]) then Err OfferInputMode
  else if Length t <? 0 then Err OfferLength
  else if maxTxCodeDescriptionLength <? RuneCountInString (Description t) then Err OfferDescription
  else Ok tt.

Definition GrantPreAuthorizedCode_Validate (g : GrantPreAuthorizedCode) : res offer_error unit :=
  if String.eqb (g_PreAuthorizedCode g) "" then Err OfferNoCode
  else match g_TxCode g with Some t => TxCode_Validate t | None => Ok tt end.

Definition Grants_Validate (g : Grants) : res offer_error unit :=
  match PreAuthorizedCode g with Some p => GrantPreAuthorizedCode_Validate p | None => Ok tt end.

(** net/url's, of an issuer's identifier: whether it parses to an absolute URL
    with no query and no fragment; and the text of an offer. *)
Class OfferText : Type := {
  absolute_url : string -> bool;
  marshal_offer : CredentialOffer -> option string;
  QueryEscape : string -> string;
  JoinPath : string -> string -> string
}.

Fixpoint duplicate_loop (seen : gset string) (ids : list string) : res offer_error unit :=
  match ids with
  | [] => Ok tt
  | id :: ids => if bool_decide (id ∈ seen) then Err (OfferDuplicate id) else duplicate_loop ({[id]} ∪ seen) ids
  end.

Fixpoint has_char (c : Ascii.ascii) (s : string) : bool :=
  match s with EmptyString => false | String c' s => Ascii.eqb c c' || has_char c s end.

Section Offers.
Context `{OfferText}.

Definition CredentialOffer_Validate (o : CredentialOffer) : res offer_error unit :=
  if String.eqb (CredentialIssuer o) "" then Err OfferNoIssuer
  else if negb (absolute_url (CredentialIssuer o)) || has_char "#"%char (CredentialIssuer o) then Err OfferIssuerURL
  else if blen (o_ConfigurationIDs o) =? 0 then Err OfferNoConfigurations
  else
    let? _ := duplicate_loop ∅ (o_ConfigurationIDs o) in
    match o_Grants o with Some g => Grants_Validate g | None => Ok tt end.

Definition AppendToURL (o : CredentialOffer) (base : string) : res offer_error string :=
  match marshal_offer o with
  | None => Err OfferEncode
  | Some encoded =>
      let sep := if has_char "?"%char base then "&" else "?" in
      Ok (base ++ sep ++ "credential_offer=" ++ QueryEscape encoded)%string
  end.

Definition checkGrantAuthorizationServer (value : string) (servers : list string) : res offer_error unit :=
  if String.eqb value "" then Ok tt
  else if blen servers <? 2 then Err OfferServerNotAdvertised
  else if existsb (String.eqb value) servers then Ok tt
  else Err (OfferServerUnknown value).

Fixpoint supported_loop (supported : string -> bool) (ids : list string) : res offer_error unit :=
  match ids with
  | [] => Ok tt
  | id :: ids => if negb (supported id) then Err (OfferUnknown id) else supported_loop supported ids
  end.

(** Of a configuration, the ids it supports and its Authorization Servers. *)
Definition validateCredentialOffer (o : CredentialOffer) (supported : string -> bool) (servers : list string) : res offer_error unit :=
  let? _ := CredentialOffer_Validate o in
  let? _ := supported_loop supported (o_ConfigurationIDs o) in
  match o_Grants o with
  | None => Ok tt
  | Some g =>
      match AuthorizationCode g, PreAuthorizedCode g with
      | None, None => Err OfferNoGrants
      | a, p =>
          let? _ := match a with Some a => checkGrantAuthorizationServer (ga_AuthorizationServer a) servers | None => Ok tt end in
          match p with Some p => checkGrantAuthorizationServer (gp_AuthorizationServer p) servers | None => Ok tt end
      end
  end.
End Offers.

Fixpoint all_digits (rs : list (Z * bytes)) : bool :=
  match rs with [] => true | (r, _) :: rs => (48 <=? r) && (r <=? 57) && all_digits rs end.

Definition txCodeFor (txCode description : string) : TxCode :=
  {| InputMode := if all_digits (runes txCode) then TxCodeInputModeNumeric else TxCodeInputModeText;
     Length := RuneCountInString txCode; Description := description |}.
