(* ===== verification/IssuerStores.v ===== *)
(** * What a Credential Issuer keeps, and where

    [issuer]'s records (nonce.go, pre_authorized_code_store.go,
    deferred_credential_store.go, notification_store.go,
    credential_offer_store.go), each store a class with its laws, and
    [storage]'s in-memory stores as their instances.  Credential Issuers may
    share a store: every record has its Owner.  The in-memory stores copy in
    and out under a mutex, so a call is one step and its clones are the values. *)
From S2P Require Import Prelude Json Text JwtDate TxStore CredentialOffer.
#[local] Open Scope Z_scope.

(** ** Records *)

Record NonceRecord : Type := { n_Owner : string; n_ExpiresAt : Z }.

(** Of a code: [TxCodeHash] is empty where none is asked for. *)
Record PreAuthorizedCodeRecord : Type := {
  c_Owner : string;
  TxCodeHash : string;
  Scopes : list string;
  CredentialConfigurationIDs : list string;
  c_ExpiresAt : Z;
  c_Subject : string
}.

Inductive DeferredTransactionStatus : Type := DeferredTransactionPending | DeferredTransactionIssued | DeferredTransactionDenied.

Record DeferredTransactionRecord : Type := {
  d_Owner : string;
  d_ClientID : string;
  d_Subject : string;
  d_Status : DeferredTransactionStatus;
  d_Credentials : list string;
  d_NotificationID : string;
  d_ConfigurationID : string;
  BindingKeys : list bytes;
  d_ExpiresAt : Z;
  KeyAttestations : list string;
  ProofKeyHeaders : list (option bytes);
  Reference : string
}.

Record CredentialOfferRecord : Type := { of_Reference : string; Offer : CredentialOffer; of_ExpiresAt : Z }.

Record NotificationRecord : Type := { t_Owner : string; t_ClientID : string; t_Subject : string; t_ExpiresAt : Z }.

(** ** Stores *)

Inductive nonce_error : Type := ErrNonceUnknown | NonceStoreFailed.

(** Methods that prune are given the store's own clock. *)
Class NonceStore (St : Type) : Type := {
  Nonce_Issue : Z -> string -> NonceRecord -> St -> res nonce_error unit * St;
  Nonce_Consume : string -> string -> St -> res nonce_error NonceRecord * St;
  Nonce_Spend : Z -> string -> NonceRecord -> St -> res nonce_error unit * St
}.

Inductive code_error : Type :=
| ErrPreAuthorizedCodeUnknown
| ErrWrongTxCode
| ErrTooManyTxCodeAttempts
| ErrTxCodeRequired
| ErrTxCodeUnexpected
| CodeRefused                          (* accept's own *)
| CodeStoreFailed.

(** [accept] says whether it accepts a record, and leaves an [X] of its own: a
    Consume gives what the last call of it left, with the error, or the record,
    and the count of wrong attempts. *)
Class PreAuthorizedCodeStore (St : Type) : Type := {
  Code_Issue : Z -> string -> PreAuthorizedCodeRecord -> St -> res code_error unit * St;
  Code_Consume : forall {X : Type}, string -> string -> Z -> (PreAuthorizedCodeRecord -> bool * X) -> St ->
    (res code_error PreAuthorizedCodeRecord * Z * option (bool * X)) * St;
  Code_Invalidate : string -> St -> res code_error unit * St
}.

Inductive deferred_error : Type :=
| ErrDeferredTransactionUnknown
| DeferredStoreFailed.

(** An Update's [fn] refuses with an [E] of its own, and leaves an [X]: an
    Update gives what its last call of it left. *)
Class DeferredTransactionStore (St : Type) : Type := {
  Deferred_Get : string -> St -> res deferred_error DeferredTransactionRecord;
  Deferred_Invalidate : string -> St -> res deferred_error unit * St;
  Deferred_Create : Z -> string -> DeferredTransactionRecord -> St -> res deferred_error unit * St;
  Deferred_Update : forall {E X : Type}, string -> (DeferredTransactionRecord -> res E DeferredTransactionRecord * X) -> St ->
    (res (deferred_error + E) unit * option X) * St
}.

Inductive notification_error : Type := ErrNotificationIDUnknown | NotificationStoreFailed.

Class NotificationStore (St : Type) : Type := {
  Notification_Issue : Z -> string -> NotificationRecord -> St -> res notification_error unit * St;
  Notification_Get : string -> St -> res notification_error NotificationRecord
}.

(** An offer's failures are not told apart. *)
Class CredentialOfferStore (St : Type) : Type := {
  Offer_Store : Z -> CredentialOfferRecord -> St -> bool * St;
  Offer_Get : string -> St -> option CredentialOfferRecord
}.

(** ** What every store promises

    Failures of its own allowed, before or after it saved, and records dropped
    at any time - but for a spent nonce's, kept until it expires. *)

Class NonceStoreLaws (St : Type) `{NonceStore St} : Type := {
  nonces : St -> gmap string NonceRecord;
  Nonce_Issue_law now n r s : let '(x, s') := Nonce_Issue now n r s in (nonces s' ⊆ nonces s \/ nonces s' ⊆ <[n := r]> (nonces s)) /\
    (x = Ok tt -> nonces s' !! n = Some r) /\
    forall k o, k <> n -> nonces s !! k = Some o -> now <= n_ExpiresAt o -> nonces s' !! k = Some o;
  Nonce_Consume_law n owner s : let '(x, s') := Nonce_Consume n owner s in
    nonces s' ⊆ nonces s /\
    (forall r, x = Ok r -> nonces s !! n = Some r /\ n_Owner r = owner /\ nonces s' ⊆ delete n (nonces s)) /\
    forall k o, k <> n -> nonces s !! k = Some o -> nonces s' !! k = Some o;
  Nonce_Spend_law now n r s : let '(x, s') := Nonce_Spend now n r s in
    (nonces s' ⊆ nonces s \/ nonces s !! n = None /\ nonces s' ⊆ <[n := r]> (nonces s)) /\
    (x = Ok tt -> nonces s !! n = None /\ nonces s' !! n = Some r) /\
    forall k o, nonces s !! k = Some o -> now <= n_ExpiresAt o -> nonces s' !! k = Some o
}.

(** Whether a transaction code is compared: the record asks for one, one came,
    and no more than [maxAttempts] were wrong. *)
Definition attempts_left (maxAttempts attempts : Z) : bool := (maxAttempts <=? 0) || (attempts <? maxAttempts).

Definition spent_attempt (maxAttempts attempts : Z) : bool := (0 <? maxAttempts) && (maxAttempts <=? attempts).

Class PreAuthorizedCodeStoreLaws (St : Type) `{PreAuthorizedCodeStore St} : Type := {
  codes : St -> gmap string (PreAuthorizedCodeRecord * Z);    (* with its wrong attempts *)
  codes_ok : St -> Prop;
  codes_attempts s k r a : codes_ok s -> codes s !! k = Some (r, a) -> 0 <= a;
  Code_Issue_law now k r s : codes_ok s -> let '(x, s') := Code_Issue now k r s in
    codes_ok s' /\ (codes s' ⊆ codes s \/ exists a, codes s' ⊆ <[k := (r, a)]> (codes s));
  Code_Consume_law {X} k want max (accept : PreAuthorizedCodeRecord -> bool * X) s : codes_ok s ->
    let '((x, n, said), s') := Code_Consume k want max accept s in
    codes_ok s' /\
    (codes s' ⊆ codes s \/ exists r a, codes s !! k = Some (r, a) /\ codes s' ⊆ <[k := (r, a + 1)]> (codes s)) /\
    (forall r, x = Ok r -> exists a y, codes s !! k = Some (r, a) /\ want = TxCodeHash r /\
      (TxCodeHash r <> EmptyString -> attempts_left max a = true) /\ accept r = (true, y) /\ said = Some (true, y) /\
      codes s' ⊆ delete k (codes s)) /\
    (x = Err CodeRefused -> exists r a y, codes s !! k = Some (r, a) /\ accept r = (false, y) /\ said = Some (false, y) /\ codes s' ⊆ codes s) /\
    (x = Err ErrWrongTxCode -> exists r a, codes s !! k = Some (r, a) /\ TxCodeHash r <> EmptyString /\ want <> TxCodeHash r /\
      attempts_left max a = true /\ n = a + 1 /\ codes s' ⊆ <[k := (r, n)]> (codes s) /\
      (spent_attempt max n = true -> codes s' ⊆ delete k (codes s)));
  Code_Invalidate_law k s : codes_ok s -> let '(x, s') := Code_Invalidate k s in codes_ok s' /\ codes s' ⊆ codes s
}.

Class DeferredTransactionStoreLaws (St : Type) `{DeferredTransactionStore St} : Type := {
  transactions : St -> gmap string DeferredTransactionRecord;
  Deferred_Get_law id s r : Deferred_Get id s = Ok r -> transactions s !! id = Some r;
  Deferred_Invalidate_law id s : let '(x, s') := Deferred_Invalidate id s in transactions s' ⊆ transactions s /\
    (x = Ok tt -> is_Some (transactions s !! id) /\ transactions s' ⊆ delete id (transactions s));
  Deferred_Create_law now id r s : let '(x, s') := Deferred_Create now id r s in
    transactions s' ⊆ transactions s \/
    exists v, v ⊆ transactions s /\ v !! id = None /\ transactions s' ⊆ <[id := r]> v;   (* dropped, where it was there *)
  Deferred_Update_law {E X} id (fn : DeferredTransactionRecord -> res E DeferredTransactionRecord * X) s :
    let '((x, said), s') := Deferred_Update id fn s in
    (exists e, x = Err e) /\ transactions s' ⊆ transactions s \/
    exists r r' y, transactions s !! id = Some r /\ fn r = (Ok r', y) /\ transactions s' ⊆ <[id := r']> (transactions s)
}.

Class NotificationStoreLaws (St : Type) `{NotificationStore St} : Type := {
  notifications : St -> gmap string NotificationRecord;
  Notification_Issue_law now id r s : let '(x, s') := Notification_Issue now id r s in
    notifications s' ⊆ notifications s \/ notifications s' ⊆ <[id := r]> (notifications s);
  Notification_Get_law id s r : Notification_Get id s = Ok r -> notifications s !! id = Some r
}.

(** ** In memory

    Each of a map and its pruner. *)

Record pruned_map (V : Type) : Type := { pm_map : gmap string V; pm_at : Z }.
Arguments pm_map {V}. Arguments pm_at {V}. Arguments Build_pruned_map {V}.

Definition pm_empty {V : Type} : pruned_map V := {| pm_map := ∅; pm_at := 0 |}.

(** [s.prune.due], pruneMap and [s.prune.pruned]. *)
Definition pm_prune {V : Type} (now : Z) (expiresAt : V -> Z) (s : pruned_map V) : pruned_map V :=
  if due (pm_at s) (Z.of_nat (size (pm_map s))) then
    let m := pruneMap (pm_map s) now expiresAt in {| pm_map := m; pm_at := pruned (Z.of_nat (size m)) |}
  else s.

Definition pm_set {V : Type} (k : string) (v : V) (s : pruned_map V) : pruned_map V := {| pm_map := <[k := v]> (pm_map s); pm_at := pm_at s |}.
Definition pm_delete {V : Type} (k : string) (s : pruned_map V) : pruned_map V := {| pm_map := delete k (pm_map s); pm_at := pm_at s |}.

Lemma pm_prune_sub {V} now (e : V -> Z) s : pm_map (pm_prune now e s) ⊆ pm_map s.
Proof. unfold pm_prune; destruct (due _ _); [apply map_filter_subseteq|done]. Qed.

Lemma pm_prune_keeps {V} now (e : V -> Z) s k v : pm_map s !! k = Some v -> now <= e v -> pm_map (pm_prune now e s) !! k = Some v.
Proof.
  unfold pm_prune; destruct (due _ _); [|done]; cbn [pm_map]; intros Hk Hn; apply map_lookup_filter_Some; split; [done|].
  apply andb_false_iff; right; by apply Z.ltb_ge.
Qed.

(** Nonces. *)

Definition MemNonceStore : Type := pruned_map NonceRecord.

Definition mem_Nonce_Issue (now : Z) (n : string) (r : NonceRecord) (s : MemNonceStore) : res nonce_error unit * MemNonceStore :=
  (Ok tt, pm_set n r (pm_prune now n_ExpiresAt s)).

Definition mem_Nonce_Consume (n owner : string) (s : MemNonceStore) : res nonce_error NonceRecord * MemNonceStore :=
  match pm_map s !! n with
  | None => (Err ErrNonceUnknown, s)
  | Some r => if negb (String.eqb (n_Owner r) owner) then (Err ErrNonceUnknown, s) else (Ok r, pm_delete n s)
  end.

Definition mem_Nonce_Spend (now : Z) (n : string) (r : NonceRecord) (s : MemNonceStore) : res nonce_error unit * MemNonceStore :=
  match pm_map s !! n with
  | Some _ => (Err ErrNonceUnknown, s)
  | None => (Ok tt, pm_set n r (pm_prune now n_ExpiresAt s))
  end.

#[export] Instance MemNonceStore_store : NonceStore MemNonceStore :=
  {| Nonce_Issue := mem_Nonce_Issue; Nonce_Consume := mem_Nonce_Consume; Nonce_Spend := mem_Nonce_Spend |}.

#[export] Instance MemNonceStore_laws : NonceStoreLaws MemNonceStore.
Proof.
  refine {| nonces := pm_map |}.
  - intros now n r s; cbn; split_and!.
    + right; apply insert_mono, pm_prune_sub.
    + intros _; by rewrite lookup_insert_eq.
    + intros k o Hk Ho Hn; rewrite lookup_insert_ne by done; by apply pm_prune_keeps.
  - intros n owner s; cbn; unfold mem_Nonce_Consume; destruct (pm_map s !! n) as [r|] eqn:E; [|done].
    destruct (String.eqb_spec (n_Owner r) owner); cbn [negb]; [|done]; split_and!; cbn.
    + apply delete_subseteq.
    + by intros r' [= <-].
    + intros k o Hk Ho; by rewrite lookup_delete_ne.
  - intros now n r s; cbn; unfold mem_Nonce_Spend; destruct (pm_map s !! n) as [o|] eqn:E; [split_and!; [by left|done|done]|].
    split_and!; cbn.
    + right; split; [done|]; apply insert_mono, pm_prune_sub.
    + intros _; by rewrite lookup_insert_eq.
    + intros k o Ho Hn; rewrite lookup_insert_ne by (by intros <-; rewrite E in Ho); by apply pm_prune_keeps.
Defined.

(** Codes, with the wrong attempts at each. *)

Record MemPreAuthorizedCodeStore : Type := { c_issued : pruned_map PreAuthorizedCodeRecord; c_attempts : gmap string Z }.

Definition attempts_of (k : string) (s : MemPreAuthorizedCodeStore) : Z := default 0 (c_attempts s !! k).

Definition drop_code (k : string) (s : MemPreAuthorizedCodeStore) : MemPreAuthorizedCodeStore :=
  {| c_issued := pm_delete k (c_issued s); c_attempts := delete k (c_attempts s) |}.

Definition mem_Code_Issue (now : Z) (k : string) (r : PreAuthorizedCodeRecord) (s : MemPreAuthorizedCodeStore)
    : res code_error unit * MemPreAuthorizedCodeStore :=
  let s := if due (pm_at (c_issued s)) (Z.of_nat (size (pm_map (c_issued s)))) then
      let m := pm_prune now c_ExpiresAt (c_issued s) in {| c_issued := m; c_attempts := filter (fun '(c, _) => is_Some (pm_map m !! c)) (c_attempts s) |}
    else s in
  (Ok tt, {| c_issued := pm_set k r (c_issued s); c_attempts := c_attempts s |}).

Definition mem_Code_Consume {X : Type} (k want : string) (maxAttempts : Z) (accept : PreAuthorizedCodeRecord -> bool * X)
    (s : MemPreAuthorizedCodeStore) : (res code_error PreAuthorizedCodeRecord * Z * option (bool * X)) * MemPreAuthorizedCodeStore :=
  match pm_map (c_issued s) !! k with
  | None => ((Err ErrPreAuthorizedCodeUnknown, 0, None), s)
  | Some record =>
      let asked := negb (String.eqb (TxCodeHash record) "") in
      if negb asked && negb (String.eqb want "") then ((Err ErrTxCodeUnexpected, 0, None), s)
      else if asked && String.eqb want "" && attempts_left maxAttempts (attempts_of k s) then ((Err ErrTxCodeRequired, 0, None), s)
      else if asked && negb (attempts_left maxAttempts (attempts_of k s)) then ((Err ErrTooManyTxCodeAttempts, 0, None), drop_code k s)
      else if asked && negb (String.eqb want (TxCodeHash record)) then
        let attempts := attempts_of k s + 1 in
        let s := {| c_issued := c_issued s; c_attempts := <[k := attempts]> (c_attempts s) |} in
        ((Err ErrWrongTxCode, attempts, None), if spent_attempt maxAttempts attempts then drop_code k s else s)
      else
        let '(ok, x) := accept record in
        if ok then ((Ok record, 0, Some (true, x)), drop_code k s) else ((Err CodeRefused, 0, Some (false, x)), s)
  end.

Definition mem_Code_Invalidate (k : string) (s : MemPreAuthorizedCodeStore) : res code_error unit * MemPreAuthorizedCodeStore :=
  (Ok tt, drop_code k s).

#[export] Instance MemPreAuthorizedCodeStore_store : PreAuthorizedCodeStore MemPreAuthorizedCodeStore :=
  {| Code_Issue := mem_Code_Issue; Code_Consume := @mem_Code_Consume; Code_Invalidate := mem_Code_Invalidate |}.

Definition mem_codes (s : MemPreAuthorizedCodeStore) : gmap string (PreAuthorizedCodeRecord * Z) :=
  map_imap (fun k r => Some (r, attempts_of k s)) (pm_map (c_issued s)).

Lemma mem_codes_lookup s k : mem_codes s !! k = (fun r => (r, attempts_of k s)) <$> pm_map (c_issued s) !! k.
Proof. unfold mem_codes; rewrite map_lookup_imap; by destruct (pm_map (c_issued s) !! k). Qed.

Lemma mem_codes_drop k s : mem_codes (drop_code k s) = delete k (mem_codes s).
Proof.
  apply map_eq; intros j; rewrite mem_codes_lookup; cbn; destruct (decide (k = j)) as [<-|Hk]; [by rewrite !lookup_delete_eq|].
  rewrite !lookup_delete_ne, mem_codes_lookup by done; unfold attempts_of; cbn; by rewrite lookup_delete_ne.
Qed.

Lemma mem_codes_attempt k s r a : pm_map (c_issued s) !! k = Some r ->
  mem_codes {| c_issued := c_issued s; c_attempts := <[k := a]> (c_attempts s) |} = <[k := (r, a)]> (mem_codes s).
Proof.
  intros Hr; apply map_eq; intros j; rewrite mem_codes_lookup; cbn; destruct (decide (k = j)) as [<-|Hk].
  - rewrite Hr, lookup_insert_eq; unfold attempts_of; cbn; by rewrite lookup_insert_eq.
  - rewrite lookup_insert_ne, mem_codes_lookup by done; unfold attempts_of; cbn; by rewrite lookup_insert_ne.
Qed.

(** No count of wrong attempts is below none. *)
Definition mem_codes_ok (s : MemPreAuthorizedCodeStore) : Prop := map_Forall (fun _ a => 0 <= a) (c_attempts s).

Lemma attempts_of_nonneg s k : mem_codes_ok s -> 0 <= attempts_of k s.
Proof. intros Hok; unfold attempts_of; destruct (c_attempts s !! k) eqn:E; cbn; [by apply (Hok k)|done]. Qed.

Lemma drop_code_ok k s : mem_codes_ok s -> mem_codes_ok (drop_code k s).
Proof. intros Hok i a Hi; cbn in Hi; apply lookup_delete_Some in Hi as [_ Hi]; by apply (Hok i). Qed.

Lemma mem_Code_Issue_ok now k r s : mem_codes_ok s -> mem_codes_ok (mem_Code_Issue now k r s).2.
Proof.
  intros Hok; unfold mem_Code_Issue; destruct (due _ _); intros i a; cbn [snd c_attempts]; [|by apply Hok].
  intros [Hi _]%map_lookup_filter_Some; by apply (Hok i).
Qed.

Lemma mem_Code_Consume_ok {X : Type} k want max (accept : PreAuthorizedCodeRecord -> bool * X) s :
  mem_codes_ok s -> mem_codes_ok (mem_Code_Consume k want max accept s).2.
Proof.
  intros Hok; unfold mem_Code_Consume; repeat case_match; cbn [snd]; simplify_eq; try done; try by apply drop_code_ok.
  all: try apply drop_code_ok; intros i a Hi; cbn in Hi; apply lookup_insert_Some in Hi as [[<- <-]|[_ Hi]]; [|by apply (Hok i)].
  all: pose proof (attempts_of_nonneg s k Hok); lia.
Qed.

Lemma mem_Code_Consume_law {X : Type} k want max (accept : PreAuthorizedCodeRecord -> bool * X) s :
  let '((x, n, said), s') := mem_Code_Consume k want max accept s in
  (mem_codes s' ⊆ mem_codes s \/ exists r a, mem_codes s !! k = Some (r, a) /\ mem_codes s' ⊆ <[k := (r, a + 1)]> (mem_codes s)) /\
  (forall r, x = Ok r -> exists a y, mem_codes s !! k = Some (r, a) /\ want = TxCodeHash r /\
    (TxCodeHash r <> EmptyString -> attempts_left max a = true) /\ accept r = (true, y) /\ said = Some (true, y) /\
    mem_codes s' ⊆ delete k (mem_codes s)) /\
  (x = Err CodeRefused -> exists r a y, mem_codes s !! k = Some (r, a) /\ accept r = (false, y) /\ said = Some (false, y) /\ mem_codes s' ⊆ mem_codes s) /\
  (x = Err ErrWrongTxCode -> exists r a, mem_codes s !! k = Some (r, a) /\ TxCodeHash r <> EmptyString /\ want <> TxCodeHash r /\
    attempts_left max a = true /\ n = a + 1 /\ mem_codes s' ⊆ <[k := (r, n)]> (mem_codes s) /\
    (spent_attempt max n = true -> mem_codes s' ⊆ delete k (mem_codes s))).
Proof.
  unfold mem_Code_Consume; destruct (pm_map (c_issued s) !! k) as [r|] eqn:Er; [|split_and!; [by left|done..]].
  assert (Hk : mem_codes s !! k = Some (r, attempts_of k s)) by (by rewrite mem_codes_lookup, Er).
  destruct (String.eqb_spec (TxCodeHash r) "") as [Hh|Hh]; cbn [negb andb].
  - destruct (String.eqb_spec want ""); cbn [negb]; [|split_and!; [by left|done..]].
    destruct (accept r) as [[|] y] eqn:Ea; split_and!; try done; try (by left); try (left; rewrite mem_codes_drop; apply delete_subseteq).
    + intros r' [= <-]; exists (attempts_of k s), y; split_and!; try done; [congruence|by rewrite mem_codes_drop].
    + intros _; by exists r, (attempts_of k s), y.
  - destruct (String.eqb_spec want "") as [->|Hw]; destruct (attempts_left max (attempts_of k s)) eqn:El; cbn [negb andb].
    + split_and!; [by left|done..].
    + split_and!; [left; rewrite mem_codes_drop; apply delete_subseteq|done..].
    + destruct (String.eqb_spec want (TxCodeHash r)) as [Hwant|Hwant]; cbn [negb].
      { destruct (accept r) as [[|] y] eqn:Ea; split_and!; try done; try (by left); try (left; rewrite mem_codes_drop; apply delete_subseteq).
        - intros r' [= <-]; exists (attempts_of k s), y; split_and!; try done; by rewrite mem_codes_drop.
        - intros _; by exists r, (attempts_of k s), y. }
      { set (s1 := {| c_issued := c_issued s; c_attempts := _ |}); assert (Hs1 : mem_codes s1 = <[k := (r, attempts_of k s + 1)]> (mem_codes s)).
        { by apply mem_codes_attempt. }
        split_and!; try done.
        - right; exists r, (attempts_of k s); split; [done|]; destruct (spent_attempt _ _); [|by rewrite Hs1].
          rewrite mem_codes_drop, Hs1; apply delete_subseteq.
        - intros _; exists r, (attempts_of k s); split_and!; try done.
          + destruct (spent_attempt _ _); [|by rewrite Hs1]; rewrite mem_codes_drop, Hs1; apply delete_subseteq.
          + intros ->; by rewrite mem_codes_drop, Hs1, delete_insert_eq. }
    + split_and!; [left; rewrite mem_codes_drop; apply delete_subseteq|done..].
Qed.

#[export] Instance MemPreAuthorizedCodeStore_laws : PreAuthorizedCodeStoreLaws MemPreAuthorizedCodeStore.
Proof.
  refine {| codes := mem_codes; codes_ok := mem_codes_ok |}.
  - intros s k r a Hok; rewrite mem_codes_lookup; destruct (pm_map (c_issued s) !! k); cbn; [|done]; intros [= _ <-]; by apply attempts_of_nonneg.
  - intros now k r s Hok; split; [by apply (mem_Code_Issue_ok now k r s)|]; right; set (s1 := if due _ _ then _ else _).
    exists (attempts_of k s1); apply map_subseteq_spec; intros j [o a]; rewrite mem_codes_lookup; cbn; destruct (decide (k = j)) as [<-|Hk].
    + by rewrite !lookup_insert_eq.
    + rewrite !lookup_insert_ne, mem_codes_lookup by done; unfold s1, attempts_of; destruct (due _ _); cbn [c_issued c_attempts]; [|done].
      destruct (pm_map (pm_prune _ _ _) !! j) as [o'|] eqn:E; cbn; [|done]; intros [= -> <-].
      pose proof (lookup_weaken _ _ _ _ E (pm_prune_sub _ _ _)) as E'; rewrite E'; cbn; do 2 f_equal.
      destruct (c_attempts s !! j) as [n|] eqn:En; [by rewrite (map_lookup_filter_Some_2 _ _ _ n En)|].
      rewrite map_lookup_filter_None_2; [done|by left].
  - intros X k want max accept s Hok; pose proof (mem_Code_Consume_ok k want max accept s Hok); pose proof (mem_Code_Consume_law k want max accept s).
    cbn; by destruct (mem_Code_Consume k want max accept s) as [[[x n] said] s'].
  - intros k s Hok; cbn; split; [by apply drop_code_ok|rewrite mem_codes_drop; apply delete_subseteq].
Defined.

(** Deferred transactions; one invalidated is kept, so its identifier is not used again. *)

Record MemDeferredTransactionStore : Type := { d_records : pruned_map DeferredTransactionRecord; d_invalidated : gset string }.

Definition d_prune (now : Z) (s : MemDeferredTransactionStore) : MemDeferredTransactionStore :=
  if due (pm_at (d_records s)) (Z.of_nat (size (pm_map (d_records s)))) then
    let m := pm_prune now d_ExpiresAt (d_records s) in
    {| d_records := m; d_invalidated := filter (fun id => is_Some (pm_map m !! id)) (d_invalidated s) |}
  else s.

Definition mem_Deferred_Get (id : string) (s : MemDeferredTransactionStore) : res deferred_error DeferredTransactionRecord :=
  if bool_decide (id ∈ d_invalidated s) then Err ErrDeferredTransactionUnknown
  else match pm_map (d_records s) !! id with Some r => Ok r | None => Err ErrDeferredTransactionUnknown end.

Definition without_Credentials (r : DeferredTransactionRecord) : DeferredTransactionRecord := {|
  d_Owner := d_Owner r; d_ClientID := d_ClientID r; d_Subject := d_Subject r; d_Status := d_Status r; d_Credentials := [];
  d_NotificationID := d_NotificationID r; d_ConfigurationID := d_ConfigurationID r; BindingKeys := BindingKeys r; d_ExpiresAt := d_ExpiresAt r;
  KeyAttestations := KeyAttestations r; ProofKeyHeaders := ProofKeyHeaders r; Reference := Reference r |}.

Definition mem_Deferred_Invalidate (id : string) (s : MemDeferredTransactionStore) : res deferred_error unit * MemDeferredTransactionStore :=
  match mem_Deferred_Get id s with
  | Err e => (Err e, s)
  | Ok r => (Ok tt, {| d_records := pm_set id (without_Credentials r) (d_records s); d_invalidated := {[id]} ∪ d_invalidated s |})
  end.

Definition mem_Deferred_Create (now : Z) (id : string) (r : DeferredTransactionRecord) (s : MemDeferredTransactionStore)
    : res deferred_error unit * MemDeferredTransactionStore :=
  if String.eqb id "" then (Err DeferredStoreFailed, s)
  else
    let s := d_prune now s in
    if is_Some_b (pm_map (d_records s) !! id) || bool_decide (id ∈ d_invalidated s) then (Err DeferredStoreFailed, s)
    else (Ok tt, {| d_records := pm_set id r (d_records s); d_invalidated := d_invalidated s |}).

(** DeferredTransactionStore.Put, of an application's own. *)
Definition mem_Deferred_Put (now : Z) (id : string) (r : DeferredTransactionRecord) (s : MemDeferredTransactionStore) : MemDeferredTransactionStore :=
  let s := d_prune now s in {| d_records := pm_set id r (d_records s); d_invalidated := d_invalidated s ∖ {[id]} |}.

Definition mem_Deferred_Update {E X : Type} (id : string) (fn : DeferredTransactionRecord -> res E DeferredTransactionRecord * X)
    (s : MemDeferredTransactionStore) : (res (deferred_error + E) unit * option X) * MemDeferredTransactionStore :=
  match mem_Deferred_Get id s with
  | Err e => ((Err (inl e), None), s)
  | Ok r => match fn r with
    | (Err e, x) => ((Err (inr e), Some x), s)
    | (Ok r, x) => ((Ok tt, Some x), {| d_records := pm_set id r (d_records s); d_invalidated := d_invalidated s |})
    end
  end.

#[export] Instance MemDeferredTransactionStore_store : DeferredTransactionStore MemDeferredTransactionStore :=
  {| Deferred_Get := mem_Deferred_Get; Deferred_Invalidate := mem_Deferred_Invalidate; Deferred_Create := mem_Deferred_Create;
     Deferred_Update := @mem_Deferred_Update |}.

Definition mem_transactions (s : MemDeferredTransactionStore) : gmap string DeferredTransactionRecord :=
  filter (fun '(id, _) => id ∉ d_invalidated s) (pm_map (d_records s)).

Lemma mem_transactions_lookup s id r : mem_transactions s !! id = Some r <-> pm_map (d_records s) !! id = Some r /\ id ∉ d_invalidated s.
Proof. apply map_lookup_filter_Some. Qed.

Lemma mem_Deferred_Get_ok id s r : mem_Deferred_Get id s = Ok r <-> mem_transactions s !! id = Some r.
Proof.
  rewrite mem_transactions_lookup; unfold mem_Deferred_Get; case_bool_decide; [split; [done|tauto]|].
  destruct (pm_map (d_records s) !! id); split; [intros [= <-]|intros [[= ->] _]|done|by intros []]; done.
Qed.

Lemma mem_transactions_set id r s inv : id ∉ inv ->
  mem_transactions {| d_records := pm_set id r (d_records s); d_invalidated := inv |} ⊆
  <[id := r]> (mem_transactions {| d_records := d_records s; d_invalidated := inv |}).
Proof.
  intros Hn; apply map_subseteq_spec; intros k o [Hk Hi]%mem_transactions_lookup; cbn in Hk, Hi; apply lookup_insert_Some.
  apply lookup_insert_Some in Hk as [[-> ->]|[Hne Hk]]; [by left|right; split; [done|]]; by apply mem_transactions_lookup.
Qed.

(** Pruning shows no transaction that was invalidated. *)
Lemma d_prune_sub now s : mem_transactions (d_prune now s) ⊆ mem_transactions s.
Proof.
  unfold d_prune; destruct (due _ _); [|done]; apply map_subseteq_spec; intros k o [Hk Hi]%mem_transactions_lookup; cbn in Hk, Hi.
  apply mem_transactions_lookup; split; [by eapply lookup_weaken, pm_prune_sub|]; intros Hin; apply Hi, elem_of_filter; by split.
Qed.

#[export] Instance MemDeferredTransactionStore_laws : DeferredTransactionStoreLaws MemDeferredTransactionStore.
Proof.
  refine {| transactions := mem_transactions |}.
  - intros id s r; cbn; apply mem_Deferred_Get_ok.
  - intros id s; cbn; unfold mem_Deferred_Invalidate; destruct (mem_Deferred_Get id s) as [r|e] eqn:E; [|by split].
    apply mem_Deferred_Get_ok in E.
    assert (Hd : mem_transactions {| d_records := pm_set id (without_Credentials r) (d_records s); d_invalidated := {[id]} ∪ d_invalidated s |} ⊆
      delete id (mem_transactions s)).
    { apply map_subseteq_spec; intros k o [Hk Hi]%mem_transactions_lookup; cbn in Hk, Hi; assert (Hne : id <> k) by set_solver.
      rewrite lookup_insert_ne in Hk by done; rewrite lookup_delete_ne by done; apply mem_transactions_lookup; split; [done|set_solver]. }
    split; [etransitivity; [exact Hd|apply delete_subseteq]|]; intros _; split; [by eexists|done].
  - intros now id r s; cbn; unfold mem_Deferred_Create; destruct (String.eqb id ""); [by left|].
    pose proof (d_prune_sub now s) as Hp; destruct (pm_map (d_records (d_prune now s)) !! id) as [o|] eqn:E; cbn [is_Some_b orb]; [by left|].
    case_bool_decide as Hi; [by left|].
    right; exists (mem_transactions (d_prune now s)); split_and!; [done| |].
    + destruct (mem_transactions (d_prune now s) !! id) eqn:Eo; [|done]; apply mem_transactions_lookup in Eo as [Eo _]; congruence.
    + etransitivity; [by apply mem_transactions_set|]; by destruct (d_prune now s).
  - intros E X id fn s; cbn; unfold mem_Deferred_Update; destruct (mem_Deferred_Get id s) as [r|e] eqn:Er; [|left; split; [by eexists|done]].
    apply mem_Deferred_Get_ok in Er; destruct (fn r) as [[r'|e] y] eqn:Ef; [|left; split; [by eexists|done]].
    right; exists r, r', y; split_and!; [done|done|]; apply mem_transactions_lookup in Er as [_ Hi].
    etransitivity; [by apply mem_transactions_set|]; by destruct s.
Defined.

(** Notifications. *)

Definition MemNotificationStore : Type := pruned_map NotificationRecord.

Definition mem_Notification_Issue (now : Z) (id : string) (r : NotificationRecord) (s : MemNotificationStore)
    : res notification_error unit * MemNotificationStore := (Ok tt, pm_set id r (pm_prune now t_ExpiresAt s)).

Definition mem_Notification_Get (id : string) (s : MemNotificationStore) : res notification_error NotificationRecord :=
  match pm_map s !! id with Some r => Ok r | None => Err ErrNotificationIDUnknown end.

#[export] Instance MemNotificationStore_store : NotificationStore MemNotificationStore :=
  {| Notification_Issue := mem_Notification_Issue; Notification_Get := mem_Notification_Get |}.

#[export] Instance MemNotificationStore_laws : NotificationStoreLaws MemNotificationStore.
Proof.
  refine {| notifications := pm_map |}.
  - intros now id r s; cbn; right; apply insert_mono, pm_prune_sub.
  - intros id s r; cbn; unfold mem_Notification_Get; destruct (pm_map s !! id); [by intros [= <-]|done].
Defined.

(** Offers. *)

Definition MemCredentialOfferStore : Type := pruned_map CredentialOfferRecord.

Definition mem_Offer_Store (now : Z) (r : CredentialOfferRecord) (s : MemCredentialOfferStore) : bool * MemCredentialOfferStore :=
  (true, pm_set (of_Reference r) r (pm_prune now of_ExpiresAt s)).

Definition mem_Offer_Get (reference : string) (s : MemCredentialOfferStore) : option CredentialOfferRecord := pm_map s !! reference.

#[export] Instance MemCredentialOfferStore_store : CredentialOfferStore MemCredentialOfferStore :=
  {| Offer_Store := mem_Offer_Store; Offer_Get := mem_Offer_Get |}.
