(* ===== verification/IssuerConfig.v ===== *)
(** * A Credential Issuer's configuration: [issuer]'s config.go, assurance.go, metadata.go and encryption.go, and metadata.go

    What an Issuer is made of, and the checks [New] makes of it: of each
    credential configuration, of the stores and signers its endpoints need, and
    of what AssuranceProduction asks besides.  A dependency is what the checks
    can see of it.  The text of an error names the setting refused.  Checks that
    range over a Go map see its entries in some order. *)
From S2P Require Import Prelude Json DcqlQuery Text JwtDate Jws X509 CertChain Cose Reasons SdJwt SdIssue.
From Stdlib Require Import Ascii SpecFloat.
#[local] Open Scope Z_scope.

(** ** Configuration *)

(** An fapi.URL that is set: its String, its Scheme, and whether it has a
    query or a fragment. *)
Record fapi_URL : Type := { u_String : string; u_Scheme : string; u_Suffix : bool }.

Definition IsZero (u : option fapi_URL) : bool := negb (is_Some_b u).
Definition URL_String (u : option fapi_URL) : string := match u with Some u => u_String u | None => EmptyString end.

Record Endpoints : Type := {
  ep_Credential : option fapi_URL;
  ep_Nonce : option fapi_URL;
  ep_DeferredCredential : option fapi_URL;
  ep_Notification : option fapi_URL
}.

Record Limits : Type := {
  NonceLifetime : Z;
  CredentialOfferLifetime : Z;
  DeferredIssuancePollInterval : Z;
  DeferredTransactionLifetime : Z;
  AccessTokenLifetime : Z;
  MaxTxCodeAttempts : Z;
  MaxProofAge : Z;
  NotificationLifetime : Z
}.

Record KeyAttestationRequirement : Type := { kr_KeyStorage : list string; kr_UserAuthentication : list string }.
Record ProofTypeConfiguration : Type := { ProofSigningAlgValuesSupported : list string; KeyAttestationsRequired : option KeyAttestationRequirement }.

Record Logo : Type := { logo_URI : string; logo_AltText : string }.
Record Display : Type := { disp_Name : string; disp_Locale : string; disp_Logo : option Logo }.
Record CredentialDisplay : Type := { cdisp_Name : string; cdisp_Locale : string; cdisp_Logo : option Logo; cdisp_BackgroundImage : option string }.
Record ClaimDisplay : Type := { cld_Name : string; cld_Locale : string }.
Record ClaimsDescription : Type := { cl_Path : list path_element; cl_Mandatory : option bool; cl_Display : list ClaimDisplay }.
Record CredentialMetadata : Type := { cmd_Display : list CredentialDisplay; cmd_Claims : list ClaimsDescription }.

Definition IsMandatory (c : ClaimsDescription) : bool := match cl_Mandatory c with Some b => b | None => false end.

Definition ProofTypeJWT : string := "jwt".
Definition ProofTypeAttestation : string := "attestation".
Definition SdJwtFormat : string := "dc+sd-jwt".
Definition MdocFormat : string := "mso_mdoc".

Record CredentialConfiguration : Type := {
  cc_Format : string;
  cc_Scope : string;
  CryptographicBindingMethodsSupported : list string;
  CredentialSigningAlgValuesSupported : list string;
  ProofTypesSupported : gmap string ProofTypeConfiguration;
  cc_VCT : string;
  cc_DocType : string;
  CredentialSigningAlgValuesSupportedCOSE : list Z;
  cc_CredentialMetadata : option CredentialMetadata;
  cc_TypeMetadata : option TypeMetadata
}.

(** A private key, by whether it is one, and of P-256. *)
Record RequestDecryptionKey : Type := { rk_KeyID : string; rk_Key : option bool }.
Record RequestEncryptionSupport : Type := { re_Keys : list RequestDecryptionKey; re_Enc : list string; re_Zip : list string; re_Required : bool }.
Record ResponseEncryptionSupport : Type := { rs_Enc : list string; rs_Zip : list string; rs_Required : bool }.

(** PreAuthorizedCodeClientAuthentication, with the nil pointers it may be. *)
Inductive ClientAuthentication : Type :=
| VerifiedPreAuthorizedCode
| AnonymousPreAuthorizedCode
| NilVerified
| NilAnonymous.

(** An assurance level that is neither is [None]. *)
Record Config : Type := {
  i_Assurance : option AssuranceLevel;
  PreAuthorizedCodeClientAuthentication : option ClientAuthentication;
  i_Issuer : option fapi_URL;
  AllowAttestationProofType : bool;
  AuthorizationServers : list (option fapi_URL);
  i_Endpoints : Endpoints;
  i_Limits : Limits;
  CredentialConfigurationsSupported : gmap string CredentialConfiguration;
  CredentialOfferEndpoint : option fapi_URL;
  NoAttestationStatusCheck : bool;
  RequestEncryption : option RequestEncryptionSupport;
  ResponseEncryption : option ResponseEncryptionSupport;
  i_Display : list Display;
  BatchSize : option Z
}.

(** ** Dependencies *)

Record StoreCapabilities : Type := { Durable : bool; AtomicConsume : bool }.

(** A store that is set: the capabilities it declares, if it does. *)
Definition store_dep : Type := option (option StoreCapabilities).

(** A source of keys: LiveFetchHardened, if it declares any; and what its
    CheckConfiguration says, if it has one. *)
Record key_source : Type := { ks_Hardened : option bool; ks_CheckConfiguration : AssuranceLevel -> bool }.

Record DecoyRange : Type := { dr_Min : Z; dr_Max : Z }.

Section Dependencies.
Context `{Signatures} `{!X509}.

Record SDJWTSigner : Type := {
  sj_Signer : option signer;
  sj_Alg : string;
  sj_KeyID : string;
  sj_IssuerCertificate : option Certificate;
  sj_IssuerIntermediates : list Certificate;
  sj_Decoys : option DecoyRange;
  sj_NestedDecoys : option DecoyRange;
  sj_has_Equal : bool                    (* the signer's public key has an Equal method *)
}.

Record MdocSigner : Type := {
  md_Signer : option signer;
  md_Alg : Z;
  md_X5Chain : list bytes;
  md_KeyID : option bytes;
  md_Decoys : option DecoyRange;
  md_has_Equal : bool
}.

(** Random: whether it is set, and whether it is crypto/rand.Reader. *)
Record Dependencies : Type := {
  Nonces : store_dep;
  Nonces_spender : bool;
  NonceKeys : list bytes;
  CredentialDPoPNonces : bool;
  Clock_system : bool;
  Random_set : bool;
  Random_reader : bool;
  d_SDJWTSigner : option SDJWTSigner;
  d_MdocSigner : option MdocSigner;
  AttestationVerifier : option key_source;
  AttestationStatus : option (AssuranceLevel -> bool);
  ProofBindingKeys : option key_source;
  CredentialOffers : store_dep;
  DeferredTransactions : store_dep;
  Notifications : store_dep;
  NotificationHandler : bool;
  PreAuthorizedCodes : store_dep;
  AccessTokens : bool;
  Audit : bool
}.

(** [serial] tells the Issuers of one deployment apart: each reads a store back
    for itself. *)
Record Issuer : Type := { i_cfg : Config; i_deps : Dependencies; i_serial : nat }.

(** ** Checks

    A check's errors; none is [nil]. *)
Definition errs : Type := list string.

Definition refuse (b : bool) (what : string) : errs := if b then [what] else [].

(** The first of some checks that fails: [return err] between them. *)
Fixpoint first_of (checks : list errs) : errs :=
  match checks with
  | [] => []
  | e :: checks => match e with [] => first_of checks | _ => e end
  end.

Definition prefixError (prefix : string) (e : errs) : errs := map (String.append prefix) e.

(** errors.Join of errors, as one. *)
Definition join_errs (l : list errs) : errs := concat l.

(** ** Credential configurations *)

Definition Display_Validate (logo : option Logo) : errs :=
  match logo with Some l => refuse (String.eqb (logo_URI l) "") "logo: uri is required" | None => [] end.

Definition CredentialDisplay_Validate (d : CredentialDisplay) : errs :=
  first_of [refuse (String.eqb (cdisp_Name d) "") "name is required"; Display_Validate (cdisp_Logo d);
    refuse (match cdisp_BackgroundImage d with Some uri => String.eqb uri "" | None => false end) "background_image: uri is required"].

(** strings.ToLower, and json.Marshal of a path. *)
Class ConfigText : Type := { ToLower : string -> string; path_text : list path_element -> option string }.
Context `{!ConfigText}.

Fixpoint locales_loop (seen : gset string) (locales : list string) : errs :=
  match locales with
  | [] => []
  | l :: locales =>
      if bool_decide (ToLower l ∈ seen) then ["a second object for language"]%string else locales_loop ({[ToLower l]} ∪ seen) locales
  end.
Definition uniqueLocales (locales : list string) : errs := locales_loop ∅ locales.

Definition ValidateDisplays (l : list Display) : errs :=
  first_of (map (fun d => Display_Validate (disp_Logo d)) l ++ [uniqueLocales (map disp_Locale l)]).

(** v == math.Trunc(v), and at most 1<<53. *)
Definition claims_path_element (el : path_element) : bool :=
  match el with
  | PathName _ | PathEvery => true
  | PathInt n => 0 <=? n
  | PathFloat f => SFleb (S754_zero false) f && float_integral f && SFleb f (float_of_int (2 ^ 53))
  | PathInt64 _ | PathOther => false
  end.

Definition ClaimsDescription_Validate (c : ClaimsDescription) : errs :=
  first_of [refuse (blen (cl_Path c) =? 0) "path must be non-empty"; refuse (negb (forallb claims_path_element (cl_Path c))) "path"].

Fixpoint claims_loop (paths : gset string) (l : list ClaimsDescription) : errs :=
  match l with
  | [] => []
  | c :: l =>
      match ClaimsDescription_Validate c with
      | [] =>
          match path_text (cl_Path c) with
          | None => ["path"]%string
          | Some key => if bool_decide (key ∈ paths) then ["path is described twice"]%string else claims_loop ({[key]} ∪ paths) l
          end
      | e => e
      end
  end.
Definition validateClaimsDescriptions (l : list ClaimsDescription) : errs := claims_loop ∅ l.

Definition CredentialMetadata_Validate (cm : CredentialMetadata) : errs :=
  first_of (map CredentialDisplay_Validate (cmd_Display cm) ++ [uniqueLocales (map cdisp_Locale (cmd_Display cm))] ++
    [validateClaimsDescriptions (cmd_Claims cm)] ++ map (fun c => uniqueLocales (map cld_Locale (cl_Display c))) (cmd_Claims cm)).

Context `{SdIssueLib}.

Definition validateTypeMetadata (c : CredentialConfiguration) (m : TypeMetadata) : errs :=
  first_of [refuse (negb (String.eqb (cc_Format c) SdJwtFormat)) "type_metadata is only for format dc+sd-jwt";
    refuse (negb (String.eqb (tm_VCT m) (cc_VCT c))) "type_metadata is for another vct";
    match TypeMetadata_Validate m with Ok _ => [] | Err _ => ["type_metadata"]%string end].

Definition validateFormatSpecific (c : CredentialConfiguration) : errs :=
  first_of [match cc_TypeMetadata c with Some m => validateTypeMetadata c m | None => [] end;
    if String.eqb (cc_Format c) SdJwtFormat then
      first_of [refuse (String.eqb (cc_VCT c) "") "vct is required";
        refuse (0 <? blen (CredentialSigningAlgValuesSupportedCOSE c)) "credential_signing_alg_values_supported_cose must not be set"]
    else if String.eqb (cc_Format c) MdocFormat then
      first_of [refuse (String.eqb (cc_DocType c) "") "doctype is required";
        refuse (0 <? blen (CredentialSigningAlgValuesSupported c)) "credential_signing_alg_values_supported must not be set"]
    else []].

Definition proof_type_validate (p : string * ProofTypeConfiguration) : errs :=
  first_of [refuse (blen (ProofSigningAlgValuesSupported p.2) =? 0) "proof_signing_alg_values_supported must not be empty";
    if String.eqb p.1 ProofTypeJWT || String.eqb p.1 ProofTypeAttestation then
      refuse (negb (forallb IsSupported (ProofSigningAlgValuesSupported p.2))) "proof_signing_alg_values_supported lists one this issuer can't verify"
    else []].

Definition validateBindingAndProofTypes (c : CredentialConfiguration) : errs :=
  first_of ([refuse ((0 <? blen (CryptographicBindingMethodsSupported c)) && (base.size (ProofTypesSupported c) =? 0)%nat) "proof_types_supported is required";
    refuse (negb (base.size (ProofTypesSupported c) =? 0)%nat && (blen (CryptographicBindingMethodsSupported c) =? 0))
      "cryptographic_binding_methods_supported is required"] ++ map proof_type_validate (map_to_list (ProofTypesSupported c))).

Definition CredentialConfiguration_validate (c : CredentialConfiguration) : errs :=
  first_of [refuse (String.eqb (cc_Format c) "") "format is required";
    refuse ((0 <? blen (CredentialSigningAlgValuesSupported c)) && (0 <? blen (CredentialSigningAlgValuesSupportedCOSE c)))
      "credential_signing_alg_values_supported must not be set in both its forms";
    validateFormatSpecific c; validateBindingAndProofTypes c;
    match cc_CredentialMetadata c with Some cm => CredentialMetadata_Validate cm | None => [] end].

(** ** Encryption *)

Definition A128GCM : string := "A128GCM".
Definition A192GCM : string := "A192GCM".
Definition A256GCM : string := "A256GCM".
Definition DEF : string := "DEF".
Definition validEnc (e : string) : bool := existsb (String.eqb e) [A128GCM; A192GCM; A256GCM].

Definition RequestDecryptionKey_validate (k : RequestDecryptionKey) : errs :=
  first_of [refuse (String.eqb (rk_KeyID k) "") "key_id is required"; refuse (negb (is_Some_b (rk_Key k))) "private_key is required";
    refuse (match rk_Key k with Some p256 => negb p256 | None => false end) "private_key must be a P-256 key"].

Fixpoint keys_loop (seen : gset string) (keys : list RequestDecryptionKey) : errs :=
  match keys with
  | [] => []
  | k :: keys =>
      first_of [RequestDecryptionKey_validate k; refuse (bool_decide (rk_KeyID k ∈ seen)) "duplicate key_id"; keys_loop ({[rk_KeyID k]} ∪ seen) keys]
  end.

Definition enc_zip_validate (enc zip : list string) : errs :=
  first_of [refuse (blen enc =? 0) "enc_values_supported must not be empty"; refuse (negb (forallb validEnc enc)) "enc_values_supported: unsupported enc";
    refuse (negb (forallb (String.eqb DEF) zip)) "zip_values_supported: unsupported zip"].

Definition RequestEncryptionSupport_validate (s : option RequestEncryptionSupport) : errs :=
  match s with
  | None => []
  | Some s => first_of [refuse (blen (re_Keys s) =? 0) "keys must not be empty"; keys_loop ∅ (re_Keys s); enc_zip_validate (re_Enc s) (re_Zip s)]
  end.

Definition ResponseEncryptionSupport_validate (s : option ResponseEncryptionSupport) : errs :=
  match s with None => [] | Some s => enc_zip_validate (rs_Enc s) (rs_Zip s) end.

Definition validateEncryption (cfg : Config) : errs :=
  first_of [prefixError "issuer: config: request_encryption: " (RequestEncryptionSupport_validate (RequestEncryption cfg));
    prefixError "issuer: config: response_encryption: " (ResponseEncryptionSupport_validate (ResponseEncryption cfg));
    refuse (is_Some_b (ResponseEncryption cfg) && negb (is_Some_b (RequestEncryption cfg))) "issuer: config: response_encryption needs request_encryption"].

(** ** Signers *)

Context `{!CoseKeys}.

Definition is_production (cfg : Config) : bool := match i_Assurance cfg with Some AssuranceProduction => true | _ => false end.

Definition DecoyRange_validate (d : option DecoyRange) (most : Z) : errs :=
  match d with
  | None => []
  | Some d => refuse ((dr_Min d <? 0) || (dr_Max d <? 1) || (dr_Max d <? dr_Min d) || (most <? dr_Max d)) "decoys must have 0 <= min <= max, 1 <= max <= most"
  end.

Definition checkSignerCertificate (s : signer) (has_Equal : bool) (leaf : Certificate) (intermediates : list Certificate) (production : bool) : errs :=
  first_of [refuse (negb has_Equal) "signer's public key type can't be compared with the certificate's";
    refuse (negb (key_Equal (Public s) (cert_PublicKey leaf))) "the certificate's public key isn't the signer's";
    if 0 <? blen intermediates then match CheckPresentedChain leaf intermediates with Ok _ => [] | Err _ => ["the certificate chain"]%string end else [];
    refuse (production && selfSigned leaf) "the certificate is self-signed, which AssuranceProduction refuses"].

Definition SDJWTSigner_validate (s : option SDJWTSigner) (production : bool) : errs :=
  match s with
  | None => ["sdjwt_signer is required"]%string
  | Some s =>
      match sj_Signer s with
      | None => ["sdjwt_signer.signer is required"]%string
      | Some key =>
          first_of [refuse (String.eqb (sj_Alg s) "") "sdjwt_signer.alg is required"; refuse (negb (IsSupported (sj_Alg s))) "sdjwt_signer.alg is not supported";
            DecoyRange_validate (sj_Decoys s) MaxDecoys; DecoyRange_validate (sj_NestedDecoys s) MaxDecoys;
            match sj_IssuerCertificate s with
            | None => first_of [refuse (0 <? blen (sj_IssuerIntermediates s)) "sdjwt_signer.issuer_intermediates needs issuer_certificate";
                refuse production "sdjwt_signer.issuer_certificate is required under AssuranceProduction"]
            | Some leaf => checkSignerCertificate key (sj_has_Equal s) leaf (sj_IssuerIntermediates s) production
            end]
      end
  end.

(** x509.ParseCertificate of each. *)
Fixpoint parse_each (ders : list bytes) : option (list Certificate) :=
  match ders with
  | [] => Some []
  | der :: ders => match ParseCertificate der, parse_each ders with Some c, Some cs => Some (c :: cs) | _, _ => None end
  end.

Definition mdocMaxDecoys : Z := 1000.

Definition MdocSigner_validate (s : option MdocSigner) (production : bool) : errs :=
  match s with
  | None => ["mdoc_signer is required"]%string
  | Some s =>
      match md_Signer s with
      | None => ["mdoc_signer.signer is required"]%string
      | Some key =>
          first_of [refuse (md_Alg s =? 0) "mdoc_signer.alg is required"; refuse (negb (IsSupportedSigningAlg (md_Alg s))) "mdoc_signer.alg is not supported";
            match AlgForKey (Public key) with
            | Err _ => ["mdoc_signer.signer"]%string
            | Ok keyAlg => refuse (negb (keyAlg =? md_Alg s)) "mdoc_signer.alg doesn't match the signer's key"
            end;
            DecoyRange_validate (md_Decoys s) mdocMaxDecoys; refuse (blen (md_X5Chain s) =? 0) "mdoc_signer.x5chain must include at least one certificate";
            match parse_each (md_X5Chain s) with
            | None => ["mdoc_signer.x5chain"]%string
            | Some [] => []
            | Some (leaf :: rest) => checkSignerCertificate key (md_has_Equal s) leaf rest production
            end]
      end
  end.

Definition has_prefix (prefix s : string) : bool := String.prefix prefix s.

Definition binding_method_ok (format m : string) : bool :=
  String.eqb format SdJwtFormat && (String.eqb m "jwk" || has_prefix "did:" m) || String.eqb format MdocFormat && String.eqb m "cose_key".

Definition checkBindingMethods (c : CredentialConfiguration) : errs :=
  first_of [refuse (blen (CryptographicBindingMethodsSupported c) =? 0) "cryptographic_binding_methods_supported is empty";
    refuse (negb (forallb (binding_method_ok (cc_Format c)) (CryptographicBindingMethodsSupported c))) "cryptographic_binding_methods_supported isn't a binding method"].

(** The leaf the signer's certificate is, if it has one. *)
Definition signerLeaf (c : CredentialConfiguration) (deps : Dependencies) : res errs (option Certificate) :=
  if String.eqb (cc_Format c) SdJwtFormat then
    let algs := CredentialSigningAlgValuesSupported c in
    match d_SDJWTSigner deps with
    | Some s =>
        if (0 <? blen algs) && negb (existsb (String.eqb (sj_Alg s)) algs) then Err ["credential_signing_alg_values_supported doesn't list the signer's"]%string
        else Ok (sj_IssuerCertificate s)
    | None => Ok None
    end
  else if String.eqb (cc_Format c) MdocFormat then
    let algs := CredentialSigningAlgValuesSupportedCOSE c in
    match d_MdocSigner deps with
    | Some s =>
        if (0 <? blen algs) && negb (existsb (Z.eqb (md_Alg s)) algs) then Err ["credential_signing_alg_values_supported doesn't list the signer's"]%string
        else Ok (match md_X5Chain s with der :: _ => ParseCertificate der | [] => None end)
    | None => Ok None
    end
  else Ok None.

Definition checkIssuable (now : Z) (c : CredentialConfiguration) (deps : Dependencies) : errs :=
  match checkBindingMethods c with
  | [] =>
      match signerLeaf c deps with
      | Err e => e
      | Ok None => []
      | Ok (Some leaf) => refuse (negb (now =? time_zero) && ((now <? NotBefore leaf) || (NotAfter leaf <? now))) "the signer's certificate isn't valid now"
      end
  | e => e
  end.

Definition signer_dependencies (now : Z) (cfg : Config) (deps : Dependencies) (c : CredentialConfiguration) : errs :=
  first_of [
    if String.eqb (cc_Format c) SdJwtFormat then SDJWTSigner_validate (d_SDJWTSigner deps) (is_production cfg)
    else if String.eqb (cc_Format c) MdocFormat then MdocSigner_validate (d_MdocSigner deps) (is_production cfg)
    else ["format isn't one this issuer issues"]%string;
    checkIssuable now c deps;
    refuse (match ProofTypesSupported c !! ProofTypeJWT with Some jwt => is_Some_b (KeyAttestationsRequired jwt) | None => false end &&
            negb (is_Some_b (AttestationVerifier deps))) "attestation_verifier is required when the jwt proof type has key_attestations_required";
    refuse (is_Some_b (ProofTypesSupported c !! ProofTypeAttestation) && negb (is_Some_b (AttestationVerifier deps)))
      "attestation_verifier is required when proof_types_supported includes attestation"].

Definition validateSignerDependencies (now : Z) (cfg : Config) (deps : Dependencies) : errs :=
  first_of (map (fun p => signer_dependencies now cfg deps p.2) (map_to_list (CredentialConfigurationsSupported cfg))).

(** ** Stores and endpoints *)

Definition MinNonceKeyBytes : Z := 32.
Definition MaxNonceKeys : Z := 8.

Definition validateNonceKeys (deps : Dependencies) : errs :=
  match NonceKeys deps with
  | [] => []
  | keys => first_of [refuse (MaxNonceKeys <? blen keys) "nonce_keys has too many keys"; refuse (existsb (fun k => blen k <? MinNonceKeyBytes) keys) "nonce_keys";
      refuse (negb (Nonces_spender deps)) "nonces must be an issuer.NonceSpender when nonce_keys is set"]
  end.

Definition validateNonceEndpointDependencies (cfg : Config) (deps : Dependencies) : errs :=
  if IsZero (ep_Nonce (i_Endpoints cfg)) then refuse (MaxProofAge (i_Limits cfg) <=? 0) "limits.max_proof_age must be positive"
  else first_of [refuse (NonceLifetime (i_Limits cfg) <=? 0) "limits.nonce_lifetime must be positive"; refuse (negb (is_Some_b (Nonces deps))) "nonces is required";
    validateNonceKeys deps].

Definition validateCredentialOfferEndpointDependencies (cfg : Config) (deps : Dependencies) : errs :=
  if IsZero (CredentialOfferEndpoint cfg) then []
  else first_of [refuse (CredentialOfferLifetime (i_Limits cfg) <=? 0) "limits.credential_offer_lifetime must be positive";
    refuse (negb (is_Some_b (CredentialOffers deps))) "credential_offers is required"].

Definition validateDeferredCredentialEndpointDependencies (cfg : Config) (deps : Dependencies) : errs :=
  if IsZero (ep_DeferredCredential (i_Endpoints cfg)) then []
  else first_of [refuse (DeferredIssuancePollInterval (i_Limits cfg) <? Second) "limits.deferred_issuance_poll_interval must be at least one second";
    refuse (DeferredTransactionLifetime (i_Limits cfg) <=? 0) "limits.deferred_transaction_lifetime must be positive";
    refuse (negb (is_Some_b (DeferredTransactions deps))) "deferred_transactions is required"].

Definition validateOptionalEndpointDependencies (cfg : Config) (deps : Dependencies) : errs :=
  join_errs [validateNonceEndpointDependencies cfg deps; validateCredentialOfferEndpointDependencies cfg deps;
    validateDeferredCredentialEndpointDependencies cfg deps;
    refuse (negb (IsZero (ep_Notification (i_Endpoints cfg))) && negb (is_Some_b (Notifications deps))) "notifications is required";
    refuse (NotificationLifetime (i_Limits cfg) <? 0) "limits.notification_lifetime must not be negative"].

Definition is_verified (a : option ClientAuthentication) : bool := match a with Some VerifiedPreAuthorizedCode => true | _ => false end.
Definition is_anonymous (a : option ClientAuthentication) : bool := match a with Some AnonymousPreAuthorizedCode => true | _ => false end.

Definition issuesAnonymousAccessTokens (cfg : Config) (deps : Dependencies) : bool :=
  is_Some_b (PreAuthorizedCodes deps) && negb (is_verified (PreAuthorizedCodeClientAuthentication cfg)).

Definition validatePreAuthorizedCodeDependencies (cfg : Config) (deps : Dependencies) : errs :=
  if negb (is_Some_b (PreAuthorizedCodes deps)) then []
  else join_errs [refuse (AccessTokenLifetime (i_Limits cfg) <=? 0) "limits.access_token_lifetime must be positive";
    refuse (MaxTxCodeAttempts (i_Limits cfg) <=? 0) "limits.max_tx_code_attempts must be positive";
    refuse (issuesAnonymousAccessTokens cfg deps && negb (AccessTokens deps)) "access_tokens is required"].

(** ** The configuration itself *)

Fixpoint servers_loop (seen : gset string) (servers : list (option fapi_URL)) : errs :=
  match servers with
  | [] => []
  | u :: servers =>
      first_of [refuse (IsZero u) "authorization_servers is unset"; refuse (bool_decide (URL_String u ∈ seen)) "authorization_servers lists one more than once";
        servers_loop ({[URL_String u]} ∪ seen) servers]
  end.
Definition validateAuthorizationServers (servers : list (option fapi_URL)) : errs := servers_loop ∅ servers.

Definition BatchSize_validate (n : Z) : errs := refuse (n <? 2) "batch_size must be 2 or greater".

Definition validateConfig (cfg : Config) : errs :=
  join_errs ([refuse (negb (is_Some_b (i_Assurance cfg))) "assurance level is invalid";
    match i_Issuer cfg with
    | None => ["issuer is required"]%string
    | Some u => refuse (u_Suffix u) "issuer must have no query or fragment"
    end;
    refuse (IsZero (ep_Credential (i_Endpoints cfg))) "endpoints.credential is required";
    refuse (base.size (CredentialConfigurationsSupported cfg) =? 0)%nat "credential_configurations_supported must not be empty"] ++
    map (fun p => CredentialConfiguration_validate p.2) (map_to_list (CredentialConfigurationsSupported cfg)) ++
    [validateAuthorizationServers (AuthorizationServers cfg); ValidateDisplays (i_Display cfg);
     match BatchSize cfg with Some n => BatchSize_validate n | None => [] end]).

Definition normalizeClientAuthentication (a : option ClientAuthentication) : option ClientAuthentication * errs :=
  match a with
  | Some NilVerified => (None, ["pre_authorized_code_client_authentication is a nil *VerifiedPreAuthorizedCode"]%string)
  | Some NilAnonymous => (None, ["pre_authorized_code_client_authentication is a nil *AnonymousPreAuthorizedCode"]%string)
  | a => (a, [])
  end.

(** ** AssuranceProduction *)

Definition checkStoreAssurance (store : option StoreCapabilities) (requireAtomicConsume : bool) : errs :=
  match store with
  | None => ["must implement issuer.StoreAssurance"]%string
  | Some caps => first_of [refuse (negb (Durable caps)) "must declare Durable capability"; refuse (requireAtomicConsume && negb (AtomicConsume caps)) "must declare AtomicConsume capability"]
  end.

Definition checkKeySourceAssurance (source : key_source) : errs :=
  match ks_Hardened source with
  | None => ["must implement issuer.KeySourceAssurance"]%string
  | Some hardened => refuse (negb hardened) "must declare LiveFetchHardened capability"
  end.

(** A store that a used endpoint has, or [nil], which declares nothing. *)
Definition checkProductionStores (cfg : Config) (deps : Dependencies) : errs :=
  join_errs (map (fun '(used, store, atomicConsume) => if (used : bool) then checkStoreAssurance (default None store) atomicConsume else [])
    [(negb (IsZero (ep_Nonce (i_Endpoints cfg))), Nonces deps, true);
     (negb (IsZero (CredentialOfferEndpoint cfg)), CredentialOffers deps, false);
     (negb (IsZero (ep_DeferredCredential (i_Endpoints cfg))), DeferredTransactions deps, true);
     (negb (IsZero (ep_Notification (i_Endpoints cfg))), Notifications deps, false);
     (is_Some_b (PreAuthorizedCodes deps), PreAuthorizedCodes deps, true)]).

Definition checkProductionKeySources (cfg : Config) (deps : Dependencies) : errs :=
  join_errs [match AttestationVerifier deps with
    | Some source => join_errs [checkKeySourceAssurance source;
        refuse (negb (is_Some_b (AttestationStatus deps)) && negb (NoAttestationStatusCheck cfg)) "attestation_status is required"]
    | None => []
    end;
    match ProofBindingKeys deps with Some source => checkKeySourceAssurance source | None => [] end].

Definition attestation_proof_type (cfg : Config) (c : CredentialConfiguration) : errs :=
  if is_Some_b (ProofTypesSupported c !! ProofTypeAttestation) then
    first_of [refuse (negb (AllowAttestationProofType cfg)) "the attestation proof type names no audience";
      refuse (IsZero (ep_Nonce (i_Endpoints cfg))) "the attestation proof type requires endpoints.nonce"]
  else [].

Definition checkProductionAttestationProofType (cfg : Config) : errs :=
  first_of (map (fun p => attestation_proof_type cfg p.2) (map_to_list (CredentialConfigurationsSupported cfg))).

Definition maxProductionNonceLifetime : Z := Hour.
Definition MaxProductionProofAge : Z := 5 * Minute.
Definition MaxProductionTxCodeAttempts : Z := 10.

Definition checkProductionProofFreshness (cfg : Config) : errs :=
  if negb (IsZero (ep_Nonce (i_Endpoints cfg))) then refuse (maxProductionNonceLifetime <? NonceLifetime (i_Limits cfg)) "limits.nonce_lifetime"
  else refuse (MaxProductionProofAge <? MaxProofAge (i_Limits cfg)) "limits.max_proof_age".

Definition checkProductionHTTPS (cfg : Config) : errs :=
  refuse (existsb (fun u => match u with Some u => negb (String.eqb (u_Scheme u) "https") | None => false end)
    ([i_Issuer cfg; ep_Credential (i_Endpoints cfg); ep_Nonce (i_Endpoints cfg); ep_DeferredCredential (i_Endpoints cfg);
      ep_Notification (i_Endpoints cfg); CredentialOfferEndpoint cfg] ++ AuthorizationServers cfg)) "must be https under AssuranceProduction".

Definition checkProductionAssurance (cfg : Config) (deps : Dependencies) : errs :=
  join_errs [refuse (negb (Random_reader deps)) "random must be crypto/rand.Reader"; refuse (negb (Clock_system deps)) "clock must be the system clock";
    refuse (is_Some_b (PreAuthorizedCodes deps) && negb (is_Some_b (PreAuthorizedCodeClientAuthentication cfg)))
      "pre_authorized_code_client_authentication is required";
    refuse (is_Some_b (PreAuthorizedCodes deps) && (MaxProductionTxCodeAttempts <? MaxTxCodeAttempts (i_Limits cfg))) "limits.max_tx_code_attempts";
    refuse (negb (Audit deps)) "audit is required";
    refuse (negb (IsZero (ep_Notification (i_Endpoints cfg))) && (NotificationLifetime (i_Limits cfg) <=? 0)) "limits.notification_lifetime must be positive";
    checkProductionHTTPS cfg; checkProductionAttestationProofType cfg; checkProductionProofFreshness cfg;
    checkProductionKeySources cfg deps; checkProductionStores cfg deps].

(** checkConfiguration, of what has one. *)
Definition checkConfiguration (check : option (AssuranceLevel -> bool)) (assurance : option AssuranceLevel) : errs :=
  match check, assurance with
  | Some check, Some a => refuse (negb (check a)) "CheckConfiguration"
  | _, _ => []
  end.

Definition with_authentication (cfg : Config) (a : option ClientAuthentication) : Config := {|
  i_Assurance := i_Assurance cfg; PreAuthorizedCodeClientAuthentication := a; i_Issuer := i_Issuer cfg;
  AllowAttestationProofType := AllowAttestationProofType cfg; AuthorizationServers := AuthorizationServers cfg; i_Endpoints := i_Endpoints cfg;
  i_Limits := i_Limits cfg; CredentialConfigurationsSupported := CredentialConfigurationsSupported cfg;
  CredentialOfferEndpoint := CredentialOfferEndpoint cfg; NoAttestationStatusCheck := NoAttestationStatusCheck cfg;
  RequestEncryption := RequestEncryption cfg; ResponseEncryption := ResponseEncryption cfg; i_Display := i_Display cfg; BatchSize := BatchSize cfg |}.

(** New, at [now]; a Profile is the errors its CheckIssuer gives. *)
Definition New_errors (now : Z) (profile : option (Config -> Dependencies -> errs)) (cfg : Config) (deps : Dependencies) : Config * errs :=
  let '(a, e) := normalizeClientAuthentication (PreAuthorizedCodeClientAuthentication cfg) in
  let cfg := with_authentication cfg a in
  (cfg, join_errs [e; validateConfig cfg; validateOptionalEndpointDependencies cfg deps; validatePreAuthorizedCodeDependencies cfg deps;
    validateEncryption cfg; validateSignerDependencies now cfg deps;
    checkConfiguration (ks_CheckConfiguration <$> AttestationVerifier deps) (i_Assurance cfg);
    checkConfiguration (ks_CheckConfiguration <$> ProofBindingKeys deps) (i_Assurance cfg);
    checkConfiguration (AttestationStatus deps) (i_Assurance cfg);
    refuse (negb (Random_set deps)) "random is required";
    if is_production cfg then checkProductionAssurance cfg deps else [];
    match profile with Some check => check cfg deps | None => [] end]).

Definition New (serial : nat) (now : Z) (profile : option (Config -> Dependencies -> errs)) (cfg : Config) (deps : Dependencies) : res errs Issuer :=
  match New_errors now profile cfg deps with
  | (cfg, []) => Ok {| i_cfg := cfg; i_deps := deps; i_serial := serial |}
  | (_, e) => Err e
  end.

End Dependencies.
