(* ===== verification/Issuer.v ===== *)
(** * A Credential Issuer's nonces, offers, codes and notifications: [issuer]

    nonce_endpoint.go, stateless_nonce.go, store_owner.go, pre_authorized_offer.go,
    pre_authorized_code_endpoint.go, pre_authorized_code_key.go,
    credential_offer_endpoint.go, notification_endpoint.go, audit.go and
    errors.go.  Each call is a program over the Issuer's stores and the world
    around it (Prog): its operations are what other calls, of this Issuer or of
    another sharing a store, may come between. *)
From S2P Require Import Prelude B64Url Json DcqlQuery DcqlValues Text JwtDate Jws X509 CertChain Cose Prog Reasons SdJwt SdIssue CredentialOffer IssuerStores IssuerConfig.
From stdpp Require Import pretty.
From Stdlib Require Import Ascii.
#[local] Open Scope Z_scope.

(** ** Errors: errors.go *)

(** What errors.Is finds of an error. *)
Inductive sentinel : Type :=
| OfNonce (e : nonce_error)
| OfCode (e : code_error)
| OfDeferred (e : deferred_error)
| OfNotification (e : notification_error)
| ErrDeferredTransactionResolved
| ErrDeferredKeyAttestation
| ErrDeferredAttestationStatusUnknown
| ErrDeferredProofKey
| ErrDeferredProofKeyTrustUnknown
| ErrKeyAttestationRevoked
| ErrRevoked
| ErrRevocationUndecided
| ErrNoCurrentCRL
| ErrProofKeyTrustUndecided
| Canceled
| DeadlineExceeded.

#[export] Instance nonce_error_eq_dec : EqDecision nonce_error.
Proof. solve_decision. Defined.
#[export] Instance code_error_eq_dec : EqDecision code_error.
Proof. solve_decision. Defined.
#[export] Instance deferred_error_eq_dec : EqDecision deferred_error.
Proof. solve_decision. Defined.
#[export] Instance notification_error_eq_dec : EqDecision notification_error.
Proof. solve_decision. Defined.
#[export] Instance sentinel_eq_dec : EqDecision sentinel.
Proof. solve_decision. Defined.

(** The *Error errors.As finds, its code, HTTP status and description; the text
    of one that has none; and the sentinels in its chain. *)
Record iss_error : Type := { e_public : option (string * Z * string); e_text : string; e_is : list sentinel }.

Definition errors_Is (e : iss_error) (s : sentinel) : bool := bool_decide (s ∈ e_is e).

Definition newError (code : string) (status : Z) (description : string) (cause : list sentinel) : iss_error :=
  {| e_public := Some (code, status, description); e_text := ""; e_is := cause |}.
Definition NewError (code description : string) : iss_error := newError code 400 description [].
(** fmt.Errorf, with what it wraps. *)
Definition failed (text : string) : iss_error := {| e_public := None; e_text := text; e_is := [] |}.
Definition wrapping (text : string) (e : iss_error) : iss_error := {| e_public := e_public e; e_text := text; e_is := e_is e |}.
Definition caused (text : string) (cause : list sentinel) : iss_error := {| e_public := None; e_text := text; e_is := cause |}.

Definition ErrorInvalidCredentialRequest : string := "invalid_credential_request".
Definition ErrorUnknownCredentialConfig : string := "unknown_credential_configuration".
Definition ErrorUnknownCredentialIdentifier : string := "unknown_credential_identifier".
Definition ErrorInvalidProof : string := "invalid_proof".
Definition ErrorInvalidNonce : string := "invalid_nonce".
Definition ErrorCredentialRequestDenied : string := "credential_request_denied".
Definition ErrorInvalidEncryptionParameters : string := "invalid_encryption_parameters".
Definition ErrorInvalidTransactionID : string := "invalid_transaction_id".
Definition ErrorInvalidNotificationID : string := "invalid_notification_id".
Definition ErrorInvalidNotificationRequest : string := "invalid_notification_request".
Definition ErrorInvalidTokenRequest : string := "invalid_request".
Definition ErrorInvalidGrant : string := "invalid_grant".
Definition ErrorInvalidAuthorizationDetails : string := "invalid_authorization_details".
Definition ErrorInsufficientScope : string := "insufficient_scope".

(** ** Requests *)

Definition AuthorizationDetailsTypeOpenIDCredential : string := "openid_credential".

Record AuthorizationDetail : Type := {
  ad_Type : string;
  ad_ConfigurationID : string;
  CredentialIdentifiers : list string;
  Locations : list string;
  ad_Claims : list ClaimsDescription
}.

(** A ClientIdentity that is neither is [None]. *)
Inductive ClientIdentity : Type := KnownClientID (id : string) | NoClientIdentity.

Record AuthorizedRequest : Type := {
  au_ClientIdentity : option ClientIdentity;
  au_Subject : string;
  au_Scopes : list string;
  au_Details : list AuthorizationDetail
}.

Definition AuthorizedRequest_ClientID (auth : AuthorizedRequest) : string :=
  match au_ClientIdentity auth with Some (KnownClientID id) => id | _ => EmptyString end.

Definition requireClientIdentityDecision (auth : AuthorizedRequest) : option iss_error :=
  if is_Some_b (au_ClientIdentity auth) then None else Some (failed "authorized_request.client_identity is required").

Record VerifiedTokenRequest : Type := { vt_ClientID : string; DPoPThumbprint : string; vt_NextDPoPNonce : string }.

Record ExchangeRequest : Type := {
  x_PreAuthorizedCode : string;
  x_TxCode : string;
  x_Verified : option VerifiedTokenRequest;
  x_Details : list AuthorizationDetail
}.

Record RedeemedPreAuthorizedCode : Type := {
  rd_ClientID : string;
  rd_Subject : string;
  rd_Scope : list string;
  rd_Details : list AuthorizationDetail;
  rd_binding : VerifiedTokenRequest;
  rd_record : PreAuthorizedCodeRecord
}.

(** TokenType is always DPoP, and RefreshToken unset. *)
Record ExchangeResult : Type := {
  xr_AccessToken : string;
  xr_ExpiresIn : Z;
  xr_NextDPoPNonce : string;
  xr_Details : list AuthorizationDetail;
  xr_Subject : string;
  xr_Scope : list string
}.

Record AccessTokenParams : Type := {
  at_Scope : list string;
  at_Thumbprint : string;
  at_Subject : string;
  at_ClientID : string;
  at_Claims : option bytes;              (* authorization_details *)
  at_Issuer_URL : string;
  at_Audience : string;
  at_Now : Z;
  at_Lifetime : Z
}.

Record CreatePreAuthorizedOfferRequest : Type := {
  p_ConfigurationIDs : list string;
  p_Scopes : list string;
  p_CredentialIdentifiers : bool;
  p_Subject : string;
  p_TxCode : string;
  p_NoTxCode : bool;
  p_TxCodeDescription : string;
  p_Lifetime : Z;
  p_AuthorizationServer : string;
  p_ByReference : bool
}.

Record CreateCredentialOfferRequest : Type := { co_ConfigurationIDs : list string; co_Grants : option Grants; co_ByReference : bool }.
Record CredentialOfferResult : Type := { or_Offer : CredentialOffer; or_URI : string; or_Reference : string }.

Record NonceResult : Type := { CNonce : string; nr_DPoPNonce : string }.
Record NotificationRequest : Type := { q_NotificationID : string; q_Event : string; q_EventDescription : string }.

Inductive AuditEventType : Type :=
| AuditEventExchangePreAuthorizedCode
| AuditEventRequestCredential
| AuditEventRequestDeferredCredential
| AuditEventIssueDeferredCredential
| AuditEventDenyDeferredCredential
| AuditEventRedeemPreAuthorizedCode.

Record AuditEvent : Type := { ev_Type : AuditEventType; ev_Time : Z; ev_ClientID : string; ev_Success : bool; ev_Description : string }.

(** The reads-back an Issuer keeps the outcome of. *)
Inductive owner_kind : Type := PreAuthorizedOwner | DeferredOwner | NotificationOwner.
#[export] Instance owner_kind_eq_dec : EqDecision owner_kind.
Proof. solve_decision. Defined.

(** ** Randomness

    Dependencies.Random: the [i]-th read of it, of some bytes; [None], it
    failed.  A call that draws says how far it is. *)
Definition random_source : Type := nat -> Z -> option bytes.
Definition draw (A : Type) : Type := random_source -> nat -> A * nat.
Definition draw_ret {A} (a : A) : draw A := fun _ i => (a, i).
Definition draw_bytes (n : Z) : draw (option bytes) := fun src i => (src i n, S i).
Definition draw_bind {A B} (m : draw A) (k : A -> draw B) : draw B := fun src i => let '(a, i) := m src i in k a src i.

Definition nonceEntropyBytes : Z := 32.

Definition raw_id (raw : option bytes) : option string := b64_string <$> raw.

(** ** The world *)

Class IssuerWorld `{Signatures} `{!X509} : Type := {
  World : Type;
  Clock : World -> Z;
  IssueAccessToken : World -> Issuer -> AccessTokenParams -> option string;
  IssueDPoPNonce : World -> Issuer -> option string;
  sha256 : bytes -> bytes;
  hmac_sha256 : bytes -> bytes -> bytes;
  marshal_details : list AuthorizationDetail -> option bytes;
  quoted : string -> string               (* %q *)
}.

Section Calls.
Context `{IssuerWorld} `{!OfferText}.

Inductive op : Type -> Type :=
| Ask {X : Type} (f : World -> X) : op X
| Random (n : Z) : op (option bytes)
| NonceIssue (n : string) (r : NonceRecord) : op (res nonce_error unit)
| NonceConsume (n owner : string) : op (res nonce_error NonceRecord)
| NonceSpend (n : string) (r : NonceRecord) : op (res nonce_error unit)
| CodeIssue (k : string) (r : PreAuthorizedCodeRecord) : op (res code_error unit)
| CodeConsume {X : Type} (k want : string) (maxAttempts : Z) (accept : PreAuthorizedCodeRecord -> draw (bool * X))
    : op (res code_error PreAuthorizedCodeRecord * Z * option (bool * X))
| CodeInvalidate (k : string) : op (res code_error unit)
| DeferredGet (id : string) : op (res deferred_error DeferredTransactionRecord)
| DeferredInvalidate (id : string) : op (res deferred_error unit)
| DeferredCreate (id : string) (r : DeferredTransactionRecord) : op (res deferred_error unit)
| DeferredUpdate {E X : Type} (id : string) (fn : World -> DeferredTransactionRecord -> res E DeferredTransactionRecord * X)
    : op (res (deferred_error + E) unit * option X)
| NotificationIssue (id : string) (r : NotificationRecord) : op (res notification_error unit)
| NotificationGet (id : string) : op (res notification_error NotificationRecord)
| OfferStore (r : CredentialOfferRecord) : op bool
| OfferGet (reference : string) : op (option CredentialOfferRecord)
| KeptLoad (iss : Issuer) (kind : owner_kind) : op bool
| KeptStore (iss : Issuer) (kind : owner_kind) : op unit
| Record_Audit (e : AuditEvent) : op unit
| HandleNotification (iss : Issuer) (q : NotificationRequest) : op bool.

#[local] Open Scope prog_scope.

Definition call (A : Type) : Type := prog op (res iss_error A).
Definition ok {A} (a : A) : call A := Return (Ok a).
Definition err {A} (e : iss_error) : call A := Return (Err e).
Definition when_none {A} (e : option iss_error) (k : call A) : call A := match e with Some e => err e | None => k end.

Section Of.
Context (iss : Issuer).

Definition cfg : Config := i_cfg iss.
Definition deps : Dependencies := i_deps iss.
Definition limits : Limits := i_Limits cfg.

(** ** Owners: store_owner.go *)

Definition storeOwner : string := URL_String (i_Issuer cfg).

Definition owns (owner : string) : bool :=
  if String.eqb owner "" then negb (is_production cfg) else String.eqb owner storeOwner.

Definition checkOwnerKept (kind : owner_kind) (read : call string) : call unit :=
  if negb (is_production cfg) then ok tt
  else
    kept <~ KeptLoad iss kind;
    if (kept : bool) then ok tt
    else
      r <- read;;
      match r with
      | Err e => err (wrapping "reading back a saved record" e)
      | Ok owner =>
          if negb (String.eqb owner storeOwner) then err (failed "the store didn't keep the record's Owner")
          else _ <~ KeptStore iss kind; ok tt
      end.

(** ** Auditing: audit.go *)

Definition auditDescription (e : iss_error) : string :=
  match e_public e with Some (code, _, _) => code | None => "internal_error" end.

Definition audit {A} (t : AuditEventType) (clientID : string) (r : res iss_error A) : call A :=
  if negb (Audit deps) then Return r
  else
    now <~ Ask Clock;
    _ <~ Record_Audit {| ev_Type := t; ev_Time := now; ev_ClientID := clientID; ev_Success := is_ok r;
      ev_Description := match r with Ok _ => EmptyString | Err e => auditDescription e end |};
    Return r.

(** ** Nonces: nonce_endpoint.go, stateless_nonce.go *)

Definition statelessNoncePrefix : string := "s1.".
Definition statelessNonceBytes : Z := 8 + 16 + 32.
Definition statelessNonceDomain : bytes := string_bytes "oid4vcgo issuer c_nonce s1" ++ [0].

Definition statelessNonceTag (key : bytes) (owner : string) (body : bytes) : bytes :=
  hmac_sha256 key (statelessNonceDomain ++ string_bytes owner ++ [0] ++ body).

Definition statelessNonce (random key : bytes) (owner : string) (exp : Z) : string :=
  let body := be_bytes 8 (wrap64 (exp / Second)) ++ random in
  (statelessNoncePrefix ++ b64_string (body ++ statelessNonceTag key owner body))%string.

(** base64.RawURLEncoding.Strict().DecodeString, which skips line breaks
    wherever they are. *)
Definition line_break (c : Z) : bool := (c =? 10) || (c =? 13).
Definition StrictDecode (s : string) : res b64_error bytes := DecodeString (List.filter (fun c => negb (line_break c)) (string_bytes s)).

Definition maxUnixSeconds : Z := 253402300799.

Fixpoint open_loop (keys : list bytes) (owner : string) (body tag : bytes) : option Z :=
  match keys with
  | [] => None
  | key :: keys =>
      if bool_decide (tag = statelessNonceTag key owner body) then
        let exp := be_value (slice body 0 8) in
        if maxUnixSeconds <? exp then None else Some (exp * Second)
      else open_loop keys owner body tag
  end.

Definition TrimPrefix (prefix s : string) : string :=
  if String.prefix prefix s then String.substring (String.length prefix) (String.length s - String.length prefix) s else s.

(** When the nonce expires, if one of the keys tagged it for the owner. *)
Definition openStatelessNonce (keys : list bytes) (owner nonce : string) : option Z :=
  match StrictDecode (TrimPrefix statelessNoncePrefix nonce) with
  | Err _ => None
  | Ok raw =>
      if negb (blen raw =? statelessNonceBytes) then None
      else open_loop keys owner (slice raw 0 24) (slice raw 24 statelessNonceBytes)
  end.

Definition isStatelessNonce (nonce : string) : bool := String.prefix statelessNoncePrefix nonce.

Definition issueNonce : call string :=
  now <~ Ask Clock;
  let exp := now + NonceLifetime limits in
  match NonceKeys deps with
  | key :: _ =>
      random <~ Random 16;
      match random with
      | None => err (failed "generate nonce")
      | Some random => ok (statelessNonce random key storeOwner exp)
      end
  | [] =>
      raw <~ Random nonceEntropyBytes;
      match raw_id raw with
      | None => err (failed "generate nonce")
      | Some nonce =>
          r <~ NonceIssue nonce {| n_Owner := storeOwner; n_ExpiresAt := exp |};
          match r with Err e => err (caused "persist nonce" [OfNonce e]) | Ok _ => ok nonce end
      end
  end.

Definition RequestNonce : call NonceResult :=
  if IsZero (ep_Nonce (i_Endpoints cfg)) then err (failed "the nonce endpoint is not configured")
  else
    try nonce <- issueNonce;;
    if CredentialDPoPNonces deps then
      d <~ Ask (fun w => IssueDPoPNonce w iss);
      match d with None => err (failed "issue dpop nonce") | Some d => ok {| CNonce := nonce; nr_DPoPNonce := d |} end
    else ok {| CNonce := nonce; nr_DPoPNonce := "" |}.

Definition unknownNonce : string := "nonce is unknown or already used".
Definition spentNonceOwner (owner : string) : string := ("c_nonce spent by " ++ owner)%string.
Definition spentNonceMargin : Z := 5 * Minute.

Definition spendStatelessNonce (nonce : string) : call unit :=
  match openStatelessNonce (NonceKeys deps) storeOwner nonce with
  | None => err (newError ErrorInvalidNonce 400 unknownNonce [])
  | Some exp =>
      now <~ Ask Clock;
      if exp <? now then err (newError ErrorInvalidNonce 400 "nonce has expired" [])
      else if NonceLifetime limits <? exp - now then err (newError ErrorInvalidNonce 400 "nonce has expired" [])
      else
        r <~ NonceSpend nonce {| n_Owner := spentNonceOwner storeOwner; n_ExpiresAt := exp + spentNonceMargin |};
        match r with
        | Err ErrNonceUnknown => err (newError ErrorInvalidNonce 400 unknownNonce [OfNonce ErrNonceUnknown])
        | Err e => err (caused "spend c_nonce" [OfNonce e])
        | Ok _ => ok tt
        end
  end.

Definition consumeNonce (nonce : string) : call unit :=
  if isStatelessNonce nonce then
    match NonceKeys deps with
    | [] => err (newError ErrorInvalidNonce 400 unknownNonce [])
    | _ => spendStatelessNonce nonce
    end
  else
    r <~ NonceConsume nonce storeOwner;
    match r with
    | Err ErrNonceUnknown => err (newError ErrorInvalidNonce 400 unknownNonce [OfNonce ErrNonceUnknown])
    | Err e => err (caused "consume c_nonce" [OfNonce e])
    | Ok record =>
        if negb (owns (n_Owner record)) then err (newError ErrorInvalidNonce 400 unknownNonce [])
        else
          now <~ Ask Clock;
          if n_ExpiresAt record <? now then err (newError ErrorInvalidNonce 400 "nonce has expired" []) else ok tt
    end.

(** ** Pre-authorized codes: pre_authorized_code_key.go, pre_authorized_offer.go *)

Definition length_prefixed (part : string) : string := (pretty (slen part) ++ ":" ++ part)%string.

Definition preAuthorizedCodeKey (owner code : string) : string :=
  b64_string (sha256 (string_bytes (length_prefixed owner ++ length_prefixed code))).

Definition txCodeHash (code txCode : string) : string :=
  if String.eqb txCode "" then EmptyString else b64_string (hmac_sha256 (string_bytes code) (string_bytes txCode)).

Definition with_code_owner (r : PreAuthorizedCodeRecord) (owner hash : string) : PreAuthorizedCodeRecord := {|
  c_Owner := owner; TxCodeHash := hash; Scopes := Scopes r; CredentialConfigurationIDs := CredentialConfigurationIDs r;
  c_ExpiresAt := c_ExpiresAt r; c_Subject := c_Subject r |}.

(** The Owner a Consume that refuses reads back. *)
Definition read_back_owner (key : string) (record : PreAuthorizedCodeRecord) : call string :=
  r <~ CodeConsume key (TxCodeHash record) 0 (fun r => draw_ret (false, c_Owner r));
  match r with
  | (Err CodeRefused, _, said) => ok (match said with Some (_, owner) => owner | None => EmptyString end)
  | _ => err (failed "the store's Consume didn't return the refusal of its accept")
  end.

Definition storePreAuthorizedCode (code txCode : string) (record : PreAuthorizedCodeRecord) : call unit :=
  let record := with_code_owner record storeOwner (txCodeHash code txCode) in
  let key := preAuthorizedCodeKey storeOwner code in
  r <~ CodeIssue key record;
  match r with
  | Err e => err (caused "" [OfCode e])
  | Ok _ =>
      r <- checkOwnerKept PreAuthorizedOwner (read_back_owner key record);;
      match r with
      | Err e => _ <~ CodeInvalidate key; err e
      | Ok _ => ok tt
      end
  end.

Definition supports (id : string) : bool := is_Some_b (CredentialConfigurationsSupported cfg !! id).
Definition scope_of (id : string) : string :=
  match CredentialConfigurationsSupported cfg !! id with Some cc => cc_Scope cc | None => EmptyString end.
Definition server_strings : list string := map URL_String (AuthorizationServers cfg).

Definition in_list (s : string) (l : list string) : bool := existsb (String.eqb s) l.

Definition MinProductionTxCodeLength : Z := 6.
Definition MaxProductionPreAuthorizedLifetime : Z := 7 * 24 * Hour.

Definition checkPreAuthorizedGrant (req : CreatePreAuthorizedOfferRequest) : option iss_error :=
  if existsb (fun id => negb (p_CredentialIdentifiers req) && (String.eqb (scope_of id) "" || negb (in_list (scope_of id) (p_Scopes req))))
       (p_ConfigurationIDs req) then Some (failed "the code wouldn't grant one: give scopes including its scope, or set credential_identifiers")
  else if p_NoTxCode req && negb (String.eqb (p_TxCode req) "") then Some (failed "no_tx_code and tx_code are both set")
  else if negb (is_production cfg) then None
  else if negb (String.eqb (p_TxCode req) "") && (RuneCountInString (p_TxCode req) <? MinProductionTxCodeLength) then Some (failed "tx_code is too short")
  else if is_anonymous (PreAuthorizedCodeClientAuthentication cfg) && String.eqb (p_TxCode req) "" && negb (p_NoTxCode req)
    then Some (failed "tx_code is required under AssuranceProduction with AnonymousPreAuthorizedCode")
  else if MaxProductionPreAuthorizedLifetime <? p_Lifetime req then Some (failed "lifetime is over the one allowed")
  else None.

(** ** Offers: credential_offer_endpoint.go *)

Definition credentialOfferScheme : string := "openid-credential-offer://".

Definition createCredentialOfferByReference (offer : CredentialOffer) : call CredentialOfferResult :=
  if IsZero (CredentialOfferEndpoint cfg) then err (failed "credential_offer_endpoint is not configured")
  else
    raw <~ Random 32;
    match raw_id raw with
    | None => err (failed "generate reference")
    | Some reference =>
        now <~ Ask Clock;
        stored <~ OfferStore {| of_Reference := reference; Offer := offer; of_ExpiresAt := now + CredentialOfferLifetime limits |};
        if negb stored then err (failed "persist offer")
        else
          let offerURL := JoinPath (URL_String (CredentialOfferEndpoint cfg)) reference in
          ok {| or_Offer := offer; or_URI := (credentialOfferScheme ++ "?credential_offer_uri=" ++ QueryEscape offerURL)%string; or_Reference := reference |}
    end.

Definition createCredentialOffer (req : CreateCredentialOfferRequest) : call CredentialOfferResult :=
  let offer := {| CredentialIssuer := storeOwner; o_ConfigurationIDs := co_ConfigurationIDs req; o_Grants := co_Grants req |} in
  match validateCredentialOffer offer supports server_strings with
  | Err _ => err (failed "create credential offer")
  | Ok _ =>
      if negb (co_ByReference req) then
        match AppendToURL offer credentialOfferScheme with
        | Err _ => err (failed "encode credential offer")
        | Ok uri => ok {| or_Offer := offer; or_URI := uri; or_Reference := "" |}
        end
      else createCredentialOfferByReference offer
  end.

Definition CreateCredentialOffer (req : CreateCredentialOfferRequest) : call CredentialOfferResult :=
  if is_production cfg && match co_Grants req with Some g => is_Some_b (PreAuthorizedCode g) | None => false end
  then err (failed "a pre-authorized code grant needs CreatePreAuthorizedOffer under AssuranceProduction")
  else createCredentialOffer req.

Definition GetCredentialOffer (reference : string) : call CredentialOffer :=
  if negb (is_Some_b (CredentialOffers deps)) then err (failed "credential offers are not configured")
  else
    r <~ OfferGet reference;
    match r with
    | None => err (failed "get credential offer")
    | Some record =>
        now <~ Ask Clock;
        if negb (now <? of_ExpiresAt record) then err (failed "reference has expired") else ok (Offer record)
    end.

Definition offer_request (req : CreatePreAuthorizedOfferRequest) (code : string) : CreateCredentialOfferRequest := {|
  co_ConfigurationIDs := p_ConfigurationIDs req;
  co_Grants := Some {| AuthorizationCode := None; PreAuthorizedCode := Some {|
    g_PreAuthorizedCode := code;
    g_TxCode := if String.eqb (p_TxCode req) "" then None else Some (txCodeFor (p_TxCode req) (p_TxCodeDescription req));
    gp_AuthorizationServer := p_AuthorizationServer req |} |};
  co_ByReference := p_ByReference req |}.

Definition CreatePreAuthorizedOffer (req : CreatePreAuthorizedOfferRequest) : call CredentialOfferResult :=
  if negb (is_Some_b (PreAuthorizedCodes deps)) then err (failed "dependencies.pre_authorized_codes is not set")
  else if blen (p_ConfigurationIDs req) =? 0 then err (failed "credential_configuration_ids is required")
  else if p_Lifetime req <=? 0 then err (failed "lifetime must be positive")
  else if String.eqb (p_Subject req) "" then err (failed "subject is required")
  else when_none (checkPreAuthorizedGrant req) (
    if String.eqb (p_TxCode req) "" && negb (String.eqb (p_TxCodeDescription req) "") then err (failed "tx_code_description without a tx_code")
    else
      raw <~ Random 32;
      match raw_id raw with
      | None => err (failed "generate code")
      | Some code =>
          let offerReq := offer_request req code in
          match validateCredentialOffer {| CredentialIssuer := storeOwner; o_ConfigurationIDs := co_ConfigurationIDs offerReq; o_Grants := co_Grants offerReq |}
                  supports server_strings with
          | Err _ => err (failed "create pre-authorized offer")
          | Ok _ =>
              now <~ Ask Clock;
              r <- storePreAuthorizedCode code (p_TxCode req) {|
                c_Owner := ""; TxCodeHash := ""; Scopes := p_Scopes req;
                CredentialConfigurationIDs := if p_CredentialIdentifiers req then p_ConfigurationIDs req else [];
                c_ExpiresAt := now + p_Lifetime req; c_Subject := p_Subject req |};;
              match r with
              | Err e => err (wrapping "store code" e)
              | Ok _ => createCredentialOffer offerReq
              end
          end
      end).

Definition IssuePreAuthorizedCode (code txCode : string) (record : PreAuthorizedCodeRecord) : call unit :=
  if is_production cfg then err (failed "refused under AssuranceProduction: use CreatePreAuthorizedOffer")
  else if negb (is_Some_b (PreAuthorizedCodes deps)) then err (failed "dependencies.pre_authorized_codes is not set")
  else if String.eqb code "" then err (failed "code is required")
  else if negb (String.eqb (TxCodeHash record) "") then err (failed "pass the Transaction Code as txCode, not record.TxCodeHash")
  else storePreAuthorizedCode code txCode record.

(** ** Redeeming: pre_authorized_code_endpoint.go *)

Definition preAuthorizedBinding (req : ExchangeRequest) : res iss_error VerifiedTokenRequest :=
  match x_Verified req with
  | None => Err (failed "needs Verified, with the DPoPThumbprint the Authorization Server verified")
  | Some v =>
      if String.eqb (DPoPThumbprint v) "" then Err (failed "needs Verified, with the DPoPThumbprint the Authorization Server verified")
      else if is_verified (PreAuthorizedCodeClientAuthentication cfg) && String.eqb (vt_ClientID v) "" then Err (failed "VerifiedPreAuthorizedCode needs Verified.ClientID")
      else if negb (is_verified (PreAuthorizedCodeClientAuthentication cfg)) && negb (String.eqb (vt_ClientID v) "")
        then Err (failed "Verified.ClientID is set, but AnonymousPreAuthorizedCode authenticates no client")
      else Ok v
  end.

Definition detail_problem (ids : list string) (d : AuthorizationDetail) : option string :=
  if negb (String.eqb (ad_Type d) AuthorizationDetailsTypeOpenIDCredential)
    then Some ("type " ++ quoted (ad_Type d) ++ " isn't " ++ quoted AuthorizationDetailsTypeOpenIDCredential)%string
  else if negb (supports (ad_ConfigurationID d)) then Some ("credential_configuration_id " ++ quoted (ad_ConfigurationID d) ++ " isn't supported")%string
  else if in_list (ad_ConfigurationID d) ids then Some ("credential_configuration_id " ++ quoted (ad_ConfigurationID d) ++ " is requested twice")%string
  else if 0 <? blen (CredentialIdentifiers d) then Some "credential_identifiers are the Authorization Server's to issue"%string
  else if (0 <? blen (Locations d)) && negb (in_list storeOwner (Locations d)) then Some "locations doesn't include this Credential Issuer"%string
  else if (blen (Locations d) =? 0) && (0 <? blen (AuthorizationServers cfg))
    then Some "locations is required, since this Credential Issuer lists authorization_servers"%string
  else None.

Fixpoint requested_loop (i : Z) (ids : list string) (details : list AuthorizationDetail) : res iss_error (list string) :=
  match details with
  | [] => Ok ids
  | d :: details =>
      match detail_problem ids d with
      | Some problem => Err (newError ErrorInvalidAuthorizationDetails 400 ("authorization_details[" ++ pretty i ++ "]: " ++ problem)%string [])
      | None => requested_loop (i + 1) (ids ++ [ad_ConfigurationID d]) details
      end
  end.

(** [None], nil: nothing is asked for. *)
Definition requestedConfigurations (details : list AuthorizationDetail) : res iss_error (option (list string)) :=
  match details with [] => Ok None | _ => let? ids := requested_loop 0 [] details in Ok (Some ids) end.

Definition recordGrants (record : PreAuthorizedCodeRecord) (id : string) : bool :=
  in_list id (CredentialConfigurationIDs record) || negb (String.eqb (scope_of id) "") && in_list (scope_of id) (Scopes record).

Fixpoint mintAuthorizationDetails (configIDs : list string) : draw (res iss_error (list AuthorizationDetail)) :=
  match configIDs with
  | [] => draw_ret (Ok [])
  | configID :: configIDs =>
      if negb (supports configID) then draw_ret (Err (failed "credential_configuration_id is not supported"))
      else draw_bind (draw_bytes nonceEntropyBytes) (fun raw =>
        match raw_id raw with
        | None => draw_ret (Err (failed "generate credential_identifier"))
        | Some identifier => draw_bind (mintAuthorizationDetails configIDs) (fun r => draw_ret (
            let? details := r in
            Ok ({| ad_Type := AuthorizationDetailsTypeOpenIDCredential; ad_ConfigurationID := configID; CredentialIdentifiers := [identifier];
                   Locations := if 0 <? blen (AuthorizationServers cfg) then [storeOwner] else []; ad_Claims := [] |} :: details)))
        end)
  end.

Definition acceptPreAuthorizedCode (record : PreAuthorizedCodeRecord) (requested : option (list string)) (now : Z)
    : draw (res iss_error (list AuthorizationDetail)) :=
  if c_ExpiresAt record <? now then draw_ret (Err (newError ErrorInvalidGrant 400 "pre-authorized_code has expired" []))
  else
    match List.find (fun id => negb (recordGrants record id)) (default [] requested) with
    | Some id => draw_ret (Err (newError ErrorInvalidAuthorizationDetails 400 ("the pre-authorized_code doesn't grant " ++ quoted id)%string []))
    | None => mintAuthorizationDetails (default (CredentialConfigurationIDs record) requested)
    end.

Definition codeUnknown : string := "pre-authorized_code is unknown or already used".
Definition codeExhausted : string := "too many incorrect tx_code attempts; pre-authorized_code is no longer valid".

(** consumePreAuthorizedCode's accept, of what it captures. *)
Definition accept_code (requested : option (list string)) (now : Z) (r : PreAuthorizedCodeRecord)
    : draw (bool * res iss_error (list AuthorizationDetail)) :=
  if negb (owns (c_Owner r)) then draw_ret (false, Err (newError ErrorInvalidGrant 400 codeUnknown []))
  else draw_bind (acceptPreAuthorizedCode r requested now) (fun a => draw_ret (is_ok a, a)).

Definition consumePreAuthorizedCode (req : ExchangeRequest) (requested : option (list string)) (now : Z)
    : call (PreAuthorizedCodeRecord * list AuthorizationDetail) :=
  let key := preAuthorizedCodeKey storeOwner (x_PreAuthorizedCode req) in
  r <~ CodeConsume key (txCodeHash (x_PreAuthorizedCode req) (x_TxCode req)) (MaxTxCodeAttempts limits) (accept_code requested now);
  match r with
  | (Ok record, _, Some (true, Ok details)) => ok (record, details)
  | (Ok _, _, _) => err (failed "dependencies.pre_authorized_codes consumed the code without calling accept")
  | (Err CodeRefused, _, Some (_, Err refused)) => err refused
  | (Err ErrTxCodeRequired, _, _) => err (newError ErrorInvalidTokenRequest 400 "tx_code is required" [OfCode ErrTxCodeRequired])
  | (Err ErrTxCodeUnexpected, _, _) => err (newError ErrorInvalidTokenRequest 400 "tx_code was not expected" [OfCode ErrTxCodeUnexpected])
  | (Err ErrTooManyTxCodeAttempts, _, _) => err (newError ErrorInvalidGrant 400 codeExhausted [OfCode ErrTooManyTxCodeAttempts])
  | (Err ErrWrongTxCode, wrongAttempts, _) =>
      if MaxTxCodeAttempts limits <=? wrongAttempts then
        r <~ CodeInvalidate key;
        match r with
        | Err e => err (caused "invalidate after too many tx_code attempts" [OfCode e])
        | Ok _ => err (newError ErrorInvalidGrant 400 codeExhausted [OfCode ErrWrongTxCode])
        end
      else if String.eqb (x_TxCode req) "" then err (newError ErrorInvalidTokenRequest 400 "tx_code is required" [OfCode ErrWrongTxCode])
      else err (newError ErrorInvalidGrant 400 "tx_code does not match" [OfCode ErrWrongTxCode])
  | (Err ErrPreAuthorizedCodeUnknown, _, _) => err (newError ErrorInvalidGrant 400 codeUnknown [OfCode ErrPreAuthorizedCodeUnknown])
  | (Err e, _, _) => err (caused "dependencies.pre_authorized_codes" [OfCode e])
  end.

(** With the client it found, for the audit. *)
Definition redeemPreAuthorizedCode (req : ExchangeRequest) (now : Z) : prog op (string * res iss_error RedeemedPreAuthorizedCode) :=
  if negb (is_Some_b (PreAuthorizedCodes deps)) then Return (EmptyString, Err (failed "the pre-authorized_code grant is not configured"))
  else if String.eqb (x_PreAuthorizedCode req) "" then Return (EmptyString, Err (newError ErrorInvalidTokenRequest 400 "pre-authorized_code is required" []))
  else match preAuthorizedBinding req with
  | Err e => Return (EmptyString, Err e)
  | Ok binding =>
      match requestedConfigurations (x_Details req) with
      | Err e => Return (vt_ClientID binding, Err e)
      | Ok requested =>
          r <- consumePreAuthorizedCode req requested now;;
          Return (vt_ClientID binding, let? (record, details) := r in
            Ok {| rd_ClientID := vt_ClientID binding; rd_Subject := c_Subject record; rd_Scope := Scopes record; rd_Details := details;
                  rd_binding := binding; rd_record := record |})
      end
  end.

Definition redeemVerifiedPreAuthorizedCode (req : ExchangeRequest) : prog op (string * res iss_error RedeemedPreAuthorizedCode) :=
  if negb (is_verified (PreAuthorizedCodeClientAuthentication cfg)) then Return (EmptyString, Err (failed "needs VerifiedPreAuthorizedCode"))
  else now <~ Ask Clock; redeemPreAuthorizedCode req now.

Definition RedeemPreAuthorizedCode (req : ExchangeRequest) : call RedeemedPreAuthorizedCode :=
  r <- redeemVerifiedPreAuthorizedCode req;;
  audit AuditEventRedeemPreAuthorizedCode (fst r) (snd r).

Definition token_params (now : Z) (redeemed : RedeemedPreAuthorizedCode) (claims : option bytes) : AccessTokenParams := {|
  at_Scope := Scopes (rd_record redeemed); at_Thumbprint := DPoPThumbprint (rd_binding redeemed); at_Subject := c_Subject (rd_record redeemed);
  at_ClientID := vt_ClientID (rd_binding redeemed); at_Claims := claims; at_Issuer_URL := storeOwner; at_Audience := storeOwner;
  at_Now := now; at_Lifetime := AccessTokenLifetime limits |}.

Definition issue_token (now : Z) (redeemed : RedeemedPreAuthorizedCode) : call ExchangeResult :=
  match (match rd_Details redeemed with [] => Ok None | details => match marshal_details details with Some raw => Ok (Some raw) | None => Err tt end end) with
  | Err _ => err (failed "marshal authorization_details")
  | Ok claims =>
      token <~ Ask (fun w => IssueAccessToken w iss (token_params now redeemed claims));
      match token with
      | None => err (failed "issue access token")
      | Some token => ok {| xr_AccessToken := token; xr_ExpiresIn := AccessTokenLifetime limits; xr_NextDPoPNonce := vt_NextDPoPNonce (rd_binding redeemed);
          xr_Details := rd_Details redeemed; xr_Subject := c_Subject (rd_record redeemed); xr_Scope := Scopes (rd_record redeemed) |}
      end
  end.

Definition exchangePreAuthorizedCode (req : ExchangeRequest) : prog op (string * res iss_error ExchangeResult) :=
  if is_Some_b (PreAuthorizedCodes deps) && negb (AccessTokens deps) then Return (EmptyString, Err (failed "dependencies.access_tokens isn't set"))
  else
    now <~ Ask Clock;
    r <- redeemPreAuthorizedCode req now;;
    match snd r with
    | Err e => Return (fst r, Err e)
    | Ok redeemed => x <- issue_token now redeemed;; Return (fst r, x)
    end.

Definition ExchangePreAuthorizedCode (req : ExchangeRequest) : call ExchangeResult :=
  r <- exchangePreAuthorizedCode req;;
  audit AuditEventExchangePreAuthorizedCode (fst r) (snd r).

(** ** Notifications: notification_endpoint.go *)

Definition IssueNotificationID (auth : AuthorizedRequest) : call string :=
  if negb (is_Some_b (Notifications deps)) then err (failed "notifications are not configured")
  else when_none (requireClientIdentityDecision auth) (
    raw <~ Random 32;
    match raw_id raw with
    | None => err (failed "issue notification id")
    | Some id =>
        now <~ (if 0 <? NotificationLifetime limits then Ask (fun w => Clock w + NotificationLifetime limits) else Ask (fun _ => time_zero));
        r <~ NotificationIssue id {| t_Owner := storeOwner; t_ClientID := AuthorizedRequest_ClientID auth; t_Subject := au_Subject auth; t_ExpiresAt := now |};
        match r with
        | Err e => err (caused "issue notification id" [OfNotification e])
        | Ok _ =>
            r <- checkOwnerKept NotificationOwner (
              r <~ NotificationGet id; match r with Err e => err (caused "" [OfNotification e]) | Ok saved => ok (t_Owner saved) end);;
            match r with Err e => err (wrapping "issue notification id" e) | Ok _ => ok id end
        end
    end).

Definition notification_events : list string := ["credential_accepted"; "credential_deleted"; "credential_failure"]%string.

Definition event_rune (r : Z) : bool := (0x20 <=? r) && (r <=? 0x7e) && negb (r =? 0x22) && negb (r =? 0x5c).
Definition validateEventDescription (s : string) : bool := forallb (fun p => event_rune p.1) (runes s).

Definition unknownNotificationID : string := "unknown notification_id".

Definition other_client (clientID subject : string) (auth : AuthorizedRequest) : bool :=
  negb (String.eqb clientID "") && negb (String.eqb (AuthorizedRequest_ClientID auth) clientID) ||
  negb (String.eqb subject "") && negb (String.eqb (au_Subject auth) subject).

Definition RequestNotification (auth : AuthorizedRequest) (req : NotificationRequest) : call unit :=
  if negb (is_Some_b (Notifications deps)) then err (failed "notifications are not configured")
  else when_none (requireClientIdentityDecision auth) (
    if String.eqb (q_NotificationID req) "" then err (newError ErrorInvalidNotificationRequest 400 "notification_id is required" [])
    else if negb (in_list (q_Event req) notification_events)
      then err (newError ErrorInvalidNotificationRequest 400 "event must be credential_accepted, credential_failure, or credential_deleted" [])
    else if negb (validateEventDescription (q_EventDescription req))
      then err (newError ErrorInvalidNotificationRequest 400 "event_description contains a character outside the allowed set (%x20-21 / %x23-5B / %x5D-7E)" [])
    else
      r <~ NotificationGet (q_NotificationID req);
      match r with
      | Err ErrNotificationIDUnknown => err (newError ErrorInvalidNotificationID 400 unknownNotificationID [OfNotification ErrNotificationIDUnknown])
      | Err e => err (caused "dependencies.notifications" [OfNotification e])
      | Ok record =>
          if negb (owns (t_Owner record)) then err (newError ErrorInvalidNotificationID 400 unknownNotificationID [])
          else
            now <~ Ask Clock;
            if negb (t_ExpiresAt record =? time_zero) && negb (now <? t_ExpiresAt record) then err (newError ErrorInvalidNotificationID 400 unknownNotificationID [])
            else if other_client (t_ClientID record) (t_Subject record) auth then err (newError ErrorInvalidNotificationID 400 unknownNotificationID [])
            else if negb (NotificationHandler deps) then ok tt
            else
              handled <~ HandleNotification iss req;
              if (handled : bool) then ok tt else err (failed "handle notification")
      end).

End Of.
End Calls.
