(* ===== verification/IssuerSafe.v ===== *)
(** * What Issuers keep, however their calls interleave

    Any number of calls, of any number of Issuers that share stores, one
    operation at a time: a store may fail before or after it saves, and drop
    what it holds; the clock and the world may change between any two
    operations.  Ghost state: everything ever saved under a drawn name, as last
    saved, with the call it is of, and what calls have used up.  The calls, and
    what each may save, are a parameter: [IssuerCalls] gives them.  And, of a
    run's trace: a code that is consumed was issued before ([traced_codes]). *)
From S2P Require Import Prelude B64Url Json DcqlQuery DcqlValues Text JwtDate Jws X509 CertChain Cose Prog Reasons SdJwt SdIssue CredentialOffer IssuerStores IssuerConfig Issuer.
#[local] Open Scope Z_scope.

(** ** What is shared *)

Section Shared.
Context `{IssuerWorld} `{!OfferText} {NS CS DS TS OS : Type}
  `{!NonceStore NS} `{!PreAuthorizedCodeStore CS} `{!DeferredTransactionStore DS} `{!NotificationStore TS} `{!CredentialOfferStore OS}.

Record shared : Type := {
  sh_nonces : NS;
  sh_codes : CS;
  sh_deferred : DS;
  sh_notifications : TS;
  sh_offers : OS;
  sh_world : World;
  sh_random : random_source;
  sh_drawn : nat;
  sh_kept : list (nat * owner_kind);
  sh_audit : list AuditEvent;
  sh_handler : NotificationRequest -> bool
}.

Definition with_nonces (s : shared) (x : NS) : shared := {|
  sh_nonces := x; sh_codes := sh_codes s; sh_deferred := sh_deferred s; sh_notifications := sh_notifications s; sh_offers := sh_offers s;
  sh_world := sh_world s; sh_random := sh_random s; sh_drawn := sh_drawn s; sh_kept := sh_kept s; sh_audit := sh_audit s; sh_handler := sh_handler s |}.
Definition with_codes (s : shared) (x : CS) (n : nat) : shared := {|
  sh_nonces := sh_nonces s; sh_codes := x; sh_deferred := sh_deferred s; sh_notifications := sh_notifications s; sh_offers := sh_offers s;
  sh_world := sh_world s; sh_random := sh_random s; sh_drawn := n; sh_kept := sh_kept s; sh_audit := sh_audit s; sh_handler := sh_handler s |}.
Definition with_deferred (s : shared) (x : DS) : shared := {|
  sh_nonces := sh_nonces s; sh_codes := sh_codes s; sh_deferred := x; sh_notifications := sh_notifications s; sh_offers := sh_offers s;
  sh_world := sh_world s; sh_random := sh_random s; sh_drawn := sh_drawn s; sh_kept := sh_kept s; sh_audit := sh_audit s; sh_handler := sh_handler s |}.
Definition with_notifications (s : shared) (x : TS) : shared := {|
  sh_nonces := sh_nonces s; sh_codes := sh_codes s; sh_deferred := sh_deferred s; sh_notifications := x; sh_offers := sh_offers s;
  sh_world := sh_world s; sh_random := sh_random s; sh_drawn := sh_drawn s; sh_kept := sh_kept s; sh_audit := sh_audit s; sh_handler := sh_handler s |}.
Definition with_offers (s : shared) (x : OS) : shared := {|
  sh_nonces := sh_nonces s; sh_codes := sh_codes s; sh_deferred := sh_deferred s; sh_notifications := sh_notifications s; sh_offers := x;
  sh_world := sh_world s; sh_random := sh_random s; sh_drawn := sh_drawn s; sh_kept := sh_kept s; sh_audit := sh_audit s; sh_handler := sh_handler s |}.
Definition with_kept (s : shared) (k : list (nat * owner_kind)) (a : list AuditEvent) : shared := {|
  sh_nonces := sh_nonces s; sh_codes := sh_codes s; sh_deferred := sh_deferred s; sh_notifications := sh_notifications s; sh_offers := sh_offers s;
  sh_world := sh_world s; sh_random := sh_random s; sh_drawn := sh_drawn s; sh_kept := k; sh_audit := a; sh_handler := sh_handler s |}.

Definition sh_now (s : shared) : Z := Clock (sh_world s).

(** A Consume's accept draws on from where the source is. *)
Definition accept_at {X : Type} (s : shared) (accept : PreAuthorizedCodeRecord -> draw (bool * X)) (r : PreAuthorizedCodeRecord) : bool * (X * nat) :=
  let '((b, x), i) := accept r (sh_random s) (sh_drawn s) in (b, (x, i)).

Definition drawn_after {X : Type} (n : nat) (said : option (bool * (X * nat))) : nat := match said with Some (_, (_, i)) => Nat.max n i | None => n end.

Definition exec (X : Type) (o : op X) : shared -> X * shared :=
  match o in op X return shared -> X * shared with
  | Ask f => fun s => (f (sh_world s), s)
  | Random n => fun s => (sh_random s (sh_drawn s) n, with_codes s (sh_codes s) (S (sh_drawn s)))
  | NonceIssue n r => fun s => let '(x, st) := Nonce_Issue (sh_now s) n r (sh_nonces s) in (x, with_nonces s st)
  | NonceConsume n owner => fun s => let '(x, st) := Nonce_Consume n owner (sh_nonces s) in (x, with_nonces s st)
  | NonceSpend n r => fun s => let '(x, st) := Nonce_Spend (sh_now s) n r (sh_nonces s) in (x, with_nonces s st)
  | CodeIssue k r => fun s => let '(x, st) := Code_Issue (sh_now s) k r (sh_codes s) in (x, with_codes s st (sh_drawn s))
  | CodeConsume k want max accept => fun s =>
      let '((x, n, said), st) := Code_Consume k want max (accept_at s accept) (sh_codes s) in
      ((x, n, (fun p => (fst p, fst (snd p))) <$> said), with_codes s st (drawn_after (sh_drawn s) said))
  | CodeInvalidate k => fun s => let '(x, st) := Code_Invalidate k (sh_codes s) in (x, with_codes s st (sh_drawn s))
  | DeferredGet id => fun s => (Deferred_Get id (sh_deferred s), s)
  | DeferredInvalidate id => fun s => let '(x, st) := Deferred_Invalidate id (sh_deferred s) in (x, with_deferred s st)
  | DeferredCreate id r => fun s => let '(x, st) := Deferred_Create (sh_now s) id r (sh_deferred s) in (x, with_deferred s st)
  | DeferredUpdate id fn => fun s => let '(x, st) := Deferred_Update id (fn (sh_world s)) (sh_deferred s) in (x, with_deferred s st)
  | NotificationIssue id r => fun s => let '(x, st) := Notification_Issue (sh_now s) id r (sh_notifications s) in (x, with_notifications s st)
  | NotificationGet id => fun s => (Notification_Get id (sh_notifications s), s)
  | OfferStore r => fun s => let '(x, st) := Offer_Store (sh_now s) r (sh_offers s) in (x, with_offers s st)
  | OfferGet reference => fun s => (Offer_Get reference (sh_offers s), s)
  | KeptLoad iss kind => fun s => (bool_decide ((i_serial iss, kind) ∈ sh_kept s), s)
  | KeptStore iss kind => fun s => (tt, with_kept s ((i_serial iss, kind) :: sh_kept s) (sh_audit s))
  | Record_Audit e => fun s => (tt, with_kept s (sh_kept s) (sh_audit s ++ [e]))
  | HandleNotification _ q => fun s => (sh_handler s q, s)
  end.

Definition exec_rel (X : Type) (o : op X) (s : shared) (x : X) (s' : shared) : Prop := exec X o s = (x, s').

Context `{!NonceStoreLaws NS} `{!PreAuthorizedCodeStoreLaws CS} `{!DeferredTransactionStoreLaws DS} `{!NotificationStoreLaws TS}.

(** What surrounds the calls: stores may drop what they hold, values be drawn,
    and the rest change. *)
Definition around (s s' : shared) : Prop :=
  nonces (sh_nonces s') ⊆ nonces (sh_nonces s) /\ codes (sh_codes s') ⊆ codes (sh_codes s) /\ codes_ok (sh_codes s') /\
  transactions (sh_deferred s') ⊆ transactions (sh_deferred s) /\ notifications (sh_notifications s') ⊆ notifications (sh_notifications s) /\
  sh_random s' = sh_random s /\ (sh_drawn s <= sh_drawn s')%nat.

End Shared.

(** ** Codes, in a trace

    What a Consume gives was issued before, and is as its accept took it. *)
Section CodesTraced.
Context `{IssuerWorld} `{!OfferText} {NS CS DS TS OS : Type}
  `{!NonceStore NS} `{!PreAuthorizedCodeStore CS} `{!DeferredTransactionStore DS} `{!NotificationStore TS} `{!CredentialOfferStore OS}
  `{!NonceStoreLaws NS} `{!PreAuthorizedCodeStoreLaws CS} `{!DeferredTransactionStoreLaws DS} `{!NotificationStoreLaws TS}.

#[local] Abbreviation state := (shared (NS:=NS) (CS:=CS) (DS:=DS) (TS:=TS) (OS:=OS)).

Definition code_issued (k : string) (r : PreAuthorizedCodeRecord) (tr : list (nat * event op)) : Prop :=
  exists j x, (j, Event (CodeIssue k r) x) ∈ tr.

Definition consumed_issued (tr : list (nat * event op)) (e : event op) : Prop :=
  match e with
  | Event o x => match o in op X return X -> Prop with
      | CodeConsume k want _ accept => fun x => forall r n y, x = (Ok r, n, Some y) ->
          want = TxCodeHash r /\ (exists src i, fst (accept r src i) = y) /\ code_issued k r tr
      | _ => fun _ => True
      end x
  end.

Definition codes_issued (tr : list (nat * event op)) (s : state) : Prop :=
  codes_ok (sh_codes s) /\ forall k r a, codes (sh_codes s) !! k = Some (r, a) -> code_issued k r tr.

Lemma code_issued_later k r e tr : code_issued k r tr -> code_issued k r (e :: tr).
Proof using. intros (j & x & Hin); exists j, x; by right. Qed.

Lemma codes_issued_less tr e (s s' : state) : codes_issued tr s -> codes_ok (sh_codes s') ->
  (forall k r a, codes (sh_codes s') !! k = Some (r, a) -> (exists a', codes (sh_codes s) !! k = Some (r, a')) \/ code_issued k r (e :: tr)) ->
  codes_issued (e :: tr) s'.
Proof using.
  intros [_ Hin] Hok Hs; split; [done|]; intros k r a Hk; destruct (Hs k r a Hk) as [[a' Ha]|?]; [|done]; by eapply code_issued_later, Hin.
Qed.

(** Operations on anything else leave the codes as they are. *)
Lemma exec_codes tr i X (o : op X) (s : state) x s' : codes_issued tr s -> exec X o s = (x, s') ->
  codes_issued ((i, Event o x) :: tr) s' /\ consumed_issued tr (Event o x).
Proof using NonceStoreLaws0 PreAuthorizedCodeStoreLaws0.
  intros HI; pose proof HI as [Hok Hin]; assert (Hsame : forall e s1, sh_codes s1 = sh_codes s -> codes_issued (e :: tr) s1).
  { intros e s1 E; apply (codes_issued_less tr e s); [done|by rewrite E|]; rewrite E; eauto. }
  destruct o; cbn [exec]; try (intros [= <- <-]; by split; [apply Hsame|]);
    try (match goal with |- context [let '(_, _) := ?u in _] => destruct u as [y st] end; intros [= <- <-]; by split; [apply Hsame|]).
  - pose proof (Code_Issue_law (sh_now s) k r (sh_codes s) Hok) as Hlaw; destruct (Code_Issue _ _ _ _) as [y st]; intros [= <- <-]; split; [|done].
    destruct Hlaw as [Hok' Hv]; eapply codes_issued_less; [exact HI|done|]; cbn [with_codes sh_codes]; intros k1 r1 a1 Hk1; destruct Hv as [Hv|[a Hv]];
      pose proof (lookup_weaken _ _ _ _ Hk1 Hv) as Hk2; [by left; exists a1|].
    apply lookup_insert_Some in Hk2 as [[<- [= -> _]]|[_ Hk2]]; [right; exists i, y; by left|by left; exists a1].
  - pose proof (Code_Consume_law k want maxAttempts (accept_at s accept) (sh_codes s) Hok) as Hlaw;
      destruct (Code_Consume _ _ _ _ _) as [[[y n] said] st]; intros [= <- <-]; destruct Hlaw as (Hok' & Hv & Hx & _); split.
    + eapply codes_issued_less; [exact HI|done|]; cbn [with_codes sh_codes]; intros k1 r1 a1 Hk1; left; destruct Hv as [Hv|(r & a & Hr & Hv)];
        pose proof (lookup_weaken _ _ _ _ Hk1 Hv) as Hk2; [by exists a1|].
      apply lookup_insert_Some in Hk2 as [[<- [= <- _]]|[_ Hk2]]; [by exists a|by exists a1].
    + cbn; intros r m z [= -> _ Hz]; destruct (Hx r eq_refl) as (a & [b v] & Hr & Hw & _ & Ha & -> & _); injection Hz as <-; split_and!; [done| |by eapply Hin].
      exists (sh_random s), (sh_drawn s); unfold accept_at in Ha; destruct (accept r _ _) as [[b0 x0] j]; by injection Ha as -> <-.
  - pose proof (Code_Invalidate_law k (sh_codes s) Hok) as Hlaw; destruct (Code_Invalidate _ _) as [y st]; intros [= <- <-]; destruct Hlaw as [Hok' Hv]; split; [|done].
    eapply codes_issued_less; [exact HI|done|]; cbn [with_codes sh_codes]; intros k1 r1 a1 Hk1; left; exists a1; by eapply lookup_weaken.
Qed.

Lemma traced_codes {A} c tr (c' : list (prog op A) * state) : traced exec_rel around c tr c' -> codes (sh_codes c.2) = ∅ -> codes_ok (sh_codes c.2) ->
  codes_issued tr c'.2 /\ forall i e before after, tr = after ++ (i, e) :: before -> consumed_issued before e.
Proof using NonceStoreLaws0 PreAuthorizedCodeStoreLaws0 DeferredTransactionStoreLaws0 NotificationStoreLaws0.
  intros Ht He Hok; induction Ht as [|tr i ps s X o k x s' _ [IH1 IH2] _ Hx|tr ps s s' _ [[_ IH1] IH2] (_ & Hc & Hok' & _)]; cbn [snd] in *.
  - split; [split; [done|]; intros k r a; by rewrite He|]; intros i e before after E; by destruct after.
  - destruct (exec_codes tr i X o s x s' IH1 Hx) as [HI Hcons]; split; [done|].
    intros j e before [|[j' e'] after] E; cbn in E; [by injection E as _ <- <-|injection E as _ _ E; by eapply IH2].
  - split; [|done]; split; [done|]; intros k r a Hk; eapply IH1; by eapply lookup_weaken.
Qed.
End CodesTraced.

(** ** What is ever saved *)

Inductive item : Type :=
| Nonce (r : NonceRecord)
| Code (r : PreAuthorizedCodeRecord)
| Deferred (r : DeferredTransactionRecord)
| Note (r : NotificationRecord).

(** What a deferred transaction is of, whatever has come of it. *)
Definition request_of (r : DeferredTransactionRecord) :=
  (d_Owner r, d_ClientID r, d_Subject r, d_ConfigurationID r, BindingKeys r, KeyAttestations r, ProofKeyHeaders r, Reference r).

(** One that is decided stays as it is. *)
Definition follows (r r' : DeferredTransactionRecord) : Prop :=
  r = r' \/ d_Status r = DeferredTransactionPending /\ request_of r = request_of r'.

Definition lives (a b : item) : Prop :=
  match a, b with Deferred r, Deferred r' => follows r r' | _, _ => a = b end.

Lemma follows_request r r' : follows r r' -> request_of r = request_of r'.
Proof. by intros [->|[_ ?]]. Qed.

Lemma lives_refl a : lives a a.
Proof. destruct a; cbn; try done; by left. Qed.

Lemma lives_trans a b c : lives a b -> lives b c -> lives a c.
Proof.
  intros H1 H2; destruct a as [| |r|], b as [| |r1|]; cbn in H1; try done; try (injection H1 as ->; exact H2).
  destruct c as [| |r2|]; cbn in *; try done; destruct H1 as [->|[Hp Hr]]; [done|].
  right; split; [done|]; rewrite Hr; by apply follows_request.
Qed.

(** What calls use up. *)
Inductive claim : Type :=
| Drew (n : nat)
| NonceTaken (n : string)
| CodeRedeemed (k : string)
| CodeGuessed (k : string) (attempt : Z)
| DeferredDecided (id : string)
| DeferredCollected (id : string).

Definition nonce_name (n : string) : nat * string := (0%nat, n).
Definition code_name (k : string) : nat * string := (1%nat, k).
Definition deferred_name (id : string) : nat * string := (2%nat, id).
Definition note_name (id : string) : nat * string := (3%nat, id).

(** What a claim is about must have been saved. *)
Definition claim_name (t : claim) : option (nat * string) :=
  match t with
  | Drew _ => None
  | NonceTaken n => Some (nonce_name n)
  | CodeRedeemed k | CodeGuessed k _ => Some (code_name k)
  | DeferredDecided id | DeferredCollected id => Some (deferred_name id)
  end.

(** ** Ghost state *)

Section Safe.
Context `{IssuerWorld} `{!OfferText} {NS CS DS TS OS : Type}
  `{!NonceStore NS} `{!PreAuthorizedCodeStore CS} `{!DeferredTransactionStore DS} `{!NotificationStore TS} `{!CredentialOfferStore OS}
  `{!NonceStoreLaws NS} `{!PreAuthorizedCodeStoreLaws CS} `{!DeferredTransactionStoreLaws DS} `{!NotificationStoreLaws TS}.

#[local] Abbreviation state := (shared (NS:=NS) (CS:=CS) (DS:=DS) (TS:=TS) (OS:=OS)).

(** The calls made; what each may save, and under which name; and the random
    source. *)
Context {C : Type} (calls : list C) (genuine : C -> nat * string -> item -> Prop) (supply : random_source).

Record ghost : Type := { hist : gmap (nat * string) (C * item); log : list claim }.

(** The [i]-th draw is what the name is made of. *)
Definition named (i : nat) (name : nat * string) : Prop :=
  exists n raw, supply i n = Some raw /\
    if bool_decide (name.1 = 1%nat) then exists owner, name.2 = preAuthorizedCodeKey owner (b64_string raw) else name.2 = b64_string raw.

Record inv (g : ghost) (s : state) : Prop := {
  inv_supply : sh_random s = supply;
  inv_codes_ok : codes_ok (sh_codes s);
  inv_nonces : forall n r, nonces (sh_nonces s) !! n = Some r ->
    isStatelessNonce n = true \/ exists c, hist g !! nonce_name n = Some (c, Nonce r) /\ NonceTaken n ∉ log g;
  inv_codes : forall k r a, codes (sh_codes s) !! k = Some (r, a) ->
    exists c, hist g !! code_name k = Some (c, Code r) /\ CodeRedeemed k ∉ log g /\ forall a', CodeGuessed k a' ∈ log g -> a' <= a;
  inv_deferred : forall id r, transactions (sh_deferred s) !! id = Some r ->
    exists c, hist g !! deferred_name id = Some (c, Deferred r) /\ DeferredCollected id ∉ log g;
  inv_notes : forall id r, notifications (sh_notifications s) !! id = Some r -> exists c, hist g !! note_name id = Some (c, Note r);
  inv_hist : forall name c it, hist g !! name = Some (c, it) -> genuine c name it /\ c ∈ calls /\ exists i, (i < sh_drawn s)%nat /\ named i name;
  inv_log : NoDup (log g);
  inv_drew : forall n, Drew n ∈ log g -> (n < sh_drawn s)%nat;
  inv_claims : forall t name, t ∈ log g -> claim_name t = Some name -> is_Some (hist g !! name);
  inv_decided : forall id c r, DeferredDecided id ∈ log g -> hist g !! deferred_name id = Some (c, Deferred r) -> d_Status r <> DeferredTransactionPending
}.

(** Everything saved lives on; a new name is of a value the call drew. *)
Definition trans (mine : list claim) (g g' : ghost) : Prop :=
  (forall name c it, hist g !! name = Some (c, it) -> exists it', hist g' !! name = Some (c, it') /\ lives it it') /\
  (forall name, hist g !! name = None -> is_Some (hist g' !! name) -> exists n, Drew n ∈ mine /\ named n name) /\
  (forall t, t ∈ log g -> t ∈ log g').

(** What a call may rely on once it has gone on: what was saved, and what it
    has used up. *)
Record later (g : ghost) (mine : list claim) (g' : ghost) (m : list claim) : Prop := {
  later_hist : forall name c it, hist g !! name = Some (c, it) -> exists it', hist g' !! name = Some (c, it') /\ lives it it';
  later_log : forall t, t ∈ log g -> t ∈ log g';
  later_mine : forall t, t ∈ mine -> t ∈ m
}.

Lemma later_refl g mine : later g mine g mine.
Proof using. split; try done; intros name c it Hh; exists it; split; [done|apply lives_refl]. Qed.

Lemma later_trans g mine g1 m1 g2 m2 : later g mine g1 m1 -> later g1 m1 g2 m2 -> later g mine g2 m2.
Proof using.
  intros [A1 A2 A3] [B1 B2 B3]; split; eauto.
  intros name c it Hh; destruct (A1 _ _ _ Hh) as (i1 & Hi1 & L1); destruct (B1 _ _ _ Hi1) as (i2 & Hi2 & L2); exists i2; split; [done|].
  by eapply lives_trans.
Qed.

Context (supply_inj : forall a b n m raw, supply a n = Some raw -> supply b m = Some raw -> a = b).
Context (supply_bytes : forall a n raw, supply a n = Some raw -> bytes_ok raw).
Context (keys_distinct : forall o o' a b, preAuthorizedCodeKey o a = preAuthorizedCodeKey o' b -> o = o' /\ a = b).

Lemma named_inj i j name : named i name -> named j name -> i = j.
Proof using supply_inj supply_bytes keys_distinct.
  intros (n & raw & Hr & Hn) (m & raw' & Hr' & Hm); assert (E : b64_string raw = b64_string raw').
  { case_bool_decide; [|by rewrite <- Hn, <- Hm]; destruct Hn as [o Hn], Hm as [o' Hm]; eapply (keys_distinct o o'); by rewrite <- Hn, <- Hm. }
  assert (Er : raw = raw').
  { apply (f_equal b64_decode) in E; rewrite !b64_decode_string in E by eauto; congruence. }
  subst raw'; by eapply supply_inj.
Qed.

Lemma rely_later mine g g' : rely trans mine g g' -> later g mine g' mine.
Proof using.
  induction 1 as [g|g g1 g' (m & Hap & T1 & T2 & T3) _ IH]; [apply later_refl|]; eapply later_trans; [|exact IH]; by split.
Qed.

(** A draw of the call's own of which no name is made yet. *)
Record fresh (i : nat) (g : ghost) (mine : list claim) : Prop := {
  fresh_mine : Drew i ∈ mine;
  fresh_log : Drew i ∈ log g;
  fresh_names : forall name, named i name -> hist g !! name = None
}.

Lemma fresh_rely i g g' mine : rely trans mine g g' -> fresh i g mine -> fresh i g' mine.
Proof using supply_inj supply_bytes keys_distinct.
  induction 1 as [g|g g1 g' (m & Hap & T1 & T2 & T3) _ IH]; [done|]; intros [Hm Hl Hn]; apply IH; split; [done|by apply T3|].
  intros name Hname; destruct (hist g1 !! name) eqn:E; [|done]; destruct (T2 name (Hn name Hname)) as (a & Ha & Hna); [by rewrite E|].
  rewrite (named_inj a i name Hna Hname) in Ha; by destruct (Hap (Drew i) Ha Hm).
Qed.

Definition part {A} := safe exec_rel inv trans log (A:=A).

(** ** One operation at a time *)

(** The stores hold what they did, but for more wrong attempts, and what else
    is known. *)
Lemma inv_stores g (s s' : state) : inv g s ->
  (forall n r, nonces (sh_nonces s') !! n = Some r -> isStatelessNonce n = true \/ nonces (sh_nonces s) !! n = Some r \/
    exists c, hist g !! nonce_name n = Some (c, Nonce r) /\ NonceTaken n ∉ log g) ->
  (forall k r a, codes (sh_codes s') !! k = Some (r, a) -> (exists a0, codes (sh_codes s) !! k = Some (r, a0) /\ a0 <= a) \/
    exists c, hist g !! code_name k = Some (c, Code r) /\ CodeRedeemed k ∉ log g /\ forall a', CodeGuessed k a' ∈ log g -> a' <= a) ->
  codes_ok (sh_codes s') ->
  (forall id r, transactions (sh_deferred s') !! id = Some r -> transactions (sh_deferred s) !! id = Some r \/
    exists c, hist g !! deferred_name id = Some (c, Deferred r) /\ DeferredCollected id ∉ log g) ->
  (forall id r, notifications (sh_notifications s') !! id = Some r -> notifications (sh_notifications s) !! id = Some r \/
    exists c, hist g !! note_name id = Some (c, Note r)) ->
  sh_random s' = sh_random s -> (sh_drawn s <= sh_drawn s')%nat -> inv g s'.
Proof using.
  intros [I1 I2 I3 I4 I5 I6 I7 I8 I9 I10 I11] Hn Hc Hok Hd Ht Hr Hi; split; try done.
  - by rewrite Hr.
  - intros n r Hnr; destruct (Hn n r Hnr) as [Hs|[Hs|Hs]]; [by left|by apply I3|by right].
  - intros k r a Hk; destruct (Hc k r a Hk) as [(a0 & Ha & Hle)|Hs]; [|done]; destruct (I4 _ _ _ Ha) as (c & Hh & Hnr & Hg).
    exists c; split_and!; try done; intros a' Ha'; pose proof (Hg a' Ha'); lia.
  - intros id r Hid; destruct (Hd id r Hid); [by apply I5|done].
  - intros id r Hid; destruct (Ht id r Hid); [by apply I6|done].
  - intros name c it Hh; destruct (I7 _ _ _ Hh) as (? & ? & i & ? & ?); split_and!; try done; exists i; split; [lia|done].
  - intros n Hin; pose proof (I9 n Hin); lia.
Qed.

Lemma issuer_inv_around g (s s' : state) : inv g s -> around s s' -> inv g s'.
Proof using.
  intros HI (Hn & Hc & Hok & Hd & Ht & Hr & Hi); eapply inv_stores; try done.
  - intros n r Hnr; right; left; by eapply lookup_weaken.
  - intros k r a Hk; left; exists a; split; [by eapply lookup_weaken|done].
  - intros id r Hid; left; by eapply lookup_weaken.
  - intros id r Hid; left; by eapply lookup_weaken.
Qed.

Lemma issuer_trans_refl mine g : trans mine g g.
Proof using.
  split_and!; [intros name c it Hh; exists it; split; [done|apply lives_refl]| |done]; intros name Hn [x Hx]; congruence.
Qed.

(** An operation that changes nothing that is known. *)
Lemma part_keeps {A X} Q (o : op X) (k : X -> prog op A) g mine :
  (forall g1 (s : state) x s', inv g1 s -> exec X o s = (x, s') -> inv g1 s') ->
  (forall g1 (s : state), rely trans mine g g1 -> inv g1 s -> part Q (k (exec X o s).1) g1 mine) -> part Q (Do o k) g mine.
Proof using.
  intros Hk Hq g1 s x s' Hr HI Hx; exists g1, []; cbn [app]; split_and!; [apply issuer_trans_refl|by eapply Hk|done|by destruct HI|].
  replace x with (exec X o s).1 by (by rewrite Hx); by apply Hq.
Qed.

(** A value drawn: no name is made of it. *)
Lemma part_random {A} Q n (k : option bytes -> prog op A) g mine :
  (forall g1 i m, later g mine g1 m -> fresh i g1 m -> part Q (k (supply i n)) g1 m) -> part Q (Do (Random n) k) g mine.
Proof using supply_inj supply_bytes keys_distinct.
  intros Hk g1 s x s' Hr HI [= <- <-]; exists {| hist := hist g1; log := Drew (sh_drawn s) :: log g1 |}, [Drew (sh_drawn s)]; cbn [app log].
  assert (Hnew : Drew (sh_drawn s) ∉ log g1) by (intros Hin; pose proof (inv_drew _ _ HI _ Hin); lia).
  assert (Hname : forall name, named (sh_drawn s) name -> hist g1 !! name = None).
  { intros name Hn; destruct (hist g1 !! name) as [[c it]|] eqn:E; [|done]; destruct (inv_hist _ _ HI _ _ _ E) as (_ & _ & i & Hi & Hin).
    rewrite (named_inj _ _ _ Hn Hin) in Hi; lia. }
  destruct HI as [I1 I2 I3 I4 I5 I6 I7 I8 I9 I10 I11]; split_and!.
  - split_and!; cbn [hist log]; [intros name c it Hh; exists it; split; [done|apply lives_refl]|intros name Hn [y Hy]; congruence|].
    intros t Ht; by right.
  - split; cbn [hist log sh_random sh_codes sh_nonces sh_deferred sh_notifications sh_drawn with_codes]; try done.
    + intros m r Hm; destruct (I3 m r Hm) as [?|(c & Hc & Hl)]; [by left|right; exists c; split; [done|]]; by intros [?|?]%elem_of_cons.
    + intros k0 r a Hm; destruct (I4 _ _ _ Hm) as (c & Hc & Hl & Hg); exists c; split_and!; [done|by intros [?|?]%elem_of_cons|].
      intros a' [?|?]%elem_of_cons; [done|by apply Hg].
    + intros id r Hm; destruct (I5 _ _ Hm) as (c & Hc & Hl); exists c; split; [done|]; by intros [?|?]%elem_of_cons.
    + intros name c it Hh; destruct (I7 _ _ _ Hh) as (? & ? & i & ? & ?); split_and!; try done; exists i; split; [lia|done].
    + by constructor.
    + intros m [[= ->]|Hin]%elem_of_cons; [lia|pose proof (I9 m Hin); lia].
    + intros t name [->|Ht]%elem_of_cons Hn; [done|by eapply I10].
    + intros id c r [?|Hd]%elem_of_cons Hh; [done|by eapply I11].
  - done.
  - by constructor.
  - rewrite I1; apply Hk.
    + eapply later_trans; [by apply rely_later|]; split; cbn [hist log]; [|by right|by right].
      intros name c it Hh; exists it; split; [done|apply lives_refl].
    + split; cbn [hist log]; [by left|by left|done].
Qed.

(** ** Saving under a drawn name *)

Definition saved (g : ghost) (name : nat * string) (c : C) (it : item) : ghost := {| hist := <[name := (c, it)]> (hist g); log := log g |}.

Lemma fresh_unclaimed i g (s : state) mine name t : inv g s -> fresh i g mine -> named i name -> claim_name t = Some name -> t ∉ log g.
Proof using.
  intros HI Hf Hn Ht Hin; destruct (inv_claims _ _ HI t name Hin Ht) as [x Hx]; by rewrite (fresh_names _ _ _ Hf _ Hn) in Hx.
Qed.

Lemma inv_saved i g (s : state) mine name c it : inv g s -> fresh i g mine -> named i name -> genuine c name it -> c ∈ calls ->
  inv (saved g name c it) s /\ trans mine g (saved g name c it).
Proof using.
  intros HI Hf Hname Hgen Hc; pose proof (inv_drew _ _ HI _ (fresh_log _ _ _ Hf)) as Hi; pose proof (fresh_names _ _ _ Hf _ Hname) as Hnone.
  assert (Hold : forall n x, hist g !! n = Some x -> hist (saved g name c it) !! n = Some x).
  { intros n x Hx; cbn; rewrite lookup_insert_ne; [done|congruence]. }
  destruct HI as [I1 I2 I3 I4 I5 I6 I7 I8 I9 I10 I11]; split; [split; try done|split_and!; [| |done]].
  - intros n r Hr; destruct (I3 n r Hr) as [?|(d & Hd & ?)]; [by left|right; exists d; split; [by apply Hold|done]].
  - intros k r a Hr; destruct (I4 _ _ _ Hr) as (d & Hd & ? & ?); exists d; split_and!; [by apply Hold|done..].
  - intros id r Hr; destruct (I5 _ _ Hr) as (d & Hd & ?); exists d; split; [by apply Hold|done].
  - intros id r Hr; destruct (I6 _ _ Hr) as (d & Hd); exists d; by apply Hold.
  - intros n d it'; cbn; intros [[<- [= <- <-]]|[_ Hn]]%lookup_insert_Some; [|by apply I7]; split_and!; eauto.
  - intros t n Ht Hn; destruct (I10 t n Ht Hn) as [x Hx]; exists x; by apply Hold.
  - intros id d r Hd; cbn; intros [[Heq _]|[_ Hn]]%lookup_insert_Some; [|by eapply I11].
    destruct (I10 _ (deferred_name id) Hd eq_refl) as [x Hx]; congruence.
  - intros n d it' Hn; exists it'; split; [by apply Hold|apply lives_refl].
  - intros n Hn [x Hx]; cbn in Hx; apply lookup_insert_Some in Hx as [[<- _]|[_ Hx]]; [|congruence].
    exists i; split; [by apply Hf|done].
Qed.

(** A save that may fail before or after it saves, of one item. *)
Lemma part_save {A X} Q (o : op X) (k : X -> prog op A) i name c it g mine : fresh i g mine -> named i name -> genuine c name it -> c ∈ calls ->
  (forall g1 (s : state) x s', inv (saved g1 name c it) s -> (forall t, claim_name t = Some name -> t ∉ log g1) ->
    exec X o s = (x, s') -> inv (saved g1 name c it) s') ->
  (forall g1 x, later g mine g1 mine -> hist g1 !! name = Some (c, it) -> part Q (k x) g1 mine) -> part Q (Do o k) g mine.
Proof using supply_inj supply_bytes keys_distinct.
  intros Hf Hname Hgen Hc Hop Hk g1 s x s' Hr HI Hx; pose proof (fresh_rely _ _ _ _ Hr Hf) as Hf1.
  destruct (inv_saved i g1 s mine name c it HI Hf1 Hname Hgen Hc) as [HI1 Ht1].
  assert (HI' : inv (saved g1 name c it) s').
  { eapply Hop; [done| |done]; intros t; by eapply fresh_unclaimed. }
  exists (saved g1 name c it), []; cbn [app]; split_and!; [done|done|done|by destruct HI'|].
  apply Hk; [|by apply lookup_insert_eq]; eapply later_trans; [by apply rely_later|].
  split; [|done|done]; by apply Ht1.
Qed.

Lemma part_nonce_issue {A} Q i n c r (k : res nonce_error unit -> prog op A) g mine : fresh i g mine -> named i (nonce_name n) ->
  genuine c (nonce_name n) (Nonce r) -> c ∈ calls -> (forall g1 x, later g mine g1 mine -> hist g1 !! nonce_name n = Some (c, Nonce r) ->
    part Q (k x) g1 mine) -> part Q (Do (NonceIssue n r) k) g mine.
Proof using supply_inj supply_bytes keys_distinct.
  intros Hf Hn Hg Hc; eapply part_save; try done; intros g1 s x s' HI Hfree Hx; cbn [exec] in Hx.
  pose proof (Nonce_Issue_law (sh_now s) n r (sh_nonces s)) as Hlaw; destruct (Nonce_Issue _ _ _ _) as [y st]; injection Hx as <- <-.
  destruct Hlaw as [Hv _]; eapply inv_stores; try done; try (by intros; left); cbn [with_nonces sh_nonces sh_codes].
  - intros m o Hm; destruct Hv as [Hv|Hv]; pose proof (lookup_weaken _ _ _ _ Hm Hv) as Hm'; [by right; left|].
    apply lookup_insert_Some in Hm' as [[<- <-]|[_ Hm']]; [right; right|by right; left].
    exists c; split; [by apply lookup_insert_eq|by apply Hfree].
  - intros j o a Hj; left; by exists a.
  - by apply (inv_codes_ok _ _ HI).
Qed.

Lemma part_code_issue {A} Q i j c r (k : res code_error unit -> prog op A) g mine : fresh i g mine -> named i (code_name j) ->
  genuine c (code_name j) (Code r) -> c ∈ calls -> (forall g1 x, later g mine g1 mine -> hist g1 !! code_name j = Some (c, Code r) ->
    part Q (k x) g1 mine) -> part Q (Do (CodeIssue j r) k) g mine.
Proof using supply_inj supply_bytes keys_distinct.
  intros Hf Hn Hg Hc; eapply part_save; try done; intros g1 s x s' HI Hfree Hx; cbn [exec] in Hx.
  pose proof (Code_Issue_law (sh_now s) j r (sh_codes s) (inv_codes_ok _ _ HI)) as Hlaw; destruct (Code_Issue _ _ _ _) as [y st]; injection Hx as <- <-.
  destruct Hlaw as [Hok Hv]; eapply inv_stores; try done; try (by intros; left); cbn [with_codes sh_nonces sh_codes].
  - intros n o Hno; by right; left.
  - intros l o a Hl; destruct Hv as [Hv|[a0 Hv]]; pose proof (lookup_weaken _ _ _ _ Hl Hv) as Hl'; [by left; exists a|].
    apply lookup_insert_Some in Hl' as [[<- [= <- <-]]|[_ Hl']]; [right|by left; exists a].
    exists c; split_and!; [by apply lookup_insert_eq|by apply Hfree|intros a' Ha'; by destruct (Hfree (CodeGuessed j a') eq_refl)].
Qed.

Lemma part_deferred_create {A} Q i id c r (k : res deferred_error unit -> prog op A) g mine : fresh i g mine -> named i (deferred_name id) ->
  genuine c (deferred_name id) (Deferred r) -> c ∈ calls -> (forall g1 x, later g mine g1 mine ->
    hist g1 !! deferred_name id = Some (c, Deferred r) -> part Q (k x) g1 mine) -> part Q (Do (DeferredCreate id r) k) g mine.
Proof using supply_inj supply_bytes keys_distinct.
  intros Hf Hn Hg Hc; eapply part_save; try done; intros g1 s x s' HI Hfree Hx; cbn [exec] in Hx.
  pose proof (Deferred_Create_law (sh_now s) id r (sh_deferred s)) as Hlaw; destruct (Deferred_Create _ _ _ _) as [y st]; injection Hx as <- <-.
  eapply inv_stores; try done; try (by intros; left); cbn [with_deferred sh_nonces sh_codes sh_deferred].
  - intros n o Hno; by right; left.
  - intros l o a Hl; left; by exists a.
  - by apply (inv_codes_ok _ _ HI).
  - intros l o Hl; destruct Hlaw as [Hv|(v & Hv & _ & Hv')]; [left; by eapply lookup_weaken|].
    pose proof (lookup_weaken _ _ _ _ Hl Hv') as Hl'; apply lookup_insert_Some in Hl' as [[<- <-]|[_ Hl']]; [right|left; by eapply lookup_weaken].
    exists c; split; [by apply lookup_insert_eq|by apply Hfree].
Qed.

Lemma part_note_issue {A} Q i id c r (k : res notification_error unit -> prog op A) g mine : fresh i g mine -> named i (note_name id) ->
  genuine c (note_name id) (Note r) -> c ∈ calls -> (forall g1 x, later g mine g1 mine -> hist g1 !! note_name id = Some (c, Note r) ->
    part Q (k x) g1 mine) -> part Q (Do (NotificationIssue id r) k) g mine.
Proof using supply_inj supply_bytes keys_distinct.
  intros Hf Hn Hg Hc; eapply part_save; try done; intros g1 s x s' HI Hfree Hx; cbn [exec] in Hx.
  pose proof (Notification_Issue_law (sh_now s) id r (sh_notifications s)) as Hlaw; destruct (Notification_Issue _ _ _ _) as [y st]; injection Hx as <- <-.
  eapply inv_stores; try done; try (by intros; left); cbn [with_notifications sh_nonces sh_codes sh_notifications].
  - intros n o Hno; by right; left.
  - intros l o a Hl; left; by exists a.
  - by apply (inv_codes_ok _ _ HI).
  - intros l o Hl; destruct Hlaw as [Hv|Hv]; pose proof (lookup_weaken _ _ _ _ Hl Hv) as Hl'; [by left|].
    apply lookup_insert_Some in Hl' as [[<- <-]|[_ Hl']]; [right; exists c; by apply lookup_insert_eq|by left].
Qed.

(** ** Using up *)

Definition claimed (g : ghost) (t : claim) : ghost := {| hist := hist g; log := t :: log g |}.

(** A claim of something saved, made once. *)
Lemma inv_claimed g (s : state) t name : inv g s -> claim_name t = Some name -> is_Some (hist g !! name) -> t ∉ log g ->
  (forall id r c, t = DeferredDecided id -> hist g !! deferred_name id = Some (c, Deferred r) -> d_Status r <> DeferredTransactionPending) ->
  match t with
  | Drew _ => False
  | NonceTaken n => nonces (sh_nonces s) !! n = None
  | CodeRedeemed k => codes (sh_codes s) !! k = None
  | CodeGuessed k a' => forall r a, codes (sh_codes s) !! k = Some (r, a) -> a' <= a
  | DeferredDecided id => True
  | DeferredCollected id => transactions (sh_deferred s) !! id = None
  end -> inv (claimed g t) s.
Proof using.
  intros [I1 I2 I3 I4 I5 I6 I7 I8 I9 I10 I11] Hname Hh Hnew Hdec Ht; split; cbn [claimed hist log]; try done.
  - intros n r Hr; destruct (I3 n r Hr) as [?|(c & Hc & Hl)]; [by left|right; exists c; split; [done|]].
    intros [<-|?]%elem_of_cons; [congruence|done].
  - intros k r a Hr; destruct (I4 _ _ _ Hr) as (c & Hc & Hl & Hg); exists c; split_and!; [done| |].
    + intros [<-|?]%elem_of_cons; [congruence|done].
    + intros a' [<-|?]%elem_of_cons; [by eapply Ht|by apply Hg].
  - intros id r Hr; destruct (I5 _ _ Hr) as (c & Hc & Hl); exists c; split; [done|].
    intros [<-|?]%elem_of_cons; [congruence|done].
  - by constructor.
  - intros n [<-|Hin]%elem_of_cons; [done|by apply I9].
  - intros t' n [->|Hin]%elem_of_cons Hn; [congruence|by eapply I10].
  - intros id c r [<-|Hin]%elem_of_cons Hc; [by eapply Hdec|by eapply I11].
Qed.

Lemma later_claimed g mine t : later g mine (claimed g t) (t :: mine).
Proof using.
  split; cbn [claimed hist log]; [|by right|by right]; intros name c it Hh; exists it; split; [done|apply lives_refl].
Qed.

Lemma trans_claimed mine g t : trans mine g (claimed g t).
Proof using.
  split_and!; cbn [claimed hist log]; [intros name c it Hh; exists it; split; [done|apply lives_refl]| |by right].
  intros name Hn [x Hx]; congruence.
Qed.

Lemma part_nonce_consume {A} Q n owner (k : res nonce_error NonceRecord -> prog op A) g mine : isStatelessNonce n = false ->
  (forall g1 e, later g mine g1 mine -> part Q (k (Err e)) g1 mine) ->
  (forall g1 c r m, later g mine g1 m -> hist g1 !! nonce_name n = Some (c, Nonce r) -> n_Owner r = owner -> NonceTaken n ∈ m ->
    part Q (k (Ok r)) g1 m) -> part Q (Do (NonceConsume n owner) k) g mine.
Proof using.
  intros Hn He Hk g1 s x s' Hr HI Hx; unfold exec_rel in Hx; cbn [exec] in Hx; pose proof (Nonce_Consume_law n owner (sh_nonces s)) as Hlaw.
  destruct (Nonce_Consume _ _ _) as [y st]; injection Hx as <- <-; destruct Hlaw as (Hv & Hok & _).
  assert (HI' : inv g1 (with_nonces s st)).
  { eapply inv_stores; try done; try (by intros; left); cbn [with_nonces sh_nonces sh_codes]; [|by intros j o a Hj; left; exists a|by apply (inv_codes_ok _ _ HI)].
    intros m o Hm; right; left; by eapply lookup_weaken. }
  destruct y as [r|e].
  - destruct (Hok r eq_refl) as (Hs & Ho & Hd); destruct (inv_nonces _ _ HI n r Hs) as [?|(c & Hc & Hl)]; [congruence|].
    assert (HI2 : inv (claimed g1 (NonceTaken n)) (with_nonces s st)).
    { eapply inv_claimed; [done|done|by eexists|done|done|]; cbn [with_nonces sh_nonces]; destruct (nonces st !! n) as [o|] eqn:E; [|done].
      pose proof (lookup_weaken _ _ _ _ E Hd) as Hin; by rewrite lookup_delete_eq in Hin. }
    exists (claimed g1 (NonceTaken n)), [NonceTaken n]; split_and!; [apply trans_claimed|done|done|by destruct HI2|].
    apply (Hk _ c); [|done|done|by left]; eapply later_trans; [by apply rely_later|apply later_claimed].
  - exists g1, []; cbn [app]; split_and!; [apply issuer_trans_refl|done|done|by destruct HI|apply He; by apply rely_later].
Qed.

Lemma part_deferred_invalidate {A} Q id (k : res deferred_error unit -> prog op A) g mine :
  (forall g1 e, later g mine g1 mine -> part Q (k (Err e)) g1 mine) ->
  (forall g1 m, later g mine g1 m -> DeferredCollected id ∈ m -> part Q (k (Ok tt)) g1 m) -> part Q (Do (DeferredInvalidate id) k) g mine.
Proof using.
  intros He Hk g1 s x s' Hr HI Hx; unfold exec_rel in Hx; cbn [exec] in Hx; pose proof (Deferred_Invalidate_law id (sh_deferred s)) as Hlaw.
  destruct (Deferred_Invalidate _ _) as [y st]; injection Hx as <- <-; destruct Hlaw as (Hv & Hok).
  assert (HI' : inv g1 (with_deferred s st)).
  { eapply inv_stores; try done; try (by intros; left); cbn [with_deferred sh_nonces sh_codes sh_deferred];
      [by intros; right; left|by intros j o a Hj; left; exists a|by apply (inv_codes_ok _ _ HI)|].
    intros m o Hm; left; by eapply lookup_weaken. }
  destruct y as [[]|e].
  - destruct (Hok eq_refl) as ([r Hs] & Hd); destruct (inv_deferred _ _ HI id r Hs) as (c & Hc & Hl).
    assert (HI2 : inv (claimed g1 (DeferredCollected id)) (with_deferred s st)).
    { eapply inv_claimed; [done|done|by eexists|done|done|]; cbn [with_deferred sh_deferred]; destruct (transactions st !! id) as [o|] eqn:E; [|done].
      pose proof (lookup_weaken _ _ _ _ E Hd) as Hin; by rewrite lookup_delete_eq in Hin. }
    exists (claimed g1 (DeferredCollected id)), [DeferredCollected id]; split_and!; [apply trans_claimed|done|done|by destruct HI2|].
    apply Hk; [|by left]; eapply later_trans; [by apply rely_later|apply later_claimed].
  - exists g1, []; cbn [app]; split_and!; [apply issuer_trans_refl|done|done|by destruct HI|apply He; by apply rely_later].
Qed.

(** What a Consume's accept was given, and left. *)
Definition accepted {X : Type} (accept : PreAuthorizedCodeRecord -> draw (bool * X)) (r : PreAuthorizedCodeRecord) (b : bool) (x : X) : Prop :=
  exists i, fst (accept r supply i) = (b, x).

Lemma part_code_consume {A X} Q j want max (accept : PreAuthorizedCodeRecord -> draw (bool * X))
    (k : res code_error PreAuthorizedCodeRecord * Z * option (bool * X) -> prog op A) g mine :
  (forall g1 e n said, later g mine g1 mine -> e <> ErrWrongTxCode ->
    (e = CodeRefused -> exists c r x, hist g1 !! code_name j = Some (c, Code r) /\ accepted accept r false x /\ said = Some (false, x)) ->
    part Q (k (Err e, n, said)) g1 mine) ->
  (forall g1 m c r n x, later g mine g1 m -> hist g1 !! code_name j = Some (c, Code r) -> want = TxCodeHash r -> accepted accept r true x ->
    CodeRedeemed j ∈ m -> part Q (k (Ok r, n, Some (true, x))) g1 m) ->
  (forall g1 m c r n said, later g mine g1 m -> hist g1 !! code_name j = Some (c, Code r) -> 1 <= n -> (0 < max -> n <= max) -> want <> TxCodeHash r ->
    CodeGuessed j n ∈ m -> part Q (k (Err ErrWrongTxCode, n, said)) g1 m) ->
  part Q (Do (CodeConsume j want max accept) k) g mine.
Proof using.
  intros He Hok Hwrong g1 s x s' Hr HI Hx; unfold exec_rel in Hx; cbn [exec] in Hx.
  pose proof (Code_Consume_law j want max (accept_at s accept) (sh_codes s) (inv_codes_ok _ _ HI)) as Hlaw.
  destruct (Code_Consume _ _ _ _ _) as [[[y n] said] st]; injection Hx as <- <-; destruct Hlaw as (Hcok & Hv & Hl1 & Hl2 & Hl3).
  assert (Hd : (sh_drawn s <= drawn_after (sh_drawn s) said)%nat) by (destruct said as [[b [z i]]|]; cbn; lia).
  assert (HI' : inv g1 (with_codes s st (drawn_after (sh_drawn s) said))).
  { eapply inv_stores; try done; try (by intros; left); cbn [with_codes sh_nonces sh_codes sh_drawn]; [by intros; right; left|].
    intros l o a Hl; left; destruct Hv as [Hv|(r & b & Hb & Hv)]; pose proof (lookup_weaken _ _ _ _ Hl Hv) as Hl'; [by exists a|].
    apply lookup_insert_Some in Hl' as [[<- [= <- <-]]|[_ Hl']]; [exists b; split; [done|lia]|by exists a]. }
  assert (Hat : forall r b z, accept_at s accept r = (b, z) -> accepted accept r b (fst z)).
  { intros r b z; unfold accept_at, accepted; rewrite (inv_supply _ _ HI); destruct (accept r supply (sh_drawn s)) as [[b' x'] i] eqn:E.
    intros [= <- <-]; exists (sh_drawn s); by rewrite E. }
  assert (Hclaim : forall t m, claim_name t = Some (code_name j) -> inv (claimed g1 t) (with_codes s st (drawn_after (sh_drawn s) said)) ->
    (forall g2, later g mine g2 (t :: mine) -> hist g2 = hist g1 -> part Q m g2 (t :: mine)) ->
    exists g2 new, trans (new ++ mine) g1 g2 /\ inv g2 (with_codes s st (drawn_after (sh_drawn s) said)) /\ log g2 = new ++ log g1 /\ NoDup (log g2) /\ part Q m g2 (new ++ mine)).
  { intros t m _ HI2 Hm; exists (claimed g1 t), [t]; split_and!; [apply trans_claimed|done|done|by destruct HI2|].
    apply Hm; [|done]; eapply later_trans; [by apply rely_later|apply later_claimed]. }
  destruct y as [r|e].
  - destruct (Hl1 r eq_refl) as (a & z & Hs & Hw & _ & Ha & -> & Hdel); destruct (inv_codes _ _ HI _ _ _ Hs) as (c & Hc & Hl & Hg).
    apply (Hclaim (CodeRedeemed j)); [done| |].
    + eapply inv_claimed; [done|done|by eexists|done|done|]; cbn [with_codes sh_codes]; destruct (codes st !! j) as [o|] eqn:E; [|done].
      pose proof (lookup_weaken _ _ _ _ E Hdel) as Hin; by rewrite lookup_delete_eq in Hin.
    + intros g2 Hlater Hh; destruct z as [z i]; cbn; apply (Hok g2 _ c); [done|by rewrite Hh|done|by apply (Hat _ _ _ Ha)|by left].
  - destruct (decide (e = ErrWrongTxCode)) as [->|Hne].
    + destruct (Hl3 eq_refl) as (r & a & Hs & _ & Hw & Hleft & -> & Hins & _); destruct (inv_codes _ _ HI _ _ _ Hs) as (c & Hc & Hl & Hg).
      pose proof (codes_attempts _ _ _ _ (inv_codes_ok _ _ HI) Hs) as Ha0; apply (Hclaim (CodeGuessed j (a + 1))); [done| |].
      * eapply inv_claimed; [done|done|by eexists|intros Hin; pose proof (Hg _ Hin); lia|done|]; cbn [with_codes sh_codes]; intros r' a' Hr'.
        pose proof (lookup_weaken _ _ _ _ Hr' Hins) as Hin; rewrite lookup_insert_eq in Hin; injection Hin as <- <-; done.
      * intros g2 Hlater Hh; apply (Hwrong g2 _ c r); [done|by rewrite Hh|lia| |done|by left].
        intros Hmax; unfold attempts_left in Hleft; apply orb_true_iff in Hleft as [?%Z.leb_le|?%Z.ltb_lt]; lia.
    + exists g1, []; cbn [app]; split_and!; [apply issuer_trans_refl|done|done|by destruct HI|]; apply He; [by apply rely_later|done|].
      intros ->; destruct (Hl2 eq_refl) as (r & a & z & Hs & Ha & -> & _); destruct (inv_codes _ _ HI _ _ _ Hs) as (c & Hc & _).
      destruct z as [z i]; exists c, r, z; split_and!; [done|by apply (Hat _ _ _ Ha)|done].
Qed.

(** An Update's step of a transaction's life. *)
Lemma inv_updated g (s : state) st id c r r' : inv g s -> hist g !! deferred_name id = Some (c, Deferred r) -> follows r r' ->
  genuine c (deferred_name id) (Deferred r') -> DeferredCollected id ∉ log g -> transactions st ⊆ <[id := r']> (transactions (sh_deferred s)) ->
  inv (saved g (deferred_name id) c (Deferred r')) (with_deferred s st) /\
  later g [] (saved g (deferred_name id) c (Deferred r')) [] /\ forall mine, trans mine g (saved g (deferred_name id) c (Deferred r')).
Proof using.
  intros HI Hc Hf Hgen Hcol Hv.
  assert (Hold : forall n d it, hist g !! n = Some (d, it) ->
    exists it', <[deferred_name id := (c, Deferred r')]> (hist g) !! n = Some (d, it') /\ lives it it').
  { intros n d it Hd; destruct (decide (n = deferred_name id)) as [->|Hne].
    - rewrite Hc in Hd; injection Hd as <- <-; exists (Deferred r'); by rewrite lookup_insert_eq.
    - exists it; rewrite lookup_insert_ne by done; split; [done|apply lives_refl]. }
  assert (Hother : forall n x, n.1 <> 2%nat -> hist g !! n = Some x -> <[deferred_name id := (c, Deferred r')]> (hist g) !! n = Some x).
  { intros n x Hn Hx; rewrite lookup_insert_ne; [done|]; by intros <-. }
  pose proof (inv_hist _ _ HI _ _ _ Hc) as (_ & Hcall & i & Hi & Hname).
  destruct HI as [I1 I2 I3 I4 I5 I6 I7 I8 I9 I10 I11]; split_and!.
  - split; cbn [saved hist log with_deferred sh_random sh_codes sh_nonces sh_deferred sh_notifications sh_drawn]; try done.
    + intros n o Ho; destruct (I3 n o Ho) as [?|(d & Hd & ?)]; [by left|right; exists d; split; [by apply Hother|done]].
    + intros k o a Ho; destruct (I4 _ _ _ Ho) as (d & Hd & ? & ?); exists d; split_and!; [by apply Hother|done..].
    + intros m o Ho; pose proof (lookup_weaken _ _ _ _ Ho Hv) as Ho'; apply lookup_insert_Some in Ho' as [[<- <-]|[Hne Ho']].
      * exists c; split; [by apply lookup_insert_eq|done].
      * destruct (I5 _ _ Ho') as (d & Hd & ?); exists d; split; [|done]; rewrite lookup_insert_ne; [done|]; by intros [= ->].
    + intros m o Ho; destruct (I6 _ _ Ho) as (d & Hd); exists d; by apply Hother.
    + intros n d it [[<- [= <- <-]]|[_ Hn]]%lookup_insert_Some; [|by apply I7]; split_and!; eauto.
    + intros t n Ht Hn; destruct (I10 t n Ht Hn) as [[d it] Hx]; destruct (Hold _ _ _ Hx) as (it' & Hi' & _); eauto.
    + intros m d o Hd [[[= <-] [= <- <-]]|[_ Hn]]%lookup_insert_Some; [|by eapply I11].
      pose proof (I11 _ _ _ Hd Hc) as Hp; destruct Hf as [<-|[Hp' _]]; [done|congruence].
  - split; cbn [saved hist log]; done.
  - intros mine; split_and!; cbn [saved hist log]; [done| |done]; intros n Hn [x Hx]; apply lookup_insert_Some in Hx as [[<- _]|[_ Hx]]; congruence.
Qed.

(** [decides]: what the Update does of every pending transaction it does not
    refuse is its decision. *)
Lemma part_deferred_update {A E X} Q id (fn : World -> DeferredTransactionRecord -> res E DeferredTransactionRecord * X) (decides : bool)
    (k : res (deferred_error + E) unit * option X -> prog op A) g mine :
  (forall w r r' y, fn w r = (Ok r', y) -> follows r r' /\ (forall c, genuine c (deferred_name id) (Deferred r) -> genuine c (deferred_name id) (Deferred r')) /\
    (decides = true -> d_Status r = DeferredTransactionPending /\ d_Status r' <> DeferredTransactionPending)) ->
  (forall g1 e y, later g mine g1 mine -> part Q (k (Err e, y)) g1 mine) ->
  (forall g1 m y, later g mine g1 m -> (decides = true -> DeferredDecided id ∈ m) -> part Q (k (Ok tt, y)) g1 m) ->
  part Q (Do (DeferredUpdate id fn) k) g mine.
Proof using.
  intros Hfn He Hk g1 s x s' Hr HI Hx; unfold exec_rel in Hx; cbn [exec] in Hx; pose proof (Deferred_Update_law id (fn (sh_world s)) (sh_deferred s)) as Hlaw.
  destruct (Deferred_Update _ _ _) as [[y said] st]; injection Hx as <- <-; destruct Hlaw as [[[e ->] Hv]|(r & r' & z & Hs & Hf & Hv)].
  - assert (HI' : inv g1 (with_deferred s st)).
    { eapply inv_stores; try done; try (by intros; left); cbn [with_deferred sh_nonces sh_codes sh_deferred];
        [by intros; right; left|by intros j o a Hj; left; exists a|by apply (inv_codes_ok _ _ HI)|].
      intros m o Hm; left; by eapply lookup_weaken. }
    exists g1, []; cbn [app]; split_and!; [apply issuer_trans_refl|done|done|by destruct HI|apply He; by apply rely_later].
  - destruct (inv_deferred _ _ HI id r Hs) as (c & Hc & Hl); pose proof (inv_hist _ _ HI _ _ _ Hc) as (Hgen & _).
    destruct (Hfn _ _ _ _ Hf) as (Hfol & Hgen' & Hdec).
    destruct (inv_updated g1 s st id c r r' HI Hc Hfol (Hgen' c Hgen) Hl Hv) as (HI' & Hlat & Htr).
    set (g2 := saved g1 (deferred_name id) c (Deferred r')) in *.
    assert (Hlater : later g mine g2 mine) by (eapply later_trans; [by apply rely_later|]; destruct Hlat; by split).
    assert (Hplain : forall m, part Q m g2 mine -> exists g3 new, trans (new ++ mine) g1 g3 /\ inv g3 (with_deferred s st) /\ log g3 = new ++ log g1 /\
      NoDup (log g3) /\ part Q m g3 (new ++ mine)).
    { intros m Hm; exists g2, []; cbn [app]; split_and!; [apply Htr|done|done|by destruct HI'|done]. }
    destruct y as [[]|e]; [|apply Hplain, He; done]; destruct decides; [|by apply Hplain, Hk]; destruct (Hdec eq_refl) as [Hp Hnp].
    assert (HI2 : inv (claimed g2 (DeferredDecided id)) (with_deferred s st)).
    { eapply inv_claimed; [done|done| | | |done].
      - cbn; rewrite lookup_insert_eq; by eexists.
      - cbn; intros Hin; by apply (inv_decided _ _ HI _ _ _ Hin Hc).
      - intros i o d [= <-]; cbn; rewrite lookup_insert_eq; by intros [= _ <-]. }
    exists (claimed g2 (DeferredDecided id)), [DeferredDecided id]; split_and!; [|done|done|by destruct HI2|].
    + destruct (Htr [DeferredDecided id]) as (T1 & T2 & T3); destruct (Htr mine) as (_ & T2' & _); split_and!; cbn [claimed hist log]; [done| |].
      * intros n Hn Hs'; destruct (T2' n Hn Hs') as (i & Hi & Hni); exists i; split; [by right|done].
      * intros t Ht; right; by apply T3.
    + apply Hk; [eapply later_trans; [exact Hlater|apply later_claimed]|by left].
Qed.

(** Reading what is saved. *)
Lemma part_deferred_get {A} Q id (k : res deferred_error DeferredTransactionRecord -> prog op A) g mine :
  (forall g1 e, later g mine g1 mine -> part Q (k (Err e)) g1 mine) ->
  (forall g1 c r, later g mine g1 mine -> hist g1 !! deferred_name id = Some (c, Deferred r) -> c ∈ calls -> genuine c (deferred_name id) (Deferred r) ->
    part Q (k (Ok r)) g1 mine) -> part Q (Do (DeferredGet id) k) g mine.
Proof using.
  intros He Hk; apply part_keeps; [by intros g1 s x s' HI [= <- <-]|]; intros g1 s Hr HI; cbn [exec fst].
  destruct (Deferred_Get id (sh_deferred s)) as [r|e] eqn:E; [|apply He; by apply rely_later]; apply Deferred_Get_law in E.
  destruct (inv_deferred _ _ HI _ _ E) as (c & Hc & _); destruct (inv_hist _ _ HI _ _ _ Hc) as (? & ? & _); apply (Hk g1 c); [by apply rely_later|done..].
Qed.

Lemma part_note_get {A} Q id (k : res notification_error NotificationRecord -> prog op A) g mine :
  (forall g1 e, later g mine g1 mine -> part Q (k (Err e)) g1 mine) ->
  (forall g1 c r, later g mine g1 mine -> hist g1 !! note_name id = Some (c, Note r) -> c ∈ calls -> genuine c (note_name id) (Note r) ->
    part Q (k (Ok r)) g1 mine) -> part Q (Do (NotificationGet id) k) g mine.
Proof using.
  intros He Hk; apply part_keeps; [by intros g1 s x s' HI [= <- <-]|]; intros g1 s Hr HI; cbn [exec fst].
  destruct (Notification_Get id (sh_notifications s)) as [r|e] eqn:E; [|apply He; by apply rely_later]; apply Notification_Get_law in E.
  destruct (inv_notes _ _ HI _ _ E) as (c & Hc); destruct (inv_hist _ _ HI _ _ _ Hc) as (? & ? & _); apply (Hk g1 c); [by apply rely_later|done..].
Qed.

(** ** Parts that save nothing and use nothing up *)

Definition plain_op {X : Type} (o : op X) : Prop :=
  match o with
  | Ask _ | Random _ | CodeInvalidate _ | DeferredGet _ | NotificationGet _ | OfferStore _ | OfferGet _ | KeptLoad _ _ | KeptStore _ _
  | Record_Audit _ | HandleNotification _ _ => True
  | NonceSpend n _ => isStatelessNonce n = true
  | CodeConsume _ _ _ accept => forall r src i, fst (fst (accept r src i)) = false
  | _ => False
  end.

Fixpoint plain {A} (p : prog op A) : Prop :=
  match p with
  | Return _ => True
  | Do o k => plain_op o /\ forall x, plain (k x)
  end.

Lemma plain_bind {A B} (p : prog op A) (f : A -> prog op B) : plain p -> (forall a, plain (f a)) -> plain (pbind p f).
Proof using. induction p as [a|X o k IH]; cbn; [by intros|]; intros [Ho Hk] Hf; split; [done|]; intros x; by apply IH. Qed.

(** The stores but for the codes are as they were, or less. *)
Lemma inv_quiet g (s : state) c n : inv g s -> codes_ok c -> (sh_drawn s <= n)%nat ->
  (forall k r a, codes c !! k = Some (r, a) -> exists a0, codes (sh_codes s) !! k = Some (r, a0) /\ a0 <= a) -> inv g (with_codes s c n).
Proof using.
  intros HI Hok Hn Hc; eapply inv_stores; try done; cbn [with_codes sh_nonces sh_codes sh_deferred sh_notifications].
  - by intros; right; left.
  - intros k r a Hk; left; by apply Hc.
  - by intros; left.
  - by intros; left.
Qed.

Lemma part_op {A X} Q (o : op X) (k : X -> prog op A) g mine : plain_op o ->
  (forall g1 m x, later g mine g1 m -> part Q (k x) g1 m) -> part Q (Do o k) g mine.
Proof using supply_inj supply_bytes keys_distinct.
  intros Ho Hk; destruct o; try done; try (by apply part_keeps; [intros g1 s x s' HI [= <- <-]|intros; by apply Hk, rely_later]).
  - apply part_random; intros; by apply Hk.
  - apply part_keeps; [|intros; by apply Hk, rely_later]; intros g1 s x s' HI; cbn [exec].
    pose proof (Nonce_Spend_law (sh_now s) n r (sh_nonces s)) as Hlaw; destruct (Nonce_Spend _ _ _ _) as [y st]; intros [= <- <-].
    destruct Hlaw as [Hv _]; eapply inv_stores; try done; try (by intros; left); cbn [with_nonces sh_nonces sh_codes].
    + intros m o Hm; destruct Hv as [Hv|[_ Hv]]; pose proof (lookup_weaken _ _ _ _ Hm Hv) as Hm'; [by right; left|].
      apply lookup_insert_Some in Hm' as [[<- _]|[_ Hm']]; [by left|by right; left].
    + intros l o a Hl; left; by exists a.
    + by apply (inv_codes_ok _ _ HI).
  - apply part_code_consume.
    + intros; by apply Hk.
    + intros g1 m c r n x _ _ _ [i Hi]; pose proof (Ho r supply i) as Hf; rewrite Hi in Hf; done.
    + intros; by apply Hk.
  - apply part_keeps; [|intros; by apply Hk, rely_later]; intros g1 s x s' HI; cbn [exec].
    pose proof (Code_Invalidate_law k0 (sh_codes s) (inv_codes_ok _ _ HI)) as Hlaw; destruct (Code_Invalidate _ _) as [y st]; intros [= <- <-].
    destruct Hlaw as [Hok Hv]; apply inv_quiet; [done..|]; intros l r a Hl; exists a; split; [by eapply lookup_weaken|done].
  - apply part_keeps; [|intros; by apply Hk, rely_later]; intros g1 s x s' HI; cbn [exec].
    destruct (Offer_Store _ _ _) as [y st]; intros [= <- <-]; eapply inv_stores; try done; try (by intros; left); cbn [with_offers sh_nonces sh_codes].
    + by intros; right; left.
    + intros l o a Hl; left; by exists a.
    + by apply (inv_codes_ok _ _ HI).
  - apply part_keeps; [|intros; by apply Hk, rely_later]; intros g1 s x s' HI [= <- <-]; eapply inv_stores; try done; try (by intros; left); cbn [with_kept sh_nonces sh_codes].
    + by intros; right; left.
    + intros l o a Hl; left; by exists a.
    + by apply (inv_codes_ok _ _ HI).
  - apply part_keeps; [|intros; by apply Hk, rely_later]; intros g1 s x s' HI [= <- <-]; eapply inv_stores; try done; try (by intros; left); cbn [with_kept sh_nonces sh_codes].
    + by intros; right; left.
    + intros l o a Hl; left; by exists a.
    + by apply (inv_codes_ok _ _ HI).
Qed.

Lemma part_plain {A} Q (p : prog op A) g mine : plain p -> (forall a g1 m, later g mine g1 m -> Q a g1 m) -> part Q p g mine.
Proof using supply_inj supply_bytes keys_distinct.
  revert g mine; induction p as [a|X o k IH]; intros g mine; cbn [plain]; intros Hp HQ; [cbn; apply HQ, later_refl|].
  destruct Hp as [Ho Hk]; apply part_op; [done|]; intros g1 m x Hl; apply IH; [done|]; intros a g2 m2 Hl2; apply HQ; by eapply later_trans.
Qed.

Lemma part_bind {A B} Q (p : prog op B) (f : B -> prog op A) g mine : part (fun b g1 m => part Q (f b) g1 m) p g mine -> part Q (pbind p f) g mine.
Proof using. apply safe_pbind. Qed.

(** What every end of a program has. *)
Fixpoint ends {A} (P : A -> Prop) (p : prog op A) : Prop :=
  match p with
  | Return a => P a
  | Do o k => forall x, ends P (k x)
  end.

Lemma ends_any {A} (P : A -> Prop) (p : prog op A) : (forall a, P a) -> ends P p.
Proof using. intros HP; induction p as [a|X o k IH]; cbn; [apply HP|done]. Qed.

Lemma issuer_ends_bind {A B} (P : A -> Prop) (p : prog op B) (f : B -> prog op A) : ends (fun b => ends P (f b)) p -> ends P (pbind p f).
Proof using. induction p as [b|X o k IH]; cbn; [done|]; intros Hk x; by apply IH. Qed.

Lemma part_ends {A} Q (P : A -> Prop) (p : prog op A) g mine : plain p -> ends P p ->
  (forall a g1 m, P a -> later g mine g1 m -> Q a g1 m) -> part Q p g mine.
Proof using supply_inj supply_bytes keys_distinct.
  revert g mine; induction p as [a|X o k IH]; intros g mine; cbn [plain ends]; intros Hp He HQ; [cbn; apply HQ, later_refl; done|].
  destruct Hp as [Ho Hk]; apply part_op; [done|]; intros g1 m x Hl; apply IH; [done..|]; intros a g2 m2 Ha Hl2; apply HQ; [done|by eapply later_trans].
Qed.

(** After a plain part. *)
Lemma part_then {A B} Q (p : prog op B) (f : B -> prog op A) g mine : plain p -> (forall b g1 m, later g mine g1 m -> part Q (f b) g1 m) ->
  part Q (pbind p f) g mine.
Proof using supply_inj supply_bytes keys_distinct. intros Hp Hf; apply part_bind, part_plain; done. Qed.

Lemma part_weaken {A} (Q R : A -> ghost -> list claim -> Prop) (p : prog op A) g mine :
  part Q p g mine -> (forall a g1 m, Q a g1 m -> R a g1 m) -> part R p g mine.
Proof using. intros Hp HQ; by eapply safe_mono. Qed.

End Safe.
