(* ===== verification/IssuerProofs.v ===== *)
(** * Proofs of possession: [issuer]'s proofs.go

    What a Credential Request's proofs show: JWT proofs, by a key in the header,
    resolved or attested; key attestations themselves; the nonce they share, or
    their age where there is none.  Resolving a key, and a status list, are the
    world's, given the time they are asked at. *)
From S2P Require Import Prelude B64Url Json DcqlQuery DcqlValues Text JwtDate Jws X509 CertChain Hkdf Cose Mdoc Jwk Prog Reasons SdJwt SdVerify SdIssue Attestation.
From S2P Require Import CredentialOffer IssuerStores IssuerConfig Issuer.
From stdpp Require Import pretty.
From Stdlib Require Import SpecFloat.
#[local] Open Scope Z_scope.

Definition jwtProofTyp : string := "openid4vci-proof+jwt".

(** A JWT proof's body, as its JSON is decoded. *)
Record proof_body : Type := { pb_Iss : string; pb_Aud : string; pb_Iat : option float; pb_Nonce : string }.

Section Proofs.
Context `{JsonText} `{IssuerWorld} `{!OfferText} `{!CoseKeys} `{!CborLib} `{!MdocCbor} `{!Curves} `{!JwkText} `{!AttestationText}.

(** A key proofs are for: its public JWK, the key attestation that attests it,
    and the header it was resolved by. *)
Record resolvedKey : Type := { pk_Public : PublicKey ec; pk_JWKRaw : bytes; pk_KeyAttestation : string; pk_Header : option bytes }.

Record VerifiedKeyAttestation : Type := { vk_Claims : att_Claims; vk_SignerKey : PublicKey ec; vk_SignerCertificates : list Certificate }.

(** Dependencies.AttestationVerifier, ProofBindingKeys and AttestationStatus:
    an error is the sentinels in its chain. *)
Class ProofWorld : Type := {
  ResolveAttestationKey : World -> Issuer -> Z -> KeyAttestation -> res (list sentinel) (PublicKey ec * string);
  ResolveProofBindingKey : World -> Issuer -> Z -> list (string * goval) -> res (list sentinel) (PublicKey ec * string);
  CheckAttestationStatus : World -> Issuer -> VerifiedKeyAttestation -> option (list sentinel);
  unmarshal_proof : bytes -> option proof_body
}.
Context `{!ProofWorld}.

#[local] Open Scope prog_scope.

Definition SameKey (a b : PublicKey ec) : bool := key_Equal a b.

Definition trustUndecided (e : list sentinel) : bool :=
  negb (bool_decide (ErrRevoked ∈ e)) &&
  existsb (fun s => bool_decide (s ∈ e)) [ErrRevocationUndecided; ErrNoCurrentCRL; ErrProofKeyTrustUndecided; Canceled; DeadlineExceeded].

Definition invalid_proof (what : string) (i : Z) (rest : string) (cause : list sentinel) : iss_error :=
  newError ErrorInvalidProof 400 (what ++ " " ++ pretty i ++ rest)%string cause.

(** ** Keys *)

Definition publicJWK (pub : PublicKey ec) : res att_error bytes := marshalJWK pub.

Definition key_of (pub : PublicKey ec) (raw : bytes) : resolvedKey := {| pk_Public := pub; pk_JWKRaw := raw; pk_KeyAttestation := ""; pk_Header := None |}.

Definition bindingKeyFromJWK (raw : bytes) : option resolvedKey :=
  match ParsePublicKey raw with
  | Err _ => None
  | Ok pub => match publicJWK pub with Ok canonical => Some (key_of pub canonical) | Err _ => None end
  end.

Definition namesAttestedKey (h : list (string * goval)) : bool :=
  is_Some_b (member "kid" h) && negb (is_Some_b (member "jwk" h)) && negb (is_Some_b (member "x5c" h)).

Definition proofKeyHeader (h : list (string * goval)) : res iss_error (option bytes) :=
  if negb (is_Some_b (member "kid" h)) && negb (is_Some_b (member "x5c" h)) then Ok None
  else match marshal_object h with None => Err (failed "proof key header") | Some raw => Ok (Some raw) end.

Definition keyAttestationHeader (h : list (string * goval)) (i : Z) : res iss_error string :=
  match member "key_attestation" h with
  | None => Ok EmptyString
  | Some (VString s) => if String.eqb s "" then Err (invalid_proof "proof" i ": key_attestation isn't a JWT" []) else Ok s
  | Some _ => Err (invalid_proof "proof" i ": key_attestation isn't a JWT" [])
  end.

Definition proofHeader (raw : string) (i : Z) : res iss_error (list (string * goval)) :=
  match Jws.DecodeUnverified raw with
  | Err _ => Err (invalid_proof "proof" i " is malformed" [])
  | Ok (h, _) => Ok h
  end.

(** The keys not there yet, in their order. *)
Fixpoint appendUniqueKeys (keys add : list resolvedKey) : list resolvedKey :=
  match add with
  | [] => keys
  | k :: add => appendUniqueKeys (if existsb (fun have => bool_decide (pk_JWKRaw have = pk_JWKRaw k)) keys then keys else keys ++ [k]) add
  end.

Definition attestation_of (compact : string) (k : resolvedKey) : resolvedKey :=
  {| pk_Public := pk_Public k; pk_JWKRaw := pk_JWKRaw k; pk_KeyAttestation := compact; pk_Header := pk_Header k |}.

Fixpoint appendAttestedKeys (keys : list resolvedKey) (j : Z) (attested : list bytes) (compact : string) (i maxKeys : Z) : res iss_error (list resolvedKey) :=
  match attested with
  | [] => Ok keys
  | raw :: attested =>
      if maxKeys <=? blen keys then
        Err (invalid_proof "attestation" i (": attested_keys would yield more resolved keys than this issuer's own batch_size (" ++ pretty maxKeys ++ ") across the request")%string [])
      else match bindingKeyFromJWK raw with
      | None => Err (invalid_proof "attestation" i (": attested_keys[" ++ pretty j ++ "]: parse jwk")%string [])
      | Some key => appendAttestedKeys (keys ++ [attestation_of compact key]) (j + 1) attested compact i maxKeys
      end
  end.

(** key_storage's levels, and user_authentication's: one asserted is accepted,
    where any are. *)
Definition meets (accepted asserted : list string) : bool := (blen accepted =? 0) || existsb (fun level => in_list level accepted) asserted.

Definition meetsKeyAttestationRequirement (verified : att_Claims) (req : option KeyAttestationRequirement) (i : Z) : res iss_error unit :=
  match req with
  | None => Ok tt
  | Some req =>
      if negb (meets (kr_KeyStorage req) (KeyStorage verified)) then Err (invalid_proof "attestation" i ": key_storage meets none of the accepted levels" [])
      else if negb (meets (kr_UserAuthentication req) (UserAuthentication verified))
        then Err (invalid_proof "attestation" i ": user_authentication meets none of the accepted levels" [])
      else Ok tt
  end.

(** A single certificate chain, whose leaf is the signer's: the certificates of
    DERsFromBase64. *)
Definition signerCertificates (a : KeyAttestation) (signer : PublicKey ec) : list Certificate :=
  match KeyAttestation_X5C a with
  | [] => []
  | x5c =>
      match DERsFromBase64 std_base64 (map VString x5c) with
      | Err _ => []
      | Ok ders =>
          match parse_each ders with
          | Some (leaf :: certs) => if SameKey (cert_PublicKey leaf) signer then leaf :: certs else []
          | _ => []
          end
      end
  end.

Section Of.
Context (iss : Issuer).

Definition nonce_endpoint : bool := negb (IsZero (ep_Nonce (i_Endpoints (cfg iss)))).
Definition maxBatchSize : Z := match BatchSize (cfg iss) with Some n => n | None => 1 end.

(** ** Attestations *)

Definition verifyOneAttestation (raw : string) (i now : Z) (algs : list string) : call VerifiedKeyAttestation :=
  match Attestation.Parse raw with
  | Err _ => err (invalid_proof "attestation" i " is malformed" [])
  | Ok parsed =>
      at' <~ Ask Clock;
      r <~ Ask (fun w => ResolveAttestationKey w iss at' parsed);
      match r with
      | Err e =>
          if trustUndecided e then err (caused "its signer's trust can't be decided now" e)
          else err (invalid_proof "attestation" i ": resolve trust key" e)
      | Ok (pub, alg) =>
          if negb (in_list alg algs) then
            err (invalid_proof "attestation" i (": alg " ++ quoted alg ++ " is not in proof_signing_alg_values_supported")%string [])
          else match att_Verify parsed pub alg {| av_Now := now; av_ExpectedNonce := ""; RequireExpiry := false |} with
          | Err _ => err (invalid_proof "attestation" i ": verification failed" [])
          | Ok verified => ok {| vk_Claims := verified; vk_SignerKey := pub; vk_SignerCertificates := signerCertificates parsed pub |}
          end
      end
  end.

Definition checkAttestationStatus (verified : VerifiedKeyAttestation) : prog op (option (list sentinel)) :=
  if negb (is_Some_b (AttestationStatus (deps iss))) then Return None
  else r <~ Ask (fun w => CheckAttestationStatus w iss verified); Return r.

Definition requestAttestationStatus (verified : VerifiedKeyAttestation) (what : string) (i : Z) : call unit :=
  r <- checkAttestationStatus verified;;
  match r with
  | None => ok tt
  | Some e =>
      if bool_decide (ErrKeyAttestationRevoked ∈ e) then err (invalid_proof what i ": key_attestation status" e)
      else err (caused "key attestation status can't be checked now" e)
  end.

(** ** Nonces and ages *)

(** The nonce the request's proofs must have, once the first has given it. *)
Definition checkProofNonce (what : string) (i : Z) (nonce expected : string) : call string :=
  if negb nonce_endpoint then ok expected
  else if String.eqb nonce "" then err (invalid_proof what i ": nonce is required" [])
  else if i =? 0 then try _ <- consumeNonce iss nonce;; ok nonce
  else if negb (String.eqb nonce expected) then
    err (newError ErrorInvalidNonce 400 (what ++ " " ++ pretty i ++ ": nonce does not match the request's consumed nonce")%string [])
  else ok expected.

Definition checkProofAge (iat i : Z) : call unit :=
  if nonce_endpoint then ok tt
  else
    now <~ Ask Clock;
    match FromUnix iat with
    | Err _ => err (invalid_proof "proof" i ": iat is outside the accepted window" [])
    | Ok issued =>
        if (now + MaxProofAge (limits iss) <? issued) || (issued <? now - MaxProofAge (limits iss))
        then err (invalid_proof "proof" i ": iat is outside the accepted window" [])
        else ok tt
    end.

(** ** JWT proofs *)

Definition resolveProofKey (h : list (string * goval)) : call (PublicKey ec * string) :=
  let present := List.filter (fun name => is_Some_b (member name h)) ["jwk"; "kid"; "x5c"]%string in
  if negb (blen present =? 1) then err (failed "exactly one of jwk, kid or x5c is required")
  else match member "jwk" h with
  | Some v =>
      match marshal_any v with
      | None => err (failed "marshal jwk header")
      | Some raw =>
          match ParsePublicKey raw with
          | Err _ => err (failed "parse jwk")
          | Ok pub => ok (pub, string_member "alg" h)
          end
      end
  | None =>
      if negb (is_Some_b (ProofBindingKeys (deps iss))) then err (failed "kid/x5c-based key resolution is not supported; use jwk")
      else
        now <~ Ask Clock;
        r <~ Ask (fun w => ResolveProofBindingKey w iss now h);
        match r with Err e => err (caused "resolve proof binding key" e) | Ok k => ok k end
  end.

Definition resolveProofBindingKey (h : list (string * goval)) : call (PublicKey ec * string * bytes) :=
  try (pub, alg) <- resolveProofKey h;;
  match publicJWK pub with
  | Err _ => err (failed "binding key")
  | Ok raw => ok (pub, alg, raw)
  end.

Definition verifyJWTProofBody (auth : AuthorizedRequest) (raw alg : string) (pub : PublicKey ec) (jwkRaw : bytes) (i : Z) : call (PublicKey ec * bytes * string) :=
  match Jws.Verify alg pub raw with
  | Err _ => err (invalid_proof "proof" i ": signature verification failed" [])
  | Ok (_, payload) =>
      match unmarshal_proof payload with
      | None => err (invalid_proof "proof" i ": unmarshal body" [])
      | Some body =>
          if negb (String.eqb (pb_Aud body) (storeOwner iss)) then err (invalid_proof "proof" i ": aud does not match this issuer" [])
          else match pb_Iat body with
          | None => err (invalid_proof "proof" i ": iat is required" [])
          | Some iat =>
              if SFeqb iat (S754_zero false) then err (invalid_proof "proof" i ": iat is required" [])
              else match FromFloat iat with
              | Err _ => err (invalid_proof "proof" i ": iat" [])
              | Ok issued =>
                  try _ <- checkProofAge (Unix issued) i;;
                  let clientID := AuthorizedRequest_ClientID auth in
                  if negb (String.eqb (pb_Iss body) "") && negb (String.eqb clientID "") && negb (String.eqb (pb_Iss body) clientID)
                  then err (invalid_proof "proof" i ": iss does not match the authenticated client" [])
                  else ok (pub, jwkRaw, pb_Nonce body)
              end
          end
      end
  end.

(** Whether an attested JWK has the proof's kid. *)
Definition has_kid (attestedJWK : bytes) (kid : string) : bool :=
  negb (String.eqb kid "") &&
  match unmarshal_object attestedJWK with Some m => match member "kid" m with Some (VString s) => String.eqb s kid | _ => false end | None => false end.

Fixpoint attested_loop (attested : list bytes) (j : Z) (kid : string) (i : Z) (tried : list resolvedKey) : res iss_error (resolvedKey + list resolvedKey) :=
  match attested with
  | [] => Ok (inr tried)
  | raw :: attested =>
      match bindingKeyFromJWK raw with
      | None => Err (invalid_proof "proof" i (": its key_attestation's attested_keys[" ++ pretty j ++ "]: parse jwk")%string [])
      | Some key => if has_kid raw kid then Ok (inl key) else attested_loop attested (j + 1) kid i (tried ++ [key])
      end
  end.

Definition attestedProofKey (h : list (string * goval)) (compact raw : string) (i : Z) (ptc : ProofTypeConfiguration) : call (PublicKey ec * bytes) :=
  now <~ Ask Clock;
  try signed <- verifyOneAttestation compact i now (ProofSigningAlgValuesSupported ptc);;
  let attested := at_AttestedKeys (vk_Claims signed) in
  if maxBatchSize <? blen attested then
    err (invalid_proof "proof" i (": its key_attestation attests more keys than this issuer's batch_size (" ++ pretty maxBatchSize ++ ")")%string [])
  else match attested_loop attested 0 (string_member "kid" h) i [] with
  | Err e => err e
  | Ok (inl key) => ok (pk_Public key, pk_JWKRaw key)
  | Ok (inr tried) =>
      match List.find (fun key => is_ok (Jws.Verify (string_member "alg" h) (pk_Public key) raw)) tried with
      | Some key => ok (pk_Public key, pk_JWKRaw key)
      | None => err (invalid_proof "proof" i ": its kid names no key its key_attestation attests" [])
      end
  end.

Definition verifyJWTProof (auth : AuthorizedRequest) (raw : string) (i : Z) (ptc : ProofTypeConfiguration) : call (PublicKey ec * bytes * string) :=
  match Jws.DecodeUnverified raw with
  | Err _ => err (invalid_proof "proof" i " is malformed" [])
  | Ok (h, _) =>
      if negb (TypeIs (string_member "typ" h) jwtProofTyp)
        then err (invalid_proof "proof" i (" has typ " ++ quoted (string_member "typ" h) ++ ", want " ++ quoted jwtProofTyp)%string [])
      else
        let algStr := string_member "alg" h in
        if negb (in_list algStr (ProofSigningAlgValuesSupported ptc)) then err (invalid_proof "proof" i (" alg " ++ quoted algStr ++ " is not supported")%string [])
        else match member "key_attestation" h, namesAttestedKey h && is_Some_b (AttestationVerifier (deps iss)) with
        | Some (VString compact), true =>
            try (pub, jwkRaw) <- attestedProofKey h compact raw i ptc;;
            verifyJWTProofBody auth raw algStr pub jwkRaw i
        | _, _ =>
            r <- resolveProofBindingKey h;;
            match r with
            | Err e =>
                if trustUndecided (e_is e) then err (wrapping "its key's trust can't be decided now" e)
                else err (invalid_proof "proof" i ": its key couldn't be resolved or isn't trusted" (e_is e))
            | Ok (pub, alg, jwkRaw) => verifyJWTProofBody auth raw alg pub jwkRaw i
            end
        end
  end.

Definition resolveKeyAttestationHeader (compact : string) (proofKey : PublicKey ec) (nonce : string) (i : Z) (ptc : ProofTypeConfiguration)
    : call (list resolvedKey) :=
  if negb (is_Some_b (AttestationVerifier (deps iss))) then err (invalid_proof "proof" i ": key_attestation isn't supported by this issuer" [])
  else
    now <~ Ask Clock;
    try signed <- verifyOneAttestation compact i now (ProofSigningAlgValuesSupported ptc);;
    let verified := vk_Claims signed in
    if negb (is_Some_b (at_ExpiresAt verified)) then err (invalid_proof "proof" i ": its key_attestation has no exp, which the jwt proof type requires (Appendix D.1)" [])
    else if nonce_endpoint && negb (String.eqb (at_Nonce verified) nonce) then
      err (newError ErrorInvalidNonce 400 ("proof " ++ pretty i ++ ": its key_attestation's nonce isn't the proof's c_nonce")%string [])
    else if negb (KeyAttested verified proofKey) then err (invalid_proof "proof" i " isn't signed by a key its key_attestation attests (Appendix D.1)" [])
    else match meetsKeyAttestationRequirement verified (KeyAttestationsRequired ptc) i with
    | Err e => err e
    | Ok _ =>
        try _ <- requestAttestationStatus signed "proof" i;;
        Return (appendAttestedKeys [] 0 (at_AttestedKeys verified) compact i maxBatchSize)
    end.

Definition with_header (pub : PublicKey ec) (raw : bytes) (header : option bytes) : resolvedKey :=
  {| pk_Public := pub; pk_JWKRaw := raw; pk_KeyAttestation := ""; pk_Header := header |}.

(** The keys a proof adds to those before it. *)
Definition proof_keys (h : list (string * goval)) (pub : PublicKey ec) (jwkRaw : bytes) (keyAttestation nonce : string) (i : Z)
    (ptc : ProofTypeConfiguration) (keys : list resolvedKey) : call (list resolvedKey) :=
  let by_header := match proofKeyHeader h with Err e => err e | Ok header => ok (keys ++ [with_header pub jwkRaw header]) end in
  if negb (String.eqb keyAttestation "") && negb (is_Some_b (AttestationVerifier (deps iss))) && negb (is_Some_b (KeyAttestationsRequired ptc)) then by_header
  else if negb (String.eqb keyAttestation "") then
    try attested <- resolveKeyAttestationHeader keyAttestation pub nonce i ptc;;
    ok (appendUniqueKeys keys attested)
  else if is_Some_b (KeyAttestationsRequired ptc) then
    err (invalid_proof "proof" i ": this credential_configuration_id requires a key_attestation header" [])
  else by_header.

Fixpoint jwt_loop (auth : AuthorizedRequest) (ptc : ProofTypeConfiguration) (i : Z) (values : list string) (expected : string) (keys : list resolvedKey)
    : call (list resolvedKey) :=
  match values with
  | [] => ok keys
  | raw :: values =>
      try (pub, jwkRaw, nonce) <- verifyJWTProof auth raw i ptc;;
      try expected <- checkProofNonce "proof" i nonce expected;;
      match proofHeader raw i with
      | Err e => err e
      | Ok h =>
          match keyAttestationHeader h i with
          | Err e => err e
          | Ok keyAttestation =>
              try keys <- proof_keys h pub jwkRaw keyAttestation expected i ptc keys;;
              if maxBatchSize <? blen keys then
                err (invalid_proof "proof" i (": the key attestations attest more keys than this issuer's batch_size (" ++ pretty maxBatchSize ++ ")")%string [])
              else jwt_loop auth ptc (i + 1) values expected keys
          end
      end
  end.

Definition resolveJWTProofKeys (auth : AuthorizedRequest) (values : list string) (ptc : ProofTypeConfiguration) : call (list resolvedKey) :=
  jwt_loop auth ptc 0 values EmptyString [].

(** ** Attestation proofs: exactly one *)

Definition resolveAttestationProofKeys (values : list string) (ptc : ProofTypeConfiguration) : call (list resolvedKey) :=
  if negb (is_Some_b (AttestationVerifier (deps iss))) then err (newError ErrorInvalidProof 400 "attestation proof type is not supported" [])
  else match values with
  | [raw] =>
      now <~ Ask Clock;
      try signed <- verifyOneAttestation raw 0 now (ProofSigningAlgValuesSupported ptc);;
      let verified := vk_Claims signed in
      try _ <- checkProofNonce "attestation" 0 (at_Nonce verified) EmptyString;;
      try _ <- checkProofAge (Unix (at_IssuedAt verified)) 0;;
      match meetsKeyAttestationRequirement verified (KeyAttestationsRequired ptc) 0 with
      | Err e => err e
      | Ok _ =>
          try _ <- requestAttestationStatus signed "attestation" 0;;
          match appendAttestedKeys [] 0 (at_AttestedKeys verified) raw 0 maxBatchSize with
          | Err e => err e
          | Ok keys => if blen keys =? 0 then err (newError ErrorInvalidProof 400 "no attested keys were found" []) else ok keys
          end
      end
  | _ => err (newError ErrorInvalidProof 400 "the attestation proof type takes exactly one key attestation" [])
  end.

(** ** A request's keys *)

(** The first two for one key, of [keys] after those [before]. *)
Fixpoint checkDistinctKeys (before keys : list resolvedKey) : option iss_error :=
  match keys with
  | [] => None
  | k :: keys =>
      if existsb (fun b => SameKey (pk_Public k) (pk_Public b)) before
      then Some (newError ErrorInvalidProof 400 "proofs are for the same key: each key binds at most one credential" [])
      else checkDistinctKeys (before ++ [k]) keys
  end.

Definition resolveProofKeys (auth : AuthorizedRequest) (proofType : string) (values : list string) (ptc : ProofTypeConfiguration) : call (list resolvedKey) :=
  let keys :=
    if String.eqb proofType ProofTypeJWT then resolveJWTProofKeys auth values ptc
    else if String.eqb proofType ProofTypeAttestation then resolveAttestationProofKeys values ptc
    else err (newError ErrorInvalidProof 400 ("proof type " ++ quoted proofType ++ " is not supported")%string []) in
  try keys <- keys;;
  when_none (checkDistinctKeys [] keys) (ok keys).

End Of.
End Proofs.
