(* ===== verification/IssuerEncryption.v ===== *)
(** * An Issuer's requests and responses on the wire: [issuer]'s encryption.go, credential_request_parse.go and endpoint_request_parse.go

    Which requests must be encrypted, by which key a request is decrypted and a
    response encrypted, and a body's JSON as a request.  JWE, media types and
    JSON are parameters. *)
From S2P Require Import Prelude Json DcqlQuery DcqlValues Text JwtDate Jws X509 CertChain Hkdf Cose Mdoc Jwk Prog SdJwt SdVerify SdIssue.
From S2P Require Import CredentialOffer IssuerStores IssuerConfig Issuer.
#[local] Open Scope Z_scope.

Definition jweContentType : string := "application/jwt".
Definition ECDHES : string := "ECDH-ES".
Definition MaxCredentialRequestBytes : Z := 2 ^ 20.
Definition MaxNotificationRequestBytes : Z := 16 * 2 ^ 10.

Record ResponseEncryptionRequest : Type := { enc_JWK : bytes; enc_Enc : string; enc_Zip : string }.

Record wireCredentialRequest : Type := {
  wc_ConfigurationID : string;
  wc_Identifier : string;
  wc_Proofs : gmap string (list string);
  wc_Encryption : option ResponseEncryptionRequest
}.
Record wireDeferredCredentialRequest : Type := { wd_TransactionID : string; wd_Encryption : option ResponseEncryptionRequest }.

Section Encryption.
Context `{JsonText} `{IssuerWorld} `{!CoseKeys} `{!CborLib} `{!MdocCbor} `{!Curves} `{!JwkText}.

(** mime.ParseMediaType's type; internal/jwe; and strictjson's decoding into
    each type. *)
Class WireLib : Type := {
  ParseMediaType : string -> option string;
  jwe_DecodeHeader : bytes -> option (list (string * goval));
  jwe_DecryptLimits : RequestDecryptionKey -> bytes -> Z -> option bytes;
  jwe_Encrypt : ec -> string -> bytes -> string -> string -> option string;   (* enc, the body, zip, kid *)
  unmarshal_kid_alg : bytes -> option (string * string);
  unmarshal_credential_request : bytes -> option wireCredentialRequest;
  unmarshal_deferred_request : bytes -> option wireDeferredCredentialRequest;
  unmarshal_notification_request : bytes -> option NotificationRequest
}.
Context `{!WireLib}.

Definition isMediaType (header want : string) : bool := match ParseMediaType header with Some t => String.eqb t want | None => false end.

Definition encryption_error (description : string) : iss_error := newError ErrorInvalidEncryptionParameters 400 description [].

Section Of.
Context (iss : Issuer).

Definition findRequestDecryptionKey (keys : list RequestDecryptionKey) (kid : string) : option RequestDecryptionKey :=
  List.find (fun k => String.eqb (rk_KeyID k) kid) keys.

Definition request_required : bool := match RequestEncryption (cfg iss) with Some s => re_Required s | None => false end.

Definition DecryptRequestBody (body : bytes) (contentType : string) : res iss_error (bytes * bool) :=
  if negb (isMediaType contentType jweContentType) then
    if request_required then Err (encryption_error "this issuer requires an encrypted request") else Ok (body, false)
  else match RequestEncryption (cfg iss) with
  | None => Err (encryption_error "this issuer does not support encrypted requests")
  | Some s =>
      match jwe_DecodeHeader body with
      | None => Err (encryption_error "malformed encrypted request")
      | Some header =>
          match findRequestDecryptionKey (re_Keys s) (string_member "kid" header) with
          | None => Err (encryption_error "unknown encryption key id")
          | Some key =>
              let enc := string_member "enc" header in
              if negb (in_list enc (re_Enc s)) then Err (encryption_error ("unsupported enc " ++ quoted enc)%string)
              else if match member "zip" header with Some (VString zip) => negb (in_list zip (re_Zip s)) | _ => false end
                then Err (encryption_error ("unsupported zip " ++ quoted (string_member "zip" header))%string)
              else match jwe_DecryptLimits key body MaxCredentialRequestBytes with
              | None => Err (encryption_error "decryption failed")
              | Some plaintext => Ok (plaintext, true)
              end
          end
      end
  end.

Definition responseEncryptionKey (req : ResponseEncryptionRequest) : res iss_error (ec * string) :=
  match ResponseEncryption (cfg iss) with
  | None => Err (encryption_error "this issuer does not support encrypted responses")
  | Some s =>
      if String.eqb (enc_Enc req) "" then Err (encryption_error "credential_response_encryption.enc is required")
      else if negb (in_list (enc_Enc req) (rs_Enc s)) then Err (encryption_error ("unsupported enc " ++ quoted (enc_Enc req))%string)
      else if negb (String.eqb (enc_Zip req) "") && negb (in_list (enc_Zip req) (rs_Zip s))
        then Err (encryption_error ("unsupported zip " ++ quoted (enc_Zip req))%string)
      else match ParsePublicKey (enc_JWK req) with
      | Err _ => Err (encryption_error "malformed credential_response_encryption.jwk")
      | Ok (ECDSAKey _ k) =>
          match unmarshal_kid_alg (enc_JWK req) with
          | None => Err (encryption_error "malformed credential_response_encryption.jwk")
          | Some (kid, alg) =>
              if String.eqb alg "" then Err (encryption_error "credential_response_encryption.jwk must carry alg (Section 10)")
              else if negb (String.eqb alg ECDHES)
                then Err (encryption_error ("credential_response_encryption.jwk declares alg " ++ quoted alg ++ ", which this issuer cannot encrypt with")%string)
              else Ok (k, kid)
          end
      | Ok _ => Err (encryption_error "credential_response_encryption.jwk must be an EC P-256 key")
      end
  end.

(** The body, and its content type. *)
Definition EncryptResponseBody (body : bytes) (req : option ResponseEncryptionRequest) : res iss_error (bytes * string) :=
  match req with
  | None => Ok (body, "application/json"%string)
  | Some req =>
      let? (k, kid) := responseEncryptionKey req in
      match jwe_Encrypt k (enc_Enc req) body (enc_Zip req) kid with
      | None => Err (failed "encrypt response body")
      | Some compact => Ok (string_bytes compact, jweContentType)
      end
  end.

Definition requireRequestEncryption (wasEncrypted wantsEncryptedResponse : bool) : option iss_error :=
  if wasEncrypted then None
  else if request_required then Some (encryption_error "this issuer requires an encrypted request")
  else if wantsEncryptedResponse then Some (encryption_error "credential_response_encryption requires the request itself to be encrypted")
  else None.

Definition requireResponseEncryption (req : option ResponseEncryptionRequest) : option iss_error :=
  match req with
  | None =>
      if match ResponseEncryption (cfg iss) with Some s => rs_Required s | None => false end
      then Some (encryption_error "this Credential Issuer requires an encrypted Credential Response: credential_response_encryption is required")
      else None
  | Some req => match responseEncryptionKey req with Err e => Some e | Ok _ => None end
  end.

(** ** Requests *)

Definition decodeJSONObject {A : Type} (unmarshal : bytes -> option A) (body : bytes) : option A :=
  match trim_left body with 123 :: _ => unmarshal body | _ => None end.

Definition ParseCredentialRequest (body : bytes) (contentType : string) : res iss_error (wireCredentialRequest * bool) :=
  if MaxCredentialRequestBytes <? blen body then Err (newError ErrorInvalidCredentialRequest 400 "credential request exceeds 1048576 bytes" [])
  else
    let? (plaintext, wasEncrypted) := DecryptRequestBody body contentType in
    match decodeJSONObject unmarshal_credential_request plaintext with
    | None => Err (newError ErrorInvalidCredentialRequest 400 "credential request is not a JSON object" [])
    | Some wire => Ok (wire, wasEncrypted)
    end.

Definition ParseDeferredCredentialRequest (body : bytes) (contentType : string) : res iss_error (wireDeferredCredentialRequest * bool) :=
  if MaxCredentialRequestBytes <? blen body then Err (newError ErrorInvalidCredentialRequest 400 "deferred credential request exceeds 1048576 bytes" [])
  else
    let? (plaintext, wasEncrypted) := DecryptRequestBody body contentType in
    match decodeJSONObject unmarshal_deferred_request plaintext with
    | None => Err (newError ErrorInvalidCredentialRequest 400 "deferred credential request is not a JSON object" [])
    | Some wire => Ok (wire, wasEncrypted)
    end.

Definition ParseNotificationRequest (body : bytes) : res iss_error NotificationRequest :=
  if MaxNotificationRequestBytes <? blen body then Err (newError ErrorInvalidNotificationRequest 400 "notification request exceeds 16384 bytes" [])
  else match decodeJSONObject unmarshal_notification_request body with
  | None => Err (newError ErrorInvalidNotificationRequest 400 "notification request is not a JSON object" [])
  | Some wire => Ok wire
  end.

End Of.
End Encryption.
