(* ===== verification/CredentialEndpoint.v ===== *)
(** * Issuing credentials: [issuer]'s credential_endpoint.go, deferral.go and deferred_credential_endpoint.go

    A Credential Request from its authorization to the credentials: the
    configuration its access token grants, the keys its proofs prove, the claims
    checked against the configuration, each credential signed for its key; or
    deferred, to be issued, denied and collected later.  What an application's
    callbacks do is functions of the world.  An SD-JWT VC's salts, and an mdoc's,
    are crypto/rand's; the counts of decoys, Dependencies.Random's. *)
From S2P Require Import Prelude B64Url Json DcqlQuery DcqlValues Text JwtDate Jws X509 CertChain Hkdf Cose Mdoc MdocVerified MdocIssue Jwk Prog Reasons.
From S2P Require Import SdJwt SdVerify SdIssue CredentialStatus Attestation CredentialOffer IssuerStores IssuerConfig Issuer IssuerProofs IssuerEncryption.
From stdpp Require Import pretty.
#[local] Open Scope Z_scope.

Section Endpoint.
Context `{Codec} `{JsonText} `{IssuerWorld} `{!OfferText} `{!CoseKeys} `{!CborLib} `{!MdocCbor} `{!Curves} `{!JwkText} `{!AttestationText}
  `{!ProofWorld} `{!Rand} `{!SdIssueLib} `{!WireLib}.

(** ** Requests *)

Record CredentialInstance : Type := {
  ci_Index : Z;
  ci_BindingKey : PublicKey ec;
  ci_SDJWTClaims : option SdIssue.Claims;
  ci_MdocClaims : option MdocIssue.Claims
}.

(** PerCredential, and PerBatch: what it makes of each instance. *)
Definition per_credential : Type := World -> CredentialInstance -> option CredentialInstance.
Definition per_batch : Type := World -> list CredentialInstance -> option (nat -> CredentialInstance).

(** A Deferral is its Reference. *)
Record CredentialRequest : Type := {
  cr_ConfigurationID : string;
  cr_Identifier : string;
  cr_ResolvedConfigurationID : string;
  cr_AuthorizedClaims : list ClaimsDescription;
  cr_Proofs : gmap string (list string);
  cr_SDJWTClaims : option SdIssue.Claims;
  cr_MdocClaims : option MdocIssue.Claims;
  cr_PerCredential : option per_credential;
  cr_PerBatch : option per_batch;
  cr_Defer : option string;
  cr_ResponseEncryption : option ResponseEncryptionRequest;
  cr_RequestWasEncrypted : bool
}.

Definition with_resolved (req : CredentialRequest) (configID : string) (claims : list ClaimsDescription) : CredentialRequest := {|
  cr_ConfigurationID := cr_ConfigurationID req; cr_Identifier := cr_Identifier req; cr_ResolvedConfigurationID := configID;
  cr_AuthorizedClaims := claims; cr_Proofs := cr_Proofs req; cr_SDJWTClaims := cr_SDJWTClaims req; cr_MdocClaims := cr_MdocClaims req;
  cr_PerCredential := cr_PerCredential req; cr_PerBatch := cr_PerBatch req; cr_Defer := cr_Defer req;
  cr_ResponseEncryption := cr_ResponseEncryption req; cr_RequestWasEncrypted := cr_RequestWasEncrypted req |}.

Record CredentialResponse : Type := { rs_Credentials : list string; rs_TransactionID : string; rs_Interval : Z; rs_NotificationID : string }.

(** ** What issuing draws *)

(** The [i]-th integer below a bound drawn from Dependencies.Random; the salts
    of crypto/rand; and an mdoc's source of it, with the draws an identifier
    may take. *)
Class IssueWorld : Type := {
  RandomInts : World -> Issuer -> nat -> Z -> option Z;
  crypto_salts : World -> nat -> option string;
  crypto_rand : World -> source;
  identifier_draws : nat;
  status_list_text : Mdoc.StatusListRef -> string;          (* json.Marshal of one *)
  identifier_list_text : Mdoc.IdentifierListRef -> string;
  Sprint : list (string * claim) -> string             (* %v *)
}.
Context `{!IssueWorld}.

#[local] Open Scope prog_scope.

(** DecoyRange.count, of the [i]-th draw. *)
Definition decoy_count (ints : nat -> Z -> option Z) (d : DecoyRange) (i : nat) : option Z :=
  (fun n => dr_Min d + n) <$> ints i (dr_Max d - dr_Min d + 1).

(** ** Checks of an instance *)

Definition checkStatusClaim (status : option (list (string * claim))) : option iss_error :=
  match status with
  | None => None
  | Some status =>
      match toGenericJSON (Object status) with
      | None => Some (failed "status claim")
      | Some v =>
          match marshal_any v with
          | None => Some (failed "status claim")
          | Some raw =>
              match unmarshal_object raw with
              | None => Some (failed "status claim")
              | Some decoded => match ParseStatusClaim decoded with Err _ => Some (failed "status claim") | Ok _ => None end
              end
          end
      end
  end.

Definition name_of (el : option path_element) : string := match el with Some (PathName s) => s | _ => EmptyString end.

Definition mandatory_mdoc (claims : MdocIssue.Claims) (path : list path_element) : bool :=
  (blen path =? 2) &&
  match c_NameSpaces claims !! name_of (head path) with Some els => is_Some_b (els !! name_of (last path)) | None => false end.

Definition mandatory_of (cc : CredentialConfiguration) : list ClaimMetadata :=
  match cc_CredentialMetadata cc with
  | None => []
  | Some m => map (fun c => {| cm_Path := cl_Path c; cm_Display := []; Mandatory := true; cm_SD := ""; SvgID := "" |}) (List.filter IsMandatory (cmd_Claims m))
  end.

Definition checkMandatoryClaims (cc : CredentialConfiguration) (instance : CredentialInstance) : option iss_error :=
  let mandatory := mandatory_of cc in
  if blen mandatory =? 0 then None
  else match ci_SDJWTClaims instance with
  | Some claims =>
      match CheckTypeMetadata claims {| tm_VCT := ""; tm_Name := ""; tm_Description := ""; Extends := ""; ExtendsIntegrity := ""; tm_Display := []; tm_Claims := mandatory |} with
      | Err _ => Some (failed "credential_metadata")
      | Ok _ => None
      end
  | None =>
      match ci_MdocClaims instance with
      | Some claims => if forallb (fun c => mandatory_mdoc claims (cm_Path c)) mandatory then None else Some (failed "credential_metadata: a claim is mandatory")
      | None => Some (failed "a nil pointer")       (* neither: issueBatch has refused it *)
      end
  end.

Definition checkInstanceType (cc : CredentialConfiguration) (instance : CredentialInstance) : option iss_error :=
  match ci_SDJWTClaims instance, ci_MdocClaims instance with
  | Some c, _ =>
      if negb (String.eqb (VCT c) (cc_VCT cc)) then Some (failed "the credential's vct isn't the configuration's")
      else match checkStatusClaim (Status c) with Some e => Some e | None => checkMandatoryClaims cc instance end
  | None, Some c =>
      if negb (String.eqb (c_DocType c) (cc_DocType cc)) then Some (failed "the credential's docType isn't the configuration's")
      else checkMandatoryClaims cc instance
  | None, None => checkMandatoryClaims cc instance
  end.

Definition status_text (m : list (string * claim)) : string :=
  match toGenericJSON (Object m) with
  | Some v => match marshal_any v with Some raw => bytes_string raw | None => Sprint m end
  | None => Sprint m
  end.

Definition statusRef (c : CredentialInstance) : option string :=
  match ci_SDJWTClaims c with
  | Some {| Status := Some ((_ :: _) as m) |} => Some (status_text m)
  | _ =>
      match ci_MdocClaims c with
      | Some claims =>
          match c_Status claims, c_IdentifierList claims with
          | Some r, _ => Some (status_list_text r)
          | None, Some r => Some (identifier_list_text r)
          | None, None => None
          end
      | None => None
      end
  end.

Definition newCredentialInstance (cc : CredentialConfiguration) (req : CredentialRequest) (i : Z) (key : resolvedKey) : option CredentialInstance :=
  if String.eqb (cc_Format cc) SdJwtFormat then
    claims ← cr_SDJWTClaims req; Some {| ci_Index := i; ci_BindingKey := pk_Public key; ci_SDJWTClaims := Some claims; ci_MdocClaims := None |}
  else if String.eqb (cc_Format cc) MdocFormat then
    claims ← cr_MdocClaims req; Some {| ci_Index := i; ci_BindingKey := pk_Public key; ci_SDJWTClaims := None; ci_MdocClaims := Some claims |}
  else None.

(** ** Issuing one *)

(** A decoded JSON value as a claim. *)
Fixpoint claim_of (v : goval) : claim :=
  match v with
  | VObject o => Object (map (fun p => (p.1, claim_of p.2)) o)
  | VArray l => Array (map claim_of l)
  | v => Scalar v
  end.

Section Of.
Context (iss : Issuer).

Definition with_holder (c : SdIssue.Claims) (cnfJWK : list (string * goval)) : SdIssue.Claims := {|
  VCT := VCT c; AkaVCTs := AkaVCTs c; Iss := if String.eqb (Iss c) "" then storeOwner iss else Iss c; Nbf := Nbf c; Exp := Exp c;
  VCTIntegrity := VCTIntegrity c; Status := Status c; CNF := Some [("jwk", claim_of (VObject cnfJWK))]%string; Additional := Additional c |}.

Definition sd_options (s : SDJWTSigner) (decoys : Z) (typeMetadata : option TypeMetadata) : SdIssue.IssueOptions := {|
  HashAlg := ""; o_Decoys := decoys; o_KeyID := sj_KeyID s; IssuerCertificate := sj_IssuerCertificate s;
  IssuerIntermediates := sj_IssuerIntermediates s; o_TypeMetadata := typeMetadata; has_Equal := sj_has_Equal s |}.

(** The top level's decoys are drawn first. *)
Definition sd_supply (salts : nat -> option string) (ints : nat -> Z -> option Z) (s : SDJWTSigner) : supply := {|
  salts := salts; nested_decoys := (fun d i => decoy_count ints d (S i)) <$> sj_NestedDecoys s |}.

Definition issueSDJWT (claims : SdIssue.Claims) (key : resolvedKey) (typeMetadata : option TypeMetadata) : call string :=
  match unmarshal_object (pk_JWKRaw key) with
  | None => err (failed "unmarshal jwk for cnf")
  | Some cnfJWK =>
      match d_SDJWTSigner (deps iss) with
      | None => err (failed "a nil pointer")        (* New has refused it *)
      | Some s =>
          match sj_Signer s with
          | None => err (failed "a nil signer")
          | Some signer =>
              ints <~ Ask (fun w => RandomInts w iss);
              salts <~ Ask crypto_salts;
              match (match sj_Decoys s with None => Some 0 | Some d => decoy_count ints d 0 end) with
              | None => err (failed "draw decoy count")
              | Some decoys =>
                  match SdIssue.Issue (sd_supply salts ints s) signer (sj_Alg s) (with_holder claims cnfJWK) (sd_options s decoys typeMetadata) with
                  | Err _ => err (failed "issue sd-jwt vc")
                  | Ok (sdjwt, _) => ok sdjwt
                  end
              end
          end
      end
  end.

Fixpoint add_decoys (ints : nat -> Z -> option Z) (d : DecoyRange) (i : nat) (namespaces : list string) (decoys : gmap string Z) : option (gmap string Z) :=
  match namespaces with
  | [] => Some decoys
  | ns :: namespaces =>
      match decoy_count ints d i with
      | None => None
      | Some n => add_decoys ints d (S i) namespaces (<[ns := default 0 (decoys !! ns) + n]> decoys)
      end
  end.

Definition with_device (c : MdocIssue.Claims) (key : PublicKey ec) (decoys : gmap string Z) : MdocIssue.Claims := {|
  c_DocType := c_DocType c; c_NameSpaces := c_NameSpaces c; c_DeviceKey := key; c_KeyAuthorizations := c_KeyAuthorizations c; c_Signed := c_Signed c;
  c_ValidFrom := c_ValidFrom c; c_ValidUntil := c_ValidUntil c; c_ExpectedUpdate := c_ExpectedUpdate c; c_Status := c_Status c;
  c_IdentifierList := c_IdentifierList c; Decoys := decoys |}.

Definition addMdocDecoys (ints : nat -> Z -> option Z) (s : MdocSigner) (c : MdocIssue.Claims) : option (gmap string Z) :=
  match md_Decoys s with
  | None => Some (Decoys c)
  | Some d => add_decoys ints d 0 (map_to_list (c_NameSpaces c)).*1 (Decoys c)
  end.

Definition issueMdoc (claims : MdocIssue.Claims) (key : resolvedKey) : call string :=
  match d_MdocSigner (deps iss) with
  | None => err (failed "a nil pointer")
  | Some s =>
      match md_Signer s with
      | None => err (failed "a nil signer")
      | Some signer =>
          ints <~ Ask (fun w => RandomInts w iss);
          src <~ Ask crypto_rand;
          match addMdocDecoys ints s claims with
          | None => err (failed "draw decoy count")
          | Some decoys =>
              match fst (MdocIssue.Issue identifier_draws signer (md_Alg s) (with_device claims (pk_Public key) decoys)
                  {| DigestAlg := ""; o_X5Chain := md_X5Chain s; KeyID := md_KeyID s |} src) with
              | Err _ => err (failed "issue mdoc")
              | Ok signed => match IssuerSigned_Marshal signed with Err _ => err (failed "marshal IssuerSigned") | Ok wire => ok (b64_string wire) end
              end
          end
      end
  end.

Definition issueInstance (cc : CredentialConfiguration) (instance : CredentialInstance) (key : resolvedKey) : call string :=
  match ci_SDJWTClaims instance, ci_MdocClaims instance with
  | Some claims, _ => issueSDJWT claims key (cc_TypeMetadata cc)
  | None, Some claims => issueMdoc claims key
  | None, None => err (failed "a nil pointer")
  end.

(** ** Issuing a batch *)

Definition instance_of (cc : CredentialConfiguration) (req : CredentialRequest) (i : Z) (key : resolvedKey) : call CredentialInstance :=
  match newCredentialInstance cc req i key with
  | None => err (newError ErrorCredentialRequestDenied 400 "credential issuance failed" [])
  | Some instance =>
      match cr_PerCredential req with
      | None => ok instance
      | Some f =>
          r <~ Ask (fun w => f w instance);
          match r with None => err (failed "per-credential claims") | Some instance => ok instance end
      end
  end.

Fixpoint instances_loop (cc : CredentialConfiguration) (req : CredentialRequest) (i : Z) (keys : list resolvedKey) : call (list CredentialInstance) :=
  match keys with
  | [] => ok []
  | key :: keys =>
      try instance <- instance_of cc req i key;;
      try rest <- instances_loop cc req (i + 1) keys;;
      ok (instance :: rest)
  end.

Definition batch_instances (req : CredentialRequest) (instances : list CredentialInstance) : call (list CredentialInstance) :=
  match cr_PerBatch req with
  | None => ok instances
  | Some f =>
      r <~ Ask (fun w => f w instances);
      match r with None => err (failed "per-batch claims") | Some g => ok (map g (seq 0 (length instances))) end
  end.

Definition right_format (cc : CredentialConfiguration) (instance : CredentialInstance) : bool :=
  Bool.eqb (String.eqb (cc_Format cc) SdJwtFormat) (is_Some_b (ci_SDJWTClaims instance)) &&
  Bool.eqb (String.eqb (cc_Format cc) MdocFormat) (is_Some_b (ci_MdocClaims instance)).

Fixpoint sign_loop (cc : CredentialConfiguration) (statusRefs : gset string) (l : list (CredentialInstance * resolvedKey)) : call (list string) :=
  match l with
  | [] => ok []
  | (instance, key) :: l =>
      if negb (right_format cc instance) then err (failed "a credential's claims were removed or replaced by another format's")
      else if match statusRef instance with Some ref => bool_decide (ref ∈ statusRefs) | None => false end
        then err (failed "credentials of the batch carry the same status reference")
      else when_none (checkInstanceType cc instance) (
        try credential <- issueInstance cc instance key;;
        try rest <- sign_loop cc (match statusRef instance with Some ref => {[ref]} ∪ statusRefs | None => statusRefs end) l;;
        ok (credential :: rest))
  end.

Definition issueBatch (cc : CredentialConfiguration) (req : CredentialRequest) (keys : list resolvedKey) : call (list string) :=
  try instances <- instances_loop cc req 0 keys;;
  try instances <- batch_instances req instances;;
  sign_loop cc ∅ (zip instances keys).

(** ** Authorization *)

Definition credentialDetail (d : AuthorizationDetail) : bool :=
  if negb (String.eqb (ad_Type d) AuthorizationDetailsTypeOpenIDCredential) then false
  else if blen (Locations d) =? 0 then blen (AuthorizationServers (cfg iss)) =? 0
  else in_list (storeOwner iss) (Locations d).

Definition granted_by_scope (auth : AuthorizedRequest) (cc : CredentialConfiguration) : bool :=
  negb (String.eqb (cc_Scope cc) "") && in_list (cc_Scope cc) (au_Scopes auth).

Definition grantsConfiguration (auth : AuthorizedRequest) (id scope : string) : bool :=
  existsb (fun d => credentialDetail d && String.eqb (ad_ConfigurationID d) id) (au_Details auth) ||
  negb (String.eqb scope "") && in_list scope (au_Scopes auth).

Definition authorizeCredentialConfigurationID (auth : AuthorizedRequest) (id : string) (cc : CredentialConfiguration) : option iss_error :=
  match List.find (fun d => credentialDetail d && String.eqb (ad_ConfigurationID d) id) (au_Details auth) with
  | Some d =>
      if 0 <? blen (CredentialIdentifiers d)
      then Some (newError ErrorInvalidCredentialRequest 400
        "the access token grants this credential_configuration_id through credential_identifiers: use credential_identifier" [])
      else None
  | None =>
      if granted_by_scope auth cc then None
      else Some (newError ErrorInsufficientScope 403
        "access token does not authorize this credential_configuration_id (by its scope or an authorization_details entry)" [])
  end.

Definition resolveCredentialIdentifier (details : list AuthorizationDetail) (identifier : string) : res iss_error string :=
  match List.find (fun d => credentialDetail d && in_list identifier (CredentialIdentifiers d)) details with
  | Some d => Ok (ad_ConfigurationID d)
  | None => Err (newError ErrorUnknownCredentialIdentifier 400 "credential_identifier is not authorized for this access token" [])
  end.

Definition resolveCredentialConfiguration (auth : AuthorizedRequest) (req : CredentialRequest) : res iss_error (string * CredentialConfiguration) :=
  if negb (String.eqb (cr_Identifier req) "") && negb (String.eqb (cr_ConfigurationID req) "") then
    Err (newError ErrorInvalidCredentialRequest 400 "credential_identifier and credential_configuration_id must not both be present" [])
  else if negb (String.eqb (cr_Identifier req) "") then
    let? configID := resolveCredentialIdentifier (au_Details auth) (cr_Identifier req) in
    match CredentialConfigurationsSupported (cfg iss) !! configID with
    | None => Err (newError ErrorUnknownCredentialConfig 400 "the credential_configuration_id authorized for this credential_identifier is not supported" [])
    | Some cc => Ok (configID, cc)
    end
  else if negb (String.eqb (cr_ConfigurationID req) "") then
    match CredentialConfigurationsSupported (cfg iss) !! cr_ConfigurationID req with
    | None => Err (newError ErrorUnknownCredentialConfig 400 "unknown credential_configuration_id" [])
    | Some cc =>
        match authorizeCredentialConfigurationID auth (cr_ConfigurationID req) cc with
        | Some e => Err e
        | None => Ok (cr_ConfigurationID req, cc)
        end
    end
  else Err (newError ErrorInvalidCredentialRequest 400 "exactly one of credential_configuration_id or credential_identifier is required" []).

Definition ResolveCredentialConfiguration (auth : AuthorizedRequest) (req : CredentialRequest) : res iss_error string :=
  let? (id, _) := resolveCredentialConfiguration auth req in Ok id.

(** An entry without claims asks for all of them. *)
Fixpoint claims_of_details (details : list AuthorizationDetail) (req : CredentialRequest) (configID : string) (claims : list ClaimsDescription)
    : list ClaimsDescription :=
  match details with
  | [] => claims
  | d :: details =>
      if negb (credentialDetail d) || negb (String.eqb (ad_ConfigurationID d) configID) then claims_of_details details req configID claims
      else if negb (String.eqb (cr_Identifier req) "") && negb (in_list (cr_Identifier req) (CredentialIdentifiers d)) then claims_of_details details req configID claims
      else if blen (ad_Claims d) =? 0 then []
      else claims_of_details details req configID (claims ++ ad_Claims d)
  end.

Definition authorizedClaims (auth : AuthorizedRequest) (req : CredentialRequest) (configID : string) : list ClaimsDescription :=
  claims_of_details (au_Details auth) req configID [].

Definition ResolveAuthorizedClaims (auth : AuthorizedRequest) (req : CredentialRequest) : res iss_error (list ClaimsDescription) :=
  let? (id, _) := resolveCredentialConfiguration auth req in Ok (authorizedClaims auth req id).

(** ** A Credential Request *)

Definition singleProofType (proofs : gmap string (list string)) (cc : CredentialConfiguration) : res iss_error (string * list string) :=
  if (base.size (ProofTypesSupported cc) =? 0)%nat
    then Err (newError ErrorInvalidCredentialRequest 400 "this credential_configuration_id requires no cryptographic binding, which is not supported" [])
  else match map_to_list proofs with
  | [] => Err (newError ErrorInvalidProof 400 "proofs is required" [])
  | [(proofType, values)] =>
      if blen values =? 0 then Err (newError ErrorInvalidCredentialRequest 400 "proofs value must be a non-empty array" []) else Ok (proofType, values)
  | _ => Err (newError ErrorInvalidCredentialRequest 400 "proofs must contain exactly one proof type" [])
  end.

Definition checkBatchSize (values : list string) : option iss_error :=
  if maxBatchSize iss <? blen values
  then Some (newError ErrorInvalidProof 400 ("proofs array has " ++ pretty (blen values) ++ " entries, which exceeds this issuer's own batch_size (" ++
    pretty (maxBatchSize iss) ++ ")")%string [])
  else None.

Definition requireDeferral (auth : AuthorizedRequest) : option iss_error :=
  if IsZero (ep_DeferredCredential (i_Endpoints (cfg iss))) || negb (is_Some_b (DeferredTransactions (deps iss)))
    then Some (failed "deferral needs Endpoints.DeferredCredential and Dependencies.DeferredTransactions")
  else if String.eqb (au_Subject auth) "" then Some (failed "deferral needs AuthorizedRequest.Subject to bind the transaction to")
  else None.

Definition require_if_deferred (auth : AuthorizedRequest) (req : CredentialRequest) : option iss_error :=
  if is_Some_b (cr_Defer req) then requireDeferral auth else None.

Fixpoint unique_attestations (keys : list resolvedKey) (out : list string) : list string :=
  match keys with
  | [] => out
  | k :: keys =>
      unique_attestations keys (if negb (String.eqb (pk_KeyAttestation k) "") && negb (in_list (pk_KeyAttestation k) out) then out ++ [pk_KeyAttestation k] else out)
  end.

(** None at all, where no key has one. *)
Definition proof_headers (keys : list resolvedKey) : list (option bytes) :=
  if existsb (fun k => is_Some_b (pk_Header k)) keys then map pk_Header keys else [].

Definition transaction_of (auth : AuthorizedRequest) (configID : string) (keys : list resolvedKey) (reference : string) (expires : Z)
    : DeferredTransactionRecord := {|
  d_Owner := storeOwner iss; d_ClientID := AuthorizedRequest_ClientID auth; d_Subject := au_Subject auth; d_Status := DeferredTransactionPending;
  d_Credentials := []; d_NotificationID := ""; d_ConfigurationID := configID; BindingKeys := map pk_JWKRaw keys; d_ExpiresAt := expires;
  KeyAttestations := unique_attestations keys []; ProofKeyHeaders := proof_headers keys; Reference := reference |}.

Definition pollIntervalSeconds (d : Z) : Z := Z.quot (d + Second - 1) Second.

Definition startDeferral (auth : AuthorizedRequest) (configID : string) (keys : list resolvedKey) (reference : string) : call CredentialResponse :=
  raw <~ Random 32;
  match raw_id raw with
  | None => err (failed "transaction_id")
  | Some transactionID =>
      now <~ Ask Clock;
      r <~ DeferredCreate transactionID (transaction_of auth configID keys reference (now + DeferredTransactionLifetime (limits iss)));
      match r with
      | Err e => err (caused "save deferred transaction" [OfDeferred e])
      | Ok _ =>
          r <- checkOwnerKept iss DeferredOwner (
            r <~ DeferredGet transactionID; match r with Err e => err (caused "" [OfDeferred e]) | Ok saved => ok (d_Owner saved) end);;
          match r with
          | Err e => err (wrapping "save deferred transaction" e)
          | Ok _ => ok {| rs_Credentials := []; rs_TransactionID := transactionID;
              rs_Interval := pollIntervalSeconds (DeferredIssuancePollInterval (limits iss)); rs_NotificationID := "" |}
          end
      end
  end.

Definition notification_for (auth : AuthorizedRequest) : call string :=
  if IsZero (ep_Notification (i_Endpoints (cfg iss))) then ok EmptyString
  else r <- IssueNotificationID iss auth;; match r with Err e => err (wrapping "request credential" e) | Ok id => ok id end.

(** A preparer sets the request's claims, callbacks and deferral. *)
Definition preparer : Type := World -> CredentialRequest -> res iss_error CredentialRequest.

Definition prepared (auth : AuthorizedRequest) (req : CredentialRequest) (configID : string) (prepare : option preparer) : call CredentialRequest :=
  match prepare with
  | None => ok req
  | Some f =>
      r <~ Ask (fun w => f w (with_resolved req configID (authorizedClaims auth req configID)));
      match r with
      | Err e => err e
      | Ok req => when_none (require_if_deferred auth req) (ok req)
      end
  end.

(** The proofs' keys, and the configuration, of a request that may be answered. *)
Definition proved (auth : AuthorizedRequest) (req : CredentialRequest) : call (string * CredentialConfiguration * list resolvedKey) :=
  when_none (requireClientIdentityDecision auth) (
  when_none (requireRequestEncryption iss (cr_RequestWasEncrypted req) (is_Some_b (cr_ResponseEncryption req))) (
  when_none (requireResponseEncryption iss (cr_ResponseEncryption req)) (
  match resolveCredentialConfiguration auth req with
  | Err e => err e
  | Ok (configID, cc) =>
      when_none (require_if_deferred auth req) (
      match singleProofType (cr_Proofs req) cc with
      | Err e => err e
      | Ok (proofType, values) =>
          when_none (checkBatchSize values) (
          match ProofTypesSupported cc !! proofType with
          | None => err (newError ErrorInvalidCredentialRequest 400
              ("proof type " ++ quoted proofType ++ " is not supported for this credential_configuration_id")%string [])
          | Some ptc =>
              try keys <- resolveProofKeys iss auth proofType values ptc;;
              ok (configID, cc, keys)
          end)
      end)
  end))).

Definition requestCredential (auth : AuthorizedRequest) (req : CredentialRequest) (prepare : option preparer) : call CredentialResponse :=
  try (configID, cc, keys) <- proved auth req;;
  try req <- prepared auth req configID prepare;;
  match cr_Defer req with
  | Some reference => startDeferral auth configID keys reference
  | None =>
      try credentials <- issueBatch cc req keys;;
      try notificationID <- notification_for auth;;
      ok {| rs_Credentials := credentials; rs_TransactionID := ""; rs_Interval := 0; rs_NotificationID := notificationID |}
  end.

Definition requestCredentialAudited (auth : AuthorizedRequest) (req : CredentialRequest) (prepare : option preparer) : call CredentialResponse :=
  r <- requestCredential auth req prepare;;
  audit iss AuditEventRequestCredential (AuthorizedRequest_ClientID auth) r.

Definition RequestCredential (auth : AuthorizedRequest) (req : CredentialRequest) : call CredentialResponse := requestCredentialAudited auth req None.

(** ** Deferral: what the application does *)

Record DeferredIssuance : Type := {
  di_SDJWTClaims : option SdIssue.Claims;
  di_MdocClaims : option MdocIssue.Claims;
  di_PerCredential : option per_credential;
  di_PerBatch : option per_batch
}.

Definition deferredExpired (now : Z) (record : DeferredTransactionRecord) : bool :=
  negb (d_ExpiresAt record =? time_zero) && negb (now <? d_ExpiresAt record).

Definition is_pending (s : DeferredTransactionStatus) : bool := match s with DeferredTransactionPending => true | _ => false end.

Definition checkPending (now : Z) (record : DeferredTransactionRecord) : option iss_error :=
  if negb (owns iss (d_Owner record)) then Some (caused "deferred transaction" [OfDeferred ErrDeferredTransactionUnknown])
  else if negb (is_pending (d_Status record)) || deferredExpired now record then Some (caused "" [ErrDeferredTransactionResolved])
  else None.

Definition requireDeferredStore : option iss_error :=
  if is_Some_b (DeferredTransactions (deps iss)) then None else Some (failed "deferred issuance is not configured").

Definition pendingDeferredTransaction (transactionID : string) : call DeferredTransactionRecord :=
  when_none requireDeferredStore (
    r <~ DeferredGet transactionID;
    match r with
    | Err e => err (caused "deferred transaction" [OfDeferred e])
    | Ok record => now <~ Ask Clock; when_none (checkPending now record) (ok record)
    end).

Definition with_status (r : DeferredTransactionRecord) (status : DeferredTransactionStatus) (credentials : list string) (notificationID : string) (expires : Z)
    : DeferredTransactionRecord := {|
  d_Owner := d_Owner r; d_ClientID := d_ClientID r; d_Subject := d_Subject r; d_Status := status; d_Credentials := credentials;
  d_NotificationID := notificationID; d_ConfigurationID := d_ConfigurationID r; BindingKeys := BindingKeys r; d_ExpiresAt := expires;
  KeyAttestations := KeyAttestations r; ProofKeyHeaders := ProofKeyHeaders r; Reference := Reference r |}.

Definition denied (r : DeferredTransactionRecord) : DeferredTransactionRecord :=
  with_status r DeferredTransactionDenied (d_Credentials r) (d_NotificationID r) (d_ExpiresAt r).

Definition issued (credentials : list string) (notificationID : string) (now : Z) (r : DeferredTransactionRecord) : DeferredTransactionRecord :=
  with_status r DeferredTransactionIssued credentials notificationID
    (if d_ExpiresAt r =? time_zero then d_ExpiresAt r else now + DeferredTransactionLifetime (limits iss)).

Definition updated {X : Type} (r : res (deferred_error + iss_error) unit * option X) : res iss_error unit :=
  match r.1 with
  | Ok _ => Ok tt
  | Err (inl e) => Err (caused "" [OfDeferred e])
  | Err (inr e) => Err e
  end.

(** With the client it found. *)
Definition denyPending (transactionID : string) : prog op (string * res iss_error unit) :=
  r <~ DeferredUpdate transactionID (fun w cur =>
    (match checkPending (Clock w) cur with Some e => Err e | None => Ok (denied cur) end, d_ClientID cur));
  Return (default EmptyString (snd r), updated r).

Definition DenyDeferredCredential (transactionID : string) : call unit :=
  match requireDeferredStore with
  | Some e => audit iss AuditEventDenyDeferredCredential EmptyString (Err e)
  | None => r <- denyPending transactionID;; audit iss AuditEventDenyDeferredCredential (fst r) (snd r)
  end.

Definition abandonDeferral (transactionID : string) : prog op unit :=
  _ <~ DeferredUpdate (E := iss_error) transactionID (fun _ cur =>
    (Ok (if is_pending (d_Status cur) && owns iss (d_Owner cur) then denied cur else cur), tt));
  Return tt.

(** ** Trust, again *)

Definition sameKey (a b : PublicKey ec) : bool :=
  match publicJWK a, publicJWK b with Ok ja, Ok jb => bool_decide (ja = jb) | _, _ => false end.

Definition first_error (a b : option iss_error) : option iss_error := match a with Some _ => a | None => b end.

Fixpoint recheck_attestations (now : Z) (algs : list string) (i : Z) (compacts : list string) (unknown : option iss_error) : prog op (option iss_error) :=
  match compacts with
  | [] => Return unknown
  | compact :: compacts =>
      r <- verifyOneAttestation iss compact i now algs;;
      match r with
      | Err e =>
          if negb (trustUndecided (e_is e)) then Return (Some e)
          else recheck_attestations now algs (i + 1) compacts
            (first_error unknown (Some {| e_public := e_public e; e_text := ""; e_is := ErrDeferredAttestationStatusUnknown :: e_is e |}))
      | Ok verified =>
          s <- checkAttestationStatus iss verified;;
          match s with
          | None => recheck_attestations now algs (i + 1) compacts unknown
          | Some e =>
              if bool_decide (ErrKeyAttestationRevoked ∈ e) then Return (Some (caused "status" e))
              else recheck_attestations now algs (i + 1) compacts (first_error unknown (Some (caused "" (ErrDeferredAttestationStatusUnknown :: e))))
          end
      end
  end.

Definition recheckKeyAttestations (cc : CredentialConfiguration) (record : DeferredTransactionRecord) : prog op (option iss_error) :=
  if blen (KeyAttestations record) =? 0 then Return None
  else if negb (is_Some_b (AttestationVerifier (deps iss))) then Return (Some (failed "this issuer has no Dependencies.AttestationVerifier to verify them with"))
  else
    now <~ Ask Clock;
    recheck_attestations now (concat (map (fun p => ProofSigningAlgValuesSupported p.2) (map_to_list (ProofTypesSupported cc)))) 0 (KeyAttestations record) None.

(** No header of its own: a key conveyed by jwk, or attested. *)
Definition no_header (raw : option bytes) : bool := match raw with None => true | Some raw => bool_decide (raw = []) || bool_decide (raw = string_bytes "null") end.

Fixpoint recheck_headers (now : Z) (l : list (option bytes * resolvedKey)) (undecided : option iss_error) : prog op (option iss_error) :=
  match l with
  | [] => Return undecided
  | (raw, key) :: l =>
      if no_header raw then recheck_headers now l undecided
      else match unmarshal_any (default [] raw) with
      | Some (VObject h) =>
          r <~ Ask (fun w => ResolveProofBindingKey w iss now h);
          match r with
          | Err e =>
              if trustUndecided e then recheck_headers now l (first_error undecided (Some (caused "" (ErrDeferredProofKeyTrustUnknown :: e))))
              else Return (Some (caused "" (ErrDeferredProofKey :: e)))
          | Ok (pub, _) =>
              if negb (sameKey pub (pk_Public key)) then Return (Some (caused "its proof's header now resolves to another key" [ErrDeferredProofKey]))
              else recheck_headers now l undecided
          end
      | _ => Return (Some (caused "proof key header isn't a JSON object" [ErrDeferredProofKey]))
      end
  end.

Definition recheckProofKeys (record : DeferredTransactionRecord) (keys : list resolvedKey) : prog op (option iss_error) :=
  if blen (ProofKeyHeaders record) =? 0 then Return None
  else if negb (blen (ProofKeyHeaders record) =? blen keys) then Return (Some (caused "" [ErrDeferredProofKey]))
  else if negb (is_Some_b (ProofBindingKeys (deps iss))) then Return (Some (caused "this issuer has no Dependencies.ProofBindingKeys" [ErrDeferredProofKey]))
  else now <~ Ask Clock; recheck_headers now (zip (ProofKeyHeaders record) keys) None.

(** errors.Join. *)
Definition joined (a b : option iss_error) : option iss_error :=
  match a, b with
  | Some a, Some b => Some {| e_public := match e_public a with Some p => Some p | None => e_public b end; e_text := ""; e_is := e_is a ++ e_is b |}
  | Some a, None => Some a
  | None, b => b
  end.

Definition recheckDeferredTrust (cc : CredentialConfiguration) (record : DeferredTransactionRecord) (keys : list resolvedKey) : prog op (option iss_error) :=
  attestations <- recheckKeyAttestations cc record;;
  match attestations with
  | Some e =>
      if negb (errors_Is e ErrDeferredAttestationStatusUnknown)
      then Return (Some {| e_public := e_public e; e_text := ""; e_is := ErrDeferredKeyAttestation :: e_is e |})
      else
        proofKeys <- recheckProofKeys record keys;;
        match proofKeys with
        | Some p => if negb (errors_Is p ErrDeferredProofKeyTrustUnknown) then Return (Some p) else Return (joined (Some e) (Some p))
        | None => Return (Some e)
        end
  | None => recheckProofKeys record keys
  end.

(** ** Issuing a deferred credential *)

Fixpoint parse_keys (raws : list bytes) : option (list resolvedKey) :=
  match raws with
  | [] => Some []
  | raw :: raws =>
      match ParsePublicKey raw, parse_keys raws with Ok pub, Some keys => Some (key_of pub raw :: keys) | _, _ => None end
  end.

Definition deferredClient (record : DeferredTransactionRecord) : AuthorizedRequest := {|
  au_ClientIdentity := Some (if String.eqb (d_ClientID record) "" then NoClientIdentity else KnownClientID (d_ClientID record));
  au_Subject := d_Subject record; au_Scopes := []; au_Details := [] |}.

Definition deferred_request (content : DeferredIssuance) : CredentialRequest := {|
  cr_ConfigurationID := ""; cr_Identifier := ""; cr_ResolvedConfigurationID := ""; cr_AuthorizedClaims := []; cr_Proofs := ∅;
  cr_SDJWTClaims := di_SDJWTClaims content; cr_MdocClaims := di_MdocClaims content; cr_PerCredential := di_PerCredential content;
  cr_PerBatch := di_PerBatch content; cr_Defer := None; cr_ResponseEncryption := None; cr_RequestWasEncrypted := false |}.

Definition issue_pending (transactionID : string) (cc : CredentialConfiguration) (record : DeferredTransactionRecord) (keys : list resolvedKey)
    (content : DeferredIssuance) : call unit :=
  try credentials <- issueBatch cc (deferred_request content) keys;;
  try notificationID <- notification_for (deferredClient record);;
  r <~ DeferredUpdate transactionID (fun w cur =>
    (match checkPending (Clock w) cur with Some e => Err e | None => Ok (issued credentials notificationID (Clock w) cur) end, tt));
  Return (updated r).

Definition issueDeferredCredential (transactionID : string) (content : DeferredIssuance) : prog op (string * res iss_error unit) :=
  r <- pendingDeferredTransaction transactionID;;
  match r with
  | Err e => Return (EmptyString, Err e)
  | Ok record =>
      match CredentialConfigurationsSupported (cfg iss) !! d_ConfigurationID record, BindingKeys record with
      | None, _ | _, [] => Return (d_ClientID record, Err (failed "the transaction wasn't created by a deferred Credential Request"))
      | Some cc, raws =>
          match parse_keys raws with
          | None => Return (d_ClientID record, Err (failed "binding key"))
          | Some keys =>
              trust <- recheckDeferredTrust cc record keys;;
              match trust with
              | Some e =>
                  if negb (errors_Is e ErrDeferredKeyAttestation) && negb (errors_Is e ErrDeferredProofKey) then Return (d_ClientID record, Err e)
                  else
                    r <- denyPending transactionID;;
                    Return (d_ClientID record, match snd r with Err denyErr => Err denyErr | Ok _ => Err e end)
              | None => r <- issue_pending transactionID cc record keys content;; Return (d_ClientID record, r)
              end
          end
      end
  end.

Definition IssueDeferredCredential (transactionID : string) (content : DeferredIssuance) : call unit :=
  r <- issueDeferredCredential transactionID content;;
  audit iss AuditEventIssueDeferredCredential (fst r) (snd r).

(** ** Collecting: deferred_credential_endpoint.go *)

Record DeferredCredentialRequest : Type := { dq_TransactionID : string; dq_ResponseEncryption : option ResponseEncryptionRequest; dq_RequestWasEncrypted : bool }.
Record DeferredCredentialResult : Type := { dr_Credentials : list string; dr_NotificationID : string; dr_TransactionID : string; dr_Interval : Z }.

Definition checkDeferredCredentialRequest (auth : AuthorizedRequest) (req : DeferredCredentialRequest) : option iss_error :=
  if negb (is_Some_b (DeferredTransactions (deps iss))) then Some (failed "deferred issuance is not configured")
  else match requireClientIdentityDecision auth with
  | Some e => Some e
  | None =>
      if String.eqb (dq_TransactionID req) "" then Some (newError ErrorInvalidCredentialRequest 400 "transaction_id is required" [])
      else match requireRequestEncryption iss (dq_RequestWasEncrypted req) (is_Some_b (dq_ResponseEncryption req)) with
      | Some e => Some e
      | None => requireResponseEncryption iss (dq_ResponseEncryption req)
      end
  end.

Definition deferredOwner (record : DeferredTransactionRecord) (auth : AuthorizedRequest) : bool := negb (other_client (d_ClientID record) (d_Subject record) auth).

Definition deferredAuthorized (record : DeferredTransactionRecord) (auth : AuthorizedRequest) : bool :=
  deferredOwner record auth &&
  (String.eqb (d_ConfigurationID record) "" || grantsConfiguration auth (d_ConfigurationID record) (scope_of iss (d_ConfigurationID record))).

Definition unknownTransactionID : string := "unknown or already-used transaction_id".

Definition deferredStoreError (e : deferred_error) : iss_error :=
  match e with
  | ErrDeferredTransactionUnknown => newError ErrorInvalidTransactionID 400 unknownTransactionID [OfDeferred e]
  | _ => caused "dependencies.deferred_transactions" [OfDeferred e]
  end.

Definition requestDeferredCredential (auth : AuthorizedRequest) (req : DeferredCredentialRequest) : call DeferredCredentialResult :=
  when_none (checkDeferredCredentialRequest auth req) (
    r <~ DeferredGet (dq_TransactionID req);
    match r with
    | Err e => err (deferredStoreError e)
    | Ok record =>
        if negb (owns iss (d_Owner record)) then err (newError ErrorInvalidTransactionID 400 unknownTransactionID [])
        else
          now <~ Ask Clock;
          if deferredExpired now record then err (newError ErrorInvalidTransactionID 400 unknownTransactionID [])
          else if negb (deferredAuthorized record auth) then err (newError ErrorInvalidTransactionID 400 unknownTransactionID [])
          else match d_Status record with
          | DeferredTransactionPending => ok {| dr_Credentials := []; dr_NotificationID := ""; dr_TransactionID := dq_TransactionID req;
              dr_Interval := DeferredIssuancePollInterval (limits iss) |}
          | DeferredTransactionDenied =>
              err (newError ErrorCredentialRequestDenied 400 "this issuer can no longer issue the requested credential(s)" [])
          | DeferredTransactionIssued =>
              r <~ DeferredInvalidate (dq_TransactionID req);
              match r with
              | Err e => err (deferredStoreError e)
              | Ok _ => ok {| dr_Credentials := d_Credentials record; dr_NotificationID := d_NotificationID record; dr_TransactionID := ""; dr_Interval := 0 |}
              end
          end
    end).

Definition RequestDeferredCredential (auth : AuthorizedRequest) (req : DeferredCredentialRequest) : call DeferredCredentialResult :=
  r <- requestDeferredCredential auth req;;
  audit iss AuditEventRequestDeferredCredential (AuthorizedRequest_ClientID auth) r.

(** A handler's response, encrypted; one that cannot be gives its deferral up.
    [encode] is the response's JSON. *)
Definition credentialResponseStatus (resp : CredentialResponse) : Z := if String.eqb (rs_TransactionID resp) "" then 200 else 202.

Definition credentialResponse (encode : CredentialResponse -> option bytes) (auth : AuthorizedRequest) (req : CredentialRequest) (prepare : option preparer)
    : call (Z * bytes * string) :=
  try result <- requestCredentialAudited auth req prepare;;
  match (match encode result with None => Err (failed "credential handler") | Some json => EncryptResponseBody iss json (cr_ResponseEncryption req) end) with
  | Ok (encoded, contentType) => ok (credentialResponseStatus result, encoded, contentType)
  | Err e =>
      _ <- (if String.eqb (rs_TransactionID result) "" then Return tt else abandonDeferral (rs_TransactionID result));;
      err e
  end.

End Of.
End Endpoint.
