(* ===== verification/IssuerCalls.v ===== *)
(** * An Issuer's calls, one by one, among any others

    What each call may save, what it promises when it has ended, and that it
    keeps to both whatever other calls do between its operations.  What it does,
    in order, for a run's trace: who issues codes, and what a call that redeems
    one has done before.  And an Issuer
    small enough to run: instances of the parameters an Issuer takes, and one
    Issuer's calls over the in-memory stores - a code offered, guessed at and
    redeemed, a Credential Request deferred, issued and collected - for the
    witnesses of [IssuerTogether].  Libraries do next to nothing: a proof's and a
    key's JSON are numbered texts, a digest is its preimage, and the random source counts. *)
From Stdlib Require Import Ascii.
From S2P Require Import Prelude B64Url Json DcqlQuery DcqlValues Text JwtDate Jws X509 CertChain Hkdf Cose Mdoc MdocVerified MdocIssue MdocIssued Jwk Prog Reasons TxStore.
From S2P Require Import SdJwt SdVerify SdIssue CredentialStatus Attestation CredentialOffer IssuerStores IssuerConfig Issuer IssuerSafe IssuerProofs IssuerEncryption CredentialEndpoint.
#[local] Open Scope Z_scope.

Create HintDb plain.

(** A part that is plain by its shape. *)
Ltac plain_step :=
  match goal with
  | |- plain (Return _) => exact I
  | |- plain (Issuer.ok _) => exact I
  | |- plain (Issuer.err _) => exact I
  | |- plain (Do _ _) => split; [exact I|intros ?]
  | |- plain (pbind _ _) => apply plain_bind; [|intros ?]
  | |- plain (when_none ?e _) => unfold when_none; destruct e
  | |- plain (if ?b then _ else _) => destruct b
  | |- plain (match ?x with _ => _ end) => destruct x
  | |- plain (let '(_, _) := ?x in _) => destruct x
  | |- plain _ => progress auto with plain nocore
  end.
Ltac plain_tac := repeat plain_step.

Create HintDb silent.

Section Calls.
Context `{Codec} `{JsonText} `{IssuerWorld} `{!OfferText} `{!CoseKeys} `{!CborLib} `{!MdocCbor} `{!Curves} `{!JwkText} `{!AttestationText}
  `{!ProofWorld} `{!Rand} `{!SdIssueLib} `{!WireLib} `{!IssueWorld}.
Context {NS CS DS TS OS : Type}
  `{!NonceStore NS} `{!PreAuthorizedCodeStore CS} `{!DeferredTransactionStore DS} `{!NotificationStore TS} `{!CredentialOfferStore OS}
  `{!NonceStoreLaws NS} `{!PreAuthorizedCodeStoreLaws CS} `{!DeferredTransactionStoreLaws DS} `{!NotificationStoreLaws TS}.

(** ** Calls *)

(** But for IssuePreAuthorizedCode, whose code is the application's own, and
    which AssuranceProduction refuses. *)
Inductive request : Type :=
| CallNonce (iss : Issuer)
| CallOffer (iss : Issuer) (req : CreateCredentialOfferRequest)
| CallPreAuthorizedOffer (iss : Issuer) (req : CreatePreAuthorizedOfferRequest)
| CallGetOffer (iss : Issuer) (reference : string)
| CallRedeem (iss : Issuer) (req : ExchangeRequest)
| CallExchange (iss : Issuer) (req : ExchangeRequest)
| CallCredential (iss : Issuer) (auth : AuthorizedRequest) (req : CredentialRequest) (prepare : option preparer)
| CallRespond (iss : Issuer) (encode : CredentialResponse -> option bytes) (auth : AuthorizedRequest) (req : CredentialRequest) (prepare : option preparer)
| CallIssueDeferred (iss : Issuer) (id : string) (content : DeferredIssuance)
| CallDenyDeferred (iss : Issuer) (id : string)
| CallCollect (iss : Issuer) (auth : AuthorizedRequest) (req : DeferredCredentialRequest)
| CallNotification (iss : Issuer) (auth : AuthorizedRequest) (req : NotificationRequest).

Inductive outcome : Type :=
| GotOther
| GotRedeemed (r : res iss_error RedeemedPreAuthorizedCode)
| GotToken (r : res iss_error ExchangeResult)
| GotCredentials (r : res iss_error CredentialResponse)
| GotResponded (r : res iss_error (Z * bytes * string))
| GotDecided (r : res iss_error unit)
| GotCollected (r : res iss_error DeferredCredentialResult)
| GotNotified (r : res iss_error unit).

#[local] Open Scope prog_scope.

Definition request_prog (c : request) : prog op outcome :=
  match c with
  | CallNonce iss => _ <- RequestNonce iss;; Return GotOther
  | CallOffer iss req => _ <- CreateCredentialOffer iss req;; Return GotOther
  | CallPreAuthorizedOffer iss req => _ <- CreatePreAuthorizedOffer iss req;; Return GotOther
  | CallGetOffer iss reference => _ <- GetCredentialOffer iss reference;; Return GotOther
  | CallRedeem iss req => r <- RedeemPreAuthorizedCode iss req;; Return (GotRedeemed r)
  | CallExchange iss req => r <- ExchangePreAuthorizedCode iss req;; Return (GotToken r)
  | CallCredential iss auth req prepare => r <- requestCredentialAudited iss auth req prepare;; Return (GotCredentials r)
  | CallRespond iss encode auth req prepare => r <- credentialResponse iss encode auth req prepare;; Return (GotResponded r)
  | CallIssueDeferred iss id content => r <- IssueDeferredCredential iss id content;; Return (GotDecided r)
  | CallDenyDeferred iss id => r <- DenyDeferredCredential iss id;; Return (GotDecided r)
  | CallCollect iss auth req => r <- RequestDeferredCredential iss auth req;; Return (GotCollected r)
  | CallNotification iss auth req => r <- RequestNotification iss auth req;; Return (GotNotified r)
  end.

(** A Credential Request's, whichever way it is answered. *)
Definition credential_call (c : request) : option (Issuer * AuthorizedRequest * CredentialRequest) :=
  match c with
  | CallCredential iss auth req _ | CallRespond iss _ auth req _ => Some (iss, auth, req)
  | _ => None
  end.

(** ** What each may save *)

(** The record CreatePreAuthorizedOffer makes of a request. *)
Definition offered_code (iss : Issuer) (req : CreatePreAuthorizedOfferRequest) (code : string) (now : Z) : PreAuthorizedCodeRecord := {|
  c_Owner := storeOwner iss; TxCodeHash := txCodeHash code (p_TxCode req); Scopes := p_Scopes req;
  CredentialConfigurationIDs := if p_CredentialIdentifiers req then p_ConfigurationIDs req else [];
  c_ExpiresAt := now + p_Lifetime req; c_Subject := p_Subject req |}.

(** A transaction's request: for the client, the subject and the configuration
    a Credential Request is authorized for, and the keys it proved. *)
Definition deferred_for (iss : Issuer) (auth : AuthorizedRequest) (req : CredentialRequest) (r : DeferredTransactionRecord) : Prop :=
  exists configID cc keys reference expires, resolveCredentialConfiguration iss auth req = Ok (configID, cc) /\
    request_of r = request_of (transaction_of iss auth configID keys reference expires) /\ au_Subject auth <> EmptyString.

(** The calls made. *)
Context (calls : list request).

Definition genuine (c : request) (name : nat * string) (it : item) : Prop :=
  match it with
  | Nonce r => exists iss now, c = CallNonce iss /\ n_Owner r = storeOwner iss /\ n_ExpiresAt r = now + NonceLifetime (limits iss)
  | Code r => exists iss req code now, c = CallPreAuthorizedOffer iss req /\ name = code_name (preAuthorizedCodeKey (storeOwner iss) code) /\
      r = offered_code iss req code now
  | Deferred r => exists iss auth req, credential_call c = Some (iss, auth, req) /\ deferred_for iss auth req r
  | Note r => (exists iss auth req, credential_call c = Some (iss, auth, req) /\ t_Owner r = storeOwner iss /\
      t_ClientID r = AuthorizedRequest_ClientID auth /\ t_Subject r = au_Subject auth) \/
      exists iss id content c0 iss0 auth req, c = CallIssueDeferred iss id content /\ t_Owner r = storeOwner iss /\ c0 ∈ calls /\
        credential_call c0 = Some (iss0, auth, req) /\ t_ClientID r = AuthorizedRequest_ClientID auth /\ t_Subject r = au_Subject auth
  end.

Lemma genuine_follows c name r r' : follows r r' -> genuine c name (Deferred r) -> genuine c name (Deferred r').
Proof using.
  intros Hf (iss & auth & req & Hc & configID & cc & keys & reference & expires & Hr & Hq & Hs); exists iss, auth, req; split; [done|].
  exists configID, cc, keys, reference, expires; split_and!; [done| |done]; rewrite <- Hq; symmetry; by apply follows_request.
Qed.

(** ** What each promises *)

Definition code_key (iss : Issuer) (req : ExchangeRequest) : string := preAuthorizedCodeKey (storeOwner iss) (x_PreAuthorizedCode req).

(** The code has not expired when it is redeemed; the authorization details are
    of what was asked for, all of which it grants, or else of all it lists. *)
Definition granted (iss : Issuer) (record : PreAuthorizedCodeRecord) (requested : option (list string)) (now : Z) (details : list AuthorizationDetail) : Prop :=
  now <= c_ExpiresAt record /\ map ad_ConfigurationID details = default (CredentialConfigurationIDs record) requested /\
  Forall (fun id => recordGrants iss record id = true) (default [] requested).

Definition redeemed (iss : Issuer) (req : ExchangeRequest) (record : PreAuthorizedCodeRecord) (g : ghost (C:=request)) (mine : list claim) : Prop :=
  CodeRedeemed (code_key iss req) ∈ mine /\ (exists c, hist g !! code_name (code_key iss req) = Some (c, Code record)) /\
  txCodeHash (x_PreAuthorizedCode req) (x_TxCode req) = TxCodeHash record.

Definition wrong_guess (e : iss_error) : Prop := OfCode ErrWrongTxCode ∈ e_is e.

Definition guessed (iss : Issuer) (req : ExchangeRequest) (mine : list claim) : Prop :=
  exists n, CodeGuessed (code_key iss req) n ∈ mine /\ 1 <= n /\ (0 < MaxTxCodeAttempts (limits iss) -> n <= MaxTxCodeAttempts (limits iss)).

(** The c_nonce the first of a request's proofs has. *)
Definition value_nonce (proofType raw : string) : option string :=
  if String.eqb proofType ProofTypeJWT then
    match Jws.DecodeUnverified raw with Ok (_, payload) => pb_Nonce <$> unmarshal_proof payload | Err _ => None end
  else match Attestation.Parse raw with Ok a => Some (at_Nonce (a_claims a)) | Err _ => None end.

Definition request_nonce (req : CredentialRequest) : option string :=
  match map_to_list (cr_Proofs req) with [(proofType, raw :: _)] => value_nonce proofType raw | _ => None end.

(** Its proofs took a c_nonce the Issuer had issued. *)
Definition took_nonce (iss : Issuer) (nonce : option string) (g : ghost (C:=request)) (mine : list claim) : Prop :=
  nonce_endpoint iss = true -> NonceKeys (deps iss) = [] ->
  exists n c r, nonce = Some n /\ NonceTaken n ∈ mine /\ hist g !! nonce_name n = Some (c, Nonce r) /\ owns iss (n_Owner r) = true.

Definition collected (iss : Issuer) (auth : AuthorizedRequest) (req : DeferredCredentialRequest) (res : DeferredCredentialResult)
    (g : ghost (C:=request)) (mine : list claim) : Prop :=
  exists c r, hist g !! deferred_name (dq_TransactionID req) = Some (c, Deferred r) /\ owns iss (d_Owner r) = true /\ deferredAuthorized iss r auth = true /\
    (dr_TransactionID res = EmptyString -> d_Status r = DeferredTransactionIssued /\ dr_Credentials res = d_Credentials r /\
      DeferredCollected (dq_TransactionID req) ∈ mine).

Definition notified (iss : Issuer) (auth : AuthorizedRequest) (req : NotificationRequest) (g : ghost (C:=request)) : Prop :=
  exists c r, hist g !! note_name (q_NotificationID req) = Some (c, Note r) /\ owns iss (t_Owner r) = true /\
    other_client (t_ClientID r) (t_Subject r) auth = false.

Definition promise (c : request) (o : outcome) (g : ghost (C:=request)) (mine : list claim) : Prop :=
  match c, o with
  | CallRedeem iss req, GotRedeemed (Ok rd) => redeemed iss req (rd_record rd) g mine /\
      rd_Subject rd = c_Subject (rd_record rd) /\ rd_Scope rd = Scopes (rd_record rd)
  | CallExchange iss req, GotToken (Ok x) => exists record, redeemed iss req record g mine /\ xr_Subject x = c_Subject record /\ xr_Scope x = Scopes record
  | CallRedeem iss req, GotRedeemed (Err e) | CallExchange iss req, GotToken (Err e) => wrong_guess e -> guessed iss req mine
  | CallCredential iss _ req _, GotCredentials (Ok _) | CallRespond iss _ _ req _, GotResponded (Ok _) => took_nonce iss (request_nonce req) g mine
  | CallIssueDeferred _ id _, GotDecided (Ok _) | CallDenyDeferred _ id, GotDecided (Ok _) => DeferredDecided id ∈ mine
  | CallCollect iss auth req, GotCollected (Ok res) => collected iss auth req res g mine
  | CallNotification iss auth req, GotNotified (Ok _) => notified iss auth req g
  | _, _ => True
  end.

(** ** Plain parts *)

Section Plain.
Context (iss : Issuer).

Lemma plain_audit {A} t c (r : res iss_error A) : plain (audit iss t c r).
Proof using. unfold audit; plain_tac. Qed.

Lemma plain_checkOwnerKept kind (read : call string) : plain read -> plain (checkOwnerKept iss kind read).
Proof using. intros Hr; unfold checkOwnerKept; plain_tac; done. Qed.

Lemma plain_read_back key record : plain (read_back_owner key record).
Proof using. unfold read_back_owner; split; [done|intros ?]; plain_tac. Qed.

Lemma plain_createCredentialOffer req : plain (createCredentialOffer iss req).
Proof using. unfold createCredentialOffer, createCredentialOfferByReference; plain_tac. Qed.

Lemma plain_verifyOneAttestation raw i now algs : plain (verifyOneAttestation iss raw i now algs).
Proof using. unfold verifyOneAttestation; plain_tac. Qed.

Lemma plain_checkAttestationStatus v : plain (checkAttestationStatus iss v).
Proof using. unfold checkAttestationStatus; plain_tac. Qed.

#[local] Hint Resolve plain_audit plain_checkOwnerKept plain_read_back plain_createCredentialOffer plain_verifyOneAttestation
  plain_checkAttestationStatus : plain.

Lemma plain_requestAttestationStatus v what i : plain (requestAttestationStatus iss v what i).
Proof using. unfold requestAttestationStatus; plain_tac. Qed.

Lemma plain_checkProofAge iat i : plain (checkProofAge iss iat i).
Proof using. unfold checkProofAge; plain_tac. Qed.

Lemma plain_resolveProofBindingKey h : plain (resolveProofBindingKey iss h).
Proof using. unfold resolveProofBindingKey, resolveProofKey; plain_tac. Qed.

#[local] Hint Resolve plain_requestAttestationStatus plain_checkProofAge plain_resolveProofBindingKey : plain.

Lemma plain_verifyJWTProofBody auth raw alg pub jwkRaw i : plain (verifyJWTProofBody iss auth raw alg pub jwkRaw i).
Proof using. unfold verifyJWTProofBody; plain_tac. Qed.

Lemma plain_attestedProofKey h compact raw i ptc : plain (attestedProofKey iss h compact raw i ptc).
Proof using. unfold attestedProofKey; plain_tac. Qed.

#[local] Hint Resolve plain_verifyJWTProofBody plain_attestedProofKey : plain.

Lemma plain_verifyJWTProof auth raw i ptc : plain (verifyJWTProof iss auth raw i ptc).
Proof using. unfold verifyJWTProof; plain_tac. Qed.

Lemma plain_resolveKeyAttestationHeader compact key nonce i ptc : plain (resolveKeyAttestationHeader iss compact key nonce i ptc).
Proof using. unfold resolveKeyAttestationHeader; plain_tac. Qed.

#[local] Hint Resolve plain_verifyJWTProof plain_resolveKeyAttestationHeader : plain.

Lemma plain_proof_keys h pub raw attestation nonce i ptc keys : plain (proof_keys iss h pub raw attestation nonce i ptc keys).
Proof using. unfold proof_keys; plain_tac. Qed.

Lemma plain_issueInstance cc instance key : plain (issueInstance iss cc instance key).
Proof using. unfold issueInstance, issueSDJWT, issueMdoc; plain_tac. Qed.

Lemma plain_instances_loop cc req i keys : plain (instances_loop cc req i keys).
Proof using. revert i; induction keys as [|k keys IH]; intros i; cbn [instances_loop]; unfold instance_of; plain_tac. Qed.

Lemma plain_sign_loop cc refs l : plain (sign_loop iss cc refs l).
Proof using. revert refs; induction l as [|[instance key] l IH]; intros refs; cbn [sign_loop]; plain_tac; try apply plain_issueInstance. Qed.

Lemma plain_issueBatch cc req keys : plain (issueBatch iss cc req keys).
Proof using.
  unfold issueBatch, batch_instances; plain_tac; [apply plain_instances_loop|apply plain_sign_loop].
Qed.

Lemma plain_recheck_attestations now algs i compacts e : plain (recheck_attestations iss now algs i compacts e).
Proof using. revert i e; induction compacts as [|c compacts IH]; intros i e; cbn [recheck_attestations]; plain_tac. Qed.

Lemma plain_recheck_headers now l e : plain (recheck_headers iss now l e).
Proof using. revert e; induction l as [|[raw key] l IH]; intros e; cbn [recheck_headers]; plain_tac. Qed.

#[local] Hint Resolve plain_recheck_attestations plain_recheck_headers : plain.

Lemma plain_recheckDeferredTrust cc record keys : plain (recheckDeferredTrust iss cc record keys).
Proof using. unfold recheckDeferredTrust, recheckKeyAttestations, recheckProofKeys; plain_tac. Qed.

Lemma plain_prepared auth req configID prepare : plain (prepared iss auth req configID prepare).
Proof using. unfold prepared; plain_tac. Qed.

End Plain.

(** ** Who issues codes

    In a trace: only CreatePreAuthorizedOffer issues one, of a value it has
    drawn, at a time it has read. *)

Fixpoint silent {A} (p : prog op A) : Prop :=
  match p with
  | Return _ => True
  | Do o k => match o with CodeIssue _ _ => False | _ => True end /\ forall x, silent (k x)
  end.

Definition issues_as (c : request) (past : list (event op)) (e : event op) : Prop :=
  match e with
  | Event o _ => match o with
      | CodeIssue k r => exists iss req raw now, c = CallPreAuthorizedOffer iss req /\ k = preAuthorizedCodeKey (storeOwner iss) (b64_string raw) /\
          r = offered_code iss req (b64_string raw) now /\ Event (Random 32) (Some raw) ∈ past /\ Event (Ask Clock) now ∈ past
      | _ => True
      end
  end.

Lemma silent_plain {A} (p : prog op A) : plain p -> silent p.
Proof using. induction p as [a|X o k IH]; cbn; [done|]; intros [Ho Hk]; split; [by destruct o|]; intros x; by apply IH. Qed.

Lemma silent_bind {A B} (p : prog op A) (f : A -> prog op B) : silent p -> (forall a, silent (f a)) -> silent (pbind p f).
Proof using. induction p as [a|X o k IH]; cbn; [by intros|]; intros [Ho Hk] Hf; split; [done|]; intros x; by apply IH. Qed.

(** What has been done stays done. *)
Lemma along_silent {A} c (R : list (event op) -> A -> Prop) (p : prog op A) past : silent p ->
  (forall past' a, past ⊆ past' -> R past' a) -> along (issues_as c) R p past.
Proof using.
  revert past; induction p as [a|X o k IH]; intros past; cbn [silent along]; intros Hp HR; [by apply HR|]; destruct Hp as [Ho Hk]; intros x.
  split; [by destruct o|]; apply IH; [done|]; intros past' a Hin; apply HR; intros e He; apply Hin; by right.
Qed.

(** The code a call asks for, consumed. *)
Definition consumes (iss : Issuer) (req : ExchangeRequest) (requested : option (list string)) (now : Z)
    (answer : res code_error PreAuthorizedCodeRecord * Z * option (bool * res iss_error (list AuthorizationDetail))) : event op :=
  Event (CodeConsume (code_key iss req) (txCodeHash (x_PreAuthorizedCode req) (x_TxCode req)) (MaxTxCodeAttempts (limits iss)) (accept_code iss requested now)) answer.

(** What a call that redeems a code has done: read the clock, then had the code
    consumed, by an accept of that time. *)
Definition redeeming (iss : Issuer) (req : ExchangeRequest) (record : PreAuthorizedCodeRecord) (details : list AuthorizationDetail)
    (past : list (event op)) : Prop :=
  exists now requested n p1 p2, requestedConfigurations iss (x_Details req) = Ok requested /\
    past = p2 ++ consumes iss req requested now (Ok record, n, Some (true, Ok details)) :: p1 /\ Event (Ask Clock) now ∈ p1.

Lemma redeeming_later iss req record details new past : redeeming iss req record details past -> redeeming iss req record details (new ++ past).
Proof using. intros (now & requested & n & p1 & p2 & Hr & -> & Hin); exists now, requested, n, p1, (new ++ p2); by rewrite <- app_assoc. Qed.

Definition redeeming_post (iss : Issuer) (req : ExchangeRequest) (past : list (event op)) (r : res iss_error RedeemedPreAuthorizedCode) : Prop :=
  forall rd, r = Ok rd -> redeeming iss req (rd_record rd) (rd_Details rd) past /\ rd_Subject rd = c_Subject (rd_record rd) /\ rd_Scope rd = Scopes (rd_record rd).

Definition exchanging_post (iss : Issuer) (req : ExchangeRequest) (past : list (event op)) (r : res iss_error ExchangeResult) : Prop :=
  forall x, r = Ok x -> exists record, redeeming iss req record (xr_Details x) past /\ xr_Subject x = c_Subject record /\ xr_Scope x = Scopes record.

Lemma along_consume c iss req requested now past : requestedConfigurations iss (x_Details req) = Ok requested -> Event (Ask Clock) now ∈ past ->
  along (issues_as c) (fun past r => forall record details, r = Ok (record, details) -> redeeming iss req record details past)
    (consumePreAuthorizedCode iss req requested now) past.
Proof using.
  intros Hr Hnow; unfold consumePreAuthorizedCode; cbn [along]; intros x; split; [done|].
  destruct x as [[[record|e] n] said]; [destruct said as [[[] [details|?]]|]; try done|].
  - intros ? ? [= <- <-]; by exists now, requested, n, past, [].
  - destruct e; try done; try (by destruct said as [[? [?|?]]|]); destruct (_ <=? _); [|by destruct (String.eqb _ _)].
    intros y; split; [done|]; by destruct y.
Qed.

Lemma along_redeem c iss req now past : Event (Ask Clock) now ∈ past ->
  along (issues_as c) (fun past r => redeeming_post iss req past (snd r)) (redeemPreAuthorizedCode iss req now) past.
Proof using.
  intros Hnow; unfold redeemPreAuthorizedCode; repeat (case_match; [done|]).
  match goal with |- context [match ?b with Ok _ => _ | Err _ => _ end] => destruct b as [binding|]; [|done] end.
  destruct (requestedConfigurations iss (x_Details req)) as [requested|e] eqn:Er; [|done]; apply along_pbind.
  eapply along_mono; [by apply along_consume|]; intros past' [[record details]|e] Hp; [|done]; intros rd [= <-]; split_and!; [by apply Hp|done..].
Qed.

Lemma along_audit {A} c (R : list (event op) -> res iss_error A -> Prop) iss t cl r past : (forall new, R (new ++ past) r) ->
  along (issues_as c) R (audit iss t cl r) past.
Proof using.
  intros HR; unfold audit; destruct (negb _); [apply (HR [])|]; cbn [along]; intros now; split; [done|]; intros x; split; [done|].
  apply (HR [_; _]).
Qed.

Lemma along_RedeemPreAuthorizedCode c iss req past : along (issues_as c) (redeeming_post iss req) (RedeemPreAuthorizedCode iss req) past.
Proof using.
  unfold RedeemPreAuthorizedCode; apply along_pbind, (along_mono _ (fun past r => redeeming_post iss req past (snd r))).
  - unfold redeemVerifiedPreAuthorizedCode; destruct (negb _); [done|]; intros now; split; [done|]; apply along_redeem; by left.
  - intros past' r Hp; apply along_audit; intros new rd Hrd; destruct (Hp rd Hrd) as (Hr & ?); split; [by apply redeeming_later|done].
Qed.

Lemma along_ExchangePreAuthorizedCode c iss req past : along (issues_as c) (exchanging_post iss req) (ExchangePreAuthorizedCode iss req) past.
Proof using.
  unfold ExchangePreAuthorizedCode; apply along_pbind, (along_mono _ (fun past r => exchanging_post iss req past (snd r))).
  - unfold exchangePreAuthorizedCode; destruct (_ && _); [done|]; intros now; split; [done|]; apply along_pbind.
    eapply along_mono; [apply along_redeem; by left|]; intros p2 [cl [rd|e]] Hp; [|done]; destruct (Hp rd eq_refl) as (Hr & _).
    apply along_pbind; cbn [snd fst]; unfold issue_token; case_match; [|done]; intros token; split; [done|]; destruct token; [|done].
    intros x [= <-]; exists (rd_record rd); split; [|done]; by apply (redeeming_later _ _ _ _ [_]).
  - intros past' r Hp; apply along_audit; intros new x Hx; destruct (Hp x Hx) as (record & Hr & ?); exists record; split; [by apply redeeming_later|done].
Qed.

Lemma along_CreatePreAuthorizedOffer iss req past :
  along (issues_as (CallPreAuthorizedOffer iss req)) (fun _ _ => True) (CreatePreAuthorizedOffer iss req) past.
Proof using.
  unfold CreatePreAuthorizedOffer, when_none; repeat (case_match; [done|]); intros raw; split; [done|]; destruct raw as [raw|]; [|done]; change (raw_id (Some raw)) with (Some (b64_string raw)); cbv iota beta zeta.
  destruct (validateCredentialOffer _ _ _); [|done]; intros now; split; [done|]; apply along_pbind, (along_mono _ (fun _ _ => True)).
  - unfold storePreAuthorizedCode; cbn [along]; intros x; split.
    + exists iss, req, raw, now; split_and!; [done..|right; by left|by left].
    + destruct x; [|done]; apply along_silent; [|done]; apply silent_plain; plain_tac; apply plain_checkOwnerKept, plain_read_back.
  - intros p2 [] _; [|done]; apply along_silent; [|done]; apply silent_plain, plain_createCredentialOffer.
Qed.

(** The rest issue none. *)
Section Silent.
Context (iss : Issuer).

#[local] Hint Resolve plain_audit plain_verifyJWTProof plain_proof_keys plain_verifyOneAttestation plain_checkProofAge plain_requestAttestationStatus
  plain_prepared plain_issueBatch plain_recheckDeferredTrust plain_createCredentialOffer : plain.

Ltac silent_step :=
  match goal with
  | |- silent (Return _) => exact I
  | |- silent (Issuer.ok _) => exact I
  | |- silent (Issuer.err _) => exact I
  | |- silent (Do _ _) => split; [exact I|intros ?]
  | |- silent (pbind _ _) => apply silent_bind; [|intros ?]
  | |- silent (when_none ?e _) => unfold when_none; destruct e
  | |- silent (if ?b then _ else _) => destruct b
  | |- silent (match ?x with _ => _ end) => destruct x
  | |- silent (let '(_, _) := ?x in _) => destruct x
  | |- silent _ => progress auto with silent nocore
  | |- silent _ => apply silent_plain; solve [auto with plain nocore]
  end.
Ltac silent_tac := repeat silent_step.

Lemma silent_checkOwnerKept kind (read : call string) : silent read -> silent (checkOwnerKept iss kind read).
Proof using. intros Hr; unfold checkOwnerKept; silent_tac; done. Qed.

Lemma silent_checkProofNonce what i nonce expected : silent (checkProofNonce iss what i nonce expected).
Proof using. unfold checkProofNonce, consumeNonce, spendStatelessNonce; silent_tac. Qed.

#[local] Hint Resolve silent_checkProofNonce : silent.

Lemma silent_jwt_loop auth ptc i values expected keys : silent (jwt_loop iss auth ptc i values expected keys).
Proof using. revert i expected keys; induction values as [|raw values IH]; intros i expected keys; cbn [jwt_loop]; silent_tac; apply IH. Qed.

#[local] Hint Resolve silent_jwt_loop : silent.

Lemma silent_resolveProofKeys auth proofType values ptc : silent (resolveProofKeys iss auth proofType values ptc).
Proof using. unfold resolveProofKeys, resolveJWTProofKeys, resolveAttestationProofKeys; silent_tac. Qed.

#[local] Hint Resolve silent_resolveProofKeys : silent.

Lemma silent_proved auth req : silent (proved iss auth req).
Proof using. unfold proved; silent_tac. Qed.

Lemma silent_IssueNotificationID auth : silent (IssueNotificationID iss auth).
Proof using. unfold IssueNotificationID; destruct (0 <? NotificationLifetime (limits iss)); silent_tac; apply silent_checkOwnerKept; silent_tac. Qed.

#[local] Hint Resolve silent_IssueNotificationID : silent.

Lemma silent_notification_for auth : silent (notification_for iss auth).
Proof using. unfold notification_for; silent_tac. Qed.

Lemma silent_startDeferral auth configID keys reference : silent (startDeferral iss auth configID keys reference).
Proof using. unfold startDeferral; silent_tac; apply silent_checkOwnerKept; silent_tac. Qed.

#[local] Hint Resolve silent_proved silent_notification_for silent_startDeferral : silent.

Lemma silent_requestCredentialAudited auth req prepare : silent (requestCredentialAudited iss auth req prepare).
Proof using. unfold requestCredentialAudited, requestCredential; silent_tac. Qed.

Lemma silent_abandonDeferral id : silent (abandonDeferral iss id).
Proof using. unfold abandonDeferral; silent_tac. Qed.

Lemma silent_denyPending id : silent (denyPending iss id).
Proof using. unfold denyPending; silent_tac. Qed.

#[local] Hint Resolve silent_requestCredentialAudited silent_abandonDeferral silent_denyPending : silent.

Lemma silent_credentialResponse encode auth req prepare : silent (credentialResponse iss encode auth req prepare).
Proof using. unfold credentialResponse; silent_tac. Qed.

Lemma silent_IssueDeferredCredential id content : silent (IssueDeferredCredential iss id content).
Proof using. unfold IssueDeferredCredential, issueDeferredCredential, pendingDeferredTransaction, issue_pending; silent_tac. Qed.

Lemma silent_DenyDeferredCredential id : silent (DenyDeferredCredential iss id).
Proof using. unfold DenyDeferredCredential; silent_tac. Qed.

Lemma silent_RequestDeferredCredential auth req : silent (RequestDeferredCredential iss auth req).
Proof using. unfold RequestDeferredCredential, requestDeferredCredential; silent_tac. Qed.

Lemma silent_RequestNotification auth req : silent (RequestNotification iss auth req).
Proof using. unfold RequestNotification; silent_tac. Qed.

Lemma silent_RequestNonce : silent (RequestNonce iss).
Proof using. unfold RequestNonce, issueNonce; silent_tac. Qed.

Lemma silent_CreateCredentialOffer req : silent (CreateCredentialOffer iss req).
Proof using. unfold CreateCredentialOffer; silent_tac. Qed.

Lemma silent_GetCredentialOffer reference : silent (GetCredentialOffer iss reference).
Proof using. unfold GetCredentialOffer; silent_tac. Qed.

End Silent.

(** What a call that has ended has done. *)
Definition has_done (c : request) (past : list (event op)) (o : outcome) : Prop :=
  match c, o with
  | CallRedeem iss req, GotRedeemed r => redeeming_post iss req past r
  | CallExchange iss req, GotToken r => exchanging_post iss req past r
  | _, _ => True
  end.

Lemma along_request c : along (issues_as c) (has_done c) (request_prog c) [].
Proof using.
  destruct c; cbn [request_prog]; apply along_pbind;
    lazymatch goal with
    | |- along _ _ (CreatePreAuthorizedOffer _ _) _ => eapply along_mono; [apply along_CreatePreAuthorizedOffer|done]
    | |- along _ _ (RedeemPreAuthorizedCode _ _) _ => eapply along_mono; [apply along_RedeemPreAuthorizedCode|done]
    | |- along _ _ (ExchangePreAuthorizedCode _ _) _ => eapply along_mono; [apply along_ExchangePreAuthorizedCode|done]
    | |- _ => apply along_silent; [|done]
    end.
  - apply silent_RequestNonce.
  - apply silent_CreateCredentialOffer.
  - apply silent_GetCredentialOffer.
  - apply silent_requestCredentialAudited.
  - apply silent_credentialResponse.
  - apply silent_IssueDeferredCredential.
  - apply silent_DenyDeferredCredential.
  - apply silent_RequestDeferredCredential.
  - apply silent_RequestNotification.
Qed.

(** ** Parts that save or use up *)

Context (supply : random_source).
Context (supply_inj : forall a b n m raw, supply a n = Some raw -> supply b m = Some raw -> a = b).
Context (supply_bytes : forall a n raw, supply a n = Some raw -> bytes_ok raw).
Context (keys_distinct : forall o o' a b, preAuthorizedCodeKey o a = preAuthorizedCodeKey o' b -> o = o' /\ a = b).

#[local] Abbreviation part := (part (NS:=NS) (CS:=CS) (DS:=DS) (TS:=TS) (OS:=OS) calls genuine supply).

Ltac plainly := eapply part_plain; [done..|auto with plain|].

Definition took (iss : Issuer) (n : string) (g : ghost (C:=request)) (mine : list claim) : Prop :=
  NonceKeys (deps iss) = [] -> exists c r, NonceTaken n ∈ mine /\ hist g !! nonce_name n = Some (c, Nonce r) /\ owns iss (n_Owner r) = true.

Lemma later_saved g mine g1 m name (c : request) it : later g mine g1 m -> hist g !! name = Some (c, it) ->
  match it with Deferred _ => False | _ => True end -> hist g1 !! name = Some (c, it).
Proof using. intros Hl Hh Hit; destruct (later_hist _ _ _ _ Hl _ _ _ Hh) as (it' & Hh' & Hlive); destruct it; cbn in Hlive; try done; by rewrite Hlive. Qed.

Lemma took_later iss n g mine g1 m : later g mine g1 m -> took iss n g mine -> took iss n g1 m.
Proof using.
  intros Hl Ht Hk; destruct (Ht Hk) as (c & r & Hm & Hh & Ho); exists c, r; split_and!; [by eapply later_mine|by eapply later_saved|done].
Qed.

Lemma part_consumeNonce iss nonce g mine :
  part (fun r g1 m => later g mine g1 m /\ (r = Ok tt -> took iss nonce g1 m)) (consumeNonce iss nonce) g mine.
Proof using supply_inj supply_bytes keys_distinct.
  unfold consumeNonce; destruct (isStatelessNonce nonce) eqn:Es.
  - destruct (NonceKeys (deps iss)) eqn:Ek; [split; [apply later_refl|done]|].
    eapply part_plain; [done..| |intros a g1 m Hl; split; [done|]; intros _ Hk; unfold deps in *; congruence].
    unfold spendStatelessNonce; repeat plain_step; split; [done|intros ?; plain_tac].
  - apply part_nonce_consume; [done| |].
    + intros g1 e Hl; destruct e; split; done.
    + intros g1 c r m Hl Hh Ho Hm; destruct (owns iss (n_Owner r)) eqn:Eo; cbn [negb]; [|split; done].
      eapply part_plain; [done..|by plain_tac|]; intros a g2 m2 Hl2; split; [by eapply later_trans|]; intros _ _; exists c, r.
      split_and!; [by eapply later_mine|by eapply later_saved|done].
Qed.

(** The first proof's nonce is taken; those of the others are the same. *)
Lemma part_checkProofNonce iss what i nonce expected g mine :
  part (fun r g1 m => later g mine g1 m /\ (i = 0 -> is_ok r = true -> nonce_endpoint iss = true -> took iss nonce g1 m))
    (checkProofNonce iss what i nonce expected) g mine.
Proof using supply_inj supply_bytes keys_distinct.
  unfold checkProofNonce; destruct (nonce_endpoint iss); cbn [negb]; [|split; [apply later_refl|done]].
  destruct (String.eqb nonce ""); [split; [apply later_refl|done]|]; destruct (Z.eqb_spec i 0) as [->|Hi].
  - apply part_bind; eapply part_weaken; [apply part_consumeNonce|]; intros [[]|e] g1 m [Hl Ht]; split; try done; intros _ _ _; by apply Ht.
  - destruct (negb _); split; try apply later_refl; done.
Qed.

Lemma Verify_decodes alg pub raw h payload : Jws.Verify alg pub raw = Ok (h, payload) -> Jws.DecodeUnverified raw = Ok (h, payload).
Proof using.
  unfold Jws.Verify, Jws.VerifyMax, Jws.DecodeUnverified, Jws.DecodeUnverifiedMax; destruct (MaxCompactBytes <? slen raw); [done|].
  intros Hv; apply res_bind_ok in Hv as ([[h0 p0] s0] & -> & Hv); apply res_bind_ok in Hv as (hd & Hh & Hv); cbn; rewrite Hh; cbn.
  destruct (negb _); [done|]; apply res_bind_ok in Hv as (pl & Hp & Hv); rewrite Hp; cbn.
  apply res_bind_ok in Hv as (sg & _ & Hv); by apply res_bind_ok in Hv as ([] & _ & [= <- <-]).
Qed.

Lemma ends_verifyJWTProof iss auth raw i ptc :
  ends (fun r => forall pub jwk n, r = Ok (pub, jwk, n) -> value_nonce ProofTypeJWT raw = Some n) (verifyJWTProof iss auth raw i ptc).
Proof using.
  assert (Hbody : forall alg pub jwk, ends (fun r => forall pub jwk n, r = Ok (pub, jwk, n) -> value_nonce ProofTypeJWT raw = Some n)
    (verifyJWTProofBody iss auth raw alg pub jwk i)).
  { intros alg pub jwk; unfold verifyJWTProofBody; destruct (Jws.Verify alg pub raw) as [[h payload]|e] eqn:Ev; [|done].
    apply Verify_decodes in Ev; destruct (unmarshal_proof payload) as [body|] eqn:Eb; [|done]; repeat case_match; try done.
    all: apply issuer_ends_bind, ends_any; intros [|]; repeat case_match; try done; intros ? ? ? [= <- <- <-]; unfold value_nonce; cbn; by rewrite Ev, Eb. }
  unfold verifyJWTProof; repeat case_match; try done; apply issuer_ends_bind, ends_any; intros [[[? ?] ?]|] || (intros [[? ?]|]); repeat case_match; try done; apply Hbody.
Qed.

Lemma part_jwt_loop iss auth ptc i values expected keys g mine :
  part (fun _ g1 m => later g mine g1 m) (jwt_loop iss auth ptc i values expected keys) g mine.
Proof using supply_inj supply_bytes keys_distinct.
  revert i expected keys g mine; induction values as [|raw values IH]; intros i expected keys g mine; cbn [jwt_loop]; [apply later_refl|].
  apply part_then; [done..|apply plain_verifyJWTProof|]; intros [[[pub jwk] n]|e] g1 m Hl; [|done].
  apply part_bind; eapply part_weaken; [apply part_checkProofNonce|]; intros [ex|e] g2 m2 [Hl2 _]; [|by eapply later_trans].
  pose proof (later_trans _ _ _ _ _ _ Hl Hl2) as Hl'; destruct (proofHeader raw i) as [h|]; [|done]; destruct (keyAttestationHeader h i); [|done].
  apply part_then; [done..|apply plain_proof_keys|]; intros [ks|e] g3 m3 Hl3; [|by eapply later_trans].
  destruct (_ <? _); [by eapply later_trans|]; eapply part_weaken; [apply IH|]; intros ? g4 m4 Hl4; by eapply later_trans, later_trans.
Qed.

Definition proofs_took (iss : Issuer) (proofType : string) (values : list string) (g : ghost (C:=request)) (mine : list claim) : Prop :=
  nonce_endpoint iss = true -> exists raw rest n, values = raw :: rest /\ value_nonce proofType raw = Some n /\ took iss n g mine.

Lemma proofs_took_later iss t values g mine g1 m : later g mine g1 m -> proofs_took iss t values g mine -> proofs_took iss t values g1 m.
Proof using.
  intros Hl Hp Hn; destruct (Hp Hn) as (raw & rest & n & Hv & Hr & Ht); exists raw, rest, n; split_and!; [done..|]; by eapply took_later.
Qed.

Lemma part_resolveJWTProofKeys iss auth raw values ptc g mine :
  part (fun r g1 m => later g mine g1 m /\ (is_ok r = true -> proofs_took iss ProofTypeJWT (raw :: values) g1 m))
    (resolveJWTProofKeys iss auth (raw :: values) ptc) g mine.
Proof using supply_inj supply_bytes keys_distinct.
  unfold resolveJWTProofKeys; cbn [jwt_loop]; apply part_bind; eapply part_ends; [done..|apply plain_verifyJWTProof|apply ends_verifyJWTProof|].
  intros [[[pub jwk] n]|e] g1 m Hval Hl; [|done]; specialize (Hval pub jwk n eq_refl).
  apply part_bind; eapply part_weaken; [apply part_checkProofNonce|]; intros [ex|e] g2 m2 [Hl2 Ht]; [|split; [by eapply later_trans|done]].
  pose proof (later_trans _ _ _ _ _ _ Hl Hl2) as Hl'; destruct (proofHeader raw 0) as [h|]; [|done]; destruct (keyAttestationHeader h 0); [|done].
  apply part_then; [done..|apply plain_proof_keys|]; intros [ks|e] g3 m3 Hl3; [|split; [by eapply later_trans|done]].
  destruct (_ <? _); [split; [by eapply later_trans|done]|]; eapply part_weaken; [apply part_jwt_loop|]; intros ? g4 m4 Hl4.
  split; [by eapply later_trans, later_trans|]; intros _ Hn; exists raw, values, n; split_and!; [done..|].
  eapply took_later; [by eapply later_trans|by apply Ht].
Qed.

Lemma att_Verify_nonce a pub alg opts c : att_Verify a pub alg opts = Ok c -> at_Nonce c = at_Nonce (a_claims a).
Proof using.
  unfold att_Verify; destruct (negb _); [done|]; intros Hv; apply res_bind_ok in Hv as (_ & _ & Hv); apply res_bind_ok in Hv as (? & _ & Hv).
  destruct (negb _ && negb _); [done|]; by apply res_bind_ok in Hv as (? & _ & [= <-]).
Qed.

Lemma ends_verifyOneAttestation iss raw i now algs :
  ends (fun r => forall v, r = Ok v -> value_nonce ProofTypeAttestation raw = Some (at_Nonce (vk_Claims v))) (verifyOneAttestation iss raw i now algs).
Proof using.
  unfold verifyOneAttestation, value_nonce; cbn [String.eqb]; destruct (Attestation.Parse raw) as [parsed|]; [|done]; cbn [ends]; intros at'.
  intros [[pub alg]|e]; [|by destruct (trustUndecided e)]; destruct (negb _); [done|]; destruct (att_Verify _ _ _ _) eqn:Ev; [|done].
  intros v [= <-]; cbn; by rewrite (att_Verify_nonce _ _ _ _ _ Ev).
Qed.

Lemma part_resolveAttestationProofKeys iss raw rest ptc g mine :
  part (fun r g1 m => later g mine g1 m /\ (is_ok r = true -> proofs_took iss ProofTypeAttestation (raw :: rest) g1 m))
    (resolveAttestationProofKeys iss (raw :: rest) ptc) g mine.
Proof using supply_inj supply_bytes keys_distinct.
  unfold resolveAttestationProofKeys; destruct (negb _); [split; [apply later_refl|done]|]; destruct rest; [|split; [apply later_refl|done]].
  apply part_op; [done..|]; intros g1 m now Hl; apply part_bind; eapply part_ends; [done..|apply plain_verifyOneAttestation|apply ends_verifyOneAttestation|].
  intros [signed|e] g2 m2 Hval Hl2; [|split; [by eapply later_trans|done]]; specialize (Hval signed eq_refl).
  pose proof (later_trans _ _ _ _ _ _ Hl Hl2) as Hl'; apply part_bind; eapply part_weaken; [apply part_checkProofNonce|].
  intros [ex|e] g3 m3 [Hl3 Ht]; [|split; [by eapply later_trans|done]]; pose proof (later_trans _ _ _ _ _ _ Hl' Hl3) as Hl4.
  eapply part_plain; [done..| |].
  - repeat plain_step; [apply plain_checkProofAge|apply plain_requestAttestationStatus].
  - intros a g5 m5 Hl5; split; [by eapply later_trans|]; intros _ Hn; exists raw, [], (at_Nonce (vk_Claims signed)); split_and!; [done..|].
    eapply took_later; [done|by apply Ht].
Qed.

Lemma part_resolveProofKeys iss auth proofType raw rest ptc g mine :
  part (fun r g1 m => later g mine g1 m /\ (is_ok r = true -> proofs_took iss proofType (raw :: rest) g1 m))
    (resolveProofKeys iss auth proofType (raw :: rest) ptc) g mine.
Proof using supply_inj supply_bytes keys_distinct.
  assert (Hend : forall (p : Issuer.call (list resolvedKey)),
    part (fun r g1 m => later g mine g1 m /\ (is_ok r = true -> proofs_took iss proofType (raw :: rest) g1 m)) p g mine ->
    part (fun r g1 m => later g mine g1 m /\ (is_ok r = true -> proofs_took iss proofType (raw :: rest) g1 m))
      (pbind p (fun r => match r with Err e => Return (Err e) | Ok keys => when_none (checkDistinctKeys [] keys) (Issuer.ok keys) end)) g mine).
  { intros p Hp; apply part_bind; eapply part_weaken; [exact Hp|]; intros [keys|e] g1 m [Hl Ht]; [|done].
    unfold when_none; by destruct (checkDistinctKeys [] keys). }
  unfold resolveProofKeys; apply Hend; destruct (String.eqb_spec proofType ProofTypeJWT) as [->|]; [apply part_resolveJWTProofKeys|].
  destruct (String.eqb_spec proofType ProofTypeAttestation) as [->|]; [apply part_resolveAttestationProofKeys|split; [apply later_refl|done]].
Qed.

(** A request that may be answered: its configuration authorized, its nonce
    taken, its deferral, if one is asked for, for a subject. *)
Record provable (iss : Issuer) (auth : AuthorizedRequest) (req : CredentialRequest) (configID : string) (cc : CredentialConfiguration)
    (g : ghost (C:=request)) (mine : list claim) : Prop := {
  provable_authorized : resolveCredentialConfiguration iss auth req = Ok (configID, cc);
  provable_nonce : took_nonce iss (request_nonce req) g mine;
  provable_deferral : is_Some (cr_Defer req) -> au_Subject auth <> EmptyString
}.

Lemma took_nonce_later iss n g mine g1 m : later g mine g1 m -> took_nonce iss n g mine -> took_nonce iss n g1 m.
Proof using.
  intros Hl Ht Hn Hk; destruct (Ht Hn Hk) as (x & c & r & -> & Hm & Hh & Ho); exists x, c, r; split_and!; [done|by eapply later_mine|by eapply later_saved|done].
Qed.

Lemma requireDeferral_subject iss auth : requireDeferral iss auth = None -> au_Subject auth <> EmptyString.
Proof using. unfold requireDeferral; destruct (_ || _); [done|]; by destruct (String.eqb_spec (au_Subject auth) ""). Qed.

Lemma part_proved iss auth req g mine :
  part (fun r g1 m => later g mine g1 m /\ forall configID cc keys, r = Ok (configID, cc, keys) -> provable iss auth req configID cc g1 m)
    (proved iss auth req) g mine.
Proof using supply_inj supply_bytes keys_distinct.
  assert (Hno : forall e, part (fun r g1 m => later g mine g1 m /\ forall configID cc keys, r = Ok (configID, cc, keys) -> provable iss auth req configID cc g1 m)
    (Issuer.err (A:=string * CredentialConfiguration * list resolvedKey) e) g mine) by (intros e; split; [apply later_refl|done]).
  unfold proved, when_none; repeat (case_match; [by apply Hno|]).
  destruct (resolveCredentialConfiguration iss auth req) as [[configID cc]|e] eqn:Er; [|apply Hno].
  destruct (require_if_deferred iss auth req) eqn:Ed; [apply Hno|]; destruct (singleProofType (cr_Proofs req) cc) as [[t values]|e] eqn:Es; [|apply Hno].
  destruct (checkBatchSize iss values); [apply Hno|]; destruct (ProofTypesSupported cc !! t) as [ptc|]; [|apply Hno].
  assert (Hsub : is_Some (cr_Defer req) -> au_Subject auth <> EmptyString).
  { intros [d Hd]; unfold require_if_deferred in Ed; rewrite Hd in Ed; cbn in Ed; by apply (requireDeferral_subject iss). }
  unfold singleProofType in Es; destruct (_ =? _)%nat; [done|]; destruct (map_to_list (cr_Proofs req)) as [|[t0 v0] [|]] eqn:Em; [done| |done].
  destruct v0 as [|raw rest]; [done|]; destruct (_ =? _); [done|]; injection Es as <- <-.
  apply part_bind; eapply part_weaken; [apply part_resolveProofKeys|]; intros [keys|e] g1 m [Hl Ht]; [|by split].
  split; [done|]; intros ? ? ? [= <- <- <-]; split; [done| |done]; intros Hn Hk; destruct (Ht eq_refl Hn) as (raw' & rest' & n & [= <- <-] & Hv & Htk).
  destruct (Htk Hk) as (c & r & ? & ? & ?); exists n, c, r; split_and!; [|done..]; unfold request_nonce; by rewrite Em.
Qed.

(** ** Names drawn *)

Lemma named_raw i n raw id kind : supply i n = Some raw -> id = b64_string raw -> kind <> 1%nat -> named supply i (kind, id).
Proof using. intros Hs -> Hk; exists n, raw; split; [done|]; by rewrite bool_decide_eq_false_2. Qed.

Lemma named_code i n raw owner : supply i n = Some raw -> named supply i (code_name (preAuthorizedCodeKey owner (b64_string raw))).
Proof using. intros Hs; exists n, raw; split; [done|]; rewrite bool_decide_eq_true_2 by done; by exists owner. Qed.

Lemma raw_id_some raw id : raw_id raw = Some id -> exists b, raw = Some b /\ id = b64_string b.
Proof using. destruct raw as [b|]; [|done]; intros [= <-]; eauto. Qed.

Lemma part_IssueNotificationID iss auth c g mine : c ∈ calls ->
  (forall id r, t_Owner r = storeOwner iss -> t_ClientID r = AuthorizedRequest_ClientID auth -> t_Subject r = au_Subject auth -> genuine c (note_name id) (Note r)) ->
  part (fun _ g1 m => later g mine g1 m) (IssueNotificationID iss auth) g mine.
Proof using supply_inj supply_bytes keys_distinct.
  intros Hc Hgen; unfold IssueNotificationID; destruct (negb _); [apply later_refl|]; unfold when_none; destruct (requireClientIdentityDecision auth); [apply later_refl|].
  apply part_random; [done..|]; intros g1 i m Hl Hf; destruct (raw_id (supply i 32)) as [id|] eqn:Eid; [|done]; apply raw_id_some in Eid as (raw & Hraw & Hid).
  assert (Hgo : forall (f : World -> Z), part (fun _ g2 m2 => later g mine g2 m2) (Do (Ask f) (fun now => Do (NotificationIssue id {| t_Owner := storeOwner iss;
      t_ClientID := AuthorizedRequest_ClientID auth; t_Subject := au_Subject auth; t_ExpiresAt := now |}) (fun r =>
      match r with
      | Err e => Issuer.err (caused "issue notification id" [OfNotification e])
      | Ok _ => (r <- checkOwnerKept iss NotificationOwner (r <~ NotificationGet id; match r with Err e => Issuer.err (caused "" [OfNotification e]) | Ok saved => Issuer.ok (t_Owner saved) end);;
          match r with Err e => Issuer.err (wrapping "issue notification id" e) | Ok _ => Issuer.ok id end)%prog
      end))) g1 m); [|by destruct (0 <? _)].
  intros f; apply part_keeps; [by intros ? ? ? ? HI [= <- <-]|]; intros g2 s Hr HI; cbn [exec fst].
  pose proof (fresh_rely supply supply_inj supply_bytes keys_distinct _ _ _ _ Hr Hf) as Hf2.
  eapply (part_note_issue _ _ _ supply_inj supply_bytes keys_distinct _ i id c); [exact Hf2|by eapply named_raw|by apply Hgen|done|].
  intros g3 x Hl3 _; assert (Hl' : later g mine g3 m) by (eapply later_trans; [|exact Hl3]; by eapply later_trans, rely_later).
  destruct x as [[]|e]; [|done]; eapply part_plain; [done..| |intros a g4 m4 Hl4; by eapply later_trans].
  plain_tac; apply plain_checkOwnerKept; plain_tac.
Qed.

Lemma part_notification_for iss auth c g mine : c ∈ calls ->
  (forall id r, t_Owner r = storeOwner iss -> t_ClientID r = AuthorizedRequest_ClientID auth -> t_Subject r = au_Subject auth -> genuine c (note_name id) (Note r)) ->
  part (fun _ g1 m => later g mine g1 m) (notification_for iss auth) g mine.
Proof using supply_inj supply_bytes keys_distinct.
  intros Hc Hgen; unfold notification_for; destruct (IsZero _); [apply later_refl|]; apply part_bind; eapply part_weaken; [by eapply part_IssueNotificationID|].
  by intros [x|e] g1 m Hl.
Qed.

Lemma part_startDeferral iss auth req configID cc keys reference c g mine : c ∈ calls -> credential_call c = Some (iss, auth, req) ->
  resolveCredentialConfiguration iss auth req = Ok (configID, cc) -> au_Subject auth <> EmptyString ->
  part (fun _ g1 m => later g mine g1 m) (startDeferral iss auth configID keys reference) g mine.
Proof using supply_inj supply_bytes keys_distinct.
  intros Hc Hcall Hr Hs; unfold startDeferral; apply part_random; [done..|]; intros g1 i m Hl Hf.
  destruct (raw_id (supply i 32)) as [id|] eqn:Eid; [|done]; apply raw_id_some in Eid as (raw & Hraw & Hid).
  apply part_keeps; [by intros ? ? ? ? HI [= <- <-]|]; intros g2 s Hrel HI; cbn [exec fst].
  pose proof (fresh_rely supply supply_inj supply_bytes keys_distinct _ _ _ _ Hrel Hf) as Hf2.
  eapply (part_deferred_create _ _ _ supply_inj supply_bytes keys_distinct _ i id c); [exact Hf2|by eapply named_raw| |done|].
  - exists iss, auth, req; split; [done|]; exists configID, cc, keys, reference, (Clock (sh_world s) + DeferredTransactionLifetime (limits iss)); done.
  - intros g3 x Hl3 _; assert (Hl' : later g mine g3 m) by (eapply later_trans; [|exact Hl3]; by eapply later_trans, rely_later).
    destruct x as [[]|e]; [|done]; eapply part_plain; [done..| |intros a g4 m4 Hl4; by eapply later_trans].
    plain_tac; apply plain_checkOwnerKept; plain_tac.
Qed.

(** A Credential Request, before it is audited. *)
Lemma part_requestCredential iss auth req prepare c g mine : c ∈ calls -> credential_call c = Some (iss, auth, req) ->
  part (fun r g1 m => later g mine g1 m /\ (is_ok r = true -> took_nonce iss (request_nonce req) g1 m)) (requestCredential iss auth req prepare) g mine.
Proof using supply_inj supply_bytes keys_distinct.
  intros Hc Hcall; unfold requestCredential; apply part_bind; eapply part_weaken; [apply part_proved|].
  intros [[[configID cc] keys]|e] g1 m [Hl Hp]; [|done]; destruct (Hp _ _ _ eq_refl) as [Hauth Hn Hsub].
  assert (Hend : forall (r : res iss_error CredentialResponse) g2 m2, later g1 m g2 m2 -> later g mine g2 m2 /\ (is_ok r = true -> took_nonce iss (request_nonce req) g2 m2)).
  { intros r g2 m2 Hl2; split; [by eapply later_trans|intros _; by eapply took_nonce_later]. }
  apply part_bind; eapply (part_ends _ _ _ supply_inj supply_bytes keys_distinct _
    (fun r => forall req', r = Ok req' -> is_Some (cr_Defer req') -> au_Subject auth <> EmptyString)); [apply plain_prepared| |].
  - unfold prepared; destruct prepare as [f|]; [|by intros ? [= <-]]; intros [req'|e']; [|done]; unfold when_none.
    destruct (require_if_deferred iss auth req') eqn:Ed; [done|]; intros ? [= <-] [d Hd]; unfold require_if_deferred in Ed; rewrite Hd in Ed; cbn in Ed.
    by apply (requireDeferral_subject iss).
  - intros [req'|e] g2 m2 Hsub' Hl2; [|split; [by eapply later_trans|done]]; specialize (Hsub' req' eq_refl).
    destruct (cr_Defer req') as [reference|].
    + eapply part_weaken; [eapply part_startDeferral; [done..|by apply Hsub'; eexists]|]; intros r g3 m3 Hl3; apply Hend; by eapply later_trans.
    + apply part_then; [done..|apply plain_issueBatch|]; intros [credentials|e] g3 m3 Hl3; [|apply (Hend (Err e)); by eapply later_trans].
      apply part_bind; eapply part_weaken; [eapply (part_notification_for iss auth c); [done|]|].
      * intros id r Ho Hcl Hsu; left; exists iss, auth, req; done.
      * intros [n|e] g4 m4 Hl4; (eapply (Hend (Ok _)) || apply (Hend (Err e))); by eapply later_trans, later_trans.
Qed.

Lemma part_audit {A} Q iss t cl (r : res iss_error A) g mine : (forall g1 m, later g mine g1 m -> Q r g1 m) -> part Q (audit iss t cl r) g mine.
Proof using supply_inj supply_bytes keys_distinct.
  intros HQ; unfold audit; destruct (negb _); [apply HQ, later_refl|].
  apply part_op; [done..|]; intros g1 m now Hl; apply part_op; [done..|]; intros g2 m2 [] Hl2; apply HQ; by eapply later_trans.
Qed.

Lemma part_requestCredentialAudited iss auth req prepare c g mine : c ∈ calls -> credential_call c = Some (iss, auth, req) ->
  part (fun r g1 m => later g mine g1 m /\ (is_ok r = true -> took_nonce iss (request_nonce req) g1 m)) (requestCredentialAudited iss auth req prepare) g mine.
Proof using supply_inj supply_bytes keys_distinct.
  intros Hc Hcall; unfold requestCredentialAudited; apply part_bind; eapply part_weaken; [by eapply part_requestCredential|].
  intros r g1 m [Hl Hn]; apply part_audit; intros g2 m2 Hl2; split; [by eapply later_trans|]; intros Hr; eapply took_nonce_later; [done|by apply Hn].
Qed.

(** ** Deferred transactions *)

Lemma checkPending_none iss now r : checkPending iss now r = None -> d_Status r = DeferredTransactionPending.
Proof using. unfold checkPending; destruct (negb _); [done|]; by destruct (d_Status r). Qed.

Lemma part_denyPending iss id g mine :
  part (fun r g1 m => later g mine g1 m /\ (is_ok (snd r) = true -> DeferredDecided id ∈ m)) (denyPending iss id) g mine.
Proof using supply_inj supply_bytes keys_distinct.
  unfold denyPending; eapply (part_deferred_update _ _ _ _ id _ true).
  - intros w r r' y; destruct (checkPending iss (Clock w) r) eqn:Ep; [done|]; intros [= <- _]; pose proof (checkPending_none _ _ _ Ep) as Hp.
    assert (Hf : follows r (denied r)) by (by right).
    split_and!; [done| |done]; intros c; by apply genuine_follows.
  - intros g1 e y Hl; destruct e; by split.
  - intros g1 m y Hl Hd; split; [done|]; intros _; by apply Hd.
Qed.

Lemma part_abandonDeferral iss id g mine : part (fun _ g1 m => later g mine g1 m) (abandonDeferral iss id) g mine.
Proof using.
  unfold abandonDeferral; eapply (part_deferred_update _ _ _ _ id _ false).
  - intros w r r' y [= <- _]; assert (Hf : follows r (if is_pending (d_Status r) && owns iss (d_Owner r) then denied r else r)).
    { destruct (is_pending (d_Status r) && owns iss (d_Owner r)) eqn:E; [|by left]; right; split; [|done]; by destruct (d_Status r). }
    split_and!; [done| |done]; intros c; by apply genuine_follows.
  - by intros.
  - by intros.
Qed.

(** What is notified of a deferred credential is for the client it was deferred
    for. *)
Lemma deferred_note c0 c iss id content name record note : c0 ∈ calls -> genuine c0 name (Deferred record) ->
  c = CallIssueDeferred iss id content -> t_Owner note = storeOwner iss -> t_ClientID note = AuthorizedRequest_ClientID (deferredClient record) ->
  t_Subject note = au_Subject (deferredClient record) -> forall n, genuine c (note_name n) (Note note).
Proof using.
  intros Hc0 (iss0 & auth & req & Hcall & configID & cc & keys & reference & expires & _ & Hq & _) Hc Ho Hcl Hsu n; right.
  exists iss, id, content, c0, iss0, auth, req; injection Hq as _ Hq1 Hq2 _ _ _ _ _; split_and!; try done.
  - rewrite Hcl, <- Hq1; cbn; by destruct (String.eqb_spec (d_ClientID record) "") as [->|].
  - by rewrite Hsu.
Qed.

Lemma part_issueDeferredCredential iss id content g mine : CallIssueDeferred iss id content ∈ calls ->
  part (fun r g1 m => later g mine g1 m /\ (is_ok (snd r) = true -> DeferredDecided id ∈ m)) (issueDeferredCredential iss id content) g mine.
Proof using supply_inj supply_bytes keys_distinct.
  intros Hc; unfold issueDeferredCredential; apply part_bind.
  apply (part_weaken _ _ _ (fun r g1 m => later g mine g1 m /\ forall record, r = Ok record -> exists c0 name, c0 ∈ calls /\ genuine c0 name (Deferred record))).
  { unfold pendingDeferredTransaction, when_none; destruct (requireDeferredStore iss); [split; [apply later_refl|done]|]; apply part_deferred_get.
    - by intros.
    - intros g1 c0 r Hl _ Hc0 Hgen; apply part_op; [done..|]; intros g2 m now Hl2; assert (Hl3 : later g mine g2 m) by (by eapply later_trans).
      destruct (checkPending iss now r); split; try done; intros ? [= <-]; eauto. }
  intros [record|e] g1 m [Hl Hrec]; [|done]; destruct (Hrec record eq_refl) as (c0 & name & Hc0 & Hgen).
  destruct (CredentialConfigurationsSupported (cfg iss) !! d_ConfigurationID record) as [cc|]; [|done]; destruct (BindingKeys record) as [|raw raws]; [done|].
  destruct (parse_keys (raw :: raws)) as [keys|]; [|done]; apply part_then; [done..|apply plain_recheckDeferredTrust|].
  intros [e|] g2 m2 Hl2; pose proof (later_trans _ _ _ _ _ _ Hl Hl2) as Hl'.
  - destruct (negb _ && negb _); [done|]; apply part_bind; eapply part_weaken; [apply part_denyPending|].
    intros [cl r] g3 m3 [Hl3 _]; split; [by eapply later_trans|]; by destruct r.
  - apply part_bind; unfold issue_pending; apply part_then; [done..|apply plain_issueBatch|].
    intros [credentials|e] g3 m3 Hl3; [|split; [by eapply later_trans|done]]; pose proof (later_trans _ _ _ _ _ _ Hl' Hl3) as Hl4.
    apply part_bind; eapply part_weaken; [eapply (part_notification_for iss _ _ _ _ Hc)|].
    + intros n note Ho Hcl Hsu; by eapply (deferred_note c0 _ iss id content name record note).
    + intros [n|e] g4 m4 Hl5; [|split; [by eapply later_trans|done]]; pose proof (later_trans _ _ _ _ _ _ Hl4 Hl5) as Hl6.
      eapply (part_deferred_update _ _ _ _ id _ true).
      * intros w r r' y; destruct (checkPending iss (Clock w) r) eqn:Ep; [done|]; intros [= <- _]; pose proof (checkPending_none _ _ _ Ep) as Hp.
        assert (Hf : follows r (issued iss credentials n (Clock w) r)) by (by right).
        split_and!; [done| |done]; intros c; by apply genuine_follows.
      * intros g5 e y Hl7; destruct e; (split; [by eapply later_trans|done]).
      * intros g5 m5 y Hl7 Hd; split; [by eapply later_trans|]; intros _; by apply Hd.
Qed.

(** ** Codes *)

Lemma mint_configurations iss ids src i details : fst (mintAuthorizationDetails iss ids src i) = Ok details -> map ad_ConfigurationID details = ids.
Proof using.
  revert i details; induction ids as [|id ids IH]; intros i details; cbn [mintAuthorizationDetails]; [by intros [= <-]|].
  destruct (negb (supports iss id)); [done|]; unfold draw_bind, draw_bytes; destruct (raw_id (src i nonceEntropyBytes)) as [name|]; [|done].
  destruct (mintAuthorizationDetails iss ids src (S i)) as [r j] eqn:E; cbn; specialize (IH (S i)); rewrite E in IH; cbn in IH.
  destruct r as [ds|e]; [|done]; intros [= <-]; cbn; by rewrite (IH ds).
Qed.

Lemma find_none_forall {A} (f : A -> bool) l : List.find f l = None -> Forall (fun x => f x = false) l.
Proof using. induction l as [|x l IH]; cbn; [constructor|]; destruct (f x) eqn:E; [done|]; intros Hl; constructor; auto. Qed.

(** What accept accepts is granted; what it refuses is no wrong guess. *)
Lemma accepted_code iss requested now src i r b x : fst (accept_code iss requested now r src i) = (b, x) ->
  (forall details, x = Ok details -> granted iss r requested now details) /\ (b = is_ok x) /\ forall e, x = Err e -> e_is e = [].
Proof using.
  unfold accept_code; destruct (owns iss (c_Owner r)) eqn:Eo; cbn [negb]; [|by intros [= <- <-]; split_and!; [..|by intros e [= <-]]].
  unfold draw_bind; destruct (acceptPreAuthorizedCode iss r requested now src i) as [a j] eqn:Ea; cbn; intros [= <- <-].
  unfold acceptPreAuthorizedCode in Ea; destruct (Z.ltb_spec (c_ExpiresAt r) now); [injection Ea as <- _; split_and!; try done; by intros e [= <-]|].
  destruct (List.find _ _) eqn:Ef; [injection Ea as <- _; split_and!; try done; by intros e [= <-]|].
  assert (Hm : fst (mintAuthorizationDetails iss (default (CredentialConfigurationIDs r) requested) src i) = a) by (by rewrite Ea).
  split_and!; [|done|].
  - intros details ->; split_and!; [lia|by eapply mint_configurations|].
    apply find_none_forall in Ef; eapply Forall_impl; [exact Ef|]; intros id; cbn; by destruct (recordGrants iss r id).
  - clear -Hm; revert i a Hm; generalize (default (CredentialConfigurationIDs r) requested) as ids; intros ids; induction ids as [|id ids IH]; intros i a; cbn; [by intros <-|].
    destruct (negb _); [by intros <- e [= <-]|]; unfold draw_bind, draw_bytes; destruct (raw_id _); [|by intros <- e [= <-]].
    specialize (IH (S i)); destruct (mintAuthorizationDetails iss ids src (S i)) as [c k]; cbn; intros <- e; specialize (IH c eq_refl).
    destruct c; cbn; [done|]; intros [= ->]; by apply IH.
Qed.

Definition redeem_post (iss : Issuer) (req : ExchangeRequest) (r : res iss_error (PreAuthorizedCodeRecord * list AuthorizationDetail))
    (g : ghost (C:=request)) (m : list claim) : Prop :=
  match r with
  | Ok (record, _) => redeemed iss req record g m
  | Err e => wrong_guess e -> guessed iss req m
  end.

Lemma redeemed_later iss req record g m g1 m1 : later g m g1 m1 -> redeemed iss req record g m -> redeemed iss req record g1 m1.
Proof using.
  intros Hl (Hm & [c Hc] & Hh); split_and!; [by eapply later_mine|exists c; by eapply later_saved|done..].
Qed.

Lemma guessed_later iss req (g : ghost (C:=request)) m g1 m1 : later g m g1 m1 -> guessed iss req m -> guessed iss req m1.
Proof using. intros Hl (n & Hn & ?); exists n; split; [by eapply later_mine|done]. Qed.

Lemma part_consumePreAuthorizedCode iss req requested now g mine :
  part (fun r g1 m => later g mine g1 m /\ redeem_post iss req r g1 m) (consumePreAuthorizedCode iss req requested now) g mine.
Proof using supply_inj supply_bytes keys_distinct.
  unfold consumePreAuthorizedCode; apply part_code_consume.
  - intros g1 e n said Hl Hne Href; destruct e; try done; try (split; [done|]; cbn; unfold wrong_guess; cbn; set_solver).
    destruct (Href eq_refl) as (c & r & x & _ & [i Ha] & ->); pose proof (accepted_code _ _ _ _ _ _ _ _ Ha) as (_ & Hb & He).
    destruct x as [?|e]; [done|]; split; [done|]; cbn; unfold wrong_guess; rewrite (He e eq_refl); by intros ?%elem_of_nil.
  - intros g1 m c r n x Hl Hh Hw [i Ha] Hm; pose proof (accepted_code _ _ _ _ _ _ _ _ Ha) as (_ & Hb & _); destruct x as [details|e]; [|done].
    split; [done|]; split_and!; [done|by exists c|done].
  - intros g1 m c r n said Hl Hh Hn Hmax Hw Hm; assert (Hgs : forall g2 m2, later g1 m g2 m2 -> guessed iss req m2).
    { intros g2 m2 Hl2; exists n; split; [by eapply later_mine|done]. }
    assert (Hend : forall e, part (fun r g2 m2 => later g mine g2 m2 /\ redeem_post iss req r g2 m2) (Issuer.err e) g1 m).
    { intros e; split; [done|]; intros _; apply (Hgs g1 m), later_refl. }
    destruct (_ <=? _); [|by destruct (String.eqb _ _); apply Hend]; apply part_op; [done..|]; intros g2 m2 x Hl2.
    destruct x; (split; [by eapply later_trans|]; intros _; by apply (Hgs g2 m2)).
Qed.

(** RedeemPreAuthorizedCode, before it is audited. *)
Definition redeemed_post (iss : Issuer) (req : ExchangeRequest) (r : res iss_error RedeemedPreAuthorizedCode) (g : ghost (C:=request)) (m : list claim) : Prop :=
  match r with
  | Ok rd => redeemed iss req (rd_record rd) g m /\ rd_Subject rd = c_Subject (rd_record rd) /\ rd_Scope rd = Scopes (rd_record rd)
  | Err e => wrong_guess e -> guessed iss req m
  end.

Lemma redeemed_post_later iss req r g m g1 m1 : later g m g1 m1 -> redeemed_post iss req r g m -> redeemed_post iss req r g1 m1.
Proof using.
  intros Hl; destruct r as [rd|e]; cbn; [intros [? ?]; split; [by eapply redeemed_later|done]|intros Hg Hw; by eapply guessed_later, Hg].
Qed.

Lemma preAuthorizedBinding_plain iss req e : preAuthorizedBinding iss req = Err e -> e_is e = [].
Proof using. unfold preAuthorizedBinding; repeat case_match; by intros [= <-]. Qed.

Lemma requestedConfigurations_plain iss details e : requestedConfigurations iss details = Err e -> e_is e = [].
Proof using.
  unfold requestedConfigurations; destruct details as [|d details]; [done|]; intros Hr; assert (Hl : requested_loop iss 0 [] (d :: details) = Err e).
  { destruct (requested_loop iss 0 [] (d :: details)); [done|]; by injection Hr as ->. }
  clear Hr; revert Hl; generalize 0, (@nil string); induction (d :: details) as [|x l IH]; intros i ids; cbn; [done|].
  destruct (detail_problem iss ids x); [by intros [= <-]|apply IH].
Qed.

Lemma part_redeemPreAuthorizedCode iss req now g mine :
  part (fun r g1 m => later g mine g1 m /\ redeemed_post iss req (snd r) g1 m) (redeemPreAuthorizedCode iss req now) g mine.
Proof using supply_inj supply_bytes keys_distinct.
  assert (Hno : forall cl e, e_is e = [] -> part (fun r g1 m => later g mine g1 m /\ redeemed_post iss req (snd r) g1 m) (Return (cl : string, Err e : res iss_error RedeemedPreAuthorizedCode)) g mine).
  { intros cl e He; split; [apply later_refl|]; cbn; unfold wrong_guess; rewrite He; by intros ?%elem_of_nil. }
  unfold redeemPreAuthorizedCode; destruct (negb _); [by apply Hno|]; destruct (String.eqb _ _); [by apply Hno|].
  destruct (preAuthorizedBinding iss req) as [binding|e] eqn:Eb; [|by apply Hno, (preAuthorizedBinding_plain iss req)].
  destruct (requestedConfigurations iss (x_Details req)) as [requested|e] eqn:Er; [|by apply Hno, (requestedConfigurations_plain iss (x_Details req))].
  apply part_bind; eapply part_weaken; [apply part_consumePreAuthorizedCode|]; intros [[record details]|e] g1 m [Hl Hp]; split; done.
Qed.

Lemma part_RedeemPreAuthorizedCode iss req g mine :
  part (fun r g1 m => later g mine g1 m /\ redeemed_post iss req r g1 m) (RedeemPreAuthorizedCode iss req) g mine.
Proof using supply_inj supply_bytes keys_distinct.
  unfold RedeemPreAuthorizedCode; apply part_bind; apply (part_weaken _ _ _ (fun r g1 m => later g mine g1 m /\ redeemed_post iss req (snd r) g1 m)).
  - unfold redeemVerifiedPreAuthorizedCode; destruct (negb _); [split; [apply later_refl|by intros ?%elem_of_nil]|].
    apply part_op; [done..|]; intros g1 m now Hl; eapply part_weaken; [apply part_redeemPreAuthorizedCode|]; intros r g2 m2 [Hl2 Hp].
    split; [by eapply later_trans|done].
  - intros [cl r] g1 m [Hl Hp]; apply part_audit; intros g2 m2 Hl2; split; [by eapply later_trans|by eapply redeemed_post_later].
Qed.

Definition token_post (iss : Issuer) (req : ExchangeRequest) (r : res iss_error ExchangeResult) (g : ghost (C:=request)) (m : list claim) : Prop :=
  match r with
  | Ok x => exists record, redeemed iss req record g m /\ xr_Subject x = c_Subject record /\ xr_Scope x = Scopes record
  | Err e => wrong_guess e -> guessed iss req m
  end.

Lemma part_issue_token iss req now rd g mine : redeemed iss req (rd_record rd) g mine -> part (token_post iss req) (issue_token iss now rd) g mine.
Proof using supply_inj supply_bytes keys_distinct.
  intros Hr; assert (Htok : forall claims, part (token_post iss req) (Do (Ask (fun w => IssueAccessToken w iss (token_params iss now rd claims))) (fun token =>
      match token with
      | None => Issuer.err (failed "issue access token")
      | Some token => Issuer.ok {| xr_AccessToken := token; xr_ExpiresIn := AccessTokenLifetime (limits iss); xr_NextDPoPNonce := vt_NextDPoPNonce (rd_binding rd);
          xr_Details := rd_Details rd; xr_Subject := c_Subject (rd_record rd); xr_Scope := Scopes (rd_record rd) |}
      end)) g mine).
  { intros claims; apply part_op; [done..|]; intros g1 m token Hl; destruct token; [|by intros ?%elem_of_nil].
    exists (rd_record rd); split; [by eapply redeemed_later|done]. }
  unfold issue_token; destruct (rd_Details rd) eqn:Ed; [apply Htok|]; destruct (marshal_details _); [apply Htok|by intros ?%elem_of_nil].
Qed.

Lemma part_ExchangePreAuthorizedCode iss req g mine : part (token_post iss req) (ExchangePreAuthorizedCode iss req) g mine.
Proof using supply_inj supply_bytes keys_distinct.
  unfold ExchangePreAuthorizedCode; apply part_bind; apply (part_weaken _ _ _ (fun r g1 m => token_post iss req (snd r) g1 m)).
  - unfold exchangePreAuthorizedCode; destruct (_ && _); [by intros ?%elem_of_nil|]; apply part_op; [done..|]; intros g1 m now Hl.
    apply part_bind; eapply part_weaken; [apply part_redeemPreAuthorizedCode|]; intros [cl [rd|e]] g2 m2 [Hl2 Hp]; [|exact Hp].
    destruct Hp as (Hr & _ & _); apply part_bind; eapply part_weaken; [by apply part_issue_token|]; by intros.
  - intros [cl r] g1 m Hp; apply part_audit; intros g2 m2 Hl2; destruct r as [x|e]; cbn in *; [|intros Hw; by eapply guessed_later, Hp].
    destruct Hp as (record & ? & ?); exists record; split; [by eapply redeemed_later|done].
Qed.

Lemma part_RequestNonce iss g mine : CallNonce iss ∈ calls -> part (fun _ g1 m => later g mine g1 m) (RequestNonce iss) g mine.
Proof using supply_inj supply_bytes keys_distinct.
  intros Hc; unfold RequestNonce; destruct (IsZero _); [apply later_refl|]; apply part_bind.
  apply (part_weaken _ _ _ (fun _ g1 m => later g mine g1 m)).
  - unfold issueNonce; apply part_op; [done..|]; intros g1 m now Hl; destruct (NonceKeys (deps iss)).
    + apply part_random; [done..|]; intros g2 i m2 Hl2 Hf; destruct (raw_id (supply i nonceEntropyBytes)) as [n|] eqn:En; [|by eapply later_trans].
      apply raw_id_some in En as (raw & Hraw & Hn); eapply (part_nonce_issue _ _ _ supply_inj supply_bytes keys_distinct _ i n (CallNonce iss));
        [done|by eapply named_raw|by exists iss, now|done|]; intros g3 x Hl3 _; destruct x as [[]|e]; by eapply later_trans, later_trans.
    + apply part_op; [done..|]; intros g2 m2 random Hl2; destruct random; by eapply later_trans.
  - intros [n|e] g1 m Hl; [|done]; eapply part_plain; [done..|by plain_tac|]; intros a g2 m2 Hl2; by eapply later_trans.
Qed.

Lemma part_CreatePreAuthorizedOffer iss req g mine : CallPreAuthorizedOffer iss req ∈ calls ->
  part (fun _ g1 m => later g mine g1 m) (CreatePreAuthorizedOffer iss req) g mine.
Proof using supply_inj supply_bytes keys_distinct.
  intros Hc; unfold CreatePreAuthorizedOffer, when_none; repeat (case_match; [apply later_refl|]); apply part_random; [done..|]; intros g1 i m Hl Hf.
  destruct (raw_id (supply i 32)) as [code|] eqn:En; [|done]; apply raw_id_some in En as (raw & Hraw & Hn).
  destruct (validateCredentialOffer _ _ _); [|done]; apply part_keeps; [by intros ? ? ? ? HI [= <- <-]|]; intros g2 s Hrel HI; cbn [exec fst].
  pose proof (fresh_rely supply supply_inj supply_bytes keys_distinct _ _ _ _ Hrel Hf) as Hf2.
  assert (Hl2 : later g mine g2 m) by (by eapply later_trans, rely_later).
  apply part_bind; apply (part_weaken _ _ _ (fun _ g3 m3 => later g mine g3 m3)).
  - unfold storePreAuthorizedCode; set (r := with_code_owner _ _ _);
      eapply (part_code_issue _ _ _ supply_inj supply_bytes keys_distinct _ i _ (CallPreAuthorizedOffer iss req) r); [done|rewrite Hn; by eapply named_code| |done|].
    + exists iss, req, code, (Clock (sh_world s)); done.
    + intros g3 x Hl3 _; destruct x as [[]|e]; [|by eapply later_trans]; eapply part_plain; [done..| |intros ? g4 m4 Hl4; by eapply later_trans, later_trans].
      plain_tac; apply plain_checkOwnerKept, plain_read_back.
  - intros [[]|e] g3 m3 Hl3; [|done]; eapply part_plain; [done..|apply plain_createCredentialOffer|]; intros ? g4 m4 Hl4; by eapply later_trans.
Qed.

(** ** Collecting, and notifications *)

Lemma later_deferred g mine g1 m name (c : request) r : later g mine g1 m -> hist g !! name = Some (c, Deferred r) ->
  exists r', hist g1 !! name = Some (c, Deferred r') /\ follows r r'.
Proof using.
  intros Hl Hh; destruct (later_hist _ _ _ _ Hl _ _ _ Hh) as (it & Hh' & Hlive); destruct it as [| |r'|]; cbn in Hlive; try done; by exists r'.
Qed.

Lemma collected_later iss auth req res g m g1 m1 : later g m g1 m1 -> collected iss auth req res g m -> collected iss auth req res g1 m1.
Proof using.
  intros Hl (c & r & Hh & Ho & Ha & Hc); destruct (later_deferred _ _ _ _ _ _ _ Hl Hh) as (r' & Hh' & Hf); exists c, r'.
  assert (Hq : request_of r = request_of r') by (by apply follows_request); injection Hq as Q1 Q2 Q3 Q4 _ _ _ _.
  split_and!; [done|by rewrite <- Q1|by unfold deferredAuthorized, deferredOwner in *; rewrite <- Q2, <- Q3, <- Q4|].
  intros He; destruct (Hc He) as (Hs & Hcr & Hm); destruct Hf as [<-|[Hp _]]; [|congruence]; split_and!; [done..|by eapply later_mine].
Qed.

Lemma part_RequestDeferredCredential iss auth req g mine :
  part (fun r g1 m => forall res, r = Ok res -> collected iss auth req res g1 m) (RequestDeferredCredential iss auth req) g mine.
Proof using supply_inj supply_bytes keys_distinct.
  unfold RequestDeferredCredential; apply part_bind.
  apply (part_weaken _ _ _ (fun r g1 m => forall res, r = Ok res -> collected iss auth req res g1 m)).
  - unfold requestDeferredCredential, when_none; destruct (checkDeferredCredentialRequest iss auth req) eqn:Ec; [done|].
    assert (Hid : dq_TransactionID req <> EmptyString).
    { unfold checkDeferredCredentialRequest in Ec; destruct (negb _); [done|]; destruct (requireClientIdentityDecision auth); [done|].
      by destruct (String.eqb_spec (dq_TransactionID req) ""). }
    apply part_deferred_get; [by intros|]; intros g1 c r Hl Hh _ _; destruct (owns iss (d_Owner r)) eqn:Eo; cbn [negb]; [|done].
    apply part_op; [done..|]; intros g2 m now Hl2; destruct (deferredExpired now r); [done|].
    destruct (deferredAuthorized iss r auth) eqn:Ea; cbn [negb]; [|done]; destruct (later_deferred _ _ _ _ _ _ _ Hl2 Hh) as (r' & Hh' & Hf).
    assert (Hq : request_of r = request_of r') by (by apply follows_request); injection Hq as Q1 Q2 Q3 Q4 _ _ _ _.
    destruct (d_Status r) eqn:Es; [| |done].
    + intros ? [= <-]; exists c, r'; split_and!; [done|by rewrite <- Q1|by unfold deferredAuthorized, deferredOwner in *; rewrite <- Q2, <- Q3, <- Q4|].
      intros E; by destruct (Hid E).
    + destruct Hf as [<-|[Hp _]]; [|congruence]; apply part_deferred_invalidate; [by intros|]; intros g3 m3 Hl3 Hm ? [= <-].
      destruct (later_deferred _ _ _ _ _ _ _ Hl3 Hh') as (r'' & Hh'' & Hf'); destruct Hf' as [<-|[Hp _]]; [|congruence].
      exists c, r; split_and!; [done..|]; by intros _.
  - intros r g1 m Hp; apply part_audit; intros g2 m2 Hl res ->; by eapply collected_later, Hp.
Qed.

Lemma part_RequestNotification iss auth req g mine :
  part (fun r g1 m => is_ok r = true -> notified iss auth req g1) (RequestNotification iss auth req) g mine.
Proof using supply_inj supply_bytes keys_distinct.
  unfold RequestNotification, when_none; repeat (case_match; [done|]).
  apply part_note_get; [by intros g1 e; destruct e|]; intros g1 c r Hl Hh _ _; destruct (owns iss (t_Owner r)) eqn:Eo; cbn [negb]; [|done].
  apply part_op; [done..|]; intros g2 m now Hl2; destruct (_ && _); [done|]; destruct (other_client (t_ClientID r) (t_Subject r) auth) eqn:Ec; [done|].
  assert (Hn : forall g3 m3, later g2 m g3 m3 -> notified iss auth req g3).
  { intros g3 m3 Hl3; exists c, r; split_and!; [|done..]; eapply later_saved; [exact Hl3| |done]; by eapply later_saved. }
  case_match; [exact (fun _ => Hn g2 m (later_refl g2 m))|]; apply part_op; [done..|]; intros g3 m3 [|] Hl3; [exact (fun _ => Hn g3 m3 Hl3)|done].
Qed.

Lemma part_credentialResponse iss encode auth req prepare c g mine : c ∈ calls -> credential_call c = Some (iss, auth, req) ->
  part (fun r g1 m => is_ok r = true -> took_nonce iss (request_nonce req) g1 m) (credentialResponse iss encode auth req prepare) g mine.
Proof using supply_inj supply_bytes keys_distinct.
  intros Hc Hcall; unfold credentialResponse; apply part_bind; eapply part_weaken; [by eapply part_requestCredentialAudited|].
  intros [result|e] g1 m [Hl Ht]; [|done]; specialize (Ht eq_refl).
  destruct (match encode result with None => _ | Some _ => _ end) as [[encoded contentType]|e]; [by intros _|].
  apply part_bind; apply (part_weaken _ _ _ (fun _ _ _ => True)); [|by intros].
  destruct (String.eqb _ _); [done|]; eapply part_weaken; [apply part_abandonDeferral|done].
Qed.

(** ** Every call *)

Lemma request_ok c g : c ∈ calls -> part (promise c) (request_prog c) g [].
Proof using supply_inj supply_bytes keys_distinct.
  intros Hc; destruct c; cbn [request_prog]; apply part_bind.
  - eapply part_weaken; [by apply part_RequestNonce|by intros].
  - eapply part_plain; [done..| |by intros]; unfold CreateCredentialOffer; plain_tac; apply plain_createCredentialOffer.
  - eapply part_weaken; [by apply part_CreatePreAuthorizedOffer|by intros].
  - eapply part_plain; [done..| |by intros]; unfold GetCredentialOffer; plain_tac.
  - eapply part_weaken; [apply part_RedeemPreAuthorizedCode|]; intros [rd|e] g1 m [_ Hp]; exact Hp.
  - eapply part_weaken; [apply part_ExchangePreAuthorizedCode|]; intros [x|e] g1 m Hp; exact Hp.
  - eapply part_weaken; [by eapply part_requestCredentialAudited|]; intros [x|e] g1 m [_ Hp]; [by apply Hp|done].
  - eapply part_weaken; [by eapply part_credentialResponse|]; intros [x|e] g1 m Hp; [by apply Hp|done].
  - unfold IssueDeferredCredential; apply part_bind; eapply part_weaken; [by apply part_issueDeferredCredential|].
    intros [cl [[]|e]] g1 m [_ Hd]; apply part_audit; intros g2 m2 Hl; [|done]; eapply later_mine; [exact Hl|by apply Hd].
  - unfold DenyDeferredCredential; destruct (requireDeferredStore iss); [by apply part_audit|]; apply part_bind; eapply part_weaken; [apply part_denyPending|].
    intros [cl [[]|e]] g1 m [_ Hd]; apply part_audit; intros g2 m2 Hl; [|done]; eapply later_mine; [exact Hl|by apply Hd].
  - eapply part_weaken; [apply part_RequestDeferredCredential|]; intros [x|e] g1 m Hp; [by apply Hp|done].
  - eapply part_weaken; [apply part_RequestNotification|]; intros [x|e] g1 m Hp; [by apply Hp|done].
Qed.

End Calls.

(** ** An Issuer small enough to run *)

(** ** A digest that is its preimage, in bytes *)

Fixpoint pos_bits (p : positive) : bytes :=
  match p with xH => [] | xO p => 0 :: pos_bits p | xI p => 1 :: pos_bits p end.

(** A byte below 254 is itself. *)
Definition escaped (z : Z) : bytes := if (0 <=? z) && (z <? 254) then [z] else 254 :: pos_bits (countable.encode z) ++ [255].
Definition toy_digest (b : bytes) : bytes := flat_map escaped b.

Lemma pos_bits_bytes p : bytes_ok (pos_bits p).
Proof. induction p; cbn; by constructor. Qed.

Lemma pos_bits_inj p q s t : pos_bits p ++ 255 :: s = pos_bits q ++ 255 :: t -> p = q /\ s = t.
Proof.
  revert q; induction p as [p IH|p IH|]; intros [q|q|]; cbn; intros E; try discriminate E;
    try (injection E as E; apply IH in E as [-> ->]; done); by injection E as ->.
Qed.

Lemma escaped_inj x y s t : escaped x ++ s = escaped y ++ t -> x = y /\ s = t.
Proof.
  unfold escaped; destruct ((0 <=? x) && (x <? 254)) eqn:Ex, ((0 <=? y) && (y <? 254)) eqn:Ey; cbn; intros E.
  - by injection E.
  - injection E as -> _; by apply andb_true_iff in Ex as [_ ?%Z.ltb_lt].
  - injection E as <- _; by apply andb_true_iff in Ey as [_ ?%Z.ltb_lt].
  - injection E as E; rewrite <- !app_assoc in E; by apply pos_bits_inj in E as [?%(inj countable.encode) ?].
Qed.

Lemma toy_digest_inj a b : toy_digest a = toy_digest b -> a = b.
Proof.
  revert b; induction a as [|x a IH]; intros [|y b]; cbn; intros E; [done| | |].
  - exfalso; unfold escaped in E; by destruct (_ && _).
  - exfalso; unfold escaped in E; by destruct (_ && _).
  - apply escaped_inj in E as [-> E]; by rewrite (IH _ E).
Qed.

Lemma toy_digest_bytes b : bytes_ok (toy_digest b).
Proof.
  induction b as [|x b IH]; cbn; [by constructor|]; apply Forall_app; split; [|done]; unfold escaped.
  destruct (Z.leb_spec 0 x), (Z.ltb_spec x 254); cbn; repeat constructor; try lia; try (apply Forall_app; split; [apply pos_bits_bytes|]; by repeat constructor).
Qed.

Module IssuerExample.
Import CoseSigned.

Definition holder_key : bytes := replicate 32 11.

(** ** Texts *)

#[export] Instance codec : Codec := {| sum := fun _ s => string_bytes s; json_array := fun _ => None |}.

(** [1] is the proof's header, [5] the holder's JWK. *)
#[export] Instance json : JsonText := {|
  marshal_object := fun _ => Some [9];
  unmarshal_any := fun raw =>
    if bool_decide (raw = [1]) then Some (VObject [("alg", VString "EdDSA"); ("typ", VString "openid4vci-proof+jwt"); ("jwk", VObject [])])%string
    else if bool_decide (raw = [5]) then Some (VObject [("kty", VString "OKP")])%string else None;
  unmarshal_raws := fun _ => None |}.

#[export] Instance jwk_text : JwkText := {|
  unmarshal_jwk := fun raw => if bool_decide (raw = [5]) then Some (okp_jwk holder_key) else None;
  marshal_any := fun _ => Some [5]; Quote := fun s => (quote ++ s ++ quote)%string |}.

#[export] Instance attestation_text : AttestationText := {|
  std_base64 := fun _ => None; marshal_attestation := fun _ => None; unmarshal_attestation := fun _ => None; marshal_wallet := fun _ _ => None;
  unmarshal_wallet_extra := fun _ => None; marshal_jwk := fun _ => Some [5] |}.

#[export] Instance sd_lib : SdIssueLib := {|
  StdEncode := b64_string; StdDecode := fun _ => None; RawStdDecode := fun _ => None; uri_Parse := fun _ => None; simple_uris := fun _ => None;
  template_uris := fun _ => None |}.

#[export] Instance offer_text : OfferText := {|
  absolute_url := fun _ => true; marshal_offer := fun _ => Some "{}"%string; QueryEscape := fun s => s; JoinPath := fun u s => (u ++ "/" ++ s)%string |}.

#[export] Instance wire : WireLib := {|
  ParseMediaType := fun _ => None; jwe_DecodeHeader := fun _ => None; jwe_DecryptLimits := fun _ _ _ => None; jwe_Encrypt := fun _ _ _ _ _ => None;
  unmarshal_kid_alg := fun _ => None; unmarshal_credential_request := fun _ => None; unmarshal_deferred_request := fun _ => None;
  unmarshal_notification_request := fun _ => None |}.

#[export] Instance x509 : X509 := IssueExample.x509.
#[export] Instance rand : Rand := IssueExample.rand.
#[export] Instance curves : Curves := IssueExample.curves.
#[export] Instance mdoc_cbor : MdocCbor := IssueExample.mdoc_cbor.

(** ** The world: its clock *)

#[export] Instance world : IssuerWorld := {|
  World := Z; Clock := fun now => now; IssueAccessToken := fun _ _ _ => Some "token"%string; IssueDPoPNonce := fun _ _ => Some "dpop"%string;
  sha256 := toy_digest; hmac_sha256 := fun key message => key ++ message; marshal_details := fun _ => Some [1];
  quoted := fun s => (quote ++ s ++ quote)%string |}.

(** The source counts: its [i]-th draw, [i] ones. *)
Definition counting : random_source := fun i _ => Some (replicate i 1 ++ [0]).
Definition drawn_id (i : nat) : string := b64_string (replicate i 1 ++ [0]).

(** [2] is the proof's body, with the first draw for its c_nonce. *)
#[export] Instance proof_world : ProofWorld := {|
  ResolveAttestationKey := fun _ _ _ _ => Err []; ResolveProofBindingKey := fun _ _ _ _ => Err []; CheckAttestationStatus := fun _ _ _ => None;
  unmarshal_proof := fun raw => if bool_decide (raw = [2])
    then Some {| pb_Iss := ""; pb_Aud := "https://issuer.example"; pb_Iat := Some (float_of_int 1000); pb_Nonce := drawn_id 0 |} else None |}.

#[export] Instance issue_world : IssueWorld := {|
  RandomInts := fun _ _ _ _ => Some 0; crypto_salts := fun _ _ => Some "salt"%string; crypto_rand := fun _ => []; identifier_draws := 0;
  status_list_text := fun _ => ""%string; identifier_list_text := fun _ => ""%string; Sprint := fun _ => ""%string |}.

(** ** The Issuer *)

Definition https (u : string) : option fapi_URL := Some {| u_String := u; u_Scheme := "https"; u_Suffix := false |}.

Definition pid : CredentialConfiguration := {|
  cc_Format := SdJwtFormat; cc_Scope := "pid"; CryptographicBindingMethodsSupported := ["jwk"]; CredentialSigningAlgValuesSupported := ["EdDSA"];
  ProofTypesSupported := {["jwt" := {| ProofSigningAlgValuesSupported := ["EdDSA"]; KeyAttestationsRequired := None |}]};
  cc_VCT := "urn:eudi:pid:1"; cc_DocType := ""; CredentialSigningAlgValuesSupportedCOSE := []; cc_CredentialMetadata := None; cc_TypeMetadata := None |}%string.

Definition kept_store : store_dep := Some (Some {| Durable := true; AtomicConsume := true |}).

Definition issuer : Issuer := {|
  i_cfg := {|
    i_Assurance := Some AssuranceProduction; PreAuthorizedCodeClientAuthentication := Some VerifiedPreAuthorizedCode; i_Issuer := https "https://issuer.example";
    AllowAttestationProofType := false; AuthorizationServers := [];
    i_Endpoints := {| ep_Credential := https "https://issuer.example/credential"; ep_Nonce := https "https://issuer.example/nonce";
      ep_DeferredCredential := https "https://issuer.example/deferred"; ep_Notification := None |};
    i_Limits := {| NonceLifetime := 300 * Second; CredentialOfferLifetime := 0; DeferredIssuancePollInterval := 5 * Second;
      DeferredTransactionLifetime := 86400 * Second; AccessTokenLifetime := 300 * Second; MaxTxCodeAttempts := 3; MaxProofAge := 0; NotificationLifetime := 0 |};
    CredentialConfigurationsSupported := {["pid" := pid]}; CredentialOfferEndpoint := None; NoAttestationStatusCheck := false;
    RequestEncryption := None; ResponseEncryption := None; i_Display := []; BatchSize := None |};
  i_deps := {|
    Nonces := kept_store; Nonces_spender := false; NonceKeys := []; CredentialDPoPNonces := false; Clock_system := true; Random_set := true;
    Random_reader := true;
    d_SDJWTSigner := Some {| sj_Signer := Some key; sj_Alg := "EdDSA"; sj_KeyID := "k"; sj_IssuerCertificate := None; sj_IssuerIntermediates := [];
      sj_Decoys := None; sj_NestedDecoys := None; sj_has_Equal := true |};
    d_MdocSigner := None; AttestationVerifier := None; AttestationStatus := None; ProofBindingKeys := None; CredentialOffers := None;
    DeferredTransactions := kept_store; Notifications := None; NotificationHandler := false; PreAuthorizedCodes := kept_store; AccessTokens := true;
    Audit := true |};
  i_serial := 0 |}%string.

(** ** Its calls *)

Definition offer : CreatePreAuthorizedOfferRequest := {|
  p_ConfigurationIDs := ["pid"]; p_Scopes := []; p_CredentialIdentifiers := true; p_Subject := "alice"; p_TxCode := "493536"; p_NoTxCode := false;
  p_TxCodeDescription := ""; p_Lifetime := 3600 * Second; p_AuthorizationServer := ""; p_ByReference := false |}%string.

(** The code is the second draw. *)
Definition redeem_with (txCode : string) : ExchangeRequest := {|
  x_PreAuthorizedCode := drawn_id 1; x_TxCode := txCode;
  x_Verified := Some {| vt_ClientID := "wallet"; DPoPThumbprint := "thumb"; vt_NextDPoPNonce := "" |}; x_Details := [] |}%string.

Definition compact (k header payload : bytes) : string :=
  let signed := (b64_string header ++ "." ++ b64_string payload)%string in
  (signed ++ "." ++ b64_string (toy_signature k (string_bytes signed)))%string.

Definition proof : string := compact holder_key [1] [2].

(** With the identifier the token response gave, the third draw. *)
Definition authorized : AuthorizedRequest := {|
  au_ClientIdentity := Some (KnownClientID "wallet"); au_Subject := "alice"; au_Scopes := [];
  au_Details := [{| ad_Type := AuthorizationDetailsTypeOpenIDCredential; ad_ConfigurationID := "pid"; CredentialIdentifiers := [drawn_id 2];
    Locations := []; ad_Claims := [] |}] |}%string.

Definition claims : SdIssue.Claims := {|
  VCT := "urn:eudi:pid:1"; AkaVCTs := None; Iss := ""; Nbf := None; Exp := None; VCTIntegrity := ""; Status := None; CNF := None;
  Additional := [] |}%string.

Definition asks : CredentialRequest := {|
  cr_ConfigurationID := ""; cr_Identifier := drawn_id 2; cr_ResolvedConfigurationID := ""; cr_AuthorizedClaims := [];
  cr_Proofs := {["jwt" := [proof]]}; cr_SDJWTClaims := None; cr_MdocClaims := None; cr_PerCredential := None; cr_PerBatch := None;
  cr_Defer := Some "case-7"; cr_ResponseEncryption := None; cr_RequestWasEncrypted := false |}%string.

Definition content : DeferredIssuance := {| di_SDJWTClaims := Some claims; di_MdocClaims := None; di_PerCredential := None; di_PerBatch := None |}.

(** The transaction is the fourth draw. *)
Definition collect : DeferredCredentialRequest := {| dq_TransactionID := drawn_id 3; dq_ResponseEncryption := None; dq_RequestWasEncrypted := false |}.

Definition served : list request := [
  CallNonce issuer; CallPreAuthorizedOffer issuer offer; CallExchange issuer (redeem_with "000000"); CallExchange issuer (redeem_with "493536");
  CallExchange issuer (redeem_with "493536"); CallCredential issuer authorized asks None; CallCredential issuer authorized asks None;
  CallCollect issuer authorized collect; CallIssueDeferred issuer (drawn_id 3) content; CallDenyDeferred issuer (drawn_id 3);
  CallCollect issuer authorized collect; CallCollect issuer authorized collect].

Definition start : shared (NS:=MemNonceStore) (CS:=MemPreAuthorizedCodeStore) (DS:=MemDeferredTransactionStore) (TS:=MemNotificationStore)
    (OS:=MemCredentialOfferStore) := {|
  sh_nonces := pm_empty; sh_codes := {| c_issued := pm_empty; c_attempts := ∅ |}; sh_deferred := {| d_records := pm_empty; d_invalidated := ∅ |};
  sh_notifications := pm_empty; sh_offers := pm_empty; sh_world := 1000 * Second; sh_random := counting; sh_drawn := 0; sh_kept := []; sh_audit := [];
  sh_handler := fun _ => true |}.

Definition outcomes : list outcome := (run_list exec (map request_prog served) start).1.
Definition stopped : shared := (run_list exec (map request_prog served) start).2.
End IssuerExample.
