(* ===== verification/IssuerNonce.v ===== *)
(** * Stateless c_nonces: [issuer]'s stateless_nonce.go

    Which strings [openStatelessNonce] opens: exactly those that, but for line
    breaks, encode a body one of the keys tagged for the owner.  So what
    [statelessNonce] makes opens, to the second; and so does the same with a
    line break in it, which the store has not seen spent. *)
From S2P Require Import Prelude B64Url Json DcqlQuery DcqlValues Text JwtDate Jws X509 CertChain Cose Prog Reasons SdJwt SdIssue CredentialOffer IssuerStores IssuerConfig Issuer IssuerSafe IssuerCalls.
From Stdlib Require Import Ascii.
#[local] Open Scope Z_scope.

Section Nonces.
Context `{IssuerWorld} `{!OfferText}.

(** What StrictDecode reads of a string. *)
Definition no_breaks (s : string) : bytes := List.filter (fun c => negb (line_break c)) (string_bytes s).

Definition tagged (keys : list bytes) (owner : string) (body tag : bytes) : Prop := exists key, key ∈ keys /\ tag = statelessNonceTag key owner body.

Definition nonce_expiry (body : bytes) : Z := be_value (slice body 0 8).

Lemma open_loop_some keys owner body tag exp :
  open_loop keys owner body tag = Some exp <-> tagged keys owner body tag /\ nonce_expiry body <= maxUnixSeconds /\ exp = nonce_expiry body * Second.
Proof using.
  unfold tagged, nonce_expiry; induction keys as [|key keys IH]; cbn [open_loop].
  - split; [done|]; by intros ((k & ?%elem_of_nil & _) & _).
  - case_bool_decide as Ht.
    + destruct (Z.ltb_spec maxUnixSeconds (be_value (slice body 0 8))); split; try done; [lia|intros [= <-]; split_and!; [|lia|done]|by intros (_ & _ & ->)].
      exists key; split; [by left|done].
    + rewrite IH; split; intros ((k & Hk & E) & Hrest); (split; [|done]); exists k; (split; [|done]); [by right|].
      by apply elem_of_cons in Hk as [->|?].
Qed.

(** What opens, and to what. *)
Definition opens (keys : list bytes) (owner nonce : string) (exp : Z) : Prop :=
  exists body tag, blen body = 24 /\ blen tag = 32 /\ bytes_ok (body ++ tag) /\ tagged keys owner body tag /\
    no_breaks (TrimPrefix statelessNoncePrefix nonce) = EncodeToString (body ++ tag) /\
    nonce_expiry body <= maxUnixSeconds /\ exp = nonce_expiry body * Second.

Lemma opens_open keys owner nonce exp : opens keys owner nonce exp -> openStatelessNonce keys owner nonce = Some exp.
Proof using.
  intros (body & tag & Hb & Ht & Hok & Htag & E & Hm & ->); unfold openStatelessNonce, StrictDecode; fold (no_breaks (TrimPrefix statelessNoncePrefix nonce)).
  rewrite E, b64url_decode_encode by done.
  assert (Hl : blen (body ++ tag) = statelessNonceBytes) by (rewrite blen_app, Hb, Ht; done); rewrite Hl; cbn [negb Z.eqb].
  assert (Hs : slice (body ++ tag) 0 24 = body) by (rewrite <- Hb; apply slice_app_l).
  assert (Hs' : slice (body ++ tag) 24 statelessNonceBytes = tag).
  { rewrite <- Hl, slice_suffix by lia; change (Z.to_nat 24) with 24%nat; rewrite drop_app_length'; [done|unfold blen in Hb; lia]. }
  rewrite Hs, Hs'; by apply open_loop_some.
Qed.

(** Opening a stateless c_nonce, exactly: a string opens, to an expiry, if and only if what follows its prefix, line breaks aside, is the unpadded base64url of 24 bytes and the 32-byte tag one of the keys gives them for this owner, and the expiry is the first 8 of them, in seconds, no later than the year 9999. *)
Theorem openStatelessNonce_exact keys owner nonce exp : openStatelessNonce keys owner nonce = Some exp <->
  exists body tag, blen body = 24 /\ blen tag = 32 /\ bytes_ok (body ++ tag) /\ tagged keys owner body tag /\
    no_breaks (TrimPrefix statelessNoncePrefix nonce) = EncodeToString (body ++ tag) /\
    nonce_expiry body <= maxUnixSeconds /\ exp = nonce_expiry body * Second.
Proof using.
  split; [|apply opens_open]; unfold openStatelessNonce, StrictDecode; fold (no_breaks (TrimPrefix statelessNoncePrefix nonce)).
  destruct (DecodeString _) as [raw|] eqn:E; [|done]; apply b64url_canonical in E as [E Hok]; destruct (Z.eqb_spec (blen raw) statelessNonceBytes) as [Hl|]; [|done].
  cbn [negb]; intros (Ht & Hm & ->)%open_loop_some; change statelessNonceBytes with 56 in *; exists (slice raw 0 24), (slice raw 24 56).
  assert (Hraw : raw = slice raw 0 24 ++ slice raw 24 56) by (rewrite slice_app by lia; rewrite <- Hl; symmetry; apply slice_full).
  rewrite <- Hraw; split_and!; [rewrite slice_length; lia|rewrite slice_length; lia|done..].
Qed.

(** ** What it issues opens *)

Lemma prefixed_eq s : (statelessNoncePrefix ++ s)%string = String "s" (String "1" (String "." s)).
Proof using. done. Qed.

Lemma TrimPrefix_app s : TrimPrefix statelessNoncePrefix (statelessNoncePrefix ++ s) = s.
Proof using. unfold TrimPrefix; rewrite prefix_app; apply substring_app. Qed.

Lemma stateless_split nonce : isStatelessNonce nonce = true -> exists s, nonce = (statelessNoncePrefix ++ s)%string.
Proof using. apply prefix_split. Qed.

Lemma no_breaks_app s t : no_breaks (s ++ t) = no_breaks s ++ no_breaks t.
Proof using.
  unfold no_breaks; rewrite <- List.filter_app; f_equal; induction s as [|c s IH]; [done|]; rewrite append_cons.
  unfold string_bytes in *; cbn; by f_equal.
Qed.

Lemma no_breaks_b64 raw : no_breaks (b64_string raw) = EncodeToString raw.
Proof using.
  assert (Hf : Forall (fun c => isAlphabet c = true) (EncodeToString raw)) by apply encode_quanta_alphabet.
  unfold no_breaks, b64_string; rewrite string_of_bytes.
  - induction Hf as [|c l Hc _ IH]; cbn [List.filter]; [done|]; rewrite IH; replace (line_break c) with false; [done|]; symmetry.
    unfold line_break; apply orb_false_iff; split; apply Z.eqb_neq; intros ->; by vm_compute in Hc.
  - eapply Forall_impl; [exact Hf|]; intros c Hc; apply char_digit in Hc as [E Hd]; rewrite <- E; unfold char_of, byte_ok; clear E; revert Hd; generalize (digit_of c); intros d Hd.
    destruct (Z.ltb_spec d 26), (Z.ltb_spec d 52), (Z.ltb_spec d 62), (d =? 62); lia.
Qed.

(** A c_nonce an Issuer makes without keeping it opens, under any keys that include the one it was made with, for the same owner, to the expiry it was made with, to the second. *)
Theorem statelessNonce_opens keys key owner random exp : key ∈ keys -> blen random = 16 -> bytes_ok random ->
  (forall m, blen (hmac_sha256 key m) = 32 /\ bytes_ok (hmac_sha256 key m)) -> 0 <= exp / Second <= maxUnixSeconds ->
  openStatelessNonce keys owner (statelessNonce random key owner exp) = Some (exp / Second * Second).
Proof using.
  intros Hk Hl Hok Hmac Hexp; unfold statelessNonce; set (body := be_bytes 8 (wrap64 (exp / Second)) ++ random).
  assert (Hv : nonce_expiry body = exp / Second).
  { unfold nonce_expiry, body; change 8 with (blen (be_bytes 8 (wrap64 (exp / Second)))) at 1; rewrite slice_app_l, be_value_bytes.
    unfold wrap64, maxUnixSeconds in *; rewrite Z.mod_mod by done; apply Z.mod_small; lia. }
  apply opens_open; exists body, (statelessNonceTag key owner body); rewrite TrimPrefix_app, no_breaks_b64, Hv; split_and!; try lia; try done.
  - unfold body; rewrite blen_app, be_bytes_blen, Hl; done.
  - apply Hmac.
  - apply Forall_app; split; [apply Forall_app; split; [apply be_bytes_ok|done]|apply Hmac].
  - by exists key.
Qed.

(** A line break after it, and what it opens to is the same. *)
Lemma opens_with_break keys owner nonce : isStatelessNonce nonce = true ->
  openStatelessNonce keys owner (nonce ++ char_string "010") = openStatelessNonce keys owner nonce.
Proof using.
  intros [s ->]%stateless_split; unfold openStatelessNonce, StrictDecode; rewrite <- append_assoc, !TrimPrefix_app.
  fold (no_breaks (s ++ char_string "010")); fold (no_breaks s); by rewrite no_breaks_app, app_nil_r.
Qed.

Context {CS DS TS OS : Type} `{!PreAuthorizedCodeStore CS} `{!DeferredTransactionStore DS} `{!NotificationStore TS} `{!CredentialOfferStore OS}.

(** C40: A c_nonce kept nowhere is spent by its string, and a line break in it makes another string of the same c_nonce: over the in-memory store, consumeNonce takes one that opens and has not expired, and then takes it again with a line break after it. *)
Theorem stateless_nonce_respent iss nonce exp (s : shared (NS:=MemNonceStore) (CS:=CS) (DS:=DS) (TS:=TS) (OS:=OS)) :
  isStatelessNonce nonce = true -> openStatelessNonce (NonceKeys (deps iss)) (storeOwner iss) nonce = Some exp ->
  sh_now s <= exp <= sh_now s + NonceLifetime (limits iss) ->
  pm_map (sh_nonces s) !! nonce = None -> pm_map (sh_nonces s) !! (nonce ++ char_string "010")%string = None ->
  let (first, s1) := run exec (consumeNonce iss nonce) s in
  first = Ok tt /\ fst (run exec (consumeNonce iss (nonce ++ char_string "010")%string) s1) = Ok tt.
Proof using.
  intros Hst Hopen Hexp Hnew Hnew'; assert (Hst' : isStatelessNonce (nonce ++ char_string "010") = true).
  { destruct (stateless_split _ Hst) as [t ->]; rewrite <- append_assoc, prefixed_eq; unfold isStatelessNonce, statelessNoncePrefix; cbn; by destruct (t ++ _)%string. }
  assert (Hk : exists k ks, NonceKeys (deps iss) = k :: ks).
  { unfold openStatelessNonce in Hopen; destruct (NonceKeys (deps iss)) as [|k ks]; [|eauto]; repeat case_match; done. }
  destruct Hk as (k & ks & Hk); assert (Hspend : forall n (st : shared (NS:=MemNonceStore) (CS:=CS) (DS:=DS) (TS:=TS) (OS:=OS)), isStatelessNonce n = true -> sh_now st = sh_now s ->
    openStatelessNonce (NonceKeys (deps iss)) (storeOwner iss) n = Some exp -> pm_map (sh_nonces st) !! n = None ->
    exists st', run exec (consumeNonce iss n) st = (Ok tt, st') /\ sh_now st' = sh_now s /\
      forall m, m <> n -> pm_map (sh_nonces st) !! m = None -> pm_map (sh_nonces st') !! m = None).
  { clear Hnew Hnew'; intros n st Hn Hnow Ho Hfree; unfold consumeNonce; rewrite Hn, Hk; unfold spendStatelessNonce; rewrite Ho; cbn [run exec].
    change (Clock (sh_world st)) with (sh_now st); rewrite Hnow, (proj2 (Z.ltb_ge _ _)), (proj2 (Z.ltb_ge _ _)) by lia; cbn [run exec].
    rewrite Hnow; cbn [Nonce_Spend MemNonceStore_store]; unfold mem_Nonce_Spend; rewrite Hfree; eexists; split; [done|]; split; [done|].
    intros m Hm Hfm; cbn; rewrite lookup_insert_ne by done; destruct (pm_map (pm_prune _ _ _) !! m) eqn:E; [|done].
    by rewrite (lookup_weaken _ _ _ _ E (pm_prune_sub _ _ _)) in Hfm. }
  destruct (Hspend nonce s Hst eq_refl Hopen Hnew) as (s1 & -> & Hnow & Hfree); split; [done|].
  destruct (Hspend (nonce ++ char_string "010")%string s1) as (s2 & -> & _); [done|done|by rewrite opens_with_break| |done].
  apply Hfree; [|done]; intros E; apply (f_equal slen) in E; rewrite slen_app in E; change (slen (char_string "010")) with 1 in E; lia.
Qed.
End Nonces.

(** ** A c_nonce made, opened, spent and spent again *)

Module NonceExample.
Import CoseSigned.
#[export] Instance x509 : X509 := IssuerExample.x509.
#[export] Instance offer_text : OfferText := IssuerExample.offer_text.

Definition toy_mac (k m : bytes) : bytes := be_bytes 32 (foldl (fun h c => (31 * h + c) mod 2 ^ 32) 7 (k ++ m)).

#[export] Instance world : IssuerWorld := {|
  World := Z; Clock := fun now => now; IssueAccessToken := fun _ _ _ => None; IssueDPoPNonce := fun _ _ => None; sha256 := fun b => b;
  hmac_sha256 := toy_mac; marshal_details := fun _ => None; quoted := fun s => s |}.

Definition nonce_key : bytes := replicate 32 1.
Definition random : bytes := replicate 16 2.

Definition with_keys (d : Dependencies) (keys : list bytes) : Dependencies := {|
  Nonces := Nonces d; Nonces_spender := true; NonceKeys := keys; CredentialDPoPNonces := CredentialDPoPNonces d; Clock_system := Clock_system d;
  Random_set := Random_set d; Random_reader := Random_reader d; d_SDJWTSigner := d_SDJWTSigner d; d_MdocSigner := d_MdocSigner d;
  AttestationVerifier := AttestationVerifier d; AttestationStatus := AttestationStatus d; ProofBindingKeys := ProofBindingKeys d;
  CredentialOffers := CredentialOffers d; DeferredTransactions := DeferredTransactions d; Notifications := Notifications d;
  NotificationHandler := NotificationHandler d; PreAuthorizedCodes := PreAuthorizedCodes d; AccessTokens := AccessTokens d; Audit := Audit d |}.

Definition issuer : Issuer := {|
  i_cfg := i_cfg IssuerExample.issuer; i_deps := with_keys (i_deps IssuerExample.issuer) [nonce_key]; i_serial := 0 |}.

Definition nonce : string := statelessNonce random nonce_key (storeOwner issuer) (1300 * Second).

Definition start : shared (NS:=MemNonceStore) (CS:=MemPreAuthorizedCodeStore) (DS:=MemDeferredTransactionStore) (TS:=MemNotificationStore)
    (OS:=MemCredentialOfferStore) := {|
  sh_nonces := pm_empty; sh_codes := {| c_issued := pm_empty; c_attempts := ∅ |}; sh_deferred := {| d_records := pm_empty; d_invalidated := ∅ |};
  sh_notifications := pm_empty; sh_offers := pm_empty; sh_world := 1000 * Second; sh_random := fun _ _ => None; sh_drawn := 0; sh_kept := [];
  sh_audit := []; sh_handler := fun _ => true |}.
End NonceExample.

Section Example.
Import CoseSigned NonceExample.

Lemma statelessNonce_opens_witness : openStatelessNonce [nonce_key] (storeOwner issuer) nonce = Some (1300 * Second).
Proof.
  apply (statelessNonce_opens [nonce_key] nonce_key (storeOwner issuer) random (1300 * Second)); [by left|done|by apply Forall_replicate| |by vm_compute].
  intros m; split; [apply (be_bytes_blen 32)|apply be_bytes_ok].
Defined.

Lemma stateless_nonce_respent_witness : nonce <> (nonce ++ char_string "010")%string /\
  let (first, s1) := run exec (consumeNonce issuer nonce) start in
  first = Ok tt /\ fst (run exec (consumeNonce issuer (nonce ++ char_string "010")%string) s1) = Ok tt.
Proof.
  split; [by vm_compute|]; apply (stateless_nonce_respent issuer nonce (1300 * Second) start); by vm_compute.
Defined.
End Example.
