(* ===== verification/IssuerTogether.v ===== *)
(** * An Issuer's calls together

    What [IssuerCalls] shows of each call, of all of them: any calls, on stores
    that start empty, stopped anywhere.  What a store holds is what a call put
    there; a code is redeemed once, for what it was offered for, and guessed at
    no more often than the Issuer lets it; a c_nonce is taken once; a deferred
    credential is decided once and collected once, by the client it is for. *)
From S2P Require Import Prelude B64Url Json DcqlQuery DcqlValues Text JwtDate Jws X509 CertChain Hkdf Cose Mdoc MdocVerified MdocIssue Jwk Prog Reasons.
From S2P Require Import SdJwt SdVerify SdIssue CredentialStatus Attestation CredentialOffer IssuerStores IssuerConfig Issuer IssuerSafe IssuerProofs IssuerEncryption CredentialEndpoint IssuerCalls.
From stdpp Require Import pretty.
From Stdlib Require Import Ascii.
#[local] Open Scope Z_scope.

(** ** Codes' keys

    A length before each part: no two owners and codes make one text. *)

Lemma pretty_N_digits c s x : (forall d, pretty_N_char d <> c) -> absent c s = true -> absent c (pretty_N_go x s) = true.
Proof.
  intros Hc; revert s; induction (N.lt_wf_0 x) as [x _ IH]; intros s Hs; destruct (decide (0 < x)%N) as [Hx|Hx].
  - rewrite pretty_N_go_step by done; apply IH; [by apply N.div_lt|]; cbn [absent]; rewrite Hs, andb_true_r, negb_true_iff.
    by apply Ascii.eqb_neq.
  - replace x with 0%N by lia; by rewrite pretty_N_go_0.
Qed.

Lemma pretty_N_char_range d : pretty_N_char d ∈ ["0"; "1"; "2"; "3"; "4"; "5"; "6"; "7"; "8"; "9"]%char.
Proof. unfold pretty_N_char; repeat case_match; set_solver. Qed.

Lemma pretty_Z_absent (z : Z) : 0 <= z -> absent ":" (pretty z) = true.
Proof.
  intros Hz; destruct z as [|p|p]; [done| |lia]; change (absent ":" (pretty_N_go (N.pos p) "") = true); apply pretty_N_digits; [|done].
  intros d Hd; pose proof (pretty_N_char_range d) as Hr; rewrite Hd in Hr; set_solver.
Qed.

Lemma cut_prefixed (part rest : string) : cut ":" (length_prefixed part ++ rest)%string = Some (pretty (slen part), (part ++ rest)%string).
Proof.
  apply cut_some; split; [by unfold length_prefixed; rewrite <- !append_assoc|apply pretty_Z_absent; unfold slen; lia].
Qed.

Lemma append_inj (a b s t : string) : String.length a = String.length b -> (a ++ s)%string = (b ++ t)%string -> a = b /\ s = t.
Proof.
  revert b; induction a as [|c a IH]; intros [|d b]; cbn; try done; intros [= Hl] [= -> Hs]; destruct (IH b Hl Hs) as [-> ->]; done.
Qed.

Lemma length_prefixed_inj a b s t : (length_prefixed a ++ s)%string = (length_prefixed b ++ t)%string -> a = b /\ s = t.
Proof.
  intros E; pose proof (cut_prefixed a s) as Ha; rewrite E, cut_prefixed in Ha; injection Ha as Hlen Hs.
  apply (inj pretty) in Hlen; apply append_inj; [unfold slen in Hlen; lia|done].
Qed.

Section Together.
Context `{Codec} `{JsonText} `{IssuerWorld} `{!OfferText} `{!CoseKeys} `{!CborLib} `{!MdocCbor} `{!Curves} `{!JwkText} `{!AttestationText}
  `{!ProofWorld} `{!Rand} `{!SdIssueLib} `{!WireLib} `{!IssueWorld}.
Context {NS CS DS TS OS : Type}
  `{!NonceStore NS} `{!PreAuthorizedCodeStore CS} `{!DeferredTransactionStore DS} `{!NotificationStore TS} `{!CredentialOfferStore OS}
  `{!NonceStoreLaws NS} `{!PreAuthorizedCodeStoreLaws CS} `{!DeferredTransactionStoreLaws DS} `{!NotificationStoreLaws TS}.

#[local] Abbreviation state := (shared (NS:=NS) (CS:=CS) (DS:=DS) (TS:=TS) (OS:=OS)).

(** Of SHA-256: it gives bytes, and no two texts hashed here collide. *)
Record digest_of_texts : Prop := {
  digest_bytes : forall b, bytes_ok (sha256 b);
  digest_distinct : forall a b, sha256 a = sha256 b -> a = b
}.

Lemma preAuthorizedCodeKey_inj o o' a b : digest_of_texts -> preAuthorizedCodeKey o a = preAuthorizedCodeKey o' b -> o = o' /\ a = b.
Proof using.
  intros [Hb Hd] E; unfold preAuthorizedCodeKey in E; apply (f_equal b64_decode) in E; rewrite !b64_decode_string in E by apply Hb.
  injection E as E; apply Hd, (f_equal bytes_string) in E; rewrite !bytes_of_string in E.
  apply length_prefixed_inj in E as [-> E]; split; [done|]; assert (E' : (length_prefixed a ++ "")%string = (length_prefixed b ++ "")%string) by (by rewrite E).
  by apply length_prefixed_inj in E' as [-> _].
Qed.

(** Calls served: from stores with nothing in them, and a random source that
    does not repeat itself. *)
Record issuing (cs : list request) (s : state) (ps : list (prog op outcome)) (s' : state) : Prop := {
  issuing_nonces : nonces (sh_nonces s) = ∅;
  issuing_codes : codes (sh_codes s) = ∅;
  issuing_codes_ok : codes_ok (sh_codes s);
  issuing_deferred : transactions (sh_deferred s) = ∅;
  issuing_notes : notifications (sh_notifications s) = ∅;
  issuing_random : forall a b n m raw, sh_random s a n = Some raw -> sh_random s b m = Some raw -> a = b;
  issuing_bytes : forall a n raw, sh_random s a n = Some raw -> bytes_ok raw;
  issuing_digest : digest_of_texts;
  issuing_steps : rtc (step exec_rel around) (map request_prog cs, s) (ps, s')
}.

Definition ended (cs : list request) (ps : list (prog op outcome)) (i : nat) (c : request) (o : outcome) : Prop :=
  cs !! i = Some c /\ ps !! i = Some (Return o).

#[local] Abbreviation all_together cs s := (together exec_rel (inv cs (genuine cs) (sh_random s)) (trans (sh_random s)) log promise).

Lemma issuing_together cs s ps s' : issuing cs s ps s' -> exists g claims, all_together cs s cs ps s' g claims.
Proof using.
  intros [Hn Hc Hok Hd Ht Hr Hb Hdig Hsteps]; assert (Hk : forall o o' a b, preAuthorizedCodeKey o a = preAuthorizedCodeKey o' b -> o = o' /\ a = b).
  { intros o o' a b; by apply preAuthorizedCodeKey_inj. }
  eapply interleaved; [|exact Hsteps|..].
  - intros g s1 s2; apply issuer_inv_around.
  - instantiate (1 := {| hist := ∅; log := [] |}); split; cbn [hist log]; try done.
    + intros n r; by rewrite Hn.
    + intros k r a; by rewrite Hc.
    + intros id r; by rewrite Hd.
    + intros id r; by rewrite Ht.
    + constructor.
    + by intros ? ?%elem_of_nil.
    + by intros t name ?%elem_of_nil.
  - constructor.
  - by rewrite length_map.
  - intros i c p Hi Hp; rewrite list_lookup_fmap, Hi in Hp; injection Hp as <-; apply request_ok; [done..|].
    by eapply list_elem_of_lookup_2.
Qed.

(** What a call that has ended promised, with what it has used up. *)
Lemma issuing_ended cs s ps s' i c o : issuing cs s ps s' -> ended cs ps i c o -> exists g claims mine,
  all_together cs s cs ps s' g claims /\ claims !! i = Some mine /\ exists g0, later g0 mine g mine /\ promise c o g0 mine.
Proof using.
  intros Hs [Hc Hp]; destruct (issuing_together _ _ _ _ Hs) as (g & claims & Ht).
  destruct (together_ended _ _ _ _ _ _ _ _ _ _ _ _ _ Ht Hc Hp) as (g0 & mine & Hr & Hm & Hprom); exists g, claims, mine; split_and!; [done..|].
  exists g0; split; [by eapply rely_later|done].
Qed.

(** What two calls both promise to have used up, one call did. *)
Lemma issuing_claim cs s ps s' i j c c' o o' t : issuing cs s ps s' -> ended cs ps i c o -> ended cs ps j c' o' ->
  (forall g mine, promise c o g mine -> t ∈ mine) -> (forall g mine, promise c' o' g mine -> t ∈ mine) -> i = j.
Proof using.
  intros Hs [Hi Hpi] [Hj Hpj] H_1 H_2; destruct (issuing_together _ _ _ _ Hs) as (g & claims & Ht).
  destruct (together_ended _ _ _ _ _ _ _ _ _ _ _ _ _ Ht Hi Hpi) as (g0 & mine & _ & Hm & Hp).
  destruct (together_ended _ _ _ _ _ _ _ _ _ _ _ _ _ Ht Hj Hpj) as (g1 & mine' & _ & Hm' & Hp').
  by eapply together_exclusive; [exact Ht|exact Hm|exact Hm'|eapply H_1|eapply H_2].
Qed.

(** Something saved, by a call that may save it. *)
Lemma saved_genuine cs s ps s' g claims g0 mine name c it : issuing cs s ps s' -> all_together cs s cs ps s' g claims -> later g0 mine g mine ->
  hist g0 !! name = Some (c, it) -> exists it', lives it it' /\ genuine cs c name it' /\ c ∈ cs.
Proof using.
  intros Hs Ht Hl Hh; destruct (later_hist _ _ _ _ Hl _ _ _ Hh) as (it' & Hh' & Hlive).
  destruct (inv_hist _ _ _ _ _ (together_inv _ _ _ _ _ _ _ _ _ _ Ht) _ _ _ Hh') as (? & ? & _); by exists it'.
Qed.

(** ** Pre-authorized codes *)

(** A call that redeemed a code: of which Issuer, by which request. *)
Definition redeems (c : request) (o : outcome) : option (Issuer * ExchangeRequest * list AuthorizationDetail * string * list string) :=
  match c, o with
  | CallRedeem iss req, GotRedeemed (Ok rd) => Some (iss, req, rd_Details rd, rd_Subject rd, rd_Scope rd)
  | CallExchange iss req, GotToken (Ok x) => Some (iss, req, xr_Details x, xr_Subject x, xr_Scope x)
  | _, _ => None
  end.

Lemma redeems_promise c o iss req details subject scope g mine : redeems c o = Some (iss, req, details, subject, scope) -> promise c o g mine ->
  exists record, redeemed iss req record g mine.
Proof using.
  destruct c; cbn; try done; destruct o as [|[rd|]|[x|]| | | | |]; cbn; try done; intros [= <- <- <- <- <-]; [intros (? & ? & ?); eauto|].
  intros (record & ? & ?); eauto.
Qed.

(** C13: A pre-authorized code is redeemed once: of all the calls that ended, at any Issuers sharing stores, interleaved as they may, with the stores failing and dropping what they like, at most one redeemed it. *)
Theorem code_redeemed_once cs s ps s' i j c c' o o' iss iss' req req' d d' t t' l l' : issuing cs s ps s' -> ended cs ps i c o -> ended cs ps j c' o' ->
  redeems c o = Some (iss, req, d, t, l) -> redeems c' o' = Some (iss', req', d', t', l') ->
  storeOwner iss = storeOwner iss' -> x_PreAuthorizedCode req = x_PreAuthorizedCode req' -> i = j.
Proof using.
  intros Hs Hi Hj R1 R2 Ho Hc; eapply (issuing_claim cs s ps s' i j c c' o o' (CodeRedeemed (code_key iss req))); [done..| |].
  - intros g mine Hp; by destruct (redeems_promise _ _ _ _ _ _ _ _ _ R1 Hp) as (record & Hm & _).
  - intros g mine Hp; destruct (redeems_promise _ _ _ _ _ _ _ _ _ R2 Hp) as (record & Hm & _); unfold code_key in *; by rewrite Ho, Hc.
Qed.

(** What a call that redeemed a code has done, in a trace. *)
Lemma redeems_done c o iss req details subject scope past : redeems c o = Some (iss, req, details, subject, scope) -> has_done c past o ->
  exists record, redeeming iss req record details past /\ subject = c_Subject record /\ scope = Scopes record.
Proof using.
  destruct c; cbn; try done; destruct o as [|[rd|]|[x|]| | | | |]; cbn; try done; intros [= <- <- <- <- <-] Hp; [|by apply Hp].
  destruct (Hp rd eq_refl) as (? & ? & ?); eauto.
Qed.

(** What each call of a run may do, it did, and what it came to it has done. *)
Lemma issuing_traced cs s ps s' tr : issuing cs s ps s' -> traced exec_rel around (map request_prog cs, s) tr (ps, s') ->
  (forall i c o, ended cs ps i c o -> has_done c (did i tr) o) /\
  forall i e before after, tr = after ++ (i, e) :: before -> consumed_issued before e /\ exists c, cs !! i = Some c /\ issues_as c (did i before) e.
Proof using NonceStoreLaws0 PreAuthorizedCodeStoreLaws0 DeferredTransactionStoreLaws0 NotificationStoreLaws0.
  intros Hs Ht; destruct (traced_codes _ _ _ Ht (issuing_codes _ _ _ _ Hs) (issuing_codes_ok _ _ _ _ Hs)) as [_ Hcons].
  destruct (traced_along exec_rel around (fun i past e => exists c, cs !! i = Some c /\ issues_as c past e)
    (fun i past o => forall c, cs !! i = Some c -> has_done c past o) _ _ _ _ Ht) as [Hend Hdid].
  - intros i p Hi; rewrite list_lookup_fmap in Hi; destruct (cs !! i) as [c|] eqn:Ec; [injection Hi as <-|done].
    assert (HG : forall A (R Q : list (event op) -> A -> Prop) (p : prog op A) past, (forall past a, R past a -> Q past a) ->
      along (issues_as c) R p past -> along (fun past e => exists c', Some c = Some c' /\ issues_as c' past e) Q p past).
    { intros A R Q p past HRQ; revert past; induction p as [a|X op0 k IH]; intros past; cbn [along]; [apply HRQ|].
      intros Hk x; destruct (Hk x); split; [by exists c|by apply IH]. }
    eapply HG; [|apply along_request]; by intros past o Ho ? [= <-].
  - split; [|intros i e before after E; split; [by eapply Hcons|by eapply Hdid]].
    intros i c o [Hi Hp]; exact (Hend i _ Hp c Hi).
Qed.

(** An offer grants a configuration: one it lists the identifiers of, or one of
    a scope it has. *)
Definition offer_grants (iss : Issuer) (req : CreatePreAuthorizedOfferRequest) (id : string) : Prop :=
  p_CredentialIdentifiers req = true /\ id ∈ p_ConfigurationIDs req \/ scope_of iss id <> EmptyString /\ scope_of iss id ∈ p_Scopes req.

Lemma in_list_in s l : in_list s l = true <-> s ∈ l.
Proof using.
  unfold in_list; rewrite existsb_exists; split; [intros (x & Hx & ->%String.eqb_eq); by apply list_elem_of_In|].
  intros Hl; exists s; split; [by apply list_elem_of_In|apply String.eqb_refl].
Qed.

Lemma recordGrants_offered iss iss0 req0 code now id : recordGrants iss (offered_code iss0 req0 code now) id = true -> offer_grants iss req0 id.
Proof using.
  unfold recordGrants; cbn [offered_code CredentialConfigurationIDs Scopes]; intros [Hl|[He Hl]%andb_true_iff]%orb_true_iff; apply in_list_in in Hl.
  - left; destruct (p_CredentialIdentifiers req0); [done|]; by apply elem_of_nil in Hl.
  - right; split; [|done]; by apply negb_true_iff, String.eqb_neq in He.
Qed.

Lemma requested_spelled iss details requested : requestedConfigurations iss details = Ok requested ->
  requested = match details with [] => None | asked => Some (map ad_ConfigurationID asked) end.
Proof using.
  assert (Hl : forall l i ids out, requested_loop iss i ids l = Ok out -> out = ids ++ map ad_ConfigurationID l).
  { induction l as [|d l IH]; intros i ids out; cbn [requested_loop map]; [intros [= <-]; by rewrite app_nil_r|].
    destruct (detail_problem iss ids d); [done|]; intros Ho; rewrite (IH _ _ _ Ho); by rewrite <- app_assoc. }
  unfold requestedConfigurations; destruct details as [|d l]; [by intros [= <-]|]; intros (out & Ho & [= <-])%res_bind_ok; by rewrite (Hl _ _ _ _ Ho).
Qed.

(** C3: A redeemed code is one that a call of this run to CreatePreAuthorizedOffer, of an Issuer with the redeeming one's identifier, drew and had saved before it was consumed, redeemed before it expired (the redeeming call, before it had the code consumed, read a time no later than the time the offering call read before it had the code saved, and the offer's lifetime), with the Transaction Code the offer was made with (by its HMAC); what is granted is the offer's subject and scopes, and, one each, the configurations asked for, all of which the offer grants by its list or by their scope, or else, where none is asked for, all the offer lists. *)
Theorem redeemed_as_offered cs s ps s' tr i c o iss req details subject scope : issuing cs s ps s' ->
  traced exec_rel around (map request_prog cs, s) tr (ps, s') -> ended cs ps i c o -> redeems c o = Some (iss, req, details, subject, scope) ->
  exists requested answer before after j iss0 req0 raw made saved t1 t2 now,
    tr = after ++ (i, consumes iss req requested now answer) :: before /\ (i, Event (Ask Clock) now) ∈ before /\
    before = t2 ++ (j, Event (CodeIssue (preAuthorizedCodeKey (storeOwner iss) (b64_string raw)) (offered_code iss0 req0 (b64_string raw) made)) saved) :: t1 /\
    cs !! j = Some (CallPreAuthorizedOffer iss0 req0) /\ storeOwner iss0 = storeOwner iss /\
    (j, Event (Random 32) (Some raw)) ∈ t1 /\ (j, Event (Ask Clock) made) ∈ t1 /\
    x_PreAuthorizedCode req = b64_string raw /\ now <= made + p_Lifetime req0 /\
    txCodeHash (b64_string raw) (x_TxCode req) = txCodeHash (b64_string raw) (p_TxCode req0) /\ subject = p_Subject req0 /\ scope = p_Scopes req0 /\
    map ad_ConfigurationID details = match x_Details req with
      | [] => if p_CredentialIdentifiers req0 then p_ConfigurationIDs req0 else []
      | asked => map ad_ConfigurationID asked
      end /\
    Forall (fun d => offer_grants iss req0 (ad_ConfigurationID d)) (x_Details req).
Proof using NonceStoreLaws0 PreAuthorizedCodeStoreLaws0 DeferredTransactionStoreLaws0 NotificationStoreLaws0.
  intros Hs Ht He Hr; destruct (issuing_traced _ _ _ _ _ Hs Ht) as [Hdone Hdid].
  destruct (redeems_done _ _ _ _ _ _ _ _ Hr (Hdone _ _ _ He)) as (record & (now & requested & n & p1 & p2 & Hreq & Hp & Hnow) & -> & ->).
  destruct (did_split _ _ _ _ _ Hp) as (before & after & -> & <-); destruct (Hdid _ _ _ _ eq_refl) as [Hcons _].
  destruct (Hcons _ _ _ eq_refl) as (Htx & (src & k & Hacc) & j & saved & Hin); apply list_elem_of_split in Hin as (t2 & t1 & ->).
  destruct (Hdid j _ t1 (after ++ _ :: t2) ltac:(by rewrite <- app_assoc)) as (_ & c0 & Hc0 & iss0 & req0 & raw & made & -> & Hkey & -> & Hraw & Hmade).
  apply preAuthorizedCodeKey_inj in Hkey as [Ho Hcode]; [|by eapply issuing_digest]; apply accepted_code in Hacc as [Hg _].
  destruct (Hg details eq_refl) as (Hin & Hmap & Hall); apply requested_spelled in Hreq as ->.
  do 7 eexists; exists raw, made, saved, t1, t2, now; rewrite <- Hcode, <- Ho in *; split_and!; try done; try by apply did_in.
  - rewrite Hmap; by destruct (x_Details req).
  - destruct (x_Details req) as [|d l]; [done|]; cbn [default from_option id] in Hall; apply Forall_map in Hall; eapply Forall_impl; [exact Hall|].
    intros d'; apply recordGrants_offered.
Qed.

(** A call told its Transaction Code is wrong. *)
Definition told_wrong (c : request) (o : outcome) : option (Issuer * ExchangeRequest) :=
  match c, o with
  | CallRedeem iss req, GotRedeemed (Err e) | CallExchange iss req, GotToken (Err e) =>
      if errors_Is e (OfCode ErrWrongTxCode) then Some (iss, req) else None
  | _, _ => None
  end.

Lemma told_wrong_promise c o iss req g mine : told_wrong c o = Some (iss, req) -> promise c o g mine -> guessed iss req mine.
Proof using.
  destruct c; cbn; try done; destruct o as [|[|e]|[|e]| | | | |]; try done; unfold errors_Is; case_bool_decide as Hw; try done;
    intros [= <- <-] Hp; by apply Hp.
Qed.

(** C14: Guesses at a Transaction Code are bounded: however calls race, no more of them than the Issuer's MaxTxCodeAttempts are ever told that their Transaction Code for one code is wrong. *)
Theorem guesses_bounded cs s ps s' (owner code : string) (most : Z) (guesses : list nat) : issuing cs s ps s' -> 0 < most -> NoDup guesses ->
  (forall i, i ∈ guesses -> exists c o iss req, ended cs ps i c o /\ told_wrong c o = Some (iss, req) /\ storeOwner iss = owner /\
    x_PreAuthorizedCode req = code /\ MaxTxCodeAttempts (limits iss) = most) -> blen guesses <= most.
Proof using.
  intros Hs Hmost Hnd Hall; destruct (issuing_together _ _ _ _ Hs) as (g & claims & Ht); set (key := preAuthorizedCodeKey owner code).
  assert (Hf : exists f : nat -> Z, forall i, i ∈ guesses -> 1 <= f i <= most /\ exists mine, claims !! i = Some mine /\ CodeGuessed key (f i) ∈ mine).
  { assert (Hone : forall i, i ∈ guesses -> exists n, 1 <= n <= most /\ exists mine, claims !! i = Some mine /\ CodeGuessed key n ∈ mine).
    { intros i Hi; destruct (Hall i Hi) as (c & o & iss & req & [Hc Hp] & Hw & Ho & Hcode & Hmax).
      destruct (together_ended _ _ _ _ _ _ _ _ _ _ _ _ _ Ht Hc Hp) as (g0 & mine & _ & Hm & Hprom).
      destruct (told_wrong_promise _ _ _ _ _ _ Hw Hprom) as (n & Hn & H_1 & H_2); exists n; rewrite Hmax in H_2; split; [lia|].
      exists mine; split; [done|]; unfold code_key in Hn; by rewrite Ho, Hcode in Hn. }
    clear -Hone; induction guesses as [|i l IH]; [exists (fun _ => 0); by intros i ?%elem_of_nil|].
    destruct IH as [f Hf]; [intros j Hj; apply Hone; by right|]; destruct (Hone i) as (n & Hn & Hi); [by left|].
    exists (fun j => if decide (j = i) then n else f j); intros j Hj; destruct (decide (j = i)) as [->|Hne]; [done|].
    apply Hf; by apply elem_of_cons in Hj as [?|?]. }
  destruct Hf as [f Hf]; assert (Hnd' : NoDup (f <$> guesses)).
  { apply NoDup_fmap_2_strong; [|done]; intros i j Hi Hj E; destruct (Hf i Hi) as (_ & m1 & Hm1 & Hin1), (Hf j Hj) as (_ & m2 & Hm2 & Hin2).
    rewrite E in Hin1; by eapply together_exclusive; [exact Ht|exact Hm1|exact Hm2|exact Hin1|exact Hin2]. }
  assert (Hsub : (f <$> guesses) ⊆ seqZ 1 most).
  { intros z [i [-> Hi]]%list_elem_of_fmap; apply elem_of_seqZ; destruct (Hf i Hi) as [Hz _]; lia. }
  pose proof (submseteq_length _ _ (NoDup_submseteq _ _ Hnd' Hsub)) as Hlen; rewrite length_fmap, length_seqZ in Hlen; unfold blen; lia.
Qed.

(** ** What the stores hold *)

(** C15: The Issuer's stores, always: whatever calls interleave, wherever they stop, and whatever the stores drop, every record in them is one a call of this run may save: a c_nonce RequestNonce issued for its owner; a code's record as the offer made it, under its owner's key; a transaction as its Credential Request asked for it, but for its outcome; a notification's of the client and subject of the Credential Request it is of. *)
Theorem stores_genuine cs s ps s' : issuing cs s ps s' ->
  (forall n r, nonces (sh_nonces s') !! n = Some r -> isStatelessNonce n = true \/ exists c, c ∈ cs /\ genuine cs c (nonce_name n) (Nonce r)) /\
  (forall k r a, codes (sh_codes s') !! k = Some (r, a) -> exists c, c ∈ cs /\ genuine cs c (code_name k) (Code r)) /\
  (forall id r, transactions (sh_deferred s') !! id = Some r -> exists c, c ∈ cs /\ genuine cs c (deferred_name id) (Deferred r)) /\
  (forall id r, notifications (sh_notifications s') !! id = Some r -> exists c, c ∈ cs /\ genuine cs c (note_name id) (Note r)).
Proof using.
  intros Hs; destruct (issuing_together _ _ _ _ Hs) as (g & claims & Ht); pose proof (together_inv _ _ _ _ _ _ _ _ _ _ Ht) as HI.
  assert (Hh : forall name c it, hist g !! name = Some (c, it) -> exists c, c ∈ cs /\ genuine cs c name it).
  { intros name c it Hn; destruct (inv_hist _ _ _ _ _ HI _ _ _ Hn) as (? & ? & _); by exists c. }
  split_and!.
  - intros n r Hn; destruct (inv_nonces _ _ _ _ _ HI _ _ Hn) as [?|(c & Hc & _)]; [by left|right; by eapply Hh].
  - intros k r a Hk; destruct (inv_codes _ _ _ _ _ HI _ _ _ Hk) as (c & Hc & _); by eapply Hh.
  - intros id r Hk; destruct (inv_deferred _ _ _ _ _ HI _ _ Hk) as (c & Hc & _); by eapply Hh.
  - intros id r Hk; destruct (inv_notes _ _ _ _ _ HI _ _ Hk) as (c & Hc); by eapply Hh.
Qed.

(** ** c_nonces *)

(** A Credential Request that was answered, with credentials or a deferral. *)
Definition answered (c : request) (o : outcome) : option (Issuer * CredentialRequest) :=
  match c, o with
  | CallCredential iss _ req _, GotCredentials (Ok _) | CallRespond iss _ _ req _, GotResponded (Ok _) => Some (iss, req)
  | _, _ => None
  end.

Lemma answered_promise c o iss req g mine : answered c o = Some (iss, req) -> promise c o g mine -> took_nonce iss (request_nonce req) g mine.
Proof using. destruct c; cbn; try done; destruct o as [| | |[|]|[|]| | |]; try done; by intros [= <- <-]. Qed.

(** Whose c_nonces are kept in the store. *)
Definition kept_nonces (iss : Issuer) : Prop := nonce_endpoint iss = true /\ NonceKeys (deps iss) = [].

(** C5: Proofs are not replayed: of all the Credential Requests answered, at any Issuers that keep their c_nonces, no two had proofs with the same c_nonce, however they raced. *)
Theorem proof_nonce_once cs s ps s' i j c c' o o' iss iss' req req' : issuing cs s ps s' -> ended cs ps i c o -> ended cs ps j c' o' ->
  answered c o = Some (iss, req) -> answered c' o' = Some (iss', req') -> kept_nonces iss -> kept_nonces iss' ->
  request_nonce req = request_nonce req' -> i = j.
Proof using.
  intros Hs [Hi Hpi] [Hj Hpj] A1 A2 [E1 K1] [E2 K2] Hn; destruct (issuing_together _ _ _ _ Hs) as (g & claims & Ht).
  destruct (together_ended _ _ _ _ _ _ _ _ _ _ _ _ _ Ht Hi Hpi) as (g0 & mine & _ & Hm & Hp).
  destruct (together_ended _ _ _ _ _ _ _ _ _ _ _ _ _ Ht Hj Hpj) as (g1 & mine' & _ & Hm' & Hp').
  destruct (answered_promise _ _ _ _ _ _ A1 Hp E1 K1) as (n & ? & ? & Hn1 & H_1 & _), (answered_promise _ _ _ _ _ _ A2 Hp' E2 K2) as (n' & ? & ? & Hn2 & H_2 & _).
  assert (n' = n) as -> by congruence; by eapply together_exclusive; [exact Ht|exact Hm|exact Hm'|exact H_1|exact H_2].
Qed.

(** A Credential Request is answered only if its proofs have a c_nonce that a Nonce Request of this run had issued for an owner the Issuer answers for. *)
Theorem proof_nonce_issued cs s ps s' i c o iss req : issuing cs s ps s' -> ended cs ps i c o -> answered c o = Some (iss, req) -> kept_nonces iss ->
  exists iss0 n, CallNonce iss0 ∈ cs /\ owns iss (storeOwner iss0) = true /\ request_nonce req = Some n.
Proof using.
  intros Hs He Ha [E K]; destruct (issuing_ended _ _ _ _ _ _ _ Hs He) as (g & claims & mine & Ht & Hm & g0 & Hl & Hp).
  destruct (answered_promise _ _ _ _ _ _ Ha Hp E K) as (n & c0 & r & Hn & _ & Hh & Ho).
  destruct (saved_genuine _ _ _ _ _ _ _ _ _ _ _ Hs Ht Hl Hh) as (it & Hlive & Hgen & Hin); destruct it; cbn in Hlive; try done; injection Hlive as ->.
  destruct Hgen as (iss0 & now & -> & Hown & _); exists iss0, n; by rewrite <- Hown.
Qed.

(** ** Deferred credentials *)

Definition collects (c : request) (o : outcome) : option (Issuer * AuthorizedRequest * string * DeferredCredentialResult) :=
  match c, o with CallCollect iss auth req, GotCollected (Ok res) => Some (iss, auth, dq_TransactionID req, res) | _, _ => None end.

Lemma collects_promise c o iss auth id res g mine : collects c o = Some (iss, auth, id, res) -> promise c o g mine ->
  exists req, dq_TransactionID req = id /\ collected iss auth req res g mine.
Proof using. destruct c; cbn; try done; destruct o as [| | | | | |[|]|]; try done; intros [= <- <- <- <-]; by eexists. Qed.

Definition decides (c : request) (o : outcome) : option string :=
  match c, o with CallIssueDeferred _ id _, GotDecided (Ok _) | CallDenyDeferred _ id, GotDecided (Ok _) => Some id | _, _ => None end.

(** A deferred credential is handed over once: of all the Deferred Credential Requests for one transaction, at most one was answered with its credentials (the rest are told to ask again, or refused). *)
Theorem deferred_collected_once cs s ps s' i j c c' o o' iss iss' auth auth' id res res' : issuing cs s ps s' -> ended cs ps i c o -> ended cs ps j c' o' ->
  collects c o = Some (iss, auth, id, res) -> collects c' o' = Some (iss', auth', id, res') ->
  dr_TransactionID res = EmptyString -> dr_TransactionID res' = EmptyString -> i = j.
Proof using.
  intros Hs Hi Hj C1 C2 T1 T2; eapply (issuing_claim cs s ps s' i j c c' o o' (DeferredCollected id)); [done..| |]; intros g mine Hp.
  - destruct (collects_promise _ _ _ _ _ _ _ _ C1 Hp) as (req & <- & ? & ? & _ & _ & _ & Hc); by apply Hc.
  - destruct (collects_promise _ _ _ _ _ _ _ _ C2 Hp) as (req & <- & ? & ? & _ & _ & _ & Hc); by apply Hc.
Qed.

(** A deferred issuance is decided once: of the calls that issue or deny one transaction, at most one succeeds. *)
Theorem deferred_decided_once cs s ps s' i j c c' o o' id : issuing cs s ps s' -> ended cs ps i c o -> ended cs ps j c' o' ->
  decides c o = Some id -> decides c' o' = Some id -> i = j.
Proof using.
  intros Hs Hi Hj D1 D2; eapply (issuing_claim cs s ps s' i j c c' o o' (DeferredDecided id)); [done..| |]; intros g mine Hp.
  - destruct c; try done; destruct o as [| | | | |[|]| |]; try done; cbn in D1; by injection D1 as <-.
  - destruct c'; try done; destruct o' as [| | | | |[|]| |]; try done; cbn in D2; by injection D2 as <-.
Qed.

(** C10: A deferred credential goes to whom it was asked for: who collects one, or is told to wait for it, is the client and the subject of a Credential Request of this run that its Issuer's deferral came of, at an Issuer whose records are this one's, for the configuration that request was authorized for, which the collector's own access token still grants. *)
Theorem deferred_to_its_client cs s ps s' i c o iss auth id res : issuing cs s ps s' -> ended cs ps i c o -> collects c o = Some (iss, auth, id, res) ->
  exists c0 iss0 auth0 req0 configID cc, c0 ∈ cs /\ credential_call c0 = Some (iss0, auth0, req0) /\ owns iss (storeOwner iss0) = true /\
    resolveCredentialConfiguration iss0 auth0 req0 = Ok (configID, cc) /\ au_Subject auth = au_Subject auth0 /\ au_Subject auth0 <> EmptyString /\
    (AuthorizedRequest_ClientID auth0 = EmptyString \/ AuthorizedRequest_ClientID auth = AuthorizedRequest_ClientID auth0) /\
    (configID = EmptyString \/ grantsConfiguration iss auth configID (scope_of iss configID) = true).
Proof using.
  intros Hs He Hc; destruct (issuing_ended _ _ _ _ _ _ _ Hs He) as (g & claims & mine & Ht & Hm & g0 & Hl & Hp).
  destruct (collects_promise _ _ _ _ _ _ _ _ Hc Hp) as (req & _ & c0 & r & Hh & Ho & Ha & _).
  destruct (saved_genuine _ _ _ _ _ _ _ _ _ _ _ Hs Ht Hl Hh) as (it & Hlive & Hgen & Hin); destruct it as [| |r'|]; cbn in Hlive; try done.
  apply follows_request in Hlive as Hq; injection Hq as Q1 Q2 Q3 Q4 _ _ _ _.
  destruct Hgen as (iss0 & auth0 & req0 & Hcall & configID & cc & keys & reference & expires & Hres & Hof & Hsub); injection Hof as R1 R2 R3 R4 _ _ _ _.
  cbn in R1, R2, R3, R4; rewrite <- Q1 in R1; rewrite <- Q2 in R2; rewrite <- Q3 in R3; rewrite <- Q4 in R4; rewrite R1 in Ho; clear Q1 Q2 Q3 Q4.
  unfold deferredAuthorized, deferredOwner, other_client in Ha; rewrite R2, R3, R4 in Ha; apply andb_true_iff in Ha as [Ha Hg].
  apply negb_true_iff, orb_false_iff in Ha as [Hcl Hsu]; exists c0, iss0, auth0, req0, configID, cc; split_and!; try done.
  - destruct (String.eqb_spec (au_Subject auth0) EmptyString); [done|]; cbn in Hsu; apply negb_false_iff in Hsu; by apply String.eqb_eq.
  - destruct (String.eqb_spec (AuthorizedRequest_ClientID auth0) EmptyString); [by left|right]; cbn in Hcl; apply negb_false_iff in Hcl; by apply String.eqb_eq.
  - apply orb_true_iff in Hg as [?%String.eqb_eq|?]; [by left|by right].
Qed.

End Together.

(** ** The example served *)

Section Example.
Import CoseSigned IssuerExample.

#[local] Abbreviation ends_with := (map (Return (op:=op)) outcomes).

Lemma counting_inj a b n m raw : counting a n = Some raw -> counting b m = Some raw -> a = b.
Proof. intros [= <-] [= E]; apply (f_equal length) in E; rewrite !length_app, !length_replicate in E; lia. Qed.

Lemma counting_bytes a n raw : counting a n = Some raw -> bytes_ok raw.
Proof. intros [= <-]; apply Forall_app; split; [|by repeat constructor]; apply Forall_replicate; by split. Qed.

Lemma start_ok : codes_ok (sh_codes start).
Proof. intros k a Hk; vm_compute in Hk; discriminate. Qed.

Lemma example_issuing : issuing served start ends_with stopped.
Proof.
  split; [by vm_compute|by vm_compute|exact start_ok|by vm_compute|by vm_compute|exact counting_inj|exact counting_bytes| |exact (run_list_steps exec around (map request_prog served) start)].
  split; [exact toy_digest_bytes|exact toy_digest_inj].
Qed.

Lemma issuer_example_ended i c o : served !! i = Some c -> outcomes !! i = Some o -> ended served ends_with i c o.
Proof. intros Hc Ho; split; [done|]; by rewrite list_lookup_fmap, Ho. Qed.

Definition got (i : nat) : outcome := default GotOther (outcomes !! i).

Lemma example_got i : (i < 12)%nat -> ended served ends_with i (default (CallNonce issuer) (served !! i)) (got i).
Proof. intros Hi; do 12 (destruct i as [|i]; [by apply issuer_example_ended; [|vm_compute]|]); lia. Qed.

Definition details : list AuthorizationDetail := au_Details authorized.
Definition handed : DeferredCredentialResult := {| dr_Credentials := ["CQ.CQ.42DkRw~"]; dr_NotificationID := ""; dr_TransactionID := ""; dr_Interval := 0 |}%string.

Lemma got_redeemed : redeems (CallExchange issuer (redeem_with "493536")) (got 3) = Some (issuer, redeem_with "493536", details, "alice", [])%string.
Proof. vm_cast_no_check (eq_refl (Some (issuer, redeem_with "493536", details, "alice"%string, @nil string))). Qed.

Lemma got_wrong : told_wrong (CallExchange issuer (redeem_with "000000")) (got 2) = Some (issuer, redeem_with "000000").
Proof. vm_cast_no_check (eq_refl (Some (issuer, redeem_with "000000"))). Qed.

Lemma got_answered : answered (CallCredential issuer authorized asks None) (got 5) = Some (issuer, asks).
Proof. vm_cast_no_check (eq_refl (Some (issuer, asks))). Qed.

Lemma got_collected : collects (CallCollect issuer authorized collect) (got 10) = Some (issuer, authorized, drawn_id 3, handed).
Proof. vm_cast_no_check (eq_refl (Some (issuer, authorized, drawn_id 3, handed))). Qed.

Lemma got_decided : decides (CallIssueDeferred issuer (drawn_id 3) content) (got 8) = Some (drawn_id 3).
Proof. vm_cast_no_check (eq_refl (Some (drawn_id 3))). Qed.

Lemma kept_nonces_issuer : kept_nonces issuer.
Proof. done. Qed.

Lemma code_redeemed_once_witness : issuing served start ends_with stopped /\
  forall j c o iss req d t l, ended served ends_with j c o -> redeems c o = Some (iss, req, d, t, l) -> storeOwner issuer = storeOwner iss ->
    drawn_id 1 = x_PreAuthorizedCode req -> 3%nat = j.
Proof.
  split; [exact example_issuing|]; intros j c o iss req d t l He Hr Ho Hc.
  by apply (code_redeemed_once served start ends_with stopped 3 j _ c _ o issuer iss (redeem_with "493536") req details d "alice" t [] l
    example_issuing (example_got 3 ltac:(lia)) He got_redeemed Hr).
Defined.

(** The fourth call, of the run's trace. *)
Lemma redeemed_as_offered_witness : issuing served start ends_with stopped /\
  exists tr, traced exec_rel around (map request_prog served, start) tr (ends_with, stopped) /\
  exists j iss0 req0 raw made now, served !! j = Some (CallPreAuthorizedOffer iss0 req0) /\ drawn_id 1 = b64_string raw /\
    (j, Event (Random 32) (Some raw)) ∈ tr /\ (j, Event (Ask Clock) made) ∈ tr /\ (3%nat, Event (Ask Clock) now) ∈ tr /\ now <= made + p_Lifetime req0 /\
    "alice"%string = p_Subject req0 /\ map ad_ConfigurationID details = (if p_CredentialIdentifiers req0 then p_ConfigurationIDs req0 else []).
Proof.
  split; [exact example_issuing|]; destruct (steps_traced exec_rel around _ _ (issuing_steps _ _ _ _ example_issuing)) as [tr Htr]; exists tr; split; [exact Htr|].
  destruct (redeemed_as_offered served start ends_with stopped tr 3 _ _ issuer (redeem_with "493536") details "alice" [] example_issuing Htr
    (example_got 3 ltac:(lia)) got_redeemed)
    as (rq & answer & before & after & j & iss0 & req0 & raw & made & saved & t1 & t2 & now & -> & Hnow & -> & Hj & Ho & Hraw & Hmade & Hc & Hle & _ & Hsub & _ & Hmap & _).
  assert (Hin : forall e, e ∈ t1 -> e ∈ after ++ (3%nat, consumes issuer (redeem_with "493536") rq now answer) ::
    t2 ++ (j, Event (CodeIssue (preAuthorizedCodeKey (storeOwner issuer) (b64_string raw)) (offered_code iss0 req0 (b64_string raw) made)) saved) :: t1).
  { intros e He; apply elem_of_app; right; right; apply elem_of_app; right; by right. }
  exists j, iss0, req0, raw, made, now; refine (conj Hj (conj Hc (conj (Hin _ Hraw) (conj (Hin _ Hmade) (conj _ (conj Hle (conj Hsub Hmap))))))).
  apply elem_of_app; right; right; exact Hnow.
Defined.

Lemma guesses_bounded_witness : told_wrong (CallExchange issuer (redeem_with "000000")) (got 2) = Some (issuer, redeem_with "000000") /\ blen [2%nat] <= 3.
Proof.
  split; [exact got_wrong|]; apply (guesses_bounded served start ends_with stopped (storeOwner issuer) (drawn_id 1) 3 [2%nat] example_issuing); [lia|apply NoDup_singleton|].
  intros i ->%list_elem_of_singleton; exists (CallExchange issuer (redeem_with "000000")), (got 2), issuer, (redeem_with "000000").
  split; [exact (example_got 2 ltac:(lia))|]; split; [exact got_wrong|]; done.
Defined.

Lemma stores_genuine_witness : issuing served start ends_with stopped /\
  forall n r, nonces (sh_nonces stopped) !! n = Some r -> isStatelessNonce n = true \/ exists c, c ∈ served /\ genuine served c (nonce_name n) (Nonce r).
Proof. split; [exact example_issuing|]; exact (proj1 (stores_genuine served start ends_with stopped example_issuing)). Defined.

Lemma proof_nonce_once_witness : issuing served start ends_with stopped /\
  forall j c o iss req, ended served ends_with j c o -> answered c o = Some (iss, req) -> kept_nonces iss -> request_nonce asks = request_nonce req -> 5%nat = j.
Proof.
  split; [exact example_issuing|]; intros j c o iss req He Ha Hk Hn.
  by apply (proof_nonce_once served start ends_with stopped 5 j _ c _ o issuer iss asks req example_issuing (example_got 5 ltac:(lia)) He got_answered Ha
    kept_nonces_issuer Hk).
Defined.

Lemma proof_nonce_issued_witness : exists iss0 n, CallNonce iss0 ∈ served /\ owns issuer (storeOwner iss0) = true /\ request_nonce asks = Some n.
Proof.
  exact (proof_nonce_issued served start ends_with stopped 5 _ _ issuer asks example_issuing (example_got 5 ltac:(lia)) got_answered kept_nonces_issuer).
Defined.

Lemma deferred_collected_once_witness : issuing served start ends_with stopped /\
  forall j c o iss auth res, ended served ends_with j c o -> collects c o = Some (iss, auth, drawn_id 3, res) -> dr_TransactionID res = EmptyString -> 10%nat = j.
Proof.
  split; [exact example_issuing|]; intros j c o iss auth res He Hc Ht.
  by apply (deferred_collected_once served start ends_with stopped 10 j _ c _ o issuer iss authorized auth (drawn_id 3) handed res example_issuing
    (example_got 10 ltac:(lia)) He got_collected Hc).
Defined.

Lemma deferred_decided_once_witness : issuing served start ends_with stopped /\
  forall j c o, ended served ends_with j c o -> decides c o = Some (drawn_id 3) -> 8%nat = j.
Proof.
  split; [exact example_issuing|]; intros j c o He Hd.
  by apply (deferred_decided_once served start ends_with stopped 8 j _ c _ o (drawn_id 3) example_issuing (example_got 8 ltac:(lia)) He got_decided).
Defined.

Lemma deferred_to_its_client_witness : exists c0 iss0 auth0 req0 configID cc, c0 ∈ served /\ credential_call c0 = Some (iss0, auth0, req0) /\
  owns issuer (storeOwner iss0) = true /\
  resolveCredentialConfiguration iss0 auth0 req0 = Ok (configID, cc) /\ au_Subject authorized = au_Subject auth0 /\ au_Subject auth0 <> EmptyString /\
  (AuthorizedRequest_ClientID auth0 = EmptyString \/ AuthorizedRequest_ClientID authorized = AuthorizedRequest_ClientID auth0) /\
  (configID = EmptyString \/ grantsConfiguration issuer authorized configID (scope_of issuer configID) = true).
Proof.
  exact (deferred_to_its_client served start ends_with stopped 10 _ _ issuer authorized (drawn_id 3) handed example_issuing (example_got 10 ltac:(lia)) got_collected).
Defined.
End Example.
