(* ===== verification/MdocRequest.v ===== *)
(** * Requests for an mdoc over the Digital Credentials API

    [verifier/transactions_mdoc_dcapi.go]'s request as the DCQL query it is
    kept as, and back.  A map of maps is a list of its keys' values; what it
    is as a map is [grouped].  The theorem: the query of a request is the
    request. *)
From S2P Require Import Prelude Json DcqlPath DcqlQuery.
From stdpp Require Import sorting.
#[local] Open Scope Z_scope.

Record MdocDCAPIRequest : Type := {
  DocType : string;
  Elements : list (string * list (string * bool));
  CredentialQueryID : string
}.

Definition MdocDCAPICredentialQueryID : string := "mdoc".

Inductive mdoc_request_error : Type :=
| MdocNoDocType
| MdocNoElements
| MdocMetaErr
| MdocNamespace (ns : string)
| MdocUnnamedElement (ns : string)
| MdocQuery (e : query_error)
| MdocNotOneQuery
| MdocNotAnElement
| MdocAsksNothing.

(** The keys of a map, sorted, with their values. *)
Definition key_le {A} (p q : string * A) : Prop := string_le p.1 q.1.

#[export] Instance key_le_dec {A} : RelDecision (@key_le A).
Proof. intros p q; unfold key_le; apply _. Defined.

Definition by_key {A} (l : list (string * A)) : list (string * A) := merge_sort key_le l.

Definition element_claim (ns el : string) (retain : bool) : ClaimsQuery :=
  {| cl_ID := ""; cl_Path := [PathKey ns; PathKey el]; cl_Values := None; cl_IntentToRetain := Some retain |}.

Fixpoint namespace_claims (elements : list (string * list (string * bool))) : res mdoc_request_error (list ClaimsQuery) :=
  match elements with
  | [] => Ok []
  | (ns, els) :: elements =>
      if String.eqb ns "" || (blen els =? 0) then Err (MdocNamespace ns)
      else if existsb (fun p => String.eqb p.1 "") els then Err (MdocUnnamedElement ns)
      else
        let? claims := namespace_claims elements in
        Ok (map (fun p => element_claim ns p.1 p.2) (by_key els) ++ claims)
  end.

(** [elements[ns][el] = retain], making [elements[ns]] where it is nil. *)
Fixpoint put {A} (k : string) (v : A) (l : list (string * A)) : list (string * A) :=
  match l with
  | [] => [(k, v)]
  | (k', w) :: l => if String.eqb k' k then (k', v) :: l else (k', w) :: put k v l
  end.

Fixpoint entry {A} (k : string) (l : list (string * A)) : option A :=
  match l with
  | [] => None
  | (k', w) :: l => if String.eqb k' k then Some w else entry k l
  end.

Definition put_element (ns el : string) (retain : bool) (m : list (string * list (string * bool))) : list (string * list (string * bool)) :=
  put ns (put el retain (default [] (entry ns m))) m.

Fixpoint elements_of (claims : list ClaimsQuery) (m : list (string * list (string * bool)))
    : res mdoc_request_error (list (string * list (string * bool))) :=
  match claims with
  | [] => Ok m
  | cl :: claims =>
      match MdocNamespaceAndElement (cl_Path cl) with
      | None => Err MdocNotAnElement
      | Some (ns, el) => elements_of claims (put_element ns el (match cl_IntentToRetain cl with Some b => b | None => false end) m)
      end
  end.

Section Meta.
(** dcql.NewMdocMeta's encoding of a doctype, and the decodings of a meta. *)
Context (marshal_doctype : string -> option bytes).
Context (json_any : bytes -> option goval) (json_vct_values : bytes -> option (list string)) (json_doctype_value : bytes -> option string).

Definition NewMdocMeta (doctype : string) : option bytes :=
  if String.eqb doctype "" then None else marshal_doctype doctype.

Definition mdocDCAPIQuery (request : MdocDCAPIRequest) : res mdoc_request_error Query :=
  if String.eqb (DocType request) "" then Err MdocNoDocType
  else if blen (Elements request) =? 0 then Err MdocNoElements
  else
    let id := if String.eqb (CredentialQueryID request) "" then MdocDCAPICredentialQueryID else CredentialQueryID request in
    match NewMdocMeta (DocType request) with
    | None => Err MdocMetaErr
    | Some meta =>
        let? claims := namespace_claims (by_key (Elements request)) in
        let query := {| q_Credentials := [{| cq_ID := id; cq_Format := formatMdoc; cq_Meta := meta; cq_Multiple := false;
            cq_TrustedAuthorities := []; cq_RequireCryptographicHolderBinding := None;
            cq_Claims := match claims with [] => None | _ => Some claims end; cq_ClaimSets := None |}]; q_CredentialSets := [] |} in
        let? _ := res_map_err MdocQuery (Query_Validate json_any json_vct_values json_doctype_value query) in
        Ok query
    end.

Definition mdocDCAPIRequestOf (query : Query) : res mdoc_request_error (string * string * list (string * list (string * bool))) :=
  match q_Credentials query with
  | [cq] =>
      if negb (String.eqb (cq_Format cq) formatMdoc) then Err MdocNotOneQuery
      else match MdocMeta json_doctype_value cq with
      | None => Err MdocMetaErr
      | Some docType =>
          let? elements := elements_of (Claims cq) [] in
          if blen elements =? 0 then Err MdocAsksNothing else Ok (cq_ID cq, docType, elements)
      end
  | _ => Err MdocNotOneQuery
  end.
End Meta.

(** ** The query of a request is the request *)

Lemma by_key_perm {A} (l : list (string * A)) : by_key l ≡ₚ l.
Proof. apply merge_sort_Permutation. Qed.

Lemma entry_None {A} k (l : list (string * A)) : k ∉ l.*1 -> entry k l = None.
Proof.
  induction l as [|[k' w] l IH]; cbn; [done|]; intros [Hk Hl]%not_elem_of_cons.
  destruct (String.eqb_spec k' k); [by subst|by apply IH].
Qed.

Lemma entry_app_last {A} k (v : A) l : k ∉ l.*1 -> entry k (l ++ [(k, v)]) = Some v.
Proof.
  induction l as [|[k' w] l IH]; cbn; [by rewrite String.eqb_refl|]; intros [Hk Hl]%not_elem_of_cons.
  destruct (String.eqb_spec k' k); [by subst|by apply IH].
Qed.

Lemma put_new {A} k (v : A) l : k ∉ l.*1 -> put k v l = l ++ [(k, v)].
Proof.
  induction l as [|[k' w] l IH]; cbn; [done|]; intros [Hk Hl]%not_elem_of_cons.
  destruct (String.eqb_spec k' k); [by subst|by rewrite IH].
Qed.

Lemma put_last {A} k (v w : A) l : k ∉ l.*1 -> put k v (l ++ [(k, w)]) = l ++ [(k, v)].
Proof.
  induction l as [|[k' u] l IH]; cbn; [by rewrite String.eqb_refl|]; intros [Hk Hl]%not_elem_of_cons.
  destruct (String.eqb_spec k' k); [by subst|by rewrite IH].
Qed.

(** One namespace's elements after some of them. *)
Lemma elements_of_namespace ns els claims : forall m done_, ns ∉ m.*1 -> NoDup (done_ ++ els).*1 -> done_ <> [] ->
  elements_of (map (fun p => element_claim ns p.1 p.2) els ++ claims) (m ++ [(ns, done_)]) =
  elements_of claims (m ++ [(ns, done_ ++ els)]).
Proof.
  induction els as [|[el retain] els IH]; intros m dn Hm Hnd Hne; cbn [map app]; [by rewrite app_nil_r|].
  cbn [elements_of element_claim cl_Path MdocNamespaceAndElement cl_IntentToRetain fst snd]; unfold put_element.
  rewrite entry_app_last by done; cbn [default]; rewrite put_last by done.
  assert (Hel : el ∉ dn.*1).
  { rewrite fmap_app in Hnd; apply NoDup_app in Hnd as (_ & Hd & _); intros Hin; apply (Hd el Hin); by left. }
  rewrite put_new by done.
  rewrite IH; [by rewrite <- app_assoc|done|by rewrite <- app_assoc|by destruct dn].
Qed.

Lemma elements_of_claims elements : forall m claims, namespace_claims elements = Ok claims ->
  NoDup (m ++ elements).*1 -> Forall (fun p => NoDup p.2.*1) elements ->
  elements_of claims m = Ok (m ++ ((fun p => (p.1, by_key p.2)) <$> elements)).
Proof.
  induction elements as [|[ns els] elements IH]; intros m claims; cbn [namespace_claims]; [intros [= <-] _ _; by rewrite app_nil_r|].
  destruct (String.eqb_spec ns ""), (Z.eqb_spec (blen els) 0) as [|Hel]; cbn [orb]; try done; destruct (existsb _ _); [done|].
  destruct (namespace_claims elements) as [rest|]; cbn [res_bind]; [|done]; intros [= <-] Hnd [Hd Hds]%Forall_cons; cbn [snd] in Hd.
  assert (Hm : ns ∉ m.*1).
  { rewrite fmap_app in Hnd; apply NoDup_app in Hnd as (_ & Hx & _); intros Hin; apply (Hx ns Hin); by left. }
  assert (Hbk : NoDup (by_key els).*1) by (by rewrite by_key_perm).
  assert (Hby : by_key els <> []).
  { intros E; pose proof (by_key_perm els) as Hp; rewrite E in Hp; apply Permutation_nil in Hp; by rewrite Hp in Hel. }
  destruct (by_key els) as [|[el retain] bk] eqn:Eb; [done|].
  cbn [map app elements_of element_claim cl_Path MdocNamespaceAndElement cl_IntentToRetain fst snd]; unfold put_element.
  rewrite entry_None by done; cbn [default put]; rewrite put_new by done.
  rewrite (elements_of_namespace ns bk rest m [(el, retain)] Hm Hbk) by done; cbn [app].
  rewrite (IH _ rest eq_refl); [|by rewrite !fmap_app, <- app_assoc in *|done]; rewrite <- app_assoc; cbn [app fmap list_fmap fst snd]; by rewrite Eb.
Qed.

(** The request with its keys in order. *)
Definition grouped (elements : list (string * list (string * bool))) : list (string * list (string * bool)) :=
  (fun p => (p.1, by_key p.2)) <$> by_key elements.

(** the query a request for an mdoc is kept as gives the request back: its
    credential query, document type and elements with what is to be retained. *)
Theorem mdocDCAPIRequestOf_Query marshal_doctype json_any json_vct_values json_doctype_value request query :
  (forall doctype meta, marshal_doctype doctype = Some meta -> json_doctype_value meta = Some doctype) ->
  NoDup (Elements request).*1 -> Forall (fun p => NoDup p.2.*1) (Elements request) ->
  mdocDCAPIQuery marshal_doctype json_any json_vct_values json_doctype_value request = Ok query ->
  mdocDCAPIRequestOf json_doctype_value query =
    Ok (if String.eqb (CredentialQueryID request) "" then MdocDCAPICredentialQueryID else CredentialQueryID request,
        DocType request, grouped (Elements request)).
Proof.
  intros Hjson Hnd Hels; unfold mdocDCAPIQuery, NewMdocMeta; destruct (String.eqb (DocType request) ""); [done|].
  destruct (Z.eqb_spec (blen (Elements request)) 0) as [|Hne]; [done|]; destruct (marshal_doctype _) as [meta|] eqn:Em; [|done].
  destruct (namespace_claims _) as [claims|] eqn:Ec; cbn [res_bind]; [|done].
  destruct (res_map_err _ _); cbn [res_bind]; [|done]; intros [= <-].
  unfold mdocDCAPIRequestOf, MdocMeta; cbn [q_Credentials cq_Format cq_Meta cq_ID]; change (String.eqb formatMdoc formatMdoc) with true.
  cbn [negb]; rewrite (Hjson _ _ Em); unfold Claims; cbn [cq_Claims].
  replace (default [] (match claims with [] => None | _ => Some claims end)) with claims by (by destruct claims).
  rewrite (elements_of_claims _ [] claims Ec); cbn [app res_bind].
  - fold (grouped (Elements request)); replace (blen (grouped (Elements request))) with (blen (Elements request));
      [by apply Z.eqb_neq in Hne as ->|].
    unfold grouped, blen; by rewrite length_fmap, by_key_perm.
  - by rewrite by_key_perm.
  - by rewrite by_key_perm.
Qed.

Definition licence : MdocDCAPIRequest := {|
  DocType := "org.iso.18013.5.1.mDL";
  Elements := [("org.iso.18013.5.1", [("portrait", true); ("age_over_18", false)])];
  CredentialQueryID := "" |}%string.

Definition bytes_doctype (meta : bytes) : option string := if bool_decide (meta = [21]) then Some (DocType licence) else None.

Lemma mdocDCAPIRequestOf_Query_witness :
  let marshal d := if String.eqb d (DocType licence) then Some [21] else None in
  exists query, mdocDCAPIQuery marshal (fun _ => Some (VObject [])) (fun _ => None) bytes_doctype licence = Ok query /\
    mdocDCAPIRequestOf bytes_doctype query =
      Ok ("mdoc"%string, DocType licence, [("org.iso.18013.5.1", [("age_over_18", false); ("portrait", true)])]%string).
Proof.
  eexists; split; [vm_compute; reflexivity|].
  apply (mdocDCAPIRequestOf_Query (fun d => if String.eqb d (DocType licence) then Some [21] else None)
    (fun _ => Some (VObject [])) (fun _ => None) bytes_doctype licence); [|vm_compute..].
  - intros d meta; destruct (String.eqb_spec d (DocType licence)) as [->|]; [intros [= <-]|done]; vm_compute; reflexivity.
  - apply (bool_decide_unpack _); vm_compute; exact I.
  - apply (bool_decide_unpack _); vm_compute; exact I.
  - reflexivity.
Defined.
