(* ===== verification/Transactions.v ===== *)
(** * A Verifier's Transactions: [verifier/transactions.go], transactions_dcapi.go, transactions_mdoc_dcapi.go, transactions_http.go

    Presentation requests from creation to a verified result, over the
    redirect flows and the Digital Credentials API.  Each call is a program
    over the store and the world around it (Prog): its operations are what
    other calls, of this Transactions or of another sharing the store, may
    come between.  What VerifyResponse, an mdoc's protocol and the request
    builders do is the world's ([Deps]); parsing an answer (response.go,
    response_key_id.go) is not. *)
From S2P Require Import Prelude B64Url Json DcqlQuery DcqlValues Text JwtDate Jws Prog Reasons TxStore MdocRequest.
From stdpp Require Import pretty.
From Stdlib Require Import Ascii.
#[local] Open Scope Z_scope.

(** ** Configuration *)

(** What checkVerifies looks at of TransactionsConfig.Verify. *)
Record VerifySettings : Type := {
  has_IssuerKeys : bool;
  has_MdocIssuerKeys : bool;
  v_MaxKeyBindingAge : Z;
  TrustedAuthorities : option bool      (* set; and whether isUnverifiedAKIChecker *)
}.

Record TransactionsConfig : Type := {
  RequestURIBase : string;
  Lifetime : Z;
  Verify : VerifySettings;
  has_MdocDCAPI : bool;
  has_Status : bool;
  has_Accept : bool;
  has_OnRefused : bool;
  RedirectURI : string;
  Origins : list string;
  Scope : string;
  ForgetResultOnRead : bool
}.

(** A Transactions, with what it takes of its Verifier.  [serial] tells the
    Transactions of one deployment apart: each has a [kept] of its own. *)
Record Transactions : Type := {
  cfg : TransactionsConfig;
  ClientID : string;
  ResponseURI : string;
  Assurance : AssuranceLevel;
  EncValuesSupported : list string;
  serial : nat
}.

(** ** What is outside *)

Record ParsedResponse : Type := { VPToken : list (string * list string); r_State : string }.

(** A direct_post.jwt response's payload, as its JSON is decoded; and a Digital
    Credentials API answer's. *)
Record wire_response : Type := {
  w_VPToken : list (string * list string);
  w_State : string;
  w_Error : string;
  w_ErrorDescription : string
}.
Record wire_answer : Type := { a_Response : string; a_Error : string }.

Record Built `{Contents} : Type := {
  b_KeyID : string;
  b_Nonce : string;
  b_Key : option PrivateKey;
  b_RequestObject : string;            (* an org-iso-mdoc request's DeviceRequest *)
  b_EncryptionInfo : string
}.

(** What a request is built for. *)
Inductive build : Type :=
| BuildAuthorizationRequest (query : Query) (state : string)
| BuildDCAPIAuthorizationRequest (query : Query) (origin : string)
| BuildMdocDCAPIRequest (request : MdocDCAPIRequest) (origin : string).

(** What an answer is verified against: VerifyResponse's request, and an
    MdocDCAPIProtocol's with the CredentialQueryID its result is given. *)
Inductive verification `{Contents} : Type :=
| VerifyResponse (query : Query) (response : ParsedResponse) (nonce : string) (key : option PrivateKey) (origin : string)
| VerifyMdocDCAPI (cq docType : string) (elements : list (string * list (string * bool))) (response origin encryptionInfo : string)
    (key : PrivateKey) (expiresAt : Z).

(** The world: its clock; what builds a request, with fresh keys; the
    verification of an answer, by the keys, certificates and policies it holds;
    the application's Status and Accept.  And libraries' functions. *)
Class Deps `{Contents} : Type := {
  World : Type;
  Clock : World -> Z;
  do_build : World -> Transactions -> build -> res tx_error Built;
  do_verify : World -> Transactions -> verification -> res tx_error Result;
  do_status : World -> Transactions -> Result -> option tx_error;
  do_accept : World -> Transactions -> string -> Result -> option tx_error;
  sha256 : bytes -> bytes;
  jwe_DecodeHeader : string -> option (list (string * goval));
  jwe_Decrypt : PrivateKey -> string -> option bytes;
  unmarshal_response : bytes -> option wire_response;
  unmarshal_answer : bytes -> option wire_answer;
  unmarshal_mdoc_answer : bytes -> option string;
  ecdh_ok : PrivateKey -> bool;
  marshal_doctype : string -> option bytes;
  json_any : bytes -> option goval;
  json_vct_values : bytes -> option (list string);
  json_doctype_value : bytes -> option string;
  normalize_origin : string -> string;
  page_origin_ok : string -> bool;      (* weborigin.CheckPage, in development *)
  with_query : string -> string -> string -> string;
  encode_values : list (string * string) -> string;
  error_text : tx_error -> string;
  is_print : Z -> bool
}.

(** ** Scopes *)

Section Scopes.
Context `{Deps}.

Definition hashToken (token : string) : string := b64_string (sha256 (string_bytes token)).

(** [fmt.Fprintf(h, "%d:%s", len(part), part)] for each part. *)
Definition length_prefixed (part : string) : string := (pretty (slen part) ++ ":" ++ part)%string.

Definition ownerScope (t : Transactions) : string * bool :=
  if negb (String.eqb (Scope (cfg t)) "") then ("scope:" ++ Scope (cfg t), false)%string
  else
    let parts := (length_prefixed (ClientID t) ++ length_prefixed (ResponseURI t) ++ length_prefixed (RequestURIBase (cfg t)))%string in
    ("derived:" ++ hashToken parts, true)%string.

Definition owner (t : Transactions) : string := fst (ownerScope t).
Definition derived (t : Transactions) : bool := snd (ownerScope t).

Definition owns (t : Transactions) (tx : Transaction) : bool :=
  if String.eqb (Owner tx) "" then derived t && negb (production (Assurance t))
  else String.eqb (Owner tx) (owner t).

Definition bindingMatches (hash : bytes) (binding : string) : bool :=
  negb (String.eqb binding "") && bool_decide (hash = sha256 (string_bytes binding)).

(** ** Refusals *)

Definition checkPending (now : Z) (tx : Transaction) : option tx_error :=
  match Status tx with
  | TransactionClosed => Some ErrTransactionClosed
  | TransactionPending => if negb (now <? ExpiresAt tx) then Some ErrTransactionExpired else None
  | _ => Some ErrTransactionAnswered
  end.

Definition maxFailureText : Z := 256.

Fixpoint all_chars (P : Z -> bool) (s : string) : bool :=
  match s with EmptyString => true | String c s => P (code c) && all_chars P s end.

Definition lower (c : Z) : bool := (97 <=? c) && (c <=? 122).
Definition digit (c : Z) : bool := (48 <=? c) && (c <=? 57).

Definition isErrorCode (c : string) : bool :=
  negb (String.eqb c "" || (64 <? slen c)) && all_chars (fun c => lower c || digit c || (c =? 95)) c.

Definition errorCodeOf (c : string) : string :=
  if String.eqb c "" || (64 <? slen c) then "invalid_request"
  else if all_chars (fun c => lower c || (c =? 95)) c then c else "invalid_request".

(** printableText, of what is left to write after [b]. *)
Fixpoint printable_loop (rs : list (Z * bytes)) (b : bytes) : bytes :=
  match rs with
  | [] => b
  | (r, enc) :: rs =>
      if maxFailureText <=? blen b then b ++ [226; 128; 166]
      else printable_loop rs (b ++ (if is_print r then enc else [63]))
  end.
Definition printableText (text : string) : string := bytes_string (printable_loop (runes text) []).

Definition failureText (cause : tx_error) : string :=
  match as_response cause with
  | Some (code, _, _) => if isErrorCode code then ("an error response arrived: " ++ code)%string else "an error response arrived"
  | None =>
      match as_accept cause with
      | Some err => printableText (error_text err)
      | None =>
          match as_verify cause with
          | Some r => ("the answer was refused: " ++ description r)%string
          | None => "the answer couldn't be verified: the Verifier's configuration is incomplete (see the returned error)"
          end
      end
  end.

(** ** Parsing an answer: [verifier/response.go], response_key_id.go *)

Definition malformed : tx_error := VerifyError ReasonMalformed None.

Definition ResponseKeyID (responseJWE : string) : res tx_error string :=
  match jwe_DecodeHeader responseJWE with
  | None => Err malformed
  | Some header =>
      let kid := string_member "kid" header in
      if String.eqb kid "" then Err malformed else Ok kid
  end.

Definition ParseDirectPostJWTResponse (t : Transactions) (responseJWE : string) (decryptionKey : option PrivateKey)
    : res tx_error ParsedResponse :=
  match decryptionKey with
  | None => Err (Plain "a decryption key is required")
  | Some key =>
      match jwe_DecodeHeader responseJWE with
      | None => Err malformed
      | Some header =>
          if is_Some_b (member "zip" header) then Err malformed
          else if negb (existsb (String.eqb (string_member "enc" header)) (EncValuesSupported t)) then Err malformed
          else match jwe_Decrypt key responseJWE with
          | None => Err malformed
          | Some plaintext =>
              match unmarshal_response plaintext with
              | None => Err malformed
              | Some wire =>
                  if negb (String.eqb (w_Error wire) "") then Err (ResponseError (w_Error wire) (w_ErrorDescription wire) (w_State wire))
                  else if blen (w_VPToken wire) =? 0 then Err malformed
                  else Ok {| VPToken := w_VPToken wire; r_State := w_State wire |}
              end
          end
      end
  end.

End Scopes.

(** ** Operations

    What a call does of what others share, each atomic.  An Update's function
    reads the clock where it runs. *)
Section Calls.
Context `{Deps}.

Inductive op : Type -> Type :=
| Now : op Z
| RandomToken : op (option string)
| Build (t : Transactions) (b : build) : op (res tx_error Built)
| Verifying (t : Transactions) (v : verification) : op (res tx_error Result)
| CheckStatus (t : Transactions) (r : Result) : op (option tx_error)
| Accept (t : Transactions) (id : string) (r : Result) : op (option tx_error)
| OnRefused (t : Transactions) (id : string) (cause : tx_error) : op unit
| KeptLoad (t : Transactions) : op Z
| KeptOr (t : Transactions) (flow : Z) : op unit
| StoreCreate (tx : Transaction) : op (res tx_error unit)
| StoreGet (id : string) : op (res tx_error Transaction)
| StoreUpdate {X : Type} (id : string) (fn : Z -> Transaction -> res tx_error (Transaction * X)) : op (res tx_error X)
| StoreIDByKeyID (kid : string) : op (res tx_error string)
| StoreIDByResponseCode (codeHash : string) : op (res tx_error string).

#[local] Open Scope prog_scope.

Definition ret_ok {A} (a : A) : prog op (res tx_error A) := Return (Ok a).
Definition ret_err {A} (e : tx_error) : prog op (res tx_error A) := Return (Err e).

Section Of.
Context (t : Transactions).

Definition get (id : string) : prog op (res tx_error Transaction) :=
  do? tx <~ StoreGet id;
  if negb (owns t tx) then ret_err ErrTransactionUnknown else ret_ok tx.

Definition update {X} (id : string) (fn : Z -> Transaction -> res tx_error (Transaction * X)) : op (res tx_error X) :=
  StoreUpdate id (fun now cur => if negb (owns t cur) then Err ErrTransactionUnknown else fn now cur).

(** ** Beginning a request *)

Definition flowOf (tx : Transaction) : Z :=
  if negb (String.eqb (MdocEncryptionInfo tx) "") then 8
  else if negb (String.eqb (Origin tx) "") then 4
  else if SameDevice tx then 2
  else 1.

Definition maxStoredTimeDrift : Z := Second.

Definition closeTimes (a b : Z) : bool := (- maxStoredTimeDrift <? a - b) && (a - b <? maxStoredTimeDrift).

Definition lostFields (tx saved : Transaction) : list string :=
  map fst (List.filter (fun p => negb p.2)
    [("ID", String.eqb (ID saved) (ID tx)); ("KeyID", String.eqb (KeyID saved) (KeyID tx));
     ("State", String.eqb (State saved) (State tx)); ("Nonce", String.eqb (Nonce saved) (Nonce tx));
     ("ResponseDecryptionKey", bool_decide (ResponseDecryptionKey saved = ResponseDecryptionKey tx));
     ("RequestObject", String.eqb (RequestObject saved) (RequestObject tx)); ("Origin", String.eqb (Origin saved) (Origin tx));
     ("MdocEncryptionInfo", String.eqb (MdocEncryptionInfo saved) (MdocEncryptionInfo tx)); ("Owner", String.eqb (Owner saved) (Owner tx));
     ("BrowserBindingHash", bool_decide (BrowserBindingHash saved = BrowserBindingHash tx));
     ("SameDevice", Bool.eqb (SameDevice saved) (SameDevice tx)); ("ExpiresAt", closeTimes (ExpiresAt saved) (ExpiresAt tx));
     ("RetainUntil", closeTimes (RetainUntil saved) (RetainUntil tx)); ("Status", bool_decide (Status saved = Status tx))])%string.

Definition create (tx : Transaction) : prog op (res tx_error unit) :=
  r <~ StoreCreate tx;
  match r with
  | Err e => ret_err (Wrapped e)
  | Ok _ =>
      kept <~ KeptLoad t;
      if negb (Z.land kept (flowOf tx) =? 0) then ret_ok tt
      else
        r <~ StoreGet (ID tx);
        match r with
        | Err e => ret_err (Wrapped e)
        | Ok saved =>
            if 0 <? blen (lostFields tx saved) then ret_err (Plain "the store didn't keep the transaction")
            else _ <~ KeptOr t (flowOf tx); ret_ok tt
        end
  end.

Definition MinBrowserBindingLength : Z := 16.
Definition stateSeparator : ascii := "."%char.

Definition checkVerifies (query : Query) : option tx_error :=
  let v := Verify (cfg t) in
  if existsb (fun cq => String.eqb (cq_Format cq) formatSDJWTVC && negb (has_IssuerKeys v) ||
                        String.eqb (cq_Format cq) formatMdoc && negb (has_MdocIssuerKeys v)) (q_Credentials query)
  then Some (Plain "no issuer keys for a format")
  else if negb (0 <? v_MaxKeyBindingAge v) && existsb (fun cq => String.eqb (cq_Format cq) formatSDJWTVC) (q_Credentials query)
  then Some (Plain "max_key_binding_age is required")
  else if existsb (fun cq => 0 <? blen (cq_TrustedAuthorities cq)) (q_Credentials query) &&
          match TrustedAuthorities v with Some unverified => unverified | None => true end
  then Some (Plain "trusted_authorities is required")
  else None.

(** A new transaction: its times, Owner and browser binding, pending. *)
Definition pending (r : Request) : Transaction :=
  {| request := r; Status := TransactionPending; ResponseCodeHash := ""; tx_Result := None; LastError := "" |}.

Definition fresh (now : Z) (id keyID state nonce : string) (query : Query) (key : option PrivateKey)
    (object origin encryptionInfo browserBinding : string) (sameDevice : bool) : Transaction :=
  pending {| ID := id; KeyID := keyID; State := state; Nonce := nonce; tx_Query := query; ResponseDecryptionKey := key;
    RequestObject := object; Origin := origin; MdocEncryptionInfo := encryptionInfo; Owner := owner t;
    BrowserBindingHash := sha256 (string_bytes browserBinding); SameDevice := sameDevice;
    ExpiresAt := now + Lifetime (cfg t); RetainUntil := now + Lifetime (cfg t) + Lifetime (cfg t) |}.

Definition random : tx_error := Plain "random".

(** The result is the ID and the openid4vp link. *)
Definition Begin (query : Query) (browserBinding : string) (sameDevice : bool) : prog op (res tx_error (string * string)) :=
  if slen browserBinding <? MinBrowserBindingLength then ret_err (Plain "a browser binding is required")
  else if String.eqb (RequestURIBase (cfg t)) "" then ret_err (Plain "Begin needs RequestURIBase")
  else if sameDevice && String.eqb (RedirectURI (cfg t)) "" then ret_err (Plain "a same-device request needs RedirectURI")
  else match checkVerifies query with
  | Some e => ret_err e
  | None =>
      id <~ RandomToken;
      match id with
      | None => ret_err random
      | Some id =>
          secret <~ RandomToken;
          match secret with
          | None => ret_err random
          | Some secret =>
              let state := (id ++ String stateSeparator secret)%string in
              r <~ Build t (BuildAuthorizationRequest query state);
              match r with
              | Err e => ret_err (Wrapped e)
              | Ok built =>
                  now <~ Now;
                  try _ <- create (fresh now id (b_KeyID built) state (b_Nonce built) query (b_Key built) (b_RequestObject built)
                    "" "" browserBinding sameDevice);;
                  ret_ok (id, ("openid4vp://?" ++ encode_values
                    [("client_id", ClientID t); ("request_uri", RequestURIBase (cfg t) ++ "/" ++ id)])%string)
              end
          end
      end
  end.

Definition checkDCAPIOrigin (origin : string) : option tx_error :=
  match Origins (cfg t) with
  | _ :: _ => if existsb (String.eqb origin) (Origins (cfg t)) then None else Some (Plain "origin isn't one of Origins")
  | [] => if production (Assurance t) then Some (Plain "BeginDCAPI needs Origins")
          else if page_origin_ok origin then None else Some (Plain "not an origin")
  end.

(** The result is the ID and the signed request. *)
Definition BeginDCAPI (query : Query) (browserBinding origin : string) : prog op (res tx_error (string * string)) :=
  if slen browserBinding <? MinBrowserBindingLength then ret_err (Plain "a browser binding is required")
  else
    let origin := normalize_origin origin in
    match checkDCAPIOrigin origin with
    | Some e => ret_err (Wrapped e)
    | None =>
        match checkVerifies query with
        | Some e => ret_err e
        | None =>
            id <~ RandomToken;
            match id with
            | None => ret_err random
            | Some id =>
                r <~ Build t (BuildDCAPIAuthorizationRequest query origin);
                match r with
                | Err e => ret_err (Wrapped e)
                | Ok built =>
                    now <~ Now;
                    try _ <- create (fresh now id "" "" (b_Nonce built) query (b_Key built) "" origin "" browserBinding false);;
                    ret_ok (id, b_RequestObject built)
                end
            end
        end
    end.

(** The result is the ID and the request's data, DeviceRequest and
    EncryptionInfo. *)
Definition BeginMdocDCAPI (request : MdocDCAPIRequest) (browserBinding origin : string)
    : prog op (res tx_error (string * (string * string))) :=
  if slen browserBinding <? MinBrowserBindingLength then ret_err (Plain "a browser binding is required")
  else if negb (has_MdocDCAPI (cfg t)) then ret_err (Plain "BeginMdocDCAPI needs MdocDCAPI")
  else
    let origin := normalize_origin origin in
    match checkDCAPIOrigin origin with
    | Some e => ret_err (Wrapped e)
    | None =>
        match mdocDCAPIQuery marshal_doctype json_any json_vct_values json_doctype_value request with
        | Err _ => ret_err (Plain "not an org-iso-mdoc request")
        | Ok query =>
            match checkVerifies query with
            | Some e => ret_err e
            | None =>
                id <~ RandomToken;
                match id with
                | None => ret_err random
                | Some id =>
                    r <~ Build t (BuildMdocDCAPIRequest request origin);
                    match r with
                    | Err e => ret_err (Wrapped e)
                    | Ok built =>
                        match b_Key built with
                        | None => ret_err (Plain "the response encryption key isn't a P-256 key")
                        | Some key =>
                            if String.eqb (b_EncryptionInfo built) "" || String.eqb (b_RequestObject built) ""
                            then ret_err (Plain "built without its DeviceRequest or EncryptionInfo")
                            else
                              now <~ Now;
                              try _ <- create (fresh now id "" "" "" query (Some key) "" origin (b_EncryptionInfo built) browserBinding false);;
                              ret_ok (id, (b_RequestObject built, b_EncryptionInfo built))
                        end
                    end
                end
            end
        end
    end.

Definition GetRequestObject (id : string) : prog op (res tx_error string) :=
  try tx <- get id;;
  if negb (String.eqb (Origin tx) "") then ret_err ErrTransactionUnknown
  else
    now <~ Now;
    if negb (now <? ExpiresAt tx) then ret_err ErrTransactionExpired else ret_ok (RequestObject tx).

(** ** Progress *)

Definition with_progress (tx : Transaction) (status : TransactionStatus) (code : string) (result : option Result) (lastError : string)
    : Transaction :=
  {| request := request tx; Status := status; ResponseCodeHash := code; tx_Result := result; LastError := lastError |}.

Definition forget (cur : Transaction) : Transaction := with_progress cur TransactionClosed "" None "".

Record TransactionView : Type := { view_ID : string; view_Status : TransactionStatus; view_Result : option Result; view_LastError : string }.

Definition viewOf (tx : Transaction) (status : TransactionStatus) : TransactionView :=
  {| view_ID := ID tx; view_Status := status;
     view_Result := match status with TransactionDone => tx_Result tx | _ => None end; view_LastError := LastError tx |}.

Definition release (cur : Transaction) : Transaction * TransactionView :=
  (if ForgetResultOnRead (cfg t) then forget cur else cur, viewOf cur TransactionDone).

Definition recordFailure (id : string) (cause : tx_error) : prog op unit :=
  let record :=
    _ <~ update id (fun _ cur =>
      match Status cur with
      | TransactionPending =>
          Ok (with_progress cur (Status cur) (ResponseCodeHash cur) (tx_Result cur) (failureText cause), tt)
      | _ => Err ErrTransactionAnswered
      end);
    Return tt in
  if has_OnRefused (cfg t) then _ <~ OnRefused t id cause; record else record.

(** ** Answers *)

(** Whether [state] is the transaction's. *)
Definition state_is (tx : Transaction) (state : string) : bool := String.eqb state (State tx).

Definition acceptVerified (tx : Transaction) (result : Result) : prog op (res tx_error Result) :=
  let accept :=
    if has_Accept (cfg t) then
      e <~ Accept t (ID tx) result;
      match e with Some e => ret_err (acceptError e) | None => ret_ok result end
    else ret_ok result in
  if has_Status (cfg t) then
    e <~ CheckStatus t result;
    match e with Some e => ret_err (acceptError e) | None => accept end
  else accept.

Definition verifyParsed (tx : Transaction) (parsed : ParsedResponse) : prog op (res tx_error Result) :=
  do? result <~ Verifying t (VerifyResponse (tx_Query tx) parsed (Nonce tx) (ResponseDecryptionKey tx) (Origin tx));
  acceptVerified tx result.

Definition verify (tx : Transaction) (responseJWE : string) : prog op (res tx_error Result) :=
  match ParseDirectPostJWTResponse t responseJWE (ResponseDecryptionKey tx) with
  | Err e =>
      match as_response e with
      | Some (_, _, state) => ret_err (if negb (state_is tx state) then VerifyError ReasonStateMismatch None else e)
      | None => ret_err e
      end
  | Ok parsed =>
      if negb (state_is tx (r_State parsed)) then ret_err (VerifyError ReasonStateMismatch None)
      else verifyParsed tx parsed
  end.

Record Answered : Type := { answered_ID : string; answered_RedirectURI : string }.
Definition not_answered : Answered := {| answered_ID := ""; answered_RedirectURI := "" |}.

Definition error_redirect (id code : string) : Answered :=
  {| answered_ID := id; answered_RedirectURI := with_query (RedirectURI (cfg t)) "error" (errorCodeOf code) |}.

(** What a direct_post answer is answered with, and its error. *)
Abbreviation answer := (Answered * option tx_error)%type (only parsing).
Definition refuse (e : tx_error) : prog op answer := Return (not_answered, Some e).

Definition answerNotPending (tx : Transaction) (responseJWE : string) (notPending : tx_error) : answer :=
  match ParseDirectPostJWTResponse t responseJWE (ResponseDecryptionKey tx) with
  | Ok _ => (not_answered, Some notPending)
  | Err e =>
      match as_response e with
      | Some (code, descr, state) =>
          if negb (state_is tx state) then (not_answered, Some notPending)
          else (if SameDevice tx then error_redirect (ID tx) code else not_answered,
                Some (Joined notPending (ResponseError code descr state)))
      | None => (not_answered, Some notPending)
      end
  end.

(** The Update that completes a request. *)
Definition complete (result : Result) (code : string) (now : Z) (cur : Transaction) : res tx_error (Transaction * unit) :=
  match checkPending now cur with
  | Some e => Err e
  | None =>
      Ok (if SameDevice cur then with_progress cur TransactionAwaitingRedirect (hashToken code) (Some result) ""
          else with_progress cur TransactionDone (ResponseCodeHash cur) (Some result) "", tt)
  end.

Definition HandleResponse (responseJWE : string) : prog op answer :=
  match ResponseKeyID responseJWE with
  | Err e => refuse e
  | Ok kid =>
      r <~ StoreIDByKeyID kid;
      match r with
      | Err e => refuse (storeFault e)
      | Ok id =>
          r <- get id;;
          match r with
          | Err e => refuse (storeFault e)
          | Ok tx =>
              if negb (String.eqb (Origin tx) "") then refuse ErrTransactionUnknown
              else
                now <~ Now;
                match checkPending now tx with
                | Some e => Return (answerNotPending tx responseJWE e)
                | None =>
                    r <- verify tx responseJWE;;
                    match r with
                    | Err e =>
                        _ <- recordFailure id e;;
                        match as_response e with
                        | Some (code, _, _) => if SameDevice tx then Return (error_redirect id code, Some e) else refuse e
                        | None => refuse e
                        end
                    | Ok result =>
                        let completed code :=
                          r <~ update id (complete result code);
                          match r with
                          | Err e => refuse (storeFault e)
                          | Ok _ => Return ({| answered_ID := id; answered_RedirectURI :=
                              if SameDevice tx then with_query (RedirectURI (cfg t)) "response_code" code else "" |}, None)
                          end in
                        if SameDevice tx then
                          code <~ RandomToken;
                          match code with None => refuse (serverFault random) | Some code => completed code end
                        else completed ""
                    end
                end
          end
      end
  end.

Definition HandleUnencryptedError (code state : string) : prog op Answered :=
  match cut stateSeparator state with
  | None | Some (EmptyString, _) => Return not_answered
  | Some (id, _) =>
      r <- get id;;
      match r with
      | Err _ => Return not_answered
      | Ok tx =>
          if negb (String.eqb (Origin tx) "") || negb (state_is tx state) then Return not_answered
          else
            let walletErr := ResponseError (errorCodeOf code) "" "" in
            let reply := Return (if negb (SameDevice tx) then {| answered_ID := id; answered_RedirectURI := "" |}
              else {| answered_ID := id; answered_RedirectURI := with_query (RedirectURI (cfg t)) "error" (errorCodeOf code) |}) in
            now <~ Now;
            match checkPending now tx with
            | None => _ <- recordFailure id walletErr;; reply
            | Some _ => reply
            end
      end
  end.

(** ** Answers through a page *)

Definition jwe_MaxCompactBytes : Z := 2 ^ 20.
Definition maxResponseBodyBytes : Z := 2 * jwe_MaxCompactBytes + 4096.
Definition MaxDCAPIResponseBytes : Z := maxResponseBodyBytes.
Definition oid4vpmdoc_MaxBytes : Z := 2 ^ 20.
Definition MaxMdocDCAPIResponseBytes : Z := 2 * oid4vpmdoc_MaxBytes + 4096.

Definition verifyDCAPI (data : bytes) (tx : Transaction) : prog op (res tx_error Result) :=
  if MaxDCAPIResponseBytes <? blen data then ret_err malformed
  else match unmarshal_answer data with
  | None => ret_err malformed
  | Some answer =>
      if String.eqb (a_Response answer) "" then
        if negb (String.eqb (a_Error answer) "") then ret_err (ResponseError (a_Error answer) "" "") else ret_err malformed
      else match ParseDirectPostJWTResponse t (a_Response answer) (ResponseDecryptionKey tx) with
      | Err e => ret_err e
      | Ok parsed => verifyParsed tx parsed
      end
  end.

Definition verifyMdocDCAPI (data : bytes) (tx : Transaction) : prog op (res tx_error Result) :=
  if MaxMdocDCAPIResponseBytes <? blen data then ret_err malformed
  else match unmarshal_mdoc_answer data with
  | None => ret_err malformed
  | Some response =>
      if String.eqb response "" then ret_err malformed
      else match mdocDCAPIRequestOf json_doctype_value (tx_Query tx) with
      | Err _ => ret_err (serverFault (Plain "the store changed the query"))
      | Ok (cq, docType, elements) =>
          match ResponseDecryptionKey tx with
          | Some key =>
              if negb (ecdh_ok key) then ret_err (serverFault (Plain "the response decryption key"))
              else
                r <~ Verifying t (VerifyMdocDCAPI cq docType elements response (Origin tx) (MdocEncryptionInfo tx) key (ExpiresAt tx));
                match r with
                | Err e => ret_err (match as_verify e with Some _ => e | None => VerifyError ReasonMdocDCAPIResponse (Some e) end)
                | Ok result => acceptVerified tx result
                end
          | None => ret_err (serverFault (Plain "the response decryption key"))
          end
      end
  end.

(** The Update that completes a page's request, and what it releases. *)
Definition complete_page (result : Result) (now : Z) (cur : Transaction) : res tx_error (Transaction * TransactionView) :=
  match checkPending now cur with
  | Some e => Err e
  | None => Ok (release (with_progress cur TransactionDone (ResponseCodeHash cur) (Some result) ""))
  end.

Definition handlePageAnswer (id browserBinding : string) (mdocRequest : bool) (verify : Transaction -> prog op (res tx_error Result))
    : prog op (res tx_error TransactionView) :=
  r <- get id;;
  match r with
  | Err e => ret_err (storeFault e)
  | Ok tx =>
      if String.eqb (Origin tx) "" || negb (Bool.eqb (negb (String.eqb (MdocEncryptionInfo tx) "")) mdocRequest)
      then ret_err ErrTransactionUnknown
      else if negb (bindingMatches (BrowserBindingHash tx) browserBinding) then ret_err ErrWrongBrowser
      else
        now <~ Now;
        match checkPending now tx with
        | Some e => ret_err e
        | None =>
            r <- verify tx;;
            match r with
            | Err e => _ <- recordFailure id e;; ret_err e
            | Ok result =>
                r <~ update id (complete_page result);
                match r with
                | Err e => ret_err (storeFault e)
                | Ok view => ret_ok view
                end
            end
        end
  end.

Definition HandleDCAPIResponse (id browserBinding : string) (data : bytes) : prog op (res tx_error TransactionView) :=
  handlePageAnswer id browserBinding false (verifyDCAPI data).
Definition HandleMdocDCAPIResponse (id browserBinding : string) (data : bytes) : prog op (res tx_error TransactionView) :=
  handlePageAnswer id browserBinding true (verifyMdocDCAPI data).

(** ** Results *)

Definition wrong_browser_text : string := "the wallet's redirect back arrived in a different browser than the one that asked".

(** Redeem's Update: [None] for the wrong browser. *)
Definition redeem (codeHash browserBinding : string) (now : Z) (cur : Transaction) : res tx_error (Transaction * option TransactionView) :=
  if negb (bool_decide (Status cur = TransactionAwaitingRedirect)) || String.eqb (ResponseCodeHash cur) "" ||
     negb (String.eqb (ResponseCodeHash cur) codeHash) then Err ErrTransactionUnknown
  else if negb (now <? ExpiresAt cur) then Err ErrTransactionExpired
  else if negb (bindingMatches (BrowserBindingHash cur) browserBinding)
  then Ok (with_progress cur TransactionClosed "" None wrong_browser_text, None)
  else
    let '(cur, view) := release (with_progress cur TransactionDone "" (tx_Result cur) (LastError cur)) in
    Ok (cur, Some view).

Definition Redeem (responseCode browserBinding : string) : prog op (res tx_error TransactionView) :=
  if String.eqb responseCode "" then ret_err ErrTransactionUnknown
  else
    let codeHash := hashToken responseCode in
    do? id <~ StoreIDByResponseCode codeHash;
    do? view <~ update id (redeem codeHash browserBinding);
    match view with None => ret_err ErrWrongBrowser | Some view => ret_ok view end.

Definition takeResult (id : string) : prog op (res tx_error TransactionView) :=
  r <~ update id (fun _ cur =>
    match Status cur with
    | TransactionDone => Ok (release cur)
    | status => Ok (cur, viewOf cur status)
    end);
  Return r.

(** The status Lookup reports of [tx]. *)
Definition lookup_status (now : Z) (tx : Transaction) : TransactionStatus :=
  match Status tx with
  | TransactionPending | TransactionAwaitingRedirect =>
      if negb (now <? ExpiresAt tx) then TransactionExpired else Status tx
  | TransactionDone => if negb (now <? ExpiresAt tx + Lifetime (cfg t)) then TransactionExpired else TransactionDone
  | status => status
  end.

Definition Lookup (id browserBinding : string) : prog op (res tx_error TransactionView) :=
  try tx <- get id;;
  if negb (bindingMatches (BrowserBindingHash tx) browserBinding) then ret_err ErrWrongBrowser
  else
    now <~ Now;
    let status := lookup_status now tx in
    if bool_decide (status = TransactionDone) && ForgetResultOnRead (cfg t) then takeResult id
    else ret_ok (viewOf tx status).

Definition Close (id : string) : prog op (res tx_error unit) :=
  r <~ update id (fun _ cur =>
    match Status cur with
    | TransactionPending | TransactionAwaitingRedirect => Ok (with_progress cur TransactionClosed "" None (LastError cur), tt)
    | _ => Ok (cur, tt)
    end);
  Return r.

Definition Forget (id : string) : prog op (res tx_error unit) :=
  r <~ update id (fun _ cur => Ok (forget cur, tt));
  Return r.

(** ** The response endpoint

    What ResponseHandler writes: a redirect_uri or none with 200, 400 with one
    description, or 500. *)
Inductive reply : Type :=
| Processed (redirect_uri : string)
| InvalidRequest
| ServerError.

Definition answer_reply (a : answer) : reply :=
  match a with
  | (answered, None) => Processed (answered_RedirectURI answered)
  | (answered, Some e) =>
      if is_Some_b (as_response e) then Processed (answered_RedirectURI answered)
      else if as_fault e then ServerError
      else InvalidRequest
  end.

(** A form's response, error and state parameters. *)
Definition ResponseHandler (response error state : string) : prog op reply :=
  if String.eqb response "" && negb (String.eqb error "") then
    answered <- HandleUnencryptedError error state;;
    Return (Processed (answered_RedirectURI answered))
  else
    a <- HandleResponse response;;
    Return (answer_reply a).
End Of.

(** ** Running *)

Section Exec.
Context {St : Type} `{!TransactionStore St}.

(** What calls share.  A random token is the next of a supply; [refusals] is
    what OnRefused was called with. *)
Record shared : Type := {
  store : St;
  world : World;
  tokens : nat -> option string;
  drawn : nat;
  kept : nat -> Z;
  refusals : list (string * tx_error)
}.

Definition set_store (s : shared) (st : St) : shared :=
  {| store := st; world := world s; tokens := tokens s; drawn := drawn s; kept := kept s; refusals := refusals s |}.

Definition exec (X : Type) (o : op X) (s : shared) : X * shared :=
  match o with
  | Now => (Clock (world s), s)
  | RandomToken =>
      (tokens s (drawn s), {| store := store s; world := world s; tokens := tokens s; drawn := S (drawn s); kept := kept s; refusals := refusals s |})
  | Build t b => (do_build (world s) t b, s)
  | Verifying t v => (do_verify (world s) t v, s)
  | CheckStatus t r => (do_status (world s) t r, s)
  | Accept t id r => (do_accept (world s) t id r, s)
  | OnRefused _ id cause =>
      (tt, {| store := store s; world := world s; tokens := tokens s; drawn := drawn s; kept := kept s; refusals := refusals s ++ [(id, cause)] |})
  | KeptLoad t => (kept s (serial t), s)
  | KeptOr t flow =>
      (tt, {| store := store s; world := world s; tokens := tokens s; drawn := drawn s;
              kept := fun n => if Nat.eqb n (serial t) then Z.lor (kept s n) flow else kept s n; refusals := refusals s |})
  | StoreCreate tx => let '(r, st) := Create (Clock (world s)) tx (store s) in (r, set_store s st)
  | StoreGet id => (Get id (store s), s)
  | StoreUpdate id fn => let '(r, st) := Update id (fn (Clock (world s))) (store s) in (r, set_store s st)
  | StoreIDByKeyID kid => (IDByKeyID kid (store s), s)
  | StoreIDByResponseCode codeHash => (IDByResponseCode codeHash (store s), s)
  end.
End Exec.
End Calls.
