(* ===== verification/TransactionsSafe.v ===== *)
(** * What Transactions keep, however their calls interleave

    Any number of calls, of any number of Transactions that share a store, one
    operation at a time; the store may fail before or after it saves, and drop
    transactions; the clock and the world may change between any two
    operations.  Ghost state: every transaction ever saved, as last saved, with
    the call that began it, and the claims of the calls that completed one or
    released a result for good.  A transaction's life is [lifecycle]. *)
From S2P Require Import Prelude Json DcqlQuery Text Jws Prog Reasons TxStore MdocRequest Transactions.
#[local] Open Scope Z_scope.

Ltac destruct_ex_and := repeat match goal with H : exists _, _ |- _ => destruct H | H : _ /\ _ |- _ => destruct H end.

Section Safe.
Context `{Deps} {St : Type} `{!TransactionStore St} `{!TransactionStoreLaws St}.

(** ** A transaction's life *)

(** One Update: [request] never changes; an answer is recorded once, and a
    same-device request's result is done only once redeemed. *)
Inductive lifecycle (tx : Transaction) : Transaction -> Prop :=
| life_same : lifecycle tx tx
| life_refused e : Status tx = TransactionPending ->
    lifecycle tx (with_progress tx TransactionPending (ResponseCodeHash tx) (tx_Result tx) e)
| life_answered r code : Status tx = TransactionPending -> SameDevice tx = true ->
    lifecycle tx (with_progress tx TransactionAwaitingRedirect code (Some r) "")
| life_done r : Status tx = TransactionPending -> SameDevice tx = false ->
    lifecycle tx (with_progress tx TransactionDone (ResponseCodeHash tx) (Some r) "")
| life_redeemed : Status tx = TransactionAwaitingRedirect ->
    lifecycle tx (with_progress tx TransactionDone "" (tx_Result tx) (LastError tx))
| life_closed e : lifecycle tx (with_progress tx TransactionClosed "" None e).

Lemma lifecycle_request tx tx' : lifecycle tx tx' -> request tx' = request tx.
Proof using. by destruct 1. Qed.
Lemma lives_request tx tx' : rtc lifecycle tx tx' -> request tx' = request tx.
Proof using. induction 1 as [|tx t1 tx' H1 _ IH]; [done|]; by rewrite IH, (lifecycle_request _ _ H1). Qed.

Lemma lifecycle_answered tx tx' : lifecycle tx tx' -> Status tx <> TransactionPending -> Status tx' <> TransactionPending.
Proof using. by destruct 1. Qed.
Lemma lives_answered tx tx' : rtc lifecycle tx tx' -> Status tx <> TransactionPending -> Status tx' <> TransactionPending.
Proof using. induction 1 as [|tx t1 tx' H1 _ IH]; [done|]; intros Hs; by apply IH, (lifecycle_answered tx). Qed.

Lemma lifecycle_closed tx tx' : lifecycle tx tx' -> Status tx = TransactionClosed -> Status tx' = TransactionClosed.
Proof using. by destruct 1 as [| | | | |]; intros; simplify_eq; try congruence. Qed.
Lemma lives_closed tx tx' : rtc lifecycle tx tx' -> Status tx = TransactionClosed -> Status tx' = TransactionClosed.
Proof using. induction 1 as [|tx t1 tx' H1 _ IH]; [done|]; intros Hs; by apply IH, (lifecycle_closed tx). Qed.

(** ** Calls *)

Inductive call : Type :=
| CallBegin (t : Transactions) (query : Query) (browserBinding : string) (sameDevice : bool)
| CallBeginDCAPI (t : Transactions) (query : Query) (browserBinding origin : string)
| CallBeginMdocDCAPI (t : Transactions) (request : MdocDCAPIRequest) (browserBinding origin : string)
| CallRequestObject (t : Transactions) (id : string)
| CallHandleResponse (t : Transactions) (responseJWE : string)
| CallHandleUnencryptedError (t : Transactions) (code state : string)
| CallHandleDCAPIResponse (t : Transactions) (id browserBinding : string) (data : bytes)
| CallHandleMdocDCAPIResponse (t : Transactions) (id browserBinding : string) (data : bytes)
| CallRedeem (t : Transactions) (responseCode browserBinding : string)
| CallLookup (t : Transactions) (id browserBinding : string)
| CallClose (t : Transactions) (id : string)
| CallForget (t : Transactions) (id : string).

Inductive outcome : Type :=
| GotView (r : res tx_error TransactionView)
| GotAnswer (a : Answered * option tx_error)
| GotOther.

#[local] Open Scope prog_scope.

Definition call_prog (c : call) : prog op outcome :=
  match c with
  | CallBegin t query b sd => _ <- Begin t query b sd;; Return GotOther
  | CallBeginDCAPI t query b origin => _ <- BeginDCAPI t query b origin;; Return GotOther
  | CallBeginMdocDCAPI t request b origin => _ <- BeginMdocDCAPI t request b origin;; Return GotOther
  | CallRequestObject t id => _ <- GetRequestObject t id;; Return GotOther
  | CallHandleResponse t jwe => a <- HandleResponse t jwe;; Return (GotAnswer a)
  | CallHandleUnencryptedError t code state => _ <- HandleUnencryptedError t code state;; Return GotOther
  | CallHandleDCAPIResponse t id b data => r <- HandleDCAPIResponse t id b data;; Return (GotView r)
  | CallHandleMdocDCAPIResponse t id b data => r <- HandleMdocDCAPIResponse t id b data;; Return (GotView r)
  | CallRedeem t code b => r <- Redeem t code b;; Return (GotView r)
  | CallLookup t id b => r <- Lookup t id b;; Return (GotView r)
  | CallClose t id => _ <- Close t id;; Return GotOther
  | CallForget t id => _ <- Forget t id;; Return GotOther
  end.

(** The Transactions a call is of, and the browser it is from. *)
Definition call_of (c : call) : Transactions :=
  match c with
  | CallBegin t _ _ _ | CallBeginDCAPI t _ _ _ | CallBeginMdocDCAPI t _ _ _ | CallRequestObject t _ | CallHandleResponse t _
  | CallHandleUnencryptedError t _ _ | CallHandleDCAPIResponse t _ _ _ | CallHandleMdocDCAPIResponse t _ _ _ | CallRedeem t _ _
  | CallLookup t _ _ | CallClose t _ | CallForget t _ => t
  end.

Definition call_binding (c : call) : string :=
  match c with
  | CallBegin _ _ b _ | CallBeginDCAPI _ _ b _ | CallBeginMdocDCAPI _ _ b _ | CallHandleDCAPIResponse _ _ b _
  | CallHandleMdocDCAPIResponse _ _ b _ | CallRedeem _ _ b | CallLookup _ _ b => b
  | _ => EmptyString
  end.

(** What surrounds the calls: the store may drop transactions, tokens be drawn,
    and the world change. *)
Definition around (s s' : shared (St:=St)) : Prop :=
  store_ok (store s') /\ view (store s') ⊆ view (store s) /\ tokens s' = tokens s /\ (drawn s <= drawn s')%nat.

Definition exec_rel (X : Type) (o : op X) (s : shared (St:=St)) (x : X) (s' : shared) : Prop := exec X o s = (x, s').

(** ** What a transaction's result is worth *)

(** Verified for the transaction's own query, nonce, key and origin, by a
    Transactions of its scope, which its Status and Accept let pass. *)
Definition verification_of (tx : Request) (v : verification) : Prop :=
  match v with
  | VerifyResponse query _ nonce key origin =>
      query = tx_Query tx /\ nonce = Nonce tx /\ key = ResponseDecryptionKey tx /\ origin = Origin tx
  | VerifyMdocDCAPI cq docType elements _ origin info key expires =>
      mdocDCAPIRequestOf json_doctype_value (tx_Query tx) = Ok (cq, docType, elements) /\ origin = Origin tx /\
      info = MdocEncryptionInfo tx /\ Some key = ResponseDecryptionKey tx /\ expires = ExpiresAt tx
  end.

Definition passed (t : Transactions) (id : string) (r : Result) : Prop :=
  (has_Status (cfg t) = true -> exists w, do_status w t r = None) /\
  (has_Accept (cfg t) = true -> exists w, do_accept w t id r = None).

Definition verified (tx : Request) (r : Result) : Prop :=
  exists t w v, owner t = Owner tx /\ verification_of tx v /\ do_verify w t v = Ok r /\ passed t (ID tx) r.

(** The request a call begins. *)
Definition begins (c : call) (tx : Request) : Prop :=
  match c with
  | CallBegin t query b sd => exists now id keyID state nonce key object,
      tx = fresh t now id keyID state nonce query key object "" "" b sd
  | CallBeginDCAPI t query b origin => exists now id nonce key,
      tx = fresh t now id "" "" nonce query key "" (normalize_origin origin) "" b false
  | CallBeginMdocDCAPI t request b origin => exists now id key info query,
      mdocDCAPIQuery marshal_doctype json_any json_vct_values json_doctype_value request = Ok query /\
      tx = fresh t now id "" "" "" query key "" (normalize_origin origin) info b false
  | _ => False
  end.

Record genuine (c : call) (tx : Transaction) : Prop := {
  genuine_begun : begins c tx;
  genuine_result : match Status tx with
    | TransactionAwaitingRedirect => SameDevice tx = true /\ exists r, tx_Result tx = Some r /\ verified tx r
    | TransactionDone => exists r, tx_Result tx = Some r /\ verified tx r
    | TransactionExpired => False
    | _ => tx_Result tx = None
    end
}.

Lemma owner_nonempty t : owner t <> EmptyString.
Proof using.
  unfold owner, ownerScope; destruct (negb _); cbn [fst]; by rewrite append_cons.
Qed.

Lemma begins_owner c tx : begins c tx -> Owner tx = owner (call_of c).
Proof using.
  destruct c; cbn [begins call_of]; try done; intros Hb; destruct_ex_and; by subst.
Qed.

Lemma begins_binding c tx : begins c tx -> BrowserBindingHash tx = sha256 (string_bytes (call_binding c)).
Proof using. destruct c; cbn [begins call_binding]; try done; intros Hb; destruct_ex_and; by subst. Qed.

Lemma begins_page c tx : begins c tx -> Origin tx <> EmptyString -> SameDevice tx = false.
Proof using. destruct c; cbn [begins]; try done; intros Hb; destruct_ex_and; by subst. Qed.

Lemma owns_owner c (tx : Transaction) t : begins c tx -> owns t tx = true -> owner t = Owner tx.
Proof using.
  intros Hb; pose proof (begins_owner c tx Hb) as Ho; unfold owns; destruct (String.eqb_spec (Owner tx) "") as [E|].
  - rewrite Ho in E; by destruct (owner_nonempty (call_of c)).
  - intros E%String.eqb_eq; congruence.
Qed.

(** ** Ghost state *)

Inductive claim : Type :=
| Drew (n : nat)                       (* the n-th token *)
| Completed (id : string)
| Released (id : string).

Record ghost : Type := { hist : gmap string (call * Transaction); log : list claim }.

(** The supply the tokens come from, and the calls made. *)
Context (supply : nat -> option string) (calls : list call).

Record inv (g : ghost) (s : shared (St:=St)) : Prop := {
  inv_store : store_ok (store s);
  inv_supply : tokens s = supply;
  inv_view : forall id tx, view (store s) !! id = Some tx -> exists c, hist g !! id = Some (c, tx);
  inv_hist : forall id c (tx : Transaction), hist g !! id = Some (c, tx) -> ID tx = id /\ genuine c tx /\ exists n, (n < drawn s)%nat /\ supply n = Some id;
  inv_log : NoDup (log g);
  inv_drew : forall n, Drew n ∈ log g -> (n < drawn s)%nat;
  inv_completed : forall id, Completed id ∈ log g -> exists c tx, hist g !! id = Some (c, tx) /\ Status tx <> TransactionPending;
  inv_released : forall id, Released id ∈ log g -> exists c tx, hist g !! id = Some (c, tx) /\ Status tx = TransactionClosed;
  inv_calls : forall id c tx, hist g !! id = Some (c, tx) -> c ∈ calls
}.

(** Transactions go on living; a new one is begun under a token the call drew. *)
Definition trans (mine : list claim) (g g' : ghost) : Prop :=
  (forall id c tx, hist g !! id = Some (c, tx) -> exists tx', hist g' !! id = Some (c, tx') /\ rtc lifecycle tx tx') /\
  (forall id, hist g !! id = None -> is_Some (hist g' !! id) -> exists n, Drew n ∈ mine /\ supply n = Some id) /\
  (forall t, t ∈ log g -> t ∈ log g').

Lemma trans_refl mine g : trans mine g g.
Proof using. split_and!; [intros id c tx Hh; exists tx; split; [done|apply rtc_refl]| |done]; intros id Hn [x Hx]; congruence. Qed.

Lemma rely_log mine g g' t : rely trans mine g g' -> t ∈ log g -> t ∈ log g'.
Proof using. induction 1 as [|g g1 g' (m & _ & _ & _ & Hl) _ IH]; [done|]; intros Ht; by apply IH, Hl. Qed.

Lemma rely_known mine g g' id c tx : rely trans mine g g' -> hist g !! id = Some (c, tx) ->
  exists tx', hist g' !! id = Some (c, tx') /\ rtc lifecycle tx tx'.
Proof using.
  intros Hr; revert tx; induction Hr as [g|g g1 g' (m & _ & Ht & _) _ IH]; intros tx Hh; [exists tx; split; [done|apply rtc_refl]|].
  destruct (Ht _ _ _ Hh) as (t1 & H1 & Hl); destruct (IH _ H1) as (tx' & ? & ?); exists tx'; split; [done|by etransitivity].
Qed.

Lemma rely_fresh mine g g' id n : (forall a b i, supply a = Some i -> supply b = Some i -> a = b) ->
  rely trans mine g g' -> Drew n ∈ mine -> supply n = Some id -> hist g !! id = None -> hist g' !! id = None.
Proof using.
  intros Hinj Hr Hm Hs; induction Hr as [g|g g1 g' (m & Hap & _ & Ht & _) _ IH]; intros Hh; [done|]; apply IH.
  destruct (hist g1 !! id) as [x|] eqn:E; [|done]; destruct (Ht id Hh) as (a & Ha & Hsa); [by rewrite E|].
  rewrite (Hinj a n id Hsa Hs) in Ha; by destruct (Hap (Drew n) Ha Hm).
Qed.

Definition ok := safe exec_rel inv trans log (A:=outcome).
Definition part {A} := safe exec_rel inv trans log (A:=A).

Lemma inv_around g s s' : inv g s -> around s s' -> inv g s'.
Proof using.
  intros [H1 H2 H3 H4 H5 H6 H7 H8 H9] (Ho & Hv & Ht & Hd); split; try done.
  - by rewrite Ht.
  - intros id tx Htx; apply H3; by eapply lookup_weaken.
  - intros id c tx Hh; destruct (H4 _ _ _ Hh) as (? & ? & n & Hn & ?); split_and!; try done; exists n; split; [lia|done].
  - intros n Hn; pose proof (H6 n Hn); lia.
Qed.

(** ** One operation at a time *)

(** An operation that leaves the store and the tokens as they are. *)
Definition quiet {X} (o : op X) : Prop :=
  forall s : shared (St:=St), store (exec X o s).2 = store s /\ tokens (exec X o s).2 = tokens s /\ drawn (exec X o s).2 = drawn s.

Lemma part_quiet {A X} Q (o : op X) (k : X -> prog op A) g mine : quiet o ->
  (forall g1 (s : shared (St:=St)), rely trans mine g g1 -> inv g1 s -> part Q (k (exec X o s).1) g1 mine) -> part Q (Do o k) g mine.
Proof using.
  intros Hq Hk g1 s x s' Hr HI Hx; exists g1, []; cbn [app].
  assert (HI' : inv g1 s').
  { pose proof (Hq s) as Hs; rewrite Hx in Hs; cbn [snd] in Hs; destruct Hs as (H1 & H2 & H3); destruct HI as [I1 I2 I3 I4 I5 I6 I7 I8 I9].
    split; rewrite ?H1, ?H2, ?H3; done. }
  split_and!; [apply trans_refl|done|done|by destruct HI|].
  replace x with (exec X o s).1 by (by rewrite Hx); by apply Hk.
Qed.

Lemma part_any {A X} Q (o : op X) (k : X -> prog op A) g mine : quiet o ->
  (forall g1 x, rely trans mine g g1 -> part Q (k x) g1 mine) -> part Q (Do o k) g mine.
Proof using. intros Hq Hk; apply part_quiet; [done|]; intros; by apply Hk. Qed.

Context (supply_inj : forall a b id, supply a = Some id -> supply b = Some id -> a = b).

Lemma part_token {A} Q (k : option string -> prog op A) g mine :
  (forall g1 n, rely trans mine g g1 -> (forall id, supply n = Some id -> hist g1 !! id = None) ->
    part Q (k (supply n)) {| hist := hist g1; log := Drew n :: log g1 |} (Drew n :: mine)) -> part Q (Do RandomToken k) g mine.
Proof using supply_inj.
  intros Hk g1 s x s' Hr HI [= <- <-]; exists {| hist := hist g1; log := Drew (drawn s) :: log g1 |}, [Drew (drawn s)]; cbn [app log].
  assert (Hnew : Drew (drawn s) ∉ log g1) by (intros Hin; pose proof (inv_drew _ _ HI _ Hin); lia).
  destruct HI as [I1 I2 I3 I4 I5 I6 I7 I8 I9]; split_and!.
  - split_and!; cbn [hist log]; [intros id c tx Hh; exists tx; split; [done|apply rtc_refl]|intros id Hn [y Hy]; congruence|].
    intros t Ht; by right.
  - split; cbn [hist log store tokens drawn]; try done.
    + intros id c tx Hh; destruct (I4 _ _ _ Hh) as (? & ? & n & ? & ?); split_and!; try done; exists n; split; [lia|done].
    + by constructor.
    + intros n [[= ->]|Hin]%elem_of_cons; [lia|pose proof (I6 n Hin); lia].
    + intros id [?|Hin]%elem_of_cons; [done|by apply I7].
    + intros id [?|Hin]%elem_of_cons; [done|by apply I8].
  - done.
  - by constructor.
  - rewrite I2; apply Hk; [done|]; intros id Hid; destruct (hist g1 !! id) as [[c tx]|] eqn:E; [|done].
    destruct (I4 _ _ _ E) as (_ & _ & n & Hn & Hs); pose proof (supply_inj n (drawn s) id Hs Hid); lia.
Qed.

Lemma part_get {A} Q id (k : res tx_error Transaction -> prog op A) g mine :
  (forall g1 r, rely trans mine g g1 -> (forall tx, r = Ok tx -> exists c, hist g1 !! id = Some (c, tx) /\ genuine c tx /\ ID tx = id) ->
    part Q (k r) g1 mine) -> part Q (Do (StoreGet id) k) g mine.
Proof using.
  intros Hk; apply part_quiet; [by intros s|]; intros g1 s Hr HI; cbn [exec fst]; apply Hk; [done|].
  intros tx Hg; destruct (inv_view _ _ HI id tx) as [c Hc]; [apply Get_law; [by apply (inv_store _ _ HI)|done]|].
  exists c; destruct (inv_hist _ _ HI _ _ _ Hc) as (? & ? & _); done.
Qed.

(** Saving a new transaction under a token drawn for it. *)
Lemma part_create {A} Q c (tx : Transaction) n (k : res tx_error unit -> prog op A) g mine : genuine c tx -> c ∈ calls ->
  Status tx = TransactionPending -> Drew n ∈ mine -> supply n = Some (ID tx) -> Drew n ∈ log g -> hist g !! ID tx = None ->
  (forall g1 r, part Q (k r) g1 mine) -> part Q (Do (StoreCreate tx) k) g mine.
Proof using supply_inj.
  intros Hgen Hcalls Hst Hm Hs Hlog Hnone Hk g1 s x s' Hr HI Hx.
  pose proof (rely_fresh mine g g1 (ID tx) n supply_inj Hr Hm Hs Hnone) as Hnone1.
  pose proof (rely_log mine g g1 _ Hr Hlog) as Hlog1; pose proof (inv_drew _ _ HI _ Hlog1) as Hn.
  unfold exec_rel in Hx; cbn [exec] in Hx; pose proof (Create_law (Clock (world s)) tx (store s) (inv_store _ _ HI) Hst) as Hlaw.
  destruct (Create _ _ _) as [r st]; injection Hx as <- <-; destruct Hlaw as [Hok Hv]; destruct HI as [I1 I2 I3 I4 I5 I6 I7 I8 I9].
  exists {| hist := <[ID tx := (c, tx)]> (hist g1); log := log g1 |}, []; cbn [app log].
  assert (Hold : forall id x, hist g1 !! id = Some x -> <[ID tx := (c, tx)]> (hist g1) !! id = Some x).
  { intros id y Hy; rewrite lookup_insert_ne; [done|congruence]. }
  split_and!; [|split; cbn [hist log store tokens drawn set_store]; try done|done|done|by apply Hk].
  - split_and!; cbn [hist log]; [intros id k0 o Ho; exists o; split; [by apply Hold|apply rtc_refl]| |done].
    intros id Hi [y Hy]; apply lookup_insert_Some in Hy as [[<- <-]|[_ Hy]]; [eauto|congruence].
  - intros id o Ho; destruct Hv as [Hv|[_ Hv]]; pose proof (lookup_weaken _ _ _ _ Ho Hv) as Ho'.
    + destruct (I3 _ _ Ho') as [k0 Hk0]; eauto.
    + apply lookup_insert_Some in Ho' as [[<- <-]|[Hne Ho']]; [exists c; by rewrite lookup_insert_eq|].
      destruct (I3 _ _ Ho') as [k0 Hk0]; eauto.
  - intros id k0 o [[<- [= <- <-]]|[Hne Ho]]%lookup_insert_Some; [|by eapply I4]; split_and!; eauto.
  - intros id Hin; destruct (I7 id Hin) as (k0 & o & Ho & Hs0); eauto.
  - intros id Hin; destruct (I8 id Hin) as (k0 & o & Ho & Hs0); eauto.
  - intros id k0 o [[_ [= <- _]]|[_ Ho]]%lookup_insert_Some; [done|by eapply I9].
Qed.

(** An Update that is a step of the transaction's life, with the claims it
    makes good. *)
Definition claims_ok (id : string) (tx tx' : Transaction) (new : list claim) : Prop :=
  NoDup new /\ forall t, t ∈ new ->
    t = Completed id /\ Status tx = TransactionPending /\ Status tx' <> TransactionPending \/
    t = Released id /\ Status tx <> TransactionClosed /\ Status tx' = TransactionClosed.

Lemma part_update {A X} Q id (fn : Z -> Transaction -> res tx_error (Transaction * X)) (k : res tx_error X -> prog op A) g mine :
  (forall g1 e, part Q (k (Err e)) g1 mine) ->
  (forall now tx tx' x, fn now tx = Ok (tx', x) -> request tx' = request tx) ->
  (forall g1 now c tx tx' x, rely trans mine g g1 -> hist g1 !! id = Some (c, tx) -> genuine c tx -> ID tx = id -> fn now tx = Ok (tx', x) ->
    lifecycle tx tx' /\ genuine c tx' /\ exists new, claims_ok id tx tx' new /\
      part Q (k (Ok x)) {| hist := <[id := (c, tx')]> (hist g1); log := new ++ log g1 |} (new ++ mine)) ->
  part Q (Do (StoreUpdate id fn) k) g mine.
Proof using.
  intros Herr Hkeep Hk g1 s x s' Hr HI Hx; unfold exec_rel in Hx; cbn [exec] in Hx.
  pose proof (Update_law id (fn (Clock (world s))) (store s) (inv_store _ _ HI) (fun tx tx' y => Hkeep _ tx tx' y)) as Hlaw.
  destruct (Update _ _ _) as [r st]; injection Hx as <- <-; destruct Hlaw as [Hok Hlaw].
  destruct Hlaw as [[[e ->] Hv]|(tx & tx' & y & Htx & Hfn & Hv & Hr')].
  - exists g1, []; cbn [app]; split_and!; [apply trans_refl| |done|by destruct HI|apply Herr].
    destruct HI as [I1 I2 I3 I4 I5 I6 I7 I8 I9]; split; cbn [store set_store]; try done.
    intros i o Ho; apply I3; by eapply lookup_weaken.
  - destruct (inv_view _ _ HI _ _ Htx) as [c Hc]; destruct (inv_hist _ _ HI _ _ _ Hc) as (Hid & Hgen & m & Hm & Hsm).
    destruct (Hk g1 _ c tx tx' y Hr Hc Hgen Hid Hfn) as (Hl & Hgen' & own & Hown & Hsafe).
    assert (Hgo : forall new, claims_ok id tx tx' new ->
      trans (new ++ mine) g1 {| hist := <[id := (c, tx')]> (hist g1); log := new ++ log g1 |} /\
      inv {| hist := <[id := (c, tx')]> (hist g1); log := new ++ log g1 |} (set_store s st)).
    { intros new [Hnd Hnew]; destruct HI as [I1 I2 I3 I4 I5 I6 I7 I8 I9].
      assert (Hold : forall i k0 (o : Transaction), hist g1 !! i = Some (k0, o) ->
        exists o', <[id := (c, tx')]> (hist g1) !! i = Some (k0, o') /\ rtc lifecycle o o').
      { intros i k0 o Ho; destruct (decide (i = id)) as [->|Hne]; [|exists o; rewrite lookup_insert_ne by done; split; [done|apply rtc_refl]].
        rewrite Hc in Ho; injection Ho as <- <-; exists tx'; rewrite lookup_insert_eq; split; [done|by apply rtc_once]. }
      split; [split_and!; cbn [hist log]; [done| |intros t Ht; apply elem_of_app; by right]|split; cbn [hist log store tokens drawn set_store]; try done].
      - intros i Hi [z Hz]; apply lookup_insert_Some in Hz as [[<- _]|[_ Hz]]; congruence.
      - intros i o Ho; pose proof (lookup_weaken _ _ _ _ Ho Hv) as Ho'; apply lookup_insert_Some in Ho' as [[<- <-]|[Hne Ho']].
        + exists c; by rewrite lookup_insert_eq.
        + destruct (I3 _ _ Ho') as [k0 Hk0]; exists k0; by rewrite lookup_insert_ne.
      - intros i k0 o [[<- [= <- <-]]|[Hne Ho]]%lookup_insert_Some; [|by eapply I4].
        split_and!; [|done|eauto]; rewrite <- Hid; f_equal; by apply (Hkeep _ _ _ _ Hfn).
      - apply NoDup_app; split_and!; [done| |done]; intros t Ht Hin; destruct (Hnew t Ht) as [(-> & Hp & _)|(-> & Hp & _)].
        + destruct (I7 id Hin) as (k0 & o & Ho & Hs0); congruence.
        + destruct (I8 id Hin) as (k0 & o & Ho & Hs0); congruence.
      - intros i [Hi|Hi]%elem_of_app; [|by apply I6]; by destruct (Hnew _ Hi) as [[? _]|[? _]].
      - intros i [Hi|Hi]%elem_of_app.
        + destruct (Hnew _ Hi) as [([= ->] & _ & Hp)|[? _]]; [|done]; exists c, tx'; by rewrite lookup_insert_eq.
        + destruct (I7 i Hi) as (k0 & o & Ho & Hs0); destruct (Hold _ _ _ Ho) as (o' & Ho' & Hlv); exists k0, o'; split; [done|].
          by eapply lives_answered.
      - intros i [Hi|Hi]%elem_of_app.
        + destruct (Hnew _ Hi) as [[? _]|([= ->] & _ & Hp)]; [done|]; exists c, tx'; by rewrite lookup_insert_eq.
        + destruct (I8 i Hi) as (k0 & o & Ho & Hs0); destruct (Hold _ _ _ Ho) as (o' & Ho' & Hlv); exists k0, o'; split; [done|].
          by eapply lives_closed.
      - intros i k0 o [[_ [= <- _]]|[_ Ho]]%lookup_insert_Some; by eapply I9. }
    destruct Hr' as [[e ->]| ->].
    + destruct (Hgo []) as [Htr HI']; [split; [constructor|by intros t ?%elem_of_nil]|]; cbn [app] in *.
      eexists _, []; split_and!; [exact Htr|exact HI'|done|by destruct HI'|apply Herr].
    + destruct (Hgo own Hown) as [Htr HI'].
      eexists _, own; split_and!; [exact Htr|exact HI'|done|by destruct HI'|exact Hsafe].
Qed.

(** ** Parts of calls *)

Lemma rely_refl mine g : rely trans mine g g.
Proof using. apply rtc_refl. Qed.
Lemma rely_trans mine g g1 g2 : rely trans mine g g1 -> rely trans mine g1 g2 -> rely trans mine g g2.
Proof using. by intros H1 H2; etransitivity. Qed.

(** A transaction of the scope of [t], as last saved, and the call that began
    it. *)
Record known (t : Transactions) (id : string) (g : ghost) (c : call) (tx : Transaction) : Prop := {
  known_hist : hist g !! id = Some (c, tx);
  known_genuine : genuine c tx;
  known_ID : ID tx = id;
  known_owner : owner t = Owner tx
}.

Lemma part_get_owned Q t id g mine :
  (forall g1 e, rely trans mine g g1 -> Q (Err e) g1 mine) ->
  (forall g1 c tx, rely trans mine g g1 -> known t id g1 c tx -> Q (Ok tx) g1 mine) -> part Q (get t id) g mine.
Proof using.
  intros He HQ; unfold get; apply part_get; intros g1 [tx|e] Hr Hk; [|by apply He].
  destruct (owns t tx) eqn:Eo; cbn [negb]; [|by apply He]; destruct (Hk tx eq_refl) as (c & Hc & Hgen & Hid).
  apply (HQ g1 c); [done|split; try done]; eapply owns_owner; [by apply genuine_begun|done].
Qed.

Lemma part_update_owned {A X} Q t id (fn : Z -> Transaction -> res tx_error (Transaction * X)) (k : res tx_error X -> prog op A) g mine :
  (forall g1 e, part Q (k (Err e)) g1 mine) ->
  (forall now tx tx' x, fn now tx = Ok (tx', x) -> request tx' = request tx) ->
  (forall g1 now c tx tx' x, rely trans mine g g1 -> known t id g1 c tx -> fn now tx = Ok (tx', x) ->
    lifecycle tx tx' /\ genuine c tx' /\ exists new, claims_ok id tx tx' new /\
      part Q (k (Ok x)) {| hist := <[id := (c, tx')]> (hist g1); log := new ++ log g1 |} (new ++ mine)) ->
  part Q (Do (update t id fn) k) g mine.
Proof using.
  intros Herr Hkeep Hk; unfold update; apply part_update; [done|..].
  - intros now tx tx' x; destruct (owns t tx); cbn [negb]; [|done]; apply Hkeep.
  - intros g1 now c tx tx' x Hr Hc Hgen Hid; destruct (owns t tx) eqn:E; cbn [negb]; [|done]; intros Hfn.
    apply (Hk g1 now); [done|split; [done..|eapply owns_owner; [by apply genuine_begun|done]]|done].
Qed.

Lemma claims_nothing id tx tx' : claims_ok id tx tx' [].
Proof using. split; [constructor|by intros ? ?%elem_of_nil]. Qed.

(** An Update after which nothing is claimed, and whatever it gives will do. *)
Lemma part_update_plain {A X} Q t id (fn : Z -> Transaction -> res tx_error (Transaction * X)) (k : res tx_error X -> prog op A) g mine :
  (forall g1 r, part Q (k r) g1 mine) ->
  (forall now tx tx' x, fn now tx = Ok (tx', x) -> request tx' = request tx /\
    forall c, genuine c tx -> lifecycle tx tx' /\ genuine c tx') -> part Q (Do (update t id fn) k) g mine.
Proof using.
  intros Hk Hlife; apply part_update_owned; [by intros|by intros; eapply Hlife|].
  intros g1 now c tx tx' x _ Hkn Hfn; destruct (Hlife _ _ _ _ Hfn) as [_ Hl]; destruct (Hl c); [by apply Hkn|].
  split_and!; [done..|]; exists []; split; [apply claims_nothing|apply Hk].
Qed.

Lemma genuine_progress c tx status code r e : genuine c tx ->
  (match status with
   | TransactionAwaitingRedirect => SameDevice tx = true /\ exists v, r = Some v /\ verified tx v
   | TransactionDone => exists v, r = Some v /\ verified tx v
   | TransactionExpired => False
   | _ => r = None
   end) -> genuine c (with_progress tx status code r e).
Proof using. intros [Hb _] Hr; by split. Qed.

Lemma genuine_closed c tx e : genuine c tx -> genuine c (with_progress tx TransactionClosed "" None e).
Proof using. intros Hg; by apply genuine_progress. Qed.

Lemma genuine_pending_result c tx : genuine c tx -> Status tx = TransactionPending -> tx_Result tx = None.
Proof using. intros [_ Hr] Hs; by rewrite Hs in Hr. Qed.

Lemma part_recordFailure Q t id e g mine : (forall g1, Q tt g1 mine) -> part Q (recordFailure t id e) g mine.
Proof using.
  intros HQ; assert (Hrec : forall g1, part Q (Do (update t id (fun _ cur => match Status cur with
      | TransactionPending => Ok (with_progress cur (Status cur) (ResponseCodeHash cur) (tx_Result cur) (failureText e), tt)
      | _ => Err ErrTransactionAnswered end)) (fun _ => Return tt)) g1 mine).
  { intros g1; apply part_update_plain; [intros; apply HQ|]; intros now tx tx' x; destruct (Status tx) eqn:Es; try done.
    intros [= <- _]; split; [done|]; intros c Hgen; split; [by apply life_refused|].
    apply genuine_progress; [done|]; by eapply genuine_pending_result. }
  unfold recordFailure; destruct (has_OnRefused (cfg t)); [|apply Hrec].
  apply part_any; [by intros s|]; intros g1 x _; apply Hrec.
Qed.

(** Verified for [tx]. *)
Definition checked (t : Transactions) (tx : Request) (r : Result) : Prop :=
  exists w v, verification_of tx v /\ do_verify w t v = Ok r /\ passed t (ID tx) r.

(** A verification's end: as it began but for what others did, its result
    checked. *)
Definition checks (t : Transactions) (tx : Transaction) (g : ghost) (mine : list claim) (r : res tx_error Result) (g1 : ghost) (m : list claim) : Prop :=
  m = mine /\ rely trans mine g g1 /\ forall result, r = Ok result -> checked t tx result.

Lemma part_acceptVerified t (tx : Transaction) (result : Result) g g0 mine : rely trans mine g0 g ->
  (exists w v, verification_of tx v /\ do_verify w t v = Ok result) -> part (checks t tx g0 mine) (acceptVerified t tx result) g mine.
Proof using.
  intros Hr0 (w & v & Hv & Hd).
  assert (Hend : forall g1, rely trans mine g g1 -> passed t (ID tx) result -> checks t tx g0 mine (Ok result) g1 mine).
  { intros g1 Hr Hp; split_and!; [done|by eapply rely_trans|]; intros ? [= <-]; exists w, v; done. }
  assert (Haccept : forall g1, rely trans mine g g1 -> (has_Status (cfg t) = true -> exists w, do_status w t result = None) ->
    part (checks t tx g0 mine) (if has_Accept (cfg t) then
      Do (Accept t (ID tx) result) (fun e => match e with Some e => ret_err (acceptError e) | None => ret_ok result end)
      else ret_ok result) g1 mine).
  { intros g1 Hr Hs; destruct (has_Accept (cfg t)) eqn:Ea; [|apply Hend; [done|]; split; [done|by rewrite Ea]].
    apply part_quiet; [by intros s|]; intros g2 s Hr2 _; cbn [exec fst]; destruct (do_accept _ _ _ _) eqn:E.
    - split_and!; [done|eapply rely_trans; [exact Hr0|by eapply rely_trans]|done].
    - apply Hend; [by eapply rely_trans|]; split; [done|eauto]. }
  unfold acceptVerified; destruct (has_Status (cfg t)) eqn:Es; [|apply Haccept; [apply rely_refl|done]].
  apply part_quiet; [by intros s|]; intros g1 s Hr _; cbn [exec fst]; destruct (do_status _ _ _) eqn:E.
  - split_and!; [done|by eapply rely_trans|done].
  - apply Haccept; [done|]; eauto.
Qed.

Lemma part_verifyParsed t tx parsed g mine : part (checks t tx g mine) (verifyParsed t tx parsed) g mine.
Proof using.
  unfold verifyParsed; apply part_quiet; [by intros s|]; intros g1 s Hr _; cbn [exec fst]; destruct (do_verify _ _ _) as [result|e] eqn:E.
  - apply part_acceptVerified; [done|]; eexists _, _; split; [|exact E]; done.
  - split_and!; done.
Qed.

Lemma part_verify t tx jwe g mine : part (checks t tx g mine) (verify t tx jwe) g mine.
Proof using.
  unfold verify; destruct (ParseDirectPostJWTResponse _ _ _) as [parsed|e].
  - destruct (negb _); [split_and!; [done|apply rely_refl|done]|apply part_verifyParsed].
  - destruct (as_response e) as [[[? ?] ?]|]; split_and!; try done; apply rely_refl.
Qed.

Lemma part_verifyDCAPI t data tx g mine : part (checks t tx g mine) (verifyDCAPI t data tx) g mine.
Proof using.
  assert (Herr : forall e, part (checks t tx g mine) (ret_err e) g mine) by (intros e; split_and!; [done|apply rely_refl|done]).
  unfold verifyDCAPI; destruct (_ <? _); [apply Herr|]; destruct (unmarshal_answer data) as [a|]; [|apply Herr].
  destruct (String.eqb _ _); [destruct (negb _); apply Herr|]; destruct (ParseDirectPostJWTResponse _ _ _) as [parsed|e]; [|apply Herr].
  apply part_verifyParsed.
Qed.

Lemma part_verifyMdocDCAPI t data tx g mine : part (checks t tx g mine) (verifyMdocDCAPI t data tx) g mine.
Proof using.
  assert (Herr : forall e, part (checks t tx g mine) (ret_err e) g mine) by (intros e; split_and!; [done|apply rely_refl|done]).
  unfold verifyMdocDCAPI; destruct (_ <? _); [apply Herr|]; destruct (unmarshal_mdoc_answer data) as [a|]; [|apply Herr].
  destruct (String.eqb _ _); [apply Herr|]; destruct (mdocDCAPIRequestOf _ _) as [[[cq docType] elements]|] eqn:Eq; [|apply Herr].
  destruct (ResponseDecryptionKey tx) as [key|] eqn:Ek; [|apply Herr]; destruct (negb _); [apply Herr|].
  apply part_quiet; [by intros s|]; intros g1 s Hr _; cbn [exec fst]; destruct (do_verify _ _ _) as [result|e] eqn:E.
  - apply part_acceptVerified; [done|]; eexists _, _; split; [|exact E]; done.
  - split_and!; done.
Qed.

(** ** Beginning *)

Definition drew (n : nat) (g : ghost) : ghost := {| hist := hist g; log := Drew n :: log g |}.

(** A token the call drew, with nothing saved under it. *)
Record reserved (n : nat) (id : string) (g : ghost) (mine : list claim) : Prop := {
  reserved_mine : Drew n ∈ mine;
  reserved_log : Drew n ∈ log g;
  reserved_token : supply n = Some id;
  reserved_free : hist g !! id = None
}.

Lemma reserved_rely n id g g' mine : rely trans mine g g' -> reserved n id g mine -> reserved n id g' mine.
Proof using supply_inj.
  intros Hr [H1 H2 H3 H4]; split; [done|by eapply rely_log|done|by eapply rely_fresh].
Qed.

Lemma reserved_drew n id g mine m : reserved n id g mine -> reserved n id (drew m g) (Drew m :: mine).
Proof using. intros [H1 H2 H3 H4]; split; [by right|by right|done|done]. Qed.

Lemma part_draw {A} Q (k : option string -> prog op A) g mine : (forall g1 m, part Q (k None) g1 m) ->
  (forall g1 n id, rely trans mine g g1 -> reserved n id (drew n g1) (Drew n :: mine) ->
    part Q (k (Some id)) (drew n g1) (Drew n :: mine)) -> part Q (Do RandomToken k) g mine.
Proof using supply_inj.
  intros Hn Hk; apply part_token; intros g1 n Hr Hfree; destruct (supply n) as [id|] eqn:E; [|apply Hn].
  apply Hk; [done|]; split; [left|left|done|by apply Hfree].
Qed.

(** Begin calls promise nothing of what they give. *)
Definition whatever {A} (_ : A) (_ : ghost) (_ : list claim) : Prop := True.

Lemma part_create_whole t c tx n g mine : genuine c tx -> c ∈ calls -> Status tx = TransactionPending -> reserved n (ID tx) g mine ->
  part whatever (create t tx) g mine.
Proof using supply_inj.
  intros Hg Hc Hs [H1 H2 H3 H4]; unfold create; eapply part_create; [done..|].
  intros g1 [[]|e]; [|done]; apply part_any; [by intros s|]; intros g2 kept _; destruct (negb _); [done|].
  apply part_quiet; [by intros s|]; intros g3 s _ _; cbn [exec fst]; destruct (Get _ _); [|done].
  destruct (0 <? _); [done|]; apply part_any; [by intros s'|]; done.
Qed.

Lemma fresh_genuine c t now id keyID state nonce query key object origin info b sd :
  begins c (fresh t now id keyID state nonce query key object origin info b sd) ->
  genuine c (fresh t now id keyID state nonce query key object origin info b sd).
Proof using. by split. Qed.

Lemma part_fresh {A} t c now id keyID state nonce query key object origin info b sd n g mine (a : A) :
  begins c (fresh t now id keyID state nonce query key object origin info b sd) -> c ∈ calls -> reserved n id g mine ->
  part whatever (pbind (create t (fresh t now id keyID state nonce query key object origin info b sd))
    (fun r => match r with Err e => ret_err e | Ok _ => ret_ok a end)) g mine.
Proof using supply_inj.
  intros Hb Hc Hr; apply safe_pbind; eapply safe_mono; [|eapply part_create_whole; [by apply fresh_genuine|done|done|exact Hr]].
  by intros [[]|e].
Qed.

Lemma part_Begin t query b sd g mine : CallBegin t query b sd ∈ calls -> part whatever (Begin t query b sd) g mine.
Proof using supply_inj.
  intros Hc; unfold Begin; destruct (_ <? _); [done|]; destruct (String.eqb _ _); [done|]; destruct (_ && _); [done|].
  destruct (checkVerifies _ _); [done|]; apply part_draw; [done|]; intros g1 n id _ Hr1.
  apply part_draw; [done|]; intros g2 m secret Hr Hr2; apply (reserved_rely n id _ _ _ Hr), reserved_drew with (m := m) in Hr1.
  apply part_any; [by intros s|]; intros g3 [built|e] Hr3; [|done]; apply (reserved_rely n id _ _ _ Hr3) in Hr1.
  apply part_any; [by intros s|]; intros g4 now Hr4; apply (reserved_rely n id _ _ _ Hr4) in Hr1.
  eapply part_fresh; [|done|exact Hr1]; by repeat eexists.
Qed.

Lemma part_BeginDCAPI t query b origin g mine : CallBeginDCAPI t query b origin ∈ calls -> part whatever (BeginDCAPI t query b origin) g mine.
Proof using supply_inj.
  intros Hc; unfold BeginDCAPI; destruct (_ <? _); [done|]; destruct (checkDCAPIOrigin _ _); [done|].
  destruct (checkVerifies _ _); [done|]; apply part_draw; [done|]; intros g1 n id _ Hr1.
  apply part_any; [by intros s|]; intros g3 [built|e] Hr3; [|done]; apply (reserved_rely n id _ _ _ Hr3) in Hr1.
  apply part_any; [by intros s|]; intros g4 now Hr4; apply (reserved_rely n id _ _ _ Hr4) in Hr1.
  eapply part_fresh; [|done|exact Hr1]; by repeat eexists.
Qed.

Lemma part_BeginMdocDCAPI t request b origin g mine : CallBeginMdocDCAPI t request b origin ∈ calls ->
  part whatever (BeginMdocDCAPI t request b origin) g mine.
Proof using supply_inj.
  intros Hc; unfold BeginMdocDCAPI; destruct (_ <? _); [done|]; destruct (negb _); [done|]; destruct (checkDCAPIOrigin _ _); [done|].
  destruct (mdocDCAPIQuery _ _ _ _ _) as [query|] eqn:Eq; [|done].
  destruct (checkVerifies _ _); [done|]; apply part_draw; [done|]; intros g1 n id _ Hr1.
  apply part_any; [by intros s|]; intros g3 [built|e] Hr3; [|done]; apply (reserved_rely n id _ _ _ Hr3) in Hr1.
  destruct (b_Key built) as [key|]; [|done]; destruct (_ || _); [done|].
  apply part_any; [by intros s|]; intros g4 now Hr4; apply (reserved_rely n id _ _ _ Hr4) in Hr1.
  eapply part_fresh; [|done|exact Hr1]; repeat eexists; exact Eq.
Qed.

Lemma part_GetRequestObject t id g mine : part whatever (GetRequestObject t id) g mine.
Proof using.
  unfold GetRequestObject; apply safe_pbind, part_get_owned; [done|]; intros g1 c tx _ _; cbn; destruct (negb _); [done|].
  apply part_any; [by intros s|]; intros g2 now _; by destruct (negb _).
Qed.

(** ** Answering *)

(** The request saved under [id], and the call that began it. *)
Definition began (id : string) (c : call) (r : Request) (g : ghost) : Prop :=
  exists tx, hist g !! id = Some (c, tx) /\ request tx = r.

Lemma known_began t id g c tx : known t id g c tx -> began id c tx g.
Proof using. intros [Hh _ _ _]; by exists tx. Qed.

Lemma began_rely id c r g g' mine : rely trans mine g g' -> began id c r g -> began id c r g'.
Proof using.
  intros Hr (tx & Hh & <-); destruct (rely_known _ _ _ _ _ _ Hr Hh) as (tx' & Hh' & Hl); exists tx'; split; [done|].
  by apply lives_request.
Qed.

Lemma began_known t id c r g c' tx : began id c r g -> known t id g c' tx -> c' = c /\ request tx = r.
Proof using. intros (o & Hh & Hr) [Hk _ _ _]; rewrite Hh in Hk; by injection Hk as <- <-. Qed.

Lemma genuine_complete t c (cur cur' : Transaction) result code now x : genuine c cur -> owner t = Owner cur -> checked t cur result ->
  complete result code now cur = Ok (cur', x) ->
  lifecycle cur cur' /\ genuine c cur' /\ Status cur = TransactionPending /\ Status cur' <> TransactionPending.
Proof using.
  intros Hg Ho (w & v & Hv & Hd & Hp); unfold complete, checkPending; destruct (Status cur) eqn:Es; try done; destruct (negb _); [done|].
  assert (Hok : verified cur result) by (exists t, w, v; done).
  intros [= <- _]; destruct (SameDevice cur) eqn:E; split_and!; try done; [by apply life_answered| |by apply life_done|].
  all: apply genuine_progress; eauto.
Qed.

Lemma complete_request result code now (cur cur' : Transaction) x : complete result code now cur = Ok (cur', x) -> request cur' = request cur.
Proof using. unfold complete; destruct (checkPending _ _); [done|]; intros [= <- _]; by destruct (SameDevice cur). Qed.

(** An answer taken completes its request, which is this call's claim. *)
Definition answers (a : Answered * option tx_error) (g : ghost) (mine : list claim) : Prop :=
  a.2 = None -> Completed (answered_ID a.1) ∈ mine.

Lemma part_completed {A} Q t id c (r : Request) result code (k : res tx_error unit -> prog op A) g mine : began id c r g ->
  checked t r result -> (forall g1 e, part Q (k (Err e)) g1 mine) -> (forall g1, part Q (k (Ok tt)) g1 (Completed id :: mine)) ->
  part Q (Do (update t id (complete result code)) k) g mine.
Proof using.
  intros Hb Hc Herr Hk; apply part_update_owned; [done|by intros now tx tx' x ?%complete_request|].
  intros g1 now c1 tx tx' [] Hr Hkn Hfn; destruct (began_known _ _ _ _ _ _ _ (began_rely _ _ _ _ _ _ Hr Hb) Hkn) as [-> <-].
  destruct (genuine_complete t c tx tx' result code now () (known_genuine _ _ _ _ _ Hkn) (known_owner _ _ _ _ _ Hkn) Hc Hfn)
    as (Hl & Hg & Hp & Hp'); split_and!; [done..|]; exists [Completed id]; split; [|apply Hk].
  split; [apply NoDup_singleton|]; intros t0 ->%list_elem_of_singleton; by left.
Qed.

Lemma part_HandleResponse t jwe g mine : part answers (HandleResponse t jwe) g mine.
Proof using supply_inj.
  unfold HandleResponse; destruct (ResponseKeyID jwe) as [kid|]; [|done]; apply part_quiet; [by intros s|].
  intros g1 s _ _; cbn [exec fst]; destruct (IDByKeyID _ _) as [id|]; [|done]; apply safe_pbind, part_get_owned; [done|].
  intros g2 c tx _ Hkn; destruct (negb _); [done|]; apply part_any; [by intros s'|]; intros g3 now Hr3.
  destruct (checkPending _ _).
  { unfold answerNotPending; destruct (ParseDirectPostJWTResponse _ _ _); [done|]; destruct (as_response _) as [[[? ?] ?]|]; [|done].
    by destruct (negb _). }
  apply safe_pbind; eapply safe_mono; [|apply part_verify]; intros r g4 m (-> & Hr4 & Hok).
  pose proof (began_rely _ _ _ _ _ _ (rely_trans _ _ _ _ Hr3 Hr4) (known_began _ _ _ _ _ Hkn)) as Hb; destruct r as [result|e].
  - assert (Hend : forall g5 m code, began id c tx g5 -> part answers (Do (update t id (complete result code)) (fun r =>
      match r with
      | Err e => refuse (storeFault e)
      | Ok _ => Return ({| answered_ID := id; answered_RedirectURI :=
          if SameDevice tx then with_query (RedirectURI (cfg t)) "response_code" code else "" |}, None)
      end)) g5 m).
    { intros g5 m code Hb5; eapply part_completed; [exact Hb5|by apply Hok|done|]; intros g6 _; left. }
    destruct (SameDevice tx); [|by apply Hend]; apply part_draw; [done|]; intros g5 n code Hr5 _; apply Hend; by eapply began_rely in Hr5.
  - apply safe_pbind, part_recordFailure; intros g5; destruct (as_response e) as [[[? ?] ?]|]; [|done]; by destruct (SameDevice tx).
Qed.

Lemma part_HandleUnencryptedError t code state g mine : part whatever (HandleUnencryptedError t code state) g mine.
Proof using.
  unfold HandleUnencryptedError; destruct (cut _ _) as [[[|a id] secret]|]; [done| |done]; apply safe_pbind, part_get_owned; [done|].
  intros g1 c tx _ _; destruct (_ || _); [done|]; apply part_any; [by intros s|]; intros g2 now _; destruct (checkPending _ _); [done|].
  by apply safe_pbind, part_recordFailure.
Qed.

(** ** Releasing a result *)

(** A result a browser is given: verified for the request, of the scope and
    the binding it began with; and no other call is given it where it is
    forgotten once read. *)
Definition shown (t : Transactions) (binding : string) (v : TransactionView) (g : ghost) (mine : list claim) : Prop :=
  forall r, view_Result v = Some r -> exists c (tx : Request), began (view_ID v) c tx g /\ begins c tx /\ ID tx = view_ID v /\
    owner t = Owner tx /\ BrowserBindingHash tx = sha256 (string_bytes binding) /\ verified tx r /\
    (ForgetResultOnRead (cfg t) = true -> Released (view_ID v) ∈ mine).

Definition shows (t : Transactions) (binding : string) (r : res tx_error TransactionView) (g : ghost) (mine : list claim) : Prop :=
  forall v, r = Ok v -> shown t binding v g mine.

Definition releases (t : Transactions) (id : string) : list claim := if ForgetResultOnRead (cfg t) then [Released id] else [].

Lemma bindingMatches_hash hash b : bindingMatches hash b = true -> hash = sha256 (string_bytes b).
Proof using. by intros [_ E%bool_decide_eq_true]%andb_true_iff. Qed.

Lemma release_life t c (tx cur : Transaction) : lifecycle tx cur -> genuine c cur ->
  lifecycle tx (release t cur).1 /\ genuine c (release t cur).1.
Proof using.
  intros Hl Hg; unfold release; destruct (ForgetResultOnRead _); cbn [fst]; [|done]; split; [|by apply genuine_closed].
  unfold forget, with_progress; rewrite (lifecycle_request _ _ Hl); apply (life_closed tx EmptyString).
Qed.

Lemma release_request t (cur : Transaction) : request (release t cur).1 = request cur.
Proof using. unfold release; by destruct (ForgetResultOnRead _). Qed.

Lemma release_view t (cur : Transaction) : (release t cur).2 = viewOf cur TransactionDone.
Proof using. done. Qed.

Lemma release_status t (cur : Transaction) : Status (release t cur).1 = if ForgetResultOnRead (cfg t) then TransactionClosed else Status cur.
Proof using. unfold release; by destruct (ForgetResultOnRead _). Qed.

Lemma claims_release t id (tx cur : Transaction) new : Status tx <> TransactionClosed -> NoDup new ->
  (forall x, x ∈ new -> x = Completed id /\ Status tx = TransactionPending) -> Status cur = TransactionDone ->
  claims_ok id tx (release t cur).1 (new ++ releases t id).
Proof using.
  intros Hs Hnd Hnew Hd; pose proof (release_status t cur) as Hst; unfold releases; split.
  - apply NoDup_app; split_and!; [done| |destruct (ForgetResultOnRead _); [apply NoDup_singleton|constructor]].
    intros x Hx; destruct (Hnew x Hx) as [-> _]; destruct (ForgetResultOnRead _); [by intros ?%list_elem_of_singleton|by intros ?%elem_of_nil].
  - intros x [Hx|Hx]%elem_of_app.
    + destruct (Hnew x Hx); left; split_and!; [done..|]; rewrite Hst; destruct (ForgetResultOnRead _); [done|by rewrite Hd].
    + destruct (ForgetResultOnRead _); [apply list_elem_of_singleton in Hx as ->; right; done|by apply elem_of_nil in Hx].
Qed.

(** What is shown of a done transaction, once released. *)
Lemma shown_released t b id c (tx tx' cur : Transaction) g mine new : known t id g c tx -> request cur = request tx -> genuine c cur ->
  Status cur = TransactionDone -> request tx' = request tx -> BrowserBindingHash tx = sha256 (string_bytes b) ->
  (ForgetResultOnRead (cfg t) = true -> Released id ∈ new) ->
  shown t b (viewOf cur TransactionDone) {| hist := <[id := (c, tx')]> (hist g); log := mine |} new.
Proof using.
  intros [Hh Hg Hid Ho] Hr [_ Hres] Hs Hr' Hb Hf r Hv; cbn [viewOf view_ID view_Result] in *; rewrite Hs in Hres.
  destruct Hres as (r' & Er & Hver); rewrite Er in Hv; injection Hv as <-; rewrite Hr in Hver |- *; exists c, tx; rewrite Hid; split_and!; try done.
  - exists tx'; split; [cbn [hist]; by rewrite lookup_insert_eq|done].
  - by apply genuine_begun.
Qed.

Definition page_answers (t : Transactions) (binding : string) (r : res tx_error TransactionView) (g : ghost) (mine : list claim) : Prop :=
  shows t binding r g mine /\ forall v, r = Ok v -> Completed (view_ID v) ∈ mine.

Lemma part_handlePageAnswer t id b mdoc verify g mine :
  (forall tx g mine, part (checks t tx g mine) (verify tx) g mine) -> part (page_answers t b) (handlePageAnswer t id b mdoc verify) g mine.
Proof using supply_inj.
  intros Hverify; unfold handlePageAnswer; apply safe_pbind, part_get_owned; [done|]; intros g1 c tx _ Hkn.
  destruct (String.eqb (Origin tx) "" || _) eqn:Eo; [done|]; apply orb_false_iff in Eo as [Eo%String.eqb_neq _].
  destruct (bindingMatches _ _) eqn:Eb; cbn [negb]; [|done]; apply bindingMatches_hash in Eb.
  apply part_any; [by intros s|]; intros g2 now Hr2; destruct (checkPending _ _); [done|].
  apply safe_pbind; eapply safe_mono; [|apply Hverify]; intros r g3 m (-> & Hr3 & Hok); destruct r as [result|e]; [|by apply safe_pbind, part_recordFailure].
  pose proof (began_rely _ _ _ _ _ _ (rely_trans _ _ _ _ Hr2 Hr3) (known_began _ _ _ _ _ Hkn)) as Hb.
  pose proof (begins_page _ _ (genuine_begun _ _ (known_genuine _ _ _ _ _ Hkn)) Eo) as Esd; specialize (Hok _ eq_refl).
  apply part_update_owned; [done|..].
  { intros now' o o' x; unfold complete_page; destruct (checkPending _ _); [done|]; intros [= <- _]; by destruct (ForgetResultOnRead _). }
  intros g4 now' c' o o' v Hr4 Hkn'; destruct (began_known _ _ _ _ _ _ _ (began_rely _ _ _ _ _ _ Hr4 Hb) Hkn') as [-> Ereq].
  unfold complete_page, checkPending; destruct (Status o) eqn:Es; try done; destruct (negb _); [done|].
  set (cur := with_progress o TransactionDone (ResponseCodeHash o) (Some result) ""); intros [= Eo' Ev].
  assert (Hcur : lifecycle o cur /\ genuine c cur).
  { split; [apply life_done; [done|by rewrite Ereq]|]; apply genuine_progress; [by apply Hkn'|]; exists result; split; [done|].
    destruct Hok as (w & u & ? & ? & ?); exists t, w, u; rewrite Ereq, <- (known_owner _ _ _ _ _ Hkn); done. }
  destruct Hcur as [Hl Hg]; destruct (release_life t c o cur Hl Hg) as [Hl' Hg'].
  assert (E' : o' = (release t cur).1) by done; assert (Eview : v = viewOf cur TransactionDone) by done; clear Eo' Ev; subst o' v.
  split_and!; [done..|]; exists ([Completed id] ++ releases t id); split.
  - apply claims_release; [by rewrite Es|apply NoDup_singleton| |done]; by intros x ->%list_elem_of_singleton.
  - split; [intros v [= <-]|intros v [= <-]].
    + eapply shown_released; [exact Hkn'|done|done|done|by rewrite release_request|by rewrite Ereq|].
      intros E; unfold releases; rewrite E; set_solver.
    + cbn [viewOf view_ID]; assert (Ei : ID cur = id) by apply (known_ID _ _ _ _ _ Hkn'); rewrite Ei; set_solver.
Qed.

Lemma part_HandleDCAPIResponse t id b data g mine : part (page_answers t b) (HandleDCAPIResponse t id b data) g mine.
Proof using supply_inj. apply part_handlePageAnswer; intros; apply part_verifyDCAPI. Qed.
Lemma part_HandleMdocDCAPIResponse t id b data g mine : part (page_answers t b) (HandleMdocDCAPIResponse t id b data) g mine.
Proof using supply_inj. apply part_handlePageAnswer; intros; apply part_verifyMdocDCAPI. Qed.

Lemma part_Redeem t code b g mine : part (shows t b) (Redeem t code b) g mine.
Proof using.
  unfold Redeem; destruct (String.eqb _ _); [done|]; apply part_any; [by intros s|]; intros g1 [id|] _; [|done].
  apply part_update_owned; [done|..].
  { intros now o o' x; unfold redeem; destruct (_ || _); [done|]; destruct (negb _); [done|]; destruct (negb _); [by intros [= <- _]|].
    intros [= <- _]; by destruct (ForgetResultOnRead _). }
  intros g2 now c o o' v _ Hkn; unfold redeem; destruct (_ || _) eqn:Es; [done|]; destruct (negb (now <? _)); [done|].
  apply orb_false_iff in Es as [[Es _]%orb_false_iff _]; apply negb_false_iff, bool_decide_eq_true in Es.
  pose proof (known_genuine _ _ _ _ _ Hkn) as Hgen; destruct (bindingMatches _ _) eqn:Eb; cbn [negb].
  - set (cur := with_progress o TransactionDone "" (tx_Result o) (LastError o)); intros [= Eo' Ev].
    assert (Hg : genuine c cur).
    { apply genuine_progress; [done|]; destruct Hgen as [_ Hres]; rewrite Es in Hres; by destruct Hres as [_ Hres]. }
    destruct (release_life t c o cur (life_redeemed o Es) Hg) as [Hl' Hg'].
    assert (E' : o' = (release t cur).1) by done; assert (Eview : v = Some (viewOf cur TransactionDone)) by done; clear Eo' Ev; subst o' v.
    split_and!; [done..|]; exists ([] ++ releases t id); split; [apply claims_release; [by rewrite Es|constructor|by intros x ?%elem_of_nil|done]|].
    intros v [= <-]; eapply shown_released; [exact Hkn|done|done|done|by rewrite release_request|by apply bindingMatches_hash|].
    intros E; unfold releases; rewrite E; by left.
  - intros [= <- <-]; split_and!; [apply life_closed|by apply genuine_closed|]; exists []; split; [apply claims_nothing|done].
Qed.

Lemma part_takeResult t id b c (r : Request) g mine : began id c r g -> BrowserBindingHash r = sha256 (string_bytes b) ->
  ForgetResultOnRead (cfg t) = true -> part (shows t b) (takeResult t id) g mine.
Proof using.
  intros Hb Hh Hf; unfold takeResult; apply part_update_owned; [done|..].
  { intros now o o' x; destruct (Status o); intros [= <- _]; try done; by destruct (ForgetResultOnRead _). }
  intros g1 now c' o o' v Hr Hkn Hfn; destruct (began_known _ _ _ _ _ _ _ (began_rely _ _ _ _ _ _ Hr Hb) Hkn) as [-> Ereq].
  assert (Hsame : Status o <> TransactionDone -> o' = o /\ view_Result v = None).
  { intros Hs; destruct (Status o); by (injection Hfn as <- <-) || done. }
  pose proof (known_genuine _ _ _ _ _ Hkn) as Hg; destruct (decide (Status o = TransactionDone)) as [Hs|Hs].
  - rewrite Hs in Hfn; injection Hfn as Eo' Ev; destruct (release_life t c o o (life_same o) Hg) as [Hl' Hg'].
    assert (E' : o' = (release t o).1) by done; clear Eo'; subst o' v.
    split_and!; [done..|]; exists ([] ++ releases t id); split; [apply claims_release; [by rewrite Hs|constructor|by intros x ?%elem_of_nil|done]|].
    intros v [= <-]; eapply shown_released; [exact Hkn|done|done|done|by rewrite release_request|by rewrite Ereq|].
    intros E; unfold releases; rewrite E; by left.
  - destruct (Hsame Hs) as [-> Hnone]; split_and!; [apply life_same|done|]; exists []; split; [apply claims_nothing|].
    intros v' [= <-] r' Hr'; by rewrite Hnone in Hr'.
Qed.

Lemma part_Lookup t id b g mine : part (shows t b) (Lookup t id b) g mine.
Proof using.
  unfold Lookup; apply safe_pbind, part_get_owned; [done|]; intros g1 c tx _ Hkn; destruct (bindingMatches _ _) eqn:Eb; cbn [negb]; [|done].
  apply bindingMatches_hash in Eb; apply part_any; [by intros s|]; intros g2 now Hr2.
  pose proof (began_rely _ _ _ _ _ _ Hr2 (known_began _ _ _ _ _ Hkn)) as Hb; destruct (_ && _) eqn:Ed; [by eapply part_takeResult; [..|apply andb_true_iff in Ed as [_ Ed]]|].
  intros v [= <-] r; cbn [viewOf view_ID view_Result]; destruct (lookup_status t now tx) eqn:El; try done; intros Hr.
  assert (Es : Status tx = TransactionDone).
  { unfold lookup_status in El; destruct (Status tx); try done; by destruct (negb _) in El. }
  destruct Hkn as [Hh [Hbe Hres] Hid Ho]; rewrite Es in Hres; destruct Hres as (r' & Er & Hver); rewrite Er in Hr; injection Hr as <-.
  exists c, tx; rewrite Hid; split_and!; try done; intros Hf; rewrite Hf in Ed; by rewrite bool_decide_eq_true_2 in Ed.
Qed.

Lemma part_Close t id g mine : part whatever (Close t id) g mine.
Proof using.
  apply part_update_plain; [done|]; intros now tx tx' x; destruct (Status tx); intros [= <- _]; (split; [done|]); intros c Hg.
  all: by split; [constructor|try apply genuine_closed].
Qed.

Lemma part_Forget t id g mine : part whatever (Forget t id) g mine.
Proof using.
  apply part_update_plain; [done|]; intros now tx tx' x [= <- _]; split; [done|]; intros c Hg; split; [constructor|by apply genuine_closed].
Qed.

(** ** A call *)

(** The request a call completed. *)
Definition completes (c : call) (o : outcome) : option string :=
  match c, o with
  | CallHandleResponse _ _, GotAnswer (a, None) => Some (answered_ID a)
  | CallHandleDCAPIResponse _ _ _ _, GotView (Ok v) | CallHandleMdocDCAPIResponse _ _ _ _, GotView (Ok v) => Some (view_ID v)
  | _, _ => None
  end.

(** The result a call gave, and its request's ID. *)
Definition gives (o : outcome) : option (string * Result) :=
  match o with
  | GotView (Ok v) => match view_Result v with Some r => Some (view_ID v, r) | None => None end
  | _ => None
  end.

Record promise (c : call) (o : outcome) (g : ghost) (mine : list claim) : Prop := {
  promise_completed id : completes c o = Some id -> Completed id ∈ mine;
  promise_shown r v : o = GotView r -> r = Ok v -> shown (call_of c) (call_binding c) v g mine
}.

Lemma promise_other c g mine : promise c GotOther g mine.
Proof using. split; [by destruct c|done]. Qed.

Lemma promise_page c r g mine : page_answers (call_of c) (call_binding c) r g mine -> promise c (GotView r) g mine.
Proof using.
  intros [Hs Hc]; split; [|intros r' v [= <-]; apply Hs].
  intros id; destruct c; cbn [completes]; try done; destruct r as [v|]; try done; intros [= <-]; by apply Hc.
Qed.

Lemma promise_shows c r g mine : match c with CallHandleDCAPIResponse _ _ _ _ | CallHandleMdocDCAPIResponse _ _ _ _ => False | _ => True end ->
  shows (call_of c) (call_binding c) r g mine -> promise c (GotView r) g mine.
Proof using. intros Hc Hs; split; [by destruct c|intros r' v [= <-]; apply Hs]. Qed.

Lemma call_ok c g mine : c ∈ calls -> part (promise c) (call_prog c) g mine.
Proof using supply_inj.
  intros Hc; destruct c; cbn [call_prog]; apply safe_pbind.
  1: eapply safe_mono; [|by apply part_Begin].
  2: eapply safe_mono; [|by apply part_BeginDCAPI].
  3: eapply safe_mono; [|by apply part_BeginMdocDCAPI].
  4: eapply safe_mono; [|by apply part_GetRequestObject].
  6: eapply safe_mono; [|by apply part_HandleUnencryptedError].
  11: eapply safe_mono; [|by apply part_Close].
  12: eapply safe_mono; [|by apply part_Forget].
  all: try (intros x g' m _; apply promise_other).
  - eapply safe_mono; [|by apply part_HandleResponse]; intros [a [e|]] g' m Ha; split; try done; intros id [= <-]; by apply Ha.
  - eapply safe_mono; [|by apply part_HandleDCAPIResponse]; intros x g' m; apply (promise_page (CallHandleDCAPIResponse t id browserBinding data)).
  - eapply safe_mono; [|by apply part_HandleMdocDCAPIResponse]; intros x g' m; apply (promise_page (CallHandleMdocDCAPIResponse t id browserBinding data)).
  - eapply safe_mono; [|by apply part_Redeem]; intros x g' m; by apply (promise_shows (CallRedeem t responseCode browserBinding)).
  - eapply safe_mono; [|by apply part_Lookup]; intros x g' m; by apply (promise_shows (CallLookup t id browserBinding)).
Qed.
End Safe.

(** ** A Verifier small enough to run

    Transactions over the in-memory store, with libraries that do next to
    nothing: a JWE is its own payload, the state it answers with; a digest is
    its preimage; every answer verifies, its result the request's nonce. *)
From S2P Require Import DcqlValues.
From stdpp Require Import pretty.
#[local] Open Scope Z_scope.
#[local] Open Scope string_scope.

#[export] Instance example_contents : Contents := {| PrivateKey := unit; Result := string |}.

Definition example_built : Built := {| b_KeyID := "k"; b_Nonce := "n"; b_Key := Some tt; b_RequestObject := "o"; b_EncryptionInfo := "e" |}.

Definition example_answer (state : string) : wire_response :=
  {| w_VPToken := [("pid", ["c"])]; w_State := state; w_Error := if String.eqb state "refused" then "access_denied" else "";
     w_ErrorDescription := "" |}.

(** Its world is its clock. *)
#[export] Instance example_deps : Deps := {|
  World := Z;
  Clock now := now;
  do_build _ _ _ := Ok example_built;
  do_verify _ _ v := match v with VerifyResponse _ _ nonce _ _ => Ok nonce | _ => Err malformed end;
  do_status _ _ _ := None;
  do_accept _ _ _ _ := None;
  sha256 b := b;
  jwe_DecodeHeader _ := Some [("kid", VString "k"); ("enc", VString "A256GCM")];
  jwe_Decrypt _ s := Some (string_bytes s);
  unmarshal_response b := Some (example_answer (bytes_string b));
  unmarshal_answer _ := None;
  unmarshal_mdoc_answer _ := None;
  ecdh_ok _ := true;
  marshal_doctype _ := None;
  json_any _ := None;
  json_vct_values _ := None;
  json_doctype_value _ := None;
  normalize_origin o := o;
  page_origin_ok _ := true;
  with_query uri k v := uri ++ "?" ++ k ++ "=" ++ v;
  encode_values _ := "";
  error_text _ := "";
  is_print _ := true
|}.

Definition example_transactions (forget : bool) : Transactions := {|
  cfg := {| RequestURIBase := "https://v.example/request"; Lifetime := 300;
    Verify := {| has_IssuerKeys := true; has_MdocIssuerKeys := true; v_MaxKeyBindingAge := 60; TrustedAuthorities := None |};
    has_MdocDCAPI := false; has_Status := true; has_Accept := true; has_OnRefused := true; RedirectURI := "https://v.example/done";
    Origins := []; Scope := "shop"; ForgetResultOnRead := forget |};
  ClientID := "client"; ResponseURI := "https://v.example/response"; Assurance := AssuranceProduction;
  EncValuesSupported := ["A256GCM"]; serial := 0 |}.

Definition example_query : Query := {| q_Credentials := []; q_CredentialSets := [] |}.
Definition example_binding : string := "0123456789abcdef".

Definition example_start : shared (St:=VerifierTransactionStore) := {|
  store := NewVerifierTransactionStore; world := 1000; tokens := fun n => Some (pretty n); drawn := 0; kept := fun _ => 0; refusals := [] |}.

Lemma example_tokens a b id : tokens example_start a = Some id -> tokens example_start b = Some id -> a = b.
Proof. cbn; intros [= <-] [= E]; symmetry; by apply (inj pretty). Qed.

Lemma example_empty : view (store example_start) = ∅.
Proof. done. Qed.

Lemma example_store_ok : store_ok (store example_start).
Proof. by split. Qed.

(** A same-device request, answered and redeemed; and a second answer, and a
    second redemption, that come to nothing. *)
Definition example_calls (forget : bool) : list call :=
  let t := example_transactions forget in
  [CallBegin t example_query example_binding true; CallHandleResponse t "0.1"; CallHandleResponse t "0.1"; CallRedeem t "2" example_binding;
   CallRedeem t "2" example_binding].

Definition example_outcomes (forget : bool) : list outcome :=
  (run_list exec (map call_prog (example_calls forget)) example_start).1.

Definition example_end (forget : bool) : shared := (run_list exec (map call_prog (example_calls forget)) example_start).2.
