(* ===== verification/TransactionsTogether.v ===== *)
(** * Calls of Transactions together

    What [TransactionsSafe] shows of each call, of all of them: any calls, on a
    store that starts empty, stopped anywhere.  A transaction is always one its
    call began, with a result only where one was verified for it; one call
    completes a request; and a result goes to the browser that began it. *)
From S2P Require Import Prelude Json DcqlQuery Text Jws Prog Reasons TxStore MdocRequest Transactions TransactionsSafe.
#[local] Open Scope Z_scope.

Section Together.
Context `{Deps} {St : Type} `{!TransactionStore St} `{!TransactionStoreLaws St}.

(** Calls served: from a store with nothing in it, and random tokens that do
    not repeat. *)
Record served (cs : list call) (s : shared (St:=St)) (ps : list (prog op outcome)) (s' : shared (St:=St)) : Prop := {
  served_ok : store_ok (store s);
  served_empty : view (store s) = ∅;
  served_tokens a b id : tokens s a = Some id -> tokens s b = Some id -> a = b;
  served_steps : rtc (step exec_rel around) (map call_prog cs, s) (ps, s')
}.

Definition ended (cs : list call) (ps : list (prog op outcome)) (i : nat) (c : call) (o : outcome) : Prop :=
  cs !! i = Some c /\ ps !! i = Some (Return o).

Lemma served_together cs s ps s' : served cs s ps s' -> exists g claims,
  together exec_rel (inv (tokens s) cs) (trans (tokens s)) log promise cs ps s' g claims.
Proof using.
  intros [Hok Hv Hinj Hsteps]; eapply interleaved; [|exact Hsteps|..].
  - intros g s1 s2; apply inv_around.
  - instantiate (1 := {| hist := ∅; log := [] |}); split; cbn [hist log]; try done; try (by intros ? ?%elem_of_nil); [|constructor].
    by intros id tx; rewrite Hv.
  - constructor.
  - by rewrite length_map.
  - intros i c p Hc Hp; rewrite list_lookup_fmap, Hc in Hp; injection Hp as <-; apply call_ok; [done|].
    by eapply list_elem_of_lookup_2.
Qed.

(** C19: A well-formed store, always: every transaction in it, whatever calls interleave and wherever they stop, is the request some call began, holds a result only while it awaits its redirect or is done, and then one that was verified for its own query, nonce, key and origin by a Transactions of its scope whose Status and Accept let it pass. *)
Theorem served_genuine cs s ps s' id (tx : Transaction) : served cs s ps s' -> view (store s') !! id = Some tx ->
  ID tx = id /\ exists c, c ∈ cs /\ genuine c tx.
Proof using.
  intros Hs Hid; destruct (served_together _ _ _ _ Hs) as (g & claims & Ht); pose proof (together_inv _ _ _ _ _ _ _ _ _ _ Ht) as HI.
  destruct (inv_view _ _ _ _ HI _ _ Hid) as [c Hc]; destruct (inv_hist _ _ _ _ HI _ _ _ Hc) as (? & ? & _).
  split; [done|]; exists c; split; [by eapply inv_calls|done].
Qed.

(** What a call that has ended promised, still so. *)
Lemma served_ended cs s ps s' i c o : served cs s ps s' -> ended cs ps i c o -> exists g claims mine,
  together exec_rel (inv (tokens s) cs) (trans (tokens s)) log promise cs ps s' g claims /\ claims !! i = Some mine /\
  exists g0, rely (trans (tokens s)) mine g0 g /\ promise c o g0 mine.
Proof using.
  intros Hs [Hc Hp]; destruct (served_together _ _ _ _ Hs) as (g & claims & Ht).
  destruct (together_ended _ _ _ _ _ _ _ _ _ _ _ _ _ Ht Hc Hp) as (g0 & mine & Hr & Hm & Hprom); exists g, claims, mine; eauto.
Qed.

(** A claim that two calls' promises make is one call's. *)
Lemma served_claim cs s ps s' i j c c' o o' t : served cs s ps s' -> ended cs ps i c o -> ended cs ps j c' o' ->
  (forall g mine, promise c o g mine -> t ∈ mine) -> (forall g mine, promise c' o' g mine -> t ∈ mine) -> i = j.
Proof using.
  intros Hs [Hi Hpi] [Hj Hpj] H1 H2; destruct (served_together _ _ _ _ Hs) as (g & claims & Ht).
  destruct (together_ended _ _ _ _ _ _ _ _ _ _ _ _ _ Ht Hi Hpi) as (g0 & mine & _ & Hm & Hp).
  destruct (together_ended _ _ _ _ _ _ _ _ _ _ _ _ _ Ht Hj Hpj) as (g1 & mine' & _ & Hm' & Hp').
  by eapply together_exclusive; [exact Ht|exact Hm|exact Hm'|eapply H1|eapply H2].
Qed.

(** C12: A request is answered at most once: of all the calls that ended, by interleaving as they may, with the store failing and dropping what it likes, at most one completed it - one direct_post answer, or one page's answer. *)
Theorem served_completes_once cs s ps s' i j c c' o o' id : served cs s ps s' ->
  ended cs ps i c o -> ended cs ps j c' o' -> completes c o = Some id -> completes c' o' = Some id -> i = j.
Proof using.
  intros Hs Hi Hj H1 H2; eapply (served_claim cs s ps s' i j c c' o o' (Completed id)); [done..| |].
  all: intros g mine [Hp _]; by apply Hp.
Qed.

Lemma gives_view o id r : gives o = Some (id, r) -> exists v, o = GotView (Ok v) /\ view_ID v = id /\ view_Result v = Some r.
Proof using.
  destruct o as [[v|e]|a|]; cbn [gives]; try done; destruct (view_Result v) eqn:E; [|done]; intros [= <- <-]; eauto.
Qed.

(** C2: A result goes only where it belongs: whatever calls interleave, a call that gives a result is of the scope and has the browser binding (by its SHA-256) of the one call that began that request, and the result was verified for that request's own query, nonce, key and origin. *)
Theorem served_result_binding cs s ps s' i c o id r : served cs s ps s' -> ended cs ps i c o -> gives o = Some (id, r) ->
  exists c0 (tx : Request), c0 ∈ cs /\ begins c0 tx /\ ID tx = id /\ owner (call_of c) = owner (call_of c0) /\
    sha256 (string_bytes (call_binding c)) = sha256 (string_bytes (call_binding c0)) /\ verified tx r.
Proof using.
  intros Hs He Hg; destruct (served_ended _ _ _ _ _ _ _ Hs He) as (g & claims & mine & Ht & _ & g0 & Hr & Hprom).
  destruct (gives_view _ _ _ Hg) as (v & -> & <- & Hv).
  destruct (promise_shown _ _ _ _ Hprom _ _ eq_refl eq_refl _ Hv) as (c0 & tx & Hb & Hbeg & Hid & Ho & Hbind & Hver & _).
  apply (began_rely (tokens s) _ _ _ _ _ mine Hr) in Hb as (o & Hh & _).
  exists c0, tx; split_and!; try done.
  - eapply inv_calls; [by eapply together_inv|exact Hh].
  - by rewrite Ho; apply begins_owner.
  - by rewrite <- Hbind; apply begins_binding.
Qed.

(** Where results are forgotten once read, one call gets a request's result, and no other does: not by redeeming its code, looking it up or answering through its page, however they race. *)
Theorem served_releases_once cs s ps s' i j c c' o o' id r r' : served cs s ps s' ->
  ended cs ps i c o -> ended cs ps j c' o' -> gives o = Some (id, r) -> gives o' = Some (id, r') ->
  ForgetResultOnRead (cfg (call_of c)) = true -> ForgetResultOnRead (cfg (call_of c')) = true -> i = j.
Proof using.
  intros Hs Hi Hj H1 H2 F1 F2; destruct (gives_view _ _ _ H1) as (v & -> & <- & Hv), (gives_view _ _ _ H2) as (v' & -> & Hid & Hv').
  eapply (served_claim cs s ps s' i j c c' _ _ (Released (view_ID v))); [done..| |].
  - intros g mine [_ Hp]; destruct (Hp _ _ eq_refl eq_refl _ Hv) as (? & ? & _ & _ & _ & _ & _ & _ & Hf); by apply Hf.
  - intros g mine [_ Hp]; destruct (Hp _ _ eq_refl eq_refl _ Hv') as (? & ? & _ & _ & _ & _ & _ & _ & Hf); rewrite <- Hid; by apply Hf.
Qed.
End Together.

(** ** An example served *)

Lemma example_served forget : served (example_calls forget) example_start (map Return (example_outcomes forget)) (example_end forget).
Proof. split; [exact example_store_ok|exact example_empty|exact example_tokens|apply run_list_steps]. Qed.

Lemma example_ended forget i c o : example_calls forget !! i = Some c -> example_outcomes forget !! i = Some o ->
  ended (example_calls forget) (map Return (example_outcomes forget)) i c o.
Proof. intros Hc Ho; split; [done|]; by rewrite list_lookup_fmap, Ho. Qed.

Lemma served_genuine_witness : exists (tx : Transaction) c, view (store (example_end false)) !! "0"%string = Some tx /\
  Status tx = TransactionDone /\ ID tx = "0"%string /\ c ∈ example_calls false /\ genuine c tx.
Proof.
  destruct (view (store (example_end false)) !! "0"%string) as [tx|] eqn:E; [|vm_compute in E; discriminate].
  destruct (served_genuine _ _ _ _ _ _ (example_served false) E) as (Hid & c & Hc & Hg); exists tx, c; split_and!; try done.
  vm_compute in E; by injection E as <-.
Defined.

Lemma served_completes_once_witness : served (example_calls true) example_start (map Return (example_outcomes true)) (example_end true) /\
  forall j c o, ended (example_calls true) (map Return (example_outcomes true)) j c o -> completes c o = Some "0"%string -> j = 1%nat.
Proof.
  split; [apply example_served|]; intros j c o He Hc; symmetry; eapply (served_completes_once _ _ _ _ 1 j _ c _ o "0" (example_served true)); [..|exact Hc].
  - by apply example_ended; [|vm_compute].
  - exact He.
  - by vm_compute.
Defined.

Lemma served_result_binding_witness : exists c0 (tx : Request), c0 ∈ example_calls true /\ begins c0 tx /\
  sha256 (string_bytes example_binding) = sha256 (string_bytes (call_binding c0)) /\ verified tx "n"%string.
Proof.
  destruct (served_result_binding (example_calls true) example_start (map Return (example_outcomes true)) (example_end true) 3
    (CallRedeem (example_transactions true) "2" example_binding) (default GotOther (example_outcomes true !! 3%nat)) "0" "n")
    as (c0 & tx & ? & ? & ? & ? & ? & ?); [apply example_served|by apply example_ended; [|vm_compute]|by vm_compute|].
  exists c0, tx; done.
Defined.

Lemma served_releases_once_witness : served (example_calls true) example_start (map Return (example_outcomes true)) (example_end true) /\
  forall j c o r, ended (example_calls true) (map Return (example_outcomes true)) j c o ->
  gives o = Some ("0"%string, r) -> ForgetResultOnRead (cfg (call_of c)) = true -> j = 3%nat.
Proof.
  split; [apply example_served|]; intros j c o r He Hg Hf; symmetry.
  eapply (served_releases_once _ _ _ _ 3 j _ c _ o "0" "n" r (example_served true)); [..|exact He| |exact Hg| |exact Hf].
  - by apply (example_ended true 3 (CallRedeem (example_transactions true) "2" example_binding)); [|vm_compute].
  - by vm_compute.
  - done.
Defined.
