(* ===== verification/TransactionsUse.v ===== *)
(** * What comes of a request that is answered

    Over a store that works: answers that were refused, and error responses,
    leave a request as open as it was; and then a wallet that answers it
    completes it, and the browser that asked gets the result. *)
From Stdlib Require Import Ascii.
From stdpp Require Import pretty.
From S2P Require Import Prelude B64Url Json DcqlQuery DcqlValues Text Jws Prog Reasons TxStore MdocRequest Transactions TransactionsSafe.
#[local] Open Scope Z_scope.

Section Use.
Context `{Deps} {St : Type} `{!TransactionStore St} `{!TransactionStoreLaws St} `{!TransactionStoreWorks St}.

Definition set_world (s : shared (St:=St)) (w : World) : shared :=
  {| store := store s; world := w; tokens := tokens s; drawn := drawn s; kept := kept s; refusals := refusals s |}.

(** ** Operations *)

Lemma run_get t id s (tx : Transaction) : store_ok (store s) -> view (store s) !! id = Some tx -> owns t tx = true ->
  run exec (get t id) s = (Ok tx, s).
Proof using TransactionStoreWorks0.
  intros Hok Hv Ho; unfold get; cbn [run exec]; by rewrite (Get_works id (store s) tx Hok Hv), Ho.
Qed.

Lemma run_get_known t id s : store_ok (store s) -> exists r, run exec (get t id) s = (r, s) /\
  forall tx, r = Ok tx -> view (store s) !! id = Some tx /\ owns t tx = true.
Proof using.
  intros Hok; unfold get; cbn [run exec]; destruct (Get id (store s)) as [tx|e] eqn:E; [|by exists (Err e)].
  apply Get_law in E; [|done]; destruct (owns t tx) eqn:Eo; cbn [negb run ret_ok ret_err]; [|by exists (Err ErrTransactionUnknown)].
  exists (Ok tx); split; [done|]; by intros ? [= <-].
Qed.

(** An Update's effect on a transaction of [t]. *)
Lemma exec_update {X} t id (fn : Z -> Transaction -> res tx_error (Transaction * X)) s (cur : Transaction) : store_ok (store s) ->
  codes_ok (store s) -> keeps_request (fn (Clock (world s))) -> view (store s) !! id = Some cur -> owns t cur = true ->
  (forall tx' x, fn (Clock (world s)) cur = Ok (tx', x) -> ResponseCodeHash tx' = EmptyString \/
    forall id' (o : Transaction), view (store s) !! id' = Some o -> ResponseCodeHash o = ResponseCodeHash tx' -> id' = id) ->
  exists st, exec _ (update t id fn) s = (match fn (Clock (world s)) cur with Ok (_, x) => Ok x | Err e => Err e end, set_store s st) /\
    store_ok st /\ codes_ok st /\
    view st = match fn (Clock (world s)) cur with Ok (tx', _) => <[id := tx']> (view (store s)) | Err _ => view (store s) end.
Proof using.
  intros Hok Hcodes Hkeep Hv Ho Hnew; unfold update; cbn [exec].
  set (fn' := fun cur : Transaction => if negb (owns t cur) then Err ErrTransactionUnknown else fn (Clock (world s)) cur).
  assert (Efn : fn' cur = fn (Clock (world s)) cur) by (unfold fn'; by rewrite Ho).
  assert (Hk : keeps_request fn') by (intros o o' x; unfold fn'; destruct (owns t o); cbn [negb]; [apply Hkeep|done]).
  destruct (Update_works id fn' (store s) cur Hok Hcodes Hk Hv) as (st & Hu & Hc & Hview); [by rewrite Efn|].
  pose proof (Update_law id fn' (store s) Hok Hk) as Hlaw; rewrite Hu in Hlaw |- *; rewrite Efn in Hview |- *.
  exists st; split_and!; [done|apply Hlaw|done|done].
Qed.

(** ** An open request *)

(** Codes still to be drawn hash to nothing saved, nor to each other. *)
Record codes_fresh (s : shared (St:=St)) : Prop := {
  fresh_saved n code id (o : Transaction) : (drawn s <= n)%nat -> tokens s n = Some code -> view (store s) !! id = Some o ->
    ResponseCodeHash o <> hashToken code;
  fresh_pending id (o : Transaction) : view (store s) !! id = Some o -> Status o = TransactionPending -> ResponseCodeHash o = EmptyString;
  fresh_apart a b x y : tokens s a = Some x -> tokens s b = Some y -> hashToken x = hashToken y -> a = b;
  fresh_hash a x : tokens s a = Some x -> x <> EmptyString /\ hashToken x <> EmptyString
}.

Record live (r : Request) (s : shared (St:=St)) : Prop := {
  live_ok : store_ok (store s);
  live_codes : codes_ok (store s);
  live_fresh : codes_fresh s;
  live_open : exists tx : Transaction, view (store s) !! ID r = Some tx /\ request tx = r /\ Status tx = TransactionPending
}.

Lemma live_quiet r (s s' : shared (St:=St)) : store s' = store s -> tokens s' = tokens s -> (drawn s <= drawn s')%nat -> live r s -> live r s'.
Proof using.
  intros Es Et Hd [H1 H2 [F1 F2 F3 F4] H4]; split; rewrite ?Es; [done|done| |done]; split; rewrite ?Es, ?Et; [|done..].
  intros n code id o Hn; apply F1; lia.
Qed.

(** A transaction saved with no new code, or with one drawn before. *)
Lemma live_saved r s st id (cur cur' : Transaction) : live r s -> store_ok st -> codes_ok st -> view (store s) !! id = Some cur ->
  view st = <[id := cur']> (view (store s)) -> request cur' = request cur -> (Status cur' = TransactionPending \/ id <> ID r) ->
  (Status cur' = TransactionPending -> ResponseCodeHash cur' = EmptyString) ->
  (forall n code, (drawn s <= n)%nat -> tokens s n = Some code -> ResponseCodeHash cur' <> hashToken code) -> live r (set_store s st).
Proof using.
  intros [H1 H2 [F1 F2 F3 F4] (tx & Htx & Hr & Hp)] Hok Hc Hv Hview Hreq Hs Hcode Hnew.
  split; cbn [set_store store tokens drawn]; [done|done|split; cbn [set_store store tokens drawn]; [| |done|done]|].
  - intros n code i o Hn Hcn; rewrite Hview; intros [[<- <-]|[_ Ho]]%lookup_insert_Some; [by eapply Hnew|by eapply F1].
  - intros i o; rewrite Hview; intros [[<- <-]|[_ Ho]]%lookup_insert_Some; [done|by eapply F2].
  - rewrite Hview; destruct (decide (id = ID r)) as [->|Hne]; [|exists tx; by rewrite lookup_insert_ne].
    exists cur'; rewrite lookup_insert_eq; split_and!; [done| |by destruct Hs]; rewrite Hv in Htx; injection Htx as ->; congruence.
Qed.

Lemma live_unsaved r s st : live r s -> store_ok st -> codes_ok st -> view st = view (store s) -> live r (set_store s st).
Proof using.
  intros [H1 H2 [F1 F2 F3 F4] H4] Hok Hc Hview; split; cbn [set_store store]; rewrite ?Hview; [done|done| |done].
  split; cbn [set_store store tokens drawn]; rewrite ?Hview; done.
Qed.

(** Refusals leave every request open. *)
Lemma live_refusal r t id cause s cur : live r s -> view (store s) !! id = Some cur -> owns t cur = true ->
  live r (exec _ (update t id (fun _ cur => match Status cur with
      | TransactionPending => Ok (with_progress cur (Status cur) (ResponseCodeHash cur) (tx_Result cur) (failureText cause), tt)
      | _ => Err ErrTransactionAnswered end)) s).2.
Proof using.
  intros Hl Hv Ho; pose proof Hl as [H1 H2 [F1 F2 F3 F4] _].
  set (fn := fun (_ : Z) (cur : Transaction) => match Status cur with
    | TransactionPending => Ok (with_progress cur (Status cur) (ResponseCodeHash cur) (tx_Result cur) (failureText cause), tt)
    | _ => Err ErrTransactionAnswered end).
  destruct (exec_update t id fn s cur H1 H2) as (st & -> & Hok & Hc & Hview); [|done|done|..].
  - intros o o' x; unfold fn; destruct (Status o); try done; by intros [= <- _].
  - intros tx' x; unfold fn; destruct (Status cur) eqn:Es; try done; intros [= <- _]; left; cbn; by eapply F2.
  - cbn [snd]; unfold fn in Hview; destruct (Status cur) eqn:Es.
    2-5: by apply live_unsaved.
    eapply live_saved; [done..|exact Hview|done|by left|intros _; cbn; by eapply F2|].
    intros n code Hn Hcode; cbn; by eapply F1.
Qed.

Lemma live_recordFailure r t id cause s cur : live r s -> view (store s) !! id = Some cur -> owns t cur = true ->
  live r (run exec (recordFailure t id cause) s).2.
Proof using.
  intros Hl Hv Ho; unfold recordFailure; destruct (has_OnRefused (cfg t)); cbn [run exec].
  all: match goal with |- context [exec _ ?o ?s1] => pose proof (live_refusal r t id cause s1 cur) as Hlr; destruct (exec _ o s1) end.
  all: cbn [run snd]; apply Hlr; [by apply (live_quiet r s)|done..].
Qed.

(** ** An answer *)

Lemma run_acceptVerified t (tx : Transaction) result s : (run exec (acceptVerified t tx result) s).2 = s.
Proof using.
  unfold acceptVerified; destruct (has_Status (cfg t)), (has_Accept (cfg t)); cbn [run exec]; try done.
  - destruct (do_status (world s) _ _); cbn [run exec]; [done|]; by destruct (do_accept (world s) _ _ _).
  - by destruct (do_status (world s) _ _).
  - by destruct (do_accept (world s) _ _ _).
Qed.

Lemma run_verify t tx jwe s : (run exec (verify t tx jwe) s).2 = s.
Proof using.
  unfold verify, verifyParsed; destruct (ParseDirectPostJWTResponse _ _ _) as [parsed|e]; [|by destruct (as_response e) as [[[? ?] ?]|]].
  destruct (negb _); [done|]; cbn [run exec]; destruct (do_verify (world s) _ _); cbn [run]; [apply run_acceptVerified|done].
Qed.

(** What a transaction becomes once [result] answers it. *)
Definition completed_as (result : Result) (code : string) (cur : Transaction) : Transaction :=
  if SameDevice cur then with_progress cur TransactionAwaitingRedirect (hashToken code) (Some result) ""
  else with_progress cur TransactionDone (ResponseCodeHash cur) (Some result) "".

(** A code drawn, that nothing saved has. *)
Definition spare (code : string) (s : shared (St:=St)) : Prop :=
  (exists n, (n < drawn s)%nat /\ tokens s n = Some code) /\
  forall id (o : Transaction), view (store s) !! id = Some o -> ResponseCodeHash o <> hashToken code.

Lemma exec_complete r t id result code s cur : live r s -> view (store s) !! id = Some cur -> owns t cur = true ->
  (SameDevice cur = true -> spare code s) ->
  exists st, exec _ (update t id (complete result code)) s =
      (match checkPending (Clock (world s)) cur with Some e => Err e | None => Ok tt end, set_store s st) /\
    store_ok st /\ codes_ok st /\
    view st = match checkPending (Clock (world s)) cur with Some _ => view (store s) | None => <[id := completed_as result code cur]> (view (store s)) end.
Proof using.
  intros [H1 H2 [F1 F2 F3 F4] _] Hv Ho Hcode; destruct (exec_update t id (complete result code) s cur H1 H2) as (st & Hu & Hok & Hc & Hview); [|done|done|..].
  - intros o o' x; unfold complete; destruct (checkPending _ _); [done|]; intros [= <- _]; by destruct (SameDevice o).
  - intros tx' x; unfold complete, checkPending; destruct (Status cur) eqn:Es; try done; destruct (negb _); [done|]; intros [= <- _].
    destruct (SameDevice cur); cbn [with_progress ResponseCodeHash]; [right|left; by eapply F2].
    intros i o Hio Hh; destruct (proj2 (Hcode eq_refl) _ _ Hio Hh).
  - exists st; unfold complete in Hu, Hview; destruct (checkPending _ _); done.
Qed.

(** Unless it completes [r] itself. *)
Lemma live_completed r t id result code s cur : live r s -> view (store s) !! id = Some cur -> owns t cur = true ->
  (SameDevice cur = true -> spare code s) -> (checkPending (Clock (world s)) cur = None -> id <> ID r) ->
  live r (exec _ (update t id (complete result code)) s).2.
Proof using.
  intros Hl Hv Ho Hcode Hid; pose proof Hl as [_ _ [F1 F2 F3 F4] _].
  destruct (exec_complete r t id result code s cur Hl Hv Ho Hcode) as (st & -> & Hok & Hc & Hview); cbn [snd].
  destruct (checkPending _ _) eqn:Ec; [by apply live_unsaved|]; eapply live_saved; [exact Hl|exact Hok|exact Hc|exact Hv|exact Hview| |right; by apply Hid|..].
  - unfold completed_as; by destruct (SameDevice cur).
  - unfold completed_as; by destruct (SameDevice cur).
  - intros m c Hm Hcm; unfold completed_as; destruct (SameDevice cur); cbn [with_progress ResponseCodeHash]; [|by eapply F1].
    destruct (Hcode eq_refl) as [(n & Hn & Hcn) _]; intros E; pose proof (F3 _ _ _ _ Hcn Hcm E); lia.
Qed.

(** A token drawn is spare. *)
Definition drew_token (s : shared (St:=St)) : shared (St:=St) :=
  {| store := store s; world := world s; tokens := tokens s; drawn := S (drawn s); kept := kept s; refusals := refusals s |}.

Lemma live_drew r s : live r s -> live r (drew_token s).
Proof using. by apply live_quiet; [..|cbn; lia]. Qed.

Lemma drew_spare s code : codes_fresh s -> tokens s (drawn s) = Some code -> spare code (drew_token s).
Proof using. intros [F1 F2 F3 F4] Hc; split; [exists (drawn s); cbn; split; [lia|done]|]; intros id o Ho; by eapply F1. Qed.

(** What a completing Update gives its call. *)
Lemma run_completed {A} r t id result code s cur (a : A) (f : tx_error -> A) : live r s -> view (store s) !! id = Some cur ->
  owns t cur = true -> (SameDevice cur = true -> spare code s) ->
  let p := Do (update t id (complete result code)) (fun x => match x with Err e => Return (f e) | Ok _ => Return a end) in
  let '(x, s') := run exec p s in
  x = match checkPending (Clock (world s)) cur with Some e => f e | None => a end /\
  (id <> ID r \/ checkPending (Clock (world s)) cur <> None -> live r s').
Proof using.
  intros Hl Hv Ho Hcode; cbn [run]; pose proof (live_completed r t id result code s cur Hl Hv Ho Hcode) as Hlive.
  destruct (exec_complete r t id result code s cur Hl Hv Ho Hcode) as (st & E & _); rewrite E in Hlive |- *; cbn [snd] in Hlive.
  destruct (checkPending _ _) as [e|]; cbn [run]; (split; [done|]); intros Hid; apply Hlive; [done|].
  intros _; by destruct Hid.
Qed.

Lemma HandleResponse_live r t jwe s : live r s -> let '((a, e), s') := run exec (HandleResponse t jwe) s in
  (e = None -> answered_ID a <> ID r) -> live r s'.
Proof using.
  intros Hl; unfold HandleResponse; destruct (ResponseKeyID jwe) as [kid|]; [|by cbn]; cbn [run exec].
  destruct (IDByKeyID _ _) as [id|]; [|by cbn]; rewrite run_pbind; destruct (run_get_known t id s (live_ok _ _ Hl)) as ([tx|e] & -> & Hget); [|by cbn].
  destruct (Hget tx eq_refl) as [Hv Ho]; destruct (negb _); [by cbn|]; cbn [run exec]; destruct (checkPending _ _).
  { destruct (answerNotPending _ _ _ _) as [a' e']; by cbn [run]. }
  rewrite run_pbind; pose proof (run_verify t tx jwe s) as Hver; destruct (run exec (verify t tx jwe) s) as [[result|e] s1]; cbn [snd] in Hver; subst s1.
  - assert (Hend : forall s1 code uri, live r s1 -> view (store s1) !! id = Some tx -> (SameDevice tx = true -> spare code s1) ->
      let '((a, e), s') := run exec (Do (update t id (complete result code)) (fun x => match x with
        | Err e => refuse (storeFault e)
        | Ok _ => Return ({| answered_ID := id; answered_RedirectURI := uri |}, None) end)) s1 in
      (e = None -> answered_ID a <> ID r) -> live r s').
    { intros s1 code uri Hl1 Hv1 Hcode.
      pose proof (run_completed r t id result code s1 tx ({| answered_ID := id; answered_RedirectURI := uri |}, None)
        (fun e => (not_answered, Some (storeFault e))) Hl1 Hv1 Ho Hcode) as Hrun; cbn zeta in Hrun; unfold refuse.
      destruct (run _ _ s1) as [[a e] s2]; destruct Hrun as [Hx Hlive]; intros Hid; apply Hlive.
      destruct (checkPending _ _) as [e'|]; [by right|left]; injection Hx as -> ->; by apply Hid. }
    destruct (SameDevice tx) eqn:Esd; [|by apply Hend]; cbn [run exec]; fold (drew_token s).
    destruct (tokens s (drawn s)) as [code|] eqn:Et; [|intros _; by apply live_drew].
    apply Hend; [by apply live_drew|done|intros _]; by apply drew_spare; [apply Hl|].
  - rewrite run_pbind; pose proof (live_recordFailure r t id e s tx Hl Hv Ho) as Hrec; destruct (run exec (recordFailure t id e) s) as [[] s1].
    cbn [snd] in Hrec; destruct (as_response e) as [[[? ?] ?]|]; [destruct (SameDevice tx)|]; by cbn.
Qed.

Lemma HandleUnencryptedError_live r t code state s : live r s -> live r (run exec (HandleUnencryptedError t code state) s).2.
Proof using.
  intros Hl; unfold HandleUnencryptedError; destruct (cut _ _) as [[[|c id] secret]|]; [done| |done].
  rewrite run_pbind; destruct (run_get_known t (String.String c id) s (live_ok _ _ Hl)) as ([tx|e] & -> & Hget); [|done].
  destruct (Hget tx eq_refl) as [Hv Ho]; destruct (_ || _); [done|]; cbn [run exec]; destruct (checkPending _ _); [done|].
  rewrite run_pbind; pose proof (live_recordFailure r t (String.String c id) (ResponseError (errorCodeOf code) "" "") s tx Hl Hv Ho) as Hrec.
  by destruct (run exec (recordFailure _ _ _) s) as [[] s1].
Qed.

(** ** Whatever comes before *)

(** What may happen around an open request without answering it: time and the
    world change, and others answer it wrongly, or answer other requests. *)
Inductive idle (r : Request) : shared (St:=St) -> shared (St:=St) -> Prop :=
| idle_world s w : idle r s (set_world s w)
| idle_answer t jwe s a e s' : run exec (HandleResponse t jwe) s = ((a, e), s') -> (e = None -> answered_ID a <> ID r) -> idle r s s'
| idle_error t code state s : idle r s (run exec (HandleUnencryptedError t code state) s).2.

Lemma idle_live r s s' : idle r s s' -> live r s -> live r s'.
Proof using.
  destruct 1 as [s w|t jwe s a e s' Hrun Hid|t code state s]; intros Hl; [by apply (live_quiet r s)| |by apply HandleUnencryptedError_live].
  pose proof (HandleResponse_live r t jwe s Hl) as Hlive; rewrite Hrun in Hlive; by apply Hlive.
Qed.

Lemma idles_live r s s' : rtc (idle r) s s' -> live r s -> live r s'.
Proof using. induction 1; [done|]; intros Hl; by apply IHrtc; eapply idle_live. Qed.

(** ** A right answer *)

Lemma owns_Owner t (tx : Transaction) : owner t = Owner tx -> owns t tx = true.
Proof using.
  intros Ho; unfold owns; destruct (String.eqb_spec (Owner tx) "") as [E|_]; [|by rewrite Ho; apply String.eqb_refl].
  rewrite E in Ho; by destruct (owner_nonempty t).
Qed.

(** An answer that verifies for [r], in the state it arrives in. *)
Record right_answer (t : Transactions) (r : Request) (jwe : string) (result : Result) (s : shared (St:=St)) : Prop := {
  right_owner : owner t = Owner r;
  right_flow : Origin r = EmptyString;
  right_key : KeyID r <> EmptyString /\ ResponseKeyID jwe = Ok (KeyID r);
  right_time : Clock (world s) < ExpiresAt r;
  right_verify : exists parsed, ParseDirectPostJWTResponse t jwe (ResponseDecryptionKey r) = Ok parsed /\ r_State parsed = State r /\
    do_verify (world s) t (VerifyResponse (tx_Query r) parsed (Nonce r) (ResponseDecryptionKey r) EmptyString) = Ok result;
  right_status : has_Status (cfg t) = true -> do_status (world s) t result = None;
  right_accept : has_Accept (cfg t) = true -> do_accept (world s) t (ID r) result = None
}.

Lemma run_right_verify t (tx : Transaction) jwe result s : right_answer t tx jwe result s -> run exec (verify t tx jwe) s = (Ok result, s).
Proof using.
  intros [_ Horig _ _ (parsed & Hp & Hst & Hv) Hs Ha]; unfold verify; rewrite Hp; unfold state_is; rewrite Hst, String.eqb_refl; cbn [negb].
  unfold verifyParsed; cbn [run exec]; rewrite Horig, Hv; unfold acceptVerified.
  destruct (has_Status (cfg t)), (has_Accept (cfg t)); cbn [run exec]; rewrite ?Hs by done; cbn [run exec]; rewrite ?Ha by done; done.
Qed.

Lemma HandleResponse_right t r jwe result code s : live r s -> right_answer t r jwe result s -> tokens s (drawn s) = Some code ->
  exists a st, run exec (HandleResponse t jwe) s = ((a, None), set_store (if SameDevice r then drew_token s else s) st) /\
    answered_ID a = ID r /\
    answered_RedirectURI a = (if SameDevice r then with_query (RedirectURI (cfg t)) "response_code" code else EmptyString) /\
    store_ok st /\ codes_ok st /\
    exists tx : Transaction, request tx = r /\ ResponseCodeHash tx = EmptyString /\ view st !! ID r = Some (completed_as result code tx).
Proof using.
  intros Hl Hr Hcode; pose proof Hl as [Hok _ Hf (tx & Htx & <- & Hp)]; pose proof Hr as [Ho Horig [Hne Hkid] Htime _ _ _].
  pose proof (owns_Owner t tx Ho) as Hown; unfold HandleResponse; rewrite Hkid; cbn [run exec].
  rewrite (IDByKeyID_works (store s) (ID tx) tx Hok Htx Hne), run_pbind, (run_get t (ID tx) s tx Hok Htx Hown).
  rewrite Horig; cbn [String.eqb negb run exec].
  assert (Hpend : checkPending (Clock (world s)) tx = None) by (unfold checkPending; rewrite Hp; apply Z.ltb_lt in Htime; by rewrite Htime).
  rewrite Hpend, run_pbind, (run_right_verify t tx jwe result s Hr).
  pose proof (fresh_pending _ Hf _ _ Htx Hp) as Hnone; set (s0 := if SameDevice tx then drew_token s else s).
  assert (Hl0 : live tx s0) by (unfold s0; destruct (SameDevice tx); [by apply live_drew|done]).
  assert (Hs0 : SameDevice tx = true -> spare code s0) by (intros E; unfold s0; rewrite E; by apply drew_spare).
  assert (Ew : world s0 = world s /\ store s0 = store s) by (unfold s0; by destruct (SameDevice tx)); destruct Ew as [Ew Es].
  assert (Hv0 : view (store s0) !! ID tx = Some tx) by (by rewrite Es).
  assert (Hend : forall c uri, (if SameDevice tx then c = code else True) -> exists st,
    run exec (Do (update t (ID tx) (complete result c)) (fun x => match x with
        | Err e => refuse (storeFault e)
        | Ok _ => Return ({| answered_ID := ID tx; answered_RedirectURI := uri |}, None) end)) s0 =
      ({| answered_ID := ID tx; answered_RedirectURI := uri |}, None, set_store s0 st) /\ store_ok st /\ codes_ok st /\
      view st !! ID tx = Some (completed_as result code tx)).
  { intros c uri Hc; destruct (exec_complete tx t (ID tx) result c s0 tx Hl0 Hv0 Hown) as (st & E & Hokst & Hcst & Hview).
    { intros Hsd; rewrite Hsd in Hc; subst c; by apply Hs0. }
    exists st; cbn [run]; rewrite E, Ew, Hpend; split_and!; try done; rewrite Hview, Ew, Hpend, lookup_insert_eq; f_equal.
    unfold completed_as; destruct (SameDevice tx); [by rewrite Hc|done]. }
  destruct (SameDevice tx) eqn:Esd.
  - cbn [run exec]; fold (drew_token s); rewrite Hcode; fold s0.
    destruct (Hend code (with_query (RedirectURI (cfg t)) "response_code" code)) as (st & E & ? & ? & ?); [done|].
    eexists _, st; split_and!; [exact E|done..|by exists tx].
  - destruct (Hend EmptyString EmptyString) as (st & E & ? & ? & ?); [done|].
    eexists _, st; split_and!; [exact E|done..|by exists tx].
Qed.

(** ** The result *)

Lemma bindingMatches_begun (r : Request) b : BrowserBindingHash r = sha256 (string_bytes b) -> b <> EmptyString -> bindingMatches (BrowserBindingHash r) b = true.
Proof using. intros Hb Hne; unfold bindingMatches; apply String.eqb_neq in Hne; rewrite Hne; by apply bool_decide_eq_true_2. Qed.

Lemma run_Redeem t (tx : Transaction) code b result s : store_ok (store s) -> codes_ok (store s) -> owner t = Owner tx -> SameDevice tx = true ->
  code <> EmptyString -> hashToken code <> EmptyString -> view (store s) !! ID tx = Some (completed_as result code tx) ->
  Clock (world s) < ExpiresAt tx -> bindingMatches (BrowserBindingHash tx) b = true ->
  exists v s', run exec (Redeem t code b) s = (Ok v, s') /\ view_ID v = ID tx /\ view_Result v = Some result.
Proof using TransactionStoreWorks0.
  intros Hok Hcodes Ho Hsd Hne Hh Hv Ht Hb; unfold Redeem; apply String.eqb_neq in Hne; rewrite Hne; cbn [run exec].
  set (cur := completed_as result code tx) in *.
  assert (Ecur : Status cur = TransactionAwaitingRedirect /\ ResponseCodeHash cur = hashToken code /\ request cur = request tx /\ tx_Result cur = Some result)
    by (unfold cur, completed_as; by rewrite Hsd).
  destruct Ecur as (Es & Ec & Er & Eres); pose proof (IDByResponseCode_works (store s) (ID tx) cur Hok Hcodes Hv) as Hid.
  rewrite Ec in Hid; rewrite Hid by done.
  assert (Hred : redeem t (hashToken code) b (Clock (world s)) cur =
    Ok ((release t (with_progress cur TransactionDone "" (tx_Result cur) (LastError cur))).1,
        Some (viewOf (with_progress cur TransactionDone "" (tx_Result cur) (LastError cur)) TransactionDone))).
  { unfold redeem; rewrite Es, Ec; apply String.eqb_neq in Hh; rewrite Hh, String.eqb_refl, Er, Hb; apply Z.ltb_lt in Ht; by rewrite Ht. }
  destruct (exec_update t (ID tx) (redeem t (hashToken code) b) s cur Hok Hcodes) as (st & E & _); [|done|apply owns_Owner; by rewrite Er|..].
  - intros o o' x; unfold redeem; destruct (_ || _); [done|]; destruct (negb _); [done|]; destruct (negb _); [by intros [= <- _]|].
    intros [= <- _]; by destruct (ForgetResultOnRead _).
  - intros tx' x; rewrite Hred; intros [= <- _]; left; unfold release; by destruct (ForgetResultOnRead _).
  - rewrite Hred in E; cbn [run]; rewrite E; eexists _, _; split_and!; [done|cbn; by rewrite Er|done].
Qed.

Lemma run_Lookup t (tx : Transaction) code b result s : store_ok (store s) -> codes_ok (store s) -> owner t = Owner tx -> SameDevice tx = false ->
  view (store s) !! ID tx = Some (completed_as result code tx) -> ResponseCodeHash tx = EmptyString -> 0 <= Lifetime (cfg t) ->
  Clock (world s) < ExpiresAt tx -> bindingMatches (BrowserBindingHash tx) b = true ->
  exists v s', run exec (Lookup t (ID tx) b) s = (Ok v, s') /\ view_ID v = ID tx /\ view_Result v = Some result.
Proof using TransactionStoreWorks0.
  intros Hok Hcodes Ho Hsd Hv Hcode Hl Ht Hb; unfold Lookup; rewrite run_pbind.
  set (cur := completed_as result code tx) in *.
  assert (Ecur : Status cur = TransactionDone /\ ResponseCodeHash cur = EmptyString /\ request cur = request tx /\ tx_Result cur = Some result)
    by (unfold cur, completed_as; by rewrite Hsd).
  destruct Ecur as (Es & Ec & Er & Eres); assert (Hown : owns t cur = true) by (apply owns_Owner; by rewrite Er).
  rewrite (run_get t (ID tx) s cur Hok Hv Hown), Er, Hb; cbn [negb run exec].
  assert (El : lookup_status t (Clock (world s)) cur = TransactionDone).
  { unfold lookup_status; rewrite Es, Er; assert (Hlt : Clock (world s) < ExpiresAt tx + Lifetime (cfg t)) by lia.
    apply Z.ltb_lt in Hlt; by rewrite Hlt. }
  rewrite El, bool_decide_eq_true_2 by done; cbn [andb]; destruct (ForgetResultOnRead (cfg t)) eqn:Ef.
  2: { eexists _, _; split_and!; [done|cbn; by rewrite Er|done]. }
  unfold takeResult; destruct (exec_update t (ID tx) (fun _ cur => match Status cur with
    | TransactionDone => Ok (release t cur)
    | status => Ok (cur, viewOf cur status)
    end) s cur Hok Hcodes) as (st & E & _); [|done|done|..].
  - intros o o' x; destruct (Status o); intros [= <- _]; try done; by destruct (ForgetResultOnRead _).
  - intros tx' x; rewrite Es; intros [= <- _]; left; by rewrite Ef.
  - cbn [run]; rewrite E, Es; eexists _, _; split_and!; [done|cbn; by rewrite Er|done].
Qed.

(** C17: A request that is answered right comes to its result: however many wrong answers, error responses and answers to other requests arrived first, the wallet's answer that verifies is accepted, and the browser that began the request then gets that result - by redeeming the code of the redirect on the same device, or by looking it up. *)
Theorem answered_comes_to_result t r s s1 jwe result code b : live r s -> rtc (idle r) s s1 -> right_answer t r jwe result s1 ->
  tokens s1 (drawn s1) = Some code -> 0 <= Lifetime (cfg t) -> BrowserBindingHash r = sha256 (string_bytes b) -> b <> EmptyString ->
  exists a s2, run exec (HandleResponse t jwe) s1 = ((a, None), s2) /\ answered_ID a = ID r /\
    forall w, Clock w < ExpiresAt r ->
      exists v s3, view_ID v = ID r /\ view_Result v = Some result /\
        if SameDevice r then answered_RedirectURI a = with_query (RedirectURI (cfg t)) "response_code" code /\
          run exec (Redeem t code b) (set_world s2 w) = (Ok v, s3)
        else run exec (Lookup t (ID r) b) (set_world s2 w) = (Ok v, s3).
Proof using TransactionStoreWorks0.
  intros Hl0 Hidle Hr Hcode Hlife Hb Hne; pose proof (idles_live _ _ _ Hidle Hl0) as Hl.
  destruct (HandleResponse_right t r jwe result code s1 Hl Hr Hcode) as (a & st & Hrun & Hid & Huri & Hok & Hcodes & tx & <- & Hnone & Hv).
  eexists a, _; split_and!; [exact Hrun|done|]; intros w Hw; pose proof (bindingMatches_begun tx b Hb Hne) as Hbm.
  pose proof (right_owner _ _ _ _ _ Hr) as Ho; destruct Hl as [_ _ [F1 F2 F3 F4] (o & Hvo & Ereq & Hpo)]; destruct (F4 _ _ Hcode).
  destruct (SameDevice tx) eqn:Esd.
  - destruct (run_Redeem t tx code b result (set_world (set_store (drew_token s1) st) w)) as (v & s3 & ? & ? & ?); try done; eauto 10.
  - destruct (run_Lookup t tx code b result (set_world (set_store s1 st) w)) as (v & s3 & ? & ? & ?); try done; eauto 10.
Qed.
End Use.

(** ** An example *)

Section Example.
#[local] Open Scope string_scope.
#[local] Existing Instances example_contents example_deps.

Definition example_request (sameDevice : bool) : Transaction :=
  fresh (example_transactions true) 1000 "0" "k" "0.1" "n" example_query (Some tt) "o" "" "" example_binding sameDevice.

Definition example_open (sameDevice : bool) : shared (St:=VerifierTransactionStore) :=
  {| store := (Create 1000 (example_request sameDevice) NewVerifierTransactionStore).2; world := 1000; tokens := fun n => Some (String.String "t"%char (pretty n));
     drawn := 2; kept := fun _ => 0; refusals := [] |}.

Lemma hash_inj x y : hashToken x = hashToken y -> x = y.
Proof.
  unfold hashToken; cbn [sha256 example_deps]; intros E.
  assert (E' : string_bytes x = string_bytes y).
  { pose proof (b64_decode_string (string_bytes x) (string_bytes_ok x)) as H1.
    rewrite E, b64_decode_string in H1 by apply string_bytes_ok; congruence. }
  by rewrite <- (bytes_of_string x), E', bytes_of_string.
Qed.

Lemma hash_nonempty c s : hashToken (String.String c s) <> EmptyString.
Proof.
  unfold hashToken; cbn [sha256 example_deps]; intros E.
  pose proof (b64_decode_string (string_bytes (String.String c s)) (string_bytes_ok _)) as Hd; rewrite E in Hd; by vm_compute in Hd.
Qed.

Lemma example_live sameDevice : live (example_request sameDevice) (example_open sameDevice).
Proof.
  assert (Hview : view (store (example_open sameDevice)) = <["0" := example_request sameDevice]> ∅) by done.
  destruct (Create_works (St:=VerifierTransactionStore) 1000 (example_request sameDevice) NewVerifierTransactionStore) as (st & E & Hc & _);
    [exact example_store_ok|done|done|done|done|done|done|].
  pose proof (Create_law (St:=VerifierTransactionStore) 1000 (example_request sameDevice) NewVerifierTransactionStore example_store_ok eq_refl) as Hlaw.
  rewrite E in Hlaw; assert (Est : store (example_open sameDevice) = st) by (unfold example_open; cbn [store]; by rewrite E).
  split; [rewrite Est; apply Hlaw|by rewrite Est| |].
  - split.
    + intros n code id o _ [= <-]; rewrite Hview; intros [[_ <-]|[_ ?]]%lookup_insert_Some; [|done]; intros Eh; symmetry in Eh; by apply hash_nonempty in Eh.
    + intros id o; rewrite Hview; by intros [[_ <-]|[_ ?]]%lookup_insert_Some.
    + intros a b x y [= <-] [= <-] [= Eh]%hash_inj; by apply (inj pretty).
    + intros a x [= <-]; split; [done|apply hash_nonempty].
  - exists (example_request sameDevice); by rewrite Hview.
Qed.

(** A wrong answer arrives first, and time passes. *)
Definition example_refused (sameDevice : bool) : shared := (run exec (HandleResponse (example_transactions true) "refused") (example_open sameDevice)).2.
Definition example_later (sameDevice : bool) : shared := set_world (example_refused sameDevice) 1200.

Lemma example_idle sameDevice : rtc (idle (example_request sameDevice)) (example_open sameDevice) (example_later sameDevice).
Proof.
  eapply rtc_l; [|apply rtc_once, idle_world].
  destruct (run exec (HandleResponse (example_transactions true) "refused") (example_open sameDevice)) as [[a e] s] eqn:E.
  replace (example_refused sameDevice) with s by (unfold example_refused; by rewrite E).
  eapply idle_answer; [exact E|]; destruct sameDevice; vm_compute in E; injection E as <- <- _; done.
Qed.

Lemma answered_comes_to_result_witness : (forall sameDevice, live (example_request sameDevice) (example_open sameDevice)) /\ forall sameDevice, exists a s2 v s3,
  run exec (HandleResponse (example_transactions true) "0.1") (example_later sameDevice) = ((a, None), s2) /\
  view_Result v = Some "n" /\
  if sameDevice then run exec (Redeem (example_transactions true) "t2" example_binding) (set_world s2 1250) = (Ok v, s3)
  else run exec (Lookup (example_transactions true) "0" example_binding) (set_world s2 1250) = (Ok v, s3).
Proof.
  split; [apply example_live|]; intros sameDevice; destruct (answered_comes_to_result (example_transactions true) (example_request sameDevice) (example_open sameDevice)
    (example_later sameDevice) "0.1" "n" "t2" example_binding) as (a & s2 & Hrun & _ & Hres); [..|].
  - apply example_live.
  - apply example_idle.
  - split; try done. eexists; split_and!; by vm_compute.
  - destruct sameDevice; by vm_compute.
  - done.
  - done.
  - done.
  - destruct (Hres 1250) as (v & s3 & _ & Hv & Hrun'); [done|]; exists a, s2, v, s3; split_and!; [done..|].
    destruct sameDevice; [by destruct Hrun'|done].
Defined.
End Example.
